(* ===== verification/_CoqProject ===== *)
-Q . S2P
Prelude.v
Coding.v
Numbers.v
Glob.v
Bits.v
KeyFormat.v
Comparator.v
Doubles.v
ValueFormat.v
StreamFormat.v
RocksDB.v
LruCache.v
Redis.v
KeySpace.v
Random.v
Filters.v
Sample.v
Strings.v
StringSpec.v
StringWrite.v
StringCount.v
StringBit.v
StringWitness.v
BaseData.v
BaseSpec.v
BaseScan.v
BaseHolds.v
BaseWrite.v
BaseCursor.v
Hashes.v
HashRead.v
HashWrite.v
HashWitness.v
Sets.v
SetSpec.v
SetWrite.v
SetAlgebra.v
SetRandom.v
SetWitness.v
ZSets.v
ZSetSpec.v
ZSetWrite.v
ZSetRead.v
ZSetRange.v
ZSetRemove.v
ZSetLex.v
ZSetKey.v
ZSetStore.v
ZSetRun.v
ZSetWitness.v
Streams.v
StreamSpec.v
StreamRead.v
StreamWrite.v
StreamRun.v
StreamWitness.v
Lists.v
ListSpec.v
ListSample.v
ListRead.v
ListPush.v
ListUpdate.v
ListInsert.v
ListMove.v
ListRem.v
ListWitness.v
Compaction.v
Protocol.v
RedisParser.v
ParserSpec.v
InlineSpec.v
Env.v
EnvSpec.v
Transverter.v
Binlog.v
BinlogSpec.v
BinlogLog.v
BinlogGet.v
Replication.v
BinlogPad.v
