(* ===== verification/Prelude.v ===== *)
(** * The storage layer and the replication log of PikiwiDB

    PikiwiDB serves the Redis protocol from RocksDB.  Its storage layer,
    [src/src/storage/src], encodes Redis values into the column families of a
    RocksDB instance: one meta value per key in [kMetaCF] (type, count, version,
    times) and one entry per element in a data family of the type, keyed by the
    user key, a version and the element.  Emptying or deleting a key raises its
    version and leaves the old entries to the compaction filters, which drop
    entries whose meta value is gone, expired or newer.  A master writes the
    commands it has executed, as protocol text, into a log of numbered files
    ([src/src/pika_binlog.cc]); a reader follows the log, and the follower feeds
    what it gets to the request parser ([src/src/net/src/redis_parser.cc]).  This
    library models these parts and proves what they store, return and deliver.

    ** How the code is modelled

    Bytes are [list byte], machine integers are [Z] with their wrap-around
    written out ([u64], [u32], [i64], [i32]), a [std::string] that is written
    through a pointer is a byte list with [memcpy] at an offset, and bytes the
    code never initialises come from the class [Uninit]: any bytes, the same for
    two buffers of one length.  A computation that is undefined in C++ (a read
    outside a buffer, signed overflow of an argument, an index or a stored count,
    an object whose constructor left its members unset) is [None].  The counters
    of loops ([cnt], [del_cnt], [cur_index], offsets in a log file or a request)
    are kept at their width with [i32] instead; the theorems bound them by what
    they count.

    RocksDB is not part of the repository: it is the class [RocksDB] of
    operations with the laws [RocksDBLaws], which say that a healthy database
    is a sorted list of entries per column family, that a batch applies its
    writes in order, and where an iterator stands.  The instance [sorted_db]
    satisfies the laws, and every theorem is applied to it on concrete data.
    [ScoreLaws] adds the same for the score family, whose comparator orders
    entries only while no score is a NaN.  A score is the 64-bit pattern of a
    [double]; its arithmetic is that of [SpecFloat].

    A command of [Redis] is a function [M A := Redis -> option (A * Redis)] on
    the state of one instance: the database, the statistics cache, the cursor
    cache and the queue of background tasks.  Commands take the clock as an
    argument [now] (milliseconds); [clock_ok] keeps it below 2^63.  A command
    holds its record lock and reads one snapshot, so it is one atomic step.

    Files are a map from names to inodes and from inodes to contents ([FS]); the
    system calls that can fail are oracles of the class [Posix], with laws
    [PosixLaws] for a disk that has room.  A memory-mapped file writes through to
    its inode, so a reader sees what was appended.  The object at each end of the
    log is a record that is passed on; its locks make every operation one step.

    ** The files

    - [Prelude]: bytes, integers, comparison functions ([CompareOrder]), lists.
    - [Coding]: [coding.h].  [Numbers]: [ll2string], [string2int] and friends of
      [pstd_string.cc].  [Glob]: [stringmatchlen], [isTailWildcard].  [Bits]:
      bit counting and searching of the string commands.
    - [KeyFormat], [Comparator]: the key encoders and parsers and the
      comparators of the list and score families.
    - [ValueFormat], [StreamFormat]: the value formats and their setters; stream
      ids and stream, group, consumer and pending-entry values.
    - [Doubles]: [double] as bit patterns, and [FindShortestSeparator] of the
      score comparator.
    - [RocksDB]: the interface, its laws and the instance.
    - [LruCache]: [lru_cache.h] over a heap of handles, and the abstract cache.
    - [Redis]: the instance, its helpers and the command monad ([redis.h],
      [redis.cc]).  [KeySpace]: what the commands of all types share in proofs.
      [Sample]: a concrete engine.
    - [Filters]: the compaction filters.  [Compaction]: runs of the filters
      over a database with lists.
    - [Strings] models [redis_strings.cc]; [StringSpec] (reads), [StringWrite],
      [StringCount] (numbers, expiry), [StringBit] prove it.
    - [Lists] models [redis_lists.cc]; [ListSpec], [ListRead], [ListPush]
      (and pops), [ListUpdate] (and expiry), [ListInsert], [ListMove],
      [ListRem] prove it.
    - [BaseData] models what hashes, sets and zsets share (reading the meta
      value, key-level commands, iterator loops); [BaseSpec], [BaseScan],
      [BaseHolds] (and expiry), [BaseWrite] (batches, other keys) and
      [BaseCursor] (scans) prove it for any such type.
    - [Hashes] models [redis_hashes.cc]; [HashRead] and [HashWrite] prove it.
    - [Random]: the random engine of the C++ library as a class with laws, and
      the engine of libstdc++ as its instance.
    - [Sets] models [redis_sets.cc]; [SetSpec] (and reads), [SetWrite],
      [SetAlgebra] (and the store commands), [SetRandom] (and SSCAN) prove it.
    - [ZSets] models [redis_zsets.cc]; [ZSetSpec] (what an engine holds),
      [ZSetWrite], [ZSetRead] (the order of the score index and the loops over
      it), [ZSetRange], [ZSetRemove], [ZSetLex], [ZSetKey] (key-level commands
      and ZSCAN) and [ZSetStore] (union and intersection) prove it; [ZSetRun] is
      the state machine of the commands that write.
    - [Streams] models [redis_streams.cc]; [StreamSpec] (scans of a version),
      [StreamRead] (what an engine holds, reads, identifiers and messages as
      text) and [StreamWrite] prove it; [StreamRun] is the state machine of the
      commands that write.
    - [Protocol]: replies and the protocol text of a command ([pika_command.h]).
      [RedisParser] models [redis_parser.cc]; [ParserSpec] (commands in pieces)
      and [InlineSpec] (inline requests, errors) prove it.
    - [Env] models the files of [env.cc]; [EnvSpec] proves that a mapped file
      holds what was appended, and zeros.
    - [Transverter]: the items of the log ([pika_binlog_transverter.cc]).
      [Binlog] models [pika_binlog.cc] and [pika_binlog_reader.cc]; [BinlogSpec]
      (how [Produce] frames an item and [Consume] reads it), [BinlogLog] (the
      files of a log), [BinlogGet] (and opening a log) and [BinlogPad] (logs that
      start with padding) prove it.
    - [Replication]: the log, its reader and restarts as a state machine, composed
      with the parser.
    - [StringWitness], [ListSample], [ListWitness], [HashWitness],
      [SetWitness], [ZSetWitness], [StreamWitness]: the theorems applied to concrete engines.

    ** What the theorems show

    Formats: keys and values decode to what was encoded; the comparators order
    encoded keys as the fields; a parsed meta value and the bytes it writes
    through stay in step under every setter.  Two encoders lose data
    ([EncodeUserKey_suffix_lost], [stream_group_meta_misplaced]).

    Cache: the pointer structure of the LRU cache refines an abstract cache for
    every sequence of operations, and never exceeds its capacity.

    Commands: a relation per type ([str_holds], [holds], [base_holds]) says what
    a database stores under a key for the user: a string, a list, a finite map,
    with its expiry time, or nothing (absent, expired, emptied, or a stale
    value of another type).  For each command a theorem takes any state in such
    a relation and gives the result on every branch, what the key holds
    afterwards, and that nothing else changed.  For keys with members the
    relation also says that no later version has entries; this is what makes a
    key that is deleted and created again start empty.

    Sets: the algebra and store commands compute the difference, intersection
    and union of what their keys hold; SPOP and SRANDMEMBER end for any engine
    that reaches every residue and take members of the set.

    Sorted sets: [zset_holds] says that the member index, the score index and
    the count of a key describe one map from members to scores.  Every command
    answers from that map: by rank, by score, by member, in the order of the
    scores and then of the members.  By rule induction over runs of the commands
    that write, the indices stay in step for all keys at once
    ([zset_indices_agree]).  Scores are finite and below the largest double, the
    range in which the commands seek; [infinite_score_missed] shows the other
    side.  The separators RocksDB puts into its index lie between the keys they
    separate, unless adding 1 does not change a score ([separator_below]).

    Streams: [stream_holds] says that the messages under the version of a key are
    those of a list sorted by identifier, and that the meta value has their
    number, the first identifier and a bound on the others.  XADD takes the least
    identifier its arguments leave open; XTRIM and XDEL leave the right messages.
    By rule induction over runs of the commands that write, the engine refines an
    abstract machine ([streams_refine_machine]).  The theorems exclude what the
    code gets wrong: a clock behind the last identifier ([XAdd_clock_behind]),
    MINID between two messages ([XTrim_minid_hangs]), XDEL of the last message
    (the example [XTrim_keeps_oldest]) or of one message twice
    ([XDel_counts_twice]), XREVRANGE from the greatest identifier, which seeks at
    the version plus 1 in the order of its little-endian bytes.

    Scans: HSCAN, HSCANX, SSCAN and ZSCAN, called until they report the end, terminate
    and return every matching member once, HSCAN and SSCAN through the cursor
    cache; SSCAN for members without a NUL ([SScan_stuck]).

    Patterns: [stringmatchlen] decides whether a string matches the tokens of a
    pattern, unless a class of the pattern ends in a dangling backslash
    ([stringmatchlen_correct]).

    Compaction: a data filter removes an entry exactly when its key has no meta
    value, one of another type, one that has expired or one of a later version
    ([data_filters_exact]); entries of a key that counts no elements and entries of
    later versions stay.  Whatever a sequence of compactions of the meta and the
    list family removes while no command runs, every key holds the list it held
    ([compaction_keeps_lists]).

    Parser: any sequence of commands, written by [ToRedisProtocol] and cut into
    non-empty pieces in any way, is dealt command by command, and the parser is as
    it was before; an inline request is dealt as the arguments its quoting means.

    Log: an item is framed into records that never cross a block, and read back
    from them; an invariant relates the files, the version on disk and the items.
    By rule induction over puts, reads, restarts and closings, a reader always
    has got a prefix of what was put, and the next [Get] returns the next item
    ([reader_follows_log]); with the parser, the follower deals the commands of
    the master ([commands_replicated]).

    Theorems whose names say so ([..._lost], [..._drops_update],
    [..._overwritten], [..._resurrected] and the like) prove behaviours that the
    code cannot intend.

    ** Bounds and fuel

    Loops over an iterator take fuel; the theorems give a bound that suffices
    (the length of the data family, the number of messages, or the distance of two
    list indices) and
    prove that the loop returns; a read of the log takes the length of the file,
    or the number of files; loops that draw numbers until they find a new one
    take as many draws as the engine needs to reach every residue. Theorems
    assume, where the code does, that list indices stay off the ends of the
    64-bit range ([room]), that a version can still be incremented
    ([version_room]), that a log file stays below 2^31 bytes and a log below
    2^32 items and that a hash has fewer than 2^31 - 1 fields; [hash_full] and
    [range_sum_wraps] show the other side. Keys satisfy [key_ok]: they contain
    no NUL or end in one (see [EncodeUserKey_suffix_lost]).

    ** Not modelled

    [HIncrbyfloat] and [Incrbyfloat], which compute in long double; HyperLogLog; commands that only log ([ScanLists], [ScanHashes],
    [ScanSets], [ScanZsets]); the
    front end [storage.cc], which dispatches to instances by slot and merges
    scans; snapshots and locks, beyond the atomicity they give.  Outside these
    parts: the server's commands, the threads and messages of replication, event
    loops and sockets, access control, configuration and tools. *)

From Stdlib Require Export ZArith Lia.
From Stdlib Require Export Strings.Byte.
From stdpp Require Export prelude gmap strings.

(** ** Bytes *)

Abbreviation byte := Init.Byte.byte.
Abbreviation bytes := (list Init.Byte.byte).

#[export] Instance byte_eq_decision : EqDecision byte := Byte.byte_eq_dec.

(** [static_cast<uint8_t>(c)] *)
Definition Z_of_byte (b : byte) : Z := Z.of_N (Byte.to_N b).

(** [static_cast<char>(z)]: the low eight bits. *)
Definition byte_of_Z (z : Z) : byte :=
  match Byte.of_N (Z.to_N (z mod 256)) with
  | Some b => b
  | None => x00
  end.

(** A C++ string literal as its bytes. *)
Definition lit (s : string) : bytes := String.list_byte_of_string s.

(** ** Machine integers: a [w]-bit integer is a [Z] kept in its range *)

Definition u64 (z : Z) : Z := z mod 2 ^ 64.
Definition u32 (z : Z) : Z := z mod 2 ^ 32.
Definition i64 (z : Z) : Z := (z + 2 ^ 63) mod 2 ^ 64 - 2 ^ 63.
Definition i32 (z : Z) : Z := (z + 2 ^ 31) mod 2 ^ 32 - 2 ^ 31.

(** An [int32_t] result; overflow is undefined. *)
Definition i32_val (z : Z) : option Z :=
  if (- 2 ^ 31 <=? z)%Z && (z <? 2 ^ 31)%Z then Some z else None.

Definition INT32_MAX : Z := 2 ^ 31 - 1.

Definition is_u64 (z : Z) : Prop := (0 <= z < 2 ^ 64)%Z.
Definition is_u32 (z : Z) : Prop := (0 <= z < 2 ^ 32)%Z.
Definition is_i64 (z : Z) : Prop := (- 2 ^ 63 <= z < 2 ^ 63)%Z.

(** [n] bytes of [z], least significant first, and back. *)
Fixpoint le_bytes (n : nat) (z : Z) : bytes :=
  match n with
  | O => []
  | S n => byte_of_Z z :: le_bytes n (z / 256)
  end.

Fixpoint le_value (l : bytes) : Z :=
  match l with
  | [] => 0
  | b :: l => Z_of_byte b + 256 * le_value l
  end.

(** ** Memory *)

(** [memcpy(buf + dst, src, src.size())] on a buffer given by its contents. *)
Definition memcpy (buf : bytes) (dst : nat) (src : bytes) : bytes :=
  take dst buf ++ src ++ drop (dst + length src) buf.

(** [Slice(data + off, len)] *)
Definition subseq (off len : nat) (l : bytes) : bytes := take len (drop off l).

(** Contents of freshly allocated memory ([char space_[200]], [new char[n]]):
    [n] bytes about which nothing else is known. *)
Class Uninit := {
  uninit : nat -> bytes;
  uninit_length : forall n, length (uninit n) = n
}.

(** Lengths of buffers and of what is written into them. *)
Create Rewrite HintDb len.
#[export] Hint Rewrite @length_app @length_take @length_drop @length_replicate
  @uninit_length : len.

(** ** Three-way comparisons *)

(** [rocksdb::Slice::compare] / [std::string::compare]: [memcmp] on the common
    length, the shorter one first on a tie. *)
Fixpoint bytes_compare (a b : bytes) : comparison :=
  match a, b with
  | [], [] => Eq
  | [], _ :: _ => Lt
  | _ :: _, [] => Gt
  | x :: a, y :: b =>
      match Z.compare (Z_of_byte x) (Z_of_byte y) with
      | Eq => bytes_compare a b
      | c => c
      end
  end.

(** Continue with [d] when [c] is a tie. *)
Definition thenc (c d : comparison) : comparison :=
  match c with Eq => d | _ => c end.

(** A comparison function that orders its type totally, up to its own ties. *)
Class CompareOrder {A} (cmp : A -> A -> comparison) : Prop := {
  cmp_refl : forall x, cmp x x = Eq;
  cmp_sym : forall x y, cmp y x = CompOpp (cmp x y);
  cmp_trans : forall x y z, cmp x y = Lt -> cmp y z = Lt -> cmp x z = Lt;
  cmp_eq_l : forall x y z, cmp x y = Eq -> cmp x z = cmp y z
}.

(** ** Facts about bytes and fixed-width integers *)

Lemma Z_of_byte_range b : (0 <= Z_of_byte b < 256)%Z.
Proof.
  unfold Z_of_byte. pose proof (Byte.to_N_bounded b). lia.
Qed.

Lemma Z_of_byte_inj b1 b2 : Z_of_byte b1 = Z_of_byte b2 -> b1 = b2.
Proof.
  unfold Z_of_byte. intros H%N2Z.inj.
  pose proof (Byte.of_to_N b1) as H1. pose proof (Byte.of_to_N b2) as H2.
  rewrite H in H1. congruence.
Qed.

Lemma Z_of_byte_of_Z z : Z_of_byte (byte_of_Z z) = (z mod 256)%Z.
Proof.
  unfold byte_of_Z, Z_of_byte.
  pose proof (Z.mod_pos_bound z 256 ltac:(lia)) as Hz.
  destruct (Byte.of_N _) as [b|] eqn:E.
  - apply Byte.to_of_N in E. rewrite E. lia.
  - apply Byte.of_N_None_iff in E. lia.
Qed.

Lemma byte_of_Z_of_byte b : byte_of_Z (Z_of_byte b) = b.
Proof.
  apply Z_of_byte_inj. rewrite Z_of_byte_of_Z.
  apply Z.mod_small, Z_of_byte_range.
Qed.

#[export] Instance byte_countable : Countable byte.
Proof.
  refine (inj_countable' Z_of_byte byte_of_Z _). apply byte_of_Z_of_byte.
Defined.

Lemma u64_range z : is_u64 (u64 z).
Proof. apply Z.mod_pos_bound. lia. Qed.

Lemma u64_id z : is_u64 z -> u64 z = z.
Proof. apply Z.mod_small. Qed.

(** Adding or subtracting the 64-bit negation of a number. *)
Lemma u64_add_neg a b : u64 (a + u64 (- b)) = u64 (a - b).
Proof. unfold u64. by rewrite Zplus_mod_idemp_r. Qed.
Lemma u64_sub_neg a b : u64 (a - u64 (- b)) = u64 (a + b).
Proof. unfold u64. rewrite Zminus_mod_idemp_r. f_equal. lia. Qed.

(** One turn past either end. *)
Lemma u64_over z : (2 ^ 64 <= z < 2 * 2 ^ 64)%Z -> u64 z = (z - 2 ^ 64)%Z.
Proof. intros H. unfold u64. symmetry. apply (Z.mod_unique _ _ 1); lia. Qed.
Lemma u64_under z : (- 2 ^ 64 <= z < 0)%Z -> u64 z = (z + 2 ^ 64)%Z.
Proof. intros H. unfold u64. symmetry. apply (Z.mod_unique _ _ (-1)); lia. Qed.

Lemma u32_range z : is_u32 (u32 z).
Proof. apply Z.mod_pos_bound. lia. Qed.

Lemma u32_id z : is_u32 z -> u32 z = z.
Proof. apply Z.mod_small. Qed.

Lemma i64_id z : (- 2 ^ 63 <= z < 2 ^ 63)%Z -> i64 z = z.
Proof. intros H. unfold i64. rewrite Z.mod_small; lia. Qed.

Lemma i32_id z : (- 2 ^ 31 <= z < 2 ^ 31)%Z -> i32 z = z.
Proof. intros H. unfold i32. rewrite Z.mod_small; lia. Qed.
Lemma i32_val_id z : (- 2 ^ 31 <= z < 2 ^ 31)%Z -> i32_val z = Some z.
Proof. intros H. unfold i32_val. by rewrite (proj2 (Z.leb_le _ _)), (proj2 (Z.ltb_lt _ _)) by lia. Qed.

Lemma length_le_bytes n z : length (le_bytes n z) = n.
Proof. revert z; induction n; intros; simpl; auto. Qed.

Lemma le_value_le_bytes n z :
  le_value (le_bytes n z) = (z mod 2 ^ (8 * Z.of_nat n))%Z.
Proof.
  revert z; induction n as [|n IH]; intros z.
  - simpl. rewrite Z.mod_1_r. done.
  - cbn [le_bytes le_value]. rewrite IH, Z_of_byte_of_Z.
    replace (8 * Z.of_nat (S n))%Z with (8 + 8 * Z.of_nat n)%Z by lia.
    rewrite Z.pow_add_r, (Z.rem_mul_r z (2 ^ 8)) by lia.
    done.
Qed.

Lemma le_value_range l : (0 <= le_value l < 2 ^ (8 * Z.of_nat (length l)))%Z.
Proof.
  induction l as [|b l IH]; [simpl; lia|].
  cbn [le_value length]. pose proof (Z_of_byte_range b).
  replace (8 * Z.of_nat (S (length l)))%Z with (8 + 8 * Z.of_nat (length l))%Z by lia.
  rewrite Z.pow_add_r by lia. change (2 ^ 8)%Z with 256%Z. nia.
Qed.

Lemma le_bytes_le_value l : le_bytes (length l) (le_value l) = l.
Proof.
  induction l as [|b l IH]; [done|].
  cbn [le_value length le_bytes]. pose proof (Z_of_byte_range b) as Hb. f_equal.
  - apply Z_of_byte_inj. rewrite Z_of_byte_of_Z.
    rewrite (Z.mul_comm 256), Z.mod_add by lia. apply Z.mod_small; lia.
  - rewrite (Z.mul_comm 256), Z.div_add by lia.
    rewrite Z.div_small by lia. done.
Qed.

Lemma le_bytes_inj n x y :
  (0 <= x < 2 ^ (8 * Z.of_nat n))%Z -> (0 <= y < 2 ^ (8 * Z.of_nat n))%Z ->
  le_bytes n x = le_bytes n y -> x = y.
Proof.
  intros Hx Hy H. apply (f_equal le_value) in H.
  rewrite !le_value_le_bytes, !Z.mod_small in H; auto.
Qed.

(** ** Facts about buffers *)

Lemma memcpy_app a b c src :
  length b = length src -> memcpy (a ++ b ++ c) (length a) src = a ++ src ++ c.
Proof.
  intros H. unfold memcpy. rewrite take_app_length.
  rewrite drop_app_add, <- H, drop_app_length. done.
Qed.

Lemma memcpy_app' a b c src n :
  n = length a -> length b = length src -> memcpy (a ++ b ++ c) n src = a ++ src ++ c.
Proof. intros ->. apply memcpy_app. Qed.

Lemma length_memcpy buf dst src :
  dst + length src <= length buf -> length (memcpy buf dst src) = length buf.
Proof.
  intros H. unfold memcpy. rewrite !length_app, length_take, length_drop. lia.
Qed.

(** A buffer splits at any offset inside it. *)
Lemma split_at (l : bytes) n :
  n <= length l -> exists a b, l = a ++ b /\ length a = n.
Proof.
  intros H. exists (take n l), (drop n l). rewrite take_drop, length_take. split; [done|lia].
Qed.

Lemma subseq_app a b c n m :
  n = length a -> m = length b -> subseq n m (a ++ b ++ c) = b.
Proof.
  intros -> ->. unfold subseq. rewrite drop_app_length, take_app_length. done.
Qed.

(** ** Byte strings as concatenated fields *)

(** Any byte string is a concatenation of fields of given sizes. *)
Lemma chunks_exist sizes : forall l : bytes,
  length l = sum_list sizes -> exists L, l = concat L /\ map length L = sizes.
Proof.
  induction sizes as [|n sizes IH]; intros l Hl; simpl in Hl.
  - apply nil_length_inv in Hl as ->. by exists [].
  - destruct (split_at l n) as (a & b & -> & Ha); [lia|].
    rewrite length_app in Hl. destruct (IH b) as (L & -> & HL); [lia|].
    exists (a :: L). simpl. by rewrite Ha, HL.
Qed.

Lemma length_chunks (L : list bytes) : length (concat L) = sum_list (map length L).
Proof. induction L as [|a L IH]; simpl; [done|]. by rewrite length_app, IH. Qed.

(** Reading at, and writing to, the [k]th field. *)
Lemma drop_chunk k (L : list bytes) n :
  n = length (concat (take k L)) -> drop n (concat L) = concat (drop k L).
Proof.
  intros ->. rewrite <- (take_drop k L) at 2. by rewrite concat_app, drop_app_length.
Qed.

Lemma take_chunk k (L : list bytes) n :
  n = length (concat (take k L)) -> take n (concat L) = concat (take k L).
Proof.
  intros ->. rewrite <- (take_drop k L) at 2. by rewrite concat_app, take_app_length.
Qed.

Lemma drop_chunk_nth k (L : list bytes) n :
  k < length L -> n = length (concat (take k L)) ->
  drop n (concat L) = nth k L [] ++ concat (drop (S k) L).
Proof.
  intros Hk Hn. rewrite (drop_chunk k) by done.
  destruct (lookup_lt_is_Some_2 L k Hk) as [b Hb].
  rewrite (drop_S L b k Hb). simpl. f_equal. symmetry.
  by apply nth_lookup_Some with (d := []) in Hb.
Qed.

Lemma subseq_chunk k (L : list bytes) n m :
  k < length L -> n = length (concat (take k L)) -> m = length (nth k L []) ->
  subseq n m (concat L) = nth k L [].
Proof.
  intros Hk Hn ->. unfold subseq. by rewrite (drop_chunk_nth k), take_app_length.
Qed.

Lemma memcpy_chunk k (L : list bytes) n b src :
  L !! k = Some b -> length b = length src -> n = length (concat (take k L)) ->
  memcpy (concat L) n src = concat (<[k:=src]> L).
Proof.
  intros Hk Hb ->. rewrite <- (take_drop_middle L k b Hk) at 1.
  rewrite concat_app. simpl concat.
  rewrite memcpy_app by done. rewrite insert_take_drop by (by eapply lookup_lt_Some).
  by rewrite concat_app.
Qed.

(** Case analysis on the integer comparisons of the goal, innermost first. *)
Ltac cmp_cases :=
  repeat match goal with
  | |- context [Z.ltb ?a ?b] =>
      lazymatch a with context [if _ then _ else _] => fail | _ => idtac end;
      lazymatch b with context [if _ then _ else _] => fail | _ => idtac end;
      destruct (Z.ltb_spec a b)
  | |- context [Z.leb ?a ?b] =>
      lazymatch a with context [if _ then _ else _] => fail | _ => idtac end;
      lazymatch b with context [if _ then _ else _] => fail | _ => idtac end;
      destruct (Z.leb_spec a b)
  end.

(** Names the fields of a byte string of known size. *)
Ltac chunk_hyp HL :=
  repeat match type of HL with
  | map length ?L = _ :: _ =>
      is_var L; let c := fresh "c" in destruct L as [|c L]; [discriminate HL|];
      let E := fresh "Ec" in
      cbn [map] in HL; injection HL as E HL
  | map length ?L = [] => is_var L; destruct L; [clear HL|discriminate HL]
  end.

(** ** Comparison functions that order *)

Lemma thenc_Eq c d : thenc c d = Eq <-> c = Eq /\ d = Eq.
Proof. destruct c; simpl; intuition congruence. Qed.

#[export] Instance Z_compare_order : CompareOrder Z.compare.
Proof.
  constructor.
  - apply Z.compare_refl.
  - intros. apply Z.compare_antisym.
  - intros x y z. rewrite !Z.compare_lt_iff. lia.
  - intros x y z. rewrite Z.compare_eq_iff. intros ->. done.
Qed.

(** Pulling a comparison back along a function keeps it an order. *)
Lemma compare_order_pullback {A B} (f : A -> B) (cmp : B -> B -> comparison) :
  CompareOrder cmp -> CompareOrder (fun x y => cmp (f x) (f y)).
Proof.
  intros H. constructor; intros.
  - apply cmp_refl.
  - apply cmp_sym.
  - by eapply cmp_trans.
  - by apply cmp_eq_l.
Qed.

Lemma compare_order_ext {A} (c1 c2 : A -> A -> comparison) :
  (forall x y, c2 x y = c1 x y) -> CompareOrder c1 -> CompareOrder c2.
Proof.
  intros E H. constructor; intros *; rewrite ?E.
  - apply cmp_refl.
  - apply cmp_sym.
  - apply cmp_trans.
  - apply cmp_eq_l.
Qed.

(** Lexicographic composition. *)
Lemma compare_order_thenc {A} (c1 c2 : A -> A -> comparison) :
  CompareOrder c1 -> CompareOrder c2 ->
  CompareOrder (fun x y => thenc (c1 x y) (c2 x y)).
Proof.
  intros H1 H2. constructor.
  - intros x. rewrite !cmp_refl. done.
  - intros x y. rewrite (cmp_sym (cmp:=c1) x y), (cmp_sym (cmp:=c2) x y).
    destruct (c1 x y); done.
  - intros x y z Hxy Hyz.
    destruct (c1 x y) eqn:E1; simpl in Hxy; [| |done].
    + rewrite (cmp_eq_l x y z E1).
      destruct (c1 y z); simpl in *; [|done..]. by eapply cmp_trans.
    + destruct (c1 y z) eqn:E2; simpl in Hyz; [| |done].
      * assert (c1 x z = Lt) as ->; [|done].
        rewrite cmp_sym. rewrite <- (cmp_eq_l y z x E2), cmp_sym, E1. done.
      * by rewrite (cmp_trans x y z E1 E2).
  - intros x y z [E1 E2]%thenc_Eq.
    rewrite (cmp_eq_l x y z E1), (cmp_eq_l x y z E2). done.
Qed.

Definition option_compare {A} (cmp : A -> A -> comparison) (x y : option A) : comparison :=
  match x, y with
  | None, None => Eq
  | None, Some _ => Lt
  | Some _, None => Gt
  | Some a, Some b => cmp a b
  end.

#[export] Instance option_compare_order {A} (cmp : A -> A -> comparison) :
  CompareOrder cmp -> CompareOrder (option_compare cmp).
Proof.
  intros H. constructor.
  - intros [x|]; simpl; [apply cmp_refl|done].
  - intros [x|] [y|]; simpl; try done. apply cmp_sym.
  - intros [x|] [y|] [z|]; simpl; try done. apply cmp_trans.
  - intros [x|] [y|] [z|]; simpl; try done. apply cmp_eq_l.
Qed.

Lemma bytes_compare_cons x a y b :
  bytes_compare (x :: a) (y :: b) =
  thenc (Z.compare (Z_of_byte x) (Z_of_byte y)) (bytes_compare a b).
Proof. simpl. by destruct (Z.compare _ _). Qed.

Lemma bytes_compare_refl a : bytes_compare a a = Eq.
Proof.
  induction a as [|x a IH]; [done|]. by rewrite bytes_compare_cons, cmp_refl.
Qed.

Lemma bytes_compare_eq a b : bytes_compare a b = Eq <-> a = b.
Proof.
  split; [|intros ->; apply bytes_compare_refl].
  revert b; induction a as [|x a IH]; intros [|y b]; try done.
  rewrite bytes_compare_cons, thenc_Eq, Z.compare_eq_iff.
  intros [->%Z_of_byte_inj ->%IH]. done.
Qed.

#[export] Instance bytes_compare_order : CompareOrder bytes_compare.
Proof.
  constructor.
  - apply bytes_compare_refl.
  - induction x as [|x a IH]; intros [|y b]; try done.
    rewrite !bytes_compare_cons, (cmp_sym (cmp:=Z.compare) (Z_of_byte x)), IH.
    by destruct (Z.compare _ _).
  - induction x as [|x a IH]; intros [|y b] [|z c]; try done.
    rewrite !bytes_compare_cons. pose proof (Z_of_byte_range x).
    destruct (Z.compare_spec (Z_of_byte x) (Z_of_byte y)),
             (Z.compare_spec (Z_of_byte y) (Z_of_byte z)); try done; simpl; intros.
    + replace (Z_of_byte x) with (Z_of_byte z) by lia. rewrite cmp_refl. by eapply IH.
    + by rewrite (proj2 (Z.compare_lt_iff _ _)) by lia.
    + by rewrite (proj2 (Z.compare_lt_iff _ _)) by lia.
    + by rewrite (proj2 (Z.compare_lt_iff _ _)) by lia.
  - intros x y z ->%bytes_compare_eq. done.
Qed.

(** A common prefix does not change the comparison of what follows. *)
Lemma bytes_compare_app_l p a b : bytes_compare (p ++ a) (p ++ b) = bytes_compare a b.
Proof.
  induction p as [|x p IH]; [done|]. simpl app. by rewrite bytes_compare_cons, cmp_refl.
Qed.

(** Prefixes of one length are compared first. *)
Lemma bytes_compare_app a : forall b x y,
  length a = length b ->
  bytes_compare (a ++ x) (b ++ y) = thenc (bytes_compare a b) (bytes_compare x y).
Proof.
  induction a as [|c a IH]; intros [|d b] x y H; try done.
  simpl app. rewrite !bytes_compare_cons, IH by (simpl in H; lia). by destruct (Z.compare _ _).
Qed.

Section CompareFacts.
  Context {A : Type} (cmp : A -> A -> comparison) `{Hord : !CompareOrder cmp}.

Lemma cmp_eq_r x y z : cmp y z = Eq -> cmp x y = cmp x z.
  Proof.
    intros H. rewrite (cmp_sym (cmp:=cmp) y x), (cmp_sym (cmp:=cmp) z x). f_equal. by apply cmp_eq_l.
  Qed.

Lemma cmp_eq_sym x y : cmp x y = Eq -> cmp y x = Eq.
  Proof. intros H. by rewrite cmp_sym, H. Qed.

Lemma cmp_Gt_Lt x y : cmp x y = Gt <-> cmp y x = Lt.
  Proof. rewrite (cmp_sym (cmp:=cmp) x y). by destruct (cmp x y). Qed.

Lemma cmp_le_lt_trans x y z : cmp x y <> Gt -> cmp y z = Lt -> cmp x z = Lt.
  Proof.
    intros Hxy Hyz. destruct (cmp x y) eqn:E; [| |done].
    - by rewrite (cmp_eq_l x y z E).
    - by eapply cmp_trans.
  Qed.

Lemma cmp_lt_le_trans x y z : cmp x y = Lt -> cmp y z <> Gt -> cmp x z = Lt.
  Proof.
    intros Hxy Hyz. destruct (cmp y z) eqn:E; [| |done].
    - by rewrite <- (cmp_eq_r x y z E).
    - by eapply cmp_trans.
  Qed.
End CompareFacts.

(** ** Ranges of positions *)

Section Ranges.
Local Open Scope Z_scope.

(** The position a possibly negative index denotes in a list of length [n]. *)
Definition redis_position (n index : Z) : Z := if 0 <=? index then index else n + index.

(** The sublist the Redis commands on ranges document: negative positions count
    from the end, positions beyond the ends are clamped. *)
Definition redis_range {A} (l : list A) (start stop : Z) : list A :=
  let n := Z.of_nat (length l) in
  drop (Z.to_nat (redis_position n start)) (take (Z.to_nat (redis_position n stop + 1)) l).

Lemma redis_range_slice {A} (l : list A) start stop :
  let n := Z.of_nat (length l) in
  let a := Z.max 0 (redis_position n start) in
  let b := Z.min (n - 1) (redis_position n stop) in
  redis_range l start stop =
  if a <=? b then take (Z.to_nat (b - a + 1)) (drop (Z.to_nat a) l) else [].
Proof.
  cbv zeta. unfold redis_range. set (s := redis_position _ start). set (t := redis_position _ stop).
  replace (take (Z.to_nat (t + 1)) l) with (take (Z.to_nat (Z.min (Z.of_nat (length l) - 1) t + 1)) l).
  2:{ destruct (Z_le_gt_dec t (Z.of_nat (length l) - 1)); [by rewrite Z.min_r by lia|].
      rewrite !take_ge by lia. done. }
  replace (Z.to_nat s) with (Z.to_nat (Z.max 0 s)) by lia.
  destruct (Z.leb_spec (Z.max 0 s) (Z.min (Z.of_nat (length l) - 1) t)).
  - rewrite skipn_firstn_comm. f_equal. lia.
  - apply drop_ge. rewrite length_take. lia.
Qed.

End Ranges.

Lemma filter_none {A} (P : A -> Prop) `{!forall x, Decision (P x)} (l : list A) :
  Forall (fun x => ~ P x) l -> filter P l = [].
Proof. induction 1; [done|]. by rewrite filter_cons_False. Qed.

Lemma filter_every {A} (P : A -> Prop) `{!forall x, Decision (P x)} (l : list A) : Forall P l -> filter P l = l.
Proof. induction 1 as [|x l Hx _ IH]; [done|]. by rewrite filter_cons_True, IH. Qed.

Lemma elem_of_rev {A} (x : A) l : x ∈ rev l <-> x ∈ l.
Proof. rewrite rev_alt. apply elem_of_reverse. Qed.

Lemma filter_rev {A} (P : A -> Prop) `{!forall x, Decision (P x)} (l : list A) : filter P (rev l) = rev (filter P l).
Proof.
  induction l as [|x l IH]; [done|]. cbn [rev]. rewrite filter_app, IH, !filter_cons, filter_nil.
  case_decide; [done|]. by rewrite app_nil_r.
Qed.

Lemma fmap_rev {A B} (f : A -> B) l : f <$> rev l = rev (f <$> l).
Proof. rewrite !rev_alt. apply fmap_reverse. Qed.
