(* ===== verification/Coding.v ===== *)
(** * Fixed-width integer coding ([src/src/storage/src/coding.h])

    [EncodeFixed32/64] write the little-endian image of an integer at a buffer
    position and [DecodeFixed32/64] read it back.  The header has two branches
    for each function, chosen by [kLittleEndian]: a [memcpy] of the machine
    word, and explicit byte extraction.  Both branches are modelled; the main
    definitions take the flag's [memcpy] branch (the image of a word in the
    memory of a little-endian machine is [le_bytes]) and the [_portable] ones
    the other.  The theorems show that the two agree, that decoding inverts
    encoding, and that encoding inverts decoding. *)

From S2P Require Import Prelude.
Open Scope Z_scope.

(** ** The functions *)

Definition EncodeFixed32 (value : Z) : bytes := le_bytes 4 value.

Definition EncodeFixed64 (value : Z) : bytes := le_bytes 8 value.

Definition DecodeFixed32 (ptr : bytes) : Z := le_value (take 4 ptr).

Definition DecodeFixed64 (ptr : bytes) : Z := le_value (take 8 ptr).

(** [buf[i] = (value >> 8*i) & 0xff] *)
Definition byte_at (value : Z) (i : Z) : byte :=
  byte_of_Z (Z.land (Z.shiftr value (8 * i)) 255).

Definition EncodeFixed32_portable (value : Z) : bytes :=
  [byte_at value 0; byte_at value 1; byte_at value 2; byte_at value 3].

Definition EncodeFixed64_portable (value : Z) : bytes :=
  [byte_at value 0; byte_at value 1; byte_at value 2; byte_at value 3;
   byte_at value 4; byte_at value 5; byte_at value 6; byte_at value 7].

(** [static_cast<uint32_t>(static_cast<unsigned char>(ptr[i]))]; a read past
    the end has no value in C++ and is 0 here. *)
Definition char_at (ptr : bytes) (i : nat) : Z :=
  match ptr !! i with Some b => Z_of_byte b | None => 0 end.

Definition DecodeFixed32_portable (ptr : bytes) : Z :=
  Z.lor (Z.lor (Z.lor (char_at ptr 0) (Z.shiftl (char_at ptr 1) 8))
               (Z.shiftl (char_at ptr 2) 16))
        (Z.shiftl (char_at ptr 3) 24).

Definition DecodeFixed64_portable (ptr : bytes) : Z :=
  let lo := DecodeFixed32_portable ptr in
  let hi := DecodeFixed32_portable (drop 4 ptr) in
  Z.lor (Z.shiftl hi 32) lo.

(** ** Lemmas *)

Lemma length_EncodeFixed32 v : length (EncodeFixed32 v) = 4%nat.
Proof. apply length_le_bytes. Qed.

Lemma length_EncodeFixed64 v : length (EncodeFixed64 v) = 8%nat.
Proof. apply length_le_bytes. Qed.

Lemma DecodeFixed64_app v rest :
  DecodeFixed64 (EncodeFixed64 v ++ rest) = u64 v.
Proof.
  unfold DecodeFixed64. rewrite take_app_length' by (by rewrite length_EncodeFixed64).
  apply le_value_le_bytes.
Qed.

Lemma DecodeFixed32_app v rest :
  DecodeFixed32 (EncodeFixed32 v ++ rest) = u32 v.
Proof.
  unfold DecodeFixed32. rewrite take_app_length' by (by rewrite length_EncodeFixed32).
  apply le_value_le_bytes.
Qed.

(** Only the first eight (four) bytes are read. *)
Lemma DecodeFixed64_field a b : length a = 8%nat -> DecodeFixed64 (a ++ b) = DecodeFixed64 a.
Proof.
  intros H. unfold DecodeFixed64. by rewrite take_app_length', firstn_all2 by lia.
Qed.

Lemma DecodeFixed32_field a b : length a = 4%nat -> DecodeFixed32 (a ++ b) = DecodeFixed32 a.
Proof.
  intros H. unfold DecodeFixed32. by rewrite take_app_length', firstn_all2 by lia.
Qed.

Lemma DecodeFixed64_chunk k (L : list bytes) n :
  (k < length L)%nat -> n = length (concat (take k L)) -> length (nth k L []) = 8%nat ->
  DecodeFixed64 (drop n (concat L)) = DecodeFixed64 (nth k L []).
Proof. intros Hk Hn H. by rewrite (drop_chunk_nth k), DecodeFixed64_field. Qed.

Lemma DecodeFixed32_chunk k (L : list bytes) n :
  (k < length L)%nat -> n = length (concat (take k L)) -> length (nth k L []) = 4%nat ->
  DecodeFixed32 (drop n (concat L)) = DecodeFixed32 (nth k L []).
Proof. intros Hk Hn H. by rewrite (drop_chunk_nth k), DecodeFixed32_field. Qed.

Lemma DecodeFixed64_EncodeFixed64 v : DecodeFixed64 (EncodeFixed64 v) = u64 v.
Proof. rewrite <- (app_nil_r (EncodeFixed64 v)). apply DecodeFixed64_app. Qed.

Lemma DecodeFixed32_EncodeFixed32 v : DecodeFixed32 (EncodeFixed32 v) = u32 v.
Proof. rewrite <- (app_nil_r (EncodeFixed32 v)). apply DecodeFixed32_app. Qed.

Lemma DecodeFixed64_range l : is_u64 (DecodeFixed64 l).
Proof.
  unfold DecodeFixed64, is_u64. pose proof (le_value_range (take 8 l)) as H.
  rewrite length_take in H.
  assert (2 ^ (8 * Z.of_nat (8 `min` length l)) <= 2 ^ 64) by (apply Z.pow_le_mono_r; lia).
  lia.
Qed.

Lemma EncodeFixed64_u64 v : EncodeFixed64 (u64 v) = EncodeFixed64 v.
Proof.
  unfold EncodeFixed64.
  rewrite <- (le_bytes_le_value (le_bytes 8 v)), length_le_bytes, le_value_le_bytes.
  done.
Qed.

Lemma EncodeFixed64_inj x y :
  is_u64 x -> is_u64 y -> EncodeFixed64 x = EncodeFixed64 y -> x = y.
Proof. apply (le_bytes_inj 8). Qed.

Lemma byte_at_spec v i : 0 <= i -> byte_at v i = byte_of_Z (v / 2 ^ (8 * i)).
Proof.
  intros Hi. unfold byte_at. apply Z_of_byte_inj. rewrite !Z_of_byte_of_Z.
  change 255 with (Z.ones 8). rewrite Z.land_ones, Z.shiftr_div_pow2 by lia.
  change (2 ^ 8) with 256. apply Z.mod_mod. lia.
Qed.

Lemma le_bytes_nth n v :
  le_bytes n v = (fun i => byte_of_Z (v / 2 ^ (8 * Z.of_nat i))) <$> seq 0 n.
Proof.
  revert v; induction n as [|n IH]; intros v; [done|].
  cbn [le_bytes seq fmap list_fmap]. f_equal.
  - by rewrite Z.div_1_r.
  - rewrite IH, <- seq_shift, <- list_fmap_compose. apply list_fmap_ext.
    intros i k _. unfold compose. f_equal.
    replace (8 * Z.of_nat (S k)) with (8 + 8 * Z.of_nat k) by lia.
    rewrite Z.pow_add_r, <- Z.div_div by lia. done.
Qed.

Lemma char_at_lookup ptr i b : ptr !! i = Some b -> char_at ptr i = Z_of_byte b.
Proof. unfold char_at. by intros ->. Qed.

(** Disjoint bit ranges add up. *)
Lemma lor_shiftl_add a b n : 0 <= a < 2 ^ n -> 0 <= n -> Z.lor a (Z.shiftl b n) = a + b * 2 ^ n.
Proof.
  intros Ha Hn. rewrite <- Z.shiftl_mul_pow2 by done.
  rewrite <- Z.lxor_lor; [symmetry; apply Z.add_nocarry_lxor|].
  all: apply Z.bits_inj'; intros i Hi; rewrite Z.land_spec, Z.bits_0.
  all: destruct (decide (i < n)).
  1,3: rewrite Z.shiftl_spec_low by lia; apply andb_false_r.
  all: rewrite <- (Z.mod_small a (2 ^ n)), Z.mod_pow2_bits_high by lia; done.
Qed.

Lemma DecodeFixed32_portable_eq b0 b1 b2 b3 rest :
  DecodeFixed32_portable (b0 :: b1 :: b2 :: b3 :: rest) = le_value [b0; b1; b2; b3].
Proof.
  unfold DecodeFixed32_portable, char_at. cbn [lookup list_lookup le_value].
  pose proof (Z_of_byte_range b0). pose proof (Z_of_byte_range b1).
  pose proof (Z_of_byte_range b2). pose proof (Z_of_byte_range b3).
  rewrite (lor_shiftl_add (Z_of_byte b0)) by lia.
  rewrite (lor_shiftl_add _ (Z_of_byte b2)) by lia.
  rewrite (lor_shiftl_add _ (Z_of_byte b3)) by lia. lia.
Qed.

(** ** Theorems *)

(** decoding inverts encoding: a [uint64_t] or [uint32_t] written with
    [EncodeFixed64]/[EncodeFixed32] is read back unchanged whatever bytes
    follow it, and the eight bytes read by [DecodeFixed64] are the ones
    [EncodeFixed64] writes for that value. *)
Theorem fixed_roundtrip v w l rest :
  is_u64 v -> is_u32 w -> length l = 8%nat ->
  DecodeFixed64 (EncodeFixed64 v ++ rest) = v /\
  DecodeFixed32 (EncodeFixed32 w ++ rest) = w /\
  EncodeFixed64 (DecodeFixed64 (l ++ rest)) = l.
Proof.
  intros Hv Hw Hl. rewrite DecodeFixed64_app, DecodeFixed32_app.
  split_and!; [by apply u64_id|by apply u32_id|].
  unfold DecodeFixed64. rewrite take_app_length' by done.
  unfold EncodeFixed64. rewrite <- Hl. apply le_bytes_le_value.
Qed.

Lemma fixed_roundtrip_witness :
  DecodeFixed64 (EncodeFixed64 18446744073709551615 ++ [x41]) = 18446744073709551615.
Proof.
  refine (proj1 (fixed_roundtrip 18446744073709551615 7 (EncodeFixed64 1) [x41] _ _ _));
    [unfold is_u64; lia | unfold is_u32; lia | reflexivity].
Defined.

(** The portable (big-endian host) branches compute the same bytes and the
    same values as the [memcpy] branches, so data files do not depend on the
    host's byte order. *)
Theorem coding_endian_independent v l :
  (8 <= length l)%nat ->
  EncodeFixed32_portable v = EncodeFixed32 v /\
  EncodeFixed64_portable v = EncodeFixed64 v /\
  DecodeFixed32_portable l = DecodeFixed32 l /\
  DecodeFixed64_portable l = DecodeFixed64 l.
Proof.
  intros Hl.
  do 8 (destruct l as [|? l]; [simpl in Hl; lia|]).
  split_and!.
  - unfold EncodeFixed32_portable, EncodeFixed32.
    rewrite le_bytes_nth, !byte_at_spec by lia. done.
  - unfold EncodeFixed64_portable, EncodeFixed64.
    rewrite le_bytes_nth, !byte_at_spec by lia. done.
  - apply DecodeFixed32_portable_eq.
  - unfold DecodeFixed64_portable, DecodeFixed64. cbn [drop take].
    rewrite !DecodeFixed32_portable_eq, Z.lor_comm.
    match goal with |- Z.lor (le_value ?x) _ = _ =>
      assert (0 <= le_value x < 2 ^ 32) by exact (le_value_range x) end.
    rewrite lor_shiftl_add, take_0 by lia. cbn [le_value]. lia.
Qed.

Lemma coding_endian_independent_witness :
  DecodeFixed64_portable (EncodeFixed64 258) = DecodeFixed64 (EncodeFixed64 258).
Proof.
  refine (proj2 (proj2 (proj2 (coding_endian_independent 0 (EncodeFixed64 258) _)))).
  vm_compute. lia.
Defined.
