(* ===== verification/Numbers.v ===== *)
(** * Integers as text

    [digits10], [ll2string] and the [string2int] overloads of
    [src/src/pstd/src/pstd_string.cc], and what the engine uses of the C
    library's [strtoll].  [decimal] is the usual decimal notation; printing is
    shown to write it and parsing to read exactly the numbers that fit. *)

From S2P Require Import Prelude.
Open Scope Z_scope.

(** ** Decimal notation *)

Definition digit (d : Z) : byte := byte_of_Z (48 + d).
Definition is_digit (c : byte) : bool := (48 <=? Z_of_byte c) && (Z_of_byte c <=? 57).
Definition digit_value (c : byte) : Z := Z_of_byte c - 48.

(** Twenty digits are enough below 2^64. *)
Fixpoint udecimal (fuel : nat) (n : Z) : bytes :=
  match fuel with
  | O => []
  | S fuel => if n <? 10 then [digit n] else udecimal fuel (n / 10) ++ [digit (n mod 10)]
  end.

(** [std::to_string] of an [int64_t]. *)
Definition decimal (z : Z) : bytes :=
  if z <? 0 then lit "-" ++ udecimal 20 (- z) else udecimal 20 z.

(** The number a sequence of digits denotes, after [acc]. *)
Definition digits_value (acc : Z) (s : bytes) : Z :=
  fold_left (fun v c => 10 * v + digit_value c) s acc.

(** The integers in text: an optional minus sign and at least one digit. *)
Definition natural (s : bytes) : option Z :=
  match s with
  | [] => None
  | _ => if forallb is_digit s then Some (digits_value 0 s) else None
  end.
Definition number (s : bytes) : option Z :=
  match s with
  | c :: s' => if decide (c = x2d) then Z.opp <$> natural s' else natural s
  | [] => None
  end.

Definition LLONG_MAX : Z := 2 ^ 63 - 1.
Definition LLONG_MIN : Z := - 2 ^ 63.
Definition ULLONG_MAX : Z := 2 ^ 64 - 1.

(** ** Printing *)

(** Two levels of recursion are enough below 2^64. *)
Fixpoint digits10 (fuel : nat) (v : Z) : Z :=
  if v <? 10 then 1
  else if v <? 100 then 2
  else if v <? 1000 then 3
  else if v <? 1000000000000 then
    if v <? 100000000 then
      if v <? 1000000 then
        if v <? 10000 then 4 else 5 + (if 100000 <=? v then 1 else 0)
      else 7 + (if 10000000 <=? v then 1 else 0)
    else if v <? 10000000000 then 9 + (if 1000000000 <=? v then 1 else 0)
    else 11 + (if 100000000000 <=? v then 1 else 0)
  else
    match fuel with
    | O => 12
    | S fuel => 12 + digits10 fuel (v / 1000000000000)
    end.

(** The pairs of digits 00 to 99. *)
Definition digits : bytes :=
  lit "0001020304050607080910111213141516171819" ++
  lit "2021222324252627282930313233343536373839" ++
  lit "4041424344454647484950515253545556575859" ++
  lit "6061626364656667686970717273747576777879" ++
  lit "8081828384858687888990919293949596979899".

(** [dst[i] = c]; [None] outside the buffer. *)
Definition store (dst : bytes) (i : Z) (c : byte) : option bytes :=
  if (0 <=? i) && (i <? Z.of_nat (length dst)) then Some (<[Z.to_nat i := c]> dst) else None.
Definition digits_at (i : Z) : byte := nth (Z.to_nat i) digits x00.

(** The loop on pairs of digits; 20 digits are ten rounds. *)
Fixpoint ll2string_loop (fuel : nat) (value next : Z) (dst : bytes) : option (Z * Z * bytes) :=
  match fuel with
  | O => None
  | S fuel =>
      if 100 <=? value then
        let i := value mod 100 * 2 in
        let value := value / 100 in
        dst ← store dst next (digits_at (i + 1));
        dst ← store dst (u32 (next - 1)) (digits_at i);
        ll2string_loop fuel value (u32 (next - 2)) dst
      else Some (value, next, dst)
  end.

(** The last one or two digits. *)
Definition ll2string_last (value next : Z) (dst : bytes) : option bytes :=
  if value <? 10 then store dst next (digit value)
  else
    let i := u32 (value * 2) in
    dst ← store dst next (digits_at (i + 1));
    store dst (u32 (next - 1)) (digits_at i).

(** The length written and the buffer. *)
Definition ll2string (dst : bytes) (dstlen : nat) (svalue : Z) : option (Z * bytes) :=
  let '(value, negative) :=
    if svalue <? 0 then
      (if svalue =? LLONG_MIN then u64 (LLONG_MAX + 1) else u64 (- svalue), 1)
    else (svalue, 0) in
  let length := u32 (digits10 1 value + negative) in
  if Z.of_nat dstlen <=? length then Some (0, dst)
  else
    let next := length in
    dst ← store dst next x00;
    let next := u32 (next - 1) in
    '(value, next, dst) ← ll2string_loop 10 value next dst;
    dst ← ll2string_last value next dst;
    dst ← (if negb (negative =? 0) then store dst 0 x2d else Some dst);
    Some (length, dst).

(** ** Parsing *)

(** [string2int(const char*, size_t, long long* )]: the value, or [None] for
    the result 0.  The pointer and its distance are the rest of the text. *)
Fixpoint skip_zeros (s : bytes) : bytes :=
  match s with
  | c :: s' => if decide (c = x30) then skip_zeros s' else s
  | [] => []
  end.

Fixpoint string2int_loop (v : Z) (s : bytes) : option (Z * bytes) :=
  match s with
  | c :: s' =>
      if is_digit c then
        if ULLONG_MAX / 10 <? v then None
        else
          let v := u64 (v * 10) in
          if u64 (ULLONG_MAX - digit_value c) <? v then None
          else string2int_loop (u64 (v + digit_value c)) s'
      else Some (v, s)
  | [] => Some (v, s)
  end.

Definition string2int (s : bytes) : option Z :=
  match s with
  | [] => None
  | c :: s' =>
      if decide (s = [x30]) then Some 0 else
      let '(negative, p) := if decide (c = x2d) then (true, s') else (false, s) in
      if negative && Nat.eqb (length p) 0 then None
      else
        match skip_zeros p with
        | [] => Some 0
        | c :: p =>
            if (49 <=? Z_of_byte c) && (Z_of_byte c <=? 57) then
              '(v, rest) ← string2int_loop (digit_value c) p;
              match rest with
              | _ :: _ => None
              | [] =>
                  if negative : bool then
                    if u64 (- (LLONG_MIN + 1)) + 1 <? v then None else Some (i64 (u64 (- v)))
                  else if LLONG_MAX <? v then None else Some (i64 v)
              end
            else None
        end
  end.

(** [string2int(const char*, size_t, long* )] and its [unsigned long*]
    overload, which compares with [static_cast<long long>(ULONG_MAX)]. *)
Definition string2long (s : bytes) : option Z :=
  llval ← string2int s;
  if (llval <? LLONG_MIN) || (LLONG_MAX <? llval) then None else Some llval.

Definition string2ulong (s : bytes) : option Z :=
  llval ← string2int s;
  if i64 ULLONG_MAX <? llval then None else Some (u64 llval).

(** [strtoll(s, &end, 10)] on the text of a C string: the value, the text at
    [end], and whether [errno] is ERANGE.  Without digits [end] is the start. *)
Definition is_space (c : byte) : bool :=
  (Z_of_byte c =? 32) || ((9 <=? Z_of_byte c) && (Z_of_byte c <=? 13)).

Fixpoint skip_spaces (s : bytes) : bytes :=
  match s with
  | c :: s' => if is_space c then skip_spaces s' else s
  | [] => []
  end.

Fixpoint span_digits (s : bytes) : bytes * bytes :=
  match s with
  | c :: s' => if is_digit c then let '(ds, rest) := span_digits s' in (c :: ds, rest) else ([], s)
  | [] => ([], [])
  end.

(** The text of [s.c_str()]. *)
Fixpoint c_str (s : bytes) : bytes :=
  match s with
  | c :: s => if decide (c = x00) then [] else c :: c_str s
  | [] => []
  end.

Definition strtoll (s : bytes) : Z * bytes * bool :=
  let '(negative, p) :=
    match skip_spaces s with
    | c :: p =>
        if decide (c = x2d) then (true, p) else if decide (c = x2b) then (false, p) else (false, c :: p)
    | [] => (false, [])
    end in
  let '(ds, rest) := span_digits p in
  match ds with
  | [] => (0, s, false)
  | _ =>
      let v := digits_value 0 ds in
      let v := if negative : bool then - v else v in
      if v <? LLONG_MIN then (LLONG_MIN, rest, true)
      else if LLONG_MAX <? v then (LLONG_MAX, rest, true)
      else (v, rest, false)
  end.

(** [strtoull(s, &end, 10)]: a minus sign negates modulo 2^64. *)
Definition strtoull (s : bytes) : Z * bytes * bool :=
  let '(negative, p) :=
    match skip_spaces s with
    | c :: p =>
        if decide (c = x2d) then (true, p) else if decide (c = x2b) then (false, p) else (false, c :: p)
    | [] => (false, [])
    end in
  let '(ds, rest) := span_digits p in
  match ds with
  | [] => (0, s, false)
  | _ =>
      let v := digits_value 0 ds in
      if ULLONG_MAX <? v then (ULLONG_MAX, rest, true)
      else (if negative : bool then u64 (- v) else v, rest, false)
  end.

(** ** Digits *)

(** [lia] on goals with divisions. *)
Ltac div_lia := Z.to_euclidean_division_equations; lia.

Lemma digit_spec d : 0 <= d < 10 ->
  Z_of_byte (digit d) = 48 + d /\ is_digit (digit d) = true /\ digit_value (digit d) = d.
Proof.
  intros Hd. unfold is_digit, digit_value, digit. rewrite Z_of_byte_of_Z, Z.mod_small by lia.
  split; [done|]. split; [|lia]. apply andb_true_intro. lia.
Qed.

Lemma digit_value_range c : is_digit c = true -> 0 <= digit_value c < 10.
Proof. unfold is_digit, digit_value. lia. Qed.

Lemma digits_value_app a s t : digits_value a (s ++ t) = digits_value (digits_value a s) t.
Proof. apply fold_left_app. Qed.

Lemma digits_value_ge s : forall v, forallb is_digit s = true -> 0 <= v -> v <= digits_value v s.
Proof.
  induction s as [|c s IH]; intros v Hs Hv; simpl in *; [lia|].
  apply andb_prop in Hs as [Hc Hs]. pose proof (digit_value_range c Hc).
  etransitivity; [|apply IH; [done|lia]]. lia.
Qed.

Lemma udecimal_is_digit fuel n : 0 <= n -> forallb is_digit (udecimal fuel n) = true.
Proof.
  revert n. induction fuel as [|fuel IH]; intros n Hn; [done|]. simpl.
  destruct (Z.ltb_spec n 10); simpl; [by rewrite (proj1 (proj2 (digit_spec n ltac:(lia))))|].
  rewrite forallb_app, IH by (apply Z.div_pos; lia). simpl.
  by rewrite (proj1 (proj2 (digit_spec (n mod 10) ltac:(div_lia)))).
Qed.

Lemma udecimal_value fuel n :
  0 <= n < 10 ^ Z.of_nat fuel -> digits_value 0 (udecimal fuel n) = n.
Proof.
  revert n. induction fuel as [|fuel IH]; intros n Hn; [simpl in *; lia|].
  simpl udecimal. destruct (Z.ltb_spec n 10).
  - simpl. rewrite (proj2 (proj2 (digit_spec n ltac:(lia)))). lia.
  - rewrite digits_value_app, IH.
    + simpl. rewrite (proj2 (proj2 (digit_spec (n mod 10) ltac:(div_lia)))). div_lia.
    + rewrite Nat2Z.inj_succ, Z.pow_succ_r in Hn by lia.
      split; [apply Z.div_pos; lia|apply Z.div_lt_upper_bound; lia].
Qed.

Lemma udecimal_length fuel k n : (k < fuel)%nat ->
  10 ^ Z.of_nat k <= n < 10 ^ Z.of_nat (S k) -> length (udecimal fuel n) = S k.
Proof.
  revert fuel n. induction k as [|k IH]; intros [|fuel] n Hk Hn; try lia; simpl udecimal.
  - by rewrite (proj2 (Z.ltb_lt n 10)) by (simpl in *; lia).
  - rewrite !Nat2Z.inj_succ, !Z.pow_succ_r in Hn by lia.
    assert (0 < 10 ^ Z.of_nat k) by (apply Z.pow_pos_nonneg; lia).
    rewrite (proj2 (Z.ltb_ge n 10)), length_app by lia. rewrite (IH fuel); [simpl; lia|lia|].
    rewrite Nat2Z.inj_succ, Z.pow_succ_r by lia.
    split; [apply Z.div_le_lower_bound; lia|apply Z.div_lt_upper_bound; lia].
Qed.

Lemma udecimal_small fuel n : (0 < fuel)%nat -> 0 <= n < 10 -> udecimal fuel n = [digit n].
Proof. destruct fuel; intros; [lia|]. simpl. by rewrite (proj2 (Z.ltb_lt n 10)) by lia. Qed.

Lemma udecimal_pair fuel n : 10 <= n ->
  udecimal (S (S fuel)) n =
  (if n <? 100 then [] else udecimal fuel (n / 100)) ++ [digit (n / 10 mod 10); digit (n mod 10)].
Proof.
  intros Hn. simpl. rewrite (proj2 (Z.ltb_ge n 10)) by lia.
  destruct (Z.ltb_spec n 100), (Z.ltb_spec (n / 10) 10); try div_lia.
  - by rewrite (Z.mod_small (n / 10)) by div_lia.
  - rewrite Z.div_div by lia. by rewrite <- app_assoc.
Qed.

(** The table of pairs. *)
Lemma digits_at_pair v : 0 <= v < 100 ->
  digits_at (v * 2) = digit (v / 10 mod 10) /\ digits_at (v * 2 + 1) = digit (v mod 10).
Proof.
  intros Hv. rewrite <- (Z2Nat.id v) by lia. assert (Z.to_nat v < 100)%nat as H by lia.
  generalize dependent (Z.to_nat v). clear. intros n Hn.
  do 100 (destruct n as [|n]; [split; reflexivity|]). lia.
Qed.

Lemma digits10_bounds v : 0 < v < 2 ^ 64 ->
  exists k, digits10 1 v = Z.of_nat (S k) /\ (k < 20)%nat /\ 10 ^ Z.of_nat k <= v < 10 ^ Z.of_nat (S k).
Proof.
  intros Hv. exists (Z.to_nat (digits10 1 v - 1)). cbn [digits10].
  cmp_cases; try div_lia.
  all: split_and!; [reflexivity|apply Nat.ltb_lt; reflexivity|..].
  all: match goal with |- context [10 ^ ?e] => let t := eval vm_compute in (10 ^ e) in
         change (10 ^ e) with t end; div_lia.
Qed.

Lemma digits10_length v : 0 <= v < 2 ^ 64 -> digits10 1 v = Z.of_nat (length (udecimal 20 v)).
Proof.
  intros Hv. destruct (decide (v = 0)) as [->|]; [done|].
  destruct (digits10_bounds v ltac:(lia)) as (k & -> & Hk & Hb). by rewrite (udecimal_length 20 k).
Qed.

(** ** [ll2string] writes the decimal notation *)

Lemma store_at pre x post i c :
  i = Z.of_nat (length pre) -> store (pre ++ x :: post) i c = Some (pre ++ c :: post).
Proof.
  intros ->. unfold store. rewrite length_app. simpl.
  rewrite (proj2 (Z.leb_le 0 _)), (proj2 (Z.ltb_lt _ _)) by lia. simpl.
  by rewrite Nat2Z.id, insert_app_r_alt, Nat.sub_diag by lia.
Qed.

(** Two stores at the end of a prefix. *)
Lemma store_pair pre x y post i a b :
  i = Z.of_nat (length pre) + 1 -> i < 2 ^ 32 ->
  store (pre ++ x :: y :: post) i b = Some (pre ++ x :: b :: post) /\
  store (pre ++ x :: b :: post) (u32 (i - 1)) a = Some (pre ++ a :: b :: post).
Proof.
  intros Hi Hs. rewrite u32_id by (unfold is_u32; lia). split; [|by apply store_at; lia].
  change (x :: y :: post) with ([x] ++ y :: post). rewrite app_assoc.
  rewrite store_at by (rewrite length_app; simpl; lia). by rewrite <- app_assoc.
Qed.

Lemma ll2string_last_writes fuel value pre mid post next :
  (1 < fuel)%nat -> 0 <= value < 100 -> length mid = length (udecimal fuel value) ->
  next = Z.of_nat (length pre + length mid) - 1 -> next < 2 ^ 32 ->
  ll2string_last value next (pre ++ mid ++ post) = Some (pre ++ udecimal fuel value ++ post).
Proof.
  intros Hf Hv Hm -> Hn. destruct fuel as [|[|fuel]]; [lia..|]. unfold ll2string_last.
  destruct (Z.ltb_spec value 10).
  - rewrite udecimal_small in * by lia. destruct mid as [|x [|]]; try done.
    simpl. rewrite store_at by (simpl; lia). done.
  - rewrite udecimal_pair in * by lia. rewrite (proj2 (Z.ltb_lt value 100)) in * by lia.
    destruct mid as [|x [|y [|]]]; try done. rewrite (u32_id (value * 2)) by (unfold is_u32; lia).
    destruct (digits_at_pair value ltac:(lia)) as [-> ->].
    destruct (store_pair pre x y post (Z.of_nat (length pre + 2) - 1) (digit (value / 10 mod 10))
      (digit (value mod 10))) as [H1 H2]; [lia|simpl in *; lia|].
    simpl. rewrite H1. simpl. by rewrite H2.
Qed.

Lemma udecimal_nonempty fuel n : (0 < length (udecimal (S fuel) n))%nat.
Proof. simpl. destruct (_ <? _); [simpl; lia|]. rewrite length_app. simpl. lia. Qed.

Lemma ll2string_loop_S fuel value next dst :
  ll2string_loop (S fuel) value next dst =
  if 100 <=? value then
    dst ← store dst next (digits_at (value mod 100 * 2 + 1));
    dst ← store dst (u32 (next - 1)) (digits_at (value mod 100 * 2));
    ll2string_loop fuel (value / 100) (u32 (next - 2)) dst
  else Some (value, next, dst).
Proof. done. Qed.

Lemma ll2string_loop_writes rounds : forall fuel value pre mid post next,
  (2 * rounds <= fuel)%nat -> 0 <= value < 100 ^ Z.of_nat (S rounds) ->
  length mid = length (udecimal (S (S fuel)) value) ->
  next = Z.of_nat (length pre + length mid) - 1 -> next < 2 ^ 32 ->
  ('(value, next, dst) ← ll2string_loop (S rounds) value next (pre ++ mid ++ post);
   ll2string_last value next dst) = Some (pre ++ udecimal (S (S fuel)) value ++ post).
Proof.
  induction rounds as [|rounds IH]; intros fuel value pre mid post next Hf Hv Hm Hnext Hn;
    rewrite ll2string_loop_S; (destruct (Z.leb_spec 100 value);
      [|by apply ll2string_last_writes; (done || lia)]); [simpl in Hv; lia|].
  destruct fuel as [|[|fuel]]; [lia..|].
  rewrite (udecimal_pair (S (S fuel)) value) in * by lia.
  rewrite (proj2 (Z.ltb_ge value 100)) in * by lia. rewrite length_app in Hm. cbn [length] in Hm.
  pose proof (udecimal_nonempty (S fuel) (value / 100)) as Hpos.
  destruct (split_at mid (length (udecimal (S (S fuel)) (value / 100)))) as (mid' & xy & -> & Hmid);
    [lia|].
  rewrite length_app in *. destruct xy as [|x [|y [|]]]; cbn [length] in *; try lia.
  destruct (digits_at_pair (value mod 100) ltac:(div_lia)) as [-> ->].
  rewrite <- !app_assoc. cbn [app]. rewrite (app_assoc pre mid').
  destruct (store_pair (pre ++ mid') x y post next (digit (value mod 100 / 10 mod 10))
    (digit (value mod 100 mod 10))) as [H1 H2]; [rewrite ?length_app; lia..|].
  rewrite H1. cbn [mbind option_bind]. rewrite H2. cbn [mbind option_bind]. rewrite <- app_assoc.
  rewrite u32_id by (unfold is_u32; lia).
  rewrite (IH fuel); try lia.
  - replace (value mod 100 / 10 mod 10) with (value / 10 mod 10) by div_lia.
    by replace (value mod 100 mod 10) with (value mod 10) by div_lia.
  - rewrite (Nat2Z.inj_succ (S rounds)), (Z.pow_succ_r 100) in Hv by lia.
    split; [apply Z.div_pos; lia|apply Z.div_lt_upper_bound; lia].
Qed.

(** The sign, and what [ll2string] converts. *)
Definition sign (z : Z) : bytes := if z <? 0 then lit "-" else [].

Lemma decimal_sign z : decimal z = sign z ++ udecimal 20 (Z.abs z).
Proof.
  unfold decimal, sign. destruct (Z.ltb_spec z 0); [by rewrite Z.abs_neq by lia|].
  by rewrite Z.abs_eq by lia.
Qed.

Lemma ll2string_abs z : is_i64 z ->
  (if z <? 0 then (if z =? LLONG_MIN then u64 (LLONG_MAX + 1) else u64 (- z), 1) else (z, 0)) =
  (Z.abs z, Z.of_nat (length (sign z))).
Proof.
  unfold is_i64, sign, LLONG_MIN, LLONG_MAX. intros Hz.
  destruct (Z.ltb_spec z 0); [|by rewrite Z.abs_eq by lia].
  rewrite Z.abs_neq by lia. destruct (Z.eqb_spec z (- 2 ^ 63)) as [->|]; [done|].
  by rewrite u64_id by (unfold is_u64; lia).
Qed.

Lemma udecimal_length_le n : 0 <= n < 2 ^ 64 -> (length (udecimal 20 n) <= 20)%nat.
Proof.
  intros Hn. destruct (decide (n = 0)) as [->|]; [simpl; lia|].
  destruct (digits10_bounds n ltac:(lia)) as (k & _ & Hk & Hb). rewrite (udecimal_length 20 k); [lia..|done].
Qed.

(** The buffer receives the decimal notation and its terminator, and the
    length is returned. *)
Lemma ll2string_writes dst dstlen z :
  is_i64 z -> (length (decimal z) < dstlen <= length dst)%nat ->
  ll2string dst dstlen z =
  Some (Z.of_nat (length (decimal z)), decimal z ++ x00 :: drop (S (length (decimal z))) dst).
Proof.
  intros Hz Hd. assert (Hm : 0 <= Z.abs z < 2 ^ 64) by (unfold is_i64 in Hz; lia).
  unfold ll2string. rewrite ll2string_abs, digits10_length by done. rewrite decimal_sign in *.
  pose proof (udecimal_length_le (Z.abs z) Hm). pose proof (udecimal_nonempty 19 (Z.abs z)).
  assert (length (sign z) <= 1)%nat by (unfold sign; destruct (_ <? _); simpl; lia).
  rewrite length_app in *. set (n := length (udecimal 20 (Z.abs z))) in *.
  rewrite !(u32_id (Z.of_nat n + _)), (proj2 (Z.leb_gt _ _)) by (unfold is_u32; lia).
  destruct (split_at dst (length (sign z))) as (s0 & dst1 & -> & Hs0); [lia|].
  rewrite length_app in Hd. destruct (split_at dst1 n) as (mid & dst2 & -> & Hmid); [lia|].
  rewrite length_app in Hd. destruct dst2 as [|t post]; [simpl in Hd; lia|].
  rewrite app_assoc, store_at by (rewrite length_app; lia). cbn [mbind option_bind].
  rewrite <- app_assoc. rewrite u32_id by (unfold is_u32; lia).
  pose proof (ll2string_loop_writes 9 18 (Z.abs z) s0 mid (x00 :: post)
    (Z.of_nat n + Z.of_nat (length (sign z)) - 1) ltac:(lia) ltac:(lia) ltac:(done) ltac:(lia)
    ltac:(lia)) as Hloop.
  destruct (ll2string_loop 10 _ _ _) as [[[v nx] d]|]; [|done]. cbn [mbind option_bind] in *.
  rewrite Hloop. cbn [mbind option_bind].
  rewrite drop_app_ge by (rewrite length_app; lia).
  replace (S (length (sign z) + n) - length (s0 ++ mid))%nat with 1%nat
    by (rewrite length_app; lia).
  rewrite <- app_assoc. rewrite Nat2Z.inj_add, (Z.add_comm (Z.of_nat (length (sign z)))).
  unfold sign in *. destruct (z <? 0); [destruct s0 as [|x [|]]|destruct s0]; done.
Qed.

(** ** Parsing reads the decimal notation *)

Lemma digit_is_sign c : is_digit c = true -> c <> x2d /\ c <> x2b /\ c <> x00 /\ is_space c = false.
Proof. destruct c; (done || (intros _; split_and!; done)). Qed.

Lemma span_digits_spec s :
  let '(ds, rest) := span_digits s in
  s = ds ++ rest /\ forallb is_digit ds = true /\ forallb is_digit s = bool_decide (rest = []).
Proof.
  induction s as [|c s IH]; simpl; [done|]. destruct (is_digit c) eqn:Hc; simpl.
  - destruct (span_digits s) as [ds rest]. destruct IH as (-> & Hd & He). simpl. by rewrite Hc.
  - done.
Qed.

Lemma span_digits_all s : forallb is_digit s = true -> span_digits s = (s, []).
Proof.
  intros Hs. pose proof (span_digits_spec s) as H. destruct (span_digits s) as [ds rest].
  destruct H as (E & _ & Hr). rewrite Hs in Hr. symmetry in Hr. apply bool_decide_eq_true in Hr as ->.
  by rewrite app_nil_r in E; subst.
Qed.

(** The digit loop computes the value and stops at the first other byte, or
    gives up once the value leaves 64 bits. *)
Lemma string2int_loop_spec s : forall v, 0 <= v < 2 ^ 64 ->
  string2int_loop v s =
  let '(ds, rest) := span_digits s in
  if digits_value v ds <? 2 ^ 64 then Some (digits_value v ds, rest) else None.
Proof.
  induction s as [|c s IH]; intros v Hv; simpl; [by rewrite (proj2 (Z.ltb_lt v _)) by lia|].
  destruct (is_digit c) eqn:Hc; [|simpl; by rewrite (proj2 (Z.ltb_lt v _)) by lia].
  pose proof (digit_value_range c Hc) as Hd. pose proof (span_digits_spec s) as Hspan.
  destruct (span_digits s) as [ds rest] eqn:Es. destruct Hspan as (_ & Hds & _). simpl.
  pose proof (digits_value_ge ds (10 * v + digit_value c) Hds ltac:(lia)) as Hge.
  assert (Hbig : 2 ^ 64 <= 10 * v + digit_value c ->
    (if digits_value (10 * v + digit_value c) ds <? 2 ^ 64
     then Some (digits_value (10 * v + digit_value c) ds, rest) else None) = None).
  { intros ?. by rewrite (proj2 (Z.ltb_ge _ _)) by lia. }
  unfold ULLONG_MAX. destruct (Z.ltb_spec ((2 ^ 64 - 1) / 10) v);
    [by rewrite Hbig by div_lia|].
  assert (10 * v < 2 ^ 64) by div_lia.
  rewrite (u64_id (v * 10)), (u64_id (2 ^ 64 - 1 - _)) by (unfold is_u64; lia).
  destruct (Z.ltb_spec (2 ^ 64 - 1 - digit_value c) (v * 10)); [by rewrite Hbig by lia|].
  rewrite u64_id by (unfold is_u64; lia). rewrite IH by lia. by rewrite (Z.mul_comm v).
Qed.

Lemma skip_zeros_spec s :
  forallb is_digit (skip_zeros s) = forallb is_digit s /\
  digits_value 0 (skip_zeros s) = digits_value 0 s /\ head (skip_zeros s) <> Some x30.
Proof.
  induction s as [|c s IH]; simpl; [done|].
  destruct (decide (c = x30)) as [->|Hc]; [done|]. simpl. split_and!; congruence.
Qed.

(** A sign, a non-empty run of digits, and the range of [long long]. *)
Definition fits (v : Z) : option Z := if (LLONG_MIN <=? v) && (v <=? LLONG_MAX) then Some v else None.

Lemma string2int_digits (negative : bool) p :
  p <> [] ->
  match skip_zeros p with
  | [] => Some 0
  | c :: p =>
      if (49 <=? Z_of_byte c) && (Z_of_byte c <=? 57) then
        '(v, rest) ← string2int_loop (digit_value c) p;
        match rest with
        | _ :: _ => None
        | [] =>
            if negative then
              if u64 (- (LLONG_MIN + 1)) + 1 <? v then None else Some (i64 (u64 (- v)))
            else if LLONG_MAX <? v then None else Some (i64 v)
        end
      else None
  end = (natural p ≫= λ m, fits (if negative then - m else m)).
Proof.
  intros Hp. unfold natural. destruct p as [|c0 p0] eqn:E; [done|]. rewrite <- E in *. clear Hp.
  replace (match p with [] => None | _ => _ end) with
    (if forallb is_digit p then Some (digits_value 0 p) else None) by (by rewrite E).
  destruct (skip_zeros_spec p) as (Hd & Hv & Hh). rewrite <- Hd, <- Hv.
  destruct (skip_zeros p) as [|c q]; [by destruct negative|]. clear -Hh. simpl in *.
  assert (Hc : (49 <=? Z_of_byte c) && (Z_of_byte c <=? 57) = is_digit c).
  { unfold is_digit. assert (Z_of_byte c <> 48) by (intros H; by apply (Z_of_byte_inj c x30) in H; subst).
    lia. }
  rewrite Hc. destruct (is_digit c) eqn:Hdc; [|done]. simpl.
  pose proof (digit_value_range c Hdc). rewrite string2int_loop_spec by lia.
  pose proof (span_digits_spec q) as Hs. destruct (span_digits q) as [ds rest].
  destruct Hs as (-> & Hds & ->). destruct rest as [|x rest]; [|by destruct (_ <? _)].
  rewrite app_nil_r, bool_decide_eq_true_2 by done. simpl.
  pose proof (digits_value_ge ds (digit_value c) Hds ltac:(lia)).
  change (10 * 0 + digit_value c) with (digit_value c).
  assert (Hv : 0 <= digits_value (digit_value c) ds) by lia.
  revert Hv. generalize (digits_value (digit_value c) ds). clear. intros v Hv.
  unfold fits, LLONG_MIN, LLONG_MAX. change (u64 (- (- 2 ^ 63 + 1)) + 1) with (2 ^ 63).
  destruct (Z.ltb_spec v (2 ^ 64)); cbn [mbind option_bind]; destruct negative;
    cmp_cases; try lia; try done; simpl; f_equal; unfold i64, u64; div_lia.
Qed.

Lemma string2int_number s : string2int s = number s ≫= fits.
Proof.
  destruct s as [|c s]; [done|]. unfold string2int, number.
  destruct (decide (c :: s = [x30])) as [E|_]; [by injection E as -> ->|].
  destruct (decide (c = x2d)) as [->|Hc]; simpl andb.
  - destruct s as [|c' s]; [done|]. simpl Nat.eqb. cbv iota beta.
    rewrite (string2int_digits true) by done. by destruct (natural (c' :: s)).
  - rewrite (string2int_digits false) by done. done.
Qed.

Lemma number_decimal z : is_i64 z -> number (decimal z) = Some z.
Proof.
  intros Hz. unfold is_i64 in Hz. rewrite decimal_sign.
  pose proof (udecimal_is_digit 20 (Z.abs z) ltac:(lia)) as Hd.
  pose proof (udecimal_value 20 (Z.abs z) ltac:(lia)) as Hv.
  pose proof (udecimal_nonempty 19 (Z.abs z)) as Hne.
  assert (Hn : natural (udecimal 20 (Z.abs z)) = Some (Z.abs z)).
  { unfold natural. rewrite Hd, Hv. destruct (udecimal 20 (Z.abs z)); [simpl in Hne; lia|done]. }
  unfold sign. destruct (Z.ltb_spec z 0).
  - change (lit "-" ++ udecimal 20 (Z.abs z)) with (x2d :: udecimal 20 (Z.abs z)).
    unfold number. rewrite decide_True, Hn by done. simpl. f_equal. lia.
  - unfold number. cbn [app]. destruct (udecimal 20 (Z.abs z)) as [|c s] eqn:E; [done|].
    simpl in Hd. apply andb_prop in Hd as [Hc _].
    rewrite decide_False by apply (digit_is_sign c Hc). rewrite Hn. f_equal. lia.
Qed.

Lemma strtoll_decimal z : is_i64 z -> strtoll (decimal z) = (z, [], false).
Proof.
  intros Hz. pose proof Hz as Hi. unfold is_i64 in Hi. rewrite decimal_sign.
  pose proof (udecimal_is_digit 20 (Z.abs z) ltac:(lia)) as Hd.
  pose proof (udecimal_value 20 (Z.abs z) ltac:(lia)) as Hv.
  pose proof (udecimal_nonempty 19 (Z.abs z)) as Hne.
  unfold strtoll.
  assert (Hs : (match skip_spaces (sign z ++ udecimal 20 (Z.abs z)) with
    | c :: p =>
        if decide (c = x2d) then (true, p) else if decide (c = x2b) then (false, p) else (false, c :: p)
    | [] => (false, [])
    end) = (z <? 0, udecimal 20 (Z.abs z))).
  { unfold sign. destruct (Z.ltb_spec z 0); [done|]. cbn [app].
    destruct (udecimal 20 (Z.abs z)) as [|c s] eqn:E; [simpl in Hne; lia|].
    simpl in Hd. apply andb_prop in Hd as [Hc _]. destruct (digit_is_sign c Hc) as (? & ? & ? & Hsp).
    simpl. by rewrite Hsp, !decide_False by done. }
  rewrite Hs, span_digits_all, Hv by done. unfold LLONG_MIN, LLONG_MAX.
  destruct (udecimal 20 (Z.abs z)); [simpl in Hne; lia|].
  destruct (Z.ltb_spec z 0); rewrite !(proj2 (Z.ltb_ge _ _)) by lia; repeat f_equal; lia.
Qed.

Lemma c_str_digits s : forallb is_digit s = true -> c_str s = s.
Proof.
  induction s as [|c s IH]; [done|]. simpl. intros Hs. apply andb_prop in Hs as [Hc Hs].
  rewrite decide_False, IH by (done || apply (digit_is_sign c Hc)). done.
Qed.

Lemma c_str_decimal z : is_i64 z -> c_str (decimal z) = decimal z.
Proof.
  intros Hz. unfold is_i64 in Hz. rewrite decimal_sign.
  pose proof (c_str_digits _ (udecimal_is_digit 20 (Z.abs z) ltac:(lia))) as Hd.
  revert Hd. generalize (udecimal 20 (Z.abs z)). intros s Hd.
  unfold sign. destruct (z <? 0); [simpl; by f_equal|done].
Qed.

Lemma c_str_app s t : c_str s = s -> c_str (s ++ x00 :: t) = s.
Proof.
  induction s as [|c s IH]; [done|]. simpl. destruct (decide (c = x00)); [done|].
  intros [= H]. by rewrite IH.
Qed.

Lemma c_str_no_nul s : x00 ∉ s -> c_str s = s.
Proof.
  induction s as [|c s IH]; [done|]. intros H. apply not_elem_of_cons in H as [Hc Hs]. simpl.
  rewrite decide_False by congruence. by rewrite IH.
Qed.

(** A run of digits too large for [long long]. *)
Lemma strtoll_over s : forallb is_digit s = true -> LLONG_MAX < digits_value 0 s ->
  strtoll s = (LLONG_MAX, [], true).
Proof.
  intros Hs Hv. unfold LLONG_MIN, LLONG_MAX in *. destruct s as [|c s]; [simpl in Hv; lia|].
  unfold strtoll.
  pose proof Hs as Hs'. simpl in Hs'. apply andb_prop in Hs' as [Hc _].
  destruct (digit_is_sign c Hc) as (H1 & H2 & _ & H3). cbn [skip_spaces].
  rewrite H3, !decide_False, span_digits_all by done. unfold LLONG_MIN, LLONG_MAX in *.
  rewrite (proj2 (Z.ltb_ge (digits_value 0 (c :: s)) _)), (proj2 (Z.ltb_lt _ (digits_value 0 (c :: s)))) by lia.
  reflexivity.
Qed.

Lemma decimal_length z : is_i64 z -> (length (decimal z) < 32)%nat.
Proof.
  intros Hz. unfold is_i64 in Hz. rewrite decimal_sign, length_app.
  pose proof (udecimal_length_le (Z.abs z) ltac:(lia)).
  assert (length (sign z) <= 1)%nat by (unfold sign; destruct (z <? 0); simpl; lia). lia.
Qed.

(** The overflow tests are exact. *)
Lemma overflow_add z value : is_i64 z -> is_i64 value ->
  ((0 <=? value) && (LLONG_MAX - value <? z)) || ((value <? 0) && (z <? LLONG_MIN - value)) =
  negb (bool_decide (is_i64 (z + value))).
Proof.
  unfold is_i64, LLONG_MAX, LLONG_MIN. intros Hz Hv. case_bool_decide; simpl; lia.
Qed.

Lemma overflow_sub z value : is_i64 z -> is_i64 value ->
  ((0 <=? value) && (z <? LLONG_MIN + value)) || ((value <? 0) && (LLONG_MAX + value <? z)) =
  negb (bool_decide (is_i64 (z - value))).
Proof.
  unfold is_i64, LLONG_MAX, LLONG_MIN. intros Hz Hv. case_bool_decide; simpl; lia.
Qed.

Lemma string2int_range s v : string2int s = Some v -> is_i64 v.
Proof.
  rewrite string2int_number. destruct (number s) as [m|]; simpl; [|done].
  unfold fits, is_i64, LLONG_MIN, LLONG_MAX.
  destruct (Z.leb_spec (- 2 ^ 63) m), (Z.leb_spec m (2 ^ 63 - 1)); simpl; naive_solver lia.
Qed.

(** ** Properties *)

(** [ll2string] leaves a buffer that is too small alone and returns 0;
    otherwise it writes the decimal notation of the number and a terminator,
    writes nothing else, and returns the length; [string2int] and [strtoll]
    read the number back. *)
Theorem ll2string_correct dst dstlen z :
  is_i64 z -> (dstlen <= length dst)%nat ->
  ll2string dst dstlen z =
    (if Nat.ltb (length (decimal z)) dstlen
     then Some (Z.of_nat (length (decimal z)),
                decimal z ++ x00 :: drop (S (length (decimal z))) dst)
     else Some (0, dst)) /\
  string2int (decimal z) = Some z /\ strtoll (decimal z) = (z, [], false).
Proof.
  intros Hz Hd. split_and!.
  - destruct (Nat.ltb_spec (length (decimal z)) dstlen); [by apply ll2string_writes|].
    assert (Hm : 0 <= Z.abs z < 2 ^ 64) by (unfold is_i64 in Hz; lia).
    unfold ll2string. rewrite ll2string_abs, digits10_length by done. rewrite decimal_sign in *.
    pose proof (udecimal_length_le (Z.abs z) Hm). rewrite length_app in *.
    assert (length (sign z) <= 1)%nat by (unfold sign; destruct (z <? 0); simpl; lia).
    by rewrite u32_id, (proj2 (Z.leb_le _ _)) by (unfold is_u32; lia).
  - rewrite string2int_number, number_decimal by done. unfold is_i64 in Hz. simpl.
    unfold fits, LLONG_MIN, LLONG_MAX. by rewrite !(proj2 (Z.leb_le _ _)) by lia.
  - by apply strtoll_decimal.
Qed.

Lemma ll2string_correct_witness :
  ll2string (replicate 8 xff) 8 (-1200) =
    Some (5, lit "-1200" ++ [x00; xff; xff]) /\ string2int (lit "-1200") = Some (-1200) /\
  strtoll (lit "-1200") = (-1200, [], false).
Proof. apply (ll2string_correct (replicate 8 xff) 8 (-1200)); [unfold is_i64; lia|simpl; lia]. Defined.

(** [string2int] accepts exactly an optional minus sign followed by at least
    one digit, and nothing more, whose value is in the range of [long long]. *)
Theorem string2int_correct s v :
  string2int s = Some v <-> number s = Some v /\ is_i64 v.
Proof.
  split; [intros H; split; [|by eapply string2int_range]|intros [Hn Hr]]; rewrite string2int_number in *.
  - destruct (number s) as [m|]; [|done]. simpl in H. unfold fits in H. by destruct (_ && _).
  - rewrite Hn. simpl. unfold fits, is_i64, LLONG_MIN, LLONG_MAX in *.
    by rewrite !(proj2 (Z.leb_le _ _)) by lia.
Qed.

(** The [unsigned long] overload rejects every number that is not negative,
    and turns the negative ones into large positive values: its bound is
    ULONG_MAX converted to [long long], which is -1. *)
Theorem string2ulong_inverted s v :
  string2int s = Some v ->
  string2ulong s = if 0 <=? v then None else Some (v + 2 ^ 64).
Proof.
  intros H. unfold string2ulong. rewrite H. simpl. change (i64 ULLONG_MAX) with (-1).
  apply string2int_range in H. unfold is_i64 in H.
  destruct (Z.ltb_spec (-1) v), (Z.leb_spec 0 v); try lia; [done|]. f_equal. unfold u64. div_lia.
Qed.

Lemma string2ulong_inverted_witness : string2ulong (lit "42") = None.
Proof. apply (string2ulong_inverted (lit "42") 42). reflexivity. Defined.
