(* ===== verification/Glob.v ===== *)
(** * Glob-style patterns

    Models [pstd::stringmatchlen] of [src/src/pstd/src/pstd_string.cc], its
    wrapper [StringMatch] and [isTailWildcard] of
    [src/src/storage/src/util.cc].

    Pattern and string are C strings: their bytes and a NUL.  A pointer is an
    offset; the length that the source decrements with each increment of a
    pointer is the size minus the offset.  Reading past the NUL is undefined
    ([None]).

    The specification reads a pattern into tokens and matches those; the
    theorem says that the pointer code agrees with it on every non-empty
    string and every pattern it can scan safely. *)

From S2P Require Import Prelude.
Open Scope nat_scope.

(** ** The matcher *)

(** [s[i]], a byte of the string or its NUL. *)
Definition rd (s : bytes) (i : nat) : option byte := (s ++ [x00]) !! i.

(** [int c = s[i]]: [char] is signed. *)
Definition schar (b : byte) : Z :=
  if (Z_of_byte b <? 128)%Z then Z_of_byte b else (Z_of_byte b - 256)%Z.

(** [tolower] in the C locale. *)
Definition tolower (c : Z) : Z := if (65 <=? c)%Z && (c <=? 90)%Z then (c + 32)%Z else c.

Definition char_eqb (nocase : bool) (a b : byte) : bool :=
  if nocase then (tolower (schar a) =? tolower (schar b))%Z else Byte.eqb a b.

(** The range test of a class, its ends swapped when out of order. *)
Definition in_range (nocase : bool) (a b c : byte) : bool :=
  let start := schar a in
  let stop := schar b in
  let c := schar c in
  let '(start, stop) := if (stop <? start)%Z then (stop, start) else (start, stop) in
  let '(start, stop, c) :=
    if nocase then (tolower start, tolower stop, tolower c) else (start, stop, c) in
  (start <=? c)%Z && (c <=? stop)%Z.


Section Matcher.
Context (nocase : bool) (p s : bytes).

(** The loop over the members of a class: where it stops, and whether [s[j]]
    is a member.  At the end of the pattern it steps one byte back. *)
Fixpoint class_loop (fuel i j : nat) (matched : bool) : option (nat * bool) :=
  match fuel with
  | O => None
  | S fuel =>
      c ← rd p i;
      if Byte.eqb c "\"%byte then
        c ← rd p (i + 1);
        d ← rd s j;
        class_loop fuel (i + 2) j (matched || Byte.eqb c d)
      else if Byte.eqb c "]"%byte then Some (i, matched)
      else if i =? length p then Some (i - 1, matched)
      else
        c1 ← rd p (i + 1);
        if Byte.eqb c1 "-"%byte && (3 <=? length p - i) then
          c2 ← rd p (i + 2);
          d ← rd s j;
          class_loop fuel (i + 3) j (matched || in_range nocase c c2 d)
        else
          d ← rd s j;
          class_loop fuel (i + 1) j (matched || char_eqb nocase c d)
  end.

(** [while (pattern[k] == '*')]: the offset of the first other byte. *)
Fixpoint skip_stars (fuel i : nat) : option nat :=
  match fuel with
  | O => None
  | S fuel =>
      c ← rd p i;
      if Byte.eqb c "*"%byte then skip_stars fuel (i + 1) else Some i
  end.

(** [while (stringLen != 0)] of a star: tries [rest] at each offset. *)
Fixpoint star_loop (rest : nat -> option bool) (fuel j : nat) : option bool :=
  match fuel with
  | O => None
  | S fuel =>
      if j =? length s then Some false
      else
        m ← rest j;
        if m : bool then Some true else star_loop rest fuel (j + 1)
  end.

(** Class, escape and literal: [None] is undefined, [Some None] no match,
    otherwise the offset of the last pattern byte used. *)
Definition match_one (c : byte) (i j : nat) : option (option nat) :=
  if Byte.eqb c "["%byte then
    let i := i + 1 in
    c ← rd p i;
    let nott := Byte.eqb c "^"%byte in
    let i := if nott then i + 1 else i in
    '(i, matched) ← class_loop (2 + length p) i j false;
    Some (if xorb nott matched then Some i else None)
  else
    let i := if Byte.eqb c "\"%byte && (2 <=? length p - i) then i + 1 else i in
    c ← rd p i;
    d ← rd s j;
    Some (if char_eqb nocase c d then Some i else None).

(** The matcher from offsets [i] and [j]; every round advances [i]. *)
Fixpoint stringmatch_at (fuel i j : nat) : option bool :=
  match fuel with
  | O => None
  | S fuel =>
      if i =? length p then Some (j =? length s)
      else
        c ← rd p i;
        if Byte.eqb c "*"%byte then
          i ← skip_stars (2 + length p) (i + 1);
          if i =? length p then Some true
          else star_loop (stringmatch_at fuel i) (1 + length s - j) j
        else
          one ← (if Byte.eqb c "?"%byte then
                   Some (if j =? length s then None else Some i)
                 else match_one c i j);
          match one with
          | None => Some false
          | Some i =>
              let i := i + 1 in
              let j := j + 1 in
              if j =? length s then
                i ← skip_stars (2 + length p) i;
                Some (i =? length p)
              else stringmatch_at fuel i j
          end
  end.

End Matcher.

(** [stringmatchlen(pattern, pattern.size(), string, string.size(), nocase) != 0] *)
Definition stringmatchlen (nocase : bool) (pattern string : bytes) : option bool :=
  stringmatch_at nocase pattern string (S (length pattern)) 0 0.

Definition StringMatch (pattern str : bytes) : option bool := stringmatchlen false pattern str.

(** [isTailWildcard]: a star at the end and no other special byte. *)
Definition isTailWildcard (pattern : bytes) : bool :=
  if length pattern <? 2 then false
  else
    match last pattern with
    | Some c =>
        if negb (Byte.eqb c "*"%byte) then false
        else forallb (fun c => negb (Byte.eqb c "*"%byte || Byte.eqb c "?"%byte ||
                                     Byte.eqb c "["%byte || Byte.eqb c "]"%byte))
               (take (length pattern - 1) pattern)
    | None => false
    end.

(** ** Patterns as tokens *)

Inductive item := IEsc (c : byte) | IRange (a b : byte) | IChar (c : byte).
Inductive token := Any | One | Class (nott : bool) (items : list item) | Lit (c : byte).

Definition item_has (nocase : bool) (d : byte) (x : item) : bool :=
  match x with
  | IEsc c => Byte.eqb c d
  | IRange a b => in_range nocase a b d
  | IChar c => char_eqb nocase c d
  end.

(** The members of a class and what follows it.  An unclosed class ends with
    the pattern; [None]: a backslash with nothing after it. *)
Fixpoint class_items (l : bytes) : option (list item * bytes) :=
  match l with
  | [] => Some ([], [])
  | c :: l1 =>
      if Byte.eqb c "\"%byte then
        match l1 with
        | [] => None
        | d :: l2 => '(its, rest) ← class_items l2; Some (IEsc d :: its, rest)
        end
      else if Byte.eqb c "]"%byte then Some ([], l1)
      else
        match l1 with
        | m :: (e :: l3) =>
            if Byte.eqb m "-"%byte then '(its, rest) ← class_items l3; Some (IRange c e :: its, rest)
            else '(its, rest) ← class_items l1; Some (IChar c :: its, rest)
        | _ => '(its, rest) ← class_items l1; Some (IChar c :: its, rest)
        end
  end.

Fixpoint tokens_upto (fuel : nat) (l : bytes) : option (list token) :=
  match fuel with
  | O => Some []
  | S fuel =>
      match l with
      | [] => Some []
      | c :: l1 =>
          if Byte.eqb c "*"%byte then ts ← tokens_upto fuel l1; Some (Any :: ts)
          else if Byte.eqb c "?"%byte then ts ← tokens_upto fuel l1; Some (One :: ts)
          else if Byte.eqb c "["%byte then
            let nott := match l1 with d :: _ => Byte.eqb d "^"%byte | [] => false end in
            '(its, rest) ← class_items (if nott then drop 1 l1 else l1);
            ts ← tokens_upto fuel rest; Some (Class nott its :: ts)
          else
            match l1 with
            | d :: l2 =>
                if Byte.eqb c "\"%byte then ts ← tokens_upto fuel l2; Some (Lit d :: ts)
                else ts ← tokens_upto fuel l1; Some (Lit c :: ts)
            | [] => Some [Lit c]
            end
      end
  end.

(** The tokens of a pattern; [None] when a class runs past its end. *)
Definition tokens (l : bytes) : option (list token) := tokens_upto (length l) l.

(** The token that one byte can match. *)
Definition token_has (nocase : bool) (t : token) (d : byte) : bool :=
  match t with
  | Any => false
  | One => true
  | Class nott its => xorb nott (existsb (item_has nocase d) its)
  | Lit c => char_eqb nocase c d
  end.

(** What a pattern means: a star any bytes, every other token one byte. *)
Fixpoint glob (nocase : bool) (ts : list token) (s : bytes) : bool :=
  match ts with
  | [] => match s with [] => true | _ => false end
  | Any :: ts =>
      (fix star (s : bytes) : bool :=
         glob nocase ts s || match s with [] => false | _ :: s => star s end) s
  | t :: ts => match s with [] => false | d :: s => token_has nocase t d && glob nocase ts s end
  end.

(** ** What a pattern means *)

(** The value of a byte: characters are signed. *)
Definition order (b : byte) : Z := ((Z_of_byte b + 128) mod 256 - 128)%Z.

(** Upper case letters are taken as lower case ones when [nocase]. *)
Definition fold_case (nocase : bool) (c : Z) : Z :=
  if decide (nocase = true /\ order "A" <= c <= order "Z")%Z then (c + (order "a" - order "A"))%Z else c.

Definition same_char (nocase : bool) (a b : byte) : Prop := fold_case nocase (order a) = fold_case nocase (order b).

(** [c] lies between [a] and [b], both included, in whatever order they are. *)
Definition within (nocase : bool) (a b c : byte) : Prop :=
  (fold_case nocase (Z.min (order a) (order b)) <= fold_case nocase (order c)
    <= fold_case nocase (Z.max (order a) (order b)))%Z.

Definition item_means (nocase : bool) (d : byte) (x : item) : Prop :=
  match x with
  | IEsc c => c = d
  | IRange a b => within nocase a b d
  | IChar c => same_char nocase c d
  end.

(** The bytes that a token other than a star stands for. *)
Definition token_means (nocase : bool) (t : token) (d : byte) : Prop :=
  match t with
  | Any => False
  | One => True
  | Class false its => Exists (item_means nocase d) its
  | Class true its => Forall (fun x => ~ item_means nocase d x) its
  | Lit c => same_char nocase c d
  end.

Inductive matches (nocase : bool) : list token -> bytes -> Prop :=
  | matches_end : matches nocase [] []
  | matches_any u ts s : matches nocase ts s -> matches nocase (Any :: ts) (u ++ s)
  | matches_byte t ts d s : token_means nocase t d -> matches nocase ts s -> matches nocase (t :: ts) (d :: s).

#[export] Instance item_eq_dec : EqDecision item.
Proof. solve_decision. Defined.
#[export] Instance token_eq_dec : EqDecision token.
Proof. solve_decision. Defined.

Lemma schar_order b : schar b = order b.
Proof.
  unfold schar, order. pose proof (Z_of_byte_range b). destruct (Z.ltb_spec (Z_of_byte b) 128).
  - rewrite Z.mod_small; lia.
  - replace (Z_of_byte b + 128)%Z with (Z_of_byte b - 128 + 1 * 256)%Z by lia. rewrite Z.mod_add, Z.mod_small; lia.
Qed.

Lemma fold_case_true c : fold_case true c = tolower c.
Proof.
  unfold fold_case, tolower. change (order "A") with 65%Z. change (order "Z") with 90%Z. change (order "a") with 97%Z.
  destruct (Z.leb_spec 65 c), (Z.leb_spec c 90); simpl; case_decide; lia.
Qed.

Lemma fold_case_false c : fold_case false c = c.
Proof. unfold fold_case. rewrite decide_False; [done|]. by intros [? _]. Qed.

Lemma order_inj a b : order a = order b -> a = b.
Proof.
  unfold order. intros H. apply Z_of_byte_inj. pose proof (Z_of_byte_range a). pose proof (Z_of_byte_range b).
  assert (E : ((Z_of_byte a + 128) mod 256 = (Z_of_byte b + 128) mod 256)%Z) by lia.
  pose proof (Z.div_mod (Z_of_byte a + 128) 256 ltac:(lia)). pose proof (Z.div_mod (Z_of_byte b + 128) 256 ltac:(lia)). lia.
Qed.

Lemma char_eqb_same nocase a b : char_eqb nocase a b = true <-> same_char nocase a b.
Proof.
  unfold char_eqb, same_char. destruct nocase.
  - by rewrite !fold_case_true, !schar_order, Z.eqb_eq.
  - rewrite !fold_case_false. split; [by intros ->%Byte.byte_dec_bl|]. intros ->%order_inj. by apply Byte.byte_dec_lb.
Qed.

Lemma in_range_within nocase a b c : in_range nocase a b c = true <-> within nocase a b c.
Proof.
  unfold in_range, within. rewrite !schar_order. destruct (Z.ltb_spec (order b) (order a)).
  - rewrite Z.min_r, Z.max_l by lia. destruct nocase; rewrite ?fold_case_true, ?fold_case_false, andb_true_iff; lia.
  - rewrite Z.min_l, Z.max_r by lia. destruct nocase; rewrite ?fold_case_true, ?fold_case_false, andb_true_iff; lia.
Qed.

Lemma item_has_means nocase d x : item_has nocase d x = true <-> item_means nocase d x.
Proof.
  destruct x; simpl; [|apply in_range_within|apply char_eqb_same].
  split; [apply Byte.byte_dec_bl|apply Byte.byte_dec_lb].
Qed.

Lemma token_has_means nocase t d : token_has nocase t d = true <-> token_means nocase t d.
Proof.
  destruct t as [| |nott its|c]; simpl; [done|done| |apply char_eqb_same].
  assert (E : existsb (item_has nocase d) its = true <-> Exists (item_means nocase d) its).
  { rewrite existsb_exists, List.Exists_exists. by setoid_rewrite item_has_means. }
  destruct nott; [|by rewrite xorb_false_l]. rewrite xorb_true_l, negb_true_iff, <- not_true_iff_false, E.
  by rewrite <- List.Forall_Exists_neg.
Qed.

Lemma glob_matches nocase ts : forall s, glob nocase ts s = true <-> matches nocase ts s.
Proof.
  induction ts as [|t ts IH]; intros s; [destruct s; split; (done || constructor || inversion 1)|].
  destruct (decide (t = Any)) as [->|Ht].
  - split.
    + induction s as [|d s IHs]; cbn [glob]; intros H; apply orb_true_iff in H as [H|H]; try done;
        try (apply (matches_any nocase []); by apply IH).
      apply IHs in H. inversion H as [|u ts' s' Hm|t ts' d' s' Hd]; [subst|destruct Hd]. by apply (matches_any nocase (d :: u)).
    + inversion 1 as [|u ts' s' Hm|t ts' d' s' Hd]; [subst|destruct Hd]. apply IH in Hm. clear H.
      induction u as [|d u IHu]; simpl app.
      * cbn [glob]. destruct s'; by rewrite Hm.
      * cbn [glob] in IHu |- *. rewrite IHu. apply orb_true_r.
  - assert (E : glob nocase (t :: ts) s = match s with [] => false | d :: s => token_has nocase t d && glob nocase ts s end)
      by (by destruct t).
    rewrite E. destruct s as [|d s].
    + split; [done|]. inversion 1; subst; done.
    + rewrite andb_true_iff, token_has_means, IH. split; [intros []; by constructor|]. inversion 1; subst; done.
Qed.

#[export] Instance matches_dec nocase ts s : Decision (matches nocase ts s).
Proof. refine (cast_if (decide (glob nocase ts s = true))); by rewrite <- glob_matches. Defined.

Lemma glob_decides nocase ts s : glob nocase ts s = bool_decide (matches nocase ts s).
Proof.
  destruct (glob nocase ts s) eqn:E; symmetry; [apply bool_decide_eq_true_2|apply bool_decide_eq_false_2];
    rewrite <- glob_matches; congruence.
Qed.

(** ** Reading C strings *)

Lemma rd_cons (p : bytes) i c l : drop i p = c :: l ->
  rd p i = Some c /\ i < length p /\ drop (i + 1) p = l.
Proof.
  intros H. assert (Hi : i < length p).
  { destruct (le_lt_dec (length p) i) as [Hge|]; [|done]. by rewrite drop_ge in H. }
  split_and!; [|done|].
  - unfold rd. rewrite lookup_app_l by done.
    rewrite <- (Nat.add_0_r i), <- lookup_drop, H. done.
  - by rewrite <- drop_drop, H.
Qed.

Lemma rd_end p : rd p (length p) = Some x00.
Proof. unfold rd. by rewrite lookup_app_r, Nat.sub_diag. Qed.

Lemma drop_nil_end (p : bytes) i : i <= length p -> drop i p = [] -> i = length p.
Proof. intros Hi H. apply (f_equal length) in H. rewrite length_drop in H. simpl in H. lia. Qed.

Lemma rd_last p i : i <= length p -> drop i p = [] -> rd p i = Some x00.
Proof. intros Hi H. rewrite (drop_nil_end p i Hi H). apply rd_end. Qed.

(** ** Classes *)

Section Spec.
Context (nocase : bool) (p s : bytes).

Lemma class_items_length l : forall its rest,
  class_items l = Some (its, rest) -> length rest <= length l.
Proof.
  induction l as [l IH] using (induction_ltof1 _ (@length byte)). unfold ltof in IH.
  intros its rest. destruct l as [|c l1]; simpl; [by intros [= <- <-]|].
  destruct (Byte.eqb c "\"%byte); [destruct l1 as [|d l2]; [done|]|
    destruct (Byte.eqb c "]"%byte); [intros [= <- <-]; lia|]].
  2: destruct l1 as [|m [|e l3]]; [| |destruct (Byte.eqb m "-"%byte)].
  all: match goal with |- context [class_items ?l] => destruct (class_items l) as [[its' rest']|] eqn:E end;
    simpl; [|done]; intros [= <- <-]; apply IH in E; simpl in *; lia.
Qed.

Lemma class_loop_spec d j : rd s j = Some d -> forall fuel i its rest m,
  1 <= i <= length p -> length p < i + fuel -> class_items (drop i p) = Some (its, rest) ->
  exists i', class_loop nocase p s fuel i j m = Some (i', m || existsb (item_has nocase d) its) /\
    drop (i' + 1) p = rest /\ i <= i' + 1 /\ i' < length p.
Proof.
  intros Hrd. induction fuel as [|fuel IH]; intros i its rest m Hi Hf; [lia|]. cbn [class_loop].
  destruct (drop i p) as [|c l1] eqn:E.
  { apply drop_nil_end in E as ->; [|lia]. rewrite rd_end. simpl. intros [= <- <-].
    rewrite Nat.eqb_refl, orb_false_r. exists (length p - 1). split; [done|].
    replace (length p - 1 + 1) with (length p) by lia. rewrite drop_ge by lia. split_and!; [done|lia|lia]. }
  destruct (rd_cons p i c l1 E) as (-> & Hlt & E1). cbn [mbind option_bind class_items].
  assert (step : forall k l' x o,
    drop (i + k) p = l' -> 1 <= k -> i + k <= length p -> class_items l' = o ->
    ('(its', rest') ← o; Some (x :: its', rest')) = Some (its, rest) ->
    exists i', class_loop nocase p s fuel (i + k) j (m || item_has nocase d x) =
        Some (i', m || existsb (item_has nocase d) its) /\
      drop (i' + 1) p = rest /\ i <= i' + 1 /\ i' < length p).
  { intros k l' x [[its' rest']|] El Hk Hik Hc [= <- <-].
    destruct (IH (i + k) its' rest' (m || item_has nocase d x)) as (i' & H1 & H2 & H3 & H4);
      [lia|lia|by rewrite El|].
    exists i'. rewrite H1. simpl. rewrite orb_assoc. split_and!; [done|done|lia|done]. }
  destruct (Byte.eqb c "\"%byte).
  { destruct l1 as [|e l2]; [done|]. destruct (rd_cons p (i + 1) e l2 E1) as (-> & Hlt1 & E2).
    rewrite Hrd. replace (i + 1 + 1) with (i + 2) in E2 by lia.
    intros H. apply (step 2 l2 (IEsc e) _ E2 ltac:(lia) ltac:(lia) eq_refl H). }
  destruct (Byte.eqb c "]"%byte).
  { intros [= <- <-]. rewrite orb_false_r. exists i. split_and!; [done|done|lia|done]. }
  rewrite (proj2 (Nat.eqb_neq i (length p))) by lia.
  assert (Hlen : length p - i = S (length l1)) by (rewrite <- length_drop, E; done).
  destruct l1 as [|x1 [|e l3]].
  - rewrite (rd_last p (i + 1)) by (done || lia). simpl. rewrite Hrd. simpl. intros H.
    apply (step 1 [] (IChar c) _ E1 ltac:(lia) ltac:(lia) eq_refl H).
  - destruct (rd_cons p (i + 1) x1 [] E1) as (-> & Hlt1 & E2). rewrite Hlen. simpl.
    rewrite andb_false_r, Hrd. intros H. apply (step 1 [x1] (IChar c) _ E1 ltac:(lia) ltac:(lia) eq_refl H).
  - destruct (rd_cons p (i + 1) x1 (e :: l3) E1) as (-> & Hlt1 & E2). rewrite Hlen.
    cbn [mbind option_bind length]. rewrite andb_true_r.
    replace (i + 1 + 1) with (i + 2) in E2 by lia.
    destruct (rd_cons p (i + 2) e l3 E2) as (Hr2 & Hlt2 & E3).
    replace (i + 2 + 1) with (i + 3) in E3 by lia. rewrite Hr2, Hrd.
    destruct (Byte.eqb x1 "-"%byte); intros H; cbn [mbind option_bind].
    + apply (step 3 l3 (IRange c e) _ E3 ltac:(lia) ltac:(lia) eq_refl H).
    + apply (step 1 (x1 :: e :: l3) (IChar c) _ E1 ltac:(lia) ltac:(lia) eq_refl H).
Qed.

(** ** Tokens *)

Lemma tokens_upto_enough n : forall m l,
  length l <= n -> length l <= m -> tokens_upto n l = tokens_upto m l.
Proof.
  induction n as [|n IH]; intros m l Hn Hm; [by destruct l; [destruct m|simpl in Hn; lia]|].
  destruct m as [|m]; [by destruct l; [|simpl in Hm; lia]|].
  destruct l as [|c l1]; [done|]. simpl in Hn, Hm. cbn [tokens_upto].
  rewrite !(IH m l1) by lia.
  destruct (Byte.eqb c "*"%byte); [done|]. destruct (Byte.eqb c "?"%byte); [done|].
  destruct (Byte.eqb c "["%byte).
  - destruct (class_items _) as [[its rest]|] eqn:E; [|done]. simpl.
    apply class_items_length in E.
    assert (length rest <= length l1).
    { etrans; [exact E|]. destruct (match l1 with [] => _ | _ => _ end); [rewrite length_drop|]; lia. }
    by rewrite (IH m rest) by lia.
  - destruct l1 as [|d l2]; [done|]. simpl in Hn, Hm. by rewrite !(IH m l2) by lia.
Qed.

Lemma tokens_cons c l : tokens (c :: l) = tokens_upto (S (length l)) (c :: l).
Proof. done. Qed.

Lemma tokens_fuel n l : length l <= n -> tokens_upto n l = tokens l.
Proof. intros H. by apply tokens_upto_enough. Qed.

(** One round of the matcher on a pattern byte other than a star. *)
Lemma match_one_spec c l i j d ts :
  drop i p = c :: l -> Byte.eqb c "*"%byte = false -> rd s j = Some d ->
  (Byte.eqb c "?"%byte = true -> j < length s) -> tokens (c :: l) = Some ts ->
  exists t ts' i',
    ts = t :: ts' /\ t <> Any /\ i <= i' < length p /\ tokens (drop (i' + 1) p) = Some ts' /\
    (if Byte.eqb c "?"%byte then Some (if Nat.eqb j (length s) then None else Some i)
     else match_one nocase p s c i j) = Some (if token_has nocase t d then Some i' else None).
Proof.
  intros E Hs Hrd Hq Ht. destruct (rd_cons p i c l E) as (Hr & Hlt & E1).
  rewrite tokens_cons in Ht. cbn [tokens_upto] in Ht. rewrite Hs, tokens_fuel in Ht by done.
  destruct (Byte.eqb c "?"%byte).
  { destruct (tokens l) as [ts'|] eqn:El; [|done]. injection Ht as <-.
    exists One, ts', i. specialize (Hq eq_refl). rewrite (proj2 (Nat.eqb_neq j (length s))) by lia.
    rewrite E1. split_and!; try done; lia. }
  unfold match_one. destruct (Byte.eqb c "["%byte).
  - destruct (class_items _) as [[its rest]|] eqn:Ec; [|done]. simpl in Ht.
    set (nott := match l with x :: _ => Byte.eqb x "^"%byte | [] => false end) in *.
    destruct (tokens_upto (length l) rest) as [ts'|] eqn:Er; [|done]. injection Ht as <-.
    assert (Hn : exists x, rd p (i + 1) = Some x /\ Byte.eqb x "^"%byte = nott).
    { destruct l as [|x l].
      - rewrite (rd_last p (i + 1)) by (done || lia). by exists x00.
      - destruct (rd_cons p (i + 1) x l E1) as (-> & _ & _). by exists x. }
    destruct Hn as (x & Hrx & Hx). rewrite Hrx. cbn [mbind option_bind]. rewrite Hx. clearbody nott.
    assert (Hi1 : (if nott then i + 1 + 1 else i + 1) <= length p /\
                  drop (if nott then i + 1 + 1 else i + 1) p = if nott then drop 1 l else l).
    { destruct nott; [|by split; [lia|]]. destruct l as [|y l].
      - rewrite (rd_last p (i + 1)) in Hrx by (done || lia). injection Hrx as <-. done.
      - destruct (rd_cons p (i + 1) y l E1) as (_ & Hy & Ey). split; [lia|done]. }
    destruct Hi1 as [Hi1 Ei1]. rewrite <- Ei1 in Ec.
    assert (i < if nott then i + 1 + 1 else i + 1) by (destruct nott; lia).
    destruct (class_loop_spec d j Hrd (2 + length p) (if nott then i + 1 + 1 else i + 1) its rest false
      ltac:(lia) ltac:(lia) Ec) as (i' & -> & Erest & Hle & Hlt'). cbn [mbind option_bind].
    exists (Class nott its), ts', i'. split_and!; try done; [lia|].
    rewrite Erest, <- Er. symmetry. apply tokens_fuel.
    apply class_items_length in Ec. rewrite Ei1 in Ec. destruct nott; rewrite ?length_drop in Ec; lia.
  - destruct (Byte.eqb c "\"%byte) eqn:Eb; cbn [andb].
    + destruct l as [|x l2].
      * injection Ht as <-. assert (Hlen : length p - i = 1) by (rewrite <- length_drop, E; done).
        rewrite Hlen. simpl. rewrite Hr, Hrd. exists (Lit c), [], i. rewrite E1. split_and!; try done; lia.
      * rewrite tokens_fuel in Ht by (simpl; lia). destruct (tokens l2) as [ts'|] eqn:El; [|done].
        injection Ht as <-. assert (Hlen : length p - i = S (S (length l2))) by (rewrite <- length_drop, E; done).
        rewrite Hlen. cbn [Nat.leb]. destruct (rd_cons p (i + 1) x l2 E1) as (-> & Hx & Ex). rewrite Hrd.
        exists (Lit x), ts', (i + 1). rewrite Ex. split_and!; try done; lia.
    + rewrite Hr, Hrd. assert (Ht' : (ts' ← tokens l; Some (Lit c :: ts')) = Some ts).
      { destruct l; [by injection Ht as <-|done]. }
      destruct (tokens l) as [ts'|] eqn:El; [|done]. injection Ht' as <-.
      exists (Lit c), ts', i. rewrite E1. split_and!; try done; lia.
Qed.

(** ** Stars *)

Lemma tokens_star l : tokens ("*"%byte :: l) = ts ← tokens l; Some (Any :: ts).
Proof. done. Qed.

Lemma skip_stars_spec fuel : forall i ts,
  i <= length p -> length p < i + fuel -> tokens (drop i p) = Some ts ->
  exists k n ts', skip_stars p fuel i = Some k /\ i <= k <= length p /\
    ts = replicate n Any ++ ts' /\ tokens (drop k p) = Some ts' /\
    (k = length p /\ ts' = [] \/
     k < length p /\ exists c l, drop k p = c :: l /\ Byte.eqb c "*"%byte = false).
Proof.
  induction fuel as [|fuel IH]; intros i ts Hi Hf Ht; [lia|]. cbn [skip_stars].
  destruct (drop i p) as [|c l] eqn:E.
  { rewrite (rd_last p i) by done. simpl. apply drop_nil_end in E as ->; [|done].
    exists (length p), 0, ts. injection Ht as <-. rewrite drop_ge by lia.
    split_and!; try done; try lia. by left. }
  destruct (rd_cons p i c l E) as (-> & Hlt & E1). cbn [mbind option_bind].
  destruct (Byte.eqb c "*"%byte) eqn:Es.
  - apply Byte.byte_dec_bl in Es as ->. rewrite tokens_star in Ht.
    destruct (tokens l) as [ts1|] eqn:El; [|done]. injection Ht as <-.
    destruct (IH (i + 1) ts1) as (k & n & ts' & H1 & H2 & H3 & H4 & H5); [lia|lia|by rewrite E1|].
    exists k, (S n), ts'. simpl. rewrite <- H3. split_and!; try done; lia.
  - exists i, 0, ts. rewrite E. split_and!; try done; try lia. right. split; [done|]. by exists c, l.
Qed.

Lemma glob_any ts s' :
  glob nocase (Any :: ts) s' =
  glob nocase ts s' || match s' with [] => false | _ :: s' => glob nocase (Any :: ts) s' end.
Proof. by destruct s'. Qed.

Lemma glob_any_any ts s' : glob nocase (Any :: Any :: ts) s' = glob nocase (Any :: ts) s'.
Proof.
  induction s' as [|c s' IH]; rewrite (glob_any (Any :: ts)); [by rewrite orb_false_r|].
  rewrite IH, (glob_any ts (c :: s')). destruct (glob nocase ts (c :: s')); [done|].
  apply orb_diag.
Qed.

Lemma glob_anys n ts s' : glob nocase (Any :: replicate n Any ++ ts) s' = glob nocase (Any :: ts) s'.
Proof. induction n as [|n IH]; [done|]. simpl replicate. cbn [app]. by rewrite glob_any_any. Qed.

Lemma glob_any_all s' : glob nocase [Any] s' = true.
Proof. induction s' as [|c s' IH]; [done|]. by rewrite glob_any, IH, orb_true_r. Qed.

Lemma glob_anys_nil n ts : glob nocase (replicate n Any ++ ts) [] = glob nocase ts [].
Proof.
  induction n as [|n IH]; [done|]. simpl replicate. cbn [app]. by rewrite glob_any, orb_false_r.
Qed.

(** A pattern that starts with a byte other than a star needs a byte. *)
Lemma glob_needs_byte c l ts :
  Byte.eqb c "*"%byte = false -> tokens (c :: l) = Some ts -> glob nocase ts [] = false.
Proof.
  intros Hs. rewrite tokens_cons. cbn [tokens_upto]. rewrite Hs.
  destruct (Byte.eqb c "?"%byte); [by destruct (tokens_upto _ _); [intros [= <-]|]|].
  destruct (Byte.eqb c "["%byte).
  { destruct (class_items _) as [[its rest]|]; [|done]. simpl.
    by destruct (tokens_upto _ _); [intros [= <-]|]. }
  destruct l as [|d l2]; [by intros [= <-]|].
  destruct (Byte.eqb c "\"%byte); by destruct (tokens_upto _ _); [intros [= <-]|].
Qed.

Lemma star_loop_spec (rest : nat -> option bool) ts :
  glob nocase ts [] = false ->
  (forall j, j < length s -> rest j = Some (glob nocase ts (drop j s))) ->
  forall fuel j, j <= length s -> length s < j + fuel ->
  star_loop s rest fuel j = Some (glob nocase (Any :: ts) (drop j s)).
Proof.
  intros Hn Hr. induction fuel as [|fuel IH]; intros j Hj Hf; [lia|]. cbn [star_loop].
  destruct (Nat.eqb_spec j (length s)) as [->|N].
  { rewrite drop_ge by lia. by rewrite glob_any, Hn. }
  rewrite Hr, glob_any by lia. cbn [mbind option_bind].
  destruct (drop j s) as [|d s'] eqn:E; [apply drop_nil_end in E; lia|].
  destruct (rd_cons s j d s' E) as (_ & _ & E1).
  destruct (glob nocase ts (d :: s')); [done|]. simpl orb. rewrite IH, E1 by lia. done.
Qed.

(** The end of the string: the rest of the pattern must be stars. *)
Lemma match_end i ts :
  i <= length p -> tokens (drop i p) = Some ts ->
  (k ← skip_stars p (2 + length p) i; Some (k =? length p)) = Some (glob nocase ts []).
Proof.
  intros Hi Ht. destruct (skip_stars_spec (2 + length p) i ts Hi ltac:(lia) Ht)
    as (k & n & ts' & -> & Hk & -> & Ht' & Hcase). simpl. rewrite glob_anys_nil. f_equal.
  destruct Hcase as [(-> & ->)|(Hlt & c & l & E & Hs)]; [by rewrite Nat.eqb_refl|].
  rewrite E in Ht'. by rewrite (glob_needs_byte c l ts' Hs Ht'), (proj2 (Nat.eqb_neq k (length p))) by lia.
Qed.

Lemma stringmatch_at_spec fuel : forall i j ts,
  i <= length p -> length p < i + fuel -> j < length s -> tokens (drop i p) = Some ts ->
  stringmatch_at nocase p s fuel i j = Some (glob nocase ts (drop j s)).
Proof.
  induction fuel as [|fuel IH]; intros i j ts Hi Hf Hj Ht; [lia|]. cbn [stringmatch_at].
  destruct (drop j s) as [|d s'] eqn:Ej; [apply drop_nil_end in Ej; lia|].
  destruct (rd_cons s j d s' Ej) as (_ & _ & Ej1).
  destruct (drop i p) as [|c l] eqn:E.
  { apply drop_nil_end in E as ->; [|done]. injection Ht as <-.
    by rewrite Nat.eqb_refl, (proj2 (Nat.eqb_neq j (length s))) by lia. }
  destruct (rd_cons p i c l E) as (Hr & Hlt & E1).
  rewrite (proj2 (Nat.eqb_neq i (length p))), Hr by lia. cbn [mbind option_bind].
  destruct (Byte.eqb c "*"%byte) eqn:Es.
  - apply Byte.byte_dec_bl in Es as ->. rewrite tokens_star in Ht.
    destruct (tokens l) as [ts1|] eqn:El; [|done]. injection Ht as <-. rewrite <- E1 in El.
    destruct (skip_stars_spec (2 + length p) (i + 1) ts1 ltac:(lia) ltac:(lia) El)
      as (k & n & ts' & -> & Hk & -> & Ht' & Hcase). cbn [mbind option_bind].
    rewrite glob_anys. destruct Hcase as [(-> & ->)|(Hlt' & c' & l' & E' & Hs')].
    { by rewrite Nat.eqb_refl, glob_any_all. }
    rewrite (proj2 (Nat.eqb_neq k (length p))) by lia. rewrite <- Ej.
    apply star_loop_spec; [|intros j' Hj'; apply IH; (done || lia)|lia|lia].
    rewrite E' in Ht'. by eapply glob_needs_byte.
  - destruct (match_one_spec c l i j d ts E Es (proj1 (rd_cons s j d s' Ej)) (fun _ => Hj) Ht) as (t & ts' & i' & -> & Hany & Hi' & Ht' & ->).
    cbn [mbind option_bind]. replace (glob nocase (t :: ts') (d :: s'))
      with (token_has nocase t d && glob nocase ts' s') by (by destruct t).
    destruct (token_has nocase t d); [|done]. simpl andb.
    destruct (Nat.eqb_spec (j + 1) (length s)) as [El|N].
    + rewrite (match_end (i' + 1) ts') by (done || lia).
      by rewrite <- Ej1, drop_ge by lia.
    + rewrite (IH (i' + 1) (j + 1) ts') by (done || lia). by rewrite Ej1.
Qed.

End Spec.

(** ** Theorems *)

(** The string is not empty, or the pattern does not start with a class or a
    literal that would match the NUL that ends it. *)
Definition scan_safe (nocase : bool) (ts : list token) (s : bytes) : Prop :=
  match s, ts with
  | [], (Class _ _ | Lit _) as t :: _ => ~ token_means nocase t x00
  | _, _ => True
  end.

Lemma stringmatch_empty nocase p ts :
  tokens p = Some ts -> scan_safe nocase ts [] ->
  stringmatchlen nocase p [] = Some (glob nocase ts []).
Proof.
  intros Ht Hs. unfold stringmatchlen. destruct p as [|c l]; [by injection Ht as <-|].
  set (p := c :: l) in *. cbn [stringmatch_at].
  destruct (rd_cons p 0 c l eq_refl) as (-> & Hlt & E1).
  rewrite (proj2 (Nat.eqb_neq 0 (length p))) by lia. cbn [mbind option_bind].
  destruct (Byte.eqb c "*"%byte) eqn:Es.
  - assert (Ht' : tokens (drop 0 p) = Some ts) by done.
    destruct (skip_stars_spec p (3 + length p) 0 ts ltac:(lia) ltac:(lia) Ht')
      as (k & n & ts' & Hk & Hle & -> & Htk & Hcase).
    assert (Hk' : skip_stars p (2 + length p) (0 + 1) = Some k).
    { change (3 + length p) with (S (2 + length p)) in Hk. cbn [skip_stars] in Hk. destruct (rd_cons p 0 c l eq_refl) as (Hr & _ & _).
      rewrite Hr in Hk. cbn [mbind option_bind] in Hk. by rewrite Es in Hk. }
    rewrite Hk'. cbn [mbind option_bind]. rewrite glob_anys_nil.
    destruct Hcase as [(-> & ->)|(Hlt' & c' & l' & E' & Hs')]; [by rewrite Nat.eqb_refl|].
    rewrite (proj2 (Nat.eqb_neq k (length p))) by lia. rewrite E' in Htk.
    by rewrite (glob_needs_byte nocase c' l' ts' Hs' Htk).
  - rewrite (glob_needs_byte nocase c l ts Es Ht).
    destruct (Byte.eqb c "?"%byte) eqn:Eq; [done|].
    destruct (match_one_spec nocase p [] c l 0 0 x00 ts eq_refl Es eq_refl ltac:(congruence) Ht)
      as (t & ts' & i' & -> & Hany & _ & _ & H). rewrite Eq in H. rewrite H. cbn [mbind option_bind].
    destruct (token_has nocase t x00) eqn:Eh; [|done]. exfalso.
    unfold p in Ht. rewrite tokens_cons in Ht. cbn [tokens_upto] in Ht. rewrite Es, Eq in Ht.
    apply token_has_means in Eh. destruct t; try (by destruct (Hs Eh)); try done.
    destruct (Byte.eqb c "["%byte); [by destruct (class_items _) as [[]|]; [simpl in Ht; destruct (tokens_upto _ _)|]|].
    destruct l; [done|]. by destruct (Byte.eqb c "\"%byte), (tokens_upto _ _).
Qed.

Lemma stringmatchlen_decides nocase p s ts :
  tokens p = Some ts -> scan_safe nocase ts s ->
  stringmatchlen nocase p s = Some (bool_decide (matches nocase ts s)).
Proof.
  intros Ht Hs. rewrite <- glob_decides. destruct s as [|d s]; [by apply stringmatch_empty|].
  rewrite <- (drop_0 (d :: s)) at 2. apply stringmatch_at_spec; [lia|lia|simpl; lia|done].
Qed.

(** C30: [stringmatchlen] decides the glob language.  For every pattern whose
    classes do not end in a dangling backslash, and every string it can scan
    ([scan_safe]; every non-empty one), it terminates, reads only inside both
    strings and answers whether the pattern's tokens match: [*] any bytes, [?]
    one byte, a class one of its members or none of them, where a range holds
    the bytes between its ends, both included and in either order, a backslash
    the byte after it, case-sensitively or not. *)
Theorem stringmatchlen_correct nocase p s ts :
  tokens p = Some ts -> scan_safe nocase ts s ->
  exists b, stringmatchlen nocase p s = Some b /\ (b = true <-> matches nocase ts s).
Proof.
  intros Ht Hs. exists (bool_decide (matches nocase ts s)). split; [by apply stringmatchlen_decides|apply bool_decide_eq_true].
Qed.

Lemma stringmatchlen_correct_witness :
  exists b, stringmatchlen true (lit "h[f-a]*o?") (lit "HELLO!") = Some b /\
    (b = true <-> matches true [Lit x68; Class false [IRange x66 x61]; Any; Lit x6f; One] (lit "HELLO!")).
Proof.
  refine (stringmatchlen_correct true (lit "h[f-a]*o?") (lit "HELLO!")
    [Lit x68; Class false [IRange x66 x61]; Any; Lit x6f; One] _ _); [vm_compute; reflexivity|exact I].
Defined.

(** [stringmatchlen] can leave its arguments.  After the pattern [\[\\] it
    reads past the end of the pattern whatever the string; and on an empty
    string a class that admits NUL consumes the terminator, after which a star
    walks past the end of the string. *)
Theorem stringmatchlen_overruns nocase s :
  stringmatchlen nocase ["["%byte; "\"%byte] s = None /\
  stringmatchlen nocase (lit "[^a]*b") [] = None.
Proof.
  split; [|by destruct nocase; vm_compute].
  unfold stringmatchlen. assert (exists d, rd s 0 = Some d) as (d & Hd) by (by destruct s; eexists).
  cbn [stringmatch_at length Nat.eqb]. cbn. by rewrite Hd.
Qed.

(** ** Prefix patterns *)

Lemma tokens_lits q :
  Forall (fun c => Byte.eqb c "*"%byte || Byte.eqb c "?"%byte || Byte.eqb c "["%byte ||
                   Byte.eqb c "\"%byte = false) q ->
  tokens (q ++ ["*"%byte]) = Some ((Lit <$> q) ++ [Any]).
Proof.
  induction q as [|c q IH]; intros H; [done|]. apply Forall_cons in H as [Hc H].
  specialize (IH H). rewrite !orb_false_iff in Hc. destruct Hc as [[[H1 H2] H3] H4].
  simpl app. rewrite tokens_cons. cbn [tokens_upto]. rewrite H1, H2, H3, H4.
  rewrite tokens_fuel, IH by done. by destruct q.
Qed.

Lemma glob_prefix q : forall s,
  glob false ((Lit <$> q) ++ [Any]) s = bool_decide (q `prefix_of` s).
Proof.
  induction q as [|c q IH]; intros s.
  { change (glob false [Any] s = bool_decide ([] `prefix_of` s)). rewrite glob_any_all.
    by rewrite bool_decide_eq_true_2 by apply prefix_nil. }
  destruct s as [|d s]; [by rewrite bool_decide_eq_false_2 by apply prefix_nil_not|].
  cbn [fmap list_fmap app glob token_has]. rewrite IH. unfold char_eqb.
  destruct (Byte.eqb c d) eqn:E; simpl.
  - apply Byte.byte_dec_bl in E as ->. apply bool_decide_ext. split; [apply prefix_cons|by intros ?%prefix_cons_inv_2].
  - rewrite bool_decide_eq_false_2; [done|]. intros ?%prefix_cons_inv_1; subst.
    by rewrite Byte.byte_dec_lb in E.
Qed.

Lemma isTailWildcard_form p :
  isTailWildcard p = true -> exists q, p = q ++ ["*"%byte] /\ q <> [] /\
    take (length p - 1) p = q /\
    Forall (fun c => Byte.eqb c "*"%byte || Byte.eqb c "?"%byte || Byte.eqb c "["%byte ||
                     Byte.eqb c "]"%byte = false) q.
Proof.
  unfold isTailWildcard. destruct (Nat.ltb_spec (length p) 2); [done|].
  destruct p as [|x p _] using rev_ind; [done|]. rewrite last_snoc, length_app.
  change (length [x]) with 1. replace (length p + 1 - 1) with (length p) by lia.
  rewrite take_app_length. destruct (Byte.eqb x "*"%byte) eqn:E; [|done]. cbn [negb].
  apply Byte.byte_dec_bl in E as ->. rewrite forallb_forall. intros Hall. exists p.
  split_and!; [done|intros ->; simpl in *; lia|done|]. apply Forall_forall. intros c Hc%list_elem_of_In%Hall.
  by apply negb_true_iff in Hc.
Qed.

(** The patterns for which [isTailWildcard] and the matcher disagree: a star at
    the end, no other wildcard, and a backslash before it. *)
Definition escaped_tail (p : bytes) : Prop :=
  exists q, p = q ++ ["*"%byte] /\ "\"%byte ∈ q /\ Forall (fun c => c ∉ ["*"; "?"; "["; "]"]%byte) q.

(** Any other tail wildcard matches the strings with that prefix. *)
Lemma tail_wildcard_matches p ts s :
  isTailWildcard p = true -> ~ escaped_tail p -> tokens p = Some ts ->
  matches false ts s <-> take (length p - 1) p `prefix_of` s.
Proof.
  intros (q & -> & Hq & -> & Hall)%isTailWildcard_form Hb.
  rewrite tokens_lits; [intros [= <-]; by rewrite <- glob_matches, glob_prefix, bool_decide_eq_true|].
  rewrite Forall_forall in Hall |- *. intros c Hc. pose proof (Hall c Hc) as Hc'. rewrite !orb_false_iff in Hc' |- *.
  destruct Hc' as [[[H1 H2] H3] _]. split_and!; try done. destruct (Byte.eqb c "\"%byte) eqn:E; [|done].
  apply Byte.byte_dec_bl in E as ->. destruct Hb. exists q. split; [done|]. split; [done|].
  apply Forall_forall. intros c' Hc'%Hall. intros Hin. rewrite !elem_of_cons, elem_of_nil in Hin.
  destruct Hin as [->|[->|[->|[->|[]]]]]; discriminate Hc'.
Qed.
