(* ===== verification/Bits.v ===== *)
(** * Bits of byte strings

    [GetBitCount], [BitOpOperate] and [GetBitPos] of
    [src/src/storage/src/redis_strings.cc], with the bit tests [GetBit] and
    [SetBit] make.  [bits] lists the bits of a string, the most significant
    bit of each byte first, which is how Redis numbers them; the routines are
    shown equal to the obvious functions on that list. *)

From S2P Require Import Prelude.
Open Scope Z_scope.

(** ** The routines *)

Definition bitsinbyte : list Z := [
  0; 1; 1; 2; 1; 2; 2; 3; 1; 2; 2; 3; 2; 3; 3; 4; 1; 2; 2; 3; 2; 3; 3; 4; 2; 3; 3; 4; 3; 4; 4; 5; 1; 2; 2; 3; 2;
  3; 3; 4; 2; 3; 3; 4; 3; 4; 4; 5; 2; 3; 3; 4; 3; 4; 4; 5; 3; 4; 4; 5; 4; 5; 5; 6; 1; 2; 2; 3; 2; 3; 3; 4; 2; 3;
  3; 4; 3; 4; 4; 5; 2; 3; 3; 4; 3; 4; 4; 5; 3; 4; 4; 5; 4; 5; 5; 6; 2; 3; 3; 4; 3; 4; 4; 5; 3; 4; 4; 5; 4; 5; 5;
  6; 3; 4; 4; 5; 4; 5; 5; 6; 4; 5; 5; 6; 5; 6; 6; 7; 1; 2; 2; 3; 2; 3; 3; 4; 2; 3; 3; 4; 3; 4; 4; 5; 2; 3; 3; 4;
  3; 4; 4; 5; 3; 4; 4; 5; 4; 5; 5; 6; 2; 3; 3; 4; 3; 4; 4; 5; 3; 4; 4; 5; 4; 5; 5; 6; 3; 4; 4; 5; 4; 5; 5; 6; 4;
  5; 5; 6; 5; 6; 6; 7; 2; 3; 3; 4; 3; 4; 4; 5; 3; 4; 4; 5; 4; 5; 5; 6; 3; 4; 4; 5; 4; 5; 5; 6; 4; 5; 5; 6; 5; 6;
  6; 7; 3; 4; 4; 5; 4; 5; 5; 6; 4; 5; 5; 6; 5; 6; 6; 7; 4; 5; 5; 6; 5; 6; 6; 7; 5; 6; 6; 7; 6; 7; 7; 8].

(** The bytes counted; [None] when the [int] accumulator overflows. *)
Definition GetBitCount (value : bytes) : option Z :=
  fold_left (fun bit_num c =>
    n ← bit_num;
    let n := n + nth (Z.to_nat (Z_of_byte c)) bitsinbyte 0 in
    if INT32_MAX <? n then None else Some n) value (Some 0).

Inductive BitOpType := kBitOpAnd | kBitOpOr | kBitOpXor | kBitOpNot | kBitOpDefault.

#[export] Instance BitOpType_eq_dec : EqDecision BitOpType.
Proof. solve_decision. Defined.

Definition byte_at (s : bytes) (j : nat) : byte := nth j s x00.
Definition byte_and (a b : byte) : byte := byte_of_Z (Z.land (Z_of_byte a) (Z_of_byte b)).
Definition byte_or (a b : byte) : byte := byte_of_Z (Z.lor (Z_of_byte a) (Z_of_byte b)).
Definition byte_xor (a b : byte) : byte := byte_of_Z (Z.lxor (Z_of_byte a) (Z_of_byte b)).
Definition byte_not (a : byte) : byte := byte_of_Z (Z.lnot (Z_of_byte a)).

(** The [switch] on the operation. *)
Definition byte_op (op : BitOpType) (output b : byte) : byte :=
  match op with
  | kBitOpNot => output
  | kBitOpAnd => byte_and output b
  | kBitOpOr => byte_or output b
  | kBitOpXor => byte_xor output b
  | kBitOpDefault => output
  end.

(** [dest_value[j]]; a source that has ended supplies 0.  [None] is the read
    of [src_values[0]] when there is no source. *)
Definition BitOpOperate_byte (op : BitOpType) (src_values : list bytes) (j : nat) : option byte :=
  match src_values with
  | [] => None
  | s0 :: rest =>
      let output := byte_at s0 j in
      let output := if decide (op = kBitOpNot) then byte_not output else output in
      Some (fold_left (fun output s => byte_op op output (byte_at s j)) rest output)
  end.

Definition BitOpOperate (op : BitOpType) (src_values : list bytes) (max_len : nat) : option bytes :=
  mapM (BitOpOperate_byte op src_values) (seq 0 max_len).

(** The loop that skips eight bytes at a time; every round shortens [s]. *)
Fixpoint skip_words (fuel : nat) (skip_val : Z) (s : bytes) (pos : Z) : bytes * Z :=
  match fuel with
  | O => (s, pos)
  | S fuel =>
      if Nat.leb 8 (length s) && (le_value (take 8 s) =? skip_val)
      then skip_words fuel skip_val (drop 8 s) (pos + 8 * 8) else (s, pos)
  end.

(** The next eight bytes, most significant first, zeros after the end. *)
Fixpoint load_word (n : nat) (word : Z) (s : bytes) : Z :=
  match n with
  | O => word
  | S n =>
      let word := u64 (Z.shiftl word 8) in
      match s with
      | c :: s => load_word n (Z.lor word (Z_of_byte c)) s
      | [] => load_word n word []
      end
  end.

(** [mask] has one bit, which moves down. *)
Fixpoint mask_loop (fuel : nat) (word mask : Z) (bit : Z) (pos : Z) : Z :=
  match fuel with
  | O => pos
  | S fuel =>
      if mask =? 0 then pos
      else if (if Z.land word mask =? 0 then 0 else 1) =? bit then pos
      else mask_loop fuel word (Z.shiftr mask 1) bit (pos + 1)
  end.

Definition GetBitPos (s : bytes) (bit : Z) : Z :=
  let skip_val := if bit =? 0 then 2 ^ 64 - 1 else 0 in
  let '(c, pos) := skip_words (length s) skip_val s 0 in
  let word := load_word 8 0 c in
  if (bit =? 1) && (word =? 0) then -1
  else
    let mask := u64 (Z.lnot (Z.shiftr (2 ^ 64 - 1) 1)) in
    mask_loop 65 word mask bit pos.

(** [(c & (1 << bit)) >> bit], and the byte with that bit cleared and set to
    the low bit of [on]; [bit] is below 8. *)
Definition byte_bit (c : byte) (bit : Z) : Z := Z.shiftr (Z.land (Z_of_byte c) (Z.shiftl 1 bit)) bit.
Definition byte_set_bit (c : byte) (bit on : Z) : byte :=
  byte_of_Z (Z.lor (Z.land (Z_of_byte c) (Z.lnot (Z.shiftl 1 bit))) (Z.shiftl (Z.land on 1) bit)).

(** [data_value] with the byte replaced, or appended after zeros. *)
Definition put_byte (data_value : bytes) (index : nat) (byte_val : byte) : bytes :=
  let value_lenth := length data_value in
  if Nat.leb (index + 1) value_lenth then <[index := byte_val]> data_value
  else data_value ++ replicate (index + 1 - value_lenth - 1) x00 ++ [byte_val].

(** ** The reference: lists of bits *)

Definition byte_bits (c : byte) : list bool :=
  map (fun k => Z.testbit (Z_of_byte c) (Z.of_nat (7 - k))) (seq 0 8).
Definition bits (s : bytes) : list bool := flat_map byte_bits s.

Definition count_true (l : list bool) : nat := length (filter Is_true l).

Fixpoint first_index (b : bool) (l : list bool) : option nat :=
  match l with
  | [] => None
  | x :: l => if Bool.eqb x b then Some O else S <$> first_index b l
  end.

(** ** Lists of bits *)

Lemma length_bits s : length (bits s) = (8 * length s)%nat.
Proof.
  induction s as [|c s IH]; [done|]. change (bits (c :: s)) with (byte_bits c ++ bits s). rewrite length_app, IH. simpl length. lia.
Qed.

Lemma bits_app s t : bits (s ++ t) = bits s ++ bits t.
Proof. apply flat_map_app. Qed.

Lemma count_true_app l1 l2 : count_true (l1 ++ l2) = (count_true l1 + count_true l2)%nat.
Proof. unfold count_true. by rewrite filter_app, length_app. Qed.

Lemma first_index_app b l1 l2 :
  first_index b (l1 ++ l2) =
  match first_index b l1 with
  | Some i => Some i
  | None => Nat.add (length l1) <$> first_index b l2
  end.
Proof.
  induction l1 as [|x l1 IH]; simpl; [by destruct (first_index b l2)|].
  destruct (Bool.eqb x b); [done|]. rewrite IH. destruct (first_index b l1); [done|].
  by destruct (first_index b l2).
Qed.

Lemma first_index_none b n : first_index b (replicate n (negb b)) = None.
Proof. induction n as [|n IH]; simpl; [done|]. rewrite IH. by destruct b. Qed.

Lemma first_index_none_inv b l : first_index b l = None -> l = replicate (length l) (negb b).
Proof.
  induction l as [|x l IH]; simpl; [done|]. destruct (Bool.eqb x b) eqn:E; [done|].
  destruct (first_index b l); [done|]. intros _. rewrite <- IH by done. by destruct x, b.
Qed.

Lemma first_index_lt b l i : first_index b l = Some i -> (i < length l)%nat.
Proof.
  revert i. induction l as [|x l IH]; intros i; simpl; [done|]. destruct (Bool.eqb x b).
  - intros [= <-]. lia.
  - destruct (first_index b l) as [j|]; [|done]. simpl. intros [= <-]. specialize (IH j eq_refl). lia.
Qed.

(** ** Words as lists of bits *)

Fixpoint word_bits (n : nat) (word : Z) : list bool :=
  match n with
  | O => []
  | S n => Z.testbit word (Z.of_nat n) :: word_bits n word
  end.

Lemma length_word_bits n word : length (word_bits n word) = n.
Proof. induction n; simpl; auto. Qed.

Lemma word_bits_app n m word :
  word_bits (n + m) word = word_bits n (Z.shiftr word (Z.of_nat m)) ++ word_bits m word.
Proof.
  induction n as [|n IH]; simpl; [done|]. rewrite IH, Z.shiftr_spec by lia. do 2 f_equal. lia.
Qed.

Lemma word_bits_ext n v w :
  (forall i, 0 <= i < Z.of_nat n -> Z.testbit v i = Z.testbit w i) -> word_bits n v = word_bits n w.
Proof.
  induction n as [|n IH]; intros H; simpl; [done|]. rewrite IH by (intros; apply H; lia).
  rewrite H by lia. done.
Qed.

Lemma byte_bits_word c : byte_bits c = word_bits 8 (Z_of_byte c).
Proof. done. Qed.

Lemma Z_of_byte_above c i : 8 <= i -> Z.testbit (Z_of_byte c) i = false.
Proof.
  intros Hi. pose proof (Z_of_byte_range c) as Hc. rewrite <- (Z.mod_small (Z_of_byte c) (2 ^ 8)) by lia.
  by rewrite Z.mod_pow2_bits_high by lia.
Qed.

(** Appending a byte to a word. *)
Lemma word_append w c : 0 <= w ->
  word_bits 8 (Z.lor (Z.shiftl w 8) (Z_of_byte c)) = byte_bits c /\
  Z.shiftr (Z.lor (Z.shiftl w 8) (Z_of_byte c)) 8 = w /\ 0 <= Z.lor (Z.shiftl w 8) (Z_of_byte c).
Proof.
  intros Hw. pose proof (Z_of_byte_range c). split_and!.
  - rewrite byte_bits_word. apply word_bits_ext. intros i Hi.
    by rewrite Z.lor_spec, Z.shiftl_spec_low by lia.
  - apply Z.bits_inj'. intros i Hi. rewrite Z.shiftr_spec, Z.lor_spec, Z.shiftl_spec by lia.
    rewrite Z_of_byte_above, orb_false_r by lia. f_equal. lia.
  - apply Z.lor_nonneg. split; [|lia]. by apply Z.shiftl_nonneg.
Qed.

Lemma load_word_bits s : forall w, 0 <= w < 2 ^ (64 - 8 * Z.of_nat (length s)) ->
  8 * Z.of_nat (length s) <= 64 ->
  word_bits (8 * length s) (load_word (length s) w s) = bits s /\
  Z.shiftr (load_word (length s) w s) (8 * Z.of_nat (length s)) = w.
Proof.
  induction s as [|c s IH]; intros w Hw Hl; [by rewrite Z.shiftr_0_r|]. cbn [length load_word] in *.
  rewrite Nat2Z.inj_succ in *.
  assert (Hs : 0 <= Z.shiftl w 8 < 2 ^ (64 - 8 * Z.of_nat (length s))).
  { rewrite Z.shiftl_mul_pow2 by lia. split; [lia|].
    replace (64 - 8 * Z.of_nat (length s)) with (64 - 8 * Z.succ (Z.of_nat (length s)) + 8) by lia.
    rewrite Z.pow_add_r by lia. lia. }
  assert (2 ^ (64 - 8 * Z.of_nat (length s)) <= 2 ^ 64) by (apply Z.pow_le_mono_r; lia).
  rewrite u64_id by (unfold is_u64; lia).
  destruct (word_append w c ltac:(lia)) as (Hb & Hsh & Hpos).
  set (w' := Z.lor (Z.shiftl w 8) (Z_of_byte c)) in *.
  destruct (IH w') as [IH1 IH2]; [|lia|].
  { split; [done|]. rewrite Z.shiftr_div_pow2 in Hsh by lia.
    replace (64 - 8 * Z.of_nat (length s)) with (64 - 8 * Z.succ (Z.of_nat (length s)) + 8) by lia.
    rewrite Z.pow_add_r by lia. Z.to_euclidean_division_equations. lia. }
  split.
  - replace (8 * S (length s))%nat with (8 + 8 * length s)%nat by lia.
    rewrite word_bits_app, IH1. cbn [bits flat_map]. f_equal.
    replace (Z.of_nat (8 * length s)) with (8 * Z.of_nat (length s)) by lia. by rewrite IH2.
  - replace (8 * Z.succ (Z.of_nat (length s))) with (8 * Z.of_nat (length s) + 8) by lia.
    by rewrite <- Z.shiftr_shiftr, IH2 by lia.
Qed.

(** Eight bytes of [s], padded with zeros. *)
Definition pad8 (s : bytes) : bytes := take 8 (s ++ replicate 8 x00).

Lemma load_word_pad n : forall m w s, (n <= m)%nat ->
  load_word n w s = load_word n w (take n (s ++ replicate m x00)).
Proof.
  induction n as [|n IH]; intros m w s Hm; [done|]. destruct m as [|m]; [lia|].
  destruct s as [|c s]; simpl.
  - change (Z_of_byte x00) with 0. rewrite Z.lor_0_r. apply (IH m _ []). lia.
  - apply (IH (S m)). lia.
Qed.

Lemma load_word_pad8 s : load_word 8 0 s = load_word 8 0 (pad8 s).
Proof. by apply load_word_pad. Qed.

Lemma load_word_8 s :
  word_bits 64 (load_word 8 0 s) = bits (pad8 s) /\ is_u64 (load_word 8 0 s).
Proof.
  rewrite load_word_pad8.
  assert (Hl : length (pad8 s) = 8%nat) by (unfold pad8; rewrite length_take, length_app, length_replicate; lia).
  destruct (load_word_bits (pad8 s) 0) as [H1 H2]; rewrite Hl in *; [done|done|].
  split; [done|]. apply Z.shiftr_eq_0_iff in H2 as [->|[Hp Hlog]]; [done|].
  split; [lia|]. apply Z.log2_lt_pow2; [done|]. done.
Qed.

(** The mask of the top bit of [n] bits. *)
Definition top_mask (n : nat) : Z := match n with O => 0 | S n => 2 ^ Z.of_nat n end.

Lemma top_mask_shift n : Z.shiftr (top_mask (S n)) 1 = top_mask n.
Proof.
  simpl. rewrite Z.shiftr_div_pow2 by lia. destruct n as [|n]; [done|]. simpl top_mask.
  rewrite Nat2Z.inj_succ, Z.pow_succ_r, Z.mul_comm by lia. by rewrite Z.div_mul.
Qed.

Lemma land_top_mask word n :
  (Z.land word (2 ^ Z.of_nat n) =? 0) = negb (Z.testbit word (Z.of_nat n)).
Proof.
  destruct (Z.eqb_spec (Z.land word (2 ^ Z.of_nat n)) 0) as [E|E].
  - apply (f_equal (fun z => Z.testbit z (Z.of_nat n))) in E.
    rewrite Z.land_spec, Z.pow2_bits_true, Z.bits_0, andb_true_r in E by lia. by rewrite E.
  - destruct (Z.testbit word (Z.of_nat n)) eqn:T; [done|]. destruct E.
    apply Z.bits_inj'. intros i Hi. rewrite Z.land_spec, Z.bits_0.
    destruct (decide (i = Z.of_nat n)) as [->|]; [by rewrite T|].
    by rewrite Z.pow2_bits_false, andb_false_r by lia.
Qed.

Lemma mask_loop_first n : forall word b pos,
  mask_loop (S n) word (top_mask n) (if b : bool then 1 else 0) pos =
  pos + Z.of_nat (default n (first_index b (word_bits n word))).
Proof.
  induction n as [|n IH]; intros word b pos; [simpl; lia|]. cbn [mask_loop].
  rewrite (proj2 (Z.eqb_neq (top_mask (S n)) 0)) by (simpl; lia).
  rewrite top_mask_shift.
  cbn [top_mask]. rewrite land_top_mask. cbn [word_bits first_index].
  destruct (Z.testbit word (Z.of_nat n)), b; simpl negb; cbv iota; simpl Z.eqb; cbv iota;
    try (simpl; lia); specialize (IH word); 
    [specialize (IH false (pos + 1))|specialize (IH true (pos + 1))];
    cbn [mask_loop] in IH; rewrite IH; simpl Bool.eqb; cbv iota; destruct (first_index _ _); simpl; lia.
Qed.

(** ** Counting *)

Lemma bitsinbyte_count c :
  nth (Z.to_nat (Z_of_byte c)) bitsinbyte 0 = Z.of_nat (count_true (byte_bits c)).
Proof. destruct c; reflexivity. Qed.

Lemma GetBitCount_from s : forall n, 0 <= n <= INT32_MAX ->
  fold_left (fun bit_num c =>
    n ← bit_num;
    let n := n + nth (Z.to_nat (Z_of_byte c)) bitsinbyte 0 in
    if INT32_MAX <? n then None else Some n) s (Some n) =
  if n + Z.of_nat (count_true (bits s)) <=? INT32_MAX
  then Some (n + Z.of_nat (count_true (bits s))) else None.
Proof.
  induction s as [|c s IH]; intros n Hn.
  - simpl. rewrite Z.add_0_r. by rewrite (proj2 (Z.leb_le _ _)) by lia.
  - change (bits (c :: s)) with (byte_bits c ++ bits s). rewrite count_true_app, Nat2Z.inj_add.
    cbn [fold_left mbind option_bind]. cbv zeta. rewrite bitsinbyte_count.
    destruct (Z.ltb_spec INT32_MAX (n + Z.of_nat (count_true (byte_bits c)))) as [H|H].
    + rewrite (proj2 (Z.leb_gt _ _)) by lia. clear. induction s; [done|]. done.
    + rewrite IH by lia. by rewrite !Z.add_assoc.
Qed.

(** ** Searching *)

(** The word the search for [b] skips, and the bytes it stands for. *)
Definition skip_value (b : bool) : Z := if b then 0 else 2 ^ 64 - 1.
Definition skip_byte (b : bool) : byte := if b then x00 else xff.

Lemma skip_word_bytes b s :
  length s = 8%nat -> le_value s = skip_value b -> s = replicate 8 (skip_byte b).
Proof.
  intros Hl Hv. rewrite <- (le_bytes_le_value s), Hl, Hv. by destruct b.
Qed.

Lemma bits_skipped b n : bits (replicate n (skip_byte b)) = replicate (8 * n) (negb b).
Proof.
  induction n as [|n IH]; [done|]. replace (8 * S n)%nat with (8 + 8 * n)%nat by lia.
  rewrite replicate_add, <- IH. by destruct b.
Qed.

Lemma byte_bits_inj c d : byte_bits c = byte_bits d -> c = d.
Proof.
  intros H. apply Z_of_byte_inj.
  assert (E : forall c, Z_of_byte c = fold_left (fun v b => 2 * v + Z.b2z b) (byte_bits c) 0)
    by (intros []; reflexivity).
  by rewrite (E c), (E d), H.
Qed.

Lemma bits_inj s : forall t, bits s = bits t -> s = t.
Proof.
  induction s as [|c s IH]; intros [|d t] H; try done.
  change (byte_bits c ++ bits s = byte_bits d ++ bits t) in H.
  apply app_inj_1 in H as [Hc Hs]; [|done]. f_equal; [by apply byte_bits_inj|by apply IH].
Qed.

(** The skipping loop drops words without the bit and stops at a word that
    has it or at the last, incomplete word. *)
Lemma skip_words_spec b fuel : forall s pos, (length s <= fuel)%nat ->
  exists k rest, skip_words fuel (skip_value b) s pos = (rest, pos + 64 * Z.of_nat k) /\
    s = replicate (8 * k) (skip_byte b) ++ rest /\
    ((8 <= length rest)%nat -> first_index b (bits (take 8 rest)) <> None).
Proof.
  induction fuel as [|fuel IH]; intros s pos Hf.
  { exists 0%nat, s. rewrite Z.add_0_r. split_and!; [done|done|lia]. }
  cbn [skip_words]. destruct (Nat.leb_spec 8 (length s)) as [H8|H8]; cbn [andb];
    [|exists 0%nat, s; rewrite Z.add_0_r; split_and!; [done|done|lia]].
  assert (Ht : length (take 8 s) = 8%nat) by (rewrite length_take; lia).
  destruct (Z.eqb_spec (le_value (take 8 s)) (skip_value b)) as [E|E].
  - destruct (IH (drop 8 s) (pos + 8 * 8)) as (k & rest & -> & Hd & Hr); [rewrite length_drop; lia|].
    exists (S k), rest. split_and!; [f_equal; lia| |done].
    rewrite <- (take_drop 8 s), (skip_word_bytes b (take 8 s)), Hd by done.
    rewrite app_assoc, <- replicate_add. do 2 f_equal. lia.
  - exists 0%nat, s. rewrite Z.add_0_r. split_and!; [done|done|]. intros _ Hn. apply E.
    apply first_index_none_inv in Hn. rewrite length_bits, Ht, <- bits_skipped in Hn.
    apply bits_inj in Hn. rewrite Hn. by destruct b.
Qed.

Lemma word_bits_false n word i :
  word_bits n word = replicate n false -> 0 <= i < Z.of_nat n -> Z.testbit word i = false.
Proof.
  induction n as [|n IH]; intros H Hi; [lia|]. simpl in H. injection H as H1 H2.
  destruct (decide (i = Z.of_nat n)) as [->|]; [done|]. apply IH; [done|lia].
Qed.

Lemma word_zero word : is_u64 word -> (word =? 0) = bool_decide (first_index true (word_bits 64 word) = None).
Proof.
  intros Hw. destruct (Z.eqb_spec word 0) as [->|Hne]; [done|]. symmetry. apply bool_decide_eq_false.
  intros Hn. apply Hne. apply first_index_none_inv in Hn. rewrite length_word_bits in Hn.
  apply Z.bits_inj'. intros i Hi. rewrite Z.bits_0.
  destruct (Z.lt_ge_cases i 64) as [Hlt|Hge].
  - by apply (word_bits_false 64).
  - unfold is_u64 in Hw. rewrite <- (Z.mod_small word (2 ^ 64)) by lia. by rewrite Z.mod_pow2_bits_high by lia.
Qed.

(** What the search finds in the word it stops at. *)
Lemma pad8_first b rest :
  ((8 <= length rest)%nat -> first_index b (bits (take 8 rest)) <> None) ->
  match first_index b (bits (pad8 rest)) with
  | Some i => default (8 * length rest)%nat (first_index b (bits rest)) = i /\
              (b = true -> first_index b (bits rest) <> None)
  | None => b = true /\ first_index b (bits rest) = None
  end.
Proof.
  intros Hr. unfold pad8. destruct (decide (8 <= length rest)%nat) as [H8|H8].
  - rewrite take_app_le by lia. specialize (Hr H8).
    destruct (first_index b (bits (take 8 rest))) as [i|] eqn:E; [|done].
    rewrite <- (take_drop 8 rest), bits_app, first_index_app, E. done.
  - rewrite take_app_ge, bits_app, first_index_app by lia. rewrite take_replicate.
    destruct (first_index b (bits rest)) as [i|] eqn:E; [done|].
    replace (8 - length rest)%nat with (S (7 - length rest)) by lia.
    replace (S _ `min` 8)%nat with (S (7 - length rest)) by lia.
    destruct b.
    + change x00 with (skip_byte true). by rewrite bits_skipped, first_index_none.
    + simpl. rewrite length_bits. split; [lia|done].
Qed.

(** ** Single bits *)

(** The bit [i] of a string, 0 past its end. *)
Definition bit_at (s : bytes) (i : nat) : bool := nth i (bits s) false.

Lemma bit_at_byte s : forall i,
  bit_at s i = Z.testbit (Z_of_byte (byte_at s (i / 8))) (7 - Z.of_nat (i mod 8)).
Proof.
  unfold bit_at, byte_at. induction s as [|c s IH]; intros i.
  - rewrite (nth_overflow (bits [])), (nth_overflow []) by (simpl; lia). symmetry. apply Z.bits_0.
  - change (bits (c :: s)) with (byte_bits c ++ bits s).
    destruct (Nat.lt_ge_cases i 8) as [Hi|Hi].
    + rewrite app_nth1, Nat.div_small, Nat.mod_small by done. cbn [nth].
      do 8 (destruct i as [|i]; [reflexivity|]). lia.
    + rewrite app_nth2 by (simpl; lia). change (length (byte_bits c)) with 8%nat. rewrite IH.
      replace i with (i - 8 + 1 * 8)%nat at 3 4 by lia. rewrite Nat.div_add, Nat.Div0.mod_add by done.
      by rewrite Nat.add_comm.
Qed.

Lemma byte_bit_testbit c bit : 0 <= bit -> byte_bit c bit = Z.b2z (Z.testbit (Z_of_byte c) bit).
Proof.
  intros Hb. unfold byte_bit. apply Z.bits_inj'. intros i Hi.
  rewrite Z.shiftr_spec, Z.land_spec, Z.shiftl_1_l by lia.
  destruct (decide (i = 0)) as [->|].
  - rewrite Z.add_0_l, Z.pow2_bits_true, andb_true_r by lia. by destruct (Z.testbit _ bit).
  - rewrite Z.pow2_bits_false, andb_false_r by lia. destruct (Z.testbit _ bit); [|by rewrite Z.bits_0].
    symmetry. by apply (Z.bits_above_log2 1); simpl; lia.
Qed.

Lemma testbit_byte_of_Z z i : 0 <= i < 8 -> Z.testbit (Z_of_byte (byte_of_Z z)) i = Z.testbit z i.
Proof. intros Hi. rewrite Z_of_byte_of_Z. change 256 with (2 ^ 8). apply Z.mod_pow2_bits_low; lia. Qed.

Lemma byte_set_bit_testbit c bit on i : 0 <= bit < 8 -> 0 <= i < 8 ->
  Z.testbit (Z_of_byte (byte_set_bit c bit on)) i =
  if i =? bit then Z.odd on else Z.testbit (Z_of_byte c) i.
Proof.
  intros Hb Hi. unfold byte_set_bit. rewrite testbit_byte_of_Z by done.
  rewrite Z.lor_spec, Z.land_spec, Z.lnot_spec, Z.shiftl_1_l, Z.shiftl_spec, Z.land_spec by lia.
  destruct (Z.eqb_spec i bit) as [->|N].
  - rewrite Z.pow2_bits_true, Z.sub_diag, Z.bit0_odd by lia. simpl. by rewrite andb_false_r, andb_true_r.
  - rewrite Z.pow2_bits_false by lia. simpl. rewrite andb_true_r.
    destruct (Z.lt_ge_cases i bit); [by rewrite (Z.testbit_neg_r on), orb_false_r by lia|].
    rewrite (Z.bits_above_log2 1) by (simpl; lia). by rewrite andb_false_r, orb_false_r.
Qed.

Lemma byte_at_put_byte s j v i : byte_at (put_byte s j v) i = if decide (i = j) then v else byte_at s i.
Proof.
  unfold byte_at, put_byte. rewrite !nth_lookup. destruct (Nat.leb_spec (j + 1) (length s)).
  - destruct (decide (i = j)) as [->|]; [by rewrite list_lookup_insert_eq by lia|].
    by rewrite list_lookup_insert_ne by done.
  - replace (j + 1 - length s - 1)%nat with (j - length s)%nat by lia.
    destruct (decide (i < length s)%nat).
    + rewrite lookup_app_l, decide_False by lia. done.
    + rewrite lookup_app_r by lia. rewrite (lookup_ge_None_2 s) by lia.
      destruct (decide (i = j)) as [->|].
      * rewrite lookup_app_r by (rewrite length_replicate; lia).
        by rewrite length_replicate, Nat.sub_diag.
      * destruct (decide (i < j)%nat).
        -- rewrite lookup_app_l by (rewrite length_replicate; lia).
           by rewrite lookup_replicate_2 by lia.
        -- by rewrite lookup_ge_None_2 by (rewrite length_app, length_replicate; simpl; lia).
Qed.

(** Setting one bit of a string changes that bit only. *)
Lemma bit_at_put_byte s offset on i :
  bit_at (put_byte s (offset / 8) (byte_set_bit (byte_at s (offset / 8)) (7 - Z.of_nat (offset mod 8)) on)) i =
  if decide (i = offset) then Z.odd on else bit_at s i.
Proof.
  rewrite !bit_at_byte, byte_at_put_byte.
  pose proof (Nat.mod_upper_bound i 8). pose proof (Nat.mod_upper_bound offset 8).
  destruct (decide (i / 8 = offset / 8)%nat) as [E|N].
  - rewrite byte_set_bit_testbit, E by lia. pose proof (Nat.div_mod_eq i 8). pose proof (Nat.div_mod_eq offset 8).
    destruct (Z.eqb_spec (7 - Z.of_nat (i mod 8)) (7 - Z.of_nat (offset mod 8))).
    + rewrite decide_True by lia. done.
    + rewrite decide_False by congruence. done.
  - rewrite decide_False by congruence. done.
Qed.

(** ** Properties *)

(** [BITCOUNT] counts with a table: the result is the number of one bits,
    unless it does not fit the [int] it is accumulated in. *)
Theorem GetBitCount_correct s :
  GetBitCount s =
  if Z.of_nat (count_true (bits s)) <=? INT32_MAX
  then Some (Z.of_nat (count_true (bits s))) else None.
Proof. unfold GetBitCount. by rewrite GetBitCount_from by done. Qed.

(** [GetBitPos] skips whole words and then scans one word under a moving mask.
    It returns the index of the first bit equal to [b]; without one, -1 for a
    search for 1 and the number of bits for a search for 0. *)
Theorem GetBitPos_correct s b :
  GetBitPos s (if b : bool then 1 else 0) =
  match first_index b (bits s) with
  | Some i => Z.of_nat i
  | None => if b then -1 else 8 * Z.of_nat (length s)
  end.
Proof.
  unfold GetBitPos. replace (if (if b then 1 else 0) =? 0 then 2 ^ 64 - 1 else 0) with (skip_value b)
    by (by destruct b).
  destruct (skip_words_spec b (length s) s 0 (le_n _)) as (k & rest & -> & Hs & Hrest).
  destruct (load_word_8 rest) as [Hbits Hword]. pose proof (pad8_first b rest Hrest) as Hp.
  rewrite word_zero, Hbits by done.
  change (u64 (Z.lnot (Z.shiftr (2 ^ 64 - 1) 1))) with (top_mask 64).
  rewrite mask_loop_first, Hbits. rewrite Hs at 1.
  rewrite bits_app, bits_skipped, first_index_app, first_index_none, length_replicate.
  assert (Hlen : length s = (8 * k + length rest)%nat) by (rewrite Hs, length_app, length_replicate; lia).
  destruct (first_index b (bits (pad8 rest))) as [i|] eqn:E.
  - destruct Hp as [Hd Hn]. replace (((if b then 1 else 0) =? 1) && _) with false.
    + destruct (first_index b (bits rest)) as [j|]; simpl in *; [lia|]. destruct b; [by destruct Hn|lia].
    + destruct b; [|done]. simpl. by rewrite E.
  - destruct Hp as [-> Hn]. rewrite E, Hn. done.
Qed.

(** ** Combining strings *)

Definition bit_op (op : BitOpType) (x y : bool) : bool :=
  match op with
  | kBitOpAnd => x && y
  | kBitOpOr => x || y
  | kBitOpXor => xorb x y
  | kBitOpNot | kBitOpDefault => x
  end.

Lemma mapM_total {A B} (f : A -> option B) (g : A -> B) l :
  (forall x, f x = Some (g x)) -> mapM f l = Some (map g l).
Proof. intros H. induction l as [|x l IH]; [done|]. simpl. by rewrite H, IH. Qed.

Lemma byte_op_testbit op a b k : 0 <= k < 8 ->
  Z.testbit (Z_of_byte (byte_op op a b)) k =
  bit_op op (Z.testbit (Z_of_byte a) k) (Z.testbit (Z_of_byte b) k).
Proof.
  intros Hk. destruct op; simpl; try done; unfold byte_and, byte_or, byte_xor;
    rewrite testbit_byte_of_Z by done; [apply Z.land_spec|apply Z.lor_spec|apply Z.lxor_spec].
Qed.

Lemma byte_fold_testbit op rest j k : 0 <= k < 8 -> forall a,
  Z.testbit (Z_of_byte (fold_left (fun output s => byte_op op output (byte_at s j)) rest a)) k =
  fold_left (fun x s => bit_op op x (Z.testbit (Z_of_byte (byte_at s j)) k)) rest
    (Z.testbit (Z_of_byte a) k).
Proof.
  intros Hk. induction rest as [|s rest IH]; intros a; [done|]. simpl. rewrite IH. f_equal.
  by apply byte_op_testbit.
Qed.

Lemma byte_at_map_seq (f : nat -> byte) n j : (j < n)%nat -> byte_at (map f (seq 0 n)) j = f j.
Proof.
  intros Hj. unfold byte_at. rewrite (nth_indep _ x00 (f 0%nat)) by (by rewrite length_map, length_seq).
  by rewrite map_nth, seq_nth.
Qed.

(** [BITOP] works bit by bit on strings padded with zeros to [max_len] bytes:
    AND, OR and XOR combine all the sources, NOT negates the only one. *)
Theorem BitOpOperate_correct op s0 rest max_len :
  exists d, BitOpOperate op (s0 :: rest) max_len = Some d /\ length d = max_len /\
    forall i, (i < 8 * max_len)%nat ->
      bit_at d i =
      fold_left (fun x s => bit_op op x (bit_at s i)) rest
        (if decide (op = kBitOpNot) then negb (bit_at s0 i) else bit_at s0 i).
Proof.
  unfold BitOpOperate. eexists. split; [by apply mapM_total; intros j|].
  split; [by rewrite length_map, length_seq|]. intros i Hi.
  assert (Hj : (i / 8 < max_len)%nat) by (apply Nat.Div0.div_lt_upper_bound; lia).
  pose proof (Nat.mod_upper_bound i 8 ltac:(lia)).
  rewrite bit_at_byte, byte_at_map_seq, byte_fold_testbit by (done || lia).
  assert (E : forall l x y, x = y ->
    fold_left (fun x s => bit_op op x (Z.testbit (Z_of_byte (byte_at s (i / 8))) (7 - Z.of_nat (i mod 8)))) l x =
    fold_left (fun x s => bit_op op x (bit_at s i)) l y).
  { induction l as [|s l IH]; intros x y ->; [done|]. simpl. apply IH. by rewrite bit_at_byte. }
  apply E. rewrite !bit_at_byte. destruct (decide (op = kBitOpNot)); [|done].
  unfold byte_not. by rewrite testbit_byte_of_Z, Z.lnot_spec by lia.
Qed.
