(* ===== verification/KeyFormat.v ===== *)
(** * Key formats of the storage engine

    Models [storage_define.h] ([EncodeUserKey], [DecodeUserKey],
    [SeekUserkeyDelim]), [base_key_format.h] (meta and string keys),
    [base_data_key_format.h] (hash/set/zset/stream member keys),
    [lists_data_key_format.h] (list element keys) and
    [zsets_data_key_format.h] (zset score keys), all under
    [src/src/storage/].

    An encoder writes into a buffer of uninitialised memory ([Uninit]) through
    [memcpy] at a moving position, as the C++ does, and returns the first
    [needed] bytes.  A parser returns [None] where the C++ reads or writes
    outside its object or throws. *)

From S2P Require Import Prelude Coding.
Open Scope nat_scope.

(** ** Constants of [storage_define.h] *)

Definition kPrefixReserveLength : nat := 8.
Definition kVersionLength : nat := 8.
Definition kScoreLength : nat := 8.
Definition kSuffixReserveLength : nat := 16.
Definition kListValueIndexLength : nat := 16.
Definition kTypeLength : nat := 1.
Definition kTimestampLength : nat := 8.

Definition kNeedTransformCharacter : byte := x00.
Definition kEncodedTransformCharacter : bytes := [x00; x01].
Definition kEncodedKeyDelim : bytes := [x00; x00].
Definition kEncodedKeyDelimSize : nat := 2.

(** [char reserve1_[8] = {0}], [char reserve2_[16] = {0}] *)
Definition reserve1 : bytes := replicate 8 x00.
Definition reserve2 : bytes := replicate 16 x00.

(** ** Escaping of user keys *)

(** [std::count(key.begin(), key.end(), '\0')] *)
Fixpoint count_nul (key : bytes) : nat :=
  match key with
  | [] => 0
  | c :: key => (if Byte.eqb c kNeedTransformCharacter then 1 else 0) + count_nul key
  end.

(** The loop of [EncodeUserKey]: [rest] is [user_data + i], [buf] the
    destination memory and [dst] the offset of [dst_ptr] in it. *)
Fixpoint EncodeUserKey_loop (user_data rest : bytes) (i pos : nat)
    (buf : bytes) (dst : nat) : nat * bytes * nat :=
  match rest with
  | [] => (pos, buf, dst)
  | c :: rest =>
      if Byte.eqb c kNeedTransformCharacter then
        let sub_len := i - pos in
        let '(buf, dst) :=
          if Nat.eqb sub_len 0 then (buf, dst)
          else (memcpy buf dst (subseq pos sub_len user_data), dst + sub_len) in
        let buf := memcpy buf dst kEncodedTransformCharacter in
        EncodeUserKey_loop user_data rest (S i) (S i) buf (dst + 2)
      else EncodeUserKey_loop user_data rest (S i) pos buf dst
  end.

(** Writes the escaped key at [dst]; returns the memory and the new [dst_ptr]. *)
Definition EncodeUserKey (user_key : bytes) (buf : bytes) (dst nzero : nat)
    : bytes * nat :=
  if Nat.eqb nzero 0 then
    let buf := memcpy buf dst user_key in
    let dst := dst + length user_key in
    let buf := memcpy buf dst kEncodedKeyDelim in
    (buf, dst + 2)
  else
    let '(pos, buf, dst) := EncodeUserKey_loop user_key user_key 0 0 buf dst in
    let buf :=
      if Nat.eqb pos (length user_key) then buf
      else memcpy buf dst (drop pos user_key) in
    let buf := memcpy buf dst kEncodedKeyDelim in
    (buf, dst + 2).

(** The loop of [DecodeUserKey]: [out] holds the bytes written to
    [*user_key] so far ([output_idx] is its length), [size] its capacity.
    [Some (Some n, out)]: delimiter found, [ret_ptr = ptr + n]. *)
Fixpoint DecodeUserKey_loop (size : nat) (l : bytes) (idx : nat)
    (zero_ahead : bool) (out : bytes) : option (option nat * bytes) :=
  match l with
  | [] => Some (None, out)
  | c :: l =>
      if Byte.eqb c x00 then
        if zero_ahead then Some (Some (S idx), out)
        else DecodeUserKey_loop size l (S idx) true out
      else
        let o := if Byte.eqb c x01 then (if zero_ahead then x00 else c) else c in
        if Nat.ltb (length out) size
        then DecodeUserKey_loop size l (S idx) false (out ++ [o])
        else None
  end.

(** Returns the offset of [ret_ptr] and the decoded key. *)
Definition DecodeUserKey (l : bytes) : option (nat * bytes) :=
  if Nat.ltb (length l) kEncodedKeyDelimSize then None
  else
    let size := length l - kEncodedKeyDelimSize in
    match DecodeUserKey_loop size l 0 false [] with
    | None => None
    | Some (Some n, out) => Some (n, out)
    | Some (None, out) => Some (0, out ++ replicate (size - length out) x00)
    end.

Fixpoint SeekUserkeyDelim_loop (l : bytes) (i : nat) (zero_ahead : bool) : option nat :=
  match l with
  | [] => None
  | c :: l =>
      if Byte.eqb c kNeedTransformCharacter && zero_ahead then Some (S i)
      else SeekUserkeyDelim_loop l (S i) (Byte.eqb c kNeedTransformCharacter)
  end.

(** Offset just past the key delimiter; the start when there is none. *)
Definition SeekUserkeyDelim (l : bytes) : nat :=
  match SeekUserkeyDelim_loop l 0 false with
  | Some n => n
  | None => 0
  end.

(** ** Encoders *)

Section Encoders.
  Context {U : Uninit}.

(** [BaseKey::Encode], also [BaseMetaKey::Encode]. *)
Definition BaseKey_Encode (key : bytes) : bytes :=
  let meta_size := 8 + 16 in
  let nzero := count_nul key in
  let usize := nzero + kEncodedKeyDelimSize + length key in
  let needed := meta_size + usize in
  let buf := uninit needed in
  let buf := memcpy buf 0 reserve1 in
  let '(buf, dst) := EncodeUserKey key buf 8 nzero in
  let buf := memcpy buf dst reserve2 in
  take needed buf.

(** [BaseDataKey::EncodeSeekKey] *)
Definition BaseDataKey_EncodeSeekKey (key : bytes) (version : Z) (data : bytes) : bytes :=
  let meta_size := 8 + 8 in
  let usize := length key + length data + kEncodedKeyDelimSize in
  let nzero := count_nul key in
  let usize := usize + nzero in
  let needed := meta_size + usize in
  let buf := uninit needed in
  let buf := memcpy buf 0 reserve1 in
  let '(buf, dst) := EncodeUserKey key buf 8 nzero in
  let buf := memcpy buf dst (EncodeFixed64 version) in
  let dst := dst + 8 in
  let buf := memcpy buf dst data in
  take needed buf.

(** [BaseDataKey::Encode] *)
Definition BaseDataKey_Encode (key : bytes) (version : Z) (data : bytes) : bytes :=
  let meta_size := 8 + 8 + 16 in
  let usize := length key + length data + kEncodedKeyDelimSize in
  let nzero := count_nul key in
  let usize := usize + nzero in
  let needed := meta_size + usize in
  let buf := uninit needed in
  let buf := memcpy buf 0 reserve1 in
  let '(buf, dst) := EncodeUserKey key buf 8 nzero in
  let buf := memcpy buf dst (EncodeFixed64 version) in
  let dst := dst + 8 in
  let buf := memcpy buf dst data in
  let dst := dst + length data in
  let buf := memcpy buf dst reserve2 in
  take needed buf.

(** [ListsDataKey::Encode] *)
Definition ListsDataKey_Encode (key : bytes) (version index : Z) : bytes :=
  let meta_size := 8 + 8 + 16 in
  let usize := length key + 8 + kEncodedKeyDelimSize in
  let nzero := count_nul key in
  let usize := usize + nzero in
  let needed := meta_size + usize in
  let buf := uninit needed in
  let buf := memcpy buf 0 reserve1 in
  let '(buf, dst) := EncodeUserKey key buf 8 nzero in
  let buf := memcpy buf dst (EncodeFixed64 version) in
  let dst := dst + 8 in
  let buf := memcpy buf dst (EncodeFixed64 index) in
  let dst := dst + 8 in
  let buf := memcpy buf dst reserve2 in
  take needed buf.

(** [ZSetsScoreKey::Encode]; a [double] is its 64-bit pattern. *)
Definition ZSetsScoreKey_Encode (key : bytes) (version score : Z) (member : bytes) : bytes :=
  let meta_size := 8 + 8 + 8 + 16 in
  let usize := length key + length member + kEncodedKeyDelimSize in
  let nzero := count_nul key in
  let usize := usize + nzero in
  let needed := meta_size + usize in
  let buf := uninit needed in
  let buf := memcpy buf 0 reserve1 in
  let '(buf, dst) := EncodeUserKey key buf 8 nzero in
  let buf := memcpy buf dst (EncodeFixed64 version) in
  let dst := dst + 8 in
  let buf := memcpy buf dst (EncodeFixed64 score) in
  let dst := dst + 8 in
  let buf := memcpy buf dst member in
  let dst := dst + length member in
  let buf := memcpy buf dst reserve2 in
  take needed buf.

End Encoders.

(** ** Parsers *)

(** [ParsedBaseKey]: skip [reserve1] and the tail, decode the key. *)
Definition ParsedBaseKey (key : bytes) : option bytes :=
  if Nat.ltb (length key) (kPrefixReserveLength + kSuffixReserveLength) then None
  else
    let region := subseq kPrefixReserveLength
                    (length key - kSuffixReserveLength - kPrefixReserveLength) key in
    '(_, key_str) ← DecodeUserKey region; Some key_str.

Record ParsedDataKey := mkParsedDataKey {
  pdk_key : bytes; pdk_version : Z; pdk_data : bytes
}.

(** [ParsedBaseDataKey::decode] *)
Definition ParsedBaseDataKey (key : bytes) : option ParsedDataKey :=
  if Nat.ltb (length key) (8 + kSuffixReserveLength) then None
  else
    let end_ptr := length key - kSuffixReserveLength in
    let ptr := 8 in
    '(n, key_str) ← DecodeUserKey (subseq ptr (end_ptr - ptr) key);
    let ptr := ptr + n in
    if Nat.ltb end_ptr (ptr + 8) then None
    else
      let version := DecodeFixed64 (drop ptr key) in
      let ptr := ptr + 8 in
      Some (mkParsedDataKey key_str version (subseq ptr (end_ptr - ptr) key)).

Record ParsedListsDataKey := mkParsedListsDataKey {
  pldk_key : bytes; pldk_version : Z; pldk_index : Z
}.

(** [ParsedListsDataKey::decode] *)
Definition ParsedListsDataKey_decode (key : bytes) : option ParsedListsDataKey :=
  if Nat.ltb (length key) (8 + 16) then None
  else
    let end_ptr := length key - 16 in
    let ptr := 8 in
    '(n, key_str) ← DecodeUserKey (subseq ptr (end_ptr - ptr) key);
    let ptr := ptr + n in
    if Nat.ltb (length key) (ptr + 16) then None
    else
      let version := DecodeFixed64 (drop ptr key) in
      let ptr := ptr + 8 in
      let index := DecodeFixed64 (drop ptr key) in
      Some (mkParsedListsDataKey key_str version index).

Record ParsedZSetsScoreKey := mkParsedZSetsScoreKey {
  pzk_key : bytes; pzk_version : Z; pzk_score : Z; pzk_member : bytes
}.

(** [ParsedZSetsScoreKey::decode] *)
Definition ParsedZSetsScoreKey_decode (key : bytes) : option ParsedZSetsScoreKey :=
  if Nat.ltb (length key) (8 + 16) then None
  else
    let end_ptr := length key - 16 in
    let ptr := 8 in
    '(n, key_str) ← DecodeUserKey (subseq ptr (end_ptr - ptr) key);
    let ptr := ptr + n in
    if Nat.ltb end_ptr (ptr + 16) then None
    else
      let version := DecodeFixed64 (drop ptr key) in
      let ptr := ptr + 8 in
      let score := DecodeFixed64 (drop ptr key) in
      let ptr := ptr + 8 in
      Some (mkParsedZSetsScoreKey key_str version score (subseq ptr (end_ptr - ptr) key)).

(** ** The escaping the format intends *)

Fixpoint enc_key (k : bytes) : bytes :=
  match k with
  | [] => []
  | c :: k => (if Byte.eqb c x00 then [x00; x01] else [c]) ++ enc_key k
  end.

(** Keys whose encoding is the intended one: no NUL byte, or the last byte is
    a NUL (see [EncodeUserKey_suffix_lost] for the others). *)
Definition key_ok (k : bytes) : bool :=
  Nat.eqb (count_nul k) 0 ||
  match last k with Some c => Byte.eqb c x00 | None => true end.

(** What precedes the version in every encoded key. *)
Definition key_prefix (k : bytes) : bytes := reserve1 ++ enc_key k ++ kEncodedKeyDelim.

Lemma byte_eqb_spec a b : reflect (a = b) (Byte.eqb a b).
Proof.
  apply iff_reflect. symmetry. split.
  - apply Byte.byte_dec_bl.
  - apply Byte.byte_dec_lb.
Qed.

Lemma byte_eqb_refl a : Byte.eqb a a = true.
Proof. by destruct (byte_eqb_spec a a). Qed.

Lemma memcpy_at x y src n :
  n = length x -> memcpy (x ++ y) n src = x ++ src ++ drop (length src) y.
Proof.
  intros ->. unfold memcpy. by rewrite take_app_length, drop_app_add.
Qed.

Lemma memcpy_0 m s : memcpy m 0 s = s ++ drop (length s) m.
Proof. apply (memcpy_at [] m s 0). done. Qed.

Lemma count_nul_app a b : count_nul (a ++ b) = count_nul a + count_nul b.
Proof. induction a; simpl; lia. Qed.

Lemma enc_key_app a b : enc_key (a ++ b) = enc_key a ++ enc_key b.
Proof. induction a as [|c a IH]; simpl; [done|]. by rewrite IH, app_assoc. Qed.

Lemma length_enc_key k : length (enc_key k) = length k + count_nul k.
Proof.
  induction k as [|c k IH]; simpl; [done|].
  rewrite length_app, IH. unfold kNeedTransformCharacter.
  destruct (Byte.eqb c x00); simpl; lia.
Qed.

Lemma enc_key_no_nul k : count_nul k = 0 -> enc_key k = k.
Proof.
  induction k as [|c k IH]; simpl; [done|]. unfold kNeedTransformCharacter.
  destruct (Byte.eqb c x00); simpl; [done|]. intros H. by rewrite IH.
Qed.

(** The key up to its last NUL, and the NUL-free rest. *)
Lemma EncodeUserKey_loop_spec user a m : forall rest p s,
  user = p ++ s ++ rest -> count_nul s = 0 ->
  exists p' s',
    user = p' ++ s' /\ count_nul s' = 0 /\ (p' = p \/ last p' = Some x00) /\
    EncodeUserKey_loop user rest (length p + length s) (length p)
      (a ++ enc_key p ++ drop (length (enc_key p)) m) (length a + length (enc_key p)) =
    (length p', a ++ enc_key p' ++ drop (length (enc_key p')) m,
     length a + length (enc_key p')).
Proof.
  induction rest as [|c rest IH]; intros p s Hu Hs.
  - exists p, s. rewrite app_nil_r in Hu. split_and!; auto.
  - cbn [EncodeUserKey_loop]. unfold kNeedTransformCharacter.
    destruct (byte_eqb_spec c x00) as [->|Hc].
    + set (p1 := p ++ s ++ [x00]).
      assert (Hp1 : enc_key p1 = (enc_key p ++ s) ++ kEncodedTransformCharacter).
      { unfold p1. rewrite !enc_key_app, (enc_key_no_nul s) by done. by rewrite <- app_assoc. }
      replace (length p + length s - length p) with (length s) by lia.
      destruct (IH p1 []) as (p' & s' & E1 & E2 & E3 & E4).
      { rewrite Hu. unfold p1. by rewrite <- !app_assoc. }
      { done. }
      exists p', s'. split_and!; auto.
      { right. destruct E3 as [->|?]; [|done].
        unfold p1. rewrite app_assoc, last_snoc. done. }
      rewrite <- E4. clear E4 IH.
      assert (Hlen : length (enc_key p1) = length (enc_key p) + length s + 2).
      { rewrite Hp1, !length_app. done. }
      replace (length p1 + length (@nil byte)) with (S (length p + length s))
        by (unfold p1; rewrite !length_app; simpl; lia).
      replace (length p1) with (S (length p + length s))
        by (unfold p1; rewrite !length_app; simpl; lia).
      assert (Hsub : subseq (length p) (length s) user = s).
      { rewrite Hu. by apply subseq_app. }
      rewrite Hsub.
      destruct (Nat.eqb_spec (length s) 0) as [Hs0|Hs0].
      * apply nil_length_inv in Hs0 as ->. rewrite app_assoc, memcpy_at by (by rewrite length_app).
        rewrite drop_drop, Hp1, app_nil_r, <- !app_assoc, !length_app.
        f_equal. simpl. lia.
      * rewrite app_assoc, memcpy_at by (by rewrite length_app).
        rewrite app_assoc, memcpy_at by (rewrite !length_app; lia).
        rewrite !drop_drop, Hp1, <- !app_assoc, !length_app.
        simpl length. repeat (f_equal; try lia).
    + replace (S (length p + length s)) with (length p + length (s ++ [c]))
        by (rewrite length_app; simpl; lia).
      apply IH.
      * by rewrite <- app_assoc.
      * rewrite count_nul_app, Hs. simpl. unfold kNeedTransformCharacter.
        by destruct (byte_eqb_spec c x00).
Qed.

(** What [EncodeUserKey] leaves in memory: [p] is the key up to its last NUL. *)
Lemma EncodeUserKey_spec user a m n :
  n = length a ->
  exists p s, user = p ++ s /\ count_nul s = 0 /\ (p = [] \/ last p = Some x00) /\
    EncodeUserKey user (a ++ m) n (count_nul user) =
    if Nat.eqb (count_nul user) 0
    then (a ++ user ++ kEncodedKeyDelim ++ drop (length user + 2) m, n + length user + 2)
    else (memcpy (a ++ enc_key p ++ memcpy (drop (length (enc_key p)) m) 0 s)
            (n + length (enc_key p)) kEncodedKeyDelim,
          n + length (enc_key p) + 2).
Proof.
  intros ->. unfold EncodeUserKey.
  destruct (EncodeUserKey_loop_spec user a m user [] []) as (p & s & E1 & E2 & E3 & E4);
    [done..|].
  exists p, s. split_and!; auto.
  destruct (Nat.eqb_spec (count_nul user) 0) as [H0|H0].
  - rewrite memcpy_at by done. rewrite app_assoc, memcpy_at by (by rewrite length_app).
    rewrite drop_drop, <- !app_assoc. done.
  - simpl in E4. rewrite drop_0, Nat.add_0_r in E4. rewrite E4.
    assert (Hd : drop (length p) user = s) by (rewrite E1; apply drop_app_length).
    rewrite Hd.
    destruct (Nat.eqb_spec (length p) (length user)) as [Hl|Hl]; [|f_equal].
    + assert (s = []) as ->.
      { apply nil_length_inv. rewrite E1, length_app in Hl. lia. }
      by rewrite memcpy_0, drop_0.
    + rewrite memcpy_0, (app_assoc a), memcpy_at by (by rewrite length_app).
      by rewrite <- app_assoc.
Qed.

(** On keys without a misplaced NUL the encoder writes the intended bytes. *)
Lemma EncodeUserKey_ok user a m n :
  key_ok user = true -> n = length a ->
  EncodeUserKey user (a ++ m) n (count_nul user) =
  (a ++ enc_key user ++ kEncodedKeyDelim ++ drop (length (enc_key user) + 2) m,
   n + length (enc_key user) + 2).
Proof.
  intros Hok Hn.
  destruct (EncodeUserKey_spec user a m n Hn) as (p & s & E1 & E2 & E3 & ->).
  destruct (Nat.eqb_spec (count_nul user) 0) as [H0|H0].
  - by rewrite enc_key_no_nul.
  - unfold key_ok in Hok. rewrite (proj2 (Nat.eqb_neq _ _) H0) in Hok. simpl in Hok.
    assert (s = []) as ->.
    { destruct s as [|b s _] using rev_ind; [done|].
      exfalso. rewrite E1, app_assoc, last_snoc in Hok.
      rewrite count_nul_app in E2. simpl in E2. unfold kNeedTransformCharacter in E2.
      rewrite Hok in E2. simpl in E2. lia. }
    rewrite app_nil_r in E1. subst p. rewrite memcpy_0, drop_0, app_nil_l.
    rewrite app_assoc, memcpy_at by (rewrite length_app; lia).
    rewrite drop_drop, <- !app_assoc. done.
Qed.

Lemma EncodeUserKey_prefix k m :
  key_ok k = true ->
  EncodeUserKey k (reserve1 ++ m) 8 (count_nul k) =
  (key_prefix k ++ drop (length (enc_key k) + 2) m, length (key_prefix k)).
Proof.
  intros Hok. rewrite (EncodeUserKey_ok k reserve1 m 8 Hok) by done.
  unfold key_prefix. rewrite <- !app_assoc. f_equal. rewrite !length_app. simpl. lia.
Qed.

Lemma memcpy_eq x y buf src n :
  buf = x ++ y -> n = length x -> memcpy buf n src = x ++ src ++ drop (length src) y.
Proof. intros ->. apply memcpy_at. Qed.

Lemma take_all_app (x y : bytes) n : n = length x -> take n (x ++ drop n y) = x.
Proof. intros ->. by rewrite take_app_length. Qed.

Lemma length_reserve1 : length reserve1 = 8.
Proof. done. Qed.
Lemma length_reserve2 : length reserve2 = 16.
Proof. done. Qed.

Lemma length_key_prefix k : length (key_prefix k) = 8 + (length k + count_nul k) + 2.
Proof. unfold key_prefix. rewrite !length_app, length_enc_key. simpl. lia. Qed.

#[export] Hint Rewrite length_enc_key length_EncodeFixed64 length_EncodeFixed32
  length_reserve1 length_reserve2 length_key_prefix : len.

(** Solves goals about the lengths of the encoded pieces. *)
Ltac len := unfold kEncodedKeyDelimSize; autorewrite with len; simpl length; try lia.

(** One [memcpy] of an encoder: [x] is what has been written so far. *)
Ltac memcpy_step x :=
  match goal with
  | |- context [memcpy ?b ?n ?s] =>
      lazymatch b with
      | context [memcpy _ _ _] => fail
      | _ => erewrite (memcpy_eq x _ b s n);
             [|rewrite <- ?app_assoc; reflexivity|len]
      end
  end; rewrite ?drop_drop.

(** Opens an encoder: head reserve, then the escaped user key. *)
Ltac encode_key Hok :=
  rewrite memcpy_0, (EncodeUserKey_prefix _ _ Hok), ?drop_drop.

Section EncoderForms.
  Context {U : Uninit}.

Lemma BaseKey_Encode_form k :
    key_ok k = true -> BaseKey_Encode k = key_prefix k ++ reserve2.
  Proof.
    intros Hok. unfold BaseKey_Encode. encode_key Hok. cbn iota beta.
    memcpy_step (key_prefix k).
    rewrite app_assoc.
    match goal with |- take ?n (?x ++ drop ?m ?y) = _ => replace m with n by len end.
    rewrite take_all_app; [done|len].
  Qed.

Lemma BaseDataKey_EncodeSeekKey_form k v d :
    key_ok k = true ->
    BaseDataKey_EncodeSeekKey k v d = key_prefix k ++ EncodeFixed64 v ++ d.
  Proof.
    intros Hok. unfold BaseDataKey_EncodeSeekKey. encode_key Hok. cbn iota beta.
    memcpy_step (key_prefix k).
    memcpy_step (key_prefix k ++ EncodeFixed64 v).
    rewrite app_assoc.
    match goal with |- take ?n (?x ++ drop ?m ?y) = _ => replace m with n by len end.
    rewrite take_all_app; [by rewrite <- app_assoc|len].
  Qed.

Lemma BaseDataKey_Encode_form k v d :
    key_ok k = true ->
    BaseDataKey_Encode k v d = key_prefix k ++ EncodeFixed64 v ++ d ++ reserve2.
  Proof.
    intros Hok. unfold BaseDataKey_Encode. encode_key Hok. cbn iota beta.
    memcpy_step (key_prefix k).
    memcpy_step (key_prefix k ++ EncodeFixed64 v).
    memcpy_step ((key_prefix k ++ EncodeFixed64 v) ++ d).
    rewrite app_assoc.
    match goal with |- take ?n (?x ++ drop ?m ?y) = _ => replace m with n by len end.
    rewrite take_all_app; [by rewrite <- !app_assoc|len].
  Qed.

Lemma ListsDataKey_Encode_form k v i :
    key_ok k = true ->
    ListsDataKey_Encode k v i =
    key_prefix k ++ EncodeFixed64 v ++ EncodeFixed64 i ++ reserve2.
  Proof.
    intros Hok. unfold ListsDataKey_Encode. encode_key Hok. cbn iota beta.
    memcpy_step (key_prefix k).
    memcpy_step (key_prefix k ++ EncodeFixed64 v).
    memcpy_step ((key_prefix k ++ EncodeFixed64 v) ++ EncodeFixed64 i).
    rewrite app_assoc.
    match goal with |- take ?n (?x ++ drop ?m ?y) = _ => replace m with n by len end.
    rewrite take_all_app; [by rewrite <- !app_assoc|len].
  Qed.

Lemma ZSetsScoreKey_Encode_form k v s m :
    key_ok k = true ->
    ZSetsScoreKey_Encode k v s m =
    key_prefix k ++ EncodeFixed64 v ++ EncodeFixed64 s ++ m ++ reserve2.
  Proof.
    intros Hok. unfold ZSetsScoreKey_Encode. encode_key Hok. cbn iota beta.
    memcpy_step (key_prefix k).
    memcpy_step (key_prefix k ++ EncodeFixed64 v).
    memcpy_step ((key_prefix k ++ EncodeFixed64 v) ++ EncodeFixed64 s).
    memcpy_step (((key_prefix k ++ EncodeFixed64 v) ++ EncodeFixed64 s) ++ m).
    rewrite app_assoc.
    match goal with |- take ?n (?x ++ drop ?m ?y) = _ => replace m with n by len end.
    rewrite take_all_app; [by rewrite <- !app_assoc|len].
  Qed.
End EncoderForms.

(** ** Decoding *)

Lemma DecodeUserKey_loop_enc size k rest : forall idx out,
  length out + length k <= size ->
  DecodeUserKey_loop size (enc_key k ++ x00 :: x00 :: rest) idx false out =
  Some (Some (idx + length (enc_key k) + 2), out ++ k).
Proof.
  induction k as [|c k IH]; intros idx out Hl.
  - simpl. rewrite app_nil_r. do 3 f_equal. lia.
  - cbn [enc_key length] in *. destruct (byte_eqb_spec c x00) as [->|Hc].
    + cbn [app]. simpl.
      rewrite (proj2 (Nat.ltb_lt (length out) size)) by lia.
      rewrite IH by (rewrite length_app; simpl; lia).
      rewrite <- app_assoc. do 3 f_equal. lia.
    + cbn [app]. cbn [DecodeUserKey_loop].
      replace (Byte.eqb c x00) with false by (by destruct (byte_eqb_spec c x00)).
      rewrite (proj2 (Nat.ltb_lt (length out) size)) by lia.
      replace (if Byte.eqb c x01 then c else c) with c by (by destruct (Byte.eqb c x01)).
      rewrite IH by (rewrite length_app; simpl; lia).
      rewrite <- app_assoc. do 3 f_equal. simpl. lia.
Qed.

Lemma DecodeUserKey_enc k rest :
  DecodeUserKey (enc_key k ++ kEncodedKeyDelim ++ rest) =
  Some (length (enc_key k) + 2, k).
Proof.
  unfold DecodeUserKey. rewrite (proj2 (Nat.ltb_ge _ _)) by len.
  unfold kEncodedKeyDelim. cbn [app].
  rewrite DecodeUserKey_loop_enc by (unfold kEncodedKeyDelimSize; len). done.
Qed.

Lemma SeekUserkeyDelim_loop_enc k rest : forall i,
  SeekUserkeyDelim_loop (enc_key k ++ x00 :: x00 :: rest) i false =
  Some (i + length (enc_key k) + 2).
Proof.
  induction k as [|c k IH]; intros i.
  - simpl. f_equal. lia.
  - cbn [enc_key]. destruct (byte_eqb_spec c x00) as [->|Hc].
    + cbn [app]. simpl. rewrite IH. f_equal. lia.
    + cbn [app]. cbn [SeekUserkeyDelim_loop]. unfold kNeedTransformCharacter.
      replace (Byte.eqb c x00) with false by (by destruct (byte_eqb_spec c x00)).
      simpl. rewrite IH. f_equal. lia.
Qed.

Lemma SeekUserkeyDelim_enc k rest :
  SeekUserkeyDelim (enc_key k ++ kEncodedKeyDelim ++ rest) = length (enc_key k) + 2.
Proof.
  unfold SeekUserkeyDelim, kEncodedKeyDelim. cbn [app].
  by rewrite SeekUserkeyDelim_loop_enc.
Qed.

(** Everything up to and including the delimiter determines the key. *)
Lemma enc_key_delim_inj k1 k2 r1 r2 :
  enc_key k1 ++ kEncodedKeyDelim ++ r1 = enc_key k2 ++ kEncodedKeyDelim ++ r2 -> k1 = k2.
Proof.
  intros H. pose proof (DecodeUserKey_enc k1 r1) as H1.
  rewrite H, DecodeUserKey_enc in H1. congruence.
Qed.

Lemma key_prefix_inj k1 k2 : key_prefix k1 = key_prefix k2 -> k1 = k2.
Proof.
  unfold key_prefix. intros H%app_inv_head. apply (enc_key_delim_inj k1 k2 [] []).
  by rewrite !app_nil_r.
Qed.

(** Lists cut at the offsets the parsers use. *)
Lemma subseq_mid (a b c : bytes) n m :
  n = length a -> m = length b -> subseq n m (a ++ b ++ c) = b.
Proof. apply subseq_app. Qed.

Lemma drop_pre (a b : bytes) n : n = length a -> drop n (a ++ b) = b.
Proof. intros ->. apply drop_app_length. Qed.

Lemma ParsedBaseKey_form k junk :
  length junk >= 16 -> ParsedBaseKey (key_prefix k ++ junk) = Some k.
Proof.
  intros Hj. unfold ParsedBaseKey, kPrefixReserveLength, kSuffixReserveLength.
  rewrite (proj2 (Nat.ltb_ge _ _)) by len.
  unfold subseq, key_prefix. rewrite <- !app_assoc, drop_pre by done.
  rewrite !take_app, (take_ge (enc_key k)), (take_ge kEncodedKeyDelim) by len.
  rewrite DecodeUserKey_enc. done.
Qed.

Lemma key_region k x n :
  n = length (enc_key k) + 2 + length x ->
  subseq 8 n (key_prefix k ++ x ++ reserve2) = enc_key k ++ kEncodedKeyDelim ++ x.
Proof.
  intros ->. replace (key_prefix k ++ x ++ reserve2)
    with (reserve1 ++ (enc_key k ++ kEncodedKeyDelim ++ x) ++ reserve2)
    by (unfold key_prefix; by rewrite <- !app_assoc).
  apply subseq_mid; [done|len].
Qed.

Lemma ParsedBaseDataKey_form k v d :
  ParsedBaseDataKey (key_prefix k ++ EncodeFixed64 v ++ d ++ reserve2) =
  Some (mkParsedDataKey k (u64 v) d).
Proof.
  unfold ParsedBaseDataKey, kSuffixReserveLength.
  rewrite (proj2 (Nat.ltb_ge _ _)) by len.
  rewrite (app_assoc (EncodeFixed64 v)), key_region by len.
  rewrite DecodeUserKey_enc. cbn [mbind option_bind].
  rewrite (proj2 (Nat.ltb_ge _ _)) by len.
  rewrite <- app_assoc, drop_pre by len. rewrite DecodeFixed64_app.
  rewrite (app_assoc (key_prefix k)), subseq_mid by len. done.
Qed.

Lemma ParsedListsDataKey_form k v i :
  ParsedListsDataKey_decode
    (key_prefix k ++ EncodeFixed64 v ++ EncodeFixed64 i ++ reserve2) =
  Some (mkParsedListsDataKey k (u64 v) (u64 i)).
Proof.
  unfold ParsedListsDataKey_decode.
  rewrite (proj2 (Nat.ltb_ge _ _)) by len.
  rewrite (app_assoc (EncodeFixed64 v)), key_region by len.
  rewrite DecodeUserKey_enc. cbn [mbind option_bind].
  rewrite (proj2 (Nat.ltb_ge _ _)) by len.
  rewrite <- app_assoc, (drop_pre (key_prefix k)), DecodeFixed64_app by len.
  rewrite (app_assoc (key_prefix k)), drop_pre, DecodeFixed64_app by len. done.
Qed.

Lemma ParsedZSetsScoreKey_form k v s m :
  ParsedZSetsScoreKey_decode
    (key_prefix k ++ EncodeFixed64 v ++ EncodeFixed64 s ++ m ++ reserve2) =
  Some (mkParsedZSetsScoreKey k (u64 v) (u64 s) m).
Proof.
  unfold ParsedZSetsScoreKey_decode.
  rewrite (proj2 (Nat.ltb_ge _ _)) by len.
  rewrite !(app_assoc _ _ reserve2), <- (app_assoc (key_prefix k)).
  rewrite key_region by len.
  rewrite DecodeUserKey_enc. cbn [mbind option_bind].
  rewrite (proj2 (Nat.ltb_ge _ _)) by len.
  rewrite <- !app_assoc, (drop_pre (key_prefix k)), DecodeFixed64_app by len.
  rewrite (app_assoc (key_prefix k)), drop_pre, DecodeFixed64_app by len.
  rewrite (app_assoc _ (EncodeFixed64 s)), subseq_mid by len. done.
Qed.

Lemma last_nul_count p : last p = Some x00 -> count_nul p <> 0.
Proof.
  destruct p as [|b p _] using rev_ind; [done|].
  rewrite last_snoc. intros [= ->]. rewrite count_nul_app. simpl. lia.
Qed.

(** The split of a key after its last NUL is unique. *)
Lemma last_nul_split_unique p s p' s' :
  p ++ s = p' ++ s' -> count_nul s = 0 -> count_nul s' = 0 ->
  last p = Some x00 -> p' = [] \/ last p' = Some x00 -> p' = p /\ s' = s.
Proof.
  intros E Hs Hs' Hp Hp'.
  assert (Hne : p' <> []).
  { intros ->. simpl in E. subst s'. rewrite count_nul_app in Hs'.
    apply last_nul_count in Hp. lia. }
  destruct Hp' as [|Hp']; [done|].
  apply app_eq_inv in E as [(t & E1 & E2)|(t & E1 & E2)].
  - destruct t as [|b t _] using rev_ind; [rewrite app_nil_r in E1; by subst|].
    exfalso. rewrite E2, !count_nul_app in Hs'.
    rewrite E1, app_assoc, last_snoc in Hp. injection Hp as ->. simpl in Hs'. lia.
  - destruct t as [|b t _] using rev_ind; [rewrite app_nil_r in E1; by subst|].
    exfalso. rewrite E2, !count_nul_app in Hs.
    rewrite E1, app_assoc, last_snoc in Hp'. injection Hp' as ->. simpl in Hs. lia.
Qed.

(** What [BaseKey::Encode] produces when bytes follow the last NUL. *)
Lemma BaseKey_Encode_lossy `{U : Uninit} p s :
  last p = Some x00 -> count_nul s = 0 ->
  let needed := 26 + length (enc_key p) + length s in
  BaseKey_Encode (p ++ s) =
  key_prefix p ++ reserve2 ++
  drop 18 (s ++ drop (length s) (drop (8 + length (enc_key p)) (uninit needed))).
Proof.
  intros Hp Hs needed. unfold BaseKey_Encode.
  replace (8 + 16 + (count_nul (p ++ s) + kEncodedKeyDelimSize + length (p ++ s)))
    with needed by (unfold needed; rewrite count_nul_app; len).
  rewrite memcpy_0. change (length reserve1) with 8.
  destruct (EncodeUserKey_spec (p ++ s) reserve1 (drop 8 (uninit needed)) 8 eq_refl)
    as (p' & s' & E1 & E2 & E3 & ->).
  apply last_nul_split_unique in E1 as [-> ->]; [|done..].
  rewrite (proj2 (Nat.eqb_neq _ _))
    by (rewrite count_nul_app; apply last_nul_count in Hp; lia).
  cbn iota beta. rewrite memcpy_0, drop_drop.
  memcpy_step (reserve1 ++ enc_key p).
  change (length kEncodedKeyDelim) with 2.
  rewrite (app_assoc (reserve1 ++ enc_key p)).
  replace ((reserve1 ++ enc_key p) ++ kEncodedKeyDelim) with (key_prefix p)
    by (unfold key_prefix; by rewrite <- app_assoc).
  memcpy_step (key_prefix p).
  rewrite take_ge; [|unfold needed; len].
  by rewrite Nat.add_assoc.
Qed.

(** ** Theorems *)

(** C3: every encoded key parses back to what was encoded, for keys without a
    misplaced NUL and whatever the memory the encoder wrote into contained:
    meta keys, member keys of hashes/sets/zsets, list element keys and zset
    score keys. *)
Theorem keys_roundtrip `{U : Uninit} k v w d :
  key_ok k = true -> is_u64 v -> is_u64 w ->
  ParsedBaseKey (BaseKey_Encode k) = Some k /\
  ParsedBaseDataKey (BaseDataKey_Encode k v d) = Some (mkParsedDataKey k v d) /\
  ParsedListsDataKey_decode (ListsDataKey_Encode k v w) =
    Some (mkParsedListsDataKey k v w) /\
  ParsedZSetsScoreKey_decode (ZSetsScoreKey_Encode k v w d) =
    Some (mkParsedZSetsScoreKey k v w d).
Proof.
  intros Hok Hv Hw.
  rewrite BaseKey_Encode_form, BaseDataKey_Encode_form, ListsDataKey_Encode_form,
    ZSetsScoreKey_Encode_form by done.
  rewrite ParsedBaseKey_form by (rewrite length_reserve2; lia).
  rewrite ParsedBaseDataKey_form, ParsedListsDataKey_form, ParsedZSetsScoreKey_form.
  rewrite !u64_id by done. done.
Qed.

(** An allocator whose fresh memory is all [0xCC]. *)
Definition uninit_cc : Uninit :=
  {| uninit n := replicate n xcc; uninit_length n := length_replicate n xcc |}.

Lemma keys_roundtrip_witness :
  ParsedListsDataKey_decode (ListsDataKey_Encode (U := uninit_cc) (lit "mylist") 7 42) =
  Some (mkParsedListsDataKey (lit "mylist") 7 42).
Proof.
  refine (proj1 (proj2 (proj2 (keys_roundtrip (U := uninit_cc) (lit "mylist") 7 42 [] _ _ _))));
    [reflexivity | unfold is_u64; lia | unfold is_u64; lia].
Defined.

(** C35: the encoder drops the end of a key in which bytes follow a NUL: the
    copy of the bytes after the last NUL does not advance the write position,
    and the delimiter overwrites them.  The encoded key parses back to the part
    up to the last NUL, and keys that differ only after it (with equally long
    ends of at most 18 bytes) get the same encoding when the two buffers held
    the same bytes before: [U] stands for what both calls find. *)
Theorem EncodeUserKey_suffix_lost `{U : Uninit} p s :
  last p = Some x00 -> count_nul s = 0 ->
  ParsedBaseKey (BaseKey_Encode (p ++ s)) = Some p /\
  (forall t, length t = length s -> length s <= 18 -> count_nul t = 0 ->
     BaseKey_Encode (p ++ t) = BaseKey_Encode (p ++ s)).
Proof.
  intros Hp Hs. split.
  - rewrite BaseKey_Encode_lossy by done. apply ParsedBaseKey_form. len.
  - intros t Hlt Hl Ht. rewrite !BaseKey_Encode_lossy by done.
    do 2 f_equal. rewrite !drop_app, !Hlt, !(drop_ge _ 18) by lia. done.
Qed.

Lemma EncodeUserKey_suffix_lost_witness :
  BaseKey_Encode (U := uninit_cc) [x61; x00; x62] = BaseKey_Encode (U := uninit_cc) [x61; x00; x63].
Proof.
  refine (proj2 (EncodeUserKey_suffix_lost (U := uninit_cc) [x61; x00] [x63] _ _) [x62] _ _ _);
    vm_compute; first [reflexivity | lia].
Defined.
