(* ===== verification/Comparator.v ===== *)
(** * Key order ([src/src/storage/src/custom_comparator.h])

    [ListsDataKeyComparatorImpl::Compare] orders list element keys and
    [ZSetsScoreKeyComparatorImpl::Compare] zset score keys; the other column
    families use RocksDB's bytewise order.  The [int] a comparator returns is
    its sign, a [comparison].  The theorems show that on encoded keys the
    comparators order by the decoded fields and that the escaping of user keys
    preserves their lexicographic order.

    The C++ reads a version, index or score of eight bytes without checking
    that the key has them; on a key cut inside such a field that read is out of
    bounds, where the model reads the missing bytes as zero.  The claims are
    about complete encoded keys, on which no such read happens. *)

From S2P Require Import Prelude Coding KeyFormat.
Open Scope nat_scope.

(** ** Lists *)

Definition ListsDataKeyCompare (a b : bytes) : comparison :=
  let a_size := length a in
  let b_size := length b in
  let ptr_a := kPrefixReserveLength in
  let ptr_b := kPrefixReserveLength in
  let ptr_a := ptr_a + SeekUserkeyDelim (drop kPrefixReserveLength a) in
  let ptr_b := ptr_b + SeekUserkeyDelim (drop kPrefixReserveLength b) in
  let a_prefix := take ptr_a a in
  let b_prefix := take ptr_b b in
  if negb (bool_decide (a_prefix = b_prefix)) then bytes_compare a_prefix b_prefix
  else if Nat.eqb ptr_a a_size && Nat.eqb ptr_b b_size then Eq
  else if Nat.eqb ptr_a a_size then Lt
  else if Nat.eqb ptr_b b_size then Gt
  else
    let version_a := DecodeFixed64 (drop ptr_a a) in
    let version_b := DecodeFixed64 (drop ptr_b b) in
    let ptr_a := ptr_a + 8 in
    let ptr_b := ptr_b + 8 in
    if negb (Z.eqb version_a version_b) then
      if Z.ltb version_a version_b then Lt else Gt
    else if Nat.eqb ptr_a a_size && Nat.eqb ptr_b b_size then Eq
    else if Nat.eqb ptr_a a_size then Lt
    else if Nat.eqb ptr_b b_size then Gt
    else
      let index_a := DecodeFixed64 (drop ptr_a a) in
      let index_b := DecodeFixed64 (drop ptr_b b) in
      if negb (Z.eqb index_a index_b) then
        if Z.ltb index_a index_b then Lt else Gt
      else Eq.

(** ** Zset scores *)

(** IEEE-754 binary64 on bit patterns: magnitude bits with the sign bit as the
    sign; both zeros are 0. *)
Definition double_is_nan (bits : Z) : bool := Z.ltb (0x7ff0 * 2 ^ 48) (bits mod 2 ^ 63).
Definition double_value (bits : Z) : Z :=
  if Z.testbit bits 63 then (- (bits mod 2 ^ 63))%Z else (bits mod 2 ^ 63)%Z.

(** [a == b] and [a < b] on doubles. *)
Definition double_eqb (a b : Z) : bool :=
  negb (double_is_nan a) && negb (double_is_nan b) && Z.eqb (double_value a) (double_value b).
Definition double_ltb (a b : Z) : bool :=
  negb (double_is_nan a) && negb (double_is_nan b) && Z.ltb (double_value a) (double_value b).

Definition ZSetsScoreKeyCompare (a b : bytes) : comparison :=
  let ptr_a := kPrefixReserveLength in
  let ptr_b := kPrefixReserveLength in
  let p_a := ptr_a + SeekUserkeyDelim (drop ptr_a a) in
  let p_b := ptr_b + SeekUserkeyDelim (drop ptr_b b) in
  let p_a_prefix := subseq ptr_a (p_a - ptr_a) a in
  let p_b_prefix := subseq ptr_b (p_b - ptr_b) b in
  let ret := bytes_compare p_a_prefix p_b_prefix in
  match ret with
  | Eq =>
      let ptr_a := p_a in
      let ptr_b := p_b in
      let version_a := DecodeFixed64 (drop ptr_a a) in
      let version_b := DecodeFixed64 (drop ptr_b b) in
      if negb (Z.eqb version_a version_b) then
        if Z.ltb version_a version_b then Lt else Gt
      else
        let ptr_a := ptr_a + kVersionLength in
        let ptr_b := ptr_b + kVersionLength in
        let a_score := DecodeFixed64 (drop ptr_a a) in
        let b_score := DecodeFixed64 (drop ptr_b b) in
        if negb (double_eqb a_score b_score) then
          if double_ltb a_score b_score then Lt else Gt
        else
          let ptr_a := ptr_a + kScoreLength in
          let ptr_b := ptr_b + kScoreLength in
          bytes_compare (drop ptr_a a) (drop ptr_b b)
  | _ => ret
  end.

(** ** The list comparator as a lexicographic order *)

Definition list_key_ptr (a : bytes) : nat :=
  kPrefixReserveLength + SeekUserkeyDelim (drop kPrefixReserveLength a).
Definition list_key_prefix (a : bytes) : bytes := take (list_key_ptr a) a.
(** The 8-byte field at [ptr]; nothing when the key ends there. *)
Definition field_at (ptr : nat) (a : bytes) : option Z :=
  if Nat.eqb ptr (length a) then None else Some (DecodeFixed64 (drop ptr a)).

Lemma Zcompare_ltb x y :
  (if negb (Z.eqb x y) then if Z.ltb x y then Lt else Gt else Eq) = Z.compare x y.
Proof.
  destruct (Z.compare_spec x y); destruct (Z.eqb_spec x y); destruct (Z.ltb_spec x y);
    simpl; (done || lia).
Qed.

Lemma Zcompare_thenc x y c :
  (if negb (Z.eqb x y) then if Z.ltb x y then Lt else Gt else c) = thenc (Z.compare x y) c.
Proof.
  destruct (Z.compare_spec x y); destruct (Z.eqb_spec x y); destruct (Z.ltb_spec x y);
    simpl; (done || lia).
Qed.

Lemma ListsDataKeyCompare_lex a b :
  ListsDataKeyCompare a b =
  thenc (bytes_compare (list_key_prefix a) (list_key_prefix b))
    (thenc (option_compare Z.compare (field_at (list_key_ptr a) a) (field_at (list_key_ptr b) b))
       (option_compare Z.compare (field_at (list_key_ptr a + 8) a)
          (field_at (list_key_ptr b + 8) b))).
Proof.
  unfold ListsDataKeyCompare. fold (list_key_ptr a) (list_key_ptr b).
  fold (list_key_prefix a) (list_key_prefix b).
  case_bool_decide as E; simpl negb; cbn iota.
  2:{ destruct (bytes_compare _ _) eqn:C; [|done..].
      by apply bytes_compare_eq in C. }
  rewrite E, bytes_compare_refl. cbn [thenc]. unfold field_at.
  destruct (Nat.eqb_spec (list_key_ptr a) (length a)) as [Ha|Ha],
           (Nat.eqb_spec (list_key_ptr b) (length b)) as [Hb|Hb]; cbn [andb option_compare thenc];
    try done.
  - rewrite !(proj2 (Nat.eqb_neq _ _)) by lia. cbn [option_compare].
    by rewrite !drop_ge by lia.
  - rewrite Zcompare_thenc. f_equal.
    destruct (Nat.eqb_spec (list_key_ptr a + 8) (length a)),
             (Nat.eqb_spec (list_key_ptr b + 8) (length b)); try done.
    simpl. apply Zcompare_ltb.
Qed.

#[export] Instance ListsDataKeyCompare_order : CompareOrder ListsDataKeyCompare.
Proof.
  eapply compare_order_ext; [apply ListsDataKeyCompare_lex|].
  repeat apply compare_order_thenc.
  - apply (compare_order_pullback list_key_prefix bytes_compare _).
  - apply (compare_order_pullback (fun a => field_at (list_key_ptr a) a)
             (option_compare Z.compare) _).
  - apply (compare_order_pullback (fun a => field_at (list_key_ptr a + 8) a)
             (option_compare Z.compare) _).
Qed.

(** ** Encoded keys *)

Lemma nul_lt c : c <> x00 -> Z.compare (Z_of_byte x00) (Z_of_byte c) = Lt.
Proof.
  intros Hc. apply Z.compare_lt_iff. pose proof (Z_of_byte_range c).
  destruct (Z.eq_dec (Z_of_byte x00) (Z_of_byte c)) as [E|E].
  - by apply Z_of_byte_inj in E.
  - change (Z_of_byte x00) with 0%Z in *. lia.
Qed.

Lemma nul_gt c : c <> x00 -> Z.compare (Z_of_byte c) (Z_of_byte x00) = Gt.
Proof. intros H. by rewrite (cmp_sym (cmp:=Z.compare) (Z_of_byte x00)), nul_lt. Qed.

(** One byte of an escaped key. *)
Lemma enc_key_cons c k r :
  (c = x00 /\ enc_key (c :: k) ++ r = x00 :: x01 :: enc_key k ++ r) \/
  (c <> x00 /\ enc_key (c :: k) ++ r = c :: enc_key k ++ r).
Proof.
  simpl enc_key. destruct (byte_eqb_spec c x00) as [->|N]; [left|right]; done.
Qed.

(** Escaping and delimiting preserve the order of keys, whatever follows
    distinct keys. *)
Lemma enc_key_compare k1 : forall k2 r1 r2,
  bytes_compare (enc_key k1 ++ kEncodedKeyDelim ++ r1) (enc_key k2 ++ kEncodedKeyDelim ++ r2) =
  thenc (bytes_compare k1 k2) (bytes_compare r1 r2).
Proof.
  induction k1 as [|c1 k1 IH]; intros [|c2 k2] r1 r2.
  - done.
  - destruct (enc_key_cons c2 k2 (kEncodedKeyDelim ++ r2)) as [[-> ->]|[N ->]]; [done|].
    change (enc_key [] ++ kEncodedKeyDelim ++ r1) with (x00 :: x00 :: r1).
    by rewrite bytes_compare_cons, nul_lt.
  - destruct (enc_key_cons c1 k1 (kEncodedKeyDelim ++ r1)) as [[-> ->]|[N ->]]; [done|].
    change (enc_key [] ++ kEncodedKeyDelim ++ r2) with (x00 :: x00 :: r2).
    by rewrite bytes_compare_cons, nul_gt.
  - destruct (enc_key_cons c1 k1 (kEncodedKeyDelim ++ r1)) as [[-> ->]|[N1 ->]],
             (enc_key_cons c2 k2 (kEncodedKeyDelim ++ r2)) as [[-> ->]|[N2 ->]];
      rewrite !bytes_compare_cons, ?IH.
    + by rewrite !cmp_refl.
    + by rewrite nul_lt.
    + by rewrite nul_gt.
    + by destruct (Z.compare _ _).
Qed.

Lemma key_prefix_compare k1 k2 r1 r2 :
  bytes_compare (key_prefix k1 ++ r1) (key_prefix k2 ++ r2) =
  thenc (bytes_compare k1 k2) (bytes_compare r1 r2).
Proof.
  unfold key_prefix. rewrite <- !app_assoc, bytes_compare_app_l. apply enc_key_compare.
Qed.

(** Equal zero padding does not change a comparison. *)
Lemma bytes_compare_zeros n t :
  bytes_compare (replicate n x00) (t ++ replicate n x00) =
  match t with [] => Eq | _ => Lt end.
Proof.
  destruct t as [|c t]; [apply bytes_compare_refl|].
  revert c t. induction n as [|n IH]; intros c t; [done|].
  cbn [replicate app]. rewrite bytes_compare_cons. pose proof (Z_of_byte_range c).
  destruct (Z.compare_spec (Z_of_byte x00) (Z_of_byte c)) as [E|E|E]; simpl; [|done|].
  - destruct t as [|d t].
    + simpl app. clear. induction n as [|n IH]; [done|]. cbn [replicate].
      rewrite bytes_compare_cons, cmp_refl. apply IH.
    + specialize (IH d (t ++ [x00])). rewrite <- IH. simpl. by rewrite <- app_assoc.
  - change (Z_of_byte x00) with 0%Z in E. lia.
Qed.

Lemma bytes_compare_padded n a : forall b,
  bytes_compare (a ++ replicate n x00) (b ++ replicate n x00) = bytes_compare a b.
Proof.
  induction a as [|x a IH]; intros [|y b].
  - apply bytes_compare_refl.
  - apply (bytes_compare_zeros n (y :: b)).
  - rewrite app_nil_l, (cmp_sym (cmp:=bytes_compare) (replicate n x00)).
    by rewrite (bytes_compare_zeros n (x :: a)).
  - cbn [app]. by rewrite !bytes_compare_cons, IH.
Qed.

Lemma SeekUserkeyDelim_prefix k r :
  kPrefixReserveLength + SeekUserkeyDelim (drop kPrefixReserveLength (key_prefix k ++ r)) =
  length (key_prefix k).
Proof.
  unfold key_prefix. rewrite <- !app_assoc, (drop_pre reserve1) by done.
  rewrite SeekUserkeyDelim_enc. rewrite !length_app. simpl. lia.
Qed.

Lemma list_key_fields k v i :
  let a := key_prefix k ++ EncodeFixed64 v ++ EncodeFixed64 i ++ reserve2 in
  list_key_prefix a = key_prefix k /\ field_at (list_key_ptr a) a = Some (u64 v) /\
  field_at (list_key_ptr a + 8) a = Some (u64 i).
Proof.
  intros a. assert (P : list_key_ptr a = length (key_prefix k)) by apply SeekUserkeyDelim_prefix.
  unfold list_key_prefix, field_at. rewrite P. subst a. split_and!.
  - by rewrite take_app_length.
  - rewrite (proj2 (Nat.eqb_neq _ _)) by (len; lia).
    rewrite drop_app_length. by rewrite DecodeFixed64_app.
  - rewrite (proj2 (Nat.eqb_neq _ _)) by (len; lia).
    rewrite app_assoc, drop_pre by (len; lia). by rewrite DecodeFixed64_app.
Qed.

(** Field-by-field order of zset score keys. *)
Lemma zset_key_fields k v s rest :
  let a := key_prefix k ++ EncodeFixed64 v ++ EncodeFixed64 s ++ rest in
  let p := kPrefixReserveLength + SeekUserkeyDelim (drop kPrefixReserveLength a) in
  subseq kPrefixReserveLength (p - kPrefixReserveLength) a = enc_key k ++ kEncodedKeyDelim /\
  DecodeFixed64 (drop p a) = u64 v /\
  DecodeFixed64 (drop (p + kVersionLength) a) = u64 s /\
  drop (p + kVersionLength + kScoreLength) a = rest.
Proof.
  intros a p. assert (P : p = length (key_prefix k)) by apply SeekUserkeyDelim_prefix.
  rewrite P. subst a. unfold kPrefixReserveLength, kVersionLength, kScoreLength. split_and!.
  - unfold key_prefix at 2. rewrite <- !app_assoc, (app_assoc (enc_key k)).
    apply subseq_mid; len; simpl; lia.
  - by rewrite drop_app_length, DecodeFixed64_app.
  - rewrite app_assoc, drop_pre by (len; lia). by rewrite DecodeFixed64_app.
  - rewrite app_assoc, app_assoc, drop_pre by (len; lia). done.
Qed.

Lemma double_compare_thenc x y c :
  double_is_nan x = false -> double_is_nan y = false ->
  (if negb (double_eqb x y) then if double_ltb x y then Lt else Gt else c) =
  thenc (Z.compare (double_value x) (double_value y)) c.
Proof.
  intros Hx Hy. unfold double_eqb, double_ltb. rewrite Hx, Hy. apply Zcompare_thenc.
Qed.

(** The score comparator is an order on keys whose score is a number: it is the
    lexicographic order of these fields. *)
Definition score_key_ptr (a : bytes) : nat :=
  kPrefixReserveLength + SeekUserkeyDelim (drop kPrefixReserveLength a).
Definition score_key_score (a : bytes) : Z := DecodeFixed64 (drop (score_key_ptr a + kVersionLength) a).
Definition score_number (a : bytes) : Prop := double_is_nan (score_key_score a) = false.

Definition score_compare (a b : bytes) : comparison :=
  let prefix a := subseq kPrefixReserveLength (score_key_ptr a - kPrefixReserveLength) a in
  let version a := DecodeFixed64 (drop (score_key_ptr a) a) in
  let rest a := drop (score_key_ptr a + kVersionLength + kScoreLength) a in
  thenc (bytes_compare (prefix a) (prefix b))
    (thenc (Z.compare (version a) (version b))
      (thenc (Z.compare (double_value (score_key_score a)) (double_value (score_key_score b)))
        (bytes_compare (rest a) (rest b)))).

#[export] Instance score_compare_order : CompareOrder score_compare.
Proof.
  unfold score_compare. repeat apply compare_order_thenc.
  - apply (compare_order_pullback (fun a => subseq _ (score_key_ptr a - _) a) bytes_compare _).
  - apply (compare_order_pullback (fun a => DecodeFixed64 (drop (score_key_ptr a) a)) Z.compare _).
  - apply (compare_order_pullback (fun a => double_value (score_key_score a)) Z.compare _).
  - apply (compare_order_pullback (fun a => drop (score_key_ptr a + _ + _) a) bytes_compare _).
Qed.

Lemma ZSetsScoreKeyCompare_lex a b :
  score_number a -> score_number b -> ZSetsScoreKeyCompare a b = score_compare a b.
Proof.
  intros Na Nb. unfold ZSetsScoreKeyCompare, score_compare. fold (score_key_ptr a) (score_key_ptr b). cbv zeta.
  destruct (bytes_compare _ _); [|done..]. cbn [thenc].
  by rewrite Zcompare_thenc, double_compare_thenc.
Qed.

(** Score keys are ordered by their fields, whatever follows the score. *)
Lemma score_key_compare k1 k2 v1 v2 x1 x2 rest1 rest2 :
  is_u64 v1 -> is_u64 v2 -> is_u64 x1 -> is_u64 x2 ->
  double_is_nan x1 = false -> double_is_nan x2 = false ->
  ZSetsScoreKeyCompare (key_prefix k1 ++ EncodeFixed64 v1 ++ EncodeFixed64 x1 ++ rest1)
    (key_prefix k2 ++ EncodeFixed64 v2 ++ EncodeFixed64 x2 ++ rest2) =
  thenc (bytes_compare k1 k2)
    (thenc (Z.compare v1 v2)
       (thenc (Z.compare (double_value x1) (double_value x2)) (bytes_compare rest1 rest2))).
Proof.
  intros V1 V2 X1 X2 N1 N2. unfold ZSetsScoreKeyCompare.
  destruct (zset_key_fields k1 v1 x1 rest1) as (-> & -> & -> & ->).
  destruct (zset_key_fields k2 v2 x2 rest2) as (-> & -> & -> & ->).
  pose proof (enc_key_compare k1 k2 [] []) as H. rewrite !app_nil_r in H. rewrite H.
  rewrite !u64_id by done. destruct (bytes_compare k1 k2); [|done..]. simpl.
  by rewrite Zcompare_thenc, double_compare_thenc.
Qed.

Lemma ZSetsScoreKey_compare `{U : Uninit} k1 k2 v1 v2 x1 x2 m1 m2 :
  key_ok k1 = true -> key_ok k2 = true ->
  is_u64 v1 -> is_u64 v2 -> is_u64 x1 -> is_u64 x2 ->
  double_is_nan x1 = false -> double_is_nan x2 = false ->
  ZSetsScoreKeyCompare (ZSetsScoreKey_Encode k1 v1 x1 m1) (ZSetsScoreKey_Encode k2 v2 x2 m2) =
  thenc (bytes_compare k1 k2)
    (thenc (Z.compare v1 v2)
       (thenc (Z.compare (double_value x1) (double_value x2)) (bytes_compare m1 m2))).
Proof.
  intros K1 K2 V1 V2 X1 X2 N1 N2. rewrite !ZSetsScoreKey_Encode_form, score_key_compare by done.
  unfold reserve2. by rewrite bytes_compare_padded.
Qed.

(** The comparators on encoded keys. *)
Lemma BaseKey_compare `{U : Uninit} k1 k2 :
  key_ok k1 = true -> key_ok k2 = true ->
  bytes_compare (BaseKey_Encode k1) (BaseKey_Encode k2) = bytes_compare k1 k2.
Proof.
  intros K1 K2. rewrite !BaseKey_Encode_form, key_prefix_compare by done.
  rewrite cmp_refl. by destruct (bytes_compare k1 k2).
Qed.

Lemma ListsDataKey_compare `{U : Uninit} k1 k2 v1 v2 x1 x2 :
  key_ok k1 = true -> key_ok k2 = true ->
  is_u64 v1 -> is_u64 v2 -> is_u64 x1 -> is_u64 x2 ->
  ListsDataKeyCompare (ListsDataKey_Encode k1 v1 x1) (ListsDataKey_Encode k2 v2 x2) =
  thenc (bytes_compare k1 k2) (thenc (Z.compare v1 v2) (Z.compare x1 x2)).
Proof.
  intros K1 K2 V1 V2 X1 X2.
  rewrite !ListsDataKey_Encode_form, ListsDataKeyCompare_lex by done.
  destruct (list_key_fields k1 v1 x1) as (-> & -> & ->).
  destruct (list_key_fields k2 v2 x2) as (-> & -> & ->).
  rewrite !u64_id by done. pose proof (key_prefix_compare k1 k2 [] []) as H.
  rewrite !app_nil_r in H. rewrite H. by destruct (bytes_compare k1 k2).
Qed.

(** No key lies between those of consecutive elements. *)
Lemma ListsDataKey_no_between `{U : Uninit} k v i c :
  key_ok k = true -> is_u64 v -> is_u64 i -> is_u64 (i + 1) ->
  ListsDataKeyCompare (ListsDataKey_Encode k v i) c = Lt ->
  ListsDataKeyCompare c (ListsDataKey_Encode k v (i + 1)) = Lt -> False.
Proof.
  intros K V I I1. rewrite !ListsDataKey_Encode_form, !ListsDataKeyCompare_lex by done.
  destruct (list_key_fields k v i) as (-> & -> & ->).
  destruct (list_key_fields k v (i + 1)) as (-> & -> & ->).
  rewrite !u64_id by done.
  rewrite (cmp_sym (cmp:=bytes_compare) (key_prefix k)).
  generalize (field_at (list_key_ptr c + 8) c) (field_at (list_key_ptr c) c).
  intros [y|] [x|]; destruct (bytes_compare (key_prefix k) (list_key_prefix c));
    cbn [CompOpp thenc option_compare]; try done;
    rewrite (Z.compare_antisym v x); destruct (Z.compare v x); cbn [CompOpp thenc]; try done.
  rewrite !Z.compare_lt_iff. lia.
Qed.

(** C2: on encoded keys the comparators order by the fields that were
    encoded.  List element keys go by user key, version and index, the latter
    two as unsigned integers; zset score keys by user key, version, score (as
    doubles, so -0 and +0 tie) and member, the zero padding after the member
    never deciding; meta keys under the bytewise order go by user key. *)
Theorem encoded_keys_ordered `{U : Uninit} k1 k2 v1 v2 x1 x2 m1 m2 :
  key_ok k1 = true -> key_ok k2 = true ->
  is_u64 v1 -> is_u64 v2 -> is_u64 x1 -> is_u64 x2 ->
  bytes_compare (BaseKey_Encode k1) (BaseKey_Encode k2) = bytes_compare k1 k2 /\
  ListsDataKeyCompare (ListsDataKey_Encode k1 v1 x1) (ListsDataKey_Encode k2 v2 x2) =
  thenc (bytes_compare k1 k2) (thenc (Z.compare v1 v2) (Z.compare x1 x2)) /\
  (double_is_nan x1 = false -> double_is_nan x2 = false ->
   ZSetsScoreKeyCompare (ZSetsScoreKey_Encode k1 v1 x1 m1) (ZSetsScoreKey_Encode k2 v2 x2 m2) =
   thenc (bytes_compare k1 k2)
     (thenc (Z.compare v1 v2)
        (thenc (Z.compare (double_value x1) (double_value x2)) (bytes_compare m1 m2)))).
Proof.
  intros K1 K2 V1 V2 X1 X2. split_and!; [| |intros N1 N2].
  - by apply BaseKey_compare.
  - by apply ListsDataKey_compare.
  - by apply ZSetsScoreKey_compare.
Qed.

Lemma encoded_keys_ordered_witness :
  ListsDataKeyCompare (ListsDataKey_Encode (U := uninit_cc) (lit "q") 3 9)
    (ListsDataKey_Encode (U := uninit_cc) (lit "q") 3 256) = Lt.
Proof.
  refine (eq_trans (proj1 (proj2 (encoded_keys_ordered (U := uninit_cc)
    (lit "q") (lit "q") 3 3 9 256 [] [] eq_refl eq_refl _ _ _ _))) eq_refl);
    unfold is_u64; lia.
Defined.
