(* ===== verification/Doubles.v ===== *)
(** * Doubles

    The scores of zsets are [double]s.  A double is its bit pattern; the
    operations the code uses on them are those of IEEE 754 in the arithmetic of
    [SpecFloat].  The order of the patterns in [Comparator] is the order of the
    numbers.  [FindShortestSeparator], which RocksDB calls to shorten the keys of
    its index blocks, adds to a score. *)

From Stdlib Require Import SpecFloat.
From S2P Require Import Prelude Coding KeyFormat Comparator.
Open Scope Z_scope.

(** ** Patterns and numbers *)

Definition double_sign (bits : Z) : bool := Z.testbit bits 63.
Definition double_exponent (bits : Z) : Z := (bits / 2 ^ 52) mod 2 ^ 11.
Definition double_fraction (bits : Z) : Z := bits mod 2 ^ 52.

Definition sf_of_bits (bits : Z) : spec_float :=
  let s := double_sign bits in
  let e := double_exponent bits in
  let m := double_fraction bits in
  if e =? 2047 then if m =? 0 then S754_infinity s else S754_nan
  else if e =? 0 then match m with Zpos p => S754_finite s p (-1074) | _ => S754_zero s end
  else match m + 2 ^ 52 with Zpos p => S754_finite s p (e - 1075) | _ => S754_nan end.

(** The pattern of a NaN is not determined; this is one. *)
Definition bits_of_sf (x : spec_float) : Z :=
  let sign (s : bool) := if s then 2 ^ 63 else 0 in
  match x with
  | S754_zero s => sign s
  | S754_infinity s => sign s + 2047 * 2 ^ 52
  | S754_nan => 2047 * 2 ^ 52 + 2 ^ 51
  | S754_finite s m e =>
      if Zpos m <? 2 ^ 52 then sign s + Zpos m else sign s + (e + 1075) * 2 ^ 52 + (Zpos m - 2 ^ 52)
  end.

(** ** Operations *)

Definition double_add (a b : Z) : Z := u64 (bits_of_sf (SFadd 53 1024 (sf_of_bits a) (sf_of_bits b))).
Definition double_mul (a b : Z) : Z := u64 (bits_of_sf (SFmul 53 1024 (sf_of_bits a) (sf_of_bits b))).

(** [a <= b] *)
Definition double_leb (a b : Z) : bool :=
  negb (double_is_nan a) && negb (double_is_nan b) && (double_value a <=? double_value b).

(** [std::min] and [std::max] *)
Definition double_min (a b : Z) : Z := if double_ltb b a then b else a.
Definition double_max (a b : Z) : Z := if double_ltb a b then b else a.

(** The pattern of a small integer. *)
Definition double_of_Z (n : Z) : Z := bits_of_sf (binary_normalize 53 1024 n 0 false).

(** [std::numeric_limits<double>::max()] and [lowest()] *)
Definition double_highest : Z := 2047 * 2 ^ 52 - 1.
Definition double_lowest : Z := 2 ^ 63 + double_highest.
Definition double_infinity : Z := 2047 * 2 ^ 52.

(** [std::nextafter(x, std::numeric_limits<double>::max())] *)
Definition nextafter_highest (x : Z) : Z :=
  if double_is_nan x then x
  else if double_eqb x double_highest then double_highest
  else if double_ltb double_highest x then double_highest
  else if double_eqb x 0 then 1
  else if double_sign x then x - 1
  else x + 1.

(** ** The order of the patterns *)

Lemma pattern_parts bits : is_u64 bits ->
  bits mod 2 ^ 63 = double_exponent bits * 2 ^ 52 + double_fraction bits /\
  0 <= double_exponent bits < 2048 /\ 0 <= double_fraction bits < 2 ^ 52.
Proof.
  intros H. unfold double_exponent, double_fraction, is_u64 in *.
  pose proof (Z.mod_pos_bound (bits / 2 ^ 52) (2 ^ 11) ltac:(lia)). pose proof (Z.mod_pos_bound bits (2 ^ 52) ltac:(lia)).
  split; [|lia]. change (2 ^ 63) with (2 ^ 52 * 2 ^ 11). rewrite Z.rem_mul_r by lia. lia.
Qed.

Lemma sf_nan bits : is_u64 bits -> double_is_nan bits = true -> sf_of_bits bits = S754_nan.
Proof.
  intros Hb Hn. destruct (pattern_parts bits Hb) as (Hm & He & Hf). unfold double_is_nan in Hn.
  apply Z.ltb_lt in Hn. rewrite Hm in Hn. unfold sf_of_bits.
  assert (double_exponent bits = 2047) as -> by lia. rewrite Z.eqb_refl, (proj2 (Z.eqb_neq _ _)) by lia. done.
Qed.

(** What a pattern is, by its magnitude. *)
Lemma sf_view bits : is_u64 bits -> double_is_nan bits = false ->
  let s := double_sign bits in let mag := bits mod 2 ^ 63 in
  (mag = 0 /\ sf_of_bits bits = S754_zero s) \/
  (mag = 2047 * 2 ^ 52 /\ sf_of_bits bits = S754_infinity s) \/
  (exists M E, sf_of_bits bits = S754_finite s M (E - 1075) /\ mag = (E - 1) * 2 ^ 52 + Zpos M /\
    1 <= E < 2047 /\ Zpos M < 2 ^ 53 /\ (1 < E -> 2 ^ 52 <= Zpos M)).
Proof.
  intros Hb Hn. cbv zeta. destruct (pattern_parts bits Hb) as (Hm & He & Hf). unfold double_is_nan in Hn.
  apply Z.ltb_ge in Hn. rewrite Hm in *. unfold sf_of_bits.
  destruct (Z.eqb_spec (double_exponent bits) 2047) as [E|E].
  { right; left. rewrite E in *. assert (double_fraction bits = 0) as -> by lia. done. }
  destruct (Z.eqb_spec (double_exponent bits) 0) as [E0|E0].
  - rewrite E0. destruct (double_fraction bits) as [|M|M] eqn:EF; [by left| |lia].
    right; right. exists M, 1. split; [done|]. lia.
  - right; right. destruct (double_fraction bits + 2 ^ 52) as [|M|M] eqn:EF; [lia| |lia].
    exists M, (double_exponent bits). split; [done|]. rewrite <- EF. lia.
Qed.

Lemma magnitude_compare E1 M1 E2 M2 :
  1 <= E1 -> 1 <= E2 -> Zpos M1 < 2 ^ 53 -> Zpos M2 < 2 ^ 53 ->
  (1 < E1 -> 2 ^ 52 <= Zpos M1) -> (1 < E2 -> 2 ^ 52 <= Zpos M2) ->
  match E1 - 1075 ?= E2 - 1075 with Lt => Lt | Gt => Gt | Eq => Pos.compare_cont Eq M1 M2 end =
  ((E1 - 1) * 2 ^ 52 + Zpos M1 ?= (E2 - 1) * 2 ^ 52 + Zpos M2).
Proof.
  intros H1 H2 B1 B2 L1 L2. destruct (Z.compare_spec (E1 - 1075) (E2 - 1075)) as [E|E|E].
  - replace E1 with E2 by lia. by rewrite Z.add_compare_mono_l.
  - symmetry. apply Z.compare_lt_iff. lia.
  - symmetry. apply Z.compare_gt_iff. lia.
Qed.

(** The comparison of two numbers is the comparison of their patterns as signed
    magnitudes. *)
Lemma double_order a b : is_u64 a -> is_u64 b ->
  SFcompare (sf_of_bits a) (sf_of_bits b) =
  if double_is_nan a || double_is_nan b then None else Some (double_value a ?= double_value b).
Proof.
  intros Ha Hb. destruct (double_is_nan a) eqn:Na; [by rewrite (sf_nan a)|].
  destruct (double_is_nan b) eqn:Nb; [rewrite (sf_nan b) by done; by destruct (sf_of_bits a)|].
  unfold double_value. fold (double_sign a). fold (double_sign b). cbn [orb].
  destruct (sf_view a Ha Na) as [[Ma ->]|[[Ma ->]|(M1 & E1 & -> & Ma & R1 & B1 & L1)]];
    destruct (sf_view b Hb Nb) as [[Mb ->]|[[Mb ->]|(M2 & E2 & -> & Mb & R2 & B2 & L2)]];
    rewrite Ma, Mb; cbn [SFcompare]; destruct (double_sign a), (double_sign b); f_equal; try done;
    try (symmetry; apply Z.compare_lt_iff; lia); try (symmetry; apply Z.compare_gt_iff; lia).
  - rewrite Z.compare_opp, Z.compare_antisym, <- magnitude_compare by (done || lia).
    destruct (E2 - 1075 ?= E1 - 1075); [|done..]. symmetry. apply (Pos.compare_antisym M1 M2).
  - by apply magnitude_compare; lia.
Qed.

(** ** [ZSetsScoreKeyComparatorImpl::FindShortestSeparator] *)

Open Scope nat_scope.

(** [diff_index]: how long the two strings agree. *)
Fixpoint common_prefix (a b : bytes) : nat :=
  match a, b with
  | x :: a, y :: b => if Byte.eqb x y then S (common_prefix a b) else 0
  | _, _ => 0
  end.

Definition byte_succ (b : byte) : byte := byte_of_Z (Z_of_byte b + 1).

(** The first byte that can be incremented, and what is kept before it. *)
Fixpoint bump_byte (rest : bytes) : option bytes :=
  match rest with
  | [] => None
  | b :: rest => if Z.ltb (Z_of_byte b) 0xff then Some [byte_succ b] else cons b <$> bump_byte rest
  end.

(** Members with different rests: the shortened rest, if there is one. *)
Definition shorten_rest (start_rest limit_rest : bytes) : option bytes :=
  let min_length := Nat.min (length start_rest) (length limit_rest) in
  let diff_index := common_prefix start_rest limit_rest in
  if min_length <=? diff_index then None
  else
    match drop diff_index start_rest, drop diff_index limit_rest with
    | key_start_member_byte :: after, key_limit_member_byte :: _ =>
        if Z.leb (Z_of_byte key_limit_member_byte) (Z_of_byte key_start_member_byte) then None
        else if (diff_index <? length limit_rest - 1) ||
                Z.ltb (Z_of_byte key_start_member_byte + 1) (Z_of_byte key_limit_member_byte)
        then Some (take diff_index start_rest ++ [byte_succ key_start_member_byte])
        else (fun t => take (diff_index + 1) start_rest ++ t) <$> bump_byte after
    | _, _ => None
    end.

(** [*start] afterwards.  The second prefix is a prefix of [start] too, not of
    [limit]. *)
Definition FindShortestSeparator (start limit : bytes) : bytes :=
  let ptr_start := kPrefixReserveLength + SeekUserkeyDelim (drop kPrefixReserveLength start) in
  let ptr_limit := kPrefixReserveLength + SeekUserkeyDelim (drop kPrefixReserveLength limit) in
  let ptr_start := ptr_start + kVersionLength in
  let ptr_limit := ptr_limit + kVersionLength in
  let key_start_prefix := take ptr_start start in
  let key_limit_prefix := take ptr_limit start in
  match bytes_compare key_start_prefix key_limit_prefix with
  | Eq =>
      let start_score := DecodeFixed64 (drop ptr_start start) in
      let limit_score := DecodeFixed64 (drop ptr_limit limit) in
      if double_ltb start_score limit_score then
        let next_score := double_add start_score (double_of_Z 1) in
        if double_ltb next_score limit_score then key_start_prefix ++ EncodeFixed64 next_score else start
      else
        let head_to_score_length := ptr_start + kScoreLength in
        let start_rest := subseq (ptr_start + 8) (length start - head_to_score_length) start in
        let limit_rest := subseq (ptr_limit + 8) (length limit - head_to_score_length) limit in
        match shorten_rest start_rest limit_rest with
        | Some rest => take head_to_score_length start ++ rest
        | None => start
        end
  | _ => start
  end.

Lemma common_prefix_split a : forall b,
  exists p a' b', a = p ++ a' /\ b = p ++ b' /\ common_prefix a b = length p /\
    match a', b' with x :: _, y :: _ => x <> y | _, _ => True end.
Proof.
  induction a as [|x a IH]; intros b; [by exists [], [], b|]. destruct b as [|y b]; [by exists [], (x :: a), []|].
  simpl. destruct (byte_eqb_spec x y) as [->|N]; [|by exists [], (x :: a), (y :: b)].
  destruct (IH b) as (p & a' & b' & -> & -> & E & Hd). exists (y :: p), a', b'. simpl. by rewrite E.
Qed.

Lemma byte_succ_value b : (Z_of_byte b < 255)%Z -> Z_of_byte (byte_succ b) = (Z_of_byte b + 1)%Z.
Proof.
  intros H. unfold byte_succ. rewrite Z_of_byte_of_Z, Z.mod_small; [done|]. pose proof (Z_of_byte_range b). lia.
Qed.

Lemma bump_byte_gt rest t : bump_byte rest = Some t -> bytes_compare rest t = Lt.
Proof.
  revert t. induction rest as [|b rest IH]; intros t; [done|]. cbn [bump_byte]. destruct (Z.ltb_spec (Z_of_byte b) 255) as [H|H].
  - intros [= <-]. rewrite bytes_compare_cons, byte_succ_value by done. by rewrite (proj2 (Z.compare_lt_iff _ _)) by lia.
  - destruct (bump_byte rest) as [t'|]; [|done]. intros [= <-]. rewrite bytes_compare_cons, Z.compare_refl. by apply IH.
Qed.

(** A shortened rest lies above the start, and below the limit when the start
    does. *)
Lemma shorten_rest_between a b c : shorten_rest a b = Some c ->
  bytes_compare a c = Lt /\ (bytes_compare a b = Lt -> bytes_compare c b = Lt).
Proof.
  unfold shorten_rest. destruct (common_prefix_split a b) as (p & a' & b' & -> & -> & -> & Hd).
  rewrite !drop_app_length. destruct (_ <=? _) eqn:El; [done|]. apply Nat.leb_gt in El. rewrite !length_app in El.
  destruct a' as [|x a']; [done|]. destruct b' as [|y b']; [done|].
  destruct (Z.leb_spec (Z_of_byte y) (Z_of_byte x)) as [Hxy|Hxy]; [done|]. pose proof (Z_of_byte_range y).
  rewrite bytes_compare_app_l, bytes_compare_cons.
  destruct (_ || _) eqn:Ec.
  - intros [= <-]. rewrite take_app_length, !bytes_compare_app_l, !bytes_compare_cons, byte_succ_value by lia.
    rewrite (proj2 (Z.compare_lt_iff (Z_of_byte x) (Z_of_byte x + 1))) by lia. split; [done|]. intros _.
    apply orb_true_iff in Ec as [Ec|Ec].
    + apply Nat.ltb_lt in Ec. rewrite length_app in Ec. simpl in Ec. destruct b' as [|z b']; [simpl in Ec; lia|].
      destruct (Z.compare_spec (Z_of_byte x + 1) (Z_of_byte y)); (done || lia).
    + apply Z.ltb_lt in Ec. by rewrite (proj2 (Z.compare_lt_iff _ _)) by lia.
  - destruct (bump_byte a') as [t|] eqn:Et; [|done]. intros [= <-].
    rewrite take_app_ge by lia. replace (length p + 1 - length p) with 1 by lia. rewrite <- app_assoc. cbn [app take].
    rewrite !bytes_compare_app_l, !bytes_compare_cons, Z.compare_refl. split; [by apply bump_byte_gt|].
    by rewrite (proj2 (Z.compare_lt_iff _ _)) by lia.
Qed.

(** A score key cut behind its version, and behind its score. *)
Lemma score_key_cuts k v s rest :
  let a := key_prefix k ++ EncodeFixed64 v ++ EncodeFixed64 s ++ rest in
  let n := length (key_prefix k) in
  take (n + 8) a = key_prefix k ++ EncodeFixed64 v /\
  take (n + 8 + 8) a = key_prefix k ++ EncodeFixed64 v ++ EncodeFixed64 s /\
  DecodeFixed64 (drop (n + 8) a) = u64 s /\ drop (n + 8 + 8) a = rest /\ length a = n + 8 + 8 + length rest.
Proof.
  intros a n. unfold a, n. split_and!.
  - rewrite app_assoc, take_app_length'; [done|len; lia].
  - rewrite (app_assoc (EncodeFixed64 v)), app_assoc, take_app_length'; [done|len; lia].
  - rewrite app_assoc, drop_app_length' by (len; lia). by rewrite DecodeFixed64_app.
  - rewrite (app_assoc (EncodeFixed64 v)), app_assoc, drop_app_length'; [done|len; lia].
  - rewrite !length_app, !length_EncodeFixed64. lia.
Qed.

Section Separators.
Context `{U : Uninit}.

(** What [FindShortestSeparator] makes of two encoded keys. *)
Inductive separated (k1 : bytes) (v1 s1 : Z) (rest1 : bytes) (s2 : Z) (rest2 : bytes) : bytes -> Prop :=
  | sep_same : separated k1 v1 s1 rest1 s2 rest2 (key_prefix k1 ++ EncodeFixed64 v1 ++ EncodeFixed64 s1 ++ rest1)
  | sep_score : double_ltb s1 s2 = true -> double_ltb (double_add s1 (double_of_Z 1)) s2 = true ->
      separated k1 v1 s1 rest1 s2 rest2
        (key_prefix k1 ++ EncodeFixed64 v1 ++ EncodeFixed64 (double_add s1 (double_of_Z 1)))
  | sep_rest rest : double_ltb s1 s2 = false -> shorten_rest rest1 rest2 = Some rest ->
      separated k1 v1 s1 rest1 s2 rest2 (key_prefix k1 ++ EncodeFixed64 v1 ++ EncodeFixed64 s1 ++ rest).

Lemma FindShortestSeparator_cases k1 v1 s1 rest1 k2 v2 s2 rest2 :
  is_u64 s1 -> is_u64 s2 ->
  separated k1 v1 s1 rest1 s2 rest2
    (FindShortestSeparator (key_prefix k1 ++ EncodeFixed64 v1 ++ EncodeFixed64 s1 ++ rest1)
       (key_prefix k2 ++ EncodeFixed64 v2 ++ EncodeFixed64 s2 ++ rest2)).
Proof.
  intros S1 S2. unfold FindShortestSeparator. rewrite !SeekUserkeyDelim_prefix.
  unfold kVersionLength, kScoreLength.
  destruct (score_key_cuts k1 v1 s1 rest1) as (C1 & C1' & C1'' & C1s & L1).
  destruct (score_key_cuts k2 v2 s2 rest2) as (C2 & C2' & C2'' & C2s & L2).
  rewrite C1, C1', C1'', C2'', !u64_id by done.
  destruct (bytes_compare _ _) eqn:Eq; [|constructor..].
  assert (El : length (key_prefix k2) = length (key_prefix k1)).
  { apply bytes_compare_eq in Eq. apply (f_equal length) in Eq. rewrite length_take, L1, length_app in Eq.
    unfold EncodeFixed64 in Eq. rewrite length_le_bytes in Eq. lia. }
  destruct (double_ltb s1 s2) eqn:Elt.
  - destruct (double_ltb (double_add _ _) s2) eqn:Ea; [|constructor]. rewrite <- app_assoc. by constructor.
  - unfold subseq. rewrite L1, L2, El in *. rewrite C1s, C2s, !take_ge by lia.
    destruct (shorten_rest rest1 rest2) as [rest|] eqn:Er; [|constructor]. rewrite <- !app_assoc. by constructor.
Qed.

(** C18: For two score keys in order, [FindShortestSeparator] answers a key that
    is not below the first and is below the second, as RocksDB asks of it,
    provided that a score below the limit's grows when 1 is added to it. *)
Theorem separator_between k1 v1 s1 m1 k2 v2 s2 m2 :
  key_ok k1 = true -> key_ok k2 = true -> is_u64 v1 -> is_u64 v2 -> is_u64 s1 -> is_u64 s2 ->
  double_is_nan s1 = false -> double_is_nan s2 = false ->
  let start := ZSetsScoreKey_Encode k1 v1 s1 m1 in
  let limit := ZSetsScoreKey_Encode k2 v2 s2 m2 in
  ZSetsScoreKeyCompare start limit = Lt ->
  (double_ltb s1 s2 = true -> double_ltb s1 (double_add s1 (double_of_Z 1)) = true) ->
  ZSetsScoreKeyCompare start (FindShortestSeparator start limit) <> Gt /\
  ZSetsScoreKeyCompare (FindShortestSeparator start limit) limit = Lt.
Proof.
  intros K1 K2 V1 V2 S1 S2 N1 N2 start limit. unfold start, limit. rewrite !ZSetsScoreKey_Encode_form by done.
  rewrite score_key_compare by done. intros Hlt Hadd.
  destruct (FindShortestSeparator_cases k1 v1 s1 (m1 ++ reserve2) k2 v2 s2 (m2 ++ reserve2) S1 S2) as [|Hs Ha|rest Hs Hr].
  - rewrite !score_key_compare by done. split; [|done]. by rewrite !cmp_refl.
  - set (s := double_add s1 (double_of_Z 1)) in *. assert (Ns : double_is_nan s = false).
    { unfold double_ltb in Ha. by destruct (double_is_nan s). }
    assert (Su : is_u64 s) by apply u64_range. specialize (Hadd Hs).
    assert (Hgt : (double_value s1 < double_value s)%Z) by (unfold double_ltb in Hadd; rewrite N1, Ns in Hadd; by apply Z.ltb_lt).
    assert (Hl : (double_value s < double_value s2)%Z) by (unfold double_ltb in Ha; rewrite N2, Ns in Ha; by apply Z.ltb_lt).
    rewrite <- (app_nil_r (EncodeFixed64 s)), !score_key_compare by done. rewrite !cmp_refl. cbn [thenc].
    rewrite (proj2 (Z.compare_lt_iff (double_value s1) _)), (proj2 (Z.compare_lt_iff (double_value s) _)) by lia. split; [done|].
    destruct (bytes_compare k1 k2); [|done..]. cbn [thenc] in *. by destruct (v1 ?= v2)%Z.
  - apply shorten_rest_between in Hr as [Hr1 Hr2].
    rewrite !score_key_compare by done. rewrite !cmp_refl. cbn [thenc]. rewrite Hr1. split; [done|].
    destruct (bytes_compare k1 k2); [|done..]. cbn [thenc] in *. destruct (v1 ?= v2)%Z; [|done..]. cbn [thenc] in *.
    destruct (double_value s1 ?= double_value s2)%Z; [|done..]. by apply Hr2.
Qed.

(** When adding 1 does not change the score (from 2^53 on, and for an
    infinite one) and the scores differ, the separator of two members of a key
    lies below the first of them: the member is cut off and the score is the
    same. *)
Theorem separator_below k v s1 m1 s2 m2 :
  key_ok k = true -> is_u64 v -> is_u64 s1 -> is_u64 s2 ->
  double_eqb (double_add s1 (double_of_Z 1)) s1 = true -> double_ltb s1 s2 = true ->
  let start := ZSetsScoreKey_Encode k v s1 m1 in
  let limit := ZSetsScoreKey_Encode k v s2 m2 in
  ZSetsScoreKeyCompare start limit = Lt /\
  ZSetsScoreKeyCompare (FindShortestSeparator start limit) start = Lt.
Proof.
  intros K V S1 S2 He Hlt start limit. unfold start, limit. rewrite !ZSetsScoreKey_Encode_form by done.
  set (s := double_add s1 (double_of_Z 1)) in *. assert (Su : is_u64 s) by apply u64_range.
  assert (Hn : double_is_nan s = false /\ double_is_nan s1 = false /\ double_value s = double_value s1).
  { unfold double_eqb in He. destruct (double_is_nan s), (double_is_nan s1); try done. by apply Z.eqb_eq in He. }
  destruct Hn as (Ns & N1 & Ev).
  assert (N2 : double_is_nan s2 = false) by (unfold double_ltb in Hlt; rewrite N1 in Hlt; by destruct (double_is_nan s2)).
  assert (Hv : (double_value s1 < double_value s2)%Z) by (unfold double_ltb in Hlt; rewrite N1, N2 in Hlt; by apply Z.ltb_lt).
  rewrite score_key_compare, !cmp_refl by done. cbn [thenc].
  rewrite (proj2 (Z.compare_lt_iff (double_value s1) _)) by done. split; [done|].
  unfold FindShortestSeparator. rewrite !SeekUserkeyDelim_prefix. unfold kVersionLength.
  destruct (score_key_cuts k v s1 (m1 ++ reserve2)) as (-> & _ & -> & _ & _).
  destruct (score_key_cuts k v s2 (m2 ++ reserve2)) as (_ & _ & -> & _ & _).
  rewrite bytes_compare_refl, !u64_id by done. cbv zeta. fold s. rewrite Hlt.
  replace (double_ltb s s2) with true by (unfold double_ltb; rewrite Ns, N2, Ev; symmetry; by apply Z.ltb_lt).
  rewrite <- app_assoc, <- (app_nil_r (EncodeFixed64 s)), score_key_compare, !cmp_refl by done.
  cbn [thenc]. rewrite Ev, Z.compare_refl. by destruct m1.
Qed.

End Separators.

Lemma separator_between_witness :
  let start := ZSetsScoreKey_Encode (U := uninit_cc) (lit "z") 1 (double_of_Z 3) (lit "a") in
  let limit := ZSetsScoreKey_Encode (U := uninit_cc) (lit "z") 1 (double_of_Z 7) (lit "b") in
  ZSetsScoreKeyCompare start (FindShortestSeparator start limit) <> Gt /\
  ZSetsScoreKeyCompare (FindShortestSeparator start limit) limit = Lt.
Proof.
  refine (separator_between (U := uninit_cc) (lit "z") 1 (double_of_Z 3) (lit "a") (lit "z") 1 (double_of_Z 7) (lit "b")
    eq_refl eq_refl _ _ _ _ eq_refl eq_refl eq_refl (fun _ => eq_refl)); vm_compute; split; discriminate || reflexivity.
Defined.

Lemma separator_below_witness :
  let start := ZSetsScoreKey_Encode (U := uninit_cc) (lit "z") 1 (double_of_Z (2 ^ 53)) (lit "a") in
  let limit := ZSetsScoreKey_Encode (U := uninit_cc) (lit "z") 1 (double_of_Z (2 ^ 54)) (lit "b") in
  ZSetsScoreKeyCompare start limit = Lt /\ ZSetsScoreKeyCompare (FindShortestSeparator start limit) start = Lt.
Proof.
  refine (separator_below (U := uninit_cc) (lit "z") 1 (double_of_Z (2 ^ 53)) (lit "a") (double_of_Z (2 ^ 54)) (lit "b")
    eq_refl _ _ _ _ eq_refl); vm_compute; (split; discriminate || reflexivity) || reflexivity.
Defined.
