(* ===== verification/ValueFormat.v ===== *)
(** * Value formats of the storage engine

    Models [base_value_format.h], [base_data_value_format.h],
    [base_meta_value_format.h], [lists_meta_value_format.h] and
    [strings_value_format.h] under [src/src/storage/src/].

    A [ParsedXxxValue] object is a record that keeps the bytes it was built
    over ([piv_data]); the user value is a slice (offset, length) into them, so
    that a setter that writes through [const_cast] is seen by it.
    [piv_writable] is [value_ != nullptr], true for the constructors that take
    a [std::string*].  The two constructors of each class run the same code and
    differ only in that flag.

    [pstd::NowMillis()] is an argument [now] of the functions that read the
    clock.  A meta value too short for its suffix is outside the model
    ([None]): the C++ then asserts or leaves fields uninitialised, or computes
    a user value of size -1.  No encoder produces one. *)

From S2P Require Import Prelude Coding KeyFormat.
Open Scope nat_scope.

(** ** Types *)

(** [enum class DataType : uint8_t]; [kOther] is a byte that names none. *)
Inductive DataType :=
  | kStrings | kHashes | kSets | kLists | kZSets | kStreams | kNones | kAll
  | kOther (b : byte).

#[export] Instance DataType_eq_dec : EqDecision DataType.
Proof. solve_decision. Defined.

(** [static_cast<DataType>(static_cast<uint8_t>(c))] *)
Definition DataType_of_byte (b : byte) : DataType :=
  match b with
  | x00 => kStrings | x01 => kHashes | x02 => kSets | x03 => kLists
  | x04 => kZSets | x05 => kStreams | x06 => kNones | x07 => kAll
  | _ => kOther b
  end.

Definition byte_of_DataType (t : DataType) : byte :=
  match t with
  | kStrings => x00 | kHashes => x01 | kSets => x02 | kLists => x03
  | kZSets => x04 | kStreams => x05 | kNones => x06 | kAll => x07
  | kOther b => b
  end.

Definition DataTypeStrings : list bytes :=
  [lit "string"; lit "hash"; lit "set"; lit "list"; lit "zset"; lit "streams";
   lit "none"; lit "all"].

Definition DataTypeTag : bytes := lit "khslzxna".

Definition DataTypeToString (type : DataType) : bytes :=
  let n := Z_of_byte (byte_of_DataType type) in
  if Z.ltb n 0 || Z.ltb 6 n then nth 6 DataTypeStrings []
  else nth (Z.to_nat n) DataTypeStrings [].

Definition DataTypeToTag (type : DataType) : byte :=
  let n := Z_of_byte (byte_of_DataType type) in
  if Z.ltb n 0 || Z.ltb 6 n then nth 6 DataTypeTag x00
  else nth (Z.to_nat n) DataTypeTag x00.

(** ** Timestamps *)

(** [t > 0 ? (t | (1ULL << 63)) : 0] *)
Definition store_time (t : Z) : Z := if Z.ltb 0 t then Z.lor t (2 ^ 63) else 0%Z.

(** [t & ~(1ULL << 63)] *)
Definition clear_ms_bit (raw : Z) : Z := Z.land raw (2 ^ 63 - 1).

(** A raw timestamp without the millisecond bit is in seconds. *)
Definition load_time (raw : Z) : Z :=
  let t := clear_ms_bit raw in
  if Z.eqb t raw then u64 (t * 1000) else t.

(** ** [InternalValue] *)

Record InternalValue := mkInternalValue {
  iv_type : DataType;
  iv_user_value : bytes;
  iv_version : Z;
  iv_etime : Z;
  iv_ctime : Z
}.

(** The constructor: [ctime_ = pstd::NowMillis()]. *)
Definition InternalValue_new (now : Z) (type : DataType) (user_value : bytes) : InternalValue :=
  mkInternalValue type user_value 0 0 now.

Definition InternalValue_SetEtime (v : InternalValue) (etime : Z) : InternalValue :=
  mkInternalValue (iv_type v) (iv_user_value v) (iv_version v) etime (iv_ctime v).

Definition InternalValue_setCtime (v : InternalValue) (ctime : Z) : InternalValue :=
  mkInternalValue (iv_type v) (iv_user_value v) (iv_version v) (iv_etime v) ctime.

Definition InternalValue_SetRelativeTimeInMillsec (now : Z) (v : InternalValue) (ttl_millsec : Z)
    : InternalValue :=
  InternalValue_SetEtime v (u64 (now + ttl_millsec)).

Definition InternalValue_SetVersion (v : InternalValue) (version : Z) : InternalValue :=
  mkInternalValue (iv_type v) (iv_user_value v) version (iv_etime v) (iv_ctime v).

(** [UpdateVersion] of [BaseMetaValue], [ListsMetaValue] and the parsed meta values. *)
Definition next_version (now version : Z) : Z :=
  if Z.leb now version then u64 (version + 1) else now.

Definition BaseMetaValue_UpdateVersion (now : Z) (v : InternalValue) : InternalValue :=
  InternalValue_SetVersion v (next_version now (iv_version v)).

(** ** Encoders *)

Section Encoders.
Context {U : Uninit}.

Definition BaseDataValue_Encode (v : InternalValue) : bytes :=
  let usize := length (iv_user_value v) in
  let needed := usize + kSuffixReserveLength + kTimestampLength in
  let buf := uninit needed in
  let buf := memcpy buf 0 (iv_user_value v) in
  let dst := usize in
  let buf := memcpy buf dst reserve2 in
  let dst := dst + kSuffixReserveLength in
  let buf := memcpy buf dst (EncodeFixed64 (store_time (iv_ctime v))) in
  take needed buf.

Definition BaseMetaValue_Encode (v : InternalValue) : bytes :=
  let usize := length (iv_user_value v) in
  let needed := usize + kVersionLength + kSuffixReserveLength + 2 * kTimestampLength + kTypeLength in
  let buf := uninit needed in
  let buf := memcpy buf 0 [byte_of_DataType (iv_type v)] in
  let dst := 1 in
  let buf := memcpy buf dst (iv_user_value v) in
  let dst := dst + usize in
  let buf := memcpy buf dst (EncodeFixed64 (iv_version v)) in
  let dst := dst + 8 in
  let buf := memcpy buf dst reserve2 in
  let dst := dst + 16 in
  let buf := memcpy buf dst (EncodeFixed64 (store_time (iv_ctime v))) in
  let dst := dst + 8 in
  let buf := memcpy buf dst (EncodeFixed64 (store_time (iv_etime v))) in
  take needed buf.

(** [ListsMetaValue]: the indices besides the base object. *)
Record ListsMetaValue := mkListsMetaValue {
  lmv_base : InternalValue;
  lmv_left_index : Z;
  lmv_right_index : Z
}.

Definition InitalLeftIndex : Z := 9223372036854775807.
Definition InitalRightIndex : Z := 9223372036854775808.

Definition ListsMetaValue_new (now : Z) (user_value : bytes) : ListsMetaValue :=
  mkListsMetaValue (InternalValue_new now kLists user_value) InitalLeftIndex InitalRightIndex.

Definition ListsMetaValue_UpdateVersion (now : Z) (m : ListsMetaValue) : ListsMetaValue :=
  let v := lmv_base m in
  mkListsMetaValue (InternalValue_SetVersion v (next_version now (iv_version v)))
    (lmv_left_index m) (lmv_right_index m).

Definition ListsMetaValue_ModifyLeftIndex (m : ListsMetaValue) (index : Z) : ListsMetaValue :=
  mkListsMetaValue (lmv_base m) (u64 (lmv_left_index m - index)) (lmv_right_index m).

Definition ListsMetaValue_ModifyRightIndex (m : ListsMetaValue) (index : Z) : ListsMetaValue :=
  mkListsMetaValue (lmv_base m) (lmv_left_index m) (u64 (lmv_right_index m + index)).

(** Each index takes [kListValueIndexLength] = 16 bytes, of which the last 8
    are not written. *)
Definition ListsMetaValue_Encode (m : ListsMetaValue) : bytes :=
  let v := lmv_base m in
  let usize := length (iv_user_value v) in
  let needed := usize + kVersionLength + 2 * kListValueIndexLength +
                kSuffixReserveLength + 2 * kTimestampLength + kTypeLength in
  let buf := uninit needed in
  let buf := memcpy buf 0 [byte_of_DataType (iv_type v)] in
  let dst := 1 in
  let buf := memcpy buf dst (iv_user_value v) in
  let dst := dst + usize in
  let buf := memcpy buf dst (EncodeFixed64 (iv_version v)) in
  let dst := dst + kVersionLength in
  let buf := memcpy buf dst (EncodeFixed64 (lmv_left_index m)) in
  let dst := dst + kListValueIndexLength in
  let buf := memcpy buf dst (EncodeFixed64 (lmv_right_index m)) in
  let dst := dst + kListValueIndexLength in
  let buf := memcpy buf dst reserve2 in
  let dst := dst + kSuffixReserveLength in
  let buf := memcpy buf dst (EncodeFixed64 (store_time (iv_ctime v))) in
  let dst := dst + kTimestampLength in
  let buf := memcpy buf dst (EncodeFixed64 (store_time (iv_etime v))) in
  take needed buf.

Definition StringsValue_Encode (v : InternalValue) : bytes :=
  let usize := length (iv_user_value v) in
  let needed := usize + kSuffixReserveLength + 2 * kTimestampLength + kTypeLength in
  let buf := uninit needed in
  let buf := memcpy buf 0 [byte_of_DataType (iv_type v)] in
  let dst := 1 in
  let buf := memcpy buf dst (iv_user_value v) in
  let dst := dst + usize in
  let buf := memcpy buf dst reserve2 in
  let dst := dst + kSuffixReserveLength in
  let buf := memcpy buf dst (EncodeFixed64 (store_time (iv_ctime v))) in
  let dst := dst + kTimestampLength in
  let buf := memcpy buf dst (EncodeFixed64 (store_time (iv_etime v))) in
  take needed buf.

Definition hyperloglog_reserve_flag : byte := x80.
(** [reserve_[0] |= hyperloglog_reserve_flag] on the zeroed reserve. *)
Definition hyperloglog_reserve : bytes := hyperloglog_reserve_flag :: replicate 15 x00.

Definition HyperloglogValue_Encode (v : InternalValue) : bytes :=
  let usize := length (iv_user_value v) in
  let needed := usize + kSuffixReserveLength + 2 * kTimestampLength + kTypeLength in
  let buf := uninit needed in
  let buf := memcpy buf 0 [byte_of_DataType (iv_type v)] in
  let dst := 1 in
  let buf := memcpy buf dst (iv_user_value v) in
  let dst := dst + usize in
  let buf := memcpy buf dst hyperloglog_reserve in
  let dst := dst + kSuffixReserveLength in
  let buf := memcpy buf dst (EncodeFixed64 (iv_ctime v)) in
  let dst := dst + kTimestampLength in
  let buf := memcpy buf dst (EncodeFixed64 (iv_etime v)) in
  take needed buf.

End Encoders.

(** ** [ParsedInternalValue] *)

Record ParsedInternalValue := mkPIV {
  piv_data : bytes;
  piv_writable : bool;
  piv_user : nat * nat;
  piv_version : Z;
  piv_ctime : Z;
  piv_etime : Z;
  piv_type : option DataType; (* [None]: not initialised *)
  piv_reserve : bytes
}.

Definition UserValue (p : ParsedInternalValue) : bytes :=
  subseq (fst (piv_user p)) (snd (piv_user p)) (piv_data p).

Definition IsPermanentSurvival (p : ParsedInternalValue) : bool := Z.eqb (piv_etime p) 0.

Definition IsStale (now : Z) (p : ParsedInternalValue) : bool :=
  if Z.eqb (piv_etime p) 0 then false else Z.ltb (piv_etime p) now.

(** A write through [value_] at an offset. *)
Definition piv_poke (p : ParsedInternalValue) (off : nat) (src : bytes) : ParsedInternalValue :=
  mkPIV (if piv_writable p then memcpy (piv_data p) off src else piv_data p)
    (piv_writable p) (piv_user p) (piv_version p) (piv_ctime p) (piv_etime p)
    (piv_type p) (piv_reserve p).

Definition piv_with_version (p : ParsedInternalValue) (version : Z) : ParsedInternalValue :=
  mkPIV (piv_data p) (piv_writable p) (piv_user p) version (piv_ctime p) (piv_etime p)
    (piv_type p) (piv_reserve p).
Definition piv_with_ctime (p : ParsedInternalValue) (ctime : Z) : ParsedInternalValue :=
  mkPIV (piv_data p) (piv_writable p) (piv_user p) (piv_version p) ctime (piv_etime p)
    (piv_type p) (piv_reserve p).
Definition piv_with_etime (p : ParsedInternalValue) (etime : Z) : ParsedInternalValue :=
  mkPIV (piv_data p) (piv_writable p) (piv_user p) (piv_version p) (piv_ctime p) etime
    (piv_type p) (piv_reserve p).

(** ** [ParsedBaseDataValue] *)

Definition kBaseDataValueSuffixLength : nat := kSuffixReserveLength + kTimestampLength.

Definition ParsedBaseDataValue (writable : bool) (value : bytes) : ParsedInternalValue :=
  if Nat.leb kBaseDataValueSuffixLength (length value) then
    let usize := length value - kBaseDataValueSuffixLength in
    let reserve := subseq usize kSuffixReserveLength value in
    let ctime := DecodeFixed64 (drop (usize + kSuffixReserveLength) value) in
    mkPIV value writable (0, usize) 0 (clear_ms_bit ctime) 0 None reserve
  else mkPIV value writable (0, 0) 0 0 0 None reserve2.

Definition ParsedBaseDataValue_SetCtimeToValue (p : ParsedInternalValue) : ParsedInternalValue :=
  piv_poke p (length (piv_data p) - kTimestampLength) (EncodeFixed64 (store_time (piv_ctime p))).

(** The string after [StripSuffix]; [None] is the exception of [erase]. *)
Definition ParsedBaseDataValue_StripSuffix (p : ParsedInternalValue) : option bytes :=
  if piv_writable p then
    if Nat.ltb (length (piv_data p)) kBaseDataValueSuffixLength then None
    else Some (take (length (piv_data p) - kBaseDataValueSuffixLength) (piv_data p))
  else Some (piv_data p).

(** ** [ParsedStringsValue] *)

Definition kStringsValueSuffixLength : nat := 2 * kTimestampLength + kSuffixReserveLength.
Definition kStringsValueMinLength : nat := kStringsValueSuffixLength + kTypeLength.

Definition ParsedStringsValue (writable : bool) (value : bytes) : ParsedInternalValue :=
  if Nat.leb kStringsValueMinLength (length value) then
    let type := DataType_of_byte (nth 0 value x00) in
    let offset := kTypeLength in
    let usize := length value - kStringsValueSuffixLength - offset in
    let user := (offset, usize) in
    let offset := offset + usize in
    let reserve := subseq offset kSuffixReserveLength value in
    let offset := offset + kSuffixReserveLength in
    let ctime := DecodeFixed64 (drop offset value) in
    let offset := offset + kTimestampLength in
    let etime := DecodeFixed64 (drop offset value) in
    mkPIV value writable user 0 (load_time ctime) (load_time etime) (Some type) reserve
  else mkPIV value writable (0, 0) 0 0 0 None reserve2.

Definition ParsedStringsValue_StripSuffix (p : ParsedInternalValue) : option bytes :=
  if piv_writable p then
    let value := drop kTypeLength (piv_data p) in
    if Nat.ltb (length value) kStringsValueSuffixLength then None
    else Some (take (length value - kStringsValueSuffixLength) value)
  else Some (piv_data p).

(** A write at [value_->data() + value_->size() - back]; [None] when it
    starts before the string. *)
Definition poke_back (p : ParsedInternalValue) (back : nat) (src : bytes)
    : option ParsedInternalValue :=
  if piv_writable p && Nat.ltb (length (piv_data p)) back then None
  else Some (piv_poke p (length (piv_data p) - back) src).

Definition ParsedStringsValue_SetCtime (p : ParsedInternalValue) (ctime : Z)
    : option ParsedInternalValue :=
  let p := piv_with_ctime p ctime in
  poke_back p (kStringsValueSuffixLength - kSuffixReserveLength)
    (EncodeFixed64 (store_time (piv_ctime p))).

Definition ParsedStringsValue_SetEtime (p : ParsedInternalValue) (etime : Z)
    : option ParsedInternalValue :=
  let p := piv_with_etime p etime in
  poke_back p (kStringsValueSuffixLength - kSuffixReserveLength - kTimestampLength)
    (EncodeFixed64 (store_time (piv_etime p))).

Definition ParsedStringsValue_SetRelativeTimestamp (now : Z) (p : ParsedInternalValue)
    (ttl_millsec : Z) : option ParsedInternalValue :=
  ParsedStringsValue_SetEtime p (u64 (now + ttl_millsec)).

(** ** [ParsedBaseMetaValue] *)

Definition kBaseMetaValueSuffixLength : nat :=
  kVersionLength + kSuffixReserveLength + 2 * kTimestampLength.

Record ParsedBaseMetaValue := mkPBM { pbm_base : ParsedInternalValue; pbm_count : Z }.

Definition ParsedBaseMetaValue_parse (writable : bool) (value : bytes)
    : option ParsedBaseMetaValue :=
  if Nat.leb (kBaseMetaValueSuffixLength + kTypeLength) (length value) then
    let type := DataType_of_byte (nth 0 value x00) in
    let offset := kTypeLength in
    let usize := length value - kBaseMetaValueSuffixLength - offset in
    let user := (offset, usize) in
    let offset := offset + usize in
    let version := DecodeFixed64 (drop offset value) in
    let offset := offset + 8 in
    let reserve := subseq offset 16 value in
    let offset := offset + 16 in
    let ctime := DecodeFixed64 (drop offset value) in
    let offset := offset + 8 in
    let etime := DecodeFixed64 (drop offset value) in
    let count := i32 (DecodeFixed32 (drop kTypeLength value)) in
    Some (mkPBM (mkPIV value writable user version (load_time ctime) (load_time etime)
                   (Some type) reserve) count)
  else None.

Definition pbm_size (p : ParsedBaseMetaValue) : nat := length (piv_data (pbm_base p)).

Definition ParsedBaseMetaValue_SetVersion (p : ParsedBaseMetaValue) (version : Z)
    : ParsedBaseMetaValue :=
  mkPBM (piv_poke (piv_with_version (pbm_base p) version)
           (pbm_size p - kBaseMetaValueSuffixLength) (EncodeFixed64 version)) (pbm_count p).

Definition ParsedBaseMetaValue_SetCtime (p : ParsedBaseMetaValue) (ctime : Z)
    : ParsedBaseMetaValue :=
  mkPBM (piv_poke (piv_with_ctime (pbm_base p) ctime)
           (pbm_size p - 2 * kTimestampLength) (EncodeFixed64 (store_time ctime))) (pbm_count p).

Definition ParsedBaseMetaValue_SetEtime (p : ParsedBaseMetaValue) (etime : Z)
    : ParsedBaseMetaValue :=
  mkPBM (piv_poke (piv_with_etime (pbm_base p) etime)
           (pbm_size p - kTimestampLength) (EncodeFixed64 (store_time etime))) (pbm_count p).

Definition ParsedBaseMetaValue_SetRelativeTimestamp (now : Z) (p : ParsedBaseMetaValue)
    (ttl_millsec : Z) : ParsedBaseMetaValue :=
  ParsedBaseMetaValue_SetEtime p (u64 (now + ttl_millsec)).

Definition ParsedBaseMetaValue_SetCount (p : ParsedBaseMetaValue) (count : Z)
    : ParsedBaseMetaValue :=
  mkPBM (piv_poke (pbm_base p) kTypeLength (EncodeFixed32 count)) count.

Definition ParsedBaseMetaValue_CheckModifyCount (p : ParsedBaseMetaValue) (delta : Z) : bool :=
  let count := (pbm_count p + delta)%Z in
  if Z.ltb count 0 || Z.ltb INT32_MAX count then false else true.

Definition ParsedBaseMetaValue_check_set_count (count : Z) : bool :=
  if Z.ltb INT32_MAX count then false else true.

(** [count_ += delta] is undefined when the sum is no [int32_t]; callers guard
    it with [CheckModifyCount]. *)
Definition ParsedBaseMetaValue_ModifyCount (p : ParsedBaseMetaValue) (delta : Z)
    : option ParsedBaseMetaValue :=
  count ← i32_val (pbm_count p + delta);
  Some (mkPBM (piv_poke (pbm_base p) kTypeLength (EncodeFixed32 count)) count).

Definition ParsedBaseMetaValue_UpdateVersion (now : Z) (p : ParsedBaseMetaValue)
    : ParsedBaseMetaValue :=
  ParsedBaseMetaValue_SetVersion p (next_version now (piv_version (pbm_base p))).

(** Returns the object; the version it returns is the object's. *)
Definition ParsedBaseMetaValue_InitialMetaValue (now : Z) (p : ParsedBaseMetaValue)
    : ParsedBaseMetaValue :=
  let p := ParsedBaseMetaValue_SetCount p 0 in
  let p := ParsedBaseMetaValue_SetEtime p 0 in
  let p := ParsedBaseMetaValue_SetCtime p 0 in
  ParsedBaseMetaValue_UpdateVersion now p.

Definition ParsedBaseMetaValue_IsValid (now : Z) (p : ParsedBaseMetaValue) : bool :=
  negb (IsStale now (pbm_base p)) && negb (Z.eqb (pbm_count p) 0).

Definition ParsedBaseMetaValue_StripSuffix (p : ParsedBaseMetaValue) : bytes :=
  if piv_writable (pbm_base p)
  then take (pbm_size p - kBaseMetaValueSuffixLength) (piv_data (pbm_base p))
  else piv_data (pbm_base p).

(** ** [ParsedListsMetaValue] *)

Definition kListsMetaValueSuffixLength : nat :=
  kVersionLength + 2 * kListValueIndexLength + kSuffixReserveLength + 2 * kTimestampLength.

Record ParsedListsMetaValue := mkPLM {
  plm_base : ParsedInternalValue;
  plm_count : Z;
  plm_left_index : Z;
  plm_right_index : Z
}.

Definition ParsedListsMetaValue_parse (writable : bool) (value : bytes)
    : option ParsedListsMetaValue :=
  if Nat.leb (kListsMetaValueSuffixLength + kTypeLength) (length value) then
    let type := DataType_of_byte (nth 0 value x00) in
    let offset := kTypeLength in
    let usize := length value - kListsMetaValueSuffixLength - kTypeLength in
    let user := (kTypeLength, usize) in
    let offset := offset + usize in
    let version := DecodeFixed64 (drop offset value) in
    let offset := offset + kVersionLength in
    let left_index := DecodeFixed64 (drop offset value) in
    let offset := offset + kListValueIndexLength in
    let right_index := DecodeFixed64 (drop offset value) in
    let offset := offset + kListValueIndexLength in
    let reserve := subseq offset 16 value in
    let offset := offset + kSuffixReserveLength in
    let ctime := DecodeFixed64 (drop offset value) in
    let offset := offset + kTimestampLength in
    let etime := DecodeFixed64 (drop offset value) in
    let count := DecodeFixed64 (drop kTypeLength value) in
    Some (mkPLM (mkPIV value writable user version (load_time ctime) (load_time etime)
                   (Some type) reserve) count left_index right_index)
  else None.

Definition plm_size (p : ParsedListsMetaValue) : nat := length (piv_data (plm_base p)).
Definition plm_with_base (p : ParsedListsMetaValue) (b : ParsedInternalValue)
    : ParsedListsMetaValue :=
  mkPLM b (plm_count p) (plm_left_index p) (plm_right_index p).

Definition ParsedListsMetaValue_SetVersion (p : ParsedListsMetaValue) (version : Z)
    : ParsedListsMetaValue :=
  plm_with_base p (piv_poke (piv_with_version (plm_base p) version)
    (plm_size p - kListsMetaValueSuffixLength) (EncodeFixed64 version)).

Definition ParsedListsMetaValue_SetCtime (p : ParsedListsMetaValue) (ctime : Z)
    : ParsedListsMetaValue :=
  plm_with_base p (piv_poke (piv_with_ctime (plm_base p) ctime)
    (plm_size p - 2 * kTimestampLength) (EncodeFixed64 (store_time ctime))).

Definition ParsedListsMetaValue_SetEtime (p : ParsedListsMetaValue) (etime : Z)
    : ParsedListsMetaValue :=
  plm_with_base p (piv_poke (piv_with_etime (plm_base p) etime)
    (plm_size p - kTimestampLength) (EncodeFixed64 (store_time etime))).

Definition ParsedListsMetaValue_SetRelativeTimestamp (now : Z) (p : ParsedListsMetaValue)
    (ttl_millsec : Z) : ParsedListsMetaValue :=
  ParsedListsMetaValue_SetEtime p (u64 (now + ttl_millsec)).

Definition ParsedListsMetaValue_SetCount (p : ParsedListsMetaValue) (count : Z)
    : ParsedListsMetaValue :=
  mkPLM (piv_poke (plm_base p) kTypeLength (EncodeFixed64 count)) count
    (plm_left_index p) (plm_right_index p).

Definition ParsedListsMetaValue_ModifyCount (p : ParsedListsMetaValue) (delta : Z)
    : ParsedListsMetaValue :=
  ParsedListsMetaValue_SetCount p (u64 (plm_count p + delta)).

Definition ParsedListsMetaValue_set_left_index (p : ParsedListsMetaValue) (index : Z)
    : ParsedListsMetaValue :=
  mkPLM (piv_poke (plm_base p) (plm_size p - kListsMetaValueSuffixLength + kVersionLength)
           (EncodeFixed64 index)) (plm_count p) index (plm_right_index p).

Definition ParsedListsMetaValue_ModifyLeftIndex (p : ParsedListsMetaValue) (index : Z)
    : ParsedListsMetaValue :=
  ParsedListsMetaValue_set_left_index p (u64 (plm_left_index p - index)).

Definition ParsedListsMetaValue_set_right_index (p : ParsedListsMetaValue) (index : Z)
    : ParsedListsMetaValue :=
  mkPLM (piv_poke (plm_base p)
           (plm_size p - kListsMetaValueSuffixLength + kVersionLength + kListValueIndexLength)
           (EncodeFixed64 index)) (plm_count p) (plm_left_index p) index.

Definition ParsedListsMetaValue_ModifyRightIndex (p : ParsedListsMetaValue) (index : Z)
    : ParsedListsMetaValue :=
  ParsedListsMetaValue_set_right_index p (u64 (plm_right_index p + index)).

(** Not called by the engine. *)
Definition ParsedListsMetaValue_SetIndexToValue (p : ParsedListsMetaValue)
    : ParsedListsMetaValue :=
  let dst := plm_size p - kListsMetaValueSuffixLength + kVersionLength in
  let b := piv_poke (plm_base p) dst (EncodeFixed64 (plm_left_index p)) in
  plm_with_base p (piv_poke b (dst + 8) (EncodeFixed64 (plm_right_index p))).

Definition ParsedListsMetaValue_UpdateVersion (now : Z) (p : ParsedListsMetaValue)
    : ParsedListsMetaValue :=
  ParsedListsMetaValue_SetVersion p (next_version now (piv_version (plm_base p))).

Definition ParsedListsMetaValue_InitialMetaValue (now : Z) (p : ParsedListsMetaValue)
    : ParsedListsMetaValue :=
  let p := ParsedListsMetaValue_SetCount p 0 in
  let p := ParsedListsMetaValue_set_left_index p InitalLeftIndex in
  let p := ParsedListsMetaValue_set_right_index p InitalRightIndex in
  let p := ParsedListsMetaValue_SetEtime p 0 in
  let p := ParsedListsMetaValue_SetCtime p 0 in
  ParsedListsMetaValue_UpdateVersion now p.

Definition ParsedListsMetaValue_IsValid (now : Z) (p : ParsedListsMetaValue) : bool :=
  negb (IsStale now (plm_base p)) && negb (Z.eqb (plm_count p) 0).

Definition ParsedListsMetaValue_StripSuffix (p : ParsedListsMetaValue) : bytes :=
  if piv_writable (plm_base p)
  then take (plm_size p - kListsMetaValueSuffixLength) (piv_data (plm_base p))
  else piv_data (plm_base p).

(** ** Timestamp lemmas *)

Lemma DataType_of_byte_of_DataType b : byte_of_DataType (DataType_of_byte b) = b.
Proof. by destruct b. Qed.

Lemma store_time_pos t : (0 < t < 2 ^ 63)%Z -> store_time t = (t + 2 ^ 63)%Z.
Proof.
  intros H. unfold store_time. rewrite (proj2 (Z.ltb_lt _ _)) by lia.
  change (Z.lor t (2 ^ 63)) with (Z.lor t (Z.shiftl 1 63)). rewrite lor_shiftl_add; lia.
Qed.

Lemma store_time_range t : (0 <= t < 2 ^ 63)%Z -> is_u64 (store_time t).
Proof.
  intros H. unfold is_u64. destruct (Z.eq_dec t 0%Z) as [->|]; [by simpl|].
  rewrite store_time_pos by lia. lia.
Qed.

Lemma clear_store_time t : (0 <= t < 2 ^ 63)%Z -> clear_ms_bit (store_time t) = t.
Proof.
  intros H. destruct (Z.eq_dec t 0%Z) as [->|]; [done|].
  unfold clear_ms_bit. rewrite store_time_pos by lia.
  change (2 ^ 63 - 1)%Z with (Z.ones 63). rewrite Z.land_ones by lia.
  rewrite <- (Z.mul_1_l (2 ^ 63)) at 1. by rewrite Z.mod_add, Z.mod_small by lia.
Qed.

Lemma load_store_time t : (0 <= t < 2 ^ 63)%Z -> load_time (store_time t) = t.
Proof.
  intros H. unfold load_time. rewrite clear_store_time by done.
  destruct (Z.eqb_spec t (store_time t)) as [E|]; [|done].
  destruct (Z.eq_dec t 0%Z) as [->|]; [done|]. rewrite store_time_pos in E by lia. lia.
Qed.

(** ** Layouts *)

Ltac kconst := unfold kListsMetaValueSuffixLength, kBaseMetaValueSuffixLength,
  kStringsValueMinLength, kStringsValueSuffixLength, kBaseDataValueSuffixLength, kVersionLength, kListValueIndexLength,
  kSuffixReserveLength, kTimestampLength, kTypeLength in *.

(** Discharges the length side conditions of the field lemmas. *)
Ltac flen := kconst; cbn [take drop concat fst snd nth]; autorewrite with len;
  cbn [length]; autorewrite with len; lia.
(** Reads the fields of a concatenation, trying each field in turn. *)
Ltac try_field tac k :=
  first [ tac k | lazymatch k with 12 => fail | _ => try_field tac (S k) end ].
Ltac read_fields :=
  repeat match goal with
  | |- context [DecodeFixed64 (drop ?n (concat ?L))] =>
      try_field ltac:(fun k => rewrite (DecodeFixed64_chunk k L n) by flen) 0
  | |- context [DecodeFixed32 (drop ?n (concat ?L))] =>
      try_field ltac:(fun k => rewrite (DecodeFixed32_chunk k L n) by flen) 0
  | |- context [subseq ?n ?m (concat ?L)] =>
      try_field ltac:(fun k => rewrite (subseq_chunk k L n m) by flen) 0
  end.

(** Sizes of the fields of a list meta value: type, count, version, left
    index and its unused half, right index and its unused half, reserve,
    creation and expiry time. *)
Definition lists_meta_sizes : list nat := [1; 8; 8; 8; 8; 8; 8; 16; 8; 8].

(** What parsing those fields gives. *)
Definition lists_meta_object w (L : list bytes) : ParsedListsMetaValue :=
  let f k := nth k L [] in
  mkPLM (mkPIV (concat L) w (1, 8) (DecodeFixed64 (f 2))
           (load_time (DecodeFixed64 (f 8))) (load_time (DecodeFixed64 (f 9)))
           (Some (DataType_of_byte (nth 0 (f 0) x00))) (f 7))
    (DecodeFixed64 (f 1)) (DecodeFixed64 (f 3)) (DecodeFixed64 (f 5)).

Lemma lists_meta_parse w L :
  map length L = lists_meta_sizes ->
  ParsedListsMetaValue_parse w (concat L) = Some (lists_meta_object w L).
Proof.
  intros HL. unfold lists_meta_sizes in HL. chunk_hyp HL.
  unfold ParsedListsMetaValue_parse, lists_meta_object.
  rewrite (proj2 (Nat.leb_le _ _)) by flen.
  replace (length _ - _ - _) with 8 by flen.
  read_fields. destruct c as [|t []]; done.
Qed.

(** A parsed object and the string it writes through agree. *)
Definition lists_meta_coherent (p : ParsedListsMetaValue) : Prop :=
  piv_writable (plm_base p) = true /\ length (piv_data (plm_base p)) = 81 /\
  ParsedListsMetaValue_parse true (piv_data (plm_base p)) = Some p.

Lemma lists_meta_coherent_object p :
  lists_meta_coherent p <->
  exists L, map length L = lists_meta_sizes /\ p = lists_meta_object true L.
Proof.
  split.
  - intros (_ & Hlen & Hp). destruct (chunks_exist lists_meta_sizes _ Hlen) as (L & E & HL).
    exists L. split; [done|]. rewrite E, lists_meta_parse in Hp by done. by injection Hp.
  - intros (L & HL & ->). split_and!; [done| |by apply lists_meta_parse].
    cbn [lists_meta_object plm_base piv_data]. by rewrite length_chunks, HL.
Qed.

(** A setter replaces the [k]th field of the value by [src]. *)
Ltac lists_meta_setter k src :=
  let L := fresh "L" in let HL := fresh "HL" in
  intros (L & HL & ->)%lists_meta_coherent_object;
  apply lists_meta_coherent_object; exists (<[k:=src]> L);
  unfold lists_meta_sizes in *; chunk_hyp HL; split;
  [ cbn; rewrite ?length_EncodeFixed64; congruence
  | unfold lists_meta_object, ParsedListsMetaValue_SetVersion, ParsedListsMetaValue_SetCtime,
      ParsedListsMetaValue_SetEtime, ParsedListsMetaValue_SetCount,
      ParsedListsMetaValue_set_left_index, ParsedListsMetaValue_set_right_index,
      plm_with_base, plm_size, piv_poke, piv_with_version, piv_with_ctime, piv_with_etime;
    cbn [plm_base plm_count plm_left_index plm_right_index piv_data piv_writable piv_user
         piv_version piv_ctime piv_etime piv_type piv_reserve];
    erewrite (memcpy_chunk k) by (reflexivity || flen);
    cbn [insert list_insert nth];
    rewrite DecodeFixed64_EncodeFixed64, u64_id, ?load_store_time
      by (done || by apply store_time_range);
    reflexivity ].

Lemma lists_SetVersion_coherent p v :
  is_u64 v -> lists_meta_coherent p ->
  lists_meta_coherent (ParsedListsMetaValue_SetVersion p v).
Proof. intros Hv. lists_meta_setter 2 (EncodeFixed64 v). Qed.

Lemma lists_SetCtime_coherent p v :
  (0 <= v < 2 ^ 63)%Z -> lists_meta_coherent p ->
  lists_meta_coherent (ParsedListsMetaValue_SetCtime p v).
Proof. intros Hv. lists_meta_setter 8 (EncodeFixed64 (store_time v)). Qed.

Lemma lists_SetEtime_coherent p v :
  (0 <= v < 2 ^ 63)%Z -> lists_meta_coherent p ->
  lists_meta_coherent (ParsedListsMetaValue_SetEtime p v).
Proof. intros Hv. lists_meta_setter 9 (EncodeFixed64 (store_time v)). Qed.

Lemma lists_SetCount_coherent p v :
  is_u64 v -> lists_meta_coherent p ->
  lists_meta_coherent (ParsedListsMetaValue_SetCount p v).
Proof. intros Hv. lists_meta_setter 1 (EncodeFixed64 v). Qed.

Lemma lists_set_left_index_coherent p v :
  is_u64 v -> lists_meta_coherent p ->
  lists_meta_coherent (ParsedListsMetaValue_set_left_index p v).
Proof. intros Hv. lists_meta_setter 3 (EncodeFixed64 v). Qed.

Lemma lists_set_right_index_coherent p v :
  is_u64 v -> lists_meta_coherent p ->
  lists_meta_coherent (ParsedListsMetaValue_set_right_index p v).
Proof. intros Hv. lists_meta_setter 5 (EncodeFixed64 v). Qed.

Create HintDb coherent.
#[export] Hint Resolve lists_SetVersion_coherent lists_SetCtime_coherent
  lists_SetEtime_coherent lists_SetCount_coherent lists_set_left_index_coherent
  lists_set_right_index_coherent : coherent.
#[export] Hint Resolve u64_range : coherent.

(** ** Encoded values as fields *)

Lemma length_hyperloglog_reserve : length hyperloglog_reserve = 16.
Proof. done. Qed.
#[export] Hint Rewrite length_hyperloglog_reserve : len.

(** Runs an encoder: names the fields of its buffer and writes them in turn. *)
Ltac write_field k := erewrite (memcpy_chunk k) by (reflexivity || flen); cbn [insert list_insert].
Ltac open_buffer sizes :=
  match goal with
  | |- context [uninit ?n] =>
      let L := fresh "L" in let E := fresh "E" in let HL := fresh "HL" in
      destruct (chunks_exist sizes (uninit n)) as (L & E & HL);
      [rewrite uninit_length; kconst; cbn [sum_list sum_list_with id]; unfold id; lia|];
      rewrite E; clear E; chunk_hyp HL
  end.
Ltac close_buffer := rewrite firstn_all2 by flen; reflexivity.

Section EncodedFields.
Context {U : Uninit}.

Lemma ListsMetaValue_Encode_fields m :
  exists pl pr, length pl = 8 /\ length pr = 8 /\
  let v := lmv_base m in
  ListsMetaValue_Encode m =
  concat [[byte_of_DataType (iv_type v)]; iv_user_value v; EncodeFixed64 (iv_version v);
          EncodeFixed64 (lmv_left_index m); pl; EncodeFixed64 (lmv_right_index m); pr; reserve2;
          EncodeFixed64 (store_time (iv_ctime v)); EncodeFixed64 (store_time (iv_etime v))].
Proof.
  unfold ListsMetaValue_Encode.
  open_buffer [1; length (iv_user_value (lmv_base m)); 8; 8; 8; 8; 8; 16; 8; 8].
  write_field 0. write_field 1. write_field 2. write_field 3. write_field 5. write_field 7.
  write_field 8. write_field 9. eexists _, _. split_and!; [| |close_buffer]; done.
Qed.

Lemma BaseMetaValue_Encode_fields v :
  BaseMetaValue_Encode v =
  concat [[byte_of_DataType (iv_type v)]; iv_user_value v; EncodeFixed64 (iv_version v); reserve2;
          EncodeFixed64 (store_time (iv_ctime v)); EncodeFixed64 (store_time (iv_etime v))].
Proof.
  unfold BaseMetaValue_Encode. open_buffer [1; length (iv_user_value v); 8; 16; 8; 8].
  write_field 0. write_field 1. write_field 2. write_field 3. write_field 4. write_field 5.
  close_buffer.
Qed.

Lemma StringsValue_Encode_fields v :
  StringsValue_Encode v =
  concat [[byte_of_DataType (iv_type v)]; iv_user_value v; reserve2;
          EncodeFixed64 (store_time (iv_ctime v)); EncodeFixed64 (store_time (iv_etime v))].
Proof.
  unfold StringsValue_Encode. open_buffer [1; length (iv_user_value v); 16; 8; 8].
  write_field 0. write_field 1. write_field 2. write_field 3. write_field 4. close_buffer.
Qed.

Lemma HyperloglogValue_Encode_fields v :
  HyperloglogValue_Encode v =
  concat [[byte_of_DataType (iv_type v)]; iv_user_value v; hyperloglog_reserve;
          EncodeFixed64 (iv_ctime v); EncodeFixed64 (iv_etime v)].
Proof.
  unfold HyperloglogValue_Encode. open_buffer [1; length (iv_user_value v); 16; 8; 8].
  write_field 0. write_field 1. write_field 2. write_field 3. write_field 4. close_buffer.
Qed.

Lemma BaseDataValue_Encode_fields v :
  BaseDataValue_Encode v =
  concat [iv_user_value v; reserve2; EncodeFixed64 (store_time (iv_ctime v))].
Proof.
  unfold BaseDataValue_Encode. open_buffer [length (iv_user_value v); 16; 8].
  write_field 0. write_field 1. write_field 2. close_buffer.
Qed.

End EncodedFields.

(** ** Parsing fields *)

(** Base meta value: type, count, version, reserve, creation and expiry time. *)
Definition base_meta_sizes : list nat := [1; 4; 8; 16; 8; 8].

Definition base_meta_object w (L : list bytes) : ParsedBaseMetaValue :=
  let f k := nth k L [] in
  mkPBM (mkPIV (concat L) w (1, 4) (DecodeFixed64 (f 2))
           (load_time (DecodeFixed64 (f 4))) (load_time (DecodeFixed64 (f 5)))
           (Some (DataType_of_byte (nth 0 (f 0) x00))) (f 3))
    (i32 (DecodeFixed32 (f 1))).

Lemma base_meta_parse w L :
  map length L = base_meta_sizes ->
  ParsedBaseMetaValue_parse w (concat L) = Some (base_meta_object w L).
Proof.
  intros HL. unfold base_meta_sizes in HL. chunk_hyp HL.
  unfold ParsedBaseMetaValue_parse, base_meta_object.
  rewrite (proj2 (Nat.leb_le _ _)) by flen.
  replace (length _ - _ - _) with 4 by flen.
  read_fields. destruct c as [|t []]; done.
Qed.

Lemma strings_parse w t user res c e :
  length res = 16 -> length c = 8 -> length e = 8 ->
  ParsedStringsValue w (concat [[t]; user; res; c; e]) =
  mkPIV (concat [[t]; user; res; c; e]) w (1, length user) 0
    (load_time (DecodeFixed64 c)) (load_time (DecodeFixed64 e)) (Some (DataType_of_byte t)) res.
Proof.
  intros Hres Hc He. unfold ParsedStringsValue.
  rewrite (proj2 (Nat.leb_le _ _)) by flen.
  replace (length _ - _ - _) with (length user) by flen.
  by read_fields.
Qed.

Lemma data_value_parse w user res c :
  length res = 16 -> length c = 8 ->
  ParsedBaseDataValue w (concat [user; res; c]) =
  mkPIV (concat [user; res; c]) w (0, length user) 0 (clear_ms_bit (DecodeFixed64 c)) 0 None res.
Proof.
  intros Hres Hc. unfold ParsedBaseDataValue.
  rewrite (proj2 (Nat.leb_le _ _)) by flen.
  replace (length _ - _) with (length user) by flen.
  by read_fields.
Qed.

(** What [StripSuffix] leaves of a data value and of a string value. *)
Lemma data_value_strip user res c :
  length res = 16 -> length c = 8 ->
  ParsedBaseDataValue_StripSuffix (ParsedBaseDataValue true (concat [user; res; c])) = Some user.
Proof.
  intros Hres Hc. rewrite data_value_parse by done.
  unfold ParsedBaseDataValue_StripSuffix. cbn [piv_writable piv_data].
  rewrite (proj2 (Nat.ltb_ge _ _)) by flen.
  rewrite (take_chunk 1) by flen. cbn. by rewrite app_nil_r.
Qed.

Lemma strings_strip t user res c e :
  length res = 16 -> length c = 8 -> length e = 8 ->
  ParsedStringsValue_StripSuffix (ParsedStringsValue true (concat [[t]; user; res; c; e])) =
  Some user.
Proof.
  intros Hres Hc He. rewrite strings_parse by done.
  unfold ParsedStringsValue_StripSuffix. cbn [piv_writable piv_data].
  rewrite (drop_chunk 1) by flen. cbn [drop].
  rewrite (proj2 (Nat.ltb_ge _ _)) by flen.
  rewrite (take_chunk 1) by flen. cbn. by rewrite app_nil_r.
Qed.

(** ** Setters of base meta values *)

Definition base_meta_coherent (p : ParsedBaseMetaValue) : Prop :=
  piv_writable (pbm_base p) = true /\ length (piv_data (pbm_base p)) = 45 /\
  ParsedBaseMetaValue_parse true (piv_data (pbm_base p)) = Some p.

Lemma base_meta_coherent_object p :
  base_meta_coherent p <->
  exists L, map length L = base_meta_sizes /\ p = base_meta_object true L.
Proof.
  split.
  - intros (_ & Hlen & Hp). destruct (chunks_exist base_meta_sizes _ Hlen) as (L & E & HL).
    exists L. split; [done|]. rewrite E, base_meta_parse in Hp by done. by injection Hp.
  - intros (L & HL & ->). split_and!; [done| |by apply base_meta_parse].
    cbn [base_meta_object pbm_base piv_data]. by rewrite length_chunks, HL.
Qed.

Definition is_i32 (z : Z) : Prop := (- 2 ^ 31 <= z < 2 ^ 31)%Z.

Lemma i32_u32 z : is_i32 z -> i32 (u32 z) = z.
Proof.
  unfold is_i32, i32, u32. intros H. rewrite Zplus_mod_idemp_l, Z.mod_small; lia.
Qed.

Ltac base_meta_setter k src :=
  let L := fresh "L" in let HL := fresh "HL" in
  intros (L & HL & ->)%base_meta_coherent_object;
  apply base_meta_coherent_object; exists (<[k:=src]> L);
  unfold base_meta_sizes in *; chunk_hyp HL; split;
  [ cbn; rewrite ?length_EncodeFixed64, ?length_EncodeFixed32; congruence
  | unfold base_meta_object, ParsedBaseMetaValue_SetVersion, ParsedBaseMetaValue_SetCtime,
      ParsedBaseMetaValue_SetEtime, ParsedBaseMetaValue_SetCount,
      pbm_size, piv_poke, piv_with_version, piv_with_ctime, piv_with_etime;
    cbn [pbm_base pbm_count piv_data piv_writable piv_user
         piv_version piv_ctime piv_etime piv_type piv_reserve];
    erewrite (memcpy_chunk k) by (reflexivity || flen);
    cbn [insert list_insert nth];
    rewrite ?DecodeFixed64_EncodeFixed64, ?DecodeFixed32_EncodeFixed32, ?i32_u32, ?u64_id,
      ?load_store_time by (done || by apply store_time_range);
    reflexivity ].

Lemma base_SetVersion_coherent p v :
  is_u64 v -> base_meta_coherent p ->
  base_meta_coherent (ParsedBaseMetaValue_SetVersion p v).
Proof. intros Hv. base_meta_setter 2 (EncodeFixed64 v). Qed.

Lemma base_SetCtime_coherent p v :
  (0 <= v < 2 ^ 63)%Z -> base_meta_coherent p ->
  base_meta_coherent (ParsedBaseMetaValue_SetCtime p v).
Proof. intros Hv. base_meta_setter 4 (EncodeFixed64 (store_time v)). Qed.

Lemma base_SetEtime_coherent p v :
  (0 <= v < 2 ^ 63)%Z -> base_meta_coherent p ->
  base_meta_coherent (ParsedBaseMetaValue_SetEtime p v).
Proof. intros Hv. base_meta_setter 5 (EncodeFixed64 (store_time v)). Qed.

Lemma base_SetCount_coherent p v :
  is_i32 v -> base_meta_coherent p ->
  base_meta_coherent (ParsedBaseMetaValue_SetCount p v).
Proof. intros Hv. base_meta_setter 1 (EncodeFixed32 v). Qed.

Lemma i32_range z : is_i32 (i32 z).
Proof.
  unfold is_i32, i32. pose proof (Z.mod_pos_bound (z + 2 ^ 31) (2 ^ 32)). lia.
Qed.

Lemma i32_val_range z v : i32_val z = Some v -> v = z /\ is_i32 v.
Proof.
  unfold i32_val, is_i32. destruct (Z.leb_spec (- 2 ^ 31) z), (Z.ltb_spec z (2 ^ 31)); simpl; intros E;
    simplify_eq; lia.
Qed.

(** The meta value with [delta] members more. *)
Definition counted (p : ParsedBaseMetaValue) (delta : Z) : ParsedBaseMetaValue :=
  ParsedBaseMetaValue_SetCount p (i32 (pbm_count p + delta)).

Lemma ModifyCount_checked p delta :
  ParsedBaseMetaValue_CheckModifyCount p delta = true ->
  ParsedBaseMetaValue_ModifyCount p delta = Some (counted p delta).
Proof.
  unfold ParsedBaseMetaValue_CheckModifyCount, ParsedBaseMetaValue_ModifyCount, counted, INT32_MAX.
  destruct (Z.ltb_spec (pbm_count p + delta) 0), (Z.ltb_spec (2 ^ 31 - 1) (pbm_count p + delta)); try done. intros _.
  by rewrite i32_val_id, i32_id by lia.
Qed.

Lemma next_version_u64 now v : is_u64 now -> is_u64 (next_version now v).
Proof. intros H. unfold next_version. destruct (Z.leb now v); [apply u64_range|done]. Qed.

(** The new version exceeds the old one and is not older than the clock. *)
Lemma next_version_gt now v :
  (0 <= v < 2 ^ 64 - 1)%Z -> (v < next_version now v)%Z /\ (now <= next_version now v)%Z.
Proof.
  intros H. unfold next_version. destruct (Z.leb_spec now v); [|lia].
  rewrite u64_id by (unfold is_u64; lia). lia.
Qed.

#[export] Hint Resolve base_SetVersion_coherent base_SetCtime_coherent base_SetEtime_coherent
  base_SetCount_coherent i32_range next_version_u64 : coherent.

Lemma zero_time : (0 <= 0 < 2 ^ 63)%Z.
Proof. lia. Qed.
Lemma zero_u64 : is_u64 0.
Proof. unfold is_u64. lia. Qed.
Lemma zero_i32 : is_i32 0.
Proof. unfold is_i32. lia. Qed.
Lemma InitalLeftIndex_u64 : is_u64 InitalLeftIndex.
Proof. unfold is_u64, InitalLeftIndex. lia. Qed.
Lemma InitalRightIndex_u64 : is_u64 InitalRightIndex.
Proof. unfold is_u64, InitalRightIndex. lia. Qed.
#[export] Hint Resolve zero_time zero_u64 zero_i32 InitalLeftIndex_u64 InitalRightIndex_u64
  : coherent.

(** The compound operations. *)
Lemma lists_InitialMetaValue_coherent now p :
  is_u64 now -> lists_meta_coherent p ->
  lists_meta_coherent (ParsedListsMetaValue_InitialMetaValue now p).
Proof.
  intros Hn Hp. unfold ParsedListsMetaValue_InitialMetaValue, ParsedListsMetaValue_UpdateVersion.
  auto 10 with coherent.
Qed.

Lemma base_InitialMetaValue_coherent now p :
  is_u64 now -> base_meta_coherent p ->
  base_meta_coherent (ParsedBaseMetaValue_InitialMetaValue now p).
Proof.
  intros Hn Hp. unfold ParsedBaseMetaValue_InitialMetaValue, ParsedBaseMetaValue_UpdateVersion.
  auto 10 with coherent.
Qed.

#[export] Hint Resolve lists_InitialMetaValue_coherent base_InitialMetaValue_coherent : coherent.

(** ** Theorems *)

(** Fields of the objects the parsers build from encoded values. *)
Lemma ListsMetaValue_parse_Encode `{U : Uninit} w m :
  let v := lmv_base m in
  length (iv_user_value v) = 8 -> is_u64 (iv_version v) ->
  is_u64 (lmv_left_index m) -> is_u64 (lmv_right_index m) ->
  (0 <= iv_ctime v < 2 ^ 63)%Z -> (0 <= iv_etime v < 2 ^ 63)%Z ->
  ParsedListsMetaValue_parse w (ListsMetaValue_Encode m) =
  Some (mkPLM (mkPIV (ListsMetaValue_Encode m) w (1, 8) (iv_version v) (iv_ctime v) (iv_etime v)
                 (Some (DataType_of_byte (byte_of_DataType (iv_type v)))) reserve2)
          (DecodeFixed64 (iv_user_value v)) (lmv_left_index m) (lmv_right_index m)).
Proof.
  intros v Hu Hv Hl Hr Hc He.
  destruct (ListsMetaValue_Encode_fields m) as (pl & pr & Hpl & Hpr & E). cbv zeta in E.
  rewrite E. fold v. rewrite lists_meta_parse.
  - unfold lists_meta_object. cbn [nth].
    by rewrite !DecodeFixed64_EncodeFixed64, !u64_id, !load_store_time
      by (done || by apply store_time_range).
  - cbn [map]. by rewrite !length_EncodeFixed64, Hu, Hpl, Hpr.
Qed.

Lemma BaseMetaValue_parse_Encode `{U : Uninit} w v :
  length (iv_user_value v) = 4 -> is_u64 (iv_version v) ->
  (0 <= iv_ctime v < 2 ^ 63)%Z -> (0 <= iv_etime v < 2 ^ 63)%Z ->
  ParsedBaseMetaValue_parse w (BaseMetaValue_Encode v) =
  Some (mkPBM (mkPIV (BaseMetaValue_Encode v) w (1, 4) (iv_version v) (iv_ctime v) (iv_etime v)
                 (Some (DataType_of_byte (byte_of_DataType (iv_type v)))) reserve2)
          (i32 (DecodeFixed32 (iv_user_value v)))).
Proof.
  intros Hu Hv Hc He. rewrite BaseMetaValue_Encode_fields, base_meta_parse.
  - unfold base_meta_object. cbn [nth].
    by rewrite !DecodeFixed64_EncodeFixed64, !u64_id, !load_store_time
      by (done || by apply store_time_range).
  - cbn [map]. by rewrite !length_EncodeFixed64, Hu.
Qed.

Lemma StringsValue_parse_Encode `{U : Uninit} w v :
  (0 <= iv_ctime v < 2 ^ 63)%Z -> (0 <= iv_etime v < 2 ^ 63)%Z ->
  ParsedStringsValue w (StringsValue_Encode v) =
  mkPIV (StringsValue_Encode v) w (1, length (iv_user_value v)) 0 (iv_ctime v) (iv_etime v)
    (Some (DataType_of_byte (byte_of_DataType (iv_type v)))) reserve2.
Proof.
  intros Hc He. rewrite StringsValue_Encode_fields, strings_parse by (done || by len).
  by rewrite !DecodeFixed64_EncodeFixed64, !u64_id, !load_store_time
    by (done || by apply store_time_range).
Qed.

Lemma strings_user_value w t user res c e :
  length res = 16 -> length c = 8 -> length e = 8 ->
  UserValue (ParsedStringsValue w (concat [[t]; user; res; c; e])) = user.
Proof.
  intros Hres Hc He. rewrite strings_parse by done. unfold UserValue. cbn [piv_user piv_data fst snd].
  by read_fields.
Qed.

Lemma coherent_of_parse value p :
  length value = 81 -> ParsedListsMetaValue_parse true value = Some p -> lists_meta_coherent p.
Proof.
  intros Hlen H. destruct (chunks_exist lists_meta_sizes value Hlen) as (L & -> & HL).
  rewrite lists_meta_parse in H by done. injection H as <-.
  apply lists_meta_coherent_object. eauto.
Qed.

Lemma base_coherent_of_parse value p :
  length value = 45 -> ParsedBaseMetaValue_parse true value = Some p -> base_meta_coherent p.
Proof.
  intros Hlen H. destruct (chunks_exist base_meta_sizes value Hlen) as (L & -> & HL).
  rewrite base_meta_parse in H by done. injection H as <-.
  apply base_meta_coherent_object. eauto.
Qed.

Lemma length_ListsMetaValue_Encode `{U : Uninit} m :
  length (ListsMetaValue_Encode m) = 73 + length (iv_user_value (lmv_base m)).
Proof.
  destruct (ListsMetaValue_Encode_fields m) as (pl & pr & Hpl & Hpr & E). cbv zeta in E.
  rewrite E. flen.
Qed.

Lemma length_BaseMetaValue_Encode `{U : Uninit} v :
  length (BaseMetaValue_Encode v) = 41 + length (iv_user_value v).
Proof. rewrite BaseMetaValue_Encode_fields. flen. Qed.

(** every value an encoder writes is read back by its parser.  A list meta
    value gives back its version, both indices, both times and the count in
    its user value; a hash, set or zset meta value its version, times and
    count; a string value its payload and times, and [StripSuffix] leaves
    exactly the payload; so does [StripSuffix] of an element value.  The
    unwritten halves of the list index fields never matter.  Times are
    milliseconds below 2^63, the range the millisecond bit leaves. *)
Theorem value_formats_roundtrip `{U : Uninit} v left right count :
  is_u64 (iv_version v) -> is_u64 left -> is_u64 right ->
  (0 <= iv_ctime v < 2 ^ 63)%Z -> (0 <= iv_etime v < 2 ^ 63)%Z ->
  (is_u64 count -> iv_user_value v = EncodeFixed64 count ->
   exists p,
     ParsedListsMetaValue_parse true (ListsMetaValue_Encode (mkListsMetaValue v left right)) = Some p /\
     lists_meta_coherent p /\ plm_count p = count /\
     plm_left_index p = left /\ plm_right_index p = right /\
     piv_version (plm_base p) = iv_version v /\
     piv_ctime (plm_base p) = iv_ctime v /\ piv_etime (plm_base p) = iv_etime v) /\
  (is_i32 count -> iv_user_value v = EncodeFixed32 count ->
   exists p, ParsedBaseMetaValue_parse true (BaseMetaValue_Encode v) = Some p /\
     base_meta_coherent p /\ pbm_count p = count /\
     piv_version (pbm_base p) = iv_version v /\
     piv_ctime (pbm_base p) = iv_ctime v /\ piv_etime (pbm_base p) = iv_etime v) /\
  (let p := ParsedStringsValue true (StringsValue_Encode v) in
   UserValue p = iv_user_value v /\ piv_ctime p = iv_ctime v /\ piv_etime p = iv_etime v /\
   ParsedStringsValue_StripSuffix p = Some (iv_user_value v)) /\
  (let p := ParsedBaseDataValue true (BaseDataValue_Encode v) in
   piv_ctime p = iv_ctime v /\ ParsedBaseDataValue_StripSuffix p = Some (iv_user_value v)).
Proof.
  intros Hv Hl Hr Hc He. split; [|split; [|split]].
  - intros Hn Hu. set (m := mkListsMetaValue v left right).
    pose proof (ListsMetaValue_parse_Encode true m) as P. cbv zeta in P.
    change (lmv_base m) with v in P. rewrite Hu, length_EncodeFixed64 in P.
    specialize (P eq_refl Hv Hl Hr Hc He).
    rewrite DecodeFixed64_EncodeFixed64, u64_id in P by done.
    eexists. split; [exact P|]. split; [|done]. eapply coherent_of_parse; [|exact P].
    by rewrite length_ListsMetaValue_Encode; cbn [lmv_base m]; rewrite Hu, length_EncodeFixed64.
  - intros Hn Hu. pose proof (BaseMetaValue_parse_Encode true v) as P.
    rewrite Hu, length_EncodeFixed32 in P. specialize (P eq_refl Hv Hc He).
    rewrite DecodeFixed32_EncodeFixed32, i32_u32 in P by done.
    eexists. split; [exact P|]. split; [|done]. eapply base_coherent_of_parse; [|exact P].
    by rewrite length_BaseMetaValue_Encode, Hu, length_EncodeFixed32.
  - cbv zeta. pose proof (StringsValue_parse_Encode true v Hc He) as P. split_and!.
    + by rewrite StringsValue_Encode_fields, strings_user_value by (done || by len).
    + by rewrite P.
    + by rewrite P.
    + by rewrite StringsValue_Encode_fields, strings_strip by (done || by len).
  - cbv zeta. rewrite BaseDataValue_Encode_fields, data_value_strip, data_value_parse by (done || by len).
    cbn [piv_ctime]. rewrite DecodeFixed64_EncodeFixed64, u64_id, clear_store_time
      by (done || by apply store_time_range). done.
Qed.

Lemma value_formats_roundtrip_witness :
  let v := InternalValue_SetEtime (InternalValue_new 1700000000000 kStrings (lit "pika")) 1800000000000 in
  ParsedStringsValue_StripSuffix
    (ParsedStringsValue true (StringsValue_Encode (U := uninit_cc) v)) = Some (lit "pika").
Proof.
  set (v := InternalValue_SetEtime _ _).
  refine (proj2 (proj2 (proj2 (proj1 (proj2 (proj2
    (value_formats_roundtrip (U := uninit_cc) v 0 0 0 _ _ _ _ _)))))));
    unfold is_u64; cbn; lia.
Defined.

(** C32: a parsed meta value and the string it writes through stay in step.
    After any setter, [ModifyCount], [UpdateVersion] or [InitialMetaValue], parsing the
    string afresh gives exactly the object in memory, for list metas and for
    hash/set/zset metas: each setter writes its own field, at the right
    offset, and nothing else.  [ModifyCount] of a hash/set/zset meta does not
    overflow once [CheckModifyCount] has passed. *)
Theorem meta_setters_coherent now p q version t n c :
  lists_meta_coherent p -> base_meta_coherent q ->
  is_u64 now -> is_u64 version -> is_u64 n -> is_i32 c -> (0 <= t < 2 ^ 63)%Z ->
  Forall lists_meta_coherent
    [ParsedListsMetaValue_SetVersion p version; ParsedListsMetaValue_SetCtime p t;
     ParsedListsMetaValue_SetEtime p t; ParsedListsMetaValue_SetCount p n;
     ParsedListsMetaValue_ModifyCount p n; ParsedListsMetaValue_set_left_index p n;
     ParsedListsMetaValue_set_right_index p n; ParsedListsMetaValue_ModifyLeftIndex p n;
     ParsedListsMetaValue_ModifyRightIndex p n; ParsedListsMetaValue_UpdateVersion now p;
     ParsedListsMetaValue_InitialMetaValue now p] /\
  Forall base_meta_coherent
    [ParsedBaseMetaValue_SetVersion q version; ParsedBaseMetaValue_SetCtime q t;
     ParsedBaseMetaValue_SetEtime q t; ParsedBaseMetaValue_SetCount q c;
     ParsedBaseMetaValue_UpdateVersion now q; ParsedBaseMetaValue_InitialMetaValue now q] /\
  (forall q', ParsedBaseMetaValue_ModifyCount q c = Some q' -> base_meta_coherent q') /\
  (ParsedBaseMetaValue_CheckModifyCount q c = true ->
     exists q', ParsedBaseMetaValue_ModifyCount q c = Some q' /\ pbm_count q' = (pbm_count q + c)%Z).
Proof.
  intros Hp Hq Hnow Hv Hn Hc Ht. rewrite !Forall_cons, !Forall_nil.
  unfold ParsedListsMetaValue_ModifyCount, ParsedListsMetaValue_ModifyLeftIndex,
    ParsedListsMetaValue_ModifyRightIndex, ParsedListsMetaValue_UpdateVersion,
    ParsedBaseMetaValue_UpdateVersion.
  split_and!; auto with coherent.
  - intros q' E. unfold ParsedBaseMetaValue_ModifyCount in E.
    destruct (i32_val _) as [v|] eqn:Ev; [|done]. injection E as <-.
    apply (base_SetCount_coherent q v); [|done]. by apply i32_val_range in Ev as [_ ?].
  - intros HC. pose proof (ModifyCount_checked q c HC) as E. exists (counted q c). split; [done|].
    unfold ParsedBaseMetaValue_ModifyCount in E. destruct (i32_val _) as [v|] eqn:Ev; [|done].
    apply i32_val_range in Ev as [-> _]. apply (f_equal (fmap pbm_count)) in E. injection E as E. symmetry. exact E.
Qed.

(** A list meta as [RPush] writes it on an absent key, and a hash meta. *)
Definition sample_lists_meta : bytes :=
  ListsMetaValue_Encode (U := uninit_cc) (ListsMetaValue_new 1000 (EncodeFixed64 3)).
Definition sample_hash_meta : bytes :=
  BaseMetaValue_Encode (U := uninit_cc) (InternalValue_new 1000 kHashes (EncodeFixed32 3)).

Lemma meta_setters_coherent_witness :
  exists p q, ParsedListsMetaValue_parse true sample_lists_meta = Some p /\
    ParsedBaseMetaValue_parse true sample_hash_meta = Some q /\
    lists_meta_coherent (ParsedListsMetaValue_SetVersion p 7).
Proof.
  destruct (ParsedListsMetaValue_parse true sample_lists_meta) as [p|] eqn:Ep;
    [|vm_compute in Ep; discriminate Ep].
  destruct (ParsedBaseMetaValue_parse true sample_hash_meta) as [q|] eqn:Eq;
    [|vm_compute in Eq; discriminate Eq].
  exists p, q. split; [done|]. split; [done|].
  refine (Forall_inv (proj1 (meta_setters_coherent 5 p q 7 9 4 2 _ _ _ _ _ _ _)));
    unfold is_u64, is_i32; try lia.
  - refine (coherent_of_parse sample_lists_meta p _ Ep). by vm_compute.
  - refine (base_coherent_of_parse sample_hash_meta q _ Eq). by vm_compute.
Defined.

(** [HyperloglogValue::Encode] stores its times without the millisecond
    bit, and [ParsedStringsValue] reads such times as seconds: a HyperLogLog
    created at [t] milliseconds is read back as created at 1000 * t, and an
    expiry of [e] milliseconds would be read as 1000 * e. *)
Theorem hyperloglog_times_scaled `{U : Uninit} w v :
  (0 <= iv_ctime v < 2 ^ 54)%Z -> (0 <= iv_etime v < 2 ^ 54)%Z ->
  let p := ParsedStringsValue w (HyperloglogValue_Encode v) in
  piv_ctime p = (1000 * iv_ctime v)%Z /\ piv_etime p = (1000 * iv_etime v)%Z /\
  UserValue p = iv_user_value v.
Proof.
  assert (H : forall t, (0 <= t < 2 ^ 54)%Z -> load_time (u64 t) = (1000 * t)%Z).
  { intros t Ht. rewrite u64_id by (unfold is_u64; lia). unfold load_time, clear_ms_bit.
    change (2 ^ 63 - 1)%Z with (Z.ones 63). rewrite Z.land_ones, Z.mod_small by lia.
    rewrite Z.eqb_refl, u64_id by (unfold is_u64; lia). lia. }
  intros Hc He p. subst p. rewrite HyperloglogValue_Encode_fields.
  rewrite strings_user_value, strings_parse by (done || by len). cbn [piv_ctime piv_etime].
  by rewrite !DecodeFixed64_EncodeFixed64, !H.
Qed.

Lemma hyperloglog_times_scaled_witness :
  piv_ctime (ParsedStringsValue true (HyperloglogValue_Encode (U := uninit_cc)
    (InternalValue_new 1700000000000 kStrings (lit "hll")))) = 1700000000000000%Z.
Proof.
  refine (proj1 (hyperloglog_times_scaled (U := uninit_cc) true
    (InternalValue_new 1700000000000 kStrings (lit "hll")) _ _)); cbn; lia.
Defined.
