(* ===== verification/StreamFormat.v ===== *)
(** * Stream identifiers and stream meta values

    Models [src/src/storage/src/pika_stream_types.h] (stream identifiers and
    their serialised form) and [pika_stream_meta_value.h] (the meta values of
    a stream, a consumer group, a consumer and a pending entry).

    A meta value is kept twice, as fields and as the string that is stored;
    [..._coherent] says that the two agree.  A [memcpy] of an integer is its
    little-endian bytes.  Writing past the end of a string is [None]. *)

From S2P Require Import Prelude Coding KeyFormat Comparator ValueFormat.
Open Scope Z_scope.

(** ** Identifiers ([struct streamID]) *)

Record streamID := mkStreamID { ms : Z; seq : Z }.

#[export] Instance streamID_eq_dec : EqDecision streamID.
Proof. solve_decision. Defined.

Definition streamID_default : streamID := mkStreamID 0 0.

Definition streamID_eqb (a b : streamID) : bool := (ms a =? ms b) && (seq a =? seq b).
Definition streamID_ltb (a b : streamID) : bool :=
  (ms a <? ms b) || ((ms a =? ms b) && (seq a <? seq b)).
Definition streamID_gtb (a b : streamID) : bool :=
  (ms b <? ms a) || ((ms a =? ms b) && (seq b <? seq a)).
Definition streamID_leb (a b : streamID) : bool :=
  (ms a <? ms b) || ((ms a =? ms b) && (seq a <=? seq b)).
Definition streamID_geb (a b : streamID) : bool :=
  (ms b <? ms a) || ((ms a =? ms b) && (seq b <=? seq a)).

(** The loop [for (i = 7; i >= 0; --i) { buf[i] = value & 0xff; value >>= 8; }]:
    the [n] bytes from [buf[0]], in front of those already written. *)
Fixpoint be_encode (n : nat) (value : Z) (written : bytes) : bytes :=
  match n with
  | O => written
  | S n => be_encode n (Z.shiftr value 8) (byte_of_Z (Z.land value 0xff) :: written)
  end.

Definition EncodeUint64InBigEndian (value : Z) : bytes := be_encode 8 value [].

(** [for (i = 0; i < 8; ++i) { value <<= 8; value |= ptr[i]; }] *)
Definition DecodeUint64OfBigEndian (ptr : bytes) : Z :=
  fold_left (fun value c => Z.lor (u64 (Z.shiftl value 8)) (Z_of_byte c)) (take 8 ptr) 0.

Definition streamID_Serialize (id : streamID) : bytes :=
  let dst := replicate (8 + 8) x00 in
  let dst := memcpy dst 0 (EncodeUint64InBigEndian (ms id)) in
  memcpy dst 8 (EncodeUint64InBigEndian (seq id)).

Definition streamID_DeserializeFrom (src : bytes) : streamID :=
  mkStreamID (DecodeUint64OfBigEndian src) (DecodeUint64OfBigEndian (drop 8 src)).

Definition streamID_ok (id : streamID) : Prop := is_u64 (ms id) /\ is_u64 (seq id).

(** ** The meta value of a stream ([StreamMetaValue]) *)

Definition kINVALID_TREE_ID : Z := 0.
Definition kDefaultStreamValueLength : nat := 4 + 8 + 3 * 16 + 4 + 8 + kTypeLength.

Record StreamMetaValue := mkStreamMetaValue {
  smv_groups_id : Z;
  smv_entries_added : Z;
  smv_first_id : streamID;
  smv_last_id : streamID;
  smv_max_deleted_entry_id : streamID;
  smv_length : Z;
  smv_version : Z;
  smv_type : DataType;
  smv_value : bytes
}.

Definition StreamMetaValue_new : StreamMetaValue :=
  mkStreamMetaValue kINVALID_TREE_ID 0 streamID_default streamID_default streamID_default 0 0
    kStreams [].

(** [EncodeFixed64(dst, id.ms); dst += 8; EncodeFixed64(dst, id.seq);] *)
Definition put_id (buf : bytes) (dst : nat) (id : streamID) : bytes :=
  memcpy (memcpy buf dst (EncodeFixed64 (ms id))) (dst + 8) (EncodeFixed64 (seq id)).

(** [value_.resize] keeps what the string holds; [EncodeFixed64] of the 4-byte
    [groups_id_] spills into the next field, which is written after it. *)
Definition InitMetaValue (m : StreamMetaValue) : StreamMetaValue :=
  let version := u64 (smv_version m + 1) in
  let needed := kDefaultStreamValueLength in
  let buf := take needed (smv_value m ++ replicate needed x00) in
  let buf := memcpy buf 0 [byte_of_DataType (smv_type m)] in
  let dst := 1%nat in
  let buf := memcpy buf dst (EncodeFixed64 kINVALID_TREE_ID) in
  let dst := (dst + 4)%nat in
  let buf := memcpy buf dst (EncodeFixed64 0) in
  let dst := (dst + 8)%nat in
  let buf := put_id buf dst streamID_default in
  let dst := (dst + 16)%nat in
  let buf := put_id buf dst streamID_default in
  let dst := (dst + 16)%nat in
  let buf := put_id buf dst streamID_default in
  let dst := (dst + 16)%nat in
  let buf := memcpy buf dst (EncodeFixed32 0) in
  let dst := (dst + 4)%nat in
  let buf := memcpy buf dst (EncodeFixed64 version) in
  mkStreamMetaValue kINVALID_TREE_ID 0 streamID_default streamID_default streamID_default 0
    version (smv_type m) buf.

Definition get_id (value : bytes) (pos : nat) : streamID :=
  mkStreamID (DecodeFixed64 (drop pos value)) (DecodeFixed64 (drop (pos + 8) value)).

(** A value of another length leaves every other field as it was. *)
Definition StreamMetaValue_ParseFrom (m : StreamMetaValue) (value : bytes) : StreamMetaValue :=
  if Nat.eqb (length value) kDefaultStreamValueLength then
    let type := DataType_of_byte (nth 0 value x00) in
    let pos := kTypeLength in
    let groups_id := DecodeFixed32 (drop pos value) in
    let pos := (pos + 4)%nat in
    let entries_added := DecodeFixed64 (drop pos value) in
    let pos := (pos + 8)%nat in
    let first_id := get_id value pos in
    let pos := (pos + 16)%nat in
    let last_id := get_id value pos in
    let pos := (pos + 16)%nat in
    let max_deleted_entry_id := get_id value pos in
    let pos := (pos + 16)%nat in
    let len := i32 (DecodeFixed32 (drop pos value)) in
    let pos := (pos + 4)%nat in
    let version := DecodeFixed64 (drop pos value) in
    mkStreamMetaValue groups_id entries_added first_id last_id max_deleted_entry_id len version
      type value
  else
    mkStreamMetaValue (smv_groups_id m) (smv_entries_added m) (smv_first_id m) (smv_last_id m)
      (smv_max_deleted_entry_id m) (smv_length m) (smv_version m) (smv_type m) value.

(** [ParsedStreamMetaValue(value)]: the same fields, read only; its type is not
    initialised by the constructor when the length is wrong. *)
Definition ParsedStreamMetaValue (value : bytes) : StreamMetaValue :=
  StreamMetaValue_ParseFrom StreamMetaValue_new value.

Definition set_groups_id (m : StreamMetaValue) (groups_id : Z) : StreamMetaValue :=
  mkStreamMetaValue groups_id (smv_entries_added m) (smv_first_id m) (smv_last_id m)
    (smv_max_deleted_entry_id m) (smv_length m) (smv_version m) (smv_type m)
    (memcpy (smv_value m) kTypeLength (EncodeFixed32 groups_id)).

Definition set_entries_added (m : StreamMetaValue) (entries_added : Z) : StreamMetaValue :=
  mkStreamMetaValue (smv_groups_id m) entries_added (smv_first_id m) (smv_last_id m)
    (smv_max_deleted_entry_id m) (smv_length m) (smv_version m) (smv_type m)
    (memcpy (smv_value m) (4 + kTypeLength) (EncodeFixed64 entries_added)).

Definition ModifyEntriesAdded (m : StreamMetaValue) (delta : Z) : StreamMetaValue :=
  set_entries_added m (u64 (smv_entries_added m + delta)).

Definition set_first_id (m : StreamMetaValue) (first_id : streamID) : StreamMetaValue :=
  mkStreamMetaValue (smv_groups_id m) (smv_entries_added m) first_id (smv_last_id m)
    (smv_max_deleted_entry_id m) (smv_length m) (smv_version m) (smv_type m)
    (put_id (smv_value m) (4 + 8 + kTypeLength) first_id).

Definition set_last_id (m : StreamMetaValue) (last_id : streamID) : StreamMetaValue :=
  mkStreamMetaValue (smv_groups_id m) (smv_entries_added m) (smv_first_id m) last_id
    (smv_max_deleted_entry_id m) (smv_length m) (smv_version m) (smv_type m)
    (put_id (smv_value m) (4 + 8 + 16 + kTypeLength) last_id).

Definition set_max_deleted_entry_id (m : StreamMetaValue) (id : streamID) : StreamMetaValue :=
  mkStreamMetaValue (smv_groups_id m) (smv_entries_added m) (smv_first_id m) (smv_last_id m)
    id (smv_length m) (smv_version m) (smv_type m)
    (put_id (smv_value m) (4 + 8 + 2 * 16 + kTypeLength) id).

Definition set_length (m : StreamMetaValue) (len : Z) : StreamMetaValue :=
  mkStreamMetaValue (smv_groups_id m) (smv_entries_added m) (smv_first_id m) (smv_last_id m)
    (smv_max_deleted_entry_id m) len (smv_version m) (smv_type m)
    (memcpy (smv_value m) (4 + 8 + 3 * 16 + kTypeLength) (EncodeFixed32 len)).

Definition set_version (m : StreamMetaValue) (version : Z) : StreamMetaValue :=
  mkStreamMetaValue (smv_groups_id m) (smv_entries_added m) (smv_first_id m) (smv_last_id m)
    (smv_max_deleted_entry_id m) (smv_length m) version (smv_type m)
    (memcpy (smv_value m) (4 + 8 + 3 * 16 + 4 + kTypeLength) (EncodeFixed64 version)).

(** ** Consumer groups ([StreamCGroupMetaValue]) *)

Definition kDefaultStreamCGroupValueLength : nat := 16 + 8 + 2 * 4 + kTypeLength.

Record StreamCGroupMetaValue := mkCGroup {
  cg_value : bytes; cg_last_id : streamID; cg_entries_read : Z; cg_pel : Z; cg_consumers : Z
}.

Definition StreamCGroupMetaValue_new : StreamCGroupMetaValue :=
  mkCGroup [] streamID_default 0 0 0.

(** [memcpy] of a [streamID]: both fields, little-endian. *)
Definition id_bytes (id : streamID) : bytes := le_bytes 8 (ms id) ++ le_bytes 8 (seq id).
Definition id_of_bytes (l : bytes) : streamID :=
  mkStreamID (le_value (take 8 l)) (le_value (take 8 (drop 8 l))).

(** The cursor advances by 8 after the 16 bytes of [last_id_]. *)
Definition CGroup_Init (g : StreamCGroupMetaValue) (tid consumers : Z) : StreamCGroupMetaValue :=
  if negb (Nat.eqb (length (cg_value g)) 0) then
    mkCGroup (cg_value g) (cg_last_id g) (cg_entries_read g) tid consumers
  else
    let value := replicate kDefaultStreamCGroupValueLength x00 in
    let value := memcpy value 0 (id_bytes (cg_last_id g)) in
    let dst := 8%nat in
    let value := memcpy value dst (le_bytes 8 (cg_entries_read g)) in
    let dst := (dst + 8)%nat in
    let value := memcpy value dst (le_bytes 4 tid) in
    let dst := (dst + 4)%nat in
    let value := memcpy value dst (le_bytes 4 consumers) in
    mkCGroup value (cg_last_id g) (cg_entries_read g) tid consumers.

Definition CGroup_ParseFrom (g : StreamCGroupMetaValue) (value : bytes) : StreamCGroupMetaValue :=
  if Nat.eqb (length value) kDefaultStreamCGroupValueLength then
    mkCGroup value (id_of_bytes value) (le_value (take 8 (drop 16 value)))
      (le_value (take 4 (drop 24 value))) (le_value (take 4 (drop 28 value)))
  else mkCGroup value (cg_last_id g) (cg_entries_read g) (cg_pel g) (cg_consumers g).

Definition CGroup_set_last_id (g : StreamCGroupMetaValue) (last_id : streamID)
    : StreamCGroupMetaValue :=
  mkCGroup (memcpy (cg_value g) 0 (id_bytes last_id)) last_id (cg_entries_read g) (cg_pel g)
    (cg_consumers g).

Definition CGroup_set_entries_read (g : StreamCGroupMetaValue) (entries_read : Z)
    : StreamCGroupMetaValue :=
  mkCGroup (memcpy (cg_value g) 16 (le_bytes 8 entries_read)) (cg_last_id g) entries_read
    (cg_pel g) (cg_consumers g).

(** ** Consumers ([StreamConsumerMetaValue]) *)

Definition kDefaultStreamConsumerValueLength : nat := 8 * 2 + 4.

Record StreamConsumerMetaValue := mkConsumer {
  cn_value : bytes; cn_seen_time : Z; cn_active_time : Z; cn_pel : Z
}.

Definition StreamConsumerMetaValue_new : StreamConsumerMetaValue := mkConsumer [] 0 0 0.

Definition Consumer_ParseFrom (c : StreamConsumerMetaValue) (value : bytes)
    : StreamConsumerMetaValue :=
  if Nat.eqb (length value) kDefaultStreamConsumerValueLength then
    mkConsumer value (le_value (take 8 value)) (le_value (take 8 (drop 8 value)))
      (le_value (take 4 (drop 16 value)))
  else mkConsumer value (cn_seen_time c) (cn_active_time c) (cn_pel c).

Definition Consumer_Init (c : StreamConsumerMetaValue) (pel : Z) : StreamConsumerMetaValue :=
  if negb (Nat.eqb (length (cn_value c)) 0) then
    mkConsumer (cn_value c) (cn_seen_time c) (cn_active_time c) pel
  else
    let value := replicate kDefaultStreamConsumerValueLength x00 in
    let value := memcpy value 0 (le_bytes 8 (cn_seen_time c)) in
    let dst := 8%nat in
    let value := memcpy value dst (le_bytes 8 (cn_active_time c)) in
    let dst := (dst + 8)%nat in
    let value := memcpy value dst (le_bytes 4 pel) in
    mkConsumer value (cn_seen_time c) (cn_active_time c) pel.

Definition Consumer_set_seen_time (c : StreamConsumerMetaValue) (seen_time : Z)
    : StreamConsumerMetaValue :=
  mkConsumer (memcpy (cn_value c) 0 (le_bytes 8 seen_time)) seen_time (cn_active_time c) (cn_pel c).

Definition Consumer_set_active_time (c : StreamConsumerMetaValue) (active_time : Z)
    : StreamConsumerMetaValue :=
  mkConsumer (memcpy (cn_value c) 8 (le_bytes 8 active_time)) (cn_seen_time c) active_time
    (cn_pel c).

(** ** Pending entries ([StreamPelMeta]) *)

Definition kDefaultStreamPelMetaValueLength : nat := 8 + 8 + 4.

Record StreamPelMeta := mkPel {
  pe_value : bytes; pe_delivery_time : Z; pe_delivery_count : Z; pe_cname_len : Z;
  pe_consumer : bytes
}.

Definition StreamPelMeta_new : StreamPelMeta := mkPel [] 0 1 0 [].

(** [memcpy] into a string: undefined past its end. *)
Definition memcpy_in (buf : bytes) (dst : nat) (src : bytes) : option bytes :=
  if Nat.leb (dst + length src) (length buf) then Some (memcpy buf dst src) else None.

Definition Pel_Init (m : StreamPelMeta) (consumer : bytes) (delivery_time : Z)
    : option StreamPelMeta :=
  if negb (Nat.eqb (length (pe_value m)) 0) then
    Some (mkPel (pe_value m) delivery_time (pe_delivery_count m) (pe_cname_len m) consumer)
  else
    let value := replicate kDefaultStreamPelMetaValueLength x00 in
    value ← memcpy_in value 0 (le_bytes 8 delivery_time);
    value ← memcpy_in value 8 (le_bytes 8 (pe_delivery_count m));
    value ← memcpy_in value 16 (le_bytes 8 (pe_cname_len m));
    value ← memcpy_in value 24 (take (Z.to_nat (pe_cname_len m)) consumer);
    Some (mkPel value delivery_time (pe_delivery_count m) (pe_cname_len m) consumer).

Definition Pel_set_delivery_time (m : StreamPelMeta) (delivery_time : Z) : StreamPelMeta :=
  mkPel (memcpy (pe_value m) 0 (le_bytes 8 delivery_time)) delivery_time (pe_delivery_count m)
    (pe_cname_len m) (pe_consumer m).

Definition Pel_set_delivery_count (m : StreamPelMeta) (delivery_count : Z) : StreamPelMeta :=
  mkPel (memcpy (pe_value m) 8 (le_bytes 8 delivery_count)) (pe_delivery_time m) delivery_count
    (pe_cname_len m) (pe_consumer m).

(** Reading past the end of the string is undefined too. *)
Definition memcpy_out (buf : bytes) (src len : nat) : option bytes :=
  if Nat.leb (src + len) (length buf) then Some (subseq src len buf) else None.

Definition Pel_ParseFrom (m : StreamPelMeta) (value : bytes) : option StreamPelMeta :=
  if Nat.eqb (length value) kDefaultStreamPelMetaValueLength then
    delivery_time ← memcpy_out value 0 8;
    delivery_count ← memcpy_out value 8 8;
    cname_len ← memcpy_out value 16 8;
    let cname_len := le_value cname_len in
    consumer ← memcpy_out value 24 (Z.to_nat cname_len);
    Some (mkPel value (le_value delivery_time) (le_value delivery_count) cname_len consumer)
  else
    Some (mkPel value (pe_delivery_time m) (pe_delivery_count m) (pe_cname_len m) (pe_consumer m)).

(** ** Identifiers in order *)

Lemma be_encode_le n : forall value written,
  be_encode n value written = rev (le_bytes n value) ++ written.
Proof.
  induction n as [|n IH]; intros value written; [done|]. cbn [be_encode le_bytes]. rewrite IH.
  simpl rev. rewrite <- app_assoc. f_equal; [|f_equal].
  - by rewrite Z.shiftr_div_pow2 by lia.
  - change 0xff with (Z.ones 8). rewrite Z.land_ones by lia. unfold byte_of_Z.
    by rewrite Zmod_mod.
Qed.

Lemma length_be value : length (EncodeUint64InBigEndian value) = 8%nat.
Proof. unfold EncodeUint64InBigEndian. by rewrite be_encode_le, app_nil_r, length_rev, length_le_bytes. Qed.
#[export] Hint Rewrite length_be length_le_bytes : len.

Lemma Serialize_form id :
  streamID_Serialize id = EncodeUint64InBigEndian (ms id) ++ EncodeUint64InBigEndian (seq id).
Proof.
  unfold streamID_Serialize. change (replicate (8 + 8) x00) with (replicate 8 x00 ++ replicate 8 x00).
  rewrite memcpy_0, length_be, drop_app_length' by done.
  rewrite memcpy_at by (by rewrite length_be). by rewrite length_be, app_nil_r.
Qed.

Lemma Zcompare_digits x y :
  Z.compare x y = thenc (Z.compare (x / 256) (y / 256)) (Z.compare (x mod 256) (y mod 256)).
Proof.
  pose proof (Z.div_mod x 256). pose proof (Z.div_mod y 256).
  pose proof (Z.mod_pos_bound x 256). pose proof (Z.mod_pos_bound y 256).
  destruct (Z.compare_spec (x / 256) (y / 256)); simpl; [|apply Z.compare_lt_iff; lia|apply Z.compare_gt_iff; lia].
  destruct (Z.compare_spec (x mod 256) (y mod 256));
    [apply Z.compare_eq_iff|apply Z.compare_lt_iff|apply Z.compare_gt_iff]; lia.
Qed.

Lemma bytes_compare_1 x y :
  bytes_compare [x] [y] = Z.compare (Z_of_byte x) (Z_of_byte y).
Proof. simpl. by destruct (Z.compare _ _). Qed.

(** Big-endian bytes compare as the numbers do. *)
Lemma be_compare n : forall x y,
  0 <= x < 256 ^ Z.of_nat n -> 0 <= y < 256 ^ Z.of_nat n ->
  bytes_compare (rev (le_bytes n x)) (rev (le_bytes n y)) = Z.compare x y.
Proof.
  induction n as [|n IH]; intros x y Hx Hy.
  - simpl in *. symmetry. apply Z.compare_eq_iff. lia.
  - cbn [le_bytes]. simpl rev. rewrite Nat2Z.inj_succ, Z.pow_succ_r in Hx, Hy by lia.
    rewrite bytes_compare_app by (by rewrite !length_rev, !length_le_bytes).
    rewrite IH, bytes_compare_1, !Z_of_byte_of_Z, <- Zcompare_digits; [done|..];
      (split; [apply Z.div_pos; lia|apply Z.div_lt_upper_bound; lia]).
Qed.

Lemma EncodeUint64_compare x y :
  is_u64 x -> is_u64 y ->
  bytes_compare (EncodeUint64InBigEndian x) (EncodeUint64InBigEndian y) = Z.compare x y.
Proof.
  intros Hx Hy. unfold EncodeUint64InBigEndian. rewrite !be_encode_le, !app_nil_r.
  by apply be_compare.
Qed.

(** The decoding loop over the reversed bytes of a number. *)
Lemma be_decode_le l :
  (length l <= 8)%nat ->
  fold_left (fun value c => Z.lor (u64 (Z.shiftl value 8)) (Z_of_byte c)) (rev l) 0 = le_value l.
Proof.
  induction l as [|b l IH]; intros Hl; [done|]. simpl in Hl. simpl rev.
  rewrite fold_left_app, IH by lia. cbn [fold_left le_value].
  pose proof (le_value_range l) as Hr. pose proof (Z_of_byte_range b).
  assert (2 ^ (8 * Z.of_nat (length l)) <= 2 ^ 56) by (apply Z.pow_le_mono_r; lia).
  rewrite Z.shiftl_mul_pow2, u64_id by (unfold is_u64; lia).
  rewrite Z.lor_comm, <- Z.shiftl_mul_pow2 by lia.
  rewrite lor_shiftl_add by lia. lia.
Qed.

Lemma Decode_Encode_be x rest :
  is_u64 x -> DecodeUint64OfBigEndian (EncodeUint64InBigEndian x ++ rest) = x.
Proof.
  intros Hx. unfold DecodeUint64OfBigEndian.
  rewrite take_app_length' by (by rewrite length_be).
  unfold EncodeUint64InBigEndian. rewrite be_encode_le, app_nil_r.
  rewrite be_decode_le by (by rewrite length_le_bytes).
  rewrite le_value_le_bytes. by apply Z.mod_small.
Qed.

(** The order of identifiers: by time, then by sequence number. *)
Definition streamID_compare (a b : streamID) : comparison :=
  thenc (Z.compare (ms a) (ms b)) (Z.compare (seq a) (seq b)).

Lemma Serialize_compare a b :
  streamID_ok a -> streamID_ok b ->
  bytes_compare (streamID_Serialize a) (streamID_Serialize b) = streamID_compare a b.
Proof.
  intros [Ha1 Ha2] [Hb1 Hb2]. rewrite !Serialize_form. unfold streamID_compare.
  rewrite bytes_compare_app by (by rewrite !length_be).
  by rewrite !EncodeUint64_compare.
Qed.

(** ** Meta values as fields *)

(** Type, groups id, entries added, the three identifiers, length, version. *)
Definition stream_meta_sizes : list nat := [1; 4; 8; 8; 8; 8; 8; 8; 8; 4; 8]%nat.

Definition stream_meta_object (L : list bytes) : StreamMetaValue :=
  let f k := nth k L [] in
  mkStreamMetaValue (DecodeFixed32 (f 1%nat)) (DecodeFixed64 (f 2%nat))
    (mkStreamID (DecodeFixed64 (f 3%nat)) (DecodeFixed64 (f 4%nat)))
    (mkStreamID (DecodeFixed64 (f 5%nat)) (DecodeFixed64 (f 6%nat)))
    (mkStreamID (DecodeFixed64 (f 7%nat)) (DecodeFixed64 (f 8%nat)))
    (i32 (DecodeFixed32 (f 9%nat))) (DecodeFixed64 (f 10%nat))
    (DataType_of_byte (nth 0 (f 0%nat) x00)) (concat L).

Lemma stream_meta_parse m L :
  map length L = stream_meta_sizes ->
  StreamMetaValue_ParseFrom m (concat L) = stream_meta_object L.
Proof.
  intros HL. unfold StreamMetaValue_ParseFrom.
  rewrite (proj2 (Nat.eqb_eq _ _)) by (by rewrite length_chunks, HL).
  unfold stream_meta_sizes in HL. chunk_hyp HL. unfold stream_meta_object, get_id.
  read_fields. destruct c as [|t []]; done.
Qed.

(** The fields and the string agree. *)
Definition stream_meta_coherent (m : StreamMetaValue) : Prop :=
  length (smv_value m) = kDefaultStreamValueLength /\ ParsedStreamMetaValue (smv_value m) = m.

Lemma stream_meta_coherent_object m :
  stream_meta_coherent m <->
  exists L, map length L = stream_meta_sizes /\ m = stream_meta_object L.
Proof.
  split.
  - intros (Hlen & Hp). destruct (chunks_exist stream_meta_sizes _ Hlen) as (L & E & HL).
    exists L. split; [done|]. unfold ParsedStreamMetaValue in Hp. by rewrite E, stream_meta_parse in Hp.
  - intros (L & HL & ->). split; [|by apply stream_meta_parse].
    cbn [stream_meta_object smv_value]. by rewrite length_chunks, HL.
Qed.

(** A setter replaces fields of the value: [upd] on the list of fields, whose
    first is field [k]. *)
Ltac stream_meta_setter upd :=
  let L := fresh "L" in let HL := fresh "HL" in
  intros (L & HL & ->)%stream_meta_coherent_object;
  apply stream_meta_coherent_object; exists (upd L);
  unfold stream_meta_sizes in *; chunk_hyp HL; split;
  [ cbn; rewrite ?length_EncodeFixed64, ?length_EncodeFixed32; congruence
  | unfold stream_meta_object, set_groups_id, set_entries_added, set_first_id, set_last_id,
      set_max_deleted_entry_id, set_length, set_version, put_id;
    cbn [smv_groups_id smv_entries_added smv_first_id smv_last_id smv_max_deleted_entry_id
         smv_length smv_version smv_type smv_value] ].

Ltac stream_done :=
  cbn [nth insert list_insert];
  rewrite ?DecodeFixed64_EncodeFixed64, ?DecodeFixed32_EncodeFixed32, ?u64_id, ?u32_id, ?i32_u32
    by done; reflexivity.

Lemma set_groups_id_coherent m v :
  is_u32 v -> stream_meta_coherent m -> stream_meta_coherent (set_groups_id m v).
Proof.
  intros Hv. stream_meta_setter (fun L : list bytes => <[1%nat:=EncodeFixed32 v]> L). write_field 1%nat. stream_done.
Qed.

Lemma set_entries_added_coherent m v :
  is_u64 v -> stream_meta_coherent m -> stream_meta_coherent (set_entries_added m v).
Proof.
  intros Hv. stream_meta_setter (fun L : list bytes => <[2%nat:=EncodeFixed64 v]> L). write_field 2%nat. stream_done.
Qed.

Lemma set_length_coherent m v :
  is_i32 v -> stream_meta_coherent m -> stream_meta_coherent (set_length m v).
Proof.
  intros Hv. stream_meta_setter (fun L : list bytes => <[9%nat:=EncodeFixed32 v]> L). write_field 9%nat. stream_done.
Qed.

Lemma set_version_coherent m v :
  is_u64 v -> stream_meta_coherent m -> stream_meta_coherent (set_version m v).
Proof.
  intros Hv. stream_meta_setter (fun L : list bytes => <[10%nat:=EncodeFixed64 v]> L). write_field 10%nat. stream_done.
Qed.

(** An identifier replaces two fields. *)
Lemma set_first_id_coherent m id :
  streamID_ok id -> stream_meta_coherent m -> stream_meta_coherent (set_first_id m id).
Proof.
  intros [H1 H2]. destruct id as [i j]. simpl in H1, H2.
  stream_meta_setter (fun L : list bytes => <[4%nat:=EncodeFixed64 j]> (<[3%nat:=EncodeFixed64 i]> L)).
  write_field 3%nat. write_field 4%nat. stream_done.
Qed.

Lemma set_last_id_coherent m id :
  streamID_ok id -> stream_meta_coherent m -> stream_meta_coherent (set_last_id m id).
Proof.
  intros [H1 H2]. destruct id as [i j]. simpl in H1, H2.
  stream_meta_setter (fun L : list bytes => <[6%nat:=EncodeFixed64 j]> (<[5%nat:=EncodeFixed64 i]> L)).
  write_field 5%nat. write_field 6%nat. stream_done.
Qed.

Lemma set_max_deleted_entry_id_coherent m id :
  streamID_ok id -> stream_meta_coherent m -> stream_meta_coherent (set_max_deleted_entry_id m id).
Proof.
  intros [H1 H2]. destruct id as [i j]. simpl in H1, H2.
  stream_meta_setter (fun L : list bytes => <[8%nat:=EncodeFixed64 j]> (<[7%nat:=EncodeFixed64 i]> L)).
  write_field 7%nat. write_field 8%nat. stream_done.
Qed.

Lemma InitMetaValue_coherent m :
  smv_type m = kStreams -> stream_meta_coherent (InitMetaValue m).
Proof.
  intros Ht. set (needed := kDefaultStreamValueLength).
  destruct (chunks_exist [1; 8; 4; 8; 8; 8; 8; 8; 8; 4; 8]%nat
    (take needed (smv_value m ++ replicate needed x00))) as (L & E & HL).
  { rewrite length_take, length_app, length_replicate, Nat.min_l by lia. done. }
  apply stream_meta_coherent_object.
  exists [[byte_of_DataType (smv_type m)]; EncodeFixed32 0; EncodeFixed64 0; EncodeFixed64 0;
          EncodeFixed64 0; EncodeFixed64 0; EncodeFixed64 0; EncodeFixed64 0; EncodeFixed64 0;
          EncodeFixed32 0; EncodeFixed64 (smv_version m + 1)].
  split; [done|]. unfold InitMetaValue, put_id, streamID_default, kINVALID_TREE_ID.
  fold needed. rewrite E. clear E. chunk_hyp HL. cbn [ms seq].
  write_field 0%nat. write_field 1%nat.
  match goal with |- context [memcpy (concat (?t :: EncodeFixed64 0 :: ?c :: ?l))] =>
    replace (concat (t :: EncodeFixed64 0 :: c :: l))
      with (concat (t :: EncodeFixed32 0 :: (EncodeFixed32 0 ++ c) :: l))
      by (cbn [concat]; by rewrite <- !app_assoc) end.
  write_field 2%nat. write_field 3%nat. write_field 4%nat. write_field 5%nat. write_field 6%nat.
  write_field 7%nat. write_field 8%nat. write_field 9%nat. write_field 10%nat.
  unfold stream_meta_object. cbn [nth]. rewrite !EncodeFixed64_u64, !DecodeFixed64_EncodeFixed64.
  by rewrite Ht.
Qed.

#[export] Hint Resolve set_groups_id_coherent set_entries_added_coherent set_length_coherent
  set_version_coherent set_first_id_coherent set_last_id_coherent
  set_max_deleted_entry_id_coherent InitMetaValue_coherent : coherent.

Lemma le_value_app a b : le_value (a ++ b) = le_value a + 2 ^ (8 * Z.of_nat (length a)) * le_value b.
Proof.
  induction a as [|c a IH]; [cbn; lia|]. cbn [app le_value length]. rewrite IH.
  rewrite Nat2Z.inj_succ. replace (8 * Z.succ _) with (8 + 8 * Z.of_nat (length a)) by lia.
  rewrite Z.pow_add_r by lia. lia.
Qed.

(** ** Theorems *)

(** stream identifiers are stored in order.  The serialised form of an
    identifier is 16 bytes that [DeserializeFrom] reads back, serialised
    identifiers compare bytewise exactly as the identifiers do (time first,
    then sequence number), and [operator<], [>], [<=], [>=] and [==] all agree
    with that order; so a byte-ordered scan of a stream visits its entries in
    identifier order. *)
Theorem stream_ids_ordered a b :
  streamID_ok a -> streamID_ok b ->
  length (streamID_Serialize a) = 16%nat /\
  streamID_DeserializeFrom (streamID_Serialize a) = a /\
  let c := bytes_compare (streamID_Serialize a) (streamID_Serialize b) in
  streamID_eqb a b = bool_decide (c = Eq) /\ streamID_ltb a b = bool_decide (c = Lt) /\
  streamID_gtb a b = bool_decide (c = Gt) /\ streamID_leb a b = bool_decide (c <> Gt) /\
  streamID_geb a b = bool_decide (c <> Lt) /\ (streamID_eqb a b = true <-> a = b).
Proof.
  intros Ha Hb. pose proof Ha as [Ha1 Ha2]. split; [by rewrite Serialize_form, length_app, !length_be|].
  split.
  { rewrite Serialize_form. unfold streamID_DeserializeFrom.
    rewrite drop_app_length' by (by rewrite length_be).
    rewrite Decode_Encode_be, <- (app_nil_r (EncodeUint64InBigEndian (seq a))), Decode_Encode_be by done.
    by destruct a. }
  rewrite Serialize_compare by done. cbv zeta.
  unfold streamID_compare, streamID_eqb, streamID_ltb, streamID_gtb, streamID_leb, streamID_geb.
  destruct a as [i j], b as [i' j']. cbn [ms seq].
  destruct (Z.compare_spec i i'), (Z.compare_spec j j'); subst; cbn [thenc];
    rewrite ?Z.eqb_refl, ?Z.ltb_irrefl, ?Z.leb_refl;
    repeat match goal with
    | |- context [?x =? ?y] => destruct (Z.eqb_spec x y); try lia
    | |- context [?x <? ?y] => destruct (Z.ltb_spec x y); try lia
    | |- context [?x <=? ?y] => destruct (Z.leb_spec x y); try lia
    end; cbn; split_and!; try done; naive_solver lia.
Qed.

Lemma stream_ids_ordered_witness :
  streamID_ltb (mkStreamID 255 7) (mkStreamID 256 0) =
  bool_decide (bytes_compare (streamID_Serialize (mkStreamID 255 7))
                 (streamID_Serialize (mkStreamID 256 0)) = Lt).
Proof.
  refine (proj1 (proj2 (proj2 (proj2 (stream_ids_ordered (mkStreamID 255 7) (mkStreamID 256 0) _ _)))));
    split; unfold is_u64; cbn; lia.
Defined.

(** a stream meta value and its string stay in step.  [InitMetaValue]
    gives a string of the expected length that parses to the object, empties
    every field and raises the version, whatever the object held before; and
    each setter changes its own field of the object and of the string and
    nothing else. *)
Theorem stream_meta_setters_coherent m id n v len :
  stream_meta_coherent m -> smv_type m = kStreams -> streamID_ok id -> is_u32 n -> is_u64 v -> is_i32 len ->
  Forall stream_meta_coherent
    [InitMetaValue m; set_groups_id m n; set_entries_added m v; ModifyEntriesAdded m v;
     set_first_id m id; set_last_id m id; set_max_deleted_entry_id m id; set_length m len;
     set_version m v] /\
  (forall m0, smv_type m0 = kStreams -> stream_meta_coherent (InitMetaValue m0) /\
     smv_version (InitMetaValue m0) = u64 (smv_version m0 + 1) /\
     smv_length (InitMetaValue m0) = 0).
Proof.
  intros. split.
  - rewrite !Forall_cons, Forall_nil. unfold ModifyEntriesAdded. split_and!; auto with coherent.
  - intros m0 Ht. split_and!; [by apply InitMetaValue_coherent|done|done].
Qed.

Lemma stream_meta_setters_coherent_witness :
  stream_meta_coherent (set_last_id (InitMetaValue StreamMetaValue_new) (mkStreamID 5 6)).
Proof.
  pose proof (proj1 (stream_meta_setters_coherent (InitMetaValue StreamMetaValue_new) (mkStreamID 5 6)
    1 2 3 (InitMetaValue_coherent StreamMetaValue_new eq_refl) eq_refl ltac:(split; unfold is_u64; cbn; lia)
    ltac:(unfold is_u32; lia) ltac:(unfold is_u64; lia) ltac:(unfold is_i32; lia))) as H.
  do 5 apply Forall_inv_tail in H. exact (Forall_inv H).
Defined.

(** the meta values of consumer groups and pending entries cannot be read
    back.  [StreamCGroupMetaValue::Init] advances its cursor by 8 after the 16
    bytes of the last identifier, so parsing what it stored puts the two tree
    identifiers into [entries_read] and leaves [pel] and [consumers] 0; and
    [StreamPelMeta] reserves 20 bytes for a 24-byte header, so [Init] of a new
    object always writes, and [ParseFrom] of a well-sized string always reads,
    past the end. *)
Theorem stream_group_meta_misplaced tid consumers m value consumer t :
  is_u32 tid -> is_u32 consumers -> length value = kDefaultStreamPelMetaValueLength ->
  let g := CGroup_Init StreamCGroupMetaValue_new tid consumers in
  let g' := CGroup_ParseFrom StreamCGroupMetaValue_new (cg_value g) in
  cg_pel g = tid /\ cg_consumers g = consumers /\ cg_entries_read g = 0 /\
  cg_entries_read g' = tid + 2 ^ 32 * consumers /\ cg_pel g' = 0 /\ cg_consumers g' = 0 /\
  Pel_Init StreamPelMeta_new consumer t = None /\ Pel_ParseFrom m value = None.
Proof.
  intros Ht Hc Hv g g'. subst g g'.
  assert (E : cg_value (CGroup_Init StreamCGroupMetaValue_new tid consumers) =
    replicate 16 x00 ++ le_bytes 4 tid ++ le_bytes 4 consumers ++ replicate 9 x00) by reflexivity.
  rewrite E. split_and!; try done.
  - change (CGroup_ParseFrom _ _) with (mkCGroup (replicate 16 x00 ++ le_bytes 4 tid ++ le_bytes 4 consumers ++ replicate 9 x00)
      (mkStreamID 0 0) (le_value (le_bytes 4 tid ++ le_bytes 4 consumers)) 0 0).
    cbn [cg_entries_read]. rewrite le_value_app, !le_value_le_bytes, length_le_bytes.
    unfold is_u32 in *. change (2 ^ (8 * Z.of_nat 4)) with (2 ^ 32). rewrite !Z.mod_small by lia. lia.
  - unfold Pel_ParseFrom. rewrite Hv, Nat.eqb_refl. unfold memcpy_out. by rewrite Hv.
Qed.

Lemma stream_group_meta_misplaced_witness :
  cg_entries_read (CGroup_ParseFrom StreamCGroupMetaValue_new
    (cg_value (CGroup_Init StreamCGroupMetaValue_new 3 4))) = 3 + 2 ^ 32 * 4.
Proof.
  refine (proj1 (proj2 (proj2 (proj2 (stream_group_meta_misplaced 3 4 StreamPelMeta_new
    (replicate 20 x00) [] 5 _ _ eq_refl))))); unfold is_u32; lia.
Defined.

(** Consumers are stored and read back as they are. *)
Lemma consumer_roundtrip c pel :
  is_u64 (cn_seen_time c) -> is_u64 (cn_active_time c) -> is_u32 pel -> cn_value c = [] ->
  forall c0, Consumer_ParseFrom c0 (cn_value (Consumer_Init c pel)) = Consumer_Init c pel.
Proof.
  intros Hs Ha Hp Hv c0. unfold Consumer_Init. rewrite Hv.
  assert (E : forall a b d, memcpy (memcpy (memcpy (replicate kDefaultStreamConsumerValueLength x00)
    0 (le_bytes 8 a)) 8 (le_bytes 8 b)) (8 + 8) (le_bytes 4 d) = le_bytes 8 a ++ le_bytes 8 b ++ le_bytes 4 d)
    by reflexivity.
  cbn [length negb Nat.eqb]. cbv zeta. rewrite E. cbn [cn_value].
  change (Consumer_ParseFrom c0 ?v) with (mkConsumer v (le_value (le_bytes 8 (cn_seen_time c)))
    (le_value (le_bytes 8 (cn_active_time c))) (le_value (le_bytes 4 pel))).
  rewrite !le_value_le_bytes. unfold is_u64, is_u32 in *. by rewrite !Z.mod_small.
Qed.
