(* ===== verification/RocksDB.v ===== *)
(** * The RocksDB interface

    RocksDB is not part of the repository.  [RocksDB] lists the calls the
    engine makes; [RocksDBLaws] states what its documentation promises of
    them: a column family is a set of key/value pairs ordered by its
    comparator, [Get] finds a pair by its key, a write batch is applied in
    order, and an iterator walks the pairs that existed when it was created.
    Promises hold of a [healthy] database, one whose I/O succeeds.  The
    comparator of the zset score family is not an order on NaN scores; what is
    promised of that family, [ScoreLaws], is promised of a database that has
    never been given such a key.

    [sorted_db] is an instance, sorted association lists, on which the
    witnesses run. *)

From Stdlib Require Import Sorting.Sorted.
From S2P Require Import Prelude Coding KeyFormat Comparator.
Open Scope nat_scope.

(** ** Status ([rocksdb::Status]) *)

Inductive StatusCode :=
  | kOk | kNotFound | kCorruption | kNotSupported | kInvalidArgument | kIOError
  | kMergeInProgress | kIncomplete | kShutdownInProgress | kTimedOut | kAborted
  | kBusy | kExpired | kTryAgain.

#[export] Instance StatusCode_eq_dec : EqDecision StatusCode.
Proof. solve_decision. Defined.

Record Status := mkStatus { status_code : StatusCode; status_msg : bytes }.

#[export] Instance Status_eq_dec : EqDecision Status.
Proof. solve_decision. Defined.

Definition Status_OK : Status := mkStatus kOk [].
Definition Status_NotFound (msg : bytes) : Status := mkStatus kNotFound msg.
Definition Status_Corruption (msg : bytes) : Status := mkStatus kCorruption msg.
Definition Status_InvalidArgument (msg : bytes) : Status := mkStatus kInvalidArgument msg.

Definition ok (s : Status) : bool := bool_decide (status_code s = kOk).
Definition IsNotFound (s : Status) : bool := bool_decide (status_code s = kNotFound).

(** ** Column families ([enum ColumnFamilyIndex]) *)

Inductive ColumnFamilyIndex :=
  | kMetaCF | kHashesDataCF | kSetsDataCF | kListsDataCF | kZsetsDataCF | kZsetsScoreCF
  | kStreamsDataCF.

#[export] Instance ColumnFamilyIndex_eq_dec : EqDecision ColumnFamilyIndex.
Proof. solve_decision. Defined.

(** The comparator [Redis::Open] gives each family. *)
Definition cf_compare (cf : ColumnFamilyIndex) : bytes -> bytes -> comparison :=
  match cf with
  | kListsDataCF => ListsDataKeyCompare
  | kZsetsScoreCF => ZSetsScoreKeyCompare
  | _ => bytes_compare
  end.

Lemma cf_compare_order cf : cf <> kZsetsScoreCF -> CompareOrder (cf_compare cf).
Proof. destruct cf; intros H; try done; apply _. Qed.

(** ** Sorted association lists *)

Definition entry : Type := bytes * bytes.

Section SortedList.
Context (cmp : bytes -> bytes -> comparison).

Fixpoint find_entry (k : bytes) (l : list entry) : option bytes :=
  match l with
  | [] => None
  | (k', v) :: l =>
      match cmp k k' with
      | Eq => Some v
      | Lt => None
      | Gt => find_entry k l
      end
  end.

Fixpoint put_entry (k v : bytes) (l : list entry) : list entry :=
  match l with
  | [] => [(k, v)]
  | (k', v') :: l' =>
      match cmp k k' with
      | Eq => (k, v) :: l'
      | Lt => (k, v) :: l
      | Gt => (k', v') :: put_entry k v l'
      end
  end.

Fixpoint delete_entry (k : bytes) (l : list entry) : list entry :=
  match l with
  | [] => []
  | (k', v') :: l' =>
      match cmp k k' with
      | Eq => l'
      | Lt => l
      | Gt => (k', v') :: delete_entry k l'
      end
  end.

(** A cursor: the entries before it (nearest first), its entry, those after. *)
Definition cursor : Type := list entry * entry * list entry.

Fixpoint seek (k : bytes) (before l : list entry) : option cursor :=
  match l with
  | [] => None
  | e :: l =>
      match cmp (fst e) k with
      | Lt => seek k (e :: before) l
      | _ => Some (before, e, l)
      end
  end.

Definition cursor_prev (before after : list entry) : option cursor :=
  match before with
  | [] => None
  | e :: before => Some (before, e, after)
  end.

Fixpoint seek_for_prev (k : bytes) (before l : list entry) : option cursor :=
  match l with
  | [] => cursor_prev before []
  | e :: l' =>
      match cmp (fst e) k with
      | Gt => cursor_prev before l
      | _ => seek_for_prev k (e :: before) l'
      end
  end.

Definition cursor_next (c : cursor) : option cursor :=
  let '(before, e, after) := c in
  match after with
  | [] => None
  | e' :: after => Some (e :: before, e', after)
  end.

Definition cursor_back (c : cursor) : option cursor :=
  let '(before, e, after) := c in cursor_prev before (e :: after).

(** Strictly increasing keys. *)
Definition sorted (l : list entry) : Prop :=
  StronglySorted (fun e1 e2 => cmp (fst e1) (fst e2) = Lt) l.

End SortedList.

(** ** Write batches *)

Inductive WriteOp :=
  | Put (cf : ColumnFamilyIndex) (key value : bytes)
  | Delete (cf : ColumnFamilyIndex) (key : bytes).

Definition apply_op (cf : ColumnFamilyIndex) (l : list entry) (op : WriteOp) : list entry :=
  match op with
  | Put cf' k v => if decide (cf' = cf) then put_entry (cf_compare cf) k v l else l
  | Delete cf' k => if decide (cf' = cf) then delete_entry (cf_compare cf) k l else l
  end.

Definition apply_batch (cf : ColumnFamilyIndex) (batch : list WriteOp) (l : list entry)
    : list entry :=
  fold_left (apply_op cf) batch l.

(** ** The interface *)

Class RocksDB := {
  DB : Type;
  Iterator : Type;
  db_Get : DB -> ColumnFamilyIndex -> bytes -> Status * bytes;
  db_Write : DB -> list WriteOp -> Status * DB;
  NewIterator : DB -> ColumnFamilyIndex -> Iterator;
  Seek : Iterator -> bytes -> Iterator;
  SeekForPrev : Iterator -> bytes -> Iterator;
  SeekToFirst : Iterator -> Iterator;
  Next : Iterator -> Iterator;
  Prev : Iterator -> Iterator;
  Valid : Iterator -> bool;
  iter_key : Iterator -> bytes;
  iter_value : Iterator -> bytes;
  Status_ToString : Status -> bytes
}.

(** [content] and [position] are how the promises talk about a database and
    an iterator; the engine never calls them. *)
Class RocksDBLaws (R : RocksDB) := {
  healthy : DB -> Prop;
  content : DB -> ColumnFamilyIndex -> list entry;
  iter_content : Iterator -> list entry;
  iter_cf : Iterator -> ColumnFamilyIndex;
  position : Iterator -> option cursor;

  content_sorted db cf :
    healthy db -> cf <> kZsetsScoreCF -> sorted (cf_compare cf) (content db cf);
  Get_content db cf k :
    healthy db -> cf <> kZsetsScoreCF ->
    db_Get db cf k =
    match find_entry (cf_compare cf) k (content db cf) with
    | Some v => (Status_OK, v)
    | None => (Status_NotFound [], [])
    end;
  Write_content db batch :
    healthy db ->
    exists db', db_Write db batch = (Status_OK, db') /\ healthy db' /\
      forall cf, cf <> kZsetsScoreCF -> content db' cf = apply_batch cf batch (content db cf);

  NewIterator_content db cf :
    healthy db -> cf <> kZsetsScoreCF ->
    iter_content (NewIterator db cf) = content db cf /\ iter_cf (NewIterator db cf) = cf;
  Seek_position it k :
    position (Seek it k) = seek (cf_compare (iter_cf it)) k [] (iter_content it);
  SeekForPrev_position it k :
    position (SeekForPrev it k) = seek_for_prev (cf_compare (iter_cf it)) k [] (iter_content it);
  SeekToFirst_position it :
    position (SeekToFirst it) =
    match iter_content it with [] => None | e :: l => Some ([], e, l) end;
  Next_position it c : position it = Some c -> position (Next it) = cursor_next c;
  Prev_position it c : position it = Some c -> position (Prev it) = cursor_back c;
  Valid_position it : Valid it = match position it with Some _ => true | None => false end;
  key_position it b e a : position it = Some (b, e, a) -> iter_key it = fst e;
  value_position it b e a : position it = Some (b, e, a) -> iter_value it = snd e
}.

(** The writes of a batch to the score family have numbers for scores. *)
Definition scores_numbers (batch : list WriteOp) : Prop :=
  Forall (fun op => match op with
                    | Put kZsetsScoreCF k _ | Delete kZsetsScoreCF k => score_number k
                    | _ => True
                    end) batch.

Class ScoreLaws (R : RocksDB) (L : RocksDBLaws R) := {
  scores_ordered : DB -> Prop;
  score_sorted db :
    healthy db -> scores_ordered db ->
    Forall (fun e => score_number (fst e)) (content db kZsetsScoreCF) /\
    sorted (cf_compare kZsetsScoreCF) (content db kZsetsScoreCF);
  score_Write db batch db' :
    healthy db -> scores_ordered db -> scores_numbers batch -> db_Write db batch = (Status_OK, db') ->
    scores_ordered db' /\
    content db' kZsetsScoreCF = apply_batch kZsetsScoreCF batch (content db kZsetsScoreCF);
  score_NewIterator db :
    healthy db -> scores_ordered db ->
    iter_content (NewIterator db kZsetsScoreCF) = content db kZsetsScoreCF /\
    iter_cf (NewIterator db kZsetsScoreCF) = kZsetsScoreCF
}.

(** ** Facts about sorted lists *)

Section SortedFacts.
Context (cmp : bytes -> bytes -> comparison) {Hord : CompareOrder cmp}.

Lemma sorted_cons e l :
  sorted cmp (e :: l) <-> sorted cmp l /\ Forall (fun e' => cmp (fst e) (fst e') = Lt) l.
Proof.
  unfold sorted. split; [intros H; by inversion H|intros [? ?]; by constructor].
Qed.

(** Nothing at or before the head's predecessor is in the list. *)
Lemma find_entry_below k l :
  Forall (fun e => cmp k (fst e) = Lt) l -> find_entry cmp k l = None.
Proof. destruct l as [|[k' v] l]; [done|]. rewrite Forall_cons. simpl. by intros [-> _]. Qed.

Lemma sorted_below k k' l :
  cmp k k' <> Gt -> Forall (fun e => cmp k' (fst e) = Lt) l ->
  Forall (fun e : entry => cmp k (fst e) = Lt) l.
Proof.
  intros Hk Hl. eapply Forall_impl; [exact Hl|].
  intros e He. by eapply (cmp_le_lt_trans cmp).
Qed.

Lemma put_entry_Forall (P : entry -> Prop) k v l :
  P (k, v) -> Forall P l -> Forall P (put_entry cmp k v l).
Proof.
  intros Hk. induction l as [|[k' v'] l IH]; simpl; [by constructor|].
  rewrite Forall_cons. intros [H1 H2]. destruct (cmp k k'); repeat constructor; auto.
Qed.

Lemma delete_entry_Forall (P : entry -> Prop) k l :
  Forall P l -> Forall P (delete_entry cmp k l).
Proof.
  induction l as [|[k' v'] l IH]; simpl; [done|].
  rewrite Forall_cons. intros [H1 H2]. destruct (cmp k k'); [done|by constructor|].
  constructor; auto.
Qed.

Lemma put_entry_sorted k v l : sorted cmp l -> sorted cmp (put_entry cmp k v l).
Proof.
  induction l as [|[k' v'] l IH]; simpl; [intros; repeat constructor|].
  rewrite sorted_cons. simpl. intros [Hs Hf]. destruct (cmp k k') eqn:E.
  - apply sorted_cons. split; [done|]. simpl. apply (sorted_below k k'); [by rewrite E|done].
  - apply sorted_cons. rewrite sorted_cons. split; [done|]. constructor; [done|].
    apply (sorted_below k k'); [by rewrite E|done].
  - apply sorted_cons. split; [auto|]. simpl. apply put_entry_Forall; [|done].
    by apply (cmp_Gt_Lt cmp).
Qed.

Lemma delete_entry_sorted k l : sorted cmp l -> sorted cmp (delete_entry cmp k l).
Proof.
  induction l as [|[k' v'] l IH]; simpl; [done|].
  rewrite sorted_cons. intros [Hs Hf]. destruct (cmp k k'); [done|by apply sorted_cons|].
  apply sorted_cons. split; [auto|]. by apply delete_entry_Forall.
Qed.

Lemma find_put k v k' l :
  sorted cmp l ->
  find_entry cmp k' (put_entry cmp k v l) =
  match cmp k' k with Eq => Some v | _ => find_entry cmp k' l end.
Proof.
  induction l as [|[k1 v1] l IH]; simpl.
  { intros _. by destruct (cmp k' k). }
  rewrite sorted_cons. simpl. intros [Hs Hf].
  destruct (cmp k k1) eqn:E; simpl.
  - rewrite <- (cmp_eq_r cmp k' k k1 E). by destruct (cmp k' k).
  - destruct (cmp k' k) eqn:E'; [done| |done].
    by rewrite (cmp_trans k' k k1) by done.
  - rewrite IH by done. destruct (cmp k' k1) eqn:E1; [| |by destruct (cmp k' k)].
    + rewrite (cmp_eq_l k' k1 k E1). apply (cmp_Gt_Lt cmp) in E. by rewrite E.
    + apply (cmp_Gt_Lt cmp) in E. by rewrite (cmp_trans k' k1 k).
Qed.

Lemma find_delete k k' l :
  sorted cmp l ->
  find_entry cmp k' (delete_entry cmp k l) =
  match cmp k' k with Eq => None | _ => find_entry cmp k' l end.
Proof.
  induction l as [|[k1 v1] l IH]; simpl.
  { intros _. by destruct (cmp k' k). }
  rewrite sorted_cons. simpl. intros [Hs Hf].
  destruct (cmp k k1) eqn:E; simpl.
  - rewrite <- (cmp_eq_r cmp k' k k1 E). destruct (cmp k' k) eqn:E'.
    + apply find_entry_below. apply (sorted_below k' k1); [|done].
      rewrite (cmp_eq_l k' k k1 E'), E. done.
    + apply find_entry_below. apply (sorted_below k' k1); [|done].
      by rewrite (cmp_eq_r cmp k' k1 k), E' by (by apply (cmp_eq_sym cmp)).
    + done.
  - destruct (cmp k' k) eqn:E'; try done.
    by rewrite (cmp_eq_l k' k k1 E'), E.
  - rewrite IH by done. destruct (cmp k' k1) eqn:E1; [| |by destruct (cmp k' k)].
    + rewrite (cmp_eq_l k' k1 k E1). apply (cmp_Gt_Lt cmp) in E. by rewrite E.
    + apply (cmp_Gt_Lt cmp) in E. by rewrite (cmp_trans k' k1 k).
Qed.

(** Equal keys find the same entry. *)
Lemma find_entry_eq k k' l : cmp k k' = Eq -> find_entry cmp k l = find_entry cmp k' l.
Proof.
  intros E. induction l as [|[k1 v1] l IH]; simpl; [done|].
  by rewrite (cmp_eq_l k k' k1 E), IH.
Qed.

(** A test for sortedness: neighbours are in order. *)
Fixpoint sorted_b (l : list entry) : bool :=
  match l with
  | e1 :: (e2 :: _) as l' => match cmp (fst e1) (fst e2) with Lt => sorted_b l' | _ => false end
  | _ => true
  end.

Lemma sorted_b_sound l : sorted_b l = true -> sorted cmp l.
Proof.
  induction l as [|e1 l IH]; [constructor|]. destruct l as [|e2 l]; [repeat constructor|].
  cbn [sorted_b]. destruct (cmp (fst e1) (fst e2)) eqn:E; try done.
  intros H%IH. apply sorted_cons. split; [done|]. constructor; [done|].
  apply sorted_cons in H as [_ Hf]. apply (sorted_below (fst e1) (fst e2)); [by rewrite E|done].
Qed.

(** ** Cursors *)

Definition cursor_list (c : cursor) : list entry :=
  let '(before, e, after) := c in rev before ++ e :: after.

Lemma sorted_app l1 l2 :
  sorted cmp (l1 ++ l2) <->
  sorted cmp l1 /\ sorted cmp l2 /\
  Forall (fun e1 => Forall (fun e2 => cmp (fst e1) (fst e2) = Lt) l2) l1.
Proof.
  induction l1 as [|e l1 IH]; simpl.
  - split; [intros H; repeat split; [constructor|done|constructor]|by intros (_ & ? & _)].
  - rewrite !sorted_cons, IH, Forall_app, Forall_cons. tauto.
Qed.

Lemma find_app_above k l1 l2 :
  Forall (fun e => cmp (fst e) k = Lt) l1 ->
  find_entry cmp k (l1 ++ l2) = find_entry cmp k l2.
Proof.
  induction l1 as [|[k1 v1] l1 IH]; simpl; [done|].
  rewrite Forall_cons. simpl. intros [H1 H2].
  apply (cmp_Gt_Lt cmp) in H1. rewrite H1. auto.
Qed.

Lemma find_app_below k l1 l2 :
  Forall (fun e => cmp k (fst e) = Lt) l2 ->
  find_entry cmp k (l1 ++ l2) = find_entry cmp k l1.
Proof.
  intros H. induction l1 as [|[k1 v1] l1 IH]; simpl; [by apply find_entry_below|].
  by rewrite IH.
Qed.

(** An entry of a sorted list is found by any key equal to its own. *)
Lemma find_middle k k' v l1 l2 :
  sorted cmp (l1 ++ (k', v) :: l2) -> cmp k k' = Eq ->
  find_entry cmp k (l1 ++ (k', v) :: l2) = Some v.
Proof.
  rewrite sorted_app. intros (_ & _ & H) E. rewrite find_app_above.
  - simpl. by rewrite E.
  - eapply Forall_impl; [exact H|]. intros e He%Forall_inv. simpl in He.
    by rewrite (cmp_eq_r cmp _ _ _ E).
Qed.

(** The cursor of list [l] stands on the entry of key [k], value [v]. *)
Definition stands_on (l : list entry) (k v : bytes) (c : option cursor) : Prop :=
  exists b k' a, c = Some (b, (k', v), a) /\ cmp k' k = Eq /\ rev b ++ (k', v) :: a = l.

Lemma seek_stands k v l : forall before,
  Forall (fun e => cmp (fst e) k = Lt) before ->
  find_entry cmp k l = Some v -> stands_on (rev before ++ l) k v (seek cmp k before l).
Proof.
  induction l as [|[k1 v1] l IH]; intros before Hb Hf; simpl in Hf |- *; [done|].
  destruct (cmp k k1) eqn:E; [|done|].
  - injection Hf as <-. rewrite (cmp_eq_sym cmp _ _ E). exists before, k1, l.
    split_and!; [done|by apply (cmp_eq_sym cmp)|done].
  - apply (cmp_Gt_Lt cmp) in E. rewrite E.
    specialize (IH ((k1, v1) :: before)). simpl in IH. rewrite <- app_assoc in IH.
    apply IH; [by constructor|done].
Qed.

Lemma seek_for_prev_stands k v l : forall before,
  sorted cmp l -> find_entry cmp k l = Some v ->
  stands_on (rev before ++ l) k v (seek_for_prev cmp k before l).
Proof.
  induction l as [|[k1 v1] l IH]; intros before Hs Hf; simpl in Hf |- *; [done|].
  apply sorted_cons in Hs as [Hs Hall]. simpl in Hall.
  destruct (cmp k k1) eqn:E; [|done|].
  - injection Hf as <-. rewrite (cmp_eq_sym cmp _ _ E).
    exists before, k1, l. split_and!; [|by apply (cmp_eq_sym cmp)|done].
    destruct l as [|[k2 v2] l]; simpl; [done|].
    apply Forall_inv in Hall. simpl in Hall. rewrite <- (cmp_eq_l k k1 k2 E) in Hall.
    apply (cmp_Gt_Lt cmp) in Hall. by rewrite Hall.
  - apply (cmp_Gt_Lt cmp) in E. rewrite E.
    specialize (IH ((k1, v1) :: before)). simpl in IH. rewrite <- app_assoc in IH. auto.
Qed.

(** Stepping to the neighbour: no key lies between [k] and [k2]. *)
Definition adjacent (k k2 : bytes) : Prop :=
  cmp k k2 = Lt /\ forall c, cmp k c = Lt -> cmp c k2 = Lt -> False.

Lemma next_stands l k v k2 v2 b k' a :
  sorted cmp l -> adjacent k k2 -> find_entry cmp k2 l = Some v2 ->
  cmp k' k = Eq -> rev b ++ (k', v) :: a = l ->
  stands_on l k2 v2 (cursor_next (b, (k', v), a)).
Proof.
  intros Hs [Hlt Hno] Hf E <-. pose proof Hs as Hs'.
  rewrite sorted_app, sorted_cons in Hs. destruct Hs as (Hb & [Ha Hea] & Hx). simpl in Hea.
  assert (Hk2 : cmp k' k2 = Lt) by (by rewrite (cmp_eq_l k' k k2 E)).
  rewrite find_app_above in Hf.
  2:{ eapply Forall_impl; [exact Hx|]. intros e He%Forall_inv. simpl in He.
      by eapply cmp_trans. }
  simpl in Hf. rewrite (proj2 (cmp_Gt_Lt cmp k2 k')) in Hf by done.
  destruct a as [|[k3 v3] a]; simpl in Hf; [done|].
  apply Forall_inv in Hea. simpl in Hea.
  destruct (cmp k2 k3) eqn:E3; [|done|].
  - injection Hf as ->. exists ((k', v) :: b), k3, a. simpl.
    rewrite <- app_assoc. split_and!; [done|by apply (cmp_eq_sym cmp)|done].
  - exfalso. apply (Hno k3); [by rewrite <- (cmp_eq_l k' k k3 E)|by apply (cmp_Gt_Lt cmp)].
Qed.

Lemma prev_stands l k v k2 v2 b k' a :
  sorted cmp l -> adjacent k2 k -> find_entry cmp k2 l = Some v2 ->
  cmp k' k = Eq -> rev b ++ (k', v) :: a = l ->
  stands_on l k2 v2 (cursor_back (b, (k', v), a)).
Proof.
  intros Hs [Hlt Hno] Hf E <-. pose proof Hs as Hs'.
  rewrite sorted_app, sorted_cons in Hs. destruct Hs as (Hb & [Ha Hea] & Hx). simpl in Hea.
  assert (Hk2 : cmp k2 k' = Lt) by (by rewrite (cmp_eq_r cmp k2 k' k E)).
  rewrite find_app_below in Hf.
  2:{ constructor; [done|]. eapply Forall_impl; [exact Hea|]. intros e He. simpl in He.
      by eapply cmp_trans. }
  destruct b as [|[k3 v3] b]; simpl in *; [done|].
  rewrite sorted_app in Hb. destruct Hb as (Hb1 & _ & Hb2).
  rewrite Forall_app in Hx. destruct Hx as [_ Hx%Forall_inv%Forall_inv]. simpl in Hx.
  destruct (cmp k2 k3) eqn:E3.
  - assert (Some v2 = Some v3) as [= ->].
    { rewrite <- Hf, find_app_above; [simpl; by rewrite E3|].
      eapply Forall_impl; [exact Hb2|]. intros e He%Forall_inv. simpl in He.
      by rewrite (cmp_eq_r cmp _ _ _ E3). }
    exists b, k3, ((k', v) :: a). rewrite <- app_assoc. simpl.
    split_and!; [done|by apply (cmp_eq_sym cmp)|done].
  - exfalso. apply (Hno k3); [done|]. by rewrite <- (cmp_eq_r cmp k3 k' k E).
  - exfalso. rewrite find_app_above in Hf; [simpl in Hf; by rewrite E3 in Hf|].
    eapply Forall_impl; [exact Hb2|]. intros e He%Forall_inv. simpl in He.
    eapply cmp_trans; [exact He|]. by apply (cmp_Gt_Lt cmp).
Qed.

End SortedFacts.

(** ** Reads after writes *)

(** What a batch leaves under a key that held [cur]. *)
Definition lookup_after (cf : ColumnFamilyIndex) (k : bytes) (batch : list WriteOp)
    (cur : option bytes) : option bytes :=
  fold_left (fun cur op =>
    match op with
    | Put cf' k' v =>
        if decide (cf' = cf) then match cf_compare cf k k' with Eq => Some v | _ => cur end else cur
    | Delete cf' k' =>
        if decide (cf' = cf) then match cf_compare cf k k' with Eq => None | _ => cur end else cur
    end) batch cur.

Section Laws.
Context {R : RocksDB} {L : RocksDBLaws R}.

(** The value under [k] in family [cf]. *)
Definition db_lookup (db : DB) (cf : ColumnFamilyIndex) (k : bytes) : option bytes :=
  find_entry (cf_compare cf) k (content db cf).

Lemma apply_batch_sorted cf batch : forall l,
  cf <> kZsetsScoreCF -> sorted (cf_compare cf) l ->
  sorted (cf_compare cf) (apply_batch cf batch l).
Proof.
  induction batch as [|op batch IH]; intros l Hcf Hl; [done|].
  pose proof (cf_compare_order cf Hcf). apply IH; [done|].
  destruct op; simpl; case_decide; auto using put_entry_sorted, delete_entry_sorted.
Qed.

Lemma find_apply_batch cf k batch : forall l,
  cf <> kZsetsScoreCF -> sorted (cf_compare cf) l ->
  find_entry (cf_compare cf) k (apply_batch cf batch l) =
  lookup_after cf k batch (find_entry (cf_compare cf) k l).
Proof.
  induction batch as [|op batch IH]; intros l Hcf Hl; [done|].
  pose proof (cf_compare_order cf Hcf). simpl. change (fold_left (apply_op cf) batch) with (apply_batch cf batch).
  rewrite IH; [|done|].
  - f_equal. destruct op; simpl; case_decide; try done; by rewrite ?find_put, ?find_delete.
  - destruct op; simpl; case_decide; auto using put_entry_sorted, delete_entry_sorted.
Qed.

(** [Get] on a healthy database. *)
Lemma Get_lookup db cf k :
  healthy db -> cf <> kZsetsScoreCF ->
  db_Get db cf k = match db_lookup db cf k with
                   | Some v => (Status_OK, v)
                   | None => (Status_NotFound [], [])
                   end.
Proof. intros. by apply Get_content. Qed.

(** [Write] on a healthy database. *)
Lemma Write_lookup db batch :
  healthy db ->
  exists db', db_Write db batch = (Status_OK, db') /\ healthy db' /\
    forall cf k, cf <> kZsetsScoreCF ->
      db_lookup db' cf k = lookup_after cf k batch (db_lookup db cf k).
Proof.
  intros Hdb. destruct (Write_content db batch Hdb) as (db' & HW & Hdb' & HC).
  exists db'. split_and!; [done..|]. intros cf k Hcf. unfold db_lookup.
  rewrite HC by done. by apply find_apply_batch, content_sorted.
Qed.

Lemma lookup_eq db cf k k' :
  cf <> kZsetsScoreCF -> cf_compare cf k k' = Eq -> db_lookup db cf k = db_lookup db cf k'.
Proof.
  intros Hcf E. pose proof (cf_compare_order cf Hcf). by apply find_entry_eq.
Qed.

(** An iterator over [db] and [cf] stands on the entry of key [k]. *)
Definition iter_on (db : DB) (cf : ColumnFamilyIndex) (it : Iterator) (k v : bytes) : Prop :=
  stands_on (cf_compare cf) (content db cf) k v (position it).

Lemma iter_on_valid db cf it k v :
  iter_on db cf it k v -> Valid it = true /\ iter_value it = v.
Proof.
  intros (b & k' & a & Hp & _ & _). split.
  - by rewrite Valid_position, Hp.
  - apply (value_position _ _ _ _ Hp).
Qed.

Lemma iter_on_key db cf it k v :
  iter_on db cf it k v -> cf_compare cf (iter_key it) k = Eq.
Proof.
  intros (b & k' & a & Hp & E & _). by rewrite (key_position _ _ _ _ Hp).
Qed.

Lemma Seek_on db cf k v :
  healthy db -> cf <> kZsetsScoreCF -> db_lookup db cf k = Some v ->
  iter_on db cf (Seek (NewIterator db cf) k) k v.
Proof.
  intros Hdb Hcf Hf. unfold iter_on. rewrite Seek_position.
  destruct (NewIterator_content db cf Hdb Hcf) as [-> ->].
  pose proof (cf_compare_order cf Hcf). by apply (seek_stands (cf_compare cf) k v _ []).
Qed.

Lemma SeekForPrev_on db cf k v :
  healthy db -> cf <> kZsetsScoreCF -> db_lookup db cf k = Some v ->
  iter_on db cf (SeekForPrev (NewIterator db cf) k) k v.
Proof.
  intros Hdb Hcf Hf. unfold iter_on. rewrite SeekForPrev_position.
  destruct (NewIterator_content db cf Hdb Hcf) as [-> ->].
  pose proof (cf_compare_order cf Hcf).
  by apply (seek_for_prev_stands (cf_compare cf) k v _ []), Hf; apply content_sorted.
Qed.

Lemma Next_on db cf it k v k2 v2 :
  healthy db -> cf <> kZsetsScoreCF -> iter_on db cf it k v ->
  adjacent (cf_compare cf) k k2 -> db_lookup db cf k2 = Some v2 ->
  iter_on db cf (Next it) k2 v2.
Proof.
  intros Hdb Hcf (b & k' & a & Hp & E & Hl) Hadj Hf. unfold iter_on.
  erewrite Next_position by done. pose proof (cf_compare_order cf Hcf).
  eapply next_stands; try done; by apply content_sorted.
Qed.

Lemma Prev_on db cf it k v k2 v2 :
  healthy db -> cf <> kZsetsScoreCF -> iter_on db cf it k v ->
  adjacent (cf_compare cf) k2 k -> db_lookup db cf k2 = Some v2 ->
  iter_on db cf (Prev it) k2 v2.
Proof.
  intros Hdb Hcf (b & k' & a & Hp & E & Hl) Hadj Hf. unfold iter_on.
  erewrite Prev_position by done. pose proof (cf_compare_order cf Hcf).
  eapply prev_stands; try done; by apply content_sorted.
Qed.

End Laws.

(** ** Sorted lists as a database *)

Record sorted_iter := mkSortedIter {
  si_cf : ColumnFamilyIndex; si_content : list entry; si_position : option cursor
}.

Definition si_move (f : cursor -> option cursor) (it : sorted_iter) : sorted_iter :=
  mkSortedIter (si_cf it) (si_content it)
    (match si_position it with Some c => f c | None => None end).

Definition sorted_db : RocksDB := {|
  DB := ColumnFamilyIndex -> list entry;
  Iterator := sorted_iter;
  db_Get db cf k :=
    match find_entry (cf_compare cf) k (db cf) with
    | Some v => (Status_OK, v)
    | None => (Status_NotFound [], [])
    end;
  db_Write db batch := (Status_OK, fun cf => apply_batch cf batch (db cf));
  NewIterator db cf := mkSortedIter cf (db cf) None;
  Seek it k := mkSortedIter (si_cf it) (si_content it)
                 (seek (cf_compare (si_cf it)) k [] (si_content it));
  SeekForPrev it k := mkSortedIter (si_cf it) (si_content it)
                 (seek_for_prev (cf_compare (si_cf it)) k [] (si_content it));
  SeekToFirst it := mkSortedIter (si_cf it) (si_content it)
                 (match si_content it with [] => None | e :: l => Some ([], e, l) end);
  Next := si_move cursor_next;
  Prev := si_move cursor_back;
  Valid it := match si_position it with Some _ => true | None => false end;
  iter_key it := match si_position it with Some (_, e, _) => fst e | None => [] end;
  iter_value it := match si_position it with Some (_, e, _) => snd e | None => [] end;
  Status_ToString s :=
    match status_code s with
    | kOk => lit "OK"
    | kNotFound => lit "NotFound: "
    | kCorruption => lit "Corruption: "
    | kInvalidArgument => lit "Invalid argument: "
    | _ => []
    end ++ status_msg s
|}.

(** The database with nothing in it. *)
Definition empty_db : DB (RocksDB := sorted_db) := fun _ => [].

#[refine] Definition sorted_db_laws : RocksDBLaws sorted_db := {|
  healthy (db : DB (RocksDB := sorted_db)) :=
    forall cf, cf <> kZsetsScoreCF -> sorted (cf_compare cf) (db cf);
  content (db : DB (RocksDB := sorted_db)) cf := db cf;
  iter_content (it : Iterator (RocksDB := sorted_db)) := si_content it;
  iter_cf (it : Iterator (RocksDB := sorted_db)) := si_cf it;
  position (it : Iterator (RocksDB := sorted_db)) := si_position it
|}.
Proof.
  - intros db cf H Hcf. by apply H.
  - done.
  - intros db batch Hdb. eexists. split_and!; [done| |done].
    intros cf Hcf. simpl. apply apply_batch_sorted; auto.
  - done.
  - done.
  - done.
  - done.
  - intros it c Hp. simpl. unfold si_move. by rewrite Hp.
  - intros it c Hp. simpl. unfold si_move. by rewrite Hp.
  - done.
  - intros it b e a Hp. simpl. by rewrite Hp.
  - intros it b e a Hp. simpl. by rewrite Hp.
Defined.

Lemma empty_db_healthy : healthy (RocksDBLaws := sorted_db_laws) empty_db.
Proof. intros cf _. constructor. Qed.

(** *** The score family *)

(** Two comparators that agree on the keys of a list and on [k]. *)
Lemma put_entry_ext cmp cmp' k v l :
  Forall (fun e : entry => cmp k (fst e) = cmp' k (fst e)) l -> put_entry cmp k v l = put_entry cmp' k v l.
Proof.
  induction 1 as [|[k' v'] l E _ IH]; [done|]. simpl in *. rewrite E. destruct (cmp' k k'); [done..|]. by rewrite IH.
Qed.

Lemma delete_entry_ext cmp cmp' k l :
  Forall (fun e : entry => cmp k (fst e) = cmp' k (fst e)) l -> delete_entry cmp k l = delete_entry cmp' k l.
Proof.
  induction 1 as [|[k' v'] l E _ IH]; [done|]. simpl in *. rewrite E. destruct (cmp' k k'); [done..|]. by rewrite IH.
Qed.

Lemma score_agree k l : score_number k -> Forall (fun e : entry => score_number (fst e)) l ->
  Forall (fun e : entry => ZSetsScoreKeyCompare k (fst e) = score_compare k (fst e)) l.
Proof. intros Hk Hl. eapply Forall_impl; [exact Hl|]. intros e He. by apply ZSetsScoreKeyCompare_lex. Qed.

Lemma score_sorted_lex l : Forall (fun e : entry => score_number (fst e)) l ->
  sorted ZSetsScoreKeyCompare l <-> sorted score_compare l.
Proof.
  induction 1 as [|e l He Hl IH]; [split; constructor|]. rewrite !sorted_cons, IH.
  split; intros [Hs Hf]; (split; [done|]); rewrite Forall_forall in *; intros x Hx; specialize (Hf x Hx);
    by rewrite ZSetsScoreKeyCompare_lex in * by auto.
Qed.

(** The entries of the score family after a batch. *)
Lemma apply_scores batch : forall l,
  scores_numbers batch -> Forall (fun e : entry => score_number (fst e)) l -> sorted ZSetsScoreKeyCompare l ->
  Forall (fun e : entry => score_number (fst e)) (apply_batch kZsetsScoreCF batch l) /\
  sorted ZSetsScoreKeyCompare (apply_batch kZsetsScoreCF batch l).
Proof.
  induction batch as [|op batch IH]; intros l Hb Hn Hs; [done|]. apply Forall_cons in Hb as [Ho Hb].
  cbn [apply_batch fold_left]. apply IH; [done|..]; destruct op as [cf k v|cf k]; simpl; case_decide as E; try done; subst cf.
  - by apply put_entry_Forall.
  - by apply delete_entry_Forall.
  - rewrite (put_entry_ext _ score_compare) by (by apply score_agree).
    apply score_sorted_lex; [by apply put_entry_Forall|]. apply put_entry_sorted; [apply _|]. by apply score_sorted_lex.
  - rewrite (delete_entry_ext _ score_compare) by (by apply score_agree).
    apply score_sorted_lex; [by apply delete_entry_Forall|]. apply delete_entry_sorted. by apply score_sorted_lex.
Qed.

#[refine] Definition sorted_db_scores : ScoreLaws sorted_db sorted_db_laws := {|
  scores_ordered (db : DB (RocksDB := sorted_db)) :=
    Forall (fun e => score_number (fst e)) (db kZsetsScoreCF) /\ sorted ZSetsScoreKeyCompare (db kZsetsScoreCF)
|}.
Proof.
  - done.
  - intros db batch db' _ [Hn Hs] Hb [= <-]. split; [|done]. by apply apply_scores.
  - done.
Defined.

Lemma empty_db_scores : scores_ordered (ScoreLaws := sorted_db_scores) empty_db.
Proof. split; constructor. Qed.
