(* ===== verification/LruCache.v ===== *)
(** * The LRU cache ([src/src/storage/src/lru_cache.h])

    Pointer-level model of [HandleTable] and [LRUCache]: handles live at
    addresses, their [next] and [prev] fields are maps from addresses to
    addresses, and the hash table maps keys to addresses.  [None] is a read or
    write through a pointer that is not allocated, a failed assertion, or a
    loop that runs out of fuel.

    The theorems show that none of these happens and that the cache refines
    its specification, a list of entries in recency order, oldest first.  The
    mutex makes each operation atomic and is not modelled. *)

From S2P Require Import Prelude RocksDB.
Open Scope nat_scope.

Section LRU.
Context {K V : Type} {HK : EqDecision K} {CK : Countable K}.

(** ** State *)

(** [nullptr] is 0 and [&lru_], the dummy head, is 1. *)
Definition lru_head : nat := 1.

Record LRUHandle := mkHandle { h_key : K; h_value : V; h_charge : Z }.

Record LRUCache := mkLRU {
  capacity_ : Z;
  usage_ : Z;
  size_ : Z;
  next_ : gmap nat nat;
  prev_ : gmap nat nat;
  handles_ : gmap nat LRUHandle;
  table_ : gmap K nat;
  fresh_ : nat
}.

(** [LRUCache::LRUCache] *)
Definition LRUCache_new : LRUCache :=
  mkLRU 0 0 0 {[lru_head := lru_head]} {[lru_head := lru_head]} ∅ ∅ 2.

Definition with_links (s : LRUCache) (nx pv : gmap nat nat) : LRUCache :=
  mkLRU (capacity_ s) (usage_ s) (size_ s) nx pv (handles_ s) (table_ s) (fresh_ s).
Definition with_table (s : LRUCache) (t : gmap K nat) : LRUCache :=
  mkLRU (capacity_ s) (usage_ s) (size_ s) (next_ s) (prev_ s) (handles_ s) t (fresh_ s).
Definition with_counts (s : LRUCache) (usage size : Z) : LRUCache :=
  mkLRU (capacity_ s) usage size (next_ s) (prev_ s) (handles_ s) (table_ s) (fresh_ s).
Definition with_capacity (s : LRUCache) (capacity : Z) : LRUCache :=
  mkLRU capacity (usage_ s) (size_ s) (next_ s) (prev_ s) (handles_ s) (table_ s) (fresh_ s).

(** [new LRUHandle] with its fields set, and [delete e]. *)
Definition lru_alloc (s : LRUCache) (h : LRUHandle) : nat * LRUCache :=
  let a := fresh_ s in
  (a, mkLRU (capacity_ s) (usage_ s) (size_ s) (<[a:=0]> (next_ s)) (<[a:=0]> (prev_ s))
        (<[a:=h]> (handles_ s)) (table_ s) (S a)).
Definition lru_free (s : LRUCache) (e : nat) : LRUCache :=
  mkLRU (capacity_ s) (usage_ s) (size_ s) (delete e (next_ s)) (delete e (prev_ s))
    (delete e (handles_ s)) (table_ s) (fresh_ s).

(** [a->next = v] and [a->prev = v] *)
Definition set_next (s : LRUCache) (a v : nat) : option LRUCache :=
  _ ← next_ s !! a; Some (with_links s (<[a:=v]> (next_ s)) (prev_ s)).
Definition set_prev (s : LRUCache) (a v : nat) : option LRUCache :=
  _ ← prev_ s !! a; Some (with_links s (next_ s) (<[a:=v]> (prev_ s))).

(** ** [HandleTable] *)

Definition HandleTable_Lookup (t : gmap K nat) (key : K) : option nat := t !! key.

Definition HandleTable_Remove (t : gmap K nat) (key : K) : option nat * gmap K nat :=
  match t !! key with
  | Some old => (Some old, delete key t)
  | None => (None, t)
  end.

Definition HandleTable_Insert (t : gmap K nat) (key : K) (handle : nat)
    : option nat * gmap K nat :=
  match t !! key with
  | Some old => (Some old, <[key:=handle]> (delete key t))
  | None => (None, <[key:=handle]> t)
  end.

(** ** List surgery *)

Definition LRU_Remove (s : LRUCache) (e : nat) : option LRUCache :=
  n ← next_ s !! e;
  p ← prev_ s !! e;
  s ← set_prev s n p;
  p ← prev_ s !! e;
  n ← next_ s !! e;
  set_next s p n.

Definition LRU_Append (s : LRUCache) (e : nat) : option LRUCache :=
  s ← set_next s e lru_head;
  p ← prev_ s !! lru_head;
  s ← set_prev s e p;
  p ← prev_ s !! e;
  s ← set_next s p e;
  n ← next_ s !! e;
  set_prev s n e.

Definition LRU_MoveToHead (s : LRUCache) (e : nat) : option LRUCache :=
  s ← LRU_Remove s e; LRU_Append s e.

Definition FinishErase (s : LRUCache) (e : option nat) : option (bool * LRUCache) :=
  match e with
  | None => Some (false, s)
  | Some e =>
      s ← LRU_Remove s e;
      h ← handles_ s !! e;
      let s := with_counts s (u64 (usage_ s - h_charge h)) (u64 (size_ s - 1)) in
      Some (true, lru_free s e)
  end.

(** [FinishErase(handle_table_.Remove(key))] *)
Definition erase_key (s : LRUCache) (key : K) : option (bool * LRUCache) :=
  let '(old, t) := HandleTable_Remove (table_ s) key in
  FinishErase (with_table s t) old.

(** The body of the loops of [LRU_Trim] and [Clear]: erase the oldest entry. *)
Definition erase_oldest (s : LRUCache) : option LRUCache :=
  old ← next_ s !! lru_head;
  h ← handles_ s !! old;
  '(erased, s) ← erase_key s (h_key h);
  if (erased : bool) then Some s else None.

Fixpoint LRU_Trim_loop (fuel : nat) (s : LRUCache) : option LRUCache :=
  match fuel with
  | O => None
  | S fuel =>
      old ← next_ s !! lru_head;
      if Z.ltb (capacity_ s) (usage_ s) && negb (Nat.eqb old lru_head) then
        s ← erase_oldest s; LRU_Trim_loop fuel s
      else Some s
  end.

(** One iteration per handle, and the last test. *)
Definition LRU_Trim (s : LRUCache) : option LRUCache :=
  LRU_Trim_loop (S (size (handles_ s))) s.

(** ** Operations *)

Definition LRUCache_Size (s : LRUCache) : Z := size_ s.
Definition LRUCache_TotalCharge (s : LRUCache) : Z := usage_ s.
Definition LRUCache_Capacity (s : LRUCache) : Z := capacity_ s.

Definition LRUCache_SetCapacity (s : LRUCache) (capacity : Z) : option LRUCache :=
  LRU_Trim (with_capacity s capacity).

(** The value found, if any; the status says the same. *)
Definition LRUCache_Lookup (s : LRUCache) (key : K) : option (Status * option V * LRUCache) :=
  match HandleTable_Lookup (table_ s) key with
  | Some handle =>
      s ← LRU_MoveToHead s handle;
      h ← handles_ s !! handle;
      Some (Status_OK, Some (h_value h), s)
  | None => Some (Status_NotFound [], None, s)
  end.

Definition LRUCache_Insert (s : LRUCache) (key : K) (value : V) (charge : Z)
    : option (Status * LRUCache) :=
  if Z.eqb (capacity_ s) 0 then Some (Status_Corruption (lit "capacity is empty"), s)
  else
    let '(handle, s) := lru_alloc s (mkHandle key value charge) in
    s ← LRU_Append s handle;
    let s := with_counts s (u64 (usage_ s + charge)) (u64 (size_ s + 1)) in
    let '(old, t) := HandleTable_Insert (table_ s) key handle in
    '(_, s) ← FinishErase (with_table s t) old;
    s ← LRU_Trim s;
    Some (Status_OK, s).

Definition LRUCache_Remove (s : LRUCache) (key : K) : option (Status * LRUCache) :=
  '(erased, s) ← erase_key s key;
  Some (if (erased : bool) then Status_OK else Status_NotFound [], s).

Fixpoint LRUCache_Clear_loop (fuel : nat) (s : LRUCache) : option LRUCache :=
  match fuel with
  | O => None
  | S fuel =>
      old ← next_ s !! lru_head;
      if negb (Nat.eqb old lru_head) then s ← erase_oldest s; LRUCache_Clear_loop fuel s
      else Some s
  end.

Definition LRUCache_Clear (s : LRUCache) : option (Status * LRUCache) :=
  s ← LRUCache_Clear_loop (S (size (handles_ s))) s; Some (Status_OK, s).

(** ** Doubly linked segments *)

(** [next] and [prev] link [x], the nodes of [l] and [z], in this order. *)
Fixpoint seg (nx pv : gmap nat nat) (x : nat) (l : list nat) (z : nat) : Prop :=
  match l with
  | [] => nx !! x = Some z /\ pv !! z = Some x
  | y :: l => nx !! x = Some y /\ pv !! y = Some x /\ seg nx pv y l z
  end.

Lemma seg_ext nx pv nx' pv' z l : forall x,
  seg nx pv x l z -> (forall a, a ∈ x :: l -> nx' !! a = nx !! a) ->
  (forall a, a ∈ l ++ [z] -> pv' !! a = pv !! a) -> seg nx' pv' x l z.
Proof.
  induction l as [|y l IH]; simpl; intros x H Hn Hp.
  - rewrite Hn, Hp by set_solver. done.
  - destruct H as (? & ? & ?). rewrite Hn, Hp by set_solver. split_and!; [done..|].
    apply IH; [done|set_solver|set_solver].
Qed.

(** Unlinking a node. *)
Lemma seg_remove nx pv e z l2 l1 : forall x,
  NoDup (x :: l1 ++ e :: l2) -> z ∉ l1 ++ e :: l2 ->
  seg nx pv x (l1 ++ e :: l2) z ->
  exists p n, pv !! e = Some p /\ nx !! e = Some n /\ p ∈ x :: l1 /\ n ∈ l2 ++ [z] /\
    seg (<[p:=n]> nx) (<[n:=p]> pv) x (l1 ++ l2) z.
Proof.
  induction l1 as [|y l1 IH]; simpl; intros x Hnd Hz.
  - intros (Hx & He & H). destruct l2 as [|y l2]; simpl in H.
    + destruct H as [H1 H2]. exists x, z. split_and!; [done..|set_solver|set_solver|].
      simpl. by rewrite !lookup_insert_eq.
    + destruct H as (H1 & H2 & H3). exists x, y. split_and!; [done..|set_solver|set_solver|].
      simpl. rewrite !lookup_insert_eq. split_and!; [done..|].
      rewrite !NoDup_cons in Hnd.
      apply (seg_ext nx pv); [done| |]; intros a Ha; apply lookup_insert_ne; set_solver.
  - intros (Hx & Hy & H). apply NoDup_cons in Hnd as [Hnx Hnd].
    destruct (IH y) as (p & n & Hpe & Hne & Hp & Hn & Hs); [done|set_solver|done|].
    apply NoDup_cons in Hnd as [Hny _].
    exists p, n. split_and!; try done; [set_solver|..];
      rewrite lookup_insert_ne by set_solver; done.
Qed.

(** Linking a new last node. *)
Lemma seg_append nx pv e z l : forall x,
  NoDup (x :: l) -> e ∉ x :: l -> e <> z -> z ∉ l -> seg nx pv x l z ->
  exists p, pv !! z = Some p /\ p ∈ x :: l /\
    seg (<[p:=e]> (<[e:=z]> nx)) (<[z:=e]> (<[e:=p]> pv)) x (l ++ [e]) z.
Proof.
  induction l as [|y l IH]; simpl; intros x Hnd He Hez Hz.
  - intros [H1 H2]. exists x. split_and!; [done|set_solver|..].
    + by rewrite lookup_insert_eq.
    + by rewrite lookup_insert_ne, lookup_insert_eq by done.
    + rewrite lookup_insert_ne by set_solver. by rewrite lookup_insert_eq.
    + by rewrite lookup_insert_eq.
  - intros (Hx & Hy & H). apply NoDup_cons in Hnd as [Hnx Hnd].
    destruct (IH y) as (p & Hpz & Hp & Hs); [done|set_solver|done|set_solver|done|].
    exists p. split_and!; [done|set_solver|..].
    + rewrite !lookup_insert_ne by set_solver. done.
    + rewrite !lookup_insert_ne by set_solver. done.
    + done.
Qed.

Lemma seg_head nx pv x l z : seg nx pv x l z -> nx !! x = Some (default z (head l)).
Proof. destruct l; simpl; tauto. Qed.

(** Every node of a segment is allocated. *)
Lemma seg_alloc nx pv z l : forall x,
  seg nx pv x l z -> (forall a, a ∈ x :: l -> is_Some (nx !! a)) /\
                     (forall a, a ∈ l ++ [z] -> is_Some (pv !! a)).
Proof.
  induction l as [|y l IH]; simpl; intros x H.
  - destruct H as [H1 H2]. split; intros a Ha; assert (a = x \/ a = z) as [->| ->] by set_solver; set_solver.
  - destruct H as (H1 & H2 & H3). destruct (IH y H3) as [I1 I2]. split; intros a Ha.
    + apply elem_of_cons in Ha as [->|Ha]; [by eexists|by apply I1].
    + apply elem_of_cons in Ha as [->|Ha]; [by eexists|by apply I2].
Qed.

(** ** The list invariant *)

(** [l]: the addresses and contents of the handles, oldest first. *)
Fixpoint total (l : list LRUHandle) : Z :=
  match l with
  | [] => 0
  | h :: l => (h_charge h + total l)%Z
  end.

Record list_inv (s : LRUCache) (l : list (nat * LRUHandle)) : Prop := {
  li_nodup : NoDup (lru_head :: l.*1);
  li_seg : seg (next_ s) (prev_ s) lru_head l.*1 lru_head;
  li_handles : forall a h, handles_ s !! a = Some h <-> (a, h) ∈ l;
  li_fresh : Forall (fun a => a < fresh_ s) (lru_head :: l.*1);
  li_size : size_ s = u64 (Z.of_nat (length l));
  li_usage : usage_ s = u64 (total l.*2)
}.

(** Each key has one handle, which the table finds. *)
Record table_inv (t : gmap K nat) (l : list (nat * LRUHandle)) : Prop := {
  ti_nodup : NoDup (h_key <$> l.*2);
  ti_table : forall k a, t !! k = Some a <-> exists h, (a, h) ∈ l /\ h_key h = k
}.

Lemma total_app l1 l2 : total (l1 ++ l2) = (total l1 + total l2)%Z.
Proof. induction l1 as [|h l1 IH]; simpl; lia. Qed.

Lemma u64_sub a b : u64 (u64 a - b) = u64 (a - b).
Proof. unfold u64. apply Zminus_mod_idemp_l. Qed.

Lemma u64_add a b : u64 (u64 a + b) = u64 (a + b).
Proof. unfold u64. apply Zplus_mod_idemp_l. Qed.

Lemma list_inv_new : list_inv LRUCache_new [].
Proof.
  constructor; simpl; try done.
  - repeat constructor; set_solver.
  - intros a h. rewrite lookup_empty. split; [done|set_solver].
  - repeat constructor.
Qed.

Lemma table_inv_new : table_inv ∅ [].
Proof.
  constructor; [constructor|]. intros k a. rewrite lookup_empty. split; [done|set_solver].
Qed.

(** Links and counters aside, the state is unchanged. *)
Definition same_rest (s s' : LRUCache) : Prop :=
  capacity_ s' = capacity_ s /\ table_ s' = table_ s /\ fresh_ s' = fresh_ s.

Lemma LRU_Remove_spec s l1 e h l2 :
  list_inv s (l1 ++ (e, h) :: l2) ->
  exists nx pv, LRU_Remove s e = Some (with_links s nx pv) /\
    seg nx pv lru_head (l1.*1 ++ l2.*1) lru_head /\
    is_Some (nx !! e) /\ is_Some (pv !! e).
Proof.
  intros [Hnd Hseg _ _ _ _]. rewrite fmap_app, fmap_cons in *. simpl in *.
  pose proof (seg_alloc _ _ _ _ _ Hseg) as [Hnx Hpv].
  apply seg_remove in Hseg as (p & n & Hp & Hn & Hpin & Hnin & Hs);
    [|done|by apply NoDup_cons in Hnd as [? _]].
  apply NoDup_cons in Hnd as [Hh Hnd]. apply NoDup_app in Hnd as (_ & Hd & Hnd).
  apply NoDup_cons in Hnd as [He _].
  assert (Hen : e <> n) by set_solver. assert (Hep : e <> p) by set_solver.
  destruct (Hnx p) as [np Enp]; [set_solver|]. destruct (Hpv n) as [pn Epn]; [set_solver|].
  exists (<[p:=n]> (next_ s)), (<[n:=p]> (prev_ s)).
  unfold LRU_Remove, set_prev, set_next. rewrite Hn, Hp. simpl. rewrite Epn. simpl.
  rewrite lookup_insert_ne, Hp by done. simpl. rewrite Hn. simpl. rewrite Enp.
  split_and!; [done..| |by eexists]. rewrite lookup_insert_ne by done. by eexists.
Qed.

Lemma LRU_Append_spec s l e :
  NoDup (lru_head :: l) -> e ∉ lru_head :: l -> seg (next_ s) (prev_ s) lru_head l lru_head ->
  is_Some (next_ s !! e) -> is_Some (prev_ s !! e) ->
  exists nx pv, LRU_Append s e = Some (with_links s nx pv) /\
    seg nx pv lru_head (l ++ [e]) lru_head.
Proof.
  intros Hnd He Hseg [ne Ene] [pe Epe].
  pose proof (seg_alloc _ _ _ _ _ Hseg) as [Hnx Hpv].
  apply (seg_append _ _ e) in Hseg as (p & Hp & Hpin & Hs);
    [|done|done|set_solver|by apply NoDup_cons in Hnd as [? _]].
  destruct (Hnx p Hpin) as [np Enp].
  assert (Hep : e <> p) by set_solver. assert (Heh : e <> lru_head) by set_solver.
  exists (<[p:=e]> (<[e:=lru_head]> (next_ s))), (<[lru_head:=e]> (<[e:=p]> (prev_ s))).
  unfold LRU_Append, set_next, set_prev. rewrite Ene. simpl. rewrite Hp. simpl.
  rewrite Epe. simpl. rewrite lookup_insert_eq. simpl.
  rewrite (lookup_insert_ne _ e p), Enp by done. simpl.
  rewrite (lookup_insert_ne _ p e), lookup_insert_eq by done. simpl.
  rewrite (lookup_insert_ne _ e lru_head), Hp by done. done.
Qed.

Lemma list_inv_not_in s l e h l1 l2 :
  list_inv s l -> l = l1 ++ (e, h) :: l2 ->
  NoDup (lru_head :: l1.*1 ++ l2.*1) /\ e ∉ lru_head :: l1.*1 ++ l2.*1.
Proof.
  intros [Hnd _ _ _ _ _] ->. rewrite fmap_app, fmap_cons in Hnd. simpl in Hnd.
  apply NoDup_cons in Hnd as [Hh Hnd]. apply NoDup_app in Hnd as (H1 & H2 & H3).
  apply NoDup_cons in H3 as [H4 H5].
  split; [apply NoDup_cons; split; [set_solver|apply NoDup_app; set_solver]|set_solver].
Qed.

(** Moving a handle to the newest end. *)
Lemma LRU_MoveToHead_spec s l1 e h l2 :
  list_inv s (l1 ++ (e, h) :: l2) ->
  exists s', LRU_MoveToHead s e = Some s' /\ list_inv s' (l1 ++ l2 ++ [(e, h)]) /\
    same_rest s s'.
Proof.
  intros Hinv. destruct (LRU_Remove_spec _ _ _ _ _ Hinv) as (nx & pv & HR & Hs & Hn & Hp).
  destruct (list_inv_not_in _ _ _ _ _ _ Hinv eq_refl) as [Hnd He].
  destruct (LRU_Append_spec (with_links s nx pv) (l1.*1 ++ l2.*1) e) as (nx' & pv' & HA & Hs');
    [done..|].
  eexists. split; [unfold LRU_MoveToHead; rewrite HR; exact HA|]. split; [|done].
  destruct Hinv as [Hnd0 _ Hh Hf Hsz Hu].
  assert (HP : l1 ++ (e, h) :: l2 ≡ₚ l1 ++ l2 ++ [(e, h)]) by solve_Permutation.
  constructor; simpl.
  - by rewrite <- HP.
  - by rewrite !fmap_app, app_assoc.
  - intros a h'. by rewrite Hh, HP.
  - by rewrite <- HP.
  - rewrite Hsz. by rewrite HP.
  - rewrite Hu. rewrite !fmap_app, fmap_cons, !total_app. simpl. f_equal. lia.
Qed.

(** Erasing a handle. *)
Lemma FinishErase_spec s l1 e h l2 :
  list_inv s (l1 ++ (e, h) :: l2) ->
  exists s', FinishErase s (Some e) = Some (true, s') /\ list_inv s' (l1 ++ l2) /\
    same_rest s s'.
Proof.
  intros Hinv. destruct (LRU_Remove_spec _ _ _ _ _ Hinv) as (nx & pv & HR & Hs & Hn & Hp).
  destruct (list_inv_not_in _ _ _ _ _ _ Hinv eq_refl) as [Hnd He].
  destruct Hinv as [Hnd0 _ Hh Hf Hsz Hu].
  assert (HP : l1 ++ (e, h) :: l2 ≡ₚ (e, h) :: l1 ++ l2) by solve_Permutation.
  assert (Ehe : handles_ s !! e = Some h) by (apply Hh; set_solver).
  eexists. split; [unfold FinishErase; rewrite HR; simpl; rewrite Ehe; done|].
  split; [|done]. constructor; simpl.
  - by rewrite fmap_app.
  - rewrite fmap_app. apply (seg_ext nx pv); [done| |];
      intros a Ha; apply lookup_delete_ne; set_solver.
  - intros a h'. rewrite lookup_delete_Some, Hh, HP, elem_of_cons. split.
    + intros [Hne [[= ->]|H]]; [done|done].
    + intros H. split; [|by right]. intros ->. apply He.
      rewrite <- fmap_app. right. by apply (list_elem_of_fmap_2 fst) in H.
  - rewrite HP in Hf. rewrite Forall_cons in Hf |- *. rewrite fmap_cons, Forall_cons in Hf.
    tauto.
  - rewrite Hsz, u64_sub, HP. simpl. f_equal. lia.
  - rewrite Hu, u64_sub. f_equal. rewrite !fmap_app, fmap_cons, !total_app. simpl. lia.
Qed.

Lemma FinishErase_none (s : LRUCache) : FinishErase s None = Some (false, s).
Proof. done. Qed.

(** A handle allocated, linked and counted. *)
Lemma append_new s l h :
  list_inv s l ->
  let '(a, s1) := lru_alloc s h in
  exists s2, LRU_Append s1 a = Some s2 /\ a = fresh_ s /\ table_ s2 = table_ s /\
    capacity_ s2 = capacity_ s /\
    list_inv (with_counts s2 (u64 (usage_ s2 + h_charge h)) (u64 (size_ s2 + 1)))
      (l ++ [(a, h)]).
Proof.
  intros [Hnd Hseg Hh Hf Hsz Hu]. unfold lru_alloc. set (a := fresh_ s).
  assert (Ha : a ∉ lru_head :: l.*1).
  { intros H. rewrite Forall_forall in Hf. apply Hf in H. unfold a in H. lia. }
  destruct (LRU_Append_spec (snd (lru_alloc s h)) l.*1 a) as (nx & pv & HA & Hs); [done|done|..].
  { simpl. apply (seg_ext (next_ s) (prev_ s)); [done| |];
      intros b Hb; apply lookup_insert_ne; set_solver. }
  { simpl. rewrite lookup_insert_eq. by eexists. }
  { simpl. rewrite lookup_insert_eq. by eexists. }
  eexists. split; [exact HA|]. split_and!; [done..|]. constructor; simpl.
  - rewrite fmap_app. change (lru_head :: l.*1 ++ [(a, h)].*1) with ((lru_head :: l.*1) ++ [a]).
    apply NoDup_app. split_and!; [done|set_solver|apply NoDup_singleton].
  - by rewrite fmap_app.
  - intros b h'. rewrite lookup_insert_Some, Hh, elem_of_app, list_elem_of_singleton. split.
    + intros [[<- <-]|[Hne H]]; [by right|by left].
    + intros [H|[= -> ->]]; [|by left]. right. split; [|done]. intros <-.
      apply Ha. right. by apply (list_elem_of_fmap_2 fst) in H.
  - rewrite Forall_cons, fmap_app, Forall_app. rewrite Forall_cons in Hf. destruct Hf as [Hf1 Hf2].
    split_and!; [lia| |repeat constructor; simpl; unfold a; lia].
    eapply Forall_impl; [exact Hf2|]. simpl. lia.
  - rewrite Hsz, u64_add, length_app. simpl. f_equal. lia.
  - rewrite Hu, u64_add. f_equal. rewrite fmap_app, total_app. simpl. lia.
Qed.

(** ** The table *)

Lemma table_found t l k a :
  table_inv t l -> t !! k = Some a ->
  exists l1 h l2, l = l1 ++ (a, h) :: l2 /\ h_key h = k /\
    Forall (fun p => h_key p.2 <> k) (l1 ++ l2).
Proof.
  intros [Hnd Ht] (h & Hin & Hk)%Ht.
  apply list_elem_of_split in Hin as (l1 & l2 & ->). exists l1, h, l2. split_and!; [done..|].
  rewrite !fmap_app, !fmap_cons in Hnd. simpl in Hnd.
  apply NoDup_app in Hnd as (_ & Hd & Hnd). apply NoDup_cons in Hnd as [Hn _].
  apply Forall_forall. intros p Hp Hpk. apply elem_of_app in Hp as [Hp|Hp];
    apply (list_elem_of_fmap_2 snd) in Hp; apply (list_elem_of_fmap_2 h_key) in Hp; rewrite Hpk in Hp.
  - apply (Hd k); [done|]. rewrite Hk. set_solver.
  - apply Hn. by rewrite Hk.
Qed.

Lemma table_not_found t l k :
  table_inv t l -> t !! k = None -> Forall (fun p => h_key p.2 <> k) l.
Proof.
  intros [_ Ht] Hk. apply Forall_forall. intros [a h] Hp E. simpl in E.
  assert (t !! k = Some a) by (apply Ht; eauto). congruence.
Qed.

Lemma table_inv_remove t l1 a h l2 :
  table_inv t (l1 ++ (a, h) :: l2) -> Forall (fun p => h_key p.2 <> h_key h) (l1 ++ l2) ->
  table_inv (delete (h_key h) t) (l1 ++ l2).
Proof.
  intros [Hnd Ht] Hne. rewrite Forall_forall in Hne. constructor.
  - rewrite !fmap_app, !fmap_cons in *. simpl in Hnd.
    assert (HP : h_key h :: (h_key <$> l1.*2) ++ (h_key <$> l2.*2) ≡ₚ
                 (h_key <$> l1.*2) ++ h_key h :: (h_key <$> l2.*2)) by solve_Permutation.
    rewrite <- HP in Hnd. by apply NoDup_cons in Hnd as [_ ?].
  - intros k b. rewrite lookup_delete_Some, Ht. split.
    + intros (Hk & h' & Hin & <-). exists h'. split; [|done].
      rewrite elem_of_app, elem_of_cons in Hin. rewrite elem_of_app.
      destruct Hin as [?|[[= -> ->]|?]]; [by left|done|by right].
    + intros (h' & Hin & <-). split; [|exists h'; set_solver].
      intros E. apply (Hne (b, h')); done.
Qed.

Lemma table_inv_add t l a h :
  table_inv t l -> Forall (fun p => h_key p.2 <> h_key h) l ->
  table_inv (<[h_key h:=a]> t) (l ++ [(a, h)]).
Proof.
  intros [Hnd Ht] Hne. rewrite Forall_forall in Hne. constructor.
  - rewrite !fmap_app. apply NoDup_app. split_and!; [done| |apply NoDup_singleton].
    intros k Hk. apply list_elem_of_fmap_1 in Hk as (h' & -> & Hk).
    apply list_elem_of_fmap_1 in Hk as ([b h''] & -> & Hk). simpl.
    rewrite list_elem_of_singleton. by apply (Hne (b, h'')).
  - intros k b. rewrite lookup_insert_Some, Ht. split.
    + intros [[<- <-]|(Hk & h' & Hin & <-)]; [exists h|exists h']; set_solver.
    + intros (h' & Hin & <-). apply elem_of_app in Hin as [Hin|Hin%list_elem_of_singleton].
      * right. split; [|eauto]. intros E. by apply (Hne (b, h')).
      * injection Hin as -> ->. by left.
Qed.

(** ** Specification *)

(** What clients see: the entries in recency order, oldest first. *)
Record cache := mkCache { c_capacity : Z; c_entries : list LRUHandle }.

Fixpoint find_key (k : K) (l : list LRUHandle) : option LRUHandle :=
  match l with
  | [] => None
  | h :: l => if decide (h_key h = k) then Some h else find_key k l
  end.
Fixpoint drop_key (k : K) (l : list LRUHandle) : list LRUHandle :=
  match l with
  | [] => []
  | h :: l => if decide (h_key h = k) then drop_key k l else h :: drop_key k l
  end.

(** Evict the oldest entries while the total charge exceeds the capacity. *)
Fixpoint evict (capacity : Z) (l : list LRUHandle) : list LRUHandle :=
  match l with
  | [] => []
  | _ :: l' => if Z.ltb capacity (u64 (total l)) then evict capacity l' else l
  end.

Definition spec_SetCapacity (c : cache) (capacity : Z) : cache :=
  mkCache capacity (evict capacity (c_entries c)).

Definition spec_Lookup (c : cache) (k : K) : Status * option V * cache :=
  match find_key k (c_entries c) with
  | Some h => (Status_OK, Some (h_value h),
               mkCache (c_capacity c) (drop_key k (c_entries c) ++ [h]))
  | None => (Status_NotFound [], None, c)
  end.

Definition spec_Insert (c : cache) (k : K) (v : V) (charge : Z) : Status * cache :=
  if Z.eqb (c_capacity c) 0 then (Status_Corruption (lit "capacity is empty"), c)
  else (Status_OK, mkCache (c_capacity c)
          (evict (c_capacity c) (drop_key k (c_entries c) ++ [mkHandle k v charge]))).

Definition spec_Remove (c : cache) (k : K) : Status * cache :=
  match find_key k (c_entries c) with
  | Some _ => (Status_OK, mkCache (c_capacity c) (drop_key k (c_entries c)))
  | None => (Status_NotFound [], c)
  end.

(** The pointer structure represents the cache. *)
Definition represents (s : LRUCache) (c : cache) : Prop :=
  exists l, list_inv s l /\ table_inv (table_ s) l /\
    capacity_ s = c_capacity c /\ l.*2 = c_entries c.

Lemma drop_key_none k l :
  Forall (fun h => h_key h <> k) l -> drop_key k l = l /\ find_key k l = None.
Proof.
  induction l as [|h l IH]; simpl; [done|]. rewrite Forall_cons. intros [H1 H2].
  rewrite !decide_False by done. destruct (IH H2) as [-> ->]. done.
Qed.

Lemma drop_key_split k l1 h l2 :
  h_key h = k -> Forall (fun h => h_key h <> k) (l1 ++ l2) ->
  drop_key k (l1 ++ h :: l2) = l1 ++ l2 /\ find_key k (l1 ++ h :: l2) = Some h.
Proof.
  intros Hk. induction l1 as [|h1 l1 IH]; simpl.
  - intros H. rewrite !decide_True by done. split; [|done]. by apply drop_key_none.
  - rewrite Forall_cons. intros [H1 H2]. rewrite !decide_False by done.
    destruct (IH H2) as [-> ->]. done.
Qed.

(** Erasing a key through the table. *)
Lemma erase_key_found s l k a :
  list_inv s l -> table_inv (table_ s) l -> table_ s !! k = Some a ->
  exists s' l', erase_key s k = Some (true, s') /\ list_inv s' l' /\ table_inv (table_ s') l' /\
    capacity_ s' = capacity_ s /\ l'.*2 = drop_key k l.*2 /\ find_key k l.*2 <> None /\
    S (length l') = length l.
Proof.
  intros Hl Ht Hk. destruct (table_found _ _ _ _ Ht Hk) as (l1 & h & l2 & -> & Hh & Hne).
  pose proof (table_inv_remove _ _ _ _ _ Ht) as Ht'. rewrite Hh in Ht'. specialize (Ht' Hne).
  destruct (FinishErase_spec (with_table s (delete k (table_ s))) l1 a h l2)
    as (s' & HF & Hl' & Hcap & Htab & _).
  { destruct Hl. constructor; done. }
  exists s', (l1 ++ l2). unfold erase_key, HandleTable_Remove. rewrite Hk. split; [done|].
  split; [done|]. rewrite Htab. split; [done|]. split; [done|].
  rewrite !fmap_app, fmap_cons. simpl.
  destruct (drop_key_split k l1.*2 h l2.*2) as [-> ->]; [done| |].
  { rewrite <- fmap_app. by apply Forall_fmap. }
  split_and!; [done..|]. rewrite !length_app. simpl. lia.
Qed.

Lemma erase_key_absent s l k :
  table_inv (table_ s) l -> table_ s !! k = None ->
  erase_key s k = Some (false, with_table s (table_ s)) /\
  drop_key k l.*2 = l.*2 /\ find_key k l.*2 = None.
Proof.
  intros Ht Hk. unfold erase_key, HandleTable_Remove. rewrite Hk. split; [done|].
  apply drop_key_none, Forall_fmap. by eapply table_not_found.
Qed.

(** One iteration of the eviction loop. *)
Lemma erase_oldest_spec s a h l :
  list_inv s ((a, h) :: l) -> table_inv (table_ s) ((a, h) :: l) ->
  exists s' l', erase_oldest s = Some s' /\ list_inv s' l' /\ table_inv (table_ s') l' /\
    capacity_ s' = capacity_ s /\ l'.*2 = l.*2 /\ length l' = length l.
Proof.
  intros Hl Ht. pose proof (seg_head _ _ _ _ _ (li_seg _ _ Hl)) as Hh. simpl in Hh.
  assert (Ha : handles_ s !! a = Some h) by (apply (li_handles _ _ Hl); set_solver).
  assert (Hk : table_ s !! h_key h = Some a).
  { apply (ti_table _ _ Ht). exists h. set_solver. }
  destruct (erase_key_found s _ (h_key h) a Hl Ht Hk) as (s' & l' & HE & Hl' & Ht' & Hc & Hd & _ & Hlen).
  exists s', l'. unfold erase_oldest. rewrite Hh. simpl. rewrite Ha. simpl. rewrite HE.
  split_and!; try done; [|simpl in Hlen; lia].
  rewrite Hd. refine (proj1 (drop_key_split (h_key h) [] h l.*2 eq_refl _)). apply Forall_fmap.
  pose proof (ti_nodup _ _ Ht) as Hnd. simpl in Hnd. apply NoDup_cons in Hnd as [Hnd _].
  apply Forall_forall. intros p Hp E. apply Hnd. rewrite <- E. by do 2 apply list_elem_of_fmap_2.
Qed.

Lemma list_inv_head s l : list_inv s l -> next_ s !! lru_head = Some (default lru_head (head l.*1)).
Proof. intros Hl. apply seg_head with (pv := prev_ s), (li_seg _ _ Hl). Qed.

Lemma list_inv_head_ne s a h l : list_inv s ((a, h) :: l) -> a <> lru_head.
Proof. intros Hl. pose proof (li_nodup _ _ Hl) as H. apply NoDup_cons in H. set_solver. Qed.

Lemma list_inv_handles s l : list_inv s l -> size (handles_ s) = length l.
Proof.
  intros Hl. pose proof (li_nodup _ _ Hl) as Hnd. apply NoDup_cons in Hnd as [_ Hnd].
  rewrite <- (map_size_list_to_map l Hnd). f_equal. apply map_eq. intros a.
  apply option_eq. intros h. by rewrite (li_handles _ _ Hl), elem_of_list_to_map.
Qed.

Lemma LRU_Trim_loop_spec fuel : forall s l,
  list_inv s l -> table_inv (table_ s) l -> length l < fuel ->
  exists s' l', LRU_Trim_loop fuel s = Some s' /\ list_inv s' l' /\ table_inv (table_ s') l' /\
    capacity_ s' = capacity_ s /\ l'.*2 = evict (capacity_ s) l.*2.
Proof.
  induction fuel as [|fuel IH]; intros s l Hl Ht Hlen; [lia|].
  simpl. rewrite (list_inv_head _ _ Hl). simpl. destruct l as [|[a h] l]; simpl.
  - rewrite andb_false_r. exists s, []. done.
  - rewrite (proj2 (Nat.eqb_neq _ _)) by (by eapply list_inv_head_ne).
    rewrite andb_true_r, (li_usage _ _ Hl). simpl.
    destruct (Z.ltb _ _) eqn:E; [|exists s, ((a, h) :: l); done].
    destruct (erase_oldest_spec s a h l Hl Ht) as (s1 & l1 & -> & Hl1 & Ht1 & Hc1 & E1 & Hn1).
    simpl in *. destruct (IH s1 l1) as (s' & l' & HT & Hl' & Ht' & Hc' & E'); [done|done|lia|].
    exists s', l'. rewrite E', Hc', Hc1, E1. done.
Qed.

Lemma LRU_Trim_spec s l :
  list_inv s l -> table_inv (table_ s) l ->
  exists s', LRU_Trim s = Some s' /\
    represents s' (mkCache (capacity_ s) (evict (capacity_ s) l.*2)).
Proof.
  intros Hl Ht. destruct (LRU_Trim_loop_spec (S (size (handles_ s))) s l)
    as (s' & l' & HT & Hl' & Ht' & Hc & E); [done|done|by rewrite (list_inv_handles s l); auto|].
  exists s'. split; [done|]. exists l'. done.
Qed.

Lemma Clear_loop_spec fuel : forall s l,
  list_inv s l -> table_inv (table_ s) l -> length l < fuel ->
  exists s', LRUCache_Clear_loop fuel s = Some s' /\ represents s' (mkCache (capacity_ s) []).
Proof.
  induction fuel as [|fuel IH]; intros s l Hl Ht Hlen; [lia|].
  simpl. rewrite (list_inv_head _ _ Hl). simpl. destruct l as [|[a h] l]; simpl.
  - exists s. split; [done|]. by exists [].
  - rewrite (proj2 (Nat.eqb_neq _ _)) by (by eapply list_inv_head_ne). simpl.
    destruct (erase_oldest_spec s a h l Hl Ht) as (s1 & l1 & -> & Hl1 & Ht1 & Hc1 & E1 & Hn1).
    simpl in *. rewrite <- Hc1. apply (IH s1 l1); [done|done|lia].
Qed.

(** ** Each operation refines its specification *)

Lemma SetCapacity_refines s c capacity :
  represents s c ->
  exists s', LRUCache_SetCapacity s capacity = Some s' /\
    represents s' (spec_SetCapacity c capacity).
Proof.
  intros (l & Hl & Ht & Hc & E).
  destruct (LRU_Trim_spec (with_capacity s capacity) l) as (s' & HT & HR).
  { destruct Hl. by constructor. }
  { done. }
  exists s'. split; [done|]. simpl in HR. by rewrite E in HR.
Qed.

Lemma Lookup_refines s c k :
  represents s c ->
  exists s', LRUCache_Lookup s k = Some (fst (spec_Lookup c k), s') /\
    represents s' (snd (spec_Lookup c k)).
Proof.
  intros (l & Hl & Ht & Hc & E). unfold LRUCache_Lookup, HandleTable_Lookup, spec_Lookup.
  rewrite <- E. destruct (table_ s !! k) as [a|] eqn:Hk.
  - destruct (table_found _ _ _ _ Ht Hk) as (l1 & h & l2 & -> & Hh & Hne).
    destruct (LRU_MoveToHead_spec _ _ _ _ _ Hl) as (s' & -> & Hl' & Hcap & Htab & _).
    simpl. rewrite (proj2 (li_handles _ _ Hl' a h)) by set_solver. simpl.
    rewrite !fmap_app, fmap_cons. simpl.
    destruct (drop_key_split k l1.*2 h l2.*2) as [-> ->]; [done| |].
    { rewrite <- fmap_app. by apply Forall_fmap. }
    exists s'. split; [done|]. exists (l1 ++ l2 ++ [(a, h)]). split; [done|].
    assert (HP : l1 ++ (a, h) :: l2 ≡ₚ l1 ++ l2 ++ [(a, h)]) by solve_Permutation.
    split_and!; [|by rewrite Hcap|by rewrite !fmap_app, app_assoc].
    rewrite Htab. destruct Ht as [Hnd Ht]. constructor; [by rewrite <- HP|].
    intros k' b. rewrite Ht. by setoid_rewrite HP.
  - destruct (drop_key_none k l.*2) as [_ ->]; [|exists s; split; [done|by exists l]].
    apply Forall_fmap. by eapply table_not_found.
Qed.

Lemma Remove_refines s c k :
  represents s c ->
  exists s', LRUCache_Remove s k = Some (fst (spec_Remove c k), s') /\
    represents s' (snd (spec_Remove c k)).
Proof.
  intros (l & Hl & Ht & Hc & E). unfold LRUCache_Remove, spec_Remove. rewrite <- E.
  destruct (table_ s !! k) as [a|] eqn:Hk.
  - destruct (erase_key_found s l k a Hl Ht Hk) as (s' & l' & -> & Hl' & Ht' & Hc' & E' & Hf & _).
    destruct (find_key k l.*2); [|done]. exists s'. split; [done|].
    exists l'. by rewrite Hc', Hc.
  - destruct (erase_key_absent s l k Ht Hk) as (-> & _ & ->).
    exists s. split; [by destruct s|]. by exists l.
Qed.

Lemma Insert_refines s c k v charge :
  represents s c ->
  exists s', LRUCache_Insert s k v charge = Some (fst (spec_Insert c k v charge), s') /\
    represents s' (snd (spec_Insert c k v charge)).
Proof.
  intros (l & Hl & Ht & Hc & E). unfold LRUCache_Insert, spec_Insert. rewrite <- Hc.
  destruct (Z.eqb (capacity_ s) 0); [exists s; split; [done|by exists l]|].
  set (h := mkHandle k v charge). pose proof (append_new s l h Hl) as HA.
  destruct (lru_alloc s h) as [a s1]. destruct HA as (s2 & -> & _ & Htab & Hcap & Hl2). simpl.
  set (s3 := with_counts s2 _ _) in *. unfold HandleTable_Insert.
  rewrite Htab.
  destruct (table_ s !! k) as [old|] eqn:Hk.
  - destruct (table_found _ _ _ _ Ht Hk) as (l1 & ho & l2 & -> & Hh & Hne).
    rewrite <- app_assoc in Hl2. simpl in Hl2.
    destruct (FinishErase_spec (with_table s3 (<[k:=a]> (delete k (table_ s)))) l1 old ho
                (l2 ++ [(a, h)])) as (s4 & -> & Hl4 & Hc4 & Ht4 & _).
    { destruct Hl2. by constructor. }
    simpl. destruct (LRU_Trim_spec s4 (l1 ++ l2 ++ [(a, h)])) as (s' & -> & HR); [done| |].
    + rewrite Ht4, app_assoc. simpl. apply (table_inv_add _ _ a h); [|done].
      rewrite <- Hh. apply table_inv_remove with (a := old); [done|by rewrite Hh].
    + exists s'. split; [done|]. rewrite Hc4 in HR. simpl in HR. rewrite Hcap in HR.
      simpl. rewrite <- E, fmap_app, fmap_cons. simpl.
      destruct (drop_key_split k l1.*2 ho l2.*2) as [-> _];
        [done|rewrite <- fmap_app; by apply Forall_fmap|].
      by rewrite !fmap_app, app_assoc in HR.
  - pose proof (table_not_found _ _ _ Ht Hk) as Hne. simpl.
    destruct (LRU_Trim_spec (with_table s3 (<[k:=a]> (table_ s))) (l ++ [(a, h)]))
      as (s' & -> & HR).
    + destruct Hl2. by constructor.
    + by apply (table_inv_add _ _ a h).
    + exists s'. split; [done|]. simpl in HR. rewrite Hcap in HR. simpl. rewrite <- E.
      destruct (drop_key_none k l.*2) as [-> _]; [by apply Forall_fmap|].
      by rewrite fmap_app in HR.
Qed.

Lemma Clear_refines s c :
  represents s c ->
  exists s', LRUCache_Clear s = Some (Status_OK, s') /\ represents s' (mkCache (c_capacity c) []).
Proof.
  intros (l & Hl & Ht & Hc & E).
  destruct (Clear_loop_spec (S (size (handles_ s))) s l) as (s' & HC & HR);
    [done|done|by rewrite (list_inv_handles s l); auto|].
  exists s'. unfold LRUCache_Clear. rewrite HC. split; [done|]. by rewrite <- Hc.
Qed.

(** ** Sequences of operations *)

Inductive cache_op :=
  | OpSetCapacity (capacity : Z)
  | OpLookup (key : K)
  | OpInsert (key : K) (value : V) (charge : Z)
  | OpRemove (key : K)
  | OpClear.

Definition output : Type := Status * option V.

Definition lru_step (s : LRUCache) (op : cache_op) : option (output * LRUCache) :=
  match op with
  | OpSetCapacity capacity => s ← LRUCache_SetCapacity s capacity; Some (Status_OK, None, s)
  | OpLookup k => LRUCache_Lookup s k
  | OpInsert k v charge => '(st, s) ← LRUCache_Insert s k v charge; Some (st, None, s)
  | OpRemove k => '(st, s) ← LRUCache_Remove s k; Some (st, None, s)
  | OpClear => '(st, s) ← LRUCache_Clear s; Some (st, None, s)
  end.

Definition spec_step (c : cache) (op : cache_op) : output * cache :=
  match op with
  | OpSetCapacity capacity => (Status_OK, None, spec_SetCapacity c capacity)
  | OpLookup k => spec_Lookup c k
  | OpInsert k v charge => let '(st, c) := spec_Insert c k v charge in (st, None, c)
  | OpRemove k => let '(st, c) := spec_Remove c k in (st, None, c)
  | OpClear => (Status_OK, None, mkCache (c_capacity c) [])
  end.

Fixpoint lru_run (s : LRUCache) (ops : list cache_op) : option (list output * LRUCache) :=
  match ops with
  | [] => Some ([], s)
  | op :: ops =>
      '(o, s) ← lru_step s op; '(os, s) ← lru_run s ops; Some (o :: os, s)
  end.

Fixpoint spec_run (c : cache) (ops : list cache_op) : list output * cache :=
  match ops with
  | [] => ([], c)
  | op :: ops =>
      let '(o, c) := spec_step c op in let '(os, c) := spec_run c ops in (o :: os, c)
  end.

Lemma step_refines s c op :
  represents s c ->
  exists s', lru_step s op = Some (fst (spec_step c op), s') /\
    represents s' (snd (spec_step c op)).
Proof.
  intros HR. destruct op as [capacity|k|k v charge|k|]; simpl.
  - destruct (SetCapacity_refines s c capacity HR) as (s' & -> & HR'). by exists s'.
  - by apply Lookup_refines.
  - destruct (Insert_refines s c k v charge HR) as (s' & -> & HR'). exists s'.
    by destruct (spec_Insert c k v charge).
  - destruct (Remove_refines s c k HR) as (s' & -> & HR'). exists s'.
    by destruct (spec_Remove c k).
  - destruct (Clear_refines s c HR) as (s' & -> & HR'). by exists s'.
Qed.

Lemma run_refines ops : forall s c,
  represents s c ->
  exists s', lru_run s ops = Some (fst (spec_run c ops), s') /\
    represents s' (snd (spec_run c ops)).
Proof.
  induction ops as [|op ops IH]; intros s c HR; simpl; [by exists s|].
  destruct (step_refines s c op HR) as (s1 & -> & HR1). simpl.
  destruct (spec_step c op) as [o c1]. simpl in *.
  destruct (IH s1 c1 HR1) as (s' & -> & HR'). simpl.
  destruct (spec_run c1 ops) as [os c']. by exists s'.
Qed.

(** What was inserted last is found. *)
Lemma find_evict_last capacity k v l :
  (1 <= capacity)%Z -> Forall (fun h => h_key h <> k) l ->
  find_key k (evict capacity (l ++ [mkHandle k v 1])) = Some (mkHandle k v 1).
Proof.
  intros Hc. induction l as [|h l IH]; intros Hl.
  - cbn -[u64]. change (u64 (1 + 0)) with 1%Z. rewrite (proj2 (Z.ltb_ge _ _)) by lia.
    simpl. by rewrite decide_True.
  - apply Forall_cons in Hl as [Hh Hl]. cbn -[u64 total]. destruct (Z.ltb _ _); [by apply IH|].
    simpl. rewrite decide_False by done. clear IH Hh.
    induction l as [|h' l IH]; simpl; [by rewrite decide_True|].
    apply Forall_cons in Hl as [Hh Hl]. rewrite decide_False by done. by apply IH.
Qed.

Lemma drop_key_clean k l : Forall (fun h => h_key h <> k) (drop_key k l).
Proof. induction l as [|h l IH]; simpl; [done|]. case_decide; [done|by constructor]. Qed.

Lemma insert_then_find c k v :
  (1 <= c_capacity c)%Z ->
  find_key k (c_entries (snd (spec_Insert c k v 1))) = Some (mkHandle k v 1).
Proof.
  intros Hc. unfold spec_Insert. rewrite (proj2 (Z.eqb_neq _ _)) by lia. simpl.
  apply find_evict_last; [done|apply drop_key_clean].
Qed.

Lemma represents_new : represents LRUCache_new (mkCache 0 []).
Proof. exists []. split_and!; [apply list_inv_new|apply table_inv_new|done|done]. Qed.

(** C9: the pointer structure implements an LRU cache.  From a new cache, any
    sequence of [SetCapacity], [Lookup], [Insert], [Remove] and [Clear] runs to
    the end (no dangling pointer, no failed assertion, every loop terminates)
    and returns what the specification returns, the list of entries in recency
    order from which the oldest are evicted while the total charge exceeds the
    capacity; and the structure reached represents the specification's state. *)
Theorem lru_cache_refines ops :
  exists s, lru_run LRUCache_new ops = Some (fst (spec_run (mkCache 0 []) ops), s) /\
    represents s (snd (spec_run (mkCache 0 []) ops)).
Proof. apply run_refines, represents_new. Qed.

(** ** Capacity *)

(** [size_t] arguments, and the charges inserted by a sequence. *)
Definition op_ok (op : cache_op) : Prop :=
  match op with
  | OpSetCapacity n => (0 <= n)%Z
  | OpInsert _ _ n => (0 <= n)%Z
  | _ => True
  end.
Fixpoint inserted (ops : list cache_op) : Z :=
  match ops with
  | [] => 0
  | OpInsert _ _ n :: ops => (n + inserted ops)%Z
  | _ :: ops => inserted ops
  end.

Definition charges_ok (l : list LRUHandle) : Prop := Forall (fun h => 0 <= h_charge h)%Z l.

Lemma total_nonneg l : charges_ok l -> (0 <= total l)%Z.
Proof.
  induction l as [|h l IH]; simpl; [lia|]. intros [H1 H2]%Forall_cons. apply IH in H2. lia.
Qed.

Lemma evict_ok capacity l :
  charges_ok l -> (0 <= capacity)%Z -> (total l < 2 ^ 64)%Z ->
  charges_ok (evict capacity l) /\ (total (evict capacity l) <= capacity)%Z /\
  (total (evict capacity l) <= total l)%Z.
Proof.
  intros Hl Hc. induction l as [|h l IH]; simpl; [done|]. intros Hb.
  pose proof (total_nonneg _ Hl) as Hn. simpl in Hn.
  apply Forall_cons in Hl as Hl'. destruct Hl' as [H1 H2].
  rewrite u64_id by (unfold is_u64; lia).
  destruct (Z.ltb_spec capacity (h_charge h + total l)); simpl; [|split_and!; [done|lia|lia]].
  destruct IH as (I1 & I2 & I3); [done|lia|]. split_and!; [done|done|lia].
Qed.

Lemma drop_key_ok k l : charges_ok l -> charges_ok (drop_key k l) /\ (total (drop_key k l) <= total l)%Z.
Proof.
  induction l as [|h l IH]; simpl; [done|]. intros [H1 H2]%Forall_cons.
  destruct (IH H2) as [I1 I2]. case_decide; simpl; split; try lia; [done|by constructor].
Qed.

Lemma find_key_total k l h :
  charges_ok l -> find_key k l = Some h ->
  (0 <= h_charge h)%Z /\ (h_charge h + total (drop_key k l) <= total l)%Z.
Proof.
  induction l as [|h' l IH]; simpl; [done|]. intros [H1 H2]%Forall_cons.
  destruct (decide (h_key h' = k)); simpl.
  - intros [= ->]. destruct (drop_key_ok k l H2). lia.
  - intros H. destruct (IH H2 H). lia.
Qed.

(** The cache is within its capacity, and no total has wrapped so far. *)
Definition within (budget : Z) (c : cache) : Prop :=
  charges_ok (c_entries c) /\ (0 <= c_capacity c)%Z /\
  (total (c_entries c) <= c_capacity c)%Z /\ (total (c_entries c) <= budget)%Z.

Lemma spec_step_within budget c op :
  within budget c -> op_ok op -> (budget + inserted [op] < 2 ^ 64)%Z ->
  within (budget + inserted [op]) (snd (spec_step c op)).
Proof.
  intros (Hl & Hc & Ht & Hb) Hop Hbd. destruct op as [n|k|k v n|k|]; simpl in *.
  - destruct (evict_ok n (c_entries c)) as (? & ? & ?); [done|done|lia|].
    split_and!; simpl; [done|done|done|lia].
  - unfold spec_Lookup. destruct (find_key k (c_entries c)) as [h|] eqn:E; simpl.
    + destruct (find_key_total _ _ _ Hl E). destruct (drop_key_ok k _ Hl).
      split_and!; simpl; rewrite ?total_app; simpl; try lia. apply Forall_app. by repeat constructor.
    + split_and!; simpl; try done; lia.
  - unfold spec_Insert. destruct (Z.eqb (c_capacity c) 0); simpl.
    + split_and!; simpl; try done; lia.
    + destruct (drop_key_ok k _ Hl) as [D1 D2].
      destruct (evict_ok (c_capacity c) (drop_key k (c_entries c) ++ [mkHandle k v n]))
        as (? & ? & E); [apply Forall_app; by repeat constructor|done|rewrite total_app; simpl; lia|].
      rewrite (total_app (drop_key k (c_entries c))) in E. simpl in E.
      split_and!; simpl; [done|done|done|lia].
  - unfold spec_Remove. destruct (find_key k (c_entries c)); simpl.
    + destruct (drop_key_ok k _ Hl). split_and!; simpl; try done; lia.
    + split_and!; simpl; try done; lia.
  - pose proof (total_nonneg _ Hl). split_and!; simpl; [constructor|lia..].
Qed.

Lemma inserted_cons op ops : inserted (op :: ops) = (inserted [op] + inserted ops)%Z.
Proof. destruct op; simpl; lia. Qed.

Lemma inserted_nonneg ops : Forall op_ok ops -> (0 <= inserted ops)%Z.
Proof.
  induction ops as [|op ops IH]; [simpl; lia|]. intros [H1 H2]%Forall_cons.
  apply IH in H2. destruct op; simpl in *; lia.
Qed.

Lemma spec_run_within ops : forall budget c,
  within budget c -> Forall op_ok ops -> (budget + inserted ops < 2 ^ 64)%Z ->
  within (budget + inserted ops) (snd (spec_run c ops)).
Proof.
  induction ops as [|op ops IH]; intros budget c Hw Hops Hb; cbn [spec_run].
  - simpl. by rewrite Z.add_0_r.
  - apply Forall_cons in Hops as [Hop Hops]. pose proof (inserted_nonneg _ Hops).
    rewrite inserted_cons in Hb |- *.
    pose proof (spec_step_within budget c op Hw Hop ltac:(lia)) as H1.
    destruct (spec_step c op) as [o c1]. cbn [snd] in H1.
    specialize (IH _ _ H1 Hops ltac:(lia)). destruct (spec_run c1 ops) as [os c'].
    rewrite Z.add_assoc. done.
Qed.

Lemma table_inv_size t l : table_inv t l -> size t = length l.
Proof.
  intros [Hnd Ht]. set (kl := (fun p => (h_key p.2, p.1)) <$> l).
  assert (Hk : NoDup kl.*1) by (unfold kl; by rewrite <- !list_fmap_compose in *).
  transitivity (length kl); [|apply length_fmap].
  rewrite <- (map_size_list_to_map kl Hk). f_equal. apply map_eq. intros k. apply option_eq.
  intros a. rewrite Ht, <- elem_of_list_to_map by done. unfold kl.
  rewrite list_elem_of_fmap. split.
  - intros (h & Hin & <-). by exists (a, h).
  - intros ([b h] & [= -> ->] & Hin). by exists h.
Qed.

(** the cache never exceeds its capacity: after any sequence of operations
    whose charges sum to less than 2^64 (every caller charges 1), [usage_] is
    at most [capacity_] and [size_] is the number of entries. *)
Theorem lru_capacity_respected ops :
  Forall op_ok ops -> (inserted ops < 2 ^ 64)%Z ->
  exists outs s, lru_run LRUCache_new ops = Some (outs, s) /\
    (0 <= LRUCache_TotalCharge s <= LRUCache_Capacity s)%Z /\
    LRUCache_Size s = u64 (Z.of_nat (size (table_ s))).
Proof.
  intros Hops Hb. destruct (run_refines ops _ _ represents_new) as (s & HR & l & Hl & Ht & Hc & E).
  pose proof (spec_run_within ops 0 (mkCache 0 [])) as HW.
  destruct HW as (Hok & Hcap & Htot & Hbud); [split_and!; simpl; [constructor|lia..]|done|lia|].
  eexists _, s. split; [exact HR|]. unfold LRUCache_TotalCharge, LRUCache_Capacity, LRUCache_Size.
  rewrite (li_usage _ _ Hl), (li_size _ _ Hl), Hc, E.
  pose proof (total_nonneg _ Hok). rewrite u64_id by (unfold is_u64; lia).
  split; [lia|]. by rewrite (table_inv_size _ _ Ht).
Qed.

End LRU.

Arguments LRUHandle : clear implicits.
Arguments LRUCache _ _ {_ _}.
Arguments cache_op : clear implicits.

(** An eviction: capacity 2, three inserts with a lookup in between. *)
Definition sample_ops : list (cache_op nat nat) :=
  [OpSetCapacity 2; OpInsert 1 10 1; OpInsert 2 20 1; OpLookup 1; OpInsert 3 30 1; OpLookup 2].

Lemma lru_capacity_respected_witness :
  exists outs s, lru_run LRUCache_new sample_ops = Some (outs, s) /\
    (0 <= LRUCache_TotalCharge s <= LRUCache_Capacity s)%Z /\
    LRUCache_Size s = u64 (Z.of_nat (size (table_ s))).
Proof.
  apply (lru_capacity_respected sample_ops).
  - repeat constructor; simpl; lia.
  - simpl. lia.
Defined.
