(* ===== verification/Redis.v ===== *)
(** * The state of a [Redis] instance and its helpers

    Models the parts of [src/src/storage/src/redis.h] and [redis.cc] that the
    type-specific commands share: the type and staleness tests on meta values,
    the key statistics that trigger small compactions, and the scan cursor
    store; and [Storage::AddBGTask] of [storage.cc].

    A command is a state transformer [M A]; [None] is undefined behaviour or
    an exception.  Commands run under their record locks one at a time, which
    the state-passing style expresses; the locks themselves are not modelled.
    The clock is read once per command ([now], milliseconds). *)

From S2P Require Import Prelude Coding Numbers KeyFormat Comparator ValueFormat RocksDB LruCache.
Open Scope Z_scope.

(** ** Key statistics ([Redis::KeyStatistics]) *)

Record KeyStatistics := mkKeyStatistics {
  window_size : nat;
  durations : list Z;
  modify_count : Z
}.

(** [KeyStatistics()] is [KeyStatistics(10)]. *)
Definition KeyStatistics_new : KeyStatistics := mkKeyStatistics (10 + 2) [] 0.

(** [push_back], then [pop_front] while longer than the window. *)
Definition AddDuration (st : KeyStatistics) (duration : Z) : KeyStatistics :=
  let d := durations st ++ [duration] in
  mkKeyStatistics (window_size st) (drop (length d - window_size st) d) (modify_count st).

Definition AvgDuration (st : KeyStatistics) : Z :=
  if Nat.ltb (length (durations st)) (window_size st) then 0
  else
    let d0 := nth 0 (durations st) 0 in
    let '(min, max, sum) :=
      fold_left (fun acc duration =>
        let '(min, max, sum) := acc in
        (if duration <? min then duration else min,
         if max <? duration then duration else max,
         u64 (sum + duration))) (durations st) (d0, d0, 0) in
    u64 (sum - max - min) / Z.of_nat (length (durations st) - 2).

Definition AddModifyCount (st : KeyStatistics) (count : Z) : KeyStatistics :=
  mkKeyStatistics (window_size st) (durations st) (u64 (modify_count st + count)).

(** ** Background tasks ([storage.h], [storage.cc]) *)

Inductive Operation := kNone | kCleanAll | kCompactRange | kCompactOldestOrBestDeleteRatioSst.

Record BGTask := mkBGTask {
  task_type : DataType; task_operation : Operation; task_argv : list bytes
}.

(** A task on all types replaces the queue. *)
Definition AddBGTask (queue : list BGTask) (bg_task : BGTask) : list BGTask :=
  let queue := if decide (task_type bg_task = kAll) then [] else queue in
  queue ++ [bg_task].

(** ** Results shared by the types *)

(** [*ttl_millsec = Etime()] and the computation that follows it; [int64_t]. *)
Definition ttl_of (now etime : Z) : Z :=
  let ttl_millsec := i64 etime in
  if ttl_millsec =? 0 then -1
  else if 0 <=? u64 (ttl_millsec - now) then i64 (u64 (ttl_millsec - now)) else -2.

(** The text [Int64ToStr] leaves in a zeroed buffer of 32 bytes. *)
Definition Int64ToStr32 (value : Z) : option bytes :=
  '(_, buf) ← ll2string (replicate 32 x00) 32 value;
  Some (c_str buf).

(** [struct KeyInfo] of [storage.h]. *)
Record KeyInfo := mkKeyInfo { keys : Z; expires : Z; avg_ttl : Z; invaild_keys : Z }.

(** ** Instance state *)

Section Redis.
Context {R : RocksDB} {U : Uninit}.

Record Redis := mkRedis {
  db_ : DB;
  statistics_store_ : LRUCache bytes KeyStatistics;
  scan_cursors_store_ : LRUCache bytes bytes;
  small_compaction_threshold_ : Z;
  small_compaction_duration_threshold_ : Z;
  bg_tasks_queue_ : list BGTask
}.

Definition with_db (r : Redis) (db : DB) : Redis :=
  mkRedis db (statistics_store_ r) (scan_cursors_store_ r) (small_compaction_threshold_ r)
    (small_compaction_duration_threshold_ r) (bg_tasks_queue_ r).
Definition with_statistics (r : Redis) (st : LRUCache bytes KeyStatistics) : Redis :=
  mkRedis (db_ r) st (scan_cursors_store_ r) (small_compaction_threshold_ r)
    (small_compaction_duration_threshold_ r) (bg_tasks_queue_ r).
Definition with_cursors (r : Redis) (cs : LRUCache bytes bytes) : Redis :=
  mkRedis (db_ r) (statistics_store_ r) cs (small_compaction_threshold_ r)
    (small_compaction_duration_threshold_ r) (bg_tasks_queue_ r).
Definition with_tasks (r : Redis) (q : list BGTask) : Redis :=
  mkRedis (db_ r) (statistics_store_ r) (scan_cursors_store_ r) (small_compaction_threshold_ r)
    (small_compaction_duration_threshold_ r) q.

(** [Redis::Redis], with the database [Open] attaches. *)
Definition Redis_new (db : DB) : option Redis :=
  cs ← LRUCache_SetCapacity LRUCache_new 5000;
  Some (mkRedis db LRUCache_new cs 5000 10000 []).

(** ** Commands as state transformers *)

Definition M (A : Type) : Type := Redis -> option (A * Redis).
Definition ret {A} (a : A) : M A := fun r => Some (a, r).
Definition bind {A B} (m : M A) (f : A -> M B) : M B :=
  fun r => match m r with Some (a, r) => f a r | None => None end.
(** A computation that may be undefined, and a fold over the state. *)
Definition lift {A} (o : option A) : M A := fun r => match o with Some a => Some (a, r) | None => None end.
Definition gets {A} (f : Redis -> A) : M A := fun r => Some (f r, r).

(** [db_->Get], [db_->Write], [db_->Put] and [db_->Delete] *)
Definition Get (cf : ColumnFamilyIndex) (key : bytes) : M (Status * bytes) :=
  fun r => Some (db_Get (db_ r) cf key, r).
Definition Write (batch : list WriteOp) : M Status :=
  fun r => let '(s, db) := db_Write (db_ r) batch in Some (s, with_db r db).

(** ** Meta value tests ([redis.h]) *)

(** [meta_value[0]]; an empty string has its terminator there. *)
Definition GetMetaValueType (meta_value : bytes) : DataType :=
  DataType_of_byte (nth 0 meta_value x00).

Definition ExpectedMetaValue (type : DataType) (meta_value : bytes) : bool :=
  bool_decide (type = GetMetaValueType meta_value).

(** For streams the source tests a default-constructed [StreamMetaValue], whose
    length is 0. *)
Definition ExpectedStale (now : Z) (meta_value : bytes) : option bool :=
  match GetMetaValueType meta_value with
  | kZSets | kSets | kHashes =>
      p ← ParsedBaseMetaValue_parse false meta_value;
      Some (IsStale now (pbm_base p) || Z.eqb (pbm_count p) 0)
  | kLists =>
      p ← ParsedListsMetaValue_parse false meta_value;
      Some (IsStale now (plm_base p) || Z.eqb (plm_count p) 0)
  | kStrings => Some (IsStale now (ParsedStringsValue false meta_value))
  | kStreams => let stream_meta_value_length := 0 in Some (Z.eqb stream_meta_value_length 0)
  | _ => Some false
  end.

(** [DataTypeStrings[static_cast<int>(type)]]; [None] past the array. *)
Definition type_string (type : DataType) : option bytes :=
  DataTypeStrings !! Z.to_nat (Z_of_byte (byte_of_DataType type)).

(** The words of the message; zsets and streams have their own. *)
Definition type_words (type : DataType) : bytes * bytes :=
  match type with
  | kZSets | kStreams => (lit ", expected type: ", lit ", got type: ")
  | _ => (lit ", expect type: ", lit ", get type: ")
  end.

(** The status of a command run on a key of another type. *)
Definition WrongTypeIn (words : bytes * bytes) (key : bytes) (type : DataType) (meta_value : bytes)
    : option Status :=
  expect ← type_string type;
  get ← type_string (GetMetaValueType meta_value);
  let '(expected, got) := words in
  Some (Status_InvalidArgument (lit "WRONGTYPE, key: " ++ key ++ expected ++ expect ++ got ++ get)).
Definition WrongType (key : bytes) (type : DataType) : bytes -> option Status :=
  WrongTypeIn (type_words type) key type.

(** How every typed command starts: read the meta value and test its type.
    [inl] is an early return; a stale value of another type counts as not
    found.  [wrong] is the status for a live value of another type. *)
Definition GetMetaOr (wrong : bytes -> option Status) (now : Z) (type : DataType) (key : bytes)
    : M (Status + Status * bytes) :=
  fun r =>
  let '(s, meta_value) := db_Get (db_ r) kMetaCF (BaseKey_Encode key) in
  if ok s && negb (ExpectedMetaValue type meta_value) then
    match ExpectedStale now meta_value with
    | None => None
    | Some true => Some (inr (Status_NotFound [], meta_value), r)
    | Some false =>
        match wrong meta_value with
        | Some st => Some (inl st, r)
        | None => None
        end
    end
  else Some (inr (s, meta_value), r).

(** [named] is the key the message names. *)
Definition GetMeta (now : Z) (type : DataType) (key named : bytes) : M (Status + Status * bytes) :=
  GetMetaOr (WrongType named type) now type key.

(** The same when the caller may pass the meta value it has read. *)
Definition GetMetaOrPrefetched (now : Z) (type : DataType) (key prefetch_meta : bytes)
    : M (Status + Status * bytes) :=
  match prefetch_meta with
  | [] => GetMeta now type key key
  | _ => ret (inr (Status_OK, prefetch_meta))
  end.

(** ** Statistics ([redis.cc]) *)

Definition type_tag (type : DataType) : option byte :=
  DataTypeTag !! Z.to_nat (Z_of_byte (byte_of_DataType type)).

Definition AddCompactKeyTaskIfNeeded (dtype : DataType) (key : bytes) (total duration : Z)
    : M Status :=
  fun r =>
  if (total <? small_compaction_threshold_ r) ||
     (duration <? small_compaction_duration_threshold_ r)
  then Some (Status_OK, r)
  else
    tag ← type_tag dtype;
    let lkp_key := tag :: key in
    let r := with_tasks r (AddBGTask (bg_tasks_queue_ r) (mkBGTask dtype kCompactRange [key])) in
    '(_, st) ← LRUCache_Remove (statistics_store_ r) lkp_key;
    Some (Status_OK, with_statistics r st).

(** Looks the statistics of a key up, changes them and stores them back. *)
Definition update_statistics (dtype : DataType) (key : bytes)
    (f : KeyStatistics -> KeyStatistics) : M KeyStatistics :=
  fun r =>
  tag ← type_tag dtype;
  let lkp_key := tag :: key in
  '(_, found, st) ← LRUCache_Lookup (statistics_store_ r) lkp_key;
  let data := f (default KeyStatistics_new found) in
  '(_, st) ← LRUCache_Insert st lkp_key data 1;
  Some (data, with_statistics r st).

Definition UpdateSpecificKeyStatistics (dtype : DataType) (key : bytes) (count : Z) : M Status :=
  fun r =>
  if negb (LRUCache_Capacity (statistics_store_ r) =? 0) && negb (count =? 0) &&
     negb (small_compaction_threshold_ r =? 0)
  then
    '(data, r) ← update_statistics dtype key (fun data => AddModifyCount data count) r;
    '(_, r) ← AddCompactKeyTaskIfNeeded dtype key (modify_count data) (AvgDuration data) r;
    Some (Status_OK, r)
  else Some (Status_OK, r).

Definition UpdateSpecificKeyDuration (dtype : DataType) (key : bytes) (duration : Z) : M Status :=
  fun r =>
  if negb (LRUCache_Capacity (statistics_store_ r) =? 0) && negb (duration =? 0) &&
     negb (small_compaction_duration_threshold_ r =? 0)
  then
    '(data, r) ← update_statistics dtype key (fun data => AddDuration data duration) r;
    '(_, r) ← AddCompactKeyTaskIfNeeded dtype key (modify_count data) (AvgDuration data) r;
    Some (Status_OK, r)
  else Some (Status_OK, r).

Definition SetMaxCacheStatisticKeys (max_cache_statistic_keys : Z) : M Status :=
  fun r =>
  st ← LRUCache_SetCapacity (statistics_store_ r) max_cache_statistic_keys;
  Some (Status_OK, with_statistics r st).

(** ** Scan cursors ([redis.cc]) *)

(** [std::to_string] of an [int64_t]. *)
Definition to_string (z : Z) : bytes := decimal z.

Definition scan_index_key (type : DataType) (key pattern : bytes) (cursor : Z) : option bytes :=
  tag ← type_tag type;
  Some ([tag] ++ lit "_" ++ key ++ lit "_" ++ pattern ++ lit "_" ++ to_string cursor).

Definition GetScanStartPoint (type : DataType) (key pattern : bytes) (cursor : Z)
    : M (Status * option bytes) :=
  fun r =>
  index_key ← scan_index_key type key pattern cursor;
  '(s, start_point, cs) ← LRUCache_Lookup (scan_cursors_store_ r) index_key;
  Some ((s, start_point), with_cursors r cs).

Definition StoreScanNextPoint (type : DataType) (key pattern : bytes) (cursor : Z)
    (next_point : bytes) : M Status :=
  fun r =>
  index_key ← scan_index_key type key pattern cursor;
  '(s, cs) ← LRUCache_Insert (scan_cursors_store_ r) index_key next_point 1;
  Some (s, with_cursors r cs).

End Redis.

Arguments M {R} _.

Declare Scope cmd_scope.
Delimit Scope cmd_scope with cmd.
Notation "'let*' x := m 'in' k" := (bind m (fun x => k))
  (at level 200, x binder, m at level 100, k at level 200) : cmd_scope.
Notation "'let*' ' p := m 'in' k" := (bind m (fun p => k))
  (at level 200, p strict pattern, m at level 100, k at level 200) : cmd_scope.
Open Scope cmd_scope.

(** ** Numbers as text *)

Lemma Int64ToStr32_decimal z : is_i64 z -> Int64ToStr32 z = Some (decimal z).
Proof.
  intros Hz. unfold Int64ToStr32. pose proof (decimal_length z Hz).
  rewrite ll2string_writes by (done || rewrite length_replicate; lia). simpl.
  by rewrite c_str_app by (by apply c_str_decimal).
Qed.

(** ** The helpers leave the database alone and never fail *)

Section RedisFacts.
Context {R : RocksDB}.

Definition stats_ok (r : Redis) : Prop := exists c, represents (statistics_store_ r) c.

(** Everything but the statistics and the background queue is the same. *)
Definition same_data (r r' : Redis) : Prop :=
  db_ r' = db_ r /\ scan_cursors_store_ r' = scan_cursors_store_ r /\
  small_compaction_threshold_ r' = small_compaction_threshold_ r /\
  small_compaction_duration_threshold_ r' = small_compaction_duration_threshold_ r.

#[export] Instance same_data_trans : Transitive same_data.
Proof. unfold same_data. intros r1 r2 r3. intuition congruence. Qed.

(** Reading the state, and a computation that is defined. *)
Lemma bind_gets {A B} (f : Redis -> A) (k : A -> M B) r : bind (gets f) k r = k (f r) r.
Proof. done. Qed.
Lemma bind_lift {A B} (o : option A) a (k : A -> M B) r : o = Some a -> bind (lift o) k r = k a r.
Proof. by intros ->. Qed.
Lemma bind_run {A B} (m : M A) a (k : A -> M B) r r' : m r = Some (a, r') -> bind m k r = k a r'.
Proof. unfold bind. by intros ->. Qed.

Lemma update_statistics_ok dtype key f r :
  type_tag dtype <> None -> stats_ok r ->
  exists data r', update_statistics dtype key f r = Some (data, r') /\ same_data r r' /\ stats_ok r'.
Proof.
  intros Ht (c & Hc). unfold update_statistics. destruct (type_tag dtype) as [tag|]; [|done]. simpl.
  destruct (Lookup_refines _ _ (tag :: key) Hc) as (s1 & -> & H1).
  destruct (spec_Lookup c (tag :: key)) as [[st found] c1]. simpl in *.
  set (data := f (default KeyStatistics_new found)).
  destruct (Insert_refines _ _ (tag :: key) data 1 H1) as (s2 & -> & H2).
  destruct (spec_Insert c1 (tag :: key) data 1) as [st2 c2]. simpl in *.
  eexists _, _. split; [done|]. split; [done|]. by exists c2.
Qed.

Lemma AddCompactKeyTaskIfNeeded_ok dtype key total duration r :
  type_tag dtype <> None -> stats_ok r ->
  exists r', AddCompactKeyTaskIfNeeded dtype key total duration r = Some (Status_OK, r') /\
    same_data r r' /\ stats_ok r'.
Proof.
  intros Ht (c & Hc). unfold AddCompactKeyTaskIfNeeded. destruct (_ || _).
  - exists r. split; [done|]. split; [done|]. by exists c.
  - destruct (type_tag dtype) as [tag|]; [|done]. simpl.
    destruct (Remove_refines _ _ (tag :: key) Hc) as (s1 & -> & H1).
    destruct (spec_Remove c (tag :: key)) as [st c1]. simpl in *.
    eexists. split; [done|]. split; [done|]. by exists c1.
Qed.

Lemma UpdateSpecificKeyStatistics_ok dtype key count r :
  type_tag dtype <> None -> stats_ok r ->
  exists r', UpdateSpecificKeyStatistics dtype key count r = Some (Status_OK, r') /\
    same_data r r' /\ stats_ok r'.
Proof.
  intros Ht Hs. unfold UpdateSpecificKeyStatistics. destruct (_ && _); [|by exists r].
  destruct (update_statistics_ok dtype key (fun data => AddModifyCount data count) r Ht Hs)
    as (data & r1 & -> & S1 & Hs1). simpl.
  destruct (AddCompactKeyTaskIfNeeded_ok dtype key (modify_count data) (AvgDuration data) r1 Ht Hs1)
    as (r2 & -> & S2 & Hs2). simpl.
  exists r2. split; [done|]. split; [by etransitivity|done].
Qed.

Lemma UpdateSpecificKeyDuration_ok dtype key duration r :
  type_tag dtype <> None -> stats_ok r ->
  exists r', UpdateSpecificKeyDuration dtype key duration r = Some (Status_OK, r') /\
    same_data r r' /\ stats_ok r'.
Proof.
  intros Ht Hs. unfold UpdateSpecificKeyDuration. destruct (_ && _); [|by exists r].
  destruct (update_statistics_ok dtype key (fun data => AddDuration data duration) r Ht Hs)
    as (data & r1 & -> & S1 & Hs1). simpl.
  destruct (AddCompactKeyTaskIfNeeded_ok dtype key (modify_count data) (AvgDuration data) r1 Ht Hs1)
    as (r2 & -> & S2 & Hs2). simpl.
  exists r2. split; [done|]. split; [by etransitivity|done].
Qed.

Lemma Redis_new_ok db : exists r, Redis_new db = Some r /\ db_ r = db /\ stats_ok r.
Proof.
  unfold Redis_new. destruct (SetCapacity_refines (K:=bytes) (V:=bytes) LRUCache_new (mkCache 0 []) 5000
    represents_new)
    as (s & -> & _). eexists. split; [done|]. split; [done|]. eexists. apply represents_new.
Qed.

End RedisFacts.
