(* ===== verification/KeySpace.v ===== *)
(** * Keys and their meta values

    Every key of the engine has one entry in the meta column family, whose
    first byte is the type of its value.  This file relates the entry to what
    a typed command sees when it starts ([GetMeta]), and says what a write to
    one key leaves of the others.

    Theorems about commands share these hypotheses: the database is healthy,
    the key is one that [EncodeUserKey] encodes faithfully ([key_ok]), and the
    clock is below 2^63 milliseconds. *)

From S2P Require Import Prelude Coding KeyFormat Comparator ValueFormat RocksDB LruCache Redis.
Open Scope Z_scope.

Definition clock_ok (now : Z) : Prop := 0 <= now < 2 ^ 63.

Lemma clock_u64 now : clock_ok now -> is_u64 now.
Proof. unfold clock_ok, is_u64. lia. Qed.

(** ** Expiry times *)

(** A time that has passed; 0 is no time. *)
Definition stale (now e : Z) : bool := negb (e =? 0) && (e <? now).

Lemma IsStale_stale now p : IsStale now p = stale now (piv_etime p).
Proof. unfold IsStale, stale. by destruct (_ =? 0). Qed.

(** The remaining lifetime of a value that is not stale. *)
Lemma ttl_live now e :
  clock_ok now -> stale now e = false -> is_i64 e ->
  ttl_of now e = if e =? 0 then -1 else e - now.
Proof.
  unfold stale, ttl_of, clock_ok, is_i64. intros Hnow Hs He.
  destruct (Z.eqb_spec e 0) as [->|Hz]; [done|]. simpl in Hs.
  apply Z.ltb_ge in Hs. rewrite (i64_id e) by lia.
  rewrite (proj2 (Z.eqb_neq _ 0) Hz), u64_id by (unfold is_u64; lia).
  rewrite (proj2 (Z.leb_le 0 _)) by lia. apply i64_id. lia.
Qed.

(** What the user stored in a data entry. *)
Definition user_value (v : bytes) : bytes := UserValue (ParsedBaseDataValue false v).

Section KeySpace.
Context {R : RocksDB} {L : RocksDBLaws R} {U : Uninit}.

Definition meta_of (db : DB) (key : bytes) : option bytes :=
  db_lookup db kMetaCF (BaseKey_Encode key).

Definition engine_ok (r : Redis) : Prop := healthy (db_ r) /\ stats_ok r.

Lemma BaseKey_eq k key :
  key_ok key = true -> key_ok k = true ->
  bytes_compare (BaseKey_Encode k) (BaseKey_Encode key) = Eq <-> k = key.
Proof. intros K K'. by rewrite BaseKey_compare, bytes_compare_eq by done. Qed.

(** ** How a typed command starts *)

(** A live value of another type under [key], and the status that names it. *)
Definition other_type (type : DataType) (db : DB) (now : Z) (key : bytes) (st : Status) : Prop :=
  exists mv, meta_of db key = Some mv /\ GetMetaValueType mv <> type /\
    ExpectedStale now mv = Some false /\ WrongType key type mv = Some st.

(** Nothing under [key], or a stale value of another type. *)
Definition gone (type : DataType) (db : DB) (now : Z) (key : bytes) : Prop :=
  meta_of db key = None \/
  exists mv, meta_of db key = Some mv /\ GetMetaValueType mv <> type /\ ExpectedStale now mv = Some true.

Lemma GetMeta_typed now type key named mv r :
  healthy (db_ r) -> meta_of (db_ r) key = Some mv -> GetMetaValueType mv = type ->
  GetMeta now type key named r = Some (inr (Status_OK, mv), r).
Proof.
  intros Hdb Hm Ht. unfold GetMeta, GetMetaOr. rewrite Get_lookup by done. unfold meta_of in Hm. rewrite Hm.
  unfold ExpectedMetaValue. rewrite bool_decide_eq_true_2 by done. done.
Qed.

Lemma GetMeta_gone now type key named r :
  healthy (db_ r) -> gone type (db_ r) now key ->
  GetMeta now type key named r =
  Some (inr (Status_NotFound [], default [] (meta_of (db_ r) key)), r).
Proof.
  intros Hdb Hg. unfold GetMeta, GetMetaOr. rewrite Get_lookup by done. unfold gone, meta_of in *.
  destruct Hg as [Hm|(mv & Hm & Ht & Hs)]; rewrite Hm; [done|].
  unfold ExpectedMetaValue. rewrite bool_decide_eq_false_2 by congruence. simpl. by rewrite Hs.
Qed.

Lemma GetMeta_other type now key st r :
  healthy (db_ r) -> other_type type (db_ r) now key st ->
  GetMeta now type key key r = Some (inl st, r).
Proof.
  intros Hdb (mv & Hm & Ht & Hs & Hw). unfold GetMeta, GetMetaOr. rewrite Get_lookup by done.
  unfold meta_of in Hm. rewrite Hm. change (ok Status_OK) with true.
  unfold ExpectedMetaValue. rewrite bool_decide_eq_false_2 by congruence. simpl.
  by rewrite Hs, Hw.
Qed.

Lemma bind_GetMeta_other {A} type now key st r (f : Status + Status * bytes -> M A) :
  healthy (db_ r) -> other_type type (db_ r) now key st ->
  bind (GetMeta now type key key) f r = f (inl st) r.
Proof. intros Hdb Ho. by apply bind_run, GetMeta_other. Qed.

(** The caller passes nothing or the meta value stored. *)
Definition prefetched (db : DB) (key prefetch_meta : bytes) : Prop :=
  prefetch_meta = [] \/ meta_of db key = Some prefetch_meta.

Lemma GetMetaOrPrefetched_typed now type key pm mv r :
  healthy (db_ r) -> meta_of (db_ r) key = Some mv -> GetMetaValueType mv = type ->
  prefetched (db_ r) key pm ->
  GetMetaOrPrefetched now type key pm r = Some (inr (Status_OK, mv), r).
Proof.
  intros Hdb Hm Ht Hpm. destruct pm as [|x pm]; [by apply GetMeta_typed|].
  destruct Hpm as [?|Hpm]; [done|]. rewrite Hm in Hpm. injection Hpm as ->. done.
Qed.

(** ** Writing one meta value *)

(** Nothing but the meta value of [key] has changed. *)
Definition only_meta (key : bytes) (db db' : DB) : Prop :=
  (forall k, key_ok k = true -> k <> key -> meta_of db' k = meta_of db k) /\
  (forall cf k, cf <> kMetaCF -> cf <> kZsetsScoreCF -> db_lookup db' cf k = db_lookup db cf k).

(** What an operation on the meta value of [key] leaves there. *)
Definition meta_op (key : bytes) (o : option bytes) : WriteOp :=
  match o with
  | Some v => Put kMetaCF (BaseKey_Encode key) v
  | None => Delete kMetaCF (BaseKey_Encode key)
  end.

Lemma Write_meta key o r :
  key_ok key = true -> engine_ok r ->
  exists r', Write [meta_op key o] r = Some (Status_OK, r') /\ engine_ok r' /\
    meta_of (db_ r') key = o /\ only_meta key (db_ r) (db_ r').
Proof.
  intros K [Hdb Hst]. destruct (Write_lookup (db_ r) [meta_op key o] Hdb) as (db' & HW & Hdb' & HL).
  exists (with_db r db'). unfold Write. rewrite HW. split; [done|]. split; [done|].
  unfold meta_of, only_meta. split_and!.
  - simpl. rewrite HL by done. destruct o; simpl; by rewrite bytes_compare_refl.
  - intros k K' N. unfold meta_of. simpl. rewrite HL by done.
    pose proof (BaseKey_eq k key K K') as E. destruct o; simpl;
      destruct (bytes_compare (BaseKey_Encode k) (BaseKey_Encode key)); try done; tauto.
  - intros cf k N1 N2. simpl. rewrite HL by done. destruct o; simpl; by rewrite decide_False by congruence.
Qed.

End KeySpace.
