(* ===== verification/Random.v ===== *)
(** * The random engine

    SPOP and SRANDMEMBER draw positions from [std::default_random_engine],
    whose algorithm the C++ library chooses.  [RandomEngine] is what they use of
    it and [RandomEngineLaws] what they need: whatever the seed, the draws keep
    hitting every residue below the sizes a set can have, whether the engine
    goes on or is seeded again with its last draw, and shuffling permutes.

    [minstd_rand0] is the engine of libstdc++: the linear congruential
    generator with multiplier 16807 modulo the prime 2^31 - 1.  It has the laws
    because 16807 is a primitive root of that prime. *)

From Stdlib Require Import Znumtheory Zpow_facts.
From S2P Require Import Prelude.
Open Scope Z_scope.

Class RandomEngine := {
  engine : Type;
  engine_new : engine;
  (** [e.seed(s)] *)
  seed : Z -> engine;
  (** [e()] *)
  draw : engine -> Z * engine;
  (** [std::shuffle(first, last, e)] *)
  shuffle : forall A : Type, engine -> list A -> list A
}.
Arguments shuffle {_ A}.

Section Engine.
Context {E : RandomEngine}.

(** The [n]th draw of an engine. *)
Fixpoint nth_draw (n : nat) (e : engine) : Z :=
  match n with O => fst (draw e) | S n => nth_draw n (snd (draw e)) end.

(** [n] times: seed the engine with the last draw and draw. *)
Fixpoint reseeded (n : nat) (s : Z) : Z :=
  match n with O => s | S n => reseeded n (fst (draw (seed s))) end.

(** The sizes below which every position can be drawn. *)
Definition draw_limit : Z := 2 ^ 31 - 1.

Class RandomEngineLaws := {
  draw_range e : 0 <= fst (draw e) < 2 ^ 64;
  draws_cover s k m t : 0 <= t < m -> m < draw_limit ->
    exists n, (k <= n)%nat /\ nth_draw n (seed s) mod m = t;
  reseeds_cover s k m t : 0 <= t < m -> m < draw_limit ->
    exists n, (k <= n)%nat /\ reseeded (S n) s mod m = t;
  shuffle_permutes A e (l : list A) : shuffle e l ≡ₚ l
}.

End Engine.
Arguments RandomEngineLaws : clear implicits.

(** ** 16807 is a primitive root *)

Definition minstd_m : Z := 2147483647.
Definition minstd_a : Z := 16807.

Definition pow_a (n : Z) : Z := minstd_a ^ n mod minstd_m.

Lemma pow_a_0 : pow_a 0 = 1.
Proof. reflexivity. Qed.

Lemma pow_a_add i j : 0 <= i -> 0 <= j -> pow_a (i + j) = pow_a i * pow_a j mod minstd_m.
Proof. intros. unfold pow_a. by rewrite Z.pow_add_r, Zmult_mod by done. Qed.

Lemma pow_a_order : pow_a (minstd_m - 1) = 1.
Proof.
  unfold pow_a. rewrite <- Zpow_mod_correct by done. vm_compute. reflexivity.
Qed.

Lemma pow_a_mul i j : 0 <= i -> 0 <= j -> pow_a i = 1 -> pow_a (i * j) = 1.
Proof.
  intros Hi Hj H. unfold pow_a in *. rewrite Z.pow_mul_r, Zpower_mod, H by done.
  by rewrite Z.pow_1_l.
Qed.

(** Exponents on which [pow_a] is 1 are closed under subtraction. *)
Lemma pow_a_sub i j : 0 <= j <= i -> pow_a i = 1 -> pow_a j = 1 -> pow_a (i - j) = 1.
Proof.
  intros H Hi Hj. replace i with ((i - j) + j) in Hi by lia. rewrite pow_a_add, Hj, Z.mul_1_r in Hi by lia.
  unfold pow_a in Hi |- *. by rewrite Zmod_mod in Hi.
Qed.

Lemma pow_a_mod i j : 0 <= i -> 0 < j -> pow_a i = 1 -> pow_a j = 1 -> pow_a (i mod j) = 1.
Proof.
  intros Hi Hj H1 H2. rewrite Z.mod_eq by lia.
  pose proof (Z.mul_div_le i j Hj). assert (0 <= i / j) by (apply Z.div_pos; lia).
  apply pow_a_sub; [nia|done|]. apply pow_a_mul; [lia|done|done].
Qed.

Lemma pow_a_gcd_nat n : forall i j, 0 <= i -> 0 <= j -> i + j <= Z.of_nat n ->
  pow_a i = 1 -> pow_a j = 1 -> pow_a (Z.gcd i j) = 1.
Proof.
  induction n as [|n IH]; intros i j Hi Hj Hn H1 H2.
  - assert (i = 0) as -> by lia. assert (j = 0) as -> by lia. done.
  - destruct (Z.eq_dec i 0) as [->|Ni]; [by rewrite Z.gcd_0_l, Z.abs_eq|].
    destruct (Z.eq_dec j 0) as [->|Nj]; [by rewrite Z.gcd_0_r, Z.abs_eq|].
    destruct (Z.le_ge_cases i j).
    + rewrite <- (Z.gcd_sub_diag_r i j). apply IH; try lia. by apply pow_a_sub.
    + rewrite Z.gcd_comm, <- (Z.gcd_sub_diag_r j i). apply IH; try lia. by apply pow_a_sub.
Qed.

(** The prime factors of the order. *)
Definition order_factors : list Z := [2; 3; 7; 11; 31; 151; 331].

Lemma pow_a_no_smaller : forallb (fun q => negb (pow_a ((minstd_m - 1) / q) =? 1)) order_factors = true.
Proof.
  assert (H : forallb (fun q => negb (Zpow_mod minstd_a ((minstd_m - 1) / q) minstd_m =? 1)) order_factors = true)
    by (vm_compute; reflexivity).
  rewrite forallb_forall in H |- *. intros q Hq. specialize (H q Hq).
  by rewrite Zpow_mod_correct in H.
Qed.

Lemma prime_check p :
  1 < p -> forallb (fun n => Z.gcd (Z.of_nat n) p =? 1) (seq 1 (Z.to_nat p - 1)) = true -> prime p.
Proof.
  intros Hp H. apply prime_intro; [done|]. intros n Hn. rewrite forallb_forall in H.
  apply Zgcd_1_rel_prime, Z.eqb_eq. rewrite <- (Z2Nat.id n) by lia. apply H, in_seq. lia.
Qed.

Lemma order_factors_prime : Forall prime order_factors.
Proof. repeat (constructor; [apply prime_check; [lia|vm_compute; reflexivity]|]). constructor. Qed.

Lemma strip_factor q n h : prime q -> ~ (q | h) -> (h | q * n) -> (h | n).
Proof. intros Hq N H. apply (Gauss h q n); [done|]. by apply rel_prime_sym, prime_rel_prime. Qed.

#[local] Instance divide_decision (q h : Z) : Decision (q | h) := Znumtheory.Zdivide_dec q h.

(** A proper quotient of the order is divided by one of the factors. *)
Lemma order_cofactor h :
  1 < h -> (h | minstd_m - 1) -> Exists (fun q => (q | h)) order_factors.
Proof.
  intros H1 Hh. destruct (decide (Exists (fun q => (q | h)) order_factors)) as [H|H]; [done|exfalso].
  apply not_Exists_Forall in H; [|apply _]. pose proof order_factors_prime as P.
  unfold order_factors in *. rewrite !Forall_cons in H, P. unfold compose in H.
  change (minstd_m - 1) with (2 * (3 * (3 * (7 * (11 * (31 * (151 * (331 * 1)))))))) in Hh.
  repeat (apply strip_factor in Hh; [|tauto|tauto]).
  apply Z.divide_1_r_nonneg in Hh; lia.
Qed.

Lemma pow_a_primitive d : 0 < d < minstd_m - 1 -> pow_a d <> 1.
Proof.
  intros Hd H. set (g := Z.gcd d (minstd_m - 1)).
  assert (Hg : pow_a g = 1).
  { apply (pow_a_gcd_nat (Z.to_nat (d + (minstd_m - 1)))); [lia|unfold minstd_m; lia| |done|apply pow_a_order].
    rewrite Z2Nat.id; unfold minstd_m; lia. }
  assert (Hgd : (g | d)) by apply Z.gcd_divide_l. destruct (Z.gcd_divide_r d (minstd_m - 1)) as [h Hh].
  fold g in Hh. assert (0 <= g) by apply Z.gcd_nonneg.
  assert (g <= d) by (apply Z.divide_pos_le; [lia|done]). clearbody g.
  assert (0 < g) by (destruct (Z.eq_dec g 0) as [->|]; [rewrite Z.mul_0_r in Hh; discriminate Hh|lia]).
  assert (Hcof : Exists (fun q => (q | h)) order_factors).
  { apply order_cofactor; [unfold minstd_m in *; nia|]. exists g. lia. }
  apply Exists_exists in Hcof as (q & Hq & h' & ->).
  pose proof pow_a_no_smaller as F. rewrite forallb_forall in F.
  specialize (F q (proj1 (list_elem_of_In _ _) Hq)). pose proof order_factors_prime as P.
  rewrite Forall_forall in P. destruct (P q Hq) as [Hq1 _].
  rewrite Hh in F. replace (h' * q * g) with (g * h' * q) in F by lia. rewrite Z.div_mul in F by lia.
  rewrite pow_a_mul in F; [done|lia| |done]. unfold minstd_m in *. nia.
Qed.

(** [n] different values among 1 to [n] are all of them. *)
Lemma pigeonhole (n : nat) (f : nat -> Z) :
  (forall i j, (i < j < n)%nat -> f i <> f j) -> (forall i, (i < n)%nat -> 1 <= f i <= Z.of_nat n) ->
  forall y, 1 <= y <= Z.of_nat n -> exists i, (i < n)%nat /\ f i = y.
Proof.
  intros Hinj Hrange y Hy. set (l' := map Z.of_nat (seq 1 n)).
  assert (Hl' : forall z, List.In z l' <-> 1 <= z <= Z.of_nat n).
  { intros z. unfold l'. rewrite in_map_iff. split.
    - intros (i & <- & Hi%in_seq). lia.
    - intros Hz. exists (Z.to_nat z). rewrite in_seq. lia. }
  assert (H : List.In y (map f (seq 0 n))).
  { apply (NoDup_length_incl (l:=map f (seq 0 n)) (l':=l')); [|unfold l'; rewrite !length_map, !length_seq; lia| |by apply Hl'].
    - apply NoDup_map_NoDup_ForallPairs; [|apply seq_NoDup].
      intros i j Hi%in_seq Hj%in_seq E. destruct (Nat.lt_trichotomy i j) as [Hlt|[->|Hlt]]; [|done|].
      + by destruct (Hinj i j ltac:(lia)).
      + by destruct (Hinj j i ltac:(lia)).
    - intros z (i & <- & Hi%in_seq)%in_map_iff. apply Hl', Hrange. lia. }
  apply in_map_iff in H as (i & E & Hi%in_seq). exists i. split; [lia|done].
Qed.

Lemma pow_a_cancel i j : 0 <= i < j -> j < minstd_m - 1 -> pow_a i <> pow_a j.
Proof.
  intros Hi Hj E. apply (pow_a_primitive (j - i)); [lia|].
  assert (E1 : pow_a (minstd_m - 1 - i + j) = 1).
  { rewrite pow_a_add, <- E, <- pow_a_add by lia. rewrite Z.sub_add. apply pow_a_order. }
  replace (minstd_m - 1 - i + j) with (minstd_m - 1 + (j - i)) in E1 by lia.
  rewrite pow_a_add, pow_a_order, Z.mul_1_l in E1 by (unfold minstd_m in *; lia).
  unfold pow_a in E1 |- *. by rewrite Zmod_mod in E1.
Qed.

Lemma pow_a_range i : 0 <= i < minstd_m - 1 -> 1 <= pow_a i <= minstd_m - 1.
Proof.
  intros Hi. pose proof (Z.mod_pos_bound (minstd_a ^ i) minstd_m ltac:(unfold minstd_m; lia)) as H.
  fold (pow_a i) in H. assert (pow_a i <> 0); [|lia]. intros E.
  pose proof pow_a_order as H1. replace (minstd_m - 1) with (i + (minstd_m - 1 - i)) in H1 by lia.
  rewrite pow_a_add, E in H1 by lia. discriminate H1.
Qed.

Lemma pow_a_reaches y : 1 <= y <= minstd_m - 1 -> exists i, 0 <= i < minstd_m - 1 /\ pow_a i = y.
Proof.
  intros Hy. assert (Hm : Z.of_nat (Z.to_nat (minstd_m - 1)) = minstd_m - 1) by (rewrite Z2Nat.id; unfold minstd_m; lia).
  destruct (pigeonhole (Z.to_nat (minstd_m - 1)) (fun i => pow_a (Z.of_nat i))) with (y := y) as (i & Hi & E).
  - intros i j Hij. apply pow_a_cancel; lia.
  - intros i Hi. rewrite Hm. apply pow_a_range. lia.
  - lia.
  - exists (Z.of_nat i). split; [lia|done].
Qed.

(** From any state every value comes again, as late as one likes. *)
Lemma pow_a_covers x y k :
  1 <= x <= minstd_m - 1 -> 1 <= y <= minstd_m - 1 -> 0 <= k ->
  exists n, k <= n /\ pow_a n * x mod minstd_m = y.
Proof.
  intros Hx Hy Hk. destruct (pow_a_reaches x Hx) as (i & Hi & <-). destruct (pow_a_reaches y Hy) as (j & Hj & <-).
  exists ((minstd_m - 1) * (k + 1) + j - i). unfold minstd_m in Hi, Hj. split; [unfold minstd_m; lia|].
  rewrite <- pow_a_add by (unfold minstd_m; lia). rewrite Z.sub_add, pow_a_add by (unfold minstd_m; lia).
  rewrite pow_a_mul, Z.mul_1_l by (unfold minstd_m; lia || apply pow_a_order).
  unfold pow_a. by rewrite Zmod_mod.
Qed.

(** ** The engine of libstdc++ *)

Section Minstd.

(** The library's shuffle, given an engine's state. *)
Context (sh : forall A : Type, Z -> list A -> list A).

Definition minstd_seed (s : Z) : Z := if s mod minstd_m =? 0 then 1 else s mod minstd_m.
Definition minstd_draw (x : Z) : Z * Z := let y := minstd_a * x mod minstd_m in (y, y).

#[local] Instance minstd_rand0 : RandomEngine := {|
  engine := Z;
  engine_new := minstd_seed 1;
  seed := minstd_seed;
  draw := minstd_draw;
  shuffle := sh
|}.

Lemma minstd_seed_range s : 1 <= minstd_seed s <= minstd_m - 1.
Proof.
  unfold minstd_seed. pose proof (Z.mod_pos_bound s minstd_m ltac:(unfold minstd_m; lia)).
  destruct (Z.eqb_spec (s mod minstd_m) 0); [unfold minstd_m|]; lia.
Qed.

Lemma minstd_seed_id x : 1 <= x <= minstd_m - 1 -> minstd_seed x = x.
Proof.
  intros Hx. unfold minstd_seed. rewrite Z.mod_small by lia. by destruct (Z.eqb_spec x 0); [lia|].
Qed.

Lemma minstd_nth n : forall x, nth_draw n x = pow_a (Z.of_nat n + 1) * x mod minstd_m.
Proof.
  induction n as [|n IH]; intros x.
  - simpl. unfold pow_a. change (0 + 1) with 1. rewrite Z.pow_1_r. by rewrite Zmult_mod_idemp_l.
  - cbn [nth_draw]. rewrite IH. change (snd (draw x)) with (minstd_a * x mod minstd_m).
    rewrite Zmult_mod_idemp_r. unfold pow_a. rewrite !Zmult_mod_idemp_l. f_equal.
    rewrite Nat2Z.inj_succ. replace (Z.succ (Z.of_nat n) + 1) with ((Z.of_nat n + 1) + 1) by lia.
    rewrite (Z.pow_add_r _ (Z.of_nat n + 1) 1) by lia. lia.
Qed.

Lemma minstd_cover s (k : nat) m t :
  0 <= t < m -> m < draw_limit -> exists n, (k <= n)%nat /\ nth_draw n (minstd_seed s) mod m = t.
Proof.
  intros Ht Hm. set (y := if t =? 0 then m else t).
  assert (Hy : 1 <= y <= minstd_m - 1 /\ y mod m = t).
  { unfold y, draw_limit, minstd_m in *. destruct (Z.eqb_spec t 0) as [->|].
    - split; [lia|]. apply Z_mod_same_full.
    - split; [lia|]. apply Z.mod_small. lia. }
  destruct (pow_a_covers (minstd_seed s) y (Z.of_nat k + 1)) as (n & Hn & E);
    [apply minstd_seed_range|apply Hy|lia|].
  exists (Z.to_nat (n - 1)). split; [lia|]. rewrite minstd_nth, Z2Nat.id, Z.sub_add, E by lia. apply Hy.
Qed.

Lemma minstd_reseeded n : forall s, reseeded (S n) s = nth_draw n (seed s).
Proof.
  induction n as [|n IH]; intros s; [done|].
  change (reseeded (S (S n)) s) with (reseeded (S n) (fst (draw (seed s)))). rewrite IH. cbn [nth_draw].
  f_equal. change (minstd_seed (minstd_a * minstd_seed s mod minstd_m) = minstd_a * minstd_seed s mod minstd_m).
  apply minstd_seed_id. pose proof (minstd_seed_range s) as Hs. destruct (pow_a_reaches _ Hs) as (i & Hi & <-).
  replace (minstd_a * pow_a i mod minstd_m) with (pow_a (i + 1)).
  - destruct (Z.eq_dec (i + 1) (minstd_m - 1)) as [->|]; [rewrite pow_a_order; unfold minstd_m; lia|].
    apply pow_a_range. lia.
  - rewrite pow_a_add by lia. unfold pow_a. by rewrite Z.pow_1_r, <- Zmult_mod, Zmult_mod_idemp_r, Z.mul_comm.
Qed.

#[local] Instance minstd_laws :
  (forall A x (l : list A), sh A x l ≡ₚ l) -> RandomEngineLaws minstd_rand0.
Proof.
  intros Hsh. split.
  - intros x. pose proof (Z.mod_pos_bound (minstd_a * x) minstd_m ltac:(unfold minstd_m; lia)) as H.
    change (fst (draw x)) with (minstd_a * x mod minstd_m). unfold minstd_m in *. lia.
  - apply minstd_cover.
  - intros s k m t Ht Hm. destruct (minstd_cover s k m t Ht Hm) as (n & Hn & E). exists n.
    rewrite minstd_reseeded. done.
  - apply Hsh.
Qed.

End Minstd.
