(* ===== verification/Filters.v ===== *)
(** * Compaction filters

    Models [src/src/storage/src/base_filter.h], [lists_filter.h],
    [zsets_filter.h] and [strings_filter.h]: the filters RocksDB runs over the
    entries it compacts.  [true] removes the entry.  A meta filter decides by
    the meta value alone; a data filter reads the meta value of the key an
    entry belongs to and remembers it while the key stays the same.

    The theorems: what the meta filter removes is dead to every command and
    its version can not come back; a data filter removes exactly the entries
    whose key is nothing, of another type, expired or of a later version; and
    the exception, a filter that runs while the database is being closed. *)

From S2P Require Import Prelude Coding KeyFormat Comparator ValueFormat StreamFormat RocksDB LruCache Redis KeySpace.
Open Scope Z_scope.

(** ** Meta values ([BaseMetaFilter::Filter]) *)

(** [None]: [value[0]] of an empty value, or a key too short to parse. *)
Definition BaseMetaFilter_Filter (cur_time : Z) (key value : bytes) : option bool :=
  _ ← ParsedBaseKey key;
  match value with
  | [] => None
  | t :: _ =>
      match DataType_of_byte t with
      | kStrings =>
          let p := ParsedStringsValue false value in
          Some (negb (piv_etime p =? 0) && (piv_etime p <? cur_time))
      | kStreams => Some false
      | kLists =>
          p ← ParsedListsMetaValue_parse false value;
          let b := plm_base p in
          if negb (piv_etime b =? 0) && (piv_etime b <? cur_time) && (piv_version b <? cur_time)
          then Some true
          else if (plm_count p =? 0) && (piv_version b <? cur_time) then Some true
          else Some false
      | _ =>
          p ← ParsedBaseMetaValue_parse false value;
          let b := pbm_base p in
          if negb (piv_etime b =? 0) && (piv_etime b <? cur_time) && (piv_version b <? cur_time)
          then Some true
          else if (pbm_count p =? 0) && (piv_version b <? cur_time) then Some true
          else Some false
      end
  end.

Definition StringsFilter_Filter (cur_time : Z) (value : bytes) : bool :=
  let p := ParsedStringsValue false value in
  negb (piv_etime p =? 0) && (piv_etime p <? cur_time).

(** ** Data entries *)

(** The mutable members of a data filter. *)
Record FilterState := mkFilterState {
  cur_key_ : bytes;
  meta_not_found_ : bool;
  cur_meta_version_ : Z;
  cur_meta_etime_ : Z
}.

Definition FilterState_new : FilterState := mkFilterState [] false 0 0.

(** The meta key an entry belongs to: its bytes up to the key delimiter, and
    the reserved suffix. *)
Definition meta_key_enc (key : bytes) : bytes :=
  take (kPrefixReserveLength + SeekUserkeyDelim (drop kPrefixReserveLength key)) key ++
  replicate kSuffixReserveLength kNeedTransformCharacter.

(** The tests that end [Filter], for an entry of version [version]. *)
Definition filter_verdict (st : FilterState) (unix_time version : Z) : bool :=
  if meta_not_found_ st then true
  else if negb (cur_meta_etime_ st =? 0) && (cur_meta_etime_ st <? unix_time) then true
  else version <? cur_meta_version_ st.

Section Filters.
Context {R : RocksDB}.

(** The body the three data filters share.  [data_version] parses the entry's
    key; [load] reads the version and expiry time from a meta value of the
    filter's type, [Some None] being the branch that removes the entry.
    [no_handles]: [cf_handles_ptr_->empty()], the database is closing. *)
Definition DataFilter (data_version : bytes -> option Z)
    (load : bytes -> option (option (Z * Z))) (type_ : DataType) (no_handles : bool)
    (db : DB) (unix_time : Z) (key : bytes) (st : FilterState) : option (bool * FilterState) :=
  version ← data_version key;
  let meta_key := meta_key_enc key in
  if decide (meta_key = cur_key_ st) then Some (filter_verdict st unix_time version, st)
  else
    let st := mkFilterState meta_key true 0 0 in
    if no_handles then Some (false, st)
    else
      let '(s, meta_value) := db_Get db kMetaCF meta_key in
      if ok s then
        if decide (GetMetaValueType meta_value = type_) then
          m ← load meta_value;
          match m with
          | Some (v, e) =>
              let st := mkFilterState meta_key false v e in
              Some (filter_verdict st unix_time version, st)
          | None => Some (true, st)
          end
        else Some (true, st)
      else if IsNotFound s then Some (filter_verdict st unix_time version, st)
      else Some (false, mkFilterState [] true 0 0).

(** What [BaseDataFilter] reads from the meta value of its type. *)
Definition load_base (type_ : DataType) (meta_value : bytes) : option (option (Z * Z)) :=
  match type_ with
  | kStreams => Some (Some (smv_version (ParsedStreamMetaValue meta_value), 0))
  | kHashes | kSets | kZSets =>
      p ← ParsedBaseMetaValue_parse true meta_value;
      Some (Some (piv_version (pbm_base p), piv_etime (pbm_base p)))
  | _ => Some None
  end.

Definition BaseDataFilter_Filter (type_ : DataType) : bool -> DB -> Z -> bytes -> FilterState ->
    option (bool * FilterState) :=
  DataFilter (fun key => pdk_version <$> ParsedBaseDataKey key) (load_base type_) type_.

Definition load_lists (meta_value : bytes) : option (option (Z * Z)) :=
  p ← ParsedListsMetaValue_parse true meta_value;
  Some (Some (piv_version (plm_base p), piv_etime (plm_base p))).

Definition load_zsets (meta_value : bytes) : option (option (Z * Z)) :=
  p ← ParsedBaseMetaValue_parse true meta_value;
  Some (Some (piv_version (pbm_base p), piv_etime (pbm_base p))).

Definition ListsDataFilter_Filter : bool -> DB -> Z -> bytes -> FilterState ->
    option (bool * FilterState) :=
  DataFilter (fun key => pldk_version <$> ParsedListsDataKey_decode key) load_lists kLists.

Definition ZSetsScoreFilter_Filter : bool -> DB -> Z -> bytes -> FilterState ->
    option (bool * FilterState) :=
  DataFilter (fun key => pzk_version <$> ParsedZSetsScoreKey_decode key) load_zsets kZSets.

End Filters.

(** ** What a compaction may remove *)

Section FilterFacts.
Context {R : RocksDB} {L : RocksDBLaws R} {U : Uninit}.

(** A run of the filter over entries, each visited at its own time. *)
Fixpoint run_filter (filter : Z -> bytes -> FilterState -> option (bool * FilterState))
    (visits : list (Z * bytes)) (st : FilterState) : option (list bool) :=
  match visits with
  | [] => Some []
  | (now, key) :: visits =>
      '(removed, st) ← filter now key st;
      rest ← run_filter filter visits st;
      Some (removed :: rest)
  end.

(** No command sees an entry of version [version] under key [k]: the key has no
    meta value, one of another type, an expired one, or one of a later version. *)
Definition loaded_dead (load : bytes -> option (option (Z * Z))) (type_ : DataType)
    (db : DB) (now : Z) (k : bytes) (version : Z) : option bool :=
  match meta_of db k with
  | None => Some true
  | Some mv =>
      if decide (GetMetaValueType mv = type_) then
        m ← load mv;
        Some (match m with
              | Some (v, e) => stale now e || (version <? v)
              | None => true
              end)
      else Some true
  end.

(** An entry visited at a time: its key, its version, and what distinguishes it. *)
Definition visit (A : Type) : Type := Z * bytes * Z * A.
Definition visit_ok {A} (x : visit A) : Prop :=
  let '(_, k, version, _) := x in key_ok k = true /\ is_u64 version.
Definition encoded {A} (enc : bytes -> Z -> A -> bytes) (l : list (visit A)) : list (Z * bytes) :=
  map (fun '(now, k, version, a) => (now, enc k version a)) l.
Definition loaded_dead_entries {A} (load : bytes -> option (option (Z * Z))) (type_ : DataType) (db : DB)
    (l : list (visit A)) : option (list bool) :=
  mapM (fun '(now, k, version, _) => loaded_dead load type_ db now k version) l.

Lemma meta_key_enc_prefix k r :
  key_ok k = true -> meta_key_enc (key_prefix k ++ r) = BaseKey_Encode k.
Proof.
  intros K. rewrite BaseKey_Encode_form by done. unfold meta_key_enc.
  by rewrite SeekUserkeyDelim_prefix, take_app_length.
Qed.

Section Exact.
Context (data_version : bytes -> option Z) (load : bytes -> option (option (Z * Z))).
Context (type_ : DataType) (db : DB) (Hdb : healthy db).

(** The cached meta value is the one stored: the tests on it decide [loaded_dead]. *)
Definition tracks (st : FilterState) : Prop :=
  cur_key_ st = [] \/
  exists k, key_ok k = true /\ cur_key_ st = BaseKey_Encode k /\
    forall now version,
      loaded_dead load type_ db now k version = Some (filter_verdict st now version).

Lemma BaseKey_Encode_nonempty k : key_ok k = true -> BaseKey_Encode k <> [].
Proof. intros K. by rewrite BaseKey_Encode_form. Qed.

(** One visit: the verdict is exact and the cache stays right. *)
Lemma DataFilter_step now k version enc st :
  key_ok k = true -> data_version enc = Some version -> meta_key_enc enc = BaseKey_Encode k ->
  tracks st ->
  match loaded_dead load type_ db now k version with
  | Some dead => exists st', tracks st' /\
      DataFilter data_version load type_ false db now enc st = Some (dead, st')
  | None => DataFilter data_version load type_ false db now enc st = None
  end.
Proof.
  intros K Hv Hm Ht. unfold DataFilter. rewrite Hv, Hm. cbn [mbind option_bind].
  case_decide as E.
  { destruct Ht as [Hn|(k' & K' & E' & H)]; [by destruct (BaseKey_Encode_nonempty k K); congruence|].
    assert (k = k') as <-.
    { apply (BaseKey_eq k k'); [done..|]. rewrite E, E'. apply bytes_compare_refl. }
    rewrite H. exists st. split; [right; by exists k|done]. }
  rewrite Get_lookup by done. fold (meta_of db k).
  assert (G : forall st', cur_key_ st' = BaseKey_Encode k ->
    (forall now version, loaded_dead load type_ db now k version = Some (filter_verdict st' now version)) ->
    match loaded_dead load type_ db now k version with
    | Some dead => exists st'', tracks st'' /\
        Some (filter_verdict st' now version, st') = Some (dead, st'')
    | None => Some (filter_verdict st' now version, st') = None
    end).
  { intros st' Ek H. rewrite H. exists st'. split; [|done]. right. by exists k. }
  destruct (meta_of db k) as [mv|] eqn:Em; simpl.
  - case_decide as Et; [|apply (G (mkFilterState _ true 0 0)); [done|]].
    + destruct (load mv) as [[[v e]|]|] eqn:El; simpl;
        [..|unfold loaded_dead; by rewrite Em, decide_True, El].
      * apply (G (mkFilterState _ false v e)); [done|]. intros n w. unfold loaded_dead.
        rewrite Em, decide_True, El by done. simpl. unfold filter_verdict, stale. simpl.
        by destruct (negb (e =? 0) && (e <? n)).
      * apply (G (mkFilterState _ true 0 0)); [done|]. intros n w. unfold loaded_dead.
        by rewrite Em, decide_True, El.
    + intros n w. unfold loaded_dead. by rewrite Em, decide_False.
  - apply (G (mkFilterState _ true 0 0)); [done|]. intros n w. unfold loaded_dead. by rewrite Em.
Qed.

Lemma DataFilter_run {A} (enc : bytes -> Z -> A -> bytes) :
  (forall k version a, key_ok k = true -> is_u64 version ->
     data_version (enc k version a) = Some version /\ exists r, enc k version a = key_prefix k ++ r) ->
  forall l st, Forall visit_ok l -> tracks st ->
  run_filter (DataFilter data_version load type_ false db) (encoded enc l) st =
  loaded_dead_entries load type_ db l.
Proof.
  intros Henc. unfold encoded, loaded_dead_entries.
  induction l as [|[[[now k] version] a] l IH]; intros st Hall Ht; [done|].
  apply Forall_cons in Hall as [[K Hv] Hall]. simpl.
  destruct (Henc k version a K Hv) as [Hd (r & E)].
  assert (Hm : meta_key_enc (enc k version a) = BaseKey_Encode k) by (rewrite E; by apply meta_key_enc_prefix).
  pose proof (DataFilter_step now k version _ st K Hd Hm Ht) as H.
  destruct (loaded_dead load type_ db now k version) as [dead|]; [|by rewrite H].
  destruct H as (st' & Ht' & ->). simpl. by rewrite IH.
Qed.

End Exact.

(** *** What the filters decide, by what a key is *)

(** A time as it is stored: milliseconds with the highest bit set, or seconds. *)
Definition time_stored (e raw : Z) : Prop :=
  0 <= e < 2 ^ 63 /\ raw = e + 2 ^ 63 \/ 0 <= raw < 2 ^ 63 /\ e = raw * 1000 /\ e < 2 ^ 64.

(** The bytes of a meta value of a type, with its version and expiry time; a
    string has no version, a stream no expiry time. *)
Inductive meta_bytes : DataType -> Z -> Z -> bytes -> Prop :=
  | bytes_string value : meta_bytes kStrings 0 0 (x00 :: value)
  | bytes_hash version e rest : base_rest version e rest -> meta_bytes kHashes version e (x01 :: rest)
  | bytes_set version e rest : base_rest version e rest -> meta_bytes kSets version e (x02 :: rest)
  | bytes_zset version e rest : base_rest version e rest -> meta_bytes kZSets version e (x04 :: rest)
  | bytes_list version e raw count indices reserve ctime :
      length count = 8%nat -> is_u64 version -> length indices = 32%nat -> length reserve = 16%nat -> length ctime = 8%nat ->
      time_stored e raw ->
      meta_bytes kLists version e (x03 :: count ++ le_bytes 8 version ++ indices ++ reserve ++ ctime ++ le_bytes 8 raw)
  | bytes_stream version fields :
      length fields = 64%nat -> is_u64 version -> meta_bytes kStreams version 0 (x05 :: fields ++ le_bytes 8 version)
with base_rest : Z -> Z -> bytes -> Prop :=
  | base_rest_of version e raw count reserve ctime :
      length count = 4%nat -> is_u64 version -> length reserve = 16%nat -> length ctime = 8%nat -> time_stored e raw ->
      base_rest version e (count ++ le_bytes 8 version ++ reserve ++ ctime ++ le_bytes 8 raw).

(** What a key is: nothing, or a value of a type with its version and expiry time. *)
Definition owner : Type := option (DataType * Z * Z).
Definition owners (db : DB) (own : bytes -> owner) : Prop :=
  forall k, key_ok k = true ->
    match own k with
    | None => meta_of db k = None
    | Some (t, version, e) => exists mv, meta_of db k = Some mv /\ meta_bytes t version e mv
    end.

(** An entry of version [version] in the family of [type_] is garbage at [now]:
    the key is nothing, of another type, expired, or of a later version. *)
Definition entry_dead (o : owner) (type_ : DataType) (now version : Z) : bool :=
  match o with
  | None => true
  | Some (t, v, e) => bool_decide (t <> type_ \/ (e <> 0 /\ e < now) \/ version < v)
  end.

Definition dead_entries {A} (own : bytes -> owner) (type_ : DataType) (l : list (visit A)) : list bool :=
  map (fun '(now, k, version, _) => entry_dead (own k) type_ now version) l.

Lemma load_time_stored e raw : time_stored e raw -> is_u64 raw /\ load_time raw = e.
Proof.
  intros [[He ->]|(Hr & -> & Hb)]; unfold load_time, clear_ms_bit, is_u64; change (2 ^ 63 - 1) with (Z.ones 63);
    rewrite Z.land_ones by lia.
  - replace ((e + 2 ^ 63) mod 2 ^ 63) with e by (rewrite <- (Z.mul_1_l (2 ^ 63)) at 1; rewrite Z.mod_add, Z.mod_small; lia).
    rewrite (proj2 (Z.eqb_neq _ _)) by lia. lia.
  - rewrite Z.mod_small, Z.eqb_refl, u64_id by (unfold is_u64; lia). lia.
Qed.

Lemma decode_le v : is_u64 v -> DecodeFixed64 (le_bytes 8 v) = v.
Proof. intros Hv. change (le_bytes 8 v) with (EncodeFixed64 v). by rewrite DecodeFixed64_EncodeFixed64, u64_id. Qed.

Lemma base_rest_parse w t version e rest : base_rest version e rest ->
  exists q, ParsedBaseMetaValue_parse w (t :: rest) = Some q /\ piv_version (pbm_base q) = version /\ piv_etime (pbm_base q) = e.
Proof.
  intros [v e' raw count reserve ctime Hc Hv Hr Ht (Hraw & He)%load_time_stored].
  set (F := [[t]; count; le_bytes 8 v; reserve; ctime; le_bytes 8 raw]). exists (base_meta_object w F).
  pose proof (base_meta_parse w F) as HP. unfold F in HP. cbn [concat app] in HP. rewrite app_nil_r in HP.
  rewrite HP by (cbn [map]; rewrite !length_le_bytes, Hc, Hr, Ht; done).
  split; [done|]. unfold base_meta_object, F. cbn [nth pbm_base piv_version piv_etime]. by rewrite !decode_le.
Qed.

Lemma list_bytes_parse w version e mv : meta_bytes kLists version e mv ->
  exists q, ParsedListsMetaValue_parse w mv = Some q /\ piv_version (plm_base q) = version /\ piv_etime (plm_base q) = e.
Proof.
  inversion 1 as [| | | |v e' raw count indices reserve ctime Hc Hv Hi Hr Ht (Hraw & He)%load_time_stored|]; subst.
  destruct (chunks_exist [8; 8; 8; 8]%nat indices Hi) as (I & -> & HI). chunk_hyp HI.
  set (F := [[x03]; count; le_bytes 8 version; c; c0; c1; c2; reserve; ctime; le_bytes 8 raw]). exists (lists_meta_object w F).
  pose proof (lists_meta_parse w F) as HP. unfold F in HP. cbn [concat app] in HP. rewrite !app_nil_r in HP.
  cbn [concat]. rewrite app_nil_r, <- !app_assoc, HP
    by (cbn [map]; rewrite !length_le_bytes, Hc, Hr, Ht; unfold lists_meta_sizes; repeat f_equal; done).
  split; [done|]. unfold lists_meta_object, F. cbn [nth plm_base piv_version piv_etime]. by rewrite !decode_le.
Qed.

Lemma stream_bytes_parse version e mv : meta_bytes kStreams version e mv ->
  smv_version (ParsedStreamMetaValue mv) = version /\ e = 0.
Proof.
  inversion 1 as [| | | | |v fields Hf Hv]; subst. split; [|done].
  destruct (chunks_exist [4; 8; 8; 8; 8; 8; 8; 8; 4]%nat fields Hf) as (I & -> & HI). chunk_hyp HI.
  pose proof (stream_meta_parse StreamMetaValue_new [[x05]; c; c0; c1; c2; c3; c4; c5; c6; c7; le_bytes 8 version]) as HP.
  unfold ParsedStreamMetaValue. cbn [concat app] in HP |- *. rewrite !app_nil_r, <- !app_assoc in *.
  rewrite HP by (cbn [map]; rewrite length_le_bytes; unfold stream_meta_sizes; repeat f_equal; done).
  cbn [stream_meta_object smv_version nth]. by apply decode_le.
Qed.

Lemma meta_bytes_type t version e mv : meta_bytes t version e mv -> GetMetaValueType mv = t.
Proof. by destruct 1. Qed.

Lemma loaded_dead_spec load type_ db own now k version :
  (forall v e mv, meta_bytes type_ v e mv -> load mv = Some (Some (v, e))) ->
  key_ok k = true -> owners db own ->
  loaded_dead load type_ db now k version = Some (entry_dead (own k) type_ now version).
Proof.
  intros Hload K Ho. specialize (Ho k K). unfold loaded_dead, entry_dead.
  destruct (own k) as [[[t v] e]|]; [|by rewrite Ho]. destruct Ho as (mv & -> & Hmv).
  rewrite (meta_bytes_type _ _ _ _ Hmv). case_decide as Et.
  - subst t. rewrite (Hload v e mv Hmv). cbn [mbind option_bind]. f_equal. unfold stale. apply eq_bool_prop_intro.
    rewrite bool_decide_spec, Is_true_true, orb_true_iff, andb_true_iff, negb_true_iff, Z.eqb_neq, !Z.ltb_lt. tauto.
  - by rewrite bool_decide_eq_true_2 by (by left).
Qed.

Lemma DataFilter_owners {A} data_version load type_ db own (enc : bytes -> Z -> A -> bytes) l :
  (forall v e mv, meta_bytes type_ v e mv -> load mv = Some (Some (v, e))) ->
  (forall k version a, key_ok k = true -> is_u64 version ->
     data_version (enc k version a) = Some version /\ exists r, enc k version a = key_prefix k ++ r) ->
  healthy db -> owners db own -> Forall visit_ok l ->
  run_filter (DataFilter data_version load type_ false db) (encoded enc l) FilterState_new =
  Some (dead_entries own type_ l).
Proof.
  intros Hload Henc Hdb Ho Hl. rewrite DataFilter_run by (done || by left). unfold loaded_dead_entries, dead_entries.
  induction Hl as [|[[[now k] version] a] l [K Hv] Hl IH]; [done|]. simpl.
  by rewrite (loaded_dead_spec load type_ db own now k version Hload K Ho), IH.
Qed.

Lemma load_base_bytes type_ : type_ ∈ [kHashes; kSets; kZSets; kStreams] ->
  forall v e mv, meta_bytes type_ v e mv -> load_base type_ mv = Some (Some (v, e)).
Proof.
  intros Ht v e mv Hm. rewrite !elem_of_cons, elem_of_nil in Ht. destruct Ht as [->|[->|[->|[->|[]]]]]; unfold load_base.
  4: by destruct (stream_bytes_parse _ _ _ Hm) as [-> ->].
  all: inversion Hm as [|? ? ? HR|? ? ? HR|? ? ? HR| |]; subst; clear Hm.
  1: destruct (base_rest_parse true x01 _ _ _ HR) as (q & -> & <- & <-); done.
  1: destruct (base_rest_parse true x02 _ _ _ HR) as (q & -> & <- & <-); done.
  1: destruct (base_rest_parse true x04 _ _ _ HR) as (q & -> & <- & <-); done.
Qed.

Lemma load_lists_bytes v e mv : meta_bytes kLists v e mv -> load_lists mv = Some (Some (v, e)).
Proof. intros Hm. unfold load_lists. by destruct (list_bytes_parse true _ _ _ Hm) as (q & -> & <- & <-). Qed.

Lemma lists_key_parse k v i : key_ok k = true -> is_u64 v ->
  pldk_version <$> ParsedListsDataKey_decode (ListsDataKey_Encode k v i) = Some v /\
  exists r, ListsDataKey_Encode k v i = key_prefix k ++ r.
Proof.
  intros K Hv. rewrite ListsDataKey_Encode_form, ParsedListsDataKey_form by done. rewrite u64_id by done. split; [done|by eexists].
Qed.

(** C11: A data filter answers by what the key of an entry is.  Over any
    sequence of entries of any keys, visited at any times, the filter of each
    column family (hashes, sets, zset members and streams; list elements; zset
    scores) removes an entry exactly when its key has no meta value, one of
    another type, one that has expired or one of a later version than the entry:
    the meta value it keeps between the entries of one key never changes the
    answer.  Entries of a version after that of the key and entries of a key that
    counts no elements are kept. *)
Theorem data_filters_exact db own type_ (base : list (visit bytes)) (lists : list (visit Z))
    (zsets : list (visit (Z * bytes))) :
  healthy db -> owners db own -> type_ ∈ [kHashes; kSets; kZSets; kStreams] ->
  Forall visit_ok base -> Forall visit_ok lists -> Forall visit_ok zsets ->
  run_filter (BaseDataFilter_Filter type_ false db) (encoded BaseDataKey_Encode base)
    FilterState_new = Some (dead_entries own type_ base) /\
  run_filter (ListsDataFilter_Filter false db) (encoded ListsDataKey_Encode lists)
    FilterState_new = Some (dead_entries own kLists lists) /\
  run_filter (ZSetsScoreFilter_Filter false db)
    (encoded (fun k v '(s, m) => ZSetsScoreKey_Encode k v s m) zsets)
    FilterState_new = Some (dead_entries own kZSets zsets).
Proof.
  intros Hdb Ho Ht Hb Hl Hz. split_and!; apply DataFilter_owners; try done.
  - by apply load_base_bytes.
  - intros k v d K Hv. rewrite BaseDataKey_Encode_form, ParsedBaseDataKey_form by done.
    rewrite u64_id by done. split; [done|by eexists].
  - apply load_lists_bytes.
  - apply lists_key_parse.
  - apply (load_base_bytes kZSets). set_solver.
  - intros k v [s m] K Hv. rewrite ZSetsScoreKey_Encode_form, ParsedZSetsScoreKey_form by done.
    rewrite !u64_id by done. split; [done|by eexists].
Qed.

(** a filter that runs while the database is closing loses data.  Without
    column family handles it keeps the first entry of a key unread, as its
    comment says, but it has already recorded the key as having no meta value:
    every further entry of the same key is removed, live or not. *)
Theorem closing_filter_removes db type_ now now' k v v' d d' st :
  key_ok k = true -> is_u64 v -> is_u64 v' -> cur_key_ st <> BaseKey_Encode k ->
  exists st', BaseDataFilter_Filter type_ true db now (BaseDataKey_Encode k v d) st = Some (false, st') /\
    BaseDataFilter_Filter type_ true db now' (BaseDataKey_Encode k v' d') st' = Some (true, st').
Proof.
  intros K Hv Hv' Hst. unfold BaseDataFilter_Filter, DataFilter.
  rewrite !BaseDataKey_Encode_form, !ParsedBaseDataKey_form, !meta_key_enc_prefix by done.
  simpl. rewrite decide_False by congruence. eexists. split; [done|]. simpl. by rewrite decide_True.
Qed.

(** ** Meta values *)

(** The version a meta value carries; strings have none. *)
Definition meta_version (value : bytes) : option Z :=
  match GetMetaValueType value with
  | kLists => (fun p => piv_version (plm_base p)) <$> ParsedListsMetaValue_parse false value
  | kHashes | kSets | kZSets =>
      (fun p => piv_version (pbm_base p)) <$> ParsedBaseMetaValue_parse false value
  | _ => None
  end.

Lemma stale_mono now now' e : now <= now' -> stale now e = true -> stale now' e = true.
Proof.
  unfold stale. rewrite !andb_true_iff, !Z.ltb_lt. intros ? [? ?]. split; [done|lia].
Qed.

Lemma ExpectedStale_mono now now' value :
  now <= now' -> ExpectedStale now value = Some true -> ExpectedStale now' value = Some true.
Proof.
  intros Hn. unfold ExpectedStale.
  destruct (GetMetaValueType value); try done;
    try (destruct (_ _ value) as [p|]; [|done]; cbn [mbind option_bind]);
    rewrite !IsStale_stale; intros [= H]; f_equal; [by eapply stale_mono| | | |];
    apply orb_true_iff in H as [H|H]; rewrite ?H, ?orb_true_r; try done;
    by rewrite (stale_mono _ _ _ Hn H).
Qed.

Lemma filter_tests (expired empty old : bool) :
  (if expired && old then Some true else if empty && old then Some true else Some false) =
  Some ((expired || empty) && old).
Proof. by destruct expired, empty, old. Qed.

(** What the meta filter computes, in terms of the test every command starts with. *)
Lemma meta_filter_form now key value :
  key_ok key = true -> value <> [] ->
  GetMetaValueType value ∈ [kStrings; kLists; kHashes; kSets; kZSets; kStreams] ->
  BaseMetaFilter_Filter now (BaseKey_Encode key) value =
  if decide (GetMetaValueType value = kStreams) then Some false
  else dead ← ExpectedStale now value;
       Some (dead && match meta_version value with Some v => v <? now | None => true end).
Proof.
  intros K Hne Ht. unfold BaseMetaFilter_Filter.
  rewrite BaseKey_Encode_form, ParsedBaseKey_form by (done || (rewrite length_reserve2; lia)).
  cbn [mbind option_bind]. destruct value as [|t value]; [done|].
  unfold ExpectedStale, meta_version, GetMetaValueType in *. cbn [nth] in *.
  destruct (DataType_of_byte t) eqn:Et; try (exfalso; by set_solver);
    try (rewrite decide_False by done); try done.
  1: rewrite IsStale_stale; unfold stale; cbn; by rewrite andb_true_r.
  all: destruct (_ _ (t :: value)) as [p|]; [|done];
    cbn [mbind option_bind fmap option_fmap option_map]; rewrite IsStale_stale;
    apply filter_tests.
Qed.

(** the meta filter removes a meta value only when the key is dead and its
    version can not come back.  It answers [true] exactly for the strings,
    lists, hashes, sets and zsets that have expired or are empty ([ExpectedStale])
    and, strings apart, whose version lies before the clock; never for
    streams.  What it removes is dead at every later time, and a key created
    then gets a version above the one removed, so entries of the removed
    version stay invisible. *)
Theorem meta_filter_safe now key value :
  key_ok key = true -> value <> [] ->
  GetMetaValueType value ∈ [kStrings; kLists; kHashes; kSets; kZSets; kStreams] ->
  BaseMetaFilter_Filter now (BaseKey_Encode key) value =
  (if decide (GetMetaValueType value = kStreams) then Some false
   else dead ← ExpectedStale now value;
        Some (dead && match meta_version value with Some v => v <? now | None => true end)) /\
  (BaseMetaFilter_Filter now (BaseKey_Encode key) value = Some true ->
   forall now', now <= now' ->
     ExpectedStale now' value = Some true /\
     forall v, meta_version value = Some v -> v < next_version now' 0).
Proof.
  intros K Hne Ht. rewrite meta_filter_form by done. split; [done|].
  case_decide; [done|]. destruct (ExpectedStale now value) as [[]|] eqn:E; try done.
  cbn. intros [= H'] now' Hn. split; [by eapply ExpectedStale_mono|].
  intros v Hv. rewrite Hv in H'. apply Z.ltb_lt in H'. unfold next_version.
  destruct (Z.leb_spec now' 0); [change (u64 (0 + 1)) with 1|]; lia.
Qed.

End FilterFacts.
