(* ===== verification/Sample.v ===== *)
(** * A concrete engine

    An engine over the sorted-list database, on which the theorems are applied
    to concrete inputs. *)

From S2P Require Import Prelude Coding KeyFormat Comparator ValueFormat RocksDB LruCache Redis KeySpace.
Open Scope Z_scope.

#[export] Existing Instance sorted_db.
#[export] Existing Instance sorted_db_laws.
#[export] Existing Instance uninit_cc.

Definition fresh_engine : Redis :=
  match Redis_new empty_db with
  | Some r => r
  | None => mkRedis empty_db LRUCache_new LRUCache_new 0 0 []
  end.

(** The state a command leaves. *)
Definition after {A} (m : M A) (r : Redis) : Redis :=
  match m r with Some (_, r) => r | None => r end.

Definition q_key : bytes := lit "q".

(** Every column family is sorted, by computation. *)
Definition healthy_b (db : DB) : bool :=
  forallb (fun cf => sorted_b (cf_compare cf) (db cf))
    [kMetaCF; kHashesDataCF; kSetsDataCF; kListsDataCF; kZsetsDataCF; kStreamsDataCF].

Lemma healthy_b_sound db : healthy_b db = true -> healthy db.
Proof.
  intros H cf Hcf. unfold healthy_b in H. rewrite forallb_forall in H.
  pose proof (cf_compare_order cf Hcf). apply (sorted_b_sound _), H. destruct cf; simpl; tauto.
Qed.

Lemma fresh_stats : stats_ok fresh_engine.
Proof. exists (mkCache 0 []). apply represents_new. Qed.

Lemma fresh_engine_ok : engine_ok fresh_engine.
Proof. split; [by apply healthy_b_sound|apply fresh_stats]. Qed.

Lemma engine_with_ok db : healthy_b db = true -> engine_ok (with_db fresh_engine db).
Proof. intros H. split; [by apply healthy_b_sound|apply fresh_stats]. Qed.

(** One entry in the meta family: the string [v] under [q_key], written at
    millisecond 1000 with the expiry time [e]. *)
Definition meta_db (meta : list entry) : DB := fun cf => match cf with kMetaCF => meta | _ => [] end.
Definition meta_engine (key value : bytes) : Redis :=
  with_db fresh_engine (meta_db [(BaseKey_Encode key, value)]).
Definition string_engine (v : bytes) (e : Z) : Redis :=
  meta_engine q_key
    (StringsValue_Encode (InternalValue_SetEtime (InternalValue_new 1000 kStrings v) e)).

Lemma meta_engine_ok key value : engine_ok (meta_engine key value).
Proof. by apply engine_with_ok. Qed.

Lemma meta_engine_meta value : meta_of (db_ (meta_engine q_key value)) q_key = Some value.
Proof. reflexivity. Qed.

Lemma clock_1000 : clock_ok 1000.
Proof. unfold clock_ok. lia. Qed.

(** The meta value of a hash without fields, and the first byte of a stream. *)
Definition empty_hash_meta : bytes :=
  Eval vm_compute in BaseMetaValue_Encode (InternalValue_new 1000 kHashes (EncodeFixed32 0)).
Definition stream_meta : bytes := byte_of_DataType kStreams :: replicate 60 x01.
Definition stream_engine : Redis := meta_engine q_key stream_meta.
