(* ===== verification/Strings.v ===== *)
(** * String commands

    Models [src/src/storage/src/redis_strings.cc]: a string lives in the meta
    column family under its encoded key, as a [StringsValue].  One definition
    per command, every call that changes the state included.

    A command returns its status and its output parameters; an output that a
    branch does not assign is [None].  [Incrbyfloat] works on [long double]
    and is left out, and so are the commands that dispatch on the type of a
    key ([Del], [Expire], ...), which call the code of types that are not
    modelled yet. *)

From S2P Require Import Prelude Coding Numbers Bits KeyFormat Comparator ValueFormat RocksDB LruCache Redis.
Open Scope Z_scope.

Section Strings.
Context {R : RocksDB} {U : Uninit}.

(** [StringsValue(value)], and [db_->Put] of one under a key. *)
Definition new_string (now : Z) (value : bytes) : InternalValue := InternalValue_new now kStrings value.
Definition PutString (key : bytes) (v : InternalValue) : M Status :=
  Write [Put kMetaCF (BaseKey_Encode key) (StringsValue_Encode v)].
Definition PutRaw (key value : bytes) : M Status := Write [Put kMetaCF (BaseKey_Encode key) value].
Definition DeleteKey (key : bytes) : M Status := Write [Delete kMetaCF (BaseKey_Encode key)].

(** [static_cast<int32_t>(s.size())] *)
Definition size32 (s : bytes) : Z := i32 (Z.of_nat (length s)).

(** The bytes [data() + start] to [data() + start + len], the terminator
    included; [None] beyond it. *)
Definition read_bytes (value : bytes) (start len : Z) : option bytes :=
  if (0 <=? start) && (0 <=? len) && (start + len <=? Z.of_nat (length value) + 1)
  then Some (subseq (Z.to_nat start) (Z.to_nat len) (value ++ [x00])) else None.

(** ** Reading and writing whole values *)

(** The status, [*ret], [*expired_timestamp_millsec] and [out_new_value]. *)
Definition Append (now : Z) (key value : bytes) : M (Status * Z * Z * option bytes) :=
  let* m := GetMeta now kStrings key key in
  match m with
  | inl st => ret (st, 0, 0, None)
  | inr (s, old_value) =>
      if ok s then
        let p := ParsedStringsValue true old_value in
        if IsStale now p then
          let* st := PutString key (new_string now value) in
          ret (st, size32 value, 0, None)
        else
          let timestamp := piv_etime p in
          let new_value := UserValue p ++ value in
          let* st := PutString key (InternalValue_SetEtime (new_string now new_value) timestamp) in
          ret (st, size32 new_value, i64 timestamp, Some new_value)
      else if IsNotFound s then
        let* st := PutString key (new_string now value) in
        ret (st, size32 value, 0, Some value)
      else ret (s, 0, 0, None)
  end.

(** [Redis::Get]; a stale value of another type leaves its bytes in [*value]. *)
Definition Redis_Get (now : Z) (key : bytes) : M (Status * bytes) :=
  fun r =>
  let '(_, raw) := db_Get (db_ r) kMetaCF (BaseKey_Encode key) in
  (let* m := GetMeta now kStrings key key in
   match m with
   | inl st => ret (st, raw)
   | inr (s, value) =>
       if ok s then
         let p := ParsedStringsValue true value in
         if IsStale now p then ret (Status_NotFound (lit "Stale"), [])
         else
           let* value := lift (ParsedStringsValue_StripSuffix p) in
           ret (s, value)
       else ret (s, value)
   end) r.

(** The keys of [MGet] that are not strings count as missing. *)
Definition GetMetaAny (key : bytes) : M (Status * bytes) :=
  let* '(s, value) := Get kMetaCF (BaseKey_Encode key) in
  if ok s && negb (ExpectedMetaValue kStrings value) then ret (Status_NotFound [], value)
  else ret (s, value).

Definition MGet (now : Z) (key : bytes) : M (Status * bytes) :=
  let* '(s, value) := GetMetaAny key in
  if ok s then
    let p := ParsedStringsValue true value in
    if IsStale now p then ret (Status_NotFound (lit "Stale"), [])
    else
      let* value := lift (ParsedStringsValue_StripSuffix p) in
      ret (s, value)
  else ret (s, value).

(** The status, the value and [*ttl_millsec]. *)
Definition HandleParsedStringsValue (now : Z) (p : ParsedInternalValue) : option (Status * bytes * Z) :=
  if IsStale now p then Some (Status_NotFound (lit "Stale"), [], -2)
  else
    value ← ParsedStringsValue_StripSuffix p;
    Some (Status_OK, value, ttl_of now (piv_etime p)).

(** The status names the type without the comma the other commands have. *)
Definition GetWithTTL (now : Z) (key : bytes) : M (Status * bytes * option Z) :=
  let* '(s, value) := Get kMetaCF (BaseKey_Encode key) in
  if ok s && negb (ExpectedMetaValue kStrings value) then
    let* stale := lift (ExpectedStale now value) in
    if stale : bool then ret (Status_NotFound [], [], Some (-2))
    else
      let* expect := lift (type_string kStrings) in
      let* get := lift (type_string (GetMetaValueType value)) in
      ret (Status_InvalidArgument
        (lit "WRONGTYPE, key: " ++ key ++ lit ", expect type: " ++ expect ++
         lit " get type: " ++ get), value, None)
  else if ok s then
    let* '(s, value, ttl) := lift (HandleParsedStringsValue now (ParsedStringsValue true value)) in
    ret (s, value, Some ttl)
  else if IsNotFound s then ret (s, [], Some (-2))
  else ret (s, value, None).

Definition MGetWithTTL (now : Z) (key : bytes) : M (Status * bytes * option Z) :=
  let* '(s, value) := GetMetaAny key in
  if ok s then
    let* '(s, value, ttl) := lift (HandleParsedStringsValue now (ParsedStringsValue true value)) in
    ret (s, value, Some ttl)
  else if IsNotFound s then ret (s, [], Some (-2))
  else ret (s, value, None).

(** [*old_value] keeps the bytes of a stale value of another type. *)
Definition GetSet (now : Z) (key value : bytes) : M (Status * bytes) :=
  fun r =>
  let '(_, raw) := db_Get (db_ r) kMetaCF (BaseKey_Encode key) in
  (let* m := GetMeta now kStrings key key in
   match m with
   | inl st => ret (st, raw)
   | inr (s, old_value) =>
       if ok s then
         let p := ParsedStringsValue true old_value in
         let* old_value :=
           (if IsStale now p then ret [] else lift (ParsedStringsValue_StripSuffix p)) in
         let* st := PutString key (new_string now value) in
         ret (st, old_value)
       else if negb (IsNotFound s) then ret (s, old_value)
       else
         let* st := PutString key (new_string now value) in
         ret (st, old_value)
   end) r.

Definition Strlen (now : Z) (key : bytes) : M (Status * Z) :=
  let* '(s, value) := Redis_Get now key in
  ret (s, if ok s then size32 value else 0).

(** ** Conditional and timed writes *)

Definition Set_ (now : Z) (key value : bytes) : M Status := PutString key (new_string now value).

Definition MSet (now : Z) (kvs : list (bytes * bytes)) : M Status :=
  Write (map (fun '(key, value) =>
    Put kMetaCF (BaseKey_Encode key) (StringsValue_Encode (new_string now value))) kvs).

(** [inl]: an early return; otherwise the last status and whether a key exists. *)
Fixpoint MSetnx_exists (now : Z) (kvs : list (bytes * bytes)) (s : Status)
    : M (Status + Status * bool) :=
  match kvs with
  | [] => ret (inr (s, false))
  | (key, _) :: kvs =>
      let* '(s, value) := Get kMetaCF (BaseKey_Encode key) in
      if negb (ok s) && negb (IsNotFound s) then ret (inl s)
      else
        let* live := (if ok s then let* stale := lift (ExpectedStale now value) in ret (negb stale)
                      else ret false) in
        if live : bool then ret (inr (s, true)) else MSetnx_exists now kvs s
  end.

Definition MSetnx (now : Z) (kvs : list (bytes * bytes)) : M (Status * Z) :=
  let* e := MSetnx_exists now kvs Status_OK in
  match e with
  | inl s => ret (s, 0)
  | inr (s, true) => ret (s, 0)
  | inr (_, false) =>
      let* s := MSet now kvs in
      ret (s, if ok s then 1 else 0)
  end.

(** A value with a relative expiry time, when it is positive. *)
Definition timed_string (now : Z) (value : bytes) (ttl_millsec : Z) : InternalValue :=
  let v := new_string now value in
  if 0 <? ttl_millsec then InternalValue_SetRelativeTimeInMillsec now v ttl_millsec else v.

Definition Setxx (now : Z) (key value : bytes) (ttl_millsec : Z) : M (Status * option Z) :=
  let* m := GetMeta now kStrings key key in
  match m with
  | inl st => ret (st, None)
  | inr (s, old_value) =>
      if negb (ok s) && negb (IsNotFound s) then ret (s, None)
      else
        let not_found := negb (ok s && negb (IsStale now (ParsedStringsValue false old_value))) in
        if not_found then ret (s, Some 0)
        else
          let* st := PutString key (timed_string now value ttl_millsec) in
          ret (st, Some 1)
  end.

Definition Setex (now : Z) (key value : bytes) (ttl_millsec : Z) : M Status :=
  if ttl_millsec <=? 0 then ret (Status_InvalidArgument (lit "invalid expire time"))
  else PutString key (InternalValue_SetRelativeTimeInMillsec now (new_string now value) ttl_millsec).

Definition Setnx (now : Z) (key value : bytes) (ttl_millsec : Z) : M (Status * Z) :=
  let* '(s, old_value) := Get kMetaCF (BaseKey_Encode key) in
  if negb (ok s) && negb (IsNotFound s) then ret (s, 0)
  else
    let* live := (if ok s then let* stale := lift (ExpectedStale now old_value) in ret (negb stale)
                  else ret false) in
    if live : bool then ret (s, 0)
    else
      let* s := PutString key (timed_string now value ttl_millsec) in
      ret (s, if ok s then 1 else 0).

Definition Setvx (now : Z) (key value new_value : bytes) (ttl_millsec : Z) : M (Status * Z) :=
  let* m := GetMeta now kStrings key key in
  match m with
  | inl st => ret (st, 0)
  | inr (s, old_value) =>
      if ok s then
        let p := ParsedStringsValue true old_value in
        if IsStale now p then ret (Status_OK, 0)
        else if decide (value = UserValue p) then
          let* s := PutString key (timed_string now new_value ttl_millsec) in
          if ok s then ret (Status_OK, 1) else ret (s, 0)
        else ret (Status_OK, -1)
      else if IsNotFound s then ret (Status_OK, 0)
      else ret (s, 0)
  end.

Definition Delvx (now : Z) (key value : bytes) : M (Status * Z) :=
  let* m := GetMeta now kStrings key key in
  match m with
  | inl st => ret (st, 0)
  | inr (s, old_value) =>
      if ok s then
        let p := ParsedStringsValue true old_value in
        if IsStale now p then ret (Status_NotFound (lit "Stale"), 0)
        else if decide (value = UserValue p) then
          let* st := DeleteKey key in ret (st, 1)
        else ret (s, -1)
      else ret (s, 0)
  end.

(** A negative time is in the past. *)
Definition PKSetexAt (now : Z) (key value : bytes) (time_stamp_millsec : Z) : M Status :=
  let t := if time_stamp_millsec <? 0 then now - 1 else time_stamp_millsec in
  PutString key (InternalValue_SetEtime (new_string now value) (u64 t)).

(** ** Counters *)

(** [-value]; negating the least [int64_t] overflows. *)
Definition negate (value : Z) : option Z := if value =? LLONG_MIN then None else Some (- value).

(** The status and [*ret]. *)
Definition Decrby (now : Z) (key : bytes) (value : Z) : M (Status * option Z) :=
  let* m := GetMeta now kStrings key key in
  match m with
  | inl st => ret (st, None)
  | inr (s, old_value) =>
      let fresh :=
        let* n := lift (negate value) in
        let* st := PutString key (new_string now (to_string n)) in
        ret (st, Some n) in
      if ok s then
        let p := ParsedStringsValue true old_value in
        if IsStale now p then fresh
        else
          let timestamp := piv_etime p in
          let '(ival, rest, erange) := strtoll (c_str (UserValue p)) in
          if (erange : bool) || negb (Nat.eqb (length rest) 0) then
            ret (Status_Corruption (lit "Value is not a integer"), None)
          else if ((0 <=? value) && (ival <? LLONG_MIN + value)) ||
                  ((value <? 0) && (LLONG_MAX + value <? ival)) then
            ret (Status_InvalidArgument (lit "Overflow"), None)
          else
            let n := ival - value in
            let* st := PutString key
              (InternalValue_SetEtime (new_string now (to_string n)) timestamp) in
            ret (st, Some n)
      else if IsNotFound s then fresh
      else ret (s, None)
  end.

(** The status, [*ret] and [*expired_timestamp_millsec].  Unlike [Decrby] it
    does not look at [errno]. *)
Definition Incrby (now : Z) (key : bytes) (value : Z) : M (Status * option Z * option Z) :=
  let* m := GetMeta now kStrings key key in
  match m with
  | inl st => ret (st, None, None)
  | inr (s, old_value) =>
      let fresh :=
        let* buf := lift (Int64ToStr32 value) in
        let* st := PutString key (new_string now buf) in
        ret (st, Some value, None) in
      if ok s then
        let p := ParsedStringsValue true old_value in
        if IsStale now p then fresh
        else
          let timestamp := piv_etime p in
          let '(ival, rest, _) := strtoll (c_str (UserValue p)) in
          if negb (Nat.eqb (length rest) 0) then
            ret (Status_Corruption (lit "Value is not a integer"), None, None)
          else if ((0 <=? value) && (LLONG_MAX - value <? ival)) ||
                  ((value <? 0) && (ival <? LLONG_MIN - value)) then
            ret (Status_InvalidArgument (lit "Overflow"), None, None)
          else
            let n := ival + value in
            let* st := PutString key
              (InternalValue_SetEtime (new_string now (to_string n)) timestamp) in
            ret (st, Some n, Some (i64 timestamp))
      else if IsNotFound s then fresh
      else ret (s, None, None)
  end.

(** ** Ranges *)

(** [value.substr] of the part that the offsets select. *)
Definition getrange (value : bytes) (start_offset end_offset : Z) : bytes :=
  let size := Z.of_nat (length value) in
  let start_t := if 0 <=? start_offset then start_offset else size + start_offset in
  let end_t := if 0 <=? end_offset then end_offset else size + end_offset in
  if (size - 1 <? start_t) || (negb (start_t =? 0) && (end_t <? start_t)) ||
     (negb (start_t =? 0) && (end_t <? 0))
  then []
  else
    let start_t := if start_t <? 0 then 0 else start_t in
    let end_t := if size <=? end_t then size - 1 else end_t in
    let end_t := if (start_t =? 0) && (end_t <? 0) then 0 else end_t in
    subseq (Z.to_nat start_t) (Z.to_nat (end_t - start_t + 1)) value.

Definition Getrange (now : Z) (key : bytes) (start_offset end_offset : Z) : M (Status * bytes) :=
  let* m := GetMeta now kStrings key key in
  match m with
  | inl st => ret (st, [])
  | inr (s, value) =>
      if ok s then
        let p := ParsedStringsValue true value in
        if IsStale now p then ret (Status_NotFound (lit "Stale"), [])
        else
          let* value := lift (ParsedStringsValue_StripSuffix p) in
          ret (Status_OK, getrange value start_offset end_offset)
      else ret (s, [])
  end.

(** The status, [*ret], [*value] and [*ttl_millsec]. *)
Definition GetrangeWithValue (now : Z) (key : bytes) (start_offset end_offset : Z)
    : M (Status * bytes * bytes * option Z) :=
  fun r =>
  let '(_, raw) := db_Get (db_ r) kMetaCF (BaseKey_Encode key) in
  (let* m := GetMeta now kStrings key key in
   match m with
   | inl st => ret (st, [], raw, None)
   | inr (s, value) =>
       if ok s then
         let p := ParsedStringsValue true value in
         if IsStale now p then ret (Status_NotFound (lit "Stale"), [], [], Some (-2))
         else
           let* value := lift (ParsedStringsValue_StripSuffix p) in
           ret (Status_OK, getrange value start_offset end_offset, value,
                Some (ttl_of now (piv_etime p)))
       else if IsNotFound s then ret (s, [], [], Some (-2))
       else ret (s, [], value, None)
   end) r.

(** The value after [SETRANGE]; the new text is appended as a C string. *)
Definition setrange (old_value : bytes) (start_offset : Z) (value : bytes) : bytes :=
  if Z.of_nat (length old_value) <? start_offset then
    old_value ++ replicate (Z.to_nat start_offset - length old_value) x00 ++ c_str value
  else
    let head := take (Z.to_nat start_offset) old_value in
    let tail :=
      if u64 (start_offset + Z.of_nat (length value)) <? Z.of_nat (length old_value)
      then drop (Z.to_nat start_offset + length value) old_value else [] in
    head ++ c_str value ++ tail.

Definition Setrange (now : Z) (key : bytes) (start_offset : Z) (value : bytes)
    : M (Status * option Z) :=
  if start_offset <? 0 then ret (Status_InvalidArgument (lit "offset < 0"), None)
  else
    let* m := GetMeta now kStrings key key in
    match m with
    | inl st => ret (st, None)
    | inr (s, old_value) =>
        if ok s then
          let p := ParsedStringsValue true old_value in
          let* old_value := lift (ParsedStringsValue_StripSuffix p) in
          let '(timestamp, new_value) :=
            if IsStale now p then (0, replicate (Z.to_nat start_offset) x00 ++ c_str value)
            else (piv_etime p, setrange old_value start_offset value) in
          let* st := PutString key (InternalValue_SetEtime (new_string now new_value) timestamp) in
          ret (st, Some (size32 new_value))
        else if IsNotFound s then
          let new_value := replicate (Z.to_nat start_offset) x00 ++ c_str value in
          let* st := PutString key (new_string now new_value) in
          ret (st, Some (size32 new_value))
        else ret (s, None)
    end.

(** ** Bits *)

(** [offset >> 3] as a [size_t], and [7 - (offset & 7)]. *)
Definition bit_byte (offset : Z) : Z := u64 (Z.shiftr offset 3).
Definition bit_index (offset : Z) : Z := 7 - Z.land offset 7.

(** The bit at an offset; [None] is a read far outside the string, when
    [byte + 1] wraps. *)
Definition read_bit (data_value : bytes) (offset : Z) : option Z :=
  if Z.of_nat (length data_value) <? u64 (bit_byte offset + 1) then Some 0
  else
    c ← data_value !! Z.to_nat (bit_byte offset);
    Some (byte_bit c (bit_index offset)).

Definition GetBit (now : Z) (key : bytes) (offset : Z) : M (Status * option Z) :=
  let* m := GetMeta now kStrings key key in
  match m with
  | inl st => ret (st, None)
  | inr (s, meta_value) =>
      if ok s then
        let p := ParsedStringsValue true meta_value in
        if IsStale now p then ret (Status_OK, Some 0)
        else
          let* bit := lift (read_bit (UserValue p) offset) in
          ret (Status_OK, Some bit)
      else if IsNotFound s then
        let* bit := lift (read_bit [] offset) in
        ret (Status_OK, Some bit)
      else ret (s, None)
  end.

Definition SetBit (now : Z) (key : bytes) (offset on : Z) : M (Status * option Z) :=
  if offset <? 0 then ret (Status_InvalidArgument (lit "offset < 0"), None)
  else
    let* m := GetMeta now kStrings key key in
    match m with
    | inl st => ret (st, None)
    | inr (s, meta_value) =>
        if ok s || IsNotFound s then
          let p := ParsedStringsValue true meta_value in
          let '(data_value, timestamp) :=
            if ok s && negb (IsStale now p) then (UserValue p, piv_etime p) else ([], 0) in
          let* bit := lift (read_bit data_value offset) in
          if bit =? on then ret (Status_OK, Some bit)
          else
            let index := Z.to_nat (bit_byte offset) in
            let byte_val := byte_set_bit (byte_at data_value index) (bit_index offset) on in
            let data_value := put_byte data_value index byte_val in
            let* st := PutString key
              (InternalValue_SetEtime (new_string now data_value) timestamp) in
            ret (st, Some bit)
        else ret (s, None)
    end.

(** The first and last byte [BITCOUNT] and [BITPOS] look at. *)
Definition clamp_start (start_offset value_length : Z) : Z :=
  let start_offset := if start_offset <? 0 then start_offset + value_length else start_offset in
  if start_offset <? 0 then 0 else start_offset.

Definition BitCount (now : Z) (key : bytes) (start_offset end_offset : Z) (have_range : bool)
    : M (Status * Z) :=
  let* m := GetMeta now kStrings key key in
  match m with
  | inl st => ret (st, 0)
  | inr (s, value) =>
      if ok s then
        let p := ParsedStringsValue true value in
        if IsStale now p then ret (Status_NotFound (lit "Stale"), 0)
        else
          let* value := lift (ParsedStringsValue_StripSuffix p) in
          let value_length := Z.of_nat (length value) in
          let count first last :=
            let* l := lift (read_bytes value first (last - first + 1)) in
            let* n := lift (GetBitCount l) in
            ret (Status_OK, n) in
          if have_range then
            let start_offset := clamp_start start_offset value_length in
            let end_offset := clamp_start end_offset value_length in
            let end_offset :=
              if value_length <=? end_offset then value_length - 1 else end_offset in
            if end_offset <? start_offset then ret (Status_OK, 0) else count start_offset end_offset
          else count 0 (Z.max (value_length - 1) 0)
      else ret (s, 0)
  end.

(** The source strings and their greatest length; [inl] is an early return. *)
Fixpoint BitOp_sources (now : Z) (dest_key : bytes) (src_keys : list bytes)
    (src_values : list bytes) (max_len : Z) : M (Status + list bytes * Z) :=
  match src_keys with
  | [] => ret (inr (src_values, max_len))
  | src_key :: src_keys =>
      let* m := GetMeta now kStrings src_key dest_key in
      match m with
      | inl st => ret (inl st)
      | inr (s, value) =>
          let p := ParsedStringsValue true value in
          if negb (ok s) && negb (IsNotFound s) then ret (inl s)
          else
            let* value :=
              (if ok s then if IsStale now p then ret [] else lift (ParsedStringsValue_StripSuffix p)
               else ret []) in
            BitOp_sources now dest_key src_keys (src_values ++ [value])
              (Z.max max_len (Z.of_nat (length value)))
      end
  end.

(** The status, [value_to_dest] and [*ret]. *)
Definition BitOp (now : Z) (op : BitOpType) (dest_key : bytes) (src_keys : list bytes)
    : M (Status * option (bytes * Z)) :=
  if (bool_decide (op = kBitOpNot) && negb (Nat.eqb (length src_keys) 1)) ||
     Nat.eqb (length src_keys) 0
  then ret (Status_InvalidArgument (lit "the number of source keys is not right"), None)
  else
    let* sources := BitOp_sources now dest_key src_keys [] 0 in
    match sources with
    | inl st => ret (st, None)
    | inr (src_values, max_len) =>
        let* dest_value := lift (BitOpOperate op src_values (Z.to_nat max_len)) in
        let* st := PutString dest_key (new_string now dest_value) in
        ret (st, Some (dest_value, Z.of_nat (length dest_value)))
    end.

(** [GetBitPos] of a part of the value, and the adjustments after it. *)
Definition bitpos_in (value : bytes) (start_offset end_offset bit : Z) : option Z :=
  let bytes := end_offset - start_offset + 1 in
  data ← read_bytes value start_offset (u32 bytes);
  let pos := GetBitPos data bit in
  let pos := if (pos =? 8 * bytes) && (bit =? 0) then -1 else pos in
  Some (if negb (pos =? -1) then pos + 8 * start_offset else pos).

(** What the three overloads share; [range] turns the length of the value into
    the first and last byte, or [None] for the answer -1. *)
Definition BitPos_with (now : Z) (key : bytes) (bit : Z) (range : Z -> option (Z * Z))
    : M (Status * option Z) :=
  let* m := GetMeta now kStrings key key in
  match m with
  | inl st => ret (st, None)
  | inr (s, value) =>
      if ok s then
        let p := ParsedStringsValue true value in
        if IsStale now p then
          ret (Status_NotFound (lit "Stale"),
               if bit =? 1 then Some (-1) else if bit =? 0 then Some 0 else None)
        else
          let* value := lift (ParsedStringsValue_StripSuffix p) in
          match range (Z.of_nat (length value)) with
          | None => ret (Status_OK, Some (-1))
          | Some (start_offset, end_offset) =>
              let* pos := lift (bitpos_in value start_offset end_offset bit) in
              ret (Status_OK, Some pos)
          end
      else ret (s, None)
  end.

Definition BitPos (now : Z) (key : bytes) (bit : Z) : M (Status * option Z) :=
  BitPos_with now key bit (fun value_length => Some (0, Z.max (value_length - 1) 0)).

Definition BitPos_from (now : Z) (key : bytes) (bit start_offset : Z) : M (Status * option Z) :=
  BitPos_with now key bit (fun value_length =>
    let end_offset := Z.max (value_length - 1) 0 in
    let start_offset := clamp_start start_offset value_length in
    if end_offset <? start_offset then None
    else if value_length - 1 <? start_offset then None
    else Some (start_offset, end_offset)).

Definition BitPos_range (now : Z) (key : bytes) (bit start_offset end_offset : Z)
    : M (Status * option Z) :=
  BitPos_with now key bit (fun value_length =>
    let start_offset := clamp_start start_offset value_length in
    let end_offset := if end_offset <? 0 then end_offset + value_length else end_offset in
    let end_offset := if value_length - 1 <? end_offset then value_length - 1 else end_offset in
    let end_offset := if end_offset <? 0 then 0 else end_offset in
    if end_offset <? start_offset then None
    else if value_length - 1 <? start_offset then None
    else Some (start_offset, end_offset)).

(** ** Expiry and deletion *)

(** [StringsExpire], [StringsDel] and [StringsExpireat] declare a second
    [Status s] where they read the value, so the status of that read is not
    seen by the rest of the command. *)
Definition StringsExpire (now : Z) (key : bytes) (ttl_millsec : Z) (prefetch_meta : bytes)
    : M Status :=
  let* m := GetMetaOrPrefetched now kStrings key prefetch_meta in
  match m with
  | inl st => ret st
  | inr (_, value) =>
      let p := ParsedStringsValue true value in
      if IsStale now p then ret (Status_NotFound (lit "Stale"))
      else if 0 <? ttl_millsec then
        let* p := lift (ParsedStringsValue_SetRelativeTimestamp now p ttl_millsec) in
        PutRaw key (piv_data p)
      else DeleteKey key
  end.

Definition StringsDel (now : Z) (key prefetch_meta : bytes) : M Status :=
  let* m := GetMetaOrPrefetched now kStrings key prefetch_meta in
  match m with
  | inl st => ret st
  | inr (_, value) =>
      let p := ParsedStringsValue true value in
      if IsStale now p then ret (Status_NotFound (lit "Stale")) else DeleteKey key
  end.

Definition StringsExpireat (now : Z) (key : bytes) (timestamp_millsec : Z) (prefetch_meta : bytes)
    : M Status :=
  let* m := GetMetaOrPrefetched now kStrings key prefetch_meta in
  match m with
  | inl st => ret st
  | inr (_, value) =>
      let p := ParsedStringsValue true value in
      if IsStale now p then ret (Status_NotFound (lit "Stale"))
      else if 0 <? timestamp_millsec then
        let* p := lift (ParsedStringsValue_SetEtime p (u64 timestamp_millsec)) in
        PutRaw key (piv_data p)
      else DeleteKey key
  end.

Definition StringsPersist (now : Z) (key prefetch_meta : bytes) : M Status :=
  let* m := GetMetaOrPrefetched now kStrings key prefetch_meta in
  match m with
  | inl st => ret st
  | inr (s, value) =>
      if ok s then
        let p := ParsedStringsValue true value in
        if IsStale now p then ret (Status_NotFound (lit "Stale"))
        else if piv_etime p =? 0 then ret (Status_NotFound (lit "Not have an associated timeout"))
        else
          let* p := lift (ParsedStringsValue_SetEtime p 0) in
          PutRaw key (piv_data p)
      else ret s
  end.

Definition StringsTTL (now : Z) (key prefetch_meta : bytes) : M (Status * option Z) :=
  let* m := GetMetaOrPrefetched now kStrings key prefetch_meta in
  match m with
  | inl st => ret (st, None)
  | inr (s, value) =>
      if ok s then
        let p := ParsedStringsValue true value in
        if IsStale now p then ret (Status_NotFound (lit "Stale"), Some (-2))
        else ret (s, Some (ttl_of now (piv_etime p)))
      else if IsNotFound s then ret (s, Some (-2))
      else ret (s, None)
  end.

(** ** Keys of any type *)

Definition GetType (now : Z) (key : bytes) : M (Status * DataType) :=
  let* '(s, meta_value) := Get kMetaCF (BaseKey_Encode key) in
  if ok s then
    let* stale := lift (ExpectedStale now meta_value) in
    ret (Status_OK, if stale : bool then kNones else GetMetaValueType meta_value)
  else ret (Status_OK, kNones).

Definition IsExist (now : Z) (key : bytes) : M Status :=
  let* '(s, meta_value) := Get kMetaCF (BaseKey_Encode key) in
  if ok s then
    let* stale := lift (ExpectedStale now meta_value) in
    ret (if stale : bool then Status_NotFound [] else Status_OK)
  else ret (Status_NotFound []).

(** ** Counting *)

(** The loop of [ScanStringsKeyNum] from an iterator over the meta family; the
    last component of the accumulator is [ttl_sum]. *)
Fixpoint scan_strings (fuel : nat) (now : Z) (it : Iterator) (acc : Z * Z * Z * Z)
    : option (Z * Z * Z * Z) :=
  match fuel with
  | O => None
  | Datatypes.S fuel =>
      if Valid it then
        let '(keys, expires, invaild_keys, ttl_sum) := acc in
        if ExpectedMetaValue kStrings (iter_value it) then
          let p := ParsedStringsValue false (iter_value it) in
          let acc :=
            if IsStale now p then (keys, expires, u64 (invaild_keys + 1), ttl_sum)
            else if IsPermanentSurvival p then (u64 (keys + 1), expires, invaild_keys, ttl_sum)
            else (u64 (keys + 1), u64 (expires + 1), invaild_keys,
                  u64 (ttl_sum + (piv_etime p - now))) in
          scan_strings fuel now (Next it) acc
        else scan_strings fuel now (Next it) acc
      else Some acc
  end.

Definition ScanStringsKeyNum (fuel : nat) (now : Z) : M (Status * KeyInfo) :=
  let* db := gets db_ in
  let* '(keys, expires, invaild_keys, ttl_sum) :=
    lift (scan_strings fuel now (SeekToFirst (NewIterator db kMetaCF)) (0, 0, 0, 0)) in
  ret (Status_OK,
       mkKeyInfo keys expires (if negb (expires =? 0) then ttl_sum / expires else 0) invaild_keys).

End Strings.
