(* ===== verification/StringSpec.v ===== *)
(** * Strings in the database

    [str_holds] relates a database to the string stored under a key, if any.
    The theorems about string commands say what a command returns and which
    string the key holds afterwards; [str_stores] adds that nothing else has
    changed. *)

From S2P Require Import Prelude Coding Numbers Bits KeyFormat Comparator ValueFormat RocksDB LruCache Redis KeySpace Strings.
Open Scope Z_scope.

(** ** String values as stored *)

(** The bytes of the string [v] that expires at [e] (0: never). *)
Definition string_bytes (raw v : bytes) (e : Z) : Prop :=
  exists res c x, raw = concat [[x00]; v; res; c; x] /\ length res = 16%nat /\ length c = 8%nat /\
    length x = 8%nat /\ load_time (DecodeFixed64 x) = e.

Lemma string_bytes_type raw v e : string_bytes raw v e -> GetMetaValueType raw = kStrings.
Proof. by intros (res & c & x & -> & _). Qed.

Lemma string_bytes_parse w now raw v e : string_bytes raw v e ->
  let p := ParsedStringsValue w raw in
  piv_etime p = e /\ UserValue p = v /\ IsStale now p = stale now e.
Proof.
  intros (res & c & x & -> & Hr & Hc & Hx & He). cbv zeta. split_and!.
  - by rewrite strings_parse.
  - by apply strings_user_value.
  - rewrite IsStale_stale, strings_parse by done. cbn [piv_etime]. by rewrite He.
Qed.

Lemma string_bytes_strip raw v e :
  string_bytes raw v e -> ParsedStringsValue_StripSuffix (ParsedStringsValue true raw) = Some v.
Proof. intros (res & c & x & -> & Hr & Hc & Hx & He). by apply strings_strip. Qed.

(** Changing the expiry time in place. *)
Lemma string_bytes_SetEtime raw v e t : string_bytes raw v e -> 0 <= t < 2 ^ 63 ->
  exists p, ParsedStringsValue_SetEtime (ParsedStringsValue true raw) t = Some p /\
    string_bytes (piv_data p) v t.
Proof.
  intros (res & c & x & -> & Hr & Hc & Hx & He) Ht. rewrite strings_parse by done.
  unfold ParsedStringsValue_SetEtime, poke_back. cbn [piv_with_etime piv_writable piv_data piv_etime].
  assert (Hlen : length (concat [[x00]; v; res; c; x]) = (33 + length v)%nat).
  { rewrite length_chunks. cbn. lia. }
  rewrite Hlen. change (kStringsValueSuffixLength - kSuffixReserveLength - kTimestampLength)%nat with 8%nat.
  rewrite (proj2 (Nat.ltb_ge _ _)) by lia. eexists. split; [done|].
  exists res, c, (EncodeFixed64 (store_time t)). split_and!; try done.
  - cbn [piv_poke piv_with_etime piv_data piv_writable]. rewrite (memcpy_chunk 4 _ _ x); [done|done| |].
    + by rewrite length_EncodeFixed64.
    + rewrite length_chunks. cbn. lia.
  - rewrite DecodeFixed64_EncodeFixed64, u64_id, load_store_time by (done || by apply store_time_range). done.
Qed.

(** What an encoder writes. *)
Lemma string_bytes_Encode `{U : Uninit} now v e : clock_ok now -> 0 <= e < 2 ^ 63 ->
  string_bytes (StringsValue_Encode (InternalValue_SetEtime (new_string now v) e)) v e.
Proof.
  intros Hnow He. exists reserve2, (EncodeFixed64 (store_time now)), (EncodeFixed64 (store_time e)).
  rewrite StringsValue_Encode_fields. split_and!; try done.
  by rewrite DecodeFixed64_EncodeFixed64, u64_id, load_store_time by (done || by apply store_time_range).
Qed.

Lemma new_string_SetEtime now v : new_string now v = InternalValue_SetEtime (new_string now v) 0.
Proof. done. Qed.

Section StringSpec.
Context {R : RocksDB} {L : RocksDBLaws R} {U : Uninit}.

(** ** The string of a key *)

(** No string: nothing, a stale value of another type, or a stale string;
    otherwise its value and expiry time. *)
Inductive str_holds (db : DB) (now : Z) (key : bytes) : option (bytes * Z) -> Prop :=
  | sh_gone : gone kStrings db now key -> str_holds db now key None
  | sh_stale raw v e : meta_of db key = Some raw -> string_bytes raw v e -> stale now e = true ->
      str_holds db now key None
  | sh_live raw v e : meta_of db key = Some raw -> string_bytes raw v e -> stale now e = false ->
      str_holds db now key (Some (v, e)).

(** After a command [key] holds [o] and nothing else has changed. *)
Definition str_stores (now : Z) (key : bytes) (o : option (bytes * Z)) (r r' : Redis) : Prop :=
  engine_ok r' /\ str_holds (db_ r') now key o /\ only_meta key (db_ r) (db_ r').

(** What can be seen of a string that expires at [e]. *)
Definition visible (now : Z) (v : bytes) (e : Z) : option (bytes * Z) :=
  if stale now e then None else Some (v, e).

Lemma str_holds_bytes db now key raw v e :
  meta_of db key = Some raw -> string_bytes raw v e -> str_holds db now key (visible now v e).
Proof.
  intros Hm Hb. unfold visible. destruct (stale now e) eqn:Hs; [by eapply sh_stale|by eapply sh_live].
Qed.

(** ** Writing a string *)

Lemma PutRaw_stores now key raw v e r :
  key_ok key = true -> engine_ok r -> string_bytes raw v e ->
  exists r', PutRaw key raw r = Some (Status_OK, r') /\ str_stores now key (visible now v e) r r'.
Proof.
  intros K He Hb. destruct (Write_meta key (Some raw) r K He) as (r' & HW & He' & Hm & Ho).
  exists r'. split; [done|]. split_and!; [done|by eapply str_holds_bytes|done].
Qed.

Lemma PutString_stores now key v e r :
  key_ok key = true -> clock_ok now -> engine_ok r -> 0 <= e < 2 ^ 63 ->
  exists r', PutString key (InternalValue_SetEtime (new_string now v) e) r = Some (Status_OK, r') /\
    str_stores now key (visible now v e) r r'.
Proof. intros K Hnow He Ht. by apply PutRaw_stores, string_bytes_Encode. Qed.

Lemma PutNew_stores now key v r :
  key_ok key = true -> clock_ok now -> engine_ok r ->
  exists r', PutString key (new_string now v) r = Some (Status_OK, r') /\
    str_stores now key (Some (v, 0)) r r'.
Proof. intros K Hnow He. rewrite new_string_SetEtime. by apply PutString_stores. Qed.

Lemma DeleteKey_stores now key r :
  key_ok key = true -> engine_ok r ->
  exists r', DeleteKey key r = Some (Status_OK, r') /\ str_stores now key None r r'.
Proof.
  intros K He. destruct (Write_meta key None r K He) as (r' & HW & He' & Hm & Ho).
  exists r'. split; [done|]. split_and!; [done| |done]. apply sh_gone. by left.
Qed.

Lemma str_stores_refl now key o r :
  engine_ok r -> str_holds (db_ r) now key o -> str_stores now key o r r.
Proof. intros He Ho. split_and!; [done..|]. done. Qed.

(** ** How string commands start *)

Lemma bind_string {A} now key named raw v e r (f : Status + Status * bytes -> M A) :
  engine_ok r -> meta_of (db_ r) key = Some raw -> string_bytes raw v e ->
  bind (GetMeta now kStrings key named) f r = f (inr (Status_OK, raw)) r.
Proof.
  intros [Hdb _] Hm Hb. apply bind_run. apply GetMeta_typed; [done..|]. by eapply string_bytes_type.
Qed.

Lemma bind_gone {A} now key named r (f : Status + Status * bytes -> M A) :
  engine_ok r -> gone kStrings (db_ r) now key ->
  bind (GetMeta now kStrings key named) f r =
  f (inr (Status_NotFound [], default [] (meta_of (db_ r) key))) r.
Proof. intros [Hdb _] Hg. by apply bind_run, GetMeta_gone. Qed.

Lemma db_Get_meta r key :
  engine_ok r ->
  db_Get (db_ r) kMetaCF (BaseKey_Encode key) =
  match meta_of (db_ r) key with Some v => (Status_OK, v) | None => (Status_NotFound [], []) end.
Proof. intros [Hdb _]. by apply Get_lookup. Qed.

Lemma bind_Get {A} key r (f : Status * bytes -> M A) :
  engine_ok r ->
  bind (Get kMetaCF (BaseKey_Encode key)) f r =
  f (match meta_of (db_ r) key with
     | Some v => (Status_OK, v) | None => (Status_NotFound [], []) end) r.
Proof. intros He. apply bind_run. unfold Get. by rewrite db_Get_meta. Qed.

Lemma string_expected raw v e : string_bytes raw v e -> ExpectedMetaValue kStrings raw = true.
Proof. intros Hb. apply bool_decide_eq_true. symmetry. by eapply string_bytes_type. Qed.

End StringSpec.

(** Opens the start of a string command on a string that is stored: the
    parser's results are those of [string_bytes]. *)
Ltac on_string Hm Hb now :=
  let H1 := fresh in let H2 := fresh in let H3 := fresh in
  match type of Hb with string_bytes ?raw ?v ?e =>
    destruct (string_bytes_parse true now raw v e Hb) as (H1 & H2 & H3);
    cbv zeta in H1, H2, H3;
    change (ok Status_OK) with true; cbv iota;
    rewrite ?H1, ?H2, ?H3; clear H1 H2 H3
  end.

(** The three ways a string command starts, by cases on what the key holds:
    missing, stale, live. *)
Ltac string_cases Ho He now key r :=
  let Hg := fresh "Hg" in let raw := fresh "raw" in let v := fresh "v" in let e := fresh "e" in
  let Hm := fresh "Hm" in let Hb := fresh "Hb" in let Hs := fresh "Hs" in
  destruct Ho as [Hg|raw v e Hm Hb Hs|raw v e Hm Hb Hs];
  [ rewrite ?(bind_gone now key key r _ He Hg)
  | rewrite ?(bind_string now key key raw v e r _ He Hm Hb); on_string Hm Hb now; rewrite ?Hs
  | rewrite ?(bind_string now key key raw v e r _ He Hm Hb); on_string Hm Hb now; rewrite ?Hs ];
  change (ok Status_OK) with true; change (ok (Status_NotFound [])) with false;
  change (IsNotFound (Status_NotFound [])) with true; cbn [andb orb negb]; cbv iota.

(** ** Reading

    The commands that read a string, with and without its lifetime. *)

(** The bytes from the first to the last offset, negative offsets counting
    from the end.  An end before the string selects nothing, except that from
    offset 0 it selects the first byte. *)
Definition redis_getrange (v : bytes) (start stop : Z) : bytes :=
  let n := Z.of_nat (length v) in
  let position i := if 0 <=? i then i else n + i in
  if (position start =? 0) && (position stop <? 0) then take 1 v
  else drop (Z.to_nat (position start)) (take (Z.to_nat (position stop + 1)) v).

Lemma getrange_correct v start stop : getrange v start stop = redis_getrange v start stop.
Proof.
  unfold getrange, redis_getrange, subseq. cbv zeta.
  set (n := Z.of_nat (length v)).
  set (a := if 0 <=? start then start else n + start).
  set (b := if 0 <=? stop then stop else n + stop).
  destruct (decide (v = [])) as [->|Hv].
  { rewrite !drop_nil, !take_nil. rewrite drop_nil. by destruct (_ || _), (_ && _). }
  assert (Hn : 0 < n) by (destruct v; [done|simpl in n; lia]). clearbody a b.
  destruct (Z.ltb_spec (n - 1) a); simpl.
  { destruct (Z.eqb_spec a 0) as [->|]; simpl.
    - lia.
    - rewrite drop_ge; [done|]. rewrite length_take. lia. }
  destruct (Z.eqb_spec a 0) as [->|Ha]; simpl.
  - change (Z.to_nat 0) with 0%nat. rewrite !drop_0. destruct (Z.ltb_spec b 0) as [Hb|Hb].
    + rewrite (proj2 (Z.leb_gt n b)) by lia. rewrite (proj2 (Z.ltb_lt b 0)) by done. done.
    + rewrite Z.sub_0_r. destruct (Z.leb_spec n b).
      * rewrite (proj2 (Z.ltb_ge (n - 1) 0)) by lia. rewrite !take_ge by lia. done.
      * rewrite (proj2 (Z.ltb_ge b 0)) by lia. done.
  - destruct (Z.ltb_spec b a); simpl; [rewrite drop_ge; [done|rewrite length_take; lia]|].
    destruct (Z.ltb_spec b 0); simpl.
    { replace (Z.to_nat (b + 1)) with 0%nat by lia. by rewrite take_0, drop_nil. }
    destruct (Z.ltb_spec a 0); simpl.
    + replace (Z.to_nat a) with 0%nat by lia. change (Z.to_nat 0) with 0%nat. rewrite !drop_0, Z.sub_0_r.
      destruct (Z.leb_spec n b); rewrite (proj2 (Z.ltb_ge _ 0)) by lia; [rewrite !take_ge by lia|]; done.
    + rewrite (proj2 (Z.eqb_neq a 0)) by done. simpl. rewrite take_drop_commute.
      destruct (Z.leb_spec n b); f_equal; rewrite ?take_ge by lia; try done. f_equal. lia.
Qed.

Section StringRead.
Context {R : RocksDB} {L : RocksDBLaws R} {U : Uninit}.

(** What the reading commands answer for a missing string. *)
Definition reads_missing (now : Z) (key : bytes) (r : Redis) (st : Status) : Prop :=
  status_code st = kNotFound /\
  (exists x, Redis_Get now key r = Some ((st, x), r)) /\
  (exists x, MGet now key r = Some ((st, x), r)) /\
  Strlen now key r = Some ((st, 0), r) /\
  (forall start stop, Getrange now key start stop r = Some ((st, []), r) /\
     GetrangeWithValue now key start stop r = Some ((st, [], [], Some (-2)), r)) /\
  GetWithTTL now key r = Some ((st, [], Some (-2)), r) /\
  MGetWithTTL now key r = Some ((st, [], Some (-2)), r).

Lemma GetMetaAny_string key raw v e r :
  engine_ok r -> meta_of (db_ r) key = Some raw -> string_bytes raw v e ->
  GetMetaAny key r = Some ((Status_OK, raw), r).
Proof.
  intros He Hm Hb. unfold GetMetaAny. rewrite bind_Get, Hm by done.
  change (ok Status_OK) with true. simpl. by rewrite (string_expected raw v e Hb).
Qed.

Lemma GetMetaAny_gone now key r :
  engine_ok r -> gone kStrings (db_ r) now key ->
  GetMetaAny key r = Some ((Status_NotFound [], default [] (meta_of (db_ r) key)), r).
Proof.
  intros He [Hm|(mv & Hm & Ht & Hs)]; unfold GetMetaAny; rewrite bind_Get, Hm by done; [done|].
  change (ok Status_OK) with true. unfold ExpectedMetaValue.
  by rewrite bool_decide_eq_false_2 by congruence.
Qed.

Lemma reads_gone now key r :
  engine_ok r -> gone kStrings (db_ r) now key -> reads_missing now key r (Status_NotFound []).
Proof.
  intros He Hg. split; [done|].
  assert (HG : exists x, Redis_Get now key r = Some ((Status_NotFound [], x), r)).
  { eexists. unfold Redis_Get. rewrite db_Get_meta by done. destruct (meta_of (db_ r) key);
      by rewrite (bind_gone now key key r _ He Hg). }
  split_and!; [done| | | | |].
  - eexists. unfold MGet. by rewrite (bind_run _ _ _ _ _ (GetMetaAny_gone now key r He Hg)).
  - destruct HG as (x & HG). unfold Strlen. by rewrite (bind_run _ _ _ _ _ HG).
  - intros start stop. unfold Getrange, GetrangeWithValue. rewrite db_Get_meta by done.
    destruct (meta_of (db_ r) key); by rewrite !(bind_gone now key key r _ He Hg).
  - unfold GetWithTTL. rewrite bind_Get by done. destruct Hg as [Hm|(mv & Hm & Ht & Hs)]; rewrite Hm; [done|].
    change (ok Status_OK) with true. unfold ExpectedMetaValue. rewrite bool_decide_eq_false_2 by congruence.
    simpl. by rewrite (bind_lift _ _ _ _ Hs).
  - unfold MGetWithTTL. by rewrite (bind_run _ _ _ _ _ (GetMetaAny_gone now key r He Hg)).
Qed.

Lemma reads_stale now key raw v e r :
  engine_ok r -> meta_of (db_ r) key = Some raw -> string_bytes raw v e -> stale now e = true ->
  reads_missing now key r (Status_NotFound (lit "Stale")).
Proof.
  intros He Hm Hb Hs. split; [done|].
  assert (HG : Redis_Get now key r = Some ((Status_NotFound (lit "Stale"), []), r)).
  { unfold Redis_Get. rewrite db_Get_meta, Hm by done. rewrite (bind_string now key key raw v e) by done.
    on_string Hm Hb now. by rewrite Hs. }
  pose proof (GetMetaAny_string key raw v e r He Hm Hb) as HA.
  split_and!; [by exists []| | | | |].
  - exists []. unfold MGet. rewrite (bind_run _ _ _ _ _ HA). on_string Hm Hb now. by rewrite Hs.
  - unfold Strlen. by rewrite (bind_run _ _ _ _ _ HG).
  - intros start stop. unfold Getrange, GetrangeWithValue. rewrite db_Get_meta, Hm by done.
    rewrite !(bind_string now key key raw v e) by done. on_string Hm Hb now. by rewrite Hs.
  - unfold GetWithTTL. rewrite bind_Get, Hm by done. change (ok Status_OK) with true.
    rewrite (string_expected raw v e Hb). simpl. unfold HandleParsedStringsValue.
    on_string Hm Hb now. by rewrite Hs.
  - unfold MGetWithTTL. rewrite (bind_run _ _ _ _ _ HA). unfold HandleParsedStringsValue.
    on_string Hm Hb now. by rewrite Hs.
Qed.

(** Reading commands on a key that holds a string return its value, part of it
    or its length, with the remaining lifetime where asked (-1: none), and on a
    key without one report it missing (lifetime -2); the engine does not
    change. *)
Theorem string_reads_correct now key o r :
  clock_ok now -> engine_ok r -> str_holds (db_ r) now key o ->
  match o with
  | Some (v, e) =>
      Redis_Get now key r = Some ((Status_OK, v), r) /\
      MGet now key r = Some ((Status_OK, v), r) /\
      Strlen now key r = Some ((Status_OK, size32 v), r) /\
      (forall start stop,
         Getrange now key start stop r = Some ((Status_OK, redis_getrange v start stop), r)) /\
      (is_i64 e ->
         let ttl := Some (if e =? 0 then -1 else e - now) in
         GetWithTTL now key r = Some ((Status_OK, v, ttl), r) /\
         MGetWithTTL now key r = Some ((Status_OK, v, ttl), r) /\
         forall start stop, GetrangeWithValue now key start stop r =
           Some ((Status_OK, redis_getrange v start stop, v, ttl), r))
  | None => exists st, reads_missing now key r st
  end.
Proof.
  intros Hnow He [Hg|raw v e Hm Hb Hs|raw v e Hm Hb Hs].
  { eexists. by apply reads_gone. }
  { eexists. by eapply reads_stale. }
  pose proof (GetMetaAny_string key raw v e r He Hm Hb) as HA.
  pose proof (string_bytes_strip raw v e Hb) as HS.
  assert (HG : Redis_Get now key r = Some ((Status_OK, v), r)).
  { unfold Redis_Get. rewrite db_Get_meta, Hm by done. rewrite (bind_string now key key raw v e) by done.
    on_string Hm Hb now. by rewrite Hs, (bind_lift _ _ _ _ HS). }
  split_and!; [done| | | |].
  - unfold MGet. rewrite (bind_run _ _ _ _ _ HA). on_string Hm Hb now. by rewrite Hs, (bind_lift _ _ _ _ HS).
  - unfold Strlen. by rewrite (bind_run _ _ _ _ _ HG).
  - intros start stop. unfold Getrange. rewrite (bind_string now key key raw v e) by done.
    on_string Hm Hb now. by rewrite Hs, (bind_lift _ _ _ _ HS), getrange_correct.
  - intros Hi ttl. pose proof (ttl_live now e Hnow Hs Hi) as Httl.
    assert (HH : HandleParsedStringsValue now (ParsedStringsValue true raw) = Some (Status_OK, v, ttl_of now e)).
    { unfold HandleParsedStringsValue. on_string Hm Hb now. by rewrite Hs, HS. }
    subst ttl. rewrite <- Httl. split_and!.
    + unfold GetWithTTL. rewrite bind_Get, Hm by done. change (ok Status_OK) with true.
      rewrite (string_expected raw v e Hb). simpl. by rewrite (bind_lift _ _ _ _ HH).
    + unfold MGetWithTTL. rewrite (bind_run _ _ _ _ _ HA). change (ok Status_OK) with true. cbv iota.
      by rewrite (bind_lift _ _ _ _ HH).
    + intros start stop. unfold GetrangeWithValue. rewrite db_Get_meta, Hm by done.
      rewrite (bind_string now key key raw v e) by done. on_string Hm Hb now.
      by rewrite Hs, (bind_lift _ _ _ _ HS), getrange_correct.
Qed.

End StringRead.
