(* ===== verification/StringWrite.v ===== *)
(** * SET and its variants, GETSET, APPEND, MSET and MSETNX *)

From S2P Require Import Prelude Coding Numbers Bits KeyFormat Comparator ValueFormat RocksDB LruCache Redis KeySpace Strings StringSpec.
Open Scope Z_scope.

Section StringWrite.
Context {R : RocksDB} {L : RocksDBLaws R} {U : Uninit}.

(** The expiry time a relative lifetime gives; lifetimes that are not positive
    give none. *)
Definition expiry (now ttl : Z) : Z := if 0 <? ttl then now + ttl else 0.

Lemma expiry_range now ttl : clock_ok now -> now + ttl < 2 ^ 63 -> 0 <= expiry now ttl < 2 ^ 63.
Proof. unfold expiry, clock_ok. destruct (Z.ltb_spec 0 ttl); lia. Qed.

Lemma expiry_visible now ttl v :
  clock_ok now -> visible now v (expiry now ttl) = Some (v, expiry now ttl).
Proof.
  unfold expiry, clock_ok, visible, stale. intros Hnow. destruct (Z.ltb_spec 0 ttl); [|done].
  by rewrite (proj2 (Z.ltb_ge _ _)), andb_false_r by lia.
Qed.

Lemma timed_string_stores now key value ttl r :
  key_ok key = true -> clock_ok now -> engine_ok r -> now + ttl < 2 ^ 63 ->
  exists r', PutString key (timed_string now value ttl) r = Some (Status_OK, r') /\
    str_stores now key (Some (value, expiry now ttl)) r r'.
Proof.
  intros K Hnow He Ht. pose proof (expiry_range now ttl Hnow Ht) as Hr.
  rewrite <- (expiry_visible now ttl value Hnow).
  replace (timed_string now value ttl) with
    (InternalValue_SetEtime (new_string now value) (expiry now ttl)).
  - by apply PutString_stores.
  - unfold timed_string, expiry, clock_ok, InternalValue_SetRelativeTimeInMillsec in *.
    destruct (Z.ltb_spec 0 ttl); [|done]. by rewrite u64_id by (unfold is_u64; lia).
Qed.

(** Whether a string command sees a live key of any type. *)
Lemma string_ExpectedStale now raw v e :
  string_bytes raw v e -> ExpectedStale now raw = Some (stale now e).
Proof.
  intros Hb. unfold ExpectedStale. rewrite (string_bytes_type raw v e Hb).
  by destruct (string_bytes_parse false now raw v e Hb) as (_ & _ & ->).
Qed.

Lemma Setnx_vacant now key value ttl r :
  key_ok key = true -> clock_ok now -> engine_ok r -> now + ttl < 2 ^ 63 ->
  str_holds (db_ r) now key None ->
  exists r', Setnx now key value ttl r = Some ((Status_OK, 1), r') /\
    str_stores now key (Some (value, expiry now ttl)) r r'.
Proof.
  intros K Hnow He Ht Ho.
  destruct (timed_string_stores now key value ttl r K Hnow He Ht) as (r' & HP & Hst).
  exists r'. split; [|done]. unfold Setnx. rewrite bind_Get by done.
  remember None as o eqn:E. destruct Ho as [[Hm|(mv & Hm & _ & Hs)]|raw v e Hm Hb Hs|]; [..|done];
    rewrite Hm; change (ok Status_OK) with true; simpl.
  - unfold bind at 1. simpl. by rewrite (bind_run _ _ _ _ _ HP).
  - unfold bind at 1. rewrite (bind_lift _ _ _ _ Hs). simpl. by rewrite (bind_run _ _ _ _ _ HP).
  - unfold bind at 1. rewrite (bind_lift _ _ _ _ (string_ExpectedStale now raw v e Hb)), Hs. simpl.
    by rewrite (bind_run _ _ _ _ _ HP).
Qed.

Lemma Setnx_live now key value ttl mv r :
  engine_ok r -> meta_of (db_ r) key = Some mv -> ExpectedStale now mv = Some false ->
  Setnx now key value ttl r = Some ((Status_OK, 0), r).
Proof.
  intros He Hm Hs. unfold Setnx. rewrite bind_Get, Hm by done. change (ok Status_OK) with true. simpl.
  unfold bind at 1. by rewrite (bind_lift _ _ _ _ Hs).
Qed.

(** ** SET, SETEX, SETNX, SETXX, SETVX, DELVX, GETSET *)

(** The writes that ignore what the key holds. *)
Theorem string_set_correct now key value r :
  key_ok key = true -> clock_ok now -> engine_ok r ->
  (exists r', Set_ now key value r = Some (Status_OK, r') /\ str_stores now key (Some (value, 0)) r r') /\
  (forall ttl, now + ttl < 2 ^ 63 ->
     if ttl <=? 0 then Setex now key value ttl r =
       Some (Status_InvalidArgument (lit "invalid expire time"), r)
     else exists r', Setex now key value ttl r = Some (Status_OK, r') /\
       str_stores now key (Some (value, now + ttl)) r r') /\
  (forall t, 0 <= t < 2 ^ 63 ->
     exists r', PKSetexAt now key value t r = Some (Status_OK, r') /\
       str_stores now key (visible now value t) r r') /\
  (forall t, t < 0 -> 1 < now ->
     exists r', PKSetexAt now key value t r = Some (Status_OK, r') /\
       str_stores now key None r r').
Proof.
  intros K Hnow He. split_and!.
  - by apply PutNew_stores.
  - intros ttl Ht. unfold Setex. destruct (Z.leb_spec ttl 0) as [Hz|Hz]; [done|].
    destruct (timed_string_stores now key value ttl r K Hnow He Ht) as (r' & HP & Hst).
    unfold timed_string, expiry in *. rewrite (proj2 (Z.ltb_lt 0 ttl)) in * by done. by exists r'.
  - intros t Ht. unfold PKSetexAt. rewrite (proj2 (Z.ltb_ge t 0)), u64_id by (unfold is_u64; lia).
    by apply PutString_stores.
  - intros t Ht H1. unfold PKSetexAt, clock_ok in *.
    rewrite (proj2 (Z.ltb_lt t 0)), u64_id by (unfold is_u64; lia).
    replace None with (visible now value (now - 1)); [apply PutString_stores; [done..|lia]|].
    unfold visible, stale. by rewrite (proj2 (Z.eqb_neq _ 0)), (proj2 (Z.ltb_lt _ _)) by lia.
Qed.

(** The conditional writes: [SETNX] only when there is no live key, [SETXX]
    only when there is one, [SETVX] and [DELVX] only when the value is the one
    given; [GETSET] returns the old value and clears the expiry time. *)
Theorem string_conditional_correct now key o value new_value ttl r :
  key_ok key = true -> clock_ok now -> engine_ok r -> now + ttl < 2 ^ 63 ->
  str_holds (db_ r) now key o ->
  (match o with
   | Some _ => Setnx now key value ttl r = Some ((Status_OK, 0), r)
   | None => exists r', Setnx now key value ttl r = Some ((Status_OK, 1), r') /\
       str_stores now key (Some (value, expiry now ttl)) r r'
   end) /\
  (match o with
   | Some _ => exists r', Setxx now key value ttl r = Some ((Status_OK, Some 1), r') /\
       str_stores now key (Some (value, expiry now ttl)) r r'
   | None => exists st, Setxx now key value ttl r = Some ((st, Some 0), r)
   end) /\
  (match o with
   | Some (v, _) =>
       if decide (value = v)
       then exists r', Setvx now key value new_value ttl r = Some ((Status_OK, 1), r') /\
         str_stores now key (Some (new_value, expiry now ttl)) r r'
       else Setvx now key value new_value ttl r = Some ((Status_OK, -1), r)
   | None => Setvx now key value new_value ttl r = Some ((Status_OK, 0), r)
   end) /\
  (match o with
   | Some (v, _) =>
       if decide (value = v)
       then exists r', Delvx now key value r = Some ((Status_OK, 1), r') /\ str_stores now key None r r'
       else Delvx now key value r = Some ((Status_OK, -1), r)
   | None => exists st, Delvx now key value r = Some ((st, 0), r) /\ status_code st = kNotFound
   end) /\
  (exists old r', GetSet now key value r = Some ((Status_OK, old), r') /\
     str_stores now key (Some (value, 0)) r r' /\ forall v e, o = Some (v, e) -> old = v).
Proof.
  intros K Hnow He Ht Ho.
  destruct (timed_string_stores now key value ttl r K Hnow He Ht) as (r1 & HP1 & Hst1).
  destruct (timed_string_stores now key new_value ttl r K Hnow He Ht) as (r2 & HP2 & Hst2).
  destruct (DeleteKey_stores now key r K He) as (r3 & HP3 & Hst3).
  destruct (PutNew_stores now key value r K Hnow He) as (r4 & HP4 & Hst4).
  split_and!.
  - destruct o as [p|]; [|by apply Setnx_vacant].
    inversion Ho as [| |raw v e Hm Hb Hs]; subst.
    apply (Setnx_live now key value ttl raw); [done..|]. by rewrite (string_ExpectedStale now raw v e Hb), Hs.
  - unfold Setxx. string_cases Ho He now key r.
    + by eexists.
    + destruct (string_bytes_parse false now raw v e Hb) as (_ & _ & ->). rewrite Hs. by eexists.
    + destruct (string_bytes_parse false now raw v e Hb) as (_ & _ & ->). rewrite Hs. simpl.
      exists r1. by rewrite (bind_run _ _ _ _ _ HP1).
  - unfold Setvx. string_cases Ho He now key r; [done..|].
    destruct (decide (value = v)); [|done]. exists r2. by rewrite (bind_run _ _ _ _ _ HP2).
  - unfold Delvx. string_cases Ho He now key r; [by eexists..|].
    destruct (decide (value = v)); [|done]. exists r3. by rewrite (bind_run _ _ _ _ _ HP3).
  - unfold GetSet. rewrite db_Get_meta by done. string_cases Ho He now key r.
    + destruct (meta_of (db_ r) key); rewrite (bind_gone now key key r _ He Hg); simpl;
        rewrite (bind_run _ _ _ _ _ HP4); by eexists _, r4.
    + rewrite Hm, (bind_string now key key raw v e r _ He Hm Hb). on_string Hm Hb now. rewrite Hs.
      unfold bind at 1. simpl. rewrite (bind_run _ _ _ _ _ HP4). by eexists _, r4.
    + rewrite Hm, (bind_string now key key raw v e r _ He Hm Hb). on_string Hm Hb now. rewrite Hs.
      rewrite (bind_lift _ _ _ _ (string_bytes_strip raw v e Hb)), (bind_run _ _ _ _ _ HP4).
      exists v, r4. split_and!; [done..|]. by intros ? ? [= -> ->].
Qed.

(** When the key holds a stale value of another type, [GETSET] answers with
    the bytes of that meta value: the output parameter was used to read it and
    is not cleared. *)
Theorem GetSet_returns_meta now key value mv r :
  key_ok key = true -> clock_ok now -> engine_ok r ->
  meta_of (db_ r) key = Some mv -> GetMetaValueType mv <> kStrings -> ExpectedStale now mv = Some true ->
  exists r', GetSet now key value r = Some ((Status_OK, mv), r').
Proof.
  intros K Hnow He Hm Ht Hs. destruct (PutNew_stores now key value r K Hnow He) as (r' & HP & _).
  exists r'. unfold GetSet. rewrite db_Get_meta, Hm by done.
  rewrite (bind_gone now key key r _ He), Hm by (right; by exists mv). simpl.
  by rewrite (bind_run _ _ _ _ _ HP).
Qed.

(** ** APPEND *)

(** [APPEND] adds to the string and keeps its expiry time, or creates it. *)
Theorem Append_correct now key o value r :
  key_ok key = true -> clock_ok now -> engine_ok r -> str_holds (db_ r) now key o ->
  let '(old, e) := default ([], 0) o in
  0 <= e < 2 ^ 63 ->
  exists out r', Append now key value r = Some ((Status_OK, size32 (old ++ value), e, out), r') /\
    str_stores now key (Some (old ++ value, e)) r r' /\ (o <> None -> out = Some (old ++ value)).
Proof.
  intros K Hnow He Ho. destruct (PutNew_stores now key value r K Hnow He) as (r1 & HP1 & Hst1).
  unfold Append. string_cases Ho He now key r; cbn [default].
  - intros _. rewrite (bind_run _ _ _ _ _ HP1). by eexists _, r1.
  - intros _. rewrite (bind_run _ _ _ _ _ HP1). by eexists _, r1.
  - intros Hr. destruct (PutString_stores now key (v ++ value) e r K Hnow He Hr) as (r2 & HP2 & Hst2).
    unfold visible in Hst2. rewrite Hs in Hst2. rewrite (bind_run _ _ _ _ _ HP2), i64_id by lia.
    by eexists _, r2.
Qed.

(** On a string that has expired [APPEND] stores the new value but does not
    report it: [out_new_value], from which the caller builds the command it
    replicates, keeps its initial value. *)
Theorem Append_stale_unreported now key value raw v e r :
  key_ok key = true -> clock_ok now -> engine_ok r ->
  meta_of (db_ r) key = Some raw -> string_bytes raw v e -> stale now e = true ->
  exists r', Append now key value r = Some ((Status_OK, size32 value, 0, None), r') /\
    str_holds (db_ r') now key (Some (value, 0)).
Proof.
  intros K Hnow He Hm Hb Hs. destruct (PutNew_stores now key value r K Hnow He) as (r' & HP & Hst).
  exists r'. split; [|apply Hst]. unfold Append. rewrite (bind_string now key key raw v e r _ He Hm Hb).
  on_string Hm Hb now. by rewrite Hs, (bind_run _ _ _ _ _ HP).
Qed.

(** ** MSET and MSETNX *)

(** The last value given for [key]. *)
Fixpoint last_value (key : bytes) (kvs : list (bytes * bytes)) : option bytes :=
  match kvs with
  | [] => None
  | (k, v) :: kvs =>
      match last_value key kvs with
      | Some v => Some v
      | None => if decide (k = key) then Some v else None
      end
  end.

(** Every key given holds its last value, and nothing else has changed. *)
Definition all_stored (now : Z) (kvs : list (bytes * bytes)) (r r' : Redis) : Prop :=
  engine_ok r' /\
  (forall key, key_ok key = true ->
     match last_value key kvs with
     | Some v => str_holds (db_ r') now key (Some (v, 0))
     | None => meta_of (db_ r') key = meta_of (db_ r) key
     end) /\
  (forall cf k, cf <> kMetaCF -> cf <> kZsetsScoreCF -> db_lookup (db_ r') cf k = db_lookup (db_ r) cf k).

Lemma lookup_after_MSet now key kvs : forall cur,
  key_ok key = true -> Forall (fun kv => key_ok (fst kv) = true) kvs ->
  lookup_after kMetaCF (BaseKey_Encode key)
    (map (fun '(key, value) =>
      Put kMetaCF (BaseKey_Encode key) (StringsValue_Encode (new_string now value))) kvs) cur =
  match last_value key kvs with
  | Some v => Some (StringsValue_Encode (new_string now v))
  | None => cur
  end.
Proof.
  intros cur K HF. revert cur. induction HF as [|[k v] kvs Hk HF IH]; intros cur; [done|].
  unfold lookup_after in *. simpl in *. rewrite IH. pose proof (BaseKey_eq key k Hk K) as HE.
  destruct (last_value key kvs); [done|]. destruct (decide (k = key)) as [->|N].
  - by rewrite bytes_compare_refl.
  - destruct (bytes_compare (BaseKey_Encode key) (BaseKey_Encode k)); try done.
    exfalso. apply N. symmetry. tauto.
Qed.

Lemma MSet_stores now kvs r :
  clock_ok now -> engine_ok r -> Forall (fun kv => key_ok (fst kv) = true) kvs ->
  exists r', MSet now kvs r = Some (Status_OK, r') /\ all_stored now kvs r r'.
Proof.
  intros Hnow [Hdb Hst] HF. unfold MSet, Write.
  destruct (Write_lookup (db_ r) (map (fun '(key, value) =>
    Put kMetaCF (BaseKey_Encode key) (StringsValue_Encode (new_string now value))) kvs) Hdb)
    as (db' & -> & Hdb' & HL).
  exists (with_db r db'). split; [done|]. split_and!; [done| |].
  - intros key K. pose proof (HL kMetaCF (BaseKey_Encode key) ltac:(done)) as H.
    rewrite lookup_after_MSet in H by done. destruct (last_value key kvs) as [v|]; [|done].
    apply (str_holds_bytes db' now key _ v 0 H). by apply string_bytes_Encode.
  - intros cf k N1 N2. simpl. rewrite HL by done. clear -N1. generalize (db_lookup (db_ r) cf k).
    induction kvs as [|[k' v] kvs IH]; intros cur; [done|]. unfold lookup_after in *. simpl.
    rewrite decide_False by congruence. apply IH.
Qed.

(** A key with a live value of any type. *)
Definition live_key (db : DB) (now : Z) (key : bytes) : Prop :=
  exists mv, meta_of db key = Some mv /\ ExpectedStale now mv = Some false.
Definition dead_key (db : DB) (now : Z) (key : bytes) : Prop :=
  meta_of db key = None \/ exists mv, meta_of db key = Some mv /\ ExpectedStale now mv = Some true.

Lemma MSetnx_exists_dead now kvs r : engine_ok r ->
  Forall (fun kv => dead_key (db_ r) now (fst kv)) kvs -> forall s,
  exists s', MSetnx_exists now kvs s r = Some (inr (s', false), r).
Proof.
  intros He. induction 1 as [|[k v] kvs Hk HF IH]; intros s; [by eexists|]. simpl.
  rewrite bind_Get by done. destruct Hk as [Hm|(mv & Hm & Hs)]; simpl in Hm; rewrite Hm.
  - apply IH.
  - change (ok Status_OK) with true. simpl. unfold bind at 1. rewrite (bind_lift _ _ _ _ Hs). apply IH.
Qed.

Lemma MSetnx_exists_live now pre k v post r : engine_ok r ->
  Forall (fun kv => dead_key (db_ r) now (fst kv)) pre -> live_key (db_ r) now k -> forall s,
  MSetnx_exists now (pre ++ (k, v) :: post) s r = Some (inr (Status_OK, true), r).
Proof.
  intros He HF (mv & Hm & Hs). induction HF as [|[k0 v0] kvs Hk HF IH]; intros s; simpl;
    rewrite bind_Get by done.
  - rewrite Hm. change (ok Status_OK) with true. simpl. unfold bind at 1. by rewrite (bind_lift _ _ _ _ Hs).
  - destruct Hk as [Hm0|(mv0 & Hm0 & Hs0)]; simpl in Hm0; rewrite Hm0; [apply IH|].
    change (ok Status_OK) with true. simpl. unfold bind at 1. rewrite (bind_lift _ _ _ _ Hs0). apply IH.
Qed.

(** [MSET] stores all its pairs in one batch; [MSETNX] does so when no key is
    live and otherwise changes nothing. *)
Theorem MSetnx_correct now kvs r :
  clock_ok now -> engine_ok r -> Forall (fun kv => key_ok (fst kv) = true) kvs ->
  (exists r', MSet now kvs r = Some (Status_OK, r') /\ all_stored now kvs r r') /\
  (Forall (fun kv => dead_key (db_ r) now (fst kv)) kvs ->
     exists r', MSetnx now kvs r = Some ((Status_OK, 1), r') /\ all_stored now kvs r r') /\
  (forall pre k v post, kvs = pre ++ (k, v) :: post ->
     Forall (fun kv => dead_key (db_ r) now (fst kv)) pre -> live_key (db_ r) now k ->
     MSetnx now kvs r = Some ((Status_OK, 0), r)).
Proof.
  intros Hnow He HF. pose proof (MSet_stores now kvs r Hnow He HF) as (r' & HM & Hst).
  split_and!; [by exists r'| |].
  - intros Hd. destruct (MSetnx_exists_dead now kvs r He Hd Status_OK) as (s & HE).
    exists r'. split; [|done]. unfold MSetnx. rewrite (bind_run _ _ _ _ _ HE). by rewrite (bind_run _ _ _ _ _ HM).
  - intros pre k v post -> Hd Hl. unfold MSetnx.
    by rewrite (bind_run _ _ _ _ _ (MSetnx_exists_live now pre k v post r He Hd Hl Status_OK)).
Qed.

End StringWrite.
