(* ===== verification/StringCount.v ===== *)
(** * INCRBY, DECRBY and SETRANGE *)

From S2P Require Import Prelude Coding Numbers Bits KeyFormat Comparator ValueFormat RocksDB LruCache Redis KeySpace Strings StringSpec.
Open Scope Z_scope.

(** What [INCRBY] and [DECRBY] answer when the result does not fit. *)
Definition overflow_status : Status := Status_InvalidArgument (lit "Overflow").
Definition not_integer_status : Status := Status_Corruption (lit "Value is not a integer").

Section StringCount.
Context {R : RocksDB} {L : RocksDBLaws R} {U : Uninit}.

(** C33: On a string that is the decimal notation of a 64-bit integer the counters
    add or subtract exactly, keep the expiry time, and refuse a result that
    does not fit; on a missing key they start from 0.  DECRBY of the least 64-bit
    integer on a missing key is undefined: it is negated without a test. *)
Theorem counters_correct now key o z e value r :
  key_ok key = true -> clock_ok now -> engine_ok r -> is_i64 z -> is_i64 value -> 0 <= e < 2 ^ 63 ->
  str_holds (db_ r) now key o -> o = None \/ o = Some (decimal z, e) ->
  let z := match o with Some _ => z | None => 0 end in
  let e := match o with Some _ => e | None => 0 end in
  (if decide (is_i64 (z + value))
   then exists ts r', Incrby now key value r = Some ((Status_OK, Some (z + value), ts), r') /\
     str_stores now key (Some (decimal (z + value), e)) r r' /\ (o <> None -> ts = Some e)
   else Incrby now key value r = Some ((overflow_status, None, None), r)) /\
  (if decide (o = None /\ value = - 2 ^ 63) then Decrby now key value r = None
   else if decide (is_i64 (z - value))
   then exists r', Decrby now key value r = Some ((Status_OK, Some (z - value)), r') /\
     str_stores now key (Some (decimal (z - value), e)) r r'
   else Decrby now key value r = Some ((overflow_status, None), r)).
Proof.
  intros K Hnow He Hz Hv Hr Ho Hcase. split; unfold Incrby, Decrby, to_string.
  - destruct (PutNew_stores now key (decimal value) r K Hnow He) as (r1 & HP1 & Hst1).
    string_cases Ho He now key r.
    1,2: rewrite decide_True, (bind_lift _ _ _ _ (Int64ToStr32_decimal value Hv)), (bind_run _ _ _ _ _ HP1)
      by done; by eexists _, r1.
    destruct Hcase as [|[= -> ->]]; [done|]. rewrite c_str_decimal, strtoll_decimal by done.
    cbn [length Nat.eqb negb]. cbv iota. rewrite overflow_add by done.
    destruct (decide (is_i64 (z + value))) as [Hi|Hi]; [|by rewrite bool_decide_eq_false_2].
    rewrite bool_decide_eq_true_2 by done. cbn [negb]. cbv iota.
    destruct (PutString_stores now key (decimal (z + value)) e r K Hnow He Hr) as (r2 & HP2 & Hst2).
    unfold visible in Hst2. rewrite Hs in Hst2. rewrite (bind_run _ _ _ _ _ HP2), i64_id by lia.
    by eexists _, r2.
  - string_cases Ho He now key r.
    1,2: unfold negate, is_i64, LLONG_MIN in *; case_decide as Hmin; [by destruct Hmin as [_ ->]|];
      assert (value <> - 2 ^ 63) by tauto; rewrite decide_True, (proj2 (Z.eqb_neq value _)) by (done || lia);
      destruct (PutNew_stores now key (decimal (- value)) r K Hnow He) as (r1 & HP1 & Hst1);
      exists r1; unfold bind at 1; simpl; by rewrite (bind_run _ _ _ _ _ HP1).
    rewrite decide_False by (by intros [? _]).
    destruct Hcase as [|[= -> ->]]; [done|]. rewrite c_str_decimal, strtoll_decimal by done.
    cbn [length Nat.eqb negb orb]. cbv iota. rewrite overflow_sub by done.
    destruct (decide (is_i64 (z - value))) as [Hi|Hi]; [|by rewrite bool_decide_eq_false_2].
    rewrite bool_decide_eq_true_2 by done. cbn [negb]. cbv iota.
    destruct (PutString_stores now key (decimal (z - value)) e r K Hnow He Hr) as (r2 & HP2 & Hst2).
    unfold visible in Hst2. rewrite Hs in Hst2. rewrite (bind_run _ _ _ _ _ HP2).
    by exists r2.
Qed.
(** A counter that holds more than the largest [long long] is refused by
    [DECRBY]; [INCRBY] takes it for the largest one and stores a wrong value,
    because it does not look at [errno]. *)
Theorem Incrby_saturates now key n e value r :
  key_ok key = true -> clock_ok now -> engine_ok r -> 0 <= e < 2 ^ 63 ->
  forallb is_digit n = true -> LLONG_MAX < digits_value 0 n -> LLONG_MIN <= value <= 0 ->
  str_holds (db_ r) now key (Some (n, e)) ->
  (exists r', Incrby now key value r = Some ((Status_OK, Some (LLONG_MAX + value), Some e), r') /\
     str_stores now key (Some (decimal (LLONG_MAX + value), e)) r r') /\
  Decrby now key (- value) r = Some ((not_integer_status, None), r).
Proof.
  intros K Hnow He Hr Hn Hbig Hv Ho. inversion Ho as [| |raw v e0 Hm Hb Hs]; subst.
  unfold Incrby, Decrby, to_string. rewrite !(bind_string now key key raw n e r _ He Hm Hb).
  on_string Hm Hb now. rewrite Hs, c_str_digits, strtoll_over by done. split; [|done].
  cbn [length Nat.eqb negb]. cbv iota.
  destruct (PutString_stores now key (decimal (LLONG_MAX + value)) e r K Hnow He Hr) as (r2 & HP2 & Hst2).
  unfold visible in Hst2. rewrite Hs in Hst2. rewrite overflow_add, bool_decide_eq_true_2.
  - cbn [negb]. cbv iota. rewrite (bind_run _ _ _ _ _ HP2), i64_id by lia. by exists r2.
  - unfold is_i64, LLONG_MAX, LLONG_MIN in *. lia.
  - unfold is_i64, LLONG_MAX. lia.
  - unfold is_i64, LLONG_MIN in *. lia.
Qed.

(** ** SETRANGE *)

(** The string [v], zero-padded to [off] bytes, with [value] written over it. *)
Definition redis_setrange (v : bytes) (off : nat) (value : bytes) : bytes :=
  take off (v ++ replicate (off - length v) x00) ++ value ++ drop (off + length value) v.

Lemma setrange_spec v off value :
  0 <= off -> off + Z.of_nat (length value) < 2 ^ 64 ->
  setrange v off value =
  take (Z.to_nat off) (v ++ replicate (Z.to_nat off - length v) x00) ++ c_str value ++
  drop (Z.to_nat off + length value) v.
Proof.
  intros Ho Hs. unfold setrange. destruct (Z.ltb_spec (Z.of_nat (length v)) off).
  - rewrite (drop_ge v), app_nil_r by lia. rewrite take_ge by (rewrite length_app, length_replicate; lia).
    by rewrite <- app_assoc.
  - replace (Z.to_nat off - length v)%nat with 0%nat by lia. simpl. rewrite app_nil_r.
    rewrite u64_id by (unfold is_u64; lia). do 2 f_equal.
    destruct (Z.ltb_spec (off + Z.of_nat (length value)) (Z.of_nat (length v))); [done|].
    by rewrite drop_ge by lia.
Qed.

(** [SETRANGE] rejects negative offsets; otherwise it writes over the string,
    padded with zeros to the offset, and keeps its expiry time.  The new text is
    taken as a C string: it ends at its first zero byte. *)
Lemma Setrange_stores now key o off value r :
  key_ok key = true -> clock_ok now -> engine_ok r -> str_holds (db_ r) now key o ->
  0 <= off -> off + Z.of_nat (length value) < 2 ^ 64 ->
  let '(v, e) := default ([], 0) o in
  0 <= e < 2 ^ 63 ->
  let new := take (Z.to_nat off) (v ++ replicate (Z.to_nat off - length v) x00) ++ c_str value ++
             drop (Z.to_nat off + length value) v in
  exists r', Setrange now key off value r = Some ((Status_OK, Some (size32 new)), r') /\
    str_stores now key (Some (new, e)) r r'.
Proof.
  intros K Hnow He Ho H0 Hs. unfold Setrange. rewrite (proj2 (Z.ltb_ge off 0)) by done.
  assert (Enil : take (Z.to_nat off) (replicate (Z.to_nat off - 0) x00) ++ c_str value ++
    drop (Z.to_nat off + length value) [] = replicate (Z.to_nat off) x00 ++ c_str value).
  { by rewrite drop_nil, app_nil_r, Nat.sub_0_r, take_replicate, Nat.min_id. }
  destruct (PutNew_stores now key (replicate (Z.to_nat off) x00 ++ c_str value) r K Hnow He)
    as (r1 & HP1 & Hst1).
  string_cases Ho He now key r; cbn [default app length]; intros Hr; cbv zeta.
  - rewrite Enil. rewrite (bind_run _ _ _ _ _ HP1). by exists r1.
  - rewrite Enil. rewrite (bind_lift _ _ _ _ (string_bytes_strip raw v e Hb)).
    rewrite <- new_string_SetEtime, (bind_run _ _ _ _ _ HP1). by exists r1.
  - rewrite (bind_lift _ _ _ _ (string_bytes_strip raw v e Hb)), setrange_spec by done.
    set (new := take _ _ ++ _). destruct (PutString_stores now key new e r K Hnow He Hr) as (r2 & HP2 & Hst2).
    unfold visible in Hst2. rewrite Hs0 in Hst2. rewrite (bind_run _ _ _ _ _ HP2). by exists r2.
Qed.

(** [SETRANGE] with a text free of zero bytes is the SETRANGE of Redis. *)
Theorem Setrange_correct now key o off value r :
  key_ok key = true -> clock_ok now -> engine_ok r -> str_holds (db_ r) now key o ->
  off + Z.of_nat (length value) < 2 ^ 64 -> x00 ∉ value ->
  let '(v, e) := default ([], 0) o in
  0 <= e < 2 ^ 63 ->
  if off <? 0 then Setrange now key off value r =
    Some ((Status_InvalidArgument (lit "offset < 0"), None), r)
  else
    let new := redis_setrange v (Z.to_nat off) value in
    exists r', Setrange now key off value r = Some ((Status_OK, Some (size32 new)), r') /\
      str_stores now key (Some (new, e)) r r'.
Proof.
  intros K Hnow He Ho Hs Hnul.
  pose proof (Setrange_stores now key o off value r K Hnow He Ho) as H.
  destruct (default ([], 0) o) as [v e]. intros Hr. destruct (Z.ltb_spec off 0) as [H0|H0].
  - unfold Setrange. by rewrite (proj2 (Z.ltb_lt off 0)).
  - rewrite c_str_no_nul in H by done. by apply H.
Qed.

(** A new text with a zero byte inside the string shortens it: the bytes from
    the zero byte on are not written, but the bytes they replace are removed. *)
Theorem Setrange_shortens now key v e off a b r :
  key_ok key = true -> clock_ok now -> engine_ok r -> str_holds (db_ r) now key (Some (v, e)) ->
  0 <= e < 2 ^ 63 -> x00 ∉ a -> Z.of_nat (length v) < 2 ^ 63 ->
  (off + length (a ++ x00 :: b) <= length v)%nat ->
  exists new r', Setrange now key (Z.of_nat off) (a ++ x00 :: b) r = Some ((Status_OK, Some (size32 new)), r') /\
    str_stores now key (Some (new, e)) r r' /\ length new = (length v - S (length b))%nat.
Proof.
  intros K Hnow He Ho Hr Ha Hl Hoff.
  pose proof (Setrange_stores now key (Some (v, e)) (Z.of_nat off) (a ++ x00 :: b) r K Hnow He Ho
    ltac:(lia) ltac:(lia) Hr) as (r' & H1 & H2).
  cbv zeta in *. eexists _, r'. split_and!; [done..|].
  rewrite c_str_app by (by apply c_str_no_nul). rewrite Nat2Z.id in *.
  clear H1 H2. rewrite ?length_app, ?length_take, ?length_drop, ?length_app, ?length_replicate.
  rewrite length_app in Hoff. simpl length in *. lia.
Qed.

End StringCount.

(** ** Expiry

    The key-level commands of [redis_strings.cc], with or without the value
    their caller has already read, and the string commands on a key of another
    type. *)

Section StringExpire.
Context {R : RocksDB} {L : RocksDBLaws R} {U : Uninit}.

Lemma bind_prefetched_string {A} now key pm raw v e r (f : Status + Status * bytes -> M A) :
  engine_ok r -> meta_of (db_ r) key = Some raw -> string_bytes raw v e -> prefetched (db_ r) key pm ->
  bind (GetMetaOrPrefetched now kStrings key pm) f r = f (inr (Status_OK, raw)) r.
Proof.
  intros [Hdb _] Hm Hb Hpm. apply bind_run.
  apply GetMetaOrPrefetched_typed; [done..|by eapply string_bytes_type|done].
Qed.

(** The bytes of a string with a new expiry time. *)
Lemma set_etime_string now key raw v e t r :
  key_ok key = true -> engine_ok r -> string_bytes raw v e -> 0 <= t < 2 ^ 63 ->
  exists r', (let* p := lift (ParsedStringsValue_SetEtime (ParsedStringsValue true raw) t) in
              PutRaw key (piv_data p)) r = Some (Status_OK, r') /\
    str_stores now key (visible now v t) r r'.
Proof.
  intros K He Hb Ht. destruct (string_bytes_SetEtime raw v e t Hb Ht) as (p & Hp & Hbp).
  rewrite (bind_lift _ _ _ _ Hp). by apply PutRaw_stores.
Qed.

(** The key-level commands on a live string.  [StringsDel] and expiry times
    that are not positive remove it, [StringsExpire] and [StringsExpireat] set
    the time at which it stops being visible, [StringsPersist] clears it and
    [StringsTTL] reports what is left. *)
Theorem strings_expiry_correct now key pm v e r :
  key_ok key = true -> clock_ok now -> engine_ok r -> str_holds (db_ r) now key (Some (v, e)) ->
  prefetched (db_ r) key pm -> is_i64 e ->
  (exists r', StringsDel now key pm r = Some (Status_OK, r') /\ str_stores now key None r r') /\
  (forall ttl, now + ttl < 2 ^ 63 ->
     exists r', StringsExpire now key ttl pm r = Some (Status_OK, r') /\
       str_stores now key (if 0 <? ttl then Some (v, now + ttl) else None) r r') /\
  (forall t, is_i64 t ->
     exists r', StringsExpireat now key t pm r = Some (Status_OK, r') /\
       str_stores now key (if (0 <? t) && (now <=? t) then Some (v, t) else None) r r') /\
  (if e =? 0
   then StringsPersist now key pm r =
          Some (Status_NotFound (lit "Not have an associated timeout"), r)
   else exists r', StringsPersist now key pm r = Some (Status_OK, r') /\
          str_stores now key (Some (v, 0)) r r') /\
  StringsTTL now key pm r = Some ((Status_OK, Some (if e =? 0 then -1 else e - now)), r).
Proof.
  intros K Hnow He Ho Hpm Hi. inversion Ho as [| |raw v0 e0 Hm Hb Hs]; subst. unfold clock_ok in *.
  destruct (DeleteKey_stores now key r K He) as (r0 & HD & Hst0).
  unfold StringsDel, StringsExpire, StringsExpireat, StringsPersist, StringsTTL.
  split_and!; intros; rewrite (bind_prefetched_string now key pm raw v e r _ He Hm Hb Hpm);
    on_string Hm Hb now; rewrite Hs.
  - by exists r0.
  - destruct (Z.ltb_spec 0 ttl); [|by exists r0].
    unfold ParsedStringsValue_SetRelativeTimestamp. rewrite u64_id by (unfold is_u64; lia).
    replace (Some (v, now + ttl)) with (visible now v (now + ttl)).
    + apply (set_etime_string now key raw v e); (done || lia).
    + unfold visible, stale. by rewrite (proj2 (Z.ltb_ge _ _)), andb_false_r by lia.
  - unfold is_i64 in *. destruct (Z.ltb_spec 0 t); [|by exists r0]. cbn [andb].
    rewrite u64_id by (unfold is_u64; lia).
    replace (if now <=? t then Some (v, t) else None) with (visible now v t).
    + apply (set_etime_string now key raw v e); (done || lia).
    + unfold visible, stale. rewrite (proj2 (Z.eqb_neq t 0)) by lia. cbn [negb andb].
      cmp_cases; (done || lia).
  - destruct (e =? 0); [done|]. change (Some (v, 0)) with (visible now v 0).
    apply (set_etime_string now key raw v e); (done || lia).
  - by rewrite ttl_live.
Qed.

(** Without a prefetched value, [StringsDel] on a key that does not exist
    reports success, and [StringsExpire] writes before the start of an empty
    string: the status of the read is held by a second variable of the same
    name, and the outer one still says OK. *)
Theorem strings_missing_key now key r :
  key_ok key = true -> engine_ok r -> meta_of (db_ r) key = None ->
  (exists r', StringsDel now key [] r = Some (Status_OK, r')) /\
  (forall ttl, 0 < ttl -> StringsExpire now key ttl [] r = None).
Proof.
  intros K He Hm. destruct (DeleteKey_stores now key r K He) as (r0 & HD & _).
  unfold StringsDel, StringsExpire, GetMetaOrPrefetched. split; intros;
    rewrite (bind_gone now key key r _ He) by (by left); rewrite Hm.
  - by exists r0.
  - simpl. rewrite (proj2 (Z.ltb_lt 0 ttl)) by done. done.
Qed.

(** Every string command that reads the type answers a live key of another
    type with the same status and leaves the engine as it was. *)
Theorem string_wrong_type now key st r :
  engine_ok r -> other_type kStrings (db_ r) now key st ->
  (forall value,
     Append now key value r = Some ((st, 0, 0, None), r) /\
     (exists x, GetSet now key value r = Some ((st, x), r)) /\
     Delvx now key value r = Some ((st, 0), r)) /\
  (forall value ttl, Setxx now key value ttl r = Some ((st, None), r)) /\
  (forall value new_value ttl, Setvx now key value new_value ttl r = Some ((st, 0), r)) /\
  (forall n, Incrby now key n r = Some ((st, None, None), r) /\
     Decrby now key n r = Some ((st, None), r)) /\
  (forall i j, Getrange now key i j r = Some ((st, []), r) /\
     BitCount now key i j true r = Some ((st, 0), r) /\
     BitPos_range now key 0 i j r = Some ((st, None), r)) /\
  (forall off value, 0 <= off -> Setrange now key off value r = Some ((st, None), r)) /\
  (forall off on, 0 <= off -> SetBit now key off on r = Some ((st, None), r) /\
     GetBit now key off r = Some ((st, None), r)) /\
  (forall t, StringsExpire now key t [] r = Some (st, r) /\ StringsExpireat now key t [] r = Some (st, r)) /\
  StringsDel now key [] r = Some (st, r) /\ StringsPersist now key [] r = Some (st, r) /\
  StringsTTL now key [] r = Some ((st, None), r) /\
  (exists x, Redis_Get now key r = Some ((st, x), r)).
Proof.
  intros He Ho. pose proof (proj1 He) as Hdb.
  split_and!; intros; split_and?;
    unfold Append, GetSet, Delvx, Setxx, Setvx, Incrby, Decrby, Getrange, BitCount, BitPos_range, BitPos_with,
      Setrange, SetBit, GetBit, StringsExpire, StringsExpireat, StringsDel, StringsPersist, StringsTTL,
      Redis_Get, GetMetaOrPrefetched;
    rewrite ?(proj2 (Z.ltb_ge off 0)) by done;
    try (by rewrite (bind_GetMeta_other kStrings now key st r _ Hdb Ho));
    destruct (db_Get _ _ _) as [? raw]; exists raw; by rewrite (bind_GetMeta_other kStrings now key st r _ Hdb Ho).
Qed.

End StringExpire.
