(* ===== verification/StringBit.v ===== *)
(** * GETBIT, SETBIT, BITCOUNT, BITPOS and BITOP *)

From S2P Require Import Prelude Coding Numbers Bits KeyFormat Comparator ValueFormat RocksDB LruCache Redis KeySpace Strings StringSpec.
Open Scope Z_scope.

(** ** Offsets *)

Lemma bit_byte_div off : 0 <= off < 2 ^ 63 -> Z.to_nat (bit_byte off) = (Z.to_nat off / 8)%nat.
Proof.
  intros Ho. unfold bit_byte. rewrite Z.shiftr_div_pow2 by lia. change (2 ^ 3) with 8.
  rewrite u64_id by (unfold is_u64; Z.to_euclidean_division_equations; lia).
  rewrite <- (Z2Nat.id off) at 1 by lia. change 8 with (Z.of_nat 8). by rewrite <- Nat2Z.inj_div, Nat2Z.id.
Qed.

Lemma bit_index_mod off : 0 <= off -> bit_index off = 7 - Z.of_nat (Z.to_nat off mod 8).
Proof.
  intros Ho. unfold bit_index. change 7 with (Z.ones 3) at 2. rewrite Z.land_ones by lia.
  change (2 ^ 3) with (Z.of_nat 8). by rewrite Nat2Z.inj_mod, Z2Nat.id by lia.
Qed.

Lemma read_bit_spec data off : 0 <= off < 2 ^ 63 ->
  read_bit data off = Some (Z.b2z (bit_at data (Z.to_nat off))).
Proof.
  intros Ho. unfold read_bit.
  assert (Hb : bit_byte off = Z.of_nat (Z.to_nat off / 8)).
  { rewrite <- bit_byte_div by done. symmetry. apply Z2Nat.id. apply u64_range. }
  rewrite bit_at_byte, Hb, Nat2Z.id, bit_index_mod by lia.
  rewrite u64_id by (unfold is_u64; pose proof (Nat.Div0.div_le_upper_bound (Z.to_nat off) 8 (Z.to_nat off)); lia).
  pose proof (Nat.mod_upper_bound (Z.to_nat off) 8 ltac:(lia)).
  destruct (Z.ltb_spec (Z.of_nat (length data)) (Z.of_nat (Z.to_nat off / 8) + 1)).
  - unfold byte_at. by rewrite nth_overflow, Z.bits_0 by lia.
  - destruct (lookup_lt_is_Some_2 data (Z.to_nat off / 8)) as [c Hc]; [lia|]. rewrite Hc. cbn [mbind option_bind].
    rewrite byte_bit_testbit by lia. unfold byte_at. by rewrite nth_lookup, Hc.
Qed.

Section StringBit.
Context {R : RocksDB} {L : RocksDBLaws R} {U : Uninit}.

(** What [SETBIT] does to the data it has read. *)
Definition set_bit (now : Z) (key : bytes) (data : bytes) (e off on : Z) : M (Status * option Z) :=
  let* bit := lift (read_bit data off) in
  if bit =? on then ret (Status_OK, Some bit)
  else
    let index := Z.to_nat (bit_byte off) in
    let byte_val := byte_set_bit (byte_at data index) (bit_index off) on in
    let* st := PutString key (InternalValue_SetEtime (new_string now (put_byte data index byte_val)) e) in
    ret (st, Some bit).

Lemma set_bit_stores now key data e off on r :
  key_ok key = true -> clock_ok now -> engine_ok r -> 0 <= e < 2 ^ 63 -> stale now e = false ->
  0 <= off < 2 ^ 63 -> on = 0 \/ on = 1 ->
  let old := bit_at data (Z.to_nat off) in
  (old = (on =? 1) /\ set_bit now key data e off on r = Some ((Status_OK, Some (Z.b2z old)), r)) \/
  (exists v' r', set_bit now key data e off on r = Some ((Status_OK, Some (Z.b2z old)), r') /\
     str_stores now key (Some (v', e)) r r' /\
     forall i, bit_at v' i = if decide (i = Z.to_nat off) then on =? 1 else bit_at data i).
Proof.
  intros K Hnow He Hr Hs Hoff Hon old. unfold set_bit.
  rewrite (bind_lift _ _ _ _ (read_bit_spec data off Hoff)). fold old.
  destruct (Z.eqb_spec (Z.b2z old) on) as [E|E].
  - left. split; [|done]. destruct old, Hon; subst; done.
  - right. rewrite bit_byte_div, bit_index_mod by lia.
    set (v' := put_byte _ _ _). destruct (PutString_stores now key v' e r K Hnow He Hr) as (r' & HP & Hst).
    unfold visible in Hst. rewrite Hs in Hst. exists v', r'. rewrite (bind_run _ _ _ _ _ HP).
    split_and!; [done..|]. intros i. unfold v'. rewrite bit_at_put_byte. by destruct Hon; subst.
Qed.

Lemma bit_at_nil i : bit_at [] i = false.
Proof. by destruct i. Qed.

Lemma SetBit_unfold now key o off on r :
  engine_ok r -> str_holds (db_ r) now key o -> 0 <= off ->
  let '(v, e) := default ([], 0) o in
  stale now e = false /\ SetBit now key off on r = set_bit now key v e off on r.
Proof.
  intros He Ho Hoff. unfold SetBit. rewrite (proj2 (Z.ltb_ge off 0)) by done.
  by string_cases Ho He now key r.
Qed.

Lemma GetBit_spec now key o off r :
  engine_ok r -> str_holds (db_ r) now key o -> 0 <= off < 2 ^ 63 ->
  GetBit now key off r =
  Some ((Status_OK, Some (Z.b2z (bit_at (fst (default ([], 0) o)) (Z.to_nat off)))), r).
Proof.
  intros He Ho Hoff. unfold GetBit. string_cases Ho He now key r; cbn [default fst].
  - by rewrite (bind_lift _ _ _ _ (read_bit_spec [] off Hoff)).
  - by rewrite bit_at_nil.
  - by rewrite (bind_lift _ _ _ _ (read_bit_spec v off Hoff)).
Qed.

(** [GETBIT] reads one bit of the string, 0 past its end or without one.
    [SETBIT] returns the old bit, sets it and changes no other bit; it keeps
    the expiry time, and writes nothing when the bit has the value already. *)
Theorem bits_correct now key o off on r :
  key_ok key = true -> clock_ok now -> engine_ok r -> str_holds (db_ r) now key o ->
  0 <= off < 2 ^ 63 -> on = 0 \/ on = 1 ->
  let '(v, e) := default ([], 0) o in
  0 <= e < 2 ^ 63 ->
  let old := Z.b2z (bit_at v (Z.to_nat off)) in
  GetBit now key off r = Some ((Status_OK, Some old), r) /\
  exists o' r', SetBit now key off on r = Some ((Status_OK, Some old), r') /\
    str_stores now key o' r r' /\
    (o' = o \/ exists v', o' = Some (v', e)) /\
    forall i, bit_at (default [] (fst <$> o')) i =
      if decide (i = Z.to_nat off) then on =? 1 else bit_at v i.
Proof.
  intros K Hnow He Ho Hoff Hon. pose proof (GetBit_spec now key o off r He Ho Hoff) as HG.
  pose proof (SetBit_unfold now key o off on r He Ho ltac:(lia)) as HU.
  destruct (default ([], 0) o) as [v e] eqn:Ed. destruct HU as [Hs ->]. intros Hr old. split; [done|].
  destruct (set_bit_stores now key v e off on r K Hnow He Hr Hs Hoff Hon) as [[Hb HS]|(v' & r' & HS & Hst & Hb)].
  - exists o, r. split_and!; [done|by apply str_stores_refl|by left|]. intros i.
    replace (default [] (fst <$> o)) with v by (by destruct o as [[]|]; simpl in *; simplify_eq).
    destruct (decide (i = Z.to_nat off)) as [->|]; done.
  - exists (Some (v', e)), r'. split_and!; [done..|right; by exists v'|done].
Qed.

(** ** BITCOUNT and BITPOS *)

(** The bytes from [first] to [last]. *)
Definition slice (v : bytes) (first last : Z) : bytes :=
  subseq (Z.to_nat first) (Z.to_nat (last - first + 1)) v.

Lemma read_bytes_slice v first last :
  0 <= first <= last -> last < Z.of_nat (length v) ->
  read_bytes v first (last - first + 1) = Some (slice v first last).
Proof.
  intros H1 H2. unfold read_bytes, slice, subseq.
  rewrite !(proj2 (Z.leb_le _ _)) by lia. simpl. f_equal.
  rewrite drop_app_le, take_app_le by (rewrite ?length_drop; lia). done.
Qed.

Lemma bitpos_in_spec v first last (b : bool) :
  0 <= first <= last -> last < Z.of_nat (length v) -> Z.of_nat (length v) < 2 ^ 32 ->
  bitpos_in v first last (if b then 1 else 0) =
  Some (match first_index b (bits (slice v first last)) with
        | Some i => 8 * first + Z.of_nat i
        | None => -1
        end).
Proof.
  intros H1 H2 H3. unfold bitpos_in. rewrite u32_id by (unfold is_u32; lia).
  rewrite read_bytes_slice by done. cbn [mbind option_bind]. rewrite GetBitPos_correct.
  assert (Hl : Z.of_nat (length (slice v first last)) = last - first + 1)
    by (unfold slice, subseq; rewrite length_take, length_drop; lia).
  destruct (first_index b (bits (slice v first last))) as [i|] eqn:E.
  - apply first_index_lt in E. rewrite length_bits in E.
    rewrite (proj2 (Z.eqb_neq (Z.of_nat i) (8 * _))) by lia. cbn [andb].
    rewrite (proj2 (Z.eqb_neq (Z.of_nat i) (-1))) by lia. cbn [negb]. f_equal. lia.
  - destruct b; [by rewrite andb_false_r|]. by rewrite Hl, Z.eqb_refl.
Qed.

(** The bytes [BITCOUNT] looks at: [None] when there are none. *)
Definition count_range (n start stop : Z) : option (Z * Z) :=
  let first := clamp_start start n in
  let last := Z.min (clamp_start stop n) (n - 1) in
  if last <? first then None else Some (first, last).

Lemma clamp_start_nonneg i n : 0 <= clamp_start i n.
Proof. unfold clamp_start. cmp_cases; lia. Qed.

Lemma clamp_start_id i n : 0 <= i -> clamp_start i n = i.
Proof. intros Hi. unfold clamp_start. by rewrite !(proj2 (Z.ltb_ge i 0)) by lia. Qed.

Lemma count_range_all n : 0 < n -> count_range n 0 (n - 1) = Some (0, n - 1).
Proof.
  intros Hn. unfold count_range. rewrite !clamp_start_id, Z.min_id by lia.
  by rewrite (proj2 (Z.ltb_ge (n - 1) 0)) by lia.
Qed.

Lemma count_range_bounds n start stop first last :
  count_range n start stop = Some (first, last) -> 0 <= first <= last /\ last < n.
Proof.
  unfold count_range. pose proof (clamp_start_nonneg start n).
  destruct (Z.ltb_spec (Z.min (clamp_start stop n) (n - 1)) (clamp_start start n)); [done|].
  intros [= <- <-]. lia.
Qed.

Lemma count_slice v first last :
  Z.of_nat (length v) < 2 ^ 28 ->
  GetBitCount (slice v first last) = Some (Z.of_nat (count_true (bits (slice v first last)))).
Proof.
  intros Hn. rewrite GetBitCount_correct, (proj2 (Z.leb_le _ _)); [done|].
  assert (count_true (bits (slice v first last)) <= length (bits (slice v first last)))%nat
    by (unfold count_true; apply length_filter).
  rewrite length_bits in *. unfold slice, subseq, INT32_MAX in *. rewrite length_take, length_drop in *. lia.
Qed.

Lemma slice_all v : slice v 0 (Z.of_nat (length v) - 1) = v.
Proof. unfold slice, subseq. simpl. apply take_ge. lia. Qed.

(** [BITPOS] once its range is known. *)
Lemma BitPos_with_spec now key (b : bool) range start stop raw v e r :
  engine_ok r -> meta_of (db_ r) key = Some raw -> string_bytes raw v e -> stale now e = false ->
  Z.of_nat (length v) < 2 ^ 28 ->
  range (Z.of_nat (length v)) = count_range (Z.of_nat (length v)) start stop ->
  BitPos_with now key (if b then 1 else 0) range r =
  Some ((Status_OK, Some (match count_range (Z.of_nat (length v)) start stop with
    | Some (first, last) =>
        match first_index b (bits (slice v first last)) with
        | Some i => 8 * first + Z.of_nat i | None => -1 end
    | None => -1
    end)), r).
Proof.
  intros He Hm Hb Hs Hn Hrange. unfold BitPos_with.
  rewrite (bind_string now key key raw v e r _ He Hm Hb). on_string Hm Hb now.
  rewrite Hs, (bind_lift _ _ _ _ (string_bytes_strip raw v e Hb)).
  rewrite Hrange. destruct (count_range _ start stop) as [[first last]|] eqn:E; [|done].
  destruct (count_range_bounds _ _ _ _ _ E) as [H1 H2].
  by rewrite (bind_lift _ _ _ _ (bitpos_in_spec v first last b H1 H2 ltac:(lia))).
Qed.

(** On a key that holds [v], [BITCOUNT] counts the ones in the bytes selected,
    and [BITPOS] finds the first bit of the given value in them, or answers -1. *)
Theorem bit_searches_correct now key v e r :
  engine_ok r -> str_holds (db_ r) now key (Some (v, e)) ->
  let n := Z.of_nat (length v) in
  0 < n < 2 ^ 28 ->
  (BitCount now key 0 0 false r = Some ((Status_OK, Z.of_nat (count_true (bits v))), r)) /\
  (forall start stop,
     BitCount now key start stop true r =
     Some ((Status_OK, match count_range n start stop with
                       | Some (first, last) => Z.of_nat (count_true (bits (slice v first last)))
                       | None => 0
                       end), r)) /\
  (forall b : bool, BitPos now key (if b then 1 else 0) r =
     Some ((Status_OK, Some (match first_index b (bits v) with
                             | Some i => Z.of_nat i | None => -1 end)), r)) /\
  (forall (b : bool) start, BitPos_from now key (if b then 1 else 0) start r =
     Some ((Status_OK, Some (match count_range n start (n - 1) with
       | Some (first, last) =>
           match first_index b (bits (slice v first last)) with
           | Some i => 8 * first + Z.of_nat i | None => -1 end
       | None => -1
       end)), r)) /\
  (forall (b : bool) start stop, BitPos_range now key (if b then 1 else 0) start stop r =
     Some ((Status_OK, Some (match count_range n start stop with
       | Some (first, last) =>
           match first_index b (bits (slice v first last)) with
           | Some i => 8 * first + Z.of_nat i | None => -1 end
       | None => -1
       end)), r)).
Proof.
  intros He Ho n Hn. inversion Ho as [| |raw v0 e0 Hm Hb Hs]; subst.
  assert (Hall : forall first last, 0 <= first <= last -> last < n ->
    (let* l := lift (read_bytes v first (last - first + 1)) in
     let* n := lift (GetBitCount l) in ret (Status_OK, n)) r =
    Some ((Status_OK, Z.of_nat (count_true (bits (slice v first last)))), r)).
  { intros first last H1 H2. rewrite (bind_lift _ _ _ _ (read_bytes_slice v first last H1 H2)).
    by rewrite (bind_lift _ _ _ _ (count_slice v first last ltac:(lia))). }
  split_and!.
  - unfold BitCount. rewrite (bind_string now key key raw v e r _ He Hm Hb). on_string Hm Hb now.
    rewrite Hs, (bind_lift _ _ _ _ (string_bytes_strip raw v e Hb)). fold n.
    rewrite Z.max_l, Hall by lia. unfold n. by rewrite slice_all.
  - intros start stop. unfold BitCount. rewrite (bind_string now key key raw v e r _ He Hm Hb).
    on_string Hm Hb now. rewrite Hs, (bind_lift _ _ _ _ (string_bytes_strip raw v e Hb)). fold n.
    replace (if n <=? clamp_start stop n then n - 1 else clamp_start stop n) with
      (Z.min (clamp_start stop n) (n - 1)) by (destruct (Z.leb_spec n (clamp_start stop n)); lia).
    unfold count_range. pose proof (clamp_start_nonneg start n).
    destruct (Z.ltb_spec (Z.min (clamp_start stop n) (n - 1)) (clamp_start start n)); [done|].
    by apply Hall; lia.
  - intros b. unfold BitPos. rewrite (BitPos_with_spec now key b _ 0 (n - 1) raw v e); try (done || lia).
    + fold n. rewrite count_range_all, slice_all by lia. by destruct (first_index b (bits v)).
    + fold n. by rewrite count_range_all, Z.max_l by lia.
  - intros b start. apply (BitPos_with_spec now key b _ start (n - 1) raw v e); try (done || lia).
    fold n. rewrite Z.max_l by lia. unfold count_range. rewrite (clamp_start_id (n - 1)), Z.min_id by lia.
    by destruct (Z.ltb_spec (n - 1) (clamp_start start n)).
  - intros b start stop. apply (BitPos_with_spec now key b _ start stop raw v e); try (done || lia).
    fold n. unfold count_range. set (last := if _ <? 0 then 0 else _).
    replace last with (Z.min (clamp_start stop n) (n - 1)).
    + destruct (Z.ltb_spec (Z.min (clamp_start stop n) (n - 1)) (clamp_start start n)); [done|].
      by rewrite (proj2 (Z.ltb_ge (n - 1) _)) by lia.
    + unfold last, clamp_start. cmp_cases; lia.
Qed.

(** ** BITOP *)

(** The values of the sources, empty for the keys without a string. *)
Definition source_value (o : option (bytes * Z)) : bytes := fst (default ([], 0) o).

Lemma BitOp_sources_spec now dest_key src_keys os r :
  engine_ok r -> Forall2 (fun k o => str_holds (db_ r) now k o) src_keys os -> forall acc max_len,
  BitOp_sources now dest_key src_keys acc max_len r =
  Some (inr (acc ++ map source_value os,
             fold_left (fun m o => Z.max m (Z.of_nat (length (source_value o)))) os max_len), r).
Proof.
  intros He. induction 1 as [|k o ks os Ho HF IH]; intros acc max_len; simpl.
  { by rewrite app_nil_r. }
  change (source_value o :: map source_value os) with ([source_value o] ++ map source_value os).
  rewrite app_assoc. destruct Ho as [Hg|raw v e Hm Hb Hs|raw v e Hm Hb Hs].
  - rewrite (bind_gone now k dest_key r _ He Hg). unfold bind at 1. apply IH.
  - rewrite (bind_string now k dest_key raw v e r _ He Hm Hb). on_string Hm Hb now. rewrite Hs. apply IH.
  - rewrite (bind_string now k dest_key raw v e r _ He Hm Hb). on_string Hm Hb now.
    cbn [negb andb]. rewrite Hs, (bind_lift _ _ _ _ (string_bytes_strip raw v e Hb)). apply IH.
Qed.

(** C34: [BITOP] stores under the destination, without an expiry time, the bitwise
    combination of the sources padded with zeros to the longest of them; NOT
    takes one source, and no source is refused. *)
Theorem BitOp_correct now op dest_key k ks o os r :
  key_ok dest_key = true -> clock_ok now -> engine_ok r ->
  Forall2 (fun k o => str_holds (db_ r) now k o) (k :: ks) (o :: os) ->
  if bool_decide (op = kBitOpNot) && negb (Nat.eqb (length ks) 0)
  then BitOp now op dest_key (k :: ks) r =
    Some ((Status_InvalidArgument (lit "the number of source keys is not right"), None), r)
  else exists d r', BitOp now op dest_key (k :: ks) r =
      Some ((Status_OK, Some (d, Z.of_nat (length d))), r') /\
    str_stores now dest_key (Some (d, 0)) r r' /\
    Z.of_nat (length d) =
      fold_left (fun m o => Z.max m (Z.of_nat (length (source_value o)))) (o :: os) 0 /\
    forall i, (i < 8 * length d)%nat ->
      bit_at d i =
      fold_left (fun x o => bit_op op x (bit_at (source_value o) i)) os
        (if decide (op = kBitOpNot) then negb (bit_at (source_value o) i) else bit_at (source_value o) i).
Proof.
  intros K Hnow He HF. unfold BitOp. cbn [length].
  replace (negb (Nat.eqb (S (length ks)) 1)) with (negb (Nat.eqb (length ks) 0)) by done.
  destruct (bool_decide (op = kBitOpNot) && negb (Nat.eqb (length ks) 0)); [done|]. cbn [orb Nat.eqb].
  rewrite (bind_run _ _ _ _ _ (BitOp_sources_spec now dest_key _ _ r He HF [] 0)). cbn [app map].
  set (max_len := fold_left _ _ _).
  assert (Hmax : 0 <= max_len).
  { unfold max_len. assert (G : forall l m, 0 <= m -> 0 <= fold_left (fun m o => Z.max m
      (Z.of_nat (length (source_value o)))) l m); [|by apply G].
    induction l as [|x l IH]; intros m Hm; [done|]. simpl. apply IH. lia. }
  destruct (BitOpOperate_correct op (source_value o) (map source_value os) (Z.to_nat max_len))
    as (d & HB & Hl & Hbits).
  destruct (PutNew_stores now dest_key d r K Hnow He) as (r' & HP & Hst).
  exists d, r'. rewrite (bind_lift _ _ _ _ HB), (bind_run _ _ _ _ _ HP).
  split_and!; [done|done|lia|]. intros i Hi. rewrite Hbits by lia.
  generalize (if decide (op = kBitOpNot) then negb (bit_at (source_value o) i) else bit_at (source_value o) i).
  clear. induction os as [|x os IH]; intros b; [done|]. simpl. apply IH.
Qed.

End StringBit.
