(* ===== verification/StringWitness.v ===== *)
(** * The theorems about strings on concrete engines *)

From S2P Require Import Prelude Coding Numbers Bits KeyFormat Comparator ValueFormat RocksDB LruCache Redis KeySpace Sample Strings StringSpec StringWrite StringCount StringBit.
Open Scope Z_scope.

Lemma string_engine_holds v e : 0 <= e < 2 ^ 63 ->
  str_holds (db_ (string_engine v e)) 1000 q_key (visible 1000 v e).
Proof.
  intros He. eapply str_holds_bytes; [apply meta_engine_meta|].
  apply string_bytes_Encode; [apply clock_1000|done].
Qed.

Lemma string_engine_live v : str_holds (db_ (string_engine v 0)) 1000 q_key (Some (v, 0)).
Proof. by apply (string_engine_holds v 0). Qed.

Lemma fresh_missing key : str_holds (db_ fresh_engine) 1000 key None.
Proof. apply sh_gone. left. reflexivity. Qed.

Lemma string_reads_correct_witness :
  Redis_Get 1000 q_key (string_engine (lit "hello") 5000) =
    Some ((Status_OK, lit "hello"), string_engine (lit "hello") 5000) /\
  GetWithTTL 1000 q_key (string_engine (lit "hello") 5000) =
    Some ((Status_OK, lit "hello", Some 4000), string_engine (lit "hello") 5000).
Proof.
  destruct (string_reads_correct 1000 q_key (Some (lit "hello", 5000)) (string_engine (lit "hello") 5000)
    clock_1000 (meta_engine_ok _ _) (string_engine_holds (lit "hello") 5000 ltac:(lia)))
    as (H1 & _ & _ & _ & H2).
  split; [exact H1|]. apply H2. unfold is_i64. lia.
Defined.

Lemma string_set_correct_witness :
  exists r', Setex 1000 q_key (lit "v") 10 fresh_engine = Some (Status_OK, r') /\
    str_stores 1000 q_key (Some (lit "v", 1010)) fresh_engine r'.
Proof.
  exact (proj1 (proj2 (string_set_correct 1000 q_key (lit "v") fresh_engine eq_refl clock_1000
    fresh_engine_ok)) 10 ltac:(lia)).
Defined.

Lemma string_conditional_correct_witness :
  Setnx 1000 q_key (lit "x") 0 (string_engine (lit "v") 0) =
    Some ((Status_OK, 0), string_engine (lit "v") 0).
Proof.
  exact (proj1 (string_conditional_correct 1000 q_key (Some (lit "v", 0)) (lit "x") (lit "y") 0
    (string_engine (lit "v") 0) eq_refl clock_1000 (meta_engine_ok _ _) ltac:(lia)
    (string_engine_live (lit "v")))).
Defined.

Lemma GetSet_returns_meta_witness : exists r',
  GetSet 1000 q_key (lit "x") (meta_engine q_key empty_hash_meta) = Some ((Status_OK, empty_hash_meta), r').
Proof.
  exact (GetSet_returns_meta 1000 q_key (lit "x") empty_hash_meta (meta_engine q_key empty_hash_meta)
    eq_refl clock_1000 (meta_engine_ok _ _) eq_refl ltac:(discriminate) eq_refl).
Defined.

Lemma Append_correct_witness : exists out r',
  Append 1000 q_key (lit "b") (string_engine (lit "a") 0) = Some ((Status_OK, 2, 0, out), r') /\
  str_stores 1000 q_key (Some (lit "ab", 0)) (string_engine (lit "a") 0) r' /\
  (Some (lit "a", 0) <> None -> out = Some (lit "ab")).
Proof.
  exact (Append_correct 1000 q_key (Some (lit "a", 0)) (lit "b") (string_engine (lit "a") 0) eq_refl
    clock_1000 (meta_engine_ok _ _) (string_engine_live (lit "a")) ltac:(lia)).
Defined.

Lemma Append_stale_unreported_witness : exists r',
  Append 1000 q_key (lit "b") (string_engine (lit "a") 500) = Some ((Status_OK, 1, 0, None), r') /\
  str_holds (db_ r') 1000 q_key (Some (lit "b", 0)).
Proof.
  apply (Append_stale_unreported 1000 q_key (lit "b") _ (lit "a") 500 (string_engine (lit "a") 500) eq_refl
    clock_1000 (meta_engine_ok _ _) (meta_engine_meta _)); [|reflexivity].
  apply string_bytes_Encode; [apply clock_1000|lia].
Defined.

Lemma MSetnx_correct_witness :
  MSetnx 1000 [(lit "p", lit "x"); (q_key, lit "y")] (string_engine (lit "a") 0) =
  Some ((Status_OK, 0), string_engine (lit "a") 0).
Proof.
  refine (proj2 (proj2 (MSetnx_correct 1000 [(lit "p", lit "x"); (q_key, lit "y")]
    (string_engine (lit "a") 0) clock_1000 (meta_engine_ok _ _) _)) [(lit "p", lit "x")] q_key (lit "y") []
    eq_refl _ _).
  - repeat constructor.
  - constructor; [|constructor]. left. reflexivity.
  - eexists. split; [apply meta_engine_meta|reflexivity].
Defined.

Lemma counters_correct_witness : exists r',
  Decrby 1000 q_key 5 (string_engine (decimal 3) 0) = Some ((Status_OK, Some (-2)), r') /\
  str_stores 1000 q_key (Some (lit "-2", 0)) (string_engine (decimal 3) 0) r'.
Proof.
  refine (proj2 (counters_correct 1000 q_key (Some (decimal 3, 0)) 3 0 5 (string_engine (decimal 3) 0) eq_refl
    clock_1000 (meta_engine_ok _ _) _ _ _ (string_engine_live _) (or_intror eq_refl))); unfold is_i64; lia.
Defined.

Definition big_counter : bytes := lit "9223372036854775808".

Lemma Incrby_saturates_witness :
  (exists r', Incrby 1000 q_key (-1) (string_engine big_counter 0) =
     Some ((Status_OK, Some 9223372036854775806, Some 0), r') /\
     str_stores 1000 q_key (Some (lit "9223372036854775806", 0)) (string_engine big_counter 0) r') /\
  Decrby 1000 q_key 1 (string_engine big_counter 0) =
     Some ((not_integer_status, None), string_engine big_counter 0).
Proof.
  refine (Incrby_saturates 1000 q_key big_counter 0 (-1) (string_engine big_counter 0) eq_refl
    clock_1000 (meta_engine_ok _ _) _ eq_refl _ _ (string_engine_live _)); [lia|reflexivity|].
  unfold LLONG_MIN. lia.
Defined.

Lemma Setrange_correct_witness : exists r',
  Setrange 1000 q_key 1 (lit "ipp") (string_engine (lit "hello") 0) = Some ((Status_OK, Some 5), r') /\
  str_stores 1000 q_key (Some (lit "hippo", 0)) (string_engine (lit "hello") 0) r'.
Proof.
  refine (Setrange_correct 1000 q_key (Some (lit "hello", 0)) 1 (lit "ipp") (string_engine (lit "hello") 0) eq_refl
    clock_1000 (meta_engine_ok _ _) (string_engine_live (lit "hello")) _ _ _); [simpl; lia| |lia].
  apply (bool_decide_unpack _). reflexivity.
Defined.

Lemma Setrange_shortens_witness : exists new r',
  Setrange 1000 q_key 1 (lit "i" ++ x00 :: lit "p") (string_engine (lit "hello") 0) =
    Some ((Status_OK, Some (size32 new)), r') /\
  str_stores 1000 q_key (Some (new, 0)) (string_engine (lit "hello") 0) r' /\ length new = 3%nat.
Proof.
  refine (Setrange_shortens 1000 q_key (lit "hello") 0 1 (lit "i") (lit "p") (string_engine (lit "hello") 0) eq_refl
    clock_1000 (meta_engine_ok _ _) (string_engine_live _) _ _ _ _); try (simpl; lia).
  apply (bool_decide_unpack _). reflexivity.
Defined.

Lemma bits_correct_witness :
  GetBit 1000 q_key 1 (string_engine (lit "a") 0) = Some ((Status_OK, Some 1), string_engine (lit "a") 0).
Proof.
  refine (proj1 (bits_correct 1000 q_key (Some (lit "a", 0)) 1 1 (string_engine (lit "a") 0) eq_refl
    clock_1000 (meta_engine_ok _ _) (string_engine_live (lit "a")) _ _ _)); [lia|by right|lia].
Defined.

Lemma bit_searches_correct_witness :
  BitCount 1000 q_key 0 0 false (string_engine (lit "a") 0) =
  Some ((Status_OK, 3), string_engine (lit "a") 0).
Proof.
  refine (proj1 (bit_searches_correct 1000 q_key (lit "a") 0 (string_engine (lit "a") 0)
    (meta_engine_ok _ _) (string_engine_live (lit "a")) _)). simpl. lia.
Defined.

Lemma BitOp_correct_witness : exists d r',
  BitOp 1000 kBitOpOr (lit "d") [q_key; lit "p"] (string_engine (lit "a") 0) =
    Some ((Status_OK, Some (d, Z.of_nat (length d))), r') /\
  str_stores 1000 (lit "d") (Some (d, 0)) (string_engine (lit "a") 0) r'.
Proof.
  destruct (BitOp_correct 1000 kBitOpOr (lit "d") q_key [lit "p"] (Some (lit "a", 0)) [None]
    (string_engine (lit "a") 0) eq_refl clock_1000 (meta_engine_ok _ _)) as (d & r' & H1 & H2 & _).
  - constructor; [apply string_engine_live|]. constructor; [|constructor]. apply sh_gone. left. reflexivity.
  - exists d, r'. split; [exact H1|exact H2].
Defined.

Lemma strings_expiry_correct_witness :
  StringsTTL 1000 q_key [] (string_engine (lit "a") 5000) =
  Some ((Status_OK, Some 4000), string_engine (lit "a") 5000).
Proof.
  refine (proj2 (proj2 (proj2 (proj2 (strings_expiry_correct 1000 q_key [] (lit "a") 5000
    (string_engine (lit "a") 5000) eq_refl clock_1000 (meta_engine_ok _ _)
    (string_engine_holds (lit "a") 5000 _) (or_introl eq_refl) _))))); [lia|unfold is_i64; lia].
Defined.

Lemma strings_missing_key_witness : exists r', StringsDel 1000 q_key [] fresh_engine = Some (Status_OK, r').
Proof. exact (proj1 (strings_missing_key 1000 q_key fresh_engine eq_refl fresh_engine_ok eq_refl)). Defined.

(** The meta value of a hash with three fields. *)
Definition hash_meta : bytes :=
  Eval vm_compute in BaseMetaValue_Encode (InternalValue_new 1000 kHashes (EncodeFixed32 3)).

Lemma string_wrong_type_witness :
  StringsDel 1000 q_key [] (meta_engine q_key hash_meta) =
  Some (Status_InvalidArgument (lit "WRONGTYPE, key: q, expect type: string, get type: hash"),
        meta_engine q_key hash_meta).
Proof.
  apply (string_wrong_type 1000 q_key); [apply meta_engine_ok|].
  exists hash_meta. split_and!; [reflexivity|discriminate|reflexivity|reflexivity].
Defined.
