(* ===== verification/BaseData.v ===== *)
(** * What hashes, sets and zsets share

    Hashes, sets and zsets keep a base meta value (count, version, times) in
    [kMetaCF] and one entry per member, keyed by the version and the member,
    in a data family of their own.  Their command files repeat the same code
    for reading the meta value, for the key-level commands and for scans; it
    is modelled here once, with the type and the family as arguments.

    An iterator loop has fuel for its rounds and returns [None] without it.
    The time a [KeyStatisticsDurationGuard] measures is an argument of the
    command. *)

From S2P Require Import Prelude Coding Numbers Glob KeyFormat Comparator ValueFormat RocksDB LruCache Redis.
Open Scope Z_scope.

(** [Slice::starts_with] *)
Definition starts_with (key prefix : bytes) : bool :=
  bool_decide (take (length prefix) key = prefix).

(** [int64_t] addition; overflow is undefined. *)
Definition i64_add (a b : Z) : option Z :=
  if (- 2 ^ 63 <=? a + b) && (a + b <? 2 ^ 63) then Some (a + b) else None.

Section BaseData.
Context {R : RocksDB} {U : Uninit}.

(** [for (; iter->Valid() && cond; move) body]: [body] answers [false] for
    [break].  Returns the iterator too, which some loops use afterwards. *)
Fixpoint iter_while {S : Type} (fuel : nat) (move : Iterator -> Iterator)
    (cond : bytes -> S -> bool) (body : bytes -> bytes -> S -> option (bool * S))
    (it : Iterator) (st : S) : option (Iterator * S) :=
  match fuel with
  | O => None
  | Datatypes.S fuel =>
      if Valid it && cond (iter_key it) st then
        '(go, st) ← body (iter_key it) (iter_value it) st;
        if go : bool then iter_while fuel move cond body (move it) st else Some (it, st)
      else Some (it, st)
  end.

(** The value a data entry stores for [value], written at [now]. *)
Definition base_value (now : Z) (value : bytes) : bytes :=
  BaseDataValue_Encode (InternalValue_new now kNones value).

(** [batch.Put(handles_[kMetaCF], base_meta_key.Encode(), meta_value)] *)
Definition put_base_meta (key : bytes) (p : ParsedBaseMetaValue) : WriteOp :=
  Put kMetaCF (BaseKey_Encode key) (piv_data (pbm_base p)).

(** The meta value of a new key with [count] members, and its version. *)
Definition new_base_meta (now : Z) (type : DataType) (count : Z) : InternalValue :=
  BaseMetaValue_UpdateVersion now (InternalValue_new now type (EncodeFixed32 count)).

(** ** Reading the meta value *)

(** [IsStale() ... else if (Count() == 0)]: the status returned early, if any. *)
Definition base_vacant (now : Z) (p : ParsedBaseMetaValue) : option Status :=
  if IsStale now (pbm_base p) then Some (Status_NotFound (lit "Stale"))
  else if pbm_count p =? 0 then Some (Status_NotFound [])
  else None.

(** [IsStale() || Count() == 0] *)
Definition base_dead (now : Z) (p : ParsedBaseMetaValue) : bool :=
  IsStale now (pbm_base p) || (pbm_count p =? 0).

(** Reads the value of [key] for a command that needs it to exist: [inl] is the
    status the command returns at once. *)
Definition GetBase (now : Z) (type : DataType) (key : bytes)
    : M (Status + ParsedBaseMetaValue) :=
  let* m := GetMeta now type key key in
  match m with
  | inl st => ret (inl st)
  | inr (s, meta_value) =>
      if ok s then
        let* p := lift (ParsedBaseMetaValue_parse true meta_value) in
        match base_vacant now p with
        | Some st => ret (inl st)
        | None => ret (inr p)
        end
      else ret (inl s)
  end.

(** ** Key-level commands *)

(** The read of the meta value that starts them.  [shadow]: the status of that
    read goes to a second variable [s], and the outer one stays OK. *)
Definition GetBaseMeta (now : Z) (type : DataType) (key prefetch_meta : bytes) (shadow : bool)
    : M (Status + Status * bytes) :=
  let* m := GetMetaOrPrefetched now type key prefetch_meta in
  match m with
  | inl st => ret (inl st)
  | inr (s, meta_value) => ret (inr (if shadow then Status_OK else s, meta_value))
  end.

Definition GetBaseOrPrefetched (now : Z) (type : DataType) (key prefetch_meta : bytes)
    (shadow : bool) : M (Status + ParsedBaseMetaValue) :=
  let* m := GetBaseMeta now type key prefetch_meta shadow in
  match m with
  | inl st => ret (inl st)
  | inr (s, meta_value) =>
      if ok s then
        let* p := lift (ParsedBaseMetaValue_parse true meta_value) in
        match base_vacant now p with
        | Some st => ret (inl st)
        | None => ret (inr p)
        end
      else ret (inl s)
  end.

Definition BaseExpire (type : DataType) (shadow : bool) (now : Z) (key : bytes) (ttl_millsec : Z)
    (prefetch_meta : bytes) : M Status :=
  let* m := GetBaseOrPrefetched now type key prefetch_meta shadow in
  match m with
  | inl st => ret st
  | inr p =>
      if 0 <? ttl_millsec then
        Write [put_base_meta key (ParsedBaseMetaValue_SetRelativeTimestamp now p ttl_millsec)]
      else Write [put_base_meta key (ParsedBaseMetaValue_InitialMetaValue now p)]
  end.

Definition BaseDel (type : DataType) (now : Z) (key prefetch_meta : bytes) : M Status :=
  let* m := GetBaseOrPrefetched now type key prefetch_meta false in
  match m with
  | inl st => ret st
  | inr p =>
      let statistic := u32 (pbm_count p) in
      let* s := Write [put_base_meta key (ParsedBaseMetaValue_InitialMetaValue now p)] in
      let* _ := UpdateSpecificKeyStatistics type key statistic in
      ret s
  end.

Definition BaseExpireat (type : DataType) (shadow : bool) (now : Z) (key : bytes)
    (timestamp_millsec : Z) (prefetch_meta : bytes) : M Status :=
  let* m := GetBaseOrPrefetched now type key prefetch_meta shadow in
  match m with
  | inl st => ret st
  | inr p =>
      let p :=
        if 0 <? timestamp_millsec then ParsedBaseMetaValue_SetEtime p (u64 timestamp_millsec)
        else ParsedBaseMetaValue_InitialMetaValue now p in
      Write [put_base_meta key p]
  end.

Definition BasePersist (type : DataType) (shadow : bool) (now : Z) (key prefetch_meta : bytes)
    : M Status :=
  let* m := GetBaseOrPrefetched now type key prefetch_meta shadow in
  match m with
  | inl st => ret st
  | inr p =>
      if piv_etime (pbm_base p) =? 0 then
        ret (Status_NotFound (lit "Not have an associated timeout"))
      else Write [put_base_meta key (ParsedBaseMetaValue_SetEtime p 0)]
  end.

Definition BaseTTL (type : DataType) (now : Z) (key prefetch_meta : bytes) : M (Status * Z) :=
  let* m := GetMetaOrPrefetched now type key prefetch_meta in
  match m with
  | inl st => ret (st, 0)
  | inr (s, meta_value) =>
      if ok s then
        let* p := lift (ParsedBaseMetaValue_parse true meta_value) in
        match base_vacant now p with
        | Some st => ret (st, -2)
        | None => ret (s, ttl_of now (piv_etime (pbm_base p)))
        end
      else if IsNotFound s then ret (s, -2)
      else ret (s, 0)
  end.

(** [HLen] and [ZCard]: the count in the meta value. *)
Definition BaseCard (type : DataType) (now : Z) (key prefetch_meta : bytes) : M (Status * Z) :=
  let* m := GetMetaOrPrefetched now type key prefetch_meta in
  match m with
  | inl st => ret (st, 0)
  | inr (s, meta_value) =>
      if ok s then
        let* p := lift (ParsedBaseMetaValue_parse true meta_value) in
        match base_vacant now p with
        | Some st => ret (st, 0)
        | None => ret (s, pbm_count p)
        end
      else ret (s, 0)
  end.

(** ** Listing and scanning members *)

(** The loop of the commands that list a key: [f] of each of its entries. *)
Definition list_entries {A} (cf : ColumnFamilyIndex) (fuel : nat) (f : bytes -> bytes -> option A)
    (key : bytes) (version : Z) (db : DB) : option (list A) :=
  let prefix := BaseDataKey_EncodeSeekKey key version [] in
  snd <$> iter_while fuel Next (fun k _ => starts_with k prefix)
    (fun k v acc => a ← f k v; Some (true, acc ++ [a]))
    (Seek (NewIterator db cf) prefix) [].

Definition member_only (k v : bytes) : option bytes := q ← ParsedBaseDataKey k; Some (pdk_data q).

(** The body of the scan loops: keep the entry when its member matches.  [view]
    is what a command returns for a member and its value. *)
Definition scan_entry {A} (view : bytes -> bytes -> A) (pattern k v : bytes) (acc : list A)
    : option (list A) :=
  q ← ParsedBaseDataKey k;
  matched ← StringMatch pattern (pdk_data q);
  Some (if matched : bool
        then acc ++ [view (pdk_data q) (UserValue (ParsedBaseDataValue false v))] else acc).

(** [rest] and the entries collected. *)
Definition scan_body {A} (view : bytes -> bytes -> A) (pattern k v : bytes) (st : Z * list A)
    : option (bool * (Z * list A)) :=
  let '(rest, acc) := st in
  acc ← scan_entry view pattern k v acc;
  Some (true, (rest - 1, acc)).

Definition member_at_iter (it : Iterator) : option bytes :=
  q ← ParsedBaseDataKey (iter_key it); Some (pdk_data q).

(** The end of a scan: where the iterator stands goes to the cache of cursors. *)
Definition next_cursor (type : DataType) (key pattern prefix : bytes) (it : Iterator)
    (cursor step_length : Z) : M Z :=
  if Valid it && (match bytes_compare (iter_key it) prefix with Gt => false | _ => true end
                  || starts_with (iter_key it) prefix)
  then
    let* next_cursor := lift (i64_add cursor step_length) in
    let* next_member := lift (member_at_iter it) in
    let* _ := StoreScanNextPoint type key pattern next_cursor next_member in
    ret next_cursor
  else ret 0.

(** [HScan], [SScan] and [ZScan].  [seek] encodes the key an iteration starts
    from: the commands do not all use the same encoder. *)
Definition BaseScan {A} (type : DataType) (cf : ColumnFamilyIndex)
    (seek : bytes -> Z -> bytes -> bytes) (view : bytes -> bytes -> A)
    (fuel : nat) (duration now : Z) (key : bytes) (cursor : Z) (pattern : bytes) (count : Z)
    : M (Status * list A * Z) :=
  if cursor <? 0 then ret (Status_OK, [], 0)
  else
    let* m := GetMeta now type key key in
    match m with
    | inl st => ret (st, [], 0)
    | inr (s, meta_value) =>
        if ok s then
          let* p := lift (ParsedBaseMetaValue_parse true meta_value) in
          if base_dead now p then ret (Status_NotFound [], [], 0)
          else
            let version := piv_version (pbm_base p) in
            let* '(s, found) := GetScanStartPoint type key pattern cursor in
            let tail := take (length pattern - 1) pattern in
            let cursor := if IsNotFound s then 0 else cursor in
            let start_point :=
              if IsNotFound s then (if isTailWildcard pattern then tail else [])
              else default [] found in
            let sub_member := if isTailWildcard pattern then tail else [] in
            let prefix := BaseDataKey_EncodeSeekKey key version sub_member in
            let* db := gets db_ in
            let* '(it, (_, members)) :=
              lift (iter_while fuel Next (fun k '(rest, _) => (0 <? rest) && starts_with k prefix)
                      (scan_body view pattern)
                      (Seek (NewIterator db cf) (seek key version start_point)) (count, [])) in
            let* next := next_cursor type key pattern prefix it cursor count in
            let* _ := UpdateSpecificKeyDuration type key duration in
            ret (Status_OK, members, next)
        else ret (s, [], 0)
    end.

(** ** Counting keys *)

(** The loop of [ScanHashesKeyNum] and its siblings over the meta family; the
    last component of the accumulator is [ttl_sum]. *)
Fixpoint scan_base (type : DataType) (fuel : nat) (now : Z) (it : Iterator) (acc : Z * Z * Z * Z)
    : option (Z * Z * Z * Z) :=
  match fuel with
  | O => None
  | Datatypes.S fuel =>
      if Valid it then
        let '(keys, expires, invaild_keys, ttl_sum) := acc in
        if ExpectedMetaValue type (iter_value it) then
          p ← ParsedBaseMetaValue_parse false (iter_value it);
          let acc :=
            if base_dead now p then (keys, expires, u64 (invaild_keys + 1), ttl_sum)
            else if IsPermanentSurvival (pbm_base p) then
              (u64 (keys + 1), expires, invaild_keys, ttl_sum)
            else (u64 (keys + 1), u64 (expires + 1), invaild_keys,
                  u64 (ttl_sum + (piv_etime (pbm_base p) - now))) in
          scan_base type fuel now (Next it) acc
        else scan_base type fuel now (Next it) acc
      else Some acc
  end.

Definition ScanBaseKeyNum (type : DataType) (fuel : nat) (now : Z) : M (Status * KeyInfo) :=
  let* db := gets db_ in
  let* '(keys, expires, invaild_keys, ttl_sum) :=
    lift (scan_base type fuel now (SeekToFirst (NewIterator db kMetaCF)) (0, 0, 0, 0)) in
  ret (Status_OK,
       mkKeyInfo keys expires (if negb (expires =? 0) then ttl_sum / expires else 0) invaild_keys).

End BaseData.
