(* ===== verification/BaseScan.v ===== *)
(** * Scanning members

    What the iterator loops of [BaseData] visit: the entries of a version in
    the order of their members, from any starting point, in either direction. *)

From Stdlib Require Import Sorting.Sorted.
From stdpp Require Import sorting.
From S2P Require Import Prelude Coding KeyFormat Comparator ValueFormat RocksDB LruCache Redis KeySpace BaseData BaseSpec.
Open Scope Z_scope.

(** The cursor in front of [l], with [before] behind it; and backwards, in
    front of [l] with [after] behind it. *)
Definition cursor_at (before l : list entry) : option cursor :=
  match l with [] => None | e :: after => Some (before, e, after) end.

(** ** Seeking *)

Lemma seek_split cmp k a : forall before l,
  Forall (fun e : entry => cmp (fst e) k = Lt) a ->
  match l with [] => True | e :: _ => cmp (fst e) k <> Lt end ->
  seek cmp k before (a ++ l) = cursor_at (rev a ++ before) l.
Proof.
  induction a as [|e a IH]; intros before l Ha Hl; simpl.
  - destruct l as [|e l]; [done|]. simpl. by destruct (cmp (fst e) k).
  - apply Forall_cons in Ha as [He Ha]. rewrite He, IH by done. by rewrite <- app_assoc.
Qed.

Lemma seek_for_prev_split cmp k a : forall before l,
  Forall (fun e : entry => cmp (fst e) k <> Gt) a ->
  match l with [] => True | e :: _ => cmp (fst e) k = Gt end ->
  seek_for_prev cmp k before (a ++ l) = cursor_prev (rev a ++ before) l.
Proof.
  induction a as [|e a IH]; intros before l Ha Hl; simpl.
  - destruct l as [|e l]; [done|]. simpl. by rewrite Hl.
  - apply Forall_cons in Ha as [He Ha].
    destruct (cmp (fst e) k); [|..|done]; rewrite IH by done; by rewrite <- app_assoc.
Qed.

Section Walk.
Context {R : RocksDB} {L : RocksDBLaws R} {S : Type}.
Context (cond : bytes -> S -> bool) (body : bytes -> bytes -> S -> option (bool * S)).
Context (step : S -> entry -> S).

(** Each entry of [b] continues the loop, and the next one, if any, ends it. *)
Definition runs (b : list entry) (st : S) : Prop :=
  forall b1 e b2, b = b1 ++ e :: b2 ->
    let st' := fold_left step b1 st in
    cond (fst e) st' = true /\ body (fst e) (snd e) st' = Some (true, step st' e).
Definition stops (c : list entry) (st : S) : Prop :=
  match c with
  | [] => True
  | e :: _ => cond (fst e) st = false \/
              cond (fst e) st = true /\ body (fst e) (snd e) st = Some (false, st)
  end.

Lemma runs_cons e b st :
  runs (e :: b) st ->
  (cond (fst e) st = true /\ body (fst e) (snd e) st = Some (true, step st e)) /\ runs b (step st e).
Proof.
  intros H. split; [apply (H [] e b eq_refl)|]. intros b1 e' b2 ->. apply (H (e :: b1) e' b2 eq_refl).
Qed.

Lemma stop_here move fuel it st e :
  Valid it = true -> iter_key it = fst e -> iter_value it = snd e ->
  cond (fst e) st = false \/ cond (fst e) st = true /\ body (fst e) (snd e) st = Some (false, st) ->
  iter_while (Datatypes.S fuel) move cond body it st = Some (it, st).
Proof.
  intros Hv Hk Hval Hst. cbn [iter_while]. rewrite Hv, Hk, Hval.
  destruct Hst as [->|[-> ->]]; done.
Qed.

Lemma walk_next b : forall bef c st fuel it,
  position it = cursor_at bef (b ++ c) -> runs b st -> stops c (fold_left step b st) ->
  (length b < fuel)%nat ->
  exists it', iter_while fuel Next cond body it st = Some (it', fold_left step b st) /\
    position it' = cursor_at (rev b ++ bef) c.
Proof.
  induction b as [|e b IH]; intros bef c st fuel it Hp Hr Hs Hf; (destruct fuel as [|fuel]; [simpl in Hf; lia|]).
  - exists it. split; [|done]. simpl in Hp. destruct c as [|e c].
    + cbn [iter_while]. by rewrite Valid_position, Hp.
    + apply (stop_here Next fuel it st e); [by rewrite Valid_position, Hp|by eapply key_position|by eapply value_position|done].
  - destruct (runs_cons _ _ _ Hr) as [[Hc Hb] Hr']. simpl in Hp, Hf.
    cbn [iter_while]. rewrite Valid_position, Hp, (key_position _ _ _ _ Hp), (value_position _ _ _ _ Hp), Hc.
    cbn [andb]. rewrite Hb. cbn [mbind option_bind].
    destruct (IH (e :: bef) c (step st e) fuel (Next it)) as (it' & H1 & H2); [|done|done|lia|].
    + rewrite (Next_position _ _ Hp). by destruct (b ++ c).
    + exists it'. split; [done|]. simpl. by rewrite <- app_assoc.
Qed.

Lemma walk_prev b : forall aft c st fuel it,
  position it = cursor_prev (b ++ c) aft -> runs b st -> stops c (fold_left step b st) ->
  (length b < fuel)%nat ->
  exists it', iter_while fuel Prev cond body it st = Some (it', fold_left step b st) /\
    position it' = cursor_prev c (rev b ++ aft).
Proof.
  induction b as [|e b IH]; intros aft c st fuel it Hp Hr Hs Hf; (destruct fuel as [|fuel]; [simpl in Hf; lia|]).
  - exists it. split; [|done]. simpl in Hp. destruct c as [|e c].
    + cbn [iter_while]. by rewrite Valid_position, Hp.
    + apply (stop_here Prev fuel it st e); [by rewrite Valid_position, Hp|by eapply key_position|by eapply value_position|done].
  - destruct (runs_cons _ _ _ Hr) as [[Hc Hb] Hr']. simpl in Hp, Hf.
    cbn [iter_while]. rewrite Valid_position, Hp, (key_position _ _ _ _ Hp), (value_position _ _ _ _ Hp), Hc.
    cbn [andb]. rewrite Hb. cbn [mbind option_bind].
    destruct (IH (e :: aft) c (step st e) fuel (Prev it)) as (it' & H1 & H2); [|done|done|lia|].
    + by rewrite (Prev_position _ _ Hp).
    + exists it'. split; [done|]. simpl. by rewrite <- app_assoc.
Qed.

End Walk.

(** *** Either direction *)

(** The loop goes on over [b] and ends in front of [c] with [st']. *)
Definition halts {St} (cond : bytes -> St -> bool) (body : bytes -> bytes -> St -> option (bool * St))
    (c : list entry) (st st' : St) : Prop :=
  match c with
  | [] => st' = st
  | e :: _ => (cond (fst e) st = false /\ st' = st) \/
              (cond (fst e) st = true /\ body (fst e) (snd e) st = Some (false, st'))
  end.

(** What is in front of an iterator that goes by [move]. *)
Class Walks {R : RocksDB} (move : Iterator -> Iterator) (ahead : Iterator -> list entry -> Prop) := {
  ahead_nil it : ahead it [] -> Valid it = false;
  ahead_cons it e l :
    ahead it (e :: l) -> Valid it = true /\ iter_key it = fst e /\ iter_value it = snd e /\ ahead (move it) l
}.

Definition ahead_next {R : RocksDB} {L : RocksDBLaws R} (it : Iterator) (l : list entry) : Prop :=
  exists before, position it = cursor_at before l.
Definition ahead_prev {R : RocksDB} {L : RocksDBLaws R} (it : Iterator) (l : list entry) : Prop :=
  exists after, position it = cursor_prev l after.

#[export] Instance walks_next {R : RocksDB} {L : RocksDBLaws R} : Walks Next ahead_next.
Proof.
  split.
  - intros it [bef Hp]. by rewrite Valid_position, Hp.
  - intros it e l [bef Hp]. simpl in Hp. rewrite Valid_position, Hp, (key_position _ _ _ _ Hp), (value_position _ _ _ _ Hp).
    split_and!; [done..|]. exists (e :: bef). rewrite (Next_position _ _ Hp). by destruct l.
Qed.

#[export] Instance walks_prev {R : RocksDB} {L : RocksDBLaws R} : Walks Prev ahead_prev.
Proof.
  split.
  - intros it [aft Hp]. by rewrite Valid_position, Hp.
  - intros it e l [aft Hp]. simpl in Hp. rewrite Valid_position, Hp, (key_position _ _ _ _ Hp), (value_position _ _ _ _ Hp).
    split_and!; [done..|]. exists (e :: aft). by rewrite (Prev_position _ _ Hp).
Qed.

Lemma walk_loop {R : RocksDB} {move ahead} `{!Walks move ahead} {St} (cond : bytes -> St -> bool)
    (body : bytes -> bytes -> St -> option (bool * St)) (step : St -> entry -> St) b : forall c st st' fuel it,
  ahead it (b ++ c) -> runs cond body step b st -> halts cond body c (fold_left step b st) st' ->
  (length b < fuel)%nat ->
  exists it', iter_while fuel move cond body it st = Some (it', st').
Proof.
  induction b as [|e b IH]; intros c st st' fuel it Ha Hr Hh Hf; (destruct fuel as [|fuel]; [simpl in Hf; lia|]).
  - exists it. cbn [iter_while]. destruct c as [|e c]; simpl in Ha, Hh.
    + by rewrite (ahead_nil it Ha), Hh.
    + destruct (ahead_cons _ _ _ Ha) as (-> & -> & -> & _). by destruct Hh as [[-> ->]|[-> ->]].
  - destruct (runs_cons _ _ _ _ _ _ Hr) as [[Hc Hb] Hr']. simpl in Ha, Hf.
    destruct (ahead_cons _ _ _ Ha) as (Hv & Hk & Hval & Ha').
    cbn [iter_while]. rewrite Hv, Hk, Hval, Hc. cbn [andb]. rewrite Hb. cbn [mbind option_bind].
    apply (IH c); [done..|lia].
Qed.

(** ** The members in order *)

(** [l] lists the map [m] by increasing member. *)
Definition listing (m : gmap bytes bytes) (l : list (bytes * bytes)) : Prop :=
  StronglySorted (fun x y => bytes_compare (fst x) (fst y) = Lt) l /\ list_to_map l = m.

Section Listing.
Context {R : RocksDB} {L : RocksDBLaws R} {U : Uninit}.
Context (cf : ColumnFamilyIndex) (Hcf : base_cf cf = true).
Context (key : bytes) (version : Z) (K : key_ok key = true) (V : is_u64 version).

Definition entry_of (x : bytes * bytes) : entry := (BaseDataKey_Encode key version (fst x), snd x).

Lemma data_key_compare f g :
  bytes_compare (BaseDataKey_Encode key version f) (BaseDataKey_Encode key version g) = bytes_compare f g.
Proof.
  rewrite !data_key_form, bytes_compare_app_l by done. apply (bytes_compare_padded 16).
Qed.

Lemma seek_prefix_of f : seek_prefix key version `prefix_of` BaseDataKey_Encode key version f.
Proof. rewrite data_key_form by done. by eexists. Qed.

Lemma sorted_NoDup l :
  StronglySorted (fun x y : bytes * bytes => bytes_compare (fst x) (fst y) = Lt) l -> NoDup l.*1.
Proof.
  induction 1 as [|x l Hs IH Hf]; [constructor|]. simpl. constructor; [|done].
  intros (y & E & Hy)%list_elem_of_fmap. rewrite Forall_forall in Hf. specialize (Hf y Hy).
  by rewrite E, bytes_compare_refl in Hf.
Qed.

(** The entries under the prefix are those of the members. *)
Lemma under_prefix (b : list entry) :
  sorted bytes_compare b -> (forall k v, (k, v) ∈ b -> exists f, k = BaseDataKey_Encode key version f) ->
  exists fl, b = entry_of <$> fl /\
    StronglySorted (fun x y => bytes_compare (fst x) (fst y) = Lt) fl.
Proof.
  induction b as [|[k v] b IH]; intros Hs Hb; [exists []; split; [done|constructor]|].
  apply sorted_cons in Hs as [Hs Hf].
  destruct IH as (fl & -> & Hfl); [done|intros k' v' H; apply (Hb k' v'); set_solver|].
  destruct (Hb k v ltac:(set_solver)) as (f & ->). exists ((f, v) :: fl). split; [done|].
  constructor; [done|]. rewrite Forall_fmap in Hf. eapply Forall_impl; [exact Hf|].
  intros x. simpl. by rewrite data_key_compare.
Qed.

Lemma members_entries db m :
  healthy db -> members_at cf db key version m ->
  exists a fl c, content db cf = a ++ (entry_of <$> fl) ++ c /\ listing m fl /\
    Forall (fun e => bytes_compare (fst e) (seek_prefix key version) = Lt) a /\
    Forall (fun e => bytes_compare (fst e) (seek_prefix key version) <> Lt /\
                     ~ seek_prefix key version `prefix_of` fst e) c.
Proof.
  intros Hdb Hm. assert (Hs : sorted bytes_compare (content db cf)).
  { rewrite <- (base_cf_compare cf Hcf). apply content_sorted; auto. }
  destruct (sorted_split (seek_prefix key version) _ Hs) as (a & b & c & E & Ha & Hb & Hc).
  assert (Hsb : sorted bytes_compare b).
  { rewrite E in Hs. apply sorted_app in Hs as (_ & Hs & _). by apply sorted_app in Hs as (Hs & _ & _). }
  destruct (under_prefix b Hsb) as (fl & Efl & Hfl).
  { intros k v Hin. apply (ma_clean cf _ _ _ _ Hm k v); [rewrite E; set_solver|].
    rewrite Forall_forall in Hb. by apply (Hb (k, v)). }
  exists a, fl, c. split; [by rewrite E, Efl|]. split; [|done]. split; [done|].
  apply map_eq. intros f. apply option_eq. intros v.
  rewrite <- elem_of_list_to_map by (by apply sorted_NoDup).
  rewrite <- (ma_lookup cf _ _ _ _ Hm f), lookup_cf_eq by done. split.
  - intros Hin. apply (find_entry_elem bytes_compare); [done|]. rewrite E, Efl.
    apply elem_of_app; right. apply elem_of_app; left. apply list_elem_of_fmap. by exists (f, v).
  - intros (k' & Hin & ->%bytes_compare_eq%symmetry)%find_entry_Some.
    rewrite E, !elem_of_app in Hin. destruct Hin as [Hin|[Hin|Hin]].
    + rewrite Forall_forall in Ha. specialize (Ha _ Hin). simpl in Ha.
      by destruct (prefix_compare _ _ (seek_prefix_of f)).
    + rewrite Efl, list_elem_of_fmap in Hin. destruct Hin as ([g w] & [= Ek ->] & Hg).
      by apply data_key_eq in Ek as (_ & _ & ->).
    + rewrite Forall_forall in Hc. destruct (Hc _ Hin) as [_ []]. apply seek_prefix_of.
    + apply _.
Qed.

(** Where a seek to a member stands among the members. *)
Lemma listing_split start fl :
  StronglySorted (fun x y : bytes * bytes => bytes_compare (fst x) (fst y) = Lt) fl ->
  exists fl1 fl2, fl = fl1 ++ fl2 /\
    Forall (fun x => bytes_compare (fst x) start = Lt) fl1 /\
    Forall (fun x => bytes_compare (fst x) start <> Lt) fl2.
Proof.
  induction 1 as [|x l Hs IH Hf]; [by exists [], []|].
  destruct (bytes_compare (fst x) start) eqn:E.
  2:{ destruct IH as (l1 & l2 & -> & H1 & H2). exists (x :: l1), l2. split_and!; [done|by constructor|done]. }
  all: exists [], (x :: l); split_and!; [done|constructor|]; constructor; [by rewrite E|];
    eapply Forall_impl; [exact Hf|]; intros y Hy Hlt; simpl in *;
    pose proof (cmp_trans _ _ _ Hy Hlt); congruence.
Qed.

(** A seek to [T] stands before the members from [start] on. *)
Definition starts_at (T start : bytes) : Prop :=
  seek_prefix key version `prefix_of` T /\
  forall f, bytes_compare (BaseDataKey_Encode key version f) T = Lt <-> bytes_compare f start = Lt.

Lemma Encode_starts start : starts_at (BaseDataKey_Encode key version start) start.
Proof. split; [apply seek_prefix_of|]. intros f. by rewrite data_key_compare. Qed.

Lemma Seek_start db m T start :
  healthy db -> members_at cf db key version m -> starts_at T start ->
  exists a fl1 fl2 c, listing m (fl1 ++ fl2) /\
    Forall (fun x => bytes_compare (fst x) start = Lt) fl1 /\
    Forall (fun x => bytes_compare (fst x) start <> Lt) fl2 /\
    Forall (fun e => bytes_compare (fst e) (seek_prefix key version) <> Lt /\
                     ~ seek_prefix key version `prefix_of` fst e) c /\
    position (Seek (NewIterator db cf) T) =
      cursor_at (rev (entry_of <$> fl1) ++ rev a) ((entry_of <$> fl2) ++ c) /\
    content db cf = a ++ (entry_of <$> fl1 ++ fl2) ++ c.
Proof.
  intros Hdb Hm [HT Hcmp]. destruct (members_entries db m Hdb Hm) as (a & fl & c & E & [Hfl Hmap] & Ha & Hc).
  destruct (listing_split start fl Hfl) as (fl1 & fl2 & -> & H1 & H2).
  exists a, fl1, fl2, c. split; [done|]. split_and!; try done.
  rewrite Seek_position. destruct (NewIterator_content db cf Hdb) as [-> ->]; [auto|].
  rewrite (base_cf_compare cf Hcf), E, fmap_app, <- app_assoc.
  rewrite app_assoc, (seek_split _ _ (a ++ (entry_of <$> fl1))).
  - by rewrite rev_app_distr, app_nil_r.
  - apply Forall_app. split.
    + eapply Forall_impl; [exact Ha|]. intros e He.
      apply (cmp_lt_le_trans bytes_compare _ (seek_prefix key version)); [done|].
      intros H%(cmp_Gt_Lt bytes_compare). by apply (prefix_compare _ _ HT).
    + apply Forall_fmap. eapply Forall_impl; [exact H1|]. intros x Hx. simpl. by apply Hcmp.
  - destruct fl2 as [|x fl2]; simpl.
    + destruct c as [|e c]; [done|]. apply Forall_inv in Hc as [Hk Hn]. intros Hlt.
      by destruct (prefix_interval _ _ _ Hk Hn Hlt).
    + apply Forall_inv in H2. by rewrite Hcmp.
Qed.

Lemma Seek_prefix db m :
  healthy db -> members_at cf db key version m ->
  exists a fl c, listing m fl /\
    Forall (fun e => bytes_compare (fst e) (seek_prefix key version) <> Lt /\
                     ~ seek_prefix key version `prefix_of` fst e) c /\
    position (Seek (NewIterator db cf) (seek_prefix key version)) =
      cursor_at (rev a) ((entry_of <$> fl) ++ c) /\
    content db cf = a ++ (entry_of <$> fl) ++ c.
Proof.
  intros Hdb Hm. destruct (members_entries db m Hdb Hm) as (a & fl & c & E & Hl & Ha & Hc).
  exists a, fl, c. split_and!; try done. rewrite Seek_position.
  destruct (NewIterator_content db cf Hdb) as [-> ->]; [auto|].
  rewrite (base_cf_compare cf Hcf), E, (seek_split _ _ a); [by rewrite app_nil_r|done|].
  destruct fl as [|x fl]; simpl.
  - destruct c as [|e c]; [done|]. by apply Forall_inv in Hc as [Hk _].
  - apply prefix_compare, seek_prefix_of.
Qed.

(** What the loops read of an entry. *)
Lemma parse_member f :
  ParsedBaseDataKey (BaseDataKey_Encode key version f) = Some (mkParsedDataKey key version f).
Proof. by rewrite BaseDataKey_Encode_form, ParsedBaseDataKey_form, u64_id by done. Qed.

Lemma starts_with_member f : starts_with (BaseDataKey_Encode key version f) (seek_prefix key version) = true.
Proof. apply starts_with_spec, seek_prefix_of. Qed.

Lemma starts_with_beyond k : ~ seek_prefix key version `prefix_of` k -> starts_with k (seek_prefix key version) = false.
Proof. intros N. apply not_true_iff_false. by rewrite starts_with_spec. Qed.

(** An element of the entries visited is the entry of a member. *)
Lemma entry_in fl b1 e b2 : entry_of <$> fl = b1 ++ e :: b2 -> exists x, x ∈ fl /\ e = entry_of x.
Proof.
  intros E. assert (He : e ∈ entry_of <$> fl) by (rewrite E; set_solver).
  apply list_elem_of_fmap in He as (x & -> & Hx). by exists x.
Qed.

(** A loop over the whole version visits every member, in order. *)
Lemma fold_members {S} (body : bytes -> bytes -> S -> option (bool * S)) (step : S -> bytes * bytes -> S)
    db m fuel st :
  (forall x st, body (BaseDataKey_Encode key version (fst x)) (snd x) st = Some (true, step st x)) ->
  healthy db -> members_at cf db key version m -> (length (content db cf) < fuel)%nat ->
  exists fl, listing m fl /\
    snd <$> iter_while fuel Next (fun k _ => starts_with k (seek_prefix key version)) body
      (Seek (NewIterator db cf) (seek_prefix key version)) st = Some (fold_left step fl st).
Proof.
  intros Hb Hdb Hm Hfuel. destruct (Seek_prefix db m Hdb Hm) as (a & fl & c & Hl & Hc & Hp & E).
  set (estep := fun st e => match body (fst e) (snd e) st with Some (_, st') => st' | None => st end : S).
  assert (Hfold : forall l st, fold_left estep (entry_of <$> l) st = fold_left step l st).
  { induction l as [|x l IH]; intros st0; simpl; [done|]. rewrite IH. unfold estep. simpl. by rewrite Hb. }
  edestruct (walk_next (fun k (_ : S) => starts_with k (seek_prefix key version)) body estep
    (entry_of <$> fl) (rev a) c st fuel) as (it' & -> & _); [exact Hp| | | |].
  - intros b1 e b2 (x & _ & ->)%entry_in st'. split; [apply starts_with_member|].
    unfold estep. simpl. by rewrite Hb.
  - destruct c as [|e c]; [done|]. left. apply Forall_inv in Hc as [_ Hn]. by apply starts_with_beyond.
  - rewrite length_fmap. rewrite E in Hfuel. rewrite !length_app, length_fmap in Hfuel. lia.
  - exists fl. split; [done|]. simpl. by rewrite Hfold.
Qed.

Lemma list_members {A} (f : bytes -> bytes -> option A) (g : bytes * bytes -> A) db m fuel :
  (forall x, f (BaseDataKey_Encode key version (fst x)) (snd x) = Some (g x)) ->
  healthy db -> members_at cf db key version m -> (length (content db cf) < fuel)%nat ->
  exists fl, listing m fl /\
    snd <$> iter_while fuel Next (fun k _ => starts_with k (seek_prefix key version))
      (fun k v acc => a ← f k v; Some (true, acc ++ [a]))
      (Seek (NewIterator db cf) (seek_prefix key version)) [] = Some (g <$> fl).
Proof.
  intros Hf Hdb Hm Hfuel.
  destruct (fold_members (fun k v acc => a ← f k v; Some (true, acc ++ [a]))
    (fun acc x => acc ++ [g x]) db m fuel []) as (fl & Hl & ->); try done.
  - intros x acc. by rewrite Hf.
  - exists fl. split; [done|]. f_equal.
    assert (H : forall acc, fold_left (fun acc x => acc ++ [g x]) fl acc = acc ++ (g <$> fl)); [|apply H].
    clear. induction fl as [|x fl IH]; intros acc; simpl; [by rewrite app_nil_r|].
    by rewrite IH, <- app_assoc.
Qed.

End Listing.

Lemma listing_fmap (g : bytes -> bytes) m fl :
  listing m fl -> listing (g <$> m) ((fun x => (fst x, g (snd x))) <$> fl).
Proof.
  intros [Hs <-]. split.
  - induction Hs as [|x l Hs IH Hf]; simpl; constructor; [done|]. by rewrite Forall_fmap.
  - clear Hs. induction fl as [|[f v] fl IH]; [symmetry; apply (fmap_empty (M:=gmap bytes))|].
    csimpl. by rewrite fmap_insert, IH.
Qed.

#[local] Instance listing_antisymm :
  AntiSymm (=) (fun x y : bytes * bytes => bytes_compare (fst x) (fst y) = Lt).
Proof. intros x y H1 H2. pose proof (cmp_trans _ _ _ H1 H2) as E. by rewrite bytes_compare_refl in E. Qed.

(** A map has one listing. *)
Lemma listing_unique m l1 l2 : listing m l1 -> listing m l2 -> l1 = l2.
Proof.
  intros [S1 E1] [S2 E2]. eapply (StronglySorted_unique _ l1 l2 S1 S2).
  apply (list_to_map_inj (M:=gmap bytes)); [by apply sorted_NoDup..|congruence].
Qed.
