(* ===== verification/BaseHolds.v ===== *)
(** * Keys with members

    [base_holds] relates a database to the members stored under a key of a type
    that keeps them by version: the current version holds exactly the members,
    and no later version holds anything, so that the next one starts empty.
    The lemmas say how commands of such a type start, what a batch leaves, and
    what the key-level commands of [BaseData] do. *)

From S2P Require Import Prelude Coding KeyFormat Comparator ValueFormat RocksDB LruCache Redis KeySpace BaseData BaseSpec BaseScan.
Open Scope Z_scope.

Definition base_type (type : DataType) : bool :=
  match type with kHashes | kSets | kZSets => true | _ => false end.

Lemma base_type_tag type : base_type type = true -> type_tag type <> None.
Proof. by destruct type. Qed.
Lemma base_type_byte type : base_type type = true -> DataType_of_byte (byte_of_DataType type) = type.
Proof. by destruct type. Qed.

(** Deciding on the statuses RocksDB returns. *)
Ltac on_status :=
  change (ok Status_OK) with true; change (ok (Status_NotFound [])) with false;
  change (IsNotFound (Status_NotFound [])) with true; cbv iota.

(** ** Stored values *)

Section Values.
Context {U : Uninit}.

Lemma base_value_length now v : length (base_value now v) = (length v + 24)%nat.
Proof.
  unfold base_value. rewrite BaseDataValue_Encode_fields, length_chunks. cbn [map].
  rewrite length_EncodeFixed64. simpl. lia.
Qed.

Lemma user_value_base_value now v : user_value (base_value now v) = v.
Proof.
  unfold user_value, base_value. rewrite BaseDataValue_Encode_fields.
  rewrite data_value_parse by (done || by rewrite length_EncodeFixed64).
  unfold UserValue. cbn [piv_user piv_data fst snd]. apply (subseq_chunk 0); simpl; [lia|done|done].
Qed.

(** A stored value long enough to carry its suffix. *)
Definition stored_ok (v : bytes) : Prop := (24 <= length v)%nat.

Lemma stored_chunks v :
  stored_ok v -> exists user res c, v = concat [user; res; c] /\ length res = 16%nat /\ length c = 8%nat.
Proof.
  intros Hv. destruct (chunks_exist [(length v - 24)%nat; 16%nat; 8%nat] v) as (l & -> & Hl).
  - unfold stored_ok in Hv. simpl. lia.
  - chunk_hyp Hl. simpl in *. eauto 10.
Qed.

Lemma strip_stored v :
  stored_ok v ->
  ParsedBaseDataValue_StripSuffix (ParsedBaseDataValue true v) = Some (user_value v) /\
  length v = (length (user_value v) + 24)%nat.
Proof.
  intros (user & res & c & -> & Hr & Hc)%stored_chunks. rewrite data_value_strip by done.
  unfold user_value. rewrite data_value_parse by done. unfold UserValue. cbn [piv_user piv_data fst snd].
  assert (subseq 0 (length user) (concat [user; res; c]) = user) as ->
    by (apply (subseq_chunk 0); simpl; [lia|done|done]).
  split; [done|].
  rewrite length_chunks. simpl. lia.
Qed.

End Values.

Section Holds.
Context {R : RocksDB} {L : RocksDBLaws R} {U : Uninit}.
Context (type : DataType) (cf : ColumnFamilyIndex).
Context (Hty : base_type type = true) (Hcf : base_cf cf = true).

(** ** Keys and their members *)

(** No version from [v0] on has members. *)
Definition fresh_from (db : DB) (key : bytes) (v0 : Z) : Prop :=
  forall v, v0 <= v -> is_u64 v -> members_at cf db key v ∅.

Record base_at (db : DB) (now : Z) (key : bytes) (p : ParsedBaseMetaValue) (m : gmap bytes bytes)
    : Prop := {
  ba_meta : meta_of db key = Some (piv_data (pbm_base p));
  ba_coherent : base_meta_coherent p;
  ba_type : piv_type (pbm_base p) = Some type;
  ba_live : IsStale now (pbm_base p) = false;
  ba_some : m <> ∅;
  ba_count : pbm_count p = Z.of_nat (size m);
  ba_members : members_at cf db key (piv_version (pbm_base p)) m;
  ba_values : map_Forall (fun _ v => stored_ok v) m;
  ba_fresh : fresh_from db key (piv_version (pbm_base p) + 1)
}.

(** A meta value of the type that has expired or counts nothing. *)
Record dead_at (db : DB) (now : Z) (key : bytes) (p : ParsedBaseMetaValue) : Prop := {
  da_meta : meta_of db key = Some (piv_data (pbm_base p));
  da_coherent : base_meta_coherent p;
  da_type : piv_type (pbm_base p) = Some type;
  da_dead : base_dead now p = true;
  da_fresh : fresh_from db key (piv_version (pbm_base p) + 1)
}.

(** No members under [key]. *)
Definition unused (db : DB) (now : Z) (key : bytes) : Prop :=
  (gone type db now key /\ fresh_from db key (next_version now 0)) \/ exists p, dead_at db now key p.

(** [key] holds the members [h], with what the user stored in each, and
    expires at [etime] (0: never). *)
Definition base_holds (db : DB) (now : Z) (key : bytes) (h : gmap bytes bytes) (etime : Z) : Prop :=
  if decide (h = ∅) then unused db now key
  else exists p m, base_at db now key p m /\ user_value <$> m = h /\ piv_etime (pbm_base p) = etime.

(** A version can still be incremented. *)
Definition version_room (db : DB) (key : bytes) : Prop :=
  forall p, meta_of db key = Some (piv_data (pbm_base p)) -> base_meta_coherent p ->
    piv_version (pbm_base p) < 2 ^ 64 - 1.

Definition base_stores (now : Z) (key : bytes) (h : gmap bytes bytes) (etime : Z) (r r' : Redis)
    : Prop :=
  engine_ok r' /\ base_holds (db_ r') now key h etime /\ base_others cf key (db_ r) (db_ r').

Lemma base_holds_empty db now key e : base_holds db now key ∅ e = unused db now key.
Proof. unfold base_holds. by rewrite decide_True. Qed.

Lemma base_holds_live db now key h e :
  h <> ∅ -> base_holds db now key h e ->
  exists p m, base_at db now key p m /\ user_value <$> m = h /\ piv_etime (pbm_base p) = e.
Proof. intros N. unfold base_holds. by rewrite decide_False. Qed.

Lemma base_at_holds db now key p m :
  base_at db now key p m ->
  base_holds db now key (user_value <$> m) (piv_etime (pbm_base p)).
Proof.
  intros H. unfold base_holds. rewrite decide_False; [by exists p, m|].
  intros E%fmap_empty_inv. by apply (ba_some _ _ _ _ _ H).
Qed.

(** ** Meta values *)

Lemma base_coherent_version p : base_meta_coherent p -> is_u64 (piv_version (pbm_base p)).
Proof. intros (l & _ & ->)%base_meta_coherent_object. apply DecodeFixed64_range. Qed.

Lemma base_coherent_type p :
  base_meta_coherent p -> piv_type (pbm_base p) = Some (GetMetaValueType (piv_data (pbm_base p))).
Proof.
  intros (l & Hl & ->)%base_meta_coherent_object. unfold base_meta_sizes in Hl. chunk_hyp Hl.
  unfold base_meta_object, GetMetaValueType. simpl. destruct c as [|t c]; [done|]. done.
Qed.

Lemma coherent_meta_type p :
  base_meta_coherent p -> piv_type (pbm_base p) = Some type ->
  GetMetaValueType (piv_data (pbm_base p)) = type.
Proof. intros Hc Ht. rewrite (base_coherent_type p Hc) in Ht. by injection Ht. Qed.

Lemma base_parse p :
  base_meta_coherent p -> ParsedBaseMetaValue_parse true (piv_data (pbm_base p)) = Some p.
Proof. by intros (_ & _ & ?). Qed.

Lemma base_at_size db now key p m : base_at db now key p m -> (0 < size m)%nat.
Proof.
  intros H. destruct (size m) eqn:E; [|lia]. apply map_size_empty_inv in E.
  by destruct (ba_some _ _ _ _ _ H).
Qed.

Lemma base_at_alive db now key p m :
  base_at db now key p m -> base_dead now p = false /\ base_vacant now p = None.
Proof.
  intros H. pose proof (base_at_size _ _ _ _ _ H). unfold base_dead, base_vacant.
  rewrite (ba_live _ _ _ _ _ H), (ba_count _ _ _ _ _ H).
  destruct (Z.eqb_spec (Z.of_nat (size m)) 0); [lia|done].
Qed.

Lemma base_dead_vacant now p :
  base_dead now p = true -> exists st, base_vacant now p = Some st /\ status_code st = kNotFound.
Proof.
  unfold base_dead, base_vacant. destruct (IsStale now (pbm_base p)); [by eexists|].
  simpl. intros ->. by eexists.
Qed.

(** The meta value of a new key. *)
Lemma new_base_meta_done now n :
  clock_ok now -> 0 <= n < 2 ^ 31 ->
  exists p, piv_data (pbm_base p) = BaseMetaValue_Encode (new_base_meta now type n) /\
    base_meta_coherent p /\ piv_type (pbm_base p) = Some type /\ pbm_count p = n /\
    piv_version (pbm_base p) = next_version now 0 /\ piv_etime (pbm_base p) = 0.
Proof.
  intros Hnow Hn.
  pose proof (BaseMetaValue_parse_Encode true (new_base_meta now type n)) as P.
  specialize (P (length_EncodeFixed32 _) (next_version_u64 _ _ (clock_u64 _ Hnow)) Hnow ltac:(simpl; lia)).
  assert (Hlen : length (BaseMetaValue_Encode (new_base_meta now type n)) = 45%nat).
  { rewrite BaseMetaValue_Encode_fields, length_chunks. cbn [map]. by rewrite !length_EncodeFixed64. }
  pose proof (base_coherent_of_parse _ _ Hlen P) as Hc.
  eexists. split_and!; [|exact Hc|..]; try done.
  - simpl. by rewrite base_type_byte.
  - simpl. rewrite DecodeFixed32_EncodeFixed32. apply i32_u32. unfold is_i32. lia.
Qed.

(** A dead key starts again under the next version. *)
Lemma revived_meta now p n :
  clock_ok now -> base_meta_coherent p -> 0 <= n < 2 ^ 31 ->
  let q := ParsedBaseMetaValue_SetCount (ParsedBaseMetaValue_InitialMetaValue now p) n in
  base_meta_coherent q /\ piv_type (pbm_base q) = piv_type (pbm_base p) /\ pbm_count q = n /\
  piv_version (pbm_base q) = next_version now (piv_version (pbm_base p)) /\
  piv_etime (pbm_base q) = 0 /\
  piv_version (pbm_base (ParsedBaseMetaValue_InitialMetaValue now p)) = piv_version (pbm_base q).
Proof.
  intros Hnow Hp Hn q. assert (is_i32 n) by (unfold is_i32; lia).
  assert (is_u64 now) by by apply clock_u64.
  split_and!; try done. apply base_SetCount_coherent; [done|]. by apply base_InitialMetaValue_coherent.
Qed.

(** ** How commands start *)

Lemma GetMeta_base now key p r :
  healthy (db_ r) -> meta_of (db_ r) key = Some (piv_data (pbm_base p)) -> base_meta_coherent p ->
  piv_type (pbm_base p) = Some type ->
  GetMeta now type key key r = Some (inr (Status_OK, piv_data (pbm_base p)), r).
Proof. intros Hdb Hm Hc Ht. by apply GetMeta_typed; [done..|apply coherent_meta_type]. Qed.

Lemma bind_live {A} now key p m r (f : Status + Status * bytes -> M A) :
  healthy (db_ r) -> base_at (db_ r) now key p m ->
  bind (GetMeta now type key key) f r = f (inr (Status_OK, piv_data (pbm_base p))) r.
Proof.
  intros Hdb H. apply bind_run, GetMeta_base; [done|apply H|by eapply ba_coherent|by eapply ba_type].
Qed.

Lemma bind_dead {A} now key p r (f : Status + Status * bytes -> M A) :
  healthy (db_ r) -> dead_at (db_ r) now key p ->
  bind (GetMeta now type key key) f r = f (inr (Status_OK, piv_data (pbm_base p))) r.
Proof.
  intros Hdb H. apply bind_run, GetMeta_base; [done|apply H|by eapply da_coherent|by eapply da_type].
Qed.

Lemma bind_base_gone {A} now key r (f : Status + Status * bytes -> M A) :
  healthy (db_ r) -> gone type (db_ r) now key ->
  bind (GetMeta now type key key) f r =
  f (inr (Status_NotFound [], default [] (meta_of (db_ r) key))) r.
Proof. intros Hdb H. by apply bind_run, GetMeta_gone. Qed.

Lemma bind_GetBase {A} now key p m r (f : Status + ParsedBaseMetaValue -> M A) :
  healthy (db_ r) -> base_at (db_ r) now key p m ->
  bind (GetBase now type key) f r = f (inr p) r.
Proof.
  intros Hdb H. apply bind_run. unfold GetBase. rewrite (bind_live now key p m r _ Hdb H).
  cbv iota. change (ok Status_OK) with true. cbv iota.
  rewrite (bind_lift _ _ _ _ (base_parse p (ba_coherent _ _ _ _ _ H))).
  by rewrite (proj2 (base_at_alive _ _ _ _ _ H)).
Qed.

Lemma GetBase_unused now key r :
  healthy (db_ r) -> unused (db_ r) now key ->
  exists st, GetBase now type key r = Some (inl st, r) /\ status_code st = kNotFound.
Proof.
  intros Hdb [[Hg _]|(p & H)]; unfold GetBase.
  - rewrite bind_base_gone by done. by eexists.
  - rewrite (bind_dead now key p r _ Hdb H). cbv iota. change (ok Status_OK) with true. cbv iota.
    rewrite (bind_lift _ _ _ _ (base_parse p (da_coherent _ _ _ _ H))).
    destruct (base_dead_vacant now p (da_dead _ _ _ _ H)) as (st & -> & Hst). by exists st.
Qed.

(** ** What a batch leaves *)

(** The batch [b] makes the assignments [ops] to the members [m0] of the
    version of [p] and leaves [p] as the meta value. *)
Lemma base_write now key b mv ops p m0 r :
  let version := piv_version (pbm_base p) in
  let m := apply_ops ops m0 in
  key_ok key = true -> engine_ok r -> base_effects cf key version b mv ops ->
  match mv with Some v => v | None => default [] (meta_of (db_ r) key) end = piv_data (pbm_base p) ->
  (mv = None -> meta_of (db_ r) key <> None) ->
  base_meta_coherent p -> piv_type (pbm_base p) = Some type ->
  (m = ∅ \/ IsStale now (pbm_base p) = false) -> pbm_count p = Z.of_nat (size m) ->
  members_at cf (db_ r) key version m0 -> map_Forall (fun _ v => stored_ok v) m ->
  fresh_from (db_ r) key (version + 1) ->
  exists r', Write b r = Some (Status_OK, r') /\
    base_stores now key (user_value <$> m) (piv_etime (pbm_base p)) r r'.
Proof.
  intros version m K [Hdb Hst] HE Hmv Hnone Hc Ht Hs Hcnt Hm Hv Hf.
  assert (V : is_u64 version) by by apply base_coherent_version.
  destruct (Write_base cf Hcf key version K V b mv ops r HE Hdb)
    as (db' & HW & Hdb' & Hmeta & Hmem & Hver & Ho).
  exists (with_db r db'). split; [done|]. split; [done|]. split; [|done]. simpl.
  assert (Hmeta' : meta_of db' key = Some (piv_data (pbm_base p))).
  { rewrite Hmeta, <- Hmv. destruct mv; [done|]. destruct (meta_of (db_ r) key); [done|by destruct Hnone]. }
  assert (Hf' : fresh_from db' key (version + 1)).
  { intros v H1 H2. apply Hver; [done|lia|]. by apply Hf. }
  destruct (decide (m = ∅)) as [Hem|Hne].
  - rewrite Hem, fmap_empty, base_holds_empty. right. exists p. constructor; try done.
    unfold base_dead. rewrite Hcnt, Hem, map_size_empty. apply orb_true_r.
  - apply base_at_holds. destruct Hs as [?|Hs]; [done|]. constructor; try done. by apply Hmem.
Qed.

(** Statistics do not matter to what is stored. *)
Lemma base_stores_same now key h e r r1 r2 :
  base_stores now key h e r r1 -> same_data r1 r2 -> stats_ok r2 -> base_stores now key h e r r2.
Proof.
  intros ([Hdb _] & Hh & Ho) [E _] Hs. unfold base_stores, engine_ok. by rewrite !E.
Qed.

Lemma then_statistics {A} now key h e count r r1 (k : M A) a :
  base_stores now key h e r r1 -> (forall r2, k r2 = Some (a, r2)) ->
  exists r', bind (UpdateSpecificKeyStatistics type key count) (fun _ => k) r1 = Some (a, r') /\
    base_stores now key h e r r'.
Proof.
  intros Hst Hk. destruct (UpdateSpecificKeyStatistics_ok type key count r1) as (r2 & H2 & Hs & Hok);
    [by apply base_type_tag|apply Hst|].
  exists r2. rewrite (bind_run _ _ _ _ _ H2). split; [apply Hk|by eapply base_stores_same].
Qed.

(** A command that writes nothing. *)
Lemma base_stores_refl now key h e r :
  engine_ok r -> base_holds (db_ r) now key h e -> base_stores now key h e r r.
Proof. intros He Hh. split; [done|]. split; [done|]. by split_and!. Qed.

(** ** Building batches *)

Lemma effects_puts_list now key version (fvs : list (bytes * bytes)) :
  base_effects cf key version
    ((fun fv => Put cf (BaseDataKey_Encode key version (fst fv)) (base_value now (snd fv))) <$> fvs) None
    ((fun fv => (fst fv, Some (base_value now (snd fv)))) <$> fvs).
Proof. induction fvs as [|fv fvs IH]; simpl; constructor. exact IH. Qed.

Lemma effects_then_meta_put key version b ops v :
  base_effects cf key version b None ops ->
  base_effects cf key version (b ++ [Put kMetaCF (BaseKey_Encode key) v]) (Some v) ops.
Proof.
  intros H. rewrite <- (app_nil_r ops).
  apply (base_effects_app cf _ _ _ _ _ _ (Some v) _ H). apply (be_meta cf _ _ v _ None), be_nil.
Qed.

Lemma apply_ops_put f v ops m : apply_ops ((f, Some v) :: ops) m = apply_ops ops (<[f:=v]> m).
Proof. done. Qed.
Lemma apply_ops_delete f ops m : apply_ops ((f, None) :: ops) m = apply_ops ops (base.delete f m).
Proof. done. Qed.

(** Assigning user values. *)
Definition put_all (fvs : list (bytes * bytes)) (h : gmap bytes bytes) : gmap bytes bytes :=
  fold_left (fun h fv => <[fst fv := snd fv]> h) fvs h.

Lemma apply_puts now fvs : forall m,
  user_value <$> apply_ops ((fun fv => (fst fv, Some (base_value now (snd fv)))) <$> fvs) m =
  put_all fvs (user_value <$> m).
Proof.
  induction fvs as [|[f v] fvs IH]; intros m; [done|].
  rewrite fmap_cons. simpl fst; simpl snd. rewrite apply_ops_put, IH. simpl. f_equal.
  by rewrite fmap_insert, user_value_base_value.
Qed.

Lemma apply_puts_ok now fvs : forall m,
  map_Forall (fun _ v => stored_ok v) m ->
  map_Forall (fun _ v => stored_ok v)
    (apply_ops ((fun fv => (fst fv, Some (base_value now (snd fv)))) <$> fvs) m).
Proof.
  induction fvs as [|[f v] fvs IH]; intros m Hm; [done|].
  rewrite fmap_cons. simpl fst; simpl snd. rewrite apply_ops_put. apply IH.
  apply map_Forall_insert_2; [|done]. unfold stored_ok. rewrite base_value_length. lia.
Qed.

(** How many of the fields are new. *)
Fixpoint new_fields (fvs : list (bytes * bytes)) (m : gmap bytes bytes) : nat :=
  match fvs with
  | [] => 0
  | fv :: fvs => (if m !! fst fv then 0 else 1) + new_fields fvs m
  end.

Lemma new_fields_insert fvs f v m :
  f ∉ fvs.*1 -> new_fields fvs (<[f:=v]> m) = new_fields fvs m.
Proof.
  induction fvs as [|[g w] fvs IH]; [done|]. simpl. intros N.
  rewrite lookup_insert_ne, IH by set_solver. done.
Qed.

Lemma size_puts now fvs : forall m,
  NoDup fvs.*1 ->
  size (apply_ops ((fun fv => (fst fv, Some (base_value now (snd fv)))) <$> fvs) m) =
  (size m + new_fields fvs m)%nat.
Proof.
  induction fvs as [|[f v] fvs IH]; intros m N; [done|]. apply NoDup_cons in N as [Hn N].
  rewrite fmap_cons. simpl fst; simpl snd. rewrite apply_ops_put, IH by done. simpl.
  rewrite new_fields_insert by done. destruct (m !! f) as [w|] eqn:E.
  - rewrite map_size_insert_Some by (by exists w). lia.
  - rewrite map_size_insert_None by done. lia.
Qed.

Lemma new_fields_empty fvs : new_fields fvs ∅ = length fvs.
Proof. induction fvs as [|fv fvs IH]; simpl; [done|]. by rewrite lookup_empty, IH. Qed.

Lemma new_fields_fmap (fvs : list (bytes * bytes)) (m : gmap bytes bytes) :
  new_fields fvs (user_value <$> m) = new_fields fvs m.
Proof.
  induction fvs as [|fv fvs IH]; simpl; [done|]. rewrite lookup_fmap, IH. by destruct (m !! fst fv).
Qed.

(** ** Putting members *)

Definition put_members (now : Z) (key : bytes) (version : Z) (fvs : list (bytes * bytes)) : list WriteOp :=
  (fun fv => Put cf (BaseDataKey_Encode key version (fst fv)) (base_value now (snd fv))) <$> fvs.

(** A batch that puts members under the version of [q], whose count is right. *)
Lemma puts_stored now t key fvs b mv q m0 r :
  key_ok key = true -> engine_ok r -> NoDup fvs.*1 ->
  base_effects cf key (piv_version (pbm_base q)) b mv
    ((fun fv => (fst fv, Some (base_value t (snd fv)))) <$> fvs) ->
  match mv with Some v => v | None => default [] (meta_of (db_ r) key) end = piv_data (pbm_base q) ->
  (mv = None -> meta_of (db_ r) key <> None) ->
  base_meta_coherent q -> piv_type (pbm_base q) = Some type -> IsStale now (pbm_base q) = false ->
  pbm_count q = Z.of_nat (size m0 + new_fields fvs m0) ->
  members_at cf (db_ r) key (piv_version (pbm_base q)) m0 -> map_Forall (fun _ v => stored_ok v) m0 ->
  fresh_from (db_ r) key (piv_version (pbm_base q) + 1) ->
  exists r', Write b r = Some (Status_OK, r') /\
    base_stores now key (put_all fvs (user_value <$> m0)) (piv_etime (pbm_base q)) r r'.
Proof.
  intros K He N HE Hmv Hn Hc Ht Hs Hcnt Hm Hv Hf.
  rewrite <- (apply_puts t). eapply base_write; try done.
  - by right.
  - by rewrite size_puts.
  - by apply apply_puts_ok.
Qed.

(** On a key with no value, under the version of the clock. *)
Lemma create_gone now key fvs r :
  key_ok key = true -> clock_ok now -> engine_ok r -> NoDup fvs.*1 ->
  Z.of_nat (length fvs) < 2 ^ 31 -> fresh_from (db_ r) key (next_version now 0) ->
  let m := new_base_meta now type (Z.of_nat (length fvs)) in
  exists r', Write (Put kMetaCF (BaseKey_Encode key) (BaseMetaValue_Encode m) ::
                    put_members now key (iv_version m) fvs) r = Some (Status_OK, r') /\
    base_stores now key (put_all fvs ∅) 0 r r'.
Proof.
  intros K Hnow He N Hlen Hf m.
  destruct (new_base_meta_done now (Z.of_nat (length fvs)) Hnow ltac:(lia))
    as (p & Ep & Hc & Ht & Hcnt & Hver & Het).
  assert (V : is_u64 (next_version now 0)) by by apply next_version_u64, clock_u64.
  rewrite <- Het, <- (fmap_empty user_value (M:=gmap bytes)).
  apply (puts_stored now now key fvs _ (Some (piv_data (pbm_base p))) p ∅ r); try done.
  - rewrite Hver. fold m in Ep. rewrite <- Ep. apply (be_meta cf _ _ _ _ None), effects_puts_list.
  - rewrite IsStale_stale. unfold stale. by rewrite Het.
  - by rewrite Hcnt, new_fields_empty, map_size_empty.
  - rewrite Hver. by apply Hf.
  - rewrite Hver. intros v H1 H2. apply Hf; [lia|done].
Qed.

(** Over the meta value [p], under the version after its own. *)
Lemma create_over now key fvs p q r :
  key_ok key = true -> clock_ok now -> engine_ok r -> NoDup fvs.*1 ->
  meta_of (db_ r) key = Some (piv_data (pbm_base p)) -> base_meta_coherent p ->
  piv_type (pbm_base p) = Some type -> fresh_from (db_ r) key (piv_version (pbm_base p) + 1) ->
  version_room (db_ r) key ->
  base_meta_coherent q -> piv_type (pbm_base q) = piv_type (pbm_base p) ->
  pbm_count q = Z.of_nat (length fvs) ->
  piv_version (pbm_base q) = next_version now (piv_version (pbm_base p)) ->
  piv_etime (pbm_base q) = 0 ->
  exists r', Write (put_base_meta key q :: put_members now key (piv_version (pbm_base q)) fvs) r =
      Some (Status_OK, r') /\
    base_stores now key (put_all fvs ∅) 0 r r'.
Proof.
  intros K Hnow He N Hm Hp Htp Hf Hroom Hc Ht Hcnt Hver Het.
  pose proof (base_coherent_version p Hp) as V. unfold is_u64 in V.
  pose proof (base_coherent_version q Hc) as V'.
  assert (Hv : piv_version (pbm_base p) < 2 ^ 64 - 1) by by apply Hroom.
  destruct (next_version_gt now (piv_version (pbm_base p)) ltac:(lia)) as [Hgt _].
  rewrite <- Het, <- (fmap_empty user_value (M:=gmap bytes)).
  apply (puts_stored now now key fvs _ (Some (piv_data (pbm_base q))) q ∅ r); try done.
  - apply (be_meta cf _ _ _ _ None), effects_puts_list.
  - by rewrite Ht.
  - rewrite IsStale_stale. unfold stale. by rewrite Het.
  - by rewrite Hcnt, new_fields_empty, map_size_empty.
  - apply Hf; [lia|done].
  - intros v H1 H2. apply Hf; [lia|done].
Qed.

(** On a dead key. *)
Lemma create_dead now key fvs p q r :
  key_ok key = true -> clock_ok now -> engine_ok r -> NoDup fvs.*1 ->
  dead_at (db_ r) now key p -> version_room (db_ r) key ->
  base_meta_coherent q -> piv_type (pbm_base q) = piv_type (pbm_base p) ->
  pbm_count q = Z.of_nat (length fvs) ->
  piv_version (pbm_base q) = next_version now (piv_version (pbm_base p)) ->
  piv_etime (pbm_base q) = 0 ->
  exists r', Write (put_base_meta key q :: put_members now key (piv_version (pbm_base q)) fvs) r =
      Some (Status_OK, r') /\
    base_stores now key (put_all fvs ∅) 0 r r'.
Proof. intros K Hnow He N [Hm Hp Htp _ Hf]. by apply (create_over now key fvs p q r). Qed.

(** A count that is changed once it has been checked. *)
Lemma checked_count {B} p n (a : M B) k r :
  (if negb (ParsedBaseMetaValue_CheckModifyCount p n) then a
   else bind (lift (ParsedBaseMetaValue_ModifyCount p n)) k) r =
  (if negb (ParsedBaseMetaValue_CheckModifyCount p n) then a else k (counted p n)) r.
Proof.
  destruct (ParsedBaseMetaValue_CheckModifyCount p n) eqn:E; [|done].
  cbn [negb]. by rewrite (bind_lift _ _ _ _ (ModifyCount_checked p n E)).
Qed.

(** On a key that has members. *)
Lemma put_live now key fvs p m b r :
  key_ok key = true -> engine_ok r -> NoDup fvs.*1 -> base_at (db_ r) now key p m ->
  let n := Z.of_nat (new_fields fvs m) in
  Z.of_nat (size m) + n < 2 ^ 31 ->
  let q := counted p n in
  base_effects cf key (piv_version (pbm_base p)) b (Some (piv_data (pbm_base q)))
    ((fun fv => (fst fv, Some (base_value now (snd fv)))) <$> fvs) ->
  exists r', Write b r = Some (Status_OK, r') /\
    base_stores now key (put_all fvs (user_value <$> m)) (piv_etime (pbm_base p)) r r'.
Proof.
  intros K He N Hb n Hn q HE.
  assert (Hq : q = ParsedBaseMetaValue_SetCount p (i32 (pbm_count p + n))) by done.
  assert (Hi : i32 (pbm_count p + n) = Z.of_nat (size m) + n).
  { rewrite (ba_count _ _ _ _ _ Hb). unfold i32. rewrite Z.mod_small by lia. lia. }
  apply (puts_stored now now key fvs b (Some (piv_data (pbm_base q))) q m r); try done.
  - rewrite Hq. apply base_SetCount_coherent; [apply i32_range|by eapply ba_coherent].
  - apply (ba_type _ _ _ _ _ Hb).
  - apply (ba_live _ _ _ _ _ Hb).
  - rewrite Hq. simpl. rewrite Hi. lia.
  - apply (ba_members _ _ _ _ _ Hb).
  - apply (ba_values _ _ _ _ _ Hb).
  - apply (ba_fresh _ _ _ _ _ Hb).
Qed.

End Holds.

(** How the proofs about commands start: [base_cases] splits on what the key
    holds, the others run the command up to its first decision. *)
Ltac base_cases h Hh :=
  destruct (decide (h = ∅)) as [->|Hne];
  [ rewrite base_holds_empty in Hh; destruct Hh as [[Hg Hfr]|(p & Hd)]
  | destruct (base_holds_live _ _ _ _ _ _ _ Hne Hh) as (p & m & Hb & <- & <-) ].
Ltac start_gone := rewrite bind_base_gone by done; on_status.
Ltac start_dead Hdb Hd :=
  rewrite (bind_dead _ _ _ _ _ _ _ Hdb Hd); on_status;
  rewrite (bind_lift _ _ _ _ (base_parse _ (da_coherent _ _ _ _ _ _ Hd))), (da_dead _ _ _ _ _ _ Hd).
Ltac start_live Hdb Hb :=
  rewrite (bind_live _ _ _ _ _ _ _ _ Hdb Hb); on_status;
  rewrite (bind_lift _ _ _ _ (base_parse _ (ba_coherent _ _ _ _ _ _ _ Hb))),
    (proj1 (base_at_alive _ _ _ _ _ _ _ Hb)).

(** ** DEL, EXPIRE, EXPIREAT, PERSIST and TTL

    The key-level commands of [redis_hashes.cc] and its siblings, with or
    without the meta value their caller has already read, and the count. *)

Section BaseExpire.
Context {R : RocksDB} {L : RocksDBLaws R} {U : Uninit}.
Context (type : DataType) (cf : ColumnFamilyIndex).
Context (Hty : base_type type = true) (Hcf : base_cf cf = true).

Lemma bind_base_meta {A} now key pm p m r (f : Status + Status * bytes -> M A) :
  healthy (db_ r) -> base_at type cf (db_ r) now key p m -> prefetched (db_ r) key pm ->
  bind (GetMetaOrPrefetched now type key pm) f r = f (inr (Status_OK, piv_data (pbm_base p))) r.
Proof.
  intros Hdb Hb Hpm. apply bind_run, GetMetaOrPrefetched_typed; [done|apply Hb| |done].
  apply coherent_meta_type; [by eapply ba_coherent|by eapply ba_type].
Qed.

Lemma bind_base {A} now key pm shadow p m r (f : Status + ParsedBaseMetaValue -> M A) :
  healthy (db_ r) -> base_at type cf (db_ r) now key p m -> prefetched (db_ r) key pm ->
  bind (GetBaseOrPrefetched now type key pm shadow) f r = f (inr p) r.
Proof.
  intros Hdb Hb Hpm. apply bind_run. unfold GetBaseOrPrefetched.
  assert (E : GetBaseMeta now type key pm shadow r = Some (inr (Status_OK, piv_data (pbm_base p)), r)).
  { unfold GetBaseMeta. rewrite (bind_base_meta now key pm p m r _ Hdb Hb Hpm). by destruct shadow. }
  rewrite (bind_run _ _ _ _ _ E). change (ok Status_OK) with true. cbv iota.
  rewrite (bind_lift _ _ _ _ (base_parse p (ba_coherent _ _ _ _ _ _ _ Hb))).
  by rewrite (proj2 (base_at_alive _ _ _ _ _ _ _ Hb)).
Qed.

(** Replacing the meta value. *)
Lemma put_meta_effects key p :
  base_effects cf key (piv_version (pbm_base p)) [put_base_meta key p] (Some (piv_data (pbm_base p))) [].
Proof. apply (be_meta cf _ _ _ _ None), be_nil. Qed.

Lemma reset_base now key p m r e :
  key_ok key = true -> clock_ok now -> engine_ok r -> base_at type cf (db_ r) now key p m ->
  version_room (db_ r) key ->
  exists r', Write [put_base_meta key (ParsedBaseMetaValue_InitialMetaValue now p)] r =
      Some (Status_OK, r') /\ base_stores type cf now key ∅ e r r'.
Proof.
  intros K Hnow He Hb Hroom. pose proof (ba_coherent _ _ _ _ _ _ _ Hb) as Hc.
  pose proof (base_coherent_version p Hc) as V. unfold is_u64 in V.
  assert (Hv : piv_version (pbm_base p) < 2 ^ 64 - 1) by (apply Hroom; [by eapply ba_meta|done]).
  destruct (next_version_gt now (piv_version (pbm_base p)) ltac:(lia)) as [Hgt _].
  destruct (revived_meta now p 0 Hnow Hc ltac:(lia)) as (_ & _ & _ & E & _ & E').
  set (q := ParsedBaseMetaValue_InitialMetaValue now p) in *.
  assert (Hq : base_meta_coherent q) by (apply base_InitialMetaValue_coherent; [by apply clock_u64|done]).
  assert (Hver : piv_version (pbm_base q) = next_version now (piv_version (pbm_base p))) by congruence.
  destruct (base_write type cf Hcf now key _ _ [] q ∅ r K He (put_meta_effects key q))
    as (r' & HW & Hst); try done; [by apply (ba_type _ _ _ _ _ _ _ Hb)|by left| | |].
  - apply (ba_fresh _ _ _ _ _ _ _ Hb); [lia|]. rewrite Hver. by apply next_version_u64, clock_u64.
  - intros v H1 H2. apply (ba_fresh _ _ _ _ _ _ _ Hb); [lia|done].
  - exists r'. split; [done|]. destruct Hst as (? & Hh & ?). split; [done|]. split; [|done].
    change (apply_ops [] ∅) with (∅ : gmap bytes bytes) in Hh. by rewrite fmap_empty in Hh.
Qed.

Lemma set_etime_base now key p m r t :
  key_ok key = true -> engine_ok r -> base_at type cf (db_ r) now key p m -> 0 <= t < 2 ^ 63 ->
  exists r', Write [put_base_meta key (ParsedBaseMetaValue_SetEtime p t)] r = Some (Status_OK, r') /\
    base_stores type cf now key (if (t =? 0) || (now <=? t) then user_value <$> m else ∅) t r r'.
Proof.
  intros K He Hb Ht. set (q := ParsedBaseMetaValue_SetEtime p t).
  assert (Hc : base_meta_coherent q).
  { pose proof (ba_coherent _ _ _ _ _ _ _ Hb). unfold q. auto with coherent. }
  assert (Hstale : IsStale now (pbm_base q) = negb ((t =? 0) || (now <=? t))).
  { unfold IsStale. simpl. destruct (Z.eqb_spec t 0); [done|]. simpl.
    destruct (Z.leb_spec now t), (Z.ltb_spec t now); lia. }
  destruct (_ || _).
  - apply (base_write type cf Hcf now key _ _ [] q m r K He (put_meta_effects key q)); try done;
      [by apply (ba_type _ _ _ _ _ _ _ Hb)|by right|by apply (ba_count _ _ _ _ _ _ _ Hb)|apply Hb..].
  - pose proof (base_coherent_version q Hc) as V.
    destruct (Write_base cf Hcf key _ K V _ _ _ r (put_meta_effects key q) (proj1 He))
      as (db' & HW & Hdb' & Hm & _ & Hver & Ho).
    exists (with_db r db'). split; [done|]. split; [by split; [|apply He]|]. split; [|done].
    rewrite base_holds_empty. right. exists q. constructor; [done|done|apply Hb| |].
    + unfold base_dead. by rewrite Hstale.
    + intros v H1 H2. change (piv_version (pbm_base p) + 1 <= v) in H1.
      apply Hver; [done| |by apply (ba_fresh _ _ _ _ _ _ _ Hb)]. simpl. lia.
Qed.

Lemma base_at_etime now key p m db :
  clock_ok now -> base_at type cf db now key p m -> is_i64 (piv_etime (pbm_base p)) ->
  ttl_of now (piv_etime (pbm_base p)) =
  if piv_etime (pbm_base p) =? 0 then -1 else piv_etime (pbm_base p) - now.
Proof.
  intros Hnow Hb Hi. apply ttl_live; [done| |done].
  rewrite <- IsStale_stale. by apply (ba_live _ _ _ _ _ _ _ Hb).
Qed.

(** C28: The key-level commands on a hash, set or zset that exists.  DEL and
    non-positive expiry times empty it and leave no version in use, EXPIRE and
    EXPIREAT set the time at which it stops being visible, PERSIST clears that
    time, TTL reports what is left of it and the count is the number of
    members. *)
Theorem base_expiry_correct now key pm shadow h e r :
  key_ok key = true -> clock_ok now -> engine_ok r -> base_holds type cf (db_ r) now key h e ->
  h <> ∅ -> prefetched (db_ r) key pm -> is_i64 e -> version_room (db_ r) key ->
  (exists r', BaseDel type now key pm r = Some (Status_OK, r') /\
     base_stores type cf now key ∅ 0 r r') /\
  (forall ttl, 0 < ttl -> now + ttl < 2 ^ 63 ->
     exists r', BaseExpire type shadow now key ttl pm r = Some (Status_OK, r') /\
       base_stores type cf now key h (now + ttl) r r') /\
  (forall ttl, ttl <= 0 ->
     exists r', BaseExpire type shadow now key ttl pm r = Some (Status_OK, r') /\
       base_stores type cf now key ∅ 0 r r') /\
  (forall t, is_i64 t ->
     exists r', BaseExpireat type shadow now key t pm r = Some (Status_OK, r') /\
       base_stores type cf now key (if (0 <? t) && (now <=? t) then h else ∅) t r r') /\
  (if e =? 0
   then BasePersist type shadow now key pm r =
          Some (Status_NotFound (lit "Not have an associated timeout"), r)
   else exists r', BasePersist type shadow now key pm r = Some (Status_OK, r') /\
          base_stores type cf now key h 0 r r') /\
  BaseTTL type now key pm r = Some ((Status_OK, if e =? 0 then -1 else e - now), r) /\
  BaseCard type now key pm r = Some ((Status_OK, Z.of_nat (size h)), r).
Proof.
  intros K Hnow He Hh Hne Hpm Hi Hroom. pose proof (proj1 He) as Hdb.
  destruct (base_holds_live _ _ _ _ _ _ _ Hne Hh) as (p & m & Hb & <- & <-). unfold clock_ok in *.
  split_and!.
  - unfold BaseDel. rewrite (bind_base now key pm false p m r _ Hdb Hb Hpm). cbv zeta.
    destruct (reset_base now key p m r 0 K Hnow He Hb Hroom) as (r1 & HW & Hst).
    rewrite (bind_run _ _ _ _ _ HW). by apply then_statistics.
  - intros ttl H1 H2. unfold BaseExpire. rewrite (bind_base now key pm shadow p m r _ Hdb Hb Hpm).
    rewrite (proj2 (Z.ltb_lt 0 ttl)) by done. unfold ParsedBaseMetaValue_SetRelativeTimestamp.
    rewrite u64_id by (unfold is_u64; lia).
    destruct (set_etime_base now key p m r (now + ttl) K He Hb ltac:(lia)) as (r1 & HW & Hst).
    rewrite (proj2 (Z.leb_le now _)), orb_true_r in Hst by lia. by exists r1.
  - intros ttl H1. unfold BaseExpire. rewrite (bind_base now key pm shadow p m r _ Hdb Hb Hpm).
    rewrite (proj2 (Z.ltb_ge 0 ttl)) by done. by apply (reset_base now key p m).
  - intros t Ht. unfold BaseExpireat, is_i64 in *.
    rewrite (bind_base now key pm shadow p m r _ Hdb Hb Hpm). cbv zeta.
    destruct (Z.ltb_spec 0 t); [|by apply (reset_base now key p m)].
    rewrite u64_id by (unfold is_u64; lia).
    destruct (set_etime_base now key p m r t K He Hb ltac:(lia)) as (r1 & HW & Hst).
    rewrite (proj2 (Z.eqb_neq t 0)) in Hst by lia. by exists r1.
  - unfold BasePersist. rewrite !(bind_base now key pm shadow p m r _ Hdb Hb Hpm).
    destruct (_ =? 0); [done|].
    by destruct (set_etime_base now key p m r 0 K He Hb ltac:(lia)) as (r1 & HW & Hst); exists r1.
  - unfold BaseTTL. rewrite (bind_base_meta now key pm p m r _ Hdb Hb Hpm).
    change (ok Status_OK) with true. cbv iota.
    rewrite (bind_lift _ _ _ _ (base_parse p (ba_coherent _ _ _ _ _ _ _ Hb))).
    by rewrite (proj2 (base_at_alive _ _ _ _ _ _ _ Hb)), (base_at_etime now key p m _ Hnow Hb Hi).
  - unfold BaseCard. rewrite (bind_base_meta now key pm p m r _ Hdb Hb Hpm).
    change (ok Status_OK) with true. cbv iota.
    rewrite (bind_lift _ _ _ _ (base_parse p (ba_coherent _ _ _ _ _ _ _ Hb))).
    by rewrite (proj2 (base_at_alive _ _ _ _ _ _ _ Hb)), (ba_count _ _ _ _ _ _ _ Hb), map_size_fmap.
Qed.

End BaseExpire.
