(* ===== verification/BaseWrite.v ===== *)
(** * Writing members

    What the batches of the commands on hashes, sets and zsets leave: members
    put, replaced, added and deleted, with the count in the meta value. *)

From S2P Require Import Prelude Coding KeyFormat Comparator ValueFormat RocksDB LruCache Redis KeySpace BaseData BaseSpec BaseScan BaseHolds.
Open Scope Z_scope.

(** The time a key expires after a write: a new one never does. *)
Definition kept (h : gmap bytes bytes) (e : Z) : Z := if decide (h = ∅) then 0 else e.

Lemma singleton_NoDup (f v : bytes) : NoDup [(f, v)].*1.
Proof. apply NoDup_singleton. Qed.

(** ** Distinct members *)

Definition keep_fields (l acc : list bytes) : list bytes :=
  fold_left (fun acc f => if decide (f ∈ acc) then acc else acc ++ [f]) l acc.

Lemma keep_fields_spec l : forall acc,
  NoDup acc -> NoDup (keep_fields l acc) /\ (forall f, f ∈ keep_fields l acc <-> f ∈ acc \/ f ∈ l).
Proof.
  induction l as [|g l IH]; intros acc N; simpl; [set_solver|]. case_decide as D.
  - destruct (IH acc N) as [H1 H2]. split; [done|]. intros f. rewrite H2. set_solver.
  - destruct (IH (acc ++ [g])) as [H1 H2].
    { apply NoDup_app. split_and!; [done|set_solver|apply NoDup_singleton]. }
    split; [done|]. intros f. rewrite H2. set_solver.
Qed.

(** ** Deleting *)

Definition remove_all (fields : list bytes) (h : gmap bytes bytes) : gmap bytes bytes :=
  filter (fun kv => fst kv ∉ fields) h.

(** The fields of the list that are there. *)
Definition present (m : gmap bytes bytes) (fields : list bytes) : list bytes :=
  filter (fun f => is_Some (m !! f)) fields.

Lemma lookup_deletes l : forall (m : gmap bytes bytes) f,
  apply_ops ((fun f => (f, None)) <$> l) m !! f = if decide (f ∈ l) then None else m !! f.
Proof.
  induction l as [|g l IH]; intros m f; [done|]. rewrite fmap_cons, apply_ops_delete, IH.
  destruct (decide (f ∈ l)), (decide (f ∈ g :: l)); try set_solver; [|by rewrite lookup_delete_ne by set_solver].
  assert (f = g) as -> by set_solver. by rewrite lookup_delete_eq.
Qed.

Lemma size_deletes l : forall (m : gmap bytes bytes),
  NoDup l -> (forall f, f ∈ l -> is_Some (m !! f)) ->
  (size (apply_ops ((fun f => (f, None)) <$> l) m) + length l = size m)%nat.
Proof.
  induction l as [|g l IH]; intros m N Hl; [simpl; change (apply_ops [] m) with m; lia|].
  apply NoDup_cons in N as [Hn N]. rewrite fmap_cons, apply_ops_delete. simpl length.
  destruct (Hl g ltac:(set_solver)) as [v Hv].
  assert (E : (size (apply_ops ((fun f => (f, None)) <$> l) (base.delete g m)) + length l =
    size (base.delete g m))%nat).
  { apply IH; [done|]. intros f Hf. rewrite lookup_delete_ne by set_solver. apply Hl. set_solver. }
  rewrite (map_size_delete_Some g m) in E by (by exists v).
  assert (size m <> 0%nat) by (intros H0%map_size_empty_inv; subst; by rewrite lookup_empty in Hv).
  lia.
Qed.

Lemma remove_deletes (fields : list bytes) (m : gmap bytes bytes) :
  user_value <$> apply_ops ((fun f => (f, None)) <$> present m fields) m =
  remove_all fields (user_value <$> m).
Proof.
  apply map_eq. intros f. unfold remove_all. rewrite lookup_fmap, lookup_deletes, map_lookup_filter, lookup_fmap.
  unfold present. destruct (m !! f) as [v|] eqn:E; simpl.
  - destruct (decide (f ∈ fields)) as [Hf|Hf].
    + rewrite decide_True by (apply list_elem_of_filter; rewrite E; by split; [eexists|]).
      rewrite option_guard_False; naive_solver.
    + rewrite decide_False by (rewrite list_elem_of_filter; tauto). by rewrite option_guard_True.
  - by case_decide.
Qed.

Section BaseWrite.
Context {R : RocksDB} {L : RocksDBLaws R} {U : Uninit}.
Context (type : DataType) (cf : ColumnFamilyIndex).
Context (Hty : base_type type = true) (Hcf : base_cf cf = true).

Lemma base_Get key p m now r f :
  healthy (db_ r) -> base_at type cf (db_ r) now key p m ->
  Get cf (BaseDataKey_Encode key (piv_version (pbm_base p)) f) r =
  Some (match m !! f with Some v => (Status_OK, v) | None => (Status_NotFound [], []) end, r).
Proof.
  intros Hdb Hb. unfold Get. rewrite Get_lookup by auto.
  by rewrite (ma_lookup _ _ _ _ _ (ba_members _ _ _ _ _ _ _ Hb)).
Qed.

(** A dead key gets members again. *)
Lemma revive_stores now key fvs p r :
  key_ok key = true -> clock_ok now -> engine_ok r -> NoDup fvs.*1 ->
  Z.of_nat (length fvs) < 2 ^ 31 -> dead_at type cf (db_ r) now key p ->
  version_room (db_ r) key ->
  let q := ParsedBaseMetaValue_InitialMetaValue now p in
  exists r', Write (put_base_meta key (ParsedBaseMetaValue_SetCount q (Z.of_nat (length fvs))) ::
      put_members cf now key (piv_version (pbm_base q)) fvs) r =
      Some (Status_OK, r') /\
    base_stores type cf now key (put_all fvs ∅) 0 r r'.
Proof.
  intros K Hnow He N Hlen Hd Hroom q.
  destruct (revived_meta now p (Z.of_nat (length fvs)) Hnow (da_coherent _ _ _ _ _ _ Hd) ltac:(lia))
    as (Hc & Ht & Hcnt & Hver & Het & Ev).
  apply (create_dead type cf Hty Hcf now key fvs p
    (ParsedBaseMetaValue_SetCount q (Z.of_nat (length fvs))) r); done.
Qed.

(** Replacing the value of a member that is there. *)
Lemma replace_stores now key f v p m r :
  key_ok key = true -> engine_ok r -> base_at type cf (db_ r) now key p m -> is_Some (m !! f) ->
  exists r', Write [Put cf (BaseDataKey_Encode key (piv_version (pbm_base p)) f) (base_value now v)] r = Some (Status_OK, r') /\
    base_stores type cf now key (<[f:=v]> (user_value <$> m)) (piv_etime (pbm_base p)) r r'.
Proof.
  intros K He Hb [w Hf].
  apply (puts_stored type cf Hty Hcf now now key [(f, v)] _ None p m r); try done.
  - apply singleton_NoDup.
  - apply be_put, be_nil.
  - by rewrite (ba_meta _ _ _ _ _ _ _ Hb).
  - by rewrite (ba_meta _ _ _ _ _ _ _ Hb).
  - by eapply ba_coherent.
  - by eapply ba_type.
  - by eapply ba_live.
  - rewrite (ba_count _ _ _ _ _ _ _ Hb). simpl. rewrite Hf. f_equal. lia.
  - by eapply ba_members.
  - by eapply ba_values.
  - by eapply ba_fresh.
Qed.

(** Adding a member. *)
Lemma add_stores now key f v p m r :
  key_ok key = true -> engine_ok r -> base_at type cf (db_ r) now key p m -> m !! f = None ->
  Z.of_nat (size m) < 2 ^ 31 - 1 ->
  ParsedBaseMetaValue_CheckModifyCount p 1 = true /\
  exists r', Write [put_base_meta key (counted p 1);
                    Put cf (BaseDataKey_Encode key (piv_version (pbm_base p)) f) (base_value now v)] r = Some (Status_OK, r') /\
    base_stores type cf now key (<[f:=v]> (user_value <$> m)) (piv_etime (pbm_base p)) r r'.
Proof.
  intros K He Hb Hf Hn. split.
  - unfold ParsedBaseMetaValue_CheckModifyCount. rewrite (ba_count _ _ _ _ _ _ _ Hb).
    unfold INT32_MAX. rewrite (proj2 (Z.ltb_ge _ _)), (proj2 (Z.ltb_ge _ _)) by lia. done.
  - assert (E : new_fields [(f, v)] m = 1%nat) by (simpl; by rewrite Hf).
    apply (put_live type cf Hty Hcf now key [(f, v)] p m); rewrite ?E; try done.
    + apply singleton_NoDup.
    + lia.
    + apply (be_meta cf _ _ _ _ None), be_put, be_nil.
Qed.

(** The key is full. *)
Lemma full_check p m db now key :
  base_at type cf db now key p m -> Z.of_nat (size m) = 2 ^ 31 - 1 ->
  ParsedBaseMetaValue_CheckModifyCount p 1 = false.
Proof.
  intros Hb Hn. unfold ParsedBaseMetaValue_CheckModifyCount. rewrite (ba_count _ _ _ _ _ _ _ Hb), Hn.
  done.
Qed.

(** A write followed by the statistics. *)
Lemma finish_stores {A} now key b count (a : A) h e r :
  (exists r', Write b r = Some (Status_OK, r') /\ base_stores type cf now key h e r r') ->
  exists r', (let* s := Write b in
              let* _ := UpdateSpecificKeyStatistics type key count in ret (s, a)) r =
      Some ((Status_OK, a), r') /\
    base_stores type cf now key h e r r'.
Proof.
  intros (r1 & HW & Hst). rewrite (bind_run _ _ _ _ _ HW). by apply then_statistics.
Qed.

Lemma base_at_bound db now key p m : base_at type cf db now key p m -> 0 < Z.of_nat (size m) < 2 ^ 31.
Proof.
  intros Hb. pose proof (base_at_size _ _ _ _ _ _ _ Hb). rewrite <- (ba_count _ _ _ _ _ _ _ Hb).
  pose proof (ba_coherent _ _ _ _ _ _ _ Hb) as (l & _ & E)%base_meta_coherent_object.
  pose proof (i32_range (DecodeFixed32 (nth 1 l []))) as Hr. rewrite (ba_count _ _ _ _ _ _ _ Hb).
  assert (E' : Z.of_nat (size m) = i32 (DecodeFixed32 (nth 1 l [])))
    by (rewrite <- (ba_count _ _ _ _ _ _ _ Hb), E; done).
  rewrite E' in *. unfold is_i32 in Hr. lia.
Qed.

Lemma effects_deletes key version l :
  base_effects cf key version
    ((fun f => Delete cf (BaseDataKey_Encode key version f)) <$> l) None ((fun f => (f, None)) <$> l).
Proof. induction l as [|f l IH]; simpl; constructor. exact IH. Qed.

Lemma present_NoDup m fields : NoDup fields -> NoDup (present m fields).
Proof. apply NoDup_filter. Qed.

Lemma deletes_stores now key p m l r :
  key_ok key = true -> engine_ok r -> base_at type cf (db_ r) now key p m ->
  let m' := apply_ops ((fun f => (f, None)) <$> l) m in
  (size m' + length l = size m)%nat ->
  exists r', Write (((fun f => Delete cf (BaseDataKey_Encode key (piv_version (pbm_base p)) f)) <$> l) ++
                    [put_base_meta key (counted p (- Z.of_nat (length l)))]) r =
      Some (Status_OK, r') /\
    base_stores type cf now key (user_value <$> m') (piv_etime (pbm_base p)) r r'.
Proof.
  intros K He Hb m' Hsize. pose proof (base_at_bound _ _ _ _ _ Hb) as Hsz.
  set (q := counted p (- Z.of_nat (length l))).
  assert (Hq : q = ParsedBaseMetaValue_SetCount p (i32 (pbm_count p + - Z.of_nat (length l)))) by done.
  apply (base_write type cf Hcf now key _ (Some (piv_data (pbm_base q)))
    ((fun f => (f, None)) <$> l) q m r); try done.
  - apply effects_then_meta_put, effects_deletes.
  - rewrite Hq. apply base_SetCount_coherent; [apply i32_range|by eapply ba_coherent].
  - apply (ba_type _ _ _ _ _ _ _ Hb).
  - right. apply (ba_live _ _ _ _ _ _ _ Hb).
  - rewrite Hq. simpl. rewrite (ba_count _ _ _ _ _ _ _ Hb). fold m'. unfold i32.
    rewrite Z.mod_small by lia. lia.
  - apply (ba_members _ _ _ _ _ _ _ Hb).
  - intros f v. rewrite lookup_deletes. case_decide; [done|]. by apply (ba_values _ _ _ _ _ _ _ Hb).
  - apply (ba_fresh _ _ _ _ _ _ _ Hb).
Qed.


End BaseWrite.

(** ** Other keys

    What a command leaves of the keys it does not touch, and batches that write
    two keys. *)

Section BaseFrame.
Context {R : RocksDB} {L : RocksDBLaws R} {U : Uninit}.

(** ** Databases with the same content *)

Definition db_same (db db' : DB) : Prop :=
  forall cf, cf <> kZsetsScoreCF -> content db' cf = content db cf.

#[export] Instance db_same_equivalence : Equivalence db_same.
Proof.
  split; [done|intros x y H cf Hcf; by rewrite H|intros x y z H1 H2 cf Hcf; by rewrite H2, H1].
Qed.

#[export] Instance same_meta_of : Proper (db_same ==> eq ==> eq) meta_of.
Proof. intros db db' H k ? <-. unfold meta_of, db_lookup. by rewrite H. Qed.

Lemma same_members cf db db' key v m :
  base_cf cf = true -> db_same db db' -> members_at cf db key v m -> members_at cf db' key v m.
Proof.
  intros Hcf H [H1 H2]. assert (E : content db' cf = content db cf) by (apply H; by apply base_cf_score).
  constructor; [intros f; unfold db_lookup; rewrite E; apply H1|by rewrite E].
Qed.

(** A batch is the same as its two halves in sequence. *)
Lemma Write_halves b1 b2 r r1 r2 :
  engine_ok r -> Write b1 r = Some (Status_OK, r1) -> Write b2 r1 = Some (Status_OK, r2) ->
  exists r', Write (b1 ++ b2) r = Some (Status_OK, r') /\ engine_ok r' /\ db_same (db_ r2) (db_ r').
Proof.
  intros [Hdb Hst] H1 H2. unfold Write in *.
  destruct (Write_content (db_ r) b1 Hdb) as (db1 & E1 & Hdb1 & C1). rewrite E1 in H1.
  injection H1 as <-. simpl in H2.
  destruct (Write_content db1 b2 Hdb1) as (db2 & E2 & Hdb2 & C2). rewrite E2 in H2.
  injection H2 as <-.
  destruct (Write_content (db_ r) (b1 ++ b2) Hdb) as (db' & E & Hdb' & C').
  exists (with_db r db'). rewrite E. split; [done|]. split; [done|]. intros cf Hcf. simpl.
  rewrite C', C2, C1 by done. unfold apply_batch. by rewrite fold_left_app.
Qed.

(** ** What is held *)

Context (type : DataType) (cf : ColumnFamilyIndex) (Hcf : base_cf cf = true).

(** What a key holds depends on its meta value and its members. *)
Definition key_same (db db' : DB) (key : bytes) : Prop :=
  meta_of db' key = meta_of db key /\
  forall v m, is_u64 v -> members_at cf db key v m -> members_at cf db' key v m.

Lemma fresh_transport db db' key v0 :
  key_same db db' key -> fresh_from cf db key v0 -> fresh_from cf db' key v0.
Proof. intros [_ Hv] H v H1 H2. by apply Hv, H. Qed.

Lemma at_transport db db' now key p m :
  key_same db db' key -> base_at type cf db now key p m -> base_at type cf db' now key p m.
Proof.
  intros Hs [H1 H2 H3 H4 H5 H6 H7 H8 H9]. pose proof Hs as [Hm Hv].
  constructor; try done; [by rewrite Hm| |by eapply fresh_transport].
  apply Hv; [by apply base_coherent_version|done].
Qed.

Lemma dead_transport db db' now key p :
  key_same db db' key -> dead_at type cf db now key p -> dead_at type cf db' now key p.
Proof.
  intros Hs [H1 H2 H3 H4 H5]. constructor; try done; [by rewrite (proj1 Hs)|by eapply fresh_transport].
Qed.

Lemma holds_transport db db' now key h e :
  key_same db db' key -> base_holds type cf db now key h e -> base_holds type cf db' now key h e.
Proof.
  intros Hs Hh. unfold base_holds in *. destruct (decide (h = ∅)) as [E|N].
  - destruct Hh as [[Hg Hfr]|(p & Hd)].
    + left. split; [|by eapply fresh_transport]. unfold gone in *. by rewrite (proj1 Hs).
    + right. exists p. by eapply dead_transport.
  - destruct Hh as (p & m & Hb & Hu & He). exists p, m. split; [|done]. by eapply at_transport.
Qed.

Lemma same_key db db' key : db_same db db' -> key_same db db' key.
Proof.
  intros H. split; [by rewrite (same_meta_of db db' H key key eq_refl)|].
  intros v m _. by apply same_members.
Qed.

Lemma others_key key k db db' :
  base_others cf key db db' -> key_ok k = true -> k <> key -> key_same db db' k.
Proof. intros (H1 & H2 & _) K N. split; [by apply H1|]. intros v m V. by apply H2. Qed.

Lemma same_holds db db' now key h e :
  db_same db db' -> base_holds type cf db now key h e -> base_holds type cf db' now key h e.
Proof. intros H. by apply holds_transport, same_key. Qed.

Lemma same_others key db db1 db2 :
  db_same db1 db2 -> base_others cf key db db1 -> base_others cf key db db2.
Proof.
  intros H (H1 & H2 & H3). split_and!.
  - intros k K N. rewrite <- (same_meta_of db1 db2 H k k eq_refl). by apply H1.
  - intros k v m K N V Hm. apply (same_members cf db1); [done..|]. by apply H2.
  - intros cf' N1 N2 N3. rewrite H by done. by apply H3.
Qed.

(** ** Dropping a key *)

Lemma cf_nz : base_cf cf = true -> cf <> kMetaCF /\ cf <> kZsetsScoreCF.
Proof. intros H. split; intros ->; discriminate. Qed.

(** Members of the version go, and the meta value with its version: the key is
    unused when the clock is past the version. *)
Lemma drop_stores now key version l r :
  key_ok key = true -> engine_ok r -> is_u64 version -> version < now ->
  fresh_from cf (db_ r) key (version + 1) ->
  exists r', Write (((fun f => Delete cf (BaseDataKey_Encode key version f)) <$> l) ++
                    [Delete kMetaCF (BaseKey_Encode key)]) r = Some (Status_OK, r') /\
    forall e, base_stores type cf now key ∅ e r r'.
Proof.
  intros K He V Hlt Hfr. pose proof He as [Hdb Hst].
  destruct (Write_base cf Hcf key version K V _ _ _ r (effects_deletes cf key version l) Hdb)
    as (db1 & HW1 & Hdb1 & _ & _ & Hver & Ho).
  destruct (Write_meta key None (with_db r db1) K (conj Hdb1 Hst)) as (r2 & HW2 & He2 & Hm2 & Hom & _).
  assert (C2 : forall cf', cf' <> kMetaCF -> cf' <> kZsetsScoreCF -> content (db_ r2) cf' = content db1 cf').
  { intros cf' N1 N2. unfold Write in HW2. simpl in HW2.
    destruct (Write_content db1 [Delete kMetaCF (BaseKey_Encode key)] Hdb1) as (db2 & E2 & _ & C). rewrite E2 in HW2.
    injection HW2 as <-. simpl. rewrite C by done. unfold apply_batch. simpl. by rewrite decide_False by congruence. }
  destruct (Write_halves _ _ r _ r2 He HW1 HW2) as (r' & HW & He' & Hsame).
  exists r'. split; [done|]. intros e. split; [done|].
  assert (Hmembers : forall k v m, members_at cf db1 k v m -> members_at cf (db_ r2) k v m).
  { intros k v m1 [H1 H2]. destruct (cf_nz Hcf) as [N1 N2].
    constructor; [intros f; rewrite <- H1; unfold db_lookup|intros k0 v0]; rewrite C2 by done; [done|by apply H2]. }
  split; [apply (same_holds (db_ r2)); [done|]|apply (same_others key _ (db_ r2)); [done|]].
  - rewrite base_holds_empty. left. split; [by left|]. intros v Hv V'. apply Hmembers.
    assert (version < v).
    { unfold next_version in Hv. unfold is_u64 in *. rewrite (proj2 (Z.leb_gt now 0)) in Hv by lia. lia. }
    apply Hver; [done|lia|]. apply Hfr; [lia|done].
  - destruct Ho as (H1 & H2 & H3). split_and!.
    + intros k K' N. rewrite Hom by done. by apply H1.
    + intros k v m1 K' N V' Hm'. by apply Hmembers, H2.
    + intros cf' N1 N2 N3. rewrite C2 by done. by apply H3.
Qed.

End BaseFrame.
