(* ===== verification/BaseCursor.v ===== *)
(** * Scanning with a cursor

    [BaseScan] is HSCAN, SSCAN and ZSCAN: it returns a number from which the
    scan goes on, and the member that stands for is kept in the cache of
    cursors.  A pattern that ends in its only wildcard also bounds the members
    the scan visits. *)

From Stdlib Require Import Sorting.Sorted.
From S2P Require Import Prelude Coding Numbers Glob KeyFormat Comparator ValueFormat RocksDB LruCache Redis KeySpace BaseData BaseSpec BaseScan BaseHolds BaseWrite.
Open Scope Z_scope.

(** The pairs whose member matches. *)
Definition matching (pattern : bytes) (l : list (bytes * bytes)) : list (bytes * bytes) :=
  filter (fun fv => StringMatch pattern (fst fv) = Some true) l.

Lemma matching_app pattern l1 l2 : matching pattern (l1 ++ l2) = matching pattern l1 ++ matching pattern l2.
Proof. apply filter_app. Qed.

(** The pattern can be matched against every member of [l]. *)
Definition matchable (pattern : bytes) (l : list (bytes * bytes)) : Prop :=
  Forall (fun fv => exists b, StringMatch pattern (fst fv) = Some b) l.

(** As the user sees a stored pair. *)
Definition as_user (x : bytes * bytes) : bytes * bytes := (fst x, user_value (snd x)).

Lemma matchable_as_user pattern l : matchable pattern (as_user <$> l) <-> matchable pattern l.
Proof. unfold matchable. by rewrite Forall_fmap. Qed.

Section ScanLoop.
Context {R : RocksDB} {L : RocksDBLaws R} {U : Uninit}.
Context {A : Type} (view : bytes -> bytes -> A).
Context (key : bytes) (version : Z) (K : key_ok key = true) (V : is_u64 version).

Notation entries l := (entry_of key version <$> l).

(** What a command returns for the members it collects. *)
Definition views (l : list (bytes * bytes)) : list A := (fun x => view (fst x) (snd x)) <$> l.

Definition scan_step (pattern : bytes) (st : Z * list A) (e : entry) : Z * list A :=
  match scan_body view pattern (fst e) (snd e) st with Some (_, st) => st | None => st end.

Lemma scan_body_member pattern x rest acc :
  (exists b, StringMatch pattern (fst x) = Some b) ->
  scan_body view pattern (fst (entry_of key version x)) (snd (entry_of key version x)) (rest, acc) =
  Some (true, (rest - 1, acc ++ views (matching pattern [as_user x]))).
Proof.
  intros [b Hb]. unfold scan_body, scan_entry, matching. simpl. rewrite (parse_member key version K V).
  simpl. rewrite Hb. cbn [mbind option_bind]. rewrite filter_cons. simpl. rewrite Hb.
  destruct b; [by rewrite decide_True|]. by rewrite decide_False, app_nil_r.
Qed.

Lemma scan_fold pattern l : forall rest acc,
  matchable pattern l ->
  fold_left (scan_step pattern) (entries l) (rest, acc) =
  (rest - Z.of_nat (length l), acc ++ views (matching pattern (as_user <$> l))).
Proof.
  induction l as [|x l IH]; intros rest acc Hl.
  - simpl. by rewrite Z.sub_0_r, app_nil_r.
  - apply Forall_cons in Hl as [Hx Hl]. rewrite fmap_cons. cbn [fold_left]. unfold scan_step at 2.
    rewrite scan_body_member, IH by done. rewrite <- app_assoc. unfold views. rewrite <- fmap_app, <- matching_app. f_equal. simpl length. lia.
Qed.

(** The loop of a scan: up to [count] members under the prefix, from where the
    iterator stands. *)
Lemma scan_walk prefix pattern u E bef count fuel it :
  position it = cursor_at bef (entries u ++ E) ->
  Forall (fun x => starts_with (BaseDataKey_Encode key version (fst x)) prefix = true) u ->
  matchable pattern u ->
  match E with [] => True | e :: _ => starts_with (fst e) prefix = false end ->
  0 <= count -> (length u < fuel)%nat ->
  let n := Z.to_nat count in
  exists it' rest, iter_while fuel Next (fun k '(rest, _) => (0 <? rest) && starts_with k prefix)
      (scan_body view pattern) it (count, []) = Some (it', (rest, views (matching pattern (as_user <$> take n u)))) /\
    position it' = cursor_at (rev (entries (take n u)) ++ bef) (entries (drop n u) ++ E).
Proof.
  intros Hp Hu Hm HE Hc Hfuel n.
  assert (Ht : matchable pattern (take n u)) by by apply Forall_take.
  destruct (walk_next (fun k '(rest, _) => (0 <? rest) && starts_with k prefix) (scan_body view pattern)
    (scan_step pattern) (entries (take n u)) bef (entries (drop n u) ++ E) (count, []) fuel it)
    as (it' & HW & Hp').
  - rewrite app_assoc, <- fmap_app, take_drop. done.
  - intros b1 e b2 Hb. pose proof Hb as Hb'. apply (f_equal length) in Hb.
    rewrite length_fmap, length_take, length_app in Hb. simpl in Hb.
    apply fmap_app_inv in Hb' as (u1 & u2 & -> & Hu2 & Eu).
    destruct u2 as [|x u2]; [done|]. simpl in Hu2. injection Hu2 as -> _.
    apply (Forall_take _ n) in Hu. rewrite Eu in Ht, Hu. unfold matchable in Ht.
    apply Forall_app in Ht as [H1 Hx%Forall_inv], Hu as [_ Hu%Forall_inv]. rewrite length_fmap in Hb.
    cbv zeta. rewrite scan_fold by done. rewrite scan_body_member by done. unfold scan_step.
    rewrite scan_body_member by done. split; [|done]. simpl. rewrite Hu, andb_true_r.
    apply Z.ltb_lt. lia.
  - rewrite scan_fold by done. destruct (drop n u) as [|x l] eqn:Ed; simpl.
    + destruct E as [|e E]; [done|]. left. by rewrite HE, andb_false_r.
    + left. apply andb_false_iff. left. apply Z.ltb_ge. apply (f_equal length) in Ed.
      rewrite length_drop in Ed. simpl in Ed. rewrite length_take. lia.
  - rewrite length_fmap, length_take. lia.
  - rewrite scan_fold in HW by done. eauto.
Qed.

End ScanLoop.

Lemma split_unique {A} (P : A -> Prop) (l1 l2 k1 k2 : list A) :
  l1 ++ l2 = k1 ++ k2 -> Forall P l1 -> Forall (fun x => ~ P x) l2 ->
  Forall P k1 -> Forall (fun x => ~ P x) k2 -> l1 = k1 /\ l2 = k2.
Proof.
  revert k1. induction l1 as [|x l1 IH]; intros [|y k1] E Hl1 Hl2 Hk1 Hk2; simpl in E; [done|..].
  - subst l2. apply Forall_inv in Hl2. by apply Forall_inv in Hk1.
  - subst k2. apply Forall_inv in Hk2. by apply Forall_inv in Hl1.
  - injection E as -> E. apply Forall_inv_tail in Hl1, Hk1. by destruct (IH k1 E) as [-> ->].
Qed.

(** The field a scan stopped at; empty at the end. *)
Definition next_of (l : list (bytes * bytes)) : bytes := match l with [] => [] | x :: _ => fst x end.

Lemma next_of_as_user l : next_of (as_user <$> l) = next_of l.
Proof. by destruct l. Qed.

Lemma sorted_around (l1 l3 : list (bytes * bytes)) x :
  StronglySorted (fun x y => bytes_compare (fst x) (fst y) = Lt) (l1 ++ x :: l3) ->
  Forall (fun y => bytes_compare (fst y) (fst x) = Lt) l1 /\
  Forall (fun y => bytes_compare (fst y) (fst x) <> Lt) (x :: l3).
Proof.
  induction l1 as [|y l1 IH]; simpl; intros H.
  - apply StronglySorted_inv in H as [_ H]. split; [done|]. constructor; [by rewrite bytes_compare_refl|].
    eapply Forall_impl; [exact H|]. intros z Hz. simpl in Hz.
    by rewrite (proj2 (cmp_Gt_Lt bytes_compare _ _) Hz).
  - apply StronglySorted_inv in H as [H Hy]. destruct (IH H) as [H1 H2]. split; [|done].
    constructor; [|done]. rewrite Forall_forall in Hy. apply (Hy x). set_solver.
Qed.

Lemma nothing_below_nil f : bytes_compare f [] <> Lt.
Proof. by destruct f. Qed.

(** The prefix a scan is bounded by. *)
Definition scan_prefix (pattern : bytes) : bytes :=
  if isTailWildcard pattern then take (length pattern - 1) pattern else [].

(** The key of the cursor cache. *)
Definition cursor_key (type : DataType) (key pattern : bytes) (cursor : Z) : bytes :=
  default [] (scan_index_key type key pattern cursor).

Lemma scan_index_key_base type key pattern cursor :
  base_type type = true ->
  scan_index_key type key pattern cursor = Some (cursor_key type key pattern cursor).
Proof. by destruct type. Qed.

(** ** Prefixes of fields *)

Lemma prefix_zeros sub : forall f n, x00 ∉ sub -> sub `prefix_of` f ++ replicate n x00 -> sub `prefix_of` f.
Proof.
  induction sub as [|c sub IH]; intros f n N [r E]; [by exists f|].
  destruct f as [|d f]; simpl in E.
  - destruct n as [|n]; [done|]. simpl in E. injection E as <- _. set_solver.
  - injection E as <- E. apply prefix_cons, (IH f n); [set_solver|by exists r].
Qed.

Lemma compare_longer f sub r : bytes_compare f sub = Gt -> bytes_compare (f ++ r) sub = Gt.
Proof.
  revert sub. induction f as [|c f IH]; intros [|d sub]; [done..|]. simpl app.
  rewrite !bytes_compare_cons. destruct (Z.compare (Z_of_byte c) (Z_of_byte d)); simpl; auto.
Qed.

Section BaseCursor.
Context {R : RocksDB} {L : RocksDBLaws R} {U : Uninit}.

Lemma seek_key_form key version sub :
  key_ok key = true -> BaseDataKey_EncodeSeekKey key version sub = seek_prefix key version ++ sub.
Proof.
  intros K. unfold seek_prefix. rewrite !BaseDataKey_EncodeSeekKey_form, app_nil_r by done.
  by rewrite app_assoc.
Qed.

Lemma starts_with_sub key version sub f :
  key_ok key = true -> x00 ∉ sub ->
  starts_with (BaseDataKey_Encode key version f) (BaseDataKey_EncodeSeekKey key version sub) =
  bool_decide (sub `prefix_of` f).
Proof.
  intros K N. rewrite data_key_form, seek_key_form by done. apply eq_true_iff_eq.
  rewrite starts_with_spec, bool_decide_eq_true. split.
  - intros [r E]. rewrite <- app_assoc in E. apply app_inv_head in E.
    apply (prefix_zeros sub f 16); [done|]. by exists r.
  - intros [r ->]. exists (r ++ reserve2). by rewrite <- !app_assoc.
Qed.

(** Past the prefix the scan is over. *)
Lemma past_sub key version sub f :
  key_ok key = true -> bytes_compare f sub <> Lt -> ~ sub `prefix_of` f ->
  bytes_compare (BaseDataKey_Encode key version f) (BaseDataKey_EncodeSeekKey key version sub) = Gt.
Proof.
  intros K Hc N. rewrite data_key_form, seek_key_form, bytes_compare_app_l by done.
  apply compare_longer. destruct (bytes_compare f sub) eqn:E; [|done|done].
  apply bytes_compare_eq in E as ->. by destruct N.
Qed.

Lemma past_version key version sub k :
  key_ok key = true -> bytes_compare k (seek_prefix key version) <> Lt ->
  ~ seek_prefix key version `prefix_of` k ->
  bytes_compare k (BaseDataKey_EncodeSeekKey key version sub) = Gt /\
  starts_with k (BaseDataKey_EncodeSeekKey key version sub) = false.
Proof.
  intros K Hk N. rewrite seek_key_form by done. set (P := seek_prefix key version) in *. split.
  - destruct (bytes_compare k (P ++ sub)) eqn:E; [| |done].
    + apply bytes_compare_eq in E as ->. destruct N. by exists sub.
    + destruct (prefix_interval _ _ _ Hk N E). by exists sub.
  - apply not_true_iff_false. rewrite starts_with_spec. intros [r E]. destruct N. exists (sub ++ r).
    by rewrite app_assoc.
Qed.

Lemma past_stops key version sub fw c0 :
  key_ok key = true -> x00 ∉ sub ->
  Forall (fun x : bytes * bytes => bytes_compare (fst x) sub <> Lt /\ ~ sub `prefix_of` fst x) fw ->
  Forall (fun e : entry => bytes_compare (fst e) (seek_prefix key version) <> Lt /\
                           ~ seek_prefix key version `prefix_of` fst e) c0 ->
  match (entry_of key version <$> fw) ++ c0 with
  | [] => True
  | e :: _ => starts_with (fst e) (BaseDataKey_EncodeSeekKey key version sub) = false
  end.
Proof.
  intros K N Hw Hc0. destruct fw as [|x fw]; simpl.
  - destruct c0 as [|e0 c0]; [done|]. apply Forall_inv in Hc0 as [Ha Hb]. by apply past_version.
  - apply Forall_inv in Hw as [_ Hx]. rewrite starts_with_sub by done. by apply bool_decide_eq_false_2.
Qed.

(** ** The cursor cache *)

Context {A : Type} (type : DataType) (cf : ColumnFamilyIndex).
Context (Hty : base_type type = true) (Hcf : base_cf cf = true).
Context (seek : bytes -> Z -> bytes -> bytes) (view : bytes -> bytes -> A).

Lemma GetScanStartPoint_ok key pattern cursor r c :
  represents (scan_cursors_store_ r) c ->
  let res := spec_Lookup c (cursor_key type key pattern cursor) in
  exists cs, GetScanStartPoint type key pattern cursor r = Some (fst res, with_cursors r cs) /\
    represents cs (snd res).
Proof.
  intros Hr res. unfold GetScanStartPoint. rewrite scan_index_key_base by done. cbn [mbind option_bind].
  destruct (Lookup_refines _ _ (cursor_key type key pattern cursor) Hr) as (cs & -> & Hcs).
  exists cs. unfold res. by destruct (spec_Lookup c _) as [[st found] c'].
Qed.

Lemma StoreScanNextPoint_ok key pattern cursor next r c :
  represents (scan_cursors_store_ r) c ->
  let res := spec_Insert c (cursor_key type key pattern cursor) next 1 in
  exists cs, StoreScanNextPoint type key pattern cursor next r = Some (fst res, with_cursors r cs) /\
    represents cs (snd res).
Proof.
  intros Hr res. unfold StoreScanNextPoint. rewrite scan_index_key_base by done. cbn [mbind option_bind].
  destruct (Insert_refines _ _ (cursor_key type key pattern cursor) next 1 Hr) as (cs & -> & Hcs).
  exists cs. unfold res. by destruct (spec_Insert c _ _ _) as [st c'].
Qed.

(** Where a cursor starts: what the cache has, or the beginning. *)
Definition start_of (c : cache) (key pattern : bytes) (cursor : Z) : bytes * Z :=
  match find_key (cursor_key type key pattern cursor) (c_entries c) with
  | Some hd => (h_value hd, cursor)
  | None => (scan_prefix pattern, 0)
  end.

(** Nothing stored but the cursor cache changes. *)
Definition same_but_cursors (r r' : Redis) : Prop :=
  db_ r' = db_ r /\ (stats_ok r -> stats_ok r').

Lemma next_cursor_ok key version pattern sub d fw c0 bef it cursor count r c :
  key_ok key = true -> is_u64 version -> x00 ∉ sub ->
  position it = cursor_at bef ((entry_of key version <$> d) ++ (entry_of key version <$> fw) ++ c0) ->
  Forall (fun x => sub `prefix_of` fst x) d ->
  Forall (fun x => bytes_compare (fst x) sub <> Lt /\ ~ sub `prefix_of` fst x) fw ->
  Forall (fun e => bytes_compare (fst e) (seek_prefix key version) <> Lt /\
                   ~ seek_prefix key version `prefix_of` fst e) c0 ->
  represents (scan_cursors_store_ r) c -> 1 <= c_capacity c -> 0 <= cursor -> 0 <= count ->
  cursor + count < 2 ^ 63 ->
  exists r' c', next_cursor type key pattern (BaseDataKey_EncodeSeekKey key version sub) it cursor count r =
      Some (match d with [] => 0 | _ => cursor + count end, r') /\
    same_but_cursors r r' /\ represents (scan_cursors_store_ r') c' /\ c_capacity c' = c_capacity c /\
    match d with
    | [] => True
    | x :: _ => find_key (cursor_key type key pattern (cursor + count)) (c_entries c') =
                Some (mkHandle (cursor_key type key pattern (cursor + count)) (fst x) 1)
    end.
Proof.
  intros K V N Hp Hd Hfw Hc0 Hr Hcap H0 Hc Hlt. unfold next_cursor. rewrite Valid_position, Hp.
  destruct d as [|x d]; simpl in Hp |- *.
  - exists r, c. split; [|done]. destruct fw as [|x fw]; simpl in *.
    + destruct c0 as [|e c0]; [done|]. simpl. rewrite (key_position _ _ _ _ Hp).
      apply Forall_inv in Hc0 as [H1 H2]. by destruct (past_version key version sub (fst e) K H1 H2) as [-> ->].
    + rewrite (key_position _ _ _ _ Hp). apply Forall_inv in Hfw as [H1 H2]. simpl.
      rewrite past_sub, starts_with_sub by done. by rewrite bool_decide_eq_false_2.
  - apply Forall_inv in Hd. rewrite (key_position _ _ _ _ Hp). simpl.
    rewrite (starts_with_sub key version sub (fst x) K N), bool_decide_eq_true_2, orb_true_r by done.
    assert (Ei : i64_add cursor count = Some (cursor + count)).
    { unfold i64_add. rewrite (proj2 (Z.leb_le _ _)), (proj2 (Z.ltb_lt _ _)) by lia. done. }
    assert (Ef : member_at_iter it = Some (fst x)).
    { unfold member_at_iter. rewrite (key_position _ _ _ _ Hp). simpl. by rewrite parse_member. }
    rewrite (bind_lift _ _ _ _ Ei), (bind_lift _ _ _ _ Ef).
    destruct (StoreScanNextPoint_ok key pattern (cursor + count) (fst x) r c Hr) as (cs & HS & Hcs).
    rewrite (bind_run _ _ _ _ _ HS). eexists (with_cursors r cs), _. split; [done|]. split; [done|].
    split; [exact Hcs|]. split; [|by apply insert_then_find].
    unfold spec_Insert. rewrite (proj2 (Z.eqb_neq _ _)) by lia. done.
Qed.

(** Where a scan that starts at a member stands. *)
Lemma Seek_members now key T start p m l1 l2 db :
  key_ok key = true -> healthy db -> base_at type cf db now key p m ->
  let version := piv_version (pbm_base p) in
  starts_at key version T start -> listing (user_value <$> m) (l1 ++ l2) ->
  Forall (fun x => bytes_compare (fst x) start = Lt) l1 ->
  Forall (fun x => bytes_compare (fst x) start <> Lt) l2 ->
  exists bef fl2 c, l2 = as_user <$> fl2 /\ (length fl2 <= length (content db cf))%nat /\
    Forall (fun e => bytes_compare (fst e) (seek_prefix key version) <> Lt /\
                     ~ seek_prefix key version `prefix_of` fst e) c /\
    position (Seek (NewIterator db cf) T) =
      cursor_at bef ((entry_of key version <$> fl2) ++ c).
Proof.
  intros K Hdb Hb version HT Hl H1 H2.
  pose proof (base_coherent_version p (ba_coherent _ _ _ _ _ _ _ Hb)) as V.
  destruct (Seek_start cf Hcf key version K V db m T start Hdb (ba_members _ _ _ _ _ _ _ Hb) HT)
    as (a & fl1 & fl2 & c & Hlm & Hf1 & Hf2 & Hc & Hp & E).
  apply (listing_fmap user_value) in Hlm. pose proof (listing_unique _ _ _ Hlm Hl) as El.
  rewrite fmap_app in El.
  destruct (split_unique (fun x => bytes_compare (fst x) start = Lt) _ _ _ _ El) as [_ E2];
    [by apply Forall_fmap..|done|done|].
  exists (rev (entry_of key version <$> fl1) ++ rev a), fl2, c. split_and!; [done| |done|done].
  rewrite E, !length_app, length_fmap, length_app. lia.
Qed.

(** What [BaseScan] does once it knows where to start. *)
Definition scan_from (fuel : nat) (duration : Z) (key : bytes) (version : Z) (start pattern : bytes)
    (cursor count : Z) : M (Status * list A * Z) :=
  let prefix := BaseDataKey_EncodeSeekKey key version (scan_prefix pattern) in
  let* db := gets db_ in
  let* '(it, (_, members)) :=
    lift (iter_while fuel Next (fun k '(rest, _) => (0 <? rest) && starts_with k prefix)
            (scan_body view pattern)
            (Seek (NewIterator db cf) (seek key version start))
            (count, [])) in
  let* next := next_cursor type key pattern prefix it cursor count in
  let* _ := UpdateSpecificKeyDuration type key duration in
  ret (Status_OK, members, next).

Lemma BaseScan_from fuel duration now key pattern count cursor p m r c :
  engine_ok r -> base_at type cf (db_ r) now key p m -> represents (scan_cursors_store_ r) c -> 0 <= cursor ->
  exists cs, represents cs (snd (spec_Lookup c (cursor_key type key pattern cursor))) /\
    let '(start, base) := start_of c key pattern cursor in
    BaseScan type cf seek view fuel duration now key cursor pattern count r =
    scan_from fuel duration key (piv_version (pbm_base p)) start pattern base count (with_cursors r cs).
Proof.
  intros [Hdb Hok] Hb Hr H0. unfold BaseScan. rewrite (proj2 (Z.ltb_ge cursor 0)) by done.
  destruct (GetScanStartPoint_ok key pattern cursor r c Hr) as (cs & HG & Hcs).
  exists cs. split; [done|]. unfold start_of, scan_from, scan_prefix. unfold spec_Lookup in HG.
  destruct (find_key _ _) as [hd|].
  all: start_live Hdb Hb; cbv zeta; by rewrite (bind_run _ _ _ _ _ HG).
Qed.

(** One call, from a cursor that stands for [stored], from where the seek
    reaches [start]: the members [u] are ahead under the prefix, [w] past it. *)
Lemma BaseScan_step fuel duration now key pattern count cursor h e l1 u w c r stored start base :
  key_ok key = true -> engine_ok r -> base_holds type cf (db_ r) now key h e -> h <> ∅ ->
  represents (scan_cursors_store_ r) c -> 1 <= c_capacity c ->
  start_of c key pattern cursor = (stored, base) ->
  (forall version, is_u64 version -> starts_at key version (seek key version stored) start) ->
  x00 ∉ scan_prefix pattern ->
  listing h (l1 ++ u ++ w) ->
  Forall (fun x => bytes_compare (fst x) start = Lt) l1 ->
  Forall (fun x => bytes_compare (fst x) start <> Lt) (u ++ w) ->
  Forall (fun x => scan_prefix pattern `prefix_of` fst x) u ->
  Forall (fun x => bytes_compare (fst x) (scan_prefix pattern) <> Lt /\
                   ~ scan_prefix pattern `prefix_of` fst x) w ->
  matchable pattern u -> 0 <= cursor -> 0 <= count -> cursor + count < 2 ^ 63 ->
  (length (content (db_ r) cf) < fuel)%nat ->
  let n := Z.to_nat count in
  exists r' c', BaseScan type cf seek view fuel duration now key cursor pattern count r =
      Some ((Status_OK, views view (matching pattern (take n u)),
             match drop n u with [] => 0 | _ => base + count end), r') /\
    engine_ok r' /\ db_ r' = db_ r /\
    represents (scan_cursors_store_ r') c' /\ c_capacity c' = c_capacity c /\
    match drop n u with
    | [] => True
    | x :: _ => start_of c' key pattern (base + count) = (fst x, base + count)
    end.
Proof.
  intros K He Hh Hne Hr Hcap Hst Hg N Hl H1 H2 Hu Hw Hm H0 Hc Hlt Hfuel n.
  destruct (base_holds_live _ _ _ _ _ _ _ Hne Hh) as (p & m & Hb & <- & _).
  pose proof (base_coherent_version p (ba_coherent _ _ _ _ _ _ _ Hb)) as V.
  destruct (Seek_members now key _ start p m l1 (u ++ w) (db_ r) K (proj1 He) Hb (Hg _ V) Hl H1 H2)
    as (bef & fl2 & c0 & E2 & Hlen & Hc0 & Hp).
  symmetry in E2. apply fmap_app_inv in E2 as (fu & fw & -> & -> & ->).
  rewrite fmap_app, <- app_assoc in Hp. rewrite length_app in Hlen.
  apply (proj1 (matchable_as_user _ _)) in Hm. rewrite Forall_fmap in Hu, Hw.
  destruct (BaseScan_from fuel duration now key pattern count cursor p m r c He Hb Hr H0) as (cs & Hcs & HS).
  rewrite Hst in HS. rewrite HS. unfold scan_from. cbv zeta. rewrite bind_gets.
  assert (Hbase : 0 <= base <= cursor) by (unfold start_of in Hst; case_match; simplify_eq; lia).
  destruct (scan_walk view key _ K V (BaseDataKey_EncodeSeekKey key (piv_version (pbm_base p)) (scan_prefix pattern))
    pattern fu _ bef count fuel _ Hp) as (it' & rest & HW & Hp'); try done.
  { eapply Forall_impl; [exact Hu|]. intros x Hx. simpl in Hx.
    rewrite starts_with_sub by done. by apply bool_decide_eq_true_2. }
  { by apply past_stops. } { lia. }
  rewrite (bind_lift _ _ _ _ HW). cbv beta iota.
  destruct (next_cursor_ok key _ pattern (scan_prefix pattern) (drop n fu) fw c0 _ it' base count
    (with_cursors r cs) (snd (spec_Lookup c (cursor_key type key pattern cursor))) K V N Hp') as (r1 & c1 & HN & [Hdb1 Hst1] & Hr1 & Hcap1 & Hnext); try done.
  { by apply Forall_drop. } { unfold spec_Lookup. by destruct (find_key _ _). } { lia. } { lia. }
  rewrite (bind_run _ _ _ _ _ HN).
  destruct (UpdateSpecificKeyDuration_ok type key duration r1) as (r2 & HU & Hs & Hok2);
    [by apply base_type_tag|apply Hst1, He|].
  rewrite (bind_run _ _ _ _ _ HU). destruct Hs as (Hd2 & Hc2 & _). exists r2, c1.
  rewrite <- fmap_take, <- fmap_drop. split_and!.
  - by destruct (drop n fu).
  - split; [rewrite Hd2, Hdb1; apply He|done].
  - by rewrite Hd2, Hdb1.
  - by rewrite Hc2.
  - rewrite Hcap1. unfold spec_Lookup. destruct (find_key (cursor_key type key pattern cursor) (c_entries c)); done.
  - destruct (drop n fu) as [|x d]; [done|]. simpl. unfold start_of. by rewrite Hnext.
Qed.

(** A client that starts at cursor 0 and goes on from the cursor each call
    returns until that is 0 again. *)
Fixpoint cursor_all (rounds fuel : nat) (duration now : Z) (key pattern : bytes) (count cursor : Z)
    (acc : list A) : M (list A) :=
  match rounds with
  | O => fun _ => None
  | S rounds =>
      let* '(_, members, next) := BaseScan type cf seek view fuel duration now key cursor pattern count in
      if next =? 0 then ret (acc ++ members)
      else cursor_all rounds fuel duration now key pattern count next (acc ++ members)
  end.

(** The members from which [seek] finds its way. *)
Context (good : bytes -> Prop).
Context (Hseek : forall key version start, key_ok key = true -> is_u64 version -> good start ->
  starts_at key version (seek key version start) start).

Lemma cursor_all_from fuel duration now key pattern count h e w : forall rounds l1 u start cursor acc r c,
  key_ok key = true -> engine_ok r -> base_holds type cf (db_ r) now key h e -> h <> ∅ ->
  represents (scan_cursors_store_ r) c -> 1 <= c_capacity c ->
  start_of c key pattern cursor = (start, cursor) -> good start ->
  Forall (fun x => good (fst x)) u -> x00 ∉ scan_prefix pattern ->
  listing h (l1 ++ u ++ w) ->
  Forall (fun x => bytes_compare (fst x) start = Lt) l1 ->
  Forall (fun x => bytes_compare (fst x) start <> Lt) (u ++ w) ->
  Forall (fun x => scan_prefix pattern `prefix_of` fst x) u ->
  Forall (fun x => bytes_compare (fst x) (scan_prefix pattern) <> Lt /\
                   ~ scan_prefix pattern `prefix_of` fst x) w ->
  matchable pattern u -> 0 <= cursor -> 0 < count -> cursor + count * (Z.of_nat rounds) < 2 ^ 63 ->
  (length (content (db_ r) cf) < fuel)%nat -> (length u < rounds)%nat ->
  exists r', cursor_all rounds fuel duration now key pattern count cursor acc r =
      Some (acc ++ views view (matching pattern u), r') /\ db_ r' = db_ r.
Proof.
  induction rounds as [|rounds IH];
    intros l1 u start cursor acc r c K He Hh Hne Hr Hcap Hst Hg Hgu N Hl H1 H2 Hu Hw Hm H0 Hc Hlt Hfuel Hlen; [lia|].
  destruct (BaseScan_step fuel duration now key pattern count cursor h e l1 u w c r start start cursor)
    as (r1 & c1 & HS & He1 & Hdb1 & Hr1 & Hcap1 & Hnext); try done; [by auto|lia|lia|].
  set (n := Z.to_nat count) in *. cbn [cursor_all]. rewrite (bind_run _ _ _ _ _ HS). cbv beta iota.
  destruct (drop n u) as [|x d] eqn:Ed.
  - exists r1. split; [|done]. simpl. rewrite take_ge; [done|].
    apply (f_equal length) in Ed. rewrite length_drop in Ed. simpl in Ed. lia.
  - assert (Eu : u = take n u ++ x :: d) by (by rewrite <- Ed, take_drop).
    assert (Hl' : listing h ((l1 ++ take n u) ++ x :: d ++ w)).
    { rewrite Eu in Hl. by rewrite <- !app_assoc in Hl |- *. }
    destruct (sorted_around _ _ _ (proj1 Hl')) as [Hb Ha].
    rewrite (proj2 (Z.eqb_neq _ _)) by lia.
    assert (Hgx : good (fst x)).
    { rewrite Eu in Hgu. apply Forall_app in Hgu as [_ Hgu]. by apply Forall_inv in Hgu. }
    destruct (IH (l1 ++ take n u) (x :: d) (fst x) (cursor + count) (acc ++ views view (matching pattern (take n u))) r1 c1)
      as (r2 & HR & Hdb2); try done; try (by rewrite ?Hdb1, ?Hcap1); try (rewrite <- Ed; by apply Forall_drop);
      try lia.
    + apply (f_equal length) in Ed. rewrite length_drop in Ed. simpl in *.
      assert (1 <= n)%nat by (unfold n; lia). lia.
    + exists r2. unfold views in *. rewrite HR, <- app_assoc, <- fmap_app, <- matching_app, <- Eu. split; [done|congruence].
Qed.

(** What a whole scan returns, by the meaning of the pattern. *)
Definition selected (ts : list token) (l : list (bytes * bytes)) : list (bytes * bytes) :=
  filter (fun fv => matches false ts (fst fv)) l.

(** The members the matcher can scan; it can scan all but the empty one. *)
Definition scannable (ts : list token) (l : list (bytes * bytes)) : Prop :=
  Forall (fun fv => scan_safe false ts (fst fv)) l.

Lemma scannable_matching pattern ts l :
  tokens pattern = Some ts -> scannable ts l -> matchable pattern l /\ matching pattern l = selected ts l.
Proof.
  intros Ht Hl. assert (Hm : Forall (fun fv => StringMatch pattern (fst fv) = Some (bool_decide (matches false ts (fst fv)))) l).
  { eapply Forall_impl; [exact Hl|]. intros fv Hs. by apply stringmatchlen_decides. }
  split; [eapply Forall_impl; [exact Hm|]; intros fv ->; by eexists|].
  unfold matching, selected. clear Hl. induction Hm as [|fv l Hfv Hm IH]; [done|]. rewrite !filter_cons, Hfv, IH.
  destruct (decide (matches false ts (fst fv))); [rewrite decide_True|rewrite decide_False]; try done.
  - by rewrite bool_decide_eq_true_2.
  - by rewrite bool_decide_eq_false_2.
Qed.

Lemma selected_split pattern ts a u w :
  tokens pattern = Some ts -> ~ escaped_tail pattern -> scannable ts u ->
  Forall (fun x => bytes_compare (fst x) (scan_prefix pattern) = Lt) a ->
  Forall (fun x => scan_prefix pattern `prefix_of` fst x) u ->
  Forall (fun x => bytes_compare (fst x) (scan_prefix pattern) <> Lt /\
                   ~ scan_prefix pattern `prefix_of` fst x) w ->
  selected ts (a ++ u ++ w) = matching pattern u.
Proof.
  intros Ht Hb Hs Ha Hu Hw. rewrite (proj2 (scannable_matching pattern ts u Ht Hs)).
  unfold selected, scan_prefix in *. destruct (isTailWildcard pattern) eqn:Et.
  - pose proof (fun s => tail_wildcard_matches pattern ts s Et Hb Ht) as Hp.
    rewrite !filter_app, (filter_none _ a), (filter_none _ w), app_nil_r; [done|..];
      (eapply Forall_impl; [eassumption|]; intros x Hx; simpl in Hx; rewrite Hp); [tauto|].
    intros Hx'%prefix_compare. congruence.
  - destruct a as [|x a].
    + destruct w as [|x w]; [by rewrite app_nil_r|]. apply Forall_inv in Hw as [_ []]. apply prefix_nil.
    + apply Forall_inv in Ha. by apply nothing_below_nil in Ha.
Qed.

(** A client that calls the scan with a positive count from cursor 0 until it
    gets cursor 0 again, while no other scan uses the cache of cursors. *)
Lemma BaseScan_complete fuel duration now key pattern ts count h e l c r :
  key_ok key = true -> engine_ok r -> base_holds type cf (db_ r) now key h e -> h <> ∅ -> listing h l ->
  represents (scan_cursors_store_ r) c -> 1 <= c_capacity c ->
  find_key (cursor_key type key pattern 0) (c_entries c) = None ->
  good (scan_prefix pattern) -> Forall (fun x => good (fst x)) l ->
  tokens pattern = Some ts -> ~ escaped_tail pattern -> x00 ∉ pattern ->
  scannable ts l -> 0 < count -> count * (Z.of_nat (size h) + 1) < 2 ^ 63 ->
  (length (content (db_ r) cf) < fuel)%nat ->
  exists r', cursor_all (S (size h)) fuel duration now key pattern count 0 [] r =
      Some (views view (selected ts l), r') /\ db_ r' = db_ r.
Proof.
  intros K He Hh Hne Hl Hr Hcap H0 Hg Hgl Ht Hbs Hz Hm Hc Hlt Hfuel.
  assert (Hlen : length l = size h).
  { destruct Hl as [Hs <-]. by rewrite map_size_list_to_map by (by apply sorted_NoDup). }
  destruct (sorted_split (scan_prefix pattern) l (proj1 Hl)) as (a & u & w & -> & Ha & Hu & Hw).
  assert (Hmu : scannable ts u) by (unfold scannable in *; rewrite !Forall_app in Hm; tauto).
  rewrite (selected_split pattern) by done.
  eapply (cursor_all_from fuel duration now key pattern count h e w _ a u (scan_prefix pattern) 0 []); try done.
  - unfold start_of. by rewrite H0.
  - rewrite !Forall_app in Hgl. tauto.
  - unfold scan_prefix. destruct (isTailWildcard pattern); [|set_solver].
    intros Hin. apply Hz. rewrite <- (take_drop (length pattern - 1) pattern). set_solver.
  - apply Forall_app. split; eapply Forall_impl; [exact Hu| |exact Hw|].
    + intros x Hx. by apply prefix_compare.
    + by intros x [Hx _].
  - by apply (scannable_matching pattern ts u).
  - lia.
  - unfold entry in *. rewrite !length_app in Hlen. lia.
Qed.

End BaseCursor.
