(* ===== verification/Hashes.v ===== *)
(** * Hash commands ([src/src/storage/src/redis_hashes.cc])

    One definition per command of [Redis] on hashes.  A hash is a base meta
    value in [kMetaCF] and one entry per field in [kHashesDataCF].

    [fuel] bounds the rounds of an iterator loop and [duration] is the time the
    command's guard measures.  An out parameter a command does not assign is
    returned as its initial value, empty or 0. *)

From S2P Require Import Prelude Coding Numbers Glob KeyFormat Comparator ValueFormat RocksDB LruCache Redis BaseData.
Open Scope Z_scope.

(** [struct FieldValue] and [struct ValueStatus] of [storage.h] *)
Definition FieldValue : Type := bytes * bytes.
Definition ValueStatus : Type := bytes * Status.

(** Distinct fields, first occurrences ([HDel]). *)
Definition filtered_fields (fields : list bytes) : list bytes :=
  fold_left (fun acc field => if decide (field ∈ acc) then acc else acc ++ [field]) fields [].

(** Distinct fields, last occurrences, from the back ([HMSet]). *)
Definition filtered_fvs (fvs : list FieldValue) : list FieldValue :=
  fold_left (fun acc fv => if decide (fst fv ∈ map fst acc) then acc else acc ++ [fv]) (rev fvs) [].

Section Hashes.
Context {R : RocksDB} {U : Uninit}.

Definition hash_key (key : bytes) (version : Z) (field : bytes) : bytes :=
  BaseDataKey_Encode key version field.
Definition put_field (now : Z) (key : bytes) (version : Z) (field value : bytes) : WriteOp :=
  Put kHashesDataCF (hash_key key version field) (base_value now value).

Definition ScanHashesKeyNum : nat -> Z -> M (Status * KeyInfo) := ScanBaseKeyNum kHashes.

(** ** Deleting fields *)

Fixpoint HDel_loop (key : bytes) (version : Z) (fields : list bytes) (batch : list WriteOp)
    (del_cnt : Z) : M (Status + list WriteOp * Z) :=
  match fields with
  | [] => ret (inr (batch, del_cnt))
  | field :: fields =>
      let* '(s, _) := Get kHashesDataCF (hash_key key version field) in
      if ok s then
        HDel_loop key version fields (batch ++ [Delete kHashesDataCF (hash_key key version field)])
          (i32 (del_cnt + 1))
      else if IsNotFound s then HDel_loop key version fields batch del_cnt
      else ret (inl s)
  end.

Definition HDel (now : Z) (key : bytes) (fields : list bytes) : M (Status * Z) :=
  let* m := GetMeta now kHashes key key in
  match m with
  | inl st => ret (st, 0)
  | inr (s, meta_value) =>
      if ok s then
        let* p := lift (ParsedBaseMetaValue_parse true meta_value) in
        if base_dead now p then ret (Status_OK, 0)
        else
          let* l := HDel_loop key (piv_version (pbm_base p)) (filtered_fields fields) [] 0 in
          match l with
          | inl st => ret (st, 0)
          | inr (batch, del_cnt) =>
              if negb (ParsedBaseMetaValue_CheckModifyCount p (- del_cnt)) then
                ret (Status_InvalidArgument (lit "hash size overflow"), del_cnt)
              else
                let* p := lift (ParsedBaseMetaValue_ModifyCount p (- del_cnt)) in
                let* s := Write (batch ++ [put_base_meta key p]) in
                let* _ := UpdateSpecificKeyStatistics kHashes key del_cnt in
                ret (s, del_cnt)
          end
      else if IsNotFound s then ret (Status_OK, 0)
      else ret (s, 0)
  end.

(** ** Reading *)

Definition HGet (now : Z) (key field : bytes) : M (Status * bytes) :=
  let* m := GetBase now kHashes key in
  match m with
  | inl st => ret (st, [])
  | inr p =>
      let* '(s, value) := Get kHashesDataCF (hash_key key (piv_version (pbm_base p)) field) in
      if ok s then
        let* v := lift (ParsedBaseDataValue_StripSuffix (ParsedBaseDataValue true value)) in
        ret (s, v)
      else ret (s, value)
  end.

Definition HExists (now : Z) (key field : bytes) : M Status :=
  let* '(s, _) := HGet now key field in ret s.

Definition HStrlen (now : Z) (key field : bytes) : M (Status * Z) :=
  let* '(s, value) := HGet now key field in
  ret (s, if ok s then i32 (Z.of_nat (length value)) else 0).

Definition HLen : Z -> bytes -> bytes -> M (Status * Z) := BaseCard kHashes.

Definition field_value (k v : bytes) : option FieldValue :=
  q ← ParsedBaseDataKey k;
  Some (pdk_data q, UserValue (ParsedBaseDataValue false v)).
Definition value_only (k v : bytes) : option bytes := Some (UserValue (ParsedBaseDataValue false v)).

Definition list_hash {A} (fuel : nat) (f : bytes -> bytes -> option A) (duration now : Z)
    (key : bytes) : M (Status * list A) :=
  let* m := GetBase now kHashes key in
  match m with
  | inl st => ret (st, [])
  | inr p =>
      let* db := gets db_ in
      let* l := lift (list_entries kHashesDataCF fuel f key (piv_version (pbm_base p)) db) in
      let* _ := UpdateSpecificKeyDuration kHashes key duration in
      ret (Status_OK, l)
  end.

Definition HGetall (fuel : nat) (duration now : Z) (key : bytes) : M (Status * list FieldValue) :=
  list_hash fuel field_value duration now key.
Definition HKeys (fuel : nat) (duration now : Z) (key : bytes) : M (Status * list bytes) :=
  list_hash fuel member_only duration now key.
Definition HVals (fuel : nat) (duration now : Z) (key : bytes) : M (Status * list bytes) :=
  list_hash fuel value_only duration now key.

Definition HGetallWithTTL (fuel : nat) (duration now : Z) (key : bytes)
    : M (Status * list FieldValue * Z) :=
  let* m := GetMeta now kHashes key key in
  match m with
  | inl st => ret (st, [], 0)
  | inr (s, meta_value) =>
      if ok s then
        let* p := lift (ParsedBaseMetaValue_parse true meta_value) in
        if pbm_count p =? 0 then ret (Status_NotFound [], [], 0)
        else if IsStale now (pbm_base p) then ret (Status_NotFound (lit "Stale"), [], 0)
        else
          let ttl_millsec := ttl_of now (piv_etime (pbm_base p)) in
          let* db := gets db_ in
          let* l := lift (list_entries kHashesDataCF fuel field_value key (piv_version (pbm_base p)) db) in
          let* _ := UpdateSpecificKeyDuration kHashes key duration in
          ret (s, l, ttl_millsec)
      else ret (s, [], 0)
  end.

(** The fields of [HMGet] in turn; a read error drops what was collected. *)
Fixpoint HMGet_loop (key : bytes) (version : Z) (fields : list bytes) (vss : list ValueStatus)
    : M (Status * list ValueStatus) :=
  match fields with
  | [] => ret (Status_OK, vss)
  | field :: fields =>
      let* '(s, value) := Get kHashesDataCF (hash_key key version field) in
      if ok s then
        let* v := lift (ParsedBaseDataValue_StripSuffix (ParsedBaseDataValue true value)) in
        HMGet_loop key version fields (vss ++ [(v, Status_OK)])
      else if IsNotFound s then
        HMGet_loop key version fields (vss ++ [([], Status_NotFound [])])
      else ret (s, [])
  end.

Definition HMGet (now : Z) (key : bytes) (fields : list bytes)
    : M (Status * list ValueStatus) :=
  let none := (fun _ => ([], Status_NotFound [])) <$> fields in
  let* m := GetMeta now kHashes key key in
  match m with
  | inl st => ret (st, [])
  | inr (s, meta_value) =>
      if ok s then
        let* p := lift (ParsedBaseMetaValue_parse true meta_value) in
        if base_dead now p then
          ret (Status_NotFound (if IsStale now (pbm_base p) then lit "Stale" else []), none)
        else HMGet_loop key (piv_version (pbm_base p)) fields []
      else if IsNotFound s then ret (s, none)
      else ret (s, [])
  end.

(** ** Writing *)

(** The writes that create a hash on an absent key. *)
Definition new_hash (now : Z) (key : bytes) (fvs : list FieldValue) : list WriteOp :=
  let m := new_base_meta now kHashes (Z.of_nat (length fvs)) in
  Put kMetaCF (BaseKey_Encode key) (BaseMetaValue_Encode m) ::
  ((fun fv => put_field now key (iv_version m) (fst fv) (snd fv)) <$> fvs).

Definition HSet (now : Z) (key field value : bytes) : M (Status * Z) :=
  let* m := GetMeta now kHashes key key in
  match m with
  | inl st => ret (st, 0)
  | inr (s, meta_value) =>
      let finish batch statistic res :=
        let* s := Write batch in
        let* _ := UpdateSpecificKeyStatistics kHashes key statistic in
        ret (s, res) in
      if ok s then
        let* p := lift (ParsedBaseMetaValue_parse true meta_value) in
        if base_dead now p then
          let p := ParsedBaseMetaValue_InitialMetaValue now p in
          let version := piv_version (pbm_base p) in
          let p := ParsedBaseMetaValue_SetCount p 1 in
          finish [put_base_meta key p; put_field now key version field value] 0 1
        else
          let version := piv_version (pbm_base p) in
          let* '(s, data_value) := Get kHashesDataCF (hash_key key version field) in
          if ok s then
            if decide (data_value = value) then ret (Status_OK, 0)
            else finish [put_field now key version field value] 1 0
          else if IsNotFound s then
            if negb (ParsedBaseMetaValue_CheckModifyCount p 1) then
              ret (Status_InvalidArgument (lit "hash size overflow"), 0)
            else
              let* p := lift (ParsedBaseMetaValue_ModifyCount p 1) in
              finish [put_base_meta key p; put_field now key version field value] 0 1
          else ret (s, 0)
      else if IsNotFound s then finish (new_hash now key [(field, value)]) 0 1
      else ret (s, 0)
  end.

Definition HSetnx (now : Z) (key field value : bytes) : M (Status * Z) :=
  let* m := GetMeta now kHashes key key in
  match m with
  | inl st => ret (st, 0)
  | inr (s, meta_value) =>
      let finish batch res := let* s := Write batch in ret (s, res) in
      if ok s then
        let* p := lift (ParsedBaseMetaValue_parse true meta_value) in
        if base_dead now p then
          let p := ParsedBaseMetaValue_InitialMetaValue now p in
          let version := piv_version (pbm_base p) in
          let p := ParsedBaseMetaValue_SetCount p 1 in
          finish [put_base_meta key p; put_field now key version field value] 1
        else
          let version := piv_version (pbm_base p) in
          let* '(s, _) := Get kHashesDataCF (hash_key key version field) in
          if ok s then finish [] 0
          else if IsNotFound s then
            if negb (ParsedBaseMetaValue_CheckModifyCount p 1) then
              ret (Status_InvalidArgument (lit "hash size overflow"), 0)
            else
              let* p := lift (ParsedBaseMetaValue_ModifyCount p 1) in
              finish [put_base_meta key p; put_field now key version field value] 1
          else ret (s, 0)
      else if IsNotFound s then finish (new_hash now key [(field, value)]) 1
      else ret (s, 0)
  end.

(** The fields of [HMSet] in turn: the writes, and how many fields are new and
    how many were there ([statistic]). *)
Fixpoint HMSet_loop (now : Z) (key : bytes) (version : Z) (fvs : list FieldValue)
    (batch : list WriteOp) (count statistic : Z) : M (Status + list WriteOp * Z * Z) :=
  match fvs with
  | [] => ret (inr (batch, count, statistic))
  | (field, value) :: fvs =>
      let* '(s, _) := Get kHashesDataCF (hash_key key version field) in
      let batch := batch ++ [put_field now key version field value] in
      if ok s then HMSet_loop now key version fvs batch count (u32 (statistic + 1))
      else if IsNotFound s then HMSet_loop now key version fvs batch (i32 (count + 1)) statistic
      else ret (inl s)
  end.

(** A failed read of the meta value is not returned: the command goes on to
    write an empty batch and returns the status of that. *)
Definition HMSet (now : Z) (key : bytes) (fvs : list FieldValue) : M Status :=
  let fvs := filtered_fvs fvs in
  let* m := GetMeta now kHashes key key in
  match m with
  | inl st => ret st
  | inr (s, meta_value) =>
      let finish batch statistic :=
        let* s := Write batch in
        let* _ := UpdateSpecificKeyStatistics kHashes key statistic in
        ret s in
      if ok s then
        let* p := lift (ParsedBaseMetaValue_parse true meta_value) in
        if base_dead now p then
          let p := ParsedBaseMetaValue_InitialMetaValue now p in
          let version := piv_version (pbm_base p) in
          let n := i32 (Z.of_nat (length fvs)) in
          if negb (ParsedBaseMetaValue_check_set_count n) then
            ret (Status_InvalidArgument (lit "hash size overflow"))
          else
            let p := ParsedBaseMetaValue_SetCount p n in
            finish (put_base_meta key p ::
                    ((fun fv => put_field now key version (fst fv) (snd fv)) <$> fvs)) 0
        else
          let* l := HMSet_loop now key (piv_version (pbm_base p)) fvs [] 0 0 in
          match l with
          | inl st => ret st
          | inr (batch, count, statistic) =>
              if negb (ParsedBaseMetaValue_CheckModifyCount p count) then
                ret (Status_InvalidArgument (lit "hash size overflow"))
              else
                let* p := lift (ParsedBaseMetaValue_ModifyCount p count) in
                finish (batch ++ [put_base_meta key p]) statistic
          end
      else if IsNotFound s then finish (new_hash now key fvs) 0
      else finish [] 0
  end.

Definition HIncrby (now : Z) (key field : bytes) (value : Z) : M (Status * Z) :=
  let* m := GetMeta now kHashes key key in
  match m with
  | inl st => ret (st, 0)
  | inr (s, meta_value) =>
      let finish batch statistic res :=
        let* s := Write batch in
        let* _ := UpdateSpecificKeyStatistics kHashes key statistic in
        ret (s, res) in
      if ok s then
        let* p := lift (ParsedBaseMetaValue_parse true meta_value) in
        if base_dead now p then
          let p := ParsedBaseMetaValue_UpdateVersion now p in
          let version := piv_version (pbm_base p) in
          let p := ParsedBaseMetaValue_SetCount p 1 in
          let p := ParsedBaseMetaValue_SetEtime p 0 in
          let* value_buf := lift (Int64ToStr32 value) in
          finish [put_base_meta key p; put_field now key version field value_buf] 0 value
        else
          let version := piv_version (pbm_base p) in
          let* '(s, old_value) := Get kHashesDataCF (hash_key key version field) in
          if ok s then
            let* old_value :=
              lift (ParsedBaseDataValue_StripSuffix (ParsedBaseDataValue true old_value)) in
            match string2int old_value with
            | None => ret (Status_Corruption (lit "hash value is not an integer"), 0)
            | Some ival =>
                if ((0 <=? value) && (LLONG_MAX - value <? ival)) ||
                   ((value <? 0) && (ival <? LLONG_MIN - value)) then
                  ret (Status_InvalidArgument (lit "Overflow"), 0)
                else
                  let n := ival + value in
                  let* value_buf := lift (Int64ToStr32 n) in
                  finish [put_field now key version field value_buf] 1 n
            end
          else if IsNotFound s then
            let* value_buf := lift (Int64ToStr32 value) in
            if negb (ParsedBaseMetaValue_CheckModifyCount p 1) then
              ret (Status_InvalidArgument (lit "hash size overflow"), 0)
            else
              let* p := lift (ParsedBaseMetaValue_ModifyCount p 1) in
              finish [put_base_meta key p; put_field now key version field value_buf] 0 value
          else ret (s, 0)
      else if IsNotFound s then
        let* value_buf := lift (Int64ToStr32 value) in
        finish (new_hash now key [(field, value_buf)]) 0 value
      else ret (s, 0)
  end.

(** ** Scans *)

(** What the scans return for a field. *)
Definition as_FieldValue (field value : bytes) : FieldValue := (field, value).

Definition HScan : nat -> Z -> Z -> bytes -> Z -> bytes -> Z -> M (Status * list FieldValue * Z) :=
  BaseScan kHashes kHashesDataCF hash_key as_FieldValue.

Definition HScanx (fuel : nat) (duration now : Z) (key start_field pattern : bytes) (count : Z)
    : M (Status * list FieldValue * bytes) :=
  let* m := GetMeta now kHashes key key in
  match m with
  | inl st => ret (st, [], [])
  | inr (s, meta_value) =>
      if ok s then
        let* p := lift (ParsedBaseMetaValue_parse true meta_value) in
        if base_dead now p then ret (Status_NotFound [], [], [])
        else
          let version := piv_version (pbm_base p) in
          let prefix := BaseDataKey_EncodeSeekKey key version [] in
          let* db := gets db_ in
          let* '(it, (_, field_values)) :=
            lift (iter_while fuel Next (fun k '(rest, _) => (0 <? rest) && starts_with k prefix)
                    (scan_body as_FieldValue pattern)
                    (Seek (NewIterator db kHashesDataCF) (hash_key key version start_field))
                    (count, [])) in
          let* next_field :=
            lift (if Valid it && starts_with (iter_key it) prefix then member_at_iter it
                  else Some []) in
          let* _ := UpdateSpecificKeyDuration kHashes key duration in
          ret (Status_OK, field_values, next_field)
      else ret (s, [], [])
  end.

(** The range scans stop at [field_end]; [beyond] is the comparison that does. *)
Definition range_body (pattern : bytes) (beyond : bytes -> bool) (k v : bytes)
    (st : Z * list FieldValue) : option (bool * (Z * list FieldValue)) :=
  let '(remain, acc) := st in
  q ← ParsedBaseDataKey k;
  if beyond (pdk_data q) then Some (false, st)
  else
    acc ← scan_entry as_FieldValue pattern k v acc;
    Some (true, (remain - 1, acc)).

Definition range_next (beyond : bytes -> bool) (prefix : bytes) (it : Iterator) : option bytes :=
  if Valid it && starts_with (iter_key it) prefix then
    field ← member_at_iter it;
    Some (if beyond field then [] else field)
  else Some [].

Definition PKHScanRange (fuel : nat) (duration now : Z) (key field_start field_end pattern : bytes)
    (limit : Z) : M (Status * list FieldValue * bytes) :=
  let start_no_limit := bool_decide (field_start = []) in
  let end_no_limit := bool_decide (field_end = []) in
  if negb start_no_limit && negb end_no_limit &&
     bool_decide (bytes_compare field_start field_end = Gt) then
    ret (Status_InvalidArgument (lit "error in given range"), [], [])
  else
    let* m := GetMeta now kHashes key key in
    match m with
    | inl st => ret (st, [], [])
    | inr (s, meta_value) =>
        if ok s then
          let* p := lift (ParsedBaseMetaValue_parse true meta_value) in
          if base_dead now p then ret (Status_NotFound [], [], [])
          else
            let version := piv_version (pbm_base p) in
            let prefix := BaseDataKey_EncodeSeekKey key version [] in
            let beyond field :=
              negb end_no_limit && bool_decide (bytes_compare field field_end = Gt) in
            let* db := gets db_ in
            let* '(it, (_, field_values)) :=
              lift (iter_while fuel Next (fun k '(remain, _) => (0 <? remain) && starts_with k prefix)
                      (range_body pattern beyond)
                      (Seek (NewIterator db kHashesDataCF)
                         (if start_no_limit then prefix else hash_key key version field_start))
                      (limit, [])) in
            let* next_field := lift (range_next beyond prefix it) in
            let* _ := UpdateSpecificKeyDuration kHashes key duration in
            ret (Status_OK, field_values, next_field)
        else ret (s, [], [])
    end.

Definition PKHRScanRange (fuel : nat) (duration now : Z) (key field_start field_end pattern : bytes)
    (limit : Z) : M (Status * list FieldValue * bytes) :=
  let start_no_limit := bool_decide (field_start = []) in
  let end_no_limit := bool_decide (field_end = []) in
  if negb start_no_limit && negb end_no_limit &&
     bool_decide (bytes_compare field_start field_end = Lt) then
    ret (Status_InvalidArgument (lit "error in given range"), [], [])
  else
    let* m := GetMeta now kHashes key key in
    match m with
    | inl st => ret (st, [], [])
    | inr (s, meta_value) =>
        if ok s then
          let* p := lift (ParsedBaseMetaValue_parse true meta_value) in
          if base_dead now p then ret (Status_NotFound [], [], [])
          else
            let version := piv_version (pbm_base p) in
            let start_key_version := if start_no_limit then u64 (version + 1) else version in
            let start_key_field := if start_no_limit then [] else field_start in
            let prefix := BaseDataKey_EncodeSeekKey key version [] in
            let beyond field :=
              negb end_no_limit && bool_decide (bytes_compare field field_end = Lt) in
            let* db := gets db_ in
            let* '(it, (_, field_values)) :=
              lift (iter_while fuel Prev (fun k '(remain, _) => (0 <? remain) && starts_with k prefix)
                      (range_body pattern beyond)
                      (SeekForPrev (NewIterator db kHashesDataCF)
                         (hash_key key start_key_version start_key_field))
                      (limit, [])) in
            let* next_field := lift (range_next beyond prefix it) in
            let* _ := UpdateSpecificKeyDuration kHashes key duration in
            ret (Status_OK, field_values, next_field)
        else ret (s, [], [])
    end.

(** ** Key-level commands *)

Definition HashesExpire : Z -> bytes -> Z -> bytes -> M Status := BaseExpire kHashes false.
Definition HashesDel : Z -> bytes -> bytes -> M Status := BaseDel kHashes.
Definition HashesExpireat : Z -> bytes -> Z -> bytes -> M Status := BaseExpireat kHashes false.
Definition HashesPersist : Z -> bytes -> bytes -> M Status := BasePersist kHashes false.
Definition HashesTTL : Z -> bytes -> bytes -> M (Status * Z) := BaseTTL kHashes.

End Hashes.
