(* ===== verification/HashRead.v ===== *)
(** * Reading hashes

    HGET, HEXISTS, HSTRLEN, HMGET and the commands that list a hash. *)

From Stdlib Require Import Sorting.Sorted.
From S2P Require Import Prelude Coding Numbers Glob KeyFormat Comparator ValueFormat RocksDB LruCache Redis KeySpace BaseData BaseSpec BaseScan BaseHolds BaseWrite BaseCursor Hashes.
Open Scope Z_scope.

Notation hash_at := (base_at kHashes kHashesDataCF).
Notation hash_holds := (base_holds kHashes kHashesDataCF).
Notation hash_stores := (base_stores kHashes kHashesDataCF).
Notation hash_Get := (base_Get kHashes kHashesDataCF eq_refl).

Section HashRead.
Context {R : RocksDB} {L : RocksDBLaws R} {U : Uninit}.

(** What a lookup of a field gives. *)
Definition found (h : gmap bytes bytes) (f : bytes) : StatusCode :=
  if h !! f then kOk else kNotFound.

Lemma HGet_holds now key h e r f :
  key_ok key = true -> healthy (db_ r) -> hash_holds (db_ r) now key h e ->
  exists st, HGet now key f r = Some ((st, default [] (h !! f)), r) /\ status_code st = found h f.
Proof.
  intros K Hdb Hh. unfold HGet. destruct (decide (h = ∅)) as [->|Hne].
  - rewrite base_holds_empty in Hh.
    destruct (GetBase_unused _ _ now key r Hdb Hh) as (st & HG & Hst). rewrite (bind_run _ _ _ _ _ HG).
    exists st. unfold found. rewrite lookup_empty. done.
  - destruct (base_holds_live _ _ _ _ _ _ _ Hne Hh) as (p & m & Hb & <- & _).
    rewrite (bind_GetBase _ _ now key p m r _ Hdb Hb), (bind_run _ _ _ _ _ (hash_Get key p m now r f Hdb Hb)).
    unfold found. rewrite lookup_fmap. destruct (m !! f) as [v|] eqn:E; simpl; [|by eexists].
    destruct (strip_stored v (ba_values _ _ _ _ _ _ _ Hb f v E)) as [-> _]. by eexists.
Qed.

Lemma HMGet_loop_live now key p m r fields : forall vss,
  healthy (db_ r) -> hash_at (db_ r) now key p m ->
  HMGet_loop key (piv_version (pbm_base p)) fields vss r =
  Some ((Status_OK, vss ++ ((fun f => match (user_value <$> m) !! f with
                                      | Some v => (v, Status_OK)
                                      | None => ([], Status_NotFound [])
                                      end) <$> fields)), r).
Proof.
  induction fields as [|f fields IH]; intros vss Hdb Hb; [simpl; by rewrite app_nil_r|].
  cbn [HMGet_loop]. rewrite fmap_cons, lookup_fmap.
  rewrite (bind_run _ _ _ _ _ (hash_Get key p m now r f Hdb Hb)).
  destruct (m !! f) as [v|] eqn:E; on_status; simpl fmap.
  - destruct (strip_stored v (ba_values _ _ _ _ _ _ _ Hb f v E)) as [Hs _].
    rewrite (bind_lift _ _ _ _ Hs). rewrite IH by done. by rewrite <- app_assoc.
  - rewrite IH by done. by rewrite <- app_assoc.
Qed.

(** HGET, HEXISTS, HSTRLEN and HMGET on a hash [h] (empty: the key is
    absent, expired or emptied) answer from [h] and change nothing.  HSTRLEN
    returns the length as a 32-bit integer; HMGET answers each field in order
    and says not found as a whole only when there is no hash. *)
Theorem hash_reads_correct now key h e r :
  key_ok key = true -> healthy (db_ r) -> hash_holds (db_ r) now key h e ->
  (forall f,
     (exists st, HGet now key f r = Some ((st, default [] (h !! f)), r) /\ status_code st = found h f) /\
     (exists st, HExists now key f r = Some (st, r) /\ status_code st = found h f) /\
     (exists st, HStrlen now key f r =
        Some ((st, match h !! f with Some v => i32 (Z.of_nat (length v)) | None => 0 end), r) /\
        status_code st = found h f)) /\
  (forall fields, exists st, HMGet now key fields r =
     Some ((st, (fun f => match h !! f with
                          | Some v => (v, Status_OK)
                          | None => ([], Status_NotFound [])
                          end) <$> fields), r) /\
     status_code st = if decide (h = ∅) then kNotFound else kOk).
Proof.
  intros K Hdb Hh. split; [intros f|intros fields].
  - destruct (HGet_holds now key h e r f K Hdb Hh) as (st & HG & Hst). split_and!; [by eauto|..].
    + exists st. unfold HExists. by rewrite (bind_run _ _ _ _ _ HG).
    + exists st. unfold HStrlen. rewrite (bind_run _ _ _ _ _ HG). split; [|done].
      unfold ok. rewrite Hst. unfold found. by destruct (h !! f).
  - unfold HMGet. destruct (decide (h = ∅)) as [->|Hne].
    + rewrite base_holds_empty in Hh. destruct Hh as [[Hg _]|(p & Hd)].
      * rewrite bind_base_gone by done. simpl. by eexists.
      * rewrite (bind_dead _ _ now key p r _ Hdb Hd). on_status.
        rewrite (bind_lift _ _ _ _ (base_parse p (da_coherent _ _ _ _ _ _ Hd))).
        rewrite (da_dead _ _ _ _ _ _ Hd). by eexists.
    + destruct (base_holds_live _ _ _ _ _ _ _ Hne Hh) as (p & m & Hb & <- & _).
      rewrite (bind_live _ _ now key p m r _ Hdb Hb). on_status.
      rewrite (bind_lift _ _ _ _ (base_parse p (ba_coherent _ _ _ _ _ _ _ Hb))).
      rewrite (proj1 (base_at_alive _ _ _ _ _ _ _ Hb)). exists Status_OK. split; [|done].
      by apply (HMGet_loop_live now key p m r fields []).
Qed.

(** ** Listing *)

Lemma list_entries_live {A} (f : bytes -> bytes -> option A) (g : bytes * bytes -> A) fuel now key p m db fl :
  key_ok key = true -> healthy db -> hash_at db now key p m -> listing m fl ->
  (forall x, f (BaseDataKey_Encode key (piv_version (pbm_base p)) (fst x)) (snd x) = Some (g x)) ->
  (length (content db kHashesDataCF) < fuel)%nat ->
  list_entries kHashesDataCF fuel f key (piv_version (pbm_base p)) db = Some (g <$> fl).
Proof.
  intros K Hdb Hb Hfl Hf Hfuel.
  destruct (list_members kHashesDataCF eq_refl key _ K
    (base_coherent_version p (ba_coherent _ _ _ _ _ _ _ Hb)) f g db m fuel Hf Hdb
    (ba_members _ _ _ _ _ _ _ Hb) Hfuel) as (fl' & Hl & HW).
  by rewrite (listing_unique _ _ _ Hfl Hl).
Qed.

Lemma list_hash_live {A} (f : bytes -> bytes -> option A) l fuel duration now key p m r :
  engine_ok r -> hash_at (db_ r) now key p m ->
  list_entries kHashesDataCF fuel f key (piv_version (pbm_base p)) (db_ r) = Some l ->
  exists r', list_hash fuel f duration now key r = Some ((Status_OK, l), r') /\ same_data r r'.
Proof.
  intros [Hdb Hok] Hb Hl. unfold list_hash.
  rewrite (bind_GetBase _ _ now key p m r _ Hdb Hb), bind_gets, (bind_lift _ _ _ _ Hl).
  destruct (UpdateSpecificKeyDuration_ok kHashes key duration r) as (r2 & H2 & Hs & _); [done..|].
  rewrite (bind_run _ _ _ _ _ H2). by exists r2.
Qed.

(** HGETALL, HKEYS and HVALS list a hash by increasing field, each field
    once, given rounds for the entries of the data family; HGETALL with TTL
    adds the time left.  Nothing stored changes. *)
Theorem hash_listing_correct fuel duration now key h e r :
  key_ok key = true -> clock_ok now -> engine_ok r -> hash_holds (db_ r) now key h e -> h <> ∅ ->
  is_i64 e -> (length (content (db_ r) kHashesDataCF) < fuel)%nat ->
  exists l, listing h l /\
    (exists r', HGetall fuel duration now key r = Some ((Status_OK, l), r') /\ same_data r r') /\
    (exists r', HKeys fuel duration now key r = Some ((Status_OK, l.*1), r') /\ same_data r r') /\
    (exists r', HVals fuel duration now key r = Some ((Status_OK, l.*2), r') /\ same_data r r') /\
    (exists r', HGetallWithTTL fuel duration now key r =
       Some ((Status_OK, l, if e =? 0 then -1 else e - now), r') /\ same_data r r').
Proof.
  intros K Hnow He Hh Hne Hi Hfuel.
  destruct (base_holds_live _ _ _ _ _ _ _ Hne Hh) as (p & m & Hb & <- & <-).
  pose proof (base_coherent_version p (ba_coherent _ _ _ _ _ _ _ Hb)) as V.
  destruct (members_entries kHashesDataCF eq_refl key _ K V (db_ r) m (proj1 He)
    (ba_members _ _ _ _ _ _ _ Hb)) as (_ & fl & _ & _ & Hl & _).
  assert (H1 := fun A f g => list_entries_live (A:=A) f g fuel now key p m (db_ r) fl K (proj1 He) Hb Hl).
  assert (E : list_entries kHashesDataCF fuel field_value key (piv_version (pbm_base p)) (db_ r) =
    Some ((fun x => (fst x, user_value (snd x))) <$> fl)).
  { apply H1; [|done]. intros x. unfold field_value. by rewrite parse_member. }
  exists ((fun x => (fst x, user_value (snd x))) <$> fl). split; [by apply listing_fmap|].
  rewrite <- !list_fmap_compose. split_and!.
  - by apply (list_hash_live _ _ _ _ _ _ p m).
  - apply (list_hash_live _ _ _ _ _ _ p m); [done..|]. apply H1; [|done].
    intros x. unfold member_only. by rewrite parse_member.
  - apply (list_hash_live _ _ _ _ _ _ p m); [done..|]. by apply H1.
  - unfold HGetallWithTTL. rewrite (bind_live _ _ now key p m r _ (proj1 He) Hb). on_status.
    rewrite (bind_lift _ _ _ _ (base_parse p (ba_coherent _ _ _ _ _ _ _ Hb))).
    destruct (base_at_alive _ _ _ _ _ _ _ Hb) as [Hd _]. apply orb_false_iff in Hd as [-> ->].
    rewrite bind_gets, (bind_lift _ _ _ _ E), (base_at_etime _ _ now key p m _ Hnow Hb Hi).
    destruct (UpdateSpecificKeyDuration_ok kHashes key duration r) as (r2 & H2 & Hs & _);
      [done|apply He|]. rewrite (bind_run _ _ _ _ _ H2). by exists r2.
Qed.

End HashRead.

(** ** Scanning hashes

    HSCANX and HSCAN one call at a time, and a client that calls them until the
    scan is over. *)

Lemma views_pairs l : views as_FieldValue l = l.
Proof. induction l as [|[f v] l IH]; [done|]. unfold views in *. by rewrite fmap_cons, IH. Qed.

Section HashScans.
Context {R : RocksDB} {L : RocksDBLaws R} {U : Uninit}.

Lemma HScanx_step fuel duration now key start pattern count h e l1 l2 r :
  key_ok key = true -> engine_ok r -> hash_holds (db_ r) now key h e -> h <> ∅ ->
  listing h (l1 ++ l2) ->
  Forall (fun x => bytes_compare (fst x) start = Lt) l1 ->
  Forall (fun x => bytes_compare (fst x) start <> Lt) l2 ->
  matchable pattern l2 -> 0 <= count -> (length (content (db_ r) kHashesDataCF) < fuel)%nat ->
  let n := Z.to_nat count in
  exists r', HScanx fuel duration now key start pattern count r =
      Some ((Status_OK, matching pattern (take n l2), next_of (drop n l2)), r') /\
    same_data r r' /\ stats_ok r'.
Proof.
  intros K [Hdb Hok] Hh Hne Hl H1 H2 Hm Hc Hfuel n.
  destruct (base_holds_live _ _ _ _ _ _ _ Hne Hh) as (p & m & Hb & <- & _).
  pose proof (base_coherent_version p (ba_coherent _ _ _ _ _ _ _ Hb)) as V.
  destruct (Seek_members kHashes kHashesDataCF eq_refl now key _ start p m l1 l2 (db_ r) K Hdb Hb (Encode_starts key _ K start) Hl H1 H2)
    as (bef & fl2 & c & -> & Hlen & Hcl & Hp).
  apply (proj1 (matchable_as_user _ _)) in Hm.
  destruct (scan_walk as_FieldValue key _ K V (seek_prefix key (piv_version (pbm_base p))) pattern fl2 c bef count fuel _ Hp)
    as (it' & rest & HW & Hp'); try done; [|by destruct c; [|apply Forall_inv in Hcl as [_ ?]; apply starts_with_beyond]|lia|].
  { apply Forall_forall. intros x _. by apply starts_with_member. }
  unfold HScanx. start_live Hdb Hb. cbv zeta. rewrite bind_gets.
  change (BaseDataKey_EncodeSeekKey key ?v []) with (seek_prefix key v).
  rewrite (bind_lift _ _ _ _ HW). cbv beta iota.
  assert (Hn : (if Valid it' && starts_with (iter_key it') (seek_prefix key (piv_version (pbm_base p)))
                then member_at_iter it' else Some []) = Some (next_of (drop n (as_user <$> fl2)))).
  { rewrite <- fmap_drop, next_of_as_user. fold n in Hp'. rewrite Valid_position, Hp'.
    destruct (drop n fl2) as [|x l] eqn:Ed; simpl in *.
    - destruct c as [|e' c]; [done|]. simpl in *. rewrite (key_position _ _ _ _ Hp').
      apply Forall_inv in Hcl as [_ Hcl]. by rewrite starts_with_beyond.
    - rewrite (key_position _ _ _ _ Hp'). simpl. rewrite starts_with_member by done.
      unfold member_at_iter. rewrite (key_position _ _ _ _ Hp'). simpl. by rewrite parse_member. }
  rewrite (bind_lift _ _ _ _ Hn).
  destruct (UpdateSpecificKeyDuration_ok kHashes key duration r) as (r2 & HU & Hs & Hok2); [done..|].
  rewrite (bind_run _ _ _ _ _ HU). exists r2. by rewrite views_pairs, <- fmap_take.
Qed.

(** A client that starts from the beginning and goes on from the field each
    call returns until that is empty. *)
Fixpoint scan_all (rounds fuel : nat) (duration now : Z) (key pattern : bytes) (count : Z)
    (start : bytes) (acc : list FieldValue) : M (list FieldValue) :=
  match rounds with
  | O => fun _ => None
  | S rounds =>
      let* '(_, fvs, next) := HScanx fuel duration now key start pattern count in
      if decide (next = []) then ret (acc ++ fvs)
      else scan_all rounds fuel duration now key pattern count next (acc ++ fvs)
  end.

Lemma scan_all_from fuel duration now key pattern count h e : forall rounds l1 l2 start acc r,
  key_ok key = true -> engine_ok r -> hash_holds (db_ r) now key h e -> h <> ∅ ->
  listing h (l1 ++ l2) ->
  Forall (fun x => bytes_compare (fst x) start = Lt) l1 ->
  Forall (fun x => bytes_compare (fst x) start <> Lt) l2 ->
  matchable pattern l2 -> 0 < count -> (length (content (db_ r) kHashesDataCF) < fuel)%nat ->
  (length l2 < rounds)%nat ->
  exists r', scan_all rounds fuel duration now key pattern count start acc r =
      Some (acc ++ matching pattern l2, r') /\ same_data r r'.
Proof.
  induction rounds as [|rounds IH]; intros l1 l2 start acc r K He Hh Hne Hl H1 H2 Hm Hc Hfuel Hr; [lia|].
  destruct (HScanx_step fuel duration now key start pattern count h e l1 l2 r)
    as (r1 & HS & Hsame & Hok); try done; [lia|]. set (n := Z.to_nat count) in *.
  cbn [scan_all]. rewrite (bind_run _ _ _ _ _ HS). cbv beta iota.
  destruct (drop n l2) as [|x l3] eqn:Ed.
  - rewrite decide_True by done. exists r1. split; [|done]. rewrite take_ge; [done|].
    apply (f_equal length) in Ed. rewrite length_drop in Ed. simpl in Ed. lia.
  - assert (E2 : l2 = take n l2 ++ x :: l3) by (by rewrite <- Ed, take_drop).
    assert (Hl' : listing h ((l1 ++ take n l2) ++ x :: l3)) by (by rewrite <- app_assoc, <- E2).
    destruct (sorted_around _ _ _ (proj1 Hl')) as [Hb Ha].
    rewrite decide_False.
    2:{ intros E0. simpl in E0. destruct l2 as [|y l2]; [by rewrite drop_nil in Ed|].
        destruct n as [|n'] eqn:En; [lia|]. rewrite E0 in Hb. apply Forall_app in Hb as [_ Hb].
        simpl in Hb. apply Forall_inv in Hb. by apply nothing_below_nil in Hb. }
    destruct (IH (l1 ++ take n l2) (x :: l3) (fst x) (acc ++ matching pattern (take n l2)) r1)
      as (r2 & HR & Hs2); try done.
    + split; [rewrite (proj1 Hsame); apply He|done].
    + by rewrite (proj1 Hsame).
    + rewrite <- Ed. by apply Forall_drop.
    + by rewrite (proj1 Hsame).
    + apply (f_equal length) in Ed. rewrite length_drop in Ed. simpl in *.
      assert (1 <= n)%nat by (unfold n; lia). lia.
    + exists r2. simpl next_of. rewrite HR, <- app_assoc, <- matching_app, <- E2.
      split; [done|by etransitivity].
Qed.

(** A client that calls HSCANX with a positive count until it returns no
    next field finishes within as many calls as the hash has fields, plus one,
    and has then received every field that matches exactly once, in order. *)
Theorem HScanx_complete fuel duration now key pattern count h e l r :
  key_ok key = true -> engine_ok r -> hash_holds (db_ r) now key h e -> h <> ∅ -> listing h l ->
  matchable pattern l -> 0 < count -> (length (content (db_ r) kHashesDataCF) < fuel)%nat ->
  exists r', scan_all (S (size h)) fuel duration now key pattern count [] [] r =
      Some (matching pattern l, r') /\ same_data r r'.
Proof.
  intros K He Hh Hne Hl Hm Hc Hfuel.
  assert (Hlen : length l = size h).
  { destruct Hl as [Hs <-]. by rewrite map_size_list_to_map by (by apply sorted_NoDup). }
  eapply (scan_all_from fuel duration now key pattern count h e _ [] l [] []); try done; [|lia].
  apply Forall_forall. intros x _. apply nothing_below_nil.
Qed.

End HashScans.

(** ** Cursors *)

Notation hash_cursor_all := (cursor_all kHashes kHashesDataCF hash_key as_FieldValue).

Section HashCursor.
Context {R : RocksDB} {L : RocksDBLaws R} {U : Uninit}.


End HashCursor.
