(* ===== verification/HashWrite.v ===== *)
(** * Writing hashes

    HSET, HSETNX, HMSET, HDEL and HINCRBY. *)

From S2P Require Import Prelude Coding Numbers Glob KeyFormat Comparator ValueFormat RocksDB LruCache Redis KeySpace BaseData BaseSpec BaseScan BaseHolds BaseWrite Hashes HashRead.
Open Scope Z_scope.

(** ** Distinct fields *)

(** The value of the first pair for a field. *)
Fixpoint first_of (f : bytes) (l : list (bytes * bytes)) : option bytes :=
  match l with
  | [] => None
  | (g, v) :: l => if decide (f = g) then Some v else first_of f l
  end.

Lemma first_of_app f l1 l2 :
  first_of f (l1 ++ l2) = match first_of f l1 with Some v => Some v | None => first_of f l2 end.
Proof. induction l1 as [|[g v] l1 IH]; simpl; [done|]. by destruct (decide (f = g)). Qed.

Lemma first_of_None f l : first_of f l = None <-> f ∉ l.*1.
Proof.
  induction l as [|[g v] l IH]; simpl; [set_solver|]. destruct (decide (f = g)); set_solver.
Qed.

Lemma lookup_put_all l : forall h f,
  put_all l h !! f = match first_of f (rev l) with Some v => Some v | None => h !! f end.
Proof.
  induction l as [|[g v] l IH]; intros h f; [done|]. simpl. rewrite IH, first_of_app. simpl.
  destruct (first_of f (rev l)); [done|]. destruct (decide (f = g)) as [->|N].
  - by rewrite lookup_insert_eq.
  - by rewrite lookup_insert_ne.
Qed.

Lemma first_of_rev f l : NoDup l.*1 -> first_of f (rev l) = first_of f l.
Proof.
  induction l as [|[g v] l IH]; [done|]. intros [Hn N]%NoDup_cons. simpl in *.
  rewrite first_of_app, IH by done. simpl. destruct (decide (f = g)) as [->|Hf].
  - by rewrite (proj2 (first_of_None g l)).
  - by destruct (first_of f l).
Qed.

Definition keep_first (l acc : list (bytes * bytes)) : list (bytes * bytes) :=
  fold_left (fun acc fv => if decide (fst fv ∈ map fst acc) then acc else acc ++ [fv]) l acc.

Lemma keep_first_spec l : forall acc,
  NoDup acc.*1 ->
  NoDup (keep_first l acc).*1 /\
  (forall f, first_of f (keep_first l acc) = first_of f (acc ++ l)) /\
  (length (keep_first l acc) <= length acc + length l)%nat.
Proof.
  induction l as [|[g v] l IH]; intros acc N; simpl.
  - rewrite app_nil_r, Nat.add_0_r. done.
  - case_decide as D; [|change (map fst acc) with acc.*1 in D].
    + destruct (IH acc N) as (H1 & H2 & H3). split_and!; [done| |lia]. intros f. rewrite H2, !first_of_app.
      destruct (first_of f acc) eqn:E; [done|]. simpl. rewrite decide_False; [done|].
      intros ->. by apply first_of_None in E.
    + destruct (IH (acc ++ [(g, v)])) as (H1 & H2 & H3).
      { rewrite fmap_app. apply NoDup_app. split_and!; [done| |apply NoDup_singleton].
        intros x Hx Hx'. simpl in Hx'. set_solver. }
      rewrite length_app in H3. simpl in H3. split_and!; [done| |lia].
      intros f. by rewrite H2, <- app_assoc.
Qed.

Lemma filtered_fvs_spec fvs :
  NoDup (filtered_fvs fvs).*1 /\ (forall h, put_all (filtered_fvs fvs) h = put_all fvs h) /\
  (length (filtered_fvs fvs) <= length fvs)%nat.
Proof.
  destruct (keep_first_spec (rev fvs) [] (NoDup_nil_2)) as (H1 & H2 & H3).
  change (keep_first (rev fvs) []) with (filtered_fvs fvs) in *. rewrite length_rev in H3.
  split_and!; [done| |done]. intros h. apply map_eq. intros f.
  by rewrite !lookup_put_all, first_of_rev, H2.
Qed.

Lemma filtered_fields_spec fields :
  NoDup (filtered_fields fields) /\ forall f, f ∈ filtered_fields fields <-> f ∈ fields.
Proof.
  destruct (keep_fields_spec fields [] (NoDup_nil_2)) as [H1 H2]. split; [done|].
  intros f. etransitivity; [apply H2|set_solver].
Qed.

Notation finish_hash := (finish_stores kHashes kHashesDataCF eq_refl).
Notation replace_hash := (replace_stores kHashes kHashesDataCF eq_refl eq_refl).
Notation add_hash := (add_stores kHashes kHashesDataCF eq_refl eq_refl).
Notation deletes_hash := (deletes_stores kHashes kHashesDataCF eq_refl).

Section HashWrite.
Context {R : RocksDB} {L : RocksDBLaws R} {U : Uninit}.

(** ** Where a write starts *)

(** The batches that put [fvs] in a hash that has none. *)
Lemma new_hash_stores now key fvs r :
  key_ok key = true -> clock_ok now -> engine_ok r -> NoDup fvs.*1 ->
  Z.of_nat (length fvs) < 2 ^ 31 -> fresh_from kHashesDataCF (db_ r) key (next_version now 0) ->
  exists r', Write (new_hash now key fvs) r = Some (Status_OK, r') /\
    hash_stores now key (put_all fvs ∅) 0 r r'.
Proof. intros. by apply create_gone. Qed.

Lemma revive_hash now key fvs p r :
  key_ok key = true -> clock_ok now -> engine_ok r -> NoDup fvs.*1 ->
  Z.of_nat (length fvs) < 2 ^ 31 -> dead_at kHashes kHashesDataCF (db_ r) now key p ->
  version_room (db_ r) key ->
  let q := ParsedBaseMetaValue_InitialMetaValue now p in
  exists r', Write (put_base_meta key (ParsedBaseMetaValue_SetCount q (Z.of_nat (length fvs))) ::
      ((fun fv => put_field now key (piv_version (pbm_base q)) (fst fv) (snd fv)) <$> fvs)) r =
      Some (Status_OK, r') /\
    hash_stores now key (put_all fvs ∅) 0 r r'.
Proof. apply revive_stores; done. Qed.

(** ** HSET and HSETNX *)

(** HSET sets the field and says whether it is new; the expiry time stays,
    and a new hash has none.  It must not be given the exact bytes stored for
    the field, suffix included, which are longer than the value by 24. *)
Theorem HSet_correct now key f v h e r :
  key_ok key = true -> clock_ok now -> engine_ok r -> hash_holds (db_ r) now key h e ->
  version_room (db_ r) key -> Z.of_nat (size h) < 2 ^ 31 - 1 ->
  (forall old, h !! f = Some old -> length v <> (length old + 24)%nat) ->
  exists r', HSet now key f v r = Some ((Status_OK, if h !! f then 0 else 1), r') /\
    hash_stores now key (<[f:=v]> h) (kept h e) r r'.
Proof.
  intros K Hnow He Hh Hroom Hn Hold. unfold HSet, kept. pose proof (proj1 He) as Hdb.
  base_cases h Hh; rewrite ?lookup_empty.
  - start_gone. apply finish_hash, (new_hash_stores now key [(f, v)]); try done. apply singleton_NoDup.
  - start_dead Hdb Hd.
    apply finish_hash, (revive_hash now key [(f, v)]); try done. apply singleton_NoDup.
  - start_live Hdb Hb. rewrite (bind_run _ _ _ _ _ (hash_Get key p m now r f Hdb Hb)).
    rewrite lookup_fmap, map_size_fmap in *. destruct (m !! f) as [w|] eqn:E; on_status; simpl fmap in *.
    + rewrite decide_False; [by apply finish_hash, replace_hash|]. intros ->.
      destruct (strip_stored v (ba_values _ _ _ _ _ _ _ Hb f v E)) as [_ Hl]. by destruct (Hold _ eq_refl).
    + rewrite checked_count. destruct (add_hash now key f v p m r) as [-> Hst]; try done. by apply finish_hash.
Qed.

(** HSETNX sets the field only when it is not there, and says whether it
    did. *)
Theorem HSetnx_correct now key f v h e r :
  key_ok key = true -> clock_ok now -> engine_ok r -> hash_holds (db_ r) now key h e ->
  version_room (db_ r) key -> Z.of_nat (size h) < 2 ^ 31 - 1 ->
  exists r', HSetnx now key f v r = Some ((Status_OK, if h !! f then 0 else 1), r') /\
    hash_stores now key (if h !! f then h else <[f:=v]> h) (kept h e) r r'.
Proof.
  intros K Hnow He Hh Hroom Hn. unfold HSetnx, kept. pose proof (proj1 He) as Hdb.
  base_cases h Hh; rewrite ?lookup_empty.
  - start_gone. destruct (new_hash_stores now key [(f, v)] r) as (r1 & HW & Hst);
      try done; [apply singleton_NoDup|]. rewrite (bind_run _ _ _ _ _ HW). by exists r1.
  - start_dead Hdb Hd. destruct (revive_hash now key [(f, v)] p r) as (r1 & HW & Hst);
      try done; [apply singleton_NoDup|]. rewrite (bind_run _ _ _ _ _ HW). by exists r1.
  - start_live Hdb Hb. rewrite (bind_run _ _ _ _ _ (hash_Get key p m now r f Hdb Hb)).
    rewrite lookup_fmap, map_size_fmap in *. destruct (m !! f) as [w|] eqn:E; on_status; simpl fmap in *.
    + destruct (base_write kHashes kHashesDataCF eq_refl now key [] None [] p m r) as (r1 & HW & Hst);
        try done; rewrite ?(ba_meta _ _ _ _ _ _ _ Hb); try done; try (by apply Hb).
      { apply be_nil. } { right. apply Hb. }
      rewrite (bind_run _ _ _ _ _ HW). by exists r1.
    + rewrite checked_count. destruct (add_hash now key f v p m r) as [-> (r1 & HW & Hst)]; try done.
      cbn [negb]. cbv iota. rewrite (bind_run _ _ _ _ _ HW). by exists r1.
Qed.

(** A hash with the largest 32-bit number of fields takes no other: HSET and
    HSETNX of a field it does not have report an error and change nothing. *)
Theorem hash_full now key f v h e r :
  engine_ok r -> hash_holds (db_ r) now key h e -> Z.of_nat (size h) = 2 ^ 31 - 1 -> h !! f = None ->
  HSet now key f v r = Some ((Status_InvalidArgument (lit "hash size overflow"), 0), r) /\
  HSetnx now key f v r = Some ((Status_InvalidArgument (lit "hash size overflow"), 0), r).
Proof.
  intros [Hdb Hok] Hh Hn Hf. unfold HSet, HSetnx. base_cases h Hh; [by rewrite map_size_empty in Hn..|].
  rewrite lookup_fmap, map_size_fmap in *. apply fmap_None in Hf.
  split; start_live Hdb Hb; rewrite (bind_run _ _ _ _ _ (hash_Get key p m now r f Hdb Hb)), Hf; on_status;
    by rewrite (full_check _ _ p m _ _ _ Hb Hn).
Qed.

(** HSET compares the value it is given with the bytes stored for the field,
    which end with a suffix of 24 bytes: given those very bytes it says OK and
    leaves the old value. *)
Theorem HSet_drops_update now key f stored h e r :
  engine_ok r -> hash_holds (db_ r) now key h e -> h <> ∅ ->
  (forall p, meta_of (db_ r) key = Some (piv_data (pbm_base p)) -> base_meta_coherent p ->
     db_lookup (db_ r) kHashesDataCF (hash_key key (piv_version (pbm_base p)) f) = Some stored) ->
  HSet now key f stored r = Some ((Status_OK, 0), r) /\ h !! f = Some (user_value stored) /\
  user_value stored <> stored.
Proof.
  intros [Hdb Hok] Hh Hne Hs.
  destruct (base_holds_live _ _ _ _ _ _ _ Hne Hh) as (p & m & Hb & <- & _).
  assert (E : m !! f = Some stored).
  { rewrite <- (ma_lookup _ _ _ _ _ (ba_members _ _ _ _ _ _ _ Hb)).
    apply Hs; [by eapply ba_meta|by eapply ba_coherent]. }
  split_and!.
  - unfold HSet. start_live Hdb Hb. rewrite (bind_run _ _ _ _ _ (hash_Get key p m now r f Hdb Hb)), E.
    on_status. by rewrite decide_True.
  - by rewrite lookup_fmap, E.
  - intros Eu. destruct (strip_stored stored (ba_values _ _ _ _ _ _ _ Hb f stored E)) as [_ Hl].
    rewrite Eu in Hl. lia.
Qed.

End HashWrite.

(** ** HMSET, HDEL and HINCRBY *)

Section HashUpdate.
Context {R : RocksDB} {L : RocksDBLaws R} {U : Uninit}.

(** ** HMSET *)

Lemma HMSet_loop_live now key p m r (fvs : list (bytes * bytes)) : forall batch count statistic,
  healthy (db_ r) -> hash_at (db_ r) now key p m -> 0 <= count ->
  count + Z.of_nat (length fvs) < 2 ^ 31 ->
  exists statistic', HMSet_loop now key (piv_version (pbm_base p)) fvs batch count statistic r =
    Some (inr (batch ++ put_members kHashesDataCF now key (piv_version (pbm_base p)) fvs,
               count + Z.of_nat (new_fields fvs m), statistic'), r).
Proof.
  induction fvs as [|[f v] fvs IH]; intros batch count statistic Hdb Hb H0 Hn.
  - exists statistic. simpl. by rewrite app_nil_r, Z.add_0_r.
  - cbn [HMSet_loop]. rewrite (bind_run _ _ _ _ _ (hash_Get key p m now r f Hdb Hb)).
    simpl new_fields. unfold put_members. rewrite fmap_cons. simpl length in Hn.
    destruct (m !! f) as [w|]; on_status.
    + destruct (IH (batch ++ [put_field now key (piv_version (pbm_base p)) f v]) count (u32 (statistic + 1)))
        as (st & ->); [done..|lia|]. exists st. by rewrite <- app_assoc.
    + assert (E : i32 (count + 1) = count + 1) by (unfold i32; rewrite Z.mod_small; lia). rewrite E.
      destruct (IH (batch ++ [put_field now key (piv_version (pbm_base p)) f v]) (count + 1) statistic)
        as (st & ->); [done..|lia|lia|]. exists st. rewrite <- app_assoc.
      by replace (count + Z.of_nat (1 + new_fields fvs m)) with (count + 1 + Z.of_nat (new_fields fvs m)) by lia.
Qed.

(** C27: HMSET sets every field; of several values for a field the last counts.
    The expiry time of the hash stays. *)
Theorem HMSet_correct now key (fvs : list (bytes * bytes)) h e r :
  key_ok key = true -> clock_ok now -> engine_ok r -> hash_holds (db_ r) now key h e ->
  version_room (db_ r) key -> Z.of_nat (size h) + Z.of_nat (length fvs) < 2 ^ 31 ->
  exists r', HMSet now key fvs r = Some (Status_OK, r') /\
    hash_stores now key (put_all fvs h) (kept h e) r r'.
Proof.
  intros K Hnow He Hh Hroom Hn. unfold HMSet, kept. pose proof (proj1 He) as Hdb. cbv zeta.
  destruct (filtered_fvs_spec fvs) as (N & Hput & Hlen). rewrite <- Hput.
  set (l := filtered_fvs fvs) in *. clearbody l. unfold FieldValue in *. base_cases h Hh.
  - start_gone. destruct (new_hash_stores now key l r) as (r1 & HW & Hst); try done; [lia|].
    rewrite (bind_run _ _ _ _ _ HW). by apply then_statistics.
  - start_dead Hdb Hd.
    assert (E : i32 (Z.of_nat (length l)) = Z.of_nat (length l)) by (unfold i32; rewrite Z.mod_small; lia).
    rewrite E. unfold ParsedBaseMetaValue_check_set_count, INT32_MAX.
    rewrite (proj2 (Z.ltb_ge _ _)) by lia. cbn [negb]. cbv iota.
    destruct (revive_hash now key l p r) as (r1 & HW & Hst); try done; [lia|].
    rewrite (bind_run _ _ _ _ _ HW). by apply then_statistics.
  - start_live Hdb Hb. rewrite map_size_fmap in Hn. pose proof (base_at_bound _ _ _ _ _ _ _ Hb).
    destruct (HMSet_loop_live now key p m r l [] 0 0 Hdb Hb) as (st & HL); [lia|lia|].
    rewrite (bind_run _ _ _ _ _ HL). simpl app. rewrite Z.add_0_l.
    assert (Hnew : (new_fields l m <= length l)%nat).
    { clear. induction l as [|fv l IH]; simpl; [lia|]. destruct (m !! fst fv); lia. }
    rewrite checked_count. unfold ParsedBaseMetaValue_CheckModifyCount, INT32_MAX. rewrite (ba_count _ _ _ _ _ _ _ Hb).
    rewrite (proj2 (Z.ltb_ge _ _)), (proj2 (Z.ltb_ge _ _)) by lia. cbn [negb orb]. cbv iota.
    destruct (put_live kHashes kHashesDataCF eq_refl eq_refl now key l p m
      (put_members kHashesDataCF now key (piv_version (pbm_base p)) l ++
       [put_base_meta key (counted p (Z.of_nat (new_fields l m)))]) r)
      as (r1 & HW & Hst); try done; [lia|by apply effects_then_meta_put, effects_puts_list|].
    rewrite (bind_run _ _ _ _ _ HW). by apply then_statistics.
Qed.

(** ** HDEL *)

Lemma HDel_loop_live now key p m r fields : forall batch n,
  healthy (db_ r) -> hash_at (db_ r) now key p m -> 0 <= n ->
  n + Z.of_nat (length (present m fields)) < 2 ^ 31 ->
  HDel_loop key (piv_version (pbm_base p)) fields batch n r =
  Some (inr (batch ++ ((fun f => Delete kHashesDataCF (hash_key key (piv_version (pbm_base p)) f)) <$>
                       present m fields),
             n + Z.of_nat (length (present m fields))), r).
Proof.
  induction fields as [|f fields IH]; intros batch n Hdb Hb H0 Hn.
  - simpl. by rewrite app_nil_r, Z.add_0_r.
  - cbn [HDel_loop]. rewrite (bind_run _ _ _ _ _ (hash_Get key p m now r f Hdb Hb)).
    unfold present in *. rewrite filter_cons in *. destruct (m !! f) as [w|]; on_status.
    + rewrite decide_True in * by (by exists w). simpl length in *.
      assert (E : i32 (n + 1) = n + 1) by (unfold i32; rewrite Z.mod_small; lia). rewrite E.
      rewrite IH by (done || lia). rewrite <- app_assoc. simpl.
      do 3 f_equal. rewrite Nat2Z.inj_succ. f_equal. lia.
    + rewrite decide_False in * by (by intros [? ?]). by apply IH.
Qed.

(** HDEL removes the fields it is given, however often each is named, and
    returns how many there were.  A hash without fields is no hash. *)
Theorem HDel_correct now key fields h e r :
  key_ok key = true -> engine_ok r -> hash_holds (db_ r) now key h e ->
  let h' := remove_all fields h in
  exists r', HDel now key fields r =
      Some ((Status_OK, Z.of_nat (size h) - Z.of_nat (size h')), r') /\
    hash_stores now key h' e r r'.
Proof.
  intros K He Hh h'. unfold HDel. pose proof (proj1 He) as Hdb. pose proof Hh as Hh0.
  base_cases h Hh.
  - start_gone. exists r. subst h'. unfold remove_all. rewrite map_filter_empty.
    split; [done|by apply base_stores_refl].
  - start_dead Hdb Hd. exists r. subst h'. unfold remove_all. rewrite map_filter_empty.
    split; [done|by apply base_stores_refl].
  - start_live Hdb Hb. destruct (filtered_fields_spec fields) as [N Hin].
    assert (Eh : h' = user_value <$> apply_ops ((fun f => (f, None)) <$> present m (filtered_fields fields)) m).
    { rewrite remove_deletes. subst h'. apply map_filter_ext. intros f v _. simpl. by rewrite Hin. }
    clearbody h'. subst h'. set (l := present m (filtered_fields fields)).
    assert (Hsize : (size (apply_ops ((fun f => (f, None)) <$> l) m) + length l = size m)%nat).
    { apply size_deletes; [by apply NoDup_filter|]. intros f Hf. by apply list_elem_of_filter in Hf as [Hf _]. }
    pose proof (base_at_bound _ _ _ _ _ _ _ Hb) as Hsz.
    rewrite (bind_run _ _ _ _ _ (HDel_loop_live now key p m r (filtered_fields fields) [] 0 Hdb Hb ltac:(lia) ltac:(fold l; lia))).
    fold l. simpl app. rewrite Z.add_0_l.
    rewrite checked_count. unfold ParsedBaseMetaValue_CheckModifyCount, INT32_MAX. rewrite (ba_count _ _ _ _ _ _ _ Hb).
    rewrite (proj2 (Z.ltb_ge _ _)), (proj2 (Z.ltb_ge _ _)) by lia. cbn [negb orb]. cbv iota.
    rewrite !map_size_fmap.
    replace (Z.of_nat (size m) - _) with (Z.of_nat (length l)) by lia.
    apply finish_hash. by apply deletes_hash.
Qed.

(** ** HINCRBY *)

(** What HINCRBY answers and leaves: the sum of the number stored (0 without
    one) and the increment, or an error. *)
Definition incremented (h : gmap bytes bytes) (f : bytes) (value : Z) : Status + Z :=
  match h !! f with
  | None => inr value
  | Some old =>
      match string2int old with
      | None => inl (Status_Corruption (lit "hash value is not an integer"))
      | Some n => if bool_decide (is_i64 (n + value)) then inr (n + value)
                  else inl (Status_InvalidArgument (lit "Overflow"))
      end
  end.

(** HINCRBY on a dead key rewrites the meta value in another order. *)
Lemma incr_dead now key f v p r :
  key_ok key = true -> clock_ok now -> engine_ok r ->
  dead_at kHashes kHashesDataCF (db_ r) now key p -> version_room (db_ r) key ->
  let p1 := ParsedBaseMetaValue_UpdateVersion now p in
  let q := ParsedBaseMetaValue_SetEtime (ParsedBaseMetaValue_SetCount p1 1) 0 in
  exists r', Write [put_base_meta key q; put_field now key (piv_version (pbm_base p1)) f v] r =
      Some (Status_OK, r') /\
    hash_stores now key {[f := v]} 0 r r'.
Proof.
  intros K Hnow He Hd Hroom p1 q. pose proof (da_coherent _ _ _ _ _ _ Hd) as Hc.
  assert (is_u64 now) by by apply clock_u64.
  assert (Hq : base_meta_coherent q).
  { unfold q, p1, ParsedBaseMetaValue_UpdateVersion.
    apply base_SetEtime_coherent; [lia|]. apply base_SetCount_coherent; [unfold is_i32; lia|].
    apply base_SetVersion_coherent; [by apply next_version_u64|done]. }
  apply (create_dead kHashes kHashesDataCF eq_refl eq_refl now key [(f, v)] p q r
    K Hnow He (singleton_NoDup f v) Hd Hroom Hq eq_refl eq_refl eq_refl eq_refl).
Qed.

(** HINCRBY adds the increment to the number a field holds, a field that is
    not there counting as 0, stores the sum in decimal and returns it.  A value
    that is not a number, or a sum that does not fit 64 bits, is an error and
    changes nothing. *)
Theorem HIncrby_correct now key f value h e r :
  key_ok key = true -> clock_ok now -> engine_ok r -> hash_holds (db_ r) now key h e ->
  version_room (db_ r) key -> Z.of_nat (size h) < 2 ^ 31 - 1 -> is_i64 value ->
  match incremented h f value with
  | inl st => HIncrby now key f value r = Some ((st, 0), r)
  | inr n => exists r', HIncrby now key f value r = Some ((Status_OK, n), r') /\
      hash_stores now key (<[f:=decimal n]> h) (kept h e) r r'
  end.
Proof.
  intros K Hnow He Hh Hroom Hn Hv. unfold HIncrby, kept, incremented. pose proof (proj1 He) as Hdb.
  pose proof (Int64ToStr32_decimal value Hv) as Ev.
  base_cases h Hh; rewrite ?lookup_empty.
  - start_gone. rewrite (bind_lift _ _ _ _ Ev).
    apply finish_hash, (new_hash_stores now key [(f, decimal value)]); try done. apply singleton_NoDup.
  - start_dead Hdb Hd. cbv zeta. rewrite (bind_lift _ _ _ _ Ev). by apply finish_hash, incr_dead.
  - start_live Hdb Hb. rewrite (bind_run _ _ _ _ _ (hash_Get key p m now r f Hdb Hb)).
    rewrite lookup_fmap, map_size_fmap in *. destruct (m !! f) as [w|] eqn:E; on_status; simpl fmap in *.
    + destruct (strip_stored w (ba_values _ _ _ _ _ _ _ Hb f w E)) as [Hs _].
      rewrite (bind_lift _ _ _ _ Hs). destruct (string2int (user_value w)) as [n|] eqn:En; [|done].
      rewrite overflow_add by (done || by eapply string2int_range).
      destruct (bool_decide (is_i64 (n + value))) eqn:Ei; [|done]. apply bool_decide_eq_true in Ei.
      cbn [negb]. cbv iota. rewrite (bind_lift _ _ _ _ (Int64ToStr32_decimal _ Ei)).
      by apply finish_hash, replace_hash.
    + rewrite (bind_lift _ _ _ _ Ev), checked_count. destruct (add_hash now key f (decimal value) p m r) as [-> Hst];
        try done. by apply finish_hash.
Qed.

End HashUpdate.

(** ** Keys of other types, failed reads

    A live value of another type is reported and left alone.  HMSET has no
    branch for a read that fails. *)

Section HashType.
Context {R : RocksDB} {L : RocksDBLaws R} {U : Uninit}.

Lemma GetBase_other type now key st r :
  healthy (db_ r) -> other_type type (db_ r) now key st -> GetBase now type key r = Some (inl st, r).
Proof. intros Hdb Ho. unfold GetBase. by rewrite (bind_GetMeta_other type now key st r _ Hdb Ho). Qed.

(** Every hash command answers a live key of another type with the same status
    and leaves the engine as it was; only HSCAN of a negative cursor does not
    look. *)
Theorem hash_wrong_type now key st r :
  healthy (db_ r) -> other_type kHashes (db_ r) now key st ->
  (forall f v, HSet now key f v r = Some ((st, 0), r) /\ HSetnx now key f v r = Some ((st, 0), r) /\
     HGet now key f r = Some ((st, []), r) /\ HExists now key f r = Some (st, r)) /\
  (forall fields, HDel now key fields r = Some ((st, 0), r) /\
     HMGet now key fields r = Some ((st, []), r)) /\
  (forall fvs, HMSet now key fvs r = Some (st, r)) /\
  (forall f value, HIncrby now key f value r = Some ((st, 0), r)) /\
  (forall fuel duration,
     HGetall fuel duration now key r = Some ((st, []), r) /\
     HKeys fuel duration now key r = Some ((st, []), r) /\
     HVals fuel duration now key r = Some ((st, []), r) /\
     HGetallWithTTL fuel duration now key r = Some ((st, [], 0), r) /\
     (forall cursor pattern count, 0 <= cursor ->
        HScan fuel duration now key cursor pattern count r = Some ((st, [], 0), r)) /\
     (forall start pattern count,
        HScanx fuel duration now key start pattern count r = Some ((st, [], []), r))) /\
  HLen now key [] r = Some ((st, 0), r) /\ HashesDel now key [] r = Some (st, r) /\
  (forall ttl, HashesExpire now key ttl [] r = Some (st, r)) /\
  (forall t, HashesExpireat now key t [] r = Some (st, r)) /\
  HashesPersist now key [] r = Some (st, r) /\ HashesTTL now key [] r = Some ((st, 0), r).
Proof.
  intros Hdb Ho. split_and!; intros; split_and?; intros;
    unfold HSet, HSetnx, HExists, HGet, HDel, HMGet, HMSet, HIncrby, HGetall, HKeys, HVals, list_hash,
      HGetallWithTTL, HScan, BaseScan, HScanx, HLen, BaseCard, HashesDel, BaseDel, HashesExpire, BaseExpire,
      HashesExpireat, BaseExpireat, HashesPersist, BasePersist, HashesTTL, BaseTTL,
      GetBaseOrPrefetched, GetBaseMeta, GetMetaOrPrefetched;
    rewrite ?(proj2 (Z.ltb_ge _ 0)) by done;
    try (by rewrite (bind_GetMeta_other kHashes now key st r _ Hdb Ho));
    try (by rewrite (bind_run _ _ _ _ _ (GetBase_other kHashes now key st r Hdb Ho)));
    unfold bind; rewrite ?(GetBase_other kHashes now key st r Hdb Ho),
      ?(GetMeta_other kHashes now key st r Hdb Ho); done.
Qed.

End HashType.

(** When reading the meta value fails, HMSET writes an empty batch and answers
    with the status of that: OK, with no field set. *)
Theorem HMSet_swallows_read_error `{R : RocksDB} `{U : Uninit} now key fvs s v db' r :
  db_Get (db_ r) kMetaCF (BaseKey_Encode key) = (s, v) -> ok s = false -> IsNotFound s = false ->
  db_Write (db_ r) [] = (Status_OK, db') ->
  HMSet now key fvs r = Some (Status_OK, with_db r db').
Proof.
  intros Hg Hs Hn Hw.
  assert (E : GetMeta now kHashes key key r = Some (inr (s, v), r)).
  { unfold GetMeta, GetMetaOr. by rewrite Hg, Hs. }
  unfold HMSet. cbv zeta. rewrite (bind_run _ _ _ _ _ E), Hs, Hn.
  assert (EW : Write [] r = Some (Status_OK, with_db r db')) by (unfold Write; by rewrite Hw).
  rewrite (bind_run _ _ _ _ _ EW). unfold UpdateSpecificKeyStatistics, bind.
  change (negb (0 =? 0)) with false. by rewrite andb_false_r.
Qed.
