(* ===== verification/HashWitness.v ===== *)
(** * The hash theorems at work

    Each theorem about hashes applied to a concrete engine, key and arguments. *)

From Stdlib Require Import Sorting.Sorted.
From S2P Require Import Prelude Coding Numbers Glob KeyFormat Comparator ValueFormat RocksDB LruCache Redis KeySpace Sample Strings BaseData BaseSpec BaseScan BaseHolds BaseWrite BaseCursor Hashes HashRead HashWrite.
Open Scope Z_scope.

(** The hash [h] under [q_key]. *)
Definition sample_fields : list (bytes * bytes) := [(lit "a", lit "1"); (lit "b", lit "x"); (lit "c", lit "3")].
Notation abc_hash := (list_to_map sample_fields : gmap bytes bytes).

Definition hash_engine : Redis := after (Write (new_hash 1000 q_key sample_fields)) fresh_engine.

Lemma empty_fresh cf key v : base_cf cf = true -> fresh_from cf (db_ fresh_engine) key v.
Proof.
  intros Hcf v' _ _. constructor.
  - intros f. by destruct cf.
  - intros k w Hin. exfalso. revert Hin. destruct cf; apply not_elem_of_nil.
Qed.

Lemma hash_engine_stores : hash_stores 1000 q_key abc_hash 0 fresh_engine hash_engine.
Proof.
  destruct (new_hash_stores 1000 q_key sample_fields fresh_engine eq_refl clock_1000 fresh_engine_ok)
    as (r' & HW & Hst); [apply (bool_decide_unpack _); vm_compute; exact I|simpl; lia|by apply empty_fresh|].
  unfold hash_engine, after. rewrite HW. exact Hst.
Qed.

Lemma hash_engine_ok : engine_ok hash_engine.
Proof. apply hash_engine_stores. Qed.
Lemma hash_engine_holds : hash_holds (db_ hash_engine) 1000 q_key abc_hash 0.
Proof. apply hash_engine_stores. Qed.

(** The version of its meta value. *)
Lemma hash_engine_room : version_room (db_ hash_engine) q_key.
Proof.
  intros p Hm (_ & _ & Hp).
  assert (E : ParsedBaseMetaValue_parse true (default [] (meta_of (db_ hash_engine) q_key)) = Some p)
    by (rewrite Hm; exact Hp).
  assert (E' : (fun q => piv_version (pbm_base q)) <$>
    ParsedBaseMetaValue_parse true (default [] (meta_of (db_ hash_engine) q_key)) = Some 1000)
    by (vm_compute; reflexivity).
  rewrite E in E'. simpl in E'. injection E' as ->. lia.
Qed.

Lemma abc_nonempty : abc_hash <> ∅.
Proof. intros E. assert (X : abc_hash !! lit "a" = None) by (rewrite E; apply lookup_empty). by vm_compute in X. Qed.

Lemma abc_listing : listing abc_hash sample_fields.
Proof. split; [|done]. repeat constructor. Qed.

Lemma hash_engine_fuel : (length (content (db_ hash_engine) kHashesDataCF) < 10)%nat.
Proof. vm_compute. lia. Qed.

Lemma hash_reads_correct_witness : exists st,
  HGet 1000 q_key (lit "b") hash_engine = Some ((st, lit "x"), hash_engine) /\ status_code st = kOk.
Proof.
  exact (proj1 (proj1 (hash_reads_correct 1000 q_key abc_hash 0 hash_engine eq_refl (proj1 hash_engine_ok)
    hash_engine_holds) (lit "b"))).
Defined.

Lemma hash_listing_correct_witness : exists l, listing abc_hash l /\
  exists r', HGetall 10 7 1000 q_key hash_engine = Some ((Status_OK, l), r') /\ same_data hash_engine r'.
Proof.
  destruct (hash_listing_correct 10 7 1000 q_key abc_hash 0 hash_engine eq_refl clock_1000 hash_engine_ok
    hash_engine_holds abc_nonempty ltac:(unfold is_i64; lia) hash_engine_fuel) as (l & Hl & H & _).
  exists l. split; [exact Hl|exact H].
Defined.

Lemma HSet_correct_witness : exists r',
  HSet 1000 q_key (lit "d") (lit "4") hash_engine = Some ((Status_OK, 1), r') /\
  hash_stores 1000 q_key (<[lit "d":=lit "4"]> abc_hash) 0 hash_engine r'.
Proof.
  exact (HSet_correct 1000 q_key (lit "d") (lit "4") abc_hash 0 hash_engine eq_refl clock_1000
    hash_engine_ok hash_engine_holds hash_engine_room ltac:(vm_compute; reflexivity) ltac:(done)).
Defined.

Lemma HSetnx_correct_witness : exists r',
  HSetnx 1000 q_key (lit "a") (lit "4") hash_engine = Some ((Status_OK, 0), r') /\
  hash_stores 1000 q_key abc_hash 0 hash_engine r'.
Proof.
  exact (HSetnx_correct 1000 q_key (lit "a") (lit "4") abc_hash 0 hash_engine eq_refl clock_1000
    hash_engine_ok hash_engine_holds hash_engine_room ltac:(vm_compute; reflexivity)).
Defined.

Lemma HMSet_correct_witness : exists r',
  HMSet 1000 q_key [(lit "a", lit "7"); (lit "a", lit "8")] hash_engine = Some (Status_OK, r') /\
  hash_stores 1000 q_key (<[lit "a":=lit "8"]> (<[lit "a":=lit "7"]> abc_hash)) 0 hash_engine r'.
Proof.
  exact (HMSet_correct 1000 q_key [(lit "a", lit "7"); (lit "a", lit "8")] abc_hash 0 hash_engine eq_refl
    clock_1000 hash_engine_ok hash_engine_holds hash_engine_room ltac:(vm_compute; reflexivity)).
Defined.

Lemma HDel_correct_witness : exists r',
  HDel 1000 q_key [lit "a"; lit "z"; lit "a"] hash_engine = Some ((Status_OK, 1), r') /\
  hash_stores 1000 q_key (remove_all [lit "a"; lit "z"; lit "a"] abc_hash) 0 hash_engine r'.
Proof.
  exact (HDel_correct 1000 q_key [lit "a"; lit "z"; lit "a"] abc_hash 0 hash_engine eq_refl
    hash_engine_ok hash_engine_holds).
Defined.

Lemma HIncrby_correct_witness : exists r',
  HIncrby 1000 q_key (lit "c") 39 hash_engine = Some ((Status_OK, 42), r') /\
  hash_stores 1000 q_key (<[lit "c":=lit "42"]> abc_hash) 0 hash_engine r'.
Proof.
  exact (HIncrby_correct 1000 q_key (lit "c") 39 abc_hash 0 hash_engine eq_refl clock_1000
    hash_engine_ok hash_engine_holds hash_engine_room ltac:(vm_compute; reflexivity)
    ltac:(unfold is_i64; lia)).
Defined.

Lemma base_expiry_correct_witness : exists r',
  HashesExpire 1000 q_key 500 [] hash_engine = Some (Status_OK, r') /\
  hash_stores 1000 q_key abc_hash 1500 hash_engine r'.
Proof.
  exact (proj1 (proj2 (base_expiry_correct kHashes kHashesDataCF eq_refl eq_refl 1000 q_key [] false abc_hash 0
    hash_engine eq_refl clock_1000 hash_engine_ok hash_engine_holds abc_nonempty (or_introl eq_refl)
    ltac:(unfold is_i64; lia) hash_engine_room)) 500 ltac:(lia) ltac:(lia)).
Defined.

Lemma abc_matchable : matchable (lit "[ac]") sample_fields.
Proof. repeat (constructor; [by eexists; vm_compute|]). constructor. Qed.

Lemma HScanx_complete_witness : exists r',
  scan_all 4 10 7 1000 q_key (lit "[ac]") 2 [] [] hash_engine =
    Some ([(lit "a", lit "1"); (lit "c", lit "3")], r') /\ same_data hash_engine r'.
Proof.
  exact (HScanx_complete 10 7 1000 q_key (lit "[ac]") 2 abc_hash 0 sample_fields hash_engine eq_refl
    hash_engine_ok hash_engine_holds abc_nonempty abc_listing abc_matchable ltac:(lia) hash_engine_fuel).
Defined.





Lemma hash_wrong_type_witness :
  HSet 1000 q_key (lit "a") (lit "1") (string_engine (lit "v") 0) =
  Some ((default Status_OK (WrongType q_key kHashes
           (StringsValue_Encode (InternalValue_SetEtime (InternalValue_new 1000 kStrings (lit "v")) 0))), 0),
        string_engine (lit "v") 0).
Proof.
  refine (proj1 (proj1 (hash_wrong_type 1000 q_key _ (string_engine (lit "v") 0) _ _) (lit "a") (lit "1"))).
  - apply meta_engine_ok.
  - eexists. split; [apply meta_engine_meta|]. split; [discriminate|]. split; vm_compute; reflexivity.
Defined.

Lemma HSet_drops_update_witness :
  HSet 1000 q_key (lit "a") (base_value 1000 (lit "1")) hash_engine = Some ((Status_OK, 0), hash_engine).
Proof.
  refine (proj1 (HSet_drops_update 1000 q_key (lit "a") (base_value 1000 (lit "1")) abc_hash 0 hash_engine
    hash_engine_ok hash_engine_holds abc_nonempty _)).
  intros p Hm (_ & _ & Hp).
  assert (E : (fun q => db_lookup (db_ hash_engine) kHashesDataCF
      (hash_key q_key (piv_version (pbm_base q)) (lit "a"))) <$>
    ParsedBaseMetaValue_parse true (default [] (meta_of (db_ hash_engine) q_key)) =
    Some (Some (base_value 1000 (lit "1")))) by (vm_compute; reflexivity).
  rewrite Hm in E. cbn [default] in E. unfold default, id in E. rewrite Hp in E. by injection E.
Defined.

(** A store whose reads fail. *)
Definition corrupt_db : RocksDB := {|
  DB := unit;
  Iterator := unit;
  db_Get _ _ _ := (Status_Corruption (lit "block checksum mismatch"), []);
  db_Write db _ := (Status_OK, db);
  NewIterator _ _ := tt;
  Seek it _ := it;
  SeekForPrev it _ := it;
  SeekToFirst it := it;
  Next it := it;
  Prev it := it;
  Valid _ := false;
  iter_key _ := [];
  iter_value _ := [];
  Status_ToString := status_msg
|}.
Definition corrupt_engine : @Redis corrupt_db :=
  @mkRedis corrupt_db tt LRUCache_new LRUCache_new 5000 10000 [].

Lemma HMSet_swallows_read_error_witness :
  @HMSet corrupt_db uninit_cc 1000 q_key [(lit "a", lit "1")] corrupt_engine =
  Some (Status_OK, corrupt_engine).
Proof.
  exact (@HMSet_swallows_read_error corrupt_db uninit_cc 1000 q_key [(lit "a", lit "1")]
    (Status_Corruption (lit "block checksum mismatch")) [] tt corrupt_engine eq_refl eq_refl eq_refl eq_refl).
Defined.

(** The version of a hash is lost with its meta value.  A hash that SET
    replaces, DEL removes and HSET starts again within one millisecond gets
    the version it had: the field set first is back, although the new hash
    counts one field. *)
Theorem hash_resurrected :
  let r1 := after (HSet 1000 q_key (lit "old") (lit "1")) fresh_engine in
  let r2 := after (Set_ 1000 q_key (lit "string")) r1 in
  let r3 := after (StringsDel 1000 q_key []) r2 in
  let r4 := after (HSet 1000 q_key (lit "new") (lit "2")) r3 in
  meta_of (db_ r3) q_key = None /\
  fst <$> HGet 1000 q_key (lit "old") r4 = Some (Status_OK, lit "1") /\
  fst <$> HLen 1000 q_key [] r4 = Some (Status_OK, 1).
Proof. vm_compute. done. Qed.
