(* ===== verification/Sets.v ===== *)
(** * Set commands ([src/src/storage/src/redis_sets.cc])

    One definition per command of [Redis] on sets.  A set is a base meta value
    in [kMetaCF] and one entry per member, with an empty value, in
    [kSetsDataCF].

    [fuel] bounds the rounds of a loop, [duration] is the time a guard measures
    and the seeds of the random engine are arguments.  An out parameter a
    command does not assign is returned as its initial value, empty or 0. *)

From stdpp Require Import sorting.
From S2P Require Import Prelude Coding Numbers Glob KeyFormat Comparator ValueFormat RocksDB LruCache Redis Random BaseData.
Open Scope Z_scope.

(** [struct KeyVersion] *)
Definition KeyVersion : Type := bytes * Z.

(** Distinct members, first occurrences ([SAdd]). *)
Definition filtered_members (members : list bytes) : list bytes :=
  fold_left (fun acc member => if decide (member ∈ acc) then acc else acc ++ [member]) members [].

Section Sets.
Context {R : RocksDB} {U : Uninit}.

Definition member_key (key : bytes) (version : Z) (member : bytes) : bytes :=
  BaseDataKey_Encode key version member.
Definition put_member (now : Z) (key : bytes) (version : Z) (member : bytes) : WriteOp :=
  Put kSetsDataCF (member_key key version member) (base_value now []).

Definition ScanSetsKeyNum : nat -> Z -> M (Status * KeyInfo) := ScanBaseKeyNum kSets.

(** ** Adding *)

(** The writes that create a set on an absent key. *)
Definition new_set (now : Z) (key : bytes) (members : list bytes) : list WriteOp :=
  let m := new_base_meta now kSets (Z.of_nat (length members)) in
  Put kMetaCF (BaseKey_Encode key) (BaseMetaValue_Encode m) ::
  (put_member now key (iv_version m) <$> members).

(** The members of [SAdd] in turn: the writes, and how many members are new. *)
Fixpoint SAdd_loop (now : Z) (key : bytes) (version : Z) (members : list bytes)
    (batch : list WriteOp) (cnt : Z) : M (Status + list WriteOp * Z) :=
  match members with
  | [] => ret (inr (batch, cnt))
  | member :: members =>
      let* '(s, _) := Get kSetsDataCF (member_key key version member) in
      if ok s then SAdd_loop now key version members batch cnt
      else if IsNotFound s then
        SAdd_loop now key version members (batch ++ [put_member now key version member])
          (i32 (cnt + 1))
      else ret (inl s)
  end.

Definition SAdd (now : Z) (key : bytes) (members : list bytes) : M (Status * Z) :=
  let members := filtered_members members in
  let n := i32 (Z.of_nat (length members)) in
  let* m := GetMeta now kSets key key in
  match m with
  | inl st => ret (st, 0)
  | inr (s, meta_value) =>
      if ok s then
        let* p := lift (ParsedBaseMetaValue_parse true meta_value) in
        if base_dead now p then
          let p := ParsedBaseMetaValue_InitialMetaValue now p in
          let version := piv_version (pbm_base p) in
          if negb (ParsedBaseMetaValue_check_set_count n) then
            ret (Status_InvalidArgument (lit "set size overflow"), 0)
          else
            let p := ParsedBaseMetaValue_SetCount p n in
            let* s := Write (put_base_meta key p :: (put_member now key version <$> members)) in
            ret (s, n)
        else
          let* l := SAdd_loop now key (piv_version (pbm_base p)) members [] 0 in
          match l with
          | inl st => ret (st, 0)
          | inr (batch, cnt) =>
              if cnt =? 0 then ret (Status_OK, cnt)
              else if negb (ParsedBaseMetaValue_CheckModifyCount p cnt) then
                ret (Status_InvalidArgument (lit "set size overflow"), cnt)
              else
                let* p := lift (ParsedBaseMetaValue_ModifyCount p cnt) in
                let* s := Write (batch ++ [put_base_meta key p]) in
                ret (s, cnt)
          end
      else if IsNotFound s then
        let* s := Write (new_set now key members) in
        ret (s, n)
      else ret (s, 0)
  end.

(** ** Reading *)

(** Names a key without members in words of its own. *)
Definition SCard (now : Z) (key meta : bytes) : M (Status * Z) :=
  let* m := GetMetaOrPrefetched now kSets key meta in
  match m with
  | inl st => ret (st, 0)
  | inr (s, meta_value) =>
      if ok s then
        let* p := lift (ParsedBaseMetaValue_parse true meta_value) in
        if IsStale now (pbm_base p) then ret (Status_NotFound (lit "Stale"), 0)
        else if pbm_count p =? 0 then ret (Status_NotFound (lit "Deleted"), 0)
        else ret (s, pbm_count p)
      else ret (s, 0)
  end.

Definition SIsmember (now : Z) (key member : bytes) : M (Status * Z) :=
  let* m := GetBase now kSets key in
  match m with
  | inl st => ret (st, 0)
  | inr p =>
      let* '(s, _) := Get kSetsDataCF (member_key key (piv_version (pbm_base p)) member) in
      ret (s, if ok s then 1 else 0)
  end.

Definition SMembers (fuel : nat) (duration now : Z) (key : bytes) : M (Status * list bytes) :=
  let* m := GetBase now kSets key in
  match m with
  | inl st => ret (st, [])
  | inr p =>
      let* db := gets db_ in
      let* l := lift (list_entries kSetsDataCF fuel member_only key (piv_version (pbm_base p)) db) in
      let* _ := UpdateSpecificKeyDuration kSets key duration in
      ret (Status_OK, l)
  end.

Definition SMembersWithTTL (fuel : nat) (duration now : Z) (key : bytes)
    : M (Status * list bytes * Z) :=
  let* m := GetMeta now kSets key key in
  match m with
  | inl st => ret (st, [], 0)
  | inr (s, meta_value) =>
      if ok s then
        let* p := lift (ParsedBaseMetaValue_parse true meta_value) in
        if pbm_count p =? 0 then ret (Status_NotFound [], [], 0)
        else if IsStale now (pbm_base p) then ret (Status_NotFound (lit "Stale"), [], 0)
        else
          let ttl_millsec := ttl_of now (piv_etime (pbm_base p)) in
          let* db := gets db_ in
          let* l := lift (list_entries kSetsDataCF fuel member_only key (piv_version (pbm_base p)) db) in
          let* _ := UpdateSpecificKeyDuration kSets key duration in
          ret (s, l, ttl_millsec)
      else ret (s, [], 0)
  end.

(** ** Difference, intersection, union *)

(** The keys of [SDiff] and [SUnion] that hold a set, with their versions. *)
Fixpoint vaild_sets (now : Z) (keys : list bytes) (acc : list KeyVersion)
    : M (Status + list KeyVersion) :=
  match keys with
  | [] => ret (inr acc)
  | key :: keys =>
      let* m := GetMeta now kSets key key in
      match m with
      | inl st => ret (inl st)
      | inr (s, meta_value) =>
          if ok s then
            let* p := lift (ParsedBaseMetaValue_parse true meta_value) in
            if base_dead now p then vaild_sets now keys acc
            else vaild_sets now keys (acc ++ [(key, piv_version (pbm_base p))])
          else if IsNotFound s then vaild_sets now keys acc
          else ret (inl s)
      end
  end.

(** The keys of [SInter]: [None] at the first that holds no set. *)
Fixpoint all_sets (now : Z) (keys : list bytes) (acc : list KeyVersion)
    : M (Status + option (list KeyVersion)) :=
  match keys with
  | [] => ret (inr (Some acc))
  | key :: keys =>
      let* m := GetMeta now kSets key key in
      match m with
      | inl st => ret (inl st)
      | inr (s, meta_value) =>
          if ok s then
            let* p := lift (ParsedBaseMetaValue_parse true meta_value) in
            if base_dead now p then ret (inr None)
            else all_sets now keys (acc ++ [(key, piv_version (pbm_base p))])
          else if IsNotFound s then ret (inr None)
          else ret (inl s)
      end
  end.

(** [found]: one of the sets has the member. *)
Fixpoint in_any (db : DB) (sets : list KeyVersion) (member : bytes) : Status + bool :=
  match sets with
  | [] => inr false
  | (key, version) :: sets =>
      let '(s, _) := db_Get db kSetsDataCF (member_key key version member) in
      if ok s then inr true
      else if IsNotFound s then in_any db sets member
      else inl s
  end.

(** [reliable]: every one of the sets has the member. *)
Fixpoint in_all (db : DB) (sets : list KeyVersion) (member : bytes) : Status + bool :=
  match sets with
  | [] => inr true
  | (key, version) :: sets =>
      let '(s, _) := db_Get db kSetsDataCF (member_key key version member) in
      if ok s then in_all db sets member
      else if IsNotFound s then inr false
      else inl s
  end.

(** The loop over the members of one set that keeps some; a failed read ends
    it with its status. *)
Definition select_members (fuel : nat) (keep : bytes -> Status + bool) (key : bytes) (version : Z)
    (db : DB) : option (Status * list bytes) :=
  let prefix := BaseDataKey_EncodeSeekKey key version [] in
  snd <$> iter_while fuel Next (fun k _ => starts_with k prefix)
    (fun k v '(_, acc) =>
       q ← ParsedBaseDataKey k;
       match keep (pdk_data q) with
       | inl s => Some (false, (s, acc))
       | inr b => Some (true, (Status_OK, if b : bool then acc ++ [pdk_data q] else acc))
       end)
    (Seek (NewIterator db kSetsDataCF) prefix) (Status_OK, []).

(** The members [SDiff] and [SDiffstore] collect: those of the first key that
    none of the others has. *)
Definition diff_members (fuel : nat) (duration now : Z) (key0 : bytes) (keys : list bytes)
    : M (Status * list bytes) :=
  let* v := vaild_sets now keys [] in
  match v with
  | inl st => ret (st, [])
  | inr sets =>
      let* m := GetMeta now kSets key0 key0 in
      match m with
      | inl st => ret (st, [])
      | inr (s, meta_value) =>
          if ok s then
            let* p := lift (ParsedBaseMetaValue_parse true meta_value) in
            if base_dead now p then ret (Status_OK, [])
            else
              let* db := gets db_ in
              let keep member := match in_any db sets member with
                                 | inl s => inl s
                                 | inr found => inr (negb found)
                                 end in
              let* l := lift (select_members fuel keep key0 (piv_version (pbm_base p)) db) in
              let* _ := UpdateSpecificKeyDuration kSets key0 duration in
              ret l
          else if IsNotFound s then ret (Status_OK, [])
          else ret (s, [])
      end
  end.

Definition SDiff (fuel : nat) (duration now : Z) (keys : list bytes) : M (Status * list bytes) :=
  match keys with
  | [] => ret (Status_Corruption (lit "SDiff invalid parameter, no keys"), [])
  | key0 :: keys => diff_members fuel duration now key0 keys
  end.

(** The members [SInter] and [SInterstore] collect: those of the first key that
    every other one has. *)
Definition inter_members (fuel : nat) (duration now : Z) (key0 : bytes) (keys : list bytes)
    : M (Status * list bytes) :=
  let* v := all_sets now keys [] in
  match v with
  | inl st => ret (st, [])
  | inr None => ret (Status_OK, [])
  | inr (Some sets) =>
      let* m := GetMeta now kSets key0 key0 in
      match m with
      | inl st => ret (st, [])
      | inr (s, meta_value) =>
          if ok s then
            let* p := lift (ParsedBaseMetaValue_parse true meta_value) in
            if base_dead now p then ret (Status_OK, [])
            else
              let* db := gets db_ in
              let* l := lift (select_members fuel (in_all db sets) key0 (piv_version (pbm_base p)) db) in
              let* _ := UpdateSpecificKeyDuration kSets key0 duration in
              ret l
          else if IsNotFound s then ret (Status_OK, [])
          else ret (s, [])
      end
  end.

Definition SInter (fuel : nat) (duration now : Z) (keys : list bytes) : M (Status * list bytes) :=
  match keys with
  | [] => ret (Status_Corruption (lit "SInter invalid parameter, no keys"), [])
  | key0 :: keys => inter_members fuel duration now key0 keys
  end.

(** One set of [SUnion]: its members that are not yet there.  A member is in
    [result_flag] when it is in [members]. *)
Definition union_set (fuel : nat) (key : bytes) (version : Z) (members : list bytes) (db : DB)
    : option (list bytes) :=
  let prefix := BaseDataKey_EncodeSeekKey key version [] in
  snd <$> iter_while fuel Next (fun k _ => starts_with k prefix)
    (fun k v acc =>
       q ← ParsedBaseDataKey k;
       Some (true, if decide (pdk_data q ∈ acc) then acc else acc ++ [pdk_data q]))
    (Seek (NewIterator db kSetsDataCF) prefix) members.

(** [duration i]: the time of the guard of the [i]th set. *)
Fixpoint union_loop (fuel : nat) (duration : nat -> Z) (i : nat) (sets : list KeyVersion)
    (members : list bytes) : M (list bytes) :=
  match sets with
  | [] => ret members
  | (key, version) :: sets =>
      let* db := gets db_ in
      let* members := lift (union_set fuel key version members db) in
      let* _ := UpdateSpecificKeyDuration kSets key (duration i) in
      union_loop fuel duration (S i) sets members
  end.

Definition union_members (fuel : nat) (duration : nat -> Z) (now : Z) (keys : list bytes)
    : M (Status * list bytes) :=
  let* v := vaild_sets now keys [] in
  match v with
  | inl st => ret (st, [])
  | inr sets => let* members := union_loop fuel duration 0 sets [] in ret (Status_OK, members)
  end.

Definition SUnion (fuel : nat) (duration : nat -> Z) (now : Z) (keys : list bytes)
    : M (Status * list bytes) :=
  match keys with
  | [] => ret (Status_Corruption (lit "SUnion invalid parameter, no keys"), [])
  | _ => union_members fuel duration now keys
  end.

(** The end of the commands that store what they collected: status,
    [value_to_dest] and [ret].  [meta_key] is the key under which the meta value
    of a destination that exists is written. *)
Definition store_members (now : Z) (destination meta_key : bytes) (members : list bytes)
    : M (Status * list bytes * Z) :=
  let n := i32 (Z.of_nat (length members)) in
  let finish batch version statistic :=
    let* s := Write (batch :: (put_member now destination version <$> members)) in
    let* _ := UpdateSpecificKeyStatistics kSets destination statistic in
    ret (s, members, n) in
  let* m := GetMeta now kSets destination destination in
  match m with
  | inl st => ret (st, [], 0)
  | inr (s, meta_value) =>
      if ok s then
        let* p := lift (ParsedBaseMetaValue_parse true meta_value) in
        let statistic := u32 (pbm_count p) in
        let p := ParsedBaseMetaValue_InitialMetaValue now p in
        let version := piv_version (pbm_base p) in
        if negb (ParsedBaseMetaValue_check_set_count n) then
          ret (Status_InvalidArgument (lit "set size overflow"), [], 0)
        else
          let p := ParsedBaseMetaValue_SetCount p n in
          finish (Put kMetaCF meta_key (piv_data (pbm_base p))) version statistic
      else if IsNotFound s then
        let m := new_base_meta now kSets (Z.of_nat (length members)) in
        finish (Put kMetaCF (BaseKey_Encode destination) (BaseMetaValue_Encode m)) (iv_version m) 0
      else ret (s, [], 0)
  end.

Definition SDiffstore (fuel : nat) (duration now : Z) (destination : bytes) (keys : list bytes)
    : M (Status * list bytes * Z) :=
  match keys with
  | [] => ret (Status_Corruption (lit "SDiffsotre invalid parameter, no keys"), [], 0)
  | key0 :: keys =>
      let* '(s, members) := diff_members fuel duration now key0 keys in
      if ok s then store_members now destination (BaseKey_Encode destination) members
      else ret (s, [], 0)
  end.

Definition SInterstore (fuel : nat) (duration now : Z) (destination : bytes) (keys : list bytes)
    : M (Status * list bytes * Z) :=
  match keys with
  | [] => ret (Status_Corruption (lit "SInterstore invalid parameter, no keys"), [], 0)
  | key0 :: keys =>
      let* '(s, members) := inter_members fuel duration now key0 keys in
      if ok s then store_members now destination (BaseKey_Encode destination) members
      else ret (s, [], 0)
  end.

(** The meta value of a destination that exists goes under the plain key. *)
Definition SUnionstore (fuel : nat) (duration : nat -> Z) (now : Z) (destination : bytes)
    (keys : list bytes) : M (Status * list bytes * Z) :=
  match keys with
  | [] => ret (Status_Corruption (lit "SUnionstore invalid parameter, no keys"), [], 0)
  | _ =>
      let* '(s, members) := union_members fuel duration now keys in
      if ok s then store_members now destination destination members
      else ret (s, [], 0)
  end.

(** ** Moving and removing *)

(** What [SMove] adds to its batch for the destination: [inl] is the status it
    returns at once. *)
Definition move_in (now : Z) (destination member : bytes) : M (Status + list WriteOp) :=
  let* m := GetMeta now kSets destination destination in
  match m with
  | inl st => ret (inl st)
  | inr (s, meta_value) =>
      if ok s then
        let* p := lift (ParsedBaseMetaValue_parse true meta_value) in
        if base_dead now p then
          let p := ParsedBaseMetaValue_InitialMetaValue now p in
          let version := piv_version (pbm_base p) in
          let p := ParsedBaseMetaValue_SetCount p 1 in
          ret (inr [put_base_meta destination p; put_member now destination version member])
        else
          let version := piv_version (pbm_base p) in
          let* '(s, _) := Get kSetsDataCF (member_key destination version member) in
          if IsNotFound s then
            if negb (ParsedBaseMetaValue_CheckModifyCount p 1) then
              ret (inl (Status_InvalidArgument (lit "set size overflow")))
            else
              let* p := lift (ParsedBaseMetaValue_ModifyCount p 1) in
              ret (inr [put_base_meta destination p; put_member now destination version member])
          else if ok s then ret (inr [])
          else ret (inl s)
      else if IsNotFound s then ret (inr (new_set now destination [member]))
      else ret (inl s)
  end.

Definition SMove (now : Z) (source destination member : bytes) : M (Status * Z) :=
  if decide (source = destination) then ret (Status_OK, 1)
  else
    let* m := GetMeta now kSets source source in
    match m with
    | inl st => ret (st, 0)
    | inr (s, meta_value) =>
        if ok s then
          let* p := lift (ParsedBaseMetaValue_parse true meta_value) in
          match base_vacant now p with
          | Some st => ret (st, 0)
          | None =>
              let version := piv_version (pbm_base p) in
              let* '(s, _) := Get kSetsDataCF (member_key source version member) in
              if ok s then
                if negb (ParsedBaseMetaValue_CheckModifyCount p (-1)) then
                  ret (Status_InvalidArgument (lit "set size overflow"), 1)
                else
                  let* p := lift (ParsedBaseMetaValue_ModifyCount p (-1)) in
                  let batch := [put_base_meta source p;
                                Delete kSetsDataCF (member_key source version member)] in
                  let* d := move_in now destination member in
                  match d with
                  | inl st => ret (st, 1)
                  | inr writes =>
                      let* s := Write (batch ++ writes) in
                      let* _ := UpdateSpecificKeyStatistics kSets source 1 in
                      ret (s, 1)
                  end
              else if IsNotFound s then ret (Status_NotFound [], 0)
              else ret (s, 0)
          end
        else if IsNotFound s then ret (Status_NotFound [], 0)
        else ret (s, 0)
    end.

(** The members of [SRem] in turn, repetitions included. *)
Fixpoint SRem_loop (key : bytes) (version : Z) (members : list bytes) (batch : list WriteOp)
    (cnt : Z) : M (Status + list WriteOp * Z) :=
  match members with
  | [] => ret (inr (batch, cnt))
  | member :: members =>
      let* '(s, _) := Get kSetsDataCF (member_key key version member) in
      if ok s then
        SRem_loop key version members (batch ++ [Delete kSetsDataCF (member_key key version member)])
          (i32 (cnt + 1))
      else if IsNotFound s then SRem_loop key version members batch cnt
      else ret (inl s)
  end.

Definition SRem (now : Z) (key : bytes) (members : list bytes) : M (Status * Z) :=
  let* m := GetMeta now kSets key key in
  match m with
  | inl st => ret (st, 0)
  | inr (s, meta_value) =>
      if ok s then
        let* p := lift (ParsedBaseMetaValue_parse true meta_value) in
        if IsStale now (pbm_base p) then ret (Status_NotFound (lit "stale"), 0)
        else if pbm_count p =? 0 then ret (Status_NotFound [], 0)
        else
          let* l := SRem_loop key (piv_version (pbm_base p)) members [] 0 in
          match l with
          | inl st => ret (st, 0)
          | inr (batch, cnt) =>
              if negb (ParsedBaseMetaValue_CheckModifyCount p (- cnt)) then
                ret (Status_InvalidArgument (lit "set size overflow"), cnt)
              else
                let* p := lift (ParsedBaseMetaValue_ModifyCount p (- cnt)) in
                let* s := Write (batch ++ [put_base_meta key p]) in
                let* _ := UpdateSpecificKeyStatistics kSets key (u32 cnt) in
                ret (s, cnt)
          end
      else if IsNotFound s then ret (Status_NotFound [], 0)
      else ret (s, 0)
  end.

(** ** Random members *)

Context {E : RandomEngine}.

(** [do target_index = engine() % modnum; while (drawn before)] *)
Fixpoint draw_index (fuel : nat) (modnum : Z) (sets_index : list Z) (e : engine)
    : option (Z * engine) :=
  match fuel with
  | O => None
  | Datatypes.S fuel =>
      let '(x, e) := draw e in
      let target_index := i32 (x mod modnum) in
      if decide (target_index ∈ sets_index) then draw_index fuel modnum sets_index e
      else Some (target_index, e)
  end.

(** [rounds] different positions. *)
Fixpoint draw_indexes (rounds fuel : nat) (modnum : Z) (sets_index : list Z) (e : engine)
    : option (list Z) :=
  match rounds with
  | O => Some sets_index
  | Datatypes.S rounds =>
      '(target_index, e) ← draw_index fuel modnum sets_index e;
      draw_indexes rounds fuel modnum (target_index :: sets_index) e
  end.

(** The loop of [SPop] that takes everything: [cur_index], the writes and the
    members. *)
Definition spop_all_body (k v : bytes) (st : Z * list WriteOp * list bytes)
    : option (bool * (Z * list WriteOp * list bytes)) :=
  let '(cur_index, batch, members) := st in
  q ← ParsedBaseDataKey k;
  Some (true, (i32 (cur_index + 1), batch ++ [Delete kSetsDataCF k], members ++ [pdk_data q])).

(** The loop that takes the members at the positions drawn; [del_count] too. *)
Definition spop_body (cnt : Z) (sets_index : list Z) (k v : bytes)
    (st : Z * Z * list WriteOp * list bytes)
    : option (bool * (Z * Z * list WriteOp * list bytes)) :=
  let '(cur_index, del_count, batch, members) := st in
  if del_count =? cnt then Some (false, st)
  else if decide (cur_index ∈ sets_index) then
    q ← ParsedBaseDataKey k;
    Some (true, (i32 (cur_index + 1), del_count + 1, batch ++ [Delete kSetsDataCF k],
                 members ++ [pdk_data q]))
  else Some (true, (i32 (cur_index + 1), del_count, batch, members)).

(** [time]: what [time(nullptr)] returns. *)
Definition SPop (fuel : nat) (duration now time : Z) (key : bytes) (cnt : Z)
    : M (Status * list bytes) :=
  let* m := GetBase now kSets key in
  match m with
  | inl st => ret (st, [])
  | inr p =>
      let size := pbm_count p in
      let version := piv_version (pbm_base p) in
      let* db := gets db_ in
      let it := Seek (NewIterator db kSetsDataCF) (BaseDataKey_EncodeSeekKey key version []) in
      if size <? cnt then
        let* '(_, (_, batch, members)) :=
          lift (iter_while fuel Next (fun _ '(cur_index, _, _) => cur_index <? size) spop_all_body
                  it (0, [], [])) in
        let* s := Write (batch ++ [Delete kMetaCF (BaseKey_Encode key)]) in
        ret (s, members)
      else
        let* sets_index := lift (draw_indexes (Z.to_nat cnt) fuel size [] (seed time)) in
        let* '(_, (_, _, batch, members)) :=
          lift (iter_while fuel Next (fun _ '(cur_index, _, _, _) => cur_index <? size)
                  (spop_body cnt sets_index) it (0, 0, [], [])) in
        if negb (ParsedBaseMetaValue_CheckModifyCount p (i32 (- cnt))) then
          let* _ := UpdateSpecificKeyDuration kSets key duration in
          ret (Status_InvalidArgument (lit "set size overflow"), members)
        else
          let* p := lift (ParsedBaseMetaValue_ModifyCount p (i32 (- cnt))) in
          let* _ := UpdateSpecificKeyDuration kSets key duration in
          let* s := Write (batch ++ [put_base_meta key p]) in
          ret (s, members)
  end.

(** [while (targets.size() < count)]: different positions; the engine too,
    which shuffles the members afterwards. *)
Fixpoint unique_targets (fuel : nat) (size count last_seed : Z) (targets : list Z) (e : engine)
    : option (list Z * engine) :=
  if Z.of_nat (length targets) <? count then
    match fuel with
    | O => None
    | Datatypes.S fuel =>
        let '(x, e) := draw (seed last_seed) in
        let pos := i32 (x mod size) in
        unique_targets fuel size count x
          (if decide (pos ∈ targets) then targets else targets ++ [pos]) e
    end
  else Some (targets, e).

(** [while (targets.size() < count)]: any positions. *)
Fixpoint any_targets (rounds : nat) (size last_seed : Z) (targets : list Z) (e : engine)
    : list Z * engine :=
  match rounds with
  | O => (targets, e)
  | Datatypes.S rounds =>
      let '(x, e) := draw (seed last_seed) in
      any_targets rounds size x (targets ++ [i32 (x mod size)]) e
  end.

(** [while (idx < targets.size() && cur_index == targets[idx])]: the targets
    from [idx] on, and the members. *)
Fixpoint take_targets (cur_index : Z) (member : bytes) (targets : list Z) (members : list bytes)
    : list Z * list bytes :=
  match targets with
  | [] => ([], members)
  | t :: ts =>
      if cur_index =? t then take_targets cur_index member ts (members ++ [member])
      else (targets, members)
  end.

Definition random_body (k v : bytes) (st : Z * list Z * list bytes)
    : option (bool * (Z * list Z * list bytes)) :=
  let '(cur_index, targets, members) := st in
  match targets with
  | [] => Some (false, st)
  | _ =>
      q ← ParsedBaseDataKey k;
      let '(targets, members) := take_targets cur_index (pdk_data q) targets members in
      Some (true, (i32 (cur_index + 1), targets, members))
  end.

(** [- count] of an [int32_t]; overflow is undefined. *)
Definition i32_neg (a : Z) : option Z := if a =? - 2 ^ 31 then None else Some (- a).

(** [micros]: what [pstd::NowMicros()] returns. *)
Definition SRandmember (fuel : nat) (duration now micros : Z) (key : bytes) (count : Z)
    : M (Status * list bytes) :=
  if count =? 0 then ret (Status_OK, [])
  else
    let* m := GetBase now kSets key in
    match m with
    | inl st => ret (st, [])
    | inr p =>
        let size := pbm_count p in
        let version := piv_version (pbm_base p) in
        let* '(targets, e) :=
          (if 0 <? count then
             lift (unique_targets fuel size (if count <=? size then count else size) micros []
                     engine_new)
           else
             let* count := lift (i32_neg count) in
             ret (any_targets (Z.to_nat count) size micros [] engine_new)) in
        let targets := merge_sort Z.le targets in
        let* db := gets db_ in
        let* '(_, (_, _, members)) :=
          lift (iter_while fuel Next (fun _ '(cur_index, _, _) => cur_index <? size) random_body
                  (Seek (NewIterator db kSetsDataCF) (BaseDataKey_EncodeSeekKey key version []))
                  (0, targets, [])) in
        let members := shuffle e members in
        let* _ := UpdateSpecificKeyDuration kSets key duration in
        ret (Status_OK, members)
    end.

(** The counters of pops per key, in a cache of their own. *)
Definition ResetSpopCount (spop_counts_store : LRUCache bytes Z) (key : bytes)
    : option (Status * LRUCache bytes Z) :=
  LRUCache_Remove spop_counts_store key.

Definition AddAndGetSpopCount (spop_counts_store : LRUCache bytes Z) (key : bytes)
    : option (Status * Z * LRUCache bytes Z) :=
  '(_, found, store) ← LRUCache_Lookup spop_counts_store key;
  let old_count := default 0 found in
  '(_, store) ← LRUCache_Insert store key (u64 (old_count + 1)) 1;
  Some (Status_OK, u64 (old_count + 1), store).

(** ** Scans and key-level commands *)

(** The iteration starts at the key of the member without its suffix. *)
Definition SScan : nat -> Z -> Z -> bytes -> Z -> bytes -> Z -> M (Status * list bytes * Z) :=
  BaseScan kSets kSetsDataCF BaseDataKey_EncodeSeekKey (fun member _ => member).

Definition SetsExpire : Z -> bytes -> Z -> bytes -> M Status := BaseExpire kSets false.
Definition SetsDel : Z -> bytes -> bytes -> M Status := BaseDel kSets.
(** Their read of the meta value sets a second [s]. *)
Definition SetsExpireat : Z -> bytes -> Z -> bytes -> M Status := BaseExpireat kSets true.
Definition SetsPersist : Z -> bytes -> bytes -> M Status := BasePersist kSets true.
Definition SetsTTL : Z -> bytes -> bytes -> M (Status * Z) := BaseTTL kSets.

End Sets.
