(* ===== verification/SetSpec.v ===== *)
(** * Sets in the database

    A key holds the set [s] when its members, as [BaseHolds] has them, are those
    of [s] with empty values.  The lemmas say what the batches of the set
    commands leave and how a set is listed. *)

From Stdlib Require Import Sorting.Sorted.
From S2P Require Import Prelude Coding Numbers Glob KeyFormat Comparator ValueFormat RocksDB LruCache Redis KeySpace Random BaseData BaseSpec BaseScan BaseHolds BaseWrite Sets.
Open Scope Z_scope.

(** The set as the members of a key. *)
Definition set_map (s : gset bytes) : gmap bytes bytes := gset_to_gmap [] s.

Notation set_at := (base_at kSets kSetsDataCF).
Notation set_Get := (base_Get kSets kSetsDataCF eq_refl).

Section SetSpec.
Context {R : RocksDB} {L : RocksDBLaws R} {U : Uninit}.

Definition set_holds (db : DB) (now : Z) (key : bytes) (s : gset bytes) (etime : Z) : Prop :=
  base_holds kSets kSetsDataCF db now key (set_map s) etime.

Definition set_stores (now : Z) (key : bytes) (s : gset bytes) (etime : Z) (r r' : Redis) : Prop :=
  base_stores kSets kSetsDataCF now key (set_map s) etime r r'.

End SetSpec.

(** The time a set expires after a write: a new one never does. *)
Definition set_kept (s : gset bytes) (e : Z) : Z := if decide (s = ∅) then 0 else e.

(** ** Maps and sets *)

Lemma lookup_set_map s f : set_map s !! f = if decide (f ∈ s) then Some [] else None.
Proof.
  unfold set_map. case_decide; [by apply lookup_gset_to_gmap_Some|by apply lookup_gset_to_gmap_None].
Qed.

Lemma set_map_empty : set_map ∅ = ∅.
Proof. apply gset_to_gmap_empty. Qed.

Lemma set_map_empty_iff s : set_map s = ∅ <-> s = ∅.
Proof.
  split; [|intros ->; apply set_map_empty]. intros E. apply set_eq. intros f.
  pose proof (lookup_set_map s f) as H. rewrite E, lookup_empty in H. case_decide; set_solver.
Qed.

Lemma set_map_kept s e : kept (set_map s) e = set_kept s e.
Proof.
  unfold kept, set_kept. destruct (decide (s = ∅)) as [->|N].
  - by rewrite decide_True by apply set_map_empty.
  - by rewrite decide_False by (by rewrite set_map_empty_iff).
Qed.

(** Members as the pairs a batch puts. *)
Definition pairs (members : list bytes) : list (bytes * bytes) := (fun f => (f, [])) <$> members.

Lemma pairs_fst members : (pairs members).*1 = members.
Proof. unfold pairs. rewrite <- list_fmap_compose. by apply list_fmap_id. Qed.

Lemma put_pairs members : forall s,
  put_all (pairs members) (set_map s) = set_map (s ∪ list_to_set members).
Proof.
  induction members as [|f members IH]; intros s; simpl.
  - by rewrite union_empty_r_L.
  - change (put_all (pairs members) (<[f:=[]]> (set_map s)) = set_map (s ∪ ({[f]} ∪ list_to_set members))).
    replace (<[f:=[]]> (set_map s)) with (set_map (s ∪ {[f]})); [rewrite IH; f_equal; set_solver|].
    apply map_eq. intros g. rewrite lookup_set_map. destruct (decide (g = f)) as [->|N].
    + by rewrite lookup_insert_eq, decide_True by set_solver.
    + rewrite lookup_insert_ne, lookup_set_map by done. by apply decide_ext; set_solver.
Qed.

Lemma remove_members members s :
  remove_all members (set_map s) = set_map (s ∖ list_to_set members).
Proof.
  apply map_eq. intros f. unfold remove_all. rewrite map_lookup_filter, !lookup_set_map.
  destruct (decide (f ∈ s)) as [Hs|Hs]; simpl.
  - destruct (decide (f ∈ members)).
    + rewrite option_guard_False by naive_solver. by rewrite decide_False by set_solver.
    + rewrite option_guard_True by done. by rewrite decide_True by set_solver.
  - by rewrite decide_False by set_solver.
Qed.

(** ** What is stored *)

Section Stored.
Context {U : Uninit}.

(** The stored map has the members of the set. *)
Lemma stored_lookup m s f : user_value <$> m = set_map s -> is_Some (m !! f) <-> f ∈ s.
Proof.
  intros E. pose proof (lookup_set_map s f) as H. rewrite <- E, lookup_fmap in H.
  destruct (m !! f) eqn:Ef; simpl in H; case_decide; split; try done; intros []; done.
Qed.

Lemma stored_None m s f : user_value <$> m = set_map s -> m !! f = None <-> f ∉ s.
Proof.
  intros E. rewrite <- (stored_lookup m s f E), eq_None_not_Some. done.
Qed.

Lemma stored_size m s : user_value <$> m = set_map s -> size m = size s.
Proof.
  intros E. rewrite <- (map_size_fmap user_value), E. unfold set_map.
  by rewrite <- (size_dom (D:=gset bytes)), dom_gset_to_gmap.
Qed.

Lemma stored_nonempty m s : user_value <$> m = set_map s -> m <> ∅ -> s <> ∅.
Proof.
  intros E N ->. apply N. rewrite set_map_empty in E. by apply fmap_empty_inv in E.
Qed.

End Stored.

(** ** Listing *)

(** [l] lists the set by increasing member. *)
Definition set_listing (s : gset bytes) (l : list bytes) : Prop :=
  StronglySorted (fun x y => bytes_compare x y = Lt) l /\ forall f, f ∈ l <-> f ∈ s.

Lemma set_listing_NoDup s l : set_listing s l -> NoDup l.
Proof.
  intros [H _]. induction H as [|x l Hs IH Hf]; constructor; [|done].
  intros Hx. rewrite Forall_forall in Hf. specialize (Hf x Hx). by rewrite bytes_compare_refl in Hf.
Qed.

Lemma set_listing_length s l : set_listing s l -> length l = size s.
Proof.
  intros H. pose proof (set_listing_NoDup _ _ H) as N. destruct H as [_ Hin].
  replace s with (list_to_set l : gset bytes) by set_solver. symmetry. by apply size_list_to_set.
Qed.

Lemma sorted_fst (l : list (bytes * bytes)) :
  StronglySorted (fun x y => bytes_compare (fst x) (fst y) = Lt) l <->
  StronglySorted (fun x y => bytes_compare x y = Lt) l.*1.
Proof.
  induction l as [|x l IH]; [split; constructor|]. split; intros [Hs Hf]%StronglySorted_inv.
  - constructor; [by apply IH|]. by apply Forall_fmap.
  - constructor; [by apply IH|]. by apply Forall_fmap in Hf.
Qed.

Lemma stored_listing `{U : Uninit} m s fl :
  user_value <$> m = set_map s -> listing m fl -> set_listing s fl.*1.
Proof.
  intros E [Hs Hm]. split; [by apply sorted_fst|]. intros f. rewrite <- (stored_lookup m s f E), <- Hm.
  rewrite <- elem_of_dom, dom_list_to_map_L, elem_of_list_to_set. done.
Qed.

Lemma set_listing_map s l : set_listing s l -> listing (set_map s) (pairs l).
Proof.
  intros H. pose proof (set_listing_NoDup _ _ H) as N. destruct H as [Hs Hin]. split.
  - apply sorted_fst. by rewrite pairs_fst.
  - apply map_eq. intros f. rewrite lookup_set_map. case_decide as Hf.
    + apply elem_of_list_to_map; [by rewrite pairs_fst|]. apply list_elem_of_fmap. exists f. split; [done|]. by apply Hin.
    + apply not_elem_of_list_to_map. rewrite pairs_fst, Hin. done.
Qed.

Lemma set_listing_unique s l1 l2 : set_listing s l1 -> set_listing s l2 -> l1 = l2.
Proof.
  intros H1 H2. rewrite <- (pairs_fst l1), <- (pairs_fst l2). f_equal.
  eapply listing_unique; by apply set_listing_map.
Qed.

(** A sublist of a listing lists what it keeps. *)
Lemma set_listing_filter (P : bytes -> Prop) `{!forall x, Decision (P x)} s l :
  set_listing s l -> set_listing (filter P s) (filter P l).
Proof.
  intros [Hs Hin]. split.
  - clear Hin. induction Hs as [|x l Hs IH Hf]; [constructor|]. rewrite filter_cons. case_decide; [|done].
    constructor; [done|]. apply Forall_forall. intros y [_ Hy]%list_elem_of_filter.
    rewrite Forall_forall in Hf. by apply Hf.
  - intros f. rewrite list_elem_of_filter, elem_of_filter, Hin. done.
Qed.

(** ** Reading sets

    SISMEMBER, SMEMBERS, SCARD and how the commands on sets start. *)

(** What a key holds: nothing (absent or dead) or a set with its meta value. *)
Ltac set_live Hne Hh :=
  destruct (base_holds_live _ _ _ _ _ _ _ (proj2 (not_iff_compat (set_map_empty_iff _)) Hne) Hh)
    as (p & m & Hb & Em & <-).
Ltac set_cases s Hh :=
  unfold set_holds in Hh;
  destruct (decide (s = ∅)) as [->|Hne];
  [ rewrite set_map_empty, base_holds_empty in Hh; destruct Hh as [[Hg Hfr]|(p & Hd)]
  | set_live Hne Hh ].

Section SetRead.
Context {R : RocksDB} {L : RocksDBLaws R} {U : Uninit}.

(** A lookup of a member. *)
Lemma member_Get now key p m s r f :
  healthy (db_ r) -> set_at (db_ r) now key p m -> user_value <$> m = set_map s ->
  exists v, Get kSetsDataCF (member_key key (piv_version (pbm_base p)) f) r =
    Some (if decide (f ∈ s) then (Status_OK, v) else (Status_NotFound [], []), r).
Proof.
  intros Hdb Hb Em. exists (default [] (m !! f)). unfold member_key. rewrite (set_Get key p m now r f Hdb Hb).
  destruct (m !! f) as [v|] eqn:E.
  - by rewrite decide_True by (apply (stored_lookup m s f Em); eauto).
  - by rewrite decide_False by (by apply (stored_None m s f Em)).
Qed.

Lemma list_members_live {A} (f : bytes -> bytes -> option A) (g : bytes * bytes -> A) fuel now key p m s db :
  key_ok key = true -> healthy db -> set_at db now key p m -> user_value <$> m = set_map s ->
  (forall x, f (BaseDataKey_Encode key (piv_version (pbm_base p)) (fst x)) (snd x) = Some (g x)) ->
  (length (content db kSetsDataCF) < fuel)%nat ->
  exists fl, set_listing s fl.*1 /\
    list_entries kSetsDataCF fuel f key (piv_version (pbm_base p)) db = Some (g <$> fl).
Proof.
  intros K Hdb Hb Em Hf Hfuel.
  destruct (list_members kSetsDataCF eq_refl key _ K
    (base_coherent_version p (ba_coherent _ _ _ _ _ _ _ Hb)) f g db m fuel Hf Hdb
    (ba_members _ _ _ _ _ _ _ Hb) Hfuel) as (fl & Hl & HW).
  exists fl. split; [by eapply stored_listing|done].
Qed.

Lemma SMembers_listed fuel now key p m s db :
  key_ok key = true -> healthy db -> set_at db now key p m -> user_value <$> m = set_map s ->
  (length (content db kSetsDataCF) < fuel)%nat ->
  exists l, set_listing s l /\
    list_entries kSetsDataCF fuel member_only key (piv_version (pbm_base p)) db = Some l.
Proof.
  intros K Hdb Hb Em Hfuel.
  destruct (list_members_live member_only fst fuel now key p m s db) as (fl & Hl & HW); try done; [|by eauto].
  intros x. unfold member_only. rewrite parse_member; [done|done|].
  by apply base_coherent_version, (ba_coherent _ _ _ _ _ _ _ Hb).
Qed.

(** How a command that reads the meta value itself starts. *)
Lemma GetMeta_set now key s e r :
  healthy (db_ r) -> set_holds (db_ r) now key s e ->
  (s = ∅ /\ (exists mv, GetMeta now kSets key key r = Some (inr (Status_NotFound [], mv), r)) \/
   (exists p, GetMeta now kSets key key r = Some (inr (Status_OK, piv_data (pbm_base p)), r) /\
      ParsedBaseMetaValue_parse true (piv_data (pbm_base p)) = Some p /\
      (base_dead now p = true /\ s = ∅ \/
       base_dead now p = false /\ exists m, set_at (db_ r) now key p m /\ user_value <$> m = set_map s /\
         piv_etime (pbm_base p) = e))).
Proof.
  intros Hdb Hh. set_cases s Hh.
  - left. split; [done|]. eexists. by apply GetMeta_gone.
  - right. exists p. split; [|split].
    + apply GetMeta_base; [done|by eapply da_meta|by eapply da_coherent|by eapply da_type].
    + apply base_parse. by eapply da_coherent.
    + left. split; [by eapply da_dead|done].
  - right. exists p. split; [|split].
    + apply GetMeta_base; [done|by eapply ba_meta|by eapply ba_coherent|by eapply ba_type].
    + apply base_parse. by eapply ba_coherent.
    + right. split; [by apply (base_at_alive _ _ _ _ _ _ _ Hb)|eauto].
Qed.

(** The status of a command that needs the set to exist. *)
Definition set_code (s : gset bytes) : StatusCode := if decide (s = ∅) then kNotFound else kOk.

Lemma set_listing_nil : set_listing ∅ [].
Proof. split; [constructor|set_solver]. Qed.

Lemma GetBase_set_none {A} now key r (f : Status + ParsedBaseMetaValue -> M A) e :
  healthy (db_ r) -> set_holds (db_ r) now key ∅ e ->
  exists st, bind (GetBase now kSets key) f r = f (inl st) r /\ status_code st = kNotFound.
Proof.
  unfold set_holds. rewrite set_map_empty, base_holds_empty. intros Hdb Hh.
  destruct (GetBase_unused _ _ now key r Hdb Hh) as (st & HG & Hst). exists st.
  by rewrite (bind_run _ _ _ _ _ HG).
Qed.

Lemma SIsmember_holds now key s e r f :
  healthy (db_ r) -> set_holds (db_ r) now key s e ->
  exists st, SIsmember now key f r = Some ((st, if decide (f ∈ s) then 1 else 0), r) /\
    status_code st = if decide (f ∈ s) then kOk else kNotFound.
Proof.
  intros Hdb Hh. unfold SIsmember. destruct (decide (s = ∅)) as [->|Hne].
  - match goal with |- context [bind _ ?k r] => destruct (GetBase_set_none now key r k e Hdb Hh) as (st & -> & Hst) end.
    rewrite !decide_False by set_solver. by exists st.
  - set_live Hne Hh. rewrite (bind_GetBase _ _ now key p m r _ Hdb Hb).
    destruct (member_Get now key p m s r f Hdb Hb Em) as (v & HG). rewrite (bind_run _ _ _ _ _ HG).
    case_decide; by eexists.
Qed.

Lemma SCard_holds now key s e r :
  healthy (db_ r) -> set_holds (db_ r) now key s e ->
  exists st, SCard now key [] r = Some ((st, Z.of_nat (size s)), r) /\ status_code st = set_code s.
Proof.
  intros Hdb Hh. unfold SCard, GetMetaOrPrefetched, set_code. set_cases s Hh.
  - start_gone. by eexists.
  - rewrite (bind_dead _ _ _ _ _ _ _ Hdb Hd). on_status.
    rewrite (bind_lift _ _ _ _ (base_parse _ (da_coherent _ _ _ _ _ _ Hd))).
    pose proof (da_dead _ _ _ _ _ _ Hd) as Hdead. unfold base_dead in Hdead.
    destruct (IsStale now (pbm_base p)); [by eexists|]. simpl in Hdead. rewrite Hdead. by eexists.
  - rewrite (bind_live _ _ _ _ _ _ _ _ Hdb Hb). on_status.
    rewrite (bind_lift _ _ _ _ (base_parse p (ba_coherent _ _ _ _ _ _ _ Hb))).
    destruct (orb_false_elim _ _ (proj1 (base_at_alive _ _ _ _ _ _ _ Hb))) as [-> ->].
    rewrite (ba_count _ _ _ _ _ _ _ Hb), (stored_size m s Em). by eexists.
Qed.

Lemma SMembers_holds fuel duration now key s e r :
  key_ok key = true -> engine_ok r -> set_holds (db_ r) now key s e ->
  (length (content (db_ r) kSetsDataCF) < fuel)%nat ->
  exists st l r', set_listing s l /\ SMembers fuel duration now key r = Some ((st, l), r') /\
    same_data r r' /\ stats_ok r' /\ status_code st = set_code s.
Proof.
  intros K He Hh Hfuel. pose proof (proj1 He) as Hdb. unfold SMembers, set_code.
  destruct (decide (s = ∅)) as [->|Hne].
  - match goal with |- context [bind _ ?k r] => destruct (GetBase_set_none now key r k e Hdb Hh) as (st & -> & Hst) end.
    exists st, [], r. split_and!; try done; [apply set_listing_nil|apply He].
  - set_live Hne Hh.
    destruct (SMembers_listed fuel now key p m s (db_ r) K Hdb Hb Em Hfuel) as (l & Hl & HL).
    destruct (UpdateSpecificKeyDuration_ok kSets key duration r) as (r2 & H2 & Hs & Hok); [done|apply He|].
    exists Status_OK, l, r2. rewrite (bind_GetBase _ _ now key p m r _ Hdb Hb), bind_gets.
    by rewrite (bind_lift _ _ _ _ HL), (bind_run _ _ _ _ _ H2).
Qed.

Lemma SMembersWithTTL_holds fuel duration now key s e r :
  key_ok key = true -> clock_ok now -> engine_ok r -> set_holds (db_ r) now key s e -> is_i64 e ->
  (length (content (db_ r) kSetsDataCF) < fuel)%nat ->
  exists st l r', set_listing s l /\
    SMembersWithTTL fuel duration now key r =
      Some ((st, l, if decide (s = ∅) then 0 else if e =? 0 then -1 else e - now), r') /\
    same_data r r' /\ status_code st = set_code s.
Proof.
  intros K Hnow He Hh Hi Hfuel. pose proof (proj1 He) as Hdb. unfold SMembersWithTTL, set_code.
  pose proof set_listing_nil. set_cases s Hh.
  - start_gone. by eexists _, [], r.
  - rewrite (bind_dead _ _ _ _ _ _ _ Hdb Hd). on_status.
    rewrite (bind_lift _ _ _ _ (base_parse _ (da_coherent _ _ _ _ _ _ Hd))).
    pose proof (da_dead _ _ _ _ _ _ Hd) as D. unfold base_dead in D.
    destruct (pbm_count p =? 0); [by eexists _, [], r|]. rewrite orb_false_r in D. rewrite D.
    by eexists _, [], r.
  - destruct (SMembers_listed fuel now key p m s (db_ r) K Hdb Hb Em Hfuel) as (l & Hl & HL).
    destruct (UpdateSpecificKeyDuration_ok kSets key duration r) as (r2 & H2 & Hs & _); [done|apply He|].
    exists Status_OK, l, r2. rewrite (bind_live _ _ now key p m r _ Hdb Hb). on_status.
    rewrite (bind_lift _ _ _ _ (base_parse p (ba_coherent _ _ _ _ _ _ _ Hb))).
    destruct (base_at_alive _ _ _ _ _ _ _ Hb) as [Hd _]. apply orb_false_iff in Hd as [-> ->].
    rewrite bind_gets, (bind_lift _ _ _ _ HL), (base_at_etime _ _ now key p m _ Hnow Hb Hi).
    by rewrite (bind_run _ _ _ _ _ H2).
Qed.

(** SISMEMBER, SCARD, SMEMBERS and SMEMBERS with TTL on a set [s] (empty: the
    key is absent, expired or emptied) answer from [s] and change nothing
    stored; the members come in increasing order, each once. *)
Theorem set_reads_correct fuel duration now key s e r :
  key_ok key = true -> clock_ok now -> engine_ok r -> set_holds (db_ r) now key s e -> is_i64 e ->
  (length (content (db_ r) kSetsDataCF) < fuel)%nat ->
  (forall f, exists st, SIsmember now key f r = Some ((st, if decide (f ∈ s) then 1 else 0), r) /\
     status_code st = if decide (f ∈ s) then kOk else kNotFound) /\
  (exists st, SCard now key [] r = Some ((st, Z.of_nat (size s)), r) /\ status_code st = set_code s) /\
  (exists st l r', set_listing s l /\ SMembers fuel duration now key r = Some ((st, l), r') /\
     same_data r r' /\ status_code st = set_code s) /\
  (exists st l r', set_listing s l /\
     SMembersWithTTL fuel duration now key r =
       Some ((st, l, if decide (s = ∅) then 0 else if e =? 0 then -1 else e - now), r') /\
     same_data r r' /\ status_code st = set_code s).
Proof.
  intros K Hnow He Hh Hi Hfuel. split_and!.
  - intros f. by apply (SIsmember_holds now key s e r f (proj1 He) Hh).
  - by apply (SCard_holds now key s e r (proj1 He) Hh).
  - destruct (SMembers_holds fuel duration now key s e r K He Hh Hfuel) as (st & l & r' & ? & ? & ? & ? & ?).
    by exists st, l, r'.
  - by apply SMembersWithTTL_holds.
Qed.

End SetRead.
