(* ===== verification/SetWrite.v ===== *)
(** * Writing sets

    SADD and SREM. *)

From S2P Require Import Prelude Coding Numbers Glob KeyFormat Comparator ValueFormat RocksDB LruCache Redis KeySpace Random BaseData BaseSpec BaseScan BaseHolds BaseWrite Sets SetSpec.
Open Scope Z_scope.

Lemma filtered_members_spec members :
  NoDup (filtered_members members) /\
  (list_to_set (filtered_members members) : gset bytes) = list_to_set members /\
  (length (filtered_members members) <= length members)%nat.
Proof.
  destruct (keep_fields_spec members [] (NoDup_nil_2)) as [H1 H2].
  change (keep_fields members []) with (filtered_members members) in *.
  assert (E : (list_to_set (filtered_members members) : gset bytes) = list_to_set members).
  { apply set_eq. intros f. rewrite !elem_of_list_to_set, H2. set_solver. }
  split_and!; [done..|]. rewrite <- (size_list_to_set (C:=gset bytes)), E by done.
  clear. induction members as [|f l IH]; [apply Nat.le_refl|]. rewrite list_to_set_cons.
  simpl length. rewrite size_union_alt, size_singleton.
  assert (size (list_to_set l ∖ {[f]} : gset bytes) <= size (list_to_set l : gset bytes))%nat
    by (apply subseteq_size; set_solver). lia.
Qed.

Section SetWrite.
Context {R : RocksDB} {L : RocksDBLaws R} {U : Uninit}.

Lemma put_member_pairs now key version l :
  put_member now key version <$> l = put_members kSetsDataCF now key version (pairs l).
Proof. unfold put_members, pairs. by rewrite <- list_fmap_compose. Qed.

(** A new set. *)
Lemma new_set_stores now key l r :
  key_ok key = true -> clock_ok now -> engine_ok r -> NoDup l -> Z.of_nat (length l) < 2 ^ 31 ->
  fresh_from kSetsDataCF (db_ r) key (next_version now 0) ->
  exists r', Write (new_set now key l) r = Some (Status_OK, r') /\
    set_stores now key (list_to_set l) 0 r r'.
Proof.
  intros K Hnow He N Hlen Hf. unfold new_set, set_stores. cbv zeta. rewrite put_member_pairs.
  rewrite <- (union_empty_l_L (list_to_set l)), <- put_pairs, set_map_empty.
  assert (El : length l = length (pairs l)) by (unfold pairs; by rewrite length_fmap). rewrite El.
  apply (create_gone kSets kSetsDataCF eq_refl eq_refl); try done; [by rewrite pairs_fst|lia].
Qed.

(** A dead key gets members again. *)
Lemma revive_set now key l p r :
  key_ok key = true -> clock_ok now -> engine_ok r -> NoDup l -> Z.of_nat (length l) < 2 ^ 31 ->
  dead_at kSets kSetsDataCF (db_ r) now key p -> version_room (db_ r) key ->
  let q := ParsedBaseMetaValue_InitialMetaValue now p in
  exists r', Write (put_base_meta key (ParsedBaseMetaValue_SetCount q (Z.of_nat (length l))) ::
      (put_member now key (piv_version (pbm_base q)) <$> l)) r = Some (Status_OK, r') /\
    set_stores now key (list_to_set l) 0 r r'.
Proof.
  intros K Hnow He N Hlen Hd Hroom q. unfold set_stores. rewrite put_member_pairs.
  rewrite <- (union_empty_l_L (list_to_set l)), <- put_pairs, set_map_empty.
  assert (El : length l = length (pairs l)) by (unfold pairs; by rewrite length_fmap). rewrite El.
  apply (revive_stores kSets kSetsDataCF eq_refl eq_refl); try done; [by rewrite pairs_fst|lia].
Qed.

(** ** SADD *)

(** The members of the list that are not in the set. *)
Definition absent (s : gset bytes) (members : list bytes) : list bytes := filter (fun f => f ∉ s) members.

Lemma SAdd_loop_live now key p m s r members : forall batch cnt,
  healthy (db_ r) -> set_at (db_ r) now key p m -> user_value <$> m = set_map s -> 0 <= cnt ->
  cnt + Z.of_nat (length members) < 2 ^ 31 ->
  SAdd_loop now key (piv_version (pbm_base p)) members batch cnt r =
  Some (inr (batch ++ (put_member now key (piv_version (pbm_base p)) <$> absent s members),
             cnt + Z.of_nat (length (absent s members))), r).
Proof.
  induction members as [|f members IH]; intros batch cnt Hdb Hb Em H0 Hn.
  - simpl. by rewrite app_nil_r, Z.add_0_r.
  - cbn [SAdd_loop]. destruct (member_Get now key p m s r f Hdb Hb Em) as (v & HG).
    rewrite (bind_run _ _ _ _ _ HG). unfold absent in *. rewrite filter_cons. simpl length in Hn.
    destruct (decide (f ∈ s)) as [Hf|Hf]; on_status.
    + rewrite decide_False by tauto. apply IH; try done. lia.
    + rewrite decide_True by done. assert (E : i32 (cnt + 1) = cnt + 1) by (unfold i32; rewrite Z.mod_small; lia).
      rewrite E, IH by (done || lia). rewrite <- app_assoc. simpl length. rewrite Nat2Z.inj_succ.
      by rewrite <- Z.add_assoc, Z.add_1_l.
Qed.

Lemma new_fields_absent m s l :
  user_value <$> m = set_map s -> Forall (fun f => f ∉ s) l -> new_fields (pairs l) m = length l.
Proof.
  intros Em. induction 1 as [|f l Hf Hl IH]; [done|]. simpl.
  rewrite (proj2 (stored_None m s f Em)) by done. by rewrite <- IH.
Qed.

(** The batch that adds members that are not there. *)
Lemma add_live now key l p m s r :
  key_ok key = true -> engine_ok r -> set_at (db_ r) now key p m -> user_value <$> m = set_map s ->
  NoDup l -> Forall (fun f => f ∉ s) l -> Z.of_nat (size s) + Z.of_nat (length l) < 2 ^ 31 ->
  let n := Z.of_nat (length l) in
  ParsedBaseMetaValue_CheckModifyCount p n = true /\
  exists r', Write ((put_member now key (piv_version (pbm_base p)) <$> l) ++
                    [put_base_meta key (counted p n)]) r = Some (Status_OK, r') /\
    set_stores now key (s ∪ list_to_set l) (piv_etime (pbm_base p)) r r'.
Proof.
  intros K He Hb Em N Hl Hn n. pose proof (stored_size m s Em) as Es.
  pose proof (new_fields_absent m s l Em Hl) as En. split.
  - unfold ParsedBaseMetaValue_CheckModifyCount, INT32_MAX. rewrite (ba_count _ _ _ _ _ _ _ Hb).
    rewrite (proj2 (Z.ltb_ge _ _)), (proj2 (Z.ltb_ge _ _)) by lia. done.
  - unfold set_stores. rewrite <- put_pairs, <- Em, put_member_pairs.
    assert (E : n = Z.of_nat (new_fields (pairs l) m)) by (by rewrite En). rewrite E.
    apply (put_live kSets kSetsDataCF eq_refl eq_refl); try done.
    + by rewrite pairs_fst.
    + lia.
    + by apply effects_then_meta_put, effects_puts_list.
Qed.

(** SADD adds the members it is given, however often each is named, and returns
    how many were not there; the expiry time stays, and a new set has none. *)
Theorem SAdd_correct now key members s e r :
  key_ok key = true -> clock_ok now -> engine_ok r -> set_holds (db_ r) now key s e ->
  version_room (db_ r) key -> Z.of_nat (size s) + Z.of_nat (length members) < 2 ^ 31 ->
  let added := list_to_set members ∖ s in
  exists r', SAdd now key members r = Some ((Status_OK, Z.of_nat (size added)), r') /\
    set_stores now key (s ∪ list_to_set members) (set_kept s e) r r'.
Proof.
  intros K Hnow He Hh Hroom Hn added. unfold SAdd, set_kept. pose proof (proj1 He) as Hdb. cbv zeta.
  destruct (filtered_members_spec members) as (N & El & Hlen). subst added. rewrite <- El.
  set (l := filtered_members members) in *. clearbody l. clear El.
  assert (Ei : i32 (Z.of_nat (length l)) = Z.of_nat (length l)) by (unfold i32; rewrite Z.mod_small; lia).
  rewrite Ei. pose proof Hh as Hh0. set_cases s Hh;
    rewrite ?difference_empty_L, ?union_empty_l_L, ?size_list_to_set by done.
  - start_gone. destruct (new_set_stores now key l r) as (r1 & HW & Hst); try done; [lia|].
    rewrite (bind_run _ _ _ _ _ HW). by exists r1.
  - start_dead Hdb Hd. unfold ParsedBaseMetaValue_check_set_count, INT32_MAX.
    rewrite (proj2 (Z.ltb_ge _ _)) by lia. cbn [negb]. cbv iota.
    destruct (revive_set now key l p r) as (r1 & HW & Hst); try done; [lia|].
    rewrite (bind_run _ _ _ _ _ HW). by exists r1.
  - start_live Hdb Hb. set (a := absent s l).
    assert (Ha : list_to_set l ∖ s = list_to_set a).
    { apply set_eq. intros f. unfold a, absent. rewrite elem_of_difference, !elem_of_list_to_set, list_elem_of_filter. tauto. }
    assert (Na : NoDup a) by by apply NoDup_filter.
    assert (Hlen' : (length a <= length l)%nat) by apply length_filter.
    rewrite (bind_run _ _ _ _ _ (SAdd_loop_live now key p m s r l [] 0 Hdb Hb Em ltac:(lia) ltac:(lia))).
    fold a. simpl app. rewrite Z.add_0_l, Ha, size_list_to_set by done.
    assert (Eu : s ∪ list_to_set l = s ∪ list_to_set a) 
      by (rewrite <- Ha; apply set_eq; intros f; destruct (decide (f ∈ s)); set_solver).
    rewrite Eu. destruct (Z.eqb_spec (Z.of_nat (length a)) 0) as [E0|N0].
    + exists r. split; [by rewrite E0|]. assert (a = []) as -> by (apply length_zero_iff_nil; lia).
      rewrite list_to_set_nil, union_empty_r_L. by apply base_stores_refl.
    + rewrite checked_count. destruct (add_live now key a p m s r) as [-> (r1 & HW & Hst)]; try done; [|lia|].
      { apply Forall_forall. by intros f [Hf _]%list_elem_of_filter. }
      cbn [negb]. cbv iota. rewrite (bind_run _ _ _ _ _ HW). by exists r1.
Qed.

(** ** SREM *)

(** The members of the list that are in the set, repetitions included. *)
Definition hits (s : gset bytes) (members : list bytes) : list bytes := filter (fun f => f ∈ s) members.

Lemma SRem_loop_live now key p m s r members : forall batch cnt,
  healthy (db_ r) -> set_at (db_ r) now key p m -> user_value <$> m = set_map s -> 0 <= cnt ->
  cnt + Z.of_nat (length (hits s members)) < 2 ^ 31 ->
  SRem_loop key (piv_version (pbm_base p)) members batch cnt r =
  Some (inr (batch ++ ((fun f => Delete kSetsDataCF (member_key key (piv_version (pbm_base p)) f)) <$>
                       hits s members),
             cnt + Z.of_nat (length (hits s members))), r).
Proof.
  induction members as [|f members IH]; intros batch cnt Hdb Hb Em H0 Hn.
  - simpl. by rewrite app_nil_r, Z.add_0_r.
  - cbn [SRem_loop]. destruct (member_Get now key p m s r f Hdb Hb Em) as (v & HG).
    rewrite (bind_run _ _ _ _ _ HG). unfold hits in *. rewrite filter_cons in *.
    destruct (decide (f ∈ s)) as [Hf|Hf]; on_status; [|by apply IH].
    simpl length in *. assert (E : i32 (cnt + 1) = cnt + 1) by (unfold i32; rewrite Z.mod_small; lia).
    rewrite E, IH by (done || lia). rewrite <- app_assoc, Nat2Z.inj_succ. by rewrite <- Z.add_assoc, Z.add_1_l.
Qed.

(** What SREM does to a live set: [l] are the members it finds. *)
Lemma SRem_live now key p m s l members r :
  engine_ok r -> set_at (db_ r) now key p m -> user_value <$> m = set_map s -> l = hits s members ->
  Z.of_nat (length l) < 2 ^ 31 ->
  let n := Z.of_nat (length l) in
  SRem now key members r =
  if n <=? Z.of_nat (size s) then
    (let* st := Write (((fun f => Delete kSetsDataCF (member_key key (piv_version (pbm_base p)) f)) <$> l) ++
                       [put_base_meta key (counted p (- n))]) in
     let* _ := UpdateSpecificKeyStatistics kSets key (u32 n) in ret (st, n)) r
  else Some ((Status_InvalidArgument (lit "set size overflow"), n), r).
Proof.
  intros He Hb Em -> Hn n. pose proof (proj1 He) as Hdb. pose proof (stored_size m s Em) as Es.
  pose proof (base_at_bound _ _ _ _ _ _ _ Hb) as Hsz.
  unfold SRem. rewrite (bind_live _ _ _ _ _ _ _ _ Hdb Hb). on_status.
  rewrite (bind_lift _ _ _ _ (base_parse _ (ba_coherent _ _ _ _ _ _ _ Hb))).
  destruct (base_at_alive _ _ _ _ _ _ _ Hb) as [Hd _]. apply orb_false_iff in Hd as [-> ->].
  rewrite (bind_run _ _ _ _ _ (SRem_loop_live now key p m s r members [] 0 Hdb Hb Em ltac:(lia) ltac:(lia))).
  rewrite Z.add_0_l. fold n. rewrite checked_count. unfold ParsedBaseMetaValue_CheckModifyCount, INT32_MAX.
  rewrite (ba_count _ _ _ _ _ _ _ Hb), Es. rewrite (proj2 (Z.ltb_ge (_ - _) _)) by lia.
  destruct (Z.leb_spec n (Z.of_nat (size s))).
  - by rewrite (proj2 (Z.ltb_ge _ 0)) by lia.
  - by rewrite (proj2 (Z.ltb_lt _ 0)) by lia.
Qed.

Lemma hits_present m s l : user_value <$> m = set_map s -> present m l = hits s l.
Proof.
  intros Em. unfold present, hits. apply list_filter_iff. intros f. by apply stored_lookup.
Qed.

(** SREM on a key that holds no set. *)
Lemma SRem_none now key members e r :
  healthy (db_ r) -> set_holds (db_ r) now key ∅ e ->
  exists st, SRem now key members r = Some ((st, 0), r) /\ status_code st = kNotFound.
Proof.
  intros Hdb Hh. unfold set_holds in Hh. rewrite set_map_empty, base_holds_empty in Hh. unfold SRem.
  destruct Hh as [[Hg _]|(p & Hd)]; [start_gone; by eexists|].
  rewrite (bind_dead _ _ _ _ _ _ _ Hdb Hd). on_status.
  rewrite (bind_lift _ _ _ _ (base_parse _ (da_coherent _ _ _ _ _ _ Hd))).
  pose proof (da_dead _ _ _ _ _ _ Hd) as D. unfold base_dead in D.
  destruct (IsStale now (pbm_base p)); [by eexists|]. simpl in D. rewrite D. by eexists.
Qed.

(** SREM of different members removes them and returns how many there were; a
    set without members is no set. *)
Theorem SRem_correct now key members s e r :
  key_ok key = true -> engine_ok r -> set_holds (db_ r) now key s e -> NoDup members ->
  let s' := s ∖ list_to_set members in
  exists st r', SRem now key members r =
      Some ((st, Z.of_nat (size s) - Z.of_nat (size s')), r') /\
    status_code st = set_code s /\ set_stores now key s' e r r'.
Proof.
  intros K He Hh N s'. destruct (decide (s = ∅)) as [->|Hne].
  - destruct (SRem_none now key members e r (proj1 He) Hh) as (st & HS & Hst).
    assert (s' = ∅) as -> by set_solver. exists st, r. by split_and!; [..|apply base_stores_refl].
  - unfold set_code. rewrite decide_False by done. set_live Hne Hh.
    pose proof (stored_size m s Em) as Es. pose proof (base_at_bound _ _ _ _ _ _ _ Hb) as Hsz.
    set (l := hits s members).
    assert (Hsize : (size (apply_ops ((fun f => (f, None)) <$> l) m) + length l = size m)%nat).
    { apply size_deletes; [by apply NoDup_filter|]. intros f [Hf _]%list_elem_of_filter. by apply (stored_lookup m s f Em). }
    rewrite (SRem_live now key p m s l members r He Hb Em eq_refl ltac:(lia)).
    rewrite (proj2 (Z.leb_le _ _)) by lia.
    assert (Es' : user_value <$> apply_ops ((fun f => (f, None)) <$> l) m = set_map s').
    { unfold l. rewrite <- (hits_present m s members Em), remove_deletes, Em. apply remove_members. }
    rewrite <- (stored_size _ _ Es'), <- Es.
    replace (Z.of_nat (size m) - _) with (Z.of_nat (length l)) by lia.
    destruct (deletes_stores kSets kSetsDataCF eq_refl now key p m l r K He Hb Hsize) as (r1 & HW & Hst).
    rewrite Es' in Hst.
    destruct (finish_stores kSets kSetsDataCF eq_refl now key _ (u32 (Z.of_nat (length l))) (Z.of_nat (length l))
      (set_map s') (piv_etime (pbm_base p)) r (ex_intro _ r1 (conj HW Hst))) as (r2 & HF & Hst2).
    by exists Status_OK, r2.
Qed.

(** SREM counts a member once for every time it is named.  Named more often
    than the set has members, it fails and removes nothing; named as often, the
    count in the meta value reaches 0 and the whole set is gone, members that
    were not named included. *)
Theorem SRem_repeats now key members s e r :
  key_ok key = true -> engine_ok r -> set_holds (db_ r) now key s e -> s <> ∅ ->
  let n := Z.of_nat (length (hits s members)) in
  n < 2 ^ 31 ->
  (Z.of_nat (size s) < n ->
     SRem now key members r = Some ((Status_InvalidArgument (lit "set size overflow"), n), r)) /\
  (n = Z.of_nat (size s) ->
     exists r', SRem now key members r = Some ((Status_OK, n), r') /\ set_stores now key ∅ e r r').
Proof.
  intros K He Hh Hne n Hn. set_live Hne Hh.
  pose proof (SRem_live now key p m s _ members r He Hb Em eq_refl Hn) as HS. fold n in HS. split.
  - intros Hlt. by rewrite HS, (proj2 (Z.leb_gt _ _)).
  - intros En. rewrite HS, (proj2 (Z.leb_le _ _)) by lia. clear HS.
    set (q := counted p (- n)).
    assert (Hq : q = ParsedBaseMetaValue_SetCount p (i32 (pbm_count p + - n))) by done.
    assert (Hc : base_meta_coherent q)
      by (rewrite Hq; apply base_SetCount_coherent; [apply i32_range|by eapply ba_coherent]).
    pose proof (base_coherent_version q Hc) as V.
    destruct (Write_base kSetsDataCF eq_refl key _ K V _ _ _ r
      (effects_then_meta_put kSetsDataCF key (piv_version (pbm_base q)) _ _ (piv_data (pbm_base q))
         (effects_deletes kSetsDataCF key _ (hits s members))) (proj1 He))
      as (db' & HW & Hdb' & Hm & _ & Hver & Ho).
    apply (finish_stores kSets kSetsDataCF eq_refl). exists (with_db r db'). split; [exact HW|].
    split; [by split; [|apply He]|]. split; [|done]. rewrite set_map_empty, base_holds_empty. right. exists q.
    constructor; [done|done|apply Hb| |].
    + unfold base_dead. rewrite Hq. simpl. rewrite (ba_count _ _ _ _ _ _ _ Hb), (stored_size m s Em), En.
      rewrite Z.add_opp_diag_r. apply orb_true_r.
    + intros v H1 H2. change (piv_version (pbm_base p) + 1 <= v) in H1.
      apply Hver; [done| |by apply (ba_fresh _ _ _ _ _ _ _ Hb)]. change (v <> piv_version (pbm_base p)). lia.
Qed.

End SetWrite.

(** ** Moving a member *)

Section SetMove.
Context {R : RocksDB} {L : RocksDBLaws R} {U : Uninit}.

(** The first half of the batch takes the member out of the source. *)
Lemma move_out now key f p m s r :
  key_ok key = true -> engine_ok r -> set_at (db_ r) now key p m -> user_value <$> m = set_map s -> f ∈ s ->
  ParsedBaseMetaValue_CheckModifyCount p (-1) = true /\
  exists r', Write [put_base_meta key (counted p (-1));
                    Delete kSetsDataCF (member_key key (piv_version (pbm_base p)) f)] r = Some (Status_OK, r') /\
    set_stores now key (s ∖ {[f]}) (piv_etime (pbm_base p)) r r'.
Proof.
  intros K He Hb Em Hf. pose proof (base_at_bound _ _ _ _ _ _ _ Hb) as Hsz.
  pose proof (stored_size m s Em) as Es. split.
  { unfold ParsedBaseMetaValue_CheckModifyCount, INT32_MAX. rewrite (ba_count _ _ _ _ _ _ _ Hb).
    rewrite (proj2 (Z.ltb_ge _ _)), (proj2 (Z.ltb_ge _ _)) by lia. done. }
  set (q := counted p (-1)).
  assert (Hq : q = ParsedBaseMetaValue_SetCount p (i32 (pbm_count p + -1))) by done.
  set (m' := apply_ops [(f, None)] m).
  assert (Em' : user_value <$> m' = set_map (s ∖ {[f]})).
  { pose proof (remove_deletes [f] m) as H. rewrite (hits_present m s [f] Em), Em, remove_members in H.
    unfold hits in H. rewrite filter_cons_True in H by done. replace (list_to_set [f]) with ({[f]} : gset bytes) in H by set_solver. exact H. }
  unfold set_stores. rewrite <- Em'.
  apply (base_write kSets kSetsDataCF eq_refl now key _ (Some (piv_data (pbm_base q))) [(f, None)] q m r); try done.
  - apply (be_meta kSetsDataCF _ _ _ _ None), be_delete, be_nil.
  - rewrite Hq. apply base_SetCount_coherent; [apply i32_range|by eapply ba_coherent].
  - apply (ba_type _ _ _ _ _ _ _ Hb).
  - right. apply (ba_live _ _ _ _ _ _ _ Hb).
  - fold m'. rewrite (stored_size _ _ Em'), size_difference, size_singleton by set_solver.
    rewrite Hq. simpl. rewrite (ba_count _ _ _ _ _ _ _ Hb), Es. unfold i32. rewrite Z.mod_small by lia. lia.
  - apply (ba_members _ _ _ _ _ _ _ Hb).
  - fold m'. intros g v. unfold m'. rewrite (lookup_deletes [f]). case_decide; [done|].
    by apply (ba_values _ _ _ _ _ _ _ Hb).
  - apply (ba_fresh _ _ _ _ _ _ _ Hb).
Qed.

(** What the second half adds: [move_in] only reads, and its writes put the
    member into the destination of any engine whose destination is the same. *)
Lemma move_in_ok now destination f s e r :
  key_ok destination = true -> clock_ok now -> healthy (db_ r) -> set_holds (db_ r) now destination s e ->
  version_room (db_ r) destination -> Z.of_nat (size s) < 2 ^ 31 - 1 ->
  exists b, move_in now destination f r = Some (inr b, r) /\
    forall r1, engine_ok r1 -> key_same kSetsDataCF (db_ r) (db_ r1) destination ->
      exists r2, Write b r1 = Some (Status_OK, r2) /\
        set_stores now destination (s ∪ {[f]}) (set_kept s e) r1 r2.
Proof.
  intros K Hnow Hdb Hh Hroom Hn. unfold move_in, set_kept. pose proof Hh as Hh0. set_cases s Hh.
  - start_gone. eexists. split; [done|]. intros r1 He1 Hs1.
    replace (∅ ∪ {[f]}) with (list_to_set [f] : gset bytes) by set_solver.
    apply new_set_stores; [done..|apply NoDup_singleton|done|by eapply fresh_transport].
  - start_dead Hdb Hd. eexists. split; [done|]. intros r1 He1 Hs1.
    replace (∅ ∪ {[f]}) with (list_to_set [f] : gset bytes) by set_solver.
    apply (revive_set now destination [f] p r1); [done..|apply NoDup_singleton|done| |].
    + by eapply dead_transport.
    + unfold version_room. by rewrite (proj1 Hs1).
  - start_live Hdb Hb. cbv zeta. destruct (member_Get now destination p m s r f Hdb Hb Em) as (w & HG).
    rewrite (bind_run _ _ _ _ _ HG). destruct (decide (f ∈ s)) as [Hf|Hf]; on_status.
    + change (IsNotFound Status_OK) with false. cbv iota. eexists. split; [done|]. intros r1 He1 Hs1.
      destruct (Write_content (db_ r1) [] (proj1 He1)) as (db2 & HW & Hdb2 & HC).
      exists (with_db r1 db2). unfold Write. rewrite HW. split; [done|].
      assert (Hsame : db_same (db_ r1) db2) by (intros cf Hcf; by rewrite HC).
      split; [by split; [|apply He1]|]. replace (s ∪ {[f]}) with s by set_solver.
      split; [|apply (same_others kSetsDataCF eq_refl destination _ (db_ r1)); [done|by split_and!]].
      apply (same_holds kSets kSetsDataCF eq_refl (db_ r1)); [done|].
      by apply (holds_transport kSets kSetsDataCF (db_ r)).
    + pose proof (proj2 (stored_None m s f Em) Hf) as Ef.
      rewrite checked_count. unfold ParsedBaseMetaValue_CheckModifyCount, INT32_MAX.
      rewrite (ba_count _ _ _ _ _ _ _ Hb), (stored_size m s Em).
      rewrite (proj2 (Z.ltb_ge _ _)), (proj2 (Z.ltb_ge _ _)) by lia. cbn [negb orb]. cbv iota.
      eexists. split; [done|]. intros r1 He1 Hs1. pose proof (at_transport _ _ _ _ _ _ _ _ Hs1 Hb) as Hb1.
      destruct (add_stores kSets kSetsDataCF eq_refl eq_refl now destination f [] p m r1) as [_ (r2 & HW & Hst)];
        try done; [by rewrite (stored_size m s Em)|].
      exists r2. split; [done|]. unfold set_stores. rewrite Em in Hst.
      replace (set_map (s ∪ {[f]})) with (<[f:=[]]> (set_map s)); [done|].
      pose proof (put_pairs [f] s) as Hp. simpl in Hp. rewrite union_empty_r_L in Hp. exact Hp.
Qed.

(** SMOVE between two keys: a member of the source leaves it and is in the
    destination, which is created when it holds no set; both keep their expiry
    times and every other key stays as it was.  A member the source does not
    have moves nothing. *)
Theorem SMove_correct now source destination f s1 e1 s2 e2 r :
  source <> destination -> key_ok source = true -> key_ok destination = true -> clock_ok now -> engine_ok r ->
  set_holds (db_ r) now source s1 e1 -> set_holds (db_ r) now destination s2 e2 ->
  version_room (db_ r) destination -> Z.of_nat (size s2) < 2 ^ 31 - 1 ->
  if decide (f ∈ s1) then
    exists r', SMove now source destination f r = Some ((Status_OK, 1), r') /\ engine_ok r' /\
      set_holds (db_ r') now source (s1 ∖ {[f]}) e1 /\
      set_holds (db_ r') now destination (s2 ∪ {[f]}) (set_kept s2 e2) /\
      forall k s e, key_ok k = true -> k <> source -> k <> destination ->
        set_holds (db_ r) now k s e -> set_holds (db_ r') now k s e
  else exists st, SMove now source destination f r = Some ((st, 0), r) /\ status_code st = kNotFound.
Proof.
  intros Hsd K1 K2 Hnow He H1 H2 Hroom Hn. pose proof (proj1 He) as Hdb. unfold SMove.
  rewrite (decide_False (P := source = destination)) by done.
  destruct (GetMeta_set now source s1 e1 r Hdb H1)
    as [[-> [mv HG]]|(p & HG & Hp & [[Hd ->]|[Hd (m & Hb & Em & <-)]])];
    rewrite (bind_run _ _ _ _ _ HG); on_status; [|rewrite (bind_lift _ _ _ _ Hp)..].
  - rewrite decide_False by set_solver. by eexists.
  - rewrite decide_False by set_solver. destruct (base_dead_vacant now p Hd) as (st & -> & Hst). by eexists.
  - rewrite (proj2 (base_at_alive _ _ _ _ _ _ _ Hb)). cbv zeta.
    destruct (member_Get now source p m s1 r f Hdb Hb Em) as (w & HGet). rewrite (bind_run _ _ _ _ _ HGet).
    destruct (decide (f ∈ s1)) as [Hf|Hf]; on_status; [|by eexists].
    rewrite checked_count. destruct (move_out now source f p m s1 r K1 He Hb Em Hf) as [-> (r1 & HW1 & He1 & Hh1 & Ho1)].
    cbn [negb]. cbv iota.
    destruct (move_in_ok now destination f s2 e2 r K2 Hnow Hdb H2 Hroom Hn) as (b & HM & Hb2).
    rewrite (bind_run _ _ _ _ _ HM).
    destruct (Hb2 r1 He1) as (r2 & HW2 & He2 & Hh2 & Ho2);
      [by apply (others_key kSetsDataCF source); [..|congruence]|].
    destruct (Write_halves _ _ r r1 r2 He HW1 HW2) as (r3 & HW & He3 & Hs3).
    rewrite (bind_run _ _ _ _ _ HW).
    destruct (UpdateSpecificKeyStatistics_ok kSets source 1 r3) as (r4 & H4 & Hs4 & Hok4); [done|apply He3|].
    rewrite (bind_run _ _ _ _ _ H4). pose proof (proj1 Hs4) as E4.
    assert (Hkeep : forall k h e, key_ok k = true -> k <> destination ->
      base_holds kSets kSetsDataCF (db_ r1) now k h e -> base_holds kSets kSetsDataCF (db_ r3) now k h e).
    { intros k h e Kk Nk Hk. apply (same_holds kSets kSetsDataCF eq_refl (db_ r2)); [done|].
      apply (holds_transport kSets kSetsDataCF (db_ r1)); [|done]. by apply (others_key kSetsDataCF destination). }
    exists r4. unfold set_holds, engine_ok. rewrite E4. split_and!; try done; [apply He3|by apply Hkeep| |].
    + by apply (same_holds kSets kSetsDataCF eq_refl (db_ r2)).
    + intros k s e Kk N1 N2 Hk. apply Hkeep; try done.
      apply (holds_transport kSets kSetsDataCF (db_ r)); [|done]. by apply (others_key kSetsDataCF source).
Qed.

(** SMOVE from a key to itself answers 1 without looking: the key may hold no
    such member, or no set at all. *)
Lemma SMove_same_key now key f r : SMove now key key f r = Some ((Status_OK, 1), r).
Proof. unfold SMove. by rewrite decide_True. Qed.

End SetMove.
