(* ===== verification/SetAlgebra.v ===== *)
(** * SDIFF, SINTER and SUNION

    The commands over several keys, and those that store their result. *)

From S2P Require Import Prelude Coding Numbers Glob KeyFormat Comparator ValueFormat RocksDB LruCache Redis KeySpace Random BaseData BaseSpec BaseScan BaseHolds BaseWrite Sets SetSpec SetWrite.
Open Scope Z_scope.

(** The members of every set of a list, and of all of them. *)
Definition union_of (sets : bytes -> gset bytes) (keys : list bytes) : gset bytes := ⋃ (sets <$> keys).
Definition inter_of (sets : bytes -> gset bytes) (key0 : bytes) (keys : list bytes) : gset bytes :=
  filter (fun f => Forall (fun k => f ∈ sets k) keys) (sets key0).

Lemma elem_of_union_of sets keys f : f ∈ union_of sets keys <-> Exists (fun k => f ∈ sets k) keys.
Proof.
  unfold union_of. rewrite elem_of_union_list, Exists_exists. split.
  - intros (X & (k & -> & Hk)%list_elem_of_fmap & Hf). eauto.
  - intros (k & Hk & Hf). exists (sets k). split; [by apply list_elem_of_fmap_2|done].
Qed.

Lemma union_of_cons sets k keys : union_of sets (k :: keys) = sets k ∪ union_of sets keys.
Proof. done. Qed.

Lemma inter_of_none sets key0 keys : sets key0 = ∅ -> inter_of sets key0 keys = ∅.
Proof. intros E. unfold inter_of. rewrite E. set_solver. Qed.

Section SetAlgebra.
Context {R : RocksDB} {L : RocksDBLaws R} {U : Uninit}.

(** Every key of the list holds the set [sets] gives it. *)
Definition holds_all (db : DB) (now : Z) (sets : bytes -> gset bytes) (keys : list bytes) : Prop :=
  Forall (fun k => key_ok k = true /\ exists e, set_holds db now k (sets k) e) keys.

(** A key and the version of its set. *)
Definition live_set (db : DB) (now : Z) (sets : bytes -> gset bytes) (kv : KeyVersion) : Prop :=
  key_ok (fst kv) = true /\
  exists p m, set_at db now (fst kv) p m /\ user_value <$> m = set_map (sets (fst kv)) /\
    snd kv = piv_version (pbm_base p).

(** ** Which keys hold a set *)

Lemma vaild_sets_ok now sets keys : forall acc r,
  healthy (db_ r) -> holds_all (db_ r) now sets keys ->
  exists kvs, vaild_sets now keys acc r = Some (inr (acc ++ kvs), r) /\
    Forall (live_set (db_ r) now sets) kvs /\ union_of sets kvs.*1 = union_of sets keys.
Proof.
  induction keys as [|k keys IH]; intros acc r Hdb H; [exists []; by rewrite app_nil_r|].
  apply Forall_cons in H as [[K [e Hk]] H]. cbn [vaild_sets].
  destruct (GetMeta_set now k (sets k) e r Hdb Hk)
    as [[Hs [mv HG]]|(p & HG & Hp & [[Hd Hs]|[Hd (m & Hb & Em & _)]])];
    rewrite (bind_run _ _ _ _ _ HG); on_status; [|rewrite (bind_lift _ _ _ _ Hp), Hd..].
  1,2: destruct (IH acc r Hdb H) as (kvs & HV & Hl & Hu); exists kvs; split; [done|]; split; [done|];
    by rewrite Hu, union_of_cons, Hs, union_empty_l_L.
  destruct (IH (acc ++ [(k, piv_version (pbm_base p))]) r Hdb H) as (kvs & HV & Hl & Hu).
  exists ((k, piv_version (pbm_base p)) :: kvs). rewrite HV, <- app_assoc. split; [done|].
  split; [constructor; [|done]; split; [done|eauto]|]. by rewrite fmap_cons, !union_of_cons, Hu.
Qed.

Lemma all_sets_ok now sets keys : forall acc r,
  healthy (db_ r) -> holds_all (db_ r) now sets keys ->
  (exists kvs, all_sets now keys acc r = Some (inr (Some (acc ++ kvs)), r) /\
     Forall (live_set (db_ r) now sets) kvs /\ kvs.*1 = keys) \/
  (all_sets now keys acc r = Some (inr None, r) /\ Exists (fun k => sets k = ∅) keys).
Proof.
  induction keys as [|k keys IH]; intros acc r Hdb H; [left; exists []; by rewrite app_nil_r|].
  apply Forall_cons in H as [[K [e Hk]] H]. cbn [all_sets].
  destruct (GetMeta_set now k (sets k) e r Hdb Hk)
    as [[Hs [mv HG]]|(p & HG & Hp & [[Hd Hs]|[Hd (m & Hb & Em & _)]])];
    rewrite (bind_run _ _ _ _ _ HG); on_status; [|rewrite (bind_lift _ _ _ _ Hp), Hd..].
  1,2: right; split; [done|by constructor].
  destruct (IH (acc ++ [(k, piv_version (pbm_base p))]) r Hdb H) as [(kvs & HV & Hl & Hk')|[HV Hex]].
  - left. exists ((k, piv_version (pbm_base p)) :: kvs). rewrite HV, <- app_assoc. split; [done|].
    split; [constructor; [|done]; split; [done|eauto]|]. by rewrite fmap_cons, Hk'.
  - right. split; [done|by apply Exists_cons_tl].
Qed.

(** ** Which members the sets have *)

Lemma live_Get db now sets k v f :
  healthy db -> live_set db now sets (k, v) ->
  exists w, db_Get db kSetsDataCF (member_key k v f) =
    if decide (f ∈ sets k) then (Status_OK, w) else (Status_NotFound [], []).
Proof.
  intros Hdb (K & p & m & Hb & Em & Ev). simpl in *. subst v. exists (default [] (m !! f)).
  rewrite Get_lookup by done. unfold member_key. rewrite (ma_lookup _ _ _ _ _ (ba_members _ _ _ _ _ _ _ Hb)).
  destruct (m !! f) as [w|] eqn:E.
  - by rewrite decide_True by (apply (stored_lookup m _ f Em); eauto).
  - by rewrite decide_False by (by apply (stored_None m _ f Em)).
Qed.

Lemma in_any_ok db now sets kvs f :
  healthy db -> Forall (live_set db now sets) kvs ->
  in_any db kvs f = inr (bool_decide (f ∈ union_of sets kvs.*1)).
Proof.
  intros Hdb. induction 1 as [|[k v] kvs Hk H IH]; [done|]. cbn [in_any].
  destruct (live_Get db now sets k v f Hdb Hk) as (w & ->). destruct (decide (f ∈ sets k)) as [Hf|Hf]; on_status.
  - f_equal. symmetry. apply bool_decide_eq_true. apply elem_of_union_of. by constructor.
  - rewrite IH. f_equal. apply bool_decide_ext. rewrite !elem_of_union_of, fmap_cons, Exists_cons. tauto.
Qed.

Lemma in_all_ok db now sets kvs f :
  healthy db -> Forall (live_set db now sets) kvs ->
  in_all db kvs f = inr (bool_decide (Forall (fun k => f ∈ sets k) kvs.*1)).
Proof.
  intros Hdb. induction 1 as [|[k v] kvs Hk H IH]; [done|]. cbn [in_all].
  destruct (live_Get db now sets k v f Hdb Hk) as (w & ->). destruct (decide (f ∈ sets k)) as [Hf|Hf]; on_status.
  - rewrite IH. f_equal. apply bool_decide_ext. rewrite fmap_cons, Forall_cons. tauto.
  - f_equal. symmetry. apply bool_decide_eq_false. rewrite fmap_cons, Forall_cons. tauto.
Qed.

Lemma select_members_ok (P : bytes -> Prop) `{!forall x, Decision (P x)} fuel keep now key p m s db :
  (forall f, keep f = inr (bool_decide (P f))) ->
  key_ok key = true -> healthy db -> set_at db now key p m -> user_value <$> m = set_map s ->
  (length (content db kSetsDataCF) < fuel)%nat ->
  exists l, set_listing (filter P s) l /\
    select_members fuel keep key (piv_version (pbm_base p)) db = Some (Status_OK, l).
Proof.
  intros Hkeep K Hdb Hb Em Hfuel.
  pose proof (base_coherent_version p (ba_coherent _ _ _ _ _ _ _ Hb)) as V. unfold select_members.
  set (step := fun (st : Status * list bytes) (x : bytes * bytes) =>
                 (Status_OK, if decide (P (fst x)) then snd st ++ [fst x] else snd st)).
  match goal with |- context [iter_while _ _ _ ?body _ ?st] =>
    destruct (fold_members kSetsDataCF eq_refl key _ K V body step db m fuel st) as (fl & Hl & HF);
      [|done|apply (ba_members _ _ _ _ _ _ _ Hb)|done|] end.
  - intros x [st acc]. rewrite parse_member by done. simpl. rewrite Hkeep. unfold step.
    destruct (decide (P (fst x))); [by rewrite bool_decide_eq_true_2|by rewrite bool_decide_eq_false_2].
  - unfold seek_prefix in HF. rewrite HF. exists (filter P fl.*1).
    split; [by apply set_listing_filter, (stored_listing m)|]. f_equal.
    assert (H0 : forall acc, fold_left step fl (Status_OK, acc) = (Status_OK, acc ++ filter P fl.*1)); [|apply H0].
    clear. induction fl as [|x fl IH]; intros acc; simpl; [by rewrite app_nil_r|].
    rewrite filter_cons. unfold step at 2. simpl. case_decide; rewrite IH; [by rewrite <- app_assoc|done].
Qed.

(** ** SDIFF and SINTER *)

Lemma diff_members_ok fuel duration now sets key0 keys r :
  engine_ok r -> holds_all (db_ r) now sets (key0 :: keys) ->
  (length (content (db_ r) kSetsDataCF) < fuel)%nat ->
  exists l r', diff_members fuel duration now key0 keys r = Some ((Status_OK, l), r') /\
    set_listing (sets key0 ∖ union_of sets keys) l /\ same_data r r' /\ stats_ok r'.
Proof.
  intros He H Hfuel. pose proof (proj1 He) as Hdb. apply Forall_cons in H as [[K [e Hk]] H].
  unfold diff_members. destruct (vaild_sets_ok now sets keys [] r Hdb H) as (kvs & HV & Hl & Hu).
  rewrite (bind_run _ _ _ _ _ HV). simpl app.
  destruct (GetMeta_set now key0 (sets key0) e r Hdb Hk)
    as [[Hs [mv HG]]|(p & HG & Hp & [[Hd Hs]|[Hd (m & Hb & Em & _)]])];
    rewrite (bind_run _ _ _ _ _ HG); on_status; [|rewrite (bind_lift _ _ _ _ Hp), Hd..].
  1,2: exists [], r; split; [done|]; rewrite Hs, difference_empty_l_L || rewrite Hs;
    split; [replace (∅ ∖ union_of sets keys) with (∅ : gset bytes) by set_solver; apply set_listing_nil|];
    split; [done|apply He].
  rewrite bind_gets. cbv zeta.
  match goal with |- context [select_members fuel ?k _ _ _] =>
    destruct (select_members_ok (fun f => f ∉ union_of sets keys) fuel k now key0 p m (sets key0) (db_ r))
      as (l & Hls & HS); try done end.
  { intros f. rewrite (in_any_ok (db_ r) now sets kvs f Hdb Hl), Hu. f_equal. by rewrite bool_decide_not. }
  rewrite (bind_lift _ _ _ _ HS).
  destruct (UpdateSpecificKeyDuration_ok kSets key0 duration r) as (r2 & H2 & Hsame & Hok); [done|apply He|].
  rewrite (bind_run _ _ _ _ _ H2). exists l, r2. split; [done|]. split; [|done].
  replace (sets key0 ∖ union_of sets keys) with (filter (fun f => f ∉ union_of sets keys) (sets key0)) by set_solver.
  done.
Qed.

Lemma inter_members_ok fuel duration now sets key0 keys r :
  engine_ok r -> holds_all (db_ r) now sets (key0 :: keys) ->
  (length (content (db_ r) kSetsDataCF) < fuel)%nat ->
  exists l r', inter_members fuel duration now key0 keys r = Some ((Status_OK, l), r') /\
    set_listing (inter_of sets key0 keys) l /\ same_data r r' /\ stats_ok r'.
Proof.
  intros He H Hfuel. pose proof (proj1 He) as Hdb. apply Forall_cons in H as [[K [e Hk]] H].
  unfold inter_members. destruct (all_sets_ok now sets keys [] r Hdb H) as [(kvs & HV & Hl & Hkk)|[HV Hex]];
    rewrite (bind_run _ _ _ _ _ HV); simpl app.
  2:{ exists [], r. split; [done|]. split; [|split; [done|apply He]].
      replace (inter_of sets key0 keys) with (∅ : gset bytes); [apply set_listing_nil|].
      symmetry. apply set_eq. intros f. unfold inter_of. rewrite elem_of_filter. split; [|set_solver].
      intros [HF _]. apply Exists_exists in Hex as (k & Hk' & E). rewrite Forall_forall in HF.
      specialize (HF k Hk'). set_solver. }
  destruct (GetMeta_set now key0 (sets key0) e r Hdb Hk)
    as [[Hs [mv HG]]|(p & HG & Hp & [[Hd Hs]|[Hd (m & Hb & Em & _)]])];
    rewrite (bind_run _ _ _ _ _ HG); on_status; [|rewrite (bind_lift _ _ _ _ Hp), Hd..].
  1,2: exists [], r; split; [done|]; rewrite inter_of_none by done;
    split; [apply set_listing_nil|]; split; [done|apply He].
  rewrite bind_gets.
  destruct (select_members_ok (fun f => Forall (fun k => f ∈ sets k) keys) fuel (in_all (db_ r) kvs) now key0 p m
    (sets key0) (db_ r)) as (l & Hls & HS); try done.
  { intros f. by rewrite (in_all_ok (db_ r) now sets kvs f Hdb Hl), Hkk. }
  rewrite (bind_lift _ _ _ _ HS).
  destruct (UpdateSpecificKeyDuration_ok kSets key0 duration r) as (r2 & H2 & Hsame & Hok); [done|apply He|].
  rewrite (bind_run _ _ _ _ _ H2). by exists l, r2.
Qed.

End SetAlgebra.

(** ** Storing the result of an operation

    SUNION, the correctness of the three operations, and SDIFFSTORE,
    SINTERSTORE and SUNIONSTORE. *)

Section SetStore.
Context {R : RocksDB} {L : RocksDBLaws R} {U : Uninit}.

(** ** SUNION *)

Lemma union_set_ok fuel now sets k v members db :
  healthy db -> live_set db now sets (k, v) -> (length (content db kSetsDataCF) < fuel)%nat ->
  exists l, (forall f, f ∈ l <-> f ∈ sets k) /\ union_set fuel k v members db = Some (keep_fields l members).
Proof.
  intros Hdb (K & p & m & Hb & Em & Ev) Hfuel. simpl in *. subst v.
  pose proof (base_coherent_version p (ba_coherent _ _ _ _ _ _ _ Hb)) as V. unfold union_set.
  match goal with |- context [iter_while _ _ _ ?body _ ?st] =>
    destruct (fold_members kSetsDataCF eq_refl k _ K V body
      (fun acc x => if decide (fst x ∈ acc) then acc else acc ++ [fst x]) db m fuel st) as (fl & Hl & HF);
      [|done|apply (ba_members _ _ _ _ _ _ _ Hb)|done|] end.
  - intros x acc. by rewrite parse_member.
  - unfold seek_prefix in HF. rewrite HF. exists fl.*1.
    split; [by apply (stored_listing m (sets k) fl Em Hl)|]. f_equal. clear.
    revert members. induction fl as [|x fl IH]; intros acc; simpl; [done|]. apply IH.
Qed.

Lemma same_live db db' now sets kvs :
  db' = db -> Forall (live_set db now sets) kvs -> Forall (live_set db' now sets) kvs.
Proof. by intros ->. Qed.

Lemma union_loop_ok fuel duration now sets kvs : forall i members r,
  engine_ok r -> Forall (live_set (db_ r) now sets) kvs ->
  (length (content (db_ r) kSetsDataCF) < fuel)%nat -> NoDup members ->
  exists l r', union_loop fuel duration i kvs members r = Some (l, r') /\ NoDup l /\
    (list_to_set l : gset bytes) = list_to_set members ∪ union_of sets kvs.*1 /\ same_data r r' /\ stats_ok r'.
Proof.
  induction kvs as [|[k v] kvs IH]; intros i members r He H Hfuel N.
  - exists members, r. split; [done|]. split; [done|]. split; [|split; [done|apply He]].
    unfold union_of. simpl. by rewrite union_empty_r_L.
  - apply Forall_cons in H as [Hk H]. cbn [union_loop]. rewrite bind_gets.
    destruct (union_set_ok fuel now sets k v members (db_ r) (proj1 He) Hk Hfuel) as (l & Hl & HU).
    rewrite (bind_lift _ _ _ _ HU). destruct (keep_fields_spec l members N) as [N1 H1].
    destruct (UpdateSpecificKeyDuration_ok kSets k (duration i) r) as (r1 & HD & Hs & Hok); [done|apply He|].
    rewrite (bind_run _ _ _ _ _ HD). pose proof (proj1 Hs) as Ed.
    destruct (IH (S i) (keep_fields l members) r1) as (l' & r' & HL & N' & E' & Hs' & Hok'); try done.
    + split; [rewrite Ed; apply He|done].
    + by apply (same_live (db_ r)).
    + by rewrite Ed.
    + exists l', r'. split; [done|]. split; [done|]. split; [|split; [by etransitivity|done]].
      rewrite E', fmap_cons, union_of_cons. apply set_eq. intros f.
      rewrite !elem_of_union, !elem_of_list_to_set, H1, Hl. simpl. tauto.
Qed.

Lemma union_members_ok fuel duration now sets keys r :
  engine_ok r -> holds_all (db_ r) now sets keys -> (length (content (db_ r) kSetsDataCF) < fuel)%nat ->
  exists l r', union_members fuel duration now keys r = Some ((Status_OK, l), r') /\ NoDup l /\
    list_to_set l = union_of sets keys /\ same_data r r' /\ stats_ok r'.
Proof.
  intros He H Hfuel. unfold union_members.
  destruct (vaild_sets_ok now sets keys [] r (proj1 He) H) as (kvs & HV & Hl & Hu).
  rewrite (bind_run _ _ _ _ _ HV). simpl app.
  destruct (union_loop_ok fuel duration now sets kvs 0 [] r He Hl Hfuel (NoDup_nil_2))
    as (l & r' & HU & N & E & Hs & Hok).
  rewrite (bind_run _ _ _ _ _ HU). exists l, r'. split_and!; try done.
  rewrite E, list_to_set_nil, union_empty_l_L. done.
Qed.

(** C24: SDIFF, SINTER and SUNION over keys that hold sets (empty where there is
    none) return the difference of the first and the others, what they all
    have, and what any of them has.  The first two come in increasing order;
    no member is returned twice.  Nothing stored changes. *)
Theorem set_algebra_correct fuel duration durations now sets key0 keys r :
  engine_ok r -> holds_all (db_ r) now sets (key0 :: keys) ->
  (length (content (db_ r) kSetsDataCF) < fuel)%nat ->
  (exists l r', SDiff fuel duration now (key0 :: keys) r = Some ((Status_OK, l), r') /\
     set_listing (sets key0 ∖ union_of sets keys) l /\ same_data r r') /\
  (exists l r', SInter fuel duration now (key0 :: keys) r = Some ((Status_OK, l), r') /\
     set_listing (inter_of sets key0 keys) l /\ same_data r r') /\
  (exists l r', SUnion fuel durations now (key0 :: keys) r = Some ((Status_OK, l), r') /\
     NoDup l /\ list_to_set l = union_of sets (key0 :: keys) /\ same_data r r').
Proof.
  intros He H Hfuel. split_and!.
  - destruct (diff_members_ok fuel duration now sets key0 keys r He H Hfuel) as (l & r' & ? & ? & ? & ?).
    by exists l, r'.
  - destruct (inter_members_ok fuel duration now sets key0 keys r He H Hfuel) as (l & r' & ? & ? & ? & ?).
    by exists l, r'.
  - destruct (union_members_ok fuel durations now sets (key0 :: keys) r He H Hfuel) as (l & r' & ? & ? & ? & ? & ?).
    by exists l, r'.
Qed.

(** ** Storing *)

Lemma set_stores_from now key s e r r1 r' :
  same_data r r1 -> set_stores now key s e r1 r' -> set_stores now key s e r r'.
Proof. intros [E _] (H1 & H2 & H3). unfold set_stores, base_stores. by rewrite <- E. Qed.

Lemma holds_same db db' now key s e :
  db' = db -> set_holds db now key s e -> set_holds db' now key s e.
Proof. by intros ->. Qed.







(** ** SUNIONSTORE *)

(** SUNIONSTORE on a destination without a meta value of a set stores the
    union. *)
Theorem SUnionstore_correct fuel durations now sets destination key0 keys r :
  key_ok destination = true -> clock_ok now -> engine_ok r ->
  holds_all (db_ r) now sets (key0 :: keys) -> gone kSets (db_ r) now destination ->
  fresh_from kSetsDataCF (db_ r) destination (next_version now 0) ->
  Z.of_nat (size (union_of sets (key0 :: keys))) < 2 ^ 31 ->
  (length (content (db_ r) kSetsDataCF) < fuel)%nat ->
  exists l r', SUnionstore fuel durations now destination (key0 :: keys) r =
      Some ((Status_OK, l, Z.of_nat (length l)), r') /\
    NoDup l /\ list_to_set l = union_of sets (key0 :: keys) /\
    set_stores now destination (union_of sets (key0 :: keys)) 0 r r'.
Proof.
  intros K Hnow He H Hg Hf Hsz Hfuel.
  destruct (union_members_ok fuel durations now sets (key0 :: keys) r He H Hfuel)
    as (l & r1 & HU & N & E & Hs & Hok). pose proof (proj1 Hs) as Ed.
  assert (He1 : engine_ok r1) by (split; [rewrite Ed; apply He|done]).
  assert (Hl : Z.of_nat (length l) < 2 ^ 31) by (rewrite <- E, size_list_to_set in Hsz; done).
  destruct (new_set_stores now destination l r1) as (r2 & HW & Hst); rewrite ?Ed; try done.
  destruct (then_statistics kSets kSetsDataCF eq_refl now destination _ _ 0 r1 r2
    (ret (Status_OK, l, Z.of_nat (length l))) (Status_OK, l, Z.of_nat (length l)) Hst (fun _ => eq_refl))
    as (r3 & H3 & Hst3).
  exists l, r3. rewrite <- E. split_and!; try done; [|by apply (set_stores_from _ _ _ _ r r1)].
  unfold SUnionstore. rewrite (bind_run _ _ _ _ _ HU). on_status. unfold store_members. cbv zeta.
  assert (Ei : i32 (Z.of_nat (length l)) = Z.of_nat (length l)) by (unfold i32; rewrite Z.mod_small; lia).
  rewrite Ei, bind_base_gone by (by rewrite ?Ed; try apply He). on_status.
  by rewrite (bind_run _ _ _ _ _ HW).
Qed.

Lemma GetBase_meta now key p r :
  healthy (db_ r) -> meta_of (db_ r) key = Some (piv_data (pbm_base p)) -> base_meta_coherent p ->
  piv_type (pbm_base p) = Some kSets -> base_vacant now p = None ->
  GetBase now kSets key r = Some (inr p, r).
Proof.
  intros Hdb Hm Hc Ht Hv. unfold GetBase. rewrite (bind_run _ _ _ _ _ (GetMeta_base kSets now key p r Hdb Hm Hc Ht)).
  on_status. by rewrite (bind_lift _ _ _ _ (base_parse p Hc)), Hv.
Qed.

Lemma encoded_key_longer k : key_ok k = true -> BaseKey_Encode k <> k.
Proof.
  intros K E. rewrite BaseKey_Encode_form in E by done. apply (f_equal length) in E.
  unfold key_prefix in E. rewrite !length_app, length_enc_key, length_reserve1 in E. lia.
Qed.

(** The batch of SUNIONSTORE on a set that exists leaves its meta value and the
    members of its version. *)
Lemma union_batch_misses now key l p m version v r :
  key_ok key = true -> engine_ok r -> set_at (db_ r) now key p m -> is_u64 version ->
  version <> piv_version (pbm_base p) ->
  exists r', Write (Put kMetaCF key v :: (put_member now key version <$> l)) r = Some (Status_OK, r') /\
    engine_ok r' /\ meta_of (db_ r') key = Some (piv_data (pbm_base p)) /\
    forall f, db_lookup (db_ r') kSetsDataCF (member_key key (piv_version (pbm_base p)) f) = m !! f.
Proof.
  intros K He Hb V N. rewrite put_member_pairs.
  pose proof (effects_puts_list kSetsDataCF now key version (pairs l)) as HE.
  destruct (Write_lookup (db_ r) (Put kMetaCF key v :: put_members kSetsDataCF now key version (pairs l)) (proj1 He))
    as (db' & HW & Hdb' & HL).
  exists (with_db r db'). unfold Write. rewrite HW. split; [done|]. split; [by split; [|apply He]|]. split.
  - unfold meta_of. rewrite HL by done. rewrite lookup_after_put, decide_False by (done || by apply encoded_key_longer).
    rewrite (effects_lookup_meta kSetsDataCF eq_refl key version _ _ _ _ HE). apply (ba_meta _ _ _ _ _ _ _ Hb).
  - intros f. rewrite HL by done. rewrite lookup_after_skip by done. unfold member_key.
    rewrite (effects_lookup_elsewhere kSetsDataCF eq_refl key version K V _ _ _ _ _ _ _ HE); [|done| |congruence].
    + apply (ma_lookup _ _ _ _ _ (ba_members _ _ _ _ _ _ _ Hb)).
    + by apply base_coherent_version, (ba_coherent _ _ _ _ _ _ _ Hb).
Qed.

(** C39: SUNIONSTORE on a destination that holds a set answers OK with the members
    of the union and their number, but the destination still holds the set it
    held: the new meta value is written under the plain key. *)
Theorem SUnionstore_lost fuel durations now sets destination key0 keys s e r :
  key_ok destination = true -> clock_ok now -> engine_ok r ->
  holds_all (db_ r) now sets (key0 :: keys) -> set_holds (db_ r) now destination s e -> s <> ∅ ->
  version_room (db_ r) destination -> Z.of_nat (size (union_of sets (key0 :: keys))) < 2 ^ 31 ->
  (length (content (db_ r) kSetsDataCF) < fuel)%nat ->
  exists l r', SUnionstore fuel durations now destination (key0 :: keys) r =
      Some ((Status_OK, l, Z.of_nat (length l)), r') /\
    list_to_set l = union_of sets (key0 :: keys) /\
    SCard now destination [] r' = Some ((Status_OK, Z.of_nat (size s)), r') /\
    forall f, exists st, SIsmember now destination f r' = Some ((st, if decide (f ∈ s) then 1 else 0), r').
Proof.
  intros K Hnow He H Hh Hne Hroom Hsz Hfuel.
  destruct (union_members_ok fuel durations now sets (key0 :: keys) r He H Hfuel)
    as (l & r1 & HU & N & E & Hs & Hok). pose proof (proj1 Hs) as Ed.
  assert (He1 : engine_ok r1) by (split; [rewrite Ed; apply He|done]).
  assert (Hl : Z.of_nat (length l) < 2 ^ 31) by (rewrite <- E, size_list_to_set in Hsz; done).
  set_live Hne Hh. pose proof (ba_coherent _ _ _ _ _ _ _ Hb) as Hc.
  pose proof (base_coherent_version p Hc) as V. unfold is_u64 in V.
  assert (Hv : piv_version (pbm_base p) < 2 ^ 64 - 1) by (apply Hroom; [by eapply ba_meta|done]).
  destruct (next_version_gt now (piv_version (pbm_base p)) ltac:(lia)) as [Hgt _].
  destruct (revived_meta now p (Z.of_nat (length l)) Hnow Hc ltac:(lia)) as (_ & _ & _ & Ever & _ & Ev).
  set (q := ParsedBaseMetaValue_InitialMetaValue now p) in *. rewrite Ever in Ev.
  assert (Hb1 : set_at (db_ r1) now destination p m) by (by rewrite Ed).
  destruct (union_batch_misses now destination l p m (piv_version (pbm_base q))
    (piv_data (pbm_base (ParsedBaseMetaValue_SetCount q (Z.of_nat (length l))))) r1 K He1 Hb1)
    as (r2 & HW & He2 & Hm2 & Hl2); [rewrite Ev; by apply next_version_u64, clock_u64|lia|].
  destruct (UpdateSpecificKeyStatistics_ok kSets destination (u32 (pbm_count p)) r2) as (r3 & H3 & Hs3 & Hok3);
    [done|apply He2|].
  destruct (base_at_alive _ _ _ _ _ _ _ Hb) as [_ Hvac]. pose proof (ba_type _ _ _ _ _ _ _ Hb) as Ht.
  assert (Hdb3 : healthy (db_ r3)) by (rewrite (proj1 Hs3); apply He2).
  assert (Hm3 : meta_of (db_ r3) destination = Some (piv_data (pbm_base p))) by (by rewrite (proj1 Hs3)).
  exists l, r3. split_and!; [|done|..].
  - unfold SUnionstore. rewrite (bind_run _ _ _ _ _ HU). on_status. unfold store_members. cbv zeta.
    assert (Ei : i32 (Z.of_nat (length l)) = Z.of_nat (length l)) by (unfold i32; rewrite Z.mod_small; lia).
    rewrite Ei, (bind_live _ _ _ _ _ _ _ _ (proj1 He1) Hb1). on_status.
    rewrite (bind_lift _ _ _ _ (base_parse _ Hc)).
    unfold ParsedBaseMetaValue_check_set_count, INT32_MAX. rewrite (proj2 (Z.ltb_ge _ _)) by lia.
    cbn [negb]. cbv iota. fold q. rewrite (bind_run _ _ _ _ _ HW). by rewrite (bind_run _ _ _ _ _ H3).
  - unfold SCard, GetMetaOrPrefetched.
    rewrite (bind_run _ _ _ _ _ (GetMeta_base kSets now destination p r3 Hdb3 Hm3 Hc Ht)). on_status.
    rewrite (bind_lift _ _ _ _ (base_parse p Hc)).
    destruct (orb_false_elim _ _ (proj1 (base_at_alive _ _ _ _ _ _ _ Hb))) as [-> ->].
    by rewrite (ba_count _ _ _ _ _ _ _ Hb), (stored_size m s Em).
  - intros f. unfold SIsmember. rewrite (bind_run _ _ _ _ _ (GetBase_meta now destination p r3 Hdb3 Hm3 Hc Ht Hvac)).
    unfold bind, Get. rewrite Get_lookup, (proj1 Hs3), Hl2 by done. destruct (m !! f) as [w|] eqn:Ef.
    + rewrite decide_True by (apply (stored_lookup m s f Em); eauto). by eexists.
    + rewrite decide_False by (by apply (stored_None m s f Em)). by eexists.
Qed.

End SetStore.
