(* ===== verification/SetRandom.v ===== *)
(** * Random members

    SPOP and SRANDMEMBER, for any engine with the laws of [Random]: the loops
    that draw positions end, and what the commands take are members of the
    set.  And SSCAN. *)

From Stdlib Require Import Sorting.Sorted.
From stdpp Require Import sorting.
From S2P Require Import Prelude Coding Numbers Glob KeyFormat Comparator ValueFormat RocksDB LruCache Redis KeySpace Random BaseData BaseSpec BaseScan BaseHolds BaseWrite BaseCursor HashWrite Sets SetSpec SetWrite.
Open Scope Z_scope.

(** ** Drawing positions *)

Section Draw.
Context {E : RandomEngine} {LE : RandomEngineLaws E}.

(** The engine after [k] draws. *)
Fixpoint advance (k : nat) (e : engine) : engine :=
  match k with O => e | S k => advance k (snd (draw e)) end.

Lemma advance_S k : forall e, advance (S k) e = snd (draw (advance k e)).
Proof. induction k as [|k IH]; intros e; [done|]. exact (IH (snd (draw e))). Qed.

Lemma nth_draw_advance k : forall e, nth_draw k e = fst (draw (advance k e)).
Proof. induction k as [|k IH]; intros e; [done|]. apply IH. Qed.

Lemma i32_position x n : 0 < n < draw_limit -> i32 (x mod n) = x mod n.
Proof.
  intros Hn. pose proof (Z.mod_pos_bound x n ltac:(lia)). unfold draw_limit, i32 in *.
  rewrite Z.mod_small by lia. lia.
Qed.

(** A position not drawn yet is there before long. *)
Lemma draw_index_ends n l s j : forall k,
  0 < n < draw_limit -> (k <= j)%nat -> nth_draw j (seed s) mod n ∉ l ->
  exists t k', t ∉ l /\ 0 <= t < n /\
    forall fuel, (j - k < fuel)%nat -> draw_index fuel n l (advance k (seed s)) = Some (t, advance k' (seed s)).
Proof.
  intros k Hn. remember (j - k)%nat as d eqn:Ed. revert k Ed.
  induction d as [|d IH]; intros k Ed Hk Ht; rewrite nth_draw_advance in Ht.
  - assert (k = j) as -> by lia. exists (fst (draw (advance j (seed s))) mod n), (S j).
    split; [done|]. split; [apply Z.mod_pos_bound; lia|]. intros [|fuel] Hf; [lia|]. cbn [draw_index].
    rewrite advance_S. destruct (draw (advance j (seed s))) as [x e]. simpl in *.
    by rewrite i32_position, decide_False.
  - destruct (decide (fst (draw (advance k (seed s))) mod n ∈ l)) as [Hin|Hin].
    + destruct (IH (S k)) as (t & k' & Hl & Hr & Hd); [lia|lia|by rewrite nth_draw_advance|].
      exists t, k'. split; [done|]. split; [done|]. intros [|fuel] Hf; [lia|].
      rewrite <- (Hd fuel) by lia. cbn [draw_index]. rewrite advance_S.
      destruct (draw (advance k (seed s))) as [x e]. simpl in *. by rewrite i32_position, decide_True.
    + exists (fst (draw (advance k (seed s))) mod n), (S k).
      split; [done|]. split; [apply Z.mod_pos_bound; lia|]. intros [|fuel] Hf; [lia|]. cbn [draw_index].
      rewrite advance_S. destruct (draw (advance k (seed s))) as [x e]. simpl in *.
      by rewrite i32_position, decide_False.
Qed.

(** Positions below [n]. *)
Definition positions (n : Z) (l : list Z) : Prop := NoDup l /\ Forall (fun t => 0 <= t < n) l.

Lemma free_position n l : positions n l -> Z.of_nat (length l) < n -> exists t, 0 <= t < n /\ t ∉ l.
Proof.
  intros [N HF] Hlen.
  destruct (decide (Forall (fun t => t ∈ l) (Z.of_nat <$> seq 0 (Z.to_nat n)))) as [H|H].
  - exfalso. assert (Hs : (Z.of_nat <$> seq 0 (Z.to_nat n)) ⊆+ l).
    { apply NoDup_submseteq; [|by rewrite Forall_forall in H].
      apply (NoDup_fmap_2 Z.of_nat), NoDup_ListNoDup, seq_NoDup. }
    apply submseteq_length in Hs. rewrite length_fmap, length_seq in Hs. lia.
  - apply not_Forall_Exists in H; [|apply _]. apply Exists_exists in H as (t & Ht & Hn).
    apply list_elem_of_fmap in Ht as (i & -> & Hi%elem_of_seq). exists (Z.of_nat i). split; [lia|done].
Qed.

Lemma draw_indexes_end n s rounds : forall l k,
  0 < n < draw_limit -> positions n l -> Z.of_nat (length l) + Z.of_nat rounds <= n ->
  exists N l', positions n l' /\ length l' = (rounds + length l)%nat /\
    forall fuel, (N <= fuel)%nat -> draw_indexes rounds fuel n l (advance k (seed s)) = Some l'.
Proof.
  induction rounds as [|rounds IH]; intros l k Hn Hl Hlen; [by exists 0%nat, l|].
  destruct (free_position n l Hl ltac:(lia)) as (t & Ht & Hfree).
  destruct (draws_cover s k n t Ht ltac:(lia)) as (j & Hj & Ej).
  destruct (draw_index_ends n l s j k Hn Hj) as (t' & k' & Hn' & Hr' & Hd); [by rewrite Ej|].
  destruct (IH (t' :: l) k' Hn) as (N & l' & Hl' & Hlen' & HN).
  { destruct Hl. by split; constructor. } { simpl. lia. }
  exists (Nat.max N (S (j - k))), l'. split; [done|]. split; [simpl in Hlen'; lia|].
  intros fuel Hf. cbn [draw_indexes]. rewrite Hd by lia. simpl. apply HN. lia.
Qed.

Lemma reseeded_S k : forall s, reseeded (S k) s = fst (draw (seed (reseeded k s))).
Proof. induction k as [|k IH]; intros s; [done|]. exact (IH (fst (draw (seed s)))). Qed.

(** One more position comes before long. *)
Lemma unique_target_ends n count s targets j : forall k e,
  0 < n < draw_limit -> Z.of_nat (length targets) < count -> (k <= j)%nat ->
  reseeded (S j) s mod n ∉ targets ->
  exists d t e', t ∉ targets /\ 0 <= t < n /\
    forall fuel, unique_targets (d + fuel) n count (reseeded k s) targets e =
                 unique_targets fuel n count (reseeded (d + k) s) (targets ++ [t]) e'.
Proof.
  intros k e Hn Hc. remember (j - k)%nat as d0 eqn:Ed. revert k e Ed.
  induction d0 as [|d0 IH]; intros k e Ed Hk Ht;
    (destruct (decide (reseeded (S k) s mod n ∈ targets)) as [Hin|Hin];
     [|exists 1%nat, (reseeded (S k) s mod n), (snd (draw (seed (reseeded k s))));
       split; [done|]; split; [apply Z.mod_pos_bound; lia|]; intros fuel; cbn [unique_targets Nat.add];
       rewrite (proj2 (Z.ltb_lt _ _)) by done; rewrite reseeded_S in *;
       destruct (draw (seed (reseeded k s))) as [x e1]; simpl in *; by rewrite i32_position, decide_False]).
  - assert (k = j) as -> by lia. done.
  - destruct (IH (S k) (snd (draw (seed (reseeded k s))))) as (d & t & e' & Hl & Hr & Hd); [lia|lia|done|].
    exists (S d), t, e'. split; [done|]. split; [done|]. intros fuel.
    replace (S d + k)%nat with (d + S k)%nat by lia. rewrite <- Hd. cbn [unique_targets Nat.add].
    rewrite (proj2 (Z.ltb_lt _ _)) by done. rewrite reseeded_S in *.
    destruct (draw (seed (reseeded k s))) as [x e1]. simpl in *. by rewrite i32_position, decide_True.
Qed.

Lemma unique_targets_end n s m : forall targets k e,
  0 < n < draw_limit -> positions n targets -> Z.of_nat (length targets) + Z.of_nat m <= n ->
  exists N l' e', positions n l' /\ length l' = (length targets + m)%nat /\
    forall fuel, (N <= fuel)%nat ->
      unique_targets fuel n (Z.of_nat (length targets + m)) (reseeded k s) targets e = Some (l', e').
Proof.
  induction m as [|m IH]; intros targets k e Hn Hl Hlen.
  - exists 0%nat, targets, e. split; [done|]. split; [lia|]. intros fuel _. destruct fuel; cbn [unique_targets];
      by rewrite (proj2 (Z.ltb_ge _ _)) by lia.
  - destruct (free_position n targets Hl ltac:(lia)) as (t & Ht & Hfree).
    destruct (reseeds_cover s k n t Ht ltac:(lia)) as (j & Hj & Ej).
    destruct (unique_target_ends n (Z.of_nat (length targets + S m)) s targets j k e Hn ltac:(lia) Hj)
      as (d & t' & e' & Hn' & Hr' & Hd); [by rewrite Ej|].
    destruct (IH (targets ++ [t']) (d + k)%nat e' Hn) as (N & l' & e'' & Hl' & Hlen' & HN).
    { destruct Hl as [N HF]. split; [apply NoDup_app; split_and!; [done|set_solver|apply NoDup_singleton]|].
      apply Forall_app. split; [done|by constructor]. }
    { rewrite length_app. simpl. lia. }
    rewrite length_app in *. simpl in *. exists (d + N)%nat, l', e''. split; [done|]. split; [lia|].
    intros fuel Hf. replace fuel with (d + (fuel - d))%nat by lia. rewrite Hd.
    replace (length targets + S m)%nat with (length targets + 1 + m)%nat by lia. apply HN. lia.
Qed.

Lemma any_targets_range n rounds : forall s targets e,
  0 < n < draw_limit -> Forall (fun t => 0 <= t < n) targets ->
  let l := fst (any_targets rounds n s targets e) in
  Forall (fun t => 0 <= t < n) l /\ length l = (length targets + rounds)%nat.
Proof.
  induction rounds as [|rounds IH]; intros s targets e Hn HF; simpl; [split; [done|lia]|].
  destruct (draw (seed s)) as [x e1]. destruct (IH x (targets ++ [i32 (x mod n)]) e1 Hn) as [H1 H2].
  - apply Forall_app. split; [done|]. constructor; [|done]. rewrite i32_position by done.
    apply Z.mod_pos_bound. lia.
  - split; [done|]. rewrite H2, length_app. simpl. lia.
Qed.

End Draw.

(** ** Taking members by position *)

(** The members of [l], which starts at position [i], at the positions of [idx]. *)
Fixpoint pick (i : Z) (idx : list Z) (l : list bytes) : list bytes :=
  match l with
  | [] => []
  | x :: l => if decide (i ∈ idx) then x :: pick (i + 1) idx l else pick (i + 1) idx l
  end.

Lemma pick_sublist idx l : forall i, pick i idx l `sublist_of` l.
Proof.
  induction l as [|x l IH]; intros i; simpl; [constructor|]. case_decide; constructor; apply IH.
Qed.

Lemma pick_length l : forall i idx,
  NoDup idx -> Forall (fun t => i <= t < i + Z.of_nat (length l)) idx -> length (pick i idx l) = length idx.
Proof.
  induction l as [|x l IH]; intros i idx N HF; simpl.
  - destruct idx as [|t idx]; [done|]. apply Forall_inv in HF. simpl in HF. lia.
  - assert (HR : forall idx', NoDup idx' -> i ∉ idx' -> (forall t, t ∈ idx' -> t ∈ idx) ->
      length (pick (i + 1) idx' l) = length idx').
    { intros idx' N' Hi Hsub. apply IH; [done|]. apply Forall_forall. intros t Ht.
      rewrite Forall_forall in HF. specialize (HF t (Hsub t Ht)). simpl in HF.
      assert (t <> i) by (intros ->; done). lia. }
    case_decide as Hi; [|by apply HR].
    apply list_elem_of_split in Hi as (l1 & l2 & ->).
    assert (E : pick (i + 1) (l1 ++ i :: l2) l = pick (i + 1) (l1 ++ l2) l).
    { clear. assert (H : forall j, i < j -> pick j (l1 ++ i :: l2) l = pick j (l1 ++ l2) l); [|apply H; lia].
      induction l as [|y l IH]; intros j Hj; [done|]. simpl. rewrite IH by lia.
      destruct (decide (j ∈ l1 ++ i :: l2)) as [H1|H1], (decide (j ∈ l1 ++ l2)) as [H2|H2]; try done.
      - exfalso. apply H2. rewrite elem_of_app, elem_of_cons in H1. rewrite elem_of_app.
        destruct H1 as [?|[->|?]]; [by left|lia|by right].
      - exfalso. apply H1. rewrite elem_of_app in *. rewrite elem_of_cons. tauto. }
    simpl length. rewrite E.
    assert (P : i :: (l1 ++ l2) ≡ₚ l1 ++ i :: l2) by apply Permutation_middle.
    rewrite <- P in N. apply NoDup_cons in N as [Hi N].
    rewrite HR; [by rewrite <- (Permutation_length P)|done|done|].
    intros t Ht. rewrite elem_of_app in *. rewrite elem_of_cons. tauto.
Qed.

Section Walks.
Context {R : RocksDB} {L : RocksDBLaws R} {U : Uninit}.
Context (key : bytes) (version : Z) (K : key_ok key = true) (V : is_u64 version).

Notation entries l := (entry_of key version <$> l).
Notation dels l := ((fun f => Delete kSetsDataCF (member_key key version f)) <$> l).

Lemma Next_cursor it bef e l :
  position it = cursor_at bef (e :: l) -> position (Next it) = cursor_at (e :: bef) l.
Proof. intros Hp. rewrite (Next_position _ _ Hp). by destruct l. Qed.

Lemma spop_step cnt idx i d batch members f v : 0 <= i < 2 ^ 31 - 1 ->
  spop_body cnt idx (BaseDataKey_Encode key version f) v (i, d, batch, members) =
  if d =? cnt then Some (false, (i, d, batch, members))
  else if decide (i ∈ idx) then
    Some (true, (i + 1, d + 1, batch ++ [Delete kSetsDataCF (member_key key version f)], members ++ [f]))
  else Some (true, (i + 1, d, batch, members)).
Proof.
  intros Hi. unfold spop_body. rewrite parse_member by done.
  assert (Ei : i32 (i + 1) = i + 1) by (unfold i32; rewrite Z.mod_small; lia). by rewrite Ei.
Qed.

Lemma spop_all_step i batch members f v : 0 <= i < 2 ^ 31 - 1 ->
  spop_all_body (BaseDataKey_Encode key version f) v (i, batch, members) =
  Some (true, (i + 1, batch ++ [Delete kSetsDataCF (member_key key version f)], members ++ [f])).
Proof.
  intros Hi. unfold spop_all_body. rewrite parse_member by done.
  assert (Ei : i32 (i + 1) = i + 1) by (unfold i32; rewrite Z.mod_small; lia). cbn [mbind option_bind].
  by rewrite Ei.
Qed.

Lemma spop_walk size cnt idx fl : forall i d batch members fuel it bef c,
  position it = cursor_at bef (entries fl ++ c) -> i + Z.of_nat (length fl) = size -> 0 <= i -> size < 2 ^ 31 - 1 ->
  d + Z.of_nat (length (pick i idx fl.*1)) = cnt -> (length fl < fuel)%nat ->
  exists it' cur, iter_while fuel Next (fun _ '(cur_index, _, _, _) => cur_index <? size)
      (spop_body cnt idx) it (i, d, batch, members) =
    Some (it', (cur, cnt, batch ++ dels (pick i idx fl.*1), members ++ pick i idx fl.*1)).
Proof.
  induction fl as [|x fl IH]; intros i d batch members fuel it bef c Hp Hi H0 Hsz Hd Hf;
    (destruct fuel as [|fuel]; [simpl in Hf; lia|]).
  - exists it, i. cbn [iter_while]. simpl in Hd. rewrite (proj2 (Z.ltb_ge i size)), andb_false_r by (simpl in Hi; lia).
    replace cnt with d by lia. simpl. by rewrite !app_nil_r.
  - rewrite fmap_cons in Hp. simpl in Hf, Hi. cbn [iter_while].
    rewrite Valid_position, Hp, (key_position _ _ _ _ Hp), (proj2 (Z.ltb_lt i size)) by lia.
    cbn [andb fst entry_of]. rewrite spop_step by lia. rewrite fmap_cons in *. simpl pick in *.
    pose proof (Next_cursor _ _ _ _ Hp) as Hnext.
    destruct (Z.eqb_spec d cnt) as [->|Nd].
    { assert (Hnil : (if decide (i ∈ idx) then x.1 :: pick (i + 1) idx fl.*1 else pick (i + 1) idx fl.*1) = [])
        by (apply length_zero_iff_nil; lia).
      rewrite Hnil. exists it, i. simpl. by rewrite !app_nil_r. }
    case_decide as Hin.
    + cbn [mbind option_bind].
      destruct (IH (i + 1) (d + 1) (batch ++ [Delete kSetsDataCF (member_key key version x.1)])
        (members ++ [x.1]) fuel (Next it) _ c Hnext) as (it' & cur & ->); [lia|lia|done|simpl in Hd; lia|lia|].
      exists it', cur. rewrite fmap_cons, <- !app_assoc. done.
    + cbn [mbind option_bind]. destruct (IH (i + 1) d batch members fuel (Next it) _ c Hnext)
        as (it' & cur & ->); [lia|lia|done|lia|lia|]. by exists it', cur.
Qed.

Lemma spop_all_walk size fl : forall i batch members fuel it bef c,
  position it = cursor_at bef (entries fl ++ c) -> i + Z.of_nat (length fl) = size -> 0 <= i -> size < 2 ^ 31 - 1 ->
  (length fl < fuel)%nat ->
  exists it' cur, iter_while fuel Next (fun _ '(cur_index, _, _) => cur_index <? size)
      spop_all_body it (i, batch, members) =
    Some (it', (cur, batch ++ dels fl.*1, members ++ fl.*1)).
Proof.
  induction fl as [|x fl IH]; intros i batch members fuel it bef c Hp Hi H0 Hsz Hf;
    (destruct fuel as [|fuel]; [simpl in Hf; lia|]).
  - exists it, i. cbn [iter_while]. rewrite (proj2 (Z.ltb_ge i size)), andb_false_r by (simpl in Hi; lia).
    simpl. by rewrite !app_nil_r.
  - rewrite fmap_cons in Hp. simpl in Hf, Hi. cbn [iter_while].
    rewrite Valid_position, Hp, (key_position _ _ _ _ Hp), (proj2 (Z.ltb_lt i size)) by lia.
    cbn [andb fst entry_of]. rewrite spop_all_step by lia. cbn [mbind option_bind].
    pose proof (Next_cursor _ _ _ _ Hp) as Hnext.
    destruct (IH (i + 1) (batch ++ [Delete kSetsDataCF (member_key key version x.1)])
      (members ++ [x.1]) fuel (Next it) _ c Hnext) as (it' & cur & ->); [lia|lia|done|lia|].
    exists it', cur. rewrite fmap_cons, <- !app_assoc. done.
Qed.

End Walks.

Section SPop.
Context {R : RocksDB} {L : RocksDBLaws R} {U : Uninit} {E : RandomEngine} {LE : RandomEngineLaws E}.

(** [l] is what a pop of [cnt] members takes from [s]. *)
Definition popped (s : gset bytes) (cnt : Z) (l : list bytes) : Prop :=
  NoDup l /\ list_to_set l ⊆ s /\ Z.of_nat (length l) = Z.min cnt (Z.of_nat (size s)).

Lemma SPop_all fuel duration now time key cnt p m s r :
  key_ok key = true -> engine_ok r -> set_at (db_ r) now key p m -> user_value <$> m = set_map s ->
  Z.of_nat (size s) < draw_limit -> Z.of_nat (size s) < cnt -> piv_version (pbm_base p) < now ->
  (size s < fuel)%nat ->
  exists l r', SPop fuel duration now time key cnt r = Some ((Status_OK, l), r') /\ popped s cnt l /\
    forall e, set_stores now key (s ∖ list_to_set l) e r r'.
Proof.
  intros K He Hb Em Hlim Hcnt Hv Hfuel. pose proof (proj1 He) as Hdb. unfold draw_limit in Hlim.
  pose proof (base_coherent_version _ (ba_coherent _ _ _ _ _ _ _ Hb)) as V.
  destruct (Seek_prefix kSetsDataCF eq_refl key _ K V (db_ r) m Hdb (ba_members _ _ _ _ _ _ _ Hb))
    as (a & fl & c & Hl & _ & Hp & _).
  pose proof (stored_listing m s fl Em Hl) as Hs. pose proof (set_listing_length _ _ Hs) as Hlen.
  unfold SPop. rewrite (bind_GetBase _ _ now key p m r _ Hdb Hb), bind_gets.
  rewrite (ba_count _ _ _ _ _ _ _ Hb), (stored_size m s Em), (proj2 (Z.ltb_lt _ _)) by done.
  rewrite length_fmap in Hlen.
  destruct (spop_all_walk key _ K V (Z.of_nat (size s)) fl 0 [] [] fuel _ _ c Hp)
    as (it' & cur & HW); [lia..|]. rewrite (bind_lift _ _ _ _ HW). simpl app.
  destruct (drop_stores kSets kSetsDataCF eq_refl now key _ fl.*1 r K He V Hv (ba_fresh _ _ _ _ _ _ _ Hb))
    as (r' & HWr & Hst). unfold member_key. rewrite (bind_run _ _ _ _ _ HWr).
  exists fl.*1, r'. split; [done|]. split.
  - split; [by eapply set_listing_NoDup|]. destruct Hs as [_ Hs]. split; [set_solver|].
    rewrite length_fmap, Hlen. lia.
  - intros e. replace (s ∖ list_to_set fl.*1) with (∅ : gset bytes) by (destruct Hs as [_ Hs]; set_solver).
    unfold set_stores. rewrite set_map_empty. apply Hst.
Qed.

(** Deleting members of the set. *)
Lemma taken_map m s l :
  user_value <$> m = set_map s -> NoDup l -> (forall f, f ∈ l -> f ∈ s) ->
  let m' := apply_ops ((fun f => (f, None)) <$> l) m in
  (size m' + length l = size m)%nat /\ user_value <$> m' = set_map (s ∖ list_to_set l).
Proof.
  intros Em N Hin. assert (Hp : present m l = l).
  { unfold present. clear N. induction l as [|f l IH]; [done|].
    rewrite filter_cons_True by (apply (stored_lookup m s f Em), Hin; by left). f_equal. apply IH. set_solver. }
  split.
  - apply size_deletes; [done|]. intros f Hf. by apply (stored_lookup m s f Em), Hin.
  - rewrite <- remove_members, <- Em, <- remove_deletes. by rewrite Hp.
Qed.

Lemma SPop_some duration now time key cnt p m s r :
  key_ok key = true -> engine_ok r -> set_at (db_ r) now key p m -> user_value <$> m = set_map s ->
  Z.of_nat (size s) < draw_limit -> 0 < cnt <= Z.of_nat (size s) ->
  exists N, forall fuel, (N <= fuel)%nat ->
  exists l r', SPop fuel duration now time key cnt r = Some ((Status_OK, l), r') /\ popped s cnt l /\
    set_stores now key (s ∖ list_to_set l) (piv_etime (pbm_base p)) r r'.
Proof.
  intros K He Hb Em Hlim Hcnt. pose proof (proj1 He) as Hdb. pose proof (stored_size m s Em) as Es.
  pose proof (base_coherent_version _ (ba_coherent _ _ _ _ _ _ _ Hb)) as V.
  destruct (Seek_prefix kSetsDataCF eq_refl key _ K V (db_ r) m Hdb (ba_members _ _ _ _ _ _ _ Hb))
    as (a & fl & c & Hl & _ & Hp & _).
  pose proof (stored_listing m s fl Em Hl) as Hs. pose proof (set_listing_length _ _ Hs) as Hlen.
  destruct (draw_indexes_end (Z.of_nat (size s)) time (Z.to_nat cnt) [] 0) as (N & idx & Hidx & Hil & HN);
    [lia|split; constructor|simpl; lia|].
  exists (Nat.max N (S (size s))). intros fuel Hfuel. set (l := pick 0 idx fl.*1).
  assert (Hpl : Z.of_nat (length l) = cnt).
  { unfold l. destruct Hidx as [Nd HF]. rewrite pick_length; [simpl in Hil; lia|done|]. by rewrite Hlen. }
  assert (Hsub : l `sublist_of` fl.*1) by apply pick_sublist.
  assert (Nl : NoDup l) by (eapply sublist_NoDup; [by eapply set_listing_NoDup|done]).
  assert (Hin : forall f, f ∈ l -> f ∈ s) by (intros f Hf; apply Hs; by eapply elem_of_submseteq, sublist_submseteq).
  unfold SPop. rewrite (bind_GetBase _ _ now key p m r _ Hdb Hb), bind_gets.
  rewrite (ba_count _ _ _ _ _ _ _ Hb), Es, (proj2 (Z.ltb_ge _ _)) by lia.
  rewrite (bind_lift _ _ _ _ (HN fuel ltac:(lia))). unfold draw_limit in Hlim. rewrite length_fmap in Hlen.
  destruct (spop_walk key _ K V (Z.of_nat (size s)) cnt idx fl 0 0 [] [] fuel _ _ c Hp)
    as (it' & cur & HW); [lia|lia|lia|fold l; lia|lia|]. rewrite (bind_lift _ _ _ _ HW). simpl app. fold l.
  assert (Hi : i32 (- cnt) = - Z.of_nat (length l)) by (rewrite Hpl; unfold i32; rewrite Z.mod_small; lia).
  rewrite Hi, checked_count. unfold ParsedBaseMetaValue_CheckModifyCount, INT32_MAX. rewrite (ba_count _ _ _ _ _ _ _ Hb), Es.
  rewrite (proj2 (Z.ltb_ge (_ + _) 0)), (proj2 (Z.ltb_ge _ (_ + _))) by lia. cbn [orb negb].
  destruct (taken_map m s l Em Nl Hin) as [Hsize Es'].
  destruct (UpdateSpecificKeyDuration_ok kSets key duration r) as (r2 & H2 & [Hdb2 _] & Hok); [done|apply He|].
  rewrite (bind_run _ _ _ _ _ H2).
  destruct (deletes_stores kSets kSetsDataCF eq_refl now key p m l r2 K) as (r' & HWr & Hst);
    [by split; rewrite ?Hdb2|by rewrite Hdb2|done|].
  unfold member_key. rewrite (bind_run _ _ _ _ _ HWr). exists l, r'. split; [done|]. split.
  - split; [done|]. split; [set_solver|lia].
  - unfold set_stores. rewrite <- Es'. destruct Hst as (? & ? & Ho). rewrite Hdb2 in Ho. done.
Qed.

(** C26: SPOP takes [cnt] different members of the set, or all of them, whatever the
    numbers drawn: the loops that draw end, the members taken are removed and
    the others stay. *)
Theorem SPop_correct duration now time key cnt s e r :
  key_ok key = true -> engine_ok r -> set_holds (db_ r) now key s e -> 0 < cnt ->
  Z.of_nat (size s) < draw_limit ->
  (Z.of_nat (size s) < cnt -> forall p m, set_at (db_ r) now key p m -> piv_version (pbm_base p) < now) ->
  exists N, forall fuel, (N <= fuel)%nat ->
  exists st l r', SPop fuel duration now time key cnt r = Some ((st, l), r') /\
    status_code st = set_code s /\ popped s cnt l /\ set_stores now key (s ∖ list_to_set l) e r r'.
Proof.
  intros K He Hh Hc Hlim Hv. destruct (decide (s = ∅)) as [->|Hne].
  - exists 0%nat. intros fuel _. unfold SPop, set_code. rewrite decide_True by done.
    match goal with |- context [bind _ ?k r] =>
      destruct (GetBase_set_none now key r k e (proj1 He) Hh) as (st & -> & Hst) end.
    exists st, [], r. split; [done|]. split; [done|].
    replace (∅ ∖ list_to_set []) with (∅ : gset bytes) by set_solver. rewrite size_empty in Hlim.
    split; [|by apply base_stores_refl]. split; [constructor|]. split; [set_solver|]. rewrite size_empty. simpl. lia.
  - unfold set_code. rewrite decide_False by done. set_live Hne Hh.
    destruct (Z.lt_ge_cases (Z.of_nat (size s)) cnt) as [Hall|Hsome].
    + exists (S (size s)). intros fuel Hf.
      destruct (SPop_all fuel duration now time key cnt p m s r K He Hb Em Hlim Hall) as (l & r' & H1 & H2 & H3);
        [by eapply Hv|lia|]. by exists Status_OK, l, r'.
    + destruct (SPop_some duration now time key cnt p m s r K He Hb Em Hlim ltac:(lia)) as (N & HN).
      exists N. intros fuel Hf. destruct (HN fuel Hf) as (l & r' & ? & ? & ?). by exists Status_OK, l, r'.
Qed.

End SPop.

(** ** Members at random positions *)

Section SRandmember.
Context {R : RocksDB} {L : RocksDBLaws R} {U : Uninit} {E : RandomEngine} {LE : RandomEngineLaws E}.

Lemma take_targets_spec i x targets : forall members,
  Sorted Z.le targets -> Forall (fun t => i <= t) targets ->
  exists k rest, targets = replicate k i ++ rest /\ Forall (fun t => i + 1 <= t) rest /\
    take_targets i x targets members = (rest, members ++ replicate k x).
Proof.
  intros members Hs HF. apply Sorted_StronglySorted in Hs; [|intros ????; lia]. revert members.
  induction Hs as [|t ts Hs IH Ht]; intros members; [exists 0%nat, []; simpl; by rewrite app_nil_r|].
  apply Forall_cons in HF as [Hi HF]. cbn [take_targets]. destruct (Z.eqb_spec i t) as [<-|N].
  - destruct (IH HF (members ++ [x])) as (k & rest & -> & Hr & ->). exists (S k), rest.
    split; [done|]. split; [done|]. by rewrite <- app_assoc.
  - exists 0%nat, (t :: ts). split; [done|]. split; [|by rewrite app_nil_r].
    constructor; [lia|]. eapply Forall_impl; [exact Ht|]. simpl. lia.
Qed.

(** The members at the positions [targets] of [l], which starts at position [i]. *)
Definition members_of (i : Z) (l : list bytes) (targets : list Z) : list bytes :=
  (fun t => nth (Z.to_nat (t - i)) l []) <$> targets.

Lemma random_walk key version size fl : key_ok key = true -> is_u64 version ->
  forall i targets members fuel it bef c,
  position it = cursor_at bef ((entry_of key version <$> fl) ++ c) -> i + Z.of_nat (length fl) = size ->
  0 <= i -> size < 2 ^ 31 - 1 -> Sorted Z.le targets -> Forall (fun t => i <= t < size) targets ->
  (length fl < fuel)%nat ->
  exists it' cur, iter_while fuel Next (fun _ '(cur_index, _, _) => cur_index <? size)
      random_body it (i, targets, members) =
    Some (it', (cur, [], members ++ members_of i fl.*1 targets)).
Proof.
  intros K V. induction fl as [|x fl IH]; intros i targets members fuel it bef c Hp Hi H0 Hsz Hs HF Hf;
    (destruct fuel as [|fuel]; [simpl in Hf; lia|]).
  - exists it, i. cbn [iter_while]. rewrite (proj2 (Z.ltb_ge i size)), andb_false_r by (simpl in Hi; lia).
    destruct targets as [|t ts]; [simpl; by rewrite app_nil_r|]. apply Forall_inv in HF. simpl in Hi. lia.
  - rewrite fmap_cons in Hp. simpl in Hf, Hi. cbn [iter_while].
    rewrite Valid_position, Hp, (key_position _ _ _ _ Hp), (proj2 (Z.ltb_lt i size)) by lia.
    destruct targets as [|t ts]; [exists it, i; simpl; by rewrite app_nil_r|].
    destruct (take_targets_spec i x.1 (t :: ts) members Hs) as (k & rest & Et & Hr & HT);
      [eapply Forall_impl; [exact HF|]; simpl; lia|].
    assert (Ei : i32 (i + 1) = i + 1) by (unfold i32; rewrite Z.mod_small; lia).
    cbn [andb fst entry_of random_body]. rewrite parse_member by done. cbn [mbind option_bind pdk_data].
    rewrite HT, Ei. rewrite Et in Hs, HF |- *. cbn [cursor_at app andb mbind option_bind].
    destruct (IH (i + 1) rest (members ++ replicate k x.1) fuel (Next it) _ c (Next_cursor _ _ _ _ Hp))
      as (it' & cur & ->); [lia|lia|done| | |lia|].
    + apply Sorted_StronglySorted, StronglySorted_app in Hs; [|intros ????; lia].
      by apply StronglySorted_Sorted, Hs.
    + apply Forall_app in HF as [_ HF]. rewrite Forall_forall in *. intros u Hu.
      specialize (HF u Hu). specialize (Hr u Hu). simpl in HF. lia.
    + exists it', cur. do 3 f_equal. unfold members_of.
      rewrite <- app_assoc, fmap_app, fmap_replicate, Z.sub_diag. do 2 f_equal.
      apply list_fmap_ext. intros j u Hu%list_elem_of_lookup_2. rewrite Forall_forall in Hr. specialize (Hr u Hu).
      simpl in Hr. replace (Z.to_nat (u - i)) with (S (Z.to_nat (u - (i + 1)))) by lia. done.
Qed.

Lemma members_of_in s l targets :
  set_listing s l -> Forall (fun t => 0 <= t < Z.of_nat (size s)) targets ->
  length (members_of 0 l targets) = length targets /\ (forall f, f ∈ members_of 0 l targets -> f ∈ s) /\
  (NoDup targets -> NoDup (members_of 0 l targets)).
Proof.
  intros Hl HF. pose proof (set_listing_length _ _ Hl) as Hlen. pose proof (set_listing_NoDup _ _ Hl) as Nl.
  rewrite Forall_forall in HF. unfold members_of. split; [apply length_fmap|]. split.
  - intros f (t & -> & Ht)%list_elem_of_fmap. apply Hl. specialize (HF t Ht). simpl in HF.
    rewrite list_elem_of_In. apply nth_In. lia.
  - intros N. apply NoDup_fmap_2_strong; [|done]. intros t u Ht Hu Heq.
    pose proof (HF t Ht) as H1. pose proof (HF u Hu) as H2. simpl in H1, H2.
    apply (proj1 (NoDup_nth l [])) in Heq; [lia|by apply NoDup_ListNoDup|lia|lia].
Qed.

(** What SRANDMEMBER answers: members, all different when the count is
    positive. *)
Definition drawn (s : gset bytes) (count : Z) (l : list bytes) : Prop :=
  (forall f, f ∈ l -> f ∈ s) /\
  if 0 <? count then NoDup l /\ Z.of_nat (length l) = Z.min count (Z.of_nat (size s))
  else s <> ∅ -> Z.of_nat (length l) = - count.

Lemma SRandmember_walk fuel duration key p m s targets e now r :
  key_ok key = true -> engine_ok r -> set_at (db_ r) now key p m -> user_value <$> m = set_map s ->
  Z.of_nat (size s) < draw_limit -> Forall (fun t => 0 <= t < Z.of_nat (size s)) targets -> (size s < fuel)%nat ->
  exists l r', (let* db := gets db_ in
    let* '(_, (_, _, members)) :=
      lift (iter_while fuel Next (fun _ '(cur_index, _, _) => cur_index <? Z.of_nat (size s)) random_body
              (Seek (NewIterator db kSetsDataCF) (BaseDataKey_EncodeSeekKey key (piv_version (pbm_base p)) []))
              (0, merge_sort Z.le targets, [])) in
    let members := shuffle e members in
    let* _ := UpdateSpecificKeyDuration kSets key duration in
    ret (Status_OK, members)) r = Some ((Status_OK, l), r') /\ same_data r r' /\ stats_ok r' /\
    length l = length targets /\ (forall f, f ∈ l -> f ∈ s) /\ (NoDup targets -> NoDup l).
Proof.
  intros K He Hb Em Hlim HF Hfuel. pose proof (proj1 He) as Hdb. unfold draw_limit in Hlim.
  pose proof (base_coherent_version _ (ba_coherent _ _ _ _ _ _ _ Hb)) as V.
  destruct (Seek_prefix kSetsDataCF eq_refl key _ K V (db_ r) m Hdb (ba_members _ _ _ _ _ _ _ Hb))
    as (a & fl & c & Hl & _ & Hp & _).
  pose proof (stored_listing m s fl Em Hl) as Hs. pose proof (set_listing_length _ _ Hs) as Hlen.
  rewrite length_fmap in Hlen. pose proof (merge_sort_Permutation Z.le targets) as HP.
  destruct (random_walk key _ (Z.of_nat (size s)) fl K V 0 (merge_sort Z.le targets) [] fuel _ _ c Hp)
    as (it' & cur & HW); [lia|lia|lia|apply Sorted_merge_sort; intros ??; lia|by rewrite HP|lia|].
  rewrite bind_gets, (bind_lift _ _ _ _ HW). simpl app.
  destruct (UpdateSpecificKeyDuration_ok kSets key duration r) as (r' & H2 & Hd & Hok); [done|apply He|].
  rewrite (bind_run _ _ _ _ _ H2). set (l0 := members_of 0 fl.*1 (merge_sort Z.le targets)).
  destruct (members_of_in s fl.*1 (merge_sort Z.le targets) Hs) as (H3 & H4 & H5); [by rewrite HP|].
  pose proof (shuffle_permutes bytes e l0) as HP2. exists (shuffle e l0), r'. split; [done|]. split; [done|]. split; [done|].
  split; [|split].
  - rewrite (Permutation_length HP2). unfold l0. by rewrite H3, HP.
  - intros f. rewrite HP2. apply H4.
  - intros N. rewrite HP2. apply H5. by rewrite HP.
Qed.

(** SRANDMEMBER answers members of the set and changes nothing, and its loops
    that draw end: different members for a positive count, as many as asked
    for a negative one. *)
Theorem SRandmember_correct duration now micros key count s e r :
  key_ok key = true -> engine_ok r -> set_holds (db_ r) now key s e ->
  - 2 ^ 31 < count -> count <> 0 -> Z.of_nat (size s) < draw_limit ->
  exists N, forall fuel, (N <= fuel)%nat ->
  exists st l r', SRandmember fuel duration now micros key count r = Some ((st, l), r') /\
    status_code st = set_code s /\ drawn s count l /\ same_data r r' /\ stats_ok r'.
Proof.
  intros K He Hh Hc0 Hc1 Hlim. unfold set_code, SRandmember, drawn. rewrite (proj2 (Z.eqb_neq _ _)) by done.
  destruct (decide (s = ∅)) as [->|Hne].
  - exists 0%nat. intros fuel _.
    match goal with |- context [bind (GetBase _ _ _) ?k r] =>
      destruct (GetBase_set_none now key r k e (proj1 He) Hh) as (st & -> & Hst) end.
    exists st, [], r. split; [done|]. split; [done|]. split; [|split; [done|apply He]]. split; [set_solver|].
    rewrite size_empty. destruct (Z.ltb_spec 0 count); [split; [constructor|simpl; lia]|done].
  - set_live Hne Hh. pose proof (stored_size m s Em) as Es. pose proof (proj1 He) as Hdb.
    assert (Hpos : 0 < Z.of_nat (size s) < draw_limit) by
      (split; [|done]; destruct (size s) eqn:E0; [by apply size_empty_inv, leibniz_equiv in E0|lia]).
    destruct (Z.ltb_spec 0 count) as [Hc|Hc].
    + destruct (unique_targets_end (Z.of_nat (size s)) micros (Z.to_nat (Z.min count (Z.of_nat (size s)))) [] 0 engine_new)
        as (N & targets & e' & [Nt HF] & Hl & HN); [done|split; constructor|simpl; lia|].
      exists (Nat.max N (S (size s))). intros fuel Hfuel.
      destruct (SRandmember_walk fuel duration key p m s targets e' now r K He Hb Em Hlim HF ltac:(lia))
        as (l & r' & HW & Hd & Hok & Hll & Hin & HNl).
      exists Status_OK, l, r'. rewrite (bind_GetBase _ _ now key p m r _ Hdb Hb), (ba_count _ _ _ _ _ _ _ Hb), Es.
      replace (if count <=? Z.of_nat (size s) then count else Z.of_nat (size s))
        with (Z.of_nat (length ([] : list Z) + Z.to_nat (Z.min count (Z.of_nat (size s)))))
        by (simpl; destruct (Z.leb_spec count (Z.of_nat (size s))); lia).
      rewrite (bind_lift _ _ _ _ (HN fuel ltac:(lia))).
      split; [exact HW|]. split; [done|]. split; [|done]. split; [done|]. split; [by apply HNl|]. simpl in Hl. lia.
    + exists (S (size s)). intros fuel Hfuel.
      rewrite (bind_GetBase _ _ now key p m r _ Hdb Hb), (ba_count _ _ _ _ _ _ _ Hb), Es.
      destruct (any_targets_range (Z.of_nat (size s)) (Z.to_nat (- count)) micros [] engine_new Hpos) as [HF Hl]; [constructor|].
      destruct (any_targets (Z.to_nat (- count)) (Z.of_nat (size s)) micros [] engine_new) as [targets e'] eqn:Et.
      destruct (SRandmember_walk fuel duration key p m s targets e' now r K He Hb Em Hlim HF ltac:(lia))
        as (l & r' & HW & Hd & Hok & Hll & Hin & HNl).
      exists Status_OK, l, r'. unfold i32_neg. rewrite (proj2 (Z.eqb_neq _ _)) by lia.
      split; [|split; [done|split; [split; [done|]|done]]].
      * rewrite <- HW. unfold bind at 1 2. simpl. by rewrite Et.
      * intros _. simpl in Hl. lia.
Qed.

End SRandmember.

(** ** SSCAN

    The set scan seeks the key of a member without the suffix the stored keys
    have.  That finds its way from members without a NUL; from a member that
    ends in a NUL it can go back. *)

Definition set_view (member _ : bytes) : bytes := member.

Notation set_cursor_all := (cursor_all kSets kSetsDataCF BaseDataKey_EncodeSeekKey set_view).

(** ** Seeking without the suffix *)

Lemma byte_positive y : y <> x00 -> 0 < Z_of_byte y.
Proof.
  intros N. destruct (Z_of_byte_range y) as [H0 _].
  destruct (Z.eq_dec (Z_of_byte y) 0) as [E|]; [|lia]. destruct N. by apply Z_of_byte_inj.
Qed.

Lemma compare_unpadded n f : forall start, x00 ∉ start ->
  bytes_compare (f ++ replicate n x00) start = Lt <-> bytes_compare f start = Lt.
Proof.
  induction f as [|x f IH]; intros [|y start] N; simpl; [by destruct n| |done|].
  - destruct n as [|n]; [done|]. simpl. pose proof (byte_positive y ltac:(set_solver)).
    by destruct (Z_of_byte y).
  - destruct (Z_of_byte x ?= Z_of_byte y); [apply IH; set_solver|done..].
Qed.

(** The key that ends in a NUL is not above the key of the member without. *)
Lemma compare_back n f : forall a, x00 ∉ a ->
  bytes_compare (f ++ replicate (S n) x00) (a ++ [x00]) = Lt <-> bytes_compare f a = Lt.
Proof.
  induction f as [|x f IH]; intros [|y a] N; simpl.
  - by destruct n.
  - pose proof (byte_positive y ltac:(set_solver)). by destruct (Z_of_byte y).
  - destruct (Z.compare_spec (Z_of_byte x) (Z_of_byte x00)) as [E|E|E]; [by destruct f| |done].
    pose proof (Z_of_byte_range x). change (Z_of_byte x00) with 0 in E. lia.
  - destruct (Z_of_byte x ?= Z_of_byte y); [apply IH; set_solver|done..].
Qed.

Section Seeks.
Context {U : Uninit} (key : bytes) (version : Z) (K : key_ok key = true).

Lemma EncodeSeekKey_prefix start : seek_prefix key version `prefix_of` BaseDataKey_EncodeSeekKey key version start.
Proof. rewrite seek_key_form by done. by eexists. Qed.

Lemma EncodeSeekKey_starts start :
  x00 ∉ start -> starts_at key version (BaseDataKey_EncodeSeekKey key version start) start.
Proof.
  intros N. split; [apply EncodeSeekKey_prefix|]. intros f. rewrite seek_key_form, data_key_form by done.
  rewrite bytes_compare_app_l. by apply (compare_unpadded 16).
Qed.

(** From the member [a] with a NUL behind it, the seek reaches [a]. *)
Lemma EncodeSeekKey_back a :
  x00 ∉ a -> starts_at key version (BaseDataKey_EncodeSeekKey key version (a ++ [x00])) a.
Proof.
  intros N. split; [apply EncodeSeekKey_prefix|]. intros f. rewrite seek_key_form, data_key_form by done.
  rewrite bytes_compare_app_l. by apply (compare_back 15).
Qed.

End Seeks.

Section SetCursor.
Context {R : RocksDB} {L : RocksDBLaws R} {U : Uninit}.

(** ** Scans that end *)

(** A client that calls SSCAN with a positive count from cursor 0 until it gets
    cursor 0 again, while no other scan uses the cache of cursors, on a set
    whose members have no NUL, finishes within as many calls as the set has
    members, plus one, and has then received every matching member exactly
    once, in order. *)
Theorem SScan_complete fuel duration now key pattern ts count s e l c r :
  key_ok key = true -> engine_ok r -> set_holds (db_ r) now key s e -> s <> ∅ -> set_listing s l ->
  represents (scan_cursors_store_ r) c -> 1 <= c_capacity c ->
  find_key (cursor_key kSets key pattern 0) (c_entries c) = None ->
  tokens pattern = Some ts -> ~ escaped_tail pattern -> x00 ∉ pattern ->
  (forall f, f ∈ s -> x00 ∉ f) -> scannable ts (pairs l) ->
  0 < count -> count * (Z.of_nat (size s) + 1) < 2 ^ 63 ->
  (length (content (db_ r) kSetsDataCF) < fuel)%nat ->
  exists r', set_cursor_all (S (size s)) fuel duration now key pattern count 0 [] r =
      Some ((selected ts (pairs l)).*1, r') /\ db_ r' = db_ r.
Proof.
  intros K He Hh Hne Hl Hr Hcap H0 Ht Hbs Hz Hnul Hm Hc Hlt Hfuel.
  assert (Esz : size (set_map s) = size s).
  { unfold set_map. by rewrite <- (size_dom (D:=gset bytes)), dom_gset_to_gmap. }
  rewrite <- Esz in *.
  eapply (BaseScan_complete kSets kSetsDataCF eq_refl eq_refl BaseDataKey_EncodeSeekKey set_view (fun f => x00 ∉ f)
    (fun key version start K _ N => EncodeSeekKey_starts key version K start N)); try done.
  - by rewrite set_map_empty_iff.
  - by apply set_listing_map.
  - unfold scan_prefix. case_match; [|set_solver]. intros Hin. apply Hz.
    rewrite <- (take_drop (length pattern - 1) pattern). set_solver.
  - unfold pairs. apply Forall_fmap, Forall_forall. intros f Hf. simpl. apply Hnul, Hl, Hf.
Qed.

(** ** A scan that never ends *)

Lemma match_everything f : StringMatch (lit "*") f = Some true.
Proof. reflexivity. Qed.

Lemma matchable_everything l : matchable (lit "*") l.
Proof. apply Forall_forall. intros x _. exists true. apply match_everything. Qed.

(** One call at a cursor from where the seek reaches the least member. *)
Lemma SScan_least fuel duration now key cursor s e a b l c r stored start :
  key_ok key = true -> engine_ok r -> set_holds (db_ r) now key s e -> set_listing s (a :: b :: l) ->
  represents (scan_cursors_store_ r) c -> 1 <= c_capacity c ->
  start_of kSets c key (lit "*") cursor = (stored, cursor) ->
  (forall version, is_u64 version -> starts_at key version (BaseDataKey_EncodeSeekKey key version stored) start) ->
  Forall (fun f => bytes_compare f start <> Lt) (a :: b :: l) ->
  0 <= cursor -> cursor + 1 < 2 ^ 63 -> (length (content (db_ r) kSetsDataCF) < fuel)%nat ->
  exists r' c', SScan fuel duration now key cursor (lit "*") 1 r = Some ((Status_OK, [a], cursor + 1), r') /\
    engine_ok r' /\ db_ r' = db_ r /\ represents (scan_cursors_store_ r') c' /\ 1 <= c_capacity c' /\
    start_of kSets c' key (lit "*") (cursor + 1) = (b, cursor + 1).
Proof.
  intros K He Hh Hl Hr Hcap Hst Hseek HF H0 Hlt Hfuel.
  assert (Hne : set_map s <> ∅).
  { rewrite set_map_empty_iff. intros ->. assert (a ∈ (∅ : gset bytes)) by (apply Hl; by left). set_solver. }
  destruct (BaseScan_step kSets kSetsDataCF eq_refl eq_refl BaseDataKey_EncodeSeekKey set_view fuel duration now key
    (lit "*") 1 cursor (set_map s) e [] (pairs (a :: b :: l)) [] c r stored start cursor)
    as (r' & c' & HS & He' & Hdb' & Hr' & Hcap' & Hnext); try done.
  - simpl. set_solver.
  - rewrite app_nil_l, app_nil_r. by apply set_listing_map.
  - rewrite app_nil_r. by apply Forall_fmap.
  - apply Forall_forall. intros x _. apply prefix_nil.
  - apply matchable_everything.
  - exists r', c'. split; [exact HS|]. by rewrite Hcap'.
Qed.

(** The answers a client gets that calls [SScan] [rounds] times, each time with
    the cursor the call before answered. *)
Fixpoint scan_answers (rounds fuel : nat) (duration now : Z) (key pattern : bytes) (count cursor : Z)
    : M (list (Status * list bytes * Z)) :=
  match rounds with
  | O => ret []
  | Datatypes.S rounds =>
      let* '(s, members, next) := SScan fuel duration now key cursor pattern count in
      let* rest := scan_answers rounds fuel duration now key pattern count next in
      ret ((s, members, next) :: rest)
  end.

Lemma scan_answers_S rounds fuel duration now key cursor a r r1 r2 :
  SScan fuel duration now key cursor (lit "*") 1 r = Some ((Status_OK, [a], cursor + 1), r1) ->
  scan_answers rounds fuel duration now key (lit "*") 1 (cursor + 1) r1 =
    Some ((fun i => (Status_OK, [a], cursor + 1 + Z.of_nat i)) <$> seq 1 rounds, r2) ->
  scan_answers (Datatypes.S rounds) fuel duration now key (lit "*") 1 cursor r =
    Some ((fun i => (Status_OK, [a], cursor + Z.of_nat i)) <$> seq 1 (Datatypes.S rounds), r2).
Proof.
  intros HS HR. cbn [scan_answers]. rewrite (bind_run _ _ _ _ _ HS). cbv beta iota.
  rewrite (bind_run _ _ _ _ _ HR). unfold ret. do 2 f_equal. cbn [seq fmap list_fmap]. f_equal.
  rewrite <- (fmap_S_seq 1 rounds), <- list_fmap_compose. apply list_fmap_ext. intros i x _. simpl.
  f_equal. lia.
Qed.

(** Every call from a cursor that stands for [a] with a NUL behind it. *)
Lemma SScan_loops fuel duration now key s e a l :
  key_ok key = true -> set_listing s (a :: (a ++ [x00]) :: l) -> x00 ∉ a ->
  forall rounds cursor r c, engine_ok r -> set_holds (db_ r) now key s e ->
    represents (scan_cursors_store_ r) c -> 1 <= c_capacity c ->
    start_of kSets c key (lit "*") cursor = (a ++ [x00], cursor) -> 0 <= cursor ->
    cursor + Z.of_nat rounds < 2 ^ 63 -> (length (content (db_ r) kSetsDataCF) < fuel)%nat ->
    exists r', scan_answers rounds fuel duration now key (lit "*") 1 cursor r =
      Some ((fun i => (Status_OK, [a], cursor + Z.of_nat i)) <$> seq 1 rounds, r') /\ db_ r' = db_ r.
Proof.
  intros K Hl N. assert (HF : Forall (fun f => bytes_compare f a <> Lt) (a :: (a ++ [x00]) :: l)).
  { constructor; [by rewrite bytes_compare_refl|]. destruct Hl as [Hs _]. apply StronglySorted_inv in Hs as [_ Hs].
    eapply Forall_impl; [exact Hs|]. simpl. intros f Hf Hf'. by rewrite (cmp_sym (cmp:=bytes_compare) f a), Hf' in Hf. }
  induction rounds as [|rounds IH]; intros cursor r c He Hh Hr Hcap Hst H0 Hlt Hfuel; [by exists r|].
  destruct (SScan_least fuel duration now key cursor s e a (a ++ [x00]) l c r _ a K He Hh Hl Hr Hcap Hst)
    as (r' & c' & HS & He' & Hdb' & Hr' & Hcap' & Hst'); [|done|done|lia|done|].
  { intros version V. by apply EncodeSeekKey_back. }
  destruct (IH (cursor + 1) r' c') as (r2 & HR & Hdb2); try done; [by rewrite Hdb'|lia|lia|by rewrite Hdb'|].
  exists r2. split; [|by rewrite Hdb2]. exact (scan_answers_S _ _ _ _ _ _ _ _ _ _ HS HR).
Qed.

(** C40: A scan that never ends.  On a set whose least members are [a] and [a]
    with a NUL behind it, a client that scans with count 1 is sent back to [a]
    by every call: however often it calls, each call succeeds, answers [a]
    again and no other member, and hands out a cursor that is not zero. *)
Theorem SScan_stuck rounds fuel duration now key s e a l c r :
  key_ok key = true -> engine_ok r -> set_holds (db_ r) now key s e ->
  set_listing s (a :: (a ++ [x00]) :: l) -> x00 ∉ a ->
  represents (scan_cursors_store_ r) c -> 1 <= c_capacity c ->
  find_key (cursor_key kSets key (lit "*") 0) (c_entries c) = None ->
  Z.of_nat rounds < 2 ^ 63 -> (length (content (db_ r) kSetsDataCF) < fuel)%nat ->
  exists r', scan_answers rounds fuel duration now key (lit "*") 1 0 r =
    Some ((fun i => (Status_OK, [a], Z.of_nat i)) <$> seq 1 rounds, r') /\ db_ r' = db_ r.
Proof.
  intros K He Hh Hl N Hr Hcap Hf Hlt Hfuel. destruct rounds as [|rounds]; [by exists r|].
  destruct (SScan_least fuel duration now key 0 s e a (a ++ [x00]) l c r [] [] K He Hh Hl Hr Hcap)
    as (r' & c' & HS & He' & Hdb' & Hr' & Hcap' & Hst'); [|..|done|lia|done|].
  { unfold start_of. by rewrite Hf. }
  { intros version V. apply EncodeSeekKey_starts; [done|set_solver]. }
  { apply Forall_forall. intros f _. by destruct f. }
  destruct (SScan_loops fuel duration now key s e a l K Hl N rounds 1 r' c') as (r2 & HR & Hdb2);
    try done; [by rewrite Hdb'|lia|by rewrite Hdb'|].
  exists r2. split; [|by rewrite Hdb2]. exact (scan_answers_S _ _ _ _ _ _ _ _ _ _ HS HR).
Qed.

End SetCursor.

(** ** Keys of other types *)

Section SetType.
Context {R : RocksDB} {L : RocksDBLaws R} {U : Uninit} {E : RandomEngine}.

(** Every set command on one key, and SMOVE from it, answers a live key of
    another type with the same status and leaves the engine as it was. *)
Theorem set_wrong_type now key st r :
  healthy (db_ r) -> other_type kSets (db_ r) now key st ->
  (forall members, SAdd now key members r = Some ((st, 0), r) /\ SRem now key members r = Some ((st, 0), r)) /\
  (forall f, SIsmember now key f r = Some ((st, 0), r) /\
     (forall destination, key <> destination -> SMove now key destination f r = Some ((st, 0), r))) /\
  (forall fuel duration,
     SMembers fuel duration now key r = Some ((st, []), r) /\
     SMembersWithTTL fuel duration now key r = Some ((st, [], 0), r) /\
     (forall time cnt, SPop fuel duration now time key cnt r = Some ((st, []), r)) /\
     (forall micros count, count <> 0 -> SRandmember fuel duration now micros key count r = Some ((st, []), r)) /\
     (forall cursor pattern count, 0 <= cursor ->
        SScan fuel duration now key cursor pattern count r = Some ((st, [], 0), r))) /\
  SCard now key [] r = Some ((st, 0), r) /\ SetsDel now key [] r = Some (st, r) /\
  (forall ttl, SetsExpire now key ttl [] r = Some (st, r)) /\
  (forall t, SetsExpireat now key t [] r = Some (st, r)) /\
  SetsPersist now key [] r = Some (st, r) /\ SetsTTL now key [] r = Some ((st, 0), r).
Proof.
  intros Hdb Ho. split_and!; intros; split_and?; intros;
    unfold SAdd, SRem, SIsmember, SMove, SMembers, SMembersWithTTL, SPop, SRandmember, SScan, BaseScan, SCard,
      SetsDel, BaseDel, SetsExpire, BaseExpire, SetsExpireat, BaseExpireat, SetsPersist, BasePersist, SetsTTL, BaseTTL, GetBaseOrPrefetched, GetBaseMeta, GetMetaOrPrefetched;
    rewrite ?(proj2 (Z.ltb_ge _ 0)), ?(proj2 (Z.eqb_neq _ 0)), ?bool_decide_eq_false_2, ?decide_False by done;
    try (by rewrite (bind_GetMeta_other kSets now key st r _ Hdb Ho));
    try (by rewrite (bind_run _ _ _ _ _ (GetBase_other kSets now key st r Hdb Ho)));
    unfold bind; rewrite ?(GetBase_other kSets now key st r Hdb Ho),
      ?(GetMeta_other kSets now key st r Hdb Ho); try done.
Qed.

End SetType.
