(* ===== verification/SetWitness.v ===== *)
(** * The set theorems at work

    Each theorem about sets applied to a concrete engine, keys and arguments. *)

From Stdlib Require Import Sorting.Sorted.
From S2P Require Import Prelude Coding Numbers Glob KeyFormat Comparator ValueFormat RocksDB LruCache Redis Random KeySpace Sample Strings BaseData BaseSpec BaseScan BaseHolds BaseWrite BaseCursor HashWitness Sets SetSpec SetWrite SetAlgebra SetRandom.
Open Scope Z_scope.

(** The set [abc] under [q_key] and [bd] under [p_key]. *)
Definition p_key : bytes := lit "p".
Definition abc_list : list bytes := [lit "a"; lit "b"; lit "c"].
Definition bd_list : list bytes := [lit "b"; lit "d"].
Notation abc := (list_to_set abc_list : gset bytes).
Notation bd := (list_to_set bd_list : gset bytes).

Definition one_set_engine : Redis := after (Write (new_set 1000 q_key abc_list)) fresh_engine.
Definition set_engine : Redis := after (Write (new_set 1000 p_key bd_list)) one_set_engine.

Lemma one_set_stores : set_stores 1000 q_key abc 0 fresh_engine one_set_engine.
Proof.
  destruct (new_set_stores 1000 q_key abc_list fresh_engine eq_refl clock_1000 fresh_engine_ok)
    as (r' & HW & Hst); [apply (bool_decide_unpack _); vm_compute; exact I|simpl; lia|by apply empty_fresh|].
  unfold one_set_engine, after. rewrite HW. exact Hst.
Qed.

Lemma other_keys : q_key <> p_key.
Proof. discriminate. Qed.

Lemma set_engine_stores : set_stores 1000 p_key bd 0 one_set_engine set_engine.
Proof.
  destruct one_set_stores as (He & _ & Ho).
  destruct (new_set_stores 1000 p_key bd_list one_set_engine eq_refl clock_1000 He)
    as (r' & HW & Hst); [apply (bool_decide_unpack _); vm_compute; exact I|simpl; lia| |].
  - apply (fresh_transport kSetsDataCF (db_ fresh_engine)); [|by apply empty_fresh].
    by apply (others_key kSetsDataCF q_key).
  - unfold set_engine, after. rewrite HW. exact Hst.
Qed.

Lemma set_engine_ok : engine_ok set_engine.
Proof. apply set_engine_stores. Qed.

Lemma set_engine_bd : set_holds (db_ set_engine) 1000 p_key bd 0.
Proof. apply set_engine_stores. Qed.

Lemma set_engine_abc : set_holds (db_ set_engine) 1000 q_key abc 0.
Proof.
  destruct set_engine_stores as (_ & _ & Ho). destruct one_set_stores as (_ & Hh & _).
  apply (holds_transport kSets kSetsDataCF (db_ one_set_engine)); [|exact Hh].
  by apply (others_key kSetsDataCF p_key).
Qed.

(** A meta value with version 1000 leaves room. *)
Lemma room_1000 r key :
  (fun q => piv_version (pbm_base q)) <$>
    ParsedBaseMetaValue_parse true (default [] (meta_of (db_ r) key)) = Some 1000 ->
  version_room (db_ r) key.
Proof.
  intros E' p Hm (_ & _ & Hp). rewrite Hm in E'. cbn [default] in E'. unfold default, id in E'.
  rewrite Hp in E'. simpl in E'. injection E' as ->. lia.
Qed.

Lemma set_engine_room key : key = q_key \/ key = p_key -> version_room (db_ set_engine) key.
Proof. intros [->| ->]; apply room_1000; vm_compute; reflexivity. Qed.

Lemma set_engine_fuel : (length (content (db_ set_engine) kSetsDataCF) < 10)%nat.
Proof. vm_compute. lia. Qed.

Lemma set_reads_correct_witness : exists st,
  SIsmember 1000 q_key (lit "b") set_engine = Some ((st, 1), set_engine) /\ status_code st = kOk.
Proof.
  exact (proj1 (set_reads_correct 10 7 1000 q_key abc 0 set_engine eq_refl clock_1000 set_engine_ok set_engine_abc
    ltac:(unfold is_i64; lia) set_engine_fuel) (lit "b")).
Defined.

Lemma SAdd_correct_witness : exists r',
  SAdd 1000 q_key [lit "d"; lit "a"; lit "d"] set_engine = Some ((Status_OK, 1), r') /\
  set_stores 1000 q_key (abc ∪ list_to_set [lit "d"; lit "a"; lit "d"]) 0 set_engine r'.
Proof.
  exact (SAdd_correct 1000 q_key [lit "d"; lit "a"; lit "d"] abc 0 set_engine eq_refl clock_1000 set_engine_ok
    set_engine_abc (set_engine_room _ (or_introl eq_refl)) ltac:(vm_compute; reflexivity)).
Defined.

Lemma SRem_correct_witness : exists st r',
  SRem 1000 q_key [lit "c"; lit "z"] set_engine = Some ((st, 1), r') /\ status_code st = kOk /\
  set_stores 1000 q_key (abc ∖ list_to_set [lit "c"; lit "z"]) 0 set_engine r'.
Proof.
  exact (SRem_correct 1000 q_key [lit "c"; lit "z"] abc 0 set_engine eq_refl set_engine_ok set_engine_abc
    ltac:(apply (bool_decide_unpack _); vm_compute; exact I)).
Defined.

Lemma abc_set_nonempty : abc <> ∅.
Proof. set_solver. Qed.
Lemma bd_set_nonempty : bd <> ∅.
Proof. set_solver. Qed.

Lemma SRem_repeats_witness : exists r',
  SRem 1000 p_key [lit "b"; lit "b"] set_engine = Some ((Status_OK, 2), r') /\
  set_stores 1000 p_key ∅ 0 set_engine r'.
Proof.
  exact (proj2 (SRem_repeats 1000 p_key [lit "b"; lit "b"] bd 0 set_engine eq_refl set_engine_ok set_engine_bd
    bd_set_nonempty ltac:(vm_compute; reflexivity)) ltac:(vm_compute; reflexivity)).
Defined.

Lemma SMove_correct_witness : exists r',
  SMove 1000 q_key p_key (lit "a") set_engine = Some ((Status_OK, 1), r') /\
  set_holds (db_ r') 1000 q_key (abc ∖ {[lit "a"]}) 0 /\ set_holds (db_ r') 1000 p_key (bd ∪ {[lit "a"]}) 0.
Proof.
  destruct (SMove_correct 1000 q_key p_key (lit "a") abc 0 bd 0 set_engine other_keys eq_refl eq_refl clock_1000
    set_engine_ok set_engine_abc set_engine_bd (set_engine_room _ (or_intror eq_refl)) ltac:(vm_compute; reflexivity))
    as (r' & H1 & _ & H2 & H3 & _).
  exists r'. split; [exact H1|]. split; [exact H2|exact H3].
Defined.

(** ** Several sets *)

Definition sample_sets (key : bytes) : gset bytes := if decide (key = q_key) then abc else bd.

Lemma sample_sets_hold : holds_all (db_ set_engine) 1000 sample_sets [q_key; p_key].
Proof.
  constructor; [split; [done|exists 0; exact set_engine_abc]|].
  constructor; [split; [done|exists 0; exact set_engine_bd]|constructor].
Qed.

Lemma set_algebra_correct_witness : exists l r',
  SDiff 10 7 1000 [q_key; p_key] set_engine = Some ((Status_OK, l), r') /\
  set_listing (abc ∖ union_of sample_sets [p_key]) l /\ same_data set_engine r'.
Proof.
  exact (proj1 (set_algebra_correct 10 7 (fun _ => 7) 1000 sample_sets q_key [p_key] set_engine set_engine_ok
    sample_sets_hold set_engine_fuel)).
Defined.


(** A key nothing has used. *)
Definition u_key : bytes := lit "u".

Lemma set_engine_unused : fresh_from kSetsDataCF (db_ set_engine) u_key (next_version 1000 0).
Proof.
  destruct set_engine_stores as (_ & _ & Hp). destruct one_set_stores as (_ & _ & Hq).
  apply (fresh_transport kSetsDataCF (db_ one_set_engine)); [by apply (others_key kSetsDataCF p_key)|].
  apply (fresh_transport kSetsDataCF (db_ fresh_engine)); [by apply (others_key kSetsDataCF q_key)|].
  by apply empty_fresh.
Qed.

Lemma set_engine_gone : gone kSets (db_ set_engine) 1000 u_key.
Proof. left. vm_compute. reflexivity. Qed.

Lemma SUnionstore_correct_witness : exists l r',
  SUnionstore 10 (fun _ => 7) 1000 u_key [q_key; p_key] set_engine =
    Some ((Status_OK, l, Z.of_nat (length l)), r') /\
  NoDup l /\ list_to_set l = union_of sample_sets [q_key; p_key] /\
  set_stores 1000 u_key (union_of sample_sets [q_key; p_key]) 0 set_engine r'.
Proof.
  exact (SUnionstore_correct 10 (fun _ => 7) 1000 sample_sets u_key q_key [p_key] set_engine eq_refl clock_1000
    set_engine_ok sample_sets_hold set_engine_gone set_engine_unused
    ltac:(vm_compute; reflexivity) set_engine_fuel).
Defined.

Lemma SUnionstore_lost_witness : exists l r',
  SUnionstore 10 (fun _ => 7) 1000 p_key [q_key; p_key] set_engine =
    Some ((Status_OK, l, Z.of_nat (length l)), r') /\
  list_to_set l = union_of sample_sets [q_key; p_key] /\
  SCard 1000 p_key [] r' = Some ((Status_OK, 2), r').
Proof.
  destruct (SUnionstore_lost 10 (fun _ => 7) 1000 sample_sets p_key q_key [p_key] bd 0 set_engine eq_refl clock_1000
    set_engine_ok sample_sets_hold set_engine_bd bd_set_nonempty (set_engine_room _ (or_intror eq_refl))
    ltac:(vm_compute; reflexivity) set_engine_fuel) as (l & r' & H1 & H2 & H3 & _).
  exists l, r'. split; [exact H1|]. split; [exact H2|exact H3].
Defined.

(** ** Random members *)

(** The engine of the library, with a shuffle that reverses. *)
#[local] Instance reversing : RandomEngine := minstd_rand0 (fun A _ l => rev l).

Lemma rev_permutes (A : Type) (x : Z) (l : list A) : rev l ≡ₚ l.
Proof. symmetry. apply Permutation_rev. Qed.

Lemma SPop_correct_witness : exists N, forall fuel, (N <= fuel)%nat ->
  exists st l r', SPop fuel 7 1000 42 q_key 2 set_engine = Some ((st, l), r') /\ status_code st = kOk /\
    popped abc 2 l /\ set_stores 1000 q_key (abc ∖ list_to_set l) 0 set_engine r'.
Proof.
  exact (SPop_correct (LE := minstd_laws _ rev_permutes) 7 1000 42 q_key 2 abc 0 set_engine eq_refl set_engine_ok
    set_engine_abc ltac:(lia) ltac:(vm_compute; reflexivity) ltac:(intros H; vm_compute in H; discriminate)).
Defined.

Lemma SRandmember_correct_witness : exists N, forall fuel, (N <= fuel)%nat ->
  exists st l r', SRandmember fuel 7 1000 42 q_key (-5) set_engine = Some ((st, l), r') /\ status_code st = kOk /\
    drawn abc (-5) l /\ same_data set_engine r' /\ stats_ok r'.
Proof.
  exact (SRandmember_correct (LE := minstd_laws _ rev_permutes) 7 1000 42 q_key (-5) abc 0 set_engine eq_refl
    set_engine_ok set_engine_abc ltac:(lia) ltac:(lia) ltac:(vm_compute; reflexivity)).
Defined.

(** ** Scans *)

Lemma abc_set_listing : set_listing abc abc_list.
Proof. split; [repeat constructor|]. intros f. by rewrite elem_of_list_to_set. Qed.

(** A new engine has an empty cache of cursors, and [Write] leaves it. *)
Lemma Write_cursors b r : scan_cursors_store_ (after (Write b) r) = scan_cursors_store_ r.
Proof. unfold after, Write. by destruct (db_Write _ _). Qed.

Lemma fresh_cursors : represents (scan_cursors_store_ fresh_engine) (mkCache 5000 []).
Proof.
  unfold fresh_engine, Redis_new.
  destruct (SetCapacity_refines (K:=bytes) (V:=bytes) LRUCache_new (mkCache 0 []) 5000 represents_new)
    as (s & -> & Hrep). exact Hrep.
Qed.

Lemma set_engine_cursors : represents (scan_cursors_store_ set_engine) (mkCache 5000 []).
Proof. unfold set_engine, one_set_engine. rewrite !Write_cursors. apply fresh_cursors. Qed.

Lemma abc_no_nul f : f ∈ abc -> x00 ∉ f.
Proof.
  rewrite elem_of_list_to_set. unfold abc_list. intros Hf.
  repeat (apply elem_of_cons in Hf as [->|Hf]; [apply (bool_decide_unpack _); vm_compute; exact I|]).
  by apply not_elem_of_nil in Hf.
Qed.

Lemma SScan_complete_witness : exists r',
  set_cursor_all 4 10 7 1000 q_key (lit "[ac]") 2 0 [] set_engine = Some ([lit "a"; lit "c"], r') /\
  db_ r' = db_ set_engine.
Proof.
  refine (SScan_complete 10 7 1000 q_key (lit "[ac]") [Class false [IChar "a"; IChar "c"]]%byte 2 abc 0 abc_list (mkCache 5000 [])
    set_engine eq_refl set_engine_ok set_engine_abc abc_set_nonempty abc_set_listing set_engine_cursors _ eq_refl eq_refl _ _
    abc_no_nul _ _ _ set_engine_fuel).
  - simpl. lia.
  - intros (q & E & _). by apply (f_equal last) in E; rewrite last_snoc in E.
  - apply (bool_decide_unpack _). vm_compute. exact I.
  - repeat constructor.
  - lia.
  - vm_compute. reflexivity.
Defined.

(** The set of [a] and [a] with a NUL behind it. *)
Definition nul_list : list bytes := [lit "a"; lit "a" ++ [x00]].
Notation nul_set := (list_to_set nul_list : gset bytes).
Definition nul_engine : Redis := after (Write (new_set 1000 q_key nul_list)) fresh_engine.

Lemma nul_engine_stores : set_stores 1000 q_key nul_set 0 fresh_engine nul_engine.
Proof.
  destruct (new_set_stores 1000 q_key nul_list fresh_engine eq_refl clock_1000 fresh_engine_ok)
    as (r' & HW & Hst); [apply (bool_decide_unpack _); vm_compute; exact I|simpl; lia|by apply empty_fresh|].
  unfold nul_engine, after. rewrite HW. exact Hst.
Qed.

Lemma nul_listing : set_listing nul_set nul_list.
Proof. split; [repeat constructor|]. intros f. by rewrite elem_of_list_to_set. Qed.

Lemma SScan_stuck_witness :
  exists r', scan_answers 1000 10 7 1000 q_key (lit "*") 1 0 nul_engine =
    Some ((fun i => (Status_OK, [lit "a"], Z.of_nat i)) <$> seq 1 1000, r') /\ db_ r' = db_ nul_engine.
Proof.
  refine (SScan_stuck 1000 10 7 1000 q_key nul_set 0 (lit "a") [] (mkCache 5000 []) nul_engine eq_refl
    (proj1 nul_engine_stores) (proj1 (proj2 nul_engine_stores)) nul_listing _ _ _ eq_refl _ _).
  - apply (bool_decide_unpack _). vm_compute. exact I.
  - unfold nul_engine. rewrite Write_cursors. apply fresh_cursors.
  - simpl. lia.
  - lia.
  - vm_compute. lia.
Defined.

Lemma set_wrong_type_witness :
  SMembers 10 7 1000 q_key (string_engine (lit "v") 0) =
  Some ((default Status_OK (WrongType q_key kSets
           (StringsValue_Encode (InternalValue_SetEtime (InternalValue_new 1000 kStrings (lit "v")) 0))), []),
        string_engine (lit "v") 0).
Proof.
  refine (proj1 (proj1 (proj2 (proj2 (set_wrong_type 1000 q_key _ (string_engine (lit "v") 0) _ _))) 10%nat 7)).
  - apply meta_engine_ok.
  - eexists. split; [apply meta_engine_meta|]. split; [discriminate|]. split; vm_compute; reflexivity.
Defined.
