(* ===== verification/ZSets.v ===== *)
(** * Sorted set commands ([src/src/storage/src/redis_zsets.cc])

    One definition per command of [Redis] on sorted sets.  A sorted set is a base
    meta value in [kMetaCF], one entry per member in [kZsetsDataCF] whose value is
    the score, and one entry per member in [kZsetsScoreCF], keyed by the score and
    then the member, with an empty value.  A score is the bit pattern of its
    [double].

    [fuel] bounds the rounds of a loop and [duration] is the time a guard
    measures.  An out parameter a command does not assign is returned as its
    initial value, empty or 0. *)

From stdpp Require Import sorting.
From S2P Require Import Prelude Coding Numbers Glob KeyFormat Comparator Doubles ValueFormat RocksDB LruCache Redis BaseData Sets.
Open Scope Z_scope.

(** [struct ScoreMember] and [enum AGGREGATE] of [storage.h] *)
Definition ScoreMember : Type := Z * bytes.
Inductive AGGREGATE := SUM | MIN | MAX.

(** The score at the start of a value; undefined on less than 8 bytes. *)
Definition read_score (data : bytes) : option Z :=
  if Nat.ltb (length data) 8 then None else Some (DecodeFixed64 data).

(** The score in the user's part of a stored value, read in place. *)
Definition stored_score (v : bytes) : option Z :=
  if Nat.ltb (length v) kBaseDataValueSuffixLength then None else read_score v.

(** [ParsedBaseDataValue(&data_value).StripSuffix()], then the score. *)
Definition stripped_score (data_value : bytes) : option Z :=
  data ← ParsedBaseDataValue_StripSuffix (ParsedBaseDataValue true data_value);
  read_score data.

(** Distinct members, last occurrences, in order ([ZAdd]). *)
Definition filtered_score_members (score_members : list ScoreMember) : list ScoreMember :=
  fold_right (fun sm acc => if decide (snd sm ∈ snd <$> acc) then acc else sm :: acc) [] score_members.

(** [left_pass] and [right_pass] of the commands on ranges of scores. *)
Definition left_pass (min : Z) (left_close : bool) (score : Z) : bool :=
  (left_close && double_leb min score) || (negb left_close && double_ltb min score).
Definition right_pass (max : Z) (right_close : bool) (score : Z) : bool :=
  (right_close && double_leb score max) || (negb right_close && double_ltb score max).

(** The same on members, between ["-"] and ["+"]. *)
Definition lex_left_pass (min : bytes) (left_close : bool) (member : bytes) : bool :=
  bool_decide (min = lit "-") ||
  (left_close && match bytes_compare min member with Gt => false | _ => true end) ||
  (negb left_close && match bytes_compare min member with Lt => true | _ => false end).
Definition lex_right_pass (max : bytes) (right_close : bool) (member : bytes) : bool :=
  bool_decide (max = lit "+") ||
  (right_close && match bytes_compare max member with Lt => false | _ => true end) ||
  (negb right_close && match bytes_compare max member with Gt => true | _ => false end).

(** [start_index] and [stop_index] of [ZRange], [ZRangeWithTTL] and
    [ZRemrangebyrank]. *)
Definition rank_range (count start stop : Z) : option (Z * Z) :=
  start_index ← (if 0 <=? start then Some start else i32_val (count + start));
  stop_index ← (if 0 <=? stop then Some stop else i32_val (count + stop));
  let start_index := if start_index <=? 0 then 0 else start_index in
  stop_index ← (if count <=? stop_index then i32_val (count - 1) else Some stop_index);
  Some (start_index, stop_index).

(** Those of [ZRevrange]. *)
Definition rev_index (count i : Z) : option Z :=
  x ← (if 0 <=? i then i32_val (count - i) else i32_val (- i));
  i32_val (x - 1).
Definition rev_range (count start stop : Z) : option (Z * Z) :=
  start_index ← rev_index count stop;
  stop_index ← rev_index count start;
  let start_index := if start_index <=? 0 then 0 else start_index in
  stop_index ← (if count <=? stop_index then i32_val (count - 1) else Some stop_index);
  Some (start_index, stop_index).

Section ZSets.
Context {R : RocksDB} {U : Uninit}.

Definition put_score (now : Z) (key : bytes) (version : Z) (sm : ScoreMember) : list WriteOp :=
  [Put kZsetsDataCF (BaseDataKey_Encode key version (snd sm)) (base_value now (EncodeFixed64 (fst sm)));
   Put kZsetsScoreCF (ZSetsScoreKey_Encode key version (fst sm) (snd sm)) (base_value now [])].
Definition delete_score (key : bytes) (version : Z) (sm : ScoreMember) : WriteOp :=
  Delete kZsetsScoreCF (ZSetsScoreKey_Encode key version (fst sm) (snd sm)).

Definition ScanZsetsKeyNum : nat -> Z -> M (Status * KeyInfo) := ScanBaseKeyNum kZSets.

(** The end of the commands that write: [*ret] and the statistics. *)
Definition zset_finish {A} (key : bytes) (statistic : Z) (batch : list WriteOp) (a : A)
    : M (Status * A) :=
  let* s := Write batch in
  let* _ := UpdateSpecificKeyStatistics kZSets key statistic in
  ret (s, a).

(** ** Popping *)

(** The loop of [ZPopMax] and [ZPopMin]: the deletions, what is popped and
    [del_cnt], which is also [statistic]. *)
Definition zpop_body (key : bytes) (version : Z) (k v : bytes) (st : list WriteOp * list ScoreMember * Z)
    : option (bool * (list WriteOp * list ScoreMember * Z)) :=
  let '(batch, score_members, del_cnt) := st in
  q ← ParsedZSetsScoreKey_decode k;
  Some (true, (batch ++ [Delete kZsetsDataCF (BaseDataKey_Encode key version (pzk_member q)); Delete kZsetsScoreCF k],
               score_members ++ [(pzk_score q, pzk_member q)], del_cnt + 1)).

(** Both, from where [seek] puts an iterator and then by [move]. *)
Definition ZPop (score : Z) (seek : Iterator -> bytes -> Iterator) (move : Iterator -> Iterator)
    (fuel : nat) (duration now : Z) (key : bytes) (count : Z) : M (Status * list ScoreMember) :=
  let* m := GetBase now kZSets key in
  match m with
  | inl st => ret (st, [])
  | inr p =>
      let num := if pbm_count p <=? count then pbm_count p else count in
      let version := piv_version (pbm_base p) in
      let* db := gets db_ in
      let* '(_, (batch, score_members, del_cnt)) :=
        lift (iter_while fuel move (fun _ '(_, _, del_cnt) => del_cnt <? num) (zpop_body key version)
                (seek (NewIterator db kZsetsScoreCF) (ZSetsScoreKey_Encode key version score []))
                ([], [], 0)) in
      if negb (ParsedBaseMetaValue_CheckModifyCount p (- del_cnt)) then
        let* _ := UpdateSpecificKeyDuration kZSets key duration in
        ret (Status_InvalidArgument (lit "zset size overflow"), score_members)
      else
        let* p := lift (ParsedBaseMetaValue_ModifyCount p (- del_cnt)) in
        let* r := zset_finish key (u32 del_cnt) (batch ++ [put_base_meta key p]) score_members in
        let* _ := UpdateSpecificKeyDuration kZSets key duration in
        ret r
  end.

Definition ZPopMax : nat -> Z -> Z -> bytes -> Z -> M (Status * list ScoreMember) :=
  ZPop double_highest SeekForPrev Prev.
Definition ZPopMin : nat -> Z -> Z -> bytes -> Z -> M (Status * list ScoreMember) :=
  ZPop double_lowest Seek Next.

(** ** Adding *)

(** The members of [ZAdd] in turn: the writes, [cnt] and [statistic]. *)
Fixpoint ZAdd_loop (now : Z) (key : bytes) (version : Z) (vaild : bool) (sms : list ScoreMember)
    (batch : list WriteOp) (cnt statistic : Z) : M (Status + list WriteOp * Z * Z) :=
  match sms with
  | [] => ret (inr (batch, cnt, statistic))
  | sm :: sms =>
      if vaild then
        let* '(s, data_value) := Get kZsetsDataCF (BaseDataKey_Encode key version (snd sm)) in
        if ok s then
          let* old_score := lift (stripped_score data_value) in
          if double_eqb old_score (fst sm) then ZAdd_loop now key version vaild sms batch cnt statistic
          else
            ZAdd_loop now key version vaild sms
              (batch ++ delete_score key version (old_score, snd sm) :: put_score now key version sm)
              cnt (u32 (statistic + 1))
        else if IsNotFound s then
          ZAdd_loop now key version vaild sms (batch ++ put_score now key version sm) (i32 (cnt + 1)) statistic
        else ret (inl s)
      else ZAdd_loop now key version vaild sms (batch ++ put_score now key version sm) (i32 (cnt + 1)) statistic
  end.

Definition ZAdd (now : Z) (key : bytes) (score_members : list ScoreMember) : M (Status * Z) :=
  let score_members := filtered_score_members score_members in
  let* m := GetMeta now kZSets key key in
  match m with
  | inl st => ret (st, 0)
  | inr (s, meta_value) =>
      if ok s then
        let* p := lift (ParsedBaseMetaValue_parse true meta_value) in
        let vaild := negb (base_dead now p) in
        let p := if vaild then p else ParsedBaseMetaValue_InitialMetaValue now p in
        let* l := ZAdd_loop now key (piv_version (pbm_base p)) vaild score_members [] 0 0 in
        match l with
        | inl st => ret (st, 0)
        | inr (batch, cnt, statistic) =>
            if negb (ParsedBaseMetaValue_CheckModifyCount p cnt) then
              ret (Status_InvalidArgument (lit "zset size overflow"), 0)
            else
              let* p := lift (ParsedBaseMetaValue_ModifyCount p cnt) in
              zset_finish key statistic (batch ++ [put_base_meta key p]) cnt
        end
      else if IsNotFound s then
        let m := new_base_meta now kZSets (Z.of_nat (length score_members)) in
        zset_finish key 0
          (Put kMetaCF (BaseKey_Encode key) (BaseMetaValue_Encode m) ::
           (score_members ≫= put_score now key (iv_version m)))
          (i32 (Z.of_nat (length score_members)))
      else ret (s, 0)
  end.

Definition ZCard : Z -> bytes -> bytes -> M (Status * Z) := BaseCard kZSets.

Definition ZIncrby (now : Z) (key member : bytes) (increment : Z) : M (Status * Z) :=
  let finish version score statistic batch :=
    zset_finish key statistic (batch ++ put_score now key version (score, member)) score in
  let* m := GetMeta now kZSets key key in
  match m with
  | inl st => ret (st, 0)
  | inr (s, meta_value) =>
      if ok s then
        let* p := lift (ParsedBaseMetaValue_parse true meta_value) in
        let p := if base_dead now p then ParsedBaseMetaValue_InitialMetaValue now p else p in
        let version := piv_version (pbm_base p) in
        let* '(s, data_value) := Get kZsetsDataCF (BaseDataKey_Encode key version member) in
        if ok s then
          let* old_score := lift (stripped_score data_value) in
          finish version (double_add old_score increment) 1 [delete_score key version (old_score, member)]
        else if IsNotFound s then
          if negb (ParsedBaseMetaValue_CheckModifyCount p 1) then
            ret (Status_InvalidArgument (lit "zset size overflow"), 0)
          else
            let* p := lift (ParsedBaseMetaValue_ModifyCount p 1) in
            finish version increment 0 [put_base_meta key p]
        else ret (s, 0)
      else if IsNotFound s then
        let m := new_base_meta now kZSets 1 in
        finish (iv_version m) increment 0
          [Put kMetaCF (BaseKey_Encode key) (BaseMetaValue_Encode m)]
      else ret (s, 0)
  end.

(** ** Reading by rank *)

(** The loops of [ZRange] and [ZRangeWithTTL]: [cur_index] and the members from
    [start_index] on. *)
Definition range_rank_body (start_index : Z) (k v : bytes) (st : Z * list ScoreMember)
    : option (bool * (Z * list ScoreMember)) :=
  let '(cur_index, score_members) := st in
  if start_index <=? cur_index then
    q ← ParsedZSetsScoreKey_decode k;
    Some (true, (cur_index + 1, score_members ++ [(pzk_score q, pzk_member q)]))
  else Some (true, (cur_index + 1, score_members)).

(** What both do once they know the key is there. *)
Definition range_by_rank (fuel : nat) (duration : Z) (key : bytes) (p : ParsedBaseMetaValue)
    (start stop : Z) : M (list ScoreMember) :=
  let count := pbm_count p in
  let version := piv_version (pbm_base p) in
  let* '(start_index, stop_index) := lift (rank_range count start stop) in
  if (stop_index <? start_index) || (count <=? start_index) || (stop_index <? 0) then ret []
  else
    let* db := gets db_ in
    let* '(_, (_, score_members)) :=
      lift (iter_while fuel Next (fun _ '(cur_index, _) => cur_index <=? stop_index)
              (range_rank_body start_index)
              (Seek (NewIterator db kZsetsScoreCF) (ZSetsScoreKey_Encode key version double_lowest []))
              (0, [])) in
    let* _ := UpdateSpecificKeyDuration kZSets key duration in
    ret score_members.

Definition ZRange (fuel : nat) (duration now : Z) (key : bytes) (start stop : Z)
    : M (Status * list ScoreMember) :=
  let* m := GetBase now kZSets key in
  match m with
  | inl st => ret (st, [])
  | inr p =>
      let* score_members := range_by_rank fuel duration key p start stop in
      ret (Status_OK, score_members)
  end.

Definition ZRangeWithTTL (fuel : nat) (duration now : Z) (key : bytes) (start stop : Z)
    : M (Status * list ScoreMember * Z) :=
  let* m := GetMeta now kZSets key key in
  match m with
  | inl st => ret (st, [], 0)
  | inr (s, meta_value) =>
      if ok s then
        let* p := lift (ParsedBaseMetaValue_parse true meta_value) in
        if pbm_count p =? 0 then ret (Status_NotFound [], [], 0)
        else if IsStale now (pbm_base p) then ret (Status_NotFound (lit "Stale"), [], 0)
        else
          let ttl_millsec := ttl_of now (piv_etime (pbm_base p)) in
          let* score_members := range_by_rank fuel duration key p start stop in
          ret (s, score_members, ttl_millsec)
      else ret (s, [], 0)
  end.

Definition rev_rank_body (stop_index : Z) (k v : bytes) (st : Z * list ScoreMember)
    : option (bool * (Z * list ScoreMember)) :=
  let '(cur_index, score_members) := st in
  if cur_index <=? stop_index then
    q ← ParsedZSetsScoreKey_decode k;
    Some (true, (cur_index - 1, score_members ++ [(pzk_score q, pzk_member q)]))
  else Some (true, (cur_index - 1, score_members)).

Definition ZRevrange (fuel : nat) (duration now : Z) (key : bytes) (start stop : Z)
    : M (Status * list ScoreMember) :=
  let* m := GetBase now kZSets key in
  match m with
  | inl st => ret (st, [])
  | inr p =>
      let count := pbm_count p in
      let version := piv_version (pbm_base p) in
      let* '(start_index, stop_index) := lift (rev_range count start stop) in
      if (stop_index <? start_index) || (count <=? start_index) || (stop_index <? 0)
      then ret (Status_OK, [])
      else
        let* cur_index := lift (i32_val (count - 1)) in
        let* db := gets db_ in
        let* '(_, (_, score_members)) :=
          lift (iter_while fuel Prev (fun _ '(cur_index, _) => start_index <=? cur_index)
                  (rev_rank_body stop_index)
                  (SeekForPrev (NewIterator db kZsetsScoreCF)
                     (ZSetsScoreKey_Encode key version double_highest []))
                  (cur_index, [])) in
        let* _ := UpdateSpecificKeyDuration kZSets key duration in
        ret (Status_OK, score_members)
  end.

(** The loops of [ZRank] and [ZRevrank]: [index] and [found]. *)
Definition rank_body (member k v : bytes) (st : Z * bool) : option (bool * (Z * bool)) :=
  let '(index, found) := st in
  q ← ParsedZSetsScoreKey_decode k;
  match bytes_compare (pzk_member q) member with
  | Eq => Some (false, (index, true))
  | _ => Some (true, (index + 1, found))
  end.

Definition ZRank (fuel : nat) (duration now : Z) (key member : bytes) : M (Status * Z) :=
  let* m := GetBase now kZSets key in
  match m with
  | inl st => ret (st, -1)
  | inr p =>
      let version := piv_version (pbm_base p) in
      let* stop_index := lift (i32_val (pbm_count p - 1)) in
      let* db := gets db_ in
      let* '(_, (index, found)) :=
        lift (iter_while fuel Next (fun _ '(index, _) => index <=? stop_index) (rank_body member)
                (Seek (NewIterator db kZsetsScoreCF) (ZSetsScoreKey_Encode key version double_lowest []))
                (0, false)) in
      let* _ := UpdateSpecificKeyDuration kZSets key duration in
      if found : bool then ret (Status_OK, index) else ret (Status_NotFound [], -1)
  end.

(** [left] is [Count() - rev_index]. *)
Definition ZRevrank (fuel : nat) (duration now : Z) (key member : bytes) : M (Status * Z) :=
  let* m := GetBase now kZSets key in
  match m with
  | inl st => ret (st, -1)
  | inr p =>
      let version := piv_version (pbm_base p) in
      let* db := gets db_ in
      let* '(_, (rev_index, found)) :=
        lift (iter_while fuel Prev (fun _ '(rev_index, _) => 0 <? pbm_count p - rev_index) (rank_body member)
                (SeekForPrev (NewIterator db kZsetsScoreCF)
                   (ZSetsScoreKey_Encode key version double_highest []))
                (0, false)) in
      let* _ := UpdateSpecificKeyDuration kZSets key duration in
      if found : bool then ret (Status_OK, rev_index) else ret (Status_NotFound [], -1)
  end.

(** ** Reading by score *)

(** The entry is not one of the zset. *)
Definition foreign (key : bytes) (version : Z) (q : ParsedZSetsScoreKey) : bool :=
  negb (bool_decide (pzk_key q = key)) || negb (pzk_version q =? version).

(** [cur_index] and [cnt]. *)
Definition count_body (key : bytes) (version min max : Z) (left_close right_close : bool)
    (k v : bytes) (st : Z * Z) : option (bool * (Z * Z)) :=
  let '(cur_index, cnt) := st in
  q ← ParsedZSetsScoreKey_decode k;
  if foreign key version q then Some (false, st)
  else
    let left_pass := left_pass min left_close (pzk_score q) in
    let right_pass := right_pass max right_close (pzk_score q) in
    if left_pass && right_pass then Some (true, (cur_index + 1, cnt + 1))
    else if negb right_pass then Some (false, st)
    else Some (true, (cur_index + 1, cnt)).

Definition ZCount (fuel : nat) (duration now : Z) (key : bytes) (min max : Z)
    (left_close right_close : bool) : M (Status * Z) :=
  let* m := GetBase now kZSets key in
  match m with
  | inl st => ret (st, 0)
  | inr p =>
      let version := piv_version (pbm_base p) in
      let* stop_index := lift (i32_val (pbm_count p - 1)) in
      let* db := gets db_ in
      let* '(_, (_, cnt)) :=
        lift (iter_while fuel Next (fun _ '(cur_index, _) => cur_index <=? stop_index)
                (count_body key version min max left_close right_close)
                (Seek (NewIterator db kZsetsScoreCF) (ZSetsScoreKey_Encode key version min []))
                (0, 0)) in
      let* _ := UpdateSpecificKeyDuration kZSets key duration in
      ret (Status_OK, cnt)
  end.

(** [index], [skipped] and the members.  [stop]: which failed test ends the
    loop. *)
Definition range_score_body (stop : bool -> bool -> bool) (key : bytes) (version min max : Z)
    (left_close right_close : bool) (count offset : Z) (k v : bytes) (st : Z * Z * list ScoreMember)
    : option (bool * (Z * Z * list ScoreMember)) :=
  let '(index, skipped, score_members) := st in
  q ← ParsedZSetsScoreKey_decode k;
  if foreign key version q then Some (false, st)
  else
    let left_pass := left_pass min left_close (pzk_score q) in
    let right_pass := right_pass max right_close (pzk_score q) in
    if left_pass && right_pass then
      if skipped <? offset then Some (true, (index + 1, skipped + 1, score_members))
      else
        let score_members := score_members ++ [(pzk_score q, pzk_member q)] in
        if (0 <? count) && (Z.of_nat (length score_members) =? count)
        then Some (false, (index, skipped, score_members))
        else Some (true, (index + 1, skipped, score_members))
    else if stop left_pass right_pass then Some (false, st)
    else Some (true, (index + 1, skipped, score_members)).

Definition ZRangebyscore (fuel : nat) (duration now : Z) (key : bytes) (min max : Z)
    (left_close right_close : bool) (count offset : Z) : M (Status * list ScoreMember) :=
  let* m := GetBase now kZSets key in
  match m with
  | inl st => ret (st, [])
  | inr p =>
      if (0 <=? offset) && negb (count =? 0) then
        let version := piv_version (pbm_base p) in
        let* stop_index := lift (i32_val (pbm_count p - 1)) in
        let* db := gets db_ in
        let* '(_, (_, score_members)) :=
          lift (iter_while fuel Next (fun _ '(index, _, _) => index <=? stop_index)
                  (range_score_body (fun _ right_pass => negb right_pass)
                     key version min max left_close right_close count offset)
                  (Seek (NewIterator db kZsetsScoreCF) (ZSetsScoreKey_Encode key version min []))
                  (0, 0, [])) in
        let* _ := UpdateSpecificKeyDuration kZSets key duration in
        ret (Status_OK, score_members)
      else ret (Status_OK, [])
  end.

(** [left] is [Count()] less the index. *)
Definition ZRevrangebyscore (fuel : nat) (duration now : Z) (key : bytes) (min max : Z)
    (left_close right_close : bool) (count offset : Z) : M (Status * list ScoreMember) :=
  let* m := GetBase now kZSets key in
  match m with
  | inl st => ret (st, [])
  | inr p =>
      if (0 <=? offset) && negb (count =? 0) then
        let version := piv_version (pbm_base p) in
        let* db := gets db_ in
        let* '(_, (_, score_members)) :=
          lift (iter_while fuel Prev (fun _ '(index, _, _) => 0 <? pbm_count p - index)
                  (range_score_body (fun left_pass _ => negb left_pass)
                     key version min max left_close right_close count offset)
                  (SeekForPrev (NewIterator db kZsetsScoreCF)
                     (ZSetsScoreKey_Encode key version (nextafter_highest max) []))
                  (0, 0, [])) in
        let* _ := UpdateSpecificKeyDuration kZSets key duration in
        ret (Status_OK, score_members)
      else ret (Status_OK, [])
  end.

(** How [ZScore] and [ZGetAll] start: they take the key of a set too. *)
Definition GetMetaZSet (now : Z) (key : bytes) : M (Status + Status * bytes) :=
  fun r =>
  let '(s, meta_value) := db_Get (db_ r) kMetaCF (BaseKey_Encode key) in
  if ok s && negb (ExpectedMetaValue kZSets meta_value) && negb (ExpectedMetaValue kSets meta_value) then
    match ExpectedStale now meta_value with
    | None => None
    | Some true => Some (inr (Status_NotFound [], meta_value), r)
    | Some false =>
        match WrongType key kZSets meta_value with
        | Some st => Some (inl st, r)
        | None => None
        end
    end
  else Some (inr (s, meta_value), r).

Definition ZScore (now : Z) (key member : bytes) : M (Status * Z) :=
  let* m := GetMetaZSet now key in
  match m with
  | inl st => ret (st, 0)
  | inr (s, meta_value) =>
      if ok s then
        let* p := lift (ParsedBaseMetaValue_parse true meta_value) in
        match base_vacant now p with
        | Some st => ret (st, 0)
        | None =>
            let* '(s, data_value) :=
              Get kZsetsDataCF (BaseDataKey_Encode key (piv_version (pbm_base p)) member) in
            if ok s then
              let* score := lift (stripped_score data_value) in
              ret (s, score)
            else if IsNotFound s then ret (Status_NotFound (lit "Invalid member"), 0)
            else ret (s, 0)
        end
      else ret (s, 0)
  end.

(** [(score == -0.0) ? 0 : score] *)
Definition no_negative_zero (score : Z) : Z := if double_eqb score (2 ^ 63) then 0 else score.

(** [std::map::insert] keeps what is there. *)
Definition get_all_body (weight : Z) (k v : bytes) (st : Z * gmap bytes Z)
    : option (bool * (Z * gmap bytes Z)) :=
  let '(cur_index, value_to_dest) := st in
  q ← ParsedZSetsScoreKey_decode k;
  let score := no_negative_zero (double_mul (pzk_score q) weight) in
  Some (true, (cur_index + 1,
               match value_to_dest !! pzk_member q with
               | Some _ => value_to_dest
               | None => <[pzk_member q := score]> value_to_dest
               end)).

Definition ZGetAll (fuel : nat) (now : Z) (key : bytes) (weight : Z) (value_to_dest : gmap bytes Z)
    : M (Status * gmap bytes Z) :=
  let* m := GetMetaZSet now key in
  match m with
  | inl st => ret (st, value_to_dest)
  | inr (s, meta_value) =>
      if ok s then
        let* p := lift (ParsedBaseMetaValue_parse true meta_value) in
        if base_dead now p then ret (s, value_to_dest)
        else
          let* stop_index := lift (i32_val (pbm_count p - 1)) in
          let* db := gets db_ in
          let* '(_, (_, value_to_dest)) :=
            lift (iter_while fuel Next (fun _ '(cur_index, _) => cur_index <=? stop_index)
                    (get_all_body weight)
                    (Seek (NewIterator db kZsetsScoreCF)
                       (ZSetsScoreKey_Encode key (piv_version (pbm_base p)) double_lowest []))
                    (0, value_to_dest)) in
          ret (s, value_to_dest)
      else ret (s, value_to_dest)
  end.

(** ** Removing *)

(** The members of [ZRem] in turn: the writes and [del_cnt]. *)
Fixpoint ZRem_loop (key : bytes) (version : Z) (members : list bytes) (batch : list WriteOp) (del_cnt : Z)
    : M (Status + list WriteOp * Z) :=
  match members with
  | [] => ret (inr (batch, del_cnt))
  | member :: members =>
      let* '(s, data_value) := Get kZsetsDataCF (BaseDataKey_Encode key version member) in
      if ok s then
        let* score := lift (stripped_score data_value) in
        ZRem_loop key version members
          (batch ++ [Delete kZsetsDataCF (BaseDataKey_Encode key version member);
                     delete_score key version (score, member)]) (i32 (del_cnt + 1))
      else if IsNotFound s then ZRem_loop key version members batch del_cnt
      else ret (inl s)
  end.

(** The end of the commands that remove: the count, the writes, [*ret]. *)
Definition zset_remove (key : bytes) (p : ParsedBaseMetaValue) (batch : list WriteOp) (del_cnt : Z)
    : M (Status * Z) :=
  if negb (ParsedBaseMetaValue_CheckModifyCount p (- del_cnt)) then
    ret (Status_InvalidArgument (lit "zset size overflow"), del_cnt)
  else
    let* p := lift (ParsedBaseMetaValue_ModifyCount p (- del_cnt)) in
    zset_finish key (u32 del_cnt) (batch ++ [put_base_meta key p]) del_cnt.

Definition ZRem (now : Z) (key : bytes) (members : list bytes) : M (Status * Z) :=
  let* m := GetBase now kZSets key in
  match m with
  | inl st => ret (st, 0)
  | inr p =>
      let* l := ZRem_loop key (piv_version (pbm_base p)) (filtered_members members) [] 0 in
      match l with
      | inl st => ret (st, 0)
      | inr (batch, del_cnt) => zset_remove key p batch del_cnt
      end
  end.

(** [cur_index], the deletions and [del_cnt]. *)
Definition remove_entry (key : bytes) (version : Z) (k : bytes) (q : ParsedZSetsScoreKey) : list WriteOp :=
  [Delete kZsetsDataCF (BaseDataKey_Encode key version (pzk_member q)); Delete kZsetsScoreCF k].

Definition rem_rank_body (key : bytes) (version start_index : Z) (k v : bytes)
    (st : Z * list WriteOp * Z) : option (bool * (Z * list WriteOp * Z)) :=
  let '(cur_index, batch, del_cnt) := st in
  if start_index <=? cur_index then
    q ← ParsedZSetsScoreKey_decode k;
    Some (true, (cur_index + 1, batch ++ remove_entry key version k q, del_cnt + 1))
  else Some (true, (cur_index + 1, batch, del_cnt)).

Definition ZRemrangebyrank (fuel : nat) (duration now : Z) (key : bytes) (start stop : Z)
    : M (Status * Z) :=
  let* m := GetBase now kZSets key in
  match m with
  | inl st => ret (st, 0)
  | inr p =>
      let count := pbm_count p in
      let version := piv_version (pbm_base p) in
      let* '(start_index, stop_index) := lift (rank_range count start stop) in
      if (stop_index <? start_index) || (count <=? start_index) then ret (Status_OK, 0)
      else
        let* db := gets db_ in
        let* '(_, (_, batch, del_cnt)) :=
          lift (iter_while fuel Next (fun _ '(cur_index, _, _) => cur_index <=? stop_index)
                  (rem_rank_body key version start_index)
                  (Seek (NewIterator db kZsetsScoreCF) (ZSetsScoreKey_Encode key version double_lowest []))
                  (0, [], 0)) in
        let* _ := UpdateSpecificKeyDuration kZSets key duration in
        zset_remove key p batch del_cnt
  end.

Definition rem_score_body (key : bytes) (version min max : Z) (left_close right_close : bool)
    (k v : bytes) (st : Z * list WriteOp * Z) : option (bool * (Z * list WriteOp * Z)) :=
  let '(cur_index, batch, del_cnt) := st in
  q ← ParsedZSetsScoreKey_decode k;
  if foreign key version q then Some (false, st)
  else
    let left_pass := left_pass min left_close (pzk_score q) in
    let right_pass := right_pass max right_close (pzk_score q) in
    if left_pass && right_pass then
      Some (true, (cur_index + 1, batch ++ remove_entry key version k q, del_cnt + 1))
    else if negb right_pass then Some (false, st)
    else Some (true, (cur_index + 1, batch, del_cnt)).

Definition ZRemrangebyscore (fuel : nat) (duration now : Z) (key : bytes) (min max : Z)
    (left_close right_close : bool) : M (Status * Z) :=
  let* m := GetBase now kZSets key in
  match m with
  | inl st => ret (st, 0)
  | inr p =>
      let version := piv_version (pbm_base p) in
      let* stop_index := lift (i32_val (pbm_count p - 1)) in
      let* db := gets db_ in
      let* '(_, (_, batch, del_cnt)) :=
        lift (iter_while fuel Next (fun _ '(cur_index, _, _) => cur_index <=? stop_index)
                (rem_score_body key version min max left_close right_close)
                (Seek (NewIterator db kZsetsScoreCF) (ZSetsScoreKey_Encode key version min []))
                (0, [], 0)) in
      let* _ := UpdateSpecificKeyDuration kZSets key duration in
      zset_remove key p batch del_cnt
  end.

(** ** Union and intersection *)

Definition aggregate (agg : AGGREGATE) (score weighted : Z) : Z :=
  match agg with
  | SUM => double_add score weighted
  | MIN => double_min score weighted
  | MAX => double_max score weighted
  end.

(** [idx < weights.size() ? weights[idx] : 1] *)
Definition weight_at (weights : list Z) (idx : nat) : Z := default (double_of_Z 1) (weights !! idx).

(** [cur_index] and [member_score_map]. *)
Definition union_body (agg : AGGREGATE) (weight : Z) (k v : bytes) (st : Z * gmap bytes Z)
    : option (bool * (Z * gmap bytes Z)) :=
  let '(cur_index, member_score_map) := st in
  q ← ParsedZSetsScoreKey_decode k;
  let weighted := double_mul weight (pzk_score q) in
  let score := match member_score_map !! pzk_member q with
               | None => weighted
               | Some score => aggregate agg score weighted
               end in
  Some (true, (cur_index + 1, <[pzk_member q := no_negative_zero score]> member_score_map)).

(** The keys of [ZUnionstore] in turn; [duration idx] is the time of the guard of
    the key [idx]. *)
Fixpoint zunion_loop (fuel : nat) (duration : nat -> Z) (now : Z) (weights : list Z) (agg : AGGREGATE)
    (idx : nat) (keys : list bytes) (member_score_map : gmap bytes Z) : M (Status + gmap bytes Z) :=
  match keys with
  | [] => ret (inr member_score_map)
  | key :: keys =>
      let* m := GetMeta now kZSets key key in
      match m with
      | inl st => ret (inl st)
      | inr (s, meta_value) =>
          if ok s then
            let* p := lift (ParsedBaseMetaValue_parse true meta_value) in
            if base_dead now p then
              zunion_loop fuel duration now weights agg (S idx) keys member_score_map
            else
              let* stop_index := lift (i32_val (pbm_count p - 1)) in
              let* db := gets db_ in
              let* '(_, (_, member_score_map)) :=
                lift (iter_while fuel Next (fun _ '(cur_index, _) => cur_index <=? stop_index)
                        (union_body agg (weight_at weights idx))
                        (Seek (NewIterator db kZsetsScoreCF)
                           (ZSetsScoreKey_Encode key (piv_version (pbm_base p)) double_lowest []))
                        (0, member_score_map)) in
              let* _ := UpdateSpecificKeyDuration kZSets key (duration idx) in
              zunion_loop fuel duration now weights agg (S idx) keys member_score_map
          else if IsNotFound s then
            zunion_loop fuel duration now weights agg (S idx) keys member_score_map
          else ret (inl s)
      end
  end.

(** The end of [ZUnionstore] and [ZInterstore]: [members] replace what the
    destination holds.  A read of its meta value that fails counts as none. *)
Definition zset_store {A} (now : Z) (destination : bytes) (members : list ScoreMember) (value_to_dest none : A)
    : M (Status * A * Z) :=
  let n := i32 (Z.of_nat (length members)) in
  let finish meta version statistic :=
    let* '(s, value_to_dest) :=
      zset_finish destination statistic
        (Put kMetaCF (BaseKey_Encode destination) meta :: (members ≫= put_score now destination version))
        value_to_dest in
    ret (s, value_to_dest, n) in
  let* m := GetMeta now kZSets destination destination in
  match m with
  | inl st => ret (st, none, 0)
  | inr (s, meta_value) =>
      if ok s then
        let* p := lift (ParsedBaseMetaValue_parse true meta_value) in
        let statistic := u32 (pbm_count p) in
        let p := ParsedBaseMetaValue_InitialMetaValue now p in
        if negb (ParsedBaseMetaValue_check_set_count n) then
          ret (Status_InvalidArgument (lit "zset size overflow"), none, 0)
        else
          finish (piv_data (pbm_base (ParsedBaseMetaValue_SetCount p n))) (piv_version (pbm_base p)) statistic
      else
        let m := new_base_meta now kZSets (Z.of_nat (length members)) in
        finish (BaseMetaValue_Encode m) (iv_version m) 0
  end.

(** [for (const auto& sm : member_score_map)]: by increasing member. *)
Definition by_member (m : gmap bytes Z) : list ScoreMember :=
  (fun x => (snd x, fst x)) <$>
  merge_sort (fun x y => bytes_compare (fst x) (fst y) <> Gt) (map_to_list m).

Definition ZUnionstore (fuel : nat) (duration : nat -> Z) (now : Z) (destination : bytes)
    (keys : list bytes) (weights : list Z) (agg : AGGREGATE) : M (Status * gmap bytes Z * Z) :=
  let* l := zunion_loop fuel duration now weights agg 0 keys ∅ in
  match l with
  | inl st => ret (st, ∅, 0)
  | inr member_score_map =>
      zset_store now destination (by_member member_score_map) member_score_map ∅
  end.

(** The keys of [ZInterstore]: [valid_zsets], [have_invalid_zsets] and the
    [stop_index] of the first key. *)
Fixpoint valid_zsets (now : Z) (idx : nat) (keys : list bytes) (valid : list KeyVersion)
    (have_invalid : bool) (stop_index : Z) : M (Status + list KeyVersion * bool * Z) :=
  match keys with
  | [] => ret (inr (valid, have_invalid, stop_index))
  | key :: keys =>
      let* m := GetMeta now kZSets key key in
      match m with
      | inl st => ret (inl st)
      | inr (s, meta_value) =>
          if ok s then
            let* p := lift (ParsedBaseMetaValue_parse true meta_value) in
            if base_dead now p then valid_zsets now (S idx) keys valid true stop_index
            else
              let* stop_index :=
                lift (if decide (idx = 0%nat) then i32_val (pbm_count p - 1) else Some stop_index) in
              valid_zsets now (S idx) keys (valid ++ [(key, piv_version (pbm_base p))]) have_invalid stop_index
          else if IsNotFound s then valid_zsets now (S idx) keys valid true stop_index
          else ret (inl s)
      end
  end.

Definition collect_body (k v : bytes) (st : Z * list ScoreMember)
    : option (bool * (Z * list ScoreMember)) :=
  let '(cur_index, score_members) := st in
  q ← ParsedZSetsScoreKey_decode k;
  Some (true, (cur_index + 1, score_members ++ [(pzk_score q, pzk_member q)])).

(** One member in the other zsets: its aggregated score; [None] when one of them
    does not have it. *)
Fixpoint inter_member (agg : AGGREGATE) (weights : list Z) (idx : nat) (zsets : list KeyVersion)
    (member : bytes) (score : Z) : M (Status + option Z) :=
  match zsets with
  | [] => ret (inr (Some score))
  | (key, version) :: zsets =>
      let* '(s, data_value) := Get kZsetsDataCF (BaseDataKey_Encode key version member) in
      if ok s then
        let* other := lift (stripped_score data_value) in
        inter_member agg weights (S idx) zsets member
          (aggregate agg score (double_mul (weight_at weights idx) other))
      else if IsNotFound s then ret (inr None)
      else ret (inl s)
  end.

Fixpoint inter_loop (agg : AGGREGATE) (weights : list Z) (zsets : list KeyVersion)
    (score_members final_score_members : list ScoreMember) : M (Status + list ScoreMember) :=
  match score_members with
  | [] => ret (inr final_score_members)
  | (score, member) :: score_members =>
      let* o := inter_member agg weights 1 zsets member (double_mul score (weight_at weights 0)) in
      match o with
      | inl st => ret (inl st)
      | inr (Some score) =>
          inter_loop agg weights zsets score_members (final_score_members ++ [(score, member)])
      | inr None => inter_loop agg weights zsets score_members final_score_members
      end
  end.

(** [final_score_members] when every key holds a zset. *)
Definition inter_score_members (fuel : nat) (duration : Z) (weights : list Z) (agg : AGGREGATE)
    (zsets : list KeyVersion) (stop_index : Z) : M (Status + list ScoreMember) :=
  match zsets with
  | [] => ret (inr [])
  | (key0, version0) :: zsets =>
      let* db := gets db_ in
      let* '(_, (_, score_members)) :=
        lift (iter_while fuel Next (fun _ '(cur_index, _) => cur_index <=? stop_index) collect_body
                (Seek (NewIterator db kZsetsScoreCF) (ZSetsScoreKey_Encode key0 version0 double_lowest []))
                (0, [])) in
      let* l := inter_loop agg weights zsets score_members [] in
      let* _ := UpdateSpecificKeyDuration kZSets key0 duration in
      ret l
  end.

Definition ZInterstore (fuel : nat) (duration now : Z) (destination : bytes)
    (keys : list bytes) (weights : list Z) (agg : AGGREGATE) : M (Status * list ScoreMember * Z) :=
  match keys with
  | [] => ret (Status_Corruption (lit "ZInterstore invalid parameter, no keys"), [], 0)
  | _ =>
      let* v := valid_zsets now 0 keys [] false 0 in
      match v with
      | inl st => ret (st, [], 0)
      | inr (zsets, have_invalid_zsets, stop_index) =>
          let* l := if have_invalid_zsets : bool then ret (inr [])
                    else inter_score_members fuel duration weights agg zsets stop_index in
          match l with
          | inl st => ret (st, [], 0)
          | inr final_score_members =>
              zset_store now destination final_score_members final_score_members []
          end
      end
  end.

(** ** Ranges of members *)

Definition range_lex_body (min max : bytes) (left_close right_close : bool) (k v : bytes)
    (st : Z * list bytes) : option (bool * (Z * list bytes)) :=
  let '(cur_index, members) := st in
  q ← ParsedBaseDataKey k;
  let left_pass := lex_left_pass min left_close (pdk_data q) in
  let right_pass := lex_right_pass max right_close (pdk_data q) in
  let members := if left_pass && right_pass then members ++ [pdk_data q] else members in
  if negb right_pass then Some (false, (cur_index, members)) else Some (true, (cur_index + 1, members)).

Definition ZRangebylex (fuel : nat) (duration now : Z) (key min max : bytes)
    (left_close right_close : bool) : M (Status * list bytes) :=
  let* m := GetMeta now kZSets key key in
  match m with
  | inl st => ret (st, [])
  | inr (s, meta_value) =>
      if ok s then
        let* p := lift (ParsedBaseMetaValue_parse true meta_value) in
        if base_dead now p then ret (Status_NotFound [], [])
        else
          let* stop_index := lift (i32_val (pbm_count p - 1)) in
          let* db := gets db_ in
          let* '(_, (_, members)) :=
            lift (iter_while fuel Next (fun _ '(cur_index, _) => cur_index <=? stop_index)
                    (range_lex_body min max left_close right_close)
                    (Seek (NewIterator db kZsetsDataCF)
                       (BaseDataKey_Encode key (piv_version (pbm_base p)) []))
                    (0, [])) in
          let* _ := UpdateSpecificKeyDuration kZSets key duration in
          ret (s, members)
      else ret (s, [])
  end.

Definition ZLexcount (fuel : nat) (duration now : Z) (key min max : bytes)
    (left_close right_close : bool) : M (Status * Z) :=
  let* '(s, members) := ZRangebylex fuel duration now key min max left_close right_close in
  ret (s, i32 (Z.of_nat (length members))).

Definition rem_lex_body (key : bytes) (version : Z) (min max : bytes) (left_close right_close : bool)
    (k v : bytes) (st : Z * list WriteOp * Z) : option (bool * (Z * list WriteOp * Z)) :=
  let '(cur_index, batch, del_cnt) := st in
  q ← ParsedBaseDataKey k;
  let left_pass := lex_left_pass min left_close (pdk_data q) in
  let right_pass := lex_right_pass max right_close (pdk_data q) in
  '(batch, del_cnt) ←
    (if left_pass && right_pass then
       score ← stored_score v;
       Some (batch ++ [Delete kZsetsDataCF k; delete_score key version (score, pdk_data q)], del_cnt + 1)
     else Some (batch, del_cnt));
  if negb right_pass then Some (false, (cur_index, batch, del_cnt))
  else Some (true, (cur_index + 1, batch, del_cnt)).

Definition ZRemrangebylex (fuel : nat) (duration now : Z) (key min max : bytes)
    (left_close right_close : bool) : M (Status * Z) :=
  let* m := GetMeta now kZSets key key in
  match m with
  | inl st => ret (st, 0)
  | inr (s, meta_value) =>
      if ok s then
        let* p := lift (ParsedBaseMetaValue_parse true meta_value) in
        if base_dead now p then ret (Status_NotFound [], 0)
        else
          let version := piv_version (pbm_base p) in
          let* stop_index := lift (i32_val (pbm_count p - 1)) in
          let* db := gets db_ in
          let* '(_, (_, batch, del_cnt)) :=
            lift (iter_while fuel Next (fun _ '(cur_index, _, _) => cur_index <=? stop_index)
                    (rem_lex_body key version min max left_close right_close)
                    (Seek (NewIterator db kZsetsDataCF) (BaseDataKey_Encode key version []))
                    (0, [], 0)) in
          let* _ := UpdateSpecificKeyDuration kZSets key duration in
          if 0 <? del_cnt then
            if negb (ParsedBaseMetaValue_CheckModifyCount p (- del_cnt)) then
              ret (Status_InvalidArgument (lit "zset size overflow"), 0)
            else
              let* p := lift (ParsedBaseMetaValue_ModifyCount p (- del_cnt)) in
              zset_finish key (u32 del_cnt) (batch ++ [put_base_meta key p]) del_cnt
          else zset_finish key 0 batch 0
      else ret (s, 0)
  end.

(** ** Scanning and the key-level commands *)

(** Undefined on a stored value that has no score. *)
Definition ZScan (fuel : nat) (duration now : Z) (key : bytes) (cursor : Z) (pattern : bytes) (count : Z)
    : M (Status * list ScoreMember * Z) :=
  let* '(s, members, next_cursor) :=
    BaseScan kZSets kZsetsDataCF BaseDataKey_Encode (fun member value => (value, member))
      fuel duration now key cursor pattern count in
  let* score_members := lift (mapM (fun x => score ← read_score (fst x); Some (score, snd x)) members) in
  ret (s, score_members, next_cursor).

(** Its read of the meta value sets a second [s]. *)
Definition ZsetsExpire : Z -> bytes -> Z -> bytes -> M Status := BaseExpire kZSets true.
Definition ZsetsDel : Z -> bytes -> bytes -> M Status := BaseDel kZSets.
Definition ZsetsExpireat : Z -> bytes -> Z -> bytes -> M Status := BaseExpireat kZSets false.
Definition ZsetsPersist : Z -> bytes -> bytes -> M Status := BasePersist kZSets false.
Definition ZsetsTTL : Z -> bytes -> bytes -> M (Status * Z) := BaseTTL kZSets.

End ZSets.
