(* ===== verification/ZSetSpec.v ===== *)
(** * Sorted sets in the database

    A sorted set is stored twice: by member, with the score as value, and by
    score.  [zset_holds] relates a database to the scores of the members of a
    key: the member entries of the current version are these, the score entries
    of the current version are the same pairs, and no later version has entries
    of either kind.  [zset_write] says what a batch leaves that changes both in
    step. *)

From Stdlib Require Import Sorting.Sorted.
From stdpp Require Import sorting.
From S2P Require Import Prelude Coding Numbers Glob KeyFormat Comparator Doubles ValueFormat RocksDB LruCache Redis KeySpace BaseData BaseSpec BaseScan BaseHolds BaseWrite Sets ZSets.
Open Scope Z_scope.

(** ** The keys of the score family *)

Record skey := mkSkey { sk_key : bytes; sk_version : Z; sk_score : Z; sk_member : bytes }.

Definition skey_ok (x : skey) : Prop :=
  key_ok (sk_key x) = true /\ is_u64 (sk_version x) /\ is_u64 (sk_score x) /\ double_is_nan (sk_score x) = false.

(** The order of pairs of a score and a member. *)
Definition sm_cmp (x y : ScoreMember) : comparison :=
  thenc (Z.compare (double_value (fst x)) (double_value (fst y))) (bytes_compare (snd x) (snd y)).
(** Where a key stands to the keys of a user key and a version. *)
Definition group_cmp (key : bytes) (version : Z) (x : skey) : comparison :=
  thenc (bytes_compare (sk_key x) key) (Z.compare (sk_version x) version).
Definition skey_cmp (x y : skey) : comparison :=
  thenc (group_cmp (sk_key y) (sk_version y) x) (sm_cmp (sk_score x, sk_member x) (sk_score y, sk_member y)).

#[export] Instance sm_cmp_order : CompareOrder sm_cmp.
Proof.
  apply compare_order_thenc.
  - apply (compare_order_pullback (fun x : ScoreMember => double_value (fst x)) Z.compare _).
  - apply (compare_order_pullback (fun x : ScoreMember => snd x) bytes_compare _).
Qed.

#[export] Instance skey_cmp_order : CompareOrder skey_cmp.
Proof.
  apply compare_order_thenc; [apply compare_order_thenc|].
  - apply (compare_order_pullback sk_key bytes_compare _).
  - apply (compare_order_pullback sk_version Z.compare _).
  - apply (compare_order_pullback (fun x => (sk_score x, sk_member x)) sm_cmp _).
Qed.

Lemma sm_cmp_Eq x y : sm_cmp x y = Eq <-> double_value (fst x) = double_value (fst y) /\ snd x = snd y.
Proof.
  unfold sm_cmp. destruct (Z.compare_spec (double_value (fst x)) (double_value (fst y))); simpl.
  - rewrite bytes_compare_eq. tauto.
  - split; [done|lia].
  - split; [done|lia].
Qed.

Lemma group_cmp_Eq key version x : group_cmp key version x = Eq <-> sk_key x = key /\ sk_version x = version.
Proof.
  unfold group_cmp. destruct (bytes_compare (sk_key x) key) eqn:E; simpl.
  - apply bytes_compare_eq in E. rewrite Z.compare_eq_iff. tauto.
  - split; [done|]. intros [H _]. by rewrite H, bytes_compare_refl in E.
  - split; [done|]. intros [H _]. by rewrite H, bytes_compare_refl in E.
Qed.

(** Keys in order are in order with respect to any group. *)
Lemma group_cmp_mono key version x y :
  skey_cmp x y = Lt ->
  (group_cmp key version y = Lt -> group_cmp key version x = Lt) /\
  (group_cmp key version x = Gt -> group_cmp key version y = Gt).
Proof.
  assert (O : CompareOrder (fun x y : skey => group_cmp (sk_key y) (sk_version y) x)).
  { apply compare_order_thenc; [apply (compare_order_pullback sk_key bytes_compare _)|].
    apply (compare_order_pullback sk_version Z.compare _). }
  intros H. set (g := mkSkey key version 0 []).
  change (group_cmp key version y) with (group_cmp (sk_key g) (sk_version g) y).
  change (group_cmp key version x) with (group_cmp (sk_key g) (sk_version g) x).
  assert (Hle : group_cmp (sk_key y) (sk_version y) x <> Gt).
  { unfold skey_cmp in H. by destruct (group_cmp _ _ _). }
  split.
  - intros Hy. apply (cmp_le_lt_trans (fun x y : skey => group_cmp (sk_key y) (sk_version y) x) x y g Hle Hy).
  - intros Hx. apply (cmp_Gt_Lt (fun x y : skey => group_cmp (sk_key y) (sk_version y) x)) in Hx.
    apply (cmp_Gt_Lt (fun x y : skey => group_cmp (sk_key y) (sk_version y) x)).
    apply (cmp_lt_le_trans (fun x y : skey => group_cmp (sk_key y) (sk_version y) x) g x y Hx Hle).
Qed.

Section ScoreKeys.
Context {U : Uninit}.

Definition skey_enc (x : skey) : bytes :=
  ZSetsScoreKey_Encode (sk_key x) (sk_version x) (sk_score x) (sk_member x).

Lemma skey_compare x y :
  skey_ok x -> skey_ok y -> ZSetsScoreKeyCompare (skey_enc x) (skey_enc y) = skey_cmp x y.
Proof.
  intros (K1 & V1 & S1 & N1) (K2 & V2 & S2 & N2). unfold skey_enc. rewrite ZSetsScoreKey_compare by done.
  unfold skey_cmp, group_cmp, sm_cmp. simpl.
  by destruct (bytes_compare (sk_key x) (sk_key y)), (sk_version x ?= sk_version y).
Qed.

Lemma skey_decode x :
  skey_ok x ->
  ParsedZSetsScoreKey_decode (skey_enc x) =
  Some (mkParsedZSetsScoreKey (sk_key x) (sk_version x) (sk_score x) (sk_member x)).
Proof.
  intros (K & V & S & _). unfold skey_enc. by rewrite ZSetsScoreKey_Encode_form, ParsedZSetsScoreKey_form, !u64_id by done.
Qed.

Lemma skey_enc_inj x y : skey_ok x -> skey_ok y -> skey_enc x = skey_enc y -> x = y.
Proof.
  intros Hx Hy E. pose proof (skey_decode x Hx) as D. rewrite E, skey_decode in D by done.
  destruct x, y; simpl in *. by simplify_eq.
Qed.

Lemma skey_number x : skey_ok x -> score_number (skey_enc x).
Proof.
  intros (K & V & S & N). unfold score_number, score_key_score, score_key_ptr, skey_enc.
  rewrite ZSetsScoreKey_Encode_form by done.
  destruct (zset_key_fields (sk_key x) (sk_version x) (sk_score x) (sk_member x ++ reserve2)) as (_ & _ & -> & _).
  by rewrite u64_id.
Qed.

End ScoreKeys.

(** ** Lists in order *)

(** A list split by a test that only goes from [Lt] to [Gt]. *)
Lemma split_three {A} (R : A -> A -> Prop) (f : A -> comparison) l :
  StronglySorted R l ->
  (forall x y, R x y -> (f y = Lt -> f x = Lt) /\ (f x = Gt -> f y = Gt)) ->
  exists a b c, l = a ++ b ++ c /\ Forall (fun x => f x = Lt) a /\ Forall (fun x => f x = Eq) b /\
    Forall (fun x => f x = Gt) c.
Proof.
  intros Hs Hf. induction Hs as [|x l Hs IH Hx]; [by exists [], [], []|].
  destruct IH as (a & b & c & -> & Ha & Hb & Hc). destruct (f x) eqn:E.
  - destruct a as [|y a]; [exists [], (x :: b), c; split_and!; try done; by constructor|].
    apply Forall_inv in Hx, Ha. destruct (Hf x y Hx) as [H _]. rewrite (H Ha) in E. done.
  - exists (x :: a), b, c. split_and!; try done. by constructor.
  - exists [], [], (x :: a ++ b ++ c). split_and!; try done. constructor; [done|].
    eapply Forall_impl; [exact Hx|]. intros y Hy. by apply (Hf x y Hy).
Qed.

(** The pairs of [z] by increasing score, then member. *)
Definition zlisting (z : gmap bytes Z) (zl : list ScoreMember) : Prop :=
  StronglySorted (fun x y => sm_cmp x y = Lt) zl /\ forall s m, (s, m) ∈ zl <-> z !! m = Some s.

(** Scores that are numbers. *)
Definition numbers (z : gmap bytes Z) : Prop :=
  map_Forall (fun _ s => is_u64 s /\ double_is_nan s = false) z.

#[local] Instance sm_antisymm : AntiSymm (=) (fun x y : ScoreMember => sm_cmp x y = Lt).
Proof. intros x y H1 H2. pose proof (cmp_trans _ _ _ H1 H2) as E. by rewrite cmp_refl in E. Qed.

Lemma zlisting_NoDup z zl : zlisting z zl -> NoDup zl.
Proof.
  intros [Hs _]. induction Hs as [|x l Hs IH Hx]; [constructor|]. constructor; [|done].
  intros Hin. rewrite Forall_forall in Hx. specialize (Hx x Hin). by rewrite cmp_refl in Hx.
Qed.

Lemma zlisting_unique z l1 l2 : zlisting z l1 -> zlisting z l2 -> l1 = l2.
Proof.
  intros H1 H2. eapply (StronglySorted_unique _ l1 l2 (proj1 H1) (proj1 H2)).
  apply NoDup_Permutation; [by eapply zlisting_NoDup..|]. intros [s m]. by rewrite (proj2 H1), (proj2 H2).
Qed.

Lemma zlisting_members z zl : zlisting z zl -> NoDup zl.*2.
Proof.
  intros H. apply NoDup_fmap_2_strong; [|by eapply zlisting_NoDup].
  intros [s m] [s' m'] H1%(proj2 H) H2%(proj2 H) E. simpl in *. congruence.
Qed.

Lemma zlisting_to_map z zl : zlisting z zl -> list_to_map (prod_swap <$> zl) = z.
Proof.
  intros H. apply map_eq. intros m. apply option_eq. intros s. rewrite <- elem_of_list_to_map.
  - rewrite <- (proj2 H). rewrite list_elem_of_fmap. split.
    + intros ([s' m'] & [= -> ->] & Hin). done.
    + intros Hin. by exists (s, m).
  - rewrite <- list_fmap_compose. by apply (zlisting_members z).
Qed.

Lemma zlisting_length z zl : zlisting z zl -> length zl = size z.
Proof.
  intros H. rewrite <- (zlisting_to_map z zl H), map_size_list_to_map, length_fmap; [done|].
  rewrite <- list_fmap_compose. by apply (zlisting_members z).
Qed.

(** ** The score family *)

Lemma elem_put_keys cmp `{!CompareOrder cmp} k v (l : list entry) k' :
  sorted cmp l -> k' ∈ (put_entry cmp k v l).*1 <-> k' = k \/ (k' ∈ l.*1 /\ cmp k k' <> Eq).
Proof.
  induction l as [|[k1 v1] l IH]; intros Hs; [simpl; set_solver|]. apply sorted_cons in Hs as [Hs Hf].
  assert (Hb : cmp k k1 <> Gt -> k' ∈ l.*1 -> cmp k k' = Lt).
  { intros Hle (e & -> & He)%list_elem_of_fmap. rewrite Forall_forall in Hf. simpl in Hf.
    eapply (cmp_le_lt_trans cmp); [exact Hle|by apply Hf]. }
  simpl. destruct (cmp k k1) eqn:E; simpl; rewrite !elem_of_cons.
  - split.
    + intros [->|H]; [by left|]. right. split; [by right|]. rewrite Hb by done. done.
    + intros [->|[[->|H] N]]; [by left|congruence|by right].
  - split.
    + intros [->|[->|H]]; [by left|right; split; [by left|congruence]|]. right. split; [by right|]. rewrite Hb by done. done.
    + intros [->|[H _]]; [by left|by right].
  - rewrite IH by done. split.
    + intros [->|[->|[H N]]]; [right; split; [by left|congruence]|by left|]. right. split; [by right|done].
    + intros [->|[[->|H] N]]; [right; by left|by left|right; by right].
Qed.

Lemma elem_delete_keys cmp `{!CompareOrder cmp} k (l : list entry) k' :
  sorted cmp l -> k' ∈ (delete_entry cmp k l).*1 <-> k' ∈ l.*1 /\ cmp k k' <> Eq.
Proof.
  induction l as [|[k1 v1] l IH]; intros Hs; [simpl; set_solver|]. apply sorted_cons in Hs as [Hs Hf].
  assert (Hb : cmp k k1 <> Gt -> k' ∈ l.*1 -> cmp k k' = Lt).
  { intros Hle (e & -> & He)%list_elem_of_fmap. rewrite Forall_forall in Hf. simpl in Hf.
    eapply (cmp_le_lt_trans cmp); [exact Hle|by apply Hf]. }
  simpl. destruct (cmp k k1) eqn:E; simpl; rewrite !elem_of_cons.
  - split; [intros H; split; [by right|rewrite Hb by done; done]|]. intros [[->|H] N]; [congruence|done].
  - split; [|tauto]. intros [->|H]; [split; [by left|congruence]|]. split; [by right|]. rewrite Hb by done. done.
  - rewrite IH by done. split.
    + intros [->|[H N]]; [split; [by left|congruence]|]. split; [by right|done].
    + intros [[->|H] N]; [by left|right; by split].
Qed.

Section ScoreFamily.
Context {U : Uninit}.

(** Only encoded keys, in order. *)
Definition encoded_keys (l : list entry) : Prop :=
  Forall (fun e => exists x, skey_ok x /\ fst e = skey_enc x) l.
Definition score_list (l : list entry) : Prop := encoded_keys l /\ sorted score_compare l.

Lemma encoded_numbers l : encoded_keys l -> Forall (fun e => score_number (fst e)) l.
Proof. intros H. eapply Forall_impl; [exact H|]. intros e (x & Hx & ->). by apply skey_number. Qed.

Lemma score_compare_enc x y : skey_ok x -> skey_ok y -> score_compare (skey_enc x) (skey_enc y) = skey_cmp x y.
Proof. intros Hx Hy. rewrite <- ZSetsScoreKeyCompare_lex by (by apply skey_number). by apply skey_compare. Qed.

Lemma put_score_entry x v l :
  skey_ok x -> score_list l ->
  let l' := put_entry ZSetsScoreKeyCompare (skey_enc x) v l in
  score_list l' /\
  forall y, skey_ok y -> skey_enc y ∈ l'.*1 <-> y = x \/ (skey_enc y ∈ l.*1 /\ skey_cmp x y <> Eq).
Proof.
  intros Hx [He Hs] l'. assert (E : l' = put_entry score_compare (skey_enc x) v l).
  { apply put_entry_ext, score_agree; [by apply skey_number|by apply encoded_numbers]. }
  rewrite E. split.
  - split; [apply put_entry_Forall; [by exists x|done]|by apply put_entry_sorted; [apply _|]].
  - intros y Hy. rewrite elem_put_keys by (done || apply _). rewrite score_compare_enc by done.
    split; intros [H|H]; auto; left; [by apply skey_enc_inj|by subst].
Qed.

Lemma delete_score_entry x l :
  skey_ok x -> score_list l ->
  let l' := delete_entry ZSetsScoreKeyCompare (skey_enc x) l in
  score_list l' /\
  forall y, skey_ok y -> skey_enc y ∈ l'.*1 <-> skey_enc y ∈ l.*1 /\ skey_cmp x y <> Eq.
Proof.
  intros Hx [He Hs] l'. assert (E : l' = delete_entry score_compare (skey_enc x) l).
  { apply delete_entry_ext, score_agree; [by apply skey_number|by apply encoded_numbers]. }
  rewrite E. split.
  - split; [by apply delete_entry_Forall|by apply delete_entry_sorted].
  - intros y Hy. rewrite elem_delete_keys by (done || apply _). by rewrite score_compare_enc.
Qed.

(** ** The pairs of a key and a version *)

Definition sm_key (key : bytes) (version : Z) (sm : ScoreMember) : skey := mkSkey key version (fst sm) (snd sm).

(** The entries of [key] and [version] are the pairs of [z]. *)
Definition scores_in (l : list entry) (key : bytes) (version : Z) (z : gmap bytes Z) : Prop :=
  forall s m, is_u64 s -> double_is_nan s = false ->
    skey_enc (mkSkey key version s m) ∈ l.*1 <-> z !! m = Some s.

Context (key : bytes) (version : Z) (K : key_ok key = true) (V : is_u64 version).

Lemma sm_key_ok s m : is_u64 s -> double_is_nan s = false -> skey_ok (mkSkey key version s m).
Proof. done. Qed.

Lemma sm_key_cmp s m s' m' :
  skey_cmp (mkSkey key version s m) (mkSkey key version s' m') = sm_cmp (s, m) (s', m').
Proof. unfold skey_cmp. by rewrite (proj2 (group_cmp_Eq _ _ _)). Qed.

(** Entries of other groups. *)
Definition others_in (l l' : list entry) : Prop :=
  forall y, skey_ok y -> group_cmp key version y <> Eq -> skey_enc y ∈ l'.*1 <-> skey_enc y ∈ l.*1.

Lemma group_other x y :
  group_cmp key version x = Eq -> group_cmp key version y <> Eq -> skey_cmp x y <> Eq.
Proof.
  rewrite !group_cmp_Eq. intros [<- <-] N E. apply N. unfold skey_cmp in E.
  destruct (group_cmp _ _ _) eqn:G; try done. by apply group_cmp_Eq in G as [-> ->].
Qed.

Lemma put_pair s m v l z :
  is_u64 s -> double_is_nan s = false -> score_list l -> scores_in l key version z -> z !! m = None ->
  let l' := put_entry ZSetsScoreKeyCompare (ZSetsScoreKey_Encode key version s m) v l in
  score_list l' /\ scores_in l' key version (<[m:=s]> z) /\ others_in l l'.
Proof.
  intros Hs Hn Hl Hz Hm l'. destruct (put_score_entry (mkSkey key version s m) v l) as [Hl' H]; [done..|].
  split; [done|]. split.
  - intros s' m' Hs' Hn'. unfold l'. rewrite H, sm_key_cmp, (Hz s' m' Hs' Hn') by done.
    destruct (decide (m' = m)) as [->|N].
    + rewrite lookup_insert_eq, Hm. naive_solver.
    + rewrite lookup_insert_ne by done. rewrite sm_cmp_Eq. simpl. naive_solver.
  - intros y Hy Hg. unfold l'. rewrite H by done. pose proof (group_other (mkSkey key version s m) y) as G.
    rewrite group_cmp_Eq in G. specialize (G (conj eq_refl eq_refl) Hg). split; [|tauto].
    intros [->|?]; [|tauto]. destruct Hg. by apply group_cmp_Eq.
Qed.

Lemma delete_pair s m l z :
  is_u64 s -> double_is_nan s = false -> score_list l -> scores_in l key version z -> z !! m = Some s ->
  let l' := delete_entry ZSetsScoreKeyCompare (ZSetsScoreKey_Encode key version s m) l in
  score_list l' /\ scores_in l' key version (base.delete m z) /\ others_in l l'.
Proof.
  intros Hs Hn Hl Hz Hm l'. destruct (delete_score_entry (mkSkey key version s m) l) as [Hl' H]; [done..|].
  split; [done|]. split.
  - intros s' m' Hs' Hn'. unfold l'. rewrite H, sm_key_cmp, (Hz s' m' Hs' Hn') by done.
    destruct (decide (m' = m)) as [->|N].
    + rewrite lookup_delete_eq, Hm, sm_cmp_Eq. simpl. naive_solver.
    + rewrite lookup_delete_ne by done. rewrite sm_cmp_Eq. simpl. naive_solver.
  - intros y Hy Hg. unfold l'. rewrite H by done. pose proof (group_other (mkSkey key version s m) y) as G.
    rewrite group_cmp_Eq in G. specialize (G (conj eq_refl eq_refl) Hg). tauto.
Qed.

End ScoreFamily.

(** ** Batches *)

Definition op_cf (op : WriteOp) : ColumnFamilyIndex := match op with Put cf _ _ | Delete cf _ => cf end.

(** A batch without its writes to the score family. *)
Definition strip (b : list WriteOp) : list WriteOp := filter (fun op => op_cf op <> kZsetsScoreCF) b.

Lemma strip_apply cf b : forall l, cf <> kZsetsScoreCF -> apply_batch cf (strip b) l = apply_batch cf b l.
Proof.
  induction b as [|op b IH]; intros l Hcf; [done|]. unfold strip. rewrite filter_cons.
  case_decide as D; cbn [apply_batch fold_left]; [by apply IH|].
  change (fold_left (apply_op cf) b) with (apply_batch cf b). rewrite <- IH by done. f_equal.
  destruct op; simpl in *; by rewrite decide_False by congruence.
Qed.

Lemma strip_keep op b : op_cf op <> kZsetsScoreCF -> strip (op :: b) = op :: strip b.
Proof. intros H. unfold strip. by rewrite filter_cons_True. Qed.
Lemma strip_drop op b : op_cf op = kZsetsScoreCF -> strip (op :: b) = strip b.
Proof. intros H. unfold strip. rewrite filter_cons_False; [done|]. by intros N. Qed.

Section ZSetBatch.
Context {U : Uninit}.

(** The batch takes the scores of [key] under [version] from [z] to [z'],
    changing the member and the score entries in step, and writes the meta value
    [mv], if any. *)
Inductive zsteps (now : Z) (key : bytes) (version : Z)
    : list WriteOp -> option bytes -> gmap bytes Z -> gmap bytes Z -> Prop :=
  | zs_nil z : zsteps now key version [] None z z
  | zs_put m s b mv z z' :
      z !! m = None -> is_u64 s -> double_is_nan s = false ->
      zsteps now key version b mv (<[m:=s]> z) z' ->
      zsteps now key version (put_score now key version (s, m) ++ b) mv z z'
  | zs_move m old s b mv z z' :
      z !! m = Some old -> is_u64 s -> double_is_nan s = false ->
      zsteps now key version b mv (<[m:=s]> z) z' ->
      zsteps now key version (delete_score key version (old, m) :: put_score now key version (s, m) ++ b) mv z z'
  | zs_delete m old b mv z z' :
      z !! m = Some old -> zsteps now key version b mv (base.delete m z) z' ->
      zsteps now key version
        (Delete kZsetsDataCF (BaseDataKey_Encode key version m) :: delete_score key version (old, m) :: b) mv z z'
  | zs_meta v b mv z z' :
      zsteps now key version b mv z z' ->
      zsteps now key version (Put kMetaCF (BaseKey_Encode key) v :: b) (Some (default v mv)) z z'.

Context (now : Z) (key : bytes) (version : Z) (K : key_ok key = true) (V : is_u64 version).

Lemma zsteps_app b1 mv1 b2 mv2 z z1 z2 :
  zsteps now key version b1 mv1 z z1 -> zsteps now key version b2 mv2 z1 z2 ->
  zsteps now key version (b1 ++ b2) (match mv2 with Some m => Some m | None => mv1 end) z z2.
Proof.
  induction 1 as [|m s b mv z z' Hz Hs Hn H IH|m old s b mv z z' Hz Hs Hn H IH|m old b mv z z' Hz H IH|v b mv z z' H IH];
    intros H2.
  - by destruct mv2.
  - rewrite <- app_assoc. by apply zs_put, IH.
  - apply (zs_move now key version m old s (b ++ b2)); [done..|]. by apply IH.
  - simpl. by apply zs_delete, IH.
  - simpl. pose proof (zs_meta now key version v _ _ _ _ (IH H2)) as H0. by destruct mv2, mv.
Qed.

Lemma zsteps_numbers b mv z z' : zsteps now key version b mv z z' -> numbers z -> numbers z'.
Proof.
  induction 1; intros Hn; auto.
  - apply IHzsteps. by apply map_Forall_insert_2.
  - apply IHzsteps. by apply map_Forall_insert_2.
  - apply IHzsteps. by apply map_Forall_delete.
Qed.

Lemma zsteps_scores_numbers b mv z z' : zsteps now key version b mv z z' -> numbers z -> scores_numbers b.
Proof.
  assert (P : forall s m, is_u64 s -> double_is_nan s = false -> score_number (ZSetsScoreKey_Encode key version s m)).
  { intros s m Hs Hn. by apply (skey_number (mkSkey key version s m)). }
  induction 1; intros Hz; unfold scores_numbers in *; repeat (apply Forall_cons; split; simpl; auto).
  - constructor.
  - apply IHzsteps. by apply map_Forall_insert_2.
  - by apply P; eapply Hz.
  - apply IHzsteps. by apply map_Forall_insert_2.
  - by apply P; eapply Hz.
  - apply IHzsteps. by apply map_Forall_delete.
Qed.

(** What the batch does to the score family. *)
Lemma zsteps_scores b mv z z' : zsteps now key version b mv z z' -> forall l,
  numbers z -> score_list l -> scores_in l key version z ->
  let l' := apply_batch kZsetsScoreCF b l in
  score_list l' /\ scores_in l' key version z' /\ others_in key version l l'.
Proof.
  assert (T : forall l1 l2 l3, others_in key version l1 l2 -> others_in key version l2 l3 -> others_in key version l1 l3).
  { intros l1 l2 l3 H1 H2 y Hy Hg. by rewrite (H2 y Hy Hg), (H1 y Hy Hg). }
  induction 1 as [|m s b mv z z' Hz Hs Hn H IH|m old s b mv z z' Hz Hs Hn H IH|m old b mv z z' Hz H IH|v b mv z z' H IH];
    intros l Hnum Hl Hin; cbn -[apply_batch].
  - split; [done|]. split; [done|]. by intros y.
  - destruct (put_pair key version K V s m (base_value now []) l z) as (H1 & H2 & H3); [done..|].
    destruct (IH (put_entry ZSetsScoreKeyCompare (ZSetsScoreKey_Encode key version s m) (base_value now []) l))
      as (H4 & H5 & H6); [by apply map_Forall_insert_2|done..|].
    split; [done|]. split; [done|]. by eapply T.
  - destruct (Hnum _ _ Hz) as [Ho Hon].
    destruct (delete_pair key version K V old m l z) as (H1 & H2 & H3); [done..|].
    destruct (put_pair key version K V s m (base_value now [])
      (delete_entry ZSetsScoreKeyCompare (ZSetsScoreKey_Encode key version old m) l) (base.delete m z)) as (H4 & H5 & H6);
      [done..|by rewrite lookup_delete_eq|]. rewrite insert_delete_eq in H5.
    edestruct IH as (H7 & H8 & H9); [by apply map_Forall_insert_2|exact H4|exact H5|].
    split; [exact H7|]. split; [exact H8|]. eapply T; [exact H3|]. eapply T; [exact H6|exact H9].
  - destruct (Hnum _ _ Hz) as [Ho Hon].
    destruct (delete_pair key version K V old m l z) as (H1 & H2 & H3); [done..|].
    edestruct IH as (H7 & H8 & H9); [by apply map_Forall_delete|exact H1|exact H2|].
    split; [exact H7|]. split; [exact H8|]. eapply T; [exact H3|exact H9].
  - by apply IH.
Qed.

(** What it does to the member entries. *)
Lemma zsteps_data b mv z z' : zsteps now key version b mv z z' -> forall m0,
  user_value <$> m0 = EncodeFixed64 <$> z -> map_Forall (fun _ v => stored_ok v) m0 ->
  exists ops, base_effects kZsetsDataCF key version (strip b) mv ops /\
    user_value <$> apply_ops ops m0 = EncodeFixed64 <$> z' /\
    map_Forall (fun _ v => stored_ok v) (apply_ops ops m0).
Proof.
  assert (P : forall (m0 : gmap bytes bytes) (z : gmap bytes Z) m s, user_value <$> m0 = EncodeFixed64 <$> z ->
    user_value <$> <[m:=base_value now (EncodeFixed64 s)]> m0 = EncodeFixed64 <$> <[m:=s]> z).
  { intros m0 z0 m s E. by rewrite !fmap_insert, E, user_value_base_value. }
  assert (Q : forall (m0 : gmap bytes bytes) m s, map_Forall (fun _ v => stored_ok v) m0 ->
    map_Forall (fun _ v => stored_ok v) (<[m:=base_value now (EncodeFixed64 s)]> m0)).
  { intros m0 m s H. apply map_Forall_insert_2; [|done]. unfold stored_ok. rewrite base_value_length. lia. }
  induction 1 as [|m s b mv z z' Hz Hs Hn H IH|m old s b mv z z' Hz Hs Hn H IH|m old b mv z z' Hz H IH|v b mv z z' H IH];
    intros m0 Hu Hv.
  - exists []. split_and!; [constructor|done..].
  - destruct (IH (<[m:=base_value now (EncodeFixed64 s)]> m0)) as (ops & H1 & H2 & H3); [by apply P|by apply Q|].
    exists ((m, Some (base_value now (EncodeFixed64 s))) :: ops). rewrite apply_ops_put. split_and!; [|done..].
    unfold put_score, delete_score. cbn [app fst snd].
    rewrite ?(strip_drop (Delete _ _)), (strip_keep (Put kZsetsDataCF _ _)), strip_drop by done. by apply be_put.
  - destruct (IH (<[m:=base_value now (EncodeFixed64 s)]> m0)) as (ops & H1 & H2 & H3); [by apply P|by apply Q|].
    exists ((m, Some (base_value now (EncodeFixed64 s))) :: ops). rewrite apply_ops_put. split_and!; [|done..].
    unfold put_score, delete_score. cbn [app fst snd].
    rewrite ?(strip_drop (Delete _ _)), (strip_keep (Put kZsetsDataCF _ _)), strip_drop by done. by apply be_put.
  - destruct (IH (base.delete m m0)) as (ops & H1 & H2 & H3).
    { by rewrite !fmap_delete, Hu. } { by apply map_Forall_delete. }
    exists ((m, None) :: ops). rewrite apply_ops_delete. split_and!; [|done..].
    unfold delete_score. rewrite strip_keep, strip_drop by done. by apply be_delete.
  - destruct (IH m0 Hu Hv) as (ops & H1 & H2 & H3). exists ops. split_and!; [|done..].
    rewrite strip_keep by done. by apply be_meta.
Qed.

End ZSetBatch.

(** ** Keys and their scores *)

Section ZSetHolds.
Context {R : RocksDB} {L : RocksDBLaws R} {SL : ScoreLaws R L} {U : Uninit}.

(** The score family has encoded keys only, and no NaN was ever given to it. *)
Definition zengine_ok (r : Redis) : Prop :=
  engine_ok r /\ scores_ordered (db_ r) /\ encoded_keys (content (db_ r) kZsetsScoreCF).

Definition scores_at (db : DB) (key : bytes) (version : Z) (z : gmap bytes Z) : Prop :=
  scores_in (content db kZsetsScoreCF) key version z.

Definition data_at (db : DB) (key : bytes) (version : Z) (z : gmap bytes Z) : Prop :=
  exists m, members_at kZsetsDataCF db key version m /\ user_value <$> m = EncodeFixed64 <$> z /\
    map_Forall (fun _ v => stored_ok v) m.

(** No version from [v0] on has entries. *)
Definition zfresh_from (db : DB) (key : bytes) (v0 : Z) : Prop :=
  fresh_from kZsetsDataCF db key v0 /\ forall v, v0 <= v -> is_u64 v -> scores_at db key v ∅.

Record zset_at (db : DB) (now : Z) (key : bytes) (p : ParsedBaseMetaValue) (z : gmap bytes Z) : Prop := {
  za_meta : meta_of db key = Some (piv_data (pbm_base p));
  za_coherent : base_meta_coherent p;
  za_type : piv_type (pbm_base p) = Some kZSets;
  za_live : IsStale now (pbm_base p) = false;
  za_some : z <> ∅;
  za_count : pbm_count p = Z.of_nat (size z);
  za_numbers : numbers z;
  za_data : data_at db key (piv_version (pbm_base p)) z;
  za_scores : scores_at db key (piv_version (pbm_base p)) z;
  za_fresh : zfresh_from db key (piv_version (pbm_base p) + 1)
}.

Definition zset_dead (db : DB) (now : Z) (key : bytes) (p : ParsedBaseMetaValue) : Prop :=
  dead_at kZSets kZsetsDataCF db now key p /\ zfresh_from db key (piv_version (pbm_base p) + 1).

Definition zset_unused (db : DB) (now : Z) (key : bytes) : Prop :=
  (gone kZSets db now key /\ zfresh_from db key (next_version now 0)) \/ exists p, zset_dead db now key p.

(** [key] holds the members with the scores [z] and expires at [etime]. *)
Definition zset_holds (db : DB) (now : Z) (key : bytes) (z : gmap bytes Z) (etime : Z) : Prop :=
  if decide (z = ∅) then zset_unused db now key
  else exists p, zset_at db now key p z /\ piv_etime (pbm_base p) = etime.

(** Everything outside [key] is as before. *)
Definition zset_others (key : bytes) (db db' : DB) : Prop :=
  base_others kZsetsDataCF key db db' /\
  forall x, skey_ok x -> sk_key x <> key ->
    skey_enc x ∈ (content db' kZsetsScoreCF).*1 <-> skey_enc x ∈ (content db kZsetsScoreCF).*1.

Definition zset_stores (now : Z) (key : bytes) (z : gmap bytes Z) (etime : Z) (r r' : Redis) : Prop :=
  zengine_ok r' /\ zset_holds (db_ r') now key z etime /\ zset_others key (db_ r) (db_ r').

Lemma zset_holds_empty db now key e : zset_holds db now key ∅ e = zset_unused db now key.
Proof. unfold zset_holds. by rewrite decide_True. Qed.

Lemma zset_holds_live db now key z e :
  z <> ∅ -> zset_holds db now key z e -> exists p, zset_at db now key p z /\ piv_etime (pbm_base p) = e.
Proof. intros N. unfold zset_holds. by rewrite decide_False. Qed.

Lemma zset_at_holds db now key p z : zset_at db now key p z -> zset_holds db now key z (piv_etime (pbm_base p)).
Proof. intros H. unfold zset_holds. rewrite decide_False by apply (za_some _ _ _ _ _ H). by exists p. Qed.

Lemma zengine_list r : zengine_ok r -> score_list (content (db_ r) kZsetsScoreCF).
Proof.
  intros ([Hdb _] & Ho & He). split; [done|]. destruct (score_sorted (db_ r) Hdb Ho) as [Hn Hs].
  by apply score_sorted_lex.
Qed.

(** The member entries alone. *)
Lemma zset_at_base db now key p z :
  zset_at db now key p z ->
  exists m, base_at kZSets kZsetsDataCF db now key p m /\ user_value <$> m = EncodeFixed64 <$> z.
Proof.
  intros [H1 H2 H3 H4 H5 H6 H7 (m & M1 & M2 & M3) H9 [H10 H11]]. exists m. split; [|done].
  assert (E : size m = size z) by (by rewrite <- (map_size_fmap user_value), M2, map_size_fmap).
  constructor; try done; [|by rewrite E]. intros ->. rewrite map_size_empty in E. apply H5.
  by apply map_size_empty_inv.
Qed.

Lemma fresh_data db key v0 v :
  zfresh_from db key v0 -> v0 <= v -> is_u64 v -> data_at db key v ∅ /\ scores_at db key v ∅.
Proof.
  intros [H1 H2] Hv V. split; [|by apply H2]. exists ∅. split; [by apply H1|]. split; [|done].
  by rewrite !fmap_empty.
Qed.

(** A batch and its writes outside the score family. *)
Lemma Write_strip b r r1 :
  engine_ok r -> Write (strip b) r = Some (Status_OK, r1) ->
  exists db', Write b r = Some (Status_OK, with_db r db') /\ healthy db' /\ db_same (db_ r1) db'.
Proof.
  intros [Hdb Hst] H1. unfold Write in *.
  destruct (Write_content (db_ r) (strip b) Hdb) as (db1 & E1 & Hdb1 & C1). rewrite E1 in H1. injection H1 as <-.
  destruct (Write_content (db_ r) b Hdb) as (db' & E & Hdb' & C'). rewrite E. exists db'. split_and!; [done..|].
  intros cf Hcf. simpl. rewrite C', C1 by done. symmetry. by apply strip_apply.
Qed.

(** The batch [b] takes the scores under the version of [p] from [z] to [z'] and
    leaves [p] as the meta value. *)
Lemma zset_write now t key b mv p z z' r :
  let version := piv_version (pbm_base p) in
  key_ok key = true -> zengine_ok r -> zsteps t key version b mv z z' ->
  match mv with Some v => v | None => default [] (meta_of (db_ r) key) end = piv_data (pbm_base p) ->
  (mv = None -> meta_of (db_ r) key <> None) ->
  base_meta_coherent p -> piv_type (pbm_base p) = Some kZSets ->
  (z' = ∅ \/ IsStale now (pbm_base p) = false) -> pbm_count p = Z.of_nat (size z') ->
  numbers z -> data_at (db_ r) key version z -> scores_at (db_ r) key version z ->
  zfresh_from (db_ r) key (version + 1) ->
  exists r', Write b r = Some (Status_OK, r') /\ zset_stores now key z' (piv_etime (pbm_base p)) r r'.
Proof.
  intros version K He HZ Hmv Hnone Hc Ht Hs Hcnt Hnum (m0 & M1 & M2 & M3) Hsc [Hf Hsf].
  pose proof He as ([Hdb Hst] & Hord & Henc). assert (V : is_u64 version) by by apply base_coherent_version.
  destruct (zsteps_data t key version b mv z z' HZ m0 M2 M3) as (ops & HE & Hu & Hv).
  destruct (Write_base kZsetsDataCF eq_refl key version K V (strip b) mv ops r HE Hdb)
    as (db1 & HW1 & Hdb1 & Hmeta & Hmem & Hver & Ho).
  destruct (Write_strip b r _ (conj Hdb Hst) HW1) as (db' & HW & Hdb' & Hsame).
  cbn [db_ with_db] in Hsame.
  assert (HWd : db_Write (db_ r) b = (Status_OK, db')).
  { unfold Write in HW. destruct (db_Write (db_ r) b) as [st d]. by injection HW as -> ->. }
  destruct (score_Write (db_ r) b db' Hdb Hord (zsteps_scores_numbers t key version K V b mv z z' HZ Hnum) HWd)
    as [Hord' Hcont].
  destruct (zsteps_scores t key version K V b mv z z' HZ _ Hnum (zengine_list r He) Hsc) as (Hl' & Hz' & Hoth).
  rewrite <- Hcont in Hl', Hz', Hoth.
  exists (with_db r db'). split; [done|]. split; [split; [done|split; [done|apply Hl']]|].
  assert (Hmeta' : meta_of db' key = Some (piv_data (pbm_base p))).
  { rewrite <- (same_meta_of db1 db' Hsame key key eq_refl), Hmeta, <- Hmv.
    destruct mv; [done|]. destruct (meta_of (db_ r) key); [done|by destruct Hnone]. }
  assert (Hf' : zfresh_from db' key (version + 1)).
  { split.
    - intros v H1 H2. apply (same_members kZsetsDataCF db1); [done..|]. apply Hver; [done|lia|]. by apply Hf.
    - intros v H1 H2 s m U1 U2. rewrite (Hoth (mkSkey key v s m)); [by apply Hsf|done|].
      rewrite group_cmp_Eq. simpl. lia. }
  split.
  - cbn [db_ with_db]. destruct (decide (z' = ∅)) as [->|Hne].
    + rewrite zset_holds_empty. right. exists p. split; [|done]. constructor; try done; [|apply Hf'].
      unfold base_dead. rewrite Hcnt, map_size_empty. apply orb_true_r.
    + apply zset_at_holds. destruct Hs as [?|Hs]; [done|]. constructor; try done.
      * by eapply zsteps_numbers.
      * exists (apply_ops ops m0). split; [|done]. apply (same_members kZsetsDataCF db1); [done..|]. by apply Hmem.
  - split; [by apply (same_others kZsetsDataCF eq_refl key _ db1)|].
    intros x Hx N. apply Hoth; [done|]. rewrite group_cmp_Eq. tauto.
Qed.

End ZSetHolds.
