(* ===== verification/ZSetWrite.v ===== *)
(** * ZADD, ZINCRBY, ZREM and the key-level commands

    What the commands that change single members of a sorted set leave. *)

From Stdlib Require Import Sorting.Sorted.
From S2P Require Import Prelude Coding Numbers Glob KeyFormat Comparator Doubles ValueFormat RocksDB LruCache Redis KeySpace BaseData BaseSpec BaseScan BaseHolds BaseWrite Sets ZSets ZSetSpec.
Open Scope Z_scope.

(** ** What is stored of a score *)

Lemma stored_user_take v : stored_ok v -> exists rest, v = user_value v ++ rest.
Proof.
  intros (user & res & c & -> & Hr & Hc)%stored_chunks. unfold user_value.
  rewrite data_value_parse by done. unfold UserValue. cbn [piv_user piv_data fst snd].
  assert (subseq 0 (length user) (concat [user; res; c]) = user) as ->
    by (apply (subseq_chunk 0); simpl; [lia|done|done]).
  exists (concat [res; c]). done.
Qed.

(** ** Adding scores *)

(** A score that is equal as a number leaves the pattern that is there. *)
Definition new_score (old : option Z) (s : Z) : Z :=
  match old with Some o => if double_eqb o s then o else s | None => s end.
Definition add_score (z : gmap bytes Z) (sm : ScoreMember) : gmap bytes Z :=
  <[snd sm := new_score (z !! snd sm) (fst sm)]> z.
Definition add_scores (sms : list ScoreMember) (z : gmap bytes Z) : gmap bytes Z := fold_left add_score sms z.

(** The last score given for a member. *)
Fixpoint last_score (sms : list ScoreMember) (m : bytes) : option Z :=
  match sms with
  | [] => None
  | sm :: sms =>
      match last_score sms m with
      | Some s => Some s
      | None => if decide (snd sm = m) then Some (fst sm) else None
      end
  end.

Lemma filtered_cons sm (sms : list ScoreMember) :
  filtered_score_members (sm :: sms) =
  let acc := filtered_score_members sms in if decide (snd sm ∈ snd <$> acc) then acc else sm :: acc.
Proof. done. Qed.

Lemma filtered_NoDup (sms : list ScoreMember) : NoDup (filtered_score_members sms).*2.
Proof.
  induction sms as [|sm sms IH]; [constructor|]. rewrite filtered_cons. cbv zeta.
  case_decide as D; [done|]. by constructor.
Qed.

Lemma filtered_Forall (P : ScoreMember -> Prop) (sms : list ScoreMember) : Forall P sms -> Forall P (filtered_score_members sms).
Proof.
  induction 1 as [|sm sms H1 H2 IH]; [constructor|]. rewrite filtered_cons. cbv zeta. case_decide; [done|by constructor].
Qed.

Lemma filtered_length (sms : list ScoreMember) : (length (filtered_score_members sms) <= length sms)%nat.
Proof. induction sms as [|sm sms IH]; [done|]. rewrite filtered_cons. cbv zeta. case_decide; simpl; lia. Qed.

Lemma filtered_last (sms : list ScoreMember) : forall s m, (s, m) ∈ filtered_score_members sms <-> last_score sms m = Some s.
Proof.
  induction sms as [|[s0 m0] sms IH]; intros s m; [simpl; set_solver|]. rewrite filtered_cons. cbv zeta. simpl last_score.
  assert (H : m0 ∈ (filtered_score_members sms).*2 <-> is_Some (last_score sms m0)).
  { rewrite list_elem_of_fmap. split.
    - intros ([s1 m1] & -> & H1). apply IH in H1. by eexists.
    - intros [s1 H1]. exists (s1, m0). split; [done|]. by apply IH. }
  case_decide as D; simpl in D.
  - rewrite IH. apply H in D as [s1 D]. destruct (last_score sms m) eqn:E; [done|].
    case_decide as D2; [|done]. simpl in D2. subst. congruence.
  - rewrite elem_of_cons, IH. destruct (last_score sms m) as [s1|] eqn:E.
    + split; [intros [[= -> ->]|?]; [by destruct D; apply H; eexists|done]|by right].
    + case_decide as D2; simpl in D2; [subst|]; split; try (intros [?|?]; naive_solver); naive_solver.
Qed.

Lemma add_scores_other (l : list ScoreMember) : forall z m, m ∉ l.*2 -> add_scores l z !! m = z !! m.
Proof.
  induction l as [|sm l IH]; intros z m Hm; [done|]. simpl in *. rewrite IH by set_solver.
  unfold add_score. by rewrite lookup_insert_ne by set_solver.
Qed.

Lemma add_scores_in (l : list ScoreMember) : forall z s m, NoDup l.*2 -> (s, m) ∈ l -> add_scores l z !! m = Some (new_score (z !! m) s).
Proof.
  induction l as [|sm l IH]; intros z s m N Hin; [by apply not_elem_of_nil in Hin|].
  rewrite fmap_cons, NoDup_cons in N; destruct N as [Hn N]. apply elem_of_cons in Hin as [<-|Hin].
  - simpl. rewrite add_scores_other by done. unfold add_score. by rewrite lookup_insert_eq.
  - simpl. rewrite (IH _ s m N Hin). unfold add_score. rewrite lookup_insert_ne; [done|].
    intros E. apply Hn. rewrite E. apply (list_elem_of_fmap_2 snd l (s, m)). done.
Qed.

Lemma add_scores_lookup (sms : list ScoreMember) z m :
  add_scores (filtered_score_members sms) z !! m =
  match last_score sms m with Some s => Some (new_score (z !! m) s) | None => z !! m end.
Proof.
  destruct (last_score sms m) as [s|] eqn:E.
  - apply add_scores_in; [apply filtered_NoDup|by apply filtered_last].
  - apply add_scores_other. intros ([s m'] & -> & H)%list_elem_of_fmap. apply filtered_last in H. simpl in E. congruence.
Qed.

Lemma add_score_size z sm :
  size (add_score z sm) = (size z + match z !! snd sm with Some _ => 0 | None => 1 end)%nat.
Proof.
  unfold add_score. destruct (z !! snd sm) as [o|] eqn:E.
  - rewrite map_size_insert_Some by (by exists o). lia.
  - rewrite map_size_insert_None by done. lia.
Qed.

Lemma add_score_new z s m : z !! m = None -> add_score z (s, m) = <[m:=s]> z.
Proof. intros E. unfold add_score. simpl. by rewrite E. Qed.
Lemma add_score_move z s m old : z !! m = Some old -> double_eqb old s = false -> add_score z (s, m) = <[m:=s]> z.
Proof. intros E D. unfold add_score. simpl. rewrite E. simpl. by rewrite D. Qed.
Lemma add_score_same z s m old : z !! m = Some old -> double_eqb old s = true -> add_score z (s, m) = z.
Proof. intros E D. unfold add_score. simpl. rewrite E. simpl. rewrite D. by apply insert_id. Qed.

Lemma add_scores_size (l : list ScoreMember) : forall z, (size z <= size (add_scores l z) <= size z + length l)%nat.
Proof.
  induction l as [|sm l IH]; intros z; simpl; [lia|]. specialize (IH (add_score z sm)).
  rewrite add_score_size in IH. destruct (z !! snd sm); lia.
Qed.

(** Scores that are numbers. *)
Definition number_score (s : Z) : Prop := is_u64 s /\ double_is_nan s = false.

(** How the proofs about commands start. *)
Ltac zset_cases z Hh :=
  destruct (decide (z = ∅)) as [->|Hne];
  [ rewrite zset_holds_empty in Hh; destruct Hh as [[Hg Hfr]|(p & Hd & Hfr)]
  | destruct (zset_holds_live _ _ _ _ _ Hne Hh) as (p & Hz & <-);
    destruct (zset_at_base _ _ _ _ _ Hz) as (mm & Hb & Hm) ].

Section ZSetWrite.
Context {R : RocksDB} {L : RocksDBLaws R} {SL : ScoreLaws R L} {U : Uninit}.

Lemma stored_score_read v s :
  stored_ok v -> user_value v = EncodeFixed64 s -> is_u64 s ->
  stripped_score v = Some s /\ stored_score v = Some s.
Proof.
  intros Hv Hu Hs. destruct (strip_stored v Hv) as [E Hlen].
  destruct (stored_user_take v Hv) as (rest & Hr).
  unfold stripped_score, stored_score, read_score. rewrite E. cbn [mbind option_bind].
  assert (length (EncodeFixed64 s) = 8%nat) by apply length_EncodeFixed64. rewrite Hu in *. split.
  - rewrite (proj2 (Nat.ltb_ge _ _)) by lia. by rewrite DecodeFixed64_EncodeFixed64, u64_id.
  - unfold stored_ok in Hv. change kBaseDataValueSuffixLength with 24%nat. rewrite !(proj2 (Nat.ltb_ge _ _)) by lia.
    by rewrite Hr, DecodeFixed64_app, u64_id.
Qed.

Lemma zset_Get now key p z r f :
  healthy (db_ r) -> zset_at (db_ r) now key p z ->
  match z !! f with
  | Some s => exists v, Get kZsetsDataCF (BaseDataKey_Encode key (piv_version (pbm_base p)) f) r =
                  Some ((Status_OK, v), r) /\ stripped_score v = Some s
  | None => Get kZsetsDataCF (BaseDataKey_Encode key (piv_version (pbm_base p)) f) r =
              Some ((Status_NotFound [], []), r)
  end.
Proof.
  intros Hdb Hz. destruct (zset_at_base _ _ _ _ _ Hz) as (m & Hb & Hm).
  rewrite (base_Get kZSets kZsetsDataCF eq_refl key p m now r f Hdb Hb).
  assert (E : user_value <$> m !! f = EncodeFixed64 <$> z !! f) by (rewrite <- !lookup_fmap; by rewrite Hm).
  destruct (m !! f) as [v|] eqn:Em, (z !! f) as [s|] eqn:Ez; try done. exists v. split; [done|].
  injection E as E. apply stored_score_read; [by apply (ba_values _ _ _ _ _ _ _ Hb f)|done|].
  by apply (za_numbers _ _ _ _ _ Hz f).
Qed.

(** How the commands that need the key to exist start. *)
Lemma zset_GetBase_unused now key r :
  healthy (db_ r) -> zset_unused (db_ r) now key ->
  exists st, GetBase now kZSets key r = Some (inl st, r) /\ status_code st = kNotFound.
Proof.
  intros Hdb Hu. apply (GetBase_unused kZSets kZsetsDataCF); [done|].
  destruct Hu as [[Hg Hfr]|(p & Hd & Hfr)]; [left; split; [done|apply Hfr]|right; by exists p].
Qed.

Lemma bind_zset {A} now key p z r (f : Status + ParsedBaseMetaValue -> M A) :
  healthy (db_ r) -> zset_at (db_ r) now key p z -> bind (GetBase now kZSets key) f r = f (inr p) r.
Proof. intros Hdb Hz. destruct (zset_at_base _ _ _ _ _ Hz) as (mm & Hb & Hm). by apply (bind_GetBase kZSets kZsetsDataCF now key p mm). Qed.

(** ** The end of the commands that write *)

Lemma zset_stores_same now key z e r r1 r2 :
  zset_stores now key z e r r1 -> same_data r1 r2 -> stats_ok r2 -> zset_stores now key z e r r2.
Proof.
  intros (([Hdb _] & Ho & He) & Hh & Hot) [E _] Hs. unfold zset_stores, zengine_ok, engine_ok. by rewrite !E.
Qed.

Lemma zfinish_stores {A} now key st b (a : A) z e r :
  (exists r', Write b r = Some (Status_OK, r') /\ zset_stores now key z e r r') ->
  exists r', zset_finish key st b a r = Some ((Status_OK, a), r') /\ zset_stores now key z e r r'.
Proof.
  intros (r1 & HW & Hst). unfold zset_finish. rewrite (bind_run _ _ _ _ _ HW).
  destruct (UpdateSpecificKeyStatistics_ok kZSets key st r1) as (r2 & H2 & Hs & Hok); [done|apply Hst|].
  exists r2. rewrite (bind_run _ _ _ _ _ H2). split; [done|]. by eapply zset_stores_same.
Qed.

Lemma zset_stores_refl now key z e r :
  zengine_ok r -> zset_holds (db_ r) now key z e -> zset_stores now key z e r r.
Proof. intros He Hh. split; [done|]. split; [done|]. split; [by split_and!|done]. Qed.

(** The time a key expires after a write: a new one never does. *)
Definition zkept (z : gmap bytes Z) (e : Z) : Z := if decide (z = ∅) then 0 else e.

(** A write under the version of a meta value that is there. *)
Lemma live_write now key b mv p n z z' r :
  key_ok key = true -> zengine_ok r -> zset_at (db_ r) now key p z ->
  let q := counted p n in
  zsteps now key (piv_version (pbm_base p)) b mv z z' ->
  pbm_count p + n = Z.of_nat (size z') -> Z.of_nat (size z') < 2 ^ 31 ->
  (mv = Some (piv_data (pbm_base q)) \/ mv = None /\ n = 0) ->
  exists r', Write b r = Some (Status_OK, r') /\ zset_stores now key z' (piv_etime (pbm_base p)) r r'.
Proof.
  intros K He [H1 H2 H3 H4 H5 H6 H7 H8 H9 H10] q HZ Hn Hlt Hmv.
  assert (Hi : i32 (pbm_count p + n) = Z.of_nat (size z')) by (unfold i32; rewrite Z.mod_small by lia; lia).
  destruct Hmv as [->|[-> ->]].
  - apply (zset_write now now key b (Some (piv_data (pbm_base q))) q z z' r); try done.
    + apply base_SetCount_coherent; [apply i32_range|done].
    + by right.
  - apply (zset_write now now key b None p z z' r); try done.
    + by rewrite H1.
    + by rewrite H1.
    + by right.
    + lia.
Qed.

(** A write that starts a key again over the meta value [p]. *)
Lemma over_write now key b p q0 q n z' r :
  key_ok key = true -> clock_ok now -> zengine_ok r ->
  meta_of (db_ r) key = Some (piv_data (pbm_base p)) -> base_meta_coherent p ->
  piv_type (pbm_base p) = Some kZSets -> zfresh_from (db_ r) key (piv_version (pbm_base p) + 1) ->
  version_room (db_ r) key ->
  q0 = ParsedBaseMetaValue_InitialMetaValue now p -> q = ParsedBaseMetaValue_SetCount q0 n ->
  zsteps now key (piv_version (pbm_base q0)) b (Some (piv_data (pbm_base q))) ∅ z' ->
  n = Z.of_nat (size z') -> n < 2 ^ 31 ->
  exists r', Write b r = Some (Status_OK, r') /\ zset_stores now key z' 0 r r'.
Proof.
  intros K Hnow He Hm Hp Htp Hf Hroom Hq0 Hq HZ Hn Hlt.
  destruct (revived_meta now p n Hnow Hp ltac:(lia)) as (Hc & Ht & Hcnt & Hver & Het & Ev). rewrite <- Hq0 in *. rewrite <- Hq in *. rewrite Ev in HZ.
  pose proof (base_coherent_version p Hp) as V. unfold is_u64 in V. pose proof (base_coherent_version q Hc) as V'.
  assert (Hv : piv_version (pbm_base p) < 2 ^ 64 - 1) by by apply Hroom.
  destruct (next_version_gt now (piv_version (pbm_base p)) ltac:(lia)) as [Hgt _].
  destruct (fresh_data _ _ _ (piv_version (pbm_base q)) Hf) as [D1 D2]; [lia|done|].
  rewrite <- Het. apply (zset_write now now key b (Some (piv_data (pbm_base q))) q ∅ z' r); try done.
  - by rewrite Ht.
  - right. rewrite IsStale_stale. unfold stale. by rewrite Het.
  - by rewrite Hcnt.
  - split; [intros v H1 H2; apply (proj1 Hf); [lia|done]|intros v H1 H2; apply (proj2 Hf); [lia|done]].
Qed.

(** A write that creates a key. *)
Lemma new_write now key b n z' r :
  key_ok key = true -> clock_ok now -> zengine_ok r -> zfresh_from (db_ r) key (next_version now 0) ->
  let m := new_base_meta now kZSets n in
  zsteps now key (iv_version m) b None ∅ z' -> n = Z.of_nat (size z') -> n < 2 ^ 31 ->
  exists r', Write (Put kMetaCF (BaseKey_Encode key) (BaseMetaValue_Encode m) :: b) r = Some (Status_OK, r') /\
    zset_stores now key z' 0 r r'.
Proof.
  intros K Hnow He Hf m HZ Hn Hlt.
  destruct (new_base_meta_done kZSets eq_refl now n Hnow ltac:(lia)) as (p & Ep & Hc & Ht & Hcnt & Hver & Het).
  assert (V : is_u64 (next_version now 0)) by by apply next_version_u64, clock_u64.
  destruct (fresh_data _ _ _ (next_version now 0) Hf) as [D1 D2]; [lia|done|].
  rewrite <- Het. apply (zset_write now now key _ (Some (piv_data (pbm_base p))) p ∅ z' r); rewrite ?Hver; try done.
  - rewrite Ep. apply (zs_meta now key _ _ b None). exact HZ.
  - right. rewrite IsStale_stale. unfold stale. by rewrite Het.
  - by rewrite Hcnt.
  - split; [intros v H1 H2; apply (proj1 Hf); [lia|done]|intros v H1 H2; apply (proj2 Hf); [lia|done]].
Qed.

(** ** [ZAdd] *)

Lemma puts_steps now key version (l : list ScoreMember) : forall z,
  NoDup l.*2 -> (forall m, m ∈ l.*2 -> z !! m = None) -> Forall (fun sm => number_score (fst sm)) l ->
  zsteps now key version (l ≫= put_score now key version) None z (add_scores l z) /\
  size (add_scores l z) = (size z + length l)%nat.
Proof.
  induction l as [|[s m] l IH]; intros z N Hz Hl; [split; [constructor|simpl; lia]|].
  rewrite fmap_cons, NoDup_cons in N; destruct N as [Hn N]. apply Forall_cons in Hl as [[H1 H2] Hl]. simpl in Hn, H1, H2.
  assert (Hm : z !! m = None) by (apply Hz; simpl; set_solver).
  destruct (IH (add_score z (s, m))) as [HZ Hsz]; [done| |done|].
  { intros m' Hm'. unfold add_score. simpl. rewrite lookup_insert_ne by set_solver. apply Hz. simpl. set_solver. }
  change (add_scores ((s, m) :: l) z) with (add_scores l (add_score z (s, m))).
  rewrite Hsz, add_score_size. simpl snd. rewrite Hm. split; [|simpl; lia].
  apply (zs_put now key version m s _ None z); [done..|]. rewrite <- (add_score_new z s m Hm). exact HZ.
Qed.

Lemma ZAdd_loop_new now key version (l : list ScoreMember) : forall batch cnt st r,
  0 <= cnt -> cnt + Z.of_nat (length l) < 2 ^ 31 ->
  ZAdd_loop now key version false l batch cnt st r =
  Some (inr (batch ++ (l ≫= put_score now key version), cnt + Z.of_nat (length l), st), r).
Proof.
  induction l as [|sm l IH]; intros batch cnt st r H0 Hlt; cbn [ZAdd_loop].
  - unfold ret. simpl. by rewrite app_nil_r, Z.add_0_r.
  - simpl length in Hlt. rewrite i32_id by (unfold is_i32; lia). rewrite IH by lia. rewrite <- app_assoc.
    replace (cnt + 1 + Z.of_nat (length l)) with (cnt + Z.of_nat (length (sm :: l))) by (simpl; lia). done.
Qed.

Lemma ZAdd_loop_live now key p z (l : list ScoreMember) : forall zc batch cnt st r,
  healthy (db_ r) -> zset_at (db_ r) now key p z -> NoDup l.*2 -> Forall (fun sm => number_score (fst sm)) l ->
  (forall m, m ∈ l.*2 -> zc !! m = z !! m) -> 0 <= cnt -> cnt + Z.of_nat (length l) < 2 ^ 31 ->
  exists b st', ZAdd_loop now key (piv_version (pbm_base p)) true l batch cnt st r =
      Some (inr (batch ++ b, cnt + (Z.of_nat (size (add_scores l zc)) - Z.of_nat (size zc)), st'), r) /\
    zsteps now key (piv_version (pbm_base p)) b None zc (add_scores l zc).
Proof.
  induction l as [|[s m] l IH]; intros zc batch cnt st r Hdb Hz N Hl Hzc H0 Hlt; cbn [ZAdd_loop].
  - exists [], st. split; [|constructor]. unfold ret. simpl. by rewrite app_nil_r, Z.sub_diag, Z.add_0_r.
  - rewrite fmap_cons, NoDup_cons in N; destruct N as [Hn N]. apply Forall_cons in Hl as [[Hs1 Hs2] Hl]. simpl in Hn, Hs1, Hs2, Hlt.
    pose proof (zset_Get now key p z r m Hdb Hz) as HG. rewrite <- Hzc in HG by (simpl; set_solver).
    assert (Hnext : forall m', m' ∈ l.*2 -> add_score zc (s, m) !! m' = z !! m').
    { intros m' Hm'. unfold add_score. simpl. rewrite lookup_insert_ne by set_solver. apply Hzc. simpl. set_solver. }
    pose proof (add_score_size zc (s, m)) as Hsz. simpl fst in *. simpl snd in *.
    destruct (zc !! m) as [old|] eqn:Em.
    + destruct HG as (v & HG & Hv). rewrite (bind_run _ _ _ _ _ HG). on_status. rewrite (bind_lift _ _ _ _ Hv).
      destruct (double_eqb old s) eqn:Eq.
      * pose proof (add_score_same zc s m old Em Eq) as Ez.
        destruct (IH zc batch cnt st r) as (b & st' & HL & HZ); try done; [by rewrite Ez in Hnext|lia|].
        exists b, st'. change (add_scores ((s, m) :: l) zc) with (add_scores l (add_score zc (s, m))). by rewrite Ez.
      * destruct (IH (add_score zc (s, m)) (batch ++ delete_score key (piv_version (pbm_base p)) (old, m) ::
          put_score now key (piv_version (pbm_base p)) (s, m)) cnt (u32 (st + 1)) r) as (b & st' & HL & HZ); try done; [lia|].
        exists (delete_score key (piv_version (pbm_base p)) (old, m) ::
          put_score now key (piv_version (pbm_base p)) (s, m) ++ b), st'.
        change (add_scores ((s, m) :: l) zc) with (add_scores l (add_score zc (s, m))).
        rewrite HL, <- app_assoc, Hsz, Nat.add_0_r. split; [done|].
        apply (zs_move now key _ m old s _ None zc); [done..|]. by rewrite <- (add_score_move zc s m old).
    + rewrite (bind_run _ _ _ _ _ HG). on_status. rewrite i32_id by (unfold is_i32; lia).
      destruct (IH (add_score zc (s, m)) (batch ++ put_score now key (piv_version (pbm_base p)) (s, m)) (cnt + 1) st r)
        as (b & st' & HL & HZ); try done; [lia|lia|].
      exists (put_score now key (piv_version (pbm_base p)) (s, m) ++ b), st'.
      change (add_scores ((s, m) :: l) zc) with (add_scores l (add_score zc (s, m))).
      rewrite HL, <- app_assoc, Hsz. set (n := Z.of_nat (size (add_scores l _))).
      replace (cnt + 1 + (n - Z.of_nat (size zc + 1))) with (cnt + (n - Z.of_nat (size zc))) by lia. split; [done|].
      apply (zs_put now key _ m s _ None zc); [done..|]. by rewrite <- (add_score_new zc s m).
Qed.

Lemma restart_count now p q n : q = ParsedBaseMetaValue_InitialMetaValue now p -> is_i32 n ->
  pbm_count q = 0 /\ counted q n = ParsedBaseMetaValue_SetCount q n.
Proof.
  intros Hq Hn. assert (E : pbm_count q = 0) by by rewrite Hq. split; [done|].
  unfold counted. by rewrite E, Z.add_0_l, i32_id.
Qed.

Lemma check_count p n : 0 <= pbm_count p + n < 2 ^ 31 -> ParsedBaseMetaValue_CheckModifyCount p n = true.
Proof.
  intros H. unfold ParsedBaseMetaValue_CheckModifyCount, INT32_MAX.
  by rewrite (proj2 (Z.ltb_ge _ _)), (proj2 (Z.ltb_ge _ _)) by lia.
Qed.

Lemma starts_with_meta now key version b z z' v :
  zsteps now key version b None z z' ->
  zsteps now key version (Put kMetaCF (BaseKey_Encode key) v :: b) (Some v) z z'.
Proof. apply (zs_meta now key version v b None). Qed.

Lemma ends_with_meta now key version b z z' v :
  zsteps now key version b None z z' ->
  zsteps now key version (b ++ [Put kMetaCF (BaseKey_Encode key) v]) (Some v) z z'.
Proof.
  intros H. apply (zsteps_app now key version _ None _ (Some v) z z' z' H).
  apply (zs_meta now key version v [] None), zs_nil.
Qed.

Lemma zset_at_bound db now key p z : zset_at db now key p z -> 0 < Z.of_nat (size z) < 2 ^ 31.
Proof.
  intros H. destruct (zset_at_base _ _ _ _ _ H) as (m & Hb & Hm).
  pose proof (base_at_bound _ _ _ _ _ _ _ Hb). by rewrite <- (map_size_fmap EncodeFixed64), <- Hm, map_size_fmap.
Qed.

Lemma ZAdd_stores now key (sms : list ScoreMember) z e r :
  key_ok key = true -> clock_ok now -> zengine_ok r -> zset_holds (db_ r) now key z e ->
  version_room (db_ r) key -> Forall (fun sm => number_score (fst sm)) sms ->
  Z.of_nat (size z) + Z.of_nat (length sms) < 2 ^ 31 ->
  let l := filtered_score_members sms in
  exists r', ZAdd now key sms r = Some ((Status_OK, Z.of_nat (size (add_scores l z)) - Z.of_nat (size z)), r') /\
    zset_stores now key (add_scores l z) (zkept z e) r r'.
Proof.
  intros K Hnow He Hh Hroom Hl Hlt l. pose proof He as ([Hdb Hst] & Hord & Henc).
  assert (N : NoDup l.*2) by apply filtered_NoDup.
  assert (Hnum : Forall (fun sm => number_score (fst sm)) l) by by apply filtered_Forall.
  pose proof (filtered_length sms) as Hlen. fold l in Hlen.
  unfold ZAdd. fold l. unfold zkept. zset_cases z Hh.
  - start_gone. rewrite map_size_empty, Z.sub_0_r.
    destruct (puts_steps now key (iv_version (new_base_meta now kZSets (Z.of_nat (length l)))) l ∅) as [HZ Hsz]; [done|done|done|].
    rewrite map_size_empty in Hsz. rewrite Hsz, i32_id by (unfold is_i32; lia).
    apply zfinish_stores, new_write; try done; simpl in *; [by rewrite Hsz|lia].
  - rewrite (bind_dead _ _ _ _ _ _ _ Hdb Hd). on_status.
    rewrite (bind_lift _ _ _ _ (base_parse _ (da_coherent _ _ _ _ _ _ Hd))), (da_dead _ _ _ _ _ _ Hd).
    cbn [negb]. cbv zeta iota. rewrite map_size_empty, Z.sub_0_r.
    remember (ParsedBaseMetaValue_InitialMetaValue now p) as q eqn:Hq.
    destruct (restart_count now p q (Z.of_nat (length l)) Hq ltac:(unfold is_i32; lia)) as [Ec Em].
    rewrite (bind_run _ _ _ _ _ (ZAdd_loop_new now key (piv_version (pbm_base q)) l [] 0 0 r ltac:(lia) ltac:(lia))).
    cbv beta iota. destruct (puts_steps now key (piv_version (pbm_base q)) l ∅) as [HZ Hsz]; [done|done|done|].
    rewrite map_size_empty in Hsz. rewrite checked_count, check_count by lia. cbn [negb]. rewrite Hsz. simpl app. rewrite Z.add_0_l.
    apply zfinish_stores, (over_write now key _ p q (counted q (Z.of_nat (length l)))
      (Z.of_nat (length l))); [done|done|done|apply Hd..|done|done|done|done|by apply ends_with_meta|by rewrite Hsz|lia].
  - rewrite (bind_live _ _ _ _ _ _ _ _ Hdb Hb). on_status.
    rewrite (bind_lift _ _ _ _ (base_parse _ (za_coherent _ _ _ _ _ Hz))), (proj1 (base_at_alive _ _ _ _ _ _ _ Hb)).
    cbn [negb]. cbv zeta iota.
    destruct (ZAdd_loop_live now key p z l z [] 0 0 r) as (b & st' & HL & HZ); try done; [lia|].
    rewrite (bind_run _ _ _ _ _ HL). cbv beta iota.
    pose proof (add_scores_size l z) as Hsz. pose proof (za_count _ _ _ _ _ Hz) as Hc.
    rewrite checked_count, check_count by lia. cbn [negb]. simpl app. rewrite Z.add_0_l.
    apply zfinish_stores. eapply (live_write now key _ _ p (Z.of_nat (size (add_scores l z)) - Z.of_nat (size z)) z (add_scores l z) r);
      [done..|by apply ends_with_meta|lia|lia|by left].
Qed.

(** C13: ZADD gives every member it names the last score named for it, unless the
    member has an equal score already, and counts the members that are new; on a
    key that is absent or dead it starts a new sorted set that never expires.  The
    member entries and the score entries stay in step, and other keys are as they
    were. *)
Theorem ZAdd_correct now key (sms : list ScoreMember) z e r :
  key_ok key = true -> clock_ok now -> zengine_ok r -> zset_holds (db_ r) now key z e ->
  version_room (db_ r) key -> Forall (fun sm => number_score (fst sm)) sms ->
  Z.of_nat (size z) + Z.of_nat (length sms) < 2 ^ 31 ->
  exists z' r', ZAdd now key sms r = Some ((Status_OK, Z.of_nat (size z') - Z.of_nat (size z)), r') /\
    zset_stores now key z' (zkept z e) r r' /\
    forall m, z' !! m = match last_score sms m with
                        | Some s => Some (new_score (z !! m) s)
                        | None => z !! m
                        end.
Proof.
  intros K Hnow He Hh Hroom Hl Hlt. destruct (ZAdd_stores now key sms z e r K Hnow He Hh Hroom Hl Hlt) as (r' & H1 & H2).
  exists (add_scores (filtered_score_members sms) z), r'. split_and!; [done..|]. intros m. apply add_scores_lookup.
Qed.

(** ** [ZIncrby] *)

Lemma zsteps_one now key version m s z :
  z !! m = None -> number_score s ->
  zsteps now key version (put_score now key version (s, m)) None z (<[m:=s]> z).
Proof.
  intros Hz [H1 H2]. pose proof (zs_put now key version m s [] None z (<[m:=s]> z) Hz H1 H2 (zs_nil now key version _)) as H.
  exact H.
Qed.

(** ZINCRBY adds to the score of the member, a member or key that is not
    there counting as 0, answers the sum and leaves both indices with it, when the
    sum is a number and the count fits. *)
Theorem ZIncrby_correct now key m inc z e r :
  key_ok key = true -> clock_ok now -> zengine_ok r -> zset_holds (db_ r) now key z e ->
  version_room (db_ r) key -> Z.of_nat (size z) < 2 ^ 31 - 1 ->
  let s := match z !! m with Some old => double_add old inc | None => inc end in
  number_score s ->
  exists r', ZIncrby now key m inc r = Some ((Status_OK, s), r') /\
    zset_stores now key (<[m:=s]> z) (zkept z e) r r'.
Proof.
  intros K Hnow He Hh Hroom Hlt s Hs. pose proof He as ([Hdb Hst] & Hord & Henc).
  assert (Es : s = match z !! m with Some old => double_add old inc | None => inc end) by done. clearbody s.
  unfold ZIncrby. cbv zeta. unfold zkept. zset_cases z Hh.
  - start_gone. rewrite lookup_empty in Es. subst s.
    apply zfinish_stores, new_write; try done; [by apply zsteps_one|by rewrite map_size_insert_None, map_size_empty].
  - rewrite (bind_dead _ _ _ _ _ _ _ Hdb Hd). on_status.
    rewrite (bind_lift _ _ _ _ (base_parse _ (da_coherent _ _ _ _ _ _ Hd))), (da_dead _ _ _ _ _ _ Hd).
    rewrite lookup_empty in Es. subst s. remember (ParsedBaseMetaValue_InitialMetaValue now p) as q eqn:Eq.
    destruct (restart_count now p q 1 Eq ltac:(done)) as [Ec Em].
    assert (V : is_u64 (piv_version (pbm_base q))).
    { rewrite Eq. apply base_coherent_version, base_InitialMetaValue_coherent; [by apply clock_u64|apply Hd]. }
    assert (Hq : piv_version (pbm_base p) + 1 <= piv_version (pbm_base q)).
    { pose proof (base_coherent_version p (da_coherent _ _ _ _ _ _ Hd)) as Vp. unfold is_u64 in Vp.
      assert (piv_version (pbm_base q) = next_version now (piv_version (pbm_base p))) as -> by by rewrite Eq.
      assert (piv_version (pbm_base p) < 2 ^ 64 - 1) by (apply Hroom; apply Hd).
      pose proof (next_version_gt now (piv_version (pbm_base p)) ltac:(lia)). lia. }
    assert (HG : Get kZsetsDataCF (BaseDataKey_Encode key (piv_version (pbm_base q)) m) r = Some ((Status_NotFound [], []), r)).
    { unfold Get. rewrite Get_lookup by done. by rewrite (ma_lookup _ _ _ _ _ (proj1 Hfr _ Hq V)), lookup_empty. }
    rewrite (bind_run _ _ _ _ _ HG). on_status. rewrite checked_count, check_count by lia. cbn [negb].
    apply zfinish_stores, (over_write now key _ p q (counted q 1) 1);
      [done|done|done|apply Hd..|done|done|done|done| | |done].
    + by apply starts_with_meta, zsteps_one.
    + by rewrite map_size_insert_None, map_size_empty.
  - rewrite (bind_live _ _ _ _ _ _ _ _ Hdb Hb). on_status.
    rewrite (bind_lift _ _ _ _ (base_parse _ (za_coherent _ _ _ _ _ Hz))), (proj1 (base_at_alive _ _ _ _ _ _ _ Hb)).
    pose proof (zset_Get now key p z r m Hdb Hz) as HG. pose proof (za_count _ _ _ _ _ Hz) as Hc.
    destruct (z !! m) as [old|] eqn:Em; rewrite <- ?Es.
    + destruct HG as (v & HG & Hv). rewrite (bind_run _ _ _ _ _ HG). on_status. rewrite (bind_lift _ _ _ _ Hv), <- Es.
      apply zfinish_stores. apply (live_write now key _ None p 0 z (<[m:=s]> z) r); try done.
      * apply (zs_move now key _ m old s [] None z); [done|apply Hs|apply Hs|constructor].
      * rewrite map_size_insert_Some by (by exists old). lia.
      * rewrite map_size_insert_Some by (by exists old). lia.
      * by right.
    + rewrite (bind_run _ _ _ _ _ HG). on_status. rewrite checked_count, check_count by lia. cbn [negb].
      apply zfinish_stores. eapply (live_write now key _ _ p 1 z (<[m:=s]> z) r); [done..| | | |by left].
      * by apply starts_with_meta, zsteps_one.
      * rewrite map_size_insert_None by done. lia.
      * rewrite map_size_insert_None by done. lia.
Qed.

(** ** [ZRem] *)

Definition drop_members (members : list bytes) (z : gmap bytes Z) : gmap bytes Z :=
  fold_left (fun z m => base.delete m z) members z.

Lemma drop_members_lookup l : forall z m,
  drop_members l z !! m = if decide (m ∈ l) then None else z !! m.
Proof.
  induction l as [|m0 l IH]; intros z m; [done|]. simpl. rewrite IH.
  destruct (decide (m ∈ l)), (decide (m ∈ m0 :: l)); try set_solver; [|by rewrite lookup_delete_ne by set_solver].
  assert (m = m0) as -> by set_solver. by rewrite lookup_delete_eq.
Qed.

Lemma drop_members_filter (l l' : list bytes) (z : gmap bytes Z) :
  (forall m, m ∈ l <-> m ∈ l') -> drop_members l z = filter (fun x => fst x ∉ l') z.
Proof.
  intros H. apply map_eq. intros m. rewrite drop_members_lookup, map_lookup_filter.
  destruct (z !! m) as [s|]; simpl; [|by case_decide].
  case_decide as D; [rewrite option_guard_False|rewrite option_guard_True]; rewrite ?H in D; tauto.
Qed.

(** Deleting members one by one: the batch, and how many there were. *)
Definition drop_count (l : list bytes) (z : gmap bytes Z) : Z := Z.of_nat (size z) - Z.of_nat (size (drop_members l z)).

Lemma drop_one m l z :
  drop_count (m :: l) z = (match z !! m with Some _ => 1 | None => 0 end) + drop_count l (base.delete m z).
Proof.
  unfold drop_count. simpl. destruct (z !! m) as [s|] eqn:E.
  - pose proof (map_size_delete_Some m z ltac:(by exists s)) as H.
    assert (size z <> 0%nat) by (intros H0%map_size_empty_inv; subst; by rewrite lookup_empty in E). lia.
  - by rewrite delete_id.
Qed.

Lemma drop_count_bounds l z : 0 <= drop_count l z <= Z.of_nat (size z).
Proof.
  unfold drop_count. assert (H : (size (drop_members l z) <= size z)%nat); [|lia]. revert z.
  induction l as [|m l IH]; intros z; simpl; [lia|]. etransitivity; [apply IH|]. apply map_subseteq_size, delete_subseteq.
Qed.

Lemma ZRem_loop_live now key p z l : forall zc batch cnt r,
  healthy (db_ r) -> zset_at (db_ r) now key p z -> NoDup l ->
  (forall m, m ∈ l -> zc !! m = z !! m) -> 0 <= cnt -> cnt + drop_count l zc < 2 ^ 31 ->
  exists b, ZRem_loop key (piv_version (pbm_base p)) l batch cnt r =
      Some (inr (batch ++ b, cnt + drop_count l zc), r) /\
    zsteps now key (piv_version (pbm_base p)) b None zc (drop_members l zc).
Proof.
  induction l as [|m l IH]; intros zc batch cnt r Hdb Hz N Hzc H0 Hlt; cbn [ZRem_loop].
  - exists []. split; [|constructor]. unfold ret, drop_count. simpl. by rewrite app_nil_r, Z.sub_diag, Z.add_0_r.
  - apply NoDup_cons in N as [Hn N]. pose proof (drop_count_bounds l (base.delete m zc)) as Hb. rewrite drop_one in *.
    pose proof (zset_Get now key p z r m Hdb Hz) as HG. rewrite <- Hzc in HG by set_solver.
    assert (Hnext : forall m', m' ∈ l -> base.delete m zc !! m' = z !! m').
    { intros m' Hm'. rewrite lookup_delete_ne by set_solver. apply Hzc. set_solver. }
    destruct (zc !! m) as [s|] eqn:Em.
    + destruct HG as (v & HG & Hv). rewrite (bind_run _ _ _ _ _ HG). on_status. rewrite (bind_lift _ _ _ _ Hv).
      rewrite i32_id by (unfold is_i32; lia).
      destruct (IH (base.delete m zc) (batch ++ [Delete kZsetsDataCF (BaseDataKey_Encode key (piv_version (pbm_base p)) m);
        delete_score key (piv_version (pbm_base p)) (s, m)]) (cnt + 1) r) as (b & HL & HZ); try done; [lia|lia|].
      eexists. split; [rewrite HL, <- app_assoc, <- Z.add_assoc; reflexivity|]. by apply zs_delete.
    + rewrite (bind_run _ _ _ _ _ HG). on_status. rewrite delete_id in * by done.
      destruct (IH zc batch cnt r) as (b & HL & HZ); try done. exists b. rewrite HL, Z.add_0_l.
      split; [done|]. change (drop_members (m :: l) zc) with (drop_members l (base.delete m zc)). by rewrite delete_id.
Qed.

(** The end of the commands that remove. *)
Lemma zset_remove_stores now key p z z' b r :
  key_ok key = true -> zengine_ok r -> zset_at (db_ r) now key p z ->
  zsteps now key (piv_version (pbm_base p)) b None z z' ->
  let n := Z.of_nat (size z) - Z.of_nat (size z') in
  0 <= n ->
  ParsedBaseMetaValue_CheckModifyCount p (- n) = true /\
  exists r', Write (b ++ [put_base_meta key (counted p (- n))]) r = Some (Status_OK, r') /\
    zset_stores now key z' (piv_etime (pbm_base p)) r r'.
Proof.
  intros K He Hz HZ n Hn. pose proof (za_count _ _ _ _ _ Hz) as Hc. pose proof (zset_at_bound _ _ _ _ _ Hz) as Hbd.
  split; [apply check_count; lia|].
  eapply (live_write now key _ _ p (- n) z z' r); [done..|by apply ends_with_meta|lia|lia|by left].
Qed.

(** ZREM removes the members it names, from both indices, and answers how many
    of them there were; a sorted set without members is none.  On a key that holds
    no sorted set it answers NotFound and changes nothing. *)
Theorem ZRem_correct now key (members : list bytes) z e r :
  key_ok key = true -> zengine_ok r -> zset_holds (db_ r) now key z e ->
  let z' := filter (fun x => fst x ∉ members) z in
  if decide (z = ∅)
  then exists st, ZRem now key members r = Some ((st, 0), r) /\ status_code st = kNotFound
  else exists r', ZRem now key members r = Some ((Status_OK, Z.of_nat (size z) - Z.of_nat (size z')), r') /\
    zset_stores now key z' e r r'.
Proof.
  intros K He Hh z'. pose proof He as ([Hdb Hst] & Hord & Henc).
  destruct (keep_fields_spec members [] (NoDup_nil_2)) as [N Hin].
  change (keep_fields members []) with (filtered_members members) in N, Hin.
  assert (Hin' : forall m, m ∈ filtered_members members <-> m ∈ members) by (intros m; rewrite Hin; set_solver).
  destruct (decide (z = ∅)) as [->|Hne].
  - rewrite zset_holds_empty in Hh. destruct (zset_GetBase_unused now key r Hdb Hh) as (st & HG & Hcode). exists st. unfold ZRem. by rewrite (bind_run _ _ _ _ _ HG).
  - destruct (zset_holds_live _ _ _ _ _ Hne Hh) as (p & Hz & <-).
    unfold ZRem. rewrite (bind_zset now key p z r _ Hdb Hz).
    pose proof (drop_count_bounds (filtered_members members) z) as Hbd. pose proof (zset_at_bound _ _ _ _ _ Hz).
    destruct (ZRem_loop_live now key p z (filtered_members members) z [] 0 r) as (b & HL & HZ); try done; [lia|].
    rewrite (bind_run _ _ _ _ _ HL). cbv beta iota. simpl app. rewrite Z.add_0_l.
    assert (Ez : drop_members (filtered_members members) z = z') by by apply drop_members_filter.
    rewrite Ez in HZ. unfold drop_count in *. rewrite Ez in *.
    destruct (zset_remove_stores now key p z z' b r K He Hz HZ ltac:(lia)) as [Hck Hw].
    unfold zset_remove. rewrite checked_count, Hck. cbn [negb]. by apply zfinish_stores.
Qed.

End ZSetWrite.
