(* ===== verification/ZSetRead.v ===== *)
(** * Reading sorted sets

    The score entries of a key are consecutive, in the order of their scores and
    then of their members; what the seeks of the commands reach among them, and
    what the commands that read by rank and by score answer. *)

From Stdlib Require Import Sorting.Sorted.
From stdpp Require Import sorting.
From S2P Require Import Prelude Coding Numbers Glob KeyFormat Comparator Doubles ValueFormat RocksDB LruCache Redis KeySpace BaseData BaseSpec BaseScan BaseHolds BaseWrite Sets ZSets ZSetSpec ZSetWrite.
Open Scope Z_scope.

Section ZSetRead.
Context {R : RocksDB} {L : RocksDBLaws R} {SL : ScoreLaws R L} {U : Uninit}.

(** ** The entries of a key *)

Lemma encoded_skeys l : encoded_keys l -> exists xs, l.*1 = skey_enc <$> xs /\ Forall skey_ok xs.
Proof.
  induction 1 as [|e l (x & Hx & E) Hl IH]; [by exists []|]. destruct IH as (xs & Exs & Hxs).
  exists (x :: xs). split; [|by constructor]. rewrite !fmap_cons. by rewrite Exs, E.
Qed.

Lemma skeys_sorted l xs :
  sorted score_compare l -> l.*1 = skey_enc <$> xs -> Forall skey_ok xs ->
  StronglySorted (fun x y => skey_cmp x y = Lt) xs.
Proof.
  intros Hs. revert xs. induction Hs as [|e l Hs IH He]; intros [|x xs] E Hxs; try done; [constructor|].
  rewrite !fmap_cons in E. injection E as E1 E2. apply Forall_cons in Hxs as [Hx Hxs]. constructor; [by apply IH|].
  rewrite Forall_forall in Hxs. rewrite Forall_forall in He. apply Forall_forall. intros y Hy. rewrite <- score_compare_enc by auto. rewrite <- E1.
  assert (Hin : skey_enc y ∈ l.*1) by (rewrite E2; by apply list_elem_of_fmap_2).
  apply list_elem_of_fmap in Hin as (e' & -> & Hin). by apply He.
Qed.

Definition sm_enc (key : bytes) (version : Z) (sm : ScoreMember) : bytes :=
  ZSetsScoreKey_Encode key version (fst sm) (snd sm).

Definition sm_of (x : skey) : ScoreMember := (sk_score x, sk_member x).

Lemma group_pairs key version xb :
  Forall (fun x => group_cmp key version x = Eq) xb -> xb = sm_key key version <$> (sm_of <$> xb).
Proof.
  induction 1 as [|x xb Hx Hb IH]; [done|]. rewrite !fmap_cons, <- IH. f_equal.
  apply group_cmp_Eq in Hx as [<- <-]. by destruct x.
Qed.

Lemma pairs_sorted key version zl :
  StronglySorted (fun x y => skey_cmp x y = Lt) (sm_key key version <$> zl) ->
  StronglySorted (fun x y => sm_cmp x y = Lt) zl.
Proof.
  induction zl as [|[s m] zl IH]; [constructor|]. rewrite fmap_cons. intros H. inversion H as [|? ? S1 S2]; subst.
  constructor; [by apply IH|]. rewrite Forall_fmap in S2. eapply Forall_impl; [exact S2|].
  intros [s' m'] E. by rewrite <- (sm_key_cmp key version).
Qed.

(** The entries before, of and after the key and version. *)
Lemma scores_split r key version z :
  key_ok key = true -> is_u64 version -> zengine_ok r -> scores_at (db_ r) key version z -> numbers z ->
  exists ea eb ec zl xa xc, content (db_ r) kZsetsScoreCF = ea ++ eb ++ ec /\ zlisting z zl /\
    eb.*1 = sm_enc key version <$> zl /\
    ea.*1 = skey_enc <$> xa /\ Forall (fun x => skey_ok x /\ group_cmp key version x = Lt) xa /\
    ec.*1 = skey_enc <$> xc /\ Forall (fun x => skey_ok x /\ group_cmp key version x = Gt) xc.
Proof.
  intros K V He Hz Hn. destruct (zengine_list r He) as [Henc Hsort].
  destruct (encoded_skeys _ Henc) as (xs & Exs & Hxs).
  pose proof (skeys_sorted _ xs Hsort Exs Hxs) as Hs.
  destruct (split_three _ (group_cmp key version) xs Hs) as (xa & xb & xc & -> & Ha & Hb & Hc).
  { intros x y Hxy. by apply group_cmp_mono. }
  rewrite !fmap_app in Exs. apply fmap_app_inv in Exs as (ea & ebc & E1 & Ebc & Econt).
  symmetry in Ebc. apply fmap_app_inv in Ebc as (eb & ec & E2 & E3 & ->).
  rewrite !Forall_app in Hxs. destruct Hxs as (Oa & Ob & Oc).
  set (zl := sm_of <$> xb). pose proof (group_pairs key version xb Hb) as Exb. fold zl in Exb.
  exists ea, eb, ec, zl, xa, xc. split_and!; [done| |rewrite <- E2, Exb, <- list_fmap_compose; done|done| |done|].
  - split.
    + apply (pairs_sorted key version). rewrite <- Exb.
      apply StronglySorted_app_1_r in Hs. by apply StronglySorted_app_1_l in Hs.
    + intros s m. assert (P : (s, m) ∈ zl -> is_u64 s /\ double_is_nan s = false).
      { intros Hin. rewrite Exb, Forall_fmap, Forall_forall in Ob. by destruct (Ob (s, m) Hin) as (_ & _ & ? & ?). }
      split.
      * intros Hin. destruct (P Hin) as [P1 P2]. apply (Hz s m P1 P2). rewrite Econt, !fmap_app, !elem_of_app.
        right; left. rewrite <- E2, Exb. apply (list_elem_of_fmap_2 _ _ (sm_key key version (s, m))).
        by apply list_elem_of_fmap_2.
      * intros Hin. destruct (Hn m s Hin) as [P1 P2]. apply (Hz s m P1 P2) in Hin.
        rewrite Econt, !fmap_app, <- E1, <- E2, <- E3, !elem_of_app, !list_elem_of_fmap in Hin.
        assert (Q : forall xs x, skey_enc (mkSkey key version s m) = skey_enc x -> x ∈ xs -> Forall skey_ok xs ->
          group_cmp key version x = Eq /\ x = mkSkey key version s m).
        { intros xs x E Hx Hxs. rewrite Forall_forall in Hxs. apply skey_enc_inj in E as <-; [|done|by apply Hxs].
          split; [by apply group_cmp_Eq|done]. }
        rewrite Forall_forall in Ha, Hc. destruct Hin as [(x & E & Hx)|[(x & E & Hx)|(x & E & Hx)]].
        -- destruct (Q xa x E Hx Oa) as [G _]. by rewrite (Ha x Hx) in G.
        -- destruct (Q xb x E Hx Ob) as [_ ->]. exact (list_elem_of_fmap_2 sm_of xb _ Hx).
        -- destruct (Q xc x E Hx Oc) as [G _]. by rewrite (Hc x Hx) in G.
  - by apply Forall_and.
  - by apply Forall_and.
Qed.

(** The members of [z] with their scores, by rank. *)
Definition ranked (z : gmap bytes Z) : list ScoreMember :=
  merge_sort (fun x y => sm_cmp x y <> Gt) (prod_swap <$> map_to_list z).

Lemma sm_not_Gt_trans : Transitive (fun x y : ScoreMember => sm_cmp x y <> Gt).
Proof.
  intros x y w H1 H2. destruct (sm_cmp y w) eqn:E; [by rewrite <- (cmp_eq_r sm_cmp x y w E)| |done].
  by rewrite (cmp_le_lt_trans sm_cmp x y w H1 E).
Qed.

Lemma sm_not_Gt_total : Total (fun x y : ScoreMember => sm_cmp x y <> Gt).
Proof. intros x y. rewrite (cmp_sym (cmp:=sm_cmp) x y). destruct (sm_cmp x y); [left|left|right]; done. Qed.

Lemma sorted_distinct (l : list ScoreMember) :
  NoDup l.*2 -> StronglySorted (fun x y => sm_cmp x y <> Gt) l -> StronglySorted (fun x y => sm_cmp x y = Lt) l.
Proof.
  intros N Hs. induction Hs as [|x l Hs IH Hx]; [constructor|]. rewrite fmap_cons, NoDup_cons in N. destruct N as [Hn N].
  constructor; [by apply IH|]. rewrite Forall_forall in Hx. apply Forall_forall. intros y Hy. specialize (Hx y Hy).
  destruct (sm_cmp x y) eqn:E; try done. apply sm_cmp_Eq in E as [_ E]. destruct Hn. rewrite E. by apply list_elem_of_fmap_2.
Qed.

Lemma ranked_listing z : zlisting z (ranked z).
Proof.
  assert (P : ranked z ≡ₚ prod_swap <$> map_to_list z) by apply merge_sort_Permutation. split.
  - apply sorted_distinct.
    + rewrite P, <- list_fmap_compose. apply NoDup_fst_map_to_list.
    + apply StronglySorted_merge_sort; [exact sm_not_Gt_trans|exact sm_not_Gt_total].
  - intros s m. rewrite P, list_elem_of_fmap. rewrite <- elem_of_map_to_list. split.
    + by intros ([m' s'] & [= -> ->] & H).
    + intros H. by exists (m, s).
Qed.

Lemma ranked_length z : length (ranked z) = size z.
Proof. apply zlisting_length, ranked_listing. Qed.

(** ** Where seeks stand *)

(** In front of the iterator are the pairs [zl] of the key and version, and then
    entries of other ones. *)
Definition reaches (ahead : Iterator -> list entry -> Prop) (it : Iterator) (key : bytes) (version : Z)
    (zl : list ScoreMember) : Prop :=
  exists eb ec xc, ahead it (eb ++ ec) /\ eb.*1 = sm_enc key version <$> zl /\
    ec.*1 = skey_enc <$> xc /\ Forall (fun x => skey_ok x /\ group_cmp key version x <> Eq) xc.

Lemma Forall_keys {A} (P : bytes -> Prop) (Q : A -> Prop) (f : A -> bytes) (l : list entry) (xs : list A) :
  l.*1 = f <$> xs -> Forall Q xs -> (forall x, Q x -> P (f x)) -> Forall (fun e => P (fst e)) l.
Proof.
  intros E HQ HP. assert (H : Forall P (l.*1)) by (rewrite E, Forall_fmap; eapply Forall_impl; [exact HQ|]; done).
  by rewrite Forall_fmap in H.
Qed.

Lemma zlisting_number z zl sm : numbers z -> zlisting z zl -> sm ∈ zl -> number_score (fst sm).
Proof. intros Hn Hl Hin. destruct sm as [s m]. apply (proj2 Hl) in Hin. by apply (Hn m s). Qed.

(** A list in order, before and from a place. *)
Lemma sorted_at (x0 : ScoreMember) zl :
  StronglySorted (fun x y => sm_cmp x y = Lt) zl ->
  exists a b c, zl = a ++ b ++ c /\ Forall (fun x => sm_cmp x x0 = Lt) a /\
    Forall (fun x => sm_cmp x x0 = Eq) b /\ Forall (fun x => sm_cmp x x0 = Gt) c.
Proof.
  intros Hs. apply (split_three _ (fun x => sm_cmp x x0) zl Hs). intros x y Hxy. split; intros H.
  - by eapply cmp_trans.
  - apply (cmp_Gt_Lt sm_cmp) in H. apply (cmp_Gt_Lt sm_cmp). by eapply cmp_trans.
Qed.

Section Seeks.
Context (r : Redis) (key : bytes) (version : Z) (z : gmap bytes Z) (zl : list ScoreMember).
Context (K : key_ok key = true) (V : is_u64 version) (He : zengine_ok r).
Context (Hz : scores_at (db_ r) key version z) (Hn : numbers z) (Hl : zlisting z zl).

Lemma seek_cmp x s :
  skey_ok x -> number_score s ->
  ZSetsScoreKeyCompare (skey_enc x) (ZSetsScoreKey_Encode key version s []) =
  thenc (group_cmp key version x) (sm_cmp (sm_of x) (s, [])).
Proof.
  intros Hx [H1 H2]. change (ZSetsScoreKey_Encode key version s []) with (skey_enc (mkSkey key version s [])).
  by rewrite skey_compare.
Qed.

Lemma seek_cmp_sm sm s :
  number_score (fst sm) -> number_score s ->
  ZSetsScoreKeyCompare (sm_enc key version sm) (ZSetsScoreKey_Encode key version s []) = sm_cmp sm (s, []).
Proof.
  intros [H1 H2] Hs. change (sm_enc key version sm) with (skey_enc (sm_key key version sm)).
  rewrite seek_cmp by done. rewrite (proj2 (group_cmp_Eq _ _ _)) by done. by destruct sm.
Qed.

(** The family cut at a place among the pairs of the key. *)
Lemma seek_cut (P Q : comparison -> Prop) s a b :
  number_score s -> P Lt -> Q Gt -> zl = a ++ b ->
  Forall (fun x => P (sm_cmp x (s, []))) a -> Forall (fun x => Q (sm_cmp x (s, []))) b ->
  let T := ZSetsScoreKey_Encode key version s [] in
  exists ea e1 e2 ec xa xc, content (db_ r) kZsetsScoreCF = (ea ++ e1) ++ (e2 ++ ec) /\
    e1.*1 = sm_enc key version <$> a /\ e2.*1 = sm_enc key version <$> b /\
    ea.*1 = skey_enc <$> xa /\ Forall (fun x => skey_ok x /\ group_cmp key version x <> Eq) xa /\
    ec.*1 = skey_enc <$> xc /\ Forall (fun x => skey_ok x /\ group_cmp key version x <> Eq) xc /\
    Forall (fun e => P (ZSetsScoreKeyCompare (fst e) T)) (ea ++ e1) /\
    Forall (fun e => Q (ZSetsScoreKeyCompare (fst e) T)) (e2 ++ ec).
Proof.
  intros Hs HP HQ Ezl Fa Fb T.
  destruct (scores_split r key version z K V He Hz Hn) as (ea & eb & ec & zl' & xa & xc & Ec & Hl' & Eb & Ea & Ha & Exc & Hc).
  rewrite <- (zlisting_unique _ _ _ Hl Hl') in Eb. clear zl' Hl'.
  assert (Nz : forall x, x ∈ zl -> number_score (fst x)) by (intros x Hx; by eapply zlisting_number).
  rewrite Ezl, fmap_app in Eb. apply fmap_app_inv in Eb as (e1 & e2 & E1 & E2 & ->). symmetry in E1, E2.
  exists ea, e1, e2, ec, xa, xc. split_and!; [by rewrite Ec, <- !app_assoc|done|done|done| |done| | |].
  - eapply Forall_impl; [exact Ha|]. simpl. by intros x [? ->].
  - eapply Forall_impl; [exact Hc|]. simpl. by intros x [? ->].
  - apply Forall_app. split.
    + apply (Forall_keys (fun k => P (ZSetsScoreKeyCompare k T)) _ _ _ _ Ea Ha). intros x [Hx Hg]. unfold T. by rewrite seek_cmp, Hg.
    + apply (Forall_keys (fun k => P (ZSetsScoreKeyCompare k T)) (fun x => x ∈ zl /\ P (sm_cmp x (s, []))) _ _ _ E1).
      * rewrite Forall_forall in Fa. apply Forall_forall. intros x Hx. split; [rewrite Ezl; set_solver|by apply Fa].
      * intros x [Hx Hlt]. unfold T. by rewrite seek_cmp_sm by auto.
  - apply Forall_app. split.
    + apply (Forall_keys (fun k => Q (ZSetsScoreKeyCompare k T)) (fun x => x ∈ zl /\ Q (sm_cmp x (s, []))) _ _ _ E2).
      * rewrite Forall_forall in Fb. apply Forall_forall. intros x Hx. split; [rewrite Ezl; set_solver|by apply Fb].
      * intros x [Hx Hlt]. unfold T. by rewrite seek_cmp_sm by auto.
    + apply (Forall_keys (fun k => Q (ZSetsScoreKeyCompare k T)) _ _ _ _ Exc Hc). intros x [Hx Hg]. unfold T. by rewrite seek_cmp, Hg.
Qed.

Lemma Seek_score s :
  number_score s ->
  exists zl1 zl2, zl = zl1 ++ zl2 /\ Forall (fun x => sm_cmp x (s, []) = Lt) zl1 /\
    Forall (fun x => sm_cmp x (s, []) <> Lt) zl2 /\
    reaches ahead_next (Seek (NewIterator (db_ r) kZsetsScoreCF) (ZSetsScoreKey_Encode key version s []))
      key version zl2.
Proof.
  intros Hs. destruct (sorted_at (s, []) zl (proj1 Hl)) as (a & b & c & Ezl & Fa & Fb & Fc).
  assert (Fbc : Forall (fun x => sm_cmp x (s, []) <> Lt) (b ++ c)).
  { apply Forall_app. split; (eapply Forall_impl; [eassumption|]); simpl; congruence. }
  exists a, (b ++ c). split_and!; [done..|].
  destruct (seek_cut (fun c => c = Lt) (fun c => c <> Lt) s a (b ++ c) Hs) as
    (ea & e1 & e2 & ec & xa & xc & Ec & E1 & E2 & Ea & Ha & Exc & Hc & F1 & F2); try done.
  destruct He as ([Hdb _] & Ho & _). exists e2, ec, xc. split_and!; try done.
  exists (rev (ea ++ e1)). rewrite Seek_position. destruct (score_NewIterator (db_ r) Hdb Ho) as [-> ->].
  rewrite Ec, seek_split; [by rewrite app_nil_r|done|].
  destruct (e2 ++ ec) as [|e l]; [done|]. by apply Forall_inv in F2.
Qed.

Lemma SeekForPrev_score s :
  number_score s ->
  exists zl1 zl2, zl = zl1 ++ zl2 /\ Forall (fun x => sm_cmp x (s, []) <> Gt) zl1 /\
    Forall (fun x => sm_cmp x (s, []) = Gt) zl2 /\
    reaches ahead_prev (SeekForPrev (NewIterator (db_ r) kZsetsScoreCF) (ZSetsScoreKey_Encode key version s []))
      key version (rev zl1).
Proof.
  intros Hs. destruct (sorted_at (s, []) zl (proj1 Hl)) as (a & b & c & Ezl & Fa & Fb & Fc).
  assert (Fab : Forall (fun x => sm_cmp x (s, []) <> Gt) (a ++ b)).
  { apply Forall_app. split; (eapply Forall_impl; [eassumption|]); simpl; congruence. }
  rewrite app_assoc in Ezl. exists (a ++ b), c. split_and!; [done..|].
  destruct (seek_cut (fun c => c <> Gt) (fun c => c = Gt) s (a ++ b) c Hs) as
    (ea & e1 & e2 & ec & xa & xc & Ec & E1 & E2 & Ea & Ha & Exc & Hc & F1 & F2); try done.
  destruct He as ([Hdb _] & Ho & _). exists (rev e1), (rev ea), (rev xa). split_and!.
  - exists (e2 ++ ec). rewrite SeekForPrev_position. destruct (score_NewIterator (db_ r) Hdb Ho) as [-> ->].
    rewrite Ec, seek_for_prev_split; [by rewrite app_nil_r, rev_app_distr|done|].
    destruct (e2 ++ ec) as [|e l]; [done|]. by apply Forall_inv in F2.
  - by rewrite !fmap_rev, E1.
  - by rewrite !fmap_rev, Ea.
  - by apply Forall_rev.
Qed.

Lemma Seek_lowest :
  Forall (fun sm => double_value double_lowest <= double_value (fst sm)) zl ->
  reaches ahead_next (Seek (NewIterator (db_ r) kZsetsScoreCF) (ZSetsScoreKey_Encode key version double_lowest []))
    key version zl.
Proof.
  intros H. destruct (Seek_score double_lowest) as (zl1 & zl2 & E & H1 & _ & H2); [done|].
  destruct zl1 as [|sm zl1]; [by rewrite E|]. rewrite E in H. apply Forall_inv in H, H1. exfalso. unfold sm_cmp in H1.
  cbn [fst snd] in H1. destruct (Z.compare_spec (double_value (fst sm)) (double_value double_lowest)); [|lia|done].
  by destruct (snd sm).
Qed.

Lemma SeekForPrev_highest :
  Forall (fun sm => double_value (fst sm) < double_value double_highest) zl ->
  reaches ahead_prev
    (SeekForPrev (NewIterator (db_ r) kZsetsScoreCF) (ZSetsScoreKey_Encode key version double_highest []))
    key version (rev zl).
Proof.
  intros H. destruct (SeekForPrev_score double_highest) as (zl1 & zl2 & E & _ & H1 & H2); [done|].
  destruct zl2 as [|sm zl2]; [by rewrite E, app_nil_r|]. rewrite E in H. apply Forall_app in H as [_ H].
  apply Forall_inv in H, H1. exfalso. unfold sm_cmp in H1. cbn [fst snd] in H1.
  destruct (Z.compare_spec (double_value (fst sm)) (double_value double_highest)); [lia|done|lia].
Qed.

End Seeks.

(** ** Loops over the pairs *)

(** A loop on a list: whether it wants another pair at the end, and the state. *)
Fixpoint walk {St} (c : St -> bool) (f : ScoreMember -> St -> bool * St) (l : list ScoreMember) (st : St)
    : bool * St :=
  match l with
  | [] => (c st, st)
  | x :: l => if c st then let '(go, st) := f x st in if go : bool then walk c f l st else (false, st)
              else (false, st)
  end.

Lemma entry_loop {move ahead} `{!Walks move ahead} {St} (c : St -> bool)
    (body : bytes -> bytes -> St -> option (bool * St)) f (rel : entry -> ScoreMember -> Prop) zl :
  forall it st fuel eb ec,
  ahead it (eb ++ ec) -> Forall2 rel eb zl ->
  (forall e sm st, rel e sm -> sm ∈ zl -> c st = true -> body (fst e) (snd e) st = Some (f sm st)) ->
  (fst (walk c f zl st) = true ->
     Forall (fun e => body (fst e) (snd e) (snd (walk c f zl st)) = Some (false, snd (walk c f zl st))) ec) ->
  (length zl < fuel)%nat ->
  exists it', iter_while fuel move (fun _ => c) body it st = Some (it', snd (walk c f zl st)).
Proof.
  induction zl as [|sm zl IH]; intros it st fuel eb ec Ha H2 Hb Hend Hf;
    (destruct fuel as [|fuel]; [simpl in Hf; lia|]); inversion H2 as [|e ? eb' ? He H2']; subst; cbn [iter_while].
  - simpl in Ha, Hend |- *. destruct ec as [|e ec].
    + rewrite (ahead_nil it Ha). by exists it.
    + destruct (ahead_cons _ _ _ Ha) as (-> & -> & -> & _). destruct (c st) eqn:C; [|by exists it].
      specialize (Hend eq_refl). apply Forall_inv in Hend. rewrite Hend. by exists it.
  - simpl in Ha. destruct (ahead_cons _ _ _ Ha) as (-> & -> & -> & Ha'). simpl walk in *.
    destruct (c st) eqn:C; [|by exists it]. rewrite (Hb e sm st He) by (done || by apply elem_of_cons; left).
    destruct (f sm st) as [[] st'] eqn:F; [|by exists it]. cbn [andb mbind option_bind].
    apply (IH _ _ _ eb' ec); [done..| |done|simpl in Hf; lia]. intros e' sm' st'' He' Hin. apply Hb; [done|]. apply elem_of_cons; by right.
Qed.

Lemma score_loop {move ahead} `{!Walks move ahead} {St} (c : St -> bool)
    (body : bytes -> bytes -> St -> option (bool * St)) f key version zl it st fuel :
  reaches ahead it key version zl ->
  (forall sm v st, sm ∈ zl -> c st = true -> body (sm_enc key version sm) v st = Some (f sm st)) ->
  (fst (walk c f zl st) = true -> forall x v, skey_ok x -> group_cmp key version x <> Eq ->
     body (skey_enc x) v (snd (walk c f zl st)) = Some (false, snd (walk c f zl st))) ->
  (length zl < fuel)%nat ->
  exists it', iter_while fuel move (fun _ => c) body it st = Some (it', snd (walk c f zl st)).
Proof.
  intros (eb & ec & xc & Ha & Eb & Ec & Hc) Hb Hend Hf.
  apply (entry_loop c body f (fun e sm => fst e = sm_enc key version sm) zl it st fuel eb ec); [done| | | |done].
  - clear -Eb. revert zl Eb. induction eb as [|e eb IH]; intros [|sm zl] E; try done.
    rewrite !fmap_cons in E. injection E as E1 E2. constructor; [done|by apply IH].
  - intros e sm st' -> Hin C. by apply Hb.
  - intros Hw. specialize (Hend Hw). clear -Ec Hc Hend. revert xc Ec Hc. induction ec as [|e ec IH]; intros [|x xc] E Hx; try done.
    rewrite !fmap_cons in E. injection E as E1 E2. apply Forall_cons in Hx as [[H1 H2] Hx]. constructor; [rewrite E1; by apply Hend|by eapply IH].
Qed.

End ZSetRead.
