(* ===== verification/ZSetRange.v ===== *)
(** * Sorted sets by rank and by score

    ZRANGE, ZREVRANGE, ZRANK, ZREVRANK, ZCOUNT, ZRANGEBYSCORE and
    ZREVRANGEBYSCORE answer from the members in the order of their scores. *)

From Stdlib Require Import Sorting.Sorted.
From stdpp Require Import sorting.
From S2P Require Import Prelude Coding Numbers Glob KeyFormat Comparator Doubles ValueFormat RocksDB LruCache Redis KeySpace BaseData BaseSpec BaseScan BaseHolds BaseWrite Sets ZSets ZSetSpec ZSetWrite ZSetRead.
Open Scope Z_scope.

(** The scores the seeks from the lowest and to the highest [double] find: not
    the infinities, and not the highest [double]. *)
Definition above_lowest (z : gmap bytes Z) : Prop :=
  map_Forall (fun _ s => double_value double_lowest <= double_value s) z.
Definition below_highest (z : gmap bytes Z) : Prop :=
  map_Forall (fun _ s => double_value s < double_value double_highest) z.

(** ** Loops that count *)

Lemma walk_counted {St} (idx : St -> Z) stop c f g (l : list ScoreMember) : forall st,
  (forall st, c st = (idx st <=? stop)) -> (forall sm st, f sm st = (true, g st sm)) ->
  (forall sm st, idx (g st sm) = idx st + 1) ->
  walk c f l st =
  (idx st + Z.of_nat (length l) <=? stop, fold_left g (take (Z.to_nat (stop + 1 - idx st)) l) st).
Proof.
  induction l as [|x l IH]; intros st Hc Hf Hi; cbn [walk]; rewrite Hc.
  - rewrite take_nil. simpl. by rewrite Z.add_0_r.
  - destruct (Z.leb_spec (idx st) stop).
    + rewrite Hf, (IH _ Hc Hf Hi), Hi. replace (Z.to_nat (stop + 1 - idx st)) with (S (Z.to_nat (stop + 1 - (idx st + 1)))) by lia.
      cbn [take firstn fold_left length]. f_equal. f_equal. lia.
    + replace (Z.to_nat (stop + 1 - idx st)) with 0%nat by lia. rewrite (proj2 (Z.leb_gt _ _)) by (cbn [length]; lia). done.
Qed.

Lemma collect_from start (l : list ScoreMember) : forall i acc,
  fold_left (fun '(i, acc) sm => (i + 1, if start <=? i then acc ++ [sm] else acc)) l (i, acc) =
  (i + Z.of_nat (length l), acc ++ drop (Z.to_nat (start - i)) l).
Proof.
  induction l as [|x l IH]; intros i acc; cbn [fold_left length].
  - by rewrite drop_nil, app_nil_r, Z.add_0_r.
  - rewrite IH. f_equal; [lia|]. destruct (Z.leb_spec start i).
    + replace (Z.to_nat (start - i)) with 0%nat by lia. replace (Z.to_nat (start - (i + 1))) with 0%nat by lia.
      by rewrite !drop_0, <- app_assoc.
    + by replace (Z.to_nat (start - i)) with (S (Z.to_nat (start - (i + 1)))) by lia.
Qed.

Lemma rank_range_clamped n start stop :
  0 < n < 2 ^ 31 -> is_i32 start -> is_i32 stop ->
  rank_range n start stop =
  Some (Z.max 0 (redis_position n start), Z.min (n - 1) (redis_position n stop)).
Proof.
  intros Hn H1 H2. unfold is_i32 in *. unfold rank_range, redis_position.
  destruct (Z.leb_spec 0 start), (Z.leb_spec 0 stop); rewrite ?i32_val_id by lia; cbn [mbind option_bind];
    rewrite ?i32_val_id by lia;
    repeat (match goal with |- context [?a <=? ?b] => destruct (Z.leb_spec a b) end; cbn [mbind option_bind]); f_equal; f_equal; lia.
Qed.

Lemma collect_down stop (l : list ScoreMember) : forall i acc,
  fold_left (fun '(i, acc) sm => (i - 1, if i <=? stop then acc ++ [sm] else acc)) l (i, acc) =
  (i - Z.of_nat (length l), acc ++ drop (Z.to_nat (i - stop)) l).
Proof.
  induction l as [|x l IH]; intros i acc; cbn [fold_left length].
  - by rewrite drop_nil, app_nil_r, Z.sub_0_r.
  - rewrite IH. f_equal; [lia|]. destruct (Z.leb_spec i stop).
    + replace (Z.to_nat (i - stop)) with 0%nat by lia. replace (Z.to_nat (i - 1 - stop)) with 0%nat by lia.
      by rewrite !drop_0, <- app_assoc.
    + by replace (Z.to_nat (i - stop)) with (S (Z.to_nat (i - 1 - stop))) by lia.
Qed.

Lemma rev_range_clamped n start stop :
  0 < n < 2 ^ 31 -> - 2 ^ 31 < start < 2 ^ 31 -> - 2 ^ 31 < stop < 2 ^ 31 ->
  rev_range n start stop =
  Some (n - 1 - Z.min (n - 1) (redis_position n stop), n - 1 - Z.max 0 (redis_position n start)).
Proof.
  intros Hn H1 H2. assert (V : forall i, - 2 ^ 31 < i < 2 ^ 31 -> rev_index n i = Some (n - 1 - redis_position n i)).
  { intros i Hi. unfold rev_index, redis_position. destruct (Z.leb_spec 0 i);
      rewrite i32_val_id by lia; cbn [mbind option_bind]; rewrite i32_val_id by lia; f_equal; lia. }
  unfold rev_range. rewrite !V by done. cbn [mbind option_bind].
  unfold redis_position. destruct (Z.leb_spec 0 start), (Z.leb_spec 0 stop);
    repeat (match goal with |- context [?a <=? ?b] => destruct (Z.leb_spec a b) end);
    rewrite ?i32_val_id by lia; cbn [mbind option_bind]; f_equal; f_equal; lia.
Qed.

Lemma NoDup_backwards {A} (l : list A) : NoDup l -> NoDup (rev l).
Proof. intros H. rewrite rev_alt. change (NoDup (reverse l)). by rewrite reverse_Permutation. Qed.

Lemma rev_lookup {A} (l : list A) i x : l !! i = Some x -> rev l !! (length l - S i)%nat = Some x.
Proof.
  intros H. pose proof (lookup_lt_Some _ _ _ H). rewrite rev_alt. change (reverse l !! (length l - S i)%nat = Some x).
  rewrite reverse_lookup by lia. rewrite <- H. f_equal. lia.
Qed.

Lemma StronglySorted_snoc {A} (Rel : A -> A -> Prop) l x :
  StronglySorted Rel l -> Forall (fun y => Rel y x) l -> StronglySorted Rel (l ++ [x]).
Proof.
  induction 1 as [|y l Hs IH Hy]; intros Hx; simpl; [by repeat constructor|].
  apply Forall_cons in Hx as [H1 H2]. constructor; [by apply IH|]. apply Forall_app. split; [done|by constructor].
Qed.

(** ** The next double *)

Lemma sign_bound bits : is_u64 bits -> Z.testbit bits 63 = (2 ^ 63 <=? bits).
Proof.
  intros H. unfold is_u64 in H. rewrite Z.testbit_eqb by lia. destruct (Z.leb_spec (2 ^ 63) bits).
  - assert (bits / 2 ^ 63 = 1) as ->; [|done]. symmetry. apply (Z.div_unique _ _ _ (bits - 2 ^ 63)); lia.
  - by rewrite Z.div_small by lia.
Qed.

Lemma value_pattern bits : is_u64 bits ->
  double_value bits = (if 2 ^ 63 <=? bits then 2 ^ 63 - bits else bits) /\
  bits mod 2 ^ 63 = (if 2 ^ 63 <=? bits then bits - 2 ^ 63 else bits).
Proof.
  intros H. unfold double_value. rewrite (sign_bound bits H). unfold is_u64 in H. destruct (Z.leb_spec (2 ^ 63) bits).
  - assert (bits mod 2 ^ 63 = bits - 2 ^ 63) as -> by (symmetry; apply (Z.mod_unique _ _ 1); lia). lia.
  - by rewrite Z.mod_small by lia.
Qed.

(** [nextafter] is one step of the order, up to the highest [double]. *)
Lemma nextafter_value x :
  number_score x ->
  number_score (nextafter_highest x) /\
  double_value (nextafter_highest x) = Z.min (double_value double_highest) (double_value x + 1).
Proof.
  intros [U N0]. pose proof N0 as N. destruct (value_pattern x U) as [Vx Mx]. unfold double_is_nan in N. rewrite Mx in N. apply Z.ltb_ge in N.
  assert (Hh : double_value double_highest = double_highest) by done.
  assert (G : forall y, is_u64 y -> (if 2 ^ 63 <=? y then y - 2 ^ 63 else y) <= 0x7ff0 * 2 ^ 48 ->
    double_value y = Z.min double_highest (double_value x + 1) ->
    number_score y /\ double_value y = Z.min double_highest (double_value x + 1)).
  { intros y Hy Hm Hv. split; [split|]; [done| |done]. unfold double_is_nan. rewrite (proj2 (value_pattern y Hy)). by apply Z.ltb_ge. }
  unfold nextafter_highest, double_eqb, double_ltb. rewrite N0.
  change (double_is_nan double_highest) with false. change (double_is_nan 0) with false. cbn [negb andb].
  unfold double_sign. rewrite (sign_bound x U), Hh. change (double_value 0) with 0.
  unfold is_u64, double_highest in *. rewrite Vx in *.
  destruct (Z.leb_spec (2 ^ 63) x); repeat (match goal with
    | |- context [?a =? ?b] => destruct (Z.eqb_spec a b) | |- context [?a <? ?b] => destruct (Z.ltb_spec a b) end);
    try lia; apply G; try lia;
    try (match goal with |- double_value ?y = _ => rewrite (proj1 (value_pattern y ltac:(unfold is_u64; lia))) end);
    match goal with |- context [?a <=? ?b] => destruct (Z.leb_spec a b) end; lia.
Qed.

Section ZSetRange.
Context {R : RocksDB} {L : RocksDBLaws R} {SL : ScoreLaws R L} {U : Uninit}.

Lemma sm_decode key version sm :
  key_ok key = true -> is_u64 version -> number_score (fst sm) ->
  ParsedZSetsScoreKey_decode (sm_enc key version sm) =
  Some (mkParsedZSetsScoreKey key version (fst sm) (snd sm)).
Proof. intros K V [H1 H2]. by apply (skey_decode (mkSkey key version (fst sm) (snd sm))). Qed.

Lemma duration_read key duration r :
  zengine_ok r ->
  exists r', UpdateSpecificKeyDuration kZSets key duration r = Some (Status_OK, r') /\ same_data r r' /\ zengine_ok r'.
Proof.
  intros ([Hdb Hok] & Ho & He). destruct (UpdateSpecificKeyDuration_ok kZSets key duration r) as (r' & H1 & H2 & H3); [done..|].
  exists r'. split_and!; [done..|]. destruct H2 as [E _]. unfold zengine_ok, engine_ok. by rewrite E.
Qed.

(** What the proofs about a live sorted set use. *)
Lemma zset_facts r now key p z :
  zset_at (db_ r) now key p z ->
  0 < pbm_count p < 2 ^ 31 /\ pbm_count p = Z.of_nat (length (ranked z)) /\ is_u64 (piv_version (pbm_base p)) /\
  forall sm, sm ∈ ranked z -> number_score (fst sm).
Proof.
  intros Hz. pose proof (zset_at_bound _ _ _ _ _ Hz) as Hb. pose proof (za_count _ _ _ _ _ Hz) as Hc.
  rewrite ranked_length. split_and!; [lia|lia|done|apply base_coherent_version, Hz|].
  intros sm Hin. eapply zlisting_number; [apply Hz|apply ranked_listing|done].
Qed.

Lemma ranked_Forall (P : Z -> Prop) z : map_Forall (fun _ s => P s) z -> Forall (fun sm => P (fst sm)) (ranked z).
Proof. intros H. apply Forall_forall. intros [s m] Hin%(proj2 (ranked_listing z)). by apply (H m). Qed.

Lemma Seek_all now r key p z :
  key_ok key = true -> zengine_ok r -> zset_at (db_ r) now key p z -> above_lowest z ->
  reaches ahead_next (Seek (NewIterator (db_ r) kZsetsScoreCF)
    (ZSetsScoreKey_Encode key (piv_version (pbm_base p)) double_lowest [])) key (piv_version (pbm_base p)) (ranked z).
Proof.
  intros K He Hz Hlow. destruct (zset_facts _ _ _ _ _ Hz) as (_ & _ & V & _).
  apply (Seek_lowest r key _ z); try done; [apply Hz..|apply ranked_listing|].
  by apply (ranked_Forall (fun s => double_value double_lowest <= double_value s)).
Qed.

Lemma SeekForPrev_all now r key p z :
  key_ok key = true -> zengine_ok r -> zset_at (db_ r) now key p z -> below_highest z ->
  reaches ahead_prev (SeekForPrev (NewIterator (db_ r) kZsetsScoreCF)
    (ZSetsScoreKey_Encode key (piv_version (pbm_base p)) double_highest [])) key (piv_version (pbm_base p))
    (rev (ranked z)).
Proof.
  intros K He Hz Hlow. destruct (zset_facts _ _ _ _ _ Hz) as (_ & _ & V & _).
  apply (SeekForPrev_highest r key _ z); try done; [apply Hz..|apply ranked_listing|].
  by apply (ranked_Forall (fun s => double_value s < double_value double_highest)).
Qed.

(** A loop that takes a number of pairs, without looking whose they are. *)
Lemma counted_loop {move ahead} `{!Walks move ahead} {St} (idx : St -> Z) stop (c : St -> bool)
    (body : bytes -> bytes -> St -> option (bool * St)) g key version zl it st fuel :
  reaches ahead it key version zl -> (forall st, c st = (idx st <=? stop)) ->
  (forall sm v st, sm ∈ zl -> body (sm_enc key version sm) v st = Some (true, g st sm)) ->
  (forall sm st, idx (g st sm) = idx st + 1) -> stop < idx st + Z.of_nat (length zl) -> (length zl < fuel)%nat ->
  exists it', iter_while fuel move (fun _ => c) body it st =
    Some (it', fold_left g (take (Z.to_nat (stop + 1 - idx st)) zl) st).
Proof.
  intros Hr Hc Hb Hi Hstop Hf.
  pose proof (walk_counted idx stop c (fun sm st => (true, g st sm)) g zl st Hc ltac:(done) Hi) as HW.
  rewrite (proj2 (Z.leb_gt _ _)) in HW by lia.
  destruct (score_loop c body (fun sm st => (true, g st sm)) key version zl it st fuel) as (it' & HL); [done|auto|by rewrite HW|done|].
  exists it'. by rewrite HL, HW.
Qed.

(** ** By rank *)

Lemma range_by_rank_live fuel duration now key p z start stop r :
  key_ok key = true -> zengine_ok r -> zset_at (db_ r) now key p z -> above_lowest z ->
  is_i32 start -> is_i32 stop -> (size z < fuel)%nat ->
  exists r', range_by_rank fuel duration key p start stop r = Some (redis_range (ranked z) start stop, r') /\
    same_data r r'.
Proof.
  intros K He Hz Hlow H1 H2 Hf. destruct (zset_facts _ _ _ _ _ Hz) as (Hn & Hc & V & Hnum).
  unfold range_by_rank. cbv zeta. rewrite (bind_lift _ _ _ _ (rank_range_clamped _ _ _ Hn H1 H2)). cbv iota.
  rewrite redis_range_slice, <- Hc. set (a := Z.max _ _). set (b := Z.min _ _).
  destruct (Z.leb_spec a b) as [Hab|Hab].
  2:{ assert (E : (b <? a) || (pbm_count p <=? a) || (b <? 0) = true) by (rewrite (proj2 (Z.ltb_lt _ _)) by lia; done).
      rewrite E. by exists r. }
  assert (E : (b <? a) || (pbm_count p <=? a) || (b <? 0) = false).
  { rewrite (proj2 (Z.ltb_ge _ _)), (proj2 (Z.leb_gt _ _)), (proj2 (Z.ltb_ge _ _)) by lia. done. }
  rewrite E, bind_gets.
  destruct (counted_loop (move:=Next) fst b (fun '(i, _) => i <=? b) (range_rank_body a)
    (fun '(i, acc) sm => (i + 1, if a <=? i then acc ++ [sm] else acc)) key (piv_version (pbm_base p)) (ranked z)
    (Seek (NewIterator (db_ r) kZsetsScoreCF) (ZSetsScoreKey_Encode key (piv_version (pbm_base p)) double_lowest []))
    (0, []) fuel) as (it' & HL); [by eapply Seek_all|by intros []| |by intros ? []|cbn [fst]; lia|by rewrite ranked_length|].
  - intros sm v [i acc] Hin. unfold range_rank_body. destruct (a <=? i); [|done].
    rewrite sm_decode by auto. by destruct sm.
  - cbn [fst] in HL. rewrite collect_from in HL. rewrite (bind_lift _ _ _ _ HL). cbv iota.
    destruct (duration_read key duration r He) as (r' & HU & Hs & _). rewrite (bind_run _ _ _ _ _ HU). exists r'.
    split; [|done]. unfold ret. simpl app. rewrite Z.sub_0_r, skipn_firstn_comm. do 3 f_equal. lia.
Qed.

Lemma ZRevrange_live fuel duration now key p z start stop r :
  key_ok key = true -> zengine_ok r -> zset_at (db_ r) now key p z -> below_highest z ->
  - 2 ^ 31 < start < 2 ^ 31 -> - 2 ^ 31 < stop < 2 ^ 31 -> (size z < fuel)%nat ->
  exists r', ZRevrange fuel duration now key start stop r =
      Some ((Status_OK, redis_range (rev (ranked z)) start stop), r') /\ same_data r r'.
Proof.
  intros K He Hz Hhigh H1 H2 Hf. destruct (zset_facts _ _ _ _ _ Hz) as (Hn & Hc & V & Hnum).
  unfold ZRevrange. rewrite (bind_zset now key p z r _ (proj1 (proj1 He)) Hz). cbv zeta.
  rewrite (bind_lift _ _ _ _ (rev_range_clamped _ _ _ Hn H1 H2)). cbv iota.
  rewrite redis_range_slice, length_rev, <- Hc. set (a := Z.max _ _). set (b := Z.min _ _).
  set (n := pbm_count p) in *. assert (0 <= a /\ b <= n - 1) as [Ha Hb] by lia. destruct (Z.leb_spec a b) as [Hab|Hab].
  2:{ rewrite (proj2 (Z.ltb_lt _ _)) by lia. by exists r. }
  rewrite (proj2 (Z.ltb_ge _ _)), (proj2 (Z.leb_gt _ _)), (proj2 (Z.ltb_ge _ _)) by lia. cbn [orb].
  rewrite (bind_lift _ _ _ _ (i32_val_id (n - 1) ltac:(lia))), bind_gets.
  destruct (counted_loop (move:=Prev) (fun st => n - 1 - fst st) b (fun '(i, _) => n - 1 - b <=? i) (rev_rank_body (n - 1 - a))
    (fun '(i, acc) sm => (i - 1, if i <=? n - 1 - a then acc ++ [sm] else acc)) key (piv_version (pbm_base p)) (rev (ranked z))
    (SeekForPrev (NewIterator (db_ r) kZsetsScoreCF) (ZSetsScoreKey_Encode key (piv_version (pbm_base p)) double_highest []))
    (n - 1, []) fuel) as (it' & HL); [by eapply SeekForPrev_all| | | | | |].
  - intros [i acc]. cbn [fst]. apply eq_true_iff_eq. rewrite !Z.leb_le. lia.
  - intros sm v [i acc] Hin. unfold rev_rank_body. destruct (_ <=? _); [|done].
    rewrite sm_decode by (done || by apply Hnum, elem_of_rev). by destruct sm.
  - intros sm [i acc]. cbn [fst]. lia.
  - cbn [fst]. rewrite length_rev. lia.
  - by rewrite length_rev, ranked_length.
  - cbn [fst] in HL. rewrite collect_down in HL. rewrite (bind_lift _ _ _ _ HL). cbv iota.
    destruct (duration_read key duration r He) as (r' & HU & Hs & _). rewrite (bind_run _ _ _ _ _ HU). exists r'.
    split; [|done]. unfold ret. simpl app. rewrite skipn_firstn_comm. do 4 f_equal; [lia|]. f_equal. lia.
Qed.

(** C15: ZRANGE, ZRANGE with the time left, and ZREVRANGE return the members with
    their scores from one rank to another, by increasing score and then member,
    or the other way round; negative ranks count from the end, and ranks beyond
    the ends are clamped.  On a key that holds no sorted set they answer NotFound.
    Nothing stored changes.  No score is an infinity or the highest [double]. *)
Theorem zset_by_rank_correct fuel duration now key start stop z e r :
  key_ok key = true -> clock_ok now -> zengine_ok r -> zset_holds (db_ r) now key z e -> is_i64 e ->
  above_lowest z -> below_highest z -> - 2 ^ 31 < start < 2 ^ 31 -> - 2 ^ 31 < stop < 2 ^ 31 -> (size z < fuel)%nat ->
  if decide (z = ∅) then
    (exists st, ZRange fuel duration now key start stop r = Some ((st, []), r) /\ status_code st = kNotFound) /\
    (exists st, ZRangeWithTTL fuel duration now key start stop r = Some ((st, [], 0), r) /\ status_code st = kNotFound) /\
    (exists st, ZRevrange fuel duration now key start stop r = Some ((st, []), r) /\ status_code st = kNotFound)
  else
    (exists r', ZRange fuel duration now key start stop r =
       Some ((Status_OK, redis_range (ranked z) start stop), r') /\ same_data r r') /\
    (exists r', ZRangeWithTTL fuel duration now key start stop r =
       Some ((Status_OK, redis_range (ranked z) start stop, if e =? 0 then -1 else e - now), r') /\ same_data r r') /\
    (exists r', ZRevrange fuel duration now key start stop r =
       Some ((Status_OK, redis_range (rev (ranked z)) start stop), r') /\ same_data r r').
Proof.
  intros K Hnow He Hh Hi Hlow Hhigh H1 H2 Hf. pose proof He as ([Hdb Hst] & _).
  destruct (decide (z = ∅)) as [->|Hne].
  - rewrite zset_holds_empty in Hh. destruct (zset_GetBase_unused now key r Hdb Hh) as (st & HG & Hcode).
    unfold ZRange, ZRevrange. rewrite !(bind_run _ _ _ _ _ HG). split_and!; [by exists st| |by exists st].
    unfold ZRangeWithTTL. destruct Hh as [[Hg Hfr]|(p & Hd & Hfr)].
    + start_gone. by eexists.
    + rewrite (bind_dead _ _ _ _ _ _ _ Hdb Hd). on_status.
      rewrite (bind_lift _ _ _ _ (base_parse _ (da_coherent _ _ _ _ _ _ Hd))).
      pose proof (da_dead _ _ _ _ _ _ Hd) as D. unfold base_dead in D. destruct (pbm_count p =? 0); [by eexists|].
      rewrite orb_false_r in D. rewrite D. by eexists.
  - destruct (zset_holds_live _ _ _ _ _ Hne Hh) as (p & Hz & <-). destruct (zset_at_base _ _ _ _ _ Hz) as (mm & Hb & Hm).
    destruct (range_by_rank_live fuel duration now key p z start stop r) as (r' & HR & Hs); try done; [unfold is_i32; lia..|].
    split_and!.
    + unfold ZRange. rewrite (bind_zset now key p z r _ Hdb Hz), (bind_run _ _ _ _ _ HR). by exists r'.
    + unfold ZRangeWithTTL. rewrite (bind_live _ _ _ _ _ _ _ _ Hdb Hb). on_status.
      rewrite (bind_lift _ _ _ _ (base_parse _ (za_coherent _ _ _ _ _ Hz))).
      destruct (base_at_alive _ _ _ _ _ _ _ Hb) as [Hd _]. unfold base_dead in Hd. apply orb_false_iff in Hd as [-> ->].
      rewrite (base_at_etime _ _ now key p mm _ Hnow Hb Hi), (bind_run _ _ _ _ _ HR). by exists r'.
    + by apply (ZRevrange_live fuel duration now key p).
Qed.

(** *** The rank of a member *)

Definition rank_step (m : bytes) (sm : ScoreMember) (st : Z * bool) : bool * (Z * bool) :=
  if decide (snd sm = m) then (false, (fst st, true)) else (true, (fst st + 1, snd st)).

Fixpoint member_position (m : bytes) (l : list ScoreMember) : option nat :=
  match l with
  | [] => None
  | sm :: l => if decide (snd sm = m) then Some 0%nat else S <$> member_position m l
  end.

Lemma walk_rank (c : Z * bool -> bool) n m (l : list ScoreMember) : forall i,
  (forall st, c st = (fst st <? n)) -> i + Z.of_nat (length l) = n -> NoDup l.*2 ->
  walk c (rank_step m) l (i, false) =
  match member_position m l with
  | Some j => (false, (i + Z.of_nat j, true))
  | None => (false, (n, false))
  end.
Proof.
  induction l as [|sm l IH]; intros i Hc Hn N; cbn [walk member_position]; rewrite Hc; cbn [fst length] in *.
  - rewrite (proj2 (Z.ltb_ge _ _)) by lia. do 2 f_equal. lia.
  - rewrite (proj2 (Z.ltb_lt _ _)) by lia. unfold rank_step at 1. case_decide as D; cbn [fst snd]; [by rewrite Z.add_0_r|].
    rewrite fmap_cons, NoDup_cons in N. rewrite (IH (i + 1) Hc ltac:(lia) (proj2 N)).
    destruct (member_position m l) as [j|]; simpl; [|done]. replace (i + 1 + Z.of_nat j) with (i + Z.of_nat (S j)) by lia. done.
Qed.

Lemma find_member (l : list ScoreMember) : forall j s m,
  NoDup l.*2 -> l !! j = Some (s, m) -> member_position m l = Some j.
Proof.
  induction l as [|sm l IH]; intros j s m N H; [done|]. rewrite fmap_cons, NoDup_cons in N. destruct N as [Hn N].
  cbn [member_position]. destruct j as [|j]; [injection H as ->; by rewrite decide_True|].
  rewrite decide_False; [by rewrite (IH j s m N H)|]. intros E. destruct Hn. rewrite E.
  apply (list_elem_of_fmap_2 snd l (s, m)). by eapply list_elem_of_lookup_2.
Qed.

Lemma find_none (l : list ScoreMember) m : m ∉ l.*2 -> member_position m l = None.
Proof.
  induction l as [|sm l IH]; intros H; [done|]. rewrite fmap_cons, not_elem_of_cons in H.
  cbn [member_position]. rewrite decide_False by naive_solver. by rewrite IH by naive_solver.
Qed.

(** The loops of both commands. *)
Lemma rank_loop {move ahead} `{!Walks move ahead} (c : Z * bool -> bool) n m key version zl it fuel :
  reaches ahead it key version zl -> key_ok key = true -> is_u64 version ->
  (forall sm, sm ∈ zl -> number_score (fst sm)) -> (forall st, c st = (fst st <? n)) ->
  n = Z.of_nat (length zl) -> NoDup zl.*2 -> (length zl < fuel)%nat ->
  exists it', iter_while fuel move (fun _ => c) (rank_body m) it (0, false) =
    Some (it', match member_position m zl with Some j => (Z.of_nat j, true) | None => (n, false) end).
Proof.
  intros Hr K V Hnum Hc Hn N Hf. pose proof (walk_rank c n m zl 0 Hc ltac:(lia) N) as HW.
  destruct (score_loop c (rank_body m) (rank_step m) key version zl it (0, false) fuel) as (it' & HL); [done| |rewrite HW|done|].
  - intros sm v [i fnd] Hin _. unfold rank_body, rank_step. rewrite sm_decode by auto. cbn [mbind option_bind pzk_member fst snd].
    destruct (bytes_compare (snd sm) m) eqn:E; case_decide as D; try done.
    + by apply bytes_compare_eq in E.
    + by rewrite D, bytes_compare_refl in E.
    + by rewrite D, bytes_compare_refl in E.
  - by destruct (member_position m zl).
  - exists it'. rewrite HL, HW. by destruct (member_position m zl).
Qed.

Lemma rank_loops fuel now key p z m r :
  key_ok key = true -> zengine_ok r -> zset_at (db_ r) now key p z -> above_lowest z -> below_highest z ->
  (size z < fuel)%nat ->
  let n := pbm_count p in
  let out l := match member_position m l with Some j => (Z.of_nat j, true) | None => (n, false) end in
  (exists it', iter_while fuel Next (fun _ '(index, _) => index <=? n - 1) (rank_body m)
     (Seek (NewIterator (db_ r) kZsetsScoreCF) (ZSetsScoreKey_Encode key (piv_version (pbm_base p)) double_lowest []))
     (0, false) = Some (it', out (ranked z))) /\
  (exists it', iter_while fuel Prev (fun _ '(index, _) => 0 <? n - index) (rank_body m)
     (SeekForPrev (NewIterator (db_ r) kZsetsScoreCF) (ZSetsScoreKey_Encode key (piv_version (pbm_base p)) double_highest []))
     (0, false) = Some (it', out (rev (ranked z)))).
Proof.
  intros K He Hz Hlow Hhigh Hf n out. destruct (zset_facts _ _ _ _ _ Hz) as (Hn & Hc & V & Hnum).
  pose proof (zlisting_members _ _ (ranked_listing z)) as N. split.
  - apply (rank_loop (fun '(index, _) => index <=? n - 1) n m key (piv_version (pbm_base p)) (ranked z)); try done.
    + by eapply Seek_all.
    + intros [i b]. cbn [fst]. apply eq_true_iff_eq. rewrite Z.leb_le, Z.ltb_lt. lia.
    + by rewrite ranked_length.
  - apply (rank_loop (fun '(index, _) => 0 <? n - index) n m key (piv_version (pbm_base p)) (rev (ranked z))); try done.
    + by eapply SeekForPrev_all.
    + intros sm Hin. by apply Hnum, elem_of_rev.
    + intros [i b]. cbn [fst]. apply eq_true_iff_eq. rewrite !Z.ltb_lt. lia.
    + by rewrite length_rev.
    + rewrite fmap_rev. by apply NoDup_backwards.
    + by rewrite length_rev, ranked_length.
Qed.

(** ZRANK and ZREVRANK answer the position of a member by increasing or by
    decreasing score, and NotFound for one that is not there; the two add up to
    one less than the number of members. *)
Theorem zset_rank_correct fuel duration now key m z e r :
  key_ok key = true -> zengine_ok r -> zset_holds (db_ r) now key z e ->
  above_lowest z -> below_highest z -> (size z < fuel)%nat ->
  match z !! m with
  | None =>
      (exists st r', ZRank fuel duration now key m r = Some ((st, -1), r') /\ status_code st = kNotFound /\ same_data r r') /\
      (exists st r', ZRevrank fuel duration now key m r = Some ((st, -1), r') /\ status_code st = kNotFound /\ same_data r r')
  | Some s =>
      exists i, ranked z !! i = Some (s, m) /\
        (exists r', ZRank fuel duration now key m r = Some ((Status_OK, Z.of_nat i), r') /\ same_data r r') /\
        (exists r', ZRevrank fuel duration now key m r =
           Some ((Status_OK, Z.of_nat (size z) - 1 - Z.of_nat i), r') /\ same_data r r')
  end.
Proof.
  intros K He Hh Hlow Hhigh Hf. pose proof He as ([Hdb Hst] & _). destruct (decide (z = ∅)) as [->|Hne].
  - rewrite lookup_empty. rewrite zset_holds_empty in Hh. destruct (zset_GetBase_unused now key r Hdb Hh) as (st & HG & Hcode).
    unfold ZRank, ZRevrank. rewrite !(bind_run _ _ _ _ _ HG). split; by exists st, r.
  - destruct (zset_holds_live _ _ _ _ _ Hne Hh) as (p & Hz & <-). destruct (zset_facts _ _ _ _ _ Hz) as (Hn & Hc & V & _).
    destruct (rank_loops fuel now key p z m r K He Hz Hlow Hhigh Hf) as [(it1 & H1) (it2 & H2)].
    destruct (duration_read key duration r He) as (r' & HU & Hs & _).
    unfold ZRank, ZRevrank. rewrite !(bind_zset now key p z r _ Hdb Hz). cbv zeta.
    rewrite (bind_lift _ _ _ _ (i32_val_id (pbm_count p - 1) ltac:(lia))), !bind_gets, (bind_lift _ _ _ _ H1), (bind_lift _ _ _ _ H2). clear H1 H2.
    destruct (z !! m) as [s|] eqn:Em.
    + assert (Hin : (s, m) ∈ ranked z) by by apply ranked_listing. apply list_elem_of_lookup in Hin as (i & Hi). exists i. split; [done|].
      pose proof (zlisting_members _ _ (ranked_listing z)) as N. pose proof (lookup_lt_Some _ _ _ Hi) as Hlt.
      rewrite (find_member (ranked z) i s m N Hi), (find_member (rev (ranked z)) (length (ranked z) - S i) s m).
      * cbv iota. rewrite !(bind_run _ _ _ _ _ HU). rewrite ranked_length in *. split; [by exists r'|].
        exists r'. split; [|done]. unfold ret. do 3 f_equal. lia.
      * rewrite fmap_rev. by apply NoDup_backwards.
      * by apply rev_lookup.
    + assert (Hnone : m ∉ (ranked z).*2).
      { intros ([s' m'] & -> & Hin)%list_elem_of_fmap. apply ranked_listing in Hin. simpl in Em. congruence. }
      rewrite !find_none by (done || by rewrite fmap_rev, elem_of_rev). cbv iota. rewrite !(bind_run _ _ _ _ _ HU).
      split; by eexists _, r'.
Qed.

(** ** By score *)

(** The scores between [min] and [max]. *)
Definition score_in (min max : Z) (left_close right_close : bool) (sm : ScoreMember) : bool :=
  left_pass min left_close (fst sm) && right_pass max right_close (fst sm).

(** The members of [z] with these scores, by rank. *)
Definition ranked_between (min max : Z) (left_close right_close : bool) (z : gmap bytes Z) : list ScoreMember :=
  filter (fun sm => score_in min max left_close right_close sm = true) (ranked z).

Lemma left_pass_mono min lc a b :
  number_score a -> number_score b -> double_value a <= double_value b ->
  left_pass min lc a = true -> left_pass min lc b = true.
Proof.
  intros [_ Na] [_ Nb] Hab. unfold left_pass, double_leb, double_ltb. rewrite Na, Nb. cbn [negb].
  destruct (double_is_nan min), lc; cbn [negb andb orb]; rewrite ?orb_false_r; try done; rewrite ?Z.leb_le, ?Z.ltb_lt; lia.
Qed.

Lemma right_pass_mono max rc a b :
  number_score a -> number_score b -> double_value a <= double_value b ->
  right_pass max rc b = true -> right_pass max rc a = true.
Proof.
  intros [_ Na] [_ Nb] Hab. unfold right_pass, double_leb, double_ltb. rewrite Na, Nb. cbn [negb].
  destruct (double_is_nan max), rc; cbn [negb andb orb]; rewrite ?orb_false_r; try done; rewrite ?Z.leb_le, ?Z.ltb_lt; lia.
Qed.

Lemma sm_cmp_value x y : sm_cmp x y <> Gt -> double_value (fst x) <= double_value (fst y).
Proof. unfold sm_cmp. destruct (Z.compare_spec (double_value (fst x)) (double_value (fst y))); try done; lia. Qed.

(** A loop over a list that may end early. *)
Fixpoint scan {X} (h : X -> ScoreMember -> bool * X) (x : X) (l : list ScoreMember) : X :=
  match l with
  | [] => x
  | sm :: l => let '(go, x) := h x sm in if go : bool then scan h x l else x
  end.

(** The loops on ranges of scores handle the pairs in the range, [P], pass over
    the others, and end at the first one past the range, where [on] fails. *)
Lemma walk_range {St X} (obs : St -> X) (idx : St -> Z) n c f (P on : ScoreMember -> bool) h l : forall st,
  (forall st, c st = (idx st <? n)) ->
  (forall sm st, sm ∈ l -> P sm = true ->
     fst (f sm st) = fst (h (obs st) sm) /\ obs (snd (f sm st)) = snd (h (obs st) sm) /\ idx (snd (f sm st)) <= idx st + 1) ->
  (forall sm st, sm ∈ l -> P sm = false -> on sm = true ->
     fst (f sm st) = true /\ obs (snd (f sm st)) = obs st /\ idx (snd (f sm st)) <= idx st + 1) ->
  (forall sm st, sm ∈ l -> on sm = false -> f sm st = (false, st)) ->
  (forall sm, sm ∈ l -> P sm = true -> on sm = true) ->
  StronglySorted (fun x y => on y = true -> on x = true) l -> idx st + Z.of_nat (length l) <= n ->
  obs (snd (walk c f l st)) = scan h (obs st) (filter (fun sm => P sm = true) l).
Proof.
  induction l as [|sm l IH]; intros st Hc Hin Hskip Hoff HP Hs Hn; [done|]. cbn [walk].
  rewrite Hc, (proj2 (Z.ltb_lt _ _)) by (cbn [length] in Hn; lia). cbn [length] in Hn.
  assert (Ht : forall y, y ∈ l -> y ∈ sm :: l) by (intros; by apply elem_of_cons; right).
  assert (Hh : sm ∈ sm :: l) by (by apply elem_of_cons; left). inversion Hs as [|? ? Hs' Hsm]; subst. rewrite filter_cons. destruct (P sm) eqn:Ep.
  - rewrite decide_True by done. destruct (Hin sm st Hh Ep) as (E1 & E2 & E3). cbn [scan].
    destruct (f sm st) as [go st'], (h (obs st) sm) as [go' x']. cbn [fst snd] in *. subst go' x'. destruct go; [|done].
    apply IH; [done|auto..|done|lia].
  - rewrite decide_False by congruence. destruct (on sm) eqn:Eo.
    + destruct (Hskip sm st Hh Ep Eo) as (E1 & E2 & E3).
      destruct (f sm st) as [go st']. cbn [fst snd] in *. subst go. rewrite <- E2. apply IH; [done|auto..|done|lia].
    + rewrite (Hoff sm st Hh Eo). cbn [snd].
      assert (filter (fun sm => P sm = true) l = []) as ->; [|done].
      apply filter_none. rewrite Forall_forall in Hsm. apply Forall_forall. intros y Hy Hpy.
      specialize (Hsm y Hy (HP y (Ht y Hy) Hpy)). congruence.
Qed.

(** What a loop that goes up from [min] ends with, and one that goes down from
    just above [max]. *)
Section RangeLoops.
Context {St X : Type} (obs : St -> X) (idx : St -> Z) (c : St -> bool).
Context (body : bytes -> bytes -> St -> option (bool * St)) (f : ScoreMember -> St -> bool * St).
Context (h : X -> ScoreMember -> bool * X) (min max : Z) (lc rc : bool).
Context (fuel : nat) (now : Z) (key : bytes) (p : ParsedBaseMetaValue) (z : gmap bytes Z) (r : Redis).
Context (K : key_ok key = true) (He : zengine_ok r) (Hz : zset_at (db_ r) now key p z).
Context (Hf : (size z < fuel)%nat) (Hc : forall st, c st = (idx st <? pbm_count p)).
Context (Hbody : forall sm v st, number_score (fst sm) -> body (sm_enc key (piv_version (pbm_base p)) sm) v st = Some (f sm st)).
Context (Hforeign : forall x v st, skey_ok x -> group_cmp key (piv_version (pbm_base p)) x <> Eq ->
  body (skey_enc x) v st = Some (false, st)).
Context (Hin : forall sm st, score_in min max lc rc sm = true ->
  fst (f sm st) = fst (h (obs st) sm) /\ obs (snd (f sm st)) = snd (h (obs st) sm) /\ idx (snd (f sm st)) <= idx st + 1).

Lemma up_loop st :
  number_score min -> idx st = 0 ->
  (forall sm st, score_in min max lc rc sm = false -> right_pass max rc (fst sm) = true ->
     fst (f sm st) = true /\ obs (snd (f sm st)) = obs st /\ idx (snd (f sm st)) <= idx st + 1) ->
  (forall sm st, right_pass max rc (fst sm) = false -> f sm st = (false, st)) ->
  exists it' st', iter_while fuel Next (fun _ => c) body
      (Seek (NewIterator (db_ r) kZsetsScoreCF) (ZSetsScoreKey_Encode key (piv_version (pbm_base p)) min [])) st =
    Some (it', st') /\ obs st' = scan h (obs st) (ranked_between min max lc rc z).
Proof.
  intros Hmin Hi Hskip Hoff. destruct (zset_facts _ _ _ _ _ Hz) as (Hn & Hcnt & V & Hnum).
  destruct (Seek_score r key (piv_version (pbm_base p)) z (ranked z) K V He (za_scores _ _ _ _ _ Hz)
    (za_numbers _ _ _ _ _ Hz) (ranked_listing z) min Hmin) as (zl1 & zl2 & E & H1 & _ & Hr).
  assert (Hsub : forall sm, sm ∈ zl2 -> number_score (fst sm)) by (intros sm ?; apply Hnum; rewrite E; apply elem_of_app; auto).
  assert (Hlen : (length zl2 <= length (ranked z))%nat) by (rewrite E, length_app; lia).
  destruct (score_loop (move:=Next) c body f key (piv_version (pbm_base p)) zl2
    (Seek (NewIterator (db_ r) kZsetsScoreCF) (ZSetsScoreKey_Encode key (piv_version (pbm_base p)) min [])) st fuel)
    as (it' & HL); [done|by auto|by auto|rewrite ranked_length in Hlen; lia|].
  eexists it', _. split; [exact HL|].
  rewrite (walk_range obs idx (pbm_count p) c f (score_in min max lc rc) (fun sm => right_pass max rc (fst sm)) h zl2 st);
    [|done|by auto|by auto|by auto| | |lia].
  - f_equal. unfold ranked_between. rewrite E, filter_app, (filter_none _ zl1); [done|]. rewrite Forall_forall in H1. apply Forall_forall.
    intros sm Hsm Hp. apply andb_true_iff in Hp as [Hp _]. specialize (H1 sm Hsm).
    assert (number_score (fst sm)) as [_ Hns] by (apply Hnum; rewrite E; apply elem_of_app; auto). unfold sm_cmp in H1. cbn [fst snd] in H1.
    destruct (Z.compare_spec (double_value (fst sm)) (double_value min)) as [|Hlt|]; [|clear H1|done].
    + by destruct (snd sm).
    + unfold left_pass, double_leb, double_ltb in Hp. rewrite !(proj2 (Z.leb_gt _ _)), !(proj2 (Z.ltb_ge _ _)) in Hp by lia.
      rewrite !andb_false_r in Hp. done.
  - intros sm _ Hp. by apply andb_true_iff in Hp as [_ ?].
  - destruct (ranked_listing z) as [Hs _]. rewrite E in Hs. apply StronglySorted_app_1_r in Hs.
    clear -Hs Hsub. induction Hs as [|x l Hs IH Hx]; constructor; [apply IH; intros; by apply Hsub, elem_of_cons; right|]. rewrite Forall_forall in Hx. apply Forall_forall.
    intros y Hy. apply right_pass_mono; [apply Hsub, elem_of_cons; auto..|]. apply sm_cmp_value. by rewrite Hx.
Qed.

Lemma down_loop st :
  number_score max -> below_highest z -> idx st = 0 ->
  (forall sm st, score_in min max lc rc sm = false -> left_pass min lc (fst sm) = true ->
     fst (f sm st) = true /\ obs (snd (f sm st)) = obs st /\ idx (snd (f sm st)) <= idx st + 1) ->
  (forall sm st, left_pass min lc (fst sm) = false -> f sm st = (false, st)) ->
  exists it' st', iter_while fuel Prev (fun _ => c) body
      (SeekForPrev (NewIterator (db_ r) kZsetsScoreCF)
         (ZSetsScoreKey_Encode key (piv_version (pbm_base p)) (nextafter_highest max) [])) st =
    Some (it', st') /\ obs st' = scan h (obs st) (rev (ranked_between min max lc rc z)).
Proof.
  intros Hmax Hhigh Hi Hskip Hoff. destruct (zset_facts _ _ _ _ _ Hz) as (Hn & Hcnt & V & Hnum).
  destruct (nextafter_value max Hmax) as [Hnext Hv].
  destruct (SeekForPrev_score r key (piv_version (pbm_base p)) z (ranked z) K V He (za_scores _ _ _ _ _ Hz)
    (za_numbers _ _ _ _ _ Hz) (ranked_listing z) _ Hnext) as (zl1 & zl2 & E & _ & H2 & Hr).
  assert (Hsub : forall sm, sm ∈ zl1 -> number_score (fst sm)) by (intros sm ?; apply Hnum; rewrite E; apply elem_of_app; auto).
  assert (Hlen : (length zl1 <= length (ranked z))%nat) by (rewrite E, length_app; lia).
  destruct (score_loop (move:=Prev) c body f key (piv_version (pbm_base p)) (rev zl1) (SeekForPrev (NewIterator (db_ r) kZsetsScoreCF)
    (ZSetsScoreKey_Encode key (piv_version (pbm_base p)) (nextafter_highest max) [])) st fuel)
    as (it' & HL); [done| |by auto|rewrite ranked_length in Hlen; rewrite length_rev; lia|].
  { intros sm v st0 Hsm _. apply Hbody, Hsub. by apply elem_of_rev. }
  eexists it', _. split; [exact HL|].
  rewrite (walk_range obs idx (pbm_count p) c f (score_in min max lc rc) (fun sm => left_pass min lc (fst sm)) h (rev zl1) st);
    [|done|by auto|by auto|by auto| | |rewrite length_rev; lia].
  - f_equal. unfold ranked_between. rewrite E, filter_app, (filter_none _ zl2), app_nil_r; [by apply filter_rev|].
    rewrite Forall_forall in H2. apply Forall_forall. intros sm Hsm Hp. apply andb_true_iff in Hp as [_ Hp]. specialize (H2 sm Hsm).
    assert (Hb : double_value (fst sm) < double_value double_highest).
    { apply (Hhigh (snd sm)). apply ranked_listing. rewrite E, <- surjective_pairing. apply elem_of_app; auto. }
    assert (Hle : double_value (nextafter_highest max) <= double_value (fst sm)).
    { apply (sm_cmp_value (nextafter_highest max, [])). rewrite (cmp_sym (cmp:=sm_cmp)), H2. done. }
    unfold right_pass, double_leb, double_ltb in Hp. rewrite !(proj2 (Z.leb_gt _ _)), !(proj2 (Z.ltb_ge _ _)) in Hp by lia.
    by rewrite !andb_false_r in Hp.
  - intros sm _ Hp. by apply andb_true_iff in Hp as [? _].
  - destruct (ranked_listing z) as [Hs _]. rewrite E in Hs. apply StronglySorted_app_1_l in Hs.
    clear -Hs Hsub. induction Hs as [|x l Hs IH Hx]; [constructor|]. cbn [rev]. apply StronglySorted_snoc; [apply IH; intros; by apply Hsub, elem_of_cons; right|].
    rewrite Forall_forall in Hx. apply Forall_forall.
    intros y Hy. rewrite elem_of_rev in Hy. apply left_pass_mono; [apply Hsub, elem_of_cons; auto..|]. apply sm_cmp_value. by rewrite Hx.
Qed.

End RangeLoops.

Lemma foreign_other key version x :
  group_cmp key version x <> Eq ->
  foreign key version (mkParsedZSetsScoreKey (sk_key x) (sk_version x) (sk_score x) (sk_member x)) = true.
Proof.
  rewrite group_cmp_Eq. intros N. unfold foreign. cbn [pzk_key pzk_version].
  case_bool_decide as D; [|done]. cbn [negb orb]. apply negb_true_iff, Z.eqb_neq. tauto.
Qed.

Lemma foreign_own key version s m : foreign key version (mkParsedZSetsScoreKey key version s m) = false.
Proof. unfold foreign. cbn [pzk_key pzk_version]. by rewrite bool_decide_true, Z.eqb_refl. Qed.

(** Counting. *)
Definition count_step (min max : Z) (lc rc : bool) (sm : ScoreMember) (st : Z * Z) : bool * (Z * Z) :=
  if score_in min max lc rc sm then (true, (fst st + 1, snd st + 1))
  else if negb (right_pass max rc (fst sm)) then (false, st) else (true, (fst st + 1, snd st)).

Lemma scan_count (l : list ScoreMember) : forall n, scan (fun x _ => (true, x + 1)) n l = n + Z.of_nat (length l).
Proof. induction l as [|x l IH]; intros n; cbn [scan length]; [lia|]. rewrite IH. lia. Qed.

Lemma ZCount_live fuel duration now key p min max lc rc z r :
  key_ok key = true -> zengine_ok r -> zset_at (db_ r) now key p z -> number_score min -> (size z < fuel)%nat ->
  exists r', ZCount fuel duration now key min max lc rc r =
    Some ((Status_OK, Z.of_nat (length (ranked_between min max lc rc z))), r') /\ same_data r r'.
Proof.
  intros K He Hz Hmin Hf. destruct (zset_facts _ _ _ _ _ Hz) as (Hn & Hc & V & Hnum).
  unfold ZCount. rewrite (bind_zset now key p z r _ (proj1 (proj1 He)) Hz). cbv zeta.
  rewrite (bind_lift _ _ _ _ (i32_val_id (pbm_count p - 1) ltac:(lia))), bind_gets.
  destruct (up_loop snd fst (fun '(cur_index, _) => cur_index <=? pbm_count p - 1)
    (count_body key (piv_version (pbm_base p)) min max lc rc) (count_step min max lc rc) (fun x _ => (true, x + 1))
    min max lc rc fuel now key p z r K He Hz Hf) with (st := (0, 0)) as (it' & [i n] & HL & Hobs); try done.
  - intros [i n]. cbn [fst]. apply eq_true_iff_eq. rewrite Z.leb_le, Z.ltb_lt. lia.
  - intros sm v [i n] Hsm. unfold count_body, count_step, score_in. rewrite sm_decode by done. cbn [mbind option_bind pzk_score].
    rewrite foreign_own. cbn [fst snd]. by destruct (left_pass _ _ _), (right_pass _ _ _).
  - intros x v [i n] Hx Hg. unfold count_body. rewrite skey_decode by done. cbn [mbind option_bind]. by rewrite foreign_other.
  - intros sm [i n] E. unfold count_step. rewrite E. cbn [fst snd]. split_and!; [done..|lia].
  - intros sm [i n] E E'. unfold count_step. rewrite E, E'. cbn [negb fst snd]. split_and!; [done..|lia].
  - intros sm [i n] E. unfold count_step, score_in. by rewrite E, andb_false_r.
  - rewrite scan_count in Hobs. cbn [snd] in Hobs. rewrite (bind_lift _ _ _ _ HL). cbv iota.
    destruct (duration_read key duration r He) as (r' & HU & Hs & _). rewrite (bind_run _ _ _ _ _ HU). exists r'. by rewrite Hobs.
Qed.

(** Listing, after [offset] members and up to [count] of them. *)
Definition limited (count offset : Z) (l : list ScoreMember) : list ScoreMember :=
  if (0 <=? offset) && negb (count =? 0) then
    if 0 <? count then take (Z.to_nat count) (drop (Z.to_nat offset) l) else drop (Z.to_nat offset) l
  else [].

Definition limit_step (count offset : Z) (st : Z * list ScoreMember) (sm : ScoreMember) : bool * (Z * list ScoreMember) :=
  let '(skipped, acc) := st in
  if skipped <? offset then (true, (skipped + 1, acc))
  else (negb ((0 <? count) && (Z.of_nat (length (acc ++ [sm])) =? count)), (skipped, acc ++ [sm])).

Lemma scan_limit count offset (l : list ScoreMember) : forall skipped acc,
  skipped <= offset -> (0 < count -> Z.of_nat (length acc) < count) -> (skipped < offset -> acc = []) ->
  snd (scan (limit_step count offset) (skipped, acc) l) =
  let l' := drop (Z.to_nat (offset - skipped)) l in
  acc ++ if 0 <? count then take (Z.to_nat count - length acc) l' else l'.
Proof.
  induction l as [|x l IH]; intros skipped acc Hs Hacc Hnil; cbv zeta in *; cbn [scan].
  - rewrite drop_nil, take_nil. cbn [snd]. destruct (0 <? count); by rewrite app_nil_r.
  - unfold limit_step at 1. destruct (Z.ltb_spec skipped offset).
    + rewrite IH by (try done; try lia; intros; by apply Hnil).
      by replace (Z.to_nat (offset - skipped)) with (S (Z.to_nat (offset - (skipped + 1)))) by lia.
    + replace (Z.to_nat (offset - skipped)) with 0%nat in * by lia. rewrite drop_0. rewrite length_app. cbn [length].
      destruct (Z.ltb_spec 0 count); cbn [andb].
      * specialize (Hacc ltac:(done)). destruct (Z.eqb_spec (Z.of_nat (length acc + 1)) count) as [E|E]; cbn [negb].
        -- cbn [snd]. replace (Z.to_nat count - length acc)%nat with 1%nat by lia. done.
        -- rewrite IH by (try lia; rewrite length_app; cbn [length]; lia).
           rewrite length_app, <- app_assoc.
           replace (Z.to_nat (offset - skipped)) with 0%nat by lia. rewrite drop_0.
           replace (Z.to_nat count - length acc)%nat with (S (Z.to_nat count - (length acc + length [x])))%nat by (cbn [length]; lia). done.
      * cbn [negb]. rewrite IH, <- app_assoc by lia.
        replace (Z.to_nat (offset - skipped)) with 0%nat by lia. done.
Qed.

Definition range_step (stop : bool -> bool -> bool) (min max : Z) (lc rc : bool) (count offset : Z)
    (sm : ScoreMember) (st : Z * Z * list ScoreMember) : bool * (Z * Z * list ScoreMember) :=
  let '(index, skipped, acc) := st in
  if score_in min max lc rc sm then
    let '(go, (skipped, acc)) := limit_step count offset (skipped, acc) sm in
    (go, (if go : bool then index + 1 else index, skipped, acc))
  else if stop (left_pass min lc (fst sm)) (right_pass max rc (fst sm)) then (false, st)
  else (true, (index + 1, skipped, acc)).

Definition range_obs (st : Z * Z * list ScoreMember) : Z * list ScoreMember := (snd (fst st), snd st).

Section RangeBody.
Context (stop : bool -> bool -> bool) (key : bytes) (version min max : Z) (lc rc : bool) (count offset : Z).
Context (K : key_ok key = true) (V : is_u64 version).
Notation body := (range_score_body stop key version min max lc rc count offset).
Notation step := (range_step stop min max lc rc count offset).

Lemma range_body_own sm v st : number_score (fst sm) -> body (sm_enc key version sm) v st = Some (step sm st).
Proof.
  destruct st as [[i k] acc]. intros Hsm. unfold range_score_body, range_step, limit_step, score_in.
  rewrite sm_decode by done. cbn [mbind option_bind pzk_score pzk_member]. rewrite foreign_own, <- surjective_pairing.
  destruct (_ && _); [|by destruct (stop _ _)]. destruct (k <? offset); [done|]. by destruct (_ && _).
Qed.

Lemma range_body_other x v st :
  skey_ok x -> group_cmp key version x <> Eq -> body (skey_enc x) v st = Some (false, st).
Proof.
  destruct st as [[i k] acc]. intros Hx Hg. unfold range_score_body. rewrite skey_decode by done.
  cbn [mbind option_bind]. by rewrite foreign_other.
Qed.

Lemma range_step_in sm st : score_in min max lc rc sm = true ->
  fst (step sm st) = fst (limit_step count offset (range_obs st) sm) /\
  range_obs (snd (step sm st)) = snd (limit_step count offset (range_obs st) sm) /\
  fst (fst (snd (step sm st))) <= fst (fst st) + 1.
Proof.
  destruct st as [[i k] acc]. intros E. unfold range_step, range_obs. rewrite E. cbn [fst snd].
  destruct (limit_step _ _ _ _) as [[] [k' acc']]; cbn [fst snd]; (split_and!; [done..|lia]).
Qed.

Lemma range_step_skip sm st :
  score_in min max lc rc sm = false -> stop (left_pass min lc (fst sm)) (right_pass max rc (fst sm)) = false ->
  fst (step sm st) = true /\ range_obs (snd (step sm st)) = range_obs st /\ fst (fst (snd (step sm st))) <= fst (fst st) + 1.
Proof.
  destruct st as [[i k] acc]. intros E E'. unfold range_step, range_obs. rewrite E, E'. cbn [fst snd]. split_and!; [done..|lia].
Qed.

Lemma range_step_stop sm st :
  score_in min max lc rc sm = false -> stop (left_pass min lc (fst sm)) (right_pass max rc (fst sm)) = true ->
  step sm st = (false, st).
Proof. destruct st as [[i k] acc]. intros E E'. unfold range_step. by rewrite E, E'. Qed.

End RangeBody.

Lemma scan_limited count offset l :
  0 <= offset -> count <> 0 -> snd (scan (limit_step count offset) (0, []) l) = limited count offset l.
Proof.
  intros Ho Hc. rewrite scan_limit by (try done; simpl; lia). unfold limited. rewrite (proj2 (Z.leb_le _ _)), (proj2 (Z.eqb_neq _ _)) by lia.
  cbn [andb negb app length]. rewrite Z.sub_0_r, Nat.sub_0_r. done.
Qed.

Lemma ZRangebyscore_live fuel duration now key p min max lc rc count offset z r :
  key_ok key = true -> zengine_ok r -> zset_at (db_ r) now key p z -> number_score min -> (size z < fuel)%nat ->
  exists r', ZRangebyscore fuel duration now key min max lc rc count offset r =
    Some ((Status_OK, limited count offset (ranked_between min max lc rc z)), r') /\ same_data r r'.
Proof.
  intros K He Hz Hmin Hf. destruct (zset_facts _ _ _ _ _ Hz) as (Hn & Hc & V & Hnum).
  unfold ZRangebyscore. rewrite (bind_zset now key p z r _ (proj1 (proj1 He)) Hz). cbv zeta.
  destruct ((0 <=? offset) && negb (count =? 0)) eqn:Eo; [|unfold limited; rewrite Eo; by exists r].
  apply andb_true_iff in Eo as [Ho Hcount]. apply Z.leb_le in Ho. apply negb_true_iff, Z.eqb_neq in Hcount.
  rewrite (bind_lift _ _ _ _ (i32_val_id (pbm_count p - 1) ltac:(lia))), bind_gets.
  destruct (up_loop range_obs (fun st => fst (fst st)) (fun '(index, _, _) => index <=? pbm_count p - 1)
    (range_score_body (fun _ right_pass => negb right_pass) key (piv_version (pbm_base p)) min max lc rc count offset)
    (range_step (fun _ right_pass => negb right_pass) min max lc rc count offset) (limit_step count offset)
    min max lc rc fuel now key p z r K He Hz Hf) with (st := (0, 0, @nil ScoreMember)) as (it' & [[i n] acc] & HL & Hobs); try done.
  - intros [[i n] acc]. cbn [fst]. apply eq_true_iff_eq. rewrite Z.leb_le, Z.ltb_lt. lia.
  - intros sm v st Hsm. by apply range_body_own.
  - intros x v st Hx Hg. by apply range_body_other.
  - intros sm st E. by apply range_step_in.
  - intros sm st E E'. apply range_step_skip; [done|]. by rewrite E'.
  - intros sm st E. apply range_step_stop; [unfold score_in; by rewrite E, andb_false_r|by rewrite E].
  - pose proof (scan_limited count offset (ranked_between min max lc rc z) Ho Hcount) as HS.
    change (range_obs (0, 0, [])) with (0, @nil ScoreMember) in Hobs. rewrite <- Hobs in HS. cbn in HS. subst acc.
    rewrite (bind_lift _ _ _ _ HL). cbv iota.
    destruct (duration_read key duration r He) as (r' & HU & Hs & _). rewrite (bind_run _ _ _ _ _ HU). by exists r'.
Qed.

Lemma ZRevrangebyscore_live fuel duration now key p min max lc rc count offset z r :
  key_ok key = true -> zengine_ok r -> zset_at (db_ r) now key p z -> number_score max -> below_highest z ->
  (size z < fuel)%nat ->
  exists r', ZRevrangebyscore fuel duration now key min max lc rc count offset r =
    Some ((Status_OK, limited count offset (rev (ranked_between min max lc rc z))), r') /\ same_data r r'.
Proof.
  intros K He Hz Hmax Hhigh Hf. destruct (zset_facts _ _ _ _ _ Hz) as (Hn & Hc & V & Hnum).
  unfold ZRevrangebyscore. rewrite (bind_zset now key p z r _ (proj1 (proj1 He)) Hz). cbv zeta.
  destruct ((0 <=? offset) && negb (count =? 0)) eqn:Eo; [|unfold limited; rewrite Eo; by exists r].
  apply andb_true_iff in Eo as [Ho Hcount]. apply Z.leb_le in Ho. apply negb_true_iff, Z.eqb_neq in Hcount. rewrite bind_gets.
  destruct (down_loop range_obs (fun st => fst (fst st)) (fun '(index, _, _) => 0 <? pbm_count p - index)
    (range_score_body (fun left_pass _ => negb left_pass) key (piv_version (pbm_base p)) min max lc rc count offset)
    (range_step (fun left_pass _ => negb left_pass) min max lc rc count offset) (limit_step count offset)
    min max lc rc fuel now key p z r K He Hz Hf) with (st := (0, 0, @nil ScoreMember)) as (it' & [[i n] acc] & HL & Hobs); try done.
  - intros [[i n] acc]. cbn [fst]. apply eq_true_iff_eq. rewrite !Z.ltb_lt. lia.
  - intros sm v st Hsm. by apply range_body_own.
  - intros x v st Hx Hg. by apply range_body_other.
  - intros sm st E. by apply range_step_in.
  - intros sm st E E'. apply range_step_skip; [done|]. by rewrite E'.
  - intros sm st E. apply range_step_stop; [unfold score_in; by rewrite E|by rewrite E].
  - pose proof (scan_limited count offset (rev (ranked_between min max lc rc z)) Ho Hcount) as HS.
    change (range_obs (0, 0, [])) with (0, @nil ScoreMember) in Hobs. rewrite <- Hobs in HS. cbn in HS. subst acc.
    rewrite (bind_lift _ _ _ _ HL). cbv iota.
    destruct (duration_read key duration r He) as (r' & HU & Hs & _). rewrite (bind_run _ _ _ _ _ HU). by exists r'.
Qed.

(** The score [s] lies between [min] and [max], at an end only when it is closed. *)
Definition score_within (min max : Z) (left_close right_close : bool) (s : Z) : Prop :=
  (double_value min < double_value s \/ left_close = true /\ double_value min = double_value s) /\
  (double_value s < double_value max \/ right_close = true /\ double_value s = double_value max).

Definition members_within (min max : Z) (left_close right_close : bool) (z : gmap bytes Z) : list ScoreMember :=
  filter (fun sm => score_within min max left_close right_close (fst sm)) (ranked z).

Lemma score_in_within min max lc rc sm :
  number_score min -> number_score max -> number_score (fst sm) ->
  score_in min max lc rc sm = true <-> score_within min max lc rc (fst sm).
Proof.
  intros [_ N1] [_ N2] [_ N3]. unfold score_in, left_pass, right_pass, double_leb, double_ltb, score_within.
  rewrite N1, N2, N3. destruct lc, rc; cbn [negb andb orb]; rewrite andb_true_iff, ?Z.leb_le, ?Z.ltb_lt;
    (split; [intros []; split; lia|]; intros [H1 H2]; split; [destruct H1 as [?|[? ?]]|destruct H2 as [?|[? ?]]]; (done || lia)).
Qed.

Lemma ranked_between_within min max lc rc z :
  number_score min -> number_score max -> (forall sm, sm ∈ ranked z -> number_score (fst sm)) -> ranked_between min max lc rc z = members_within min max lc rc z.
Proof.
  intros Hmin Hmax Hz. unfold ranked_between, members_within.
  assert (Hr : Forall (fun sm => number_score (fst sm)) (ranked z)) by (by apply Forall_forall). clear Hz.
  induction Hr as [|sm l Hsm Hr IH]; [done|]. rewrite !filter_cons, IH. pose proof (score_in_within min max lc rc sm Hmin Hmax Hsm).
  destruct (decide (score_in min max lc rc sm = true)), (decide (score_within min max lc rc (fst sm))); (done || tauto).
Qed.

(** C16: ZCOUNT answers how many members have a score between two bounds, each one
    open or closed, as numbers; ZRANGEBYSCORE and ZREVRANGEBYSCORE list these members up or
    down, after [offset] of them and [count] at most.  On a key that holds no
    sorted set they answer NotFound.  The scores lie below the highest double. *)
Theorem zset_by_score_correct fuel duration now key min max lc rc count offset z e r :
  key_ok key = true -> zengine_ok r -> zset_holds (db_ r) now key z e ->
  number_score min -> number_score max -> below_highest z -> (size z < fuel)%nat ->
  let l := members_within min max lc rc z in
  if decide (z = ∅) then
    (exists st, ZCount fuel duration now key min max lc rc r = Some ((st, 0), r) /\ status_code st = kNotFound) /\
    (exists st, ZRangebyscore fuel duration now key min max lc rc count offset r = Some ((st, []), r) /\
       status_code st = kNotFound) /\
    (exists st, ZRevrangebyscore fuel duration now key min max lc rc count offset r = Some ((st, []), r) /\
       status_code st = kNotFound)
  else
    (exists r', ZCount fuel duration now key min max lc rc r = Some ((Status_OK, Z.of_nat (length l)), r') /\
       same_data r r') /\
    (exists r', ZRangebyscore fuel duration now key min max lc rc count offset r =
       Some ((Status_OK, limited count offset l), r') /\ same_data r r') /\
    (exists r', ZRevrangebyscore fuel duration now key min max lc rc count offset r =
       Some ((Status_OK, limited count offset (rev l)), r') /\ same_data r r').
Proof.
  intros K He Hh Hmin Hmax Hhigh Hf. pose proof He as ([Hdb Hst] & _). destruct (decide (z = ∅)) as [->|Hne].
  - rewrite zset_holds_empty in Hh. destruct (zset_GetBase_unused now key r Hdb Hh) as (st & HG & Hcode).
    unfold ZCount, ZRangebyscore, ZRevrangebyscore. rewrite !(bind_run _ _ _ _ _ HG). split_and!; by exists st.
  - destruct (zset_holds_live _ _ _ _ _ Hne Hh) as (p & Hz & <-). destruct (zset_facts _ _ _ _ _ Hz) as (_ & _ & _ & Hnum).
    rewrite <- ranked_between_within by done. split_and!.
    + by apply (ZCount_live fuel duration now key p).
    + by apply (ZRangebyscore_live fuel duration now key p).
    + by apply (ZRevrangebyscore_live fuel duration now key p).
Qed.

End ZSetRange.
