(* ===== verification/ZSetRemove.v ===== *)
(** * Removing from sorted sets by rank, by score and by member

    ZPOPMIN, ZPOPMAX, ZREMRANGEBYRANK and ZREMRANGEBYSCORE remove from both
    indices the members that the range commands would list. *)

From Stdlib Require Import Sorting.Sorted.
From stdpp Require Import sorting.
From S2P Require Import Prelude Coding Numbers Glob KeyFormat Comparator Doubles ValueFormat RocksDB LruCache Redis KeySpace BaseData BaseSpec BaseScan BaseHolds BaseWrite Sets ZSets ZSetSpec ZSetWrite ZSetRead ZSetRange.
Open Scope Z_scope.

(** [z] without the members of [l]. *)
Definition zset_without (l : list ScoreMember) (z : gmap bytes Z) : gmap bytes Z := filter (fun x => fst x ∉ l.*2) z.

Section ZSetRemove.
Context {R : RocksDB} {L : RocksDBLaws R} {SL : ScoreLaws R L} {U : Uninit}.

Definition entry_deletes (key : bytes) (version : Z) (sm : ScoreMember) : list WriteOp :=
  [Delete kZsetsDataCF (BaseDataKey_Encode key version (snd sm)); Delete kZsetsScoreCF (sm_enc key version sm)].

Lemma entry_deletes_steps now key version (l : list ScoreMember) : forall z,
  NoDup l.*2 -> (forall s m, (s, m) ∈ l -> z !! m = Some s) ->
  zsteps now key version (l ≫= entry_deletes key version) None z (drop_members l.*2 z) /\
  drop_count l.*2 z = Z.of_nat (length l).
Proof.
  induction l as [|[s m] l IH]; intros z N Hl; [split; [constructor|unfold drop_count; simpl; lia]|].
  rewrite fmap_cons, NoDup_cons in N. destruct N as [Hn N]. cbn [snd] in Hn.
  assert (Hm : z !! m = Some s) by (apply Hl, elem_of_cons; by left).
  destruct (IH (base.delete m z) N) as [HZ Hc].
  { intros s' m' Hin. rewrite lookup_delete_ne; [apply Hl, elem_of_cons; by right|].
    intros <-. apply Hn. apply (list_elem_of_fmap_2 snd l (s', m) Hin). }
  rewrite fmap_cons. cbn [snd]. rewrite drop_one, Hm, Hc. split; [|cbn [length]; lia].
  apply (zs_delete now key version m s _ None z _ Hm HZ).
Qed.

Lemma without_drop (l : list ScoreMember) z : drop_members l.*2 z = zset_without l z.
Proof. by apply drop_members_filter. Qed.

(** What every command here ends with, once its loop has collected [l]. *)
Lemma removed_stores now key p z (l : list ScoreMember) r :
  key_ok key = true -> zengine_ok r -> zset_at (db_ r) now key p z ->
  NoDup l.*2 -> (forall sm, sm ∈ l -> sm ∈ ranked z) ->
  let n := Z.of_nat (length l) in
  ParsedBaseMetaValue_CheckModifyCount p (- n) = true /\
  exists r', Write ((l ≫= entry_deletes key (piv_version (pbm_base p))) ++
      [put_base_meta key (counted p (- n))]) r = Some (Status_OK, r') /\
    zset_stores now key (zset_without l z) (piv_etime (pbm_base p)) r r'.
Proof.
  intros K He Hz N Hl n.
  destruct (entry_deletes_steps now key (piv_version (pbm_base p)) l z N) as [HZ Hc].
  { intros s m Hin. by apply ranked_listing, Hl. }
  rewrite without_drop in HZ. unfold drop_count in Hc. rewrite without_drop in Hc. subst n. rewrite <- Hc.
  by apply zset_remove_stores; [..|lia].
Qed.

(** ** Popping *)

Lemma pop_fold key version (l : list ScoreMember) : forall b acc n,
  fold_left (fun '(b, acc, n) sm => (b ++ entry_deletes key version sm, acc ++ [sm], n + 1)) l (b, acc, n) =
  (b ++ (l ≫= entry_deletes key version), acc ++ l, n + Z.of_nat (length l)).
Proof.
  induction l as [|x l IH]; intros b acc n; cbn [fold_left length].
  - cbn. by rewrite !app_nil_r, Z.add_0_r.
  - rewrite IH. change ((x :: l) ≫= entry_deletes key version) with (entry_deletes key version x ++ (l ≫= entry_deletes key version)).
    rewrite <- !app_assoc. f_equal. lia.
Qed.

(** Either command, over the pairs its seek reaches. *)
Lemma ZPop_live {move ahead} `{!Walks move ahead} score seek fuel duration now key count p z zl r :
  key_ok key = true -> zengine_ok r -> zset_at (db_ r) now key p z ->
  reaches ahead (seek (NewIterator (db_ r) kZsetsScoreCF) (ZSetsScoreKey_Encode key (piv_version (pbm_base p)) score []))
    key (piv_version (pbm_base p)) zl ->
  zl ≡ₚ ranked z -> (size z < fuel)%nat ->
  let l := take (Z.to_nat count) zl in
  exists r', ZPop score seek move fuel duration now key count r = Some ((Status_OK, l), r') /\
    zset_stores now key (zset_without l z) (piv_etime (pbm_base p)) r r'.
Proof.
  intros K He Hz Hr HP Hf l. destruct (zset_facts _ _ _ _ _ Hz) as (Hn & Hc & V & Hnum).
  pose proof (Permutation_length HP) as Hlen. rewrite ranked_length in Hc, Hlen.
  unfold ZPop. rewrite (bind_zset now key p z r _ (proj1 (proj1 He)) Hz). cbv zeta. rewrite bind_gets.
  set (num := if pbm_count p <=? count then pbm_count p else count).
  assert (Hnum' : num <= pbm_count p) by (unfold num; destruct (Z.leb_spec (pbm_count p) count); lia).
  assert (El : take (Z.to_nat num) zl = l).
  { unfold l, num. destruct (Z.leb_spec (pbm_count p) count); [|done]. by rewrite !take_ge by lia. }
  clearbody num. destruct (counted_loop (move:=move) (fun st => snd st) (num - 1) (fun '(_, _, n) => n <? num)
    (zpop_body key (piv_version (pbm_base p)))
    (fun '(b, acc, n) sm => (b ++ entry_deletes key (piv_version (pbm_base p)) sm, acc ++ [sm], n + 1))
    key (piv_version (pbm_base p)) zl (seek (NewIterator (db_ r) kZsetsScoreCF)
      (ZSetsScoreKey_Encode key (piv_version (pbm_base p)) score [])) ([], [], 0) fuel) as (it' & HL).
  - exact Hr.
  - intros [[b acc] n]. cbn [snd]. apply eq_true_iff_eq. rewrite Z.leb_le, Z.ltb_lt. lia.
  - intros sm v [[b acc] n] Hin. unfold zpop_body. rewrite sm_decode by (try done; apply Hnum; by rewrite <- HP). by destruct sm.
  - by intros sm [[b acc] n].
  - cbn [snd]. lia.
  - lia.
  - cbn [snd] in HL. replace (Z.to_nat (num - 1 + 1 - 0)) with (Z.to_nat num) in HL by lia. rewrite El, pop_fold in HL.
    rewrite (bind_lift _ _ _ _ HL). cbn [app]. rewrite Z.add_0_l.
    destruct (removed_stores now key p z l r K He Hz) as [Hck Hw].
    + assert (NoDup zl.*2) as N by (rewrite HP; apply (zlisting_members _ _ (ranked_listing z))).
      unfold l. rewrite <- (take_drop (Z.to_nat count) zl), fmap_app in N. by apply NoDup_app in N as [? _].
    + intros sm Hin. rewrite <- HP. unfold l in Hin. by apply elem_of_take in Hin as (i & ? & _); eapply list_elem_of_lookup_2.
    + rewrite checked_count, Hck. cbn [negb]. destruct (zfinish_stores now key (u32 (Z.of_nat (length l))) _ l _ _ r Hw) as (r1 & H1 & Hs).
      rewrite (bind_run _ _ _ _ _ H1). destruct (duration_read key duration r1 (proj1 Hs)) as (r' & HU & Hsame & Hok).
      rewrite (bind_run _ _ _ _ _ HU). exists r'. split; [done|]. eapply zset_stores_same; [done|done|apply Hok].
Qed.

(** C17: ZPOPMIN and ZPOPMAX remove the members of the lowest or the highest scores,
    [count] of them or all there are, from both indices, and return them with
    their scores in the order they leave.  On a key that holds no sorted set they
    answer NotFound and change nothing. *)
Theorem zset_pop_correct fuel duration now key count z e r :
  key_ok key = true -> zengine_ok r -> zset_holds (db_ r) now key z e -> above_lowest z -> below_highest z ->
  (size z < fuel)%nat ->
  let low := take (Z.to_nat count) (ranked z) in
  let high := take (Z.to_nat count) (rev (ranked z)) in
  if decide (z = ∅) then
    (exists st, ZPopMin fuel duration now key count r = Some ((st, []), r) /\ status_code st = kNotFound) /\
    (exists st, ZPopMax fuel duration now key count r = Some ((st, []), r) /\ status_code st = kNotFound)
  else
    (exists r', ZPopMin fuel duration now key count r = Some ((Status_OK, low), r') /\
       zset_stores now key (zset_without low z) e r r') /\
    (exists r', ZPopMax fuel duration now key count r = Some ((Status_OK, high), r') /\
       zset_stores now key (zset_without high z) e r r').
Proof.
  intros K He Hh Hlow Hhigh Hf low high. pose proof He as ([Hdb Hst] & _). destruct (decide (z = ∅)) as [->|Hne].
  - rewrite zset_holds_empty in Hh. destruct (zset_GetBase_unused now key r Hdb Hh) as (st & HG & Hcode).
    unfold ZPopMin, ZPopMax, ZPop. rewrite !(bind_run _ _ _ _ _ HG). split; by exists st.
  - destruct (zset_holds_live _ _ _ _ _ Hne Hh) as (p & Hz & <-). split.
    + by apply (ZPop_live double_lowest Seek fuel duration now key count p z (ranked z) r K He Hz); [eapply Seek_all|..].
    + apply (ZPop_live double_highest SeekForPrev fuel duration now key count p z (rev (ranked z)) r K He Hz); [by eapply SeekForPrev_all| |done].
      rewrite rev_alt. apply reverse_Permutation.
Qed.

(** ** Ranges of ranks and of scores *)

Lemma zset_remove_live now key p z (l : list ScoreMember) r duration :
  key_ok key = true -> zengine_ok r -> zset_at (db_ r) now key p z ->
  NoDup l.*2 -> (forall sm, sm ∈ l -> sm ∈ ranked z) ->
  exists r', bind (UpdateSpecificKeyDuration kZSets key duration) (fun _ =>
      zset_remove key p (l ≫= entry_deletes key (piv_version (pbm_base p))) (Z.of_nat (length l))) r =
    Some ((Status_OK, Z.of_nat (length l)), r') /\ zset_stores now key (zset_without l z) (piv_etime (pbm_base p)) r r'.
Proof.
  intros K He Hz N Hl. destruct (duration_read key duration r He) as (r1 & HU & [Hsame _] & Hok).
  rewrite (bind_run _ _ _ _ _ HU). rewrite <- Hsame in Hz.
  destruct (removed_stores now key p z l r1 K Hok Hz N Hl) as [Hck Hw]. unfold zset_remove. rewrite checked_count, Hck. cbn [negb].
  destruct (zfinish_stores now key (u32 (Z.of_nat (length l))) _ (Z.of_nat (length l)) _ _ r1 Hw) as (r' & H1 & Hs).
  exists r'. split; [done|]. unfold zset_stores in *. by rewrite Hsame in Hs.
Qed.

Lemma sublist_ranked z (l : list ScoreMember) :
  l `sublist_of` ranked z -> NoDup l.*2 /\ forall sm, sm ∈ l -> sm ∈ ranked z.
Proof.
  intros H. split.
  - apply (sublist_NoDup _ (ranked z).*2); [apply (zlisting_members _ _ (ranked_listing z))|]. by apply fmap_sublist.
  - intros sm Hin. by eapply elem_of_sublist.
Qed.

Lemma rem_rank_fold key version start (l : list ScoreMember) : forall i b n,
  fold_left (fun '(i, b, n) sm => if start <=? i then (i + 1, b ++ entry_deletes key version sm, n + 1) else (i + 1, b, n))
    l (i, b, n) =
  let l' := drop (Z.to_nat (start - i)) l in
  (i + Z.of_nat (length l), b ++ (l' ≫= entry_deletes key version), n + Z.of_nat (length l')).
Proof.
  induction l as [|x l IH]; intros i b n; cbv zeta in *; cbn [fold_left length].
  - rewrite drop_nil. cbn. by rewrite app_nil_r, !Z.add_0_r.
  - destruct (Z.leb_spec start i); rewrite IH.
    + replace (Z.to_nat (start - i)) with 0%nat by lia. replace (Z.to_nat (start - (i + 1))) with 0%nat by lia. rewrite !drop_0.
      change ((x :: l) ≫= entry_deletes key version) with (entry_deletes key version x ++ (l ≫= entry_deletes key version)).
      rewrite <- app_assoc. cbn [length]. f_equal; [f_equal|]; lia.
    + replace (Z.to_nat (start - i)) with (S (Z.to_nat (start - (i + 1)))) by lia. cbn [drop skipn]. f_equal. f_equal. lia.
Qed.

Lemma ZRemrangebyrank_live fuel duration now key start stop p z r :
  key_ok key = true -> zengine_ok r -> zset_at (db_ r) now key p z -> above_lowest z ->
  is_i32 start -> is_i32 stop -> (size z < fuel)%nat ->
  let l := redis_range (ranked z) start stop in
  exists r', ZRemrangebyrank fuel duration now key start stop r = Some ((Status_OK, Z.of_nat (length l)), r') /\
    zset_stores now key (zset_without l z) (piv_etime (pbm_base p)) r r'.
Proof.
  intros K He Hz Hlow H1 H2 Hf l. destruct (zset_facts _ _ _ _ _ Hz) as (Hn & Hc & V & Hnum).
  unfold ZRemrangebyrank. rewrite (bind_zset now key p z r _ (proj1 (proj1 He)) Hz). cbv zeta.
  rewrite (bind_lift _ _ _ _ (rank_range_clamped _ _ _ Hn H1 H2)). cbv iota.
  assert (El : l = redis_range (ranked z) start stop) by done. clearbody l. rewrite redis_range_slice, <- Hc in El.
  set (a := Z.max _ _) in *. set (b := Z.min _ _) in *. destruct (Z.leb_spec a b) as [Hab|Hab].
  2:{ rewrite (proj2 (Z.ltb_lt _ _)) by lia. cbn [orb]. subst l. exists r. split; [done|]. unfold zset_without.
      rewrite map_filter_id; [by apply zset_stores_refl, zset_at_holds|]. intros m s _. apply not_elem_of_nil. }
  rewrite (proj2 (Z.ltb_ge _ _)), (proj2 (Z.leb_gt _ _)) by lia. cbn [orb]. rewrite bind_gets.
  destruct (counted_loop (move:=Next) (fun st => fst (fst st)) b (fun '(i, _, _) => i <=? b)
    (rem_rank_body key (piv_version (pbm_base p)) a)
    (fun '(i, b, n) sm => if a <=? i then (i + 1, b ++ entry_deletes key (piv_version (pbm_base p)) sm, n + 1) else (i + 1, b, n))
    key (piv_version (pbm_base p)) (ranked z)
    (Seek (NewIterator (db_ r) kZsetsScoreCF) (ZSetsScoreKey_Encode key (piv_version (pbm_base p)) double_lowest []))
    (0, [], 0) fuel) as (it' & HL); [by eapply Seek_all|by intros [[??]?]| | |cbn [fst]; lia|by rewrite ranked_length|].
  - intros sm v [[i ops] n] Hin. unfold rem_rank_body. destruct (a <=? i); [|done].
    rewrite sm_decode by auto. by destruct sm.
  - intros sm [[i ops] n]. by destruct (a <=? i).
  - cbn [fst] in HL. rewrite rem_rank_fold in HL. cbv zeta in HL. rewrite !Z.sub_0_r, skipn_firstn_comm in HL.
    replace (Z.to_nat (b + 1) - Z.to_nat a)%nat with (Z.to_nat (b - a + 1)) in HL by lia. rewrite <- El in HL.
    rewrite (bind_lift _ _ _ _ HL). cbn [app]. rewrite Z.add_0_l. destruct (sublist_ranked z l) as [N Hl].
    { rewrite El. etransitivity; [apply sublist_take|apply sublist_drop]. }
    by apply zset_remove_live.
Qed.

(** *** By score *)

Definition rem_score_step (key : bytes) (version min max : Z) (lc rc : bool) (sm : ScoreMember)
    (st : Z * list WriteOp * Z) : bool * (Z * list WriteOp * Z) :=
  let '(i, b, n) := st in
  if score_in min max lc rc sm then (true, (i + 1, b ++ entry_deletes key version sm, n + 1))
  else if negb (right_pass max rc (fst sm)) then (false, st) else (true, (i + 1, b, n)).

Lemma scan_removed key version (l : list ScoreMember) : forall b n,
  scan (fun '(b, n) sm => (true, (b ++ entry_deletes key version sm, n + 1))) (b, n) l =
  (b ++ (l ≫= entry_deletes key version), n + Z.of_nat (length l)).
Proof.
  induction l as [|x l IH]; intros b n; cbn [scan length].
  - cbn. by rewrite app_nil_r, Z.add_0_r.
  - rewrite IH. change ((x :: l) ≫= entry_deletes key version) with (entry_deletes key version x ++ (l ≫= entry_deletes key version)).
    rewrite <- app_assoc. f_equal. lia.
Qed.

Lemma ZRemrangebyscore_live fuel duration now key min max lc rc p z r :
  key_ok key = true -> zengine_ok r -> zset_at (db_ r) now key p z -> number_score min -> (size z < fuel)%nat ->
  let l := ranked_between min max lc rc z in
  exists r', ZRemrangebyscore fuel duration now key min max lc rc r = Some ((Status_OK, Z.of_nat (length l)), r') /\
    zset_stores now key (zset_without l z) (piv_etime (pbm_base p)) r r'.
Proof.
  intros K He Hz Hmin Hf l. destruct (zset_facts _ _ _ _ _ Hz) as (Hn & Hc & V & Hnum).
  unfold ZRemrangebyscore. rewrite (bind_zset now key p z r _ (proj1 (proj1 He)) Hz). cbv zeta.
  rewrite (bind_lift _ _ _ _ (i32_val_id (pbm_count p - 1) ltac:(lia))), bind_gets.
  destruct (up_loop (fun st => (snd (fst st), snd st)) (fun st => fst (fst st)) (fun '(i, _, _) => i <=? pbm_count p - 1)
    (rem_score_body key (piv_version (pbm_base p)) min max lc rc) (rem_score_step key (piv_version (pbm_base p)) min max lc rc)
    (fun '(b, n) sm => (true, (b ++ entry_deletes key (piv_version (pbm_base p)) sm, n + 1)))
    min max lc rc fuel now key p z r K He Hz Hf) with (st := (0, @nil WriteOp, 0)) as (it' & [[i ops] n] & HL & Hobs); try done.
  - intros [[i ops] n]. cbn [fst]. apply eq_true_iff_eq. rewrite Z.leb_le, Z.ltb_lt. lia.
  - intros sm v [[i ops] n] Hsm. unfold rem_score_body, rem_score_step, score_in. rewrite sm_decode by done.
    cbn [mbind option_bind pzk_score]. rewrite foreign_own. by destruct (left_pass _ _ _), (right_pass _ _ _).
  - intros x v [[i ops] n] Hx Hg. unfold rem_score_body. rewrite skey_decode by done. cbn [mbind option_bind]. by rewrite foreign_other.
  - intros sm [[i ops] n] E. unfold rem_score_step. rewrite E. cbn [fst snd]. split_and!; [done..|lia].
  - intros sm [[i ops] n] E E'. unfold rem_score_step. rewrite E, E'. cbn [negb fst snd]. split_and!; [done..|lia].
  - intros sm [[i ops] n] E. unfold rem_score_step, score_in. by rewrite E, andb_false_r.
  - cbn [fst snd] in Hobs. rewrite scan_removed in Hobs. cbn [app] in Hobs. rewrite Z.add_0_l in Hobs. injection Hobs as -> ->.
    rewrite (bind_lift _ _ _ _ HL). destruct (sublist_ranked z l) as [N Hl]; [apply sublist_filter|]. by apply zset_remove_live.
Qed.

(** ZREMRANGEBYRANK and ZREMRANGEBYSCORE remove from both indices the members
    that ZRANGE and ZRANGEBYSCORE list, and answer how many; on a key that holds
    no sorted set they answer NotFound and change nothing. *)
Theorem zset_remrange_correct fuel duration now key start stop min max lc rc z e r :
  key_ok key = true -> zengine_ok r -> zset_holds (db_ r) now key z e -> above_lowest z ->
  is_i32 start -> is_i32 stop -> number_score min -> (size z < fuel)%nat ->
  let l := redis_range (ranked z) start stop in
  let l' := ranked_between min max lc rc z in
  if decide (z = ∅) then
    (exists st, ZRemrangebyrank fuel duration now key start stop r = Some ((st, 0), r) /\ status_code st = kNotFound) /\
    (exists st, ZRemrangebyscore fuel duration now key min max lc rc r = Some ((st, 0), r) /\ status_code st = kNotFound)
  else
    (exists r', ZRemrangebyrank fuel duration now key start stop r = Some ((Status_OK, Z.of_nat (length l)), r') /\
       zset_stores now key (zset_without l z) e r r') /\
    (exists r', ZRemrangebyscore fuel duration now key min max lc rc r = Some ((Status_OK, Z.of_nat (length l')), r') /\
       zset_stores now key (zset_without l' z) e r r').
Proof.
  intros K He Hh Hlow H1 H2 Hmin Hf l l'. pose proof He as ([Hdb Hst] & _). destruct (decide (z = ∅)) as [->|Hne].
  - rewrite zset_holds_empty in Hh. destruct (zset_GetBase_unused now key r Hdb Hh) as (st & HG & Hcode).
    unfold ZRemrangebyrank, ZRemrangebyscore. rewrite !(bind_run _ _ _ _ _ HG). split; by exists st.
  - destruct (zset_holds_live _ _ _ _ _ Hne Hh) as (p & Hz & <-). split.
    + by apply (ZRemrangebyrank_live fuel duration now key start stop p).
    + by apply (ZRemrangebyscore_live fuel duration now key min max lc rc p).
Qed.

End ZSetRemove.
