(* ===== verification/ZSetLex.v ===== *)
(** * Sorted sets by member

    ZRANGEBYLEX, ZLEXCOUNT and ZREMRANGEBYLEX walk the member index, by
    increasing member whatever the scores. *)

From Stdlib Require Import Sorting.Sorted.
From stdpp Require Import sorting.
From S2P Require Import Prelude Coding Numbers Glob KeyFormat Comparator Doubles ValueFormat RocksDB LruCache Redis KeySpace BaseData BaseSpec BaseScan BaseHolds BaseWrite Sets ZSets ZSetSpec ZSetWrite ZSetRead ZSetRange ZSetRemove.
Open Scope Z_scope.

(** ** The members in order *)

Section ByMember.

Definition member_sort (z : gmap bytes Z) : list (bytes * Z) :=
  merge_sort (fun x y => bytes_compare (fst x) (fst y) <> Gt) (map_to_list z).

Lemma by_member_sort z : by_member z = prod_swap <$> member_sort z.
Proof. unfold by_member, member_sort. apply list_fmap_ext. by intros ? [??]. Qed.

Lemma member_trans : Transitive (fun x y : bytes * Z => bytes_compare (fst x) (fst y) <> Gt).
Proof.
  intros x y w H1 H2. destruct (bytes_compare (fst y) (fst w)) eqn:E; [by rewrite <- (cmp_eq_r bytes_compare _ _ _ E)| |done].
  by rewrite (cmp_le_lt_trans bytes_compare _ _ _ H1 E).
Qed.

Lemma member_total : Total (fun x y : bytes * Z => bytes_compare (fst x) (fst y) <> Gt).
Proof.
  intros x y. rewrite (cmp_sym (cmp:=bytes_compare) (fst x) (fst y)). destruct (bytes_compare (fst x) (fst y)); [left|left|right]; done.
Qed.

Lemma member_sort_spec z :
  StronglySorted (fun x y => bytes_compare (fst x) (fst y) = Lt) (member_sort z) /\ member_sort z ≡ₚ map_to_list z.
Proof.
  assert (P : member_sort z ≡ₚ map_to_list z) by apply merge_sort_Permutation. split; [|done].
  assert (N : NoDup (member_sort z).*1) by (rewrite P; apply NoDup_fst_map_to_list).
  assert (Hs : StronglySorted (fun x y => bytes_compare (fst x) (fst y) <> Gt) (member_sort z)).
  { apply StronglySorted_merge_sort; [exact member_trans|exact member_total]. }
  clear P. induction Hs as [|x l Hs IH Hx]; [constructor|]. rewrite fmap_cons, NoDup_cons in N. destruct N as [Hn N].
  constructor; [by apply IH|]. rewrite Forall_forall in Hx. apply Forall_forall. intros y Hy. specialize (Hx y Hy).
  destruct (bytes_compare (fst x) (fst y)) eqn:E; try done. apply bytes_compare_eq in E. destruct Hn. rewrite E.
  by apply list_elem_of_fmap_2.
Qed.

Lemma elem_of_by_member z s m : (s, m) ∈ by_member z <-> z !! m = Some s.
Proof.
  destruct (member_sort_spec z) as [_ P]. rewrite by_member_sort, list_elem_of_fmap, <- elem_of_map_to_list. split.
  - intros ([m' s'] & [= -> ->] & H). by rewrite P in H.
  - intros H. exists (m, s). split; [done|]. by rewrite P.
Qed.

Lemma by_member_members z : NoDup (by_member z).*2.
Proof.
  destruct (member_sort_spec z) as [_ P]. rewrite by_member_sort, <- list_fmap_compose.
  assert (E : (snd ∘ prod_swap) <$> member_sort z = (member_sort z).*1) by (apply list_fmap_ext; by intros ? [??]).
  rewrite E, P. apply NoDup_fst_map_to_list.
Qed.

Lemma by_member_length z : length (by_member z) = size z.
Proof.
  destruct (member_sort_spec z) as [_ P]. rewrite by_member_sort, length_fmap, P. apply length_map_to_list.
Qed.

Lemma by_member_sorted z : StronglySorted (fun x y => bytes_compare (snd x) (snd y) = Lt) (by_member z).
Proof.
  destruct (member_sort_spec z) as [Hs _]. rewrite by_member_sort. induction Hs as [|[m s] l Hs IH Hx]; [constructor|].
  rewrite fmap_cons. constructor; [done|]. apply Forall_fmap. eapply Forall_impl; [exact Hx|]. by intros [m' s'].
Qed.

(** The entries of the member index that hold [z]. *)
Lemma member_entries (m : gmap bytes bytes) z fl :
  listing m fl -> user_value <$> m = EncodeFixed64 <$> z ->
  Forall2 (fun x sm => fst x = snd sm /\ user_value (snd x) = EncodeFixed64 (fst sm)) fl (by_member z).
Proof.
  intros Hl E. pose proof (listing_fmap user_value m fl Hl) as H1. rewrite E in H1.
  destruct (member_sort_spec z) as [Hs P]. rewrite by_member_sort.
  assert (H2 : listing (EncodeFixed64 <$> z) ((fun x => (fst x, EncodeFixed64 (snd x))) <$> member_sort z)).
  { split.
    - clear -Hs. induction Hs as [|x l Hs IH Hx]; [constructor|]. rewrite fmap_cons. constructor; [done|]. by apply Forall_fmap.
    - apply map_eq. intros k. apply option_eq. intros v. rewrite <- elem_of_list_to_map.
      2:{ rewrite <- list_fmap_compose. change (NoDup (member_sort z).*1). rewrite P. apply NoDup_fst_map_to_list. }
      rewrite lookup_fmap, fmap_Some, list_elem_of_fmap. setoid_rewrite P. split.
      + intros ([k' s] & [= -> ->] & H). exists s. by apply elem_of_map_to_list in H.
      + intros (s & H & ->). exists (k, s). split; [done|]. by apply elem_of_map_to_list. }
  pose proof (listing_unique _ _ _ H1 H2) as EQ. clear -EQ. revert fl EQ. generalize (member_sort z).
  intros l. induction l as [|[k s] l IH]; intros [|[f v] fl] E; try done. rewrite !fmap_cons in E. injection E as -> E1 E2.
  rewrite fmap_cons. constructor; [done|by apply IH].
Qed.

End ByMember.

(** ** Ranges of members *)

Definition in_lex (min max : bytes) (lc rc : bool) (m : bytes) : bool :=
  lex_left_pass min lc m && lex_right_pass max rc m.

(** The members of [z] in the range, in order, with their scores. *)
Definition lex_between (min max : bytes) (lc rc : bool) (z : gmap bytes Z) : list ScoreMember :=
  filter (fun sm => in_lex min max lc rc (snd sm) = true) (by_member z).

Lemma lex_right_mono max rc a b :
  bytes_compare a b = Lt -> lex_right_pass max rc b = true -> lex_right_pass max rc a = true.
Proof.
  intros Hab. unfold lex_right_pass. destruct (bool_decide _); [done|]. cbn [orb].
  assert (G : bytes_compare max b <> Lt -> bytes_compare max a = Gt).
  { intros H. apply (cmp_Gt_Lt bytes_compare). apply (cmp_lt_le_trans bytes_compare a b); [done|].
    rewrite (cmp_sym (cmp:=bytes_compare) max b). by destruct (bytes_compare max b). }
  destruct rc; cbn [andb negb]; rewrite ?orb_false_r; cbn [orb]; destruct (bytes_compare max b); try done; by rewrite G.
Qed.

Section ZSetLex.
Context {R : RocksDB} {L : RocksDBLaws R} {SL : ScoreLaws R L} {U : Uninit}.

Definition member_entry (key : bytes) (version : Z) (e : entry) (sm : ScoreMember) : Prop :=
  fst e = BaseDataKey_Encode key version (snd sm) /\ stored_score (snd e) = Some (fst sm).

(** A seek to the empty member reaches every member. *)
Lemma Seek_member_all now key p z r :
  key_ok key = true -> healthy (db_ r) -> zset_at (db_ r) now key p z ->
  exists eb ec, ahead_next (Seek (NewIterator (db_ r) kZsetsDataCF) (BaseDataKey_Encode key (piv_version (pbm_base p)) []))
      (eb ++ ec) /\ Forall2 (member_entry key (piv_version (pbm_base p))) eb (by_member z).
Proof.
  intros K Hdb Hz. pose proof (base_coherent_version p (za_coherent _ _ _ _ _ Hz)) as V.
  destruct (za_data _ _ _ _ _ Hz) as (m & Hm & Hu & Hv).
  destruct (Seek_start kZsetsDataCF eq_refl key (piv_version (pbm_base p)) K V (db_ r) m _ [] Hdb Hm (Encode_starts key _ K []))
    as (a & fl1 & fl2 & c & Hl & H1 & _ & _ & Hp & _).
  destruct fl1 as [|x fl1]; [|apply Forall_inv in H1; by destruct (fst x)]. cbn [app] in *.
  exists (entry_of key (piv_version (pbm_base p)) <$> fl2), c. split; [by eexists|].
  pose proof (member_entries m z fl2 Hl Hu) as H2. apply Forall2_fmap_l. destruct Hl as [Hs Hmap].
  assert (Hok : forall x, x ∈ fl2 -> stored_ok (snd x)).
  { intros [f v] Hin. apply (Hv f). rewrite <- Hmap. apply elem_of_list_to_map; [by apply sorted_NoDup|done]. }
  assert (Hnum : forall sm, sm ∈ by_member z -> is_u64 (fst sm)).
  { intros [s f] Hin%elem_of_by_member. by apply (za_numbers _ _ _ _ _ Hz f). }
  clear -H2 Hok Hnum SL. induction H2 as [|x sm fl l [E1 E2] H2 IH]; constructor.
  - split; [unfold entry_of; cbn [fst]; by rewrite E1|]. cbn [entry_of snd].
    apply stored_score_read; [apply Hok|done|apply Hnum]; apply elem_of_cons; by left.
  - apply IH; intros y Hy; [apply Hok|apply Hnum]; apply elem_of_cons; by right.
Qed.

(** What a loop over a range of members ends with. *)
Lemma lex_loop {St X} (obs : St -> X) (idx : St -> Z) (c : St -> bool) body f h min max lc rc fuel now key p z r st :
  key_ok key = true -> healthy (db_ r) -> zset_at (db_ r) now key p z -> (size z < fuel)%nat ->
  (forall st, c st = (idx st <? pbm_count p)) -> idx st = 0 ->
  (forall e sm st, member_entry key (piv_version (pbm_base p)) e sm -> body (fst e) (snd e) st = Some (f sm st)) ->
  (forall sm st, fst (f sm st) = true -> idx (snd (f sm st)) = idx st + 1) ->
  (forall sm st, in_lex min max lc rc (snd sm) = true ->
     fst (f sm st) = fst (h (obs st) sm) /\ obs (snd (f sm st)) = snd (h (obs st) sm) /\ idx (snd (f sm st)) <= idx st + 1) ->
  (forall sm st, in_lex min max lc rc (snd sm) = false -> lex_right_pass max rc (snd sm) = true ->
     fst (f sm st) = true /\ obs (snd (f sm st)) = obs st /\ idx (snd (f sm st)) <= idx st + 1) ->
  (forall sm st, lex_right_pass max rc (snd sm) = false -> f sm st = (false, st)) ->
  exists it' st', iter_while fuel Next (fun _ => c) body
      (Seek (NewIterator (db_ r) kZsetsDataCF) (BaseDataKey_Encode key (piv_version (pbm_base p)) [])) st =
    Some (it', st') /\ obs st' = scan h (obs st) (lex_between min max lc rc z).
Proof.
  intros K Hdb Hz Hf Hc Hi Hbody Hidx Hin Hskip Hoff.
  destruct (Seek_member_all now key p z r K Hdb Hz) as (eb & ec & Ha & H2).
  pose proof (za_count _ _ _ _ _ Hz) as Hcnt. pose proof (by_member_length z) as Hlen.
  assert (Hend : fst (walk c f (by_member z) st) = false).
  { assert (G : forall l st, idx st + Z.of_nat (length l) = pbm_count p -> fst (walk c f l st) = false); [|apply G; lia].
    intros l. induction l as [|sm l IH]; intros st0 H; cbn [walk length] in *; rewrite Hc; [cbn [fst]; apply Z.ltb_ge; lia|].
    destruct (Z.ltb_spec (idx st0) (pbm_count p)); [|done].
    pose proof (Hidx sm st0) as Hx. destruct (f sm st0) as [[] st1]; [|done]. cbn [fst snd] in Hx. apply IH. rewrite Hx by done. lia. }
  destruct (entry_loop (move:=Next) c body f (member_entry key (piv_version (pbm_base p))) (by_member z)
    (Seek (NewIterator (db_ r) kZsetsDataCF) (BaseDataKey_Encode key (piv_version (pbm_base p)) [])) st fuel eb ec)
    as (it' & HL); [done|done|auto|by rewrite Hend|lia|].
  eexists it', _. split; [exact HL|].
  apply (walk_range obs idx (pbm_count p) c f (fun sm => in_lex min max lc rc (snd sm)) (fun sm => lex_right_pass max rc (snd sm)) h);
    [done|by auto|by auto|by auto| | |lia].
  - intros sm _ Hp. by apply andb_true_iff in Hp as [_ ?].
  - pose proof (by_member_sorted z) as Hs. clear -Hs. induction Hs as [|x l Hs IH Hx]; constructor; [done|].
    eapply Forall_impl; [exact Hx|]. intros y Hy. by apply lex_right_mono.
Qed.

Definition lex_step (min max : bytes) (lc rc : bool) (sm : ScoreMember) (st : Z * list bytes) : bool * (Z * list bytes) :=
  let '(i, acc) := st in
  if in_lex min max lc rc (snd sm) then (true, (i + 1, acc ++ [snd sm]))
  else if lex_right_pass max rc (snd sm) then (true, (i + 1, acc)) else (false, st).

Lemma scan_members (l : list ScoreMember) : forall acc, scan (fun acc sm => (true, acc ++ [snd sm])) acc l = acc ++ l.*2.
Proof. induction l as [|x l IH]; intros acc; cbn [scan]; [by rewrite app_nil_r|]. by rewrite IH, <- app_assoc. Qed.

Lemma ZRangebylex_live fuel duration now key min max lc rc p z r :
  key_ok key = true -> zengine_ok r -> zset_at (db_ r) now key p z -> (size z < fuel)%nat ->
  exists r', ZRangebylex fuel duration now key min max lc rc r =
    Some ((Status_OK, (lex_between min max lc rc z).*2), r') /\ same_data r r'.
Proof.
  intros K He Hz Hf. pose proof He as ([Hdb _] & _). destruct (zset_at_base _ _ _ _ _ Hz) as (mm & Hb & Hm).
  destruct (zset_facts _ _ _ _ _ Hz) as (Hn & Hc & V & Hnum). pose proof (base_coherent_version p (za_coherent _ _ _ _ _ Hz)) as Vp.
  unfold ZRangebylex. rewrite (bind_live _ _ _ _ _ _ _ _ Hdb Hb). on_status.
  rewrite (bind_lift _ _ _ _ (base_parse _ (za_coherent _ _ _ _ _ Hz))), (proj1 (base_at_alive _ _ _ _ _ _ _ Hb)).
  rewrite (bind_lift _ _ _ _ (i32_val_id (pbm_count p - 1) ltac:(lia))), bind_gets.
  destruct (lex_loop snd fst (fun '(i, _) => i <=? pbm_count p - 1) (range_lex_body min max lc rc) (lex_step min max lc rc)
    (fun acc sm => (true, acc ++ [snd sm])) min max lc rc fuel now key p z r (0, []) K Hdb Hz Hf) as (it' & [i acc] & HL & Hobs); try done.
  - intros [i acc]. cbn [fst]. apply eq_true_iff_eq. rewrite Z.leb_le, Z.ltb_lt. lia.
  - intros e sm [i acc] [E1 E2]. unfold range_lex_body, lex_step, in_lex. rewrite E1, parse_member by done. cbn [mbind option_bind pdk_data].
    by destruct (lex_left_pass _ _ _), (lex_right_pass _ _ _).
  - intros sm [i acc]. unfold lex_step. destruct (in_lex _ _ _ _ _); [done|]. by destruct (lex_right_pass _ _ _).
  - intros sm [i acc] E. unfold lex_step. rewrite E. cbn [fst snd]. split_and!; [done..|lia].
  - intros sm [i acc] E E'. unfold lex_step. rewrite E, E'. cbn [fst snd]. split_and!; [done..|lia].
  - intros sm [i acc] E. unfold lex_step, in_lex. by rewrite E, andb_false_r.
  - rewrite scan_members in Hobs. cbn [snd app] in Hobs. subst acc. rewrite (bind_lift _ _ _ _ HL). cbv iota.
    destruct (duration_read key duration r He) as (r' & HU & Hs & _). rewrite (bind_run _ _ _ _ _ HU). by exists r'.
Qed.

(** *** Removing *)

Definition rem_lex_step (key : bytes) (version : Z) (min max : bytes) (lc rc : bool) (sm : ScoreMember)
    (st : Z * list WriteOp * Z) : bool * (Z * list WriteOp * Z) :=
  let '(i, b, n) := st in
  if in_lex min max lc rc (snd sm) then (true, (i + 1, b ++ entry_deletes key version sm, n + 1))
  else if lex_right_pass max rc (snd sm) then (true, (i + 1, b, n)) else (false, st).

Lemma lex_between_ranked min max lc rc z :
  NoDup (lex_between min max lc rc z).*2 /\ forall sm, sm ∈ lex_between min max lc rc z -> sm ∈ ranked z.
Proof.
  unfold lex_between. split.
  - apply (sublist_NoDup _ (by_member z).*2); [apply by_member_members|]. apply fmap_sublist, sublist_filter.
  - intros [s m] Hin. apply list_elem_of_filter in Hin as [_ Hin]. by apply ranked_listing, elem_of_by_member.
Qed.

Lemma ZRemrangebylex_live fuel duration now key min max lc rc p z r :
  key_ok key = true -> zengine_ok r -> zset_at (db_ r) now key p z -> (size z < fuel)%nat ->
  let l := lex_between min max lc rc z in
  exists r', ZRemrangebylex fuel duration now key min max lc rc r = Some ((Status_OK, Z.of_nat (length l)), r') /\
    zset_stores now key (zset_without l z) (piv_etime (pbm_base p)) r r'.
Proof.
  intros K He Hz Hf l. pose proof He as ([Hdb _] & _). destruct (zset_at_base _ _ _ _ _ Hz) as (mm & Hb & Hm).
  destruct (zset_facts _ _ _ _ _ Hz) as (Hn & Hc & V & Hnum). unfold ZRemrangebylex. rewrite (bind_live _ _ _ _ _ _ _ _ Hdb Hb). on_status.
  rewrite (bind_lift _ _ _ _ (base_parse _ (za_coherent _ _ _ _ _ Hz))), (proj1 (base_at_alive _ _ _ _ _ _ _ Hb)). cbv zeta.
  rewrite (bind_lift _ _ _ _ (i32_val_id (pbm_count p - 1) ltac:(lia))), bind_gets.
  destruct (lex_loop (fun st => (snd (fst st), snd st)) (fun st => fst (fst st)) (fun '(i, _, _) => i <=? pbm_count p - 1)
    (rem_lex_body key (piv_version (pbm_base p)) min max lc rc) (rem_lex_step key (piv_version (pbm_base p)) min max lc rc)
    (fun '(b, n) sm => (true, (b ++ entry_deletes key (piv_version (pbm_base p)) sm, n + 1)))
    min max lc rc fuel now key p z r (0, [], 0) K Hdb Hz Hf) as (it' & [[i ops] n] & HL & Hobs); try done.
  - intros [[i ops] n]. cbn [fst]. apply eq_true_iff_eq. rewrite Z.leb_le, Z.ltb_lt. lia.
  - intros e sm [[i ops] n] [E1 E2]. unfold rem_lex_body, rem_lex_step, in_lex. rewrite E1, parse_member, E2 by done.
    cbn [mbind option_bind pdk_data]. by destruct (lex_left_pass _ _ _), (lex_right_pass _ _ _).
  - intros sm [[i ops] n]. unfold rem_lex_step. destruct (in_lex _ _ _ _ _); [done|]. by destruct (lex_right_pass _ _ _).
  - intros sm [[i ops] n] E. unfold rem_lex_step. rewrite E. cbn [fst snd]. split_and!; [done..|lia].
  - intros sm [[i ops] n] E E'. unfold rem_lex_step. rewrite E, E'. cbn [fst snd]. split_and!; [done..|lia].
  - intros sm [[i ops] n] E. unfold rem_lex_step, in_lex. by rewrite E, andb_false_r.
  - cbn [fst snd] in Hobs. rewrite scan_removed in Hobs. cbn [app] in Hobs. rewrite Z.add_0_l in Hobs. fold l in Hobs. injection Hobs as -> ->.
    rewrite (bind_lift _ _ _ _ HL). cbv iota. destruct (lex_between_ranked min max lc rc z) as [N Hl]. fold l in N, Hl.
    destruct (duration_read key duration r He) as (r1 & HU & [Hsame _] & Hok). rewrite (bind_run _ _ _ _ _ HU).
    assert (Hst : forall z' e r', zset_stores now key z' e r1 r' -> zset_stores now key z' e r r').
    { intros z' e r' Hs. unfold zset_stores in *. by rewrite Hsame in Hs. }
    rewrite <- Hsame in Hz. destruct (removed_stores now key p z l r1 K Hok Hz N Hl) as [Hck Hw]. destruct (Z.ltb_spec 0 (Z.of_nat (length l))).
    + rewrite checked_count, Hck. cbn [negb].
      destruct (zfinish_stores now key (u32 (Z.of_nat (length l))) _ (Z.of_nat (length l)) _ _ r1 Hw) as (r' & H1 & Hs). exists r'. auto.
    + destruct l as [|x l0]; [|cbn [length] in *; lia]. destruct (live_write now key [] None p 0 z z r1 K Hok Hz) as (r2 & HW & Hs2).
      { constructor. } { rewrite (za_count _ _ _ _ _ Hz). lia. } { pose proof (zset_at_bound _ _ _ _ _ Hz). lia. } { by right. }
      destruct (zfinish_stores now key 0 [] 0 z (piv_etime (pbm_base p)) r1) as (r' & H1 & Hs); [by exists r2|].
      exists r'. split; [done|]. unfold zset_without. rewrite map_filter_id; [by apply Hst|]. intros m s0 _. apply not_elem_of_nil.
Qed.

(** ZRANGEBYLEX lists the members between two bounds by increasing member,
    ZLEXCOUNT counts them, and ZREMRANGEBYLEX removes them from both indices, where
    ["-"] and ["+"] are below and above every member and each other bound is open
    or closed.  On a key that holds no sorted set they answer NotFound. *)
Theorem zset_by_lex_correct fuel duration now key min max lc rc z e r :
  key_ok key = true -> zengine_ok r -> zset_holds (db_ r) now key z e -> (size z < fuel)%nat ->
  let l := lex_between min max lc rc z in
  if decide (z = ∅) then
    (exists st, ZRangebylex fuel duration now key min max lc rc r = Some ((st, []), r) /\ status_code st = kNotFound) /\
    (exists st, ZLexcount fuel duration now key min max lc rc r = Some ((st, 0), r) /\ status_code st = kNotFound) /\
    (exists st, ZRemrangebylex fuel duration now key min max lc rc r = Some ((st, 0), r) /\ status_code st = kNotFound)
  else
    (exists r', ZRangebylex fuel duration now key min max lc rc r = Some ((Status_OK, l.*2), r') /\ same_data r r') /\
    (exists r', ZLexcount fuel duration now key min max lc rc r = Some ((Status_OK, Z.of_nat (length l)), r') /\
       same_data r r') /\
    (exists r', ZRemrangebylex fuel duration now key min max lc rc r = Some ((Status_OK, Z.of_nat (length l)), r') /\
       zset_stores now key (zset_without l z) e r r').
Proof.
  intros K He Hh Hf l. pose proof He as ([Hdb Hst] & _). destruct (decide (z = ∅)) as [->|Hne].
  - assert (H1 : exists st, ZRangebylex fuel duration now key min max lc rc r = Some ((st, []), r) /\ status_code st = kNotFound).
    { rewrite zset_holds_empty in Hh. unfold ZRangebylex. destruct Hh as [[Hg Hfr]|(p & Hd & Hfr)]; [start_gone; by eexists|].
      rewrite (bind_dead _ _ _ _ _ _ _ Hdb Hd). on_status.
      rewrite (bind_lift _ _ _ _ (base_parse _ (da_coherent _ _ _ _ _ _ Hd))), (da_dead _ _ _ _ _ _ Hd). by eexists. }
    split; [done|]. split.
    + destruct H1 as (st & H1 & Hcode). unfold ZLexcount. rewrite (bind_run _ _ _ _ _ H1). by exists st.
    + rewrite zset_holds_empty in Hh. unfold ZRemrangebylex. destruct Hh as [[Hg Hfr]|(p & Hd & Hfr)]; [start_gone; by eexists|].
      rewrite (bind_dead _ _ _ _ _ _ _ Hdb Hd). on_status.
      rewrite (bind_lift _ _ _ _ (base_parse _ (da_coherent _ _ _ _ _ _ Hd))), (da_dead _ _ _ _ _ _ Hd). by eexists.
  - destruct (zset_holds_live _ _ _ _ _ Hne Hh) as (p & Hz & <-).
    destruct (ZRangebylex_live fuel duration now key min max lc rc p z r K He Hz Hf) as (r' & H1 & Hs). split; [by exists r'|]. split.
    + unfold ZLexcount. rewrite (bind_run _ _ _ _ _ H1). exists r'. split; [|done]. unfold ret. fold l. rewrite length_fmap, i32_id; [done|].
      pose proof (zset_at_bound _ _ _ _ _ Hz). assert (length l <= size z)%nat; [|unfold ScoreMember, is_i32 in *; lia].
      rewrite <- by_member_length. apply sublist_length, sublist_filter.
    + by apply (ZRemrangebylex_live fuel duration now key min max lc rc p).
Qed.

End ZSetLex.
