(* ===== verification/ZSetKey.v ===== *)
(** * Keys that hold sorted sets

    ZSCORE, ZCARD, ZSCAN and the commands on the key of a sorted set; what time
    and the commands on other keys leave; and the invariant that both indices of
    every sorted set agree in every state the commands reach. *)

From Stdlib Require Import Sorting.Sorted.
From S2P Require Import Prelude Coding Numbers Glob KeyFormat Comparator Doubles ValueFormat RocksDB LruCache Redis KeySpace Random BaseData BaseSpec BaseScan BaseHolds BaseWrite BaseCursor Sets ZSets ZSetSpec ZSetWrite ZSetRead ZSetRange ZSetRemove ZSetLex.
Open Scope Z_scope.

Section ZSetKey.
Context {R : RocksDB} {L : RocksDBLaws R} {SL : ScoreLaws R L} {U : Uninit}.

(** ** Time *)

Lemma stale_later now now' e : now <= now' -> stale now e = true -> stale now' e = true.
Proof. unfold stale. rewrite !andb_true_iff, !Z.ltb_lt. intros H [? ?]. split; [done|lia]. Qed.

Lemma expected_later now now' mv : now <= now' -> ExpectedStale now mv = Some true -> ExpectedStale now' mv = Some true.
Proof.
  intros Hle. assert (G : forall p, IsStale now p = true -> IsStale now' p = true).
  { intros p. rewrite !IsStale_stale. by apply stale_later. }
  unfold ExpectedStale. destruct (GetMetaValueType mv); try done; [intros [= H]; by rewrite G|..].
  all: match goal with |- (_ ← ?o; _) = _ -> _ => destruct o as [p|]; [|done] end; cbn; intros [= [H|H]%orb_true_iff].
  all: solve [by rewrite G|by rewrite H, orb_true_r].
Qed.

(** A sorted set whose time has come is none. *)
Lemma zset_expired db now now' key p z :
  zset_at db now key p z -> IsStale now' (pbm_base p) = true -> zset_unused db now' key.
Proof.
  intros Hz Hs. right. exists p. split; [|apply Hz]. constructor; [apply Hz..| |apply Hz].
  unfold base_dead. by rewrite Hs.
Qed.

(** What a key holds at [now] of what it held before. *)
Definition zvisible (now : Z) (z : gmap bytes Z) (e : Z) : gmap bytes Z := if stale now e then ∅ else z.

Lemma zset_holds_later db now now' key z e :
  now <= now' -> clock_ok now -> zset_holds db now key z e -> zset_holds db now' key (zvisible now' z e) e.
Proof.
  intros Hle Hnow Hh. unfold zvisible. destruct (decide (z = ∅)) as [->|Hne].
  - replace (if stale now' e then ∅ else ∅) with (∅ : gmap bytes Z) by (by destruct (stale now' e)).
    rewrite zset_holds_empty in *. destruct Hh as [[Hg Hf]|(p & Hd & Hf)].
    + left. split.
      * destruct Hg as [Hg|(mv & H1 & H2 & H3)]; [by left|right]. exists mv. split_and!; [done..|by eapply expected_later].
      * assert (next_version now 0 <= next_version now' 0).
        { unfold next_version, clock_ok in *. destruct (Z.leb_spec now 0), (Z.leb_spec now' 0); rewrite ?u64_id by (unfold is_u64; lia); lia. }
        destruct Hf as [H1 H2]. split; intros v Hv Vv; [apply H1|apply H2]; try done; lia.
    + right. exists p. split; [|done]. destruct Hd as [D1 D2 D3 D4 D5]. constructor; try done.
      unfold base_dead in *. apply orb_true_iff in D4 as [D4|D4]; [|by rewrite D4, orb_true_r].
      rewrite IsStale_stale in *. by rewrite (stale_later now now').
  - destruct (zset_holds_live _ _ _ _ _ Hne Hh) as (p & Hz & <-). destruct (stale now' (piv_etime (pbm_base p))) eqn:Es.
    + rewrite zset_holds_empty. eapply zset_expired; [done|]. by rewrite IsStale_stale.
    + apply zset_at_holds. destruct Hz. constructor; try done. by rewrite IsStale_stale.
Qed.

(** ** Other keys *)

Lemma zset_others_fresh key key' db db' v :
  zset_others key db db' -> key_ok key' = true -> key' <> key -> 0 <= v -> zfresh_from db key' v -> zfresh_from db' key' v.
Proof.
  intros [(_ & Hm & _) Hs] K N H0 [H1 H2]. split.
  - intros w Hw Vw. apply Hm; auto.
  - intros w Hw Vw s m Us Ns. rewrite (Hs (mkSkey key' w s m)); [by apply H2|done|done].
Qed.

(** A command on one key leaves what the others hold. *)
Lemma zset_others_holds key key' db db' now z e :
  zset_others key db db' -> key_ok key' = true -> key' <> key -> clock_ok now ->
  zset_holds db now key' z e -> zset_holds db' now key' z e.
Proof.
  intros Ho K N Hnow Hh. pose proof Ho as [(Hmeta & Hm & _) Hs]. specialize (Hmeta key' K N).
  assert (F : forall v, 0 <= v -> zfresh_from db key' v -> zfresh_from db' key' v) by (intros; by eapply zset_others_fresh).
  assert (Vp : forall p, base_meta_coherent p -> 0 <= piv_version (pbm_base p) + 1).
  { intros p Hp. pose proof (base_coherent_version p Hp) as V. unfold is_u64 in V. lia. }
  destruct (decide (z = ∅)) as [->|Hne].
  - rewrite zset_holds_empty in *. destruct Hh as [[Hg Hf]|(p & Hd & Hf)].
    + left. split; [|apply F; [apply next_version_u64, clock_u64, Hnow|done]].
      destruct Hg as [Hg|(mv & H1 & H2 & H3)]; [left|right; exists mv]; by rewrite Hmeta.
    + right. exists p. destruct Hd as [D1 D2 D3 D4 D5]. apply F in Hf; [|by apply Vp].
      split; [|done]. constructor; try done; [by rewrite Hmeta|apply Hf].
  - destruct (zset_holds_live _ _ _ _ _ Hne Hh) as (p & [H1 H2 H3 H4 H5 H6 H7 (m0 & M1 & M2 & M3) H9 H10] & <-).
    apply zset_at_holds. constructor; try done; [by rewrite Hmeta| | |apply F; [by apply Vp|done]].
    + exists m0. split; [|done]. apply Hm; try done. by apply base_coherent_version.
    + intros s m Us Ns. rewrite (Hs (mkSkey key' (piv_version (pbm_base p)) s m)); [by apply H9| |done].
      split_and!; try done; by apply base_coherent_version.
Qed.

(** ** Commands on the key *)

(** Starting the key again without members. *)
Lemma zset_reset now key p z r e :
  key_ok key = true -> clock_ok now -> zengine_ok r -> zset_at (db_ r) now key p z -> version_room (db_ r) key ->
  exists r', Write [put_base_meta key (ParsedBaseMetaValue_InitialMetaValue now p)] r = Some (Status_OK, r') /\
    zset_stores now key ∅ e r r'.
Proof.
  intros K Hnow He Hz Hroom. pose proof (za_coherent _ _ _ _ _ Hz) as Hc.
  pose proof (base_coherent_version p Hc) as V. unfold is_u64 in V.
  assert (Hv : piv_version (pbm_base p) < 2 ^ 64 - 1) by (apply Hroom; [apply Hz|done]).
  destruct (next_version_gt now (piv_version (pbm_base p)) ltac:(lia)) as [Hgt _].
  destruct (revived_meta now p 0 Hnow Hc ltac:(lia)) as (_ & _ & _ & E & _ & E').
  remember (ParsedBaseMetaValue_InitialMetaValue now p) as q eqn:Eq.
  assert (Hq : base_meta_coherent q) by (rewrite Eq; apply base_InitialMetaValue_coherent; [by apply clock_u64|done]).
  assert (Hver : piv_version (pbm_base q) = next_version now (piv_version (pbm_base p))) by congruence.
  destruct (za_fresh _ _ _ _ _ Hz) as [F1 F2].
  destruct (fresh_data (db_ r) key _ (piv_version (pbm_base q)) (conj F1 F2)) as [D1 D2];
    [lia|rewrite Hver; by apply next_version_u64, clock_u64|].
  destruct (zset_write now now key [put_base_meta key q] (Some (piv_data (pbm_base q))) q ∅ ∅ r) as (r' & HW & Hs); try done.
  - apply starts_with_meta, zs_nil.
  - rewrite Eq. apply (za_type _ _ _ _ _ Hz).
  - by left.
  - by rewrite map_size_empty, Eq.
  - split; intros v H1 H2; [apply F1|apply F2]; try done; lia.
  - exists r'. split; [done|]. destruct Hs as (? & Hh & ?). split_and!; [done| |done]. by rewrite zset_holds_empty in *.
Qed.

(** Setting the time at which it expires. *)
Lemma zset_set_etime now key p z r t :
  key_ok key = true -> zengine_ok r -> zset_at (db_ r) now key p z -> 0 <= t < 2 ^ 63 ->
  exists r', Write [put_base_meta key (ParsedBaseMetaValue_SetEtime p t)] r = Some (Status_OK, r') /\
    zset_stores now key (zvisible now z t) t r r'.
Proof.
  intros K He Hz Ht. remember (ParsedBaseMetaValue_SetEtime p t) as q eqn:Eq.
  assert (Hc : base_meta_coherent q) by (pose proof (za_coherent _ _ _ _ _ Hz); rewrite Eq; auto with coherent).
  assert (Hs : IsStale t (pbm_base q) = false).
  { rewrite IsStale_stale. unfold stale. rewrite Eq. simpl. rewrite Z.ltb_irrefl. apply andb_false_r. }
  destruct (zset_write t now key [put_base_meta key q] (Some (piv_data (pbm_base q))) q z z r) as (r' & HW & (H1 & H2 & H3)); try done;
    try (rewrite Eq; apply Hz).
  - apply starts_with_meta, zs_nil.
  - by right.
  - apply Hz.
  - exists r'. split; [done|]. split; [done|]. split; [|done].
    assert (Et : piv_etime (pbm_base q) = t) by by rewrite Eq. rewrite Et in H2.
    destruct (zset_holds_live _ _ _ _ _ (za_some _ _ _ _ _ Hz) H2) as (p' & Hz' & Ep').
    unfold zvisible. destruct (stale now t) eqn:Es.
    + rewrite zset_holds_empty. eapply zset_expired; [done|]. by rewrite IsStale_stale, Ep'.
    + rewrite <- Ep'. apply zset_at_holds. destruct Hz'. constructor; try done. by rewrite IsStale_stale, Ep'.
Qed.

Lemma zthen_statistics {A} now key z e count r r1 (k : M A) a :
  zset_stores now key z e r r1 -> (forall r2, k r2 = Some (a, r2)) ->
  exists r', bind (UpdateSpecificKeyStatistics kZSets key count) (fun _ => k) r1 = Some (a, r') /\ zset_stores now key z e r r'.
Proof.
  intros Hst Hk. destruct (UpdateSpecificKeyStatistics_ok kZSets key count r1) as (r2 & H2 & Hs & Hok); [done|apply Hst|].
  exists r2. rewrite (bind_run _ _ _ _ _ H2). split; [apply Hk|by eapply zset_stores_same].
Qed.

Lemma GetMetaZSet_live now key p z r :
  healthy (db_ r) -> zset_at (db_ r) now key p z ->
  GetMetaZSet now key r = Some (inr (Status_OK, piv_data (pbm_base p)), r).
Proof.
  intros Hdb Hz. unfold GetMetaZSet. rewrite Get_lookup by done. pose proof (za_meta _ _ _ _ _ Hz) as Hmeta. unfold meta_of in Hmeta.
  rewrite Hmeta. unfold ExpectedMetaValue. rewrite (bool_decide_eq_true_2 (kZSets = _)); [done|].
  symmetry. by apply coherent_meta_type; [apply Hz|apply Hz].
Qed.

(** The four commands that write, on a sorted set that exists. *)
Section KeyWrites.
Context (now : Z) (key pm : bytes) (p : ParsedBaseMetaValue) (z : gmap bytes Z) (r : Redis).
Context (K : key_ok key = true) (Hnow : clock_ok now) (He : zengine_ok r) (Hz : zset_at (db_ r) now key p z).
Context (Hpm : prefetched (db_ r) key pm) (Hroom : version_room (db_ r) key).

Lemma bind_zset_key {A} shadow (f : Status + ParsedBaseMetaValue -> M A) :
  bind (GetBaseOrPrefetched now kZSets key pm shadow) f r = f (inr p) r.
Proof.
  destruct (zset_at_base _ _ _ _ _ Hz) as (mm & Hb & _).
  exact (bind_base kZSets kZsetsDataCF now key pm shadow p mm r f (proj1 (proj1 He)) Hb Hpm).
Qed.

Lemma ZsetsDel_live : exists r', ZsetsDel now key pm r = Some (Status_OK, r') /\ zset_stores now key ∅ 0 r r'.
Proof.
  unfold ZsetsDel, BaseDel. rewrite bind_zset_key. cbv zeta.
  destruct (zset_reset now key p z r 0 K Hnow He Hz Hroom) as (r1 & HW & Hs). rewrite (bind_run _ _ _ _ _ HW). by apply zthen_statistics.
Qed.

Lemma ZsetsExpire_live ttl : now + ttl < 2 ^ 63 ->
  exists r', ZsetsExpire now key ttl pm r = Some (Status_OK, r') /\
    zset_stores now key (if 0 <? ttl then z else ∅) (now + ttl) r r'.
Proof.
  intros Ht. unfold ZsetsExpire, BaseExpire. rewrite bind_zset_key. unfold clock_ok in Hnow.
  destruct (Z.ltb_spec 0 ttl); [|by apply (zset_reset now key p z)]. unfold ParsedBaseMetaValue_SetRelativeTimestamp.
  rewrite u64_id by (unfold is_u64; lia). destruct (zset_set_etime now key p z r (now + ttl) K He Hz ltac:(lia)) as (r1 & HW & Hs).
  exists r1. split; [done|]. unfold zvisible in Hs.
  assert (Es : stale now (now + ttl) = false) by (unfold stale; rewrite (proj2 (Z.ltb_ge _ _)) by lia; apply andb_false_r).
  by rewrite Es in Hs.
Qed.

Lemma ZsetsExpireat_live t : is_i64 t ->
  exists r', ZsetsExpireat now key t pm r = Some (Status_OK, r') /\
    zset_stores now key (if 0 <? t then zvisible now z t else ∅) t r r'.
Proof.
  intros Ht. unfold ZsetsExpireat, BaseExpireat, is_i64 in *. rewrite bind_zset_key. cbv zeta.
  destruct (Z.ltb_spec 0 t); [|by apply (zset_reset now key p z)]. rewrite u64_id by (unfold is_u64; lia).
  by apply (zset_set_etime now key p z); [..|lia].
Qed.

Lemma ZsetsPersist_live :
  if piv_etime (pbm_base p) =? 0
  then ZsetsPersist now key pm r = Some (Status_NotFound (lit "Not have an associated timeout"), r)
  else exists r', ZsetsPersist now key pm r = Some (Status_OK, r') /\ zset_stores now key z 0 r r'.
Proof.
  unfold ZsetsPersist, BasePersist. destruct (piv_etime (pbm_base p) =? 0) eqn:E; rewrite bind_zset_key, E; [done|].
  by apply (zset_set_etime now key p z r 0).
Qed.

End KeyWrites.

(** The commands on the key of a sorted set that exists: ZSCORE answers the
    score of a member, ZCARD the number of members and TTL the time left; DEL and
    a time to live that is not positive leave no sorted set, EXPIRE and EXPIREAT
    set the time from which there is none, and PERSIST clears it. *)
Theorem zset_key_correct now key pm z e r :
  key_ok key = true -> clock_ok now -> zengine_ok r -> zset_holds (db_ r) now key z e -> z <> ∅ ->
  prefetched (db_ r) key pm -> is_i64 e -> version_room (db_ r) key ->
  (forall m, ZScore now key m r =
     Some (match z !! m with Some s => (Status_OK, s) | None => (Status_NotFound (lit "Invalid member"), 0) end, r)) /\
  ZCard now key pm r = Some ((Status_OK, Z.of_nat (size z)), r) /\
  ZsetsTTL now key pm r = Some ((Status_OK, if e =? 0 then -1 else e - now), r) /\
  (exists r', ZsetsDel now key pm r = Some (Status_OK, r') /\ zset_stores now key ∅ 0 r r') /\
  (forall ttl, now + ttl < 2 ^ 63 ->
     exists r', ZsetsExpire now key ttl pm r = Some (Status_OK, r') /\
       zset_stores now key (if 0 <? ttl then z else ∅) (now + ttl) r r') /\
  (forall t, is_i64 t ->
     exists r', ZsetsExpireat now key t pm r = Some (Status_OK, r') /\
       zset_stores now key (if 0 <? t then zvisible now z t else ∅) t r r') /\
  (if e =? 0 then ZsetsPersist now key pm r = Some (Status_NotFound (lit "Not have an associated timeout"), r)
   else exists r', ZsetsPersist now key pm r = Some (Status_OK, r') /\ zset_stores now key z 0 r r').
Proof.
  intros K Hnow He Hh Hne Hpm Hi Hroom. pose proof He as ([Hdb Hst] & _).
  destruct (zset_holds_live _ _ _ _ _ Hne Hh) as (p & Hz & <-). destruct (zset_at_base _ _ _ _ _ Hz) as (mm & Hb & Hm).
  pose proof (base_parse p (za_coherent _ _ _ _ _ Hz)) as Hparse. destruct (base_at_alive _ _ _ _ _ _ _ Hb) as [_ Halive].
  split_and!.
  - intros m. unfold ZScore. rewrite (bind_run _ _ _ _ _ (GetMetaZSet_live now key p z r Hdb Hz)). on_status. rewrite (bind_lift _ _ _ _ Hparse), Halive.
    pose proof (zset_Get now key p z r m Hdb Hz) as HG. destruct (z !! m) as [s|].
    + destruct HG as (v & HG & Hv). rewrite (bind_run _ _ _ _ _ HG). on_status. by rewrite (bind_lift _ _ _ _ Hv).
    + rewrite (bind_run _ _ _ _ _ HG). by on_status.
  - unfold ZCard, BaseCard. rewrite (bind_base_meta _ _ now key pm p mm r _ Hdb Hb Hpm). on_status.
    rewrite (bind_lift _ _ _ _ Hparse), Halive. by rewrite (za_count _ _ _ _ _ Hz).
  - unfold ZsetsTTL, BaseTTL. rewrite (bind_base_meta _ _ now key pm p mm r _ Hdb Hb Hpm). on_status.
    rewrite (bind_lift _ _ _ _ Hparse), Halive. by rewrite (base_at_etime _ _ now key p mm _ Hnow Hb Hi).
  - by apply (ZsetsDel_live now key pm p z r).
  - intros ttl Ht. by apply (ZsetsExpire_live now key pm p z r).
  - intros t Ht. by apply (ZsetsExpireat_live now key pm p z r).
  - by apply (ZsetsPersist_live now key pm p z r).
Qed.

(** ** [ZScan] *)

Definition score_view (member value : bytes) : bytes * bytes := (value, member).

(** A client that starts at cursor 0 and goes on from the cursor each call
    returns until that is 0. *)
Fixpoint zset_cursor_all (rounds fuel : nat) (duration now : Z) (key pattern : bytes) (count cursor : Z)
    (acc : list ScoreMember) : M (list ScoreMember) :=
  match rounds with
  | O => fun _ => None
  | S rounds =>
      let* '(_, members, next) := ZScan fuel duration now key cursor pattern count in
      if next =? 0 then ret (acc ++ members)
      else zset_cursor_all rounds fuel duration now key pattern count next (acc ++ members)
  end.

Definition read_pair (x : bytes * bytes) : option (Z * bytes) := score ← read_score (fst x); Some (score, snd x).

Lemma cursor_all_scores rounds : forall fuel duration now key pattern count cursor acc (acc' : list (Z * bytes)) r res (res' : list (Z * bytes)) r',
  cursor_all kZSets kZsetsDataCF BaseDataKey_Encode score_view rounds fuel duration now key pattern count cursor acc r = Some (res, r') ->
  mapM read_pair acc = Some acc' -> mapM read_pair res = Some res' ->
  zset_cursor_all rounds fuel duration now key pattern count cursor acc' r = Some (res', r').
Proof.
  induction rounds as [|rounds IH]; intros fuel duration now key pattern count cursor acc acc' r res res' r' H Ha Hres; [done|].
  cbn [cursor_all zset_cursor_all] in *. unfold ZScan. fold score_view.
  unfold bind in *. change (fun member value : bytes => (value, member)) with score_view.
  destruct (BaseScan _ _ _ _ _ _ _ _ _ _ _ r) as [[[[s ms] next] r1]|] eqn:E; [|done].
  change (fun x : bytes * bytes => read_score (fst x) ≫= (fun score : Z => Some (score, snd x))) with read_pair.
  assert (Hms : exists ms', mapM read_pair ms = Some ms' /\ mapM read_pair (acc ++ ms) = Some (acc' ++ ms')).
  { assert (Hpre : exists rest, res = (acc ++ ms) ++ rest).
    { clear -H. destruct (next =? 0); [injection H as <- _; exists []; by rewrite app_nil_r|].
      revert H. generalize (acc ++ ms) next r1. clear. induction rounds as [|rounds IH]; intros a n r H; [done|].
      cbn [cursor_all] in H. unfold bind in H. destruct (BaseScan _ _ _ _ _ _ _ _ _ _ _ r) as [[[[s ms] next] r1]|]; [|done].
      destruct (next =? 0); [injection H as <- _; by exists ms|]. apply IH in H as (rest & ->). exists (ms ++ rest). by rewrite app_assoc. }
    destruct Hpre as (rest & ->). apply mapM_Some in Hres. apply Forall2_app_inv_l in Hres as (l1 & l2 & H1 & _ & _).
    apply Forall2_app_inv_l in H1 as (l3 & l4 & H3 & H4 & ->). apply mapM_Some in H3. apply mapM_Some in H4 as H4'.
    exists l4. split; [done|]. apply mapM_Some. apply Forall2_app; [|done]. apply mapM_Some. congruence. }
  destruct Hms as (ms' & Hm1 & Hm2). unfold lift. rewrite Hm1. cbn. destruct (next =? 0).
  - unfold ret in *. injection H as <- <-. rewrite Hm2 in Hres. by injection Hres as <-.
  - by eapply IH.
Qed.

Lemma selected_sublist ts l : selected ts l `sublist_of` l.
Proof. apply sublist_filter. Qed.

Lemma read_views (l : list (bytes * bytes)) :
  (forall x, x ∈ l -> exists s, is_u64 s /\ snd x = EncodeFixed64 s) ->
  exists found, mapM read_pair (views score_view l) = Some found /\
    (fun sm => (snd sm, EncodeFixed64 (fst sm))) <$> found = l.
Proof.
  induction l as [|[m v] l IH]; intros Hx; [by exists []|].
  destruct IH as (found & H1 & H2); [intros x Hin; apply Hx, elem_of_cons; by right|].
  destruct (Hx (m, v)) as (s & Hs & Ev); [apply elem_of_cons; by left|]. simpl in Ev. subst v.
  exists ((s, m) :: found). rewrite fmap_cons, H2. split; [|done]. unfold views in *. rewrite fmap_cons. cbn [mapM].
  assert (Er : read_pair (score_view m (EncodeFixed64 s)) = Some (s, m)).
  { unfold read_pair, score_view, read_score. cbn [fst snd]. rewrite length_EncodeFixed64. cbn [Nat.ltb Nat.leb].
    by rewrite DecodeFixed64_EncodeFixed64, u64_id. }
  cbn [fst snd]. by rewrite H1, Er.
Qed.

(** A client that calls ZSCAN with a positive count from cursor 0 until it gets
    cursor 0 again, while no other scan uses the cache of cursors, finishes within
    as many calls as the sorted set has members, plus one, and has then received
    every matching member exactly once, with its score, by increasing member. *)
Theorem ZScan_complete fuel duration now key pattern ts count z e c r :
  key_ok key = true -> zengine_ok r -> zset_holds (db_ r) now key z e -> z <> ∅ ->
  represents (scan_cursors_store_ r) c -> 1 <= c_capacity c ->
  find_key (cursor_key kZSets key pattern 0) (c_entries c) = None ->
  tokens pattern = Some ts -> ~ escaped_tail pattern -> x00 ∉ pattern ->
  let l := (fun sm => (snd sm, EncodeFixed64 (fst sm))) <$> by_member z in
  scannable ts l -> 0 < count -> count * (Z.of_nat (size z) + 1) < 2 ^ 63 ->
  (length (content (db_ r) kZsetsDataCF) < fuel)%nat ->
  exists r' found, zset_cursor_all (S (size z)) fuel duration now key pattern count 0 [] r = Some (found, r') /\
    db_ r' = db_ r /\ (fun sm => (snd sm, EncodeFixed64 (fst sm))) <$> found = selected ts l.
Proof.
  intros K He Hh Hne Hr Hcap H0 Ht Hbs Hz l Hm Hc Hlt Hfuel.
  destruct (zset_holds_live _ _ _ _ _ Hne Hh) as (p & Hza & <-). destruct (zset_at_base _ _ _ _ _ Hza) as (mm & Hb & Hmm).
  destruct (Seek_prefix kZsetsDataCF eq_refl key _ K (base_coherent_version p (za_coherent _ _ _ _ _ Hza)) (db_ r) mm (proj1 (proj1 He))
    (ba_members _ _ _ _ _ _ _ Hb)) as (_ & fl & _ & Hl & _).
  pose proof (listing_fmap user_value mm fl Hl) as Hl'. rewrite Hmm in Hl'.
  assert (El : (fun x => (fst x, user_value (snd x))) <$> fl = l).
  { pose proof (member_entries mm z fl Hl Hmm) as H2. unfold l. clear -H2. induction H2 as [|x sm fl zl [E1 E2] H2 IH]; [done|].
    rewrite !fmap_cons, IH. by rewrite E1, E2. }
  rewrite El in Hl'. assert (Esz : size (EncodeFixed64 <$> z) = size z) by by rewrite map_size_fmap.
  destruct (BaseScan_complete kZSets kZsetsDataCF eq_refl eq_refl BaseDataKey_Encode score_view (fun _ => True)
    (fun key version start K V _ => Encode_starts key version K start) fuel duration now key pattern ts count
    (EncodeFixed64 <$> z) (piv_etime (pbm_base p)) l c r) as (r' & HS & Hdb); try done; try (by rewrite ?Esz).
  - apply He.
  - unfold base_holds. rewrite decide_False by (intros E; apply Hne; by apply fmap_empty_inv in E). exists p, mm. done.
  - intros E. apply Hne. by apply fmap_empty_inv in E.
  - by apply Forall_true.
  - rewrite Esz in HS.
    destruct (read_views (selected ts l)) as (found & H1 & H2).
    { intros x Hin. eapply elem_of_sublist in Hin; [|apply selected_sublist]. unfold l in Hin.
      apply list_elem_of_fmap in Hin as ([s m] & -> & Hin). exists s. split; [|done].
      apply elem_of_by_member in Hin. by apply (za_numbers _ _ _ _ _ Hza m). }
    exists r', found. split; [|done]. by eapply cursor_all_scores.
Qed.

End ZSetKey.
