(* ===== verification/ZSetStore.v ===== *)
(** * ZUNIONSTORE, ZINTERSTORE and reading whole sorted sets

    The scores the commands that combine sorted sets compute, and what they
    leave at the destination. *)

From Stdlib Require Import Sorting.Sorted.
From S2P Require Import Prelude Coding Numbers Glob KeyFormat Comparator Doubles ValueFormat RocksDB LruCache Redis KeySpace BaseData BaseSpec BaseScan BaseHolds BaseWrite Sets ZSets ZSetSpec ZSetWrite ZSetRead ZSetRange ZSetRemove ZSetLex ZSetKey.
Open Scope Z_scope.

(** ** What is computed *)

(** One sorted set joins the scores collected so far. *)
Definition join_score (agg : AGGREGATE) (weight : Z) (old new : option Z) : option Z :=
  match new with
  | None => old
  | Some s =>
      let weighted := double_mul weight s in
      Some (no_negative_zero (match old with None => weighted | Some o => aggregate agg o weighted end))
  end.
Definition join_zset (agg : AGGREGATE) (weight : Z) (acc z : gmap bytes Z) : gmap bytes Z :=
  merge (join_score agg weight) acc z.

Fixpoint zset_union (agg : AGGREGATE) (weights : list Z) (idx : nat) (zs : list (gmap bytes Z)) (acc : gmap bytes Z)
    : gmap bytes Z :=
  match zs with
  | [] => acc
  | z :: zs => zset_union agg weights (S idx) zs (join_zset agg (weight_at weights idx) acc z)
  end.

(** The same for one member. *)
Fixpoint union_value (agg : AGGREGATE) (weights : list Z) (idx : nat) (zs : list (gmap bytes Z)) (m : bytes) (acc : option Z)
    : option Z :=
  match zs with
  | [] => acc
  | z :: zs => union_value agg weights (S idx) zs m (join_score agg (weight_at weights idx) acc (z !! m))
  end.

Lemma zset_union_lookup agg weights zs m : forall idx acc,
  zset_union agg weights idx zs acc !! m = union_value agg weights idx zs m (acc !! m).
Proof.
  induction zs as [|z zs IH]; intros idx acc; [done|]. cbn [zset_union union_value]. rewrite IH. f_equal.
  unfold join_zset. rewrite lookup_merge. unfold diag_None, join_score. by destruct (acc !! m), (z !! m).
Qed.

(** The score of a member all of [zs] have. *)
Fixpoint inter_value (agg : AGGREGATE) (weights : list Z) (idx : nat) (zs : list (gmap bytes Z)) (m : bytes) (score : Z)
    : option Z :=
  match zs with
  | [] => Some score
  | z :: zs =>
      match z !! m with
      | Some s => inter_value agg weights (S idx) zs m (aggregate agg score (double_mul (weight_at weights idx) s))
      | None => None
      end
  end.

(** The pairs of the intersection, in the order of the first one. *)
Definition zset_inter (agg : AGGREGATE) (weights : list Z) (zs : list (gmap bytes Z)) : list ScoreMember :=
  match zs with
  | [] => []
  | z :: zs =>
      omap (fun sm => s ← inter_value agg weights 1 zs (snd sm) (double_mul (fst sm) (weight_at weights 0)); Some (s, snd sm))
        (ranked z)
  end.


Lemma add_scores_elem (l : list ScoreMember) s m : NoDup l.*2 -> add_scores l ∅ !! m = Some s <-> (s, m) ∈ l.
Proof.
  intros N. destruct (decide (m ∈ l.*2)) as [Hin|Hin].
  - apply list_elem_of_fmap in Hin as ([s' m'] & -> & Hin). cbn [snd]. rewrite (add_scores_in l ∅ s' m' N Hin), lookup_empty.
    cbn [new_score]. split; [by intros [= <-]|]. intros H. f_equal. apply list_elem_of_lookup in Hin as (i & Hi), H as (j & Hj).
    assert (i = j) as <-; [|congruence]. apply (NoDup_lookup _ i j m' N); rewrite list_lookup_fmap; [by rewrite Hi|by rewrite Hj].
  - rewrite add_scores_other, lookup_empty by done. split; [done|]. intros H. destruct Hin. apply (list_elem_of_fmap_2 snd l (s, m) H).
Qed.

Section ZSetStore.
Context {R : RocksDB} {L : RocksDBLaws R} {SL : ScoreLaws R L} {U : Uninit}.

(** ** The loops over a whole sorted set *)

(** A fold over the pairs that goes member by member. *)
Lemma fold_members_map (step : option Z -> Z -> Z) (l : list ScoreMember) : forall (acc : gmap bytes Z) m,
  NoDup l.*2 ->
  fold_left (fun (acc : gmap bytes Z) (sm : ScoreMember) => <[snd sm := step (acc !! snd sm) (fst sm)]> acc) l acc !! m =
  match add_scores l ∅ !! m with Some s => Some (step (acc !! m) s) | None => acc !! m end.
Proof.
  induction l as [|[s m0] l IH]; intros acc m N; [by simpl; rewrite lookup_empty|]. pose proof N as N0.
  rewrite fmap_cons, NoDup_cons in N. destruct N as [Hn N]. cbn [fold_left fst snd] in *. rewrite (IH _ _ N).
  destruct (decide (m = m0)) as [->|Hm].
  - rewrite (add_scores_other l ∅ m0 Hn), lookup_empty, lookup_insert_eq.
    assert (E : add_scores ((s, m0) :: l) ∅ !! m0 = Some s) by (apply add_scores_elem; [done|apply elem_of_cons; by left]).
    unfold ScoreMember in *. by rewrite E.
  - rewrite lookup_insert_ne by done. assert (E : add_scores ((s, m0) :: l) ∅ !! m = add_scores l ∅ !! m); [|unfold ScoreMember in *; by rewrite E].
    apply option_eq. intros s'. rewrite !add_scores_elem by done. rewrite elem_of_cons. naive_solver.
Qed.

Lemma ranked_lookup z m : add_scores (ranked z) ∅ !! m = z !! m.
Proof.
  apply option_eq. intros s. rewrite add_scores_elem by apply (zlisting_members _ _ (ranked_listing z)). apply ranked_listing.
Qed.

(** Every pair of a live sorted set, with a counter. *)
Lemma whole_loop {St} (body : bytes -> bytes -> Z * St -> option (bool * (Z * St))) (g : St -> ScoreMember -> St)
    fuel now key p z r st :
  key_ok key = true -> zengine_ok r -> zset_at (db_ r) now key p z -> above_lowest z -> (size z < fuel)%nat ->
  (forall sm v i st, sm ∈ ranked z ->
     body (sm_enc key (piv_version (pbm_base p)) sm) v (i, st) = Some (true, (i + 1, g st sm))) ->
  exists it' i', iter_while fuel Next (fun _ '(cur_index, _) => cur_index <=? pbm_count p - 1) body
      (Seek (NewIterator (db_ r) kZsetsScoreCF) (ZSetsScoreKey_Encode key (piv_version (pbm_base p)) double_lowest [])) (0, st) =
    Some (it', (i', fold_left g (ranked z) st)).
Proof.
  intros K He Hz Hlow Hf Hb. destruct (zset_facts _ _ _ _ _ Hz) as (Hn & Hc & V & Hnum).
  destruct (counted_loop (move:=Next) fst (pbm_count p - 1) (fun '(i, _) => i <=? pbm_count p - 1) body
    (fun '(i, st) sm => (i + 1, g st sm)) key (piv_version (pbm_base p)) (ranked z)
    (Seek (NewIterator (db_ r) kZsetsScoreCF) (ZSetsScoreKey_Encode key (piv_version (pbm_base p)) double_lowest []))
    (0, st) fuel) as (it' & HL); [by eapply Seek_all|by intros []| |by intros ? []|cbn [fst]; lia|by rewrite ranked_length|].
  - intros sm v [i st0] Hin. by apply Hb.
  - cbn [fst] in HL. rewrite take_ge in HL by lia.
    assert (E : forall l i st0, exists i', fold_left (fun '(i, st) sm => (i + 1, g st sm)) l (i, st0) = (i', fold_left g l st0)).
    { intros l. induction l as [|x l IH]; intros i st0; cbn [fold_left]; [by exists i|apply IH]. }
    destruct (E (ranked z) 0 st) as (i' & E'). rewrite E' in HL. by exists it', i'.
Qed.

Lemma join_fold (agg : AGGREGATE) (weight : Z) (acc z : gmap bytes Z) :
  fold_left (fun (acc : gmap bytes Z) (sm : ScoreMember) => <[snd sm := no_negative_zero
    (match acc !! snd sm with None => double_mul weight (fst sm) | Some o => aggregate agg o (double_mul weight (fst sm)) end)]> acc)
    (ranked z) acc = join_zset agg weight acc z.
Proof.
  apply map_eq. intros m. unfold join_zset. rewrite lookup_merge.
  rewrite (fold_members_map (fun o s => no_negative_zero
    (match o with None => double_mul weight s | Some o => aggregate agg o (double_mul weight s) end)) (ranked z) acc m)
    by apply (zlisting_members _ _ (ranked_listing z)).
  rewrite ranked_lookup. unfold join_score, diag_None. by destruct (z !! m), (acc !! m).
Qed.

(** ** [ZUnionstore] *)

(** What the keys hold. *)
Definition zsets_hold (now : Z) (zs : bytes -> gmap bytes Z) (keys : list bytes) (r : Redis) : Prop :=
  Forall (fun key => key_ok key = true /\ (exists e, zset_holds (db_ r) now key (zs key) e) /\ above_lowest (zs key)) keys.

Lemma zunion_loop_ok fuel duration now weights agg zs (keys : list bytes) : forall idx acc r,
  zengine_ok r -> zsets_hold now zs keys r -> Forall (fun key => (size (zs key) < fuel)%nat) keys ->
  exists r', zunion_loop fuel duration now weights agg idx keys acc r =
    Some (inr (zset_union agg weights idx (zs <$> keys) acc), r') /\ same_data r r' /\ zengine_ok r'.
Proof.
  induction keys as [|key keys IH]; intros idx acc r He Hk Hf; [by exists r|].
  apply Forall_cons in Hk as [(K & (e & Hh) & Hlow) Hk]. apply Forall_cons in Hf as [Hf Hfs]. pose proof He as ([Hdb Hst] & _).
  rewrite fmap_cons. cbn [zunion_loop zset_union]. destruct (decide (zs key = ∅)) as [Ez|Hne].
  - assert (E0 : join_zset agg (weight_at weights idx) acc (zs key) = acc).
    { apply map_eq. intros m. unfold join_zset. rewrite lookup_merge, Ez, lookup_empty. unfold diag_None, join_score. by destruct (acc !! m). }
    rewrite E0. rewrite Ez, zset_holds_empty in Hh. destruct Hh as [[Hg Hfr]|(p & Hd & Hfr)].
    + start_gone. by apply IH.
    + rewrite (bind_dead _ _ _ _ _ _ _ Hdb Hd). on_status.
      rewrite (bind_lift _ _ _ _ (base_parse _ (da_coherent _ _ _ _ _ _ Hd))), (da_dead _ _ _ _ _ _ Hd). by apply IH.
  - destruct (zset_holds_live _ _ _ _ _ Hne Hh) as (p & Hz & <-). destruct (zset_at_base _ _ _ _ _ Hz) as (mm & Hb & Hm).
    destruct (zset_facts _ _ _ _ _ Hz) as (Hn & Hc & V & Hnum).
    rewrite (bind_live _ _ _ _ _ _ _ _ Hdb Hb). on_status.
    rewrite (bind_lift _ _ _ _ (base_parse _ (za_coherent _ _ _ _ _ Hz))), (proj1 (base_at_alive _ _ _ _ _ _ _ Hb)).
    rewrite (bind_lift _ _ _ _ (i32_val_id (pbm_count p - 1) ltac:(lia))), bind_gets.
    destruct (whole_loop (union_body agg (weight_at weights idx)) (fun (acc : gmap bytes Z) (sm : ScoreMember) => <[snd sm := no_negative_zero
      (match acc !! snd sm with None => double_mul (weight_at weights idx) (fst sm)
       | Some o => aggregate agg o (double_mul (weight_at weights idx) (fst sm)) end)]> acc)
      fuel now key p (zs key) r acc K He Hz Hlow Hf) as (it' & i' & HL).
    { intros sm v i st Hin. unfold union_body. rewrite sm_decode by auto. cbn [mbind option_bind pzk_member pzk_score]. done. }
    rewrite join_fold in HL. rewrite (bind_lift _ _ _ _ HL). cbv iota.
    destruct (duration_read key (duration idx) r He) as (r1 & HU & Hs & He1). rewrite (bind_run _ _ _ _ _ HU).
    destruct (IH (S idx) (join_zset agg (weight_at weights idx) acc (zs key)) r1 He1) as (r' & HR & Hs' & He').
    { eapply Forall_impl; [exact Hk|]. intros k. simpl. by rewrite (proj1 Hs). } { done. }
    exists r'. split; [done|]. split; [|done]. unfold same_data in *. destruct Hs as (?&?&?&?), Hs' as (?&?&?&?). split_and!; congruence.
Qed.

(** ** Replacing the destination *)

(** Over a meta value that is there. *)
Lemma store_over now key (members : list ScoreMember) p r :
  key_ok key = true -> clock_ok now -> zengine_ok r -> version_room (db_ r) key ->
  meta_of (db_ r) key = Some (piv_data (pbm_base p)) -> base_meta_coherent p -> piv_type (pbm_base p) = Some kZSets ->
  zfresh_from (db_ r) key (piv_version (pbm_base p) + 1) ->
  NoDup members.*2 -> Forall (fun sm => number_score (fst sm)) members -> Z.of_nat (length members) < 2 ^ 31 ->
  let q := ParsedBaseMetaValue_InitialMetaValue now p in
  exists r', Write (Put kMetaCF (BaseKey_Encode key) (piv_data (pbm_base
      (ParsedBaseMetaValue_SetCount q (Z.of_nat (length members))))) ::
      (members ≫= put_score now key (piv_version (pbm_base q)))) r = Some (Status_OK, r') /\
    zset_stores now key (add_scores members ∅) 0 r r'.
Proof.
  intros K Hnow He Hroom Hm Hp Ht Hf N Hnum Hlt. cbv zeta. remember (ParsedBaseMetaValue_InitialMetaValue now p) as q0 eqn:Eq0.
  remember (ParsedBaseMetaValue_SetCount q0 (Z.of_nat (length members))) as q eqn:Eq.
  destruct (puts_steps now key (piv_version (pbm_base q0)) members ∅) as [HZ Hsz]; [done|done|done|].
  rewrite map_size_empty in Hsz.
  apply (over_write now key _ p q0 q (Z.of_nat (length members))); try done; [by apply starts_with_meta|by rewrite Hsz].
Qed.

Lemma zset_store_ok {A} now destination (members : list ScoreMember) (v none : A) z0 e0 r :
  key_ok destination = true -> clock_ok now -> zengine_ok r -> zset_holds (db_ r) now destination z0 e0 ->
  version_room (db_ r) destination -> NoDup members.*2 -> Forall (fun sm => number_score (fst sm)) members ->
  Z.of_nat (length members) < 2 ^ 31 ->
  exists r', zset_store now destination members v none r = Some ((Status_OK, v, Z.of_nat (length members)), r') /\
    zset_stores now destination (add_scores members ∅) 0 r r'.
Proof.
  intros K Hnow He Hh Hroom N Hnum Hlt. pose proof He as ([Hdb Hst] & _). unfold zset_store. cbv zeta.
  rewrite (i32_id (Z.of_nat (length members))) by (unfold is_i32; lia).
  assert (Hfin : forall st b, (exists r', Write b r = Some (Status_OK, r') /\ zset_stores now destination (add_scores members ∅) 0 r r') ->
    exists r', bind (zset_finish destination st b v) (fun '(s, v) => ret (s, v, Z.of_nat (length members))) r =
      Some ((Status_OK, v, Z.of_nat (length members)), r') /\ zset_stores now destination (add_scores members ∅) 0 r r').
  { intros st b Hw. destruct (zfinish_stores now destination st b v _ _ r Hw) as (r' & H1 & H2).
    rewrite (bind_run _ _ _ _ _ H1). by exists r'. }
  assert (Hck : ParsedBaseMetaValue_check_set_count (Z.of_nat (length members)) = true).
  { unfold ParsedBaseMetaValue_check_set_count, INT32_MAX. apply negb_true_iff. apply Z.ltb_ge. lia. }
  zset_cases z0 Hh.
  - start_gone. destruct (puts_steps now destination (iv_version (new_base_meta now kZSets (Z.of_nat (length members)))) members ∅)
      as [HZ Hsz]; [done|done|done|]. rewrite map_size_empty in Hsz. apply Hfin, new_write; try done. by rewrite Hsz.
  - rewrite (bind_dead _ _ _ _ _ _ _ Hdb Hd). on_status.
    rewrite (bind_lift _ _ _ _ (base_parse _ (da_coherent _ _ _ _ _ _ Hd))), Hck. cbn [negb]. apply Hfin, store_over; try done; apply Hd.
  - rewrite (bind_live _ _ _ _ _ _ _ _ Hdb Hb). on_status.
    rewrite (bind_lift _ _ _ _ (base_parse _ (za_coherent _ _ _ _ _ Hz))), Hck. cbn [negb]. apply Hfin, store_over; try done; apply Hz.
Qed.

Lemma by_member_scores z : add_scores (by_member z) ∅ = z.
Proof.
  apply map_eq. intros m. apply option_eq. intros s. rewrite add_scores_elem by apply by_member_members. apply elem_of_by_member.
Qed.

Lemma ZUnionstore_stores fuel duration now destination keys weights agg zs z0 e0 r :
  key_ok destination = true -> clock_ok now -> zengine_ok r -> zsets_hold now zs keys r ->
  Forall (fun key => (size (zs key) < fuel)%nat) keys -> zset_holds (db_ r) now destination z0 e0 ->
  version_room (db_ r) destination ->
  let z := zset_union agg weights 0 (zs <$> keys) ∅ in
  numbers z -> Z.of_nat (size z) < 2 ^ 31 ->
  exists r', ZUnionstore fuel duration now destination keys weights agg r =
      Some ((Status_OK, z, Z.of_nat (size z)), r') /\ zset_stores now destination z 0 r r'.
Proof.
  intros K Hnow He Hk Hf Hh Hroom z Hnum Hlt.
  destruct (zunion_loop_ok fuel duration now weights agg zs keys 0 ∅ r He Hk Hf) as (r1 & HL & [Hs _] & He1).
  unfold ZUnionstore. rewrite (bind_run _ _ _ _ _ HL). fold z. cbv iota.
  destruct (zset_store_ok now destination (by_member z) z ∅ z0 e0 r1) as (r' & HR & Hst); try done; try (by rewrite Hs).
  - apply by_member_members.
  - apply Forall_forall. intros [s m] Hin. apply elem_of_by_member in Hin. by apply (Hnum m).
  - by rewrite by_member_length.
  - exists r'. rewrite by_member_length in HR. split; [done|]. rewrite by_member_scores in Hst.
    unfold zset_stores in *. by rewrite Hs in Hst.
Qed.

(** *** What ZUNIONSTORE is to compute *)

(** [a] is the lesser number. *)
Definition lesser (a b : Z) : Prop :=
  double_is_nan a = false /\ double_is_nan b = false /\ double_value a < double_value b.

Definition combined (agg : AGGREGATE) (a b : Z) : Z :=
  match agg with
  | SUM => double_add a b
  | MIN => if decide (lesser b a) then b else a
  | MAX => if decide (lesser a b) then b else a
  end.

(** A zero is stored without a sign. *)
Definition unsigned_zero (score : Z) : Z := if decide (score = 2 ^ 63) then 0 else score.

(** The weighted scores of a member, in the order of the keys that have it; the
    weight of a key for which none is given is 1.0. *)
Fixpoint contributions (weights : list Z) (zs : list (gmap bytes Z)) (m : bytes) : list Z :=
  match zs with
  | [] => []
  | z :: zs =>
      let w := match weights with w :: _ => w | [] => 0x3FF0000000000000 end in
      match z !! m with
      | Some score => double_mul w score :: contributions (tail weights) zs m
      | None => contributions (tail weights) zs m
      end
  end.

Definition union_score (agg : AGGREGATE) (weights : list Z) (zs : list (gmap bytes Z)) (m : bytes) : option Z :=
  match contributions weights zs m with
  | [] => None
  | c :: cs => Some (fold_left (fun score c => unsigned_zero (combined agg score c)) cs (unsigned_zero c))
  end.

Lemma aggregate_combined agg a b : aggregate agg a b = combined agg a b.
Proof.
  assert (E : forall x y, double_ltb x y = true <-> lesser x y).
  { intros x y. unfold double_ltb, lesser. rewrite !andb_true_iff, !negb_true_iff, Z.ltb_lt. tauto. }
  destruct agg; cbn; [done|unfold double_min|unfold double_max]; case_decide as H; rewrite <- E in H;
    by destruct (double_ltb _ _).
Qed.

Lemma unsigned_zero_spec score : is_u64 score -> no_negative_zero score = unsigned_zero score.
Proof.
  intros Hs. unfold no_negative_zero, unsigned_zero. case_decide as E; [by subst|].
  destruct (double_eqb score (2 ^ 63)) eqn:Ez; [|done]. unfold double_eqb in Ez.
  rewrite !andb_true_iff, Z.eqb_eq in Ez. destruct Ez as [_ Ez]. change (double_value (2 ^ 63)) with 0 in Ez.
  assert (Hz : score mod 2 ^ 63 = 0) by (unfold double_value in Ez; destruct (Z.testbit score 63); lia).
  unfold is_u64 in Hs. pose proof (Z.div_mod score (2 ^ 63) ltac:(lia)). nia.
Qed.

Lemma weight_at_drop weights idx :
  weight_at weights idx = match drop idx weights with w :: _ => w | [] => 0x3FF0000000000000 end.
Proof.
  unfold weight_at. rewrite <- (Nat.add_0_r idx) at 1. rewrite <- lookup_drop. by destruct (drop idx weights).
Qed.

Lemma drop_1_tail {A} (l : list A) : drop 1 l = tail l.
Proof. by destruct l. Qed.

Lemma union_value_score agg weights zs m : forall idx acc,
  (forall s, acc = Some s -> is_u64 s) ->
  union_value agg weights idx zs m acc =
  match acc, contributions (drop idx weights) zs m with
  | None, [] => None
  | None, c :: cs => Some (fold_left (fun score c => unsigned_zero (combined agg score c)) cs (unsigned_zero c))
  | Some s, cs => Some (fold_left (fun score c => unsigned_zero (combined agg score c)) cs s)
  end.
Proof.
  assert (Hm : forall a b, is_u64 (double_mul a b)) by (intros; apply u64_range).
  assert (Hc : forall o s, is_u64 o -> is_u64 s -> is_u64 (aggregate agg o s)).
  { intros o s Ho Hs. destruct agg; cbn; [apply u64_range|unfold double_min|unfold double_max]; by destruct (double_ltb _ _). }
  assert (Hz : forall s, is_u64 s -> is_u64 (no_negative_zero s)).
  { intros s Hs. unfold no_negative_zero. destruct (double_eqb _ _); [unfold is_u64; lia|done]. }
  induction zs as [|z zs IH]; intros idx acc Hacc; [by destruct acc|]. cbn [union_value contributions].
  assert (Hd : tail (drop idx weights) = drop (S idx) weights) by (by rewrite <- drop_1_tail, drop_drop, Nat.add_1_r).
  rewrite <- weight_at_drop, Hd, IH; unfold join_score; destruct (z !! m) as [s|], acc as [o|]; try done;
    try (intros ? [= <-]; apply Hz; auto); cbn [fold_left]; rewrite unsigned_zero_spec; auto. by rewrite aggregate_combined.
Qed.

(** C14: ZUNIONSTORE computes, member by member, the aggregate of the weighted scores
    of the keys in their order (sum, least or greatest), an absent key counting as
    empty and a weight that is not given as 1, never a negative zero, and replaces
    what the destination holds by the result, in both indices and without an expiry
    time, when the scores are numbers.  It answers the result and the number of
    members, and no other key changes.  The scores of the sources are above the
    lowest double and the destination holds a sorted set or nothing that is live. *)
Theorem ZUnionstore_correct fuel duration now destination keys weights agg zs z0 e0 z r :
  key_ok destination = true -> clock_ok now -> zengine_ok r -> zsets_hold now zs keys r ->
  Forall (fun key => (size (zs key) < fuel)%nat) keys -> zset_holds (db_ r) now destination z0 e0 ->
  version_room (db_ r) destination ->
  (forall m, z !! m = union_score agg weights (zs <$> keys) m) -> numbers z -> Z.of_nat (size z) < 2 ^ 31 ->
  exists r', ZUnionstore fuel duration now destination keys weights agg r =
      Some ((Status_OK, z, Z.of_nat (size z)), r') /\ zset_stores now destination z 0 r r'.
Proof.
  intros K Hnow He Hk Hf Hh Hroom Hz Hnum Hlt.
  assert (E : zset_union agg weights 0 (zs <$> keys) ∅ = z).
  { apply map_eq. intros m. by rewrite Hz, zset_union_lookup, lookup_empty, union_value_score. }
  rewrite <- E in *. by eapply ZUnionstore_stores.
Qed.

(** ** [ZGetAll] *)

(** What [ZGetAll] adds for a member that has no score yet. *)
Definition keep_score (weight : Z) (old : option Z) (s : Z) : Z :=
  match old with Some o => o | None => no_negative_zero (double_mul s weight) end.

(** ZGETALL adds every member of a sorted set, with its weighted score, to the
    members it is given, which keep theirs. *)
Theorem ZGetAll_correct fuel now key weight given z e r :
  key_ok key = true -> zengine_ok r -> zset_holds (db_ r) now key z e -> z <> ∅ -> above_lowest z -> (size z < fuel)%nat ->
  exists all, ZGetAll fuel now key weight given r = Some ((Status_OK, all), r) /\
    forall m, all !! m = match z !! m with Some s => Some (keep_score weight (given !! m) s) | None => given !! m end.
Proof.
  intros K He Hh Hne Hlow Hf. pose proof He as ([Hdb Hst] & _). destruct (zset_holds_live _ _ _ _ _ Hne Hh) as (p & Hz & <-).
  destruct (zset_at_base _ _ _ _ _ Hz) as (mm & Hb & _). destruct (zset_facts _ _ _ _ _ Hz) as (Hn & Hc & V & Hnum).
  set (g := fun (acc : gmap bytes Z) (sm : ScoreMember) => <[snd sm := keep_score weight (acc !! snd sm) (fst sm)]> acc).
  destruct (whole_loop (get_all_body weight) g fuel now key p z r given K He Hz Hlow Hf) as (it' & i' & HL).
  { intros sm v i st Hin. unfold get_all_body, g, keep_score. rewrite sm_decode by auto. cbn [mbind option_bind pzk_member pzk_score].
    destruct (st !! snd sm) as [o|] eqn:E; [|done]. by rewrite insert_id. }
  exists (fold_left g (ranked z) given). split.
  - unfold ZGetAll. rewrite (bind_run _ _ _ _ _ (GetMetaZSet_live now key p z r Hdb Hz)). on_status.
    rewrite (bind_lift _ _ _ _ (base_parse _ (za_coherent _ _ _ _ _ Hz))), (proj1 (base_at_alive _ _ _ _ _ _ _ Hb)).
    by rewrite (bind_lift _ _ _ _ (i32_val_id (pbm_count p - 1) ltac:(lia))), bind_gets, (bind_lift _ _ _ _ HL).
  - intros m. unfold g. rewrite (fold_members_map (keep_score weight) (ranked z) given m), ranked_lookup; [done|].
    apply (zlisting_members _ _ (ranked_listing z)).
Qed.

(** ** [ZInterstore] *)

(** A key with the version under which its sorted set is stored. *)
Definition located (now : Z) (zs : bytes -> gmap bytes Z) (r : Redis) (kv : KeyVersion) (key : bytes) : Prop :=
  fst kv = key /\ key_ok key = true /\ above_lowest (zs key) /\
  exists p, zset_at (db_ r) now key p (zs key) /\ snd kv = piv_version (pbm_base p).

Lemma first_stop idx n stop : 0 < n < 2 ^ 31 ->
  (if decide (idx = 0%nat) then i32_val (n - 1) else Some stop) = Some (if decide (idx = 0%nat) then n - 1 else stop).
Proof. intros H. case_decide; [|done]. apply i32_val_id. lia. Qed.

Lemma valid_zsets_all now zs r (keys : list bytes) : forall idx valid hi stop,
  zengine_ok r -> zsets_hold now zs keys r -> Forall (fun key => zs key <> ∅) keys ->
  exists l stop', valid_zsets now idx keys valid hi stop r = Some (inr (valid ++ l, hi, stop'), r) /\
    Forall2 (located now zs r) l keys /\
    (idx <> 0%nat -> stop' = stop) /\
    (idx = 0%nat -> match keys with [] => stop' = stop | key :: _ => stop' = Z.of_nat (size (zs key)) - 1 end).
Proof.
  induction keys as [|key keys IH]; intros idx valid hi stop He Hk Hne; cbn [valid_zsets].
  { exists [], stop. rewrite app_nil_r. by split_and!. }
  apply Forall_cons in Hk as [(K & (e & Hh) & Hlow) Hk]. apply Forall_cons in Hne as [Hn1 Hne]. pose proof He as ([Hdb Hst] & _).
  destruct (zset_holds_live _ _ _ _ _ Hn1 Hh) as (p & Hz & <-). destruct (zset_at_base _ _ _ _ _ Hz) as (mm & Hb & Hm).
  destruct (zset_facts _ _ _ _ _ Hz) as (Hn & Hc & V & _). rewrite ranked_length in Hc.
  rewrite (bind_live _ _ _ _ _ _ _ _ Hdb Hb). on_status.
  rewrite (bind_lift _ _ _ _ (base_parse _ (za_coherent _ _ _ _ _ Hz))), (proj1 (base_at_alive _ _ _ _ _ _ _ Hb)).
  rewrite (bind_lift _ _ _ _ (first_stop idx (pbm_count p) stop Hn)).
  destruct (IH (S idx) (valid ++ [(key, piv_version (pbm_base p))]) hi (if decide (idx = 0%nat) then pbm_count p - 1 else stop) He Hk Hne)
    as (l & stop' & HR & H2 & H3 & _). exists ((key, piv_version (pbm_base p)) :: l), stop'. rewrite HR, <- app_assoc.
  split_and!; [done|constructor; [|done]; by split_and!; [..|exists p]| |]; intros Hi; rewrite H3 by done; case_decide; try done; lia.
Qed.

Lemma valid_zsets_invalid now zs r (keys : list bytes) : forall idx valid hi stop,
  zengine_ok r -> zsets_hold now zs keys r -> hi = true \/ Exists (fun key => zs key = ∅) keys ->
  exists l stop', valid_zsets now idx keys valid hi stop r = Some (inr (l, true, stop'), r).
Proof.
  induction keys as [|key keys IH]; intros idx valid hi stop He Hk Hex; cbn [valid_zsets].
  { destruct Hex as [->|H]; [by exists valid, stop|]. by apply Exists_nil in H. }
  apply Forall_cons in Hk as [(K & (e & Hh) & Hlow) Hk]. pose proof He as ([Hdb Hst] & _).
  destruct (decide (zs key = ∅)) as [Ez|Hn1].
  - rewrite Ez, zset_holds_empty in Hh. destruct Hh as [[Hg Hfr]|(p & Hd & Hfr)].
    + start_gone. apply IH; auto.
    + rewrite (bind_dead _ _ _ _ _ _ _ Hdb Hd). on_status.
      rewrite (bind_lift _ _ _ _ (base_parse _ (da_coherent _ _ _ _ _ _ Hd))), (da_dead _ _ _ _ _ _ Hd). apply IH; auto.
  - destruct (zset_holds_live _ _ _ _ _ Hn1 Hh) as (p & Hz & <-). destruct (zset_at_base _ _ _ _ _ Hz) as (mm & Hb & Hm).
    destruct (zset_facts _ _ _ _ _ Hz) as (Hn & Hc & V & _).
    rewrite (bind_live _ _ _ _ _ _ _ _ Hdb Hb). on_status.
    rewrite (bind_lift _ _ _ _ (base_parse _ (za_coherent _ _ _ _ _ Hz))), (proj1 (base_at_alive _ _ _ _ _ _ _ Hb)).
    rewrite (bind_lift _ _ _ _ (first_stop idx (pbm_count p) stop Hn)).
    apply IH; [done|done|]. destruct Hex as [->|H]; [by left|right]. by apply Exists_cons in H as [?|?].
Qed.


Lemma inter_member_ok now zs r agg weights m (keys : list bytes) : forall l idx score,
  healthy (db_ r) -> Forall2 (located now zs r) l keys ->
  inter_member agg weights idx l m score r = Some (inr (inter_value agg weights idx (zs <$> keys) m score), r).
Proof.
  induction keys as [|key keys IH]; intros l idx score Hdb Hl; inversion Hl as [|[k v] ? l' ? (E & K & _ & p & Hz & Ev) Hl']; subst; [done|].
  cbn [fst snd] in *. subst v. rewrite fmap_cons. cbn [inter_member inter_value]. pose proof (zset_Get now k p (zs k) r m Hdb Hz) as HG.
  destruct (zs k !! m) as [s|].
  - destruct HG as (v & HG & Hv). rewrite (bind_run _ _ _ _ _ HG). on_status. rewrite (bind_lift _ _ _ _ Hv). by apply IH.
  - rewrite (bind_run _ _ _ _ _ HG). by on_status.
Qed.

Lemma inter_loop_ok now zs r agg weights (keys : list bytes) l (sms : list ScoreMember) : forall acc,
  healthy (db_ r) -> Forall2 (located now zs r) l keys ->
  inter_loop agg weights l sms acc r = Some (inr (acc ++ omap (fun sm =>
    s ← inter_value agg weights 1 (zs <$> keys) (snd sm) (double_mul (fst sm) (weight_at weights 0)); Some (s, snd sm)) sms), r).
Proof.
  induction sms as [|[s m] sms IH]; intros acc Hdb Hl; cbn [inter_loop omap list_omap]; [by rewrite app_nil_r|].
  rewrite (bind_run _ _ _ _ _ (inter_member_ok now zs r agg weights m keys l 1 (double_mul s (weight_at weights 0)) Hdb Hl)).
  cbn [fst snd]. destruct (inter_value agg weights 1 (zs <$> keys) m (double_mul s (weight_at weights 0))) as [s'|]; cbn [mbind option_bind].
  - rewrite IH by done. by rewrite <- app_assoc.
  - by apply IH.
Qed.

Lemma inter_score_members_ok fuel duration now zs r agg weights key0 (keys : list bytes) l :
  zengine_ok r -> Forall2 (located now zs r) l (key0 :: keys) -> (size (zs key0) < fuel)%nat ->
  exists r', inter_score_members fuel duration weights agg l (Z.of_nat (size (zs key0)) - 1) r =
    Some (inr (zset_inter agg weights (zs <$> key0 :: keys)), r') /\ same_data r r' /\ zengine_ok r'.
Proof.
  intros He Hl Hf. inversion Hl as [|[k v] ? l' ? (<- & K & Hlow & p & Hz & Ev) Hl']; subst. cbn [fst snd] in *. subst v.
  destruct (zset_facts _ _ _ _ _ Hz) as (Hn & Hc & V & Hnum). rewrite ranked_length in Hc.
  unfold inter_score_members. rewrite bind_gets, <- Hc.
  destruct (whole_loop collect_body (fun acc sm => acc ++ [sm]) fuel now key0 p (zs key0) r [] K He Hz Hlow Hf) as (it' & i' & HL).
  { intros sm v i st Hin. unfold collect_body. rewrite sm_decode by auto. by destruct sm. }
  assert (Ef : forall (l acc : list ScoreMember), fold_left (fun acc sm => acc ++ [sm]) l acc = acc ++ l).
  { intros l0. induction l0 as [|x l0 IH]; intros acc; cbn [fold_left]; [by rewrite app_nil_r|]. by rewrite IH, <- app_assoc. }
  rewrite Ef in HL. cbn [app] in HL. rewrite (bind_lift _ _ _ _ HL). cbv iota.
  rewrite (bind_run _ _ _ _ _ (inter_loop_ok now zs r agg weights keys l' (ranked (zs key0)) [] (proj1 (proj1 He)) Hl')).
  destruct (duration_read key0 duration r He) as (r' & HU & Hs & He'). rewrite (bind_run _ _ _ _ _ HU). by exists r'.
Qed.

Lemma zset_inter_members agg weights z zs :
  NoDup (zset_inter agg weights (z :: zs)).*2 /\
  forall m, add_scores (zset_inter agg weights (z :: zs)) ∅ !! m =
    s ← z !! m; inter_value agg weights 1 zs m (double_mul s (weight_at weights 0)).
Proof.
  assert (N : NoDup (zset_inter agg weights (z :: zs)).*2).
  { cbn [zset_inter]. pose proof (zlisting_members _ _ (ranked_listing z)) as N. revert N. generalize (ranked z).
    intros l. induction l as [|[s m] l IH]; intros N; [constructor|]. rewrite fmap_cons, NoDup_cons in N. destruct N as [Hn N].
    cbn [omap list_omap fst snd]. destruct (inter_value _ _ _ _ _ _) as [s'|]; cbn [mbind option_bind]; [|by apply IH].
    rewrite fmap_cons, NoDup_cons. split; [|by apply IH]. cbn [snd] in *. contradict Hn.
    apply list_elem_of_fmap in Hn as ([s1 m1] & -> & Hin). apply list_elem_of_omap in Hin as ([s2 m2] & Hin & E).
    cbn [fst snd] in E. destruct (inter_value _ _ _ _ m2 _); [|done]. injection E as -> ->. by apply (list_elem_of_fmap_2 snd l (s2, m1)). }
  split; [done|]. intros m. apply option_eq. intros s. rewrite add_scores_elem by done. cbn [zset_inter].
  rewrite list_elem_of_omap, bind_Some. split.
  - intros ([s2 m2] & Hin & E). cbn [fst snd] in E. destruct (inter_value _ _ _ _ m2 _) eqn:Ei; [|done]. injection E as -> ->.
    exists s2. split; [by apply ranked_listing|done].
  - intros (s2 & Hz & E). exists (s2, m). split; [by apply ranked_listing|]. cbn [fst snd]. by rewrite E.
Qed.

Lemma ZInterstore_stores fuel duration now destination key0 keys weights agg zs z0 e0 r :
  key_ok destination = true -> clock_ok now -> zengine_ok r -> zsets_hold now zs (key0 :: keys) r ->
  (size (zs key0) < fuel)%nat -> zset_holds (db_ r) now destination z0 e0 -> version_room (db_ r) destination ->
  let found := if decide (Exists (fun key => zs key = ∅) (key0 :: keys)) then []
               else zset_inter agg weights (zs <$> key0 :: keys) in
  Forall (fun sm => number_score (fst sm)) found -> Z.of_nat (length found) < 2 ^ 31 ->
  exists r', ZInterstore fuel duration now destination (key0 :: keys) weights agg r =
      Some ((Status_OK, found, Z.of_nat (length found)), r') /\ zset_stores now destination (add_scores found ∅) 0 r r'.
Proof.
  intros K Hnow He Hk Hf Hh Hroom found Hnum Hlt. unfold ZInterstore.
  assert (Hgo : exists r1, (let* v := valid_zsets now 0 (key0 :: keys) [] false 0 in
      match v with inl st => ret (inl st) | inr (zsets, hi, stop) =>
        if hi : bool then ret (inr []) else inter_score_members fuel duration weights agg zsets stop end) r = Some (inr found, r1) /\
      same_data r r1 /\ zengine_ok r1 /\ NoDup found.*2).
  { unfold found. case_decide as D.
    - destruct (valid_zsets_invalid now zs r (key0 :: keys) 0 [] false 0 He Hk (or_intror D)) as (l & stop & HV).
      rewrite (bind_run _ _ _ _ _ HV). exists r. split_and!; [done..|constructor].
    - assert (Hne : Forall (fun key => zs key <> ∅) (key0 :: keys)).
      { apply Forall_Exists_neg. exact D. }
      destruct (valid_zsets_all now zs r (key0 :: keys) 0 [] false 0 He Hk Hne) as (l & stop & HV & Hl & _ & Hstop).
      rewrite (bind_run _ _ _ _ _ HV). cbn [app]. rewrite (Hstop eq_refl).
      destruct (inter_score_members_ok fuel duration now zs r agg weights key0 keys l He Hl Hf) as (r1 & HR & Hs & He1).
      exists r1. split_and!; try done. apply zset_inter_members. }
  destruct Hgo as (r1 & HR & [Hs _] & He1 & N).
  destruct (zset_store_ok now destination found found [] z0 e0 r1) as (r' & HS & Hst); try done; try (by rewrite Hs).
  exists r'. split.
  - revert HR. unfold bind. destruct (valid_zsets _ _ _ _ _ _ r) as [[[st|[[zsets hi] stop]] r2]|]; [done| |done].
    intros HR. destruct hi; unfold ret in *; [injection HR as <- ->; exact HS|]. by rewrite HR.
  - unfold zset_stores in *. by rewrite Hs in Hst.
Qed.

(** ZINTERSTORE keeps the members that every key has, in the order of the first
    one, each with the aggregate of its weighted scores in the order of the keys,
    none when a key is absent, and replaces what the destination holds by them, in
    both indices and without an expiry time, when the scores are numbers. *)
Theorem ZInterstore_correct fuel duration now destination key0 keys weights agg zs z0 e0 r :
  key_ok destination = true -> clock_ok now -> zengine_ok r -> zsets_hold now zs (key0 :: keys) r ->
  (size (zs key0) < fuel)%nat -> zset_holds (db_ r) now destination z0 e0 -> version_room (db_ r) destination ->
  let found := if decide (Exists (fun key => zs key = ∅) (key0 :: keys)) then []
               else zset_inter agg weights (zs <$> key0 :: keys) in
  Forall (fun sm => number_score (fst sm)) found -> Z.of_nat (length found) < 2 ^ 31 ->
  exists r' z, ZInterstore fuel duration now destination (key0 :: keys) weights agg r =
      Some ((Status_OK, found, Z.of_nat (length found)), r') /\ zset_stores now destination z 0 r r' /\
    forall m, z !! m = if decide (Exists (fun key => zs key = ∅) (key0 :: keys)) then None
                       else s ← zs key0 !! m; inter_value agg weights 1 (zs <$> keys) m (double_mul s (weight_at weights 0)).
Proof.
  intros K Hnow He Hk Hf Hh Hroom found Hnum Hlt.
  destruct (ZInterstore_stores fuel duration now destination key0 keys weights agg zs z0 e0 r K Hnow He Hk Hf Hh Hroom Hnum Hlt)
    as (r' & H1 & H2). exists r', (add_scores found ∅). split_and!; [done..|].
  intros m. unfold found. case_decide; [done|]. rewrite fmap_cons. apply zset_inter_members.
Qed.

End ZSetStore.
