(* ===== verification/ZSetRun.v ===== *)
(** * Sequences of commands on sorted sets

    The commands that write sorted sets as steps of an abstract machine, whose
    state gives the scores and the expiry time of every key.  In every state the
    engine reaches from an empty database, each key holds what the machine says,
    in the member index and in the score index alike. *)

From Stdlib Require Import Sorting.Sorted.
From S2P Require Import Prelude Coding Numbers Glob KeyFormat Comparator Doubles ValueFormat RocksDB LruCache Redis KeySpace BaseData BaseSpec BaseScan BaseHolds BaseWrite Sets ZSets ZSetSpec ZSetWrite ZSetRead ZSetRange ZSetRemove ZSetLex ZSetKey ZSetStore.
Open Scope Z_scope.

(** ** The commands *)

Inductive zcommand :=
  | Add (key : bytes) (sms : list ScoreMember)
  | Incrby (key member : bytes) (increment : Z)
  | Rem (key : bytes) (members : list bytes)
  | PopMin (key : bytes) (count : Z)
  | PopMax (key : bytes) (count : Z)
  | RemByRank (key : bytes) (start stop : Z)
  | RemByScore (key : bytes) (min max : Z) (left_close right_close : bool)
  | RemByLex (key min max : bytes) (left_close right_close : bool)
  | UnionStore (destination : bytes) (keys : list bytes) (weights : list Z) (agg : AGGREGATE)
  | InterStore (destination key0 : bytes) (keys : list bytes) (weights : list Z) (agg : AGGREGATE)
  | Del (key : bytes)
  | Expire (key : bytes) (ttl : Z)
  | Expireat (key : bytes) (timestamp : Z)
  | Persist (key : bytes).

(** The key a command writes. *)
Definition target (c : zcommand) : bytes :=
  match c with
  | Add key _ | Incrby key _ _ | Rem key _ | PopMin key _ | PopMax key _ | RemByRank key _ _
  | RemByScore key _ _ _ _ | RemByLex key _ _ _ _ | UnionStore key _ _ _ | InterStore key _ _ _ _
  | Del key | Expire key _ | Expireat key _ | Persist key => key
  end.

(** ** The abstract machine *)

(** The scores and the expiry time of every key. *)
Definition zstate : Type := bytes -> gmap bytes Z * Z.

(** What [target c] holds after [c]. *)
Definition zafter (now : Z) (c : zcommand) (st : zstate) : gmap bytes Z * Z :=
  let '(z, e) := st (target c) in
  match c with
  | Add _ sms => (add_scores (filtered_score_members sms) z, zkept z e)
  | Incrby _ m inc => (<[m := match z !! m with Some old => double_add old inc | None => inc end]> z, zkept z e)
  | Rem _ members => (filter (fun x => fst x ∉ members) z, e)
  | PopMin _ count => (zset_without (take (Z.to_nat count) (ranked z)) z, e)
  | PopMax _ count => (zset_without (take (Z.to_nat count) (rev (ranked z))) z, e)
  | RemByRank _ start stop => (zset_without (redis_range (ranked z) start stop) z, e)
  | RemByScore _ min max lc rc => (zset_without (ranked_between min max lc rc z) z, e)
  | RemByLex _ min max lc rc => (zset_without (lex_between min max lc rc z) z, e)
  | UnionStore _ keys weights agg => (zset_union agg weights 0 ((fun k => fst (st k)) <$> keys) ∅, 0)
  | InterStore _ key0 keys weights agg =>
      (add_scores (if decide (Exists (fun k => fst (st k) = ∅) (key0 :: keys)) then []
                   else zset_inter agg weights ((fun k => fst (st k)) <$> key0 :: keys)) ∅, 0)
  | Del _ => (∅, 0)
  | Expire _ ttl => (if 0 <? ttl then z else ∅, now + ttl)
  | Expireat _ t => (if 0 <? t then zvisible now z t else ∅, t)
  | Persist _ => (z, 0)
  end.

Definition zupdate (now : Z) (c : zcommand) (st : zstate) : zstate :=
  fun k => if decide (k = target c) then zafter now c st else st k.

(** Time goes on. *)
Definition zexpire (now : Z) (st : zstate) : zstate := fun k => (zvisible now (fst (st k)) (snd (st k)), snd (st k)).

(** Where a command is defined: scores are numbers, counts fit, the seeks reach
    every member, the loops have rounds for them, and EXPIRE and its kin find a
    key. *)
Definition allowed (fuel : nat) (now : Z) (c : zcommand) (st : zstate) : Prop :=
  let z := fst (st (target c)) in
  key_ok (target c) = true /\
  match c with
  | Add _ sms => Forall (fun sm => number_score (fst sm)) sms /\ Z.of_nat (size z) + Z.of_nat (length sms) < 2 ^ 31
  | Incrby _ m inc =>
      Z.of_nat (size z) < 2 ^ 31 - 1 /\ number_score (match z !! m with Some old => double_add old inc | None => inc end)
  | Rem _ _ => True
  | PopMin _ _ => above_lowest z /\ (size z < fuel)%nat
  | PopMax _ _ => below_highest z /\ (size z < fuel)%nat
  | RemByRank _ start stop => above_lowest z /\ is_i32 start /\ is_i32 stop /\ (size z < fuel)%nat
  | RemByScore _ min _ _ _ => number_score min /\ (size z < fuel)%nat
  | RemByLex _ _ _ _ _ => (size z < fuel)%nat
  | UnionStore _ keys _ _ =>
      Forall (fun k => key_ok k = true /\ above_lowest (fst (st k)) /\ (size (fst (st k)) < fuel)%nat) keys /\
      numbers (fst (zafter now c st)) /\ Z.of_nat (size (fst (zafter now c st))) < 2 ^ 31
  | InterStore _ key0 keys weights agg =>
      Forall (fun k => key_ok k = true /\ above_lowest (fst (st k)) /\ (size (fst (st k)) < fuel)%nat) (key0 :: keys) /\
      let found := zset_inter agg weights ((fun k => fst (st k)) <$> key0 :: keys) in
      Forall (fun sm => number_score (fst sm)) found /\ Z.of_nat (length found) < 2 ^ 31
  | Del _ | Persist _ => z <> ∅
  | Expire _ ttl => z <> ∅ /\ now + ttl < 2 ^ 63
  | Expireat _ t => z <> ∅ /\ is_i64 t
  end.

Section ZSetRun.
Context {R : RocksDB} {L : RocksDBLaws R} {SL : ScoreLaws R L} {U : Uninit}.

(** The command of the engine, without its answer. *)
Definition exec (fuel : nat) (duration now : Z) (c : zcommand) : M unit :=
  let quiet {A} (m : M A) := bind m (fun _ => ret tt) in
  match c with
  | Add key sms => quiet (ZAdd now key sms)
  | Incrby key m inc => quiet (ZIncrby now key m inc)
  | Rem key members => quiet (ZRem now key members)
  | PopMin key count => quiet (ZPopMin fuel duration now key count)
  | PopMax key count => quiet (ZPopMax fuel duration now key count)
  | RemByRank key start stop => quiet (ZRemrangebyrank fuel duration now key start stop)
  | RemByScore key min max lc rc => quiet (ZRemrangebyscore fuel duration now key min max lc rc)
  | RemByLex key min max lc rc => quiet (ZRemrangebylex fuel duration now key min max lc rc)
  | UnionStore d keys weights agg => quiet (ZUnionstore fuel (fun _ => duration) now d keys weights agg)
  | InterStore d key0 keys weights agg => quiet (ZInterstore fuel duration now d (key0 :: keys) weights agg)
  | Del key => quiet (ZsetsDel now key [])
  | Expire key ttl => quiet (ZsetsExpire now key ttl [])
  | Expireat key t => quiet (ZsetsExpireat now key t [])
  | Persist key => quiet (ZsetsPersist now key [])
  end.

(** Every key holds, in both indices, what the machine says. *)
Definition zrelated (now : Z) (st : zstate) (r : Redis) : Prop :=
  zengine_ok r /\ forall key, key_ok key = true -> zset_holds (db_ r) now key (fst (st key)) (snd (st key)).

(** The states that commands reach from an empty database while time goes on. *)
Inductive zreach (fuel : nat) (duration : Z) : Z -> zstate -> Redis -> Prop :=
  | zr_empty now r :
      clock_ok now -> zengine_ok r -> (forall cf, content (db_ r) cf = []) ->
      zreach fuel duration now (fun _ => (∅, 0)) r
  | zr_tick now now' st r :
      zreach fuel duration now st r -> now <= now' -> clock_ok now' -> zreach fuel duration now' (zexpire now' st) r
  | zr_command now c st r r' :
      zreach fuel duration now st r -> allowed fuel now c st -> version_room (db_ r) (target c) ->
      exec fuel duration now c r = Some (tt, r') -> zreach fuel duration now (zupdate now c st) r'.

(** ** One step *)

Lemma run_quiet {A} (m : M A) a r r' : m r = Some (a, r') -> bind m (fun _ => ret tt) r = Some (tt, r').
Proof. intros H. by rewrite (bind_run _ _ _ _ _ H). Qed.

Lemma without_empty (l : list ScoreMember) : zset_without l ∅ = ∅.
Proof. apply map_filter_empty. Qed.

(** A command that needs a sorted set, on a key that holds none. *)
Lemma GetBase_none {A} now key (f : Status + ParsedBaseMetaValue -> M A) (g : Status -> A) e r :
  zengine_ok r -> zset_holds (db_ r) now key ∅ e -> (forall st, f (inl st) = ret (g st)) ->
  exists r', bind (bind (GetBase now kZSets key) f) (fun _ => ret tt) r = Some (tt, r') /\ zset_stores now key ∅ e r r'.
Proof.
  intros He Hh Hf. exists r. split; [|by apply zset_stores_refl]. rewrite zset_holds_empty in Hh.
  destruct (zset_GetBase_unused now key r (proj1 (proj1 He)) Hh) as (st & HG & _). eapply run_quiet.
  rewrite (bind_run _ _ _ _ _ HG), Hf. reflexivity.
Qed.

Section Steps.
Context (fuel : nat) (duration now : Z) (st : zstate) (r : Redis).
Context (Hnow : clock_ok now) (Hrel : zrelated now st r).

(** [c] runs and leaves what the machine says at its target. *)
Definition steps_to (c : zcommand) : Prop :=
  exists r', exec fuel duration now c r = Some (tt, r') /\
    zset_stores now (target c) (fst (zafter now c st)) (snd (zafter now c st)) r r'.

Lemma step_add key sms : allowed fuel now (Add key sms) st -> version_room (db_ r) key -> steps_to (Add key sms).
Proof.
  intros (K & Hn & Hlt) Hroom. destruct Hrel as [He Hh]. specialize (Hh key K). unfold steps_to, zafter. cbn [target] in *.
  destruct (st key) as [z e]. cbn [fst snd] in *.
  destruct (ZAdd_stores now key sms z e r K Hnow He Hh Hroom Hn Hlt) as (r' & H1 & H2). exists r'. split; [by eapply run_quiet|done].
Qed.

Lemma step_incrby key m inc :
  allowed fuel now (Incrby key m inc) st -> version_room (db_ r) key -> steps_to (Incrby key m inc).
Proof.
  intros (K & Hlt & Hn) Hroom. destruct Hrel as [He Hh]. specialize (Hh key K). unfold steps_to, zafter. cbn [target] in *.
  destruct (st key) as [z e]. cbn [fst snd] in *.
  destruct (ZIncrby_correct now key m inc z e r K Hnow He Hh Hroom Hlt Hn) as (r' & H1 & H2). exists r'. split; [by eapply run_quiet|done].
Qed.

Lemma step_rem key members : allowed fuel now (Rem key members) st -> steps_to (Rem key members).
Proof.
  intros (K & _). destruct Hrel as [He Hh]. specialize (Hh key K). unfold steps_to, zafter. cbn [target] in *.
  destruct (st key) as [z e]. cbn [fst snd exec] in *. pose proof (ZRem_correct now key members z e r K He Hh) as H.
  destruct (decide (z = ∅)) as [->|Hne].
  - destruct H as (s & H & _). exists r. rewrite map_filter_empty. split; [by eapply run_quiet|by apply zset_stores_refl].
  - destruct H as (r' & H1 & H2). exists r'. split; [by eapply run_quiet|done].
Qed.

(** The commands that only act on a sorted set that exists. *)
Lemma step_live (c : zcommand) (f : gmap bytes Z -> gmap bytes Z) :
  key_ok (target c) = true -> fst (zafter now c st) = f (fst (st (target c))) -> snd (zafter now c st) = snd (st (target c)) ->
  f ∅ = ∅ ->
  (forall e, zset_holds (db_ r) now (target c) ∅ e -> exists r', exec fuel duration now c r = Some (tt, r') /\ zset_stores now (target c) ∅ e r r') ->
  (forall p, zset_at (db_ r) now (target c) p (fst (st (target c))) ->
     exists r', exec fuel duration now c r = Some (tt, r') /\
       zset_stores now (target c) (f (fst (st (target c)))) (piv_etime (pbm_base p)) r r') ->
  steps_to c.
Proof.
  intros K E1 E2 Hf Hempty Hlive. destruct Hrel as [He Hh]. specialize (Hh _ K). unfold steps_to. rewrite E1, E2.
  destruct (decide (fst (st (target c)) = ∅)) as [Ez|Hne].
  - rewrite Ez in *. rewrite Hf. by apply Hempty.
  - destruct (zset_holds_live _ _ _ _ _ Hne Hh) as (p & Hz & <-). by apply Hlive.
Qed.

Ltac live_step f :=
  apply (step_live _ f); unfold zafter; cbn [target exec] in *;
  [done|by destruct (st _)|by destruct (st _)|rewrite ?without_empty; done|intros e0 Hh0|intros p Hz].

Lemma step_pops key count :
  (allowed fuel now (PopMin key count) st -> steps_to (PopMin key count)) /\
  (allowed fuel now (PopMax key count) st -> steps_to (PopMax key count)).
Proof.
  pose proof (proj1 Hrel) as He. split; intros (K & Hb & Hf); cbn [target] in *.
  - live_step (fun z => zset_without (take (Z.to_nat count) (ranked z)) z).
    + by eapply (GetBase_none now key _ (fun s => (s, []))).
    + destruct (ZPop_live (move:=Next) double_lowest Seek fuel duration now key count p _ (ranked (fst (st key))) r K He Hz) as (r' & H1 & H2);
        [by eapply Seek_all|done|done|]. exists r'. split; [by eapply run_quiet|done].
  - live_step (fun z => zset_without (take (Z.to_nat count) (rev (ranked z))) z).
    + by eapply (GetBase_none now key _ (fun s => (s, []))).
    + destruct (ZPop_live (move:=Prev) double_highest SeekForPrev fuel duration now key count p _ (rev (ranked (fst (st key)))) r K He Hz)
        as (r' & H1 & H2); [by eapply SeekForPrev_all|rewrite rev_alt; apply reverse_Permutation|done|].
      exists r'. split; [by eapply run_quiet|done].
Qed.

Lemma step_ranges key :
  (forall start stop, allowed fuel now (RemByRank key start stop) st -> steps_to (RemByRank key start stop)) /\
  (forall min max lc rc, allowed fuel now (RemByScore key min max lc rc) st -> steps_to (RemByScore key min max lc rc)).
Proof.
  pose proof (proj1 Hrel) as He. split.
  - intros start stop (K & Hb & H1 & H2 & Hf). cbn [target] in *.
    live_step (fun z => zset_without (redis_range (ranked z) start stop) z).
    + by eapply (GetBase_none now key _ (fun s => (s, 0))).
    + destruct (ZRemrangebyrank_live fuel duration now key start stop p _ r K He Hz Hb H1 H2 Hf) as (r' & HR & Hs).
      exists r'. split; [by eapply run_quiet|done].
  - intros min max lc rc (K & Hn & Hf). cbn [target] in *.
    live_step (fun z => zset_without (ranked_between min max lc rc z) z).
    + by eapply (GetBase_none now key _ (fun s => (s, 0))).
    + destruct (ZRemrangebyscore_live fuel duration now key min max lc rc p _ r K He Hz Hn Hf) as (r' & HR & Hs).
      exists r'. split; [by eapply run_quiet|done].
Qed.

Lemma step_lex key min max lc rc : allowed fuel now (RemByLex key min max lc rc) st -> steps_to (RemByLex key min max lc rc).
Proof.
  pose proof (proj1 Hrel) as He. intros (K & Hf). cbn [target] in *. live_step (fun z => zset_without (lex_between min max lc rc z) z).
  - exists r. split; [|by apply zset_stores_refl]. rewrite zset_holds_empty in Hh0. pose proof (proj1 (proj1 He)) as Hdb. unfold ZRemrangebylex.
    destruct Hh0 as [[Hg Hfr]|(p & Hd & Hfr)]; [eapply run_quiet; start_gone; reflexivity|].
    eapply run_quiet. rewrite (bind_dead _ _ _ _ _ _ _ (proj1 (proj1 He)) Hd). on_status.
    rewrite (bind_lift _ _ _ _ (base_parse _ (da_coherent _ _ _ _ _ _ Hd))), (da_dead _ _ _ _ _ _ Hd). reflexivity.
  - destruct (ZRemrangebylex_live fuel duration now key min max lc rc p _ r K He Hz Hf) as (r' & HR & Hs).
    exists r'. split; [by eapply run_quiet|done].
Qed.

Lemma related_zsets (keys : list bytes) :
  Forall (fun k => key_ok k = true /\ above_lowest (fst (st k)) /\ (size (fst (st k)) < fuel)%nat) keys ->
  zsets_hold now (fun k => fst (st k)) keys r /\ Forall (fun k => (size (fst (st k)) < fuel)%nat) keys.
Proof.
  intros H. split; (eapply Forall_impl; [exact H|]); intros k (K & Hl & Hf); [|done].
  split_and!; [done| |done]. exists (snd (st k)). by apply Hrel.
Qed.

Lemma step_union d keys weights agg :
  allowed fuel now (UnionStore d keys weights agg) st -> version_room (db_ r) d -> steps_to (UnionStore d keys weights agg).
Proof.
  intros (K & Hk & Hn & Hlt) Hroom. destruct (related_zsets keys Hk) as [Hz Hf]. destruct Hrel as [He Hh]. specialize (Hh d K).
  unfold steps_to, zafter in *. cbn [target] in *. destruct (st d) as [z e]. cbn [fst snd] in *.
  destruct (ZUnionstore_stores fuel (fun _ => duration) now d keys weights agg (fun k => fst (st k)) z e r K Hnow He Hz Hf Hh Hroom Hn Hlt)
    as (r' & H1 & H2). exists r'. split; [by eapply run_quiet|done].
Qed.

Lemma step_inter d key0 keys weights agg :
  allowed fuel now (InterStore d key0 keys weights agg) st -> version_room (db_ r) d -> steps_to (InterStore d key0 keys weights agg).
Proof.
  intros (K & Hk & Hn & Hlt) Hroom. destruct (related_zsets _ Hk) as [Hz Hf]. destruct Hrel as [He Hh]. specialize (Hh d K).
  unfold steps_to, zafter in *. cbn [target] in *. destruct (st d) as [z e]. cbn [fst snd] in *. apply Forall_inv in Hf.
  destruct (ZInterstore_stores fuel duration now d key0 keys weights agg (fun k => fst (st k)) z e r K Hnow He Hz Hf Hh Hroom)
    as (r' & H1 & H2); [by case_decide|case_decide; [done|exact Hlt]|]. exists r'. split; [by eapply run_quiet|done].
Qed.

Lemma step_key key :
  version_room (db_ r) key ->
  (allowed fuel now (Del key) st -> steps_to (Del key)) /\
  (forall ttl, allowed fuel now (Expire key ttl) st -> steps_to (Expire key ttl)) /\
  (forall t, allowed fuel now (Expireat key t) st -> steps_to (Expireat key t)) /\
  (allowed fuel now (Persist key) st -> steps_to (Persist key)).
Proof.
  intros Hroom. destruct Hrel as [He Hh]. specialize (Hh key). unfold steps_to, zafter, allowed. cbn [target].
  destruct (st key) as [z e]. cbn [fst snd] in *. assert (Hpm : prefetched (db_ r) key []) by by left.
  split_and!; intros; destruct_and?; destruct (zset_holds_live _ _ _ _ _ ltac:(eassumption) (Hh ltac:(done))) as (p & Hz & <-).
  - destruct (ZsetsDel_live now key [] p z r) as (r' & HE & Hs); try done. exists r'. split; [by eapply run_quiet|done].
  - destruct (ZsetsExpire_live now key [] p z r) with (ttl := ttl) as (r' & HE & Hs); try done. exists r'. split; [by eapply run_quiet|done].
  - destruct (ZsetsExpireat_live now key [] p z r) with (t := t) as (r' & HE & Hs); try done. exists r'. split; [by eapply run_quiet|done].
  - pose proof (ZsetsPersist_live now key [] p z r ltac:(done) He Hz Hpm) as HP. destruct (Z.eqb_spec (piv_etime (pbm_base p)) 0) as [E|E].
    + exists r. split; [by eapply run_quiet|]. rewrite <- E. by apply zset_stores_refl, zset_at_holds.
    + destruct HP as (r' & HE & Hs). exists r'. split; [by eapply run_quiet|done].
Qed.

Lemma step_any c : allowed fuel now c st -> version_room (db_ r) (target c) -> steps_to c.
Proof.
  intros Ha Hroom. destruct c; cbn [target] in Hroom.
  - by apply step_add.
  - by apply step_incrby.
  - by apply step_rem.
  - by apply step_pops.
  - by apply step_pops.
  - by apply step_ranges.
  - by apply step_ranges.
  - by apply step_lex.
  - by apply step_union.
  - by apply step_inter.
  - by apply step_key.
  - by apply step_key.
  - by apply step_key.
  - by apply step_key.
Qed.

End Steps.

Lemma zupdate_related now c st r r' :
  clock_ok now -> zrelated now st r ->
  zset_stores now (target c) (fst (zafter now c st)) (snd (zafter now c st)) r r' -> zrelated now (zupdate now c st) r'.
Proof.
  intros Hnow [He Hh] (He' & Hh' & Ho). split; [done|]. intros key K. unfold zupdate. case_decide as D; [by rewrite D|].
  eapply zset_others_holds; [done..|]. by apply Hh.
Qed.

Lemma empty_related now r :
  clock_ok now -> zengine_ok r -> (forall cf, content (db_ r) cf = []) -> zrelated now (fun _ => (∅, 0)) r.
Proof.
  intros Hnow He Hc. split; [done|]. intros key K. cbn [fst snd]. rewrite zset_holds_empty. left.
  assert (Hl : forall cf k, cf <> kZsetsScoreCF -> db_lookup (db_ r) cf k = None).
  { intros cf k Hcf. unfold db_lookup. by rewrite Hc. }
  split; [left; by apply Hl|]. split.
  - intros v Hv Vv. constructor; [intros f; by rewrite Hl|]. intros k w Hin. rewrite Hc in Hin. by apply not_elem_of_nil in Hin.
  - intros v Hv Vv s m _ _. rewrite Hc, lookup_empty. split; [|done]. intros H. by apply not_elem_of_nil in H.
Qed.

Lemma reach_related fuel duration now st r :
  zreach fuel duration now st r -> clock_ok now /\ zrelated now st r.
Proof.
  induction 1 as [now r Hnow He Hc|now now' st r H [Hnow [He Hh]] Hle Hnow'|now c st r r' H [Hnow Hrel] Ha Hroom HE].
  - split; [done|]. by apply empty_related.
  - split; [done|]. split; [done|]. intros key K. cbn [zexpire fst snd]. by eapply zset_holds_later; [..|apply Hh].
  - split; [done|]. destruct (step_any fuel duration now st r Hnow Hrel c Ha Hroom) as (r1 & HE1 & Hs).
    rewrite HE in HE1. injection HE1 as <-. by eapply zupdate_related.
Qed.

(** C1: In every state that the commands on sorted sets reach from an empty
    database, while time goes on, each key holds the sorted set the abstract machine
    computes: the member index and the score index of its current version have
    exactly the same pairs, no later version has entries of either kind, and the
    count in the meta value is their number.  Every command that is defined there
    runs, and leads to a state where that holds again. *)
Theorem zset_indices_agree fuel duration now st r :
  zreach fuel duration now st r ->
  zrelated now st r /\
  forall c, allowed fuel now c st -> version_room (db_ r) (target c) ->
    exists r', exec fuel duration now c r = Some (tt, r') /\ zrelated now (zupdate now c st) r'.
Proof.
  intros H. destruct (reach_related _ _ _ _ _ H) as [Hnow Hrel]. split; [done|]. intros c Ha Hroom.
  destruct (step_any fuel duration now st r Hnow Hrel c Ha Hroom) as (r' & HE & Hs). exists r'. split; [done|].
  by eapply zupdate_related.
Qed.

End ZSetRun.
