(* ===== verification/ZSetWitness.v ===== *)
(** * The sorted set theorems at work

    Each theorem about sorted sets applied to a concrete engine, keys and
    arguments; and what the commands do with infinite scores. *)

From S2P Require Import Prelude Coding Numbers Glob KeyFormat Comparator Doubles ValueFormat RocksDB LruCache Redis KeySpace Sample BaseData BaseSpec BaseScan BaseHolds BaseWrite BaseCursor Sets ZSets ZSetSpec ZSetWrite ZSetRead ZSetRange ZSetRemove ZSetLex ZSetKey ZSetStore ZSetRun.
Open Scope Z_scope.

#[local] Existing Instance sorted_db_scores.

(** [a] and [b] with the scores 1 and 2 under [q_key], [b] and [c] with 3 and 4
    under [w_key]. *)
Definition w_key : bytes := lit "w".
Definition sc (n : Z) : Z := double_of_Z n.
Definition ab_pairs : list ScoreMember := Eval vm_compute in [(sc 2, lit "b"); (sc 1, lit "a")].
Definition bc_pairs : list ScoreMember := Eval vm_compute in [(sc 3, lit "b"); (sc 4, lit "c")].

Definition z_start : zstate := fun _ => (∅, 0).
Definition z_one : zstate := zupdate 1000 (Add q_key ab_pairs) z_start.
Definition z_two : zstate := zupdate 1000 (Add w_key bc_pairs) z_one.
Definition zset_engine1 : Redis := after (exec 10 7 1000 (Add q_key ab_pairs)) fresh_engine.
Definition zset_engine : Redis := after (exec 10 7 1000 (Add w_key bc_pairs)) zset_engine1.

Lemma fresh_zengine : zengine_ok fresh_engine.
Proof. split; [apply fresh_engine_ok|]. split; [apply empty_db_scores|constructor]. Qed.

Lemma number_b s : (0 <=? s) && (s <? 2 ^ 64) && negb (double_is_nan s) = true -> number_score s.
Proof.
  rewrite !andb_true_iff, Z.leb_le, Z.ltb_lt, negb_true_iff. intros [[? ?] ?]. by split.
Qed.

Lemma numbers_b (l : list ScoreMember) :
  forallb (fun sm => (0 <=? fst sm) && (fst sm <? 2 ^ 64) && negb (double_is_nan (fst sm))) l = true ->
  Forall (fun sm => number_score (fst sm)) l.
Proof.
  rewrite forallb_forall. intros H. apply Forall_forall. intros sm Hin. apply number_b, H. by apply list_elem_of_In.
Qed.

(** A key without a meta value, or with one of version 1000, leaves room. *)
Lemma zroom r key :
  match meta_of (db_ r) key with
  | None => true
  | Some mv => match ParsedBaseMetaValue_parse true mv with Some q => piv_version (pbm_base q) <? 2 ^ 64 - 1 | None => true end
  end = true -> version_room (db_ r) key.
Proof. intros E p Hm (_ & _ & Hp). rewrite Hm, Hp in E. by apply Z.ltb_lt. Qed.

Lemma exec_after c fuel duration now r st :
  clock_ok now -> zreach fuel duration now st r -> allowed fuel now c st -> version_room (db_ r) (target c) ->
  zreach fuel duration now (zupdate now c st) (after (exec fuel duration now c) r).
Proof.
  intros Hnow H Ha Hroom. destruct (reach_related _ _ _ _ _ H) as [_ Hrel].
  destruct (step_any fuel duration now st r Hnow Hrel c Ha Hroom) as (r' & HE & _). unfold after. rewrite HE. by eapply zr_command.
Qed.

Lemma reach_start : zreach 10 7 1000 z_start fresh_engine.
Proof. apply zr_empty; [apply clock_1000|apply fresh_zengine|by intros []]. Qed.

Lemma reach_one : zreach 10 7 1000 z_one zset_engine1.
Proof.
  apply exec_after; [apply clock_1000|apply reach_start| |by apply zroom].
  split; [reflexivity|]. split; [by apply numbers_b|vm_compute; reflexivity].
Qed.

Lemma reach_two : zreach 10 7 1000 z_two zset_engine.
Proof.
  apply exec_after; [apply clock_1000|apply reach_one| |apply zroom; vm_compute; reflexivity].
  split; [reflexivity|]. split; [by apply numbers_b|vm_compute; reflexivity].
Qed.

(** What the two keys hold. *)
Definition ab : gmap bytes Z := list_to_map ((fun sm => (snd sm, fst sm)) <$> ab_pairs).
Definition bc : gmap bytes Z := list_to_map ((fun sm => (snd sm, fst sm)) <$> bc_pairs).

Lemma z_two_ab : z_two q_key = (ab, 0).
Proof. apply (bool_decide_unpack _). vm_compute. exact I. Qed.
Lemma z_two_bc : z_two w_key = (bc, 0).
Proof. apply (bool_decide_unpack _). vm_compute. exact I. Qed.

Lemma zset_engine_ok : zengine_ok zset_engine.
Proof. apply (reach_related _ _ _ _ _ reach_two). Qed.

Lemma zset_engine_ab : zset_holds (db_ zset_engine) 1000 q_key ab 0.
Proof. pose proof (proj2 (proj2 (reach_related _ _ _ _ _ reach_two)) q_key eq_refl) as H. by rewrite z_two_ab in H. Qed.

Lemma zset_engine_bc : zset_holds (db_ zset_engine) 1000 w_key bc 0.
Proof. pose proof (proj2 (proj2 (reach_related _ _ _ _ _ reach_two)) w_key eq_refl) as H. by rewrite z_two_bc in H. Qed.

Lemma ab_some : ab <> ∅.
Proof. intros H. apply (f_equal size) in H. vm_compute in H. discriminate. Qed.

Lemma ab_bounds : above_lowest ab /\ below_highest ab.
Proof. split; apply (bool_decide_unpack _); vm_compute; exact I. Qed.

Lemma zset_engine_room key : key = q_key \/ key = w_key -> version_room (db_ zset_engine) key.
Proof. intros [->| ->]; apply zroom; vm_compute; reflexivity. Qed.

(** ** The theorems *)

Lemma zset_indices_agree_witness :
  zrelated 1000 z_two zset_engine /\
  exists r', exec 10 7 1000 (PopMin q_key 1) zset_engine = Some (tt, r') /\ zrelated 1000 (zupdate 1000 (PopMin q_key 1) z_two) r'.
Proof.
  destruct (zset_indices_agree 10 7 1000 z_two zset_engine reach_two) as [H1 H2]. split; [exact H1|].
  apply (H2 (PopMin q_key 1)); [|apply zset_engine_room; by left].
  split; [reflexivity|]. cbn [target]. rewrite z_two_ab. split; [apply ab_bounds|vm_compute; lia].
Defined.

Lemma ZAdd_correct_witness : exists z' r',
  ZAdd 1000 q_key bc_pairs zset_engine = Some ((Status_OK, Z.of_nat (size z') - Z.of_nat (size ab)), r') /\
  zset_stores 1000 q_key z' (zkept ab 0) zset_engine r' /\ z' !! lit "b" = Some (sc 3).
Proof.
  destruct (ZAdd_correct 1000 q_key bc_pairs ab 0 zset_engine eq_refl clock_1000 zset_engine_ok zset_engine_ab
    (zset_engine_room _ (or_introl eq_refl)) (numbers_b bc_pairs eq_refl) ltac:(vm_compute; reflexivity)) as (z' & r' & H1 & H2 & H3).
  exists z', r'. split; [exact H1|]. split; [exact H2|]. rewrite H3. vm_compute. reflexivity.
Defined.

Lemma zset_by_rank_correct_witness : exists r',
  ZRange 10 7 1000 q_key 0 (-1) zset_engine = Some ((Status_OK, [(sc 1, lit "a"); (sc 2, lit "b")]), r') /\
  same_data zset_engine r'.
Proof.
  pose proof (zset_by_rank_correct 10 7 1000 q_key 0 (-1) ab 0 zset_engine eq_refl clock_1000 zset_engine_ok zset_engine_ab
    ltac:(unfold is_i64; lia) (proj1 ab_bounds) (proj2 ab_bounds) ltac:(lia) ltac:(lia) ltac:(vm_compute; lia)) as H.
  rewrite decide_False in H by exact ab_some. destruct H as [(r' & H1 & H2) _]. exists r'. split; [|exact H2].
  replace (redis_range (ranked ab) 0 (-1)) with [(sc 1, lit "a"); (sc 2, lit "b")] in H1 by (vm_compute; reflexivity). exact H1.
Defined.

Lemma zset_by_score_correct_witness : exists r',
  ZRangebyscore 10 7 1000 q_key (sc 1) (sc 2) false true (-1) 0 zset_engine = Some ((Status_OK, [(sc 2, lit "b")]), r') /\
  same_data zset_engine r'.
Proof.
  pose proof (zset_by_score_correct 10 7 1000 q_key (sc 1) (sc 2) false true (-1) 0 ab 0 zset_engine eq_refl zset_engine_ok
    zset_engine_ab (number_b (sc 1) eq_refl) (number_b (sc 2) eq_refl) (proj2 ab_bounds) ltac:(vm_compute; lia)) as H.
  cbv zeta in H. rewrite decide_False in H by exact ab_some. destruct H as [_ [(r' & H1 & H2) _]]. exists r'. split; [|exact H2].
  replace (limited (-1) 0 (members_within (sc 1) (sc 2) false true ab)) with [(sc 2, lit "b")] in H1 by (vm_compute; reflexivity).
  exact H1.
Defined.

Lemma zset_pop_correct_witness : exists r',
  ZPopMax 10 7 1000 q_key 1 zset_engine = Some ((Status_OK, [(sc 2, lit "b")]), r') /\
  zset_stores 1000 q_key (zset_without [(sc 2, lit "b")] ab) 0 zset_engine r'.
Proof.
  pose proof (zset_pop_correct 10 7 1000 q_key 1 ab 0 zset_engine eq_refl zset_engine_ok zset_engine_ab
    (proj1 ab_bounds) (proj2 ab_bounds) ltac:(vm_compute; lia)) as H.
  cbv zeta in H. rewrite decide_False in H by exact ab_some. destruct H as [_ (r' & H1 & H2)].
  replace (take (Z.to_nat 1) (rev (ranked ab))) with [(sc 2, lit "b")] in H1, H2 by (vm_compute; reflexivity).
  exists r'. split; [exact H1|exact H2].
Defined.

(** What each key holds, as a function. *)
Definition both (key : bytes) : gmap bytes Z := if decide (key = q_key) then ab else bc.

Lemma both_hold : zsets_hold 1000 both [q_key; w_key] zset_engine.
Proof.
  repeat constructor; try reflexivity; try (apply (bool_decide_unpack _); vm_compute; exact I).
  - exists 0. exact zset_engine_ab.
  - exists 0. exact zset_engine_bc.
Qed.

Definition ab_union : gmap bytes Z := {[lit "a" := sc 10; lit "b" := sc 23; lit "c" := sc 4]}.

Lemma ab_union_score m : ab_union !! m = union_score SUM [sc 10] (both <$> [q_key; w_key]) m.
Proof.
  destruct (decide (m ∈ [lit "a"; lit "b"; lit "c"])) as [Hm|Hm].
  - rewrite !elem_of_cons, elem_of_nil in Hm. destruct Hm as [->|[->|[->|[]]]]; vm_compute; reflexivity.
  - assert (Ha : ab !! m = None) by (apply not_elem_of_list_to_map_1; set_solver).
    assert (Hb : bc !! m = None) by (apply not_elem_of_list_to_map_1; set_solver).
    unfold union_score. cbn [fmap list_fmap contributions]. change (both q_key) with ab. change (both w_key) with bc.
    rewrite Ha, Hb. unfold ab_union. rewrite !elem_of_cons in Hm. by rewrite !lookup_insert_ne, lookup_singleton_ne by naive_solver.
Qed.

Lemma ZUnionstore_correct_witness : exists r',
  ZUnionstore 10 (fun _ => 7) 1000 q_key [q_key; w_key] [sc 10] SUM zset_engine =
    Some ((Status_OK, ab_union, 3), r') /\ zset_stores 1000 q_key ab_union 0 zset_engine r'.
Proof.
  refine (ZUnionstore_correct 10 (fun _ => 7) 1000 q_key [q_key; w_key] [sc 10] SUM both ab 0 ab_union zset_engine eq_refl clock_1000
    zset_engine_ok both_hold ltac:(repeat constructor; vm_compute; lia) zset_engine_ab (zset_engine_room _ (or_introl eq_refl))
    _ ltac:(apply (bool_decide_unpack _); vm_compute; exact I) ltac:(vm_compute; reflexivity)).
  apply ab_union_score.
Defined.

(** ** Infinite scores *)

(** [a] with the score minus infinity and [b] with 1 under [q_key], beside [bc]. *)
Definition inf_pairs : list ScoreMember := Eval vm_compute in [(2 ^ 63 + double_infinity, lit "a"); (sc 1, lit "b")].
Definition inf_engine : Redis :=
  after (exec 10 7 1000 (Add w_key bc_pairs)) (after (exec 10 7 1000 (Add q_key inf_pairs)) fresh_engine).

(** ZRANGE starts above minus infinity and counts its way from there: it misses
    the member and returns one of another key instead, while ZSCORE finds it. *)
Theorem infinite_score_missed :
  fst <$> ZRange 10 7 1000 q_key 0 (-1) inf_engine = Some (Status_OK, [(sc 1, lit "b"); (sc 3, lit "b")]) /\
  fst <$> ZScore 1000 q_key (lit "a") inf_engine = Some (Status_OK, 2 ^ 63 + double_infinity).
Proof. split; vm_compute; reflexivity. Qed.
