(* ===== verification/Streams.v ===== *)
(** * Stream commands

    Models [src/src/storage/src/redis_streams.cc] and [redis_streams.h].  A
    stream keeps its length, its first and last identifier, the largest
    identifier deleted and a version in a meta value of its own format
    ([StreamFormat]), and its messages in [kStreamsDataCF], keyed by the version
    and the serialised identifier.

    Results that the source returns through references are components of the
    result.  A loop takes fuel for its rounds; [None] is undefined behaviour, or
    a loop that has not ended. *)

From S2P Require Import Prelude Coding Numbers Glob KeyFormat Comparator ValueFormat StreamFormat RocksDB LruCache Redis BaseData.
Open Scope Z_scope.

(** ** Arguments and results *)

Definition kSTREAMID_MAX : streamID := mkStreamID ULLONG_MAX ULLONG_MAX.
Definition kSTREAMID_MIN : streamID := mkStreamID 0 0.

(** Field (the serialised identifier) and value. *)
Definition IdMessage : Type := bytes * bytes.

Inductive StreamTrimStrategy := TRIM_STRATEGY_NONE | TRIM_STRATEGY_MAXLEN | TRIM_STRATEGY_MINID.
#[export] Instance StreamTrimStrategy_eq_dec : EqDecision StreamTrimStrategy.
Proof. solve_decision. Defined.

(** Of the arguments, the members the storage layer reads. *)
Record StreamAddTrimArgs := mkStreamAddTrimArgs {
  sa_id : streamID;
  sa_id_given : bool;
  sa_seq_given : bool;
  sa_no_mkstream : bool;
  sa_trim_strategy : StreamTrimStrategy;
  sa_maxlen : Z;
  sa_minid : streamID
}.

Record StreamReadGroupReadArgs := mkStreamReadArgs {
  ra_keys : list bytes; ra_unparsed_ids : list bytes; ra_count : Z
}.

Record StreamScanArgs := mkStreamScanArgs {
  ss_start_sid : streamID; ss_end_sid : streamID; ss_limit : Z; ss_start_ex : bool; ss_end_ex : bool
}.

Record StreamInfoResult := mkStreamInfoResult {
  si_length : Z; si_last_id_str : bytes; si_max_deleted_entry_id_str : bytes; si_entries_added : Z;
  si_first_id_str : bytes
}.

Record ScanStreamOptions := mkScanStreamOptions {
  so_key : bytes; so_version : Z; so_start_sid : streamID; so_end_sid : streamID; so_limit : Z;
  so_start_ex : bool; so_end_ex : bool; so_is_reverse : bool
}.

Definition kDEFAULT_TRIM_BATCH_SIZE : Z := 1000.

Record TrimRet := mkTrimRet { tr_count : Z; tr_next_field : bytes; tr_max_deleted_field : bytes }.

(** [streamID::ToString] *)
Definition streamID_ToString (id : streamID) : bytes := decimal (ms id) ++ lit "-" ++ decimal (seq id).

(** [DeserializeFrom] reads 16 bytes. *)
Definition field_id (field : bytes) : option streamID :=
  if (length field <? 16)%nat then None else Some (streamID_DeserializeFrom field).

(** ** Identifiers as text ([StreamUtils]) *)

(** On the text of a C string. *)
Definition string2uint64 (s : bytes) : option Z :=
  match s with
  | [] => None
  | _ =>
      let '(tmp, rest, erange) := strtoull s in
      if negb (bool_decide (rest = [])) || erange then None else Some tmp
  end.

Definition string2int64 (s : bytes) : option Z :=
  match s with
  | [] => None
  | _ =>
      let '(tmp, rest, erange) := strtoll s in
      if negb (bool_decide (rest = [])) || erange then None else Some tmp
  end.

Definition string2int32 (s : bytes) : option Z :=
  match s with
  | [] => None
  | _ =>
      let '(tmp, rest, erange) := strtoll s in
      if negb (bool_decide (rest = [])) || erange || (tmp <? - 2 ^ 31) || (2 ^ 31 - 1 <? tmp) then None
      else Some tmp
  end.

(** [strchr(buf, '-')]: the text before the first dash, and after it. *)
Fixpoint split_dash (s : bytes) : bytes * option bytes :=
  match s with
  | [] => ([], None)
  | c :: s => if decide (c = x2d) then ([], Some s) else let '(a, b) := split_dash s in (c :: a, b)
  end.

(** [None] is [false].  [seq_ptr]: [seq_given] is not a null pointer; the second
    component is what it is set to. *)
Definition StreamGenericParseID (var : bytes) (missing_seq : Z) (strict seq_ptr : bool)
    : option (streamID * bool) :=
  if (128 - 1 <? length var)%nat then None
  else
    let buf := var ++ [x00] in
    let special c := bool_decide (nth 0 buf x00 = c) && bool_decide (nth 1 buf x00 = x00) in
    if strict && (special x2d || special x2b) then None
    else if special x2d then Some (mkStreamID 0 0, true)
    else if special x2b then Some (mkStreamID ULLONG_MAX ULLONG_MAX, true)
    else
      let '(text, dot) := split_dash (c_str var) in
      ms ← string2uint64 text;
      match dot with
      | Some text =>
          if seq_ptr && bool_decide (text = lit "*") then Some (mkStreamID ms 0, false)
          else seq ← string2uint64 text; Some (mkStreamID ms seq, true)
      | None => Some (mkStreamID ms missing_seq, true)
      end.

Definition StreamParseID (var : bytes) (missing_seq : Z) : option streamID :=
  fst <$> StreamGenericParseID var missing_seq false false.

Definition StreamParseStrictID (var : bytes) (missing_seq : Z) (seq_ptr : bool) : option (streamID * bool) :=
  StreamGenericParseID var missing_seq true seq_ptr.

(** With an [exclude] pointer: the identifier, and what the pointer is set to. *)
Definition StreamParseIntervalId (var : bytes) (missing_seq : Z) : option (streamID * bool) :=
  let exclude := (1 <? length var)%nat && bool_decide (nth 0 var x00 = x28) in
  if exclude then id ← StreamParseStrictID (drop 1 var) missing_seq false; Some (fst id, true)
  else id ← StreamParseID var missing_seq; Some (id, false).

(** ** Messages ([StreamUtils]) *)

Definition SerializeMessage (field_values : list bytes) (field_pos : nat) : bytes :=
  concat ((fun v => le_bytes 4 (u32 (Z.of_nat (length v))) ++ v) <$> drop field_pos field_values).

(** [pos] is a [uint32_t]; a length is read from the bytes at [pos]. *)
Fixpoint deserialize_loop (fuel : nat) (message : bytes) (pos : Z) (parsed_message : list bytes)
    : option (bool * list bytes) :=
  match fuel with
  | O => None
  | S fuel =>
      let size := Z.of_nat (length message) in
      if pos <? size then
        if size <? pos + 4 then None
        else
          let len := le_value (take 4 (drop (Z.to_nat pos) message)) in
          let pos := u32 (pos + 4) in
          if size <? u32 (pos + len) then Some (false, parsed_message)
          else
            deserialize_loop fuel message (u32 (pos + len))
              (parsed_message ++ [subseq (Z.to_nat pos) (Z.to_nat len) message])
      else Some (true, parsed_message)
  end.

Definition DeserializeMessage (message : bytes) : option (bool * list bytes) :=
  deserialize_loop (S (length message)) message 0 [].

Section Streams.
Context {R : RocksDB} {U : Uninit}.

(** ** Reading the meta value *)

(** On failure the meta value stays as it was constructed. *)
Definition GetStreamMeta (now : Z) (key prefetch_meta : bytes) : M (Status * StreamMetaValue) :=
  let* m := GetMetaOrPrefetched now kStreams key prefetch_meta in
  match m with
  | inl st => ret (st, StreamMetaValue_new)
  | inr (s, value) =>
      if ok s then ret (Status_OK, StreamMetaValue_ParseFrom StreamMetaValue_new value)
      else ret (s, StreamMetaValue_new)
  end.

(** [db_->Put(..., handles_[kMetaCF], base_meta_key.Encode(), stream_meta.value())] *)
Definition put_stream_meta (key : bytes) (m : StreamMetaValue) : M Status :=
  Write [Put kMetaCF (BaseKey_Encode key) (smv_value m)].

(** ** Scanning *)

(** The loop bodies of [StreamScanRange] and [StreamReScanRange]: [remain] and
    the messages.  [beyond]: how an identifier past [id_end] compares with it. *)
Definition scan_range_body (beyond : comparison) (id_end pattern k v : bytes) (st : Z * list IdMessage)
    : option (bool * (Z * list IdMessage)) :=
  let '(remain, id_messages) := st in
  q ← ParsedBaseDataKey k;
  let id := pdk_data q in
  if negb (bool_decide (id_end = [])) && bool_decide (bytes_compare id id_end = beyond) then Some (false, st)
  else
    matched ← StringMatch pattern id;
    Some (true, (remain - 1, if matched : bool then id_messages ++ [(id, v)] else id_messages)).

(** [next_id], from where the iterator stands afterwards. *)
Definition scan_range_next (beyond : comparison) (id_end prefix : bytes) (it : Iterator) : option bytes :=
  if Valid it && starts_with (iter_key it) prefix then
    q ← ParsedBaseDataKey (iter_key it);
    Some (if bool_decide (id_end = []) || negb (bool_decide (bytes_compare (pdk_data q) id_end = beyond))
          then pdk_data q else [])
  else Some [].

Definition StreamScanRange (fuel : nat) (key : bytes) (version : Z) (id_start id_end pattern : bytes) (limit : Z)
    : M (Status * list IdMessage * bytes) :=
  let start_no_limit := bool_decide (id_start = []) in
  let end_no_limit := bool_decide (id_end = []) in
  if negb start_no_limit && negb end_no_limit && bool_decide (bytes_compare id_start id_end = Gt) then
    ret (Status_InvalidArgument (lit "error in given range"), [], [])
  else
    let prefix := BaseDataKey_EncodeSeekKey key version [] in
    let* db := gets db_ in
    let* '(it, (_, id_messages)) :=
      lift (iter_while fuel Next (fun k '(remain, _) => (0 <? remain) && starts_with k prefix)
              (scan_range_body Gt id_end pattern)
              (Seek (NewIterator db kStreamsDataCF)
                 (if start_no_limit then prefix else BaseDataKey_Encode key version id_start))
              (limit, [])) in
    let* next_id := lift (scan_range_next Gt id_end prefix it) in
    ret (Status_OK, id_messages, next_id).

Definition StreamReScanRange (fuel : nat) (key : bytes) (version : Z) (id_start id_end pattern : bytes) (limit : Z)
    : M (Status * list IdMessage * bytes) :=
  let start_no_limit := bool_decide (id_start = []) in
  let end_no_limit := bool_decide (id_end = []) in
  if negb start_no_limit && negb end_no_limit && bool_decide (bytes_compare id_start id_end = Lt) then
    ret (Status_InvalidArgument (lit "error in given range"), [], [])
  else
    let start_key_version := if start_no_limit then u64 (version + 1) else version in
    let start_key_id := if start_no_limit then [] else id_start in
    let prefix := BaseDataKey_EncodeSeekKey key version [] in
    let* db := gets db_ in
    let* '(it, (_, id_messages)) :=
      lift (iter_while fuel Prev (fun k '(remain, _) => (0 <? remain) && starts_with k prefix)
              (scan_range_body Lt id_end pattern)
              (SeekForPrev (NewIterator db kStreamsDataCF)
                 (BaseDataKey_Encode key start_key_version start_key_id))
              (limit, [])) in
    let* next_id := lift (scan_range_next Lt id_end prefix it) in
    ret (Status_OK, id_messages, next_id).

(** Without the first message if [ex] and it is the one of [sid], and without the
    last one likewise. *)
Definition drop_front (ex : bool) (sid : streamID) (field_values : list IdMessage) : option (list IdMessage) :=
  match field_values with
  | fv :: rest => if ex then id ← field_id (fst fv); Some (if streamID_eqb id sid then rest else field_values)
                  else Some field_values
  | [] => Some []
  end.
Definition drop_back (ex : bool) (sid : streamID) (field_values : list IdMessage) : option (list IdMessage) :=
  match last field_values with
  | Some fv =>
      if ex then
        id ← field_id (fst fv);
        Some (if streamID_eqb id sid then take (length field_values - 1) field_values else field_values)
      else Some field_values
  | None => Some []
  end.

(** In the reverse direction both assignments go to [start_field]. *)
Definition ScanStream (fuel : nat) (op : ScanStreamOptions) : M (Status * list IdMessage * bytes) :=
  let pattern := lit "*" in
  let* '(s, field_values, next_field) :=
    if so_is_reverse op then
      let start_field :=
        if streamID_eqb (so_start_sid op) kSTREAMID_MAX then [] else streamID_Serialize (so_start_sid op) in
      StreamReScanRange fuel (so_key op) (so_version op) start_field [] pattern (so_limit op)
    else
      let start_field := streamID_Serialize (so_start_sid op) in
      let end_field :=
        if streamID_eqb (so_end_sid op) kSTREAMID_MAX then [] else streamID_Serialize (so_end_sid op) in
      StreamScanRange fuel (so_key op) (so_version op) start_field end_field pattern (so_limit op) in
  let* field_values := lift (drop_front (so_start_ex op) (so_start_sid op) field_values) in
  let* field_values := lift (drop_back (so_end_ex op) (so_end_sid op) field_values) in
  ret (s, field_values, next_field).

(** ** Deleting messages *)

Definition DeleteStreamMessages (key : bytes) (stream_meta : StreamMetaValue) (serialized_ids : list bytes)
    : M Status :=
  Write ((fun sid => Delete kStreamsDataCF (BaseDataKey_Encode key (smv_version stream_meta) sid)) <$> serialized_ids).

(** Sets the first identifier in both cases. *)
Definition SetFirstOrLastID (fuel : nat) (key : bytes) (stream_meta : StreamMetaValue) (is_set_first : bool)
    : M (Status * StreamMetaValue) :=
  if smv_length stream_meta =? 0 then ret (Status_OK, set_first_id stream_meta kSTREAMID_MIN)
  else
    let option :=
      if is_set_first then
        mkScanStreamOptions key (smv_version stream_meta) kSTREAMID_MIN kSTREAMID_MAX 1 false false false
      else mkScanStreamOptions key (smv_version stream_meta) kSTREAMID_MAX kSTREAMID_MIN 1 false false true in
    let* '(s, id_messages, _) := ScanStream fuel option in
    if negb (ok s) && negb (IsNotFound s) then
      ret (Status_Corruption (lit "Internal error: scan stream failed: " ++ Status_ToString s), stream_meta)
    else
      match id_messages with
      | [] => ret (Status_Corruption (lit "Internal error: no messages found but stream length is not 0"), stream_meta)
      | fv :: _ =>
          let* id := lift (field_id (fst fv)) in
          ret (Status_OK, set_first_id stream_meta id)
      end.

(** ** Trimming *)

(** The rounds of [TrimByMaxlen]; [back()] of no messages is undefined. *)
Fixpoint maxlen_loop (rounds fuel : nat) (key : bytes) (stream_meta : StreamMetaValue) (maxlen : Z) (trim_ret : TrimRet)
    : M (Status * TrimRet) :=
  match rounds with
  | O => lift None
  | S rounds =>
      let left := smv_length stream_meta - tr_count trim_ret in
      if maxlen <? u64 left then
        let cur_batch := Z.min (i32 (u64 (left - maxlen))) kDEFAULT_TRIM_BATCH_SIZE in
        let* '(s, id_messages, next_field) :=
          ScanStream fuel (mkScanStreamOptions key (smv_version stream_meta) (smv_first_id stream_meta) kSTREAMID_MAX
                             cur_batch false false false) in
        if negb (ok s) then ret (s, mkTrimRet (tr_count trim_ret) next_field (tr_max_deleted_field trim_ret))
        else
          let* back := lift (last id_messages) in
          let trim_ret := mkTrimRet (tr_count trim_ret + cur_batch) next_field (fst back) in
          let* s := DeleteStreamMessages key stream_meta (fst <$> id_messages) in
          if negb (ok s) then ret (s, trim_ret) else maxlen_loop rounds fuel key stream_meta maxlen trim_ret
      else ret (Status_OK, trim_ret)
  end.

Definition TrimByMaxlen (rounds fuel : nat) (key : bytes) (stream_meta : StreamMetaValue) (args : StreamAddTrimArgs)
    : M (Status * TrimRet) :=
  maxlen_loop rounds fuel key stream_meta (sa_maxlen args) (mkTrimRet 0 [] []).

(** The condition of the loop of [TrimByMinid]. *)
Definition minid_goes (stream_meta : StreamMetaValue) (serialized_min_id : bytes) (trim_ret : TrimRet) : bool :=
  bool_decide (bytes_compare (tr_next_field trim_ret) serialized_min_id = Lt) &&
  (0 <? smv_length stream_meta - tr_count trim_ret).

(** [!id_messages.empty() && id_messages.back().field == serialized_min_id] *)
Definition back_is (serialized_min_id : bytes) (id_messages : list IdMessage) : bool :=
  match last id_messages with Some fv => bool_decide (fst fv = serialized_min_id) | None => false end.

(** Its body: [inl] is an early return. *)
Definition minid_round (fuel : nat) (key : bytes) (stream_meta : StreamMetaValue) (minid : streamID) (trim_ret : TrimRet)
    : M (Status * TrimRet + TrimRet) :=
  let serialized_min_id := streamID_Serialize minid in
  let cur_batch := Z.min (i32 (smv_length stream_meta - tr_count trim_ret)) kDEFAULT_TRIM_BATCH_SIZE in
  let* '(s, id_messages, next_field) :=
    ScanStream fuel (mkScanStreamOptions key (smv_version stream_meta) (smv_first_id stream_meta) minid cur_batch
                       false false false) in
  if negb (ok s) then ret (inl (s, mkTrimRet (tr_count trim_ret) next_field (tr_max_deleted_field trim_ret)))
  else
    let at_minid := back_is serialized_min_id id_messages in
    let id_messages := if at_minid then take (length id_messages - 1) id_messages else id_messages in
    let next_field := if at_minid then serialized_min_id else next_field in
    let max_deleted_field :=
      match last id_messages with Some fv => fst fv | None => tr_max_deleted_field trim_ret end in
    let trim_ret := mkTrimRet (tr_count trim_ret + Z.of_nat (length id_messages)) next_field max_deleted_field in
    let* s := DeleteStreamMessages key stream_meta (fst <$> id_messages) in
    if negb (ok s) then ret (inl (s, trim_ret)) else ret (inr trim_ret).

Fixpoint minid_loop (rounds fuel : nat) (key : bytes) (stream_meta : StreamMetaValue) (minid : streamID)
    (trim_ret : TrimRet) : M (Status * TrimRet) :=
  match rounds with
  | O => lift None
  | S rounds =>
      if minid_goes stream_meta (streamID_Serialize minid) trim_ret then
        let* m := minid_round fuel key stream_meta minid trim_ret in
        match m with
        | inl st => ret st
        | inr trim_ret => minid_loop rounds fuel key stream_meta minid trim_ret
        end
      else ret (Status_OK, trim_ret)
  end.

Definition TrimByMinid (rounds fuel : nat) (key : bytes) (stream_meta : StreamMetaValue) (args : StreamAddTrimArgs)
    : M (Status * TrimRet) :=
  minid_loop rounds fuel key stream_meta (sa_minid args)
    (mkTrimRet 0 (streamID_Serialize (smv_first_id stream_meta)) []).

(** [count] and the meta value; every strategy but MAXLEN trims by MINID. *)
Definition TrimStream (rounds fuel : nat) (key : bytes) (stream_meta : StreamMetaValue) (args : StreamAddTrimArgs)
    : M (Status * Z * StreamMetaValue) :=
  let* '(s, trim_ret) :=
    match sa_trim_strategy args with
    | TRIM_STRATEGY_MAXLEN => TrimByMaxlen rounds fuel key stream_meta args
    | _ => TrimByMinid rounds fuel key stream_meta args
    end in
  if negb (ok s) || (tr_count trim_ret =? 0) then ret (s, 0, stream_meta)
  else
    let* first_id :=
      if smv_length stream_meta =? tr_count trim_ret then ret kSTREAMID_MIN
      else lift (field_id (tr_next_field trim_ret)) in
    let* max_deleted_id := lift (field_id (tr_max_deleted_field trim_ret)) in
    let stream_meta := set_first_id stream_meta first_id in
    let stream_meta :=
      if streamID_gtb max_deleted_id (smv_max_deleted_entry_id stream_meta)
      then set_max_deleted_entry_id stream_meta max_deleted_id else stream_meta in
    let stream_meta := set_length stream_meta (smv_length stream_meta - tr_count trim_ret) in
    ret (Status_OK, tr_count trim_ret, stream_meta).

(** ** XADD *)

(** [args.id] afterwards.  When the clock is behind the last identifier the
    sequence number of [args.id] is incremented, not that of the last one. *)
Definition GenerateStreamID (now : Z) (stream_meta : StreamMetaValue) (args : StreamAddTrimArgs) : Status * streamID :=
  let id := sa_id args in
  let last_id := smv_last_id stream_meta in
  let smaller := Status_InvalidArgument (lit "The ID specified in XADD is equal or smaller") in
  let generate_seq id :=
    if ms id <? ms last_id then (smaller, id)
    else if ms id =? ms last_id then
      if seq last_id =? ULLONG_MAX then (smaller, id) else (Status_OK, mkStreamID (ms id) (seq last_id + 1))
    else (Status_OK, mkStreamID (ms id) 0) in
  if sa_id_given args && sa_seq_given args && (ms id =? 0) && (seq id =? 0) then
    (Status_InvalidArgument (lit "The ID specified in XADD must be greater than 0-0"), id)
  else if negb (sa_id_given args) then
    if now <? ms last_id then
      (Status_OK,
       if seq last_id =? ULLONG_MAX then mkStreamID (u64 (ms last_id + 1)) 0
       else mkStreamID (ms last_id) (u64 (seq id + 1)))
    else generate_seq (mkStreamID now (seq id))
  else if negb (sa_seq_given args) then generate_seq id
  else if (ms id <? ms last_id) || ((ms id =? ms last_id) && (seq id <=? seq last_id)) then
    (Status_InvalidArgument (lit "INVALID ID given"), id)
  else (Status_OK, id).

(** From the check of the last identifier on. *)
Definition xadd_append (rounds fuel : nat) (now : Z) (key serialized_message : bytes) (args : StreamAddTrimArgs)
    (stream_meta : StreamMetaValue) : M (Status * streamID) :=
  if (ms (smv_last_id stream_meta) =? ULLONG_MAX) && (seq (smv_last_id stream_meta) =? ULLONG_MAX) then
    ret (Status_Corruption (lit "Fatal! Sequence number overflow !"), sa_id args)
  else
    let '(s, id) := GenerateStreamID now stream_meta args in
    if negb (ok s) then ret (s, id)
    else
      let* s := Write [Put kStreamsDataCF
                         (BaseDataKey_Encode key (smv_version stream_meta) (streamID_Serialize id))
                         serialized_message] in
      if negb (ok s) then
        ret (Status_Corruption (lit "error from XADD, insert stream message failed 1: " ++ Status_ToString s), id)
      else
        let stream_meta := if smv_length stream_meta =? 0 then set_first_id stream_meta id else stream_meta in
        let stream_meta := set_entries_added stream_meta (u64 (smv_entries_added stream_meta + 1)) in
        let stream_meta := set_last_id stream_meta id in
        let* len := lift (i32_val (smv_length stream_meta + 1)) in
        let stream_meta := set_length stream_meta len in
        let* '(s, stream_meta) :=
          match sa_trim_strategy args with
          | TRIM_STRATEGY_NONE => ret (Status_OK, stream_meta)
          | _ =>
              let* '(s, _, stream_meta) := TrimStream rounds fuel key stream_meta args in
              ret (s, stream_meta)
          end in
        if negb (ok s) then
          ret (Status_Corruption (lit "error from XADD, trim stream failed: " ++ Status_ToString s), id)
        else
          let* s := put_stream_meta key stream_meta in
          ret (if ok s then Status_OK else s, id).

(** The status and [args.id]. *)
Definition XAdd (rounds fuel : nat) (now : Z) (key serialized_message : bytes) (args : StreamAddTrimArgs)
    : M (Status * streamID) :=
  let* '(s, stream_meta) := GetStreamMeta now key [] in
  if IsNotFound s && sa_no_mkstream args then ret (Status_NotFound (lit "no_mkstream"), sa_id args)
  else if negb (IsNotFound s) && negb (ok s) then
    ret (Status_Corruption (lit "error from XADD, get stream meta failed: " ++ Status_ToString s), sa_id args)
  else
    let stream_meta := if IsNotFound s then InitMetaValue stream_meta else stream_meta in
    if (smv_length stream_meta =? 0) && sa_no_mkstream args then
      ret (Status_NotFound (lit "no_mkstream"), sa_id args)
    else
      let stream_meta := if smv_length stream_meta =? 0 then InitMetaValue stream_meta else stream_meta in
      xadd_append rounds fuel now key serialized_message args stream_meta.

(** ** XTRIM, XDEL *)

(** The status and [count]. *)
Definition XTrim (rounds fuel : nat) (now : Z) (key : bytes) (args : StreamAddTrimArgs) : M (Status * Z) :=
  let* '(s, stream_meta) := GetStreamMeta now key [] in
  if negb (ok s) then ret (s, 0)
  else
    let* '(s, count, stream_meta) := TrimStream rounds fuel key stream_meta args in
    if negb (ok s) then ret (s, count)
    else
      let* s := put_stream_meta key stream_meta in
      ret (if ok s then Status_OK else s, count).

(** The first loop of [XDel]: [count], less the identifiers that are not there. *)
Fixpoint xdel_count (key : bytes) (version : Z) (ids : list streamID) (count : Z) : M (Status * Z) :=
  match ids with
  | [] => ret (Status_OK, count)
  | id :: ids =>
      let* '(s, _) := Get kStreamsDataCF (BaseDataKey_Encode key version (streamID_Serialize id)) in
      if IsNotFound s then xdel_count key version ids (count - 1)
      else if negb (ok s) then ret (s, count)
      else xdel_count key version ids count
  end.

(** The second one, on the meta value. *)
Fixpoint xdel_update (fuel : nat) (key : bytes) (ids : list streamID) (stream_meta : StreamMetaValue)
    : M (Status * StreamMetaValue) :=
  match ids with
  | [] => ret (Status_OK, stream_meta)
  | id :: ids =>
      let stream_meta :=
        if streamID_gtb id (smv_max_deleted_entry_id stream_meta) then set_max_deleted_entry_id stream_meta id
        else stream_meta in
      let* '(s, stream_meta) :=
        if streamID_eqb id (smv_first_id stream_meta) then SetFirstOrLastID fuel key stream_meta true
        else if streamID_eqb id (smv_last_id stream_meta) then SetFirstOrLastID fuel key stream_meta false
        else ret (Status_OK, stream_meta) in
      if negb (ok s) then ret (s, stream_meta) else xdel_update fuel key ids stream_meta
  end.

Definition XDel (fuel : nat) (now : Z) (key : bytes) (ids : list streamID) : M (Status * Z) :=
  let* '(s, stream_meta) := GetStreamMeta now key [] in
  if negb (ok s) then ret (s, 0)
  else if 2 ^ 31 - 1 <? Z.of_nat (length ids) then ret (Status_InvalidArgument (lit "Too many IDs specified"), 0)
  else
    let* '(s, count) := xdel_count key (smv_version stream_meta) ids (Z.of_nat (length ids)) in
    if negb (ok s) then ret (s, count)
    else
      let* s := DeleteStreamMessages key stream_meta (streamID_Serialize <$> ids) in
      if negb (ok s) then ret (s, count)
      else
        let* len := lift (i32_val (smv_length stream_meta - count)) in
        let* '(s, stream_meta) := xdel_update fuel key ids (set_length stream_meta len) in
        if negb (ok s) then ret (s, count)
        else
          let* s := put_stream_meta key stream_meta in
          ret (s, count).

(** ** Reading *)

Definition scan_meta (fuel : nat) (now : Z) (key prefetch_meta : bytes) (args : StreamScanArgs) (is_reverse : bool)
    : M (Status * list IdMessage) :=
  let* '(s, stream_meta) := GetStreamMeta now key prefetch_meta in
  if negb (ok s) then ret (s, [])
  else
    let* '(s, field_values, _) :=
      ScanStream fuel (mkScanStreamOptions key (smv_version stream_meta) (ss_start_sid args) (ss_end_sid args)
                         (ss_limit args) (ss_start_ex args) (ss_end_ex args) is_reverse) in
    ret (s, field_values).

Definition XRange (fuel : nat) (now : Z) (key prefetch_meta : bytes) (args : StreamScanArgs) : M (Status * list IdMessage) :=
  scan_meta fuel now key prefetch_meta args false.
Definition XRevrange (fuel : nat) (now : Z) (key : bytes) (args : StreamScanArgs) : M (Status * list IdMessage) :=
  scan_meta fuel now key [] args true.

Definition XLen (now : Z) (key : bytes) : M (Status * Z) :=
  let* '(s, stream_meta) := GetStreamMeta now key [] in
  if negb (ok s) then ret (s, 0) else ret (Status_OK, smv_length stream_meta).

Definition XInfo (now : Z) (key : bytes) : M (Status * StreamInfoResult) :=
  let* '(s, m) := GetStreamMeta now key [] in
  if negb (ok s) then ret (s, mkStreamInfoResult 0 [] [] 0 [])
  else
    ret (Status_OK,
         mkStreamInfoResult (smv_length m) (streamID_ToString (smv_last_id m))
           (streamID_ToString (smv_max_deleted_entry_id m)) (smv_entries_added m) (streamID_ToString (smv_first_id m))).

(** The first loop of [XRead]: the streams there are, with their positions in the
    arguments; [keys[i]] past the end is undefined. *)
Fixpoint xread_metas (now : Z) (keys unparsed_ids : list bytes) (streammeta_idx : list (StreamMetaValue * bytes * bytes))
    : M (Status * list (StreamMetaValue * bytes * bytes)) :=
  match unparsed_ids with
  | [] => ret (Status_OK, streammeta_idx)
  | unparsed_id :: unparsed_ids =>
      let* key := lift (head keys) in
      let* '(s, stream_meta) := GetStreamMeta now key [] in
      if IsNotFound s then xread_metas now (tail keys) unparsed_ids streammeta_idx
      else if negb (ok s) then ret (s, streammeta_idx)
      else xread_metas now (tail keys) unparsed_ids (streammeta_idx ++ [(stream_meta, key, unparsed_id)])
  end.

(** The second one: [results] and [reserved_keys]. *)
Fixpoint xread_scan (fuel : nat) (count : Z) (streammeta_idx : list (StreamMetaValue * bytes * bytes))
    (results : list (list IdMessage)) (reserved_keys : list bytes) : M (Status * list (list IdMessage) * list bytes) :=
  match streammeta_idx with
  | [] => ret (Status_OK, results, reserved_keys)
  | (stream_meta, key, unparsed_id) :: streammeta_idx =>
      if bool_decide (unparsed_id = lit "<") then
        ret (Status_Corruption (lit "The > ID can be specified only when calling " ++
                                lit "XREADGROUP using the GROUP <group> " ++ lit "<consumer> option."),
             results, reserved_keys)
      else
        let id :=
          if bool_decide (unparsed_id = lit "$") then Some (smv_last_id stream_meta)
          else fst <$> StreamParseStrictID unparsed_id 0 false in
        match id with
        | None => ret (Status_Corruption (lit "Invalid stream ID specified as stream "), results, reserved_keys)
        | Some id =>
            let* '(s, field_values, _) :=
              ScanStream fuel (mkScanStreamOptions key (smv_version stream_meta) id kSTREAMID_MAX count
                                 true false false) in
            if negb (ok s) && negb (IsNotFound s) then ret (s, results, reserved_keys)
            else xread_scan fuel count streammeta_idx (results ++ [field_values]) (reserved_keys ++ [key])
        end
  end.

Definition XRead (fuel : nat) (now : Z) (args : StreamReadGroupReadArgs)
    : M (Status * list (list IdMessage) * list bytes) :=
  let* '(s, streammeta_idx) := xread_metas now (ra_keys args) (ra_unparsed_ids args) [] in
  if negb (ok s) then ret (s, [], [])
  else xread_scan fuel (ra_count args) streammeta_idx [] [].

(** ** Key-level commands *)

(** Leaves the other members of [key_info] alone. *)
Fixpoint scan_streams (fuel : nat) (it : Iterator) (keys invaild_keys : Z) : option (Z * Z) :=
  match fuel with
  | O => None
  | S fuel =>
      if Valid it then
        if ExpectedMetaValue kStreams (iter_value it) then
          if smv_length (ParsedStreamMetaValue (iter_value it)) =? 0
          then scan_streams fuel (Next it) keys (u64 (invaild_keys + 1))
          else scan_streams fuel (Next it) (u64 (keys + 1)) invaild_keys
        else scan_streams fuel (Next it) keys invaild_keys
      else Some (keys, invaild_keys)
  end.

Definition ScanStreamsKeyNum (fuel : nat) (key_info : KeyInfo) : M (Status * KeyInfo) :=
  let* db := gets db_ in
  let* '(keys, invaild_keys) := lift (scan_streams fuel (SeekToFirst (NewIterator db kMetaCF)) 0 0) in
  ret (Status_OK, mkKeyInfo keys (expires key_info) (avg_ttl key_info) invaild_keys).

(** Words its message in a way of its own. *)
Definition StreamsDel (now : Z) (key prefetch_meta : bytes) : M Status :=
  let* m :=
    match prefetch_meta with
    | [] =>
        GetMetaOr (WrongTypeIn (lit ", expected type: ", lit ", get type: ") key kStreams) now kStreams key
    | _ => ret (inr (Status_OK, prefetch_meta))
    end in
  match m with
  | inl st => ret st
  | inr (s, meta_value) =>
      if ok s then
        let stream_meta_value := StreamMetaValue_ParseFrom StreamMetaValue_new meta_value in
        if smv_length stream_meta_value =? 0 then ret (Status_NotFound [])
        else
          let statistic := u32 (smv_length stream_meta_value) in
          let* s := put_stream_meta key (InitMetaValue stream_meta_value) in
          let* _ := UpdateSpecificKeyStatistics kStreams key statistic in
          ret s
      else ret s
  end.

End Streams.
