(* ===== verification/StreamSpec.v ===== *)
(** * Messages in the database

    The messages of a version as a list in the order of their identifiers.  The
    lemmas say what a scan of a range reads, in both directions, and what
    excluding the ends of the range leaves. *)

From Stdlib Require Import Sorting.Sorted.
From stdpp Require Import sorting.
From S2P Require Import Prelude Coding Numbers Glob KeyFormat Comparator ValueFormat StreamFormat RocksDB LruCache Redis KeySpace BaseData BaseSpec BaseScan BaseHolds BaseWrite BaseCursor Streams.
Open Scope Z_scope.

(** ** Identifiers *)

Lemma length_Serialize id : length (streamID_Serialize id) = 16%nat.
Proof. by rewrite Serialize_form, length_app, !length_be. Qed.

Lemma field_id_Serialize id : streamID_ok id -> field_id (streamID_Serialize id) = Some id.
Proof.
  intros [H1 H2]. unfold field_id. rewrite length_Serialize. simpl. rewrite Serialize_form.
  unfold streamID_DeserializeFrom. rewrite drop_app_length' by (by rewrite length_be).
  rewrite Decode_Encode_be, <- (app_nil_r (EncodeUint64InBigEndian (seq id))), Decode_Encode_be by done.
  by destruct id.
Qed.

Lemma Serialize_nonempty id : streamID_Serialize id <> [].
Proof. intros E. pose proof (length_Serialize id) as H. by rewrite E in H. Qed.

#[export] Instance streamID_compare_order : CompareOrder streamID_compare.
Proof.
  apply compare_order_thenc; [apply (compare_order_pullback ms)|apply (compare_order_pullback seq)]; apply _.
Qed.

Lemma streamID_compare_eq a b : streamID_compare a b = Eq <-> a = b.
Proof.
  unfold streamID_compare. destruct a as [i j], b as [i' j']. cbn [ms seq].
  destruct (Z.compare_spec i i'); destruct (Z.compare_spec j j'); cbn; naive_solver lia.
Qed.

Lemma streamID_eqb_spec a b : streamID_eqb a b = bool_decide (a = b).
Proof.
  unfold streamID_eqb. destruct a as [i j], b as [i' j']. cbn [ms seq].
  destruct (Z.eqb_spec i i'), (Z.eqb_spec j j'); subst; cbn; symmetry;
    [by apply bool_decide_eq_true|apply bool_decide_eq_false; congruence..].
Qed.

Lemma streamID_gtb_spec a b : streamID_gtb a b = bool_decide (streamID_compare a b = Gt).
Proof.
  unfold streamID_gtb, streamID_compare. destruct a as [i j], b as [i' j']. cbn [ms seq].
  destruct (Z.compare_spec i i'); destruct (Z.compare_spec j j'); subst; cbn;
    rewrite ?Z.eqb_refl, ?Z.ltb_irrefl; repeat match goal with
    | |- context [?x =? ?y] => destruct (Z.eqb_spec x y); try lia
    | |- context [?x <? ?y] => destruct (Z.ltb_spec x y); try lia
    end; done.
Qed.

Lemma Serialize_inj a b :
  streamID_ok a -> streamID_ok b -> streamID_Serialize a = streamID_Serialize b -> a = b.
Proof. intros Ha Hb E. pose proof (field_id_Serialize a Ha) as H. rewrite E, field_id_Serialize in H by done. congruence. Qed.

Lemma below_max id : streamID_ok id -> streamID_compare id kSTREAMID_MAX <> Gt.
Proof.
  intros [H1 H2]. unfold streamID_compare, kSTREAMID_MAX, ULLONG_MAX, is_u64 in *. cbn [ms seq].
  destruct (Z.compare_spec (ms id) (2 ^ 64 - 1)); destruct (Z.compare_spec (seq id) (2 ^ 64 - 1)); cbn; (done || lia).
Qed.

Lemma min_id_ok : streamID_ok kSTREAMID_MIN.
Proof. split; cbn; unfold is_u64; lia. Qed.
Lemma max_id_ok : streamID_ok kSTREAMID_MAX.
Proof. split; cbn; unfold is_u64, ULLONG_MAX; lia. Qed.
#[export] Hint Resolve min_id_ok max_id_ok : core.

(** ** Messages in order *)

(** A message, and how it is stored. *)
Definition message : Type := streamID * bytes.
Definition field_of (x : message) : IdMessage := (streamID_Serialize (fst x), snd x).
Definition id_map (l : list message) : gmap bytes bytes := list_to_map (field_of <$> l).

Lemma field_id_field x : streamID_ok (fst x) -> field_id (fst (field_of x)) = Some (fst x).
Proof. apply field_id_Serialize. Qed.

Record messages_ok (l : list message) : Prop := {
  mo_sorted : StronglySorted (fun x y => streamID_compare (fst x) (fst y) = Lt) l;
  mo_ids : Forall (fun x => streamID_ok (fst x)) l
}.

Lemma messages_listing l : messages_ok l -> listing (id_map l) (field_of <$> l).
Proof.
  intros [Hs Hi]. split; [|done]. induction Hs as [|x l Hs IH Hf]; [constructor|].
  apply Forall_cons in Hi as [Hx Hi]. rewrite fmap_cons. constructor; [by apply IH|].
  rewrite Forall_fmap. rewrite Forall_forall in *. intros y Hy. unfold compose, field_of. cbn [fst].
  rewrite Serialize_compare; auto.
Qed.

Lemma messages_ok_app l1 l2 : messages_ok (l1 ++ l2) -> messages_ok l1 /\ messages_ok l2.
Proof.
  intros [Hs Hi]. apply Forall_app in Hi as [H1 H2].
  split; (split; [|done]); [by eapply StronglySorted_app_1_l|by eapply StronglySorted_app_1_r].
Qed.

(** The messages from [start] to [stop]. *)
Definition between (start stop : streamID) (l : list message) : list message :=
  filter (fun x => streamID_compare (fst x) start <> Lt /\ streamID_compare (fst x) stop <> Gt) l.

(** An end of a range as [ScanStream] passes it; the largest identifier is no
    bound. *)
Definition bound (id : streamID) : bytes := if streamID_eqb id kSTREAMID_MAX then [] else streamID_Serialize id.

(** Whether the loops stop at a message. *)
Definition past (id_end id : bytes) : bool := negb (bool_decide (id_end = [])) && bool_decide (bytes_compare id id_end = Gt).

Lemma past_bound stop id :
  streamID_ok stop -> streamID_ok id ->
  past (bound stop) (streamID_Serialize id) = bool_decide (streamID_compare id stop = Gt).
Proof.
  intros Hs Hi. unfold past, bound. rewrite streamID_eqb_spec.
  destruct (bool_decide_reflect (stop = kSTREAMID_MAX)) as [->|_].
  - symmetry. apply bool_decide_eq_false. by apply below_max.
  - rewrite bool_decide_eq_false_2 by apply Serialize_nonempty. by rewrite Serialize_compare.
Qed.

Lemma star_matches id : StringMatch (lit "*") id = Some true.
Proof. by destruct id. Qed.

(** A sorted list falls into the elements that satisfy a property that passes
    to smaller ones, and the others. *)
Lemma sorted_cut {A} (Rel : A -> A -> Prop) (P : A -> Prop) `{!forall x, Decision (P x)} l :
  StronglySorted Rel l -> (forall x y, Rel x y -> P y -> P x) ->
  exists l1 l2, l = l1 ++ l2 /\ Forall P l1 /\ Forall (fun x => ~ P x) l2.
Proof.
  intros Hs HP. induction Hs as [|x l Hs IH Hf]; [by exists [], []|].
  destruct (decide (P x)) as [Px|Nx].
  - destruct IH as (l1 & l2 & -> & H1 & H2). exists (x :: l1), l2. by split_and!; [|constructor|].
  - exists [], (x :: l). split_and!; [done|done|]. constructor; [done|].
    eapply Forall_impl; [exact Hf|]. intros y Hy Py. eauto.
Qed.

(** Sorted messages around a range. *)
Lemma between_split start stop l :
  messages_ok l ->
  exists l1 b l2, l = l1 ++ b ++ l2 /\ between start stop l = b /\
    Forall (fun x => streamID_compare (fst x) start = Lt) l1 /\
    Forall (fun x => streamID_compare (fst x) start <> Lt) (b ++ l2) /\
    Forall (fun x => streamID_compare (fst x) stop <> Gt) b /\
    Forall (fun x => streamID_compare (fst x) stop = Gt) l2.
Proof.
  intros [Hs _].
  destruct (sorted_cut _ (fun x : message => streamID_compare (fst x) start = Lt) l Hs) as (l1 & l' & -> & H1 & H2).
  { intros x y Hxy Hy. by eapply cmp_trans. }
  apply StronglySorted_app_1_r in Hs.
  destruct (sorted_cut _ (fun x : message => streamID_compare (fst x) stop <> Gt) l' Hs) as (b & l2 & -> & H3 & H4).
  { intros x y Hxy Hy. by rewrite (cmp_lt_le_trans _ _ (fst y)). }
  exists l1, b, l2. split_and!; try done.
  - unfold between. rewrite !filter_app. rewrite (filter_none _ l1), (filter_none _ l2), app_nil_r; [simpl|..].
    + apply Forall_app in H2 as [H2 _]. apply filter_every, Forall_and. done.
    + eapply Forall_impl; [exact H4|]. intros x Hx [_ Hy]. by apply Hx.
    + eapply Forall_impl; [exact H1|]. by intros x Hx [Hy _].
  - eapply Forall_impl; [exact H4|]. intros x Hx. by apply dec_stable.
Qed.

Section Scan.
Context {R : RocksDB} {L : RocksDBLaws R} {U : Uninit}.
Context (key : bytes) (version : Z) (K : key_ok key = true) (V : is_u64 version).

Local Notation prefix := (seek_prefix key version).
Local Notation cond := (fun k '(remain, _) => (0 <? remain) && starts_with k prefix).

(** What a round adds. *)
Definition range_step (st : Z * list IdMessage) (e : entry) : Z * list IdMessage :=
  (fst st - 1, snd st ++ [(match ParsedBaseDataKey (fst e) with Some q => pdk_data q | None => [] end, snd e)]).

Lemma range_fold (l : list (bytes * bytes)) : forall st,
  fold_left range_step (entry_of key version <$> l) st = (fst st - Z.of_nat (length l), snd st ++ l).
Proof.
  induction l as [|[f v] l IH]; intros [remain acc]; simpl.
  - rewrite app_nil_r. f_equal. lia.
  - rewrite IH. unfold range_step. simpl. rewrite parse_member by done. cbn [pdk_data].
    f_equal; [lia|by rewrite <- app_assoc].
Qed.

Lemma range_body beyond id_end x st :
  negb (bool_decide (id_end = [])) && bool_decide (bytes_compare (fst x) id_end = beyond) = false ->
  scan_range_body beyond id_end (lit "*") (fst (entry_of key version x)) (snd (entry_of key version x)) st =
  Some (true, range_step st (entry_of key version x)).
Proof.
  destruct st as [remain acc]. intros Hx. unfold scan_range_body, range_step. simpl. rewrite parse_member by done. simpl.
  by rewrite Hx.
Qed.

(** A round of the loop over the first [n] of [b]. *)
Lemma range_runs beyond id_end (b : list (bytes * bytes)) limit :
  Forall (fun x => negb (bool_decide (id_end = [])) && bool_decide (bytes_compare (fst x) id_end = beyond) = false) b ->
  runs cond (scan_range_body beyond id_end (lit "*")) range_step
    (entry_of key version <$> take (Z.to_nat limit) b) (limit, []).
Proof.
  intros Hb b1 e b2 E st'. apply fmap_app_inv in E as (y1 & y2 & -> & Ey & Eb).
  destruct y2 as [|x y2]; [done|]. injection Ey as -> ->. subst st'. rewrite range_fold. cbn [fst snd].
  assert (Hx : x ∈ take (Z.to_nat limit) b) by (rewrite Eb; set_solver).
  assert (Hl : length (take (Z.to_nat limit) b) = length (y1 ++ x :: y2)) by congruence.
  rewrite length_take, length_app in Hl. simpl in Hl. split.
  - unfold entry_of. cbn [fst]. rewrite starts_with_member, andb_true_r by done. apply Z.ltb_lt. lia.
  - apply range_body. rewrite Forall_forall in Hb. apply Hb. rewrite <- (take_drop (Z.to_nat limit) b). apply elem_of_app. by left.
Qed.

(** The loop over [b], up to the limit, when [d] is past the end and [c] is not
    under the prefix. *)
Lemma range_walk id_end (b d : list (bytes * bytes)) c bef limit fuel it :
  position it = cursor_at bef ((entry_of key version <$> b ++ d) ++ c) ->
  Forall (fun x => past id_end (fst x) = false) b ->
  Forall (fun x => past id_end (fst x) = true) d ->
  Forall (fun e => ~ prefix `prefix_of` fst e) c -> (length b < fuel)%nat ->
  let n := Z.to_nat limit in
  exists it' rest, iter_while fuel Next cond (scan_range_body Gt id_end (lit "*")) it (limit, []) =
      Some (it', (rest, take n b)) /\
    scan_range_next Gt id_end prefix it' = Some (next_of (drop n b)).
Proof.
  intros Hp Hb Hd Hc Hf n.
  destruct (walk_next cond (scan_range_body Gt id_end (lit "*")) range_step (entry_of key version <$> take n b) bef
    ((entry_of key version <$> drop n b ++ d) ++ c) (limit, []) fuel it) as (it' & HW & Hp').
  - rewrite Hp, app_assoc, <- fmap_app, app_assoc, take_drop. done.
  - by apply range_runs.
  - rewrite range_fold, length_take. cbn [fst snd]. destruct (drop n b) as [|x l] eqn:Ed; cbn [app].
    + assert (Hend : match (entry_of key version <$> d) ++ c with
                     | [] => True | e :: _ => forall st, cond (fst e) st = false \/
                       scan_range_body Gt id_end (lit "*") (fst e) (snd e) st = Some (false, st) end).
      { destruct d as [|x d]; [destruct c as [|e c]; [done|]|]; cbn; intros [remain acc].
        - left. apply Forall_inv in Hc. by rewrite starts_with_beyond, andb_false_r.
        - right. unfold scan_range_body. rewrite parse_member by done. apply Forall_inv in Hd. unfold past in Hd. cbn [mbind option_bind pdk_data]. by rewrite Hd. }
      destruct ((entry_of key version <$> d) ++ c) as [|e l]; [done|].
      destruct (Hend (limit - Z.of_nat (n `min` length b), take n b)) as [H|H]; [by left|].
      cbn. match goal with |- ?b = false \/ _ => destruct b; [by right|by left] end.
    + left. cbn. assert (n < length b)%nat by (apply (f_equal length) in Ed; rewrite length_drop in Ed; simpl in Ed; lia).
      rewrite (proj2 (Z.ltb_ge _ _)); [done|lia].
  - rewrite length_fmap, length_take. lia.
  - rewrite range_fold in HW. cbn [fst snd app] in HW. eexists it', _. split; [exact HW|].
    unfold scan_range_next. rewrite Valid_position, Hp'. destruct (drop n b) as [|x l] eqn:Ed; cbn [app] in *.
    + destruct d as [|x d]; [destruct c as [|e c]; [done|]|]; cbn [app fmap list_fmap cursor_at] in *;
        rewrite (key_position _ _ _ _ Hp').
      * apply Forall_inv in Hc. by rewrite starts_with_beyond.
      * cbn. rewrite starts_with_member, parse_member by done. cbn. apply Forall_inv in Hd. unfold past in Hd.
        apply andb_prop in Hd as [H1 H2]. apply negb_true_iff in H1. by rewrite H1, H2.
    + rewrite (key_position _ _ _ _ Hp'). cbn. rewrite starts_with_member, parse_member by done. cbn.
      assert (Hx : past id_end (fst x) = false).
      { rewrite Forall_forall in Hb. apply Hb. rewrite <- (take_drop n b), Ed. set_solver. }
      unfold past in Hx. destruct (bool_decide (id_end = [])); [done|]. cbn in Hx. by rewrite Hx.
Qed.

(** Where the loop starts. *)
Lemma Seek_messages db start stop l :
  healthy db -> members_at kStreamsDataCF db key version (id_map l) -> messages_ok l ->
  streamID_ok start -> streamID_ok stop ->
  let b := field_of <$> between start stop l in
  exists bef d c, position (Seek (NewIterator db kStreamsDataCF) (BaseDataKey_Encode key version (streamID_Serialize start))) =
      cursor_at bef ((entry_of key version <$> b ++ d) ++ c) /\
    Forall (fun x => past (bound stop) (fst x) = false) b /\ Forall (fun x => past (bound stop) (fst x) = true) d /\
    Forall (fun e => ~ prefix `prefix_of` fst e) c.
Proof.
  intros Hdb Hm Hl Hstart Hstop.
  destruct (Seek_start kStreamsDataCF eq_refl key version K V db _ _ _ Hdb Hm (Encode_starts key version K (streamID_Serialize start)))
    as (a & fl1 & fl2 & c & Hlist & H1 & H2 & Hc & Hp & E).
  destruct (between_split start stop l Hl) as (l1 & b & l2 & El & -> & B1 & B2 & B3 & B4).
  pose proof (listing_unique _ _ _ Hlist (messages_listing _ Hl)) as Ef. rewrite El, fmap_app in Ef.
  pose proof (mo_ids _ Hl) as Hi. rewrite El, !Forall_app in Hi. destruct Hi as (I1 & I2 & I3).
  assert (Hcmp : forall x c, streamID_ok (fst x) -> streamID_compare (fst x) start = c ->
    bytes_compare (fst (field_of x)) (streamID_Serialize start) = c) by (intros; subst; by apply Serialize_compare).
  rewrite Forall_forall in B1, B2, B3, B4, I1, I2, I3.
  destruct (split_unique (fun x : bytes * bytes => bytes_compare (fst x) (streamID_Serialize start) = Lt) fl1 fl2
    (field_of <$> l1) (field_of <$> b ++ l2)) as [-> ->]; try done.
  - rewrite Forall_fmap, Forall_forall. intros x Hx. apply Hcmp; auto.
  - rewrite Forall_fmap, Forall_forall. intros x Hx. unfold compose.
    rewrite (Hcmp x _ ltac:(apply elem_of_app in Hx as [?|?]; auto) eq_refl). auto.
  - rewrite fmap_app in Hp. eexists _, (field_of <$> l2), c. split_and!; [exact Hp|..].
    + rewrite Forall_fmap, Forall_forall. intros x Hx. unfold compose, field_of. cbn [fst]. rewrite past_bound by auto.
      apply bool_decide_eq_false. auto.
    + rewrite Forall_fmap, Forall_forall. intros x Hx. unfold compose, field_of. cbn [fst]. rewrite past_bound by auto.
      apply bool_decide_eq_true. auto.
    + by eapply Forall_impl; [exact Hc|intros e []].
Qed.

Lemma StreamScanRange_ok fuel start stop limit l r :
  healthy (db_ r) -> members_at kStreamsDataCF (db_ r) key version (id_map l) -> messages_ok l ->
  streamID_ok start -> streamID_ok stop -> streamID_compare start stop <> Gt ->
  (length l < fuel)%nat ->
  let b := between start stop l in let n := Z.to_nat limit in
  StreamScanRange fuel key version (streamID_Serialize start) (bound stop) (lit "*") limit r =
  Some ((Status_OK, field_of <$> take n b, next_of (field_of <$> drop n b)), r).
Proof.
  intros Hdb Hm Hl Hstart Hstop Hle Hfuel b n.
  destruct (Seek_messages (db_ r) start stop l Hdb Hm Hl Hstart Hstop) as (bef & d & c & Hp & Hb & Hd & Hc).
  destruct (range_walk (bound stop) _ d c bef limit fuel _ Hp Hb Hd Hc) as (it' & rest & HW & HN);
    [rewrite length_fmap; exact (Nat.le_lt_trans _ _ _ (length_filter _ _) Hfuel)|].
  unfold StreamScanRange. rewrite (bool_decide_eq_false_2 (streamID_Serialize start = [])) by apply Serialize_nonempty.
  cbn [negb andb]. pose proof (past_bound stop start Hstop Hstart) as H. unfold past in H.
  rewrite H, bool_decide_eq_false_2 by done. rewrite bind_gets.
  change (BaseDataKey_EncodeSeekKey key version []) with prefix.
  rewrite (bind_lift _ _ _ _ HW), (bind_lift _ _ _ _ HN). unfold ret. by rewrite fmap_take, fmap_drop.
Qed.

(** A range whose ends are the wrong way round. *)
Lemma StreamScanRange_empty fuel start stop limit r :
  streamID_ok start -> streamID_ok stop -> streamID_compare start stop = Gt ->
  StreamScanRange fuel key version (streamID_Serialize start) (bound stop) (lit "*") limit r =
  Some ((Status_InvalidArgument (lit "error in given range"), [], []), r).
Proof.
  intros Hstart Hstop Hgt. unfold StreamScanRange.
  rewrite (bool_decide_eq_false_2 (streamID_Serialize start = [])) by apply Serialize_nonempty. cbn [negb andb].
  pose proof (past_bound stop start Hstop Hstart) as H. unfold past in H. by rewrite H, bool_decide_eq_true_2.
Qed.

(** *** Backwards *)

(** The messages up to [start], the last one first. *)
Definition down_from (start : streamID) (l : list message) : list message :=
  rev (filter (fun x => streamID_compare (fst x) start <> Gt) l).

Lemma SeekForPrev_messages db start l :
  healthy db -> members_at kStreamsDataCF db key version (id_map l) -> messages_ok l -> streamID_ok start ->
  let b := field_of <$> down_from start l in
  exists aft c,
    position (SeekForPrev (NewIterator db kStreamsDataCF) (BaseDataKey_Encode key version (streamID_Serialize start))) =
      cursor_prev ((entry_of key version <$> b) ++ c) aft /\
    Forall (fun e => ~ prefix `prefix_of` fst e) c.
Proof.
  intros Hdb Hm Hl Hstart.
  destruct (members_entries kStreamsDataCF eq_refl key version K V db _ Hdb Hm) as (a & fl & c & E & Hlist & Ha & Hc).
  rewrite <- (listing_unique _ _ _ (messages_listing _ Hl) Hlist) in E. clear fl Hlist.
  destruct (sorted_cut _ (fun x : message => streamID_compare (fst x) start <> Gt) l (mo_sorted _ Hl)) as (l1 & l2 & -> & H1 & H2).
  { intros x y Hxy Hy. by rewrite (cmp_lt_le_trans _ _ (fst y)). }
  pose proof (mo_ids _ Hl) as Hi. apply Forall_app in Hi as [I1 I2].
  assert (Hcmp : forall x c, streamID_ok (fst x) -> streamID_compare (fst x) start = c ->
    bytes_compare (fst (entry_of key version (field_of x))) (BaseDataKey_Encode key version (streamID_Serialize start)) = c).
  { intros x c0 Hx Hc0. unfold entry_of. cbn [fst]. rewrite data_key_compare by done. subst c0. by apply Serialize_compare. }
  assert (Ed : down_from start (l1 ++ l2) = rev l1).
  { unfold down_from. by rewrite filter_app, (filter_every _ l1), (filter_none _ l2), app_nil_r. }
  rewrite Ed. cbv zeta. eexists ((entry_of key version <$> (field_of <$> l2)) ++ c), (rev a). split_and!.
  - rewrite SeekForPrev_position. destruct (NewIterator_content db kStreamsDataCF Hdb) as [-> ->]; [done|].
    rewrite (base_cf_compare kStreamsDataCF eq_refl), E, !fmap_app, <- app_assoc, app_assoc.
    rewrite (seek_for_prev_split _ _ (a ++ (entry_of key version <$> (field_of <$> l1)))).
    + rewrite rev_app_distr, app_nil_r, <- !fmap_rev. done.
    + apply Forall_app. split.
      * eapply Forall_impl; [exact Ha|]. intros e He. rewrite (cmp_lt_le_trans bytes_compare _ prefix); [done..|].
        intros H%(cmp_Gt_Lt bytes_compare). revert H. apply prefix_compare. by apply seek_prefix_of.
      * rewrite !Forall_fmap. rewrite Forall_forall in *. intros x Hx. unfold compose. rewrite (Hcmp x _ (I1 x Hx) eq_refl). auto.
    + destruct l2 as [|x l2]; [destruct c as [|e c]; [done|]|]; cbn [app fmap list_fmap].
      * apply Forall_inv in Hc as [H3 H4].
        destruct (bytes_compare (fst e) (BaseDataKey_Encode key version (streamID_Serialize start))) eqn:Ec; [|exfalso|done].
        -- apply bytes_compare_eq in Ec. exfalso. apply H4. rewrite Ec. by apply seek_prefix_of.
        -- apply (prefix_interval _ _ _ H3 H4 Ec). by apply seek_prefix_of.
      * apply Hcmp; [by apply Forall_inv in I2|]. apply Forall_inv in H2. by apply dec_stable.
  - apply Forall_rev. eapply Forall_impl; [exact Ha|]. intros e He Hp. by apply (prefix_compare _ _ Hp).
Qed.

Lemma range_back (b : list (bytes * bytes)) c aft limit fuel it :
  position it = cursor_prev ((entry_of key version <$> b) ++ c) aft ->
  Forall (fun e => ~ prefix `prefix_of` fst e) c -> (length b < fuel)%nat ->
  exists it' rest next, iter_while fuel Prev cond (scan_range_body Lt [] (lit "*")) it (limit, []) =
      Some (it', (rest, take (Z.to_nat limit) b)) /\
    scan_range_next Lt [] prefix it' = Some next.
Proof.
  intros Hp Hc Hf. set (n := Z.to_nat limit).
  destruct (walk_prev cond (scan_range_body Lt [] (lit "*")) range_step (entry_of key version <$> take n b) aft
    ((entry_of key version <$> drop n b) ++ c) (limit, []) fuel it) as (it' & HW & Hp').
  - by rewrite Hp, app_assoc, <- fmap_app, take_drop.
  - apply range_runs. by apply Forall_forall.
  - rewrite range_fold, length_take. cbn [fst snd]. destruct (drop n b) as [|x l] eqn:Ed; cbn [app fmap list_fmap].
    + destruct c as [|e c]; [done|]. left. apply Forall_inv in Hc. by rewrite starts_with_beyond, andb_false_r.
    + left. assert (n < length b)%nat by (apply (f_equal length) in Ed; rewrite length_drop in Ed; simpl in Ed; lia).
      rewrite (proj2 (Z.ltb_ge _ _)); [done|lia].
  - rewrite length_fmap, length_take. lia.
  - rewrite range_fold in HW. cbn [fst snd app] in HW. eexists it', _. unfold scan_range_next. rewrite Valid_position, Hp'.
    destruct (drop n b) as [|x l]; [destruct c as [|e c]; [by exists []|]|]; cbn [app fmap list_fmap cursor_prev] in *;
      rewrite (key_position _ _ _ _ Hp').
    + apply Forall_inv in Hc. rewrite starts_with_beyond by done. by eexists.
    + unfold entry_of. cbn [fst]. rewrite starts_with_member, parse_member by done. by eexists.
Qed.

Lemma StreamReScanRange_ok fuel start limit l r :
  healthy (db_ r) -> members_at kStreamsDataCF (db_ r) key version (id_map l) -> messages_ok l ->
  streamID_ok start -> (length l < fuel)%nat ->
  exists next, StreamReScanRange fuel key version (streamID_Serialize start) [] (lit "*") limit r =
    Some ((Status_OK, field_of <$> take (Z.to_nat limit) (down_from start l), next), r).
Proof.
  intros Hdb Hm Hl Hstart Hfuel.
  destruct (SeekForPrev_messages (db_ r) start l Hdb Hm Hl Hstart) as (aft & c & Hp & Hc).
  destruct (range_back _ c aft limit fuel _ Hp Hc) as (it' & rest & next & HW & HN);
    [rewrite length_fmap; unfold down_from; rewrite length_rev; exact (Nat.le_lt_trans _ _ _ (length_filter _ _) Hfuel)|].
  exists next. unfold StreamReScanRange.
  rewrite (bool_decide_eq_false_2 (streamID_Serialize start = [])) by apply Serialize_nonempty.
  cbn [negb andb bool_decide]. change (bool_decide (@nil byte = [])) with true. cbn [negb andb]. rewrite bind_gets.
  change (BaseDataKey_EncodeSeekKey key version []) with prefix.
  rewrite (bind_lift _ _ _ _ HW), (bind_lift _ _ _ _ HN). unfold ret. by rewrite fmap_take.
Qed.

End Scan.

(** ** Open ranges *)

(** Without the first, or the last, message if it is the one of [sid]. *)
Definition without_front (ex : bool) (sid : streamID) (l : list message) : list message :=
  match l with x :: l' => if ex && bool_decide (fst x = sid) then l' else l | [] => [] end.
Definition without_back (ex : bool) (sid : streamID) (l : list message) : list message :=
  match last l with Some x => if ex && bool_decide (fst x = sid) then take (length l - 1) l else l | None => l end.

Lemma drop_front_ok ex sid (l : list message) :
  Forall (fun x => streamID_ok (fst x)) l -> drop_front ex sid (field_of <$> l) = Some (field_of <$> without_front ex sid l).
Proof.
  intros Hl. destruct l as [|x l]; [done|]. apply Forall_inv in Hl. unfold drop_front, without_front.
  cbn [fmap list_fmap]. destruct ex; cbn [andb]; [|done].
  rewrite field_id_field by done. cbn [mbind option_bind]. rewrite streamID_eqb_spec. by case_bool_decide.
Qed.

Lemma drop_back_ok ex sid (l : list message) :
  Forall (fun x => streamID_ok (fst x)) l -> drop_back ex sid (field_of <$> l) = Some (field_of <$> without_back ex sid l).
Proof.
  intros Hl. unfold drop_back, without_back. rewrite fmap_last. destruct (last l) as [x|] eqn:E; cbn [fmap option_fmap option_map].
  - destruct ex; cbn [andb]; [|done]. apply last_Some in E as (l' & ->). apply Forall_app in Hl as [_ Hx]. apply Forall_inv in Hx.
    cbn [andb]. rewrite field_id_field by done. cbn [mbind option_bind].
    rewrite streamID_eqb_spec, length_fmap. case_bool_decide; [|done]. by rewrite <- fmap_take.
  - apply last_None in E. by subst l.
Qed.

(** The messages of a range whose ends may be open. *)
Definition interval (start_ex end_ex : bool) (start stop : streamID) (l : list message) : list message :=
  filter (fun x => (streamID_compare (fst x) start = Gt \/ (start_ex = false /\ fst x = start)) /\
                   (streamID_compare (fst x) stop = Lt \/ (end_ex = false /\ fst x = stop))) l.

Lemma above_start start (l : list message) :
  messages_ok l -> Forall (fun x => streamID_compare (fst x) start <> Lt) l ->
  filter (fun x => streamID_compare (fst x) start = Gt) l = without_front true start l.
Proof.
  intros [Hs _] Hl. destruct Hs as [|x l Hs Hf]; [done|]. apply Forall_cons in Hl as [Hx Hl]. simpl.
  assert (Hall : streamID_compare (fst x) start <> Lt -> Forall (fun y : message => streamID_compare (fst y) start = Gt) l).
  { intros H. eapply Forall_impl; [exact Hf|]. intros y Hy. apply (cmp_Gt_Lt streamID_compare).
    apply (cmp_le_lt_trans streamID_compare _ (fst x)); [|done]. intros E%(cmp_Gt_Lt streamID_compare). done. }
  destruct (bool_decide_reflect (fst x = start)) as [E|N].
  - rewrite filter_cons_False by (rewrite E, (cmp_refl (cmp:=streamID_compare)); done). apply filter_every. auto.
  - apply filter_every. constructor; [|auto]. destruct (streamID_compare (fst x) start) eqn:E; [|done..].
    by apply streamID_compare_eq in E.
Qed.

Lemma below_stop stop (l : list message) :
  messages_ok l -> Forall (fun x => streamID_compare (fst x) stop <> Gt) l ->
  filter (fun x => streamID_compare (fst x) stop = Lt) l = without_back true stop l.
Proof.
  intros [Hs _] Hl. unfold without_back. destruct (last l) as [x|] eqn:E; [|by apply last_None in E as ->].
  apply last_Some in E as (l' & ->). apply Forall_app in Hl as [_ Hx]. apply Forall_inv in Hx. cbn [andb].
  assert (Hall : Forall (fun y : message => streamID_compare (fst y) stop = Lt) l').
  { apply Forall_forall. intros y Hy. apply (cmp_lt_le_trans streamID_compare _ (fst x)); [|done].
    apply (StronglySorted_app_1_elem_of _ _ _ y x Hs); set_solver. }
  rewrite filter_app, (filter_every _ l') by done.
  destruct (bool_decide_reflect (fst x = stop)) as [E|N].
  - rewrite filter_cons_False by (rewrite E, (cmp_refl (cmp:=streamID_compare)); done).
    rewrite length_app. simpl. by rewrite Nat.add_sub, take_app_length, filter_nil, app_nil_r.
  - rewrite filter_cons_True; [done|]. destruct (streamID_compare (fst x) stop) eqn:E; [|done..].
    by apply streamID_compare_eq in E.
Qed.

Lemma Forall_filtered {A} (P Q : A -> Prop) `{!forall x, Decision (Q x)} l : Forall P l -> Forall P (filter Q l).
Proof. rewrite !Forall_forall. intros HP x [_ Hx]%list_elem_of_filter. auto. Qed.

Lemma messages_ok_filter (P : message -> Prop) `{!forall x, Decision (P x)} l : messages_ok l -> messages_ok (filter P l).
Proof.
  intros [Hs Hi]. split; [|by apply Forall_filtered].
  induction Hs as [|x l Hs IH Hf]; [constructor|]. apply Forall_inv_tail in Hi. rewrite filter_cons.
  case_decide; [|auto]. constructor; [auto|by apply Forall_filtered].
Qed.

(** What is left of a range is the open range. *)
Lemma interval_excl start_ex end_ex start stop l :
  messages_ok l ->
  without_back end_ex stop (without_front start_ex start (between start stop l)) = interval start_ex end_ex start stop l.
Proof.
  intros Hl. set (b := between start stop l).
  assert (Hb : messages_ok b) by by apply messages_ok_filter.
  assert (Hin : Forall (fun x : message => streamID_compare (fst x) start <> Lt /\ streamID_compare (fst x) stop <> Gt) b).
  { apply Forall_forall. intros x [Hx _]%list_elem_of_filter. done. }
  assert (H1 : without_front start_ex start b =
    filter (fun x => streamID_compare (fst x) start = Gt \/ (start_ex = false /\ fst x = start)) b).
  { destruct start_ex.
    - rewrite <- above_start; [|done|by eapply Forall_impl; [exact Hin|intros x []]].
      apply list_filter_iff. intros x. intuition congruence.
    - rewrite filter_every; [by destruct b|]. eapply Forall_impl; [exact Hin|]. intros x [Hx _].
      destruct (streamID_compare (fst x) start) eqn:E; [|done|by left]. right. split; [done|]. by apply streamID_compare_eq. }
  set (b1 := without_front start_ex start b) in *.
  assert (Hb1 : messages_ok b1) by (rewrite H1; by apply messages_ok_filter).
  assert (Hin1 : Forall (fun x : message => streamID_compare (fst x) stop <> Gt) b1).
  { rewrite H1. apply Forall_filtered. by eapply Forall_impl; [exact Hin|intros x []]. }
  assert (H2 : without_back end_ex stop b1 =
    filter (fun x => streamID_compare (fst x) stop = Lt \/ (end_ex = false /\ fst x = stop)) b1).
  { destruct end_ex.
    - rewrite <- below_stop by done. apply list_filter_iff. intros x. intuition congruence.
    - rewrite filter_every; [unfold without_back; by destruct (last b1)|]. eapply Forall_impl; [exact Hin1|]. intros x Hx.
      destruct (streamID_compare (fst x) stop) eqn:E; [|by left|done]. right. split; [done|]. by apply streamID_compare_eq. }
  rewrite H2, H1. unfold b, between, interval. rewrite !list_filter_filter. apply list_filter_iff. intros x.
  rewrite <- !streamID_compare_eq. destruct (streamID_compare (fst x) start), (streamID_compare (fst x) stop); intuition congruence.
Qed.
