(* ===== verification/StreamRead.v ===== *)
(** * Reading streams

    [stream_holds] relates a database to a stream: its messages in the order of
    their identifiers, the last identifier, the largest one deleted and the
    number of messages ever added.  The theorems say what the commands that read
    a stream return. *)

From Stdlib Require Import Sorting.Sorted.
From stdpp Require Import sorting.
From S2P Require Import Prelude Coding Numbers Glob KeyFormat Comparator ValueFormat StreamFormat RocksDB LruCache Redis KeySpace BaseData BaseSpec BaseScan BaseHolds BaseWrite BaseCursor Streams StreamSpec.
Open Scope Z_scope.

(** ** What a meta value says *)

Record coherent_ranges (m : StreamMetaValue) : Prop := {
  cr_version : is_u64 (smv_version m);
  cr_added : is_u64 (smv_entries_added m);
  cr_length : is_i32 (smv_length m);
  cr_first : streamID_ok (smv_first_id m);
  cr_last : streamID_ok (smv_last_id m);
  cr_max_deleted : streamID_ok (smv_max_deleted_entry_id m);
  cr_type : GetMetaValueType (smv_value m) = smv_type m;
  cr_parse : StreamMetaValue_ParseFrom StreamMetaValue_new (smv_value m) = m;
  cr_some : smv_value m <> []
}.

Lemma stream_coherent_ranges m : stream_meta_coherent m -> coherent_ranges m.
Proof.
  intros H. pose proof H as (Hlen & Hp). apply stream_meta_coherent_object in H as (l & Hl & ->).
  constructor; try apply DecodeFixed64_range; try (split; apply DecodeFixed64_range); try done.
  - unfold stream_meta_object, is_i32, i32. cbn [smv_length]. set (v := DecodeFixed32 _). clearbody v.
    pose proof (Z.mod_pos_bound (v + 2 ^ 31) (2 ^ 32) ltac:(done)). lia.
  - unfold stream_meta_sizes in Hl. chunk_hyp Hl. unfold stream_meta_object, GetMetaValueType. cbn.
    destruct c as [|t c]; done.
  - intros E. by rewrite E in Hlen.
Qed.

(** ** Identifiers as text *)

Lemma strtoull_range s : is_u64 (fst (fst (strtoull s))).
Proof.
  unfold strtoull. destruct (match skip_spaces s with [] => _ | _ => _ end) as [negative p].
  pose proof (span_digits_spec p) as Hd. destruct (span_digits p) as [[|c ds] rest]; [by split|].
  destruct Hd as (_ & Hd & _).
  pose proof (digits_value_ge _ 0 Hd ltac:(lia)) as Hv.
  set (v := digits_value 0 (c :: ds)) in *. destruct (Z.ltb_spec ULLONG_MAX v) as [_|Hle]; [by split|].
  destruct negative; cbn [fst]; [apply u64_range|]. unfold ULLONG_MAX, is_u64 in *. lia.
Qed.

Lemma string2uint64_range s v : string2uint64 s = Some v -> is_u64 v.
Proof.
  unfold string2uint64. destruct s as [|c s]; [done|]. pose proof (strtoull_range (c :: s)) as H.
  destruct (strtoull (c :: s)) as [[v' rest] e]. destruct (_ || _); [done|]. by intros [= <-].
Qed.

Lemma parse_ok var missing strict ptr id given :
  is_u64 missing -> StreamGenericParseID var missing strict ptr = Some (id, given) -> streamID_ok id.
Proof.
  intros Hm. unfold StreamGenericParseID. destruct (_ <? _)%nat; [done|]. cbv zeta.
  destruct (strict && _); [done|]. destruct (_ && _); [by intros [= <- <-]|]. destruct (_ && _); [by intros [= <- <-]|].
  destruct (split_dash _) as [text [dot|]]; intros (i & Hi%string2uint64_range & H)%bind_Some; [|by injection H as <- <-].
  destruct (_ && _); [by injection H as <- <-|]. apply bind_Some in H as (j & Hj%string2uint64_range & H).
  by injection H as <- <-.
Qed.

Lemma string2uint64_udecimal v : is_u64 v -> string2uint64 (udecimal 20 v) = Some v.
Proof.
  intros Hv. unfold is_u64 in Hv. pose proof (udecimal_is_digit 20 v ltac:(lia)) as Hd.
  pose proof (udecimal_value 20 v ltac:(lia)) as Hval. pose proof (udecimal_nonempty 19 v) as Hne.
  unfold string2uint64, strtoull. destruct (udecimal 20 v) as [|c s]; [simpl in Hne; lia|].
  pose proof Hd as Hc. cbn in Hc. apply andb_prop in Hc as [Hc _].
  destruct (digit_is_sign c Hc) as (H1 & H2 & _ & H3). cbn [skip_spaces].
  rewrite H3, !decide_False, span_digits_all by done. rewrite Hval, (proj2 (Z.ltb_ge _ _)) by (unfold ULLONG_MAX; lia).
  done.
Qed.

Lemma split_dash_digits s t : forallb is_digit s = true -> split_dash (s ++ x2d :: t) = (s, Some t).
Proof.
  induction s as [|c s IH]; [done|]. cbn. intros [Hc Hs]%andb_prop.
  rewrite decide_False by apply (digit_is_sign c Hc). by rewrite IH.
Qed.
Lemma split_dash_none s : forallb is_digit s = true -> split_dash s = (s, None).
Proof.
  induction s as [|c s IH]; [done|]. cbn. intros [Hc Hs]%andb_prop.
  rewrite decide_False by apply (digit_is_sign c Hc). by rewrite IH.
Qed.

(** Text that starts with a number. *)
Lemma parse_number v tail missing strict ptr :
  is_u64 v -> (length tail <= 100)%nat -> x00 ∉ tail -> (tail = [] \/ exists t, tail = x2d :: t) ->
  StreamGenericParseID (udecimal 20 v ++ tail) missing strict ptr =
  match tail with
  | [] => Some (mkStreamID v missing, true)
  | _ :: text =>
      if ptr && bool_decide (text = lit "*") then Some (mkStreamID v 0, false)
      else seq ← string2uint64 text; Some (mkStreamID v seq, true)
  end.
Proof.
  intros Hv Hlen Hnul Hdash. pose proof (string2uint64_udecimal v Hv) as Hs. unfold is_u64 in Hv.
  pose proof (udecimal_length_le v Hv). pose proof (udecimal_is_digit 20 v ltac:(lia)) as Hd.
  pose proof (udecimal_nonempty 19 v) as Hne. unfold StreamGenericParseID.
  rewrite (proj2 (Nat.ltb_ge _ _)) by (rewrite length_app; lia).
  assert (Hc : c_str (udecimal 20 v ++ tail) = udecimal 20 v ++ tail).
  { apply c_str_no_nul. rewrite elem_of_app. intros [H1|H1]; [|done]. rewrite forallb_forall in Hd.
    apply list_elem_of_In, Hd in H1. done. }
  rewrite Hc. clear Hc.
  assert (Hsp : split_dash (udecimal 20 v ++ tail) = (udecimal 20 v, match tail with [] => None | _ :: t => Some t end)).
  { destruct Hdash as [->|(t & ->)]; [rewrite app_nil_r; by apply split_dash_none|by apply split_dash_digits]. }
  rewrite Hsp, Hs. clear Hsp. destruct (udecimal 20 v) as [|c s]; [simpl in Hne; lia|].
  cbn in Hd. apply andb_prop in Hd as [Hd _]. destruct (digit_is_sign c Hd) as (H1 & H2 & _ & _).
  cbn [nth app]. rewrite !(bool_decide_eq_false_2 (c = _)) by done. cbn [andb orb]. rewrite andb_false_r.
  by destruct tail.
Qed.

(** C31: an identifier printed by [ToString] is parsed back, whatever the
    sequence number for texts without one is; a text without a sequence number
    gets that one, and a star asks for one.  In an interval an opening
    parenthesis excludes the identifier. *)
Theorem stream_id_text_correct id missing strict ptr :
  streamID_ok id ->
  let text := streamID_ToString id in
  StreamGenericParseID text missing strict ptr = Some (id, true) /\
  StreamGenericParseID (decimal (ms id)) missing strict ptr = Some (mkStreamID (ms id) missing, true) /\
  StreamGenericParseID (decimal (ms id) ++ lit "-*") missing strict true = Some (mkStreamID (ms id) 0, false) /\
  StreamParseIntervalId text missing = Some (id, false) /\
  StreamParseIntervalId (lit "(" ++ text) missing = Some (id, true).
Proof.
  destruct id as [i j]. intros [Hi Hj]. cbn [ms seq] in *. unfold streamID_ToString. cbn [ms seq].
  assert (D : forall v, is_u64 v -> decimal v = udecimal 20 v).
  { intros v Hv. unfold decimal. by rewrite (proj2 (Z.ltb_ge _ _)) by apply Hv. }
  rewrite !D by done.
  assert (HP : forall strict ptr, StreamGenericParseID (udecimal 20 i ++ x2d :: udecimal 20 j) missing strict ptr =
    Some (mkStreamID i j, true)).
  { intros strict' ptr'. pose proof (udecimal_length_le j Hj). unfold is_u64 in Hj.
    pose proof (udecimal_is_digit 20 j ltac:(lia)) as Hd. rewrite forallb_forall in Hd.
    rewrite parse_number; [|done|cbn [length]; lia| |by right; eexists].
    - rewrite bool_decide_eq_false_2, andb_false_r, string2uint64_udecimal; [done..|].
      intros E. specialize (Hd x2a). rewrite E in Hd. by specialize (Hd (or_introl eq_refl)).
    - rewrite elem_of_cons. intros [|H1]; [done|]. by apply list_elem_of_In, Hd in H1. }
  change (lit "-" ++ udecimal 20 j) with (x2d :: udecimal 20 j). cbv zeta. split_and!.
  - apply HP.
  - rewrite <- (app_nil_r (udecimal 20 i)). rewrite parse_number; [done|done|cbn; lia|apply not_elem_of_nil|by left].
  - rewrite parse_number; [done|done|cbn; lia| |by right; eexists]. by apply (bool_decide_unpack (x00 ∉ lit "-*")).
  - unfold StreamParseIntervalId, StreamParseID. rewrite HP, (bool_decide_eq_false_2 (nth 0 _ _ = _)), andb_false_r; [done|].
    pose proof (udecimal_is_digit 20 i ltac:(apply Hi)) as Hd. pose proof (udecimal_nonempty 19 i) as Hne.
    destruct (udecimal 20 i) as [|c s]; [simpl in Hne; lia|]. cbn in *. intros ->. by destruct s.
  - unfold StreamParseIntervalId, StreamParseStrictID.
    change (lit "(" ++ udecimal 20 i ++ x2d :: udecimal 20 j) with (x28 :: (udecimal 20 i ++ x2d :: udecimal 20 j)).
    rewrite (proj2 (Nat.ltb_lt _ _)) by (cbn [length]; rewrite length_app; cbn; lia). cbn [nth drop].
    rewrite bool_decide_eq_true_2 by done. cbn [andb]. by rewrite HP.
Qed.

Lemma stream_id_text_correct_witness :
  StreamParseIntervalId (lit "(1526919030474-55") 0 = Some (mkStreamID 1526919030474 55, true).
Proof.
  refine (proj2 (proj2 (proj2 (proj2 (stream_id_text_correct (mkStreamID 1526919030474 55) 0 true true _)))));
    split; unfold is_u64; cbn; lia.
Defined.

(** ** Messages *)

Lemma SerializeMessage_cons v fvs :
  SerializeMessage (v :: fvs) 0 = le_bytes 4 (u32 (Z.of_nat (length v))) ++ v ++ SerializeMessage fvs 0.
Proof. unfold SerializeMessage. rewrite !drop_0. cbn [fmap list_fmap concat]. by rewrite <- app_assoc. Qed.

Lemma deserialize_Serialize fvs : forall pre acc fuel,
  (length fvs < fuel)%nat -> Z.of_nat (length (pre ++ SerializeMessage fvs 0)) < 2 ^ 32 ->
  deserialize_loop fuel (pre ++ SerializeMessage fvs 0) (Z.of_nat (length pre)) acc = Some (true, acc ++ fvs).
Proof.
  induction fvs as [|v fvs IH]; intros pre acc [|fuel] Hf Hlen; try (cbn in Hf; lia); cbn [deserialize_loop].
  - change (SerializeMessage [] 0) with (@nil byte). by rewrite !app_nil_r, Z.ltb_irrefl.
  - rewrite SerializeMessage_cons in *. set (rest := SerializeMessage fvs 0) in *.
    rewrite !length_app, length_le_bytes in Hlen. rewrite (u32_id (Z.of_nat (length v))) in * by (unfold is_u32; lia).
    rewrite !length_app, length_le_bytes.
    rewrite (proj2 (Z.ltb_lt _ _)), (proj2 (Z.ltb_ge _ _)) by lia.
    rewrite Nat2Z.id, drop_app_length, take_app_length' by by rewrite length_le_bytes.
    rewrite le_value_le_bytes, Z.mod_small by (cbn; lia).
    rewrite !(u32_id (Z.of_nat (length pre) + 4)) by (unfold is_u32; lia). rewrite !u32_id by (unfold is_u32; lia).
    rewrite (proj2 (Z.ltb_ge _ _)) by lia.
    replace (pre ++ le_bytes 4 (Z.of_nat (length v)) ++ v ++ rest)
      with ((pre ++ le_bytes 4 (Z.of_nat (length v)) ++ v) ++ rest) by (by rewrite <- !app_assoc).
    replace (Z.of_nat (length pre) + 4 + Z.of_nat (length v))
      with (Z.of_nat (length (pre ++ le_bytes 4 (Z.of_nat (length v)) ++ v)))
      by (rewrite !length_app, length_le_bytes; lia).
    replace (subseq _ _ _) with v.
    + unfold rest. rewrite IH; [by rewrite <- app_assoc|cbn in Hf; lia|]. fold rest.
      rewrite !length_app, length_le_bytes. lia.
    + unfold subseq. replace ((pre ++ _ ++ v) ++ rest) with ((pre ++ le_bytes 4 (Z.of_nat (length v))) ++ v ++ rest)
        by (by rewrite <- !app_assoc).
      rewrite drop_app_length' by (rewrite length_app, length_le_bytes; lia). by rewrite Nat2Z.id, take_app_length.
Qed.

(** the fields and values of a message, from [field_pos] on, are read back
    from its serialised form, empty ones included. *)
Theorem stream_message_roundtrip field_values field_pos :
  Z.of_nat (length (SerializeMessage field_values field_pos)) < 2 ^ 32 ->
  DeserializeMessage (SerializeMessage field_values field_pos) = Some (true, drop field_pos field_values).
Proof.
  intros Hlen. change (SerializeMessage field_values field_pos) with (SerializeMessage (drop field_pos field_values) 0) in *.
  unfold DeserializeMessage. apply (deserialize_Serialize _ [] []); [|done]. generalize (drop field_pos field_values).
  clear. intros l. induction l as [|v l IH]; [cbn; lia|].
  rewrite SerializeMessage_cons, !length_app, length_le_bytes. cbn [length]. lia.
Qed.

Lemma stream_message_roundtrip_witness :
  DeserializeMessage (SerializeMessage [lit "xadd"; lit "k"; lit "f"; []] 2) = Some (true, [lit "f"; []]).
Proof. apply (stream_message_roundtrip [lit "xadd"; lit "k"; lit "f"; []] 2). vm_compute. reflexivity. Defined.

(** ** What a stream is *)

Record stream := mkStream {
  st_messages : list message;
  st_last : streamID;
  st_max_deleted : streamID;
  st_added : Z
}.

(** As [InitMetaValue] leaves it. *)
Definition empty_stream : stream := mkStream [] kSTREAMID_MIN kSTREAMID_MIN 0.

Definition stream_of (m : StreamMetaValue) (l : list message) : stream :=
  mkStream l (smv_last_id m) (smv_max_deleted_entry_id m) (smv_entries_added m).

Definition first_id_of (l : list message) : streamID := from_option fst kSTREAMID_MIN (head l).

(** ** Limits *)

Lemma without_back_take ex stop k (c : list message) :
  messages_ok c -> Forall (fun x => streamID_compare (fst x) stop <> Gt) c ->
  without_back ex stop (take k c) = take k (without_back ex stop c).
Proof.
  intros Hc Hs. destruct (decide (length c <= k)%nat) as [Hk|Hk].
  { rewrite take_ge by lia. rewrite take_ge; [done|]. unfold without_back.
    destruct (last c); [|lia]. destruct (_ && _); rewrite ?length_take; lia. }
  assert (E : take k c = without_back ex stop (take k c)).
  { unfold without_back. destruct (last (take k c)) as [x|] eqn:El; [|done].
    rewrite bool_decide_eq_false_2, andb_false_r; [done|]. intros Ex.
    destruct (drop k c) as [|y d] eqn:Ed; [apply (f_equal length) in Ed; rewrite length_drop in Ed; simpl in Ed; lia|].
    pose proof (mo_sorted _ Hc) as Hst. rewrite <- (take_drop k c), Ed in Hst, Hs.
    apply last_Some in El as (c' & El). rewrite El in Hst. apply Forall_app in Hs as [_ Hy%Forall_inv].
    apply Hy, (cmp_Gt_Lt streamID_compare). rewrite <- Ex.
    apply (StronglySorted_app_1_elem_of _ _ _ _ _ Hst); [by apply elem_of_app; right; left|by left]. }
  rewrite <- E. unfold without_back. destruct (last c) as [x|]; [|done].
  destruct (_ && _); [rewrite take_take, Nat.min_l by lia|]; done.
Qed.

Lemma without_front_ids ex sid (l : list message) (P : message -> Prop) :
  Forall P l -> Forall P (without_front ex sid l).
Proof. destruct l as [|x l]; [done|]. simpl. intros H. destruct (_ && _); [by apply Forall_inv_tail in H|done]. Qed.

Lemma filter_agree {A} (P Q : A -> Prop) `{!forall x, Decision (P x), !forall x, Decision (Q x)} l :
  Forall (fun x => P x <-> Q x) l -> filter P l = filter Q l.
Proof.
  induction 1 as [|x l Hx _ IH]; [done|]. rewrite !filter_cons, IH. by repeat case_decide; try tauto.
Qed.

(** The message of an open start counts for the limit. *)
Definition short (start_ex : bool) (start : streamID) (l : list message) : nat :=
  if start_ex && bool_decide (start ∈ l.*1) then 1 else 0.

Lemma without_front_take start_ex start n (c : list message) :
  (start ∈ c.*1 -> exists x c', c = x :: c' /\ fst x = start) ->
  without_front start_ex start (take n c) = take (n - short start_ex start c) (without_front start_ex start c).
Proof.
  intros Hc. unfold short. destruct start_ex; cbn [andb]; [|rewrite Nat.sub_0_r; by destruct c, n].
  destruct (bool_decide_reflect (start ∈ c.*1)) as [H|H].
  - destruct (Hc H) as (x & c' & -> & Ex). destruct n as [|n]; [done|]. cbn [take without_front].
    by rewrite bool_decide_eq_true_2, Nat.sub_succ, Nat.sub_0_r.
  - rewrite Nat.sub_0_r. destruct c as [|x c]; [by destruct n|]. cbn [without_front].
    rewrite bool_decide_eq_false_2 by (intros <-; apply H; by left). destruct n; [done|]. cbn [take without_front].
    rewrite bool_decide_eq_false_2; [done|]. intros <-. apply H. by left.
Qed.

(** Of a range, the start can only be the first. *)
Lemma between_front start stop l :
  messages_ok l -> start ∈ (between start stop l).*1 -> exists x c', between start stop l = x :: c' /\ fst x = start.
Proof.
  intros Hl Hin. pose proof (mo_sorted _ (messages_ok_filter _ l Hl) : StronglySorted _ (between start stop l)) as Hs.
  assert (Hb : Forall (fun x => streamID_compare (fst x) start <> Lt) (between start stop l)).
  { apply Forall_forall. by intros x [[Hx _] _]%list_elem_of_filter. }
  destruct (between start stop l) as [|x c']; [by apply elem_of_nil in Hin|]. exists x, c'. split; [done|].
  apply elem_of_cons in Hin as [->|(y & -> & Hy)%list_elem_of_fmap]; [done|].
  apply StronglySorted_inv in Hs as [_ Hs]. rewrite Forall_forall in Hs. apply Forall_inv in Hb. by destruct Hb; apply Hs.
Qed.

Lemma between_elem start stop l :
  streamID_compare start stop <> Gt -> start ∈ (between start stop l).*1 <-> start ∈ l.*1.
Proof.
  intros Hle. rewrite !list_elem_of_fmap. split; intros (x & -> & Hx); exists x; (split; [done|]).
  - by apply list_elem_of_filter in Hx as [_ Hx].
  - apply list_elem_of_filter. by rewrite (cmp_refl (cmp:=streamID_compare)).
Qed.

(** What a limited scan returns of a range with open ends. *)
Lemma excl_take start_ex end_ex start stop n l :
  messages_ok l -> streamID_compare start stop <> Gt ->
  without_back end_ex stop (without_front start_ex start (take n (between start stop l))) =
  take (n - short start_ex start l) (interval start_ex end_ex start stop l).
Proof.
  intros Hl Hle. rewrite without_front_take by (by apply between_front). unfold short.
  rewrite (bool_decide_ext _ _ (between_elem start stop l Hle)).
  assert (H : messages_ok (without_front start_ex start (between start stop l)) /\
    Forall (fun x => streamID_compare (fst x) stop <> Gt) (without_front start_ex start (between start stop l))).
  { split.
    - pose proof (messages_ok_filter _ l Hl : messages_ok (between start stop l)) as Hb.
      destruct (between start stop l) as [|x c]; [done|]. cbn [without_front]. destruct (_ && _); [|done].
      by apply (messages_ok_app [x]) in Hb as [_ Hb].
    - apply without_front_ids, Forall_forall. by intros x [[_ Hx] _]%list_elem_of_filter. }
  rewrite without_back_take by apply H. by rewrite interval_excl.
Qed.

(** ** Backwards *)

(** The messages from [start], the last one first. *)
Definition downwards (start_ex : bool) (start : streamID) (l : list message) : list message :=
  rev (filter (fun x => streamID_compare (fst x) start = Lt \/ (start_ex = false /\ fst x = start)) l).

Lemma without_front_rev ex sid (f : list message) : without_front ex sid (rev f) = rev (without_back ex sid f).
Proof.
  destruct f as [|x f _] using rev_ind; [done|]. rewrite rev_app_distr. unfold without_back. rewrite last_snoc. cbn.
  destruct (_ && _); [|by rewrite rev_app_distr]. rewrite length_app. cbn [length]. by rewrite Nat.add_sub, take_app_length.
Qed.

Lemma down_take start_ex start n l :
  messages_ok l ->
  without_front start_ex start (take n (down_from start l)) = take (n - short start_ex start l) (downwards start_ex start l).
Proof.
  intros Hl. unfold down_from. set (f := filter _ l).
  assert (Hf : messages_ok f) by by apply messages_ok_filter.
  assert (Hle : Forall (fun x => streamID_compare (fst x) start <> Gt) f).
  { apply Forall_forall. by intros x [Hx _]%list_elem_of_filter. }
  rewrite without_front_take.
  - rewrite without_front_rev. f_equal.
    + unfold short. rewrite (bool_decide_ext (start ∈ (rev f).*1) (start ∈ l.*1)); [done|]. rewrite fmap_rev, elem_of_rev. unfold f.
      rewrite !list_elem_of_fmap. split; intros (x & -> & Hx); exists x; (split; [done|]).
      * by apply list_elem_of_filter in Hx as [_ Hx].
      * apply list_elem_of_filter. by rewrite (cmp_refl (cmp:=streamID_compare)).
    + unfold downwards. f_equal. destruct start_ex.
      * rewrite <- below_stop by done. unfold f. rewrite list_filter_filter. apply list_filter_iff.
        intros x. destruct (streamID_compare (fst x) start); intuition congruence.
      * transitivity f; [unfold without_back; by destruct (last f)|]. apply list_filter_iff. intros x.
        rewrite <- streamID_compare_eq. destruct (streamID_compare (fst x) start); intuition congruence.
  - clearbody f. rewrite fmap_rev, elem_of_rev. destruct f as [|x f _] using rev_ind; [by intros ?%elem_of_nil|].
    intros Hin. rewrite rev_app_distr. exists x, (rev f). split; [done|].
    rewrite fmap_app, elem_of_app in Hin. destruct Hin as [(y & -> & Hy)%list_elem_of_fmap|Hx].
    + pose proof (mo_sorted _ Hf) as Hs. apply Forall_app in Hle as [_ Hx%Forall_inv]. exfalso. apply Hx.
      apply (cmp_Gt_Lt streamID_compare). apply (StronglySorted_app_1_elem_of _ _ _ _ _ Hs); [done|by left].
    + by apply list_elem_of_singleton in Hx.
Qed.

Section StreamRead.
Context {R : RocksDB} {L : RocksDBLaws R} {U : Uninit}.

(** The meta value [m], stored or not, describes the messages [l] in the
    database. *)
Record stream_data (db : DB) (key : bytes) (m : StreamMetaValue) (l : list message) : Prop := {
  sd_coherent : stream_meta_coherent m;
  sd_type : smv_type m = kStreams;
  sd_ok : messages_ok l;
  sd_members : members_at kStreamsDataCF db key (smv_version m) (id_map l);
  sd_length : smv_length m = Z.of_nat (length l);
  sd_first : smv_first_id m = first_id_of l;
  sd_last : Forall (fun x => streamID_compare (fst x) (smv_last_id m) <> Gt) l;
  sd_fresh : fresh_from kStreamsDataCF db key (smv_version m + 1)
}.

Definition stream_holds (db : DB) (key : bytes) (s : stream) : Prop :=
  exists m, meta_of db key = Some (smv_value m) /\ stream_data db key m (st_messages s) /\
    s = stream_of m (st_messages s).

(** ** How commands start *)

Lemma GetStreamMeta_holds now key pm m r :
  healthy (db_ r) -> meta_of (db_ r) key = Some (smv_value m) -> stream_meta_coherent m -> smv_type m = kStreams ->
  prefetched (db_ r) key pm -> GetStreamMeta now key pm r = Some ((Status_OK, m), r).
Proof.
  intros Hdb Hm Hc Ht Hp. pose proof (stream_coherent_ranges m Hc) as Hr. unfold GetStreamMeta.
  rewrite (bind_run _ _ _ _ _ (GetMetaOrPrefetched_typed now kStreams key pm _ r Hdb Hm
    (eq_trans (cr_type _ Hr) Ht) Hp)).
  on_status. by rewrite (cr_parse _ Hr).
Qed.

Lemma GetStreamMeta_gone now key r :
  healthy (db_ r) -> gone kStreams (db_ r) now key ->
  GetStreamMeta now key [] r = Some ((Status_NotFound [], StreamMetaValue_new), r).
Proof.
  intros Hdb Hg. unfold GetStreamMeta, GetMetaOrPrefetched.
  by rewrite (bind_run _ _ _ _ _ (GetMeta_gone now kStreams key key r Hdb Hg)).
Qed.

Lemma GetStreamMeta_other now key st r :
  healthy (db_ r) -> other_type kStreams (db_ r) now key st ->
  GetStreamMeta now key [] r = Some ((st, StreamMetaValue_new), r).
Proof.
  intros Hdb Hg. unfold GetStreamMeta, GetMetaOrPrefetched. by rewrite (bind_GetMeta_other _ _ _ _ _ _ Hdb Hg).
Qed.

(** ** Scans *)

Lemma Forall_took {A} (P : A -> Prop) n (l : list A) : Forall P l -> Forall P (take n l).
Proof. intros H. rewrite <- (take_drop n l), Forall_app in H. by destruct H. Qed.

(** A scan in the order of the identifiers. *)
Lemma ScanStream_forward fuel key version l start stop limit start_ex end_ex r :
  key_ok key = true -> is_u64 version -> healthy (db_ r) -> members_at kStreamsDataCF (db_ r) key version (id_map l) ->
  messages_ok l -> streamID_ok start -> streamID_ok stop ->
  (length l < fuel)%nat -> streamID_compare start stop <> Gt ->
  let b := between start stop l in let n := Z.to_nat limit in
  ScanStream fuel (mkScanStreamOptions key version start stop limit start_ex end_ex false) r =
  Some ((Status_OK, field_of <$> without_back end_ex stop (without_front start_ex start (take n b)),
         next_of (field_of <$> drop n b)), r).
Proof.
  intros K V Hdb Hm Hl Hs He Hf Hle b n.
  assert (Hi : Forall (fun x => streamID_ok (fst x)) (take n b)).
  { apply Forall_took, Forall_filtered, mo_ids, Hl. }
  unfold ScanStream. cbn [so_is_reverse so_key so_version so_start_sid so_end_sid so_limit so_start_ex so_end_ex].
  rewrite (bind_run _ _ _ _ _ (StreamScanRange_ok key version K V fuel start stop limit l r Hdb Hm Hl Hs He Hle Hf)).
  rewrite (bind_lift _ _ _ _ (drop_front_ok start_ex start _ Hi)).
  rewrite (bind_lift _ _ _ _ (drop_back_ok end_ex stop _ (without_front_ids _ _ _ _ Hi))). done.
Qed.

Lemma ScanStream_wrong fuel key version start stop limit start_ex end_ex r :
  streamID_ok start -> streamID_ok stop ->
  streamID_compare start stop = Gt ->
  ScanStream fuel (mkScanStreamOptions key version start stop limit start_ex end_ex false) r =
  Some ((Status_InvalidArgument (lit "error in given range"), [], []), r).
Proof.
  intros Hs He Hgt. unfold ScanStream.
  cbn [so_is_reverse so_key so_version so_start_sid so_end_sid so_limit so_start_ex so_end_ex].
  by rewrite (bind_run _ _ _ _ _ (StreamScanRange_empty key version fuel start stop limit r Hs He Hgt)).
Qed.

(** A scan against it; the end of the range is looked at only to leave it
    out of the answer when it is open. *)
Lemma ScanStream_backward fuel key version l start stop limit start_ex end_ex r :
  key_ok key = true -> is_u64 version -> healthy (db_ r) -> members_at kStreamsDataCF (db_ r) key version (id_map l) ->
  messages_ok l -> streamID_ok start ->
  start <> kSTREAMID_MAX -> (length l < fuel)%nat ->
  exists next,
  ScanStream fuel (mkScanStreamOptions key version start stop limit start_ex end_ex true) r =
  Some ((Status_OK, field_of <$> without_back end_ex stop (without_front start_ex start (take (Z.to_nat limit) (down_from start l))), next), r).
Proof.
  intros K V Hdb Hm Hl Hs Hmax Hf.
  set (n := Z.to_nat limit).
  assert (Hi : Forall (fun x => streamID_ok (fst x)) (take n (down_from start l))).
  { apply Forall_took, Forall_rev, Forall_filtered, mo_ids, Hl. }
  destruct (StreamReScanRange_ok key version K V fuel start limit l r Hdb Hm Hl Hs Hf) as (next & HS).
  exists next. unfold ScanStream.
  cbn [so_is_reverse so_key so_version so_start_sid so_end_sid so_limit so_start_ex so_end_ex].
  rewrite streamID_eqb_spec, bool_decide_eq_false_2 by done. rewrite (bind_run _ _ _ _ _ HS).
  rewrite (bind_lift _ _ _ _ (drop_front_ok start_ex start _ Hi)).
  rewrite (bind_lift _ _ _ _ (drop_back_ok end_ex stop _ (without_front_ids _ _ _ _ Hi))). done.
Qed.

(** C23: Reading a stream.  XRANGE returns the messages of its range, whose ends
    may be open, in order and up to the limit, where an open start that is a
    message counts for the limit; the ends the wrong way round are an error.
    XREVRANGE from a start other than the greatest identifier returns the messages
    from there downwards, up to the limit, and does not stop at its end: an open
    end is only left out when it is the last message of the answer.  XLEN and
    XINFO report the stream. *)
Theorem stream_reads_correct fuel now key pm args s r :
  key_ok key = true -> healthy (db_ r) -> stream_holds (db_ r) key s -> prefetched (db_ r) key pm ->
  streamID_ok (ss_start_sid args) -> streamID_ok (ss_end_sid args) -> (length (st_messages s) < fuel)%nat ->
  let start := ss_start_sid args in let stop := ss_end_sid args in let l := st_messages s in
  let n := (Z.to_nat (ss_limit args) - short (ss_start_ex args) start l)%nat in
  XRange fuel now key pm args r =
    Some (if bool_decide (streamID_compare start stop = Gt)
          then (Status_InvalidArgument (lit "error in given range"), [])
          else (Status_OK, field_of <$> take n (interval (ss_start_ex args) (ss_end_ex args) start stop l)), r) /\
  (start <> kSTREAMID_MAX ->
   XRevrange fuel now key args r =
     Some ((Status_OK, field_of <$> without_back (ss_end_ex args) stop (take n (downwards (ss_start_ex args) start l))), r)) /\
  XLen now key r = Some ((Status_OK, Z.of_nat (length l)), r) /\
  XInfo now key r =
    Some ((Status_OK,
           mkStreamInfoResult (Z.of_nat (length l)) (streamID_ToString (st_last s)) (streamID_ToString (st_max_deleted s))
             (st_added s) (streamID_ToString (first_id_of l))), r).
Proof.
  intros K Hdb (m & Hm & Hd & Es) Hp H1 H2 Hf start stop l n.
  pose proof (GetStreamMeta_holds now key pm m r Hdb Hm (sd_coherent _ _ _ _ Hd) (sd_type _ _ _ _ Hd) Hp) as HG.
  pose proof (GetStreamMeta_holds now key [] m r Hdb Hm (sd_coherent _ _ _ _ Hd) (sd_type _ _ _ _ Hd)
    (or_introl eq_refl)) as HG0.
  pose proof (cr_version _ (stream_coherent_ranges m (sd_coherent _ _ _ _ Hd))) as V.
  pose proof (sd_members _ _ _ _ Hd) as Hmm. pose proof (sd_ok _ _ _ _ Hd) as Hl. fold l in Hmm, Hl.
  split_and!.
  - unfold XRange, scan_meta. rewrite (bind_run _ _ _ _ _ HG). on_status. cbn [negb].
    destruct (bool_decide_reflect (streamID_compare start stop = Gt)) as [E|E].
    + by rewrite (bind_run _ _ _ _ _ (ScanStream_wrong fuel key _ start stop _ _ _ r H1 H2 E)).
    + rewrite (bind_run _ _ _ _ _ (ScanStream_forward fuel key _ l start stop _ _ _ r K V Hdb Hmm Hl H1 H2 Hf E)).
      by rewrite excl_take.
  - intros Hmax. unfold XRevrange, scan_meta. rewrite (bind_run _ _ _ _ _ HG0). on_status. cbn [negb].
    destruct (ScanStream_backward fuel key _ l start stop (ss_limit args) (ss_start_ex args) (ss_end_ex args) r K V Hdb Hmm Hl H1 Hmax Hf)
      as (next & HS).
    rewrite (bind_run _ _ _ _ _ HS). by rewrite down_take.
  - unfold XLen. rewrite (bind_run _ _ _ _ _ HG0). on_status. by rewrite (sd_length _ _ _ _ Hd).
  - unfold XInfo. rewrite (bind_run _ _ _ _ _ HG0). on_status. cbn [negb].
    rewrite (sd_length _ _ _ _ Hd), (sd_first _ _ _ _ Hd). by rewrite Es.
Qed.

(** ** XREAD *)

(** The identifier from which the text says to read. *)
Definition reads_from (s : stream) (text : bytes) (id : streamID) : Prop :=
  text <> lit "<" /\
  (if bool_decide (text = lit "$") then Some (st_last s) else fst <$> StreamParseStrictID text 0 false) = Some id.

(** The streams there are under the keys, and from where they are read. *)
Inductive xread_of (db : DB) (now : Z) : list bytes -> list bytes -> list (bytes * stream * streamID) -> Prop :=
  | xr_nil keys : xread_of db now keys [] []
  | xr_gone key keys text texts rs :
      gone kStreams db now key -> xread_of db now keys texts rs -> xread_of db now (key :: keys) (text :: texts) rs
  | xr_read key keys text texts s id rs :
      key_ok key = true -> stream_holds db key s -> reads_from s text id ->
      xread_of db now keys texts rs -> xread_of db now (key :: keys) (text :: texts) ((key, s, id) :: rs).

(** What the first loop finds for a stream. *)
Definition found (db : DB) (x : StreamMetaValue * bytes * bytes) (y : bytes * stream * streamID) : Prop :=
  let '(m, key, text) := x in let '(key', s, id) := y in
  key = key' /\ key_ok key = true /\ stream_data db key m (st_messages s) /\ s = stream_of m (st_messages s) /\
  reads_from s text id.

Lemma xread_metas_ok now keys texts rs r :
  healthy (db_ r) -> xread_of (db_ r) now keys texts rs ->
  exists ms, Forall2 (found (db_ r)) ms rs /\
    forall acc, xread_metas now keys texts acc r = Some ((Status_OK, acc ++ ms), r).
Proof.
  intros Hdb. induction 1 as [keys|key keys text texts rs Hg _ (ms & Hms & IH)|key keys text texts s id rs K Hs Ht _ (ms & Hms & IH)].
  - exists []. split; [done|]. intros acc. by rewrite app_nil_r.
  - exists ms. split; [done|]. intros acc. cbn [xread_metas]. rewrite (bind_lift _ key) by done.
    rewrite (bind_run _ _ _ _ _ (GetStreamMeta_gone now key r Hdb Hg)). on_status. apply IH.
  - destruct Hs as (m & Hm & Hd & Es). exists ((m, key, text) :: ms). split; [by constructor|]. intros acc.
    cbn [xread_metas]. rewrite (bind_lift _ key) by done.
    rewrite (bind_run _ _ _ _ _ (GetStreamMeta_holds now key [] m r Hdb Hm (sd_coherent _ _ _ _ Hd) (sd_type _ _ _ _ Hd)
      (or_introl eq_refl))).
    on_status. change (IsNotFound Status_OK) with false. cbn [negb tail]. cbv iota. by rewrite IH, <- app_assoc.
Qed.

(** The messages after [id]. *)
Definition newer (id : streamID) (l : list message) : list message :=
  filter (fun x => streamID_compare (fst x) id = Gt) l.

Definition xread_result (count : Z) (y : bytes * stream * streamID) : list IdMessage :=
  let '(_, s, id) := y in
  field_of <$> take (Z.to_nat count - short true id (st_messages s)) (newer id (st_messages s)).

Lemma found_scan fuel count m key text y r :
  healthy (db_ r) -> found (db_ r) (m, key, text) y -> (length (st_messages (snd (fst y))) < fuel)%nat ->
  exists next, ScanStream fuel (mkScanStreamOptions key (smv_version m) (snd y) kSTREAMID_MAX count true false false) r =
    Some ((Status_OK, xread_result count y, next), r).
Proof.
  intros Hdb. destruct y as [[key' s] id]. intros (<- & K & Hd & Es & _ & Ht) Hf. cbn [fst snd] in *.
  pose proof (stream_coherent_ranges m (sd_coherent _ _ _ _ Hd)) as Hr. pose proof (sd_ok _ _ _ _ Hd) as Hl.
  assert (Hid : streamID_ok id).
  { destruct (bool_decide _).
    - injection Ht as <-. rewrite Es. apply (cr_last _ Hr).
    - apply fmap_Some in Ht as ([id' g] & Ht & ->). by eapply parse_ok; [|exact Ht]. }
  eexists. rewrite (ScanStream_forward fuel key _ _ id kSTREAMID_MAX count true false r K (cr_version _ Hr) Hdb
    (sd_members _ _ _ _ Hd) Hl Hid max_id_ok Hf)
    by by apply below_max.
  rewrite excl_take by (done || by apply below_max). do 5 f_equal. unfold xread_result, newer, interval.
  do 2 f_equal. apply filter_agree. eapply Forall_impl; [exact (mo_ids _ Hl)|]. intros x Hx%below_max.
  destruct (streamID_compare (fst x) kSTREAMID_MAX) eqn:E; [apply streamID_compare_eq in E| |done]; intuition congruence.
Qed.

Lemma xread_scan_ok fuel count r :
  healthy (db_ r) -> forall ms rs, Forall2 (found (db_ r)) ms rs ->
  Forall (fun y => length (st_messages (snd (fst y))) < fuel)%nat rs ->
  forall results reserved_keys, xread_scan fuel count ms results reserved_keys r =
    Some ((Status_OK, results ++ (xread_result count <$> rs), reserved_keys ++ (fst ∘ fst <$> rs)), r).
Proof.
  intros Hdb. induction 1 as [|[[m key] text] y ms rs Hy _ IH]; intros Hf results reserved_keys.
  { by rewrite !app_nil_r. }
  apply Forall_cons in Hf as [Hf1 Hf]. destruct (found_scan fuel count m key text y r Hdb Hy Hf1) as (next & HS).
  destruct y as [[key' s] id]. destruct Hy as (<- & K & Hd & Es & Ht1 & Ht2). cbn [xread_scan snd] in *.
  rewrite bool_decide_eq_false_2 by done.
  replace (smv_last_id m) with (st_last s) by (by rewrite Es). rewrite Ht2, (bind_run _ _ _ _ _ HS). on_status.
  cbn [negb andb]. rewrite IH by done. by rewrite <- !app_assoc.
Qed.

(** XREAD returns, for each of the keys that hold a stream and in their
    order, the messages after the identifier given for it, or after the last one
    for the dollar sign, up to the limit; it skips keys without one. *)
Theorem XRead_correct fuel now keys texts count rs r :
  healthy (db_ r) -> xread_of (db_ r) now keys texts rs ->
  Forall (fun y => length (st_messages (snd (fst y))) < fuel)%nat rs ->
  XRead fuel now (mkStreamReadArgs keys texts count) r =
  Some ((Status_OK, xread_result count <$> rs, fst ∘ fst <$> rs), r).
Proof.
  intros Hdb Hrs Hf. destruct (xread_metas_ok now keys texts rs r Hdb Hrs) as (ms & Hms & HM).
  unfold XRead. cbn [ra_keys ra_unparsed_ids ra_count]. rewrite (bind_run _ _ _ _ _ (HM [])). on_status. cbn [negb app].
  by rewrite (xread_scan_ok fuel count r Hdb ms rs Hms Hf).
Qed.

End StreamRead.
