(* ===== verification/StreamWrite.v ===== *)
(** * Writing streams

    What XADD, XTRIM, XDEL and DEL do to a stream: the identifier a message gets,
    the messages that are left, and what the meta value says of them. *)

From Stdlib Require Import Sorting.Sorted.
From stdpp Require Import sorting.
From S2P Require Import Prelude Coding Numbers Glob KeyFormat Comparator ValueFormat StreamFormat RocksDB LruCache Redis KeySpace BaseData BaseSpec BaseScan BaseHolds BaseWrite BaseCursor Streams StreamSpec StreamRead.
Open Scope Z_scope.

(** ** Messages as a map *)

Lemma id_map_cons x l : id_map (x :: l) = <[streamID_Serialize (fst x) := snd x]> (id_map l).
Proof. done. Qed.

Lemma id_map_delete dels l :
  apply_ops ((fun f => (f, None)) <$> dels) (id_map l) =
  id_map (filter (fun x => streamID_Serialize (fst x) ∉ dels) l).
Proof.
  apply map_eq. intros f. rewrite lookup_deletes. induction l as [|x l IH].
  - change (id_map []) with (∅ : gmap bytes bytes). rewrite lookup_empty. by case_decide.
  - rewrite filter_cons, id_map_cons. destruct (decide (f = streamID_Serialize (fst x))) as [->|N].
    + rewrite lookup_insert_eq. case_decide as H1; case_decide as H2; try done.
      by rewrite id_map_cons, lookup_insert_eq.
    + rewrite lookup_insert_ne by done. rewrite IH. destruct (decide (_ ∉ dels)); [|done].
      by rewrite id_map_cons, lookup_insert_ne.
Qed.

(** Adding a message that is not there. *)
Lemma id_map_snoc x l : messages_ok (l ++ [x]) -> id_map (l ++ [x]) = <[streamID_Serialize (fst x) := snd x]> (id_map l).
Proof.
  intros Hl. unfold id_map at 1. rewrite fmap_app.
  refine (list_to_map_snoc (M:=gmap bytes) (field_of <$> l) (streamID_Serialize (fst x)) (snd x) _).
  intros (y & Ey & Hy)%list_elem_of_fmap. apply list_elem_of_fmap in Hy as (z & -> & Hz).
  pose proof (mo_ids _ Hl) as Hi. rewrite Forall_app, Forall_singleton, Forall_forall in Hi. destruct Hi as [H1 H2].
  unfold field_of in Ey. cbn [fst] in Ey. apply (Serialize_inj _ _ H2 (H1 z Hz)) in Ey.
  pose proof (StronglySorted_app_1_elem_of _ _ _ z x (mo_sorted _ Hl) Hz ltac:(by left)) as H.
  cbn beta in H. by rewrite Ey, (cmp_refl (cmp:=streamID_compare)) in H.
Qed.

(** Deleting the first messages. *)
Lemma filter_beyond a c :
  messages_ok (a ++ c) -> filter (fun x => streamID_Serialize (fst x) ∉ (fst <$> (field_of <$> a))) (a ++ c) = c.
Proof.
  intros Hl. pose proof (mo_ids _ Hl) as Hi.
  apply Forall_app in Hi as [H1 H2]. rewrite filter_app, filter_none, filter_every; [done|..].
  - rewrite Forall_forall in *. intros x Hx. rewrite <- list_fmap_compose. intros (y & Ey & Hy)%list_elem_of_fmap.
    unfold compose, field_of in Ey. cbn [fst] in Ey. apply (Serialize_inj _ _ (H2 x Hx) (H1 y Hy)) in Ey.
    pose proof (StronglySorted_app_1_elem_of _ _ _ _ _ (mo_sorted _ Hl) Hy Hx) as H.
    cbn beta in H. by rewrite Ey, (cmp_refl (cmp:=streamID_compare)) in H.
  - apply Forall_forall. intros x Hx H. apply H. rewrite <- list_fmap_compose. apply list_elem_of_fmap. by exists x.
Qed.

(** ** Identifiers of new messages *)

Lemma id_gt a b : streamID_compare a b = Gt <-> ms b < ms a \/ (ms a = ms b /\ seq b < seq a).
Proof.
  unfold streamID_compare. destruct (Z.compare_spec (ms a) (ms b)); cbn; [|naive_solver lia..].
  rewrite Z.compare_gt_iff. lia.
Qed.
Lemma id_le a b : streamID_compare a b <> Gt <-> ms a < ms b \/ (ms a = ms b /\ seq a <= seq b).
Proof. rewrite id_gt. lia. Qed.

(** The identifiers the arguments of XADD leave open. *)
Definition candidate (now : Z) (args : StreamAddTrimArgs) (id : streamID) : Prop :=
  streamID_ok id /\
  if sa_id_given args then ms id = ms (sa_id args) /\ (sa_seq_given args = true -> seq id = seq (sa_id args))
  else ms id = now.

(** The least of them after [last_id]. *)
Definition next_id (now : Z) (args : StreamAddTrimArgs) (last_id id : streamID) : Prop :=
  candidate now args id /\ streamID_compare id last_id = Gt /\
  forall id', candidate now args id' -> streamID_compare id' last_id = Gt -> streamID_compare id id' <> Gt.

Definition no_next_id (now : Z) (args : StreamAddTrimArgs) (last_id : streamID) : Prop :=
  forall id', candidate now args id' -> streamID_compare id' last_id <> Gt.

(** The clock is not behind the last message, or not asked. *)
Definition clock_ahead (now : Z) (args : StreamAddTrimArgs) (last_id : streamID) : Prop :=
  sa_id_given args = true \/ ms last_id <= now.

Lemma GenerateStreamID_ok now m args :
  is_u64 now -> streamID_ok (sa_id args) -> streamID_ok (smv_last_id m) -> clock_ahead now args (smv_last_id m) ->
  let '(st, id) := GenerateStreamID now m args in
  (st = Status_OK /\ next_id now args (smv_last_id m) id) \/ (ok st = false /\ no_next_id now args (smv_last_id m)).
Proof.
  intros Hnow [Hid1 Hid2] [Hl1 Hl2] Hclock. unfold clock_ahead, GenerateStreamID, next_id, no_next_id, candidate in *.
  set (last_id := smv_last_id m) in *. clearbody last_id. destruct args as [[i j] given seqg ? ? ? ?], last_id as [i' j'].
  cbn [sa_id sa_id_given sa_seq_given ms seq] in *. unfold streamID_ok, is_u64, ULLONG_MAX in *.
  assert (Hcmp : forall a, streamID_compare a (mkStreamID i' j') = Gt <-> i' < ms a \/ (ms a = i' /\ j' < seq a)).
  { intros a. apply id_gt. }
  destruct given; [destruct seqg|]; cbn [negb andb].
  - destruct (Z.eqb_spec i 0), (Z.eqb_spec j 0); cbn [andb].
    1: right; split; [done|]; intros id' H; rewrite Hcmp; lia.
    all: destruct (Z.ltb_spec i i'); cbn [orb]; [right; split; [done|]; intros id' H'; rewrite Hcmp; lia|].
    all: destruct (Z.eqb_spec i i'), (Z.leb_spec j j'); cbn [andb];
      [right; split; [done|]; intros id' H'; rewrite Hcmp; lia
      |left; split; [done|]; rewrite Hcmp; cbn [ms seq]; split_and!; try lia;
        intros id' H' _; rewrite id_le; cbn [ms seq]; lia..].
  - destruct (Z.ltb_spec i i'); [right; split; [done|]; intros id' H'; rewrite Hcmp; lia|].
    destruct (Z.eqb_spec i i'); [destruct (Z.eqb_spec j' (2 ^ 64 - 1))|];
      [right; split; [done|]; intros id' H'; rewrite Hcmp; lia
      |left; split; [done|]; rewrite Hcmp; cbn [ms seq]; split_and!; try lia;
        intros id' H'; rewrite Hcmp, id_le; cbn [ms seq]; lia..].
  - destruct Hclock as [|Hclock]; [done|]. rewrite (proj2 (Z.ltb_ge now i')) by done.
    destruct (Z.eqb_spec now i'); [destruct (Z.eqb_spec j' (2 ^ 64 - 1))|];
      [right; split; [done|]; intros id' H'; rewrite Hcmp; lia
      |left; split; [done|]; rewrite Hcmp; cbn [ms seq]; split_and!; try lia;
        intros id' H'; rewrite Hcmp, id_le; cbn [ms seq]; lia..].
Qed.

Section StreamWrite.
Context {R : RocksDB} {L : RocksDBLaws R} {U : Uninit}.

(** ** What a write leaves *)

Definition stream_stores (key : bytes) (s : stream) (r r' : Redis) : Prop :=
  engine_ok r' /\ stream_holds (db_ r') key s /\ base_others kStreamsDataCF key (db_ r) (db_ r').

(** The version has the messages [l] afterwards. *)
Record messages_stored (key : bytes) (version : Z) (l : list message) (r r' : Redis) : Prop := {
  ms_engine : engine_ok r';
  ms_members : members_at kStreamsDataCF (db_ r') key version (id_map l);
  ms_fresh : fresh_from kStreamsDataCF (db_ r) key (version + 1) -> fresh_from kStreamsDataCF (db_ r') key (version + 1);
  ms_others : base_others kStreamsDataCF key (db_ r) (db_ r')
}.

Lemma base_others_trans key db1 db2 db3 :
  base_others kStreamsDataCF key db1 db2 -> base_others kStreamsDataCF key db2 db3 ->
  base_others kStreamsDataCF key db1 db3.
Proof.
  intros (H1 & H2 & H3) (G1 & G2 & G3). split_and!.
  - intros k K N. by rewrite G1, H1.
  - intros k v m K N V H. apply G2; auto.
  - intros cf N1 N2 N3. by rewrite G3, H3.
Qed.

Lemma messages_stored_trans key version l l' r r1 r2 :
  messages_stored key version l r r1 -> messages_stored key version l' r1 r2 -> messages_stored key version l' r r2.
Proof.
  intros [] []. constructor; [done..|auto|by eapply base_others_trans].
Qed.

Lemma messages_stored_refl key version l r :
  engine_ok r -> members_at kStreamsDataCF (db_ r) key version (id_map l) -> messages_stored key version l r r.
Proof. intros HE Hm. constructor; [done..|split_and!; auto]. Qed.

Lemma write_messages key version b ops l l' r :
  key_ok key = true -> is_u64 version -> engine_ok r -> base_effects kStreamsDataCF key version b None ops ->
  members_at kStreamsDataCF (db_ r) key version (id_map l) -> apply_ops ops (id_map l) = id_map l' ->
  exists r', Write b r = Some (Status_OK, r') /\ messages_stored key version l' r r'.
Proof.
  intros K V [Hdb Hst] HE Hm E.
  destruct (Write_base kStreamsDataCF eq_refl key version K V b None ops r HE Hdb) as (db' & HW & Hdb' & _ & Hmem & Hver & Ho).
  exists (with_db r db'). split; [done|]. constructor; [done|rewrite <- E; by apply Hmem| |done].
  intros Hf v H1 H2. apply Hver; [done|lia|]. by apply Hf.
Qed.

Lemma DeleteStreamMessages_ok key m dels l r :
  key_ok key = true -> is_u64 (smv_version m) -> engine_ok r ->
  members_at kStreamsDataCF (db_ r) key (smv_version m) (id_map l) ->
  exists r', DeleteStreamMessages key m dels r = Some (Status_OK, r') /\
    messages_stored key (smv_version m) (filter (fun x => streamID_Serialize (fst x) ∉ dels) l) r r'.
Proof.
  intros K V HE Hm. eapply write_messages; [done..| |exact Hm|apply id_map_delete]. by apply effects_deletes.
Qed.

(** The meta value goes last. *)
Lemma put_stream_meta_ok key m l r r1 :
  key_ok key = true -> engine_ok r1 -> stream_data (db_ r1) key m l -> base_others kStreamsDataCF key (db_ r) (db_ r1) ->
  exists r', put_stream_meta key m r1 = Some (Status_OK, r') /\ stream_stores key (stream_of m l) r r'.
Proof.
  intros K [Hdb Hst] Hd Ho. pose proof (stream_coherent_ranges m (sd_coherent _ _ _ _ Hd)) as Hr.
  destruct (Write_base kStreamsDataCF eq_refl key (smv_version m) K (cr_version _ Hr) [Put kMetaCF (BaseKey_Encode key) (smv_value m)]
    (Some (smv_value m)) [] r1) as (db' & HW & Hdb' & Hmeta & Hmem & Hver & Ho').
  { apply (be_meta kStreamsDataCF key (smv_version m) (smv_value m) [] None []). constructor. }
  { done. }
  exists (with_db r1 db'). split; [done|]. split; [done|]. split; [|by eapply base_others_trans].
  exists m. split; [done|]. split; [|done]. destruct Hd. constructor; try done.
  - by apply Hmem.
  - intros v H1 H2. apply Hver; [done|lia|]. by apply sd_fresh.
Qed.

(** ** Trimming *)

Section Trim.
Context (key : bytes) (m : StreamMetaValue) (l : list message) (fuel : nat).
Context (K : key_ok key = true) (V : is_u64 (smv_version m)) (Hl : messages_ok l).
Context (Hlength : smv_length m = Z.of_nat (length l)) (H31 : Z.of_nat (length l) < 2 ^ 31).
Context (Hfirst : smv_first_id m = first_id_of l) (Hfuel : (length l < fuel)%nat).

(** The messages [del] are gone and [rest] are left. *)
Record trim_state (del rest : list message) (tr : TrimRet) (r : Redis) : Prop := {
  ts_split : l = del ++ rest;
  ts_engine : engine_ok r;
  ts_members : members_at kStreamsDataCF (db_ r) key (smv_version m) (id_map rest);
  ts_count : tr_count tr = Z.of_nat (length del);
  ts_max : forall x, last del = Some x -> tr_max_deleted_field tr = streamID_Serialize (fst x)
}.

(** [next_field] is the first message left. *)
Definition next_right (rest : list message) (tr : TrimRet) : Prop :=
  forall x t, rest = x :: t -> tr_next_field tr = streamID_Serialize (fst x).

Definition upto (stop : streamID) (rest : list message) : list message :=
  filter (fun x => streamID_compare (fst x) stop <> Gt) rest.

Lemma after_first : Forall (fun x => streamID_compare (fst x) (smv_first_id m) <> Lt) l.
Proof.
  rewrite Hfirst. unfold first_id_of. pose proof (mo_sorted _ Hl) as Hs. destruct l as [|y l']; [done|]. cbn.
  apply StronglySorted_inv in Hs as [_ Hs]. constructor; [by rewrite (cmp_refl (cmp:=streamID_compare))|].
  eapply Forall_impl; [exact Hs|]. intros x Hx%(cmp_Gt_Lt streamID_compare). by rewrite Hx.
Qed.

Lemma first_ok : streamID_ok (smv_first_id m).
Proof.
  rewrite Hfirst. unfold first_id_of. pose proof (mo_ids _ Hl) as Hi. destruct l; [done|]. by apply Forall_inv in Hi.
Qed.

Lemma left_rest del rest tr r :
  trim_state del rest tr r -> smv_length m - tr_count tr = Z.of_nat (length rest) /\ (length rest <= length l)%nat.
Proof. intros [E _ _ Hc _]. rewrite Hlength, Hc, E, length_app. lia. Qed.

Lemma scan_rest del rest tr r stop limit :
  trim_state del rest tr r -> streamID_ok stop -> streamID_compare (smv_first_id m) stop <> Gt ->
  let b := upto stop rest in let n := Z.to_nat limit in
  ScanStream fuel (mkScanStreamOptions key (smv_version m) (smv_first_id m) stop limit false false false) r =
  Some ((Status_OK, field_of <$> take n b, next_of (field_of <$> drop n b)), r).
Proof.
  intros Hts Hstop Hle b n. pose proof (left_rest _ _ _ _ Hts) as [_ Hlen]. destruct Hts as [E [Hdb _] Hm _ _].
  pose proof Hl as Hrest. rewrite E in Hrest. apply messages_ok_app in Hrest as [_ Hrest].
  rewrite (ScanStream_forward fuel key _ rest _ stop limit false false r K V Hdb Hm Hrest first_ok Hstop) by (done || lia).
  assert (Eb : between (smv_first_id m) stop rest = b).
  { apply filter_agree. pose proof after_first as Ha. rewrite E in Ha. apply Forall_app in Ha as [_ Ha].
    eapply Forall_impl; [exact Ha|]. intros x Hx. cbn beta in *. tauto. }
  rewrite Eb. assert (Ew : forall c, without_back false stop (without_front false (smv_first_id m) c) = c).
  { intros [|x c]; [done|]. unfold without_back, without_front. by destruct (last _). }
  by rewrite Ew.
Qed.

Lemma delete_front del rest tr k r :
  trim_state del rest tr r ->
  exists r', DeleteStreamMessages key m (fst <$> (field_of <$> take k rest)) r = Some (Status_OK, r') /\
    messages_stored key (smv_version m) (drop k rest) r r'.
Proof.
  intros [E HE Hm _ _]. pose proof Hl as Hrest. rewrite E in Hrest. apply messages_ok_app in Hrest as [_ Hrest].
  destruct (DeleteStreamMessages_ok key m (fst <$> (field_of <$> take k rest)) rest r K V HE Hm) as (r' & HD & HS).
  exists r'. split; [done|]. pose proof (filter_beyond (take k rest) (drop k rest)) as F. rewrite take_drop in F.
  by rewrite F in HS.
Qed.

(** After [k] more messages. *)
Lemma trim_more del rest tr k next r r' :
  trim_state del rest tr r -> (k <= length rest)%nat -> messages_stored key (smv_version m) (drop k rest) r r' ->
  trim_state (del ++ take k rest) (drop k rest)
    (mkTrimRet (tr_count tr + Z.of_nat k) next
       (from_option (fun x => streamID_Serialize (fst x)) (tr_max_deleted_field tr) (last (take k rest)))) r'.
Proof.
  intros [E _ _ Hc Hx] Hk [HE Hm _ _]. constructor; cbn [tr_count tr_max_deleted_field]; [|done|done|..].
  - by rewrite <- app_assoc, take_drop.
  - rewrite length_app, length_take_le by done. lia.
  - intros x. destruct (last (take k rest)) as [y|] eqn:Ey.
    + rewrite last_app, Ey. cbn. congruence.
    + apply last_None in Ey as ->. rewrite app_nil_r. apply Hx.
Qed.

(** *** MAXLEN *)

Lemma upto_max rest : Forall (fun x => streamID_ok (fst x)) rest -> upto kSTREAMID_MAX rest = rest.
Proof. intros Hi. apply filter_every. eapply Forall_impl; [exact Hi|]. intros x. apply below_max. Qed.

Lemma next_field_right (l' : list message) count max :
  next_right l' (mkTrimRet count (next_of (field_of <$> l')) max).
Proof. by intros x t ->. Qed.

Lemma maxlen_loop_ok maxlen : 0 <= maxlen -> forall rounds del rest tr r,
  trim_state del rest tr r -> (del <> [] -> next_right rest tr) -> (length rest < rounds)%nat ->
  let k := (length rest - Z.to_nat maxlen)%nat in
  exists tr' r', maxlen_loop rounds fuel key m maxlen tr r = Some ((Status_OK, tr'), r') /\
    trim_state (del ++ take k rest) (drop k rest) tr' r' /\
    (del ++ take k rest <> [] -> next_right (drop k rest) tr') /\
    messages_stored key (smv_version m) (drop k rest) r r'.
Proof.
  intros Hmax. induction rounds as [|rounds IH]; intros del rest tr r Hts Hnext Hr k; [lia|].
  pose proof (left_rest _ _ _ _ Hts) as [Hleft Hrest]. cbn [maxlen_loop]. rewrite Hleft, u64_id by (unfold is_u64; lia).
  destruct (Z.ltb_spec maxlen (Z.of_nat (length rest))) as [Hlt|Hge].
  2: { exists tr, r. assert (k = 0)%nat as -> by (unfold k; lia). rewrite drop_0, take_0, app_nil_r. split_and!; try done.
       apply messages_stored_refl; apply Hts. }
  rewrite u64_id by (unfold is_u64; lia). rewrite i32_id by lia. unfold kDEFAULT_TRIM_BATCH_SIZE.
  set (batch := Z.min (Z.of_nat (length rest) - maxlen) 1000). set (n := Z.to_nat batch).
  assert (Hn : (1 <= n <= k)%nat) by (unfold n, batch, k; lia).
  rewrite (bind_run _ _ _ _ _ (scan_rest del rest tr r kSTREAMID_MAX batch Hts max_id_ok (below_max _ first_ok))).
  assert (Hi : Forall (fun x => streamID_ok (fst x)) rest).
  { pose proof (mo_ids _ Hl) as Hi. rewrite (ts_split _ _ _ _ Hts) in Hi. by apply Forall_app in Hi as [_ Hi]. }
  rewrite upto_max by done. fold n. on_status. cbn [negb].
  destruct (last (take n rest)) as [x|] eqn:Ex.
  2: { apply last_None in Ex. apply (f_equal length) in Ex. rewrite length_take in Ex. cbn in Ex. unfold k in Hn. lia. }
  rewrite (bind_lift _ (field_of x)) by (by rewrite fmap_last, Ex).
  destruct (delete_front del rest tr n r Hts) as (r1 & HD & HS). rewrite (bind_run _ _ _ _ _ HD). on_status. cbn [negb].
  pose proof (trim_more del rest tr n (next_of (field_of <$> drop n rest)) r r1 Hts ltac:(unfold k in Hn; lia) HS) as Hts1.
  rewrite Ex in Hts1. cbn [from_option] in Hts1.
  replace (Z.of_nat n) with batch in Hts1 by (unfold n, batch in *; lia).
  destruct (IH _ _ _ _ Hts1) as (tr' & r' & HL & Hts' & Hn' & HS').
  - intros _. apply next_field_right.
  - rewrite length_drop. unfold k in Hn. lia.
  - rewrite length_drop in *. replace (length rest - n - Z.to_nat maxlen)%nat with (k - n)%nat in * by (unfold k; lia).
    rewrite drop_drop in *. replace (n + (k - n))%nat with k in * by lia.
    assert (Et : take n rest ++ take (k - n) (drop n rest) = take k rest).
    { rewrite <- (take_drop n (take k rest)), take_take, skipn_firstn_comm, Nat.min_l by lia. done. }
    rewrite <- app_assoc, Et in *. exists tr', r'. split_and!; try done. by eapply messages_stored_trans.
Qed.

(** *** MINID *)

Section Minid.
Context (minid : streamID) (Hmin : streamID_ok minid).

Local Notation below := (Forall (fun x : message => streamID_compare (fst x) minid = Lt)).
Local Notation above := (Forall (fun x : message => streamID_compare (fst x) minid = Gt)).

(** The messages from [minid] on: none, or the first is the one of [minid], or
    all are later. *)
Definition hit (high : list message) : Prop := exists y h, high = y :: h /\ fst y = minid /\ above h.

Lemma upto_minid low high :
  below low -> hit high \/ above high -> exists c, upto minid (low ++ high) = low ++ c /\
    ((c = take 1 high /\ hit high) \/ (c = [] /\ above high)).
Proof.
  intros Hlow Hhigh. unfold upto. rewrite filter_app, (filter_every _ low).
  2: { eapply Forall_impl; [exact Hlow|]. intros x Hx. cbn beta in Hx. by rewrite Hx. }
  assert (Ha : forall h : list message, above h -> filter (fun x : message => streamID_compare (fst x) minid <> Gt) h = []).
  { intros h Hh. apply filter_none. eapply Forall_impl; [exact Hh|]. intros x Hx. cbn beta in Hx. rewrite Hx. tauto. }
  eexists. split; [done|]. destruct Hhigh as [(y & h & -> & Ey & Hh)|Hh]; [left|right].
  - rewrite filter_cons_True by (by rewrite Ey, (cmp_refl (cmp:=streamID_compare))). rewrite Ha by done.
    split; [done|]. by exists y, h.
  - by rewrite Ha.
Qed.

Lemma not_at_minid (f : list message) :
  below f -> Forall (fun x => streamID_ok (fst x)) f ->
  back_is (streamID_Serialize minid) (field_of <$> f) = false.
Proof.
  intros Hf Hi. unfold back_is. rewrite fmap_last. destruct (last f) as [x|] eqn:Ex; [|done]. cbn [fmap option_fmap option_map].
  apply last_Some_elem_of in Ex. rewrite Forall_forall in Hf, Hi. apply bool_decide_eq_false. unfold field_of. cbn [fst].
  intros E%(Serialize_inj _ _ (Hi x Ex) Hmin). specialize (Hf x Ex). cbn beta in Hf.
  by rewrite E, (cmp_refl (cmp:=streamID_compare)) in Hf.
Qed.

Lemma at_minid (f : list message) y :
  fst y = minid ->
  back_is (streamID_Serialize minid) (field_of <$> f ++ [y]) = true.
Proof. intros <-. unfold back_is. rewrite fmap_last, last_snoc. by apply bool_decide_eq_true. Qed.

(** What a round takes from [low]. *)
Lemma minid_round_ok del low high tr r :
  trim_state del (low ++ high) tr r -> below low -> hit high \/ above high -> low ++ high <> [] ->
  streamID_compare (smv_first_id m) minid <> Gt ->
  exists k next r',
    minid_round fuel key m minid tr r =
      Some (inr (mkTrimRet (tr_count tr + Z.of_nat k) next
                   (from_option (fun x => streamID_Serialize (fst x)) (tr_max_deleted_field tr) (last (take k low)))), r') /\
    messages_stored key (smv_version m) (drop k low ++ high) r r' /\ (k <= length low)%nat /\ (low = [] \/ 1 <= k)%nat /\
    (((k < length low)%nat /\ next = next_of (field_of <$> drop k low)) \/
     (k = length low /\ ((hit high /\ next = streamID_Serialize minid) \/ (above high /\ next = [])))).
Proof.
  intros Hts Hlow Hhigh Hne Hle. pose proof (left_rest _ _ _ _ Hts) as [Hleft Hrest].
  destruct (upto_minid low high Hlow Hhigh) as (c & Hup & Hc). unfold minid_round. cbv zeta.
  rewrite Hleft, i32_id by lia. unfold kDEFAULT_TRIM_BATCH_SIZE. set (batch := Z.min _ 1000). set (n := Z.to_nat batch).
  assert (Hn : (1 <= n)%nat).
  { destruct (low ++ high); [done|]. unfold n, batch. cbn [length]. lia. }
  rewrite (bind_run _ _ _ _ _ (scan_rest del (low ++ high) tr r minid batch Hts Hmin Hle)). rewrite Hup. fold n. on_status. cbn [negb].
  clearbody n. remember (Nat.min n (length low)) as k eqn:Dk.
  destruct (delete_front del (low ++ high) tr k r Hts) as (r' & HD & HS).
  assert (Ek : take k (low ++ high) = take k low) by (rewrite take_app_le; [done|lia]).
  rewrite Ek in HD. rewrite drop_app_le in HS by lia. exists k.
  assert (Hi : Forall (fun x => streamID_ok (fst x)) (take k low)).
  { pose proof (mo_ids _ Hl) as Hi. rewrite (ts_split _ _ _ _ Hts), !Forall_app in Hi. destruct Hi as (_ & Hi & _). by apply Forall_took. }
  pose proof (not_at_minid _ (Forall_took _ k _ Hlow) Hi) as Hplain.
  destruct (decide (n <= length low)%nat) as [Hk|Hk].
  - assert (n = k) as -> by lia. rewrite take_app_le, drop_app_le by done. rewrite Hplain.
    rewrite length_fmap, fmap_last. eexists _, r'. rewrite (bind_run _ _ _ _ _ HD). on_status. cbn [negb].
    split_and!; [|done|done|by right|].
    + rewrite length_take_le by done. unfold ret. repeat f_equal. by destruct (last (take k low)).
    + destruct (decide (k < length low)%nat) as [Hlt|Hge]; [left|right]; split; [done| |lia|].
      * destruct (drop k low) as [|x t] eqn:Ed; [|done]. apply (f_equal length) in Ed. rewrite length_drop in Ed. cbn in Ed. lia.
      * rewrite drop_ge by lia. destruct Hc as [[-> Hh]|[-> Hh]]; [left|by right]. split; [done|].
        destruct Hh as (y & h & -> & <- & _). done.
  - assert (k = length low) as -> by lia. rewrite take_ge in Hplain, HD by lia. rewrite drop_ge in HS by apply Nat.le_refl.
    assert (length (low ++ c) <= n)%nat.
    { rewrite length_app. destruct Hc as [[-> _]|[-> _]]; [rewrite length_take|cbn]; lia. }
    rewrite (take_ge low), (drop_ge low), (take_ge (low ++ c)), (drop_ge (low ++ c)) by lia.
    destruct Hc as [[-> Hh]|[-> Hh]].
    + pose proof Hh as (y & h & -> & Ey & _). cbn [take]. rewrite at_minid by done.
      rewrite length_fmap, length_app, Nat.add_sub, <- fmap_take, take_app_length. eexists _, r'.
      rewrite fmap_last, length_fmap, (bind_run _ _ _ _ _ HD). on_status. cbn [negb].
      split_and!; [|done|done|destruct low; [by left|right; cbn; lia]|by right; split; [|left]].
      unfold ret. repeat f_equal. by destruct (last low).
    + rewrite app_nil_r, Hplain. eexists _, r'. rewrite fmap_last, length_fmap, (bind_run _ _ _ _ _ HD). on_status. cbn [negb].
      split_and!; [|done|done|destruct low; [by left|right; cbn; lia]|by right; split; [|right]].
      unfold ret. repeat f_equal. by destruct (last low).
Qed.

Lemma rest_ids del rest tr r : trim_state del rest tr r -> Forall (fun x => streamID_ok (fst x)) rest.
Proof. intros [E _ _ _ _]. pose proof (mo_ids _ Hl) as Hi. rewrite E in Hi. by apply Forall_app in Hi as [_ Hi]. Qed.

(** The first message, or nothing, is not below [minid]. *)
Lemma next_not_below high tr del r :
  Forall (fun x => streamID_compare (fst x) minid <> Lt) high -> Forall (fun x => streamID_ok (fst x)) high ->
  trim_state del high tr r -> next_right high tr -> minid_goes m (streamID_Serialize minid) tr = false.
Proof.
  intros Hh Hi Hts Hn. unfold minid_goes. rewrite (proj1 (left_rest _ _ _ _ Hts)).
  destruct high as [|y h]; [apply andb_false_r|]. rewrite (Hn y h eq_refl). apply Forall_inv in Hh, Hi. cbn beta in Hh, Hi.
  rewrite Serialize_compare by done. by rewrite bool_decide_eq_false_2.
Qed.

Lemma hit_not_below high :
  hit high \/ high = [] -> Forall (fun x => streamID_compare (fst x) minid <> Lt) high.
Proof.
  intros [(y & h & -> & Ey & Hh)| ->]; [|done]. constructor; [by rewrite Ey, (cmp_refl (cmp:=streamID_compare))|].
  eapply Forall_impl; [exact Hh|]. intros x Hx. cbn beta in Hx. by rewrite Hx.
Qed.

Lemma next_below x t tr del r :
  trim_state del (x :: t) tr r -> next_right (x :: t) tr -> streamID_ok (fst x) -> streamID_compare (fst x) minid = Lt ->
  minid_goes m (streamID_Serialize minid) tr = true.
Proof.
  intros Hts Hn Hx Hlt. unfold minid_goes. rewrite (proj1 (left_rest _ _ _ _ Hts)), (Hn x t eq_refl).
  rewrite Serialize_compare, Hlt by done. cbn [length]. rewrite (proj2 (Z.ltb_lt _ _)) by lia. done.
Qed.

Lemma first_below del x t tr r :
  trim_state del (x :: t) tr r -> streamID_compare (fst x) minid = Lt -> streamID_compare (smv_first_id m) minid <> Gt.
Proof.
  intros [E _ _ _ _] Hx. pose proof after_first as Ha. rewrite E in Ha. apply Forall_app in Ha as [_ Ha%Forall_inv].
  cbn beta in Ha. rewrite (cmp_le_lt_trans streamID_compare _ (fst x)); [done| |done].
  intros H%(cmp_Gt_Lt streamID_compare). done.
Qed.

(** The state after a round. *)
Lemma trim_more_low del low high tr k next r r' :
  trim_state del (low ++ high) tr r -> (k <= length low)%nat ->
  messages_stored key (smv_version m) (drop k low ++ high) r r' ->
  trim_state (del ++ take k low) (drop k low ++ high)
    (mkTrimRet (tr_count tr + Z.of_nat k) next
       (from_option (fun x => streamID_Serialize (fst x)) (tr_max_deleted_field tr) (last (take k low)))) r'.
Proof.
  intros Hts Hk HS. pose proof (trim_more del (low ++ high) tr k next r r' Hts) as H.
  rewrite take_app_le, drop_app_le in H by done. apply H; [rewrite length_app; lia|done].
Qed.

Lemma minid_loop_ok high : hit high \/ high = [] -> forall rounds del low tr r,
  trim_state del (low ++ high) tr r -> next_right (low ++ high) tr -> below low -> (length low < rounds)%nat ->
  exists tr' r', minid_loop rounds fuel key m minid tr r = Some ((Status_OK, tr'), r') /\
    trim_state (del ++ low) high tr' r' /\ next_right high tr' /\ messages_stored key (smv_version m) high r r'.
Proof.
  intros Hh. assert (Hh' : hit high \/ above high) by (destruct Hh as [| ->]; auto).
  induction rounds as [|rounds IH]; intros del low tr r Hts Hn Hlow Hr; [lia|]. cbn [minid_loop].
  destruct low as [|x t].
  { rewrite (next_not_below high tr del r) by (done || by apply hit_not_below || by eapply rest_ids). exists tr, r. rewrite app_nil_r. split_and!; try done.
    apply messages_stored_refl; apply Hts. }
  pose proof (Forall_inv (rest_ids _ _ _ _ Hts)) as Hx. pose proof (Forall_inv Hlow) as Hlt. cbn beta in Hx, Hlt.
  rewrite (next_below x (t ++ high) tr del r) by done.
  destruct (minid_round_ok del (x :: t) high tr r Hts Hlow Hh') as (k & next & r1 & HR & HS & Hk & Hk1 & Hnext);
    [done|by eapply (first_below del x)|].
  rewrite (bind_run _ _ _ _ _ HR). destruct Hk1 as [|Hk1]; [done|].
  pose proof (trim_more_low del (x :: t) high tr k next r r1 Hts Hk HS) as Hts1.
  destruct (IH _ _ _ _ Hts1) as (tr' & r' & HL & Hts' & Hn' & HS').
  - intros y u Ey. cbn [tr_next_field]. destruct Hnext as [[Hlt' ->]|[-> [[Hhit ->]|[Habove ->]]]].
    + destruct (drop k (x :: t)) as [|z v] eqn:Ed; [apply (f_equal length) in Ed; rewrite length_drop in Ed; cbn in *; lia|].
      cbn in Ey. by injection Ey as -> _.
    + rewrite drop_ge in Ey by done. destruct Hhit as (z & h & -> & <- & _). by injection Ey as -> _.
    + rewrite drop_ge in Ey by done. cbn in Ey. destruct Hh as [(z & h & -> & <- & _)| ->]; [|done].
      apply Forall_inv in Habove. by rewrite (cmp_refl (cmp:=streamID_compare)) in Habove.
  - rewrite <- (take_drop k (x :: t)), Forall_app in Hlow. apply Hlow.
  - rewrite length_drop. cbn [length] in *. lia.
  - exists tr', r'. rewrite <- app_assoc, take_drop in Hts'. split_and!; try done. by eapply messages_stored_trans.
Qed.

(** *** MINID between two messages *)

(** The loop has gone through [n] rounds, each time with its condition true. *)
Inductive minid_after : nat -> TrimRet -> Redis -> TrimRet -> Redis -> Prop :=
  | ma_none tr r : minid_after 0 tr r tr r
  | ma_round n tr r tr1 r1 tr2 r2 :
      minid_goes m (streamID_Serialize minid) tr = true -> minid_round fuel key m minid tr r = Some (inr tr1, r1) ->
      minid_after n tr1 r1 tr2 r2 -> minid_after (S n) tr r tr2 r2.

Definition hanging (high : list message) (tr : TrimRet) (r : Redis) : Prop :=
  exists del low, trim_state del (low ++ high) tr r /\ below low /\
    (tr_next_field tr = [] \/ (low <> [] /\ next_right (low ++ high) tr)).

Lemma hanging_goes high tr r :
  high <> [] -> hanging high tr r -> minid_goes m (streamID_Serialize minid) tr = true.
Proof.
  intros Hne (del & low & Hts & Hlow & [Hn|[Hl' Hn]]).
  - unfold minid_goes. rewrite Hn, (proj1 (left_rest _ _ _ _ Hts)).
    pose proof (Serialize_nonempty minid) as Hs. destruct (streamID_Serialize minid); [done|].
    cbn [bytes_compare]. rewrite length_app. destruct high; [done|]. cbn [length].
    rewrite (proj2 (Z.ltb_lt _ _)) by lia. done.
  - destruct low as [|x t]; [done|]. pose proof (Forall_inv (rest_ids _ _ _ _ Hts)). apply Forall_inv in Hlow.
    by eapply (next_below x (t ++ high)).
Qed.

Lemma hanging_round high tr r :
  high <> [] -> above high -> streamID_compare (smv_first_id m) minid <> Gt -> hanging high tr r ->
  exists tr' r', minid_round fuel key m minid tr r = Some (inr tr', r') /\ hanging high tr' r'.
Proof.
  intros Hne Hh Hf (del & low & Hts & Hlow & _).
  destruct (minid_round_ok del low high tr r Hts Hlow (or_intror Hh)) as (k & next & r1 & HR & HS & Hk & _ & Hnext); [|done|].
  { intros [_ ?]%app_nil. done. }
  eexists _, r1. split; [exact HR|]. exists (del ++ take k low), (drop k low). split_and!.
  - by apply trim_more_low with (r := r).
  - rewrite <- (take_drop k low), Forall_app in Hlow. apply Hlow.
  - cbn [tr_next_field]. destruct Hnext as [[Hlt ->]|[-> [[(z & h & -> & <- & _) _]|[_ ->]]]]; [right|exfalso|by left].
    + destruct (drop k low) as [|x t] eqn:Ed; [apply (f_equal length) in Ed; rewrite length_drop in Ed; cbn in *; lia|].
      split; [done|]. intros y u Ey. cbn in Ey. by injection Ey as -> _.
    + apply Forall_inv in Hh. by rewrite (cmp_refl (cmp:=streamID_compare)) in Hh.
Qed.

Lemma hanging_after high n : forall tr r,
  high <> [] -> above high -> streamID_compare (smv_first_id m) minid <> Gt -> hanging high tr r ->
  exists tr' r', minid_after n tr r tr' r' /\ minid_goes m (streamID_Serialize minid) tr' = true.
Proof.
  induction n as [|n IH]; intros tr r Hne Hh Hf H.
  - exists tr, r. split; [constructor|by eapply hanging_goes].
  - destruct (hanging_round high tr r Hne Hh Hf H) as (tr1 & r1 & HR & H1).
    destruct (IH tr1 r1 Hne Hh Hf H1) as (tr2 & r2 & HA & HG). exists tr2, r2. split; [|done].
    econstructor; [by eapply hanging_goes|done..].
Qed.

End Minid.

End Trim.

(** *** Both *)

(** The messages a trim keeps. *)
Definition kept_by (args : StreamAddTrimArgs) (l : list message) : list message :=
  match sa_trim_strategy args with
  | TRIM_STRATEGY_NONE => l
  | TRIM_STRATEGY_MAXLEN => drop (length l - Z.to_nat (sa_maxlen args)) l
  | TRIM_STRATEGY_MINID => filter (fun x => streamID_compare (fst x) (sa_minid args) <> Lt) l
  end.

(** The loop of MINID ends if the identifier is the one of a message, or after
    all of them, or not after any. *)
Definition minid_ends (minid : streamID) (l : list message) : Prop :=
  minid ∈ l.*1 \/ Forall (fun x => streamID_compare (fst x) minid = Lt) l \/
  Forall (fun x => streamID_compare (fst x) minid <> Lt) l.

Definition trim_ok (args : StreamAddTrimArgs) (l : list message) : Prop :=
  match sa_trim_strategy args with
  | TRIM_STRATEGY_NONE => True
  | TRIM_STRATEGY_MAXLEN => is_u64 (sa_maxlen args)
  | TRIM_STRATEGY_MINID => streamID_ok (sa_minid args) /\ minid_ends (sa_minid args) l
  end.

Lemma minid_split minid l :
  messages_ok l -> exists low high, l = low ++ high /\
    Forall (fun x => streamID_compare (fst x) minid = Lt) low /\ Forall (fun x => streamID_compare (fst x) minid <> Lt) high /\
    filter (fun x => streamID_compare (fst x) minid <> Lt) l = high.
Proof.
  intros Hl. destruct (sorted_cut _ (fun x : message => streamID_compare (fst x) minid = Lt) l (mo_sorted _ Hl))
    as (low & high & -> & H1 & H2).
  { intros x y Hxy Hy. by apply (cmp_trans (cmp:=streamID_compare) _ (fst y)). }
  exists low, high. split_and!; try done. rewrite filter_app, filter_none, filter_every; try done.
  eapply Forall_impl; [exact H1|]. intros x Hx. cbn beta in *. tauto.
Qed.

(** Where the message of [minid] is. *)
Lemma minid_hit minid low high :
  messages_ok (low ++ high) -> Forall (fun x => streamID_compare (fst x) minid = Lt) low ->
  Forall (fun x => streamID_compare (fst x) minid <> Lt) high -> minid ∈ (low ++ high).*1 -> hit minid high.
Proof.
  intros Hl H1 H2 Hin. apply list_elem_of_fmap in Hin as (y & Ey & Hy). rewrite elem_of_app in Hy.
  rewrite Forall_forall in H1, H2. destruct Hy as [Hy|Hy].
  { specialize (H1 y Hy). cbn beta in H1. by rewrite <- Ey, (cmp_refl (cmp:=streamID_compare)) in H1. }
  apply messages_ok_app in Hl as [_ Hl]. pose proof (mo_sorted _ Hl) as Hs.
  destruct high as [|z h]; [by apply elem_of_nil in Hy|]. apply StronglySorted_inv in Hs as [_ Hs].
  assert (Ez : fst z = minid).
  { apply elem_of_cons in Hy as [->|Hy]; [done|]. rewrite Forall_forall in Hs. specialize (Hs y Hy). cbn beta in Hs.
    rewrite <- Ey in Hs. by destruct (H2 z ltac:(by left)). }
  exists z, h. split_and!; [done..|]. eapply Forall_impl; [exact Hs|]. intros x Hx. cbn beta in *.
  apply (cmp_Gt_Lt streamID_compare). by rewrite <- Ez.
Qed.

Lemma TrimByMinid_ok rounds fuel key m l args r :
  key_ok key = true -> engine_ok r -> stream_data (db_ r) key m l -> Z.of_nat (length l) < 2 ^ 31 ->
  streamID_ok (sa_minid args) -> minid_ends (sa_minid args) l -> (length l < rounds)%nat -> (length l < fuel)%nat ->
  exists del rest tr r', TrimByMinid rounds fuel key m args r = Some ((Status_OK, tr), r') /\
    rest = filter (fun x => streamID_compare (fst x) (sa_minid args) <> Lt) l /\
    trim_state key m l del rest tr r' /\ next_right rest tr /\ messages_stored key (smv_version m) rest r r'.
Proof.
  intros K HE Hd H31 Hmin Hends Hr Hf. pose proof (stream_coherent_ranges m (sd_coherent _ _ _ _ Hd)) as Hrg.
  pose proof (sd_ok _ _ _ _ Hd) as Hl. set (minid := sa_minid args) in *.
  destruct (minid_split minid l Hl) as (low & high & El & H1 & H2 & Ef). rewrite Ef. unfold TrimByMinid. fold minid.
  assert (Hts : trim_state key m l [] (low ++ high) (mkTrimRet 0 (streamID_Serialize (smv_first_id m)) []) r).
  { constructor; [done|done|rewrite <- El; apply (sd_members _ _ _ _ Hd)|done|done]. }
  assert (Hn : next_right (low ++ high) (mkTrimRet 0 (streamID_Serialize (smv_first_id m)) [])).
  { intros x t Ex. cbn [tr_next_field]. rewrite (sd_first _ _ _ _ Hd), El, Ex. done. }
  destruct low as [|x low].
  - exists [], high, (mkTrimRet 0 (streamID_Serialize (smv_first_id m)) []), r. destruct rounds; [lia|]. cbn [minid_loop].
    assert (Hi : Forall (fun x => streamID_ok (fst x)) high) by (cbn in El; rewrite <- El; apply (mo_ids _ Hl)).
    erewrite next_not_below by (exact Hts || apply (sd_length _ _ _ _ Hd) || apply Hf || done). split_and!; try done.
    by apply messages_stored_refl; [|apply (ts_members _ _ _ _ _ _ _ Hts)].
  - assert (Hh : hit minid high \/ high = []).
    { destruct Hends as [Hin|[Hall|Hall]].
      - left. rewrite El in Hin, Hl. by eapply minid_hit.
      - right. rewrite El in Hall. apply Forall_app in Hall as [_ Hall]. destruct high as [|y h]; [done|].
        apply Forall_inv in Hall, H2. done.
      - rewrite El in Hall. apply Forall_inv in Hall, H1. done. }
    destruct (minid_loop_ok key m l fuel K (cr_version _ Hrg) Hl (sd_length _ _ _ _ Hd) H31 (sd_first _ _ _ _ Hd) Hf minid Hmin
      high Hh rounds [] (x :: low) _ r Hts Hn H1) as (tr & r' & HL & Hts' & Hn' & HS).
    { rewrite El, length_app in Hr. lia. }
    by exists (x :: low), high, tr, r'.
Qed.

(** The largest identifier deleted, after [del]. *)
Definition raised (old : streamID) (del : list message) : streamID :=
  match last del with
  | Some x => if bool_decide (streamID_compare (fst x) old = Gt) then fst x else old
  | None => old
  end.

(** The meta value after the loops. *)
Lemma trim_finish key m l del rest tr r r' (loops : M (Status * TrimRet)) :
  stream_data (db_ r) key m l -> Z.of_nat (length l) < 2 ^ 31 -> loops r = Some ((Status_OK, tr), r') ->
  trim_state key m l del rest tr r' -> (del <> [] -> next_right rest tr) -> messages_stored key (smv_version m) rest r r' ->
  exists m',
    (let* '(s, trim_ret) := loops in
     if negb (ok s) || (tr_count trim_ret =? 0) then ret (s, 0, m)
     else
       let* first_id := if smv_length m =? tr_count trim_ret then ret kSTREAMID_MIN else lift (field_id (tr_next_field trim_ret)) in
       let* max_deleted_id := lift (field_id (tr_max_deleted_field trim_ret)) in
       let stream_meta := set_first_id m first_id in
       let stream_meta :=
         if streamID_gtb max_deleted_id (smv_max_deleted_entry_id stream_meta)
         then set_max_deleted_entry_id stream_meta max_deleted_id else stream_meta in
       let stream_meta := set_length stream_meta (smv_length stream_meta - tr_count trim_ret) in
       ret (Status_OK, tr_count trim_ret, stream_meta)) r = Some ((Status_OK, Z.of_nat (length del), m'), r') /\
    stream_data (db_ r') key m' rest /\
    stream_of m' rest = mkStream rest (smv_last_id m) (raised (smv_max_deleted_entry_id m) del) (smv_entries_added m).
Proof.
  intros Hd H31 HL [El _ Hmem Hc Hx] Hn HS. pose proof Hd as [Hco Hty Hl _ Hlen Hfst Hlast Hfresh].
  rewrite (bind_run _ _ _ _ _ HL). on_status. cbn [negb orb]. rewrite Hc.
  pose proof (mo_ids _ Hl) as Hi. rewrite El in Hl, Hlast, Hi, Hlen, Hfst, H31. rewrite length_app in Hlen, H31.
  apply messages_ok_app in Hl as [_ Hlr]. apply Forall_app in Hlast as [_ Hlast]. apply Forall_app in Hi as [Hid Hir].
  destruct del as [|d del'] using rev_ind; [|clear IHdel'].
  - cbn in Hlen, Hfst. exists m. split; [done|]. split; [|done]. constructor; try done. by apply (ms_fresh _ _ _ _ _ HS).
  - rewrite (proj2 (Z.eqb_neq _ _)) by (rewrite length_app; cbn; lia).
    specialize (Hx d ltac:(by rewrite last_snoc)). apply Forall_app in Hid as [_ Hdo%Forall_inv].
    assert (Hfo : streamID_ok (first_id_of rest)) by (unfold first_id_of; destruct rest; [done|by apply Forall_inv in Hir]).
    rewrite (bind_run _ (first_id_of rest) _ _ r').
    2: { rewrite Hlen. destruct rest as [|x t].
         - rewrite (proj2 (Z.eqb_eq _ _)) by (rewrite !length_app; cbn; lia). done.
         - rewrite (proj2 (Z.eqb_neq _ _)) by (rewrite !length_app; cbn; lia).
           rewrite (Hn ltac:(by destruct del') x t eq_refl), field_id_Serialize by (by apply Forall_inv in Hir). done. }
    rewrite (bind_lift _ (fst d)) by (by rewrite Hx, field_id_Serialize). cbv zeta.
    rewrite streamID_gtb_spec. unfold raised. rewrite last_snoc. eexists. split; [done|].
    assert (Hl31 : is_i32 (Z.of_nat (length rest))) by (unfold is_i32; lia).
    assert (Elen : Z.of_nat (length (del' ++ [d]) + length rest) - Z.of_nat (length (del' ++ [d])) = Z.of_nat (length rest)) by lia.
    cbn [smv_max_deleted_entry_id set_first_id]. destruct (bool_decide _); cbn [smv_length set_first_id set_max_deleted_entry_id];
      rewrite Hlen, Elen; (split; [|done]).
    all: constructor; cbn [smv_type smv_version smv_length smv_first_id smv_last_id set_length set_first_id set_max_deleted_entry_id];
      try done; [auto with coherent|by apply (ms_fresh _ _ _ _ _ HS)].
Qed.

Lemma TrimStream_ok rounds fuel key m l args r :
  key_ok key = true -> engine_ok r -> stream_data (db_ r) key m l -> Z.of_nat (length l) < 2 ^ 31 -> trim_ok args l ->
  sa_trim_strategy args <> TRIM_STRATEGY_NONE -> (length l < rounds)%nat -> (length l < fuel)%nat ->
  let l' := kept_by args l in let del := take (length l - length l') l in
  exists m' r', TrimStream rounds fuel key m args r = Some ((Status_OK, Z.of_nat (length del), m'), r') /\
    stream_data (db_ r') key m' l' /\ messages_stored key (smv_version m) l' r r' /\
    stream_of m' l' = mkStream l' (smv_last_id m) (raised (smv_max_deleted_entry_id m) del) (smv_entries_added m).
Proof.
  intros K HE Hd H31 Hargs Hs Hr Hf. unfold trim_ok, kept_by, TrimStream in *.
  pose proof (stream_coherent_ranges m (sd_coherent _ _ _ _ Hd)) as Hrg.
  assert (Hdel : forall del rest : list message, l = del ++ rest -> take (length l - length rest) l = del).
  { intros del rest E. rewrite E, length_app, Nat.add_sub. apply take_app_length. }
  destruct (sa_trim_strategy args) eqn:Es; [done|..].
  - unfold is_u64 in Hargs. set (k := (length l - Z.to_nat (sa_maxlen args))%nat).
    destruct (maxlen_loop_ok key m l fuel K (cr_version _ Hrg) (sd_ok _ _ _ _ Hd) (sd_length _ _ _ _ Hd) H31
      (sd_first _ _ _ _ Hd) Hf (sa_maxlen args) ltac:(lia) rounds [] l (mkTrimRet 0 [] []) r) as (tr & r' & HL & Hts & Hn & HS);
      [by constructor; [..|done|done]; [done|done|apply (sd_members _ _ _ _ Hd)]|done|done|]. fold k in HL, Hts, Hn, HS.
    cbn [app] in Hts, Hn. rewrite (Hdel _ _ (ts_split _ _ _ _ _ _ _ Hts)).
    destruct (trim_finish key m l (take k l) (drop k l) tr r r' _ Hd H31 HL Hts Hn HS) as (m' & HT & Hd' & E').
    by exists m', r'.
  - destruct Hargs as [Hmin Hends].
    destruct (TrimByMinid_ok rounds fuel key m l args r K HE Hd H31 Hmin Hends Hr Hf)
      as (del & rest & tr & r' & HL & Er & Hts & Hn & HS).
    rewrite <- Er, (Hdel _ _ (ts_split _ _ _ _ _ _ _ Hts)).
    destruct (trim_finish key m l del rest tr r r' _ Hd H31 HL Hts (fun _ => Hn) HS) as (m' & HT & Hd' & E').
    by exists m', r'.
Qed.

(** ** XTRIM *)

Lemma stream_length_bound db key m l : stream_data db key m l -> Z.of_nat (length l) < 2 ^ 31.
Proof.
  intros Hd. pose proof (cr_length _ (stream_coherent_ranges m (sd_coherent _ _ _ _ Hd))) as H.
  rewrite (sd_length _ _ _ _ Hd) in H. apply H.
Qed.

Lemma GetStreamMeta_stream now key m l r :
  healthy (db_ r) -> meta_of (db_ r) key = Some (smv_value m) -> stream_data (db_ r) key m l ->
  GetStreamMeta now key [] r = Some ((Status_OK, m), r).
Proof.
  intros Hdb Hm Hd. apply GetStreamMeta_holds; [done..|apply (sd_coherent _ _ _ _ Hd)|apply (sd_type _ _ _ _ Hd)|by left].
Qed.

Lemma XTrim_stores rounds fuel now key args s r :
  key_ok key = true -> engine_ok r -> stream_holds (db_ r) key s -> trim_ok args (st_messages s) ->
  sa_trim_strategy args <> TRIM_STRATEGY_NONE ->
  (length (st_messages s) < rounds)%nat -> (length (st_messages s) < fuel)%nat ->
  let l := st_messages s in let l' := kept_by args l in let del := take (length l - length l') l in
  exists r', XTrim rounds fuel now key args r = Some ((Status_OK, Z.of_nat (length del)), r') /\
    stream_stores key (mkStream l' (st_last s) (raised (st_max_deleted s) del) (st_added s)) r r'.
Proof.
  intros K HE (m & Hm & Hd & Es) Hargs Hs Hr Hf l l' del.
  destruct (TrimStream_ok rounds fuel key m l args r K HE Hd (stream_length_bound _ _ _ _ Hd) Hargs Hs Hr Hf)
    as (m' & r1 & HT & Hd' & HS & Em).
  destruct (put_stream_meta_ok key m' l' r r1 K (ms_engine _ _ _ _ _ HS) Hd' (ms_others _ _ _ _ _ HS)) as (r' & HP & Hst).
  exists r'. unfold XTrim. rewrite (bind_run _ _ _ _ _ (GetStreamMeta_stream now key m l r (proj1 HE) Hm Hd)).
  on_status. cbn [negb]. rewrite (bind_run _ _ _ _ _ HT). on_status. cbn [negb].
  rewrite (bind_run _ _ _ _ _ HP). split; [done|]. fold l' del in Em. rewrite Em in Hst. destruct s. by injection Es as -> -> ->.
Qed.

(** C21: XTRIM keeps the last messages for MAXLEN and the messages from the
    given identifier on for MINID, returns how many it deleted, raises the
    largest identifier deleted to the last of them, and leaves the last
    identifier, the number of messages added and everything else alone.  For
    MINID the identifier is the one of a message, or after all of them, or not
    after any. *)
Theorem XTrim_correct rounds fuel now key args s r :
  key_ok key = true -> engine_ok r -> stream_holds (db_ r) key s -> trim_ok args (st_messages s) ->
  sa_trim_strategy args <> TRIM_STRATEGY_NONE ->
  (length (st_messages s) < rounds)%nat -> (length (st_messages s) < fuel)%nat ->
  let l := st_messages s in let l' := kept_by args l in let del := take (length l - length l') l in
  exists r', XTrim rounds fuel now key args r = Some ((Status_OK, Z.of_nat (length del)), r') /\
    stream_stores key (mkStream l' (st_last s) (raised (st_max_deleted s) del) (st_added s)) r r'.
Proof. apply XTrim_stores. Qed.

Lemma minid_after_loop fuel key m minid n tr r tr' r' :
  minid_after key m fuel minid n tr r tr' r' -> forall rounds, (rounds <= n)%nat -> minid_loop rounds fuel key m minid tr r = None.
Proof.
  induction 1 as [tr r|n tr r tr1 r1 tr2 r2 HG HR _ IH]; intros [|rounds] Hr; try done; [lia|].
  cbn [minid_loop]. rewrite HG, (bind_run _ _ _ _ _ HR). apply IH. lia.
Qed.

(** C37: XTRIM with MINID does not end when the identifier lies between two
    messages and is not the one of any: for every number of rounds the loop has
    gone through them and its condition still holds. *)
Theorem XTrim_minid_hangs fuel now key args s r :
  key_ok key = true -> engine_ok r -> stream_holds (db_ r) key s -> (length (st_messages s) < fuel)%nat ->
  sa_trim_strategy args = TRIM_STRATEGY_MINID -> streamID_ok (sa_minid args) ->
  sa_minid args ∉ (st_messages s).*1 ->
  Exists (fun x => streamID_compare (fst x) (sa_minid args) = Lt) (st_messages s) ->
  Exists (fun x => streamID_compare (fst x) (sa_minid args) = Gt) (st_messages s) ->
  (exists m, meta_of (db_ r) key = Some (smv_value m) /\
    forall n, exists tr r', minid_after key m fuel (sa_minid args) n
        (mkTrimRet 0 (streamID_Serialize (smv_first_id m)) []) r tr r' /\
      minid_goes m (streamID_Serialize (sa_minid args)) tr = true) /\
  forall rounds, XTrim rounds fuel now key args r = None.
Proof.
  intros K HE (m & Hm & Hd & Es) Hf Hs Hmin Hin Hlow Hhigh. set (minid := sa_minid args) in *. set (l := st_messages s) in *.
  pose proof (stream_coherent_ranges m (sd_coherent _ _ _ _ Hd)) as Hrg. pose proof (sd_ok _ _ _ _ Hd) as Hl.
  destruct (minid_split minid l Hl) as (low & high & El & H1 & H2 & _).
  assert (Habove : Forall (fun x => streamID_compare (fst x) minid = Gt) high).
  { rewrite Forall_forall in *. intros x Hx. specialize (H2 x Hx). cbn beta in H2.
    destruct (streamID_compare (fst x) minid) eqn:E; [|done..]. exfalso. apply Hin. apply streamID_compare_eq in E as <-.
    apply list_elem_of_fmap. exists x. split; [done|]. rewrite El. apply elem_of_app. by right. }
  assert (low <> [] /\ high <> []) as [Hnl Hnh].
  { rewrite El, !Exists_app in Hlow, Hhigh. rewrite !Exists_exists in Hlow, Hhigh. rewrite Forall_forall in H1, Habove.
    split; intros ->; [destruct Hlow as [(x & Hx & Ex)|(x & Hx & Ex)]|destruct Hhigh as [(x & Hx & Ex)|(x & Hx & Ex)]];
      try (by apply elem_of_nil in Hx); [specialize (Habove x Hx)|specialize (H1 x Hx)]; cbn beta in *; congruence. }
  assert (Hts : trim_state key m l [] (low ++ high) (mkTrimRet 0 (streamID_Serialize (smv_first_id m)) []) r).
  { constructor; [done|done|rewrite <- El; apply (sd_members _ _ _ _ Hd)|done|done]. }
  assert (HH : hanging key m l minid high (mkTrimRet 0 (streamID_Serialize (smv_first_id m)) []) r).
  { exists [], low. split_and!; [done..|right]. split; [done|]. intros x t Ex. cbn [tr_next_field].
    rewrite (sd_first _ _ _ _ Hd). fold l. rewrite El, Ex. done. }
  assert (Hfirst : streamID_compare (smv_first_id m) minid <> Gt).
  { rewrite (sd_first _ _ _ _ Hd). fold l. rewrite El. destruct low as [|x low]; [done|]. cbn. apply Forall_inv in H1.
    cbn beta in H1. by rewrite H1. }
  pose proof (fun n => hanging_after key m l fuel K (cr_version _ Hrg) Hl (sd_length _ _ _ _ Hd) (stream_length_bound _ _ _ _ Hd)
    (sd_first _ _ _ _ Hd) Hf minid Hmin high n _ r Hnh Habove Hfirst HH) as Hafter.
  split; [by exists m|]. intros rounds. unfold XTrim.
  rewrite (bind_run _ _ _ _ _ (GetStreamMeta_stream now key m l r (proj1 HE) Hm Hd)). on_status. cbn [negb].
  unfold TrimStream. rewrite Hs. unfold TrimByMinid. fold minid. destruct (Hafter rounds) as (tr & r' & HA & _).
  unfold bind. by rewrite (minid_after_loop _ _ _ _ _ _ _ _ _ HA rounds (Nat.le_refl _)).
Qed.

(** ** XADD *)

(** Nothing under the key, or an empty stream. *)
Definition stream_unused (db : DB) (now : Z) (key : bytes) : Prop :=
  (gone kStreams db now key /\ fresh_from kStreamsDataCF db key 2) \/
  exists s, stream_holds db key s /\ st_messages s = [].

(** The stream XADD appends to: an empty one is started anew. *)
Definition appends_to (db : DB) (now : Z) (key : bytes) (s : stream) : Prop :=
  (stream_holds db key s /\ st_messages s <> []) \/ (stream_unused db now key /\ s = empty_stream).

(** A version can still be incremented. *)
Definition stream_room (db : DB) (key : bytes) : Prop :=
  forall m, meta_of db key = Some (smv_value m) -> stream_meta_coherent m -> smv_version m < 2 ^ 64 - 1.

(** A stream that is started, under a version without messages. *)
Lemma init_data db key m :
  smv_type m = kStreams -> 0 <= smv_version m < 2 ^ 64 - 1 -> fresh_from kStreamsDataCF db key (smv_version m + 1) ->
  stream_data db key (InitMetaValue m) [] /\ stream_of (InitMetaValue m) [] = empty_stream.
Proof.
  intros Ht Hv Hf. assert (E : smv_version (InitMetaValue m) = smv_version m + 1) by (apply u64_id; unfold is_u64; lia).
  split; [|done]. constructor; try done.
  - by apply InitMetaValue_coherent.
  - by split; constructor.
  - rewrite E. apply Hf; [lia|unfold is_u64; lia].
  - intros v H1 H2. rewrite E in H1. apply Hf; [lia|done].
Qed.

Lemma XAdd_start rounds fuel now key msg args s r :
  healthy (db_ r) -> appends_to (db_ r) now key s -> stream_room (db_ r) key ->
  (sa_no_mkstream args = true -> st_messages s <> []) ->
  exists m, stream_data (db_ r) key m (st_messages s) /\ s = stream_of m (st_messages s) /\
    XAdd rounds fuel now key msg args r = xadd_append rounds fuel now key msg args m r.
Proof.
  intros Hdb Ha Hroom Hmk. unfold XAdd. destruct Ha as [[(m & Hm & Hd & Es) Hne]|[Hu ->]].
  - exists m. split_and!; try done. rewrite (bind_run _ _ _ _ _ (GetStreamMeta_stream now key m _ r Hdb Hm Hd)).
    on_status. change (IsNotFound Status_OK) with false. cbn [andb negb].
    rewrite (proj2 (Z.eqb_neq _ _)); [done|]. rewrite (sd_length _ _ _ _ Hd). destruct (st_messages s); [done|cbn; lia].
  - assert (Hmk' : sa_no_mkstream args = false) by (destruct (sa_no_mkstream args); [by destruct Hmk|done]).
    rewrite Hmk'. destruct Hu as [[Hg Hf]|(s & (m & Hm & Hd & Es) & El)].
    + exists (InitMetaValue (InitMetaValue StreamMetaValue_new)).
      destruct (init_data (db_ r) key (InitMetaValue StreamMetaValue_new)) as [Hd Ee]; [done| |done|]; [by cbv|].
      split_and!; try done. by rewrite (bind_run _ _ _ _ _ (GetStreamMeta_gone now key r Hdb Hg)).
    + exists (InitMetaValue m). rewrite El in Hd. pose proof (stream_coherent_ranges m (sd_coherent _ _ _ _ Hd)) as Hr.
      destruct (init_data (db_ r) key m) as [Hd' Ee].
      * apply (sd_type _ _ _ _ Hd).
      * split; [apply (cr_version _ Hr)|by apply Hroom; [|apply (sd_coherent _ _ _ _ Hd)]].
      * apply (sd_fresh _ _ _ _ Hd).
      * split_and!; try done. rewrite (bind_run _ _ _ _ _ (GetStreamMeta_stream now key m _ r Hdb Hm Hd)).
        on_status. change (IsNotFound Status_OK) with false. cbn [andb negb]. rewrite (sd_length _ _ _ _ Hd). done.
Qed.

(** The meta value after the message has been put. *)
Definition appended_meta (m : StreamMetaValue) (id : streamID) : StreamMetaValue :=
  let m := if smv_length m =? 0 then set_first_id m id else m in
  let m := set_entries_added m (u64 (smv_entries_added m + 1)) in
  let m := set_last_id m id in
  set_length m (smv_length m + 1).

Lemma append_data key m l id msg r r1 :
  stream_data (db_ r) key m l -> streamID_ok id -> streamID_compare id (smv_last_id m) = Gt ->
  Z.of_nat (length l) < 2 ^ 31 - 1 -> messages_stored key (smv_version m) (l ++ [(id, msg)]) r r1 ->
  messages_ok (l ++ [(id, msg)]) ->
  stream_data (db_ r1) key (appended_meta m id) (l ++ [(id, msg)]) /\
  stream_of (appended_meta m id) (l ++ [(id, msg)]) =
    mkStream (l ++ [(id, msg)]) id (smv_max_deleted_entry_id m) (u64 (smv_entries_added m + 1)).
Proof.
  intros [Hco Hty Hl Hmem Hlen Hfst Hlast Hfr] Hid Hgt H31 HS Hok. unfold appended_meta.
  assert (Hlast' : Forall (fun x => streamID_compare (fst x) id <> Gt) (l ++ [(id, msg)])).
  { apply Forall_app. split; [|by rewrite Forall_singleton, (cmp_refl (cmp:=streamID_compare))].
    eapply Forall_impl; [exact Hlast|]. intros x Hx. cbn beta in *.
    rewrite (cmp_le_lt_trans streamID_compare _ (smv_last_id m)); [done..|]. by apply (cmp_Gt_Lt streamID_compare). }
  assert (Hlen' : smv_length m + 1 = Z.of_nat (length (l ++ [(id, msg)]))) by (rewrite length_app, Hlen; cbn; lia).
  assert (Hi : is_i32 (smv_length m + 1)) by (unfold is_i32; lia).
  pose proof (u64_range (smv_entries_added m + 1)) as Hu.
  assert (Hf' : fresh_from kStreamsDataCF (db_ r1) key (smv_version m + 1)) by by apply (ms_fresh _ _ _ _ _ HS).
  destruct (Z.eqb_spec (smv_length m) 0) as [E|E]; (split; [|done]); constructor;
    cbn [smv_type smv_version smv_length smv_first_id smv_last_id smv_entries_added set_length set_last_id set_entries_added set_first_id];
    try done; try (apply (ms_members _ _ _ _ _ HS)); auto 10 with coherent.
  - rewrite Hlen in E. destruct l; [done|cbn in E; lia].
  - rewrite Hfst. destruct l; [by rewrite Hlen in E|done].
Qed.

Lemma append_ok m l id msg :
  messages_ok l -> streamID_ok id -> Forall (fun x => streamID_compare (fst x) (smv_last_id m) <> Gt) l ->
  streamID_compare id (smv_last_id m) = Gt -> messages_ok (l ++ [(id, msg)]).
Proof.
  intros [H1 H2] Hid Hlast Hgt. split; [|apply Forall_app; by split; [|constructor]].
  apply StronglySorted_app. split_and!; [|done|repeat constructor].
  intros x y Hx ->%list_elem_of_singleton. rewrite Forall_forall in Hlast. cbn [fst].
  apply (cmp_le_lt_trans streamID_compare _ (smv_last_id m)); [by apply Hlast|]. by apply (cmp_Gt_Lt streamID_compare).
Qed.

(** The trim of XADD, if there is one. *)
Lemma xadd_trim rounds fuel key m l args r r1 :
  key_ok key = true -> engine_ok r1 -> stream_data (db_ r1) key m l -> trim_ok args l ->
  (length l < rounds)%nat -> (length l < fuel)%nat -> base_others kStreamsDataCF key (db_ r) (db_ r1) ->
  let l' := kept_by args l in
  exists m' r', (match sa_trim_strategy args with
    | TRIM_STRATEGY_NONE => ret (Status_OK, m)
    | _ => let* '(s, _, stream_meta) := TrimStream rounds fuel key m args in ret (s, stream_meta)
    end) r1 = Some ((Status_OK, m'), r') /\
    stream_data (db_ r') key m' l' /\ engine_ok r' /\ base_others kStreamsDataCF key (db_ r) (db_ r') /\
    stream_of m' l' =
      mkStream l' (smv_last_id m) (raised (smv_max_deleted_entry_id m) (take (length l - length l') l)) (smv_entries_added m).
Proof.
  intros K HE Hd Hargs Hr Hf Ho. destruct (decide (sa_trim_strategy args = TRIM_STRATEGY_NONE)) as [E|E].
  - unfold kept_by. rewrite E. exists m, r1. by rewrite Nat.sub_diag.
  - destruct (TrimStream_ok rounds fuel key m l args r1 K HE Hd (stream_length_bound _ _ _ _ Hd) Hargs E Hr Hf)
      as (m' & r' & HT & Hd' & HS & Em).
    exists m', r'. pose proof (base_others_trans _ _ _ _ Ho (ms_others _ _ _ _ _ HS)). pose proof (ms_engine _ _ _ _ _ HS).
    by destruct (sa_trim_strategy args); [done|rewrite (bind_run _ _ _ _ _ HT)..].
Qed.

Lemma XAdd_stores rounds fuel now key msg args s r :
  key_ok key = true -> is_u64 now -> engine_ok r -> appends_to (db_ r) now key s -> stream_room (db_ r) key ->
  (sa_no_mkstream args = true -> st_messages s <> []) -> streamID_ok (sa_id args) -> clock_ahead now args (st_last s) ->
  Z.of_nat (length (st_messages s)) < 2 ^ 31 - 1 ->
  (forall id, next_id now args (st_last s) id -> trim_ok args (st_messages s ++ [(id, msg)])) ->
  (S (length (st_messages s)) < rounds)%nat -> (S (length (st_messages s)) < fuel)%nat ->
  (exists id r', next_id now args (st_last s) id /\
     XAdd rounds fuel now key msg args r = Some ((Status_OK, id), r') /\
     let l := st_messages s ++ [(id, msg)] in let l' := kept_by args l in
     stream_stores key (mkStream l' id (raised (st_max_deleted s) (take (length l - length l') l)) (u64 (st_added s + 1))) r r') \/
  (no_next_id now args (st_last s) /\
   exists st id, ok st = false /\ XAdd rounds fuel now key msg args r = Some ((st, id), r)).
Proof.
  intros K Hnow HE Ha Hroom Hmk Hid Hclock H31 Htrim Hr Hf.
  destruct (XAdd_start rounds fuel now key msg args s r (proj1 HE) Ha Hroom Hmk) as (m & Hd & Es & ->).
  pose proof (stream_coherent_ranges m (sd_coherent _ _ _ _ Hd)) as Hrg. set (l := st_messages s) in *.
  assert (El : st_last s = smv_last_id m) by by rewrite Es. assert (Em : st_max_deleted s = smv_max_deleted_entry_id m) by by rewrite Es.
  assert (Ea : st_added s = smv_entries_added m) by by rewrite Es. rewrite El, Em, Ea in *. clear El Em Ea Es.
  unfold xadd_append. destruct (_ && _) eqn:Emax.
  { right. split; [|by eexists _, _; split; [|reflexivity]]. apply andb_prop in Emax as [E1%Z.eqb_eq E2%Z.eqb_eq]. intros id' [Hok _].
    replace (smv_last_id m) with kSTREAMID_MAX; [by apply below_max|]. destruct (smv_last_id m). cbn in *. by subst. }
  pose proof (GenerateStreamID_ok now m args Hnow Hid (cr_last _ Hrg) Hclock) as HG.
  destruct (GenerateStreamID now m args) as [st id]. destruct HG as [[-> Hnext]|[Hst Hno]].
  2: { right. split; [done|]. rewrite Hst. by exists st, id. }
  left. exists id. on_status. cbn [negb]. pose proof Hnext as ([Hido _] & Hgt & _).
  pose proof (append_ok m l id msg (sd_ok _ _ _ _ Hd) Hido (sd_last _ _ _ _ Hd) Hgt) as Hok.
  destruct (write_messages key (smv_version m)
    [Put kStreamsDataCF (BaseDataKey_Encode key (smv_version m) (streamID_Serialize id)) msg]
    [(streamID_Serialize id, Some msg)] l (l ++ [(id, msg)]) r K (cr_version _ Hrg) HE) as (r1 & HW & HS).
  { apply be_put. constructor. }
  { apply (sd_members _ _ _ _ Hd). }
  { by rewrite id_map_snoc. }
  destruct (append_data key m l id msg r r1 Hd Hido Hgt H31 HS Hok) as [Hd1 Em].
  rewrite (bind_run _ _ _ _ _ HW). on_status. cbn [negb].
  match goal with |- context [i32_val ?z] => assert (Hv : i32_val z = Some z) end.
  { unfold i32_val. cbn [smv_length set_last_id set_entries_added].
    replace (smv_length (if smv_length m =? 0 then set_first_id m id else m)) with (smv_length m) by (by destruct (_ =? 0)). rewrite (sd_length _ _ _ _ Hd).
    by rewrite (proj2 (Z.leb_le _ _)), (proj2 (Z.ltb_lt _ _)) by lia. }
  rewrite (bind_lift _ _ _ _ Hv). match goal with |- context [set_length ?a ?b] => change (set_length a b) with (appended_meta m id) end.
  destruct (xadd_trim rounds fuel key (appended_meta m id) (l ++ [(id, msg)]) args r r1 K (ms_engine _ _ _ _ _ HS) Hd1
    (Htrim id Hnext)) as (m2 & r2 & HT & Hd2 & HE2 & Ho2 & Em2); [rewrite length_app; cbn; lia..|apply (ms_others _ _ _ _ _ HS)|].
  destruct (put_stream_meta_ok key m2 _ r r2 K HE2 Hd2 Ho2) as (r' & HP & Hst).
  exists r'. split; [done|]. rewrite (bind_run _ _ _ _ _ HT). on_status. cbn [negb]. rewrite (bind_run _ _ _ _ _ HP). split; [done|].
  pose proof (f_equal st_max_deleted Em) as E1. pose proof (f_equal st_added Em) as E2. unfold stream_of in E1, E2.
  cbn [st_max_deleted st_added] in E1, E2. by rewrite Em2, E1, E2 in Hst.
Qed.

(** C20: XADD gives a message the least identifier after the last one that its
    arguments leave open: the one given, the next of the millisecond given, or
    the next of the clock.  The message is appended, the stream is trimmed as
    asked, the identifier becomes the last one and the number of messages added
    grows; a stream that is not there or empty starts with the message.  If no
    identifier is left the command fails and changes nothing.  When it reads the
    clock, the clock is not behind the last identifier. *)
Theorem XAdd_correct rounds fuel now key msg args s r :
  key_ok key = true -> is_u64 now -> engine_ok r -> appends_to (db_ r) now key s -> stream_room (db_ r) key ->
  (sa_no_mkstream args = true -> st_messages s <> []) -> streamID_ok (sa_id args) -> clock_ahead now args (st_last s) ->
  Z.of_nat (length (st_messages s)) < 2 ^ 31 - 1 ->
  (forall id, next_id now args (st_last s) id -> trim_ok args (st_messages s ++ [(id, msg)])) ->
  (S (length (st_messages s)) < rounds)%nat -> (S (length (st_messages s)) < fuel)%nat ->
  (exists id r', next_id now args (st_last s) id /\
     XAdd rounds fuel now key msg args r = Some ((Status_OK, id), r') /\
     let l := st_messages s ++ [(id, msg)] in let l' := kept_by args l in
     stream_stores key (mkStream l' id (raised (st_max_deleted s) (take (length l - length l') l)) (u64 (st_added s + 1))) r r') \/
  (no_next_id now args (st_last s) /\
   exists st id, ok st = false /\ XAdd rounds fuel now key msg args r = Some ((st, id), r)).
Proof. apply XAdd_stores. Qed.

(** ** XDEL *)

Definition without (ids : list streamID) (l : list message) : list message := filter (fun x : message => fst x ∉ ids) l.

Lemma without_fields ids l :
  messages_ok l -> Forall streamID_ok ids ->
  filter (fun x => streamID_Serialize (fst x) ∉ (streamID_Serialize <$> ids)) l = without ids l.
Proof.
  intros Hl Hids. apply filter_agree. eapply Forall_impl; [exact (mo_ids _ Hl)|]. intros x Hx. cbn beta in Hx.
  rewrite Forall_forall in Hids. rewrite list_elem_of_fmap. split; intros H Hin; apply H.
  - by exists (fst x).
  - destruct Hin as (id & E & Hin). apply (Serialize_inj _ _ Hx (Hids id Hin)) in E. by rewrite E.
Qed.

Lemma id_map_lookup l id :
  messages_ok l -> streamID_ok id -> is_Some (id_map l !! streamID_Serialize id) <-> id ∈ l.*1.
Proof.
  intros Hl Hid. pose proof (mo_ids _ Hl) as Hi. clear Hl. induction Hi as [|x l Hx Hi IH].
  - change (id_map []) with (∅ : gmap bytes bytes). rewrite lookup_empty. split; [by intros []|by intros ?%elem_of_nil].
  - rewrite id_map_cons. cbn [fmap list_fmap]. rewrite elem_of_cons.
    destruct (decide (streamID_Serialize (fst x) = streamID_Serialize id)) as [E|E].
    + apply (Serialize_inj _ _ Hx Hid) in E as <-. rewrite lookup_insert_eq. split; [by left|done].
    + rewrite lookup_insert_ne, IH by done. split; [by right|]. intros [->|?]; done.
Qed.

Lemma messages_NoDup l : messages_ok l -> NoDup l.*1.
Proof.
  intros Hl%mo_sorted. induction Hl as [|x t _ IH Hx]; [constructor|]. cbn [fmap list_fmap]. constructor; [|exact IH].
  intros (y & Ey & Hy)%list_elem_of_fmap. rewrite Forall_forall in Hx. specialize (Hx y Hy). cbn beta in Hx.
  by rewrite Ey, (cmp_refl (cmp:=streamID_compare)) in Hx.
Qed.

(** How many messages go. *)
Lemma without_length ids l :
  messages_ok l -> NoDup ids ->
  (length l - length (without ids l) = length (filter (fun id => id ∈ l.*1) ids))%nat.
Proof.
  intros Hl Hids. unfold without.
  assert (Hc : (length (filter (fun x : message => fst x ∈ ids) l) + length (filter (fun x : message => fst x ∉ ids) l) = length l)%nat).
  { rewrite <- length_app. by rewrite filter_app_complement. }
  assert (Hp : (filter (fun x : message => fst x ∈ ids) l).*1 ≡ₚ filter (fun id => id ∈ l.*1) ids).
  { apply NoDup_Permutation.
    - by apply messages_NoDup, messages_ok_filter.
    - by apply NoDup_filter.
    - intros id. rewrite list_elem_of_filter, !list_elem_of_fmap. split.
      + intros (x & -> & [Hx Hin]%list_elem_of_filter). split; [by exists x|done].
      + intros [(x & -> & Hx) Hin]. exists x. split; [done|]. by apply list_elem_of_filter. }
  apply Permutation_length in Hp. rewrite length_fmap in Hp. rewrite <- Hp. apply Nat.add_sub_eq_r. exact Hc.
Qed.

Lemma xdel_count_ok key version l r :
  key_ok key = true -> healthy (db_ r) -> members_at kStreamsDataCF (db_ r) key version (id_map l) -> messages_ok l ->
  forall ids count, Forall streamID_ok ids ->
  xdel_count key version ids count r =
  Some ((Status_OK, count - Z.of_nat (length ids) + Z.of_nat (length (filter (fun id => id ∈ l.*1) ids))), r).
Proof.
  intros K Hdb Hm Hl ids. induction ids as [|id ids IH]; intros count Hids.
  { cbn. unfold ret. by rewrite Z.sub_0_r, Z.add_0_r. }
  apply Forall_cons in Hids as [Hid Hids]. cbn [xdel_count length].
  assert (HG : Get kStreamsDataCF (BaseDataKey_Encode key version (streamID_Serialize id)) r =
    Some (match id_map l !! streamID_Serialize id with Some v => (Status_OK, v) | None => (Status_NotFound [], []) end, r)).
  { unfold Get. rewrite Get_lookup by done. by rewrite (ma_lookup _ _ _ _ _ Hm). }
  rewrite (bind_run _ _ _ _ _ HG). pose proof (id_map_lookup l id Hl Hid) as Hin. rewrite filter_cons.
  destruct (id_map l !! streamID_Serialize id) as [v|].
  - change (IsNotFound Status_OK) with false. on_status. cbn [negb]. rewrite IH, decide_True by (done || by apply Hin).
    cbn [length]. do 3 f_equal. lia.
  - change (IsNotFound (Status_NotFound [])) with true. cbv iota. rewrite IH by done. rewrite decide_False.
    + do 3 f_equal. lia.
    + intros [v Hv]%Hin. done.
Qed.

Lemma SetFirst_ok fuel key m l is_first r :
  key_ok key = true -> is_u64 (smv_version m) -> healthy (db_ r) ->
  members_at kStreamsDataCF (db_ r) key (smv_version m) (id_map l) -> messages_ok l ->
  smv_length m = Z.of_nat (length l) -> (length l < fuel)%nat -> is_first = true \/ l = [] ->
  SetFirstOrLastID fuel key m is_first r = Some ((Status_OK, set_first_id m (first_id_of l)), r).
Proof.
  intros K V Hdb Hm Hl Hlen Hf Hor. unfold SetFirstOrLastID. rewrite Hlen. destruct l as [|x t]; [done|].
  rewrite (proj2 (Z.eqb_neq _ _)) by (cbn; lia). destruct Hor as [->|]; [|done].
  pose proof (mo_ids _ Hl) as Hi. apply Forall_cons in Hi as [Hx Hi].
  rewrite (bind_run _ _ _ _ _ (ScanStream_forward fuel key _ _ kSTREAMID_MIN kSTREAMID_MAX 1 false false r K V Hdb Hm Hl
    min_id_ok max_id_ok Hf (below_max _ min_id_ok))).
  rewrite excl_take by (done || by apply below_max). cbn [short andb]. change (Z.to_nat 1 - 0)%nat with 1%nat. on_status.
  assert (Hin : interval false false kSTREAMID_MIN kSTREAMID_MAX (x :: t) = x :: t).
  { apply filter_every. eapply Forall_impl; [exact (mo_ids _ Hl)|]. intros y Hy. pose proof (below_max _ Hy) as H1.
    split.
    - destruct (streamID_compare (fst y) kSTREAMID_MIN) eqn:E; [right; split; [done|by apply streamID_compare_eq]| |by left].
      apply (cmp_Gt_Lt streamID_compare), id_gt in E. destruct Hy. cbn in E. unfold is_u64 in *. lia.
    - destruct (streamID_compare (fst y) kSTREAMID_MAX) eqn:E; [right; split; [done|by apply streamID_compare_eq]|by left|done]. }
  rewrite Hin. cbn [negb andb take fmap list_fmap]. by rewrite (bind_lift _ (fst x)) by (by apply field_id_field).
Qed.

Definition raise_ids (old : streamID) (ids : list streamID) : streamID :=
  fold_left (fun old id => if bool_decide (streamID_compare id old = Gt) then id else old) ids old.

Lemma raise_ids_cons old id ids :
  raise_ids old (id :: ids) = raise_ids (if bool_decide (streamID_compare id old = Gt) then id else old) ids.
Proof. done. Qed.

(** What the second loop does to a meta value: the first identifier is right, or
    as before because it was not deleted. *)
Lemma xdel_update_ok fuel key l r : key_ok key = true -> healthy (db_ r) -> messages_ok l -> (length l < fuel)%nat ->
  forall ids m, Forall streamID_ok ids -> stream_meta_coherent m ->
  members_at kStreamsDataCF (db_ r) key (smv_version m) (id_map l) ->
  smv_length m = Z.of_nat (length l) -> smv_last_id m ∉ ids \/ l = [] ->
  exists m', xdel_update fuel key ids m r = Some ((Status_OK, m'), r) /\ stream_meta_coherent m' /\
    smv_type m' = smv_type m /\ smv_length m' = smv_length m /\ smv_version m' = smv_version m /\
    stream_of m' l = mkStream l (smv_last_id m) (raise_ids (smv_max_deleted_entry_id m) ids) (smv_entries_added m) /\
    (smv_first_id m' = first_id_of l \/ (smv_first_id m' = smv_first_id m /\ smv_first_id m ∉ ids)).
Proof.
  intros K Hdb Hl Hf. induction ids as [|id ids IH]; intros m Hids Hco Hm Hlen Hlast.
  { exists m. split_and!; try done. right. split; [done|]. apply not_elem_of_nil. }
  apply Forall_cons in Hids as [Hid Hids]. cbn [xdel_update]. rewrite streamID_gtb_spec.
  assert (Hlast' : smv_last_id m ∉ ids \/ l = []).
  { destruct Hlast as [H|]; [left|by right]. apply not_elem_of_cons in H as [_ H]. done. }
  set (m1 := if bool_decide _ then _ else m).
  assert (H1 : stream_meta_coherent m1 /\ smv_type m1 = smv_type m /\ smv_length m1 = smv_length m /\
    smv_version m1 = smv_version m /\ smv_last_id m1 = smv_last_id m /\ smv_entries_added m1 = smv_entries_added m /\
    smv_first_id m1 = smv_first_id m /\
    smv_max_deleted_entry_id m1 = if bool_decide (streamID_compare id (smv_max_deleted_entry_id m) = Gt) then id else smv_max_deleted_entry_id m).
  { unfold m1. destruct (bool_decide _); split_and!; auto with coherent. }
  clearbody m1. destruct H1 as (C1 & T1 & L1 & V1 & A1 & N1 & F1 & M1).
  pose proof (cr_version _ (stream_coherent_ranges m1 C1)) as V. rewrite <- V1 in Hm. rewrite <- L1 in Hlen. rewrite <- A1 in Hlast, Hlast'.
  assert (Hfo : streamID_ok (first_id_of l)).
  { pose proof (mo_ids _ Hl) as Hi. unfold first_id_of. destruct l; [done|by apply Forall_inv in Hi]. }
  rewrite raise_ids_cons, <- M1, <- T1, <- L1, <- V1, <- A1, <- N1, <- F1. rewrite !streamID_eqb_spec.
  destruct (bool_decide_reflect (id = smv_first_id m1)) as [E1|E1]; [|destruct (bool_decide_reflect (id = smv_last_id m1)) as [E2|E2]].
  - rewrite (bind_run _ _ _ _ _ (SetFirst_ok fuel key m1 l true r K V Hdb Hm Hl Hlen Hf (or_introl eq_refl))). on_status. cbn [negb].
    destruct (IH (set_first_id m1 (first_id_of l)) Hids ltac:(auto with coherent) Hm Hlen Hlast')
      as (m' & HX & C & T & Le & Ve & S & F).
    exists m'. split_and!; try done. left. by destruct F as [|[-> _]].
  - assert (l = []) as El. { destruct Hlast as [H|]; [|done]. destruct H. rewrite <- E2. by left. }
    rewrite (bind_run _ _ _ _ _ (SetFirst_ok fuel key m1 l false r K V Hdb Hm Hl Hlen Hf (or_intror El))). on_status. cbn [negb].
    destruct (IH (set_first_id m1 (first_id_of l)) Hids ltac:(auto with coherent) Hm Hlen Hlast')
      as (m' & HX & C & T & Le & Ve & S & F).
    exists m'. split_and!; try done. left. by destruct F as [|[-> _]].
  - unfold ret at 1. unfold bind at 1. on_status. cbn [negb].
    destruct (IH m1 Hids C1 Hm Hlen Hlast') as (m' & HX & C & T & Le & Ve & S & F).
    exists m'. split_and!; try done. destruct F as [F|[F Hni]]; [by left|right]. split; [done|].
    apply not_elem_of_cons. split; [congruence|done].
Qed.

Lemma without_ok ids l (P : message -> Prop) : Forall P l -> Forall P (without ids l).
Proof. apply Forall_filtered. Qed.

Lemma without_first ids l : first_id_of l ∉ ids -> first_id_of (without ids l) = first_id_of l.
Proof. destruct l as [|x l]; [done|]. intros H. unfold without. by rewrite filter_cons_True. Qed.

Lemma XDel_stores fuel now key ids s r :
  key_ok key = true -> engine_ok r -> stream_holds (db_ r) key s -> Forall streamID_ok ids -> NoDup ids ->
  Z.of_nat (length ids) < 2 ^ 31 -> (length (st_messages s) < fuel)%nat ->
  let l := st_messages s in let l' := without ids l in
  st_last s ∉ ids \/ l' = [] ->
  exists r', XDel fuel now key ids r = Some ((Status_OK, Z.of_nat (length l) - Z.of_nat (length l')), r') /\
    stream_stores key (mkStream l' (st_last s) (raise_ids (st_max_deleted s) ids) (st_added s)) r r'.
Proof.
  intros K HE (m & Hm & Hd & Es) Hids Hnd H31 Hf l l' Hlast. fold l in Hd, Hf.
  pose proof (stream_coherent_ranges m (sd_coherent _ _ _ _ Hd)) as Hrg. pose proof (sd_ok _ _ _ _ Hd) as Hl.
  pose proof (stream_length_bound _ _ _ _ Hd) as Hb. pose proof (without_length ids l Hl Hnd) as Hcount. fold l' in Hcount.
  assert (Hle : (length l' <= length l)%nat) by apply length_filter.
  assert (El : st_last s = smv_last_id m) by by rewrite Es. assert (Ex : st_max_deleted s = smv_max_deleted_entry_id m) by by rewrite Es.
  assert (Ea : st_added s = smv_entries_added m) by by rewrite Es. rewrite El, Ex, Ea in *. clear El Ex Ea Es.
  unfold XDel. rewrite (bind_run _ _ _ _ _ (GetStreamMeta_stream now key m l r (proj1 HE) Hm Hd)). on_status. cbn [negb].
  rewrite (proj2 (Z.ltb_ge _ _)) by lia.
  rewrite (bind_run _ _ _ _ _ (xdel_count_ok key _ l r K (proj1 HE) (sd_members _ _ _ _ Hd) Hl ids _ Hids)). on_status. cbn [negb].
  rewrite <- Hcount. replace (_ + _) with (Z.of_nat (length l) - Z.of_nat (length l')) by lia.
  destruct (DeleteStreamMessages_ok key m (streamID_Serialize <$> ids) l r K (cr_version _ Hrg) HE (sd_members _ _ _ _ Hd))
    as (r1 & HD & HS). rewrite without_fields in HS by done. fold l' in HS.
  rewrite (bind_run _ _ _ _ _ HD). on_status. cbn [negb]. rewrite (sd_length _ _ _ _ Hd).
  rewrite (bind_lift _ (Z.of_nat (length l'))).
  2: { unfold i32_val. replace (_ - _) with (Z.of_nat (length l')) by lia.
       by rewrite (proj2 (Z.leb_le _ _)), (proj2 (Z.ltb_lt _ _)) by lia. }
  assert (Hl' : messages_ok l') by by apply messages_ok_filter.
  destruct (xdel_update_ok fuel key l' r1 K (proj1 (ms_engine _ _ _ _ _ HS)) Hl' ltac:(lia) ids (set_length m (Z.of_nat (length l'))))
    as (m' & HU & C & T & Le & Ve & S & F); [done| |apply (ms_members _ _ _ _ _ HS)|done|done|].
  { apply set_length_coherent; [unfold is_i32; lia|apply (sd_coherent _ _ _ _ Hd)]. }
  rewrite (bind_run _ _ _ _ _ HU). on_status. cbn [negb].
  destruct (put_stream_meta_ok key m' l' r r1 K (ms_engine _ _ _ _ _ HS)) as (r' & HP & Hst); [|apply (ms_others _ _ _ _ _ HS)|].
  - pose proof (f_equal st_last S) as SL. unfold stream_of in SL. cbn [st_last] in SL. constructor; try done.
    + rewrite T. apply (sd_type _ _ _ _ Hd).
    + rewrite Ve. apply (ms_members _ _ _ _ _ HS).
    + destruct F as [|[-> Hni]]; [done|]. cbn [smv_first_id set_length] in *. rewrite (sd_first _ _ _ _ Hd) in *.
      symmetry. by apply without_first.
    + rewrite SL. apply without_ok, (sd_last _ _ _ _ Hd).
    + rewrite Ve. apply (ms_fresh _ _ _ _ _ HS), (sd_fresh _ _ _ _ Hd).
  - exists r'. rewrite (bind_run _ _ _ _ _ HP). split; [done|]. by rewrite S in Hst.
Qed.

(** C22: XDEL of different identifiers deletes the messages they are the ones
    of, returns how many there were, and leaves the last identifier and the
    number of messages added alone; the first identifier is that of the first
    message left.  The last identifier is not among those deleted, unless no
    message is left. *)
Theorem XDel_correct fuel now key ids s r :
  key_ok key = true -> engine_ok r -> stream_holds (db_ r) key s -> Forall streamID_ok ids -> NoDup ids ->
  Z.of_nat (length ids) < 2 ^ 31 -> (length (st_messages s) < fuel)%nat ->
  let l := st_messages s in let l' := without ids l in
  st_last s ∉ ids \/ l' = [] ->
  exists r', XDel fuel now key ids r = Some ((Status_OK, Z.of_nat (length l) - Z.of_nat (length l')), r') /\
    stream_stores key (mkStream l' (st_last s) (raise_ids (st_max_deleted s) ids) (st_added s)) r r'.
Proof. apply XDel_stores. Qed.

(** ** DEL *)

Lemma GetMetaOr_stream wrong now key m l r :
  healthy (db_ r) -> meta_of (db_ r) key = Some (smv_value m) -> stream_data (db_ r) key m l ->
  GetMetaOr wrong now kStreams key r = Some (inr (Status_OK, smv_value m), r).
Proof.
  intros Hdb Hm Hd. pose proof (cr_type _ (stream_coherent_ranges m (sd_coherent _ _ _ _ Hd))) as Et.
  rewrite (sd_type _ _ _ _ Hd) in Et. unfold GetMetaOr. rewrite Get_lookup by done. unfold meta_of in Hm. rewrite Hm.
  unfold ExpectedMetaValue. by rewrite Et.
Qed.

(** DEL of a stream that has messages leaves an empty one under the next
    version, where nothing of the old one shows. *)
Lemma StreamsDel_correct now key pm s r :
  key_ok key = true -> engine_ok r -> stream_holds (db_ r) key s -> st_messages s <> [] -> prefetched (db_ r) key pm ->
  stream_room (db_ r) key ->
  exists r', StreamsDel now key pm r = Some (Status_OK, r') /\ stream_stores key empty_stream r r'.
Proof.
  intros K HE (m & Hm & Hd & Es) Hne Hp Hroom. pose proof (stream_coherent_ranges m (sd_coherent _ _ _ _ Hd)) as Hrg.
  destruct (init_data (db_ r) key m) as [Hd' Ee].
  { apply (sd_type _ _ _ _ Hd). }
  { split; [apply (cr_version _ Hrg)|by apply Hroom; [|apply (sd_coherent _ _ _ _ Hd)]]. }
  { apply (sd_fresh _ _ _ _ Hd). }
  destruct (put_stream_meta_ok key (InitMetaValue m) [] r r K HE Hd') as (r1 & HP & Hst); [split_and!; auto|].
  destruct (UpdateSpecificKeyStatistics_ok kStreams key (u32 (smv_length m)) r1) as (r' & HU & [Edb _] & Hs); [done|apply Hst|].
  exists r'. rewrite Ee in Hst. split.
  - unfold StreamsDel.
    assert (HG : (match pm with
      | [] => GetMetaOr (WrongTypeIn (lit ", expected type: ", lit ", get type: ") key kStreams) now kStreams key
      | _ => ret (inr (Status_OK, pm)) end) r = Some (inr (Status_OK, smv_value m), r)).
    { destruct Hp as [-> |Hp].
      - by eapply GetMetaOr_stream; [apply HE|..].
      - rewrite Hm in Hp. injection Hp as <-. by destruct (smv_value m) eqn:E; [by destruct (cr_some _ Hrg)|]. }
    rewrite (bind_run _ _ _ _ _ HG). on_status. rewrite (cr_parse _ Hrg). cbv zeta.
    rewrite (proj2 (Z.eqb_neq _ _)) by (rewrite (sd_length _ _ _ _ Hd); destruct (st_messages s); [done|cbn; lia]).
    by rewrite (bind_run _ _ _ _ _ HP), (bind_run _ _ _ _ _ HU).
  - destruct Hst as ([Hdb _] & Hh & Ho). unfold stream_stores, engine_ok. by rewrite !Edb.
Qed.

Lemma StreamsDel_gone now key r :
  engine_ok r -> gone kStreams (db_ r) now key -> StreamsDel now key [] r = Some (Status_NotFound [], r).
Proof.
  intros [Hdb _] Hg. unfold StreamsDel, GetMetaOr, bind. rewrite Get_lookup by done. unfold gone, meta_of in Hg.
  destruct Hg as [->|(mv & -> & Ht & Hs)]; [done|]. unfold ExpectedMetaValue.
  rewrite bool_decide_eq_false_2 by congruence. cbn [ok negb andb]. by rewrite Hs.
Qed.

Lemma StreamsDel_empty now key s r :
  engine_ok r -> stream_holds (db_ r) key s -> st_messages s = [] -> StreamsDel now key [] r = Some (Status_NotFound [], r).
Proof.
  intros [Hdb _] (m & Hm & Hd & _) E. pose proof (stream_coherent_ranges m (sd_coherent _ _ _ _ Hd)) as Hrg.
  unfold StreamsDel. rewrite (bind_run _ _ _ _ _ (GetMetaOr_stream _ now key m _ r Hdb Hm Hd)). on_status.
  by rewrite (cr_parse _ Hrg), (sd_length _ _ _ _ Hd), E.
Qed.

End StreamWrite.
