(* ===== verification/StreamRun.v ===== *)
(** * Sequences of commands on streams

    The commands that write streams as steps of an abstract machine, whose state
    gives the stream of every key.  In every state the engine reaches from an
    empty database each key holds what the machine says, and every command
    answers as the machine does. *)

From S2P Require Import Prelude Coding Numbers Glob KeyFormat Comparator ValueFormat StreamFormat RocksDB LruCache Redis KeySpace BaseData BaseSpec BaseScan BaseHolds BaseWrite BaseCursor Streams StreamSpec StreamRead StreamWrite.
Open Scope Z_scope.

(** ** The abstract machine *)

Inductive xcommand :=
  | Append (key msg : bytes) (args : StreamAddTrimArgs)
  | Trim (key : bytes) (args : StreamAddTrimArgs)
  | Remove (key : bytes) (ids : list streamID)
  | Drop (key : bytes).

Inductive xreply := Added (id : streamID) | Refused | Count (n : Z) | Dropped | Missing.

Definition xtarget (c : xcommand) : bytes :=
  match c with Append key _ _ | Trim key _ | Remove key _ | Drop key => key end.

(** The stream of every key, if it has one. *)
Definition xstate : Type := bytes -> option stream.

(** The stream a message is appended to: an empty one is started anew. *)
Definition appending (o : option stream) : stream :=
  match o with
  | Some s => match st_messages s with [] => empty_stream | _ => s end
  | None => empty_stream
  end.

Definition trim_stream (args : StreamAddTrimArgs) (s : stream) : stream :=
  let l := st_messages s in let l' := kept_by args l in
  mkStream l' (st_last s) (raised (st_max_deleted s) (take (length l - length l') l)) (st_added s).

Definition append_stream (id : streamID) (msg : bytes) (s : stream) : stream :=
  mkStream (st_messages s ++ [(id, msg)]) id (st_max_deleted s) (u64 (st_added s + 1)).

Definition remove_stream (ids : list streamID) (s : stream) : stream :=
  mkStream (without ids (st_messages s)) (st_last s) (raise_ids (st_max_deleted s) ids) (st_added s).

(** The stream of the target after a command and its reply. *)
Definition xafter (c : xcommand) (reply : xreply) (o : option stream) : option stream :=
  match c, reply with
  | Append _ msg args, Added id => Some (trim_stream args (append_stream id msg (appending o)))
  | Trim _ args, Count _ => trim_stream args <$> o
  | Remove _ ids, Count _ => remove_stream ids <$> o
  | Drop _, Dropped => Some empty_stream
  | _, _ => o
  end.

Definition xupdate (c : xcommand) (reply : xreply) (st : xstate) : xstate :=
  fun k => if decide (k = xtarget c) then xafter c reply (st k) else st k.

(** The replies to a command. *)
Definition replies (now : Z) (c : xcommand) (o : option stream) (reply : xreply) : Prop :=
  match c, reply with
  | Append _ _ args, Added id => next_id now args (st_last (appending o)) id
  | Append _ _ args, Refused => no_next_id now args (st_last (appending o))
  | Trim _ args, Count n =>
      exists s, o = Some s /\ n = Z.of_nat (length (st_messages s)) - Z.of_nat (length (kept_by args (st_messages s)))
  | Remove _ ids, Count n =>
      exists s, o = Some s /\ n = Z.of_nat (length (st_messages s)) - Z.of_nat (length (without ids (st_messages s)))
  | Trim _ _, Missing | Remove _ _, Missing => o = None
  | Drop _, Dropped => exists s, o = Some s /\ st_messages s <> []
  | Drop _, Missing => o = None \/ exists s, o = Some s /\ st_messages s = []
  | _, _ => False
  end.

(** Where a command is defined. *)
Definition xallowed (rounds fuel : nat) (now : Z) (c : xcommand) (o : option stream) : Prop :=
  let l := from_option st_messages [] o in
  key_ok (xtarget c) = true /\ (S (length l) < rounds)%nat /\ (S (length l) < fuel)%nat /\
  match c with
  | Append _ msg args =>
      let s := appending o in
      is_u64 now /\ (sa_no_mkstream args = true -> st_messages s <> []) /\ streamID_ok (sa_id args) /\
      clock_ahead now args (st_last s) /\ Z.of_nat (length l) < 2 ^ 31 - 1 /\
      forall id, next_id now args (st_last s) id -> trim_ok args (st_messages s ++ [(id, msg)])
  | Trim _ args => trim_ok args l /\ sa_trim_strategy args <> TRIM_STRATEGY_NONE
  | Remove _ ids =>
      Forall streamID_ok ids /\ NoDup ids /\ Z.of_nat (length ids) < 2 ^ 31 /\
      (from_option st_last kSTREAMID_MIN o ∉ ids \/ without ids l = [])
  | Drop _ => True
  end.

Lemma kept_suffix args l : (length (kept_by args l) <= length l)%nat.
Proof.
  unfold kept_by. destruct (sa_trim_strategy args); [done|rewrite length_drop; lia|apply length_filter].
Qed.

Section StreamRun.
Context {R : RocksDB} {L : RocksDBLaws R} {U : Uninit}.

(** The command of the engine. *)
Definition xexec (rounds fuel : nat) (now : Z) (c : xcommand) : M xreply :=
  match c with
  | Append key msg args =>
      let* '(s, id) := XAdd rounds fuel now key msg args in ret (if ok s then Added id else Refused)
  | Trim key args => let* '(s, n) := XTrim rounds fuel now key args in ret (if ok s then Count n else Missing)
  | Remove key ids => let* '(s, n) := XDel fuel now key ids in ret (if ok s then Count n else Missing)
  | Drop key => let* s := StreamsDel now key [] in ret (if ok s then Dropped else Missing)
  end.

Definition stream_state (db : DB) (key : bytes) (o : option stream) : Prop :=
  match o with
  | Some s => stream_holds db key s
  | None => meta_of db key = None /\ fresh_from kStreamsDataCF db key 2
  end.

Definition xrelated (st : xstate) (r : Redis) : Prop :=
  engine_ok r /\ forall key, key_ok key = true -> stream_state (db_ r) key (st key).

(** The states that commands reach from an empty database. *)
Inductive xreach (rounds fuel : nat) : xstate -> Redis -> Prop :=
  | xr_empty r : engine_ok r -> (forall cf, content (db_ r) cf = []) -> xreach rounds fuel (fun _ => None) r
  | xr_command now c reply st r r' :
      xreach rounds fuel st r -> xallowed rounds fuel now c (st (xtarget c)) -> stream_room (db_ r) (xtarget c) ->
      xexec rounds fuel now c r = Some (reply, r') -> xreach rounds fuel (xupdate c reply st) r'.

(** ** One step *)

(** [c] runs, answers as the machine does and leaves what it says. *)
Definition xsteps (rounds fuel : nat) (now : Z) (c : xcommand) (o : option stream) (r : Redis) : Prop :=
  exists reply r', xexec rounds fuel now c r = Some (reply, r') /\ replies now c o reply /\
    engine_ok r' /\ stream_state (db_ r') (xtarget c) (xafter c reply o) /\
    base_others kStreamsDataCF (xtarget c) (db_ r) (db_ r').

Lemma state_gone now db key : stream_state db key None -> gone kStreams db now key.
Proof. intros [H _]. by left. Qed.

Lemma state_appends now db key o : stream_state db key o -> appends_to db now key (appending o).
Proof.
  unfold appends_to, appending, stream_unused. destruct o as [s|]; cbn.
  - intros H. destruct (st_messages s) eqn:E; [right|left].
    + split; [right|done]. by exists s.
    + by rewrite E.
  - intros [H1 H2]. right. split; [|done]. left. split; [by left|done].
Qed.

Lemma step_append rounds fuel now key msg args o r :
  engine_ok r -> stream_state (db_ r) key o -> stream_room (db_ r) key ->
  xallowed rounds fuel now (Append key msg args) o -> xsteps rounds fuel now (Append key msg args) o r.
Proof.
  intros HE Hs Hroom (K & Hr & Hf & Hnow & Hmk & Hid & Hclock & H31 & Htrim). cbn [xtarget] in K.
  assert (Hlen : (length (st_messages (appending o)) <= length (from_option st_messages [] o))%nat).
  { unfold appending. destruct o as [s|]; [|done]. cbn. destruct (st_messages s) eqn:E; [done|by rewrite E]. }
  unfold xsteps. cbn [xexec xtarget].
  destruct (XAdd_stores rounds fuel now key msg args (appending o) r K Hnow HE (state_appends now _ _ _ Hs) Hroom Hmk Hid Hclock)
    as [(id & r' & Hnext & HX & HE' & Hh & Ho)|(Hno & st & id & Hok & HX)]; [lia|done|lia|lia|..].
  - exists (Added id), r'. rewrite (bind_run _ _ _ _ _ HX). by split_and!.
  - exists Refused, r. rewrite (bind_run _ _ _ _ _ HX), Hok. by split_and!.
Qed.

Lemma step_trim rounds fuel now key args o r :
  engine_ok r -> stream_state (db_ r) key o -> xallowed rounds fuel now (Trim key args) o ->
  xsteps rounds fuel now (Trim key args) o r.
Proof.
  intros HE Hs (K & Hr & Hf & Hargs & Hstr). unfold xsteps. cbn [xexec xtarget] in *. destruct o as [s|].
  - cbn in Hr, Hf, Hargs. destruct (XTrim_stores rounds fuel now key args s r K HE Hs Hargs Hstr) as (r' & HX & HE' & Hh & Ho); [lia..|].
    eexists _, r'. rewrite (bind_run _ _ _ _ _ HX). split_and!; try done. cbn [replies]. exists s. split; [done|].
    pose proof (kept_suffix args (st_messages s)). rewrite length_take. lia.
  - assert (HX : XTrim rounds fuel now key args r = Some ((Status_NotFound [], 0), r)).
    { unfold XTrim. by rewrite (bind_run _ _ _ _ _ (GetStreamMeta_gone now key r (proj1 HE) (state_gone now _ _ Hs))). }
    exists Missing, r. rewrite (bind_run _ _ _ _ _ HX). by split_and!.
Qed.

Lemma step_remove rounds fuel now key ids o r :
  engine_ok r -> stream_state (db_ r) key o -> xallowed rounds fuel now (Remove key ids) o ->
  xsteps rounds fuel now (Remove key ids) o r.
Proof.
  intros HE Hs (K & Hr & Hf & Hids & Hnd & H31 & Hlast). unfold xsteps. cbn [xexec xtarget] in *. destruct o as [s|].
  - cbn in Hr, Hf, Hlast. destruct (XDel_stores fuel now key ids s r K HE Hs Hids Hnd H31 ltac:(lia) Hlast) as (r' & HX & HE' & Hh & Ho).
    eexists _, r'. rewrite (bind_run _ _ _ _ _ HX). split_and!; try done. cbn [replies]. by exists s.
  - assert (HX : XDel fuel now key ids r = Some ((Status_NotFound [], 0), r)).
    { unfold XDel. by rewrite (bind_run _ _ _ _ _ (GetStreamMeta_gone now key r (proj1 HE) (state_gone now _ _ Hs))). }
    exists Missing, r. rewrite (bind_run _ _ _ _ _ HX). by split_and!.
Qed.

Lemma step_drop rounds fuel now key o r :
  engine_ok r -> stream_state (db_ r) key o -> stream_room (db_ r) key -> xallowed rounds fuel now (Drop key) o ->
  xsteps rounds fuel now (Drop key) o r.
Proof.
  intros HE Hs Hroom (K & Hr & Hf & _). unfold xsteps. cbn [xexec xtarget] in *. destruct o as [s|].
  - destruct (decide (st_messages s = [])) as [E|E].
    + exists Missing, r. rewrite (bind_run _ _ _ _ _ (StreamsDel_empty now key s r HE Hs E)).
      split_and!; try done. right. by exists s.
    + destruct (StreamsDel_correct now key [] s r K HE Hs E (or_introl eq_refl) Hroom) as (r' & HX & HE' & Hh & Ho).
      exists Dropped, r'. rewrite (bind_run _ _ _ _ _ HX). split_and!; try done. by exists s.
  - exists Missing, r. rewrite (bind_run _ _ _ _ _ (StreamsDel_gone now key r HE (state_gone now _ _ Hs))).
    split_and!; try done. by left.
Qed.

Lemma step_stream rounds fuel now c o r :
  engine_ok r -> stream_state (db_ r) (xtarget c) o -> stream_room (db_ r) (xtarget c) -> xallowed rounds fuel now c o ->
  xsteps rounds fuel now c o r.
Proof.
  intros HE Hs Hroom Ha. destruct c; [by apply step_append|by apply step_trim|by apply step_remove|by apply step_drop].
Qed.

Lemma state_others key db db' k o :
  base_others kStreamsDataCF key db db' -> key_ok k = true -> k <> key -> stream_state db k o -> stream_state db' k o.
Proof.
  intros Ho K N. pose proof (others_key kStreamsDataCF key k db db' Ho K N) as [Hm Hv].
  destruct o as [s|]; cbn.
  - intros (m & H1 & [] & Es). pose proof (cr_version _ (stream_coherent_ranges m sd_coherent)) as V.
    exists m. rewrite Hm. split_and!; try done. constructor; try done; [by apply Hv|].
    intros v H2 H3. by apply Hv; [|apply sd_fresh].
  - intros [H1 H2]. rewrite Hm. split; [done|]. intros v H3 H4. by apply Hv; [|apply H2].
Qed.

Lemma xupdate_related rounds fuel now c st r :
  xrelated st r -> xallowed rounds fuel now c (st (xtarget c)) -> stream_room (db_ r) (xtarget c) ->
  exists reply r', xexec rounds fuel now c r = Some (reply, r') /\ replies now c (st (xtarget c)) reply /\
    xrelated (xupdate c reply st) r'.
Proof.
  intros [HE Hst] Ha Hroom. destruct (step_stream rounds fuel now c _ r HE (Hst _ (proj1 Ha)) Hroom Ha)
    as (reply & r' & HX & Hre & HE' & Hs & Ho).
  exists reply, r'. split; [done|]. split; [done|]. split; [done|]. intros k K. unfold xupdate. case_decide as D; [by rewrite D|].
  by eapply state_others; [..|apply Hst].
Qed.

Lemma xreach_related rounds fuel st r : xreach rounds fuel st r -> xrelated st r.
Proof.
  induction 1 as [r HE Hc|now c reply st r r' _ IH Ha Hroom HX].
  - split; [done|]. intros key K. split.
    + unfold meta_of, db_lookup. by rewrite Hc.
    + intros v H1 H2. constructor.
      * intros f. unfold db_lookup. by rewrite Hc.
      * intros k w Hin. rewrite Hc in Hin. by apply elem_of_nil in Hin.
  - destruct (xupdate_related rounds fuel now c st r IH Ha Hroom) as (reply1 & r1 & HX1 & _ & Hrel).
    rewrite HX in HX1. by injection HX1 as <- <-.
Qed.

(** C19: In every state that XADD, XTRIM, XDEL and DEL reach from an empty
    database, each key holds the stream the abstract machine computes: its
    messages in strictly increasing order of their identifiers, none of them
    after the last identifier.  Every command that is defined there runs, gives
    the reply of the machine and leads to a state where that holds again. *)
Theorem streams_refine_machine rounds fuel st r :
  xreach rounds fuel st r ->
  (forall key s, key_ok key = true -> st key = Some s ->
     stream_holds (db_ r) key s /\ messages_ok (st_messages s) /\
     Forall (fun x => streamID_compare (fst x) (st_last s) <> Gt) (st_messages s)) /\
  forall now c, xallowed rounds fuel now c (st (xtarget c)) -> stream_room (db_ r) (xtarget c) ->
    exists reply r', xexec rounds fuel now c r = Some (reply, r') /\ replies now c (st (xtarget c)) reply /\
      xrelated (xupdate c reply st) r'.
Proof.
  intros H%xreach_related. split; [|intros now c; by apply xupdate_related].
  intros key s K E. pose proof (proj2 H key K) as Hs. rewrite E in Hs. split; [done|].
  destruct Hs as (m & _ & Hd & Es). split; [apply (sd_ok _ _ _ _ Hd)|].
  replace (st_last s) with (smv_last_id m) by (by rewrite Es). apply (sd_last _ _ _ _ Hd).
Qed.

End StreamRun.
