(* ===== verification/StreamWitness.v ===== *)
(** * The stream theorems at work

    Each theorem about streams applied to a concrete engine, keys and arguments;
    and what the commands do that they cannot mean to. *)

From S2P Require Import Prelude Coding Numbers Glob KeyFormat Comparator ValueFormat StreamFormat RocksDB LruCache Redis KeySpace Sample Strings BaseData BaseSpec BaseScan BaseHolds BaseWrite BaseCursor Streams StreamSpec StreamRead StreamWrite StreamRun.
Open Scope Z_scope.

Notation sid := mkStreamID.

(** XADD with the identifier [id], and with one of the clock. *)
Definition given (id : streamID) : StreamAddTrimArgs := mkStreamAddTrimArgs id true true false TRIM_STRATEGY_NONE 0 kSTREAMID_MIN.
Definition generated : StreamAddTrimArgs := mkStreamAddTrimArgs (sid 0 0) false false false TRIM_STRATEGY_NONE 0 kSTREAMID_MIN.
Definition by_maxlen (n : Z) : StreamAddTrimArgs :=
  mkStreamAddTrimArgs (sid 0 0) false false false TRIM_STRATEGY_MAXLEN n kSTREAMID_MIN.
Definition by_minid (id : streamID) : StreamAddTrimArgs := mkStreamAddTrimArgs (sid 0 0) false false false TRIM_STRATEGY_MINID 0 id.

Definition add (id : streamID) (msg : string) : M (Status * streamID) := XAdd 10 10 1000 q_key (lit msg) (given id).

Definition all_messages : StreamScanArgs := mkStreamScanArgs kSTREAMID_MIN kSTREAMID_MAX 100 false false.

(** ** A stream of three messages *)

Lemma small_id i j : (0 <=? i) && (i <? 1000000) && (0 <=? j) && (j <? 1000000) = true -> streamID_ok (sid i j).
Proof. rewrite !andb_true_iff, !Z.leb_le, !Z.ltb_lt. unfold streamID_ok, is_u64. cbn [ms seq]. lia. Qed.

Lemma xroom r key :
  match meta_of (db_ r) key with None => true | Some mv => smv_version (ParsedStreamMetaValue mv) <? 2 ^ 64 - 1 end = true ->
  stream_room (db_ r) key.
Proof. intros E m Hm (_ & Hp). rewrite Hm, Hp in E. by apply Z.ltb_lt. Qed.

Lemma given_next now id last_id :
  streamID_ok id -> streamID_compare id last_id = Gt -> forall id', next_id now (given id) last_id id' <-> id' = id.
Proof.
  intros Hid Hgt id'. unfold next_id, candidate. cbn [given sa_id sa_id_given sa_seq_given]. split.
  - intros [[_ [E1 E2]] _]. destruct id, id'. cbn in *. by rewrite E1, E2.
  - intros ->. split_and!; try done. intros id' [_ [E1 E2]] _. replace id' with id.
    + by rewrite (cmp_refl (cmp:=streamID_compare)).
    + destruct id, id'. cbn in *. by rewrite E1, E2.
Qed.

Lemma append_reach key msg id st r :
  xreach 10 10 st r -> key_ok key = true -> (length (from_option st_messages [] (st key)) < 9)%nat ->
  streamID_ok id -> streamID_compare id (st_last (appending (st key))) = Gt -> stream_room (db_ r) key ->
  let c := Append key msg (given id) in
  xreach 10 10 (xupdate c (Added id) st) (after (xexec 10 10 1000 c) r).
Proof.
  intros H K Hlen Hid Hgt Hroom c.
  assert (Ha : xallowed 10 10 1000 c (st (xtarget c))).
  { unfold xallowed. cbn [xtarget c]. split_and!; try done; try lia. by left. }
  destruct (xupdate_related 10 10 1000 c st r (xreach_related _ _ _ _ H) Ha Hroom) as (reply & r' & HX & Hr & _).
  unfold after. rewrite HX. eapply xr_command; try done. rewrite HX. do 2 f_equal.
  destruct reply as [id'| | | |]; try done; cbn [replies c xtarget] in Hr.
  - by rewrite (given_next 1000 id) in Hr by done; subst.
  - exfalso. apply (Hr id); [|done]. by split.
Qed.

Definition x_start : xstate := fun _ => None.
Definition append (id : streamID) (msg : string) : xcommand := Append q_key (lit msg) (given id).
Definition x_one : xstate := xupdate (append (sid 1 1) "a") (Added (sid 1 1)) x_start.
Definition x_two : xstate := xupdate (append (sid 2 1) "b") (Added (sid 2 1)) x_one.
Definition x_three : xstate := xupdate (append (sid 3 1) "c") (Added (sid 3 1)) x_two.
Definition x_engine1 : Redis := after (xexec 10 10 1000 (append (sid 1 1) "a")) fresh_engine.
Definition x_engine2 : Redis := after (xexec 10 10 1000 (append (sid 2 1) "b")) x_engine1.
Definition x_engine : Redis := after (xexec 10 10 1000 (append (sid 3 1) "c")) x_engine2.

Definition abc_messages : list message := [(sid 1 1, lit "a"); (sid 2 1, lit "b"); (sid 3 1, lit "c")].
Definition abc_stream : stream := mkStream abc_messages (sid 3 1) (sid 0 0) 3.

Lemma reach_x_start : xreach 10 10 x_start fresh_engine.
Proof. apply xr_empty; [apply fresh_engine_ok|by intros []]. Qed.
Lemma reach_x_one : xreach 10 10 x_one x_engine1.
Proof. apply append_reach; [apply reach_x_start|done|cbn; lia|by apply small_id|done|by apply xroom]. Qed.
Lemma reach_x_two : xreach 10 10 x_two x_engine2.
Proof. apply append_reach; [apply reach_x_one|done|vm_compute; lia|by apply small_id|done|by apply xroom; vm_compute]. Qed.
Lemma reach_x_three : xreach 10 10 x_three x_engine.
Proof. apply append_reach; [apply reach_x_two|done|vm_compute; lia|by apply small_id|done|by apply xroom; vm_compute]. Qed.

Lemma x_three_abc : x_three q_key = Some abc_stream.
Proof. vm_compute. reflexivity. Qed.

Lemma x_engine_ok : engine_ok x_engine.
Proof. apply (xreach_related _ _ _ _ reach_x_three). Qed.
Lemma x_engine_holds : stream_holds (db_ x_engine) q_key abc_stream.
Proof. pose proof (proj2 (xreach_related _ _ _ _ reach_x_three) q_key eq_refl) as H. by rewrite x_three_abc in H. Qed.
Lemma x_engine_room : stream_room (db_ x_engine) q_key.
Proof. apply xroom. vm_compute. reflexivity. Qed.

(** ** The theorems on it *)

Lemma stream_reads_correct_witness :
  XRange 10 1000 q_key [] (mkStreamScanArgs (sid 1 1) (sid 3 0) 5 true false) x_engine =
  Some ((Status_OK, [field_of (sid 2 1, lit "b")]), x_engine).
Proof.
  exact (proj1 (stream_reads_correct 10 1000 q_key [] (mkStreamScanArgs (sid 1 1) (sid 3 0) 5 true false) abc_stream x_engine
    eq_refl (proj1 x_engine_ok) x_engine_holds (or_introl eq_refl) ltac:(by apply small_id) ltac:(by apply small_id) ltac:(vm_compute; lia))).
Defined.

Lemma XRead_correct_witness :
  XRead 10 1000 (mkStreamReadArgs [lit "w"; q_key] [lit "0-0"; lit "2-0"] 5) x_engine =
  Some ((Status_OK, [field_of <$> [(sid 2 1, lit "b"); (sid 3 1, lit "c")]], [q_key]), x_engine).
Proof.
  refine (XRead_correct 10 1000 [lit "w"; q_key] [lit "0-0"; lit "2-0"] 5 [(q_key, abc_stream, sid 2 0)] x_engine
    (proj1 x_engine_ok) _ _).
  - apply xr_gone; [left; vm_compute; reflexivity|].
    apply xr_read; [done|apply x_engine_holds|split; [done|vm_compute; reflexivity]|apply xr_nil].
  - repeat constructor; vm_compute; lia.
Defined.

Lemma XAdd_correct_witness :
  let args := generated in
  (exists id r', next_id 1000 args (sid 3 1) id /\ XAdd 10 10 1000 q_key (lit "d") args x_engine = Some ((Status_OK, id), r') /\
     let l := abc_messages ++ [(id, lit "d")] in let l' := kept_by args l in
     stream_stores q_key (mkStream l' id (raised (sid 0 0) (take (length l - length l') l)) (u64 (3 + 1))) x_engine r') \/
  (no_next_id 1000 args (sid 3 1) /\
   exists st id, ok st = false /\ XAdd 10 10 1000 q_key (lit "d") args x_engine = Some ((st, id), x_engine)).
Proof.
  refine (XAdd_correct 10 10 1000 q_key (lit "d") generated abc_stream x_engine eq_refl _ x_engine_ok _ x_engine_room
    _ _ _ _ _ _ _).
  - unfold is_u64. lia.
  - left. split; [apply x_engine_holds|done].
  - done.
  - by apply small_id.
  - right. vm_compute. done.
  - vm_compute. done.
  - done.
  - vm_compute. lia.
  - vm_compute. lia.
Defined.

Lemma XTrim_correct_witness : exists r',
  XTrim 10 10 1000 q_key (by_minid (sid 2 1)) x_engine = Some ((Status_OK, 1), r') /\
  stream_stores q_key (mkStream [(sid 2 1, lit "b"); (sid 3 1, lit "c")] (sid 3 1) (sid 1 1) 3) x_engine r'.
Proof.
  refine (XTrim_correct 10 10 1000 q_key (by_minid (sid 2 1)) abc_stream x_engine eq_refl x_engine_ok x_engine_holds
    _ _ _ _).
  - split; [by apply small_id|]. left. right. left.
  - done.
  - vm_compute. lia.
  - vm_compute. lia.
Defined.

Lemma XTrim_minid_hangs_witness : XTrim 1000 10 1000 q_key (by_minid (sid 2 5)) x_engine = None.
Proof.
  refine (proj2 (XTrim_minid_hangs 10 1000 q_key (by_minid (sid 2 5)) abc_stream x_engine eq_refl x_engine_ok x_engine_holds
    _ eq_refl _ _ _ _) 1000%nat).
  - vm_compute. lia.
  - by apply small_id.
  - by apply (bool_decide_unpack (sid 2 5 ∉ [sid 1 1; sid 2 1; sid 3 1])).
  - by left.
  - by right; right; left.
Defined.

Lemma XDel_correct_witness : exists r',
  XDel 10 1000 q_key [sid 1 1; sid 9 9] x_engine = Some ((Status_OK, 1), r') /\
  stream_stores q_key (mkStream [(sid 2 1, lit "b"); (sid 3 1, lit "c")] (sid 3 1) (sid 9 9) 3) x_engine r'.
Proof.
  refine (XDel_correct 10 1000 q_key [sid 1 1; sid 9 9] abc_stream x_engine eq_refl x_engine_ok x_engine_holds _ _ _ _ _).
  - repeat constructor; unfold is_u64; cbn; lia.
  - by apply (bool_decide_unpack (NoDup [sid 1 1; sid 9 9])).
  - vm_compute. done.
  - vm_compute. lia.
  - left. by apply (bool_decide_unpack (sid 3 1 ∉ [sid 1 1; sid 9 9])).
Defined.

Lemma streams_refine_machine_witness : messages_ok abc_messages.
Proof.
  exact (proj1 (proj2 (proj1 (streams_refine_machine 10 10 x_three x_engine reach_x_three) q_key abc_stream eq_refl x_three_abc))).
Defined.

(** ** What goes wrong *)

(** after XDEL of the last message the first identifier is that of the last
    message left, and XTRIM with MAXLEN deletes from there: it deletes a newer
    message and keeps the oldest. *)
Theorem XTrim_keeps_oldest :
  let r := after (add (sid 5 1) "d") (after (XDel 10 1000 q_key [sid 3 1]) x_engine) in
  let r' := after (XTrim 10 10 1000 q_key (by_maxlen 2)) r in
  fst <$> XRange 10 1000 q_key [] all_messages r =
    Some (Status_OK, field_of <$> [(sid 1 1, lit "a"); (sid 2 1, lit "b"); (sid 5 1, lit "d")]) /\
  fst <$> XTrim 10 10 1000 q_key (by_maxlen 2) r = Some (Status_OK, 1) /\
  fst <$> XRange 10 1000 q_key [] all_messages r' =
    Some (Status_OK, field_of <$> [(sid 1 1, lit "a"); (sid 5 1, lit "d")]).
Proof. vm_compute. split_and!; reflexivity. Qed.

(** when the clock is behind the last identifier, XADD counts up from its
    own arguments and not from the last identifier: the message gets an
    identifier that is not after it and replaces the one that had it. *)
Theorem XAdd_clock_behind :
  let r := after (add (sid 5000 2) "b") (after (add (sid 5000 1) "a") fresh_engine) in
  let r' := after (XAdd 10 10 1000 q_key (lit "c") generated) r in
  fst <$> XAdd 10 10 1000 q_key (lit "c") generated r = Some (Status_OK, sid 5000 1) /\
  fst <$> XLen 1000 q_key r' = Some (Status_OK, 3) /\
  fst <$> XRange 10 1000 q_key [] all_messages r' =
    Some (Status_OK, field_of <$> [(sid 5000 1, lit "c"); (sid 5000 2, lit "b")]).
Proof. vm_compute. split_and!; reflexivity. Qed.

(** the versions of streams do not come from the clock: a stream that SET
    has replaced and DEL has deleted starts again with the version it had, and
    its old messages are there again. *)
Theorem stream_resurrected :
  let r := after (StringsDel 3000 q_key []) (after (Set_ 2000 q_key (lit "v")) (after (add (sid 1 1) "a") fresh_engine)) in
  let r' := after (add (sid 5 5) "b") r in
  fst <$> XLen 3000 q_key r = Some (Status_NotFound [], 0) /\
  fst <$> XLen 3000 q_key r' = Some (Status_OK, 1) /\
  fst <$> XRange 10 3000 q_key [] all_messages r' = Some (Status_OK, field_of <$> [(sid 1 1, lit "a"); (sid 5 5, lit "b")]).
Proof. vm_compute. split_and!; reflexivity. Qed.

(** XDEL counts an identifier as often as it is given, and the length is that
    much too small. *)
Example XDel_counts_twice :
  fst <$> XDel 10 1000 q_key [sid 1 1; sid 1 1] x_engine = Some (Status_OK, 2) /\
  fst <$> XLen 1000 q_key (after (XDel 10 1000 q_key [sid 1 1; sid 1 1]) x_engine) = Some (Status_OK, 1).
Proof. vm_compute. split_and!; reflexivity. Qed.

(** XREAD with a limit of one message from an identifier that is the one of a
    message returns nothing. *)
Example XRead_one_stuck :
  fst <$> XRead 10 1000 (mkStreamReadArgs [q_key] [lit "1-1"] 1) x_engine = Some (Status_OK, [[]], [q_key]).
Proof. vm_compute. reflexivity. Qed.
