(* ===== verification/Lists.v ===== *)
(** * List commands ([src/src/storage/src/redis_lists.cc])

    One definition per command of [Redis] on lists.  A list is a meta value
    (count, version, left and right index) in [kMetaCF] and one entry per
    element in [kListsDataCF], at the indices strictly between left and right.

    A [for] loop over an iterator is [iter_for]: it has fuel for one pass over
    the index range it walks and returns [None] without it.  An out parameter a
    command does not assign is returned as its initial value, empty or 0. *)

From S2P Require Import Prelude Coding KeyFormat Comparator ValueFormat RocksDB LruCache Redis.
Open Scope Z_scope.

Section Lists.
Context {R : RocksDB} {U : Uninit}.

(** ** Loops over iterators *)

(** [for (; iter->Valid() && cond; move)] with body [body]. *)
Fixpoint iter_for {S : Type} (fuel : nat) (move : Iterator -> Iterator) (cond : S -> bool)
    (body : Iterator -> S -> S) (it : Iterator) (st : S) : option S :=
  match fuel with
  | O => None
  | Datatypes.S fuel =>
      if Valid it && cond st then iter_for fuel move cond body (move it) (body it st)
      else Some st
  end.

(** Fuel for the indices from [a] to [b] and the last test. *)
Definition index_fuel (a b : Z) : nat := Datatypes.S (Z.to_nat (b + 1 - a)).

(** [ParsedBaseDataValue(iter->value()).UserValue()] *)
Definition element_of (it : Iterator) : bytes :=
  UserValue (ParsedBaseDataValue false (iter_value it)).

(** [BaseDataValue(value).Encode()] *)
Definition data_value (now : Z) (value : bytes) : bytes :=
  BaseDataValue_Encode (InternalValue_new now kNones value).

(** [batch.Put(handles_[kListsDataCF], ListsDataKey(key, version, index).Encode(), ...)] *)
Definition put_data (key : bytes) (version index : Z) (value : bytes) : WriteOp :=
  Put kListsDataCF (ListsDataKey_Encode key version index) value.
Definition delete_data (key : bytes) (version index : Z) : WriteOp :=
  Delete kListsDataCF (ListsDataKey_Encode key version index).
(** [batch.Put(handles_[kMetaCF], base_meta_key.Encode(), meta_value)], the
    string being the one the parsed object writes through. *)
Definition put_meta (key : bytes) (p : ParsedListsMetaValue) : WriteOp :=
  Put kMetaCF (BaseKey_Encode key) (piv_data (plm_base p)).

(** [IsStale] and [Count() == 0] tests that begin most commands: the status
    returned early, if any. *)
Definition lists_vacant (now : Z) (p : ParsedListsMetaValue) : option Status :=
  if IsStale now (plm_base p) then Some (Status_NotFound (lit "Stale"))
  else if plm_count p =? 0 then Some (Status_NotFound [])
  else None.

(** Reads the list of [key] for a command that needs it to exist: [inl] is the
    status the command returns at once. *)
Definition GetList (now : Z) (key named : bytes) : M (Status + ParsedListsMetaValue) :=
  let* m := GetMeta now kLists key named in
  match m with
  | inl st => ret (inl st)
  | inr (s, meta_value) =>
      if ok s then
        let* p := lift (ParsedListsMetaValue_parse true meta_value) in
        match lists_vacant now p with
        | Some st => ret (inl st)
        | None => ret (inr p)
        end
      else ret (inl s)
  end.

(** ** Reading *)

Definition LIndex (now : Z) (key : bytes) (index : Z) : M (Status * bytes) :=
  let* m := GetList now key key in
  match m with
  | inl st => ret (st, [])
  | inr p =>
      let version := piv_version (plm_base p) in
      let target_index :=
        if 0 <=? index then u64 (plm_left_index p + index + 1)
        else u64 (plm_right_index p + index) in
      if (plm_left_index p <? target_index) && (target_index <? plm_right_index p) then
        let* '(s, element) := Get kListsDataCF (ListsDataKey_Encode key version target_index) in
        if ok s then
          let* e := lift (ParsedBaseDataValue_StripSuffix (ParsedBaseDataValue true element)) in
          ret (s, e)
        else ret (s, element)
      else ret (Status_NotFound [], [])
  end.

Definition LLen (now : Z) (key prefetch_meta : bytes) : M (Status * Z) :=
  let* m := GetMetaOrPrefetched now kLists key prefetch_meta in
  match m with
  | inl st => ret (st, 0)
  | inr (s, meta_value) =>
      if ok s then
        let* p := lift (ParsedListsMetaValue_parse true meta_value) in
        match lists_vacant now p with
        | Some st => ret (st, 0)
        | None => ret (s, plm_count p)
        end
      else ret (s, 0)
  end.

(** The index range a [start]/[stop] pair denotes; [None] when it is empty. *)
Definition sublist (p : ParsedListsMetaValue) (start stop : Z) : option (Z * Z) :=
  let origin_left_index := u64 (plm_left_index p + 1) in
  let origin_right_index := u64 (plm_right_index p - 1) in
  let sublist_left_index :=
    if 0 <=? start then u64 (origin_left_index + start) else u64 (origin_right_index + start + 1) in
  let sublist_right_index :=
    if 0 <=? stop then u64 (origin_left_index + stop) else u64 (origin_right_index + stop + 1) in
  if (sublist_right_index <? sublist_left_index) || (origin_right_index <? sublist_left_index) ||
     (sublist_right_index <? origin_left_index)
  then None
  else
    Some (if sublist_left_index <? origin_left_index then origin_left_index else sublist_left_index,
          if origin_right_index <? sublist_right_index then origin_right_index
          else sublist_right_index).

(** The loop of [LRange]: the elements from index [lo] to [hi]. *)
Definition collect (db : DB) (key : bytes) (version lo hi : Z) : option (list bytes) :=
  let it := Seek (NewIterator db kListsDataCF) (ListsDataKey_Encode key version lo) in
  snd <$> iter_for (index_fuel lo hi) Next
    (fun '(current_index, _) => current_index <=? hi)
    (fun it '(current_index, elements) => (u64 (current_index + 1), elements ++ [element_of it]))
    it (lo, []).

Definition LRange (now : Z) (key : bytes) (start stop : Z) : M (Status * list bytes) :=
  let* m := GetList now key key in
  match m with
  | inl st => ret (st, [])
  | inr p =>
      match sublist p start stop with
      | None => ret (Status_OK, [])
      | Some (lo, hi) =>
          let* db := gets db_ in
          let* elements := lift (collect db key (piv_version (plm_base p)) lo hi) in
          ret (Status_OK, elements)
      end
  end.

Definition LRangeWithTTL (now : Z) (key : bytes) (start stop : Z)
    : M (Status * list bytes * Z) :=
  let* m := GetMeta now kLists key key in
  match m with
  | inl st => ret (st, [], 0)
  | inr (s, meta_value) =>
      if ok s then
        let* p := lift (ParsedListsMetaValue_parse true meta_value) in
        if plm_count p =? 0 then ret (Status_NotFound [], [], 0)
        else if IsStale now (plm_base p) then ret (Status_NotFound (lit "Stale"), [], 0)
        else
          let ttl_millsec := ttl_of now (piv_etime (plm_base p)) in
          match sublist p start stop with
          | None => ret (Status_OK, [], ttl_millsec)
          | Some (lo, hi) =>
              let* db := gets db_ in
              let* elements := lift (collect db key (piv_version (plm_base p)) lo hi) in
              ret (Status_OK, elements, ttl_millsec)
          end
      else ret (s, [], 0)
  end.

(** ** Pushing *)

(** One value pushed to the left (right): the element goes to the free index. *)
Definition push_left (now : Z) (key : bytes) (version : Z)
    (st : ParsedListsMetaValue * list WriteOp) (value : bytes)
    : ParsedListsMetaValue * list WriteOp :=
  let '(p, batch) := st in
  let index := plm_left_index p in
  let p := ParsedListsMetaValue_ModifyLeftIndex p 1 in
  let p := ParsedListsMetaValue_ModifyCount p 1 in
  (p, batch ++ [put_data key version index (data_value now value)]).

Definition push_right (now : Z) (key : bytes) (version : Z)
    (st : ParsedListsMetaValue * list WriteOp) (value : bytes)
    : ParsedListsMetaValue * list WriteOp :=
  let '(p, batch) := st in
  let index := plm_right_index p in
  let p := ParsedListsMetaValue_ModifyRightIndex p 1 in
  let p := ParsedListsMetaValue_ModifyCount p 1 in
  (p, batch ++ [put_data key version index (data_value now value)]).

(** The same on the meta value of a new list. *)
Definition push_left_new (now : Z) (key : bytes) (version : Z)
    (st : ListsMetaValue * list WriteOp) (value : bytes) : ListsMetaValue * list WriteOp :=
  let '(m, batch) := st in
  let index := lmv_left_index m in
  (ListsMetaValue_ModifyLeftIndex m 1,
   batch ++ [put_data key version index (data_value now value)]).

Definition push_right_new (now : Z) (key : bytes) (version : Z)
    (st : ListsMetaValue * list WriteOp) (value : bytes) : ListsMetaValue * list WriteOp :=
  let '(m, batch) := st in
  let index := lmv_right_index m in
  (ListsMetaValue_ModifyRightIndex m 1,
   batch ++ [put_data key version index (data_value now value)]).

(** A stale or empty list starts again under a new version. *)
Definition revive (now : Z) (p : ParsedListsMetaValue) : ParsedListsMetaValue :=
  if IsStale now (plm_base p) || (plm_count p =? 0)
  then ParsedListsMetaValue_InitialMetaValue now p else p.

(** The meta value of a list that does not exist yet. *)
Definition new_list_meta (now count : Z) : ListsMetaValue :=
  ListsMetaValue_UpdateVersion now (ListsMetaValue_new now (EncodeFixed64 count)).

Definition LPush (now : Z) (key : bytes) (values : list bytes) : M (Status * Z) :=
  let* m := GetMeta now kLists key key in
  match m with
  | inl st => ret (st, 0)
  | inr (s, meta_value) =>
      if ok s then
        let* p := lift (ParsedListsMetaValue_parse true meta_value) in
        let p := revive now p in
        let version := piv_version (plm_base p) in
        let '(p, batch) := fold_left (push_left now key version) values (p, []) in
        let* s := Write (batch ++ [put_meta key p]) in
        ret (s, plm_count p)
      else if IsNotFound s then
        let m := new_list_meta now (Z.of_nat (length values)) in
        let version := iv_version (lmv_base m) in
        let '(m, batch) := fold_left (push_left_new now key version) values (m, []) in
        let* s := Write (batch ++ [Put kMetaCF (BaseKey_Encode key) (ListsMetaValue_Encode m)]) in
        ret (s, u64 (lmv_right_index m - lmv_left_index m - 1))
      else ret (s, 0)
  end.

Definition RPush (now : Z) (key : bytes) (values : list bytes) : M (Status * Z) :=
  let* m := GetMeta now kLists key key in
  match m with
  | inl st => ret (st, 0)
  | inr (s, meta_value) =>
      if ok s then
        let* p := lift (ParsedListsMetaValue_parse true meta_value) in
        let p := revive now p in
        let version := piv_version (plm_base p) in
        let '(p, batch) := fold_left (push_right now key version) values (p, []) in
        let* s := Write (batch ++ [put_meta key p]) in
        ret (s, plm_count p)
      else if IsNotFound s then
        let m := new_list_meta now (Z.of_nat (length values)) in
        let version := iv_version (lmv_base m) in
        let '(m, batch) := fold_left (push_right_new now key version) values (m, []) in
        let* s := Write (batch ++ [Put kMetaCF (BaseKey_Encode key) (ListsMetaValue_Encode m)]) in
        ret (s, u64 (lmv_right_index m - lmv_left_index m - 1))
      else ret (s, 0)
  end.

Definition LPushx (now : Z) (key : bytes) (values : list bytes) : M (Status * Z) :=
  let* m := GetList now key key in
  match m with
  | inl st => ret (st, 0)
  | inr p =>
      let version := piv_version (plm_base p) in
      let '(p, batch) :=
        fold_left (fun '(p, batch) value =>
          let index := plm_left_index p in
          let p := ParsedListsMetaValue_ModifyCount p 1 in
          let p := ParsedListsMetaValue_ModifyLeftIndex p 1 in
          (p, batch ++ [put_data key version index (data_value now value)])) values (p, []) in
      let* s := Write (batch ++ [put_meta key p]) in
      ret (s, plm_count p)
  end.

Definition RPushx (now : Z) (key : bytes) (values : list bytes) : M (Status * Z) :=
  let* m := GetList now key key in
  match m with
  | inl st => ret (st, 0)
  | inr p =>
      let version := piv_version (plm_base p) in
      let '(p, batch) :=
        fold_left (fun '(p, batch) value =>
          let index := plm_right_index p in
          let p := ParsedListsMetaValue_ModifyCount p 1 in
          let p := ParsedListsMetaValue_ModifyRightIndex p 1 in
          (p, batch ++ [put_data key version index (data_value now value)])) values (p, []) in
      let* s := Write (batch ++ [put_meta key p]) in
      ret (s, plm_count p)
  end.

(** ** Popping *)

(** What the loops of [LPop] and [RPop] accumulate. *)
Record pop_state := mkPop {
  pop_cur : Z; pop_statistic : Z; pop_elements : list bytes; pop_batch : list WriteOp;
  pop_meta : ParsedListsMetaValue
}.

Definition pop_body (modify : ParsedListsMetaValue -> ParsedListsMetaValue)
    (it : Iterator) (st : pop_state) : pop_state :=
  let p := ParsedListsMetaValue_ModifyCount (pop_meta st) (u64 (-1)) in
  mkPop (i32 (pop_cur st + 1)) (u32 (pop_statistic st + 1))
    (pop_elements st ++ [element_of it])
    (pop_batch st ++ [Delete kListsDataCF (iter_key it)]) (modify p).

(** [static_cast<int32_t>(count <= size ? count - 1 : size - 1)] *)
Definition pop_stop (p : ParsedListsMetaValue) (count : Z) : Z :=
  let size := i64 (plm_count p) in
  i32 (if count <=? size then i64 (count - 1) else size - 1).

Definition LPop (now : Z) (key : bytes) (count : Z) : M (Status * list bytes) :=
  let* m := GetList now key key in
  match m with
  | inl st => ret (st, [])
  | inr p =>
      let version := piv_version (plm_base p) in
      let stop_index := pop_stop p count in
      let* db := gets db_ in
      let it := Seek (NewIterator db kListsDataCF)
                  (ListsDataKey_Encode key version (u64 (plm_left_index p + 1))) in
      let* st := lift (iter_for (index_fuel 0 stop_index) Next
        (fun st => pop_cur st <=? stop_index)
        (pop_body (fun p => ParsedListsMetaValue_ModifyLeftIndex p (u64 (-1))))
        it (mkPop 0 0 [] [] p)) in
      let* s := Write (pop_batch st ++ [put_meta key (pop_meta st)]) in
      let* _ := UpdateSpecificKeyStatistics kLists key (pop_statistic st) in
      ret (s, pop_elements st)
  end.

Definition RPop (now : Z) (key : bytes) (count : Z) : M (Status * list bytes) :=
  let* m := GetList now key key in
  match m with
  | inl st => ret (st, [])
  | inr p =>
      let version := piv_version (plm_base p) in
      let stop_index := pop_stop p count in
      let* db := gets db_ in
      let it := SeekForPrev (NewIterator db kListsDataCF)
                  (ListsDataKey_Encode key version (u64 (plm_right_index p - 1))) in
      let* st := lift (iter_for (index_fuel 0 stop_index) Prev
        (fun st => pop_cur st <=? stop_index)
        (pop_body (fun p => ParsedListsMetaValue_ModifyRightIndex p (u64 (-1))))
        it (mkPop 0 0 [] [] p)) in
      let* s := Write (pop_batch st ++ [put_meta key (pop_meta st)]) in
      let* _ := UpdateSpecificKeyStatistics kLists key (pop_statistic st) in
      ret (s, pop_elements st)
  end.

(** ** Updating in place *)

Definition LSet (now : Z) (key : bytes) (index : Z) (value : bytes) : M Status :=
  let* m := GetList now key key in
  match m with
  | inl st => ret st
  | inr p =>
      let version := piv_version (plm_base p) in
      let target_index :=
        if 0 <=? index then u64 (plm_left_index p + index + 1)
        else u64 (plm_right_index p + index) in
      if (target_index <=? plm_left_index p) || (plm_right_index p <=? target_index)
      then ret (Status_Corruption (lit "index out of range"))
      else
        let* s := Write [put_data key version target_index (data_value now value)] in
        let* _ := UpdateSpecificKeyStatistics kLists key 1 in
        ret s
  end.

(** [for (idx = a; idx < b; ++idx)] and [for (idx = a; idx > b; --idx)] *)
Definition indices_up (a b : Z) : list Z := (fun i => a + Z.of_nat i) <$> seq 0 (Z.to_nat (b - a)).
Definition indices_down (a b : Z) : list Z := (fun i => a - Z.of_nat i) <$> seq 0 (Z.to_nat (a - b)).

Definition LTrim (now : Z) (key : bytes) (start stop : Z) : M Status :=
  let* m := GetList now key key in
  match m with
  | inl st => ret st
  | inr p =>
      let version := piv_version (plm_base p) in
      let origin_left_index := u64 (plm_left_index p + 1) in
      let origin_right_index := u64 (plm_right_index p - 1) in
      let '(batch, statistic) :=
        match sublist p start stop with
        | None => ([put_meta key (ParsedListsMetaValue_InitialMetaValue now p)], 0)
        | Some (sublist_left_index, sublist_right_index) =>
            let delete_node_num :=
              u64 ((sublist_left_index - origin_left_index) +
                   (origin_right_index - sublist_right_index)) in
            let p := ParsedListsMetaValue_ModifyLeftIndex p
                       (u64 (- (sublist_left_index - origin_left_index))) in
            let p := ParsedListsMetaValue_ModifyRightIndex p
                       (u64 (- (origin_right_index - sublist_right_index))) in
            let p := ParsedListsMetaValue_ModifyCount p (u64 (- delete_node_num)) in
            let removed := indices_up origin_left_index sublist_left_index ++
                           indices_down origin_right_index sublist_right_index in
            (put_meta key p :: (delete_data key version <$> removed),
             u32 (Z.of_nat (length removed)))
        end in
      let* s := Write batch in
      let* _ := UpdateSpecificKeyStatistics kLists key statistic in
      ret s
  end.

(** ** Inserting next to a pivot *)

Inductive BeforeOrAfter := Before | After.

#[export] Instance BeforeOrAfter_eq_dec : EqDecision BeforeOrAfter.
Proof. solve_decision. Defined.

(** The search for the pivot: its index, if found. *)
Definition find_pivot (db : DB) (key : bytes) (p : ParsedListsMetaValue) (pivot : bytes)
    : option (option Z) :=
  let version := piv_version (plm_base p) in
  let current_index := u64 (plm_left_index p + 1) in
  let it := Seek (NewIterator db kListsDataCF) (ListsDataKey_Encode key version current_index) in
  snd <$> iter_for (index_fuel current_index (plm_right_index p)) Next
    (fun '(current_index, found) =>
       match found with Some _ => false | None => current_index <? plm_right_index p end)
    (fun it '(current_index, found) =>
       if decide (pivot = element_of it) then (current_index, Some current_index)
       else (u64 (current_index + 1), found))
    it (current_index, None).

(** The elements left of the insertion point, which move one index down. *)
Definition left_nodes (db : DB) (key : bytes) (p : ParsedListsMetaValue)
    (before_or_after : BeforeOrAfter) (pivot_index : Z) : option (list bytes) :=
  let version := piv_version (plm_base p) in
  let current_index := u64 (plm_left_index p + 1) in
  let it := Seek (NewIterator db kListsDataCF) (ListsDataKey_Encode key version current_index) in
  snd <$> iter_for (index_fuel current_index pivot_index) Next
    (fun '(current_index, stopped, _) => (current_index <=? pivot_index) && negb stopped)
    (fun it '(current_index, stopped, nodes) =>
       if current_index =? pivot_index then
         (current_index, true,
          if decide (before_or_after = After) then nodes ++ [element_of it] else nodes)
       else (u64 (current_index + 1), stopped, nodes ++ [element_of it]))
    it (current_index, false, []).

(** The elements right of the insertion point, which move one index up. *)
Definition right_nodes (db : DB) (key : bytes) (p : ParsedListsMetaValue)
    (before_or_after : BeforeOrAfter) (pivot_index : Z) : option (list bytes) :=
  let version := piv_version (plm_base p) in
  let it := Seek (NewIterator db kListsDataCF) (ListsDataKey_Encode key version pivot_index) in
  snd <$> iter_for (index_fuel pivot_index (plm_right_index p)) Next
    (fun '(current_index, _) => current_index <? plm_right_index p)
    (fun it '(current_index, nodes) =>
       (u64 (current_index + 1),
        if (current_index =? pivot_index) && bool_decide (before_or_after = After) then nodes
        else nodes ++ [element_of it]))
    it (pivot_index, []).

(** Writes [nodes] at consecutive indices from [index]. *)
Fixpoint put_nodes (now : Z) (key : bytes) (version index : Z) (nodes : list bytes)
    : list WriteOp :=
  match nodes with
  | [] => []
  | node :: nodes =>
      put_data key version index (data_value now node)
      :: put_nodes now key version (u64 (index + 1)) nodes
  end.

Definition LInsert (now : Z) (key : bytes) (before_or_after : BeforeOrAfter)
    (pivot value : bytes) : M (Status * Z) :=
  let* m := GetList now key key in
  match m with
  | inl st => ret (st, 0)
  | inr p =>
      let version := piv_version (plm_base p) in
      let* db := gets db_ in
      let* found := lift (find_pivot db key p pivot) in
      match found with
      | None => ret (Status_NotFound [], -1)
      | Some pivot_index =>
          let mid_index :=
            u64 (plm_left_index p + u64 (plm_right_index p - plm_left_index p) / 2) in
          let* '(target_index, batch, p) :=
            if pivot_index <=? mid_index then
              let target_index :=
                if decide (before_or_after = Before) then u64 (pivot_index - 1) else pivot_index in
              let* nodes := lift (left_nodes db key p before_or_after pivot_index) in
              let batch := put_nodes now key version (plm_left_index p) nodes in
              ret (target_index, batch, ParsedListsMetaValue_ModifyLeftIndex p 1)
            else
              let target_index :=
                if decide (before_or_after = Before) then pivot_index else u64 (pivot_index + 1) in
              let* nodes := lift (right_nodes db key p before_or_after pivot_index) in
              let batch := put_nodes now key version (u64 (target_index + 1)) nodes in
              ret (target_index, batch, ParsedListsMetaValue_ModifyRightIndex p 1) in
          let p := ParsedListsMetaValue_ModifyCount p 1 in
          let* s := Write (batch ++ [put_meta key p;
                             put_data key version target_index (data_value now value)]) in
          ret (s, i32 (plm_count p))
      end
  end.

(** ** Removing by value *)

(** [(count < 0) ? -count : count]; the least [int64_t] has no negation. *)
Definition rem_rest (count : Z) : option Z :=
  if count <? 0 then (if - count <? 2 ^ 63 then Some (- count) else None) else Some count.

(** The indices of the elements equal to [value], in the order met: at most
    [rest] of them unless [count] is 0. *)
Definition rem_targets (db : DB) (key : bytes) (p : ParsedListsMetaValue) (count : Z)
    (value : bytes) : option (list Z) :=
  let version := piv_version (plm_base p) in
  let start_index := u64 (plm_left_index p + 1) in
  let stop_index := u64 (plm_right_index p - 1) in
  rest ← rem_rest count;
  let more rest := (count =? 0) || negb (rest =? 0) in
  let body next it '(current_index, target_index, rest) :=
    if decide (value = element_of it) then
      (next current_index, target_index ++ [current_index],
       if negb (count =? 0) then u64 (rest - 1) else rest)
    else (next current_index, target_index, rest) in
  (fun '(_, target_index, _) => target_index) <$>
  if 0 <=? count then
    iter_for (index_fuel start_index stop_index) Next
      (fun '(current_index, _, rest) => (current_index <=? stop_index) && more rest)
      (body (fun i => u64 (i + 1)))
      (Seek (NewIterator db kListsDataCF) (ListsDataKey_Encode key version start_index))
      (start_index, [], rest)
  else
    iter_for (index_fuel start_index stop_index) Prev
      (fun '(current_index, _, rest) => (start_index <=? current_index) && more rest)
      (body (fun i => u64 (i - 1)))
      (Seek (NewIterator db kListsDataCF) (ListsDataKey_Encode key version stop_index))
      (stop_index, [], rest).

(** The compaction loops: from [from], keep the elements other than the first
    [rest] equal to [value], rewriting them at consecutive indices. *)
Definition rem_shift (db : DB) (key : bytes) (version : Z) (value : bytes)
    (fuel : nat) (move : Iterator -> Iterator) (next : Z -> Z) (inside : Z -> bool)
    (from rest : Z) : option (list WriteOp) :=
  (fun '(_, _, _, batch) => batch) <$>
  iter_for fuel move (fun '(current_index, _, _, _) => inside current_index)
    (fun it '(current_index, rest, dst, batch) =>
       if bool_decide (value = element_of it) && (0 <? rest) then
         (next current_index, u64 (rest - 1), dst, batch)
       else
         (next current_index, rest, next dst,
          batch ++ [put_data key version dst (iter_value it)]))
    (Seek (NewIterator db kListsDataCF) (ListsDataKey_Encode key version from))
    (from, rest, from, []).

Definition LRem (now : Z) (key : bytes) (count : Z) (value : bytes) : M (Status * Z) :=
  let* m := GetList now key key in
  match m with
  | inl st => ret (st, 0)
  | inr p =>
      let version := piv_version (plm_base p) in
      let start_index := u64 (plm_left_index p + 1) in
      let stop_index := u64 (plm_right_index p - 1) in
      let* db := gets db_ in
      let* target_index := lift (rem_targets db key p count value) in
      match target_index, last target_index with
      | first :: _, Some final =>
          let n := Z.of_nat (length target_index) in
          let sublist_left_index := if 0 <=? count then first else final in
          let sublist_right_index := if 0 <=? count then final else first in
          let left_part_len := u64 (sublist_right_index - start_index) in
          let right_part_len := u64 (stop_index - sublist_left_index) in
          let* '(batch, p, delete_index) :=
            if left_part_len <=? right_part_len then
              let* batch := lift (rem_shift db key version value
                (index_fuel start_index sublist_right_index) Prev (fun i => u64 (i - 1))
                (fun i => start_index <=? i) sublist_right_index n) in
              let left_index := plm_left_index p in
              ret (batch, ParsedListsMetaValue_ModifyLeftIndex p (u64 (- n)),
                   (fun idx => u64 (left_index + Z.of_nat idx + 1)) <$> seq 0 (length target_index))
            else
              let* batch := lift (rem_shift db key version value
                (index_fuel sublist_left_index stop_index) Next (fun i => u64 (i + 1))
                (fun i => i <=? stop_index) sublist_left_index n) in
              let right_index := plm_right_index p in
              ret (batch, ParsedListsMetaValue_ModifyRightIndex p (u64 (- n)),
                   (fun idx => u64 (right_index - Z.of_nat idx - 1)) <$> seq 0 (length target_index)) in
          let p := ParsedListsMetaValue_ModifyCount p (u64 (- n)) in
          let* s := Write (batch ++ put_meta key p :: (delete_data key version <$> delete_index)) in
          ret (s, n)
      | _, _ => ret (Status_NotFound [], 0)
      end
  end.

(** ** Moving an element *)

(** The writes that put [target] in front of the destination list; [None] when
    the read of its meta value failed. *)
Definition destination_batch (now : Z) (destination target : bytes) (s : Status)
    (destination_meta_value : bytes) : M (option (list WriteOp)) :=
  if ok s then
    let* q := lift (ParsedListsMetaValue_parse true destination_meta_value) in
    let q := revive now q in
    let version := piv_version (plm_base q) in
    let target_index := plm_left_index q in
    let q := ParsedListsMetaValue_ModifyCount q 1 in
    let q := ParsedListsMetaValue_ModifyLeftIndex q 1 in
    ret (Some [put_data destination version target_index target; put_meta destination q])
  else if IsNotFound s then
    let lists_meta_value := new_list_meta now 1 in
    let version := iv_version (lmv_base lists_meta_value) in
    let target_index := lmv_left_index lists_meta_value in
    let lists_meta_value := ListsMetaValue_ModifyLeftIndex lists_meta_value 1 in
    ret (Some [put_data destination version target_index target;
               Put kMetaCF (BaseKey_Encode destination) (ListsMetaValue_Encode lists_meta_value)])
  else ret None.

Definition RPoplpush (now : Z) (source destination : bytes) : M (Status * bytes) :=
  if decide (source = destination) then
    let* m := GetList now source destination in
    match m with
    | inl st => ret (st, [])
    | inr p =>
        let version := piv_version (plm_base p) in
        let last_node_index := u64 (plm_right_index p - 1) in
        let lists_data_key := ListsDataKey_Encode source version last_node_index in
        let* '(s, target) := Get kListsDataCF lists_data_key in
        if ok s then
          let* element :=
            lift (ParsedBaseDataValue_StripSuffix (ParsedBaseDataValue true target)) in
          if plm_count p =? 1 then ret (Status_OK, element)
          else
            let target_index := plm_left_index p in
            let p := ParsedListsMetaValue_ModifyRightIndex p (u64 (-1)) in
            let p := ParsedListsMetaValue_ModifyLeftIndex p 1 in
            let* s := Write [Delete kListsDataCF lists_data_key;
                             put_data source version target_index target; put_meta source p] in
            let* _ := UpdateSpecificKeyStatistics kLists source 1 in
            ret (s, element)
        else ret (s, [])
    end
  else
    let* m := GetList now source source in
    match m with
    | inl st => ret (st, [])
    | inr p =>
        let version := piv_version (plm_base p) in
        let last_node_index := u64 (plm_right_index p - 1) in
        let lists_data_key := ListsDataKey_Encode source version last_node_index in
        let* '(s, target) := Get kListsDataCF lists_data_key in
        if ok s then
          let p := ParsedListsMetaValue_ModifyCount p (u64 (-1)) in
          let p := ParsedListsMetaValue_ModifyRightIndex p (u64 (-1)) in
          let batch := [Delete kListsDataCF lists_data_key; put_meta source p] in
          let* m := GetMeta now kLists destination destination in
          match m with
          | inl st => ret (st, [])
          | inr (s, destination_meta_value) =>
              let* b := destination_batch now destination target s destination_meta_value in
              match b with
              | None => ret (s, [])
              | Some dest_batch =>
                  let* s := Write (batch ++ dest_batch) in
                  let* _ := UpdateSpecificKeyStatistics kLists source 1 in
                  if ok s then
                    let* element :=
                      lift (ParsedBaseDataValue_StripSuffix (ParsedBaseDataValue true target)) in
                    ret (s, element)
                  else ret (s, [])
              end
          end
        else ret (s, [])
    end.

(** ** Expiry and deletion *)

(** Declares a second [Status s] where it reads the meta value, so the status of
    that read is not seen by the rest of the command. *)
Definition ListsExpire (now : Z) (key : bytes) (ttl_millsec : Z) (prefetch_meta : bytes)
    : M Status :=
  let* m := GetMetaOrPrefetched now kLists key prefetch_meta in
  match m with
  | inl st => ret st
  | inr (_, meta_value) =>
      let* p := lift (ParsedListsMetaValue_parse true meta_value) in
      match lists_vacant now p with
      | Some st => ret st
      | None =>
          if 0 <? ttl_millsec then
            Write [put_meta key (ParsedListsMetaValue_SetRelativeTimestamp now p ttl_millsec)]
          else Write [put_meta key (ParsedListsMetaValue_InitialMetaValue now p)]
      end
  end.

(** The start of the other commands: the list, or the status returned. *)
Definition GetListOrPrefetched (now : Z) (key prefetch_meta : bytes)
    : M (Status + ParsedListsMetaValue) :=
  let* m := GetMetaOrPrefetched now kLists key prefetch_meta in
  match m with
  | inl st => ret (inl st)
  | inr (s, meta_value) =>
      if ok s then
        let* p := lift (ParsedListsMetaValue_parse true meta_value) in
        match lists_vacant now p with
        | Some st => ret (inl st)
        | None => ret (inr p)
        end
      else ret (inl s)
  end.

Definition ListsDel (now : Z) (key prefetch_meta : bytes) : M Status :=
  let* m := GetListOrPrefetched now key prefetch_meta in
  match m with
  | inl st => ret st
  | inr p =>
      let statistic := plm_count p in
      let* s := Write [put_meta key (ParsedListsMetaValue_InitialMetaValue now p)] in
      let* _ := UpdateSpecificKeyStatistics kLists key statistic in
      ret s
  end.

Definition ListsExpireat (now : Z) (key : bytes) (timestamp_millsec : Z) (prefetch_meta : bytes)
    : M Status :=
  let* m := GetListOrPrefetched now key prefetch_meta in
  match m with
  | inl st => ret st
  | inr p =>
      let p :=
        if 0 <? timestamp_millsec then ParsedListsMetaValue_SetEtime p (u64 timestamp_millsec)
        else ParsedListsMetaValue_InitialMetaValue now p in
      Write [put_meta key p]
  end.

Definition ListsPersist (now : Z) (key prefetch_meta : bytes) : M Status :=
  let* m := GetListOrPrefetched now key prefetch_meta in
  match m with
  | inl st => ret st
  | inr p =>
      if piv_etime (plm_base p) =? 0 then
        ret (Status_NotFound (lit "Not have an associated timeout"))
      else Write [put_meta key (ParsedListsMetaValue_SetEtime p 0)]
  end.

Definition ListsTTL (now : Z) (key prefetch_meta : bytes) : M (Status * Z) :=
  let* m := GetMetaOrPrefetched now kLists key prefetch_meta in
  match m with
  | inl st => ret (st, 0)
  | inr (s, meta_value) =>
      if ok s then
        let* p := lift (ParsedListsMetaValue_parse true meta_value) in
        match lists_vacant now p with
        | Some st => ret (st, -2)
        | None => ret (s, ttl_of now (piv_etime (plm_base p)))
        end
      else if IsNotFound s then ret (s, -2)
      else ret (s, 0)
  end.

(** ** Counting *)

(** The loop of [ScanListsKeyNum] from an iterator over the meta family; the
    last component of the accumulator is [ttl_sum]. *)
Fixpoint scan_lists (fuel : nat) (now : Z) (it : Iterator) (acc : Z * Z * Z * Z)
    : option (Z * Z * Z * Z) :=
  match fuel with
  | O => None
  | Datatypes.S fuel =>
      if Valid it then
        let '(keys, expires, invaild_keys, ttl_sum) := acc in
        if ExpectedMetaValue kLists (iter_value it) then
          p ← ParsedListsMetaValue_parse false (iter_value it);
          let acc :=
            if IsStale now (plm_base p) || (plm_count p =? 0) then
              (keys, expires, u64 (invaild_keys + 1), ttl_sum)
            else if IsPermanentSurvival (plm_base p) then
              (u64 (keys + 1), expires, invaild_keys, ttl_sum)
            else (u64 (keys + 1), u64 (expires + 1), invaild_keys,
                  u64 (ttl_sum + (piv_etime (plm_base p) - now))) in
          scan_lists fuel now (Next it) acc
        else scan_lists fuel now (Next it) acc
      else Some acc
  end.

Definition ScanListsKeyNum (fuel : nat) (now : Z) : M (Status * KeyInfo) :=
  let* db := gets db_ in
  let* '(keys, expires, invaild_keys, ttl_sum) :=
    lift (scan_lists fuel now (SeekToFirst (NewIterator db kMetaCF)) (0, 0, 0, 0)) in
  ret (Status_OK,
       mkKeyInfo keys expires (if negb (expires =? 0) then ttl_sum / expires else 0) invaild_keys).

End Lists.
