(* ===== verification/ListSpec.v ===== *)
(** * Correctness of the list commands

    [list_at] relates a database to the list stored under a key; [holds] adds
    the keys that hold no list (absent, expired, emptied, or a stale value of
    another type).  Each theorem takes a state that [holds] a list, runs a
    command of [Lists] and says what it returns, which list is held
    afterwards, and that every other key is untouched.

    Besides the hypotheses of [KeySpace] they assume that the indices of the
    list do not reach the ends of the 64-bit range (they start in its middle). *)

From S2P Require Import Prelude Coding KeyFormat Comparator ValueFormat RocksDB LruCache Redis KeySpace Lists.
Open Scope Z_scope.

Section ListSpec.
Context {R : RocksDB} {L : RocksDBLaws R} {U : Uninit}.

(** ** Reading the database through encoded keys *)

Definition data_of (db : DB) (key : bytes) (version index : Z) : option bytes :=
  db_lookup db kListsDataCF (ListsDataKey_Encode key version index).

(** Nothing stored for a key other than [key] changes. *)
Definition others_same (key : bytes) (db db' : DB) : Prop :=
  (forall k, key_ok k = true -> k <> key -> meta_of db' k = meta_of db k) /\
  (forall k v i, key_ok k = true -> k <> key -> is_u64 v -> is_u64 i ->
     data_of db' k v i = data_of db k v i) /\
  (forall cf k, cf <> kMetaCF -> cf <> kListsDataCF -> cf <> kZsetsScoreCF ->
     db_lookup db' cf k = db_lookup db cf k).

(** ** What a batch on one list does *)

(** The assignments a batch makes to the indices of a list. *)
Definition assign (ops : list (Z * option bytes)) (j : Z) (cur : option bytes) : option bytes :=
  fold_left (fun cur '(i, o) => if Z.eqb i j then o else cur) ops cur.

(** The batch writes the meta value [m] of [key], if any, and makes the
    assignments [ops] to its elements under [version]. *)
Inductive effects (key : bytes) (version : Z)
    : list WriteOp -> option bytes -> list (Z * option bytes) -> Prop :=
  | eff_nil : effects key version [] None []
  | eff_put k i v b m ops :
      is_u64 i -> ListsDataKeyCompare k (ListsDataKey_Encode key version i) = Eq ->
      effects key version b m ops ->
      effects key version (Put kListsDataCF k v :: b) m ((i, Some v) :: ops)
  | eff_delete k i b m ops :
      is_u64 i -> ListsDataKeyCompare k (ListsDataKey_Encode key version i) = Eq ->
      effects key version b m ops ->
      effects key version (Delete kListsDataCF k :: b) m ((i, None) :: ops)
  | eff_meta v b m ops :
      effects key version b m ops ->
      effects key version (Put kMetaCF (BaseKey_Encode key) v :: b)
        (Some (default v m)) ops.

Lemma effects_app key version b1 m1 o1 b2 m2 o2 :
  effects key version b1 m1 o1 -> effects key version b2 m2 o2 ->
  effects key version (b1 ++ b2) (match m2 with Some m => Some m | None => m1 end) (o1 ++ o2).
Proof.
  induction 1; intros H2; simpl.
  - by destruct m2.
  - constructor; auto.
  - constructor; auto.
  - pose proof (eff_meta key version v _ _ _ (IHeffects H2)) as H0.
    by destruct m2, m.
Qed.

Lemma Eq_encoded k key version i k2 v2 j :
  key_ok key = true -> key_ok k2 = true -> is_u64 version -> is_u64 i -> is_u64 v2 -> is_u64 j ->
  ListsDataKeyCompare k (ListsDataKey_Encode key version i) = Eq ->
  ListsDataKeyCompare (ListsDataKey_Encode k2 v2 j) k = Eq <-> k2 = key /\ v2 = version /\ j = i.
Proof.
  intros K K2 V I V2 J E. rewrite (cmp_eq_r ListsDataKeyCompare _ _ _ E).
  rewrite ListsDataKey_compare, !thenc_Eq, bytes_compare_eq, !Z.compare_eq_iff by done. tauto.
Qed.

(** The three ways a batch is observed. *)
Lemma effects_meta key version b m ops cur :
  effects key version b m ops -> key_ok key = true ->
  lookup_after kMetaCF (BaseKey_Encode key) b cur =
  match m with Some v => Some v | None => cur end.
Proof.
  intros H K. revert cur. induction H; intros cur; try apply IHeffects; [done|].
  unfold lookup_after in *. simpl. rewrite bytes_compare_refl, IHeffects. by destruct m.
Qed.

Lemma effects_data key version b m ops j cur :
  effects key version b m ops -> key_ok key = true -> is_u64 version -> is_u64 j ->
  lookup_after kListsDataCF (ListsDataKey_Encode key version j) b cur = assign ops j cur.
Proof.
  intros H K V J. revert cur.
  induction H as [|k i v b m ops Hi E H IH|k i b m ops Hi E H IH|v b m ops H IH]; intros cur;
    unfold lookup_after, assign in *; simpl; rewrite ?IH; try done;
    pose proof (Eq_encoded k key version i key version j K K V Hi V J E) as HE; f_equal;
    destruct (Z.eqb_spec i j) as [->|N];
    destruct (ListsDataKeyCompare (ListsDataKey_Encode key version j) k); try done; exfalso;
    try (assert (Eq = Eq) as X by done); intuition congruence.
Qed.

Lemma effects_meta_other key version b m ops k cur :
  effects key version b m ops -> key_ok key = true -> key_ok k = true -> k <> key ->
  lookup_after kMetaCF (BaseKey_Encode k) b cur = cur.
Proof.
  intros H K K' N. revert cur. induction H; intros cur; try apply IHeffects; [done|].
  unfold lookup_after in *. simpl. pose proof (BaseKey_eq k key K K') as E.
  destruct (bytes_compare (BaseKey_Encode k) (BaseKey_Encode key)); [|apply IHeffects..].
  exfalso. tauto.
Qed.

Lemma effects_data_other key version b m ops k v i cur :
  effects key version b m ops -> key_ok key = true -> is_u64 version ->
  key_ok k = true -> k <> key -> is_u64 v -> is_u64 i ->
  lookup_after kListsDataCF (ListsDataKey_Encode k v i) b cur = cur.
Proof.
  intros H K V K' N V' I'. revert cur.
  induction H as [|k0 i0 v0 b m ops Hi E H IH|k0 i0 b m ops Hi E H IH|v0 b m ops H IH]; intros cur;
    unfold lookup_after in *; simpl; rewrite ?IH; try done;
    pose proof (Eq_encoded k0 key version i0 k v i K K' V Hi V' I' E) as HE;
    destruct (ListsDataKeyCompare (ListsDataKey_Encode k v i) k0); try done; tauto.
Qed.

Lemma effects_cf_other key version b m ops cf k cur :
  effects key version b m ops -> cf <> kMetaCF -> cf <> kListsDataCF ->
  lookup_after cf k b cur = cur.
Proof.
  intros H N1 N2. revert cur. induction H; intros cur; [done|..];
    unfold lookup_after in *; simpl; rewrite decide_False by congruence; apply IHeffects.
Qed.

(** Writing a batch on one list. *)
Lemma Write_effects key version b m ops r :
  effects key version b m ops -> key_ok key = true -> is_u64 version -> healthy (db_ r) ->
  exists db', Write b r = Some (Status_OK, with_db r db') /\ healthy db' /\
    meta_of db' key = match m with Some v => Some v | None => meta_of (db_ r) key end /\
    (forall j, is_u64 j -> data_of db' key version j = assign ops j (data_of (db_ r) key version j)) /\
    others_same key (db_ r) db'.
Proof.
  intros H K V Hdb. destruct (Write_lookup (db_ r) b Hdb) as (db' & HW & Hdb' & HL).
  exists db'. unfold Write. rewrite HW. split; [done|]. split; [done|].
  unfold meta_of, data_of, others_same. split_and!.
  - rewrite HL by done. by eapply effects_meta.
  - intros j J. rewrite HL by done. by eapply effects_data.
  - intros k K' N. unfold meta_of. rewrite HL by done. by eapply effects_meta_other.
  - intros k v i K' N V' I'. unfold data_of. rewrite HL by done. by eapply effects_data_other.
  - intros cf k N1 N2 N3. rewrite HL by done. by eapply effects_cf_other.
Qed.

(** ** Lists in the database *)

(** The elements [vals] (as stored) of the list whose meta value parses to [p]. *)
Record list_at (db : DB) (now : Z) (key : bytes) (p : ParsedListsMetaValue) (vals : list bytes)
    : Prop := {
  la_meta : meta_of db key = Some (piv_data (plm_base p));
  la_coherent : lists_meta_coherent p;
  la_type : piv_type (plm_base p) = Some kLists;
  la_live : IsStale now (plm_base p) = false;
  la_some : vals <> [];
  la_count : plm_count p = Z.of_nat (length vals);
  la_right : plm_right_index p = plm_left_index p + 1 + Z.of_nat (length vals);
  la_data : forall i v, vals !! i = Some v ->
    data_of db key (piv_version (plm_base p)) (plm_left_index p + 1 + Z.of_nat i) = Some v;
  la_values : Forall (fun v => (24 <= length v)%nat) vals
}.

(** No list under [key]: nothing, a stale value of another type, or a list meta
    value that has expired or counts no elements. *)
Inductive vacant (db : DB) (now : Z) (key : bytes) : Prop :=
  | vacant_absent : meta_of db key = None -> vacant db now key
  | vacant_other mv : meta_of db key = Some mv -> GetMetaValueType mv <> kLists ->
      ExpectedStale now mv = Some true -> vacant db now key
  | vacant_list p : meta_of db key = Some (piv_data (plm_base p)) -> lists_meta_coherent p ->
      piv_type (plm_base p) = Some kLists ->
      IsStale now (plm_base p) || (plm_count p =? 0) = true -> vacant db now key.

(** [key] holds the list [l], which expires at [etime] (0: never). *)
Definition holds (db : DB) (now : Z) (key : bytes) (l : list bytes) (etime : Z) : Prop :=
  match l with
  | [] => vacant db now key
  | _ => exists p vals, list_at db now key p vals /\ user_value <$> vals = l /\
           piv_etime (plm_base p) = etime
  end.

(** Indices of a coherent meta value are 64-bit. *)
Lemma coherent_ranges p :
  lists_meta_coherent p ->
  is_u64 (plm_count p) /\ is_u64 (plm_left_index p) /\ is_u64 (plm_right_index p) /\
  is_u64 (piv_version (plm_base p)).
Proof.
  intros (L0 & HL & ->)%lists_meta_coherent_object. unfold lists_meta_object. simpl.
  split_and!; apply DecodeFixed64_range.
Qed.

Lemma coherent_type p :
  lists_meta_coherent p -> piv_type (plm_base p) = Some (GetMetaValueType (piv_data (plm_base p))).
Proof.
  intros (L0 & HL & ->)%lists_meta_coherent_object. unfold lists_meta_sizes in HL. chunk_hyp HL.
  unfold lists_meta_object, GetMetaValueType. simpl. destruct c as [|t c]; [done|]. done.
Qed.

(** ** How commands start *)

Lemma list_at_type db now key p vals :
  list_at db now key p vals -> GetMetaValueType (piv_data (plm_base p)) = kLists.
Proof.
  intros H. pose proof (coherent_type p (la_coherent _ _ _ _ _ H)) as E.
  rewrite (la_type _ _ _ _ _ H) in E. by injection E.
Qed.

Lemma list_at_parse db now key p vals :
  list_at db now key p vals -> ParsedListsMetaValue_parse true (piv_data (plm_base p)) = Some p.
Proof. intros H. by destruct (la_coherent _ _ _ _ _ H) as (_ & _ & ?). Qed.

Lemma list_at_not_vacant db now key p vals :
  list_at db now key p vals -> lists_vacant now p = None.
Proof.
  intros H. unfold lists_vacant. rewrite (la_live _ _ _ _ _ H), (la_count _ _ _ _ _ H).
  pose proof (la_some _ _ _ _ _ H). destruct vals; [done|]. simpl length.
  destruct (Z.eqb_spec (Z.of_nat (S (length vals))) 0); [lia|done].
Qed.

(** A live list is read whole. *)
Lemma GetList_live now key named p vals r :
  healthy (db_ r) -> list_at (db_ r) now key p vals ->
  GetList now key named r = Some (inr p, r).
Proof.
  intros Hdb H. unfold GetList, bind.
  rewrite (GetMeta_typed now kLists key named _ r Hdb (la_meta _ _ _ _ _ H))
    by (by eapply list_at_type).
  unfold lift. simpl. rewrite (list_at_parse _ _ _ _ _ H).
  by rewrite (list_at_not_vacant _ _ _ _ _ H).
Qed.

Lemma bind_GetList {A} now key named p vals r (f : Status + ParsedListsMetaValue -> M A) :
  healthy (db_ r) -> list_at (db_ r) now key p vals ->
  bind (GetList now key named) f r = f (inr p) r.
Proof. intros Hdb H. unfold bind at 1. by rewrite (GetList_live now key named p vals r Hdb H). Qed.

(** What the meta read of a vacant key gives: not found, or a list meta value
    that is stale or empty. *)
Lemma GetMeta_vacant now key named r :
  healthy (db_ r) -> vacant (db_ r) now key ->
  (exists mv, GetMeta now kLists key named r = Some (inr (Status_NotFound [], mv), r)) \/
  (exists p, GetMeta now kLists key named r = Some (inr (Status_OK, piv_data (plm_base p)), r) /\
     meta_of (db_ r) key = Some (piv_data (plm_base p)) /\
     lists_meta_coherent p /\ piv_type (plm_base p) = Some kLists /\
     IsStale now (plm_base p) || (plm_count p =? 0) = true).
Proof.
  intros Hdb [Hm|mv Hm Ht Hs|p Hm Hc Ht Hs].
  - left. unfold GetMeta, GetMetaOr. rewrite Get_lookup by done. unfold meta_of in Hm. rewrite Hm. by eexists.
  - left. unfold GetMeta, GetMetaOr. rewrite Get_lookup by done. unfold meta_of in Hm. rewrite Hm.
    unfold ExpectedMetaValue. rewrite bool_decide_eq_false_2 by congruence. simpl.
    rewrite Hs. by eexists.
  - right. exists p. split; [|done]. apply GetMeta_typed; [done..|].
    pose proof (coherent_type p Hc) as E. rewrite Ht in E. by injection E.
Qed.

Lemma GetList_vacant now key named r :
  healthy (db_ r) -> vacant (db_ r) now key ->
  exists st, GetList now key named r = Some (inl st, r) /\ status_code st = kNotFound.
Proof.
  intros Hdb Hv. unfold GetList, bind.
  destruct (GetMeta_vacant now key named r Hdb Hv) as [(mv & ->)|(p & -> & _ & Hc & Ht & Hs)].
  - by eexists.
  - unfold lift. simpl. destruct Hc as (_ & _ & ->). unfold lists_vacant.
    destruct (IsStale now (plm_base p)); [by eexists|]. simpl in Hs. rewrite Hs. by eexists.
Qed.

(** ** Lists under construction *)

(** [p] and the assignments [ops] describe the elements [vals], over the data
    [D] of the version. *)
Record pending (D : Z -> option bytes) (p : ParsedListsMetaValue) (ops : list (Z * option bytes))
    (vals : list bytes) : Prop := {
  pe_coherent : lists_meta_coherent p;
  pe_type : piv_type (plm_base p) = Some kLists;
  pe_count : plm_count p = Z.of_nat (length vals);
  pe_right : plm_right_index p = plm_left_index p + 1 + Z.of_nat (length vals);
  pe_data : forall i v, vals !! i = Some v ->
    let j := plm_left_index p + 1 + Z.of_nat i in assign ops j (D j) = Some v;
  pe_values : Forall (fun v => (24 <= length v)%nat) vals
}.

Lemma assign_app o1 o2 j cur : assign (o1 ++ o2) j cur = assign o2 j (assign o1 j cur).
Proof. unfold assign. by rewrite fold_left_app. Qed.

Lemma assign_snoc ops i o j cur :
  assign (ops ++ [(i, o)]) j cur = if Z.eqb i j then o else assign ops j cur.
Proof. by rewrite assign_app. Qed.

Lemma list_at_pending db now key p vals :
  list_at db now key p vals ->
  pending (data_of db key (piv_version (plm_base p))) p [] vals.
Proof. intros []. constructor; try done. Qed.

Lemma pending_u64 D p ops vals i :
  pending D p ops vals -> (i < length vals)%nat -> is_u64 (plm_left_index p + 1 + Z.of_nat i).
Proof.
  intros H Hi. destruct (coherent_ranges p (pe_coherent _ _ _ _ H)) as (_ & Hl & Hr & _).
  rewrite (pe_right _ _ _ _ H) in Hr. unfold is_u64 in *. lia.
Qed.

Lemma data_value_length now v : (24 <= length (data_value now v))%nat.
Proof.
  unfold data_value. rewrite BaseDataValue_Encode_fields, length_chunks. cbn [map].
  rewrite length_EncodeFixed64. simpl. lia.
Qed.

Lemma user_value_data_value now v : user_value (data_value now v) = v.
Proof.
  unfold user_value, data_value. rewrite BaseDataValue_Encode_fields.
  rewrite data_value_parse by (done || by rewrite length_EncodeFixed64).
  unfold UserValue. cbn [piv_user piv_data fst snd]. apply (subseq_chunk 0); simpl; [lia|done|done].
Qed.

(** An element put at the free index of either end. *)
Lemma pending_cons D p p' ops vals v :
  pending D p ops vals -> lists_meta_coherent p' -> piv_type (plm_base p') = Some kLists ->
  plm_count p' = u64 (plm_count p + 1) -> plm_left_index p' = u64 (plm_left_index p - 1) ->
  plm_right_index p' = plm_right_index p -> 1 <= plm_left_index p -> (24 <= length v)%nat ->
  pending D p' (ops ++ [(plm_left_index p, Some v)]) (v :: vals).
Proof.
  intros [Hcoh Ht Hcnt Hright Hdata Hvals] Hc' Ht' Ec El Er Hl Hv.
  destruct (coherent_ranges p Hcoh) as (Hc & Hl' & Hr & _).
  rewrite u64_id in El by (unfold is_u64 in *; lia). rewrite u64_id in Ec by (unfold is_u64 in *; lia).
  constructor; try done.
  - rewrite Ec, Hcnt. simpl. lia.
  - rewrite Er, El, Hright. simpl. lia.
  - rewrite El. intros [|i] v' Hi; simpl in Hi; cbv zeta; rewrite assign_snoc.
    + replace (plm_left_index p - 1 + 1 + Z.of_nat 0) with (plm_left_index p) by lia.
      rewrite Z.eqb_refl. by injection Hi as <-.
    + replace (plm_left_index p - 1 + 1 + Z.of_nat (S i)) with (plm_left_index p + 1 + Z.of_nat i) by lia.
      destruct (Z.eqb_spec (plm_left_index p) (plm_left_index p + 1 + Z.of_nat i)); [lia|by apply Hdata].
  - by constructor.
Qed.

Lemma pending_app D p p' ops vals v :
  pending D p ops vals -> lists_meta_coherent p' -> piv_type (plm_base p') = Some kLists ->
  plm_count p' = u64 (plm_count p + 1) -> plm_right_index p' = u64 (plm_right_index p + 1) ->
  plm_left_index p' = plm_left_index p -> plm_right_index p + 1 < 2 ^ 64 -> (24 <= length v)%nat ->
  pending D p' (ops ++ [(plm_right_index p, Some v)]) (vals ++ [v]).
Proof.
  intros [Hcoh Ht Hcnt Hright Hdata Hvals] Hc' Ht' Ec Er El Hr' Hv.
  destruct (coherent_ranges p Hcoh) as (Hc & Hl' & Hr & _).
  rewrite u64_id in Er by (unfold is_u64 in *; lia). rewrite u64_id in Ec by (unfold is_u64 in *; lia).
  constructor; try done.
  - rewrite Ec, Hcnt, length_app. simpl. lia.
  - rewrite Er, El, Hright, length_app. simpl. lia.
  - rewrite El. intros i v' Hi. cbv zeta. rewrite assign_snoc.
    apply lookup_app_Some in Hi as [Hi|[Hi' Hi]].
    + pose proof (lookup_lt_Some _ _ _ Hi).
      destruct (Z.eqb_spec (plm_right_index p) (plm_left_index p + 1 + Z.of_nat i)); [lia|by apply Hdata].
    + apply list_lookup_singleton_Some in Hi as [Hi'' <-].
      destruct (Z.eqb_spec (plm_right_index p) (plm_left_index p + 1 + Z.of_nat i)); [done|lia].
  - apply Forall_app. split; [done|]. by constructor.
Qed.

(** What one step of a push loop does; the commands differ in the
    order of the updates of the meta value. *)
Definition pushes_left (now : Z) (key : bytes) (version : Z)
    (step : ParsedListsMetaValue * list WriteOp -> bytes -> ParsedListsMetaValue * list WriteOp) :=
  forall p batch value,
  let '(p', batch') := step (p, batch) value in
  batch' = batch ++ [put_data key version (plm_left_index p) (data_value now value)] /\
  (lists_meta_coherent p -> lists_meta_coherent p') /\
  piv_type (plm_base p') = piv_type (plm_base p) /\
  plm_count p' = u64 (plm_count p + 1) /\ plm_left_index p' = u64 (plm_left_index p - 1) /\
  plm_right_index p' = plm_right_index p /\
  piv_version (plm_base p') = piv_version (plm_base p) /\
  piv_etime (plm_base p') = piv_etime (plm_base p).

Definition pushes_right (now : Z) (key : bytes) (version : Z)
    (step : ParsedListsMetaValue * list WriteOp -> bytes -> ParsedListsMetaValue * list WriteOp) :=
  forall p batch value,
  let '(p', batch') := step (p, batch) value in
  batch' = batch ++ [put_data key version (plm_right_index p) (data_value now value)] /\
  (lists_meta_coherent p -> lists_meta_coherent p') /\
  piv_type (plm_base p') = piv_type (plm_base p) /\
  plm_count p' = u64 (plm_count p + 1) /\ plm_right_index p' = u64 (plm_right_index p + 1) /\
  plm_left_index p' = plm_left_index p /\
  piv_version (plm_base p') = piv_version (plm_base p) /\
  piv_etime (plm_base p') = piv_etime (plm_base p).

Lemma push_left_pushes now key version : pushes_left now key version (push_left now key version).
Proof.
  intros p batch value. unfold push_left. split_and!; try done. intros Hc.
  unfold ParsedListsMetaValue_ModifyLeftIndex, ParsedListsMetaValue_ModifyCount. auto with coherent.
Qed.

Lemma push_right_pushes now key version : pushes_right now key version (push_right now key version).
Proof.
  intros p batch value. unfold push_right. split_and!; try done. intros Hc.
  unfold ParsedListsMetaValue_ModifyRightIndex, ParsedListsMetaValue_ModifyCount. auto with coherent.
Qed.

Lemma effects_put_data key version i v :
  is_u64 i -> effects key version [put_data key version i v] None [(i, Some v)].
Proof. intros Hi. constructor; [done|apply cmp_refl|constructor]. Qed.

Lemma effects_snoc key version b m ops i v :
  effects key version b m ops -> is_u64 i ->
  effects key version (b ++ [put_data key version i v]) m (ops ++ [(i, Some v)]).
Proof. intros H Hi. by apply (effects_app _ _ _ _ _ _ None _ H), effects_put_data. Qed.

Lemma push_left_fold D now key version step values :
  pushes_left now key version step -> forall p ops vals batch,
  pending D p ops vals -> effects key version batch None ops ->
  Z.of_nat (length values) <= plm_left_index p ->
  let '(p', batch') := fold_left step values (p, batch) in
  exists ops', effects key version batch' None ops' /\
    pending D p' ops' ((data_value now <$> rev values) ++ vals) /\
    piv_version (plm_base p') = piv_version (plm_base p) /\
    piv_etime (plm_base p') = piv_etime (plm_base p).
Proof.
  intros Hstep.
  induction values as [|v values IH]; intros p ops vals batch Hp He Hl; cbn [fold_left].
  - exists ops. done.
  - simpl length in Hl. pose proof (Hstep p batch v) as H1.
    destruct (step (p, batch) v) as [p1 batch1].
    destruct H1 as (-> & Hc1 & Ht1 & Hn1 & Hl1 & Hr1 & Hv1 & He1).
    destruct (coherent_ranges p (pe_coherent _ _ _ _ Hp)) as (_ & Hl' & _ & _).
    pose proof (pending_cons D p p1 ops vals (data_value now v) Hp (Hc1 (pe_coherent _ _ _ _ Hp))
      ltac:(rewrite Ht1; apply Hp) Hn1 Hl1 Hr1 ltac:(lia) (data_value_length now v)) as Hp1.
    specialize (IH p1 _ _ _ Hp1 ltac:(by apply effects_snoc)
      ltac:(rewrite Hl1, u64_id; unfold is_u64 in *; lia)).
    destruct (fold_left _ _ _) as [p' batch']. destruct IH as (ops' & E1 & E2 & E3 & E4).
    exists ops'. rewrite E3, E4. split_and!; [done| |done..].
    simpl rev. by rewrite fmap_app, <- app_assoc.
Qed.

Lemma push_right_fold D now key version step values :
  pushes_right now key version step -> forall p ops vals batch,
  pending D p ops vals -> effects key version batch None ops ->
  plm_right_index p + Z.of_nat (length values) < 2 ^ 64 ->
  let '(p', batch') := fold_left step values (p, batch) in
  exists ops', effects key version batch' None ops' /\
    pending D p' ops' (vals ++ (data_value now <$> values)) /\
    piv_version (plm_base p') = piv_version (plm_base p) /\
    piv_etime (plm_base p') = piv_etime (plm_base p).
Proof.
  intros Hstep.
  induction values as [|v values IH]; intros p ops vals batch Hp He Hl; cbn [fold_left].
  - exists ops. simpl. by rewrite app_nil_r.
  - simpl length in Hl. pose proof (Hstep p batch v) as H1.
    destruct (step (p, batch) v) as [p1 batch1].
    destruct H1 as (-> & Hc1 & Ht1 & Hn1 & Hr1 & Hl1 & Hv1 & He1).
    destruct (coherent_ranges p (pe_coherent _ _ _ _ Hp)) as (_ & _ & Hr' & _).
    pose proof (pending_app D p p1 ops vals (data_value now v) Hp (Hc1 (pe_coherent _ _ _ _ Hp))
      ltac:(rewrite Ht1; apply Hp) Hn1 Hr1 Hl1 ltac:(lia) (data_value_length now v)) as Hp1.
    specialize (IH p1 _ _ _ Hp1 ltac:(by apply effects_snoc)
      ltac:(rewrite Hr1, u64_id; unfold is_u64 in *; lia)).
    destruct (fold_left _ _ _) as [p' batch']. destruct IH as (ops' & E1 & E2 & E3 & E4).
    exists ops'. rewrite E3, E4. split_and!; [done| |done..].
    by rewrite <- app_assoc in E2.
Qed.

(** Writing what is pending. *)
Lemma write_holds now key b ops p vals r :
  let version := piv_version (plm_base p) in
  key_ok key = true -> healthy (db_ r) ->
  effects key version b (Some (piv_data (plm_base p))) ops ->
  pending (data_of (db_ r) key version) p ops vals -> IsStale now (plm_base p) = false ->
  exists db', Write b r = Some (Status_OK, with_db r db') /\ healthy db' /\
    holds db' now key (user_value <$> vals) (piv_etime (plm_base p)) /\
    others_same key (db_ r) db'.
Proof.
  intros version K Hdb He Hp Hs.
  destruct (coherent_ranges p (pe_coherent _ _ _ _ Hp)) as (_ & _ & _ & Hv).
  destruct (Write_effects key version b _ ops r He K Hv Hdb) as (db' & HW & Hdb' & Hm & Hd & Ho).
  exists db'. split_and!; [done..| |done].
  assert (Hlist : vals <> [] -> list_at db' now key p vals).
  { intros Hne. destruct Hp as [Hcoh Ht Hcnt Hright Hdata Hvals]. constructor; try done.
    intros i v Hi. fold version. rewrite Hd; [by apply Hdata|].
    apply (pending_u64 (data_of (db_ r) key version) p ops vals); [by constructor|].
    by eapply lookup_lt_Some. }
  destruct vals as [|v vals]; simpl.
  - destruct Hp as [Hcoh Ht Hcnt _ _ _]. apply (vacant_list _ _ _ p); [done..|].
    rewrite Hcnt. simpl. apply orb_true_r.
  - exists p, (v :: vals). split; [by apply Hlist|done].
Qed.

(** ** Pushing *)

(** The indices stay inside 64 bits when [n] elements are added at either end. *)
Definition room (db : DB) (key : bytes) (n : Z) : Prop :=
  n < 2 ^ 62 /\
  forall p, meta_of db key = Some (piv_data (plm_base p)) -> lists_meta_coherent p ->
    piv_type (plm_base p) = Some kLists ->
    n <= plm_left_index p /\ plm_right_index p + n < 2 ^ 64.

Lemma InitialMetaValue_pending D now p :
  is_u64 now -> lists_meta_coherent p -> piv_type (plm_base p) = Some kLists ->
  let q := ParsedListsMetaValue_InitialMetaValue now p in
  pending D q [] [] /\ IsStale now (plm_base q) = false /\ piv_etime (plm_base q) = 0 /\
  plm_left_index q = InitalLeftIndex /\ plm_right_index q = InitalRightIndex.
Proof.
  intros Hnow Hp Ht q. split_and!; try done.
  constructor; try done. by apply lists_InitialMetaValue_coherent.
Qed.

(** The expiry of a list after a push: a new list never expires. *)
Definition pushed_etime (l : list bytes) (etime : Z) : Z :=
  match l with [] => 0 | _ => etime end.

(** The meta value a push starts from, when there is one. *)
Lemma push_start now key l e n r :
  healthy (db_ r) -> is_u64 now -> holds (db_ r) now key l e -> room (db_ r) key n ->
  (exists mv, l = [] /\ GetMeta now kLists key key r = Some (inr (Status_NotFound [], mv), r)) \/
  (exists p0 vals,
     GetMeta now kLists key key r = Some (inr (Status_OK, piv_data (plm_base p0)), r) /\
     ParsedListsMetaValue_parse true (piv_data (plm_base p0)) = Some p0 /\
     let p := revive now p0 in
     pending (data_of (db_ r) key (piv_version (plm_base p))) p [] vals /\
     user_value <$> vals = l /\ IsStale now (plm_base p) = false /\
     piv_etime (plm_base p) = pushed_etime l e /\
     n <= plm_left_index p /\ plm_right_index p + n < 2 ^ 64).
Proof.
  intros Hdb Hnow Hh [Hn Hroom]. destruct l as [|x l].
  - destruct (GetMeta_vacant now key key r Hdb Hh) as [(mv & Hg)|(p0 & Hg & Hm & Hc & Ht & Hs)].
    + left. by exists mv.
    + right. exists p0, []. split; [done|]. split; [by apply Hc|]. unfold revive. rewrite Hs.
      destruct (InitialMetaValue_pending
        (data_of (db_ r) key (piv_version (plm_base (ParsedListsMetaValue_InitialMetaValue now p0))))
        now p0 Hnow Hc Ht) as (H1 & H2 & H3 & H4 & H5).
      cbv zeta. rewrite H4, H5. split_and!; try done; unfold InitalLeftIndex, InitalRightIndex; lia.
  - destruct Hh as (p0 & vals & Hl & Hu & He). right. exists p0, vals.
    split; [apply GetMeta_typed; [done|by apply Hl|by eapply list_at_type]|].
    split; [by eapply list_at_parse|].
    assert (E : revive now p0 = p0).
    { unfold revive. pose proof (list_at_not_vacant _ _ _ _ _ Hl) as Hv. unfold lists_vacant in Hv.
      rewrite (la_live _ _ _ _ _ Hl) in Hv |- *. simpl. by destruct (plm_count p0 =? 0). }
    rewrite E. cbv zeta. split_and!; try done.
    + by eapply list_at_pending.
    + by eapply la_live.
    + by apply Hroom; [apply Hl|eapply la_coherent|eapply la_type].
    + by apply Hroom; [apply Hl|eapply la_coherent|eapply la_type].
Qed.

(** The meta value of a new list, under construction. *)
Record pending_new (D : Z -> option bytes) (now : Z) (n : nat) (m : ListsMetaValue)
    (ops : list (Z * option bytes)) (vals : list bytes) : Prop := {
  pn_base : lmv_base m = lmv_base (new_list_meta now (Z.of_nat n));
  pn_left : is_u64 (lmv_left_index m);
  pn_right : is_u64 (lmv_right_index m);
  pn_span : lmv_right_index m = lmv_left_index m + 1 + Z.of_nat (length vals);
  pn_data : forall i v, vals !! i = Some v ->
    let j := lmv_left_index m + 1 + Z.of_nat i in assign ops j (D j) = Some v;
  pn_values : Forall (fun v => (24 <= length v)%nat) vals
}.

Lemma pending_new_start D now n :
  pending_new D now n (new_list_meta now (Z.of_nat n)) [] [].
Proof. constructor; try done; unfold is_u64; simpl; lia. Qed.

Lemma pending_new_cons D now n m ops vals v :
  pending_new D now n m ops vals -> 1 <= lmv_left_index m -> (24 <= length v)%nat ->
  let m' := ListsMetaValue_ModifyLeftIndex m 1 in
  pending_new D now n m' (ops ++ [(lmv_left_index m, Some v)]) (v :: vals) /\
  lmv_left_index m' = lmv_left_index m - 1.
Proof.
  intros [Hb Hl Hr Hs Hd Hvals] Hlt Hv m'.
  assert (E : lmv_left_index m' = lmv_left_index m - 1) by (apply u64_id; unfold is_u64 in *; lia).
  split; [|done]. constructor; rewrite ?E; try done.
  - unfold is_u64 in *. lia.
  - simpl. rewrite Hs. lia.
  - intros [|i] w Hi; simpl in Hi; cbv zeta; rewrite assign_snoc.
    + replace (lmv_left_index m - 1 + 1 + Z.of_nat 0) with (lmv_left_index m) by lia.
      rewrite Z.eqb_refl. by injection Hi as <-.
    + replace (lmv_left_index m - 1 + 1 + Z.of_nat (S i)) with (lmv_left_index m + 1 + Z.of_nat i) by lia.
      destruct (Z.eqb_spec (lmv_left_index m) (lmv_left_index m + 1 + Z.of_nat i)); [lia|by apply Hd].
  - by constructor.
Qed.

Lemma push_left_new_step D now n key version m ops vals batch value :
  pending_new D now n m ops vals -> 1 <= lmv_left_index m ->
  let '(m', batch') := push_left_new now key version (m, batch) value in
  pending_new D now n m' (ops ++ [(lmv_left_index m, Some (data_value now value))])
    (data_value now value :: vals) /\
  lmv_left_index m' = lmv_left_index m - 1 /\
  batch' = batch ++ [put_data key version (lmv_left_index m) (data_value now value)].
Proof.
  intros Hp Hlt.
  by destruct (pending_new_cons D now n m ops vals (data_value now value) Hp Hlt (data_value_length _ _)).
Qed.

Lemma push_right_new_step D now n key version m ops vals batch value :
  pending_new D now n m ops vals -> lmv_right_index m + 1 < 2 ^ 64 ->
  let '(m', batch') := push_right_new now key version (m, batch) value in
  pending_new D now n m' (ops ++ [(lmv_right_index m, Some (data_value now value))])
    (vals ++ [data_value now value]) /\
  lmv_right_index m' = lmv_right_index m + 1 /\
  batch' = batch ++ [put_data key version (lmv_right_index m) (data_value now value)].
Proof.
  intros [Hb Hl Hr Hs Hd Hv] Hlt.
  assert (E : u64 (lmv_right_index m + 1) = lmv_right_index m + 1) by (apply u64_id; unfold is_u64 in *; lia).
  split_and!; [|done|done]. constructor; simpl; rewrite ?E; try done.
  - unfold is_u64 in *. lia.
  - rewrite Hs, length_app. simpl. lia.
  - intros i v Hi. rewrite assign_snoc. apply lookup_app_Some in Hi as [Hi|[Hi' Hi]].
    + pose proof (lookup_lt_Some _ _ _ Hi).
      destruct (Z.eqb_spec (lmv_right_index m) (lmv_left_index m + 1 + Z.of_nat i)); [lia|by apply Hd].
    + apply list_lookup_singleton_Some in Hi as [Hi'' <-].
      destruct (Z.eqb_spec (lmv_right_index m) (lmv_left_index m + 1 + Z.of_nat i)); [done|lia].
  - apply Forall_app. split; [done|]. constructor; [apply data_value_length|done].
Qed.

(** The milliseconds of a clock that has not reached 2^63. *)
(** A finished new list is what its encoding parses to. *)
Lemma pending_new_done D now m ops vals :
  clock_ok now -> pending_new D now (length vals) m ops vals ->
  exists p, piv_data (plm_base p) = ListsMetaValue_Encode m /\ pending D p ops vals /\
    piv_version (plm_base p) = iv_version (lmv_base m) /\ piv_etime (plm_base p) = 0.
Proof.
  intros Hnow [Hb Hl Hr Hs Hd Hv]. pose proof (ListsMetaValue_parse_Encode true m) as P.
  cbv zeta in P. rewrite Hb in P. cbn [new_list_meta] in P.
  assert (Hn : is_u64 (Z.of_nat (length vals))) by (unfold is_u64 in *; lia).
  specialize (P (length_EncodeFixed64 _) (next_version_u64 _ _ (clock_u64 _ Hnow)) Hl Hr Hnow ltac:(simpl; lia)).
  assert (Hlen : length (ListsMetaValue_Encode m) = 81%nat).
  { rewrite length_ListsMetaValue_Encode, Hb. cbn [new_list_meta]. simpl iv_user_value.
    by rewrite length_EncodeFixed64. }
  pose proof (coherent_of_parse _ _ Hlen P) as Hc.
  eexists. split; [|split; [constructor; [exact Hc|..]|]]; try done.
  - simpl. by rewrite DecodeFixed64_EncodeFixed64, u64_id.
  - by rewrite Hb.
Qed.

Lemma push_left_new_fold D now n key version values : forall m ops vals batch,
  pending_new D now n m ops vals -> effects key version batch None ops ->
  Z.of_nat (length values) <= lmv_left_index m ->
  let '(m', batch') := fold_left (push_left_new now key version) values (m, batch) in
  exists ops', effects key version batch' None ops' /\
    pending_new D now n m' ops' ((data_value now <$> rev values) ++ vals).
Proof.
  induction values as [|v values IH]; intros m ops vals batch Hp He Hl; cbn [fold_left].
  - exists ops. done.
  - simpl length in Hl.
    pose proof (push_left_new_step D now n key version m ops vals batch v Hp ltac:(lia)) as H1.
    destruct (push_left_new now key version (m, batch) v) as [m1 batch1].
    destruct H1 as (Hp1 & Hl1 & ->).
    specialize (IH m1 _ _ _ Hp1 ltac:(apply effects_snoc; [done|apply Hp]) ltac:(lia)).
    destruct (fold_left _ _ _) as [m' batch']. destruct IH as (ops' & E1 & E2).
    exists ops'. split; [done|]. simpl rev. by rewrite fmap_app, <- app_assoc.
Qed.

Lemma push_right_new_fold D now n key version values : forall m ops vals batch,
  pending_new D now n m ops vals -> effects key version batch None ops ->
  lmv_right_index m + Z.of_nat (length values) < 2 ^ 64 ->
  let '(m', batch') := fold_left (push_right_new now key version) values (m, batch) in
  exists ops', effects key version batch' None ops' /\
    pending_new D now n m' ops' (vals ++ (data_value now <$> values)).
Proof.
  induction values as [|v values IH]; intros m ops vals batch Hp He Hl; cbn [fold_left].
  - exists ops. simpl. by rewrite app_nil_r.
  - simpl length in Hl.
    pose proof (push_right_new_step D now n key version m ops vals batch v Hp ltac:(lia)) as H1.
    destruct (push_right_new now key version (m, batch) v) as [m1 batch1].
    destruct H1 as (Hp1 & Hl1 & ->).
    specialize (IH m1 _ _ _ Hp1 ltac:(apply effects_snoc; [done|apply Hp]) ltac:(lia)).
    destruct (fold_left _ _ _) as [m' batch']. destruct IH as (ops' & E1 & E2).
    exists ops'. split; [done|]. by rewrite <- app_assoc in E2.
Qed.

(** ** Outcomes *)

(** The engine can serve commands: the database is healthy and the statistics
    cache is well formed. *)
(** After a command [key] holds [l] and nothing else has changed. *)
Definition stores (now : Z) (key : bytes) (l : list bytes) (etime : Z) (r r' : Redis) : Prop :=
  engine_ok r' /\ holds (db_ r') now key l etime /\ others_same key (db_ r) (db_ r').

Lemma user_values now (l : list bytes) : user_value <$> (data_value now <$> l) = l.
Proof.
  rewrite <- list_fmap_compose. rewrite <- (list_fmap_id l) at 2. apply list_fmap_ext.
  intros i v _. apply user_value_data_value.
Qed.

(** A batch that ends with the meta value. *)
Lemma effects_then_meta key version b ops v :
  effects key version b None ops ->
  effects key version (b ++ [Put kMetaCF (BaseKey_Encode key) v]) (Some v) ops.
Proof.
  intros H. rewrite <- (app_nil_r ops).
  apply (effects_app _ _ _ _ _ _ (Some v) _ H). apply (eff_meta _ _ _ _ None), eff_nil.
Qed.

Lemma batch_stores now key b ops p vals l e r :
  let version := piv_version (plm_base p) in
  key_ok key = true -> engine_ok r ->
  effects key version b (Some (piv_data (plm_base p))) ops ->
  pending (data_of (db_ r) key version) p ops vals -> IsStale now (plm_base p) = false ->
  user_value <$> vals = l -> piv_etime (plm_base p) = e ->
  exists r', Write b r = Some (Status_OK, r') /\ stores now key l e r r'.
Proof.
  intros version K [Hdb Hst] He Hp Hs <- <-.
  destruct (write_holds now key b ops p vals r K Hdb He Hp Hs) as (db' & -> & Hdb' & Hh & Ho).
  exists (with_db r db'). split; [done|]. by split.
Qed.

Lemma write_stores now key b ops p vals l e r :
  let version := piv_version (plm_base p) in
  key_ok key = true -> engine_ok r -> effects key version b None ops ->
  pending (data_of (db_ r) key version) p ops vals -> IsStale now (plm_base p) = false ->
  user_value <$> vals = l -> piv_etime (plm_base p) = e ->
  exists r', Write (b ++ [put_meta key p]) r = Some (Status_OK, r') /\ stores now key l e r r'.
Proof.
  intros version K He HE Hp Hs Hu Het. eapply batch_stores; try done. by apply effects_then_meta.
Qed.

Lemma IsStale_kept now p q :
  piv_etime (plm_base p) = piv_etime (plm_base q) ->
  IsStale now (plm_base p) = IsStale now (plm_base q).
Proof. unfold IsStale. by intros ->. Qed.

(** ** Loops over the elements of a list *)

(** [it] stands on the elements [vals], at index [j] and on, when moved by
    [move]; [step] is 1 or -1. *)
Inductive visits (db : DB) (key : bytes) (version : Z) (move : Iterator -> Iterator) (step : Z)
    : Z -> Iterator -> list bytes -> Prop :=
  | visits_nil j it : visits db key version move step j it []
  | visits_cons j it v vs :
      iter_on db kListsDataCF it (ListsDataKey_Encode key version j) v ->
      visits db key version move step (j + step) (move it) vs ->
      visits db key version move step j it (v :: vs).

(** Rule for a loop that stops at the last element or before: the invariant
    speaks of the elements still ahead. *)
Lemma iter_for_rule {S : Type} (Inv : list bytes -> Z -> S -> Prop)
    db key version move step cond (body : Iterator -> S -> S) j it vals :
  visits db key version move step j it vals ->
  (forall j it v vs st, iter_on db kListsDataCF it (ListsDataKey_Encode key version j) v ->
     cond st = true -> Inv (v :: vs) j st -> Inv vs (j + step) (body it st)) ->
  (forall j st, Inv [] j st -> cond st = false) ->
  forall fuel st, (length vals < fuel)%nat -> Inv vals j st ->
  exists st' vs' j', iter_for fuel move cond body it st = Some st' /\
    Inv vs' j' st' /\ cond st' = false.
Proof.
  intros Hv Hbody Hend. induction Hv as [j it|j it v vs Hon Hv IH]; intros fuel st Hf HI.
  - destruct fuel as [|fuel]; [simpl in Hf; lia|]. simpl.
    pose proof (Hend j st HI) as Hc. rewrite Hc, andb_false_r. eauto 6.
  - destruct fuel as [|fuel]; [simpl in Hf; lia|]. simpl.
    destruct (iter_on_valid _ _ _ _ _ Hon) as [-> _]. simpl.
    destruct (cond st) eqn:Hc; [|eauto 6].
    apply IH; [simpl in Hf; lia|]. eauto.
Qed.

Lemma ListsDataKey_adjacent key version j :
  key_ok key = true -> is_u64 version -> is_u64 j -> is_u64 (j + 1) ->
  adjacent ListsDataKeyCompare (ListsDataKey_Encode key version j)
    (ListsDataKey_Encode key version (j + 1)).
Proof.
  intros K V J J1. split.
  - rewrite ListsDataKey_compare, bytes_compare_refl, Z.compare_refl by done. simpl.
    apply Z.compare_lt_iff. lia.
  - intros c. by apply ListsDataKey_no_between.
Qed.

Section Visits.
Context (db : DB) (key : bytes) (version : Z).
Hypotheses (Hdb : healthy db) (K : key_ok key = true) (V : is_u64 version).

Lemma visits_next vals : forall j it v,
  iter_on db kListsDataCF it (ListsDataKey_Encode key version j) v ->
  (forall i w, (v :: vals) !! i = Some w -> is_u64 (j + Z.of_nat i) /\
     data_of db key version (j + Z.of_nat i) = Some w) ->
  visits db key version Next 1 j it (v :: vals).
Proof.
  induction vals as [|w vals IH]; intros j it v Hon Hd; constructor; try done; [constructor|].
  destruct (Hd 0%nat v eq_refl) as [J _]. destruct (Hd 1%nat w eq_refl) as [J1 D1].
  change (Z.of_nat 1) with 1 in *. rewrite Z.add_0_r in J. apply IH.
  - eapply (Next_on _ _ _ _ _ _ _ Hdb); [done|exact Hon|by apply ListsDataKey_adjacent|done].
  - intros i u Hi. replace (j + 1 + Z.of_nat i) with (j + Z.of_nat (S i)) by lia. by apply Hd.
Qed.

Lemma visits_prev vals : forall j it v,
  iter_on db kListsDataCF it (ListsDataKey_Encode key version j) v ->
  (forall i w, (v :: vals) !! i = Some w -> is_u64 (j - Z.of_nat i) /\
     data_of db key version (j - Z.of_nat i) = Some w) ->
  visits db key version Prev (-1) j it (v :: vals).
Proof.
  induction vals as [|w vals IH]; intros j it v Hon Hd; constructor; try done; [constructor|].
  destruct (Hd 0%nat v eq_refl) as [J _]. destruct (Hd 1%nat w eq_refl) as [J1 D1].
  change (Z.of_nat 1) with 1 in *. change (Z.of_nat 0) with 0 in J. rewrite Z.sub_0_r in J. apply IH.
  - eapply (Prev_on _ _ _ _ _ _ _ Hdb); [done|exact Hon| |done].
    replace j with (j + -1 + 1) at 2 by lia. apply ListsDataKey_adjacent; try done.
    by replace (j + -1 + 1) with j by lia.
  - intros i u Hi. replace (j + -1 - Z.of_nat i) with (j - Z.of_nat (S i)) by lia. by apply Hd.
Qed.

(** Seeking to the first element visits them all in order. *)
Lemma Seek_visits vals j :
  (forall i w, vals !! i = Some w -> is_u64 (j + Z.of_nat i) /\
     data_of db key version (j + Z.of_nat i) = Some w) ->
  visits db key version Next 1 j
    (Seek (NewIterator db kListsDataCF) (ListsDataKey_Encode key version j)) vals.
Proof.
  intros Hd. destruct vals as [|v vals]; [constructor|]. apply visits_next; [|done].
  apply Seek_on; [done|done|]. destruct (Hd 0%nat v eq_refl) as [_ H]. by rewrite Z.add_0_r in H.
Qed.

Lemma SeekForPrev_visits vals j :
  (forall i w, vals !! i = Some w -> is_u64 (j - Z.of_nat i) /\
     data_of db key version (j - Z.of_nat i) = Some w) ->
  visits db key version Prev (-1) j
    (SeekForPrev (NewIterator db kListsDataCF) (ListsDataKey_Encode key version j)) vals.
Proof.
  intros Hd. destruct vals as [|v vals]; [constructor|]. apply visits_prev; [|done].
  apply SeekForPrev_on; [done|done|]. destruct (Hd 0%nat v eq_refl) as [_ H]. by rewrite Z.sub_0_r in H.
Qed.

End Visits.

End ListSpec.
