(* ===== verification/ListSample.v ===== *)
(** * Concrete states

    An engine over the sorted-list database with one list in it, obtained by
    running the commands.  The theorems about list commands are applied to
    these states. *)

From S2P Require Import Prelude Coding KeyFormat Comparator ValueFormat RocksDB LruCache Redis KeySpace Sample Lists ListSpec.
Open Scope Z_scope.

(** The two families list commands write, as a database. *)
Definition list_db (meta data : list entry) : DB :=
  fun cf => match cf with kMetaCF => meta | kListsDataCF => data | _ => [] end.
Definition engine_of (meta data : list entry) : Redis := with_db fresh_engine (list_db meta data).

(** [RPUSH q a b a] on the fresh engine, at millisecond 1000. *)
Definition sample_meta_cf : list entry := Eval vm_compute in
  db_ (after (RPush 1000 q_key [lit "a"; lit "b"; lit "a"]) fresh_engine) kMetaCF.
Definition sample_data_cf : list entry := Eval vm_compute in
  db_ (after (RPush 1000 q_key [lit "a"; lit "b"; lit "a"]) fresh_engine) kListsDataCF.
Definition sample_engine : Redis := engine_of sample_meta_cf sample_data_cf.

(** The same after [LPOP q 1]. *)
Definition popped_meta_cf : list entry := Eval vm_compute in
  db_ (after (LPop 1000 q_key 1) sample_engine) kMetaCF.
Definition popped_data_cf : list entry := Eval vm_compute in
  db_ (after (LPop 1000 q_key 1) sample_engine) kListsDataCF.
Definition popped_engine : Redis := engine_of popped_meta_cf popped_data_cf.

(** The same with an expiry time, [PEXPIREAT q 5000]. *)
Definition expiring_meta_cf : list entry := Eval vm_compute in
  db_ (after (ListsExpireat 1000 q_key 5000 []) sample_engine) kMetaCF.
Definition expiring_engine : Redis := engine_of expiring_meta_cf sample_data_cf.

(** The meta value and the elements as stored. *)
Definition no_meta : ParsedListsMetaValue := mkPLM (mkPIV [] false (0, 0)%nat 0 0 0 None []) 0 0 0.
Definition meta_in (r : Redis) : ParsedListsMetaValue :=
  match meta_of (db_ r) q_key with
  | Some mv => default no_meta (ParsedListsMetaValue_parse true mv)
  | None => no_meta
  end.

Definition stored (l : list bytes) : list bytes := data_value 1000 <$> l.

Lemma engine_of_ok meta data : healthy_b (list_db meta data) = true -> engine_ok (engine_of meta data).
Proof. apply engine_with_ok. Qed.

Ltac solve_list_at :=
  constructor;
  [ vm_compute; reflexivity
  | repeat split; vm_compute; reflexivity
  | vm_compute; reflexivity
  | vm_compute; reflexivity
  | done
  | vm_compute; reflexivity
  | vm_compute; reflexivity
  | let i := fresh "i" in intros i; intros;
    repeat (destruct i as [|i];
      [match goal with H : _ !! _ = Some _ |- _ => injection H as <- end; vm_compute; reflexivity|]);
    done
  | repeat constructor; vm_compute; lia ].

Lemma sample_ok : engine_ok sample_engine.
Proof. apply engine_of_ok. vm_compute. reflexivity. Qed.

Lemma popped_ok : engine_ok popped_engine.
Proof. apply engine_of_ok. vm_compute. reflexivity. Qed.

Lemma expiring_ok : engine_ok expiring_engine.
Proof. apply engine_of_ok. vm_compute. reflexivity. Qed.

Lemma sample_list :
  list_at (db_ sample_engine) 1000 q_key (meta_in sample_engine) (stored [lit "a"; lit "b"; lit "a"]).
Proof. solve_list_at. Qed.

Lemma popped_list :
  list_at (db_ popped_engine) 1000 q_key (meta_in popped_engine) (stored [lit "b"; lit "a"]).
Proof. solve_list_at. Qed.

Lemma expiring_list :
  list_at (db_ expiring_engine) 1000 q_key (meta_in expiring_engine)
    (stored [lit "a"; lit "b"; lit "a"]).
Proof. solve_list_at. Qed.

Lemma sample_holds : holds (db_ sample_engine) 1000 q_key [lit "a"; lit "b"; lit "a"] 0.
Proof.
  exists (meta_in sample_engine), (stored [lit "a"; lit "b"; lit "a"]).
  split; [apply sample_list|]. split; vm_compute; reflexivity.
Qed.

Lemma expiring_holds : holds (db_ expiring_engine) 1000 q_key [lit "a"; lit "b"; lit "a"] 5000.
Proof.
  exists (meta_in expiring_engine), (stored [lit "a"; lit "b"; lit "a"]).
  split; [apply expiring_list|]. split; vm_compute; reflexivity.
Qed.

Lemma fresh_ok : engine_ok fresh_engine.
Proof. split; [intros cf _; constructor|apply fresh_stats]. Qed.

(** Nothing is stored in the fresh engine. *)
Lemma fresh_holds key : holds (db_ fresh_engine) 1000 key [] 0.
Proof. by apply vacant_absent. Qed.

Lemma fresh_room key : room (db_ fresh_engine) key 3.
Proof. split; [lia|done]. Qed.

(** The meta value of the sample is the only one its bytes parse to. *)
Lemma meta_in_unique r p :
  meta_of (db_ r) q_key = Some (piv_data (plm_base p)) -> lists_meta_coherent p -> meta_in r = p.
Proof. intros Hm (_ & _ & Hp). unfold meta_in. by rewrite Hm, Hp. Qed.

Lemma sample_room n : n <= 10 -> room (db_ sample_engine) q_key n.
Proof.
  intros Hn. split; [lia|]. intros p Hm Hc _. rewrite <- (meta_in_unique _ _ Hm Hc).
  split.
  - replace (plm_left_index (meta_in sample_engine)) with 9223372036854775807 by (vm_compute; reflexivity). lia.
  - replace (plm_right_index (meta_in sample_engine)) with 9223372036854775811 by (vm_compute; reflexivity). lia.
Qed.
