(* ===== verification/ListRead.v ===== *)
(** * LLEN, LINDEX, LRANGE

    The read commands of [redis_lists.cc] against the lists they read.
    [redis_range] (Prelude) is the sublist the Redis commands [LRANGE] and
    [LTRIM] document. *)

From S2P Require Import Prelude Coding KeyFormat Comparator ValueFormat RocksDB LruCache Redis KeySpace Lists ListSpec.
Open Scope Z_scope.

Definition redis_nth (l : list bytes) (index : Z) : option bytes :=
  let k := redis_position (Z.of_nat (length l)) index in
  if 0 <=? k then l !! Z.to_nat k else None.

Section ListRead.
Context {R : RocksDB} {L : RocksDBLaws R} {U : Uninit}.

(** [origin_left_index + start] and its like stay inside 64 bits. *)
Definition no_wrap (db : DB) (key : bytes) (start stop : Z) : Prop :=
  forall p, meta_of db key = Some (piv_data (plm_base p)) -> lists_meta_coherent p ->
    plm_left_index p + 1 + Z.max start stop < 2 ^ 64 /\ 0 <= plm_right_index p + Z.min start stop.

(** What a live list knows about its indices. *)
Lemma list_at_bounds db now key p vals :
  list_at db now key p vals ->
  is_u64 (plm_left_index p) /\ is_u64 (plm_right_index p) /\ is_u64 (piv_version (plm_base p)) /\
  0 < Z.of_nat (length vals) /\
  plm_right_index p = plm_left_index p + 1 + Z.of_nat (length vals).
Proof.
  intros H. destruct (coherent_ranges p (la_coherent _ _ _ _ _ H)) as (_ & Hl & Hr & Hv).
  split_and!; [done..| |apply H]. pose proof (la_some _ _ _ _ _ H). destruct vals; [done|simpl; lia].
Qed.

(** The element at an index, through [LIndex]'s and [LSet]'s test. *)
Lemma target_index_spec db now key p vals index :
  list_at db now key p vals -> is_i64 index ->
  let target := if 0 <=? index then u64 (plm_left_index p + index + 1)
                else u64 (plm_right_index p + index) in
  let k := redis_position (Z.of_nat (length vals)) index in
  is_u64 target /\
  (plm_left_index p <? target) && (target <? plm_right_index p) =
    (0 <=? k) && (k <? Z.of_nat (length vals)) /\
  (0 <= k < Z.of_nat (length vals) -> target = plm_left_index p + 1 + k).
Proof.
  intros H Hi. destruct (list_at_bounds _ _ _ _ _ H) as (Hl & Hr & _ & Hn & Hright).
  unfold redis_position, is_i64, is_u64 in *. rewrite Hright in *.
  set (n := Z.of_nat (length vals)) in *. set (a := plm_left_index p) in *. clearbody n a.
  destruct (Z.leb_spec 0 index); cbv zeta.
  - destruct (Z_lt_le_dec (a + index + 1) (2 ^ 64)).
    + rewrite u64_id by (unfold is_u64; lia). lia.
    + rewrite u64_over by lia. lia.
  - destruct (Z_lt_le_dec (a + 1 + n + index) 0).
    + rewrite u64_under by lia. lia.
    + rewrite u64_id by (unfold is_u64; lia). lia.
Qed.

Lemma strip_user_value v :
  (24 <= length v)%nat ->
  ParsedBaseDataValue_StripSuffix (ParsedBaseDataValue true v) = Some (user_value v).
Proof.
  intros Hv. unfold user_value, ParsedBaseDataValue, ParsedBaseDataValue_StripSuffix, UserValue.
  change kBaseDataValueSuffixLength with 24%nat. rewrite (proj2 (Nat.leb_le 24 (length v)) Hv).
  cbn [piv_writable piv_data piv_user fst snd].
  rewrite (proj2 (Nat.ltb_ge (length v) 24) Hv). done.
Qed.

Lemma list_at_data db now key p vals k :
  list_at db now key p vals -> 0 <= k < Z.of_nat (length vals) ->
  exists v, vals !! Z.to_nat k = Some v /\ (24 <= length v)%nat /\
    data_of db key (piv_version (plm_base p)) (plm_left_index p + 1 + k) = Some v.
Proof.
  intros H Hk. destruct (lookup_lt_is_Some_2 vals (Z.to_nat k) ltac:(lia)) as [v Hv].
  exists v. split_and!; [done| |].
  - pose proof (la_values _ _ _ _ _ H) as Hf. rewrite Forall_forall in Hf.
    apply Hf. by eapply list_elem_of_lookup_2.
  - pose proof (la_data _ _ _ _ _ H _ _ Hv) as Hd. by rewrite Z2Nat.id in Hd by lia.
Qed.

(** [LIndex] returns the element at any [int64_t] position, counted from the
    end when negative, and NotFound outside the list. *)
Theorem LIndex_correct now key index l e r :
  engine_ok r -> holds (db_ r) now key l e -> is_i64 index ->
  match redis_nth l index with
  | Some x => LIndex now key index r = Some ((Status_OK, x), r)
  | None => exists st, LIndex now key index r = Some ((st, []), r) /\ status_code st = kNotFound
  end.
Proof.
  intros [Hdb _] Hh Hi. destruct l as [|x l].
  { replace (redis_nth [] index) with (@None bytes).
    2:{ unfold redis_nth. by destruct (0 <=? _). }
    unfold LIndex, bind. destruct (GetList_vacant now key key r Hdb Hh) as (st & -> & Hst). by exists st. }
  destruct Hh as (p & vals & Hl & <- & _).
  unfold LIndex, bind. rewrite (GetList_live now key key p vals r Hdb Hl).
  destruct (target_index_spec _ _ _ _ _ index Hl Hi) as (_ & Hin & Ht). cbv zeta in *.
  rewrite Hin. unfold redis_nth. rewrite length_fmap, list_lookup_fmap.
  set (k := redis_position _ _) in *. destruct (Z.leb_spec 0 k); simpl.
  - destruct (Z.ltb_spec k (Z.of_nat (length vals))); simpl.
    + destruct (list_at_data _ _ _ _ _ k Hl ltac:(lia)) as (v & Hv & Hlen & Hd).
      rewrite Hv, Ht by lia. simpl. unfold Get. rewrite Get_lookup by done.
      unfold data_of in Hd. rewrite Hd. simpl. unfold lift. by rewrite strip_user_value.
    + rewrite lookup_ge_None_2 by lia. simpl. by eexists.
  - by eexists.
Qed.

(** [LLen] *)
Theorem LLen_correct now key l e r :
  engine_ok r -> holds (db_ r) now key l e ->
  exists st, LLen now key [] r = Some ((st, Z.of_nat (length l)), r) /\
    status_code st = match l with [] => kNotFound | _ => kOk end.
Proof.
  intros [Hdb _] Hh. unfold LLen, bind. simpl GetMetaOrPrefetched. destruct l as [|x l].
  - destruct (GetMeta_vacant now key key r Hdb Hh) as [(mv & ->)|(p & -> & _ & Hc & Ht & Hs)]; simpl.
    + by eexists.
    + unfold lift. destruct Hc as (_ & _ & ->). unfold lists_vacant.
      destruct (IsStale now (plm_base p)); [by eexists|]. simpl in Hs. rewrite Hs. by eexists.
  - destruct Hh as (p & vals & Hl & Hu & _).
    rewrite (GetMeta_typed now kLists key key _ r Hdb (la_meta _ _ _ _ _ Hl) (list_at_type _ _ _ _ _ Hl)).
    simpl. unfold lift. rewrite (list_at_parse _ _ _ _ _ Hl), (list_at_not_vacant _ _ _ _ _ Hl).
    exists Status_OK. split; [|done]. change (S (length l)) with (length (x :: l)).
    by rewrite (la_count _ _ _ _ _ Hl), <- Hu, length_fmap.
Qed.

(** ** Ranges *)

(** The index range [sublist] computes is the range asked for. *)
Lemma sublist_spec db now key p vals start stop :
  list_at db now key p vals ->
  plm_left_index p + 1 + Z.max start stop < 2 ^ 64 -> 0 <= plm_right_index p + Z.min start stop ->
  let n := Z.of_nat (length vals) in
  let a := Z.max 0 (redis_position n start) in
  let b := Z.min (n - 1) (redis_position n stop) in
  sublist p start stop =
  if a <=? b then Some (plm_left_index p + 1 + a, plm_left_index p + 1 + b) else None.
Proof.
  intros H Hmax Hmin. destruct (list_at_bounds _ _ _ _ _ H) as (Hl & Hr & _ & Hn & Hright).
  unfold sublist, redis_position, is_u64 in *. rewrite Hright in *.
  set (n := Z.of_nat (length vals)) in *. set (x := plm_left_index p) in *. clearbody n x.
  rewrite (u64_id (x + 1)), (u64_id (x + 1 + n - 1)) by (unfold is_u64; lia). cbv zeta.
  replace (if 0 <=? start then u64 (x + 1 + start) else u64 (x + 1 + n - 1 + start + 1))
    with (x + 1 + if 0 <=? start then start else n + start)
    by (destruct (Z.leb_spec 0 start); rewrite u64_id; unfold is_u64; lia).
  replace (if 0 <=? stop then u64 (x + 1 + stop) else u64 (x + 1 + n - 1 + stop + 1))
    with (x + 1 + if 0 <=? stop then stop else n + stop)
    by (destruct (Z.leb_spec 0 stop); rewrite u64_id; unfold is_u64; lia).
  set (s := if 0 <=? start then start else n + start). set (t := if 0 <=? stop then stop else n + stop).
  clearbody s t. destruct (_ || _) eqn:E.
  - destruct (Z.leb_spec (Z.max 0 s) (Z.min (n - 1) t)); [lia|done].
  - destruct (Z.leb_spec (Z.max 0 s) (Z.min (n - 1) t)); [|lia].
    do 2 f_equal; case_match; lia.
Qed.

(** The loop of [LRange] collects the elements it is given the range of. *)
Lemma collect_spec db key version lo vals :
  healthy db -> key_ok key = true -> is_u64 version -> 0 <= lo ->
  lo + Z.of_nat (length vals) < 2 ^ 64 ->
  (forall i w, vals !! i = Some w -> data_of db key version (lo + Z.of_nat i) = Some w) ->
  collect db key version lo (lo + Z.of_nat (length vals) - 1) = Some (user_value <$> vals).
Proof.
  intros Hdb K V Hlo Hhi Hd. unfold collect.
  assert (Hv : visits db key version Next 1 lo
    (Seek (NewIterator db kListsDataCF) (ListsDataKey_Encode key version lo)) vals).
  { apply Seek_visits; try done. intros i w Hi. split; [|by apply Hd].
    apply lookup_lt_Some in Hi. unfold is_u64. lia. }
  destruct (iter_for_rule (fun rest j '(cur, elements) => cur = j /\
      j + Z.of_nat (length rest) = lo + Z.of_nat (length vals) /\
      elements ++ (user_value <$> rest) = user_value <$> vals /\ lo <= j)
    db key version Next 1
    (fun '(current_index, _) => current_index <=? lo + Z.of_nat (length vals) - 1)
    (fun it '(current_index, elements) => (u64 (current_index + 1), elements ++ [element_of it]))
    lo _ vals Hv) with (fuel := index_fuel lo (lo + Z.of_nat (length vals) - 1))
    (st := (lo, @nil bytes)) as ([cur els] & rest & j & -> & (-> & Hj & He & _) & Hc).
  - clear - Hlo Hhi. intros j it v vs [cur els] Hon Hc (-> & Hj & He & Hlo'). simpl in Hj.
    unfold element_of. destruct (iter_on_valid _ _ _ _ _ Hon) as [_ ->].
    split_and!; [rewrite u64_id; unfold is_u64; lia|lia| |lia]. by rewrite <- app_assoc.
  - intros j [cur els] (-> & Hj & _). simpl in Hj. lia.
  - unfold index_fuel. lia.
  - done.
  - simpl. destruct rest as [|w rest]; [|simpl in Hj; lia]. by rewrite <- He, app_nil_r.
Qed.

(** What the range commands read of a live list. *)
Lemma range_read db now key p vals start stop :
  healthy db -> key_ok key = true -> list_at db now key p vals ->
  plm_left_index p + 1 + Z.max start stop < 2 ^ 64 -> 0 <= plm_right_index p + Z.min start stop ->
  match sublist p start stop with
  | None => redis_range (user_value <$> vals) start stop = []
  | Some (lo, hi) => collect db key (piv_version (plm_base p)) lo hi =
      Some (redis_range (user_value <$> vals) start stop)
  end.
Proof.
  intros Hdb K H Hmax Hmin. rewrite (sublist_spec _ _ _ _ _ start stop H) by done.
  rewrite redis_range_slice, length_fmap.
  destruct (list_at_bounds _ _ _ _ _ H) as (Hl & Hr & Hv & Hn & Hright).
  set (a := Z.max 0 _). set (b := Z.min _ _). destruct (Z.leb_spec a b); [|done].
  rewrite <- fmap_drop, <- fmap_take. set (slice := take _ _).
  assert (Hlen : Z.of_nat (length slice) = b - a + 1)
    by (unfold slice; rewrite length_take, length_drop; lia).
  replace (plm_left_index p + 1 + b) with
    (plm_left_index p + 1 + a + Z.of_nat (length slice) - 1) by lia.
  apply collect_spec; try done; unfold is_u64 in *; [lia..|].
  intros i w Hi. unfold slice in Hi. apply lookup_take_Some in Hi as [Hi _].
  rewrite lookup_drop in Hi. pose proof (la_data _ _ _ _ _ H _ _ Hi) as Hd.
  rewrite <- Hd. f_equal. lia.
Qed.

(** [LRange] returns the sublist Redis documents, unless an index sum leaves
    the 64-bit range. *)
Theorem LRange_correct now key start stop l e r :
  key_ok key = true -> engine_ok r -> holds (db_ r) now key l e -> no_wrap (db_ r) key start stop ->
  exists st, LRange now key start stop r = Some ((st, redis_range l start stop), r) /\
    status_code st = match l with [] => kNotFound | _ => kOk end.
Proof.
  intros K [Hdb _] Hh Hw. unfold LRange, bind. destruct l as [|x l].
  { destruct (GetList_vacant now key key r Hdb Hh) as (st & -> & Hst). exists st.
    unfold redis_range. by rewrite take_nil, drop_nil. }
  destruct Hh as (p & vals & Hl & <- & _). rewrite (GetList_live now key key p vals r Hdb Hl).
  destruct (Hw p (la_meta _ _ _ _ _ Hl) (la_coherent _ _ _ _ _ Hl)) as [H1 H2].
  pose proof (range_read _ _ _ _ _ start stop Hdb K Hl H1 H2) as HR.
  exists Status_OK. split; [|done].
  destruct (sublist p start stop) as [[lo hi]|].
  - unfold gets, lift. by rewrite HR.
  - by rewrite HR.
Qed.

Lemma list_ttl_live db now key p vals :
  clock_ok now -> list_at db now key p vals -> is_i64 (piv_etime (plm_base p)) ->
  ttl_of now (piv_etime (plm_base p)) =
  if piv_etime (plm_base p) =? 0 then -1 else piv_etime (plm_base p) - now.
Proof.
  intros Hnow Hl He. apply ttl_live; [done| |done]. rewrite <- IsStale_stale. apply Hl.
Qed.

(** [LRangeWithTTL] returns the same sublist and the remaining lifetime. *)
Theorem LRangeWithTTL_correct now key start stop l e r :
  key_ok key = true -> engine_ok r -> clock_ok now -> holds (db_ r) now key l e -> l <> [] ->
  is_i64 e -> no_wrap (db_ r) key start stop ->
  LRangeWithTTL now key start stop r =
    Some ((Status_OK, redis_range l start stop, if e =? 0 then -1 else e - now), r).
Proof.
  intros K [Hdb _] Hnow Hh Hne He Hw. unfold LRangeWithTTL, bind. destruct l as [|x l]; [done|].
  destruct Hh as (p & vals & Hl & Hu & <-).
  rewrite (GetMeta_typed now kLists key key _ r Hdb (la_meta _ _ _ _ _ Hl) (list_at_type _ _ _ _ _ Hl)).
  change (ok Status_OK) with true. cbv iota. unfold lift at 1. rewrite (list_at_parse _ _ _ _ _ Hl).
  destruct (Hw p (la_meta _ _ _ _ _ Hl) (la_coherent _ _ _ _ _ Hl)) as [H1 H2].
  pose proof (range_read _ _ _ _ _ start stop Hdb K Hl H1 H2) as HR. rewrite Hu in HR.
  destruct (list_at_bounds _ _ _ _ _ Hl) as (_ & _ & _ & Hn & _).
  rewrite (la_count _ _ _ _ _ Hl), (proj2 (Z.eqb_neq _ 0)), (la_live _ _ _ _ _ Hl) by lia.
  rewrite (list_ttl_live _ now key p vals Hnow Hl He).
  destruct (sublist p start stop) as [[lo hi]|].
  - unfold gets, lift. by rewrite HR.
  - by rewrite HR.
Qed.

End ListRead.
