(* ===== verification/ListPush.v ===== *)
(** * LPUSH, RPUSH, LPUSHX, RPUSHX

    The push commands of [redis_lists.cc] put the values at the ends of the
    list they are given, whatever state the key is in: live list, expired
    list, emptied list, no key, stale value of another type. *)

From S2P Require Import Prelude Coding KeyFormat Comparator ValueFormat RocksDB LruCache Redis KeySpace Lists ListSpec ListRead.
Open Scope Z_scope.

Section ListPush.
Context {R : RocksDB} {L : RocksDBLaws R} {U : Uninit}.

(** The batch of a push to an existing meta value. *)
Lemma finish_push now key b ops p vals l e r :
  let version := piv_version (plm_base p) in
  key_ok key = true -> engine_ok r -> effects key version b None ops ->
  pending (data_of (db_ r) key version) p ops vals -> IsStale now (plm_base p) = false ->
  user_value <$> vals = l -> piv_etime (plm_base p) = e ->
  exists r', bind (Write (b ++ [put_meta key p])) (fun s => ret (s, plm_count p)) r =
      Some ((Status_OK, Z.of_nat (length l)), r') /\
    stores now key l e r r'.
Proof.
  intros version K He HE HP Hs Hu Het.
  destruct (write_stores now key b ops p vals l e r K He HE HP Hs Hu Het) as (r' & HW & Hst).
  exists r'. split; [|done]. unfold bind. rewrite HW. unfold ret.
  by rewrite (pe_count _ _ _ _ HP), <- Hu, length_fmap.
Qed.

(** The batch of a push to a list that does not exist. *)
Lemma finish_push_new now n key b ops m vals l r :
  let version := iv_version (lmv_base (new_list_meta now (Z.of_nat n))) in
  key_ok key = true -> clock_ok now -> engine_ok r -> effects key version b None ops ->
  pending_new (data_of (db_ r) key version) now n m ops vals -> length vals = n ->
  user_value <$> vals = l ->
  exists r', bind (Write (b ++ [Put kMetaCF (BaseKey_Encode key) (ListsMetaValue_Encode m)]))
        (fun s => ret (s, u64 (lmv_right_index m - lmv_left_index m - 1))) r =
      Some ((Status_OK, Z.of_nat (length l)), r') /\
    stores now key l 0 r r'.
Proof.
  intros version K Hnow He HE HP <- Hu.
  destruct (pending_new_done _ now m ops vals Hnow HP) as (p & Hd & HP' & Hv & Het).
  assert (Ev : piv_version (plm_base p) = version) by (by rewrite Hv, (pn_base _ _ _ _ _ _ HP)).
  rewrite <- Ev in HE, HP'.
  destruct (write_stores now key b ops p vals l 0 r K He HE HP') as (r' & HW & Hst); try done.
  { unfold IsStale. by rewrite Het. }
  exists r'. split; [|done]. unfold put_meta in HW. rewrite Hd in HW. unfold bind. rewrite HW.
  unfold ret. rewrite (pn_span _ _ _ _ _ _ HP), <- Hu, length_fmap. do 3 f_equal.
  destruct HP as [_ Hl Hr Hs _ _]. rewrite u64_id; unfold is_u64 in *; lia.
Qed.

(** C7: [LPush] prepends the values in reverse order of the call and returns the
    new length.  A list that starts anew never expires. *)
Theorem LPush_correct now key values l e r :
  key_ok key = true -> clock_ok now -> engine_ok r -> holds (db_ r) now key l e ->
  room (db_ r) key (Z.of_nat (length values)) ->
  exists r', LPush now key values r =
      Some ((Status_OK, Z.of_nat (length (rev values ++ l))), r') /\
    stores now key (rev values ++ l) (pushed_etime l e) r r'.
Proof.
  intros K Hnow He Hh Hroom. unfold LPush. unfold bind at 1.
  destruct (push_start now key l e _ r (proj1 He) (clock_u64 _ Hnow) Hh Hroom)
    as [(mv & -> & ->)|(p0 & vals & -> & HP & Hp & Hu & Hs & Het & Hl & Hr)].
  - change (ok (Status_NotFound [])) with false. change (IsNotFound (Status_NotFound [])) with true.
    cbv iota zeta. set (version := iv_version (lmv_base (new_list_meta now (Z.of_nat (length values))))).
    epose proof (push_left_new_fold (data_of (db_ r) key version) now (length values) key version values _ _ _ []
      (pending_new_start _ now _) (eff_nil key _) ltac:(simpl; destruct Hroom; unfold InitalLeftIndex; lia)) as HF.
    destruct (fold_left _ _ _) as [m b]. destruct HF as (ops & HE & HP).
    eapply finish_push_new; try done.
    + by rewrite length_app, length_fmap, length_rev, Nat.add_0_r.
    + by rewrite fmap_app, user_values.
  - change (ok Status_OK) with true. cbv iota. unfold bind at 1, lift. rewrite HP. cbv zeta.
    pose proof (push_left_fold _ now key (piv_version (plm_base (revive now p0))) _ values
      (push_left_pushes _ _ _) _ _ _ [] Hp (eff_nil _ _) Hl) as HF.
    destruct (fold_left _ _ _) as [p b]. destruct HF as (ops & HE & HP' & Hv & Het').
    rewrite <- Hv in HE, HP'. eapply finish_push; try done.
    + by rewrite (IsStale_kept _ _ _ Het').
    + by rewrite fmap_app, user_values, Hu.
    + by rewrite Het'.
Qed.

Lemma RPush_stores now key values l e r :
  key_ok key = true -> clock_ok now -> engine_ok r -> holds (db_ r) now key l e ->
  room (db_ r) key (Z.of_nat (length values)) ->
  exists r', RPush now key values r =
      Some ((Status_OK, Z.of_nat (length (l ++ values))), r') /\
    stores now key (l ++ values) (pushed_etime l e) r r'.
Proof.
  intros K Hnow He Hh Hroom. unfold RPush. unfold bind at 1.
  destruct (push_start now key l e _ r (proj1 He) (clock_u64 _ Hnow) Hh Hroom)
    as [(mv & -> & ->)|(p0 & vals & -> & HP & Hp & Hu & Hs & Het & Hl & Hr)].
  - change (ok (Status_NotFound [])) with false. change (IsNotFound (Status_NotFound [])) with true.
    cbv iota zeta. set (version := iv_version (lmv_base (new_list_meta now (Z.of_nat (length values))))).
    epose proof (push_right_new_fold (data_of (db_ r) key version) now (length values) key version values _ _ _ []
      (pending_new_start _ now _) (eff_nil key _) ltac:(simpl; destruct Hroom; unfold InitalRightIndex; lia)) as HF.
    destruct (fold_left _ _ _) as [m b]. destruct HF as (ops & HE & HP).
    eapply finish_push_new; try done.
    + simpl. by rewrite length_fmap.
    + simpl. by rewrite user_values.
  - change (ok Status_OK) with true. cbv iota. unfold bind at 1, lift. rewrite HP. cbv zeta.
    pose proof (push_right_fold _ now key (piv_version (plm_base (revive now p0))) _ values
      (push_right_pushes _ _ _) _ _ _ [] Hp (eff_nil _ _) Hr) as HF.
    destruct (fold_left _ _ _) as [p b]. destruct HF as (ops & HE & HP' & Hv & Het').
    rewrite <- Hv in HE, HP'. eapply finish_push; try done.
    + by rewrite (IsStale_kept _ _ _ Het').
    + by rewrite fmap_app, user_values, Hu.
    + by rewrite Het'.
Qed.

(** [RPush] appends the values in the order of the call. *)
Theorem RPush_correct now key values l e r :
  key_ok key = true -> clock_ok now -> engine_ok r -> holds (db_ r) now key l e ->
  room (db_ r) key (Z.of_nat (length values)) ->
  exists r', RPush now key values r =
      Some ((Status_OK, Z.of_nat (length (l ++ values))), r') /\
    stores now key (l ++ values) (pushed_etime l e) r r'.
Proof. apply RPush_stores. Qed.

Lemma LPushx_pushes now key version : pushes_left now key version (fun '(p, batch) value =>
  let index := plm_left_index p in
  let p := ParsedListsMetaValue_ModifyCount p 1 in
  let p := ParsedListsMetaValue_ModifyLeftIndex p 1 in
  (p, batch ++ [put_data key version index (data_value now value)])).
Proof.
  intros p batch value. split_and!; try done. intros Hc.
  unfold ParsedListsMetaValue_ModifyLeftIndex, ParsedListsMetaValue_ModifyCount. auto with coherent.
Qed.

(** [LPushx] pushes to a list that exists and answers NotFound otherwise,
    changing nothing. *)
Theorem LPushx_correct now key values l e r :
  key_ok key = true -> engine_ok r -> holds (db_ r) now key l e ->
  room (db_ r) key (Z.of_nat (length values)) ->
  match l with
  | [] => exists st, LPushx now key values r = Some ((st, 0), r) /\ status_code st = kNotFound
  | _ => exists r', LPushx now key values r =
      Some ((Status_OK, Z.of_nat (length (rev values ++ l))), r') /\
      stores now key (rev values ++ l) e r r'
  end.
Proof.
  intros K He Hh [_ Hroom]. destruct l as [|x l]; unfold LPushx; unfold bind at 1.
  { destruct (GetList_vacant now key key r (proj1 He) Hh) as (st & -> & Hst). by exists st. }
  destruct Hh as (p0 & vals & Hl & Hu & Het).
  rewrite (GetList_live now key key p0 vals r (proj1 He) Hl). cbv zeta.
  destruct (Hroom p0 (la_meta _ _ _ _ _ Hl) (la_coherent _ _ _ _ _ Hl) (la_type _ _ _ _ _ Hl)) as [Hleft Hright].
  pose proof (push_left_fold _ now key (piv_version (plm_base p0)) _ values
    (LPushx_pushes _ _ _) _ _ _ [] (list_at_pending _ _ _ _ _ Hl) (eff_nil _ _) Hleft) as HF.
  destruct (fold_left _ _ _) as [p b]. destruct HF as (ops & HE & HP' & Hv & Het').
  rewrite <- Hv in HE, HP'. eapply finish_push; try done.
  - rewrite (IsStale_kept _ _ _ Het'). apply Hl.
  - by rewrite fmap_app, user_values, Hu.
  - by rewrite Het'.
Qed.

Lemma RPushx_pushes now key version : pushes_right now key version (fun '(p, batch) value =>
  let index := plm_right_index p in
  let p := ParsedListsMetaValue_ModifyCount p 1 in
  let p := ParsedListsMetaValue_ModifyRightIndex p 1 in
  (p, batch ++ [put_data key version index (data_value now value)])).
Proof.
  intros p batch value. split_and!; try done. intros Hc.
  unfold ParsedListsMetaValue_ModifyRightIndex, ParsedListsMetaValue_ModifyCount. auto with coherent.
Qed.

(** [RPushx] pushes to a list that exists and answers NotFound otherwise,
    changing nothing. *)
Theorem RPushx_correct now key values l e r :
  key_ok key = true -> engine_ok r -> holds (db_ r) now key l e ->
  room (db_ r) key (Z.of_nat (length values)) ->
  match l with
  | [] => exists st, RPushx now key values r = Some ((st, 0), r) /\ status_code st = kNotFound
  | _ => exists r', RPushx now key values r =
      Some ((Status_OK, Z.of_nat (length (l ++ values))), r') /\
      stores now key (l ++ values) e r r'
  end.
Proof.
  intros K He Hh [_ Hroom]. destruct l as [|x l]; unfold RPushx; unfold bind at 1.
  { destruct (GetList_vacant now key key r (proj1 He) Hh) as (st & -> & Hst). by exists st. }
  destruct Hh as (p0 & vals & Hl & Hu & Het).
  rewrite (GetList_live now key key p0 vals r (proj1 He) Hl). cbv zeta.
  destruct (Hroom p0 (la_meta _ _ _ _ _ Hl) (la_coherent _ _ _ _ _ Hl) (la_type _ _ _ _ _ Hl)) as [Hleft Hright].
  pose proof (push_right_fold _ now key (piv_version (plm_base p0)) _ values
    (RPushx_pushes _ _ _) _ _ _ [] (list_at_pending _ _ _ _ _ Hl) (eff_nil _ _) Hright) as HF.
  destruct (fold_left _ _ _) as [p b]. destruct HF as (ops & HE & HP' & Hv & Het').
  rewrite <- Hv in HE, HP'. eapply finish_push; try done.
  - rewrite (IsStale_kept _ _ _ Het'). apply Hl.
  - by rewrite fmap_app, user_values, Hu.
  - by rewrite Het'.
Qed.

End ListPush.

(** ** LPOP, RPOP, LSET and LTRIM

    The commands of [redis_lists.cc] that shrink a list or change it in place. *)

Section ListPop.
Context {R : RocksDB} {L : RocksDBLaws R} {U : Uninit}.

(** ** Elements removed at either end *)

Lemma pending_tail D p p' ops v vals :
  pending D p ops (v :: vals) -> lists_meta_coherent p' -> piv_type (plm_base p') = Some kLists ->
  plm_count p' = plm_count p - 1 -> plm_left_index p' = plm_left_index p + 1 ->
  plm_right_index p' = plm_right_index p ->
  pending D p' (ops ++ [(plm_left_index p + 1, None)]) vals.
Proof.
  intros [Hcoh Ht Hcnt Hright Hdata Hvals] Hc' Ht' Ec El Er. simpl in *. constructor; try done.
  - rewrite Ec, Hcnt. lia.
  - rewrite Er, El, Hright. lia.
  - intros i w Hi. rewrite El. cbv zeta. rewrite assign_snoc.
    destruct (Z.eqb_spec (plm_left_index p + 1) (plm_left_index p + 1 + 1 + Z.of_nat i)); [lia|].
    replace (plm_left_index p + 1 + 1 + Z.of_nat i) with (plm_left_index p + 1 + Z.of_nat (S i)) by lia.
    by apply (Hdata (S i)).
  - by inversion Hvals.
Qed.

Lemma pending_init D p p' ops v vals :
  pending D p ops (vals ++ [v]) -> lists_meta_coherent p' -> piv_type (plm_base p') = Some kLists ->
  plm_count p' = plm_count p - 1 -> plm_right_index p' = plm_right_index p - 1 ->
  plm_left_index p' = plm_left_index p ->
  pending D p' (ops ++ [(plm_right_index p - 1, None)]) vals.
Proof.
  intros [Hcoh Ht Hcnt Hright Hdata Hvals] Hc' Ht' Ec Er El.
  rewrite length_app in Hcnt, Hright. simpl in *. constructor; try done.
  - rewrite Ec, Hcnt. lia.
  - rewrite Er, El, Hright. lia.
  - intros i w Hi. rewrite El. cbv zeta. rewrite assign_snoc. pose proof (lookup_lt_Some _ _ _ Hi).
    destruct (Z.eqb_spec (plm_right_index p - 1) (plm_left_index p + 1 + Z.of_nat i)); [lia|].
    apply Hdata. by apply lookup_app_l_Some.
  - by apply Forall_app in Hvals as [? _].
Qed.

Lemma effects_delete_snoc key version b ops k i :
  effects key version b None ops -> is_u64 i ->
  ListsDataKeyCompare k (ListsDataKey_Encode key version i) = Eq ->
  effects key version (b ++ [Delete kListsDataCF k]) None (ops ++ [(i, None)]).
Proof.
  intros H Hi E. apply (effects_app _ _ _ _ _ _ None _ H). by constructor; [..|constructor].
Qed.

(** The count and index a pop body leaves. *)
Lemma pop_count D p ops vals :
  pending D p ops vals -> vals <> [] ->
  u64 (plm_count p + u64 (-1)) = plm_count p - 1 /\
  u64 (plm_left_index p - u64 (-1)) = plm_left_index p + 1 /\
  u64 (plm_right_index p + u64 (-1)) = plm_right_index p - 1.
Proof.
  intros H Hne. destruct (coherent_ranges p (pe_coherent _ _ _ _ H)) as (Hc & Hl & Hr & _).
  pose proof (pe_count _ _ _ _ H) as Hcnt. pose proof (pe_right _ _ _ _ H) as Hright.
  change (u64 (-1)) with (2 ^ 64 - 1). destruct vals; [done|]. simpl in Hcnt, Hright.
  unfold is_u64 in *. split_and!; [rewrite u64_over by lia; lia|
    rewrite u64_under by lia; lia|rewrite u64_over by lia; lia].
Qed.

(** The statistics call that ends a command. *)
Lemma stores_statistics now key l e count r r1 {A} (a : A) :
  stores now key l e r r1 ->
  exists r', bind (UpdateSpecificKeyStatistics kLists key count) (fun _ => ret a) r1 =
      Some (a, r') /\ stores now key l e r r'.
Proof.
  intros ([Hdb Hst] & Hh & Ho).
  destruct (UpdateSpecificKeyStatistics_ok kLists key count r1 ltac:(done) Hst)
    as (r' & HU & (Hdb' & _) & Hst').
  exists r'. unfold bind, ret. rewrite HU. split; [done|]. unfold stores, engine_ok. by rewrite Hdb'.
Qed.

(** ** LPOP and RPOP *)

Lemma rev_reverse {A} (l : list A) : rev l = reverse l.
Proof. apply rev_alt. Qed.

Lemma list_at_rev_data db now key p vals i w :
  list_at db now key p vals -> rev vals !! i = Some w ->
  is_u64 (plm_right_index p - 1 - Z.of_nat i) /\
  data_of db key (piv_version (plm_base p)) (plm_right_index p - 1 - Z.of_nat i) = Some w.
Proof.
  intros H Hi. pose proof (lookup_lt_Some _ _ _ Hi) as Hlt. rewrite length_rev in Hlt.
  destruct (list_at_bounds _ _ _ _ _ H) as (Hle & Hri & _ & _ & Hright).
  rewrite rev_reverse, reverse_lookup in Hi by done.
  pose proof (la_data _ _ _ _ _ H _ _ Hi) as Hd.
  split; [unfold is_u64 in *; lia|]. rewrite <- Hd. f_equal. lia.
Qed.

(** The first [n] elements, and the others. *)
Lemma popped_split (els rest l : list bytes) n :
  els ++ rest = l -> length els = Nat.min n (length l) -> els = take n l /\ rest = drop n l.
Proof.
  intros <- Hn. rewrite length_app in Hn. destruct (Nat.le_gt_cases n (length els)).
  - assert (length els = n) by lia. subst n. by rewrite take_app_length, drop_app_length.
  - destruct rest; [|simpl in Hn; lia]. rewrite app_nil_r, take_ge, drop_ge by lia. done.
Qed.

Section PopLoops.
Context (now : Z) (key : bytes) (p0 : ParsedListsMetaValue) (vals : list bytes) (r : Redis).
Let version := piv_version (plm_base p0).
Let D := data_of (db_ r) key version.

(** What both loops keep, [rest] being the elements still in the list and
    [ahead] those the iterator has not reached, in its order. *)
Definition pop_inv (stop : Z) (rest ahead : list bytes) (order : list bytes) (st : pop_state) : Prop :=
  (exists ops, effects key version (pop_batch st) None ops /\ pending D (pop_meta st) ops rest) /\
  piv_version (plm_base (pop_meta st)) = version /\
  piv_etime (plm_base (pop_meta st)) = piv_etime (plm_base p0) /\
  pop_elements st ++ (user_value <$> ahead) = user_value <$> order /\
  pop_cur st = Z.of_nat (length (pop_elements st)) /\ pop_cur st <= stop + 1.

Hypotheses (Hdb : healthy (db_ r)) (K : key_ok key = true)
  (Hl : list_at (db_ r) now key p0 vals) (Hsmall : Z.of_nat (length vals) < 2 ^ 31).

Lemma pop_start stop order :
  0 <= stop + 1 -> pop_inv stop vals order order (mkPop 0 0 [] [] p0).
Proof.
  intros Hs. split_and!; try done. exists []. split; [constructor|].
  by apply (list_at_pending _ now).
Qed.

Lemma pop_cur_step stop rest ahead order st v :
  pop_inv stop rest (v :: ahead) order st -> length order = length vals ->
  i32 (pop_cur st + 1) = Z.of_nat (length (pop_elements st ++ [user_value v])) /\
  (pop_elements st ++ [user_value v]) ++ (user_value <$> ahead) = user_value <$> order.
Proof.
  intros (_ & _ & _ & He & Hcur & _) Hlen. split; [|by rewrite <- app_assoc].
  assert (Hb : (length (pop_elements st) < length vals)%nat).
  { apply (f_equal length) in He. rewrite length_app, !length_fmap in He. simpl in He. lia. }
  rewrite length_app, Hcur. simpl. rewrite i32_id; lia.
Qed.

Lemma pop_body_spec modify stop rest rest' ahead order st v it i :
  pop_inv stop rest (v :: ahead) order st -> length order = length vals ->
  pop_cur st <= stop -> is_u64 i ->
  iter_on (db_ r) kListsDataCF it (ListsDataKey_Encode key version i) v ->
  let p := pop_meta st in
  let p' := modify (ParsedListsMetaValue_ModifyCount p (u64 (-1))) in
  piv_version (plm_base p') = piv_version (plm_base p) ->
  piv_etime (plm_base p') = piv_etime (plm_base p) ->
  (forall ops, pending D p ops rest -> pending D p' (ops ++ [(i, None)]) rest') ->
  let st' := pop_body modify it st in
  pop_inv stop rest' ahead order st' /\ pop_meta st' = p' /\ pop_cur st' = pop_cur st + 1.
Proof.
  intros Hinv Hlen Hc Hi Hon p p' Ev Ee Hp'.
  destruct (pop_cur_step _ _ _ _ _ _ Hinv Hlen) as [Ec Eel].
  destruct Hinv as ((ops & He & Hp) & Hv1 & Het & _ & Hcur & _).
  assert (Ecur : i32 (pop_cur st + 1) = pop_cur st + 1).
  { rewrite Ec, Hcur, length_app. simpl. lia. }
  unfold pop_inv, pop_body. cbn [pop_cur pop_elements pop_batch pop_meta]. fold p p'.
  unfold element_of. destruct (iter_on_valid _ _ _ _ _ Hon) as [_ ->].
  split_and!; try done; [|by rewrite Ev|by rewrite Ee|lia].
  exists (ops ++ [(i, None)]). split; [|by apply Hp'].
  apply effects_delete_snoc; [done|done|]. apply (iter_on_key _ _ _ _ _ Hon).
Qed.

Lemma LPop_loop stop :
  0 <= stop + 1 <= Z.of_nat (length vals) ->
  exists st rest,
    iter_for (index_fuel 0 stop) Next (fun st => pop_cur st <=? stop)
      (pop_body (fun p => ParsedListsMetaValue_ModifyLeftIndex p (u64 (-1))))
      (Seek (NewIterator (db_ r) kListsDataCF)
         (ListsDataKey_Encode key version (u64 (plm_left_index p0 + 1))))
      (mkPop 0 0 [] [] p0) = Some st /\
    pop_inv stop rest rest vals st /\ pop_cur st = stop + 1.
Proof.
  intros Hstop. destruct (list_at_bounds _ _ _ _ _ Hl) as (Hle & Hri & Hv & Hn & Hright).
  rewrite (u64_id (plm_left_index p0 + 1)) by (unfold is_u64 in *; lia).
  assert (Hvis := Seek_visits (db_ r) key version Hdb K Hv (take (Z.to_nat (stop + 1)) vals)
    (plm_left_index p0 + 1)).
  destruct (iter_for_rule (fun ahead j st => exists more,
      pop_inv stop (ahead ++ more) (ahead ++ more) vals st /\
      j = plm_left_index (pop_meta st) + 1 /\ pop_cur st + Z.of_nat (length ahead) = stop + 1)
    _ key version Next 1 (fun st => pop_cur st <=? stop)
    (pop_body (fun p => ParsedListsMetaValue_ModifyLeftIndex p (u64 (-1)))) _ _ _ (Hvis ltac:(
      intros i w [Hi _]%lookup_take_Some; split; [|by apply (la_data _ _ _ _ _ Hl)];
      apply lookup_lt_Some in Hi; unfold is_u64 in *; lia)))
    with (fuel := index_fuel 0 stop) (st := mkPop 0 0 [] [] p0)
    as (st & ahead & j & -> & (more & Hinv & Hj & Hcur) & Hc).
  - clear - Hsmall. intros j it v vs st Hon Hc%Z.leb_le (more & Hinv & -> & Hcur).
    destruct (proj1 Hinv) as (ops & _ & Hp). simpl in Hp, Hinv, Hcur.
    destruct (pop_count _ _ _ _ Hp ltac:(done)) as (E1 & E2 & _).
    pose proof (pending_u64 _ _ _ _ 0 Hp ltac:(simpl; lia)) as H0. rewrite Z.add_0_r in H0.
    destruct (pop_body_spec (fun p => ParsedListsMetaValue_ModifyLeftIndex p (u64 (-1)))
      stop _ (vs ++ more) _ _ _ _ it _ Hinv eq_refl Hc H0 Hon eq_refl eq_refl) as (H1 & H2 & H3).
    + intros ops' Hp'. eapply pending_tail; [exact Hp'|..]; try done.
      * unfold ParsedListsMetaValue_ModifyLeftIndex, ParsedListsMetaValue_ModifyCount.
        destruct Hp'. auto with coherent.
      * apply Hp.
    + exists more. split_and!; [done| |lia]. rewrite H2. simpl. lia.
  - intros j st (more & _ & _ & Hcur). simpl in Hcur. lia.
  - unfold index_fuel. rewrite length_take. lia.
  - exists (drop (Z.to_nat (stop + 1)) vals). rewrite take_drop. split_and!; [by apply pop_start; lia|done|].
    simpl. rewrite length_take. lia.
  - exists st, (ahead ++ more). split_and!; [done..|]. apply Z.leb_gt in Hc. lia.
Qed.

Lemma RPop_loop stop :
  0 <= stop + 1 <= Z.of_nat (length vals) ->
  exists st ahead,
    iter_for (index_fuel 0 stop) Prev (fun st => pop_cur st <=? stop)
      (pop_body (fun p => ParsedListsMetaValue_ModifyRightIndex p (u64 (-1))))
      (SeekForPrev (NewIterator (db_ r) kListsDataCF)
         (ListsDataKey_Encode key version (u64 (plm_right_index p0 - 1))))
      (mkPop 0 0 [] [] p0) = Some st /\
    pop_inv stop (rev ahead) ahead (rev vals) st /\ pop_cur st = stop + 1.
Proof.
  intros Hstop. destruct (list_at_bounds _ _ _ _ _ Hl) as (Hle & Hri & Hv & Hn & Hright).
  rewrite (u64_id (plm_right_index p0 - 1)) by (unfold is_u64 in *; lia).
  assert (Hvis := SeekForPrev_visits (db_ r) key version Hdb K Hv (take (Z.to_nat (stop + 1)) (rev vals))
    (plm_right_index p0 - 1)).
  destruct (iter_for_rule (fun ahead j st => exists more,
      pop_inv stop (rev (ahead ++ more)) (ahead ++ more) (rev vals) st /\
      j = plm_right_index (pop_meta st) - 1 /\ pop_cur st + Z.of_nat (length ahead) = stop + 1)
    _ key version Prev (-1) (fun st => pop_cur st <=? stop)
    (pop_body (fun p => ParsedListsMetaValue_ModifyRightIndex p (u64 (-1)))) _ _ _ (Hvis ltac:(
      intros i w [Hi _]%lookup_take_Some; by apply (list_at_rev_data _ now _ _ vals))))
    with (fuel := index_fuel 0 stop) (st := mkPop 0 0 [] [] p0)
    as (st & ahead & j & -> & (more & Hinv & Hj & Hcur) & Hc).
  - clear - Hsmall. intros j it v vs st Hon Hc%Z.leb_le (more & Hinv & -> & Hcur).
    destruct (proj1 Hinv) as (ops & _ & Hp). simpl in Hp, Hinv, Hcur.
    destruct (pop_count _ _ _ _ Hp ltac:(by destruct (rev (vs ++ more)))) as (E1 & _ & E2).
    pose proof (pe_right _ _ _ _ Hp) as Hr. rewrite length_app in Hr. simpl in Hr.
    pose proof (pending_u64 _ _ _ _ (length (rev (vs ++ more))) Hp ltac:(rewrite length_app; simpl; lia)) as H0.
    replace (plm_left_index (pop_meta st) + 1 + Z.of_nat (length (rev (vs ++ more)))) with
      (plm_right_index (pop_meta st) - 1) in H0 by lia.
    destruct (pop_body_spec (fun p => ParsedListsMetaValue_ModifyRightIndex p (u64 (-1)))
      stop _ (rev (vs ++ more)) _ _ _ _ it _ Hinv (length_rev vals) Hc H0 Hon eq_refl eq_refl)
      as (H1 & H2 & H3).
    + intros ops' Hp'. eapply pending_init; [exact Hp'|..]; try done.
      * unfold ParsedListsMetaValue_ModifyRightIndex, ParsedListsMetaValue_ModifyCount.
        destruct Hp'. auto with coherent.
      * apply Hp.
    + exists more. split_and!; [done| |lia]. rewrite H2. simpl. lia.
  - intros j st (more & _ & _ & Hcur). simpl in Hcur. lia.
  - unfold index_fuel. rewrite length_take, length_rev. lia.
  - exists (drop (Z.to_nat (stop + 1)) (rev vals)). rewrite take_drop, rev_involutive.
    split_and!; [by apply pop_start; lia|done|]. simpl. rewrite length_take, length_rev. lia.
  - exists st, (ahead ++ more). split_and!; [done..|]. apply Z.leb_gt in Hc. lia.
Qed.

(** The batch of a pop and its statistics. *)
Lemma pop_finish stop rest ahead order st :
  engine_ok r -> pop_inv stop rest ahead order st ->
  exists r', bind (Write (pop_batch st ++ [put_meta key (pop_meta st)])) (fun s =>
      bind (UpdateSpecificKeyStatistics kLists key (pop_statistic st)) (fun _ =>
        ret (s, pop_elements st))) r = Some ((Status_OK, pop_elements st), r') /\
    stores now key (user_value <$> rest) (piv_etime (plm_base p0)) r r'.
Proof.
  intros Hok ((ops & He & Hp) & Hv & Het & _). unfold D in Hp. rewrite <- Hv in He, Hp.
  destruct (write_stores now key _ ops _ rest _ _ r K Hok He Hp
    ltac:(rewrite (IsStale_kept _ _ p0 Het); apply Hl) eq_refl Het) as (r1 & HW & Hst).
  unfold bind at 1. rewrite HW. by apply stores_statistics.
Qed.

End PopLoops.

Lemma pop_stop_spec now key p vals count r :
  list_at (db_ r) now key p vals -> Z.of_nat (length vals) < 2 ^ 31 -> 0 <= count ->
  pop_stop p count = Z.min count (Z.of_nat (length vals)) - 1.
Proof.
  intros H Hs Hc. unfold pop_stop. rewrite (la_count _ _ _ _ _ H).
  rewrite (i64_id (Z.of_nat (length vals))) by lia.
  destruct (Z.leb_spec count (Z.of_nat (length vals))).
  - rewrite i64_id, i32_id by lia. lia.
  - rewrite i32_id by lia. lia.
Qed.

(** [LPop] returns up to [count] elements from the front and leaves the rest;
    a list it empties is gone. *)
Theorem LPop_correct now key count l e r :
  key_ok key = true -> engine_ok r -> holds (db_ r) now key l e ->
  0 <= count -> Z.of_nat (length l) < 2 ^ 31 ->
  match l with
  | [] => exists st, LPop now key count r = Some ((st, []), r) /\ status_code st = kNotFound
  | _ => exists r', LPop now key count r = Some ((Status_OK, take (Z.to_nat count) l), r') /\
      stores now key (drop (Z.to_nat count) l) e r r'
  end.
Proof.
  intros K He Hh Hc Hlen. pose proof (proj1 He) as Hdb. destruct l as [|x l]; unfold LPop; unfold bind at 1.
  { destruct (GetList_vacant now key key r Hdb Hh) as (st & -> & Hst). by exists st. }
  destruct Hh as (p & vals & Hl & Hu & <-). rewrite (GetList_live now key key p vals r Hdb Hl).
  rewrite <- Hu in *. rewrite length_fmap in Hlen. cbv zeta.
  rewrite (pop_stop_spec _ _ _ _ count r Hl Hlen Hc). set (stop := _ - 1).
  destruct (LPop_loop now key p vals r Hdb K Hl Hlen stop) as (st & rest & HF & Hinv & Hcur);
    [unfold stop; lia|].
  unfold bind at 1, gets. unfold bind at 1, lift. rewrite HF.
  destruct (pop_finish now key p vals r K Hl _ _ _ _ _ He Hinv) as (r' & HW & Hst).
  exists r'. destruct Hinv as (_ & _ & _ & Hel & Hcur' & _).
  destruct (popped_split _ _ _ (Z.to_nat count) Hel) as [E1 E2]; [rewrite length_fmap; lia|].
  by rewrite <- E1, <- E2.
Qed.

(** [RPop] returns up to [count] elements from the back, last first, and leaves
    the front. *)
Theorem RPop_correct now key count l e r :
  key_ok key = true -> engine_ok r -> holds (db_ r) now key l e ->
  0 <= count -> Z.of_nat (length l) < 2 ^ 31 ->
  match l with
  | [] => exists st, RPop now key count r = Some ((st, []), r) /\ status_code st = kNotFound
  | _ => exists r', RPop now key count r = Some ((Status_OK, take (Z.to_nat count) (rev l)), r') /\
      stores now key (take (length l - Z.to_nat count) l) e r r'
  end.
Proof.
  intros K He Hh Hc Hlen. pose proof (proj1 He) as Hdb. destruct l as [|x l]; unfold RPop; unfold bind at 1.
  { destruct (GetList_vacant now key key r Hdb Hh) as (st & -> & Hst). by exists st. }
  destruct Hh as (p & vals & Hl & Hu & <-). rewrite (GetList_live now key key p vals r Hdb Hl).
  rewrite <- Hu in *. rewrite length_fmap in Hlen. cbv zeta.
  rewrite (pop_stop_spec _ _ _ _ count r Hl Hlen Hc). set (stop := _ - 1).
  destruct (RPop_loop now key p vals r Hdb K Hl Hlen stop) as (st & ahead & HF & Hinv & Hcur);
    [unfold stop; lia|].
  unfold bind at 1, gets. unfold bind at 1, lift. rewrite HF.
  destruct (pop_finish now key p vals r K Hl _ _ _ _ _ He Hinv) as (r' & HW & Hst).
  exists r'. destruct Hinv as (_ & _ & _ & Hel & Hcur' & _).
  destruct (popped_split _ _ _ (Z.to_nat count) Hel) as [E1 E2];
    [rewrite length_fmap, length_rev; lia|].
  rewrite rev_reverse, fmap_reverse in E1, E2. rewrite rev_reverse, <- E1. split; [done|].
  rewrite rev_reverse, fmap_reverse, E2, reverse_drop, reverse_involutive, length_reverse in Hst. done.
Qed.

End ListPop.
