(* ===== verification/ListUpdate.v ===== *)
(** * LSET and LTRIM

    The commands of [redis_lists.cc] that change a list in place, and the range
    of [LTRIM] and [LRANGE] when an index sum wraps. *)

From S2P Require Import Prelude Coding KeyFormat Comparator ValueFormat RocksDB LruCache Redis KeySpace Lists ListSpec ListRead ListPush.
Open Scope Z_scope.

Section ListUpdate.
Context {R : RocksDB} {L : RocksDBLaws R} {U : Uninit}.

(** A batch that leaves the meta value alone. *)
Lemma write_data_stores now key b ops p vals vals' r :
  let version := piv_version (plm_base p) in
  key_ok key = true -> engine_ok r -> list_at (db_ r) now key p vals ->
  effects key version b None ops ->
  pending (data_of (db_ r) key version) p ops vals' -> vals' <> [] ->
  exists r', Write b r = Some (Status_OK, r') /\
    stores now key (user_value <$> vals') (piv_etime (plm_base p)) r r'.
Proof.
  intros version K [Hdb Hst] Hl He Hp Hne.
  destruct (coherent_ranges p (pe_coherent _ _ _ _ Hp)) as (_ & _ & _ & Hv).
  destruct (Write_effects key version b _ ops r He K Hv Hdb) as (db' & HW & Hdb' & Hm & Hd & Ho).
  exists (with_db r db'). split; [done|]. split; [done|]. split; [|done].
  assert (Hl' : list_at db' now key p vals').
  { destruct Hl as [Lm Lc Lt Ll _ _ _ _ _]. pose proof Hp as [Hcoh Ht Hcnt Hright Hdata Hvals].
    constructor; try done; [by rewrite Hm|].
    intros i v Hi. fold version. rewrite Hd; [by apply Hdata|].
    eapply pending_u64; [exact Hp|by eapply lookup_lt_Some]. }
  destruct vals' as [|v vals']; [done|]. by exists p, (v :: vals').
Qed.

Lemma pending_set D p ops vals i v :
  pending D p ops vals -> (i < length vals)%nat -> (24 <= length v)%nat ->
  pending D p (ops ++ [(plm_left_index p + 1 + Z.of_nat i, Some v)]) (<[i:=v]> vals).
Proof.
  intros [Hcoh Ht Hcnt Hright Hdata Hvals] Hi Hv. constructor; rewrite ?length_insert; try done.
  - intros k w Hk. cbv zeta. rewrite assign_snoc. apply list_lookup_insert_Some in Hk.
    destruct (Z.eqb_spec (plm_left_index p + 1 + Z.of_nat i) (plm_left_index p + 1 + Z.of_nat k)).
    + destruct Hk as [(-> & -> & _)|(Hne & _)]; [done|lia].
    + destruct Hk as [(-> & _)|(_ & Hk)]; [lia|by apply Hdata].
  - by apply Forall_insert.
Qed.

(** [LSet] replaces the element at a position inside the list, and reports any
    other position without changing anything. *)
Theorem LSet_correct now key index value l e r :
  key_ok key = true -> engine_ok r -> holds (db_ r) now key l e -> is_i64 index ->
  let k := redis_position (Z.of_nat (length l)) index in
  match l with
  | [] => exists st, LSet now key index value r = Some (st, r) /\ status_code st = kNotFound
  | _ =>
      if (0 <=? k) && (k <? Z.of_nat (length l)) then
        exists r', LSet now key index value r = Some (Status_OK, r') /\
          stores now key (<[Z.to_nat k := value]> l) e r r'
      else LSet now key index value r = Some (Status_Corruption (lit "index out of range"), r)
  end.
Proof.
  intros K He Hh Hi k. pose proof (proj1 He) as Hdb.
  destruct l as [|x l]; unfold LSet.
  { unfold bind at 1. destruct (GetList_vacant now key key r Hdb Hh) as (st & -> & Hst). by exists st. }
  destruct Hh as (p & vals & Hl & Hu & <-). rewrite !(bind_GetList now key key p vals r _ Hdb Hl).
  revert k. rewrite <- Hu, length_fmap. intros k.
  destruct (target_index_spec _ _ _ _ _ index Hl Hi) as (Hu64 & Hin & Ht). fold k in Hin, Ht.
  cbv zeta in *. set (target := if 0 <=? index then _ else _) in *.
  rewrite <- Hin. destruct (Z.leb_spec target (plm_left_index p)); simpl orb.
  { rewrite (proj2 (Z.ltb_ge _ _)) by done. done. }
  rewrite (proj2 (Z.ltb_lt (plm_left_index p) target)) in * by done.
  destruct (Z.leb_spec (plm_right_index p) target).
  { rewrite (proj2 (Z.ltb_ge _ _)) by done. done. }
  rewrite (proj2 (Z.ltb_lt target _)) in * by done. simpl in Hin |- *.
  symmetry in Hin. apply andb_true_iff in Hin as [Hk0%Z.leb_le Hk1%Z.ltb_lt].
  specialize (Ht ltac:(lia)). rewrite Ht.
  pose proof (pending_set _ _ _ _ (Z.to_nat k) (data_value now value)
    (list_at_pending _ _ _ _ _ Hl) ltac:(lia) (data_value_length _ _)) as Hp.
  rewrite Z2Nat.id in Hp by done.
  destruct (write_data_stores now key _ _ p vals _ r K He Hl
    (effects_put_data key _ (plm_left_index p + 1 + k) (data_value now value)
       ltac:(by rewrite <- Ht)) Hp) as (r1 & HW & Hst).
  { intros E. apply (f_equal length) in E. rewrite length_insert in E. simpl in E. lia. }
  unfold bind at 1. rewrite HW. rewrite list_fmap_insert, user_value_data_value in Hst.
  by apply stores_statistics.
Qed.

(** ** LTRIM *)

Definition deletions (js : list Z) : list (Z * option bytes) := (fun j => (j, None)) <$> js.

Lemma effects_deletions key version js :
  Forall is_u64 js -> effects key version (delete_data key version <$> js) None (deletions js).
Proof.
  induction 1 as [|j js Hj _ IH]; [constructor|]. constructor; [done|apply cmp_refl|done].
Qed.

Lemma assign_deletions js j cur : j ∉ js -> assign (deletions js) j cur = cur.
Proof.
  revert cur. induction js as [|i js IH]; intros cur Hj; [done|].
  apply not_elem_of_cons in Hj as [Hne Hj]. unfold assign. simpl.
  destruct (Z.eqb_spec i j); [by subst|]. by apply IH.
Qed.

Lemma elem_of_indices_up a b j : j ∈ indices_up a b <-> a <= j < b.
Proof.
  unfold indices_up. rewrite list_elem_of_fmap. split.
  - intros (i & -> & Hi%elem_of_seq). lia.
  - intros Hj. exists (Z.to_nat (j - a)). rewrite elem_of_seq. lia.
Qed.

Lemma elem_of_indices_down a b j : j ∈ indices_down a b <-> b < j <= a.
Proof.
  unfold indices_down. rewrite list_elem_of_fmap. split.
  - intros (i & -> & Hi%elem_of_seq). lia.
  - intros Hj. exists (Z.to_nat (a - j)). rewrite elem_of_seq. lia.
Qed.

(** The meta value and the deletions of [LTrim] leave the slice from position
    [a] to [b]. *)
Lemma trim_pending now key p vals r a b :
  list_at (db_ r) now key p vals -> 0 <= a <= b -> b < Z.of_nat (length vals) ->
  let left := plm_left_index p + 1 in
  let right := plm_right_index p - 1 in
  let lo := left + a in
  let hi := left + b in
  let p1 := ParsedListsMetaValue_ModifyLeftIndex p (u64 (- (lo - left))) in
  let p2 := ParsedListsMetaValue_ModifyRightIndex p1 (u64 (- (right - hi))) in
  let p3 := ParsedListsMetaValue_ModifyCount p2 (u64 (- (u64 ((lo - left) + (right - hi))))) in
  pending (data_of (db_ r) key (piv_version (plm_base p))) p3
    (deletions (indices_up left lo ++ indices_down right hi))
    (take (Z.to_nat (b - a + 1)) (drop (Z.to_nat a) vals)).
Proof.
  intros H Ha Hb left right lo hi p1 p2 p3.
  destruct (list_at_bounds _ _ _ _ _ H) as (Hl & Hr & _ & Hn & Hright). unfold is_u64 in *.
  assert (Hlen : Z.of_nat (length (take (Z.to_nat (b - a + 1)) (drop (Z.to_nat a) vals))) = b - a + 1)
    by (rewrite length_take, length_drop; lia).
  assert (E1 : plm_left_index p3 = left + a - 1).
  { simpl. unfold lo, left. rewrite u64_sub_neg, u64_id; unfold is_u64; lia. }
  assert (E2 : plm_right_index p3 = left + b + 1).
  { simpl. unfold hi, right. rewrite u64_add_neg. rewrite u64_id; unfold is_u64, left; lia. }
  assert (E3 : plm_count p3 = b - a + 1).
  { simpl. rewrite (la_count _ _ _ _ _ H). unfold lo, hi, right, left.
    rewrite (u64_id (_ + _ - _ + _)) by (unfold is_u64; lia).
    rewrite u64_add_neg, u64_id by (unfold is_u64; lia). lia. }
  constructor.
  - pose proof (la_coherent _ _ _ _ _ H).
    unfold p3, p2, p1, ParsedListsMetaValue_ModifyLeftIndex, ParsedListsMetaValue_ModifyRightIndex,
      ParsedListsMetaValue_ModifyCount. auto with coherent.
  - apply H.
  - by rewrite E3.
  - rewrite E1, E2. lia.
  - intros i v Hi. rewrite E1. cbv zeta. apply lookup_take_Some in Hi as [Hi Hi'].
    rewrite lookup_drop in Hi. pose proof (la_data _ _ _ _ _ H _ _ Hi) as Hd.
    rewrite assign_deletions.
    + rewrite <- Hd. f_equal. unfold left. lia.
    + rewrite elem_of_app, elem_of_indices_up, elem_of_indices_down. unfold lo, hi, left in *. lia.
  - apply Forall_take, Forall_drop, H.
Qed.

(** Writing the initial meta value under a new version removes the list. *)
Lemma reset_stores now key p vals r e :
  key_ok key = true -> clock_ok now -> engine_ok r -> list_at (db_ r) now key p vals ->
  exists r', Write [put_meta key (ParsedListsMetaValue_InitialMetaValue now p)] r =
      Some (Status_OK, r') /\ stores now key [] e r r'.
Proof.
  intros K Hnow He Hl. destruct (InitialMetaValue_pending (data_of (db_ r) key
    (piv_version (plm_base (ParsedListsMetaValue_InitialMetaValue now p)))) now p (clock_u64 _ Hnow)
    (la_coherent _ _ _ _ _ Hl) (la_type _ _ _ _ _ Hl)) as (Hp & Hs & _).
  destruct (write_stores now key [] [] _ [] _ _ r K He (eff_nil _ _) Hp Hs eq_refl eq_refl)
    as (r1 & HW & Hst). by exists r1.
Qed.

(** The branch of [LTrim] for an empty range. *)
Lemma trim_all now key p vals r e :
  clock_ok now -> key_ok key = true -> engine_ok r -> list_at (db_ r) now key p vals ->
  exists r', bind (Write [put_meta key (ParsedListsMetaValue_InitialMetaValue now p)]) (fun s =>
      bind (UpdateSpecificKeyStatistics kLists key 0) (fun _ => ret s)) r = Some (Status_OK, r') /\
    stores now key [] e r r'.
Proof.
  intros Hnow K He Hl. destruct (reset_stores now key p vals r e K Hnow He Hl) as (r1 & HW & Hst).
  rewrite (bind_run _ _ _ _ _ HW). by apply stores_statistics.
Qed.

(** [LTrim] keeps the sublist Redis documents, unless an index sum leaves the
    64-bit range; an empty sublist removes the list. *)
Theorem LTrim_correct now key start stop l e r :
  key_ok key = true -> clock_ok now -> engine_ok r -> holds (db_ r) now key l e ->
  no_wrap (db_ r) key start stop ->
  match l with
  | [] => exists st, LTrim now key start stop r = Some (st, r) /\ status_code st = kNotFound
  | _ => exists r', LTrim now key start stop r = Some (Status_OK, r') /\
      stores now key (redis_range l start stop) e r r'
  end.
Proof.
  intros K Hnow He Hh Hw. pose proof (proj1 He) as Hdb. destruct l as [|x l]; unfold LTrim.
  { unfold bind at 1. destruct (GetList_vacant now key key r Hdb Hh) as (st & -> & Hst). by exists st. }
  destruct Hh as (p & vals & Hl & <- & <-). rewrite (bind_GetList now key key p vals r _ Hdb Hl). cbv zeta.
  destruct (Hw p (la_meta _ _ _ _ _ Hl) (la_coherent _ _ _ _ _ Hl)) as [H1 H2].
  destruct (list_at_bounds _ _ _ _ _ Hl) as (Hle & Hri & Hv & Hn & Hright). unfold is_u64 in *.
  rewrite (sublist_spec _ _ _ _ _ start stop Hl H1 H2), redis_range_slice, length_fmap.
  set (a := Z.max 0 _). set (b := Z.min _ _). destruct (Z.leb_spec a b) as [Hab|Hab].
  - rewrite !(u64_id (plm_left_index p + 1)), !(u64_id (plm_right_index p - 1)) by (unfold is_u64; lia).
    pose proof (trim_pending now key p vals r a b Hl ltac:(lia) ltac:(lia)) as Hp. cbv zeta in Hp.
    set (p3 := ParsedListsMetaValue_ModifyCount _ _) in *. set (removed := _ ++ _) in *.
    rewrite <- fmap_drop, <- fmap_take.
    assert (HE : effects key (piv_version (plm_base p3))
      (put_meta key p3 :: (delete_data key (piv_version (plm_base p)) <$> removed))
      (Some (piv_data (plm_base p3))) (deletions removed)).
    { apply (eff_meta key _ _ _ None), effects_deletions, Forall_forall.
      intros j. unfold removed. rewrite elem_of_app, elem_of_indices_up, elem_of_indices_down.
      unfold is_u64. lia. }
    destruct (batch_stores now key _ _ p3 _ _ _ r K He HE Hp (la_live _ _ _ _ _ Hl) eq_refl eq_refl)
      as (r1 & HW & Hst).
    unfold bind at 1. rewrite HW. by apply stores_statistics.
  - by apply (trim_all now key p vals r _ Hnow K He Hl).
Qed.

(** ** Index sums that wrap *)

(** Once the left index of a list has passed the middle of the 64-bit range,
    which one [LPop] after an [RPush] brings about, the whole range
    [0, INT64_MAX] is read as empty: [LRange] returns no element and [LTrim]
    removes the list it is asked to keep. *)
Theorem range_sum_wraps now key p vals r :
  key_ok key = true -> clock_ok now -> engine_ok r -> list_at (db_ r) now key p vals ->
  2 ^ 63 <= plm_left_index p ->
  let INT64_MAX := 2 ^ 63 - 1 in
  redis_range (user_value <$> vals) 0 INT64_MAX = user_value <$> vals /\
  LRange now key 0 INT64_MAX r = Some ((Status_OK, []), r) /\
  exists r', LTrim now key 0 INT64_MAX r = Some (Status_OK, r') /\ stores now key [] 0 r r'.
Proof.
  intros K Hnow He Hl Hleft INT64_MAX.
  destruct (list_at_bounds _ _ _ _ _ Hl) as (Hle & Hri & Hv & Hn & Hright). unfold is_u64 in *.
  assert (Hsub : sublist p 0 INT64_MAX = None).
  { unfold sublist, INT64_MAX. rewrite (proj2 (Z.leb_le 0 0)), (proj2 (Z.leb_le 0 (2 ^ 63 - 1))) by lia.
    rewrite !(u64_id (plm_left_index p + 1)) by (unfold is_u64; lia).
    rewrite (u64_over (plm_left_index p + 1 + (2 ^ 63 - 1))), Z.add_0_r by lia.
    rewrite (u64_id (plm_left_index p + 1)) by (unfold is_u64; lia).
    rewrite (proj2 (Z.ltb_lt (plm_left_index p + 1 + (2 ^ 63 - 1) - 2 ^ 64) _)) by lia. done. }
  split_and!.
  - assert (HM : 0 <= INT64_MAX /\ Z.of_nat (length vals) <= INT64_MAX + 1) by (unfold INT64_MAX; lia).
    clearbody INT64_MAX. unfold redis_range, redis_position.
    rewrite (proj2 (Z.leb_le 0 INT64_MAX)) by lia. cbn [Z.leb Z.compare Z.to_nat drop].
    apply take_ge. rewrite length_fmap. lia.
  - unfold LRange. rewrite (bind_GetList now key key p vals r _ (proj1 He) Hl). by rewrite Hsub.
  - unfold LTrim. rewrite (bind_GetList now key key p vals r _ (proj1 He) Hl). rewrite Hsub.
    by apply (trim_all now key p vals).
Qed.

End ListUpdate.

(** ** Expiry

    The key-level commands of [redis_lists.cc], with or without the meta value
    their caller has already read. *)

Section ListExpire.
Context {R : RocksDB} {L : RocksDBLaws R} {U : Uninit}.

Lemma bind_prefetched {A} now key pm p vals r (f : Status + Status * bytes -> M A) :
  healthy (db_ r) -> list_at (db_ r) now key p vals -> prefetched (db_ r) key pm ->
  bind (GetMetaOrPrefetched now kLists key pm) f r = f (inr (Status_OK, piv_data (plm_base p))) r.
Proof.
  intros Hdb Hl Hpm. apply bind_run.
  apply GetMetaOrPrefetched_typed; [done|apply Hl|by eapply list_at_type|done].
Qed.

Lemma bind_list_prefetched {A} now key pm p vals r (f : Status + ParsedListsMetaValue -> M A) :
  healthy (db_ r) -> list_at (db_ r) now key p vals -> prefetched (db_ r) key pm ->
  bind (GetListOrPrefetched now key pm) f r = f (inr p) r.
Proof.
  intros Hdb Hl Hpm. apply bind_run. unfold GetListOrPrefetched.
  rewrite (bind_prefetched now key pm p vals r _ Hdb Hl Hpm). change (ok Status_OK) with true.
  cbv iota. rewrite (bind_lift _ _ _ _ (list_at_parse _ _ _ _ _ Hl)).
  by rewrite (list_at_not_vacant _ _ _ _ _ Hl).
Qed.

(** Rewriting the meta value with a new expiry time. *)
Lemma set_etime_stores now key p vals r t :
  key_ok key = true -> engine_ok r -> list_at (db_ r) now key p vals -> 0 <= t < 2 ^ 63 ->
  exists r', Write [put_meta key (ParsedListsMetaValue_SetEtime p t)] r = Some (Status_OK, r') /\
    stores now key (if (t =? 0) || (now <=? t) then user_value <$> vals else []) t r r'.
Proof.
  intros K He Hl Ht. set (q := ParsedListsMetaValue_SetEtime p t).
  assert (Hc : lists_meta_coherent q).
  { pose proof (la_coherent _ _ _ _ _ Hl). unfold q. auto with coherent. }
  assert (Hstale : IsStale now (plm_base q) = negb ((t =? 0) || (now <=? t))).
  { unfold IsStale. simpl. destruct (Z.eqb_spec t 0); [done|]. simpl.
    destruct (Z.leb_spec now t), (Z.ltb_spec t now); lia. }
  assert (HE : effects key (piv_version (plm_base q)) [put_meta key q] (Some (piv_data (plm_base q))) [])
    by apply (eff_meta _ _ _ _ None), eff_nil.
  destruct (_ || _).
  - pose proof (list_at_pending _ _ _ _ _ Hl) as [Hcoh Hty Hcnt Hright Hdata Hvals].
    apply (batch_stores now key _ [] q vals); try done.
  - destruct (coherent_ranges q Hc) as (_ & _ & _ & Hv).
    destruct (Write_effects key _ _ _ _ r HE K Hv (proj1 He)) as (db' & HW & Hdb' & Hm & _ & Ho).
    exists (with_db r db'). split; [done|]. split; [by split; [|apply He]|]. split; [|done].
    apply (vacant_list _ _ _ q); [done|done|apply Hl|by rewrite Hstale].
Qed.

(** The key-level commands on a live list.  [ListsDel] and non-positive expiry
    times remove it, [ListsExpire] and [ListsExpireat] set the time at which it
    stops being visible, [ListsPersist] clears it and [ListsTTL] reports what
    is left. *)
Theorem lists_expiry_correct now key pm l e r :
  key_ok key = true -> clock_ok now -> engine_ok r -> holds (db_ r) now key l e -> l <> [] ->
  prefetched (db_ r) key pm -> is_i64 e ->
  (exists r', ListsDel now key pm r = Some (Status_OK, r') /\ stores now key [] 0 r r') /\
  (forall ttl, 0 < ttl -> now + ttl < 2 ^ 63 ->
     exists r', ListsExpire now key ttl pm r = Some (Status_OK, r') /\
       stores now key l (now + ttl) r r') /\
  (forall ttl, ttl <= 0 ->
     exists r', ListsExpire now key ttl pm r = Some (Status_OK, r') /\ stores now key [] 0 r r') /\
  (forall t, is_i64 t ->
     exists r', ListsExpireat now key t pm r = Some (Status_OK, r') /\
       stores now key (if (0 <? t) && (now <=? t) then l else []) t r r') /\
  (if e =? 0
   then ListsPersist now key pm r =
          Some (Status_NotFound (lit "Not have an associated timeout"), r)
   else exists r', ListsPersist now key pm r = Some (Status_OK, r') /\ stores now key l 0 r r') /\
  ListsTTL now key pm r = Some ((Status_OK, if e =? 0 then -1 else e - now), r).
Proof.
  intros K Hnow He Hh Hne Hpm Hi. pose proof (proj1 He) as Hdb. destruct l as [|x l]; [done|].
  destruct Hh as (p & vals & Hl & <- & <-). unfold clock_ok in *.
  split_and!.
  - unfold ListsDel. rewrite (bind_list_prefetched now key pm p vals r _ Hdb Hl Hpm).
    destruct (reset_stores now key p vals r 0 K Hnow He Hl) as (r1 & HW & Hst).
    rewrite (bind_run _ _ _ _ _ HW). by apply stores_statistics.
  - intros ttl H1 H2. unfold ListsExpire.
    rewrite (bind_prefetched now key pm p vals r _ Hdb Hl Hpm).
    rewrite (bind_lift _ _ _ _ (list_at_parse _ _ _ _ _ Hl)), (list_at_not_vacant _ _ _ _ _ Hl).
    rewrite (proj2 (Z.ltb_lt 0 ttl)) by done. unfold ParsedListsMetaValue_SetRelativeTimestamp.
    rewrite u64_id by (unfold is_u64; lia).
    destruct (set_etime_stores now key p vals r (now + ttl) K He Hl ltac:(lia)) as (r1 & HW & Hst).
    rewrite (proj2 (Z.leb_le now _)), orb_true_r in Hst by lia. by exists r1.
  - intros ttl H1. unfold ListsExpire.
    rewrite (bind_prefetched now key pm p vals r _ Hdb Hl Hpm).
    rewrite (bind_lift _ _ _ _ (list_at_parse _ _ _ _ _ Hl)), (list_at_not_vacant _ _ _ _ _ Hl).
    rewrite (proj2 (Z.ltb_ge 0 ttl)) by done. by apply (reset_stores now key p vals).
  - intros t Ht. unfold ListsExpireat, is_i64 in *.
    rewrite (bind_list_prefetched now key pm p vals r _ Hdb Hl Hpm). cbv zeta.
    destruct (Z.ltb_spec 0 t); [|by apply (reset_stores now key p vals)].
    rewrite u64_id by (unfold is_u64; lia).
    destruct (set_etime_stores now key p vals r t K He Hl ltac:(lia)) as (r1 & HW & Hst).
    rewrite (proj2 (Z.eqb_neq t 0)) in Hst by lia. by exists r1.
  - unfold ListsPersist. rewrite !(bind_list_prefetched now key pm p vals r _ Hdb Hl Hpm).
    destruct (_ =? 0); [done|].
    by destruct (set_etime_stores now key p vals r 0 K He Hl ltac:(lia)) as (r1 & HW & Hst); exists r1.
  - unfold ListsTTL. rewrite (bind_prefetched now key pm p vals r _ Hdb Hl Hpm).
    change (ok Status_OK) with true. cbv iota.
    rewrite (bind_lift _ _ _ _ (list_at_parse _ _ _ _ _ Hl)), (list_at_not_vacant _ _ _ _ _ Hl).
    by rewrite (list_ttl_live _ now key p vals Hnow Hl Hi).
Qed.

(** Without a prefetched meta value, [ListsExpire] on a key that does not exist
    parses the empty string: the read's status is held by a second variable of
    the same name, and the outer one still says OK. *)
Theorem ListsExpire_missing_key now key ttl r :
  engine_ok r -> meta_of (db_ r) key = None -> ListsExpire now key ttl [] r = None.
Proof.
  intros [Hdb _] Hm. unfold ListsExpire, bind. simpl GetMetaOrPrefetched. unfold GetMeta, GetMetaOr.
  rewrite Get_lookup by done. unfold meta_of in Hm. by rewrite Hm.
Qed.

End ListExpire.
