(* ===== verification/ListInsert.v ===== *)
(** * LINSERT

    [Redis::LInsert] finds the pivot, moves the shorter side of the list by one
    index, and writes the new element into the gap. *)

From S2P Require Import Prelude Coding KeyFormat Comparator ValueFormat RocksDB LruCache Redis KeySpace Lists ListSpec ListRead.
Open Scope Z_scope.

(** The position where [value] goes in the list: before or after the first
    element equal to [pivot]. *)
Definition insert_position (before_or_after : BeforeOrAfter) (l : list bytes) (pivot : bytes)
    : option nat :=
  (fun '(i, _) => if decide (before_or_after = Before) then i else S i) <$>
  list_find (fun x => pivot = x) l.

Definition insert_at (k : nat) (value : bytes) (l : list bytes) : list bytes :=
  take k l ++ value :: drop k l.

Section ListInsert.
Context {R : RocksDB} {L : RocksDBLaws R} {U : Uninit}.

(** ** Writing consecutive elements *)

Fixpoint node_ops (now index : Z) (nodes : list bytes) : list (Z * option bytes) :=
  match nodes with
  | [] => []
  | node :: nodes => (index, Some (data_value now node)) :: node_ops now (index + 1) nodes
  end.

Lemma put_nodes_effects now key version nodes : forall index,
  0 <= index -> index + Z.of_nat (length nodes) < 2 ^ 64 ->
  effects key version (put_nodes now key version index nodes) None (node_ops now index nodes).
Proof.
  induction nodes as [|node nodes IH]; intros index H0 H1; cbn [put_nodes node_ops]; [constructor|].
  simpl length in H1. rewrite u64_id by (unfold is_u64; lia).
  constructor; [unfold is_u64; lia|apply cmp_refl|]. apply IH; lia.
Qed.

Lemma assign_nodes_out now nodes : forall index j cur,
  j < index \/ index + Z.of_nat (length nodes) <= j -> assign (node_ops now index nodes) j cur = cur.
Proof.
  induction nodes as [|node nodes IH]; intros index j cur H; [done|]. simpl length in H.
  unfold assign. simpl. destruct (Z.eqb_spec index j); [lia|]. apply IH. lia.
Qed.

Lemma assign_nodes_in now nodes : forall index i node cur,
  nodes !! i = Some node ->
  assign (node_ops now index nodes) (index + Z.of_nat i) cur = Some (data_value now node).
Proof.
  induction nodes as [|n nodes IH]; intros index [|i] node cur H; try done; simpl in H;
    unfold assign; simpl.
  - injection H as <-. rewrite Z.add_0_r, Z.eqb_refl. apply assign_nodes_out. lia.
  - replace (index + Z.of_nat (S i)) with (index + 1 + Z.of_nat i) by lia. by apply IH.
Qed.

(** ** Finding the pivot *)

Lemma list_find_skip (P : bytes -> Prop) `{!forall x, Decision (P x)} l1 x l2 :
  Forall (fun y => ~ P y) l1 -> P x -> list_find P (l1 ++ x :: l2) = Some (length l1, x).
Proof.
  intros Hno Hx. apply list_find_Some. split_and!; [by rewrite list_lookup_middle|done|].
  intros j y Hj Hlt. rewrite lookup_app_l in Hj by done. rewrite Forall_lookup in Hno. by eapply Hno.
Qed.

Lemma find_pivot_spec now key p vals pivot db :
  healthy db -> key_ok key = true -> list_at db now key p vals ->
  find_pivot db key p pivot =
  Some ((fun '(i, _) => plm_left_index p + 1 + Z.of_nat i) <$>
        list_find (fun x => pivot = x) (user_value <$> vals)).
Proof.
  intros Hdb K Hl. destruct (list_at_bounds _ _ _ _ _ Hl) as (Hle & Hri & Hv & Hn & Hright).
  unfold find_pivot. rewrite (u64_id (plm_left_index p + 1)) by (unfold is_u64 in *; lia).
  assert (Hvis := Seek_visits db key _ Hdb K Hv vals (plm_left_index p + 1) ltac:(
    intros i w Hi; split; [|by apply (la_data _ _ _ _ _ Hl)];
    apply lookup_lt_Some in Hi; unfold is_u64 in *; lia)).
  destruct (iter_for_rule (fun rest j '(cur, found) => exists pre, vals = pre ++ rest /\
      match found with
      | None => cur = j /\ j = plm_left_index p + 1 + Z.of_nat (length pre) /\
          Forall (fun y => ~ pivot = y) (user_value <$> pre)
      | Some c => Some c = (fun '(i, _) => plm_left_index p + 1 + Z.of_nat i) <$>
          list_find (fun x => pivot = x) (user_value <$> vals)
      end) db key _ Next 1
    (fun '(current_index, found) =>
       match found with Some _ => false | None => current_index <? plm_right_index p end)
    (fun it '(current_index, found) =>
       if decide (pivot = element_of it) then (current_index, Some current_index)
       else (u64 (current_index + 1), found)) _ _ vals Hvis)
    with (fuel := index_fuel (plm_left_index p + 1) (plm_right_index p))
         (st := (plm_left_index p + 1, @None Z))
    as ([cur found] & rest & j & -> & (pre & Hpre & Hf) & Hc).
  - clear - Hle Hri Hright. intros j it v vs [cur [c|]] Hon Hc (pre & -> & Hf); [done|].
    destruct Hf as (-> & Hj & Hno). unfold element_of.
    destruct (iter_on_valid _ _ _ _ _ Hon) as [_ ->].
    destruct (decide _) as [Heq|Hneq]; exists (pre ++ [v]); (split; [by rewrite <- app_assoc|]).
    + rewrite fmap_app. simpl fmap. rewrite list_find_skip by done. simpl. by rewrite length_fmap, Hj.
    + rewrite length_app in *. simpl in *. split_and!; [rewrite u64_id; unfold is_u64 in *; lia|lia|].
      rewrite fmap_app. apply Forall_app. split; [done|]. by constructor.
  - intros j [cur [c|]] (pre & -> & Hf); [done|]. destruct Hf as (-> & -> & _).
    rewrite app_nil_r in Hright. lia.
  - unfold index_fuel. lia.
  - exists []. split_and!; try done. simpl. lia.
  - simpl. destruct found as [c|]; [by rewrite <- Hf|].
    destruct Hf as (-> & -> & Hno). apply Z.ltb_ge in Hc. rewrite Hpre, length_app in *.
    destruct rest as [|x rest]; [|simpl in *; lia]. rewrite app_nil_r.
    rewrite (proj2 (list_find_None _ _)); done.
Qed.

(** ** The two sides of the insertion point *)

Lemma left_nodes_spec now key p vals before_or_after i db :
  healthy db -> key_ok key = true -> list_at db now key p vals -> (i < length vals)%nat ->
  left_nodes db key p before_or_after (plm_left_index p + 1 + Z.of_nat i) =
  Some (user_value <$> take (if decide (before_or_after = Before) then i else S i) vals).
Proof.
  intros Hdb K Hl Hi. destruct (list_at_bounds _ _ _ _ _ Hl) as (Hle & Hri & Hv & Hn & Hright).
  unfold left_nodes. rewrite (u64_id (plm_left_index p + 1)) by (unfold is_u64 in *; lia).
  set (pivot_index := plm_left_index p + 1 + Z.of_nat i). set (k := if decide _ then i else S i).
  assert (Hvis := Seek_visits db key _ Hdb K Hv (take (S i) vals) (plm_left_index p + 1) ltac:(
    intros i' w [Hi' _]%lookup_take_Some; split; [|by apply (la_data _ _ _ _ _ Hl)];
    apply lookup_lt_Some in Hi'; unfold is_u64 in *; lia)).
  destruct (iter_for_rule (fun rest j '(cur, stopped, nodes) =>
      if stopped : bool then nodes = user_value <$> take k vals
      else exists pre, take (S i) vals = pre ++ rest /\ cur = j /\
        j = plm_left_index p + 1 + Z.of_nat (length pre) /\ nodes = user_value <$> pre /\ rest <> [])
    db key _ Next 1
    (fun '(current_index, stopped, _) => (current_index <=? pivot_index) && negb stopped)
    (fun it '(current_index, stopped, nodes) =>
       if current_index =? pivot_index then
         (current_index, true,
          if decide (before_or_after = After) then nodes ++ [element_of it] else nodes)
       else (u64 (current_index + 1), stopped, nodes ++ [element_of it])) _ _ _ Hvis)
    with (fuel := index_fuel (plm_left_index p + 1) pivot_index)
         (st := (plm_left_index p + 1, false, @nil bytes))
    as ([[cur stopped] nodes] & rest & j & -> & Hinv & Hc).
  - clear - Hle Hri Hright Hi. intros j it v vs [[cur [|]] nodes] Hon Hc Hinv; [by rewrite andb_false_r in Hc|].
    destruct Hinv as (pre & Hpre & -> & Hj & -> & _).
    apply andb_true_iff in Hc as [Hc%Z.leb_le _]. unfold element_of.
    destruct (iter_on_valid _ _ _ _ _ Hon) as [_ ->]. fold (user_value v).
    assert (Hlen : (length pre + S (length vs) = S i)%nat).
    { apply (f_equal length) in Hpre. rewrite length_app, length_take in Hpre. cbn [length] in Hpre. lia. }
    destruct (Z.eqb_spec j pivot_index) as [E|E]; unfold pivot_index in *.
    + destruct vs as [|w vs]; [|simpl in *; lia]. unfold k.
      destruct before_or_after; simpl.
      * replace (take i vals) with (take i (take (S i) vals)) by (rewrite take_take; f_equal; lia).
        rewrite Hpre, take_app_length' by (simpl in *; lia). done.
      * rewrite Hpre, fmap_app. done.
    + exists (pre ++ [v]). rewrite length_app, fmap_app, <- app_assoc. simpl.
      split_and!; [done|rewrite u64_id; unfold is_u64 in *; lia|lia|done|].
      intros ->. simpl in *. lia.
  - by intros j [[cur [|]] nodes] Hinv; [rewrite andb_false_r|destruct Hinv as (? & _ & _ & _ & _ & [])].
  - unfold index_fuel, pivot_index. rewrite length_take. lia.
  - exists []. split_and!; try done; [simpl; lia|]. destruct vals; [simpl in Hi; lia|done].
  - simpl. destruct stopped; [by rewrite Hinv|]. rewrite andb_true_r in Hc. apply Z.leb_gt in Hc.
    destruct Hinv as (pre & Hpre & -> & -> & _ & Hne). exfalso. unfold pivot_index in Hc.
    apply (f_equal length) in Hpre. rewrite length_app, length_take in Hpre.
    destruct rest; [done|]. cbn [length] in Hpre. lia.
Qed.

Lemma right_nodes_spec now key p vals before_or_after i db :
  healthy db -> key_ok key = true -> list_at db now key p vals -> (i < length vals)%nat ->
  right_nodes db key p before_or_after (plm_left_index p + 1 + Z.of_nat i) =
  Some (user_value <$> drop (if decide (before_or_after = Before) then i else S i) vals).
Proof.
  intros Hdb K Hl Hi. destruct (list_at_bounds _ _ _ _ _ Hl) as (Hle & Hri & Hv & Hn & Hright).
  unfold right_nodes. set (pivot_index := plm_left_index p + 1 + Z.of_nat i).
  assert (Hvis := Seek_visits db key _ Hdb K Hv (drop i vals) pivot_index ltac:(
    intros i' w Hi'; rewrite lookup_drop in Hi'; unfold pivot_index;
    replace (plm_left_index p + 1 + Z.of_nat i + Z.of_nat i')
      with (plm_left_index p + 1 + Z.of_nat (i + i')) by lia;
    split; [|by apply (la_data _ _ _ _ _ Hl)];
    apply lookup_lt_Some in Hi'; unfold is_u64 in *; lia)).
  destruct (iter_for_rule (fun rest j '(cur, nodes) => exists pre, drop i vals = pre ++ rest /\
      cur = j /\ j = pivot_index + Z.of_nat (length pre) /\
      nodes = user_value <$> (if decide (before_or_after = Before) then pre else drop 1 pre))
    db key _ Next 1 (fun '(current_index, _) => current_index <? plm_right_index p)
    (fun it '(current_index, nodes) =>
       (u64 (current_index + 1),
        if (current_index =? pivot_index) && bool_decide (before_or_after = After) then nodes
        else nodes ++ [element_of it])) _ _ _ Hvis)
    with (fuel := index_fuel pivot_index (plm_right_index p)) (st := (pivot_index, @nil bytes))
    as ([cur nodes] & rest & j & -> & (pre & Hpre & -> & -> & ->) & Hc).
  - clear - Hle Hri Hright Hi. intros j it v vs [cur nodes] Hon Hc (pre & Hpre & -> & -> & ->).
    unfold element_of. destruct (iter_on_valid _ _ _ _ _ Hon) as [_ ->]. fold (user_value v).
    apply Z.ltb_lt in Hc. exists (pre ++ [v]). rewrite length_app, <- app_assoc.
    split_and!; [done|rewrite u64_id; unfold is_u64, pivot_index in *; lia|simpl; lia|].
    destruct (Z.eqb_spec (pivot_index + Z.of_nat (length pre)) pivot_index);
      destruct before_or_after; simpl; rewrite ?fmap_app; try done.
    + destruct pre; [done|simpl in *; lia].
    + destruct pre as [|u pre]; [simpl in *; lia|].
      change (drop 1 ((u :: pre) ++ [v])) with (drop 0 (pre ++ [v])).
      change (drop 1 (u :: pre)) with (drop 0 pre). by rewrite !drop_0, fmap_app.
  - intros j [cur nodes] (pre & Hpre & -> & -> & _). rewrite app_nil_r in Hpre. subst pre.
    apply Z.ltb_ge. rewrite length_drop. unfold pivot_index. lia.
  - unfold index_fuel, pivot_index. rewrite length_drop. lia.
  - exists []. split_and!; try done; [simpl; lia|]. by destruct before_or_after.
  - simpl. apply Z.ltb_ge in Hc. apply (f_equal length) in Hpre as Hlen.
    rewrite length_app, length_drop in Hlen. unfold pivot_index in Hc.
    destruct rest; [|simpl in *; lia]. rewrite app_nil_r in Hpre. subst pre.
    destruct before_or_after; simpl; rewrite ?drop_drop; repeat f_equal; lia.
Qed.

(** ** The list after the insertion *)

(** Elements are rewritten with the time of the command. *)
Definition rewritten (now : Z) (vals : list bytes) : list bytes :=
  data_value now <$> (user_value <$> vals).

Lemma rewritten_values now vals : Forall (fun v => (24 <= length v)%nat) (rewritten now vals).
Proof.
  apply Forall_forall. intros v (x & -> & _)%list_elem_of_fmap. apply data_value_length.
Qed.

Lemma user_rewritten now vals : user_value <$> rewritten now vals = user_value <$> vals.
Proof. apply user_values. Qed.

Lemma pending_insert_left now key p vals value r k :
  list_at (db_ r) now key p vals -> (k <= length vals)%nat -> 1 <= plm_left_index p ->
  let p' := ParsedListsMetaValue_ModifyCount (ParsedListsMetaValue_ModifyLeftIndex p 1) 1 in
  pending (data_of (db_ r) key (piv_version (plm_base p))) p'
    (node_ops now (plm_left_index p) (user_value <$> take k vals) ++
     [(plm_left_index p + Z.of_nat k, Some (data_value now value))])
    (rewritten now (take k vals) ++ data_value now value :: drop k vals).
Proof.
  intros H Hk Hleft p'. destruct (list_at_bounds _ _ _ _ _ H) as (Hl & Hr & _ & Hn & Hright).
  assert (Elen : length (rewritten now (take k vals) ++ data_value now value :: drop k vals) =
                 S (length vals)).
  { unfold rewritten. rewrite length_app, !length_fmap, length_take. simpl. rewrite length_drop. lia. }
  assert (El : plm_left_index p' = plm_left_index p - 1)
    by (simpl; rewrite u64_id; unfold is_u64 in *; lia).
  pose proof (la_coherent _ _ _ _ _ H). pose proof (la_count _ _ _ _ _ H) as Hcnt. constructor.
  - unfold p', ParsedListsMetaValue_ModifyCount, ParsedListsMetaValue_ModifyLeftIndex. auto with coherent.
  - apply H.
  - rewrite Elen. simpl. rewrite Hcnt, u64_id; unfold is_u64 in *; lia.
  - rewrite Elen, El. simpl. lia.
  - rewrite El. intros i v Hi. cbv zeta. rewrite assign_snoc.
    replace (plm_left_index p - 1 + 1 + Z.of_nat i) with (plm_left_index p + Z.of_nat i) by lia.
    assert (Hrl : length (rewritten now (take k vals)) = k)
      by (unfold rewritten; rewrite !length_fmap, length_take; lia).
    destruct (Nat.lt_trichotomy i k) as [Hlt|[->|Hgt]].
    + rewrite lookup_app_l in Hi by lia. apply list_lookup_fmap_Some_1 in Hi as (x & -> & Hx).
      destruct (Z.eqb_spec (plm_left_index p + Z.of_nat k) (plm_left_index p + Z.of_nat i)); [lia|].
      by apply assign_nodes_in.
    + rewrite Z.eqb_refl. rewrite lookup_app_r, Hrl, Nat.sub_diag in Hi by lia. by injection Hi as <-.
    + destruct (Z.eqb_spec (plm_left_index p + Z.of_nat k) (plm_left_index p + Z.of_nat i)); [lia|].
      rewrite assign_nodes_out by (right; rewrite length_fmap, length_take; lia).
      rewrite lookup_app_r, Hrl in Hi by lia. destruct (i - k)%nat as [|d] eqn:E; [lia|]. simpl in Hi.
      rewrite lookup_drop in Hi. rewrite <- (la_data _ _ _ _ _ H _ _ Hi). f_equal. lia.
  - apply Forall_app. split; [apply rewritten_values|]. constructor; [apply data_value_length|].
    apply Forall_drop, H.
Qed.

Lemma pending_insert_right now key p vals value r k :
  list_at (db_ r) now key p vals -> (k <= length vals)%nat -> plm_right_index p + 1 < 2 ^ 64 ->
  let p' := ParsedListsMetaValue_ModifyCount (ParsedListsMetaValue_ModifyRightIndex p 1) 1 in
  let target := plm_left_index p + 1 + Z.of_nat k in
  pending (data_of (db_ r) key (piv_version (plm_base p))) p'
    (node_ops now (target + 1) (user_value <$> drop k vals) ++
     [(target, Some (data_value now value))])
    (take k vals ++ data_value now value :: rewritten now (drop k vals)).
Proof.
  intros H Hk Hroom p' target. destruct (list_at_bounds _ _ _ _ _ H) as (Hl & Hr & _ & Hn & Hright).
  assert (Elen : length (take k vals ++ data_value now value :: rewritten now (drop k vals)) =
                 S (length vals)).
  { unfold rewritten. rewrite length_app, length_take. simpl. rewrite !length_fmap, length_drop. lia. }
  pose proof (la_coherent _ _ _ _ _ H). pose proof (la_count _ _ _ _ _ H) as Hcnt. constructor.
  - unfold p', ParsedListsMetaValue_ModifyCount, ParsedListsMetaValue_ModifyRightIndex. auto with coherent.
  - apply H.
  - rewrite Elen. simpl. rewrite Hcnt, u64_id; unfold is_u64 in *; lia.
  - rewrite Elen. simpl. rewrite u64_id; unfold is_u64 in *; lia.
  - change (plm_left_index p') with (plm_left_index p). intros i v Hi. cbv zeta. rewrite assign_snoc.
    assert (Htl : length (take k vals) = k) by (rewrite length_take; lia).
    unfold target. destruct (Nat.lt_trichotomy i k) as [Hlt|[->|Hgt]].
    + rewrite lookup_app_l in Hi by lia. apply lookup_take_Some in Hi as [Hi _].
      destruct (Z.eqb_spec (plm_left_index p + 1 + Z.of_nat k) (plm_left_index p + 1 + Z.of_nat i)); [lia|].
      rewrite assign_nodes_out by lia. by apply (la_data _ _ _ _ _ H).
    + rewrite Z.eqb_refl. rewrite lookup_app_r, Htl, Nat.sub_diag in Hi by lia. by injection Hi as <-.
    + destruct (Z.eqb_spec (plm_left_index p + 1 + Z.of_nat k) (plm_left_index p + 1 + Z.of_nat i)); [lia|].
      rewrite lookup_app_r, Htl in Hi by lia. destruct (i - k)%nat as [|d] eqn:E; [lia|].
      change (rewritten now (drop k vals) !! d = Some v) in Hi.
      apply list_lookup_fmap_Some_1 in Hi as (x & -> & Hx).
      replace (plm_left_index p + 1 + Z.of_nat i) with
        (plm_left_index p + 1 + Z.of_nat k + 1 + Z.of_nat d) by lia.
      by apply assign_nodes_in.
  - apply Forall_app. split; [apply Forall_take, H|]. constructor; [apply data_value_length|].
    apply rewritten_values.
Qed.

(** The batch of an insertion and the answer. *)
Lemma insert_finish now key p b ops target value n vals' l e r :
  let version := piv_version (plm_base p) in
  key_ok key = true -> engine_ok r -> IsStale now (plm_base p) = false -> is_u64 target ->
  effects key version b None ops ->
  pending (data_of (db_ r) key version) p (ops ++ [(target, Some (data_value now value))]) vals' ->
  user_value <$> vals' = l -> piv_etime (plm_base p) = e -> length vals' = S n ->
  Z.of_nat n < 2 ^ 31 - 1 ->
  exists r', bind (Write (b ++ [put_meta key p; put_data key version target (data_value now value)]))
      (fun s => ret (s, i32 (plm_count p))) r = Some ((Status_OK, Z.of_nat (S n)), r') /\
    stores now key l e r r'.
Proof.
  intros version K He Hs Ht HE Hp Hu Het Hlen Hsmall.
  assert (HE' : effects key version (b ++ [put_meta key p; put_data key version target (data_value now value)])
    (Some (piv_data (plm_base p))) (ops ++ [(target, Some (data_value now value))])).
  { apply (effects_app _ _ _ _ _ _ (Some (piv_data (plm_base p))) _ HE).
    apply (eff_meta _ _ _ _ None). by apply effects_put_data. }
  destruct (batch_stores now key _ _ p vals' l e r K He HE' Hp Hs Hu Het) as (r' & HW & Hst).
  exists r'. split; [|done]. unfold bind. rewrite HW. unfold ret.
  rewrite (pe_count _ _ _ _ Hp), Hlen, i32_id by lia. done.
Qed.

Lemma insert_left now key p vals value k target r :
  key_ok key = true -> engine_ok r -> list_at (db_ r) now key p vals -> (k <= length vals)%nat ->
  1 <= plm_left_index p -> target = plm_left_index p + Z.of_nat k -> Z.of_nat (length vals) < 2 ^ 31 - 1 ->
  let p' := ParsedListsMetaValue_ModifyCount (ParsedListsMetaValue_ModifyLeftIndex p 1) 1 in
  let version := piv_version (plm_base p) in
  exists r', bind (Write (put_nodes now key version (plm_left_index p) (user_value <$> take k vals) ++
        [put_meta key p'; put_data key version target (data_value now value)]))
      (fun s => ret (s, i32 (plm_count p'))) r = Some ((Status_OK, Z.of_nat (S (length vals))), r') /\
    stores now key (insert_at k value (user_value <$> vals)) (piv_etime (plm_base p)) r r'.
Proof.
  intros K He Hl Hk Hleft Et Hsmall p' version.
  destruct (list_at_bounds _ _ _ _ _ Hl) as (Hle & Hri & _ & Hn & Hr).
  pose proof (pending_insert_left now key p vals value r k Hl Hk Hleft) as Hp. cbv zeta in Hp.
  rewrite <- Et in Hp. eapply (insert_finish now key p') with (n := length vals); try done.
  - apply Hl.
  - rewrite Et. unfold is_u64 in *. lia.
  - apply put_nodes_effects; unfold is_u64 in *; [lia|]. rewrite length_fmap, length_take. lia.
  - rewrite fmap_app, user_rewritten. simpl. by rewrite user_value_data_value, fmap_take, fmap_drop.
  - unfold rewritten. rewrite length_app, !length_fmap, length_take. simpl. rewrite length_drop. lia.
Qed.

Lemma insert_right now key p vals value k target r :
  key_ok key = true -> engine_ok r -> list_at (db_ r) now key p vals -> (k <= length vals)%nat ->
  plm_right_index p + 1 < 2 ^ 64 -> target = plm_left_index p + 1 + Z.of_nat k -> Z.of_nat (length vals) < 2 ^ 31 - 1 ->
  let p' := ParsedListsMetaValue_ModifyCount (ParsedListsMetaValue_ModifyRightIndex p 1) 1 in
  let version := piv_version (plm_base p) in
  exists r', bind (Write (put_nodes now key version (u64 (target + 1)) (user_value <$> drop k vals) ++
        [put_meta key p'; put_data key version target (data_value now value)]))
      (fun s => ret (s, i32 (plm_count p'))) r = Some ((Status_OK, Z.of_nat (S (length vals))), r') /\
    stores now key (insert_at k value (user_value <$> vals)) (piv_etime (plm_base p)) r r'.
Proof.
  intros K He Hl Hk Hright Et Hsmall p' version.
  destruct (list_at_bounds _ _ _ _ _ Hl) as (Hle & Hri & _ & Hn & Hr).
  pose proof (pending_insert_right now key p vals value r k Hl Hk Hright) as Hp. cbv zeta in Hp.
  rewrite <- Et in Hp. rewrite (u64_id (target + 1)) by (rewrite Et; unfold is_u64 in *; lia).
  eapply (insert_finish now key p') with (n := length vals); try done.
  - apply Hl.
  - rewrite Et. unfold is_u64 in *. lia.
  - apply put_nodes_effects; unfold is_u64 in *; [lia|]. rewrite length_fmap, length_drop. lia.
  - rewrite fmap_app. simpl. by rewrite user_value_data_value, user_rewritten, fmap_take, fmap_drop.
  - unfold rewritten. rewrite length_app, length_take. simpl. rewrite !length_fmap, length_drop. lia.
Qed.

(** C38: LINSERT.  On a list that is there, [LInsert] puts the value right
    before or right after the first element equal to the pivot and answers the
    new length; the other elements keep their order, and the expiry time and
    every other key stay as they are.
    Without a pivot it answers -1, on a key that holds no list 0, both with a
    NotFound status, and writes nothing. *)
Theorem LInsert_correct now key before_or_after pivot value l e r :
  key_ok key = true -> engine_ok r -> holds (db_ r) now key l e -> room (db_ r) key 1 ->
  Z.of_nat (length l) < 2 ^ 31 - 1 ->
  match insert_position before_or_after l pivot with
  | None => exists st, LInsert now key before_or_after pivot value r =
      Some ((st, match l with [] => 0 | _ => -1 end), r) /\ status_code st = kNotFound
  | Some k => exists r', LInsert now key before_or_after pivot value r =
      Some ((Status_OK, Z.of_nat (S (length l))), r') /\
      stores now key (insert_at k value l) e r r'
  end.
Proof.
  intros K He Hh [_ Hroom] Hsmall. pose proof (proj1 He) as Hdb. destruct l as [|x l].
  { simpl. unfold LInsert, bind. destruct (GetList_vacant now key key r Hdb Hh) as (st & -> & Hst). by exists st. }
  destruct Hh as (p & vals & Hl & Hu & <-). unfold LInsert.
  destruct (Hroom p (la_meta _ _ _ _ _ Hl) (la_coherent _ _ _ _ _ Hl) (la_type _ _ _ _ _ Hl)) as [Hleft Hright].
  destruct (list_at_bounds _ _ _ _ _ Hl) as (Hle & Hri & _ & Hn & Hr).
  rewrite !(bind_GetList now key key p vals r _ Hdb Hl). cbv zeta.
  rewrite !bind_gets, !(bind_lift _ _ _ _ (find_pivot_spec now key p vals pivot (db_ r) Hdb K Hl)), Hu.
  unfold insert_position. destruct (list_find _ _) as [[i y]|] eqn:Hf;
    unfold fmap, option_fmap, option_map; [|by eexists].
  assert (Hi : (i < length vals)%nat).
  { apply list_find_Some in Hf as (Hf & _ & _). apply lookup_lt_Some in Hf.
    by rewrite <- Hu, length_fmap in Hf. }
  assert (Hlen : length (x :: l) = length vals) by (by rewrite <- Hu, length_fmap).
  rewrite Hlen in *. set (k := if decide _ then i else S i).
  assert (Hk : (k <= length vals)%nat) by (unfold k; destruct (decide _); lia).
  destruct (plm_left_index p + 1 + Z.of_nat i <=? _).
  - erewrite bind_run.
    2:{ by rewrite (bind_lift _ _ _ _
          (left_nodes_spec now key p vals before_or_after i (db_ r) Hdb K Hl Hi)). }
    fold k. rewrite <- Hu. apply (insert_left now key p vals value k); try done.
    unfold k. destruct (decide _); [rewrite u64_id; unfold is_u64 in *|]; lia.
  - erewrite bind_run.
    2:{ by rewrite (bind_lift _ _ _ _
          (right_nodes_spec now key p vals before_or_after i (db_ r) Hdb K Hl Hi)). }
    fold k. rewrite <- Hu. apply (insert_right now key p vals value k); try done.
    unfold k. destruct (decide _); [|rewrite u64_id; unfold is_u64 in *]; lia.
Qed.

End ListInsert.
