(* ===== verification/ListMove.v ===== *)
(** * RPOPLPUSH

    [Redis::RPoplpush] rotates a list when source and destination are the same
    key, and otherwise writes both lists in one batch. *)

From S2P Require Import Prelude Coding KeyFormat Comparator ValueFormat RocksDB LruCache Redis KeySpace Lists ListSpec ListPush ListRead ListUpdate.
Open Scope Z_scope.

Section ListMove.
Context {R : RocksDB} {L : RocksDBLaws R} {U : Uninit}.

(** ** Databases with the same lookups *)

Definition db_equiv (db db' : DB) : Prop :=
  forall cf k, cf <> kZsetsScoreCF -> db_lookup db cf k = db_lookup db' cf k.

#[export] Instance db_equiv_equivalence : Equivalence db_equiv.
Proof.
  split; [done|intros x y H cf k Hcf; by rewrite H|intros x y z H1 H2 cf k Hcf; by rewrite H1, H2].
Qed.

#[export] Instance meta_of_proper : Proper (db_equiv ==> eq ==> eq) meta_of.
Proof. intros db db' H k ? <-. by apply H. Qed.

#[export] Instance data_of_proper : Proper (db_equiv ==> eq ==> eq ==> eq ==> eq) data_of.
Proof. intros db db' H k ? <- v ? <- i ? <-. by apply H. Qed.

#[export] Instance holds_proper : Proper (db_equiv ==> eq ==> eq ==> eq ==> eq ==> impl) holds.
Proof.
  intros db db' H now ? <- key ? <- l ? <- e ? <- Hh. destruct l as [|x l].
  - simpl in *. destruct Hh as [Hm|mv Hm|p Hm].
    + apply vacant_absent. by rewrite <- H.
    + eapply vacant_other; [by rewrite <- H|done..].
    + eapply vacant_list; [by rewrite <- H|done..].
  - destruct Hh as (p & vals & [Hm Hc Ht Hs Hne Hn Hr Hd Hv] & Hu & He).
    exists p, vals. split; [|done]. constructor; try done; [by rewrite <- H|].
    intros i v Hi. rewrite <- H. by apply Hd.
Qed.

#[export] Instance others_same_proper : Proper (eq ==> eq ==> db_equiv ==> impl) others_same.
Proof.
  intros key ? <- db ? <- db1 db2 H (H1 & H2 & H3). split_and!.
  - intros k Hk Hne. rewrite <- H. by apply H1.
  - intros k v i Hk Hne Hv Hi. rewrite <- H. by apply H2.
  - intros cf k N1 N2 N3. rewrite <- H by done. by apply H3.
Qed.

(** A batch is the same as its two halves in sequence. *)
Lemma Write_app b1 b2 r r1 r2 :
  engine_ok r -> Write b1 r = Some (Status_OK, r1) -> Write b2 r1 = Some (Status_OK, r2) ->
  exists r', Write (b1 ++ b2) r = Some (Status_OK, r') /\ engine_ok r' /\ db_equiv (db_ r2) (db_ r').
Proof.
  intros [Hdb Hst] H1 H2. unfold Write in *.
  destruct (Write_lookup (db_ r) b1 Hdb) as (db1 & E1 & Hdb1 & L1). rewrite E1 in H1.
  injection H1 as <-. simpl in H2.
  destruct (Write_lookup db1 b2 Hdb1) as (db2 & E2 & Hdb2 & L2). rewrite E2 in H2.
  injection H2 as <-.
  destruct (Write_lookup (db_ r) (b1 ++ b2) Hdb) as (db' & E & Hdb' & L').
  exists (with_db r db'). rewrite E. split; [done|]. split; [done|]. intros cf k Hcf. simpl.
  rewrite L', L2, L1 by done. unfold lookup_after. by rewrite fold_left_app.
Qed.

(** ** Keys a command does not touch *)

Lemma others_holds key k db db' now l e :
  others_same key db db' -> key_ok k = true -> k <> key -> holds db now k l e -> holds db' now k l e.
Proof.
  intros (H1 & H2 & _) K Hne Hh. destruct l as [|x l]; simpl in *.
  - destruct Hh as [Hm|mv Hm|p Hm].
    + apply vacant_absent. by rewrite H1.
    + eapply vacant_other; [by rewrite H1|done..].
    + eapply vacant_list; [by rewrite H1|done..].
  - destruct Hh as (p & vals & Hl & Hu & He). exists p, vals. split; [|done].
    destruct (list_at_bounds _ _ _ _ _ Hl) as (Hle & Hri & Hv & _ & Hright).
    destruct Hl as [Hm Hc Ht Hs Hn0 Hn Hr Hd Hvs]. constructor; try done; [by rewrite H1|].
    intros i v Hi. pose proof (lookup_lt_Some _ _ _ Hi). rewrite H2; try done; [by apply Hd|].
    unfold is_u64 in *. lia.
Qed.

Lemma pending_ext D D' p ops vals :
  (forall j, is_u64 j -> D' j = D j) -> pending D p ops vals -> pending D' p ops vals.
Proof.
  intros HD Hp. pose proof Hp as [Hc Ht Hn Hr Hd Hv]. constructor; try done.
  intros i v Hi. cbv zeta. rewrite HD; [by apply Hd|].
  eapply pending_u64; [exact Hp|by eapply lookup_lt_Some].
Qed.

(** ** The last element *)

Lemma list_at_last now key p vals v r :
  healthy (db_ r) -> list_at (db_ r) now key p (vals ++ [v]) ->
  u64 (plm_right_index p - 1) = plm_right_index p - 1 /\ is_u64 (plm_right_index p - 1) /\
  Get kListsDataCF (ListsDataKey_Encode key (piv_version (plm_base p)) (plm_right_index p - 1)) r =
    Some ((Status_OK, v), r) /\ (24 <= length v)%nat.
Proof.
  intros Hdb Hl. destruct (list_at_bounds _ _ _ _ _ Hl) as (Hle & Hri & Hv & _ & Hright).
  rewrite length_app in Hright. simpl in Hright. unfold is_u64 in *.
  assert (Hlast : (vals ++ [v]) !! length vals = Some v) by (by rewrite list_lookup_middle).
  pose proof (la_data _ _ _ _ _ Hl _ _ Hlast) as Hd.
  replace (plm_left_index p + 1 + Z.of_nat (length vals)) with (plm_right_index p - 1) in Hd by lia.
  split_and!; [rewrite u64_id; unfold is_u64; lia|lia|lia| |].
  - unfold Get. rewrite Get_lookup by done. unfold data_of in Hd. by rewrite Hd.
  - pose proof (la_values _ _ _ _ _ Hl) as HF. by apply Forall_app in HF as [_ ?%Forall_inv].
Qed.

Lemma split_last_vals (vals : list bytes) l x :
  user_value <$> vals = l ++ [x] -> exists vs v, vals = vs ++ [v] /\ user_value <$> vs = l /\ user_value v = x.
Proof.
  intros H. apply fmap_app_inv in H as (vs & w & -> & Hw & ->).
  destruct w as [|v [|u w]]; try done. injection Hw as ->. by exists vs, v.
Qed.

Lemma holds_last db now key l x e :
  holds db now key (l ++ [x]) e ->
  exists p vs v, list_at db now key p (vs ++ [v]) /\ user_value <$> vs = l /\ user_value v = x /\
    piv_etime (plm_base p) = e.
Proof.
  intros Hh. assert (exists p vals, list_at db now key p vals /\ user_value <$> vals = l ++ [x] /\
    piv_etime (plm_base p) = e) as (p & vals & Hl & Hu & He) by (by destruct l).
  destruct (split_last_vals _ _ _ Hu) as (vs & v & -> & <- & <-). by exists p, vs, v.
Qed.

(** ** One key *)

Lemma rotate_pending now key p vs v r :
  list_at (db_ r) now key p (vs ++ [v]) -> 1 <= plm_left_index p ->
  pending (data_of (db_ r) key (piv_version (plm_base p)))
    (ParsedListsMetaValue_ModifyLeftIndex (ParsedListsMetaValue_ModifyRightIndex p (u64 (-1))) 1)
    [(plm_right_index p - 1, None); (plm_left_index p, Some v)] (v :: vs).
Proof.
  intros Hl Hleft. pose proof (list_at_bounds _ _ _ _ _ Hl) as (Hle & Hri & _ & _ & Hright).
  pose proof (pop_count _ _ _ _ (list_at_pending _ _ _ _ _ Hl) ltac:(by destruct vs)) as (_ & _ & Er).
  pose proof (la_count _ _ _ _ _ Hl) as Hcnt. rewrite length_app in Hcnt, Hright. simpl in Hcnt, Hright.
  pose proof (la_coherent _ _ _ _ _ Hl).
  constructor.
  - unfold ParsedListsMetaValue_ModifyLeftIndex, ParsedListsMetaValue_ModifyRightIndex. auto with coherent.
  - apply Hl.
  - simpl. rewrite Hcnt. lia.
  - simpl. rewrite Er, u64_id; unfold is_u64 in *; lia.
  - simpl plm_left_index. rewrite u64_id by (unfold is_u64 in *; lia).
    intros [|i] w Hi; simpl in Hi; cbv zeta; unfold assign; simpl.
    + replace (plm_left_index p - 1 + 1 + Z.of_nat 0) with (plm_left_index p) by lia.
      rewrite Z.eqb_refl. by injection Hi as <-.
    + pose proof (lookup_lt_Some _ _ _ Hi).
      rewrite (proj2 (Z.eqb_neq (plm_left_index p) _)), (proj2 (Z.eqb_neq (plm_right_index p - 1) _)) by lia.
      replace (plm_left_index p - 1 + 1 + Z.of_nat (S i)) with
        (plm_left_index p + 1 + Z.of_nat i) by lia.
      apply (la_data _ _ _ _ _ Hl). by apply lookup_app_l_Some.
  - pose proof (la_values _ _ _ _ _ Hl) as [? ?%Forall_inv]%Forall_app. by constructor.
Qed.

(** Rotating a list: its last element moves to the front. *)
Theorem RPoplpush_same now key l x e r :
  key_ok key = true -> engine_ok r -> holds (db_ r) now key (l ++ [x]) e -> room (db_ r) key 1 ->
  exists r', RPoplpush now key key r = Some ((Status_OK, x), r') /\ stores now key (x :: l) e r r'.
Proof.
  intros K He Hh [_ Hroom]. destruct (holds_last _ _ _ _ _ _ Hh) as (p & vs & v & Hl & <- & <- & <-).
  destruct (Hroom p (la_meta _ _ _ _ _ Hl) (la_coherent _ _ _ _ _ Hl) (la_type _ _ _ _ _ Hl)) as [Hleft _].
  destruct (list_at_last now key p vs v r (proj1 He) Hl) as (E1 & Hu & HG & Hlen).
  unfold RPoplpush. rewrite decide_True by done.
  rewrite (bind_GetList now key key p _ r _ (proj1 He) Hl). cbv zeta. rewrite E1.
  rewrite (bind_run _ _ _ _ _ HG). change (ok Status_OK) with true. cbv iota.
  rewrite (bind_lift _ _ _ _ (strip_user_value v Hlen)), (la_count _ _ _ _ _ Hl), length_app.
  destruct (Z.eqb_spec (Z.of_nat (length vs + length [v])) 1) as [E|E].
  - destruct vs as [|w vs]; [|simpl in E; lia]. exists r. split; [done|]. split; [done|].
    split; [by exists p, [v]|]. done.
  - set (p2 := ParsedListsMetaValue_ModifyLeftIndex _ _).
    pose proof (rotate_pending now key p vs v r Hl Hleft) as Hp. fold p2 in Hp.
    assert (HE : effects key (piv_version (plm_base p2))
      [Delete kListsDataCF (ListsDataKey_Encode key (piv_version (plm_base p)) (plm_right_index p - 1));
       put_data key (piv_version (plm_base p)) (plm_left_index p) v; put_meta key p2]
      (Some (piv_data (plm_base p2))) [(plm_right_index p - 1, None); (plm_left_index p, Some v)]).
    { constructor; [done|apply cmp_refl|]. constructor; [|apply cmp_refl|].
      - apply (list_at_bounds _ _ _ _ _ Hl).
      - apply (eff_meta _ _ _ _ None), eff_nil. }
    destruct (batch_stores now key _ _ p2 _ _ _ r K He HE Hp (la_live _ _ _ _ _ Hl) eq_refl eq_refl)
      as (r1 & HW & Hst).
    rewrite (bind_run _ _ _ _ _ HW). by apply stores_statistics.
Qed.

(** ** Two keys *)

Lemma source_batch now source p vs v r :
  key_ok source = true -> engine_ok r -> list_at (db_ r) now source p (vs ++ [v]) ->
  let p1 := ParsedListsMetaValue_ModifyCount p (u64 (-1)) in
  let p2 := ParsedListsMetaValue_ModifyRightIndex p1 (u64 (-1)) in
  exists r1, Write [Delete kListsDataCF
        (ListsDataKey_Encode source (piv_version (plm_base p)) (plm_right_index p - 1));
      put_meta source p2] r = Some (Status_OK, r1) /\
    stores now source (user_value <$> vs) (piv_etime (plm_base p)) r r1.
Proof.
  intros K He Hl p1 p2. pose proof (list_at_pending _ _ _ _ _ Hl) as Hp.
  destruct (list_at_last now source p vs v r (proj1 He) Hl) as (_ & Hu & _ & _).
  pose proof (pop_count _ _ _ _ Hp ltac:(by destruct vs)) as (Ec & _ & Er).
  assert (HE : effects source (piv_version (plm_base p2)) [Delete kListsDataCF
    (ListsDataKey_Encode source (piv_version (plm_base p)) (plm_right_index p - 1))] None
    [(plm_right_index p - 1, None)]) by (constructor; [done|apply cmp_refl|constructor]).
  eapply (write_stores now source _ _ p2 vs _ _ r K He HE); try done; [|by apply Hl].
  apply (pending_init _ p p2 [] v vs Hp); try done; [|apply Hl].
  pose proof (la_coherent _ _ _ _ _ Hl). unfold p2, p1, ParsedListsMetaValue_ModifyRightIndex,
    ParsedListsMetaValue_ModifyCount. auto with coherent.
Qed.

Lemma destination_stores now source destination l e n v r r1 :
  key_ok destination = true -> clock_ok now -> destination <> source -> engine_ok r ->
  engine_ok r1 -> others_same source (db_ r) (db_ r1) ->
  holds (db_ r) now destination l e -> room (db_ r) destination n -> 1 <= n -> (24 <= length v)%nat ->
  exists s mv b r2,
    GetMeta now kLists destination destination r = Some (inr (s, mv), r) /\
    destination_batch now destination v s mv r = Some (Some b, r) /\
    Write b r1 = Some (Status_OK, r2) /\
    stores now destination (user_value v :: l) (pushed_etime l e) r1 r2.
Proof.
  intros K Hnow Hne He He1 Ho Hh Hroom Hn Hv.
  destruct (push_start now destination l e n r (proj1 He) (clock_u64 _ Hnow) Hh Hroom)
    as [(mv & -> & HG)|(p0 & vals & HG & HP & Hp & <- & Hs & Het & Hl & _)].
  - set (m0 := new_list_meta now (Z.of_nat 1)). set (version := iv_version (lmv_base m0)).
    destruct (pending_new_cons (data_of (db_ r1) destination version) now 1 m0 [] [] v
      (pending_new_start _ now 1) ltac:(done) Hv) as [Hp _].
    destruct (finish_push_new now 1 destination
      [put_data destination version (lmv_left_index m0) v] _ _ [v] [user_value v] r1 K Hnow He1
      ltac:(by apply effects_put_data) Hp eq_refl eq_refl) as (r2 & HW & Hst).
    unfold bind in HW. destruct (Write _ r1) as [[s r2']|] eqn:HW'; [|done]. injection HW as -> ->.
    eexists _, _, _, r2. split_and!; [exact HG| |exact HW'|exact Hst].
    done.
  - set (q := revive now p0) in *. set (q1 := ParsedListsMetaValue_ModifyCount q 1).
    set (q2 := ParsedListsMetaValue_ModifyLeftIndex q1 1).
    assert (Hc2 : lists_meta_coherent q2).
    { destruct Hp. unfold q2, q1, ParsedListsMetaValue_ModifyLeftIndex,
        ParsedListsMetaValue_ModifyCount. auto with coherent. }
    destruct (coherent_ranges q (pe_coherent _ _ _ _ Hp)) as (_ & Hql & _ & Hqv).
    pose proof (pending_cons _ q q2 [] vals v Hp Hc2 ltac:(apply Hp) eq_refl eq_refl eq_refl
      ltac:(lia) Hv) as Hp2.
    apply (pending_ext _ (data_of (db_ r1) destination (piv_version (plm_base q2)))) in Hp2.
    2:{ intros j Hj. destruct Ho as (_ & Ho & _). by apply Ho. }
    destruct (write_stores now destination
      [put_data destination (piv_version (plm_base q)) (plm_left_index q) v]
      _ q2 _ _ _ r1 K He1 (effects_put_data _ _ _ _ Hql) Hp2 Hs eq_refl Het) as (r2 & HW & Hst).
    eexists _, _, _, r2. split_and!; [exact HG| |exact HW|exact Hst].
    unfold destination_batch. change (ok Status_OK) with true. cbv iota.
    by rewrite (bind_lift _ _ _ _ HP).
Qed.

(** Moving between two lists: the last element of the source becomes the first
    of the destination, which may be in any state; every other key is
    untouched. *)
Theorem RPoplpush_two now source destination l1 x e1 l2 e2 r :
  key_ok source = true -> key_ok destination = true -> source <> destination -> clock_ok now ->
  engine_ok r -> holds (db_ r) now source (l1 ++ [x]) e1 ->
  holds (db_ r) now destination l2 e2 -> room (db_ r) destination 1 ->
  exists r', RPoplpush now source destination r = Some ((Status_OK, x), r') /\ engine_ok r' /\
    holds (db_ r') now source l1 e1 /\
    holds (db_ r') now destination (x :: l2) (pushed_etime l2 e2) /\
    forall k l e, key_ok k = true -> k <> source -> k <> destination ->
      holds (db_ r) now k l e -> holds (db_ r') now k l e.
Proof.
  intros Ks Kd Hne Hnow He Hs Hd Hroom.
  destruct (holds_last _ _ _ _ _ _ Hs) as (p & vs & v & Hl & <- & <- & <-).
  destruct (list_at_last now source p vs v r (proj1 He) Hl) as (E1 & Hu & HG & Hlen).
  destruct (source_batch now source p vs v r Ks He Hl) as (r1 & HW1 & (He1 & Hh1 & Ho1)).
  destruct (destination_stores now source destination l2 e2 1 v r r1 Kd Hnow ltac:(done) He He1 Ho1 Hd
    Hroom ltac:(lia) Hlen) as (s & mv & b & r2 & HG2 & Hb & HW2 & (He2 & Hh2 & Ho2)).
  destruct (Write_app _ _ _ _ _ He HW1 HW2) as (r3 & HW3 & He3 & Heq).
  destruct (UpdateSpecificKeyStatistics_ok kLists source 1 r3 ltac:(done) (proj2 He3))
    as (r' & HU & (Hdb' & _) & Hst').
  exists r'. split; [|split; [split; [rewrite Hdb'; apply He3|done]|rewrite Hdb'; split_and!]].
  - unfold RPoplpush. rewrite decide_False by done.
    rewrite (bind_GetList now source source p _ r _ (proj1 He) Hl). cbv zeta. rewrite E1.
    rewrite (bind_run _ _ _ _ _ HG). change (ok Status_OK) with true. cbv iota.
    rewrite (bind_run _ _ _ _ _ HG2), (bind_run _ _ _ _ _ Hb), (bind_run _ _ _ _ _ HW3),
      (bind_run _ _ _ _ _ HU). change (ok Status_OK) with true. cbv iota.
    by rewrite (bind_lift _ _ _ _ (strip_user_value v Hlen)).
  - rewrite <- Heq. by apply (others_holds destination source (db_ r1)).
  - by rewrite <- Heq.
  - intros k l e Kk Hk1 Hk2 Hk. rewrite <- Heq.
    apply (others_holds destination k (db_ r1)); try done. by apply (others_holds source k (db_ r)).
Qed.

End ListMove.
