(* ===== verification/ListRem.v ===== *)
(** * LREM

    [Redis::LRem] finds the elements to remove, walking from the end the sign
    of [count] names, then closes the gaps by moving the shorter side of the
    list over them. *)

From S2P Require Import Prelude Coding KeyFormat Comparator ValueFormat RocksDB LruCache Redis KeySpace Lists ListSpec ListRead ListPush ListUpdate.
Open Scope Z_scope.

(** ** Removing the first elements that satisfy a predicate *)

Section RemoveFirst.
Context {A : Type} (P : A -> Prop) {Pdec : forall x, Decision (P x)}.
Local Open Scope nat_scope.

Fixpoint remove_first (n : nat) (l : list A) : list A :=
  match l with
  | [] => []
  | x :: l =>
      if decide (P x) then match n with O => x :: l | S n => remove_first n l end
      else x :: remove_first n l
  end.

Lemma remove_first_0 l : remove_first 0 l = l.
Proof. induction l as [|x l IH]; simpl; [done|]. case_decide; [done|by rewrite IH]. Qed.

Lemma remove_first_skip n a b :
  Forall (fun x => ~ P x) a -> remove_first n (a ++ b) = a ++ remove_first n b.
Proof. induction 1 as [|x a Hx _ IH]; [done|]. simpl. by rewrite decide_False, IH by done. Qed.

Lemma remove_first_app a b :
  remove_first (length (filter P a)) (a ++ b) = filter (fun x => ~ P x) a ++ b.
Proof.
  induction a as [|x a IH]; simpl; [apply remove_first_0|]. rewrite !filter_cons.
  destruct (decide (P x)); [rewrite decide_False by tauto; apply IH|].
  rewrite decide_True by done. simpl. by rewrite IH.
Qed.

Lemma remove_first_all l : remove_first (length (filter P l)) l = filter (fun x => ~ P x) l.
Proof. pose proof (remove_first_app l []) as E. by rewrite !app_nil_r in E. Qed.

Lemma remove_first_length n l :
  n <= length (filter P l) -> length (remove_first n l) + n = length l.
Proof.
  revert n. induction l as [|x l IH]; intros n Hn; simpl in *; [lia|]. rewrite filter_cons in Hn.
  destruct (decide (P x)); simpl in *.
  - destruct n as [|n]; simpl; [lia|]. rewrite <- (IH n) by lia. lia.
  - rewrite <- (IH n) by lia. lia.
Qed.

(** What a search that collects [targets] has seen so far: all the elements
    satisfying [P], the first at position [i0] and the last at [i1]. *)
Definition found (idx : nat -> Z) (seen : list A) (targets : list Z) : Prop :=
  length targets = length (filter P seen) /\
  (targets = [] \/
   exists i0 i1, head targets = Some (idx i0) /\ last targets = Some (idx i1) /\
     Forall (fun x => ~ P x) (take i0 seen) /\ Forall (fun x => ~ P x) (drop (S i1) seen) /\
     i0 <= i1 < length seen).

Lemma found_nil idx : found idx [] [].
Proof. split; [done|by left]. Qed.

Lemma found_ext idx idx' seen targets :
  (forall i, idx i = idx' i) -> found idx seen targets -> found idx' seen targets.
Proof.
  intros E [Hlen Hf]. split; [done|]. destruct Hf as [?|(i0 & i1 & H0 & H1 & Hr)]; [by left|].
  right. exists i0, i1. by rewrite <- !E.
Qed.

Lemma filter_nil_Forall l : filter P l = [] -> Forall (fun x => ~ P x) l.
Proof.
  intros H. apply Forall_forall. intros x Hx HP.
  assert (x ∈ filter P l) as Hin by (by apply list_elem_of_filter). rewrite H in Hin.
  by apply elem_of_nil in Hin.
Qed.

Lemma found_step idx seen targets x :
  found idx seen targets ->
  found idx (seen ++ [x]) (if decide (P x) then targets ++ [idx (length seen)] else targets).
Proof.
  intros [Hlen Hf]. unfold found. rewrite filter_app, filter_cons, filter_nil.
  destruct (decide (P x)) as [HP|HP].
  - rewrite !length_app, Hlen. split; [done|]. right.
    destruct Hf as [->|(i0 & i1 & H0 & H1 & F0 & F1 & Hi)].
    + exists (length seen), (length seen). split_and!; [done|done| |rewrite drop_ge; [done|]|lia|simpl; lia].
      * rewrite take_app_length. apply filter_nil_Forall. by destruct (filter P seen).
      * rewrite length_app. simpl. lia.
    + exists i0, (length seen). split_and!; [by destruct targets|by rewrite last_snoc| | |lia|simpl; lia].
      * by rewrite take_app_le by lia.
      * rewrite drop_ge; [done|]. rewrite length_app. simpl. lia.
  - rewrite app_nil_r. split; [done|]. destruct Hf as [->|(i0 & i1 & H0 & H1 & F0 & F1 & Hi)]; [by left|].
    right. exists i0, i1. rewrite length_app. simpl. split_and!; [done|done| | |lia|simpl; lia].
    + by rewrite take_app_le by lia.
    + rewrite drop_app_le by lia. apply Forall_app. split; [done|by constructor].
Qed.

(** The two ways the gaps are closed: walking in the direction of the search
    from the first target, or against it from the last. *)
Lemma remove_forward n i0 l :
  Forall (fun x => ~ P x) (take i0 l) ->
  take i0 l ++ remove_first n (drop i0 l) = remove_first n l.
Proof. intros H. rewrite <- remove_first_skip by done. by rewrite take_drop. Qed.

Lemma remove_backward i1 seen ahead :
  Forall (fun x => ~ P x) (drop (S i1) seen) -> i1 < length seen ->
  let n := length (filter P seen) in
  let l := seen ++ ahead in
  rev (remove_first n (rev (take (S i1) l))) ++ drop (S i1) l = remove_first n l.
Proof.
  intros Hd Hi n l. unfold l. rewrite take_app_le, drop_app_le by lia.
  assert (En : n = length (filter P (take (S i1) seen))).
  { unfold n. rewrite <- (take_drop (S i1) seen) at 1. rewrite filter_app, length_app.
    replace (filter P (drop (S i1) seen)) with (@nil A); [simpl; lia|].
    clear - Hd. induction Hd as [|x d Hx _ IH]; [done|]. by rewrite filter_cons_False. }
  assert (En' : n = length (filter P (rev (take (S i1) seen)))) by (by rewrite filter_rev, length_rev).
  rewrite En' at 1. rewrite remove_first_all, filter_rev, rev_involutive.
  rewrite <- (take_drop (S i1) seen) at 3. rewrite <- (app_assoc (take _ _)), En.
  by rewrite remove_first_app.
Qed.

(** Both ways of closing the gaps remove the targets and nothing else. *)
Lemma close_gaps idx seen ahead targets :
  found idx seen targets -> targets <> [] ->
  let order := seen ++ ahead in
  let n := length targets in
  exists i0 i1, head targets = Some (idx i0) /\ last targets = Some (idx i1) /\
    i0 <= i1 < length order /\
    n <= length (filter P (drop i0 order)) /\
    take i0 order ++ remove_first n (drop i0 order) = remove_first n order /\
    let m := length order - S i1 in
    n <= length (filter P (drop m (rev order))) /\
    rev (take m (rev order) ++ remove_first n (drop m (rev order))) = remove_first n order.
Proof.
  intros [Hlen [->|(i0 & i1 & H0 & H1 & F0 & F1 & Hi)]] Hne order n; [done|].
  exists i0, i1. unfold order, n. rewrite length_app, Hlen.
  split_and!; [done|done|lia|lia|..].
  - rewrite drop_app_le, filter_app, length_app by lia.
    rewrite <- (take_drop i0 seen) at 1. rewrite filter_app, (filter_none _ (take i0 seen)) by done.
    simpl. lia.
  - apply remove_forward. by rewrite take_app_le by lia.
  - replace (length seen + length ahead - S i1) with (length (seen ++ ahead) - S i1)
      by (rewrite length_app; lia).
    rewrite !rev_reverse, <- reverse_take, <- rev_reverse, filter_rev, length_rev.
    rewrite take_app_le by lia. rewrite <- (take_drop (S i1) seen) at 1.
    rewrite filter_app, (filter_none _ (drop (S i1) seen)), app_nil_r by done. lia.
  - replace (length seen + length ahead - S i1) with (length (seen ++ ahead) - S i1)
      by (rewrite length_app; lia).
    rewrite rev_app_distr, (rev_reverse (seen ++ ahead)), <- reverse_take, <- reverse_drop.
    rewrite <- !rev_reverse, rev_involutive. apply remove_backward; [done|lia].
Qed.

End RemoveFirst.

Lemma remove_first_fmap {A B} (f : A -> B) (P : B -> Prop) `{!forall x, Decision (P x)} n l :
  f <$> remove_first (fun x => P (f x)) n l = remove_first P n (f <$> l).
Proof.
  revert n. induction l as [|x l IH]; intros n; [done|]. simpl.
  destruct (decide (P (f x))); [destruct n; [done|apply IH]|]. simpl. by rewrite IH.
Qed.

(** ** The loops *)

(** How many elements are removed. *)
Definition rem_number (count : Z) (occurrences : nat) : nat :=
  if count =? 0 then occurrences else Nat.min (Z.to_nat (Z.abs count)) occurrences.

Section RemLoops.
Context {R : RocksDB} {L : RocksDBLaws R} {U : Uninit}.
Context (db : DB) (key : bytes) (version : Z) (value : bytes).

Definition is_value (w : bytes) : Prop := value = user_value w.

#[export] Instance is_value_dec w : Decision (is_value w).
Proof. unfold is_value. apply _. Defined.
#[export] Typeclasses Opaque is_value.

(** A walk over [order]: index [j0 + step * i] holds its element [i]; [next]
    and [inside] are the source's index step and loop bound. *)
Context (move : Iterator -> Iterator) (step j0 : Z) (next : Z -> Z) (inside : Z -> bool).

Definition walks (n : nat) : Prop :=
  (forall i, (i < n)%nat -> next (j0 + step * Z.of_nat i) = j0 + step * Z.of_nat (S i) /\
     inside (j0 + step * Z.of_nat i) = true /\ is_u64 (j0 + step * Z.of_nat i)) /\
  inside (j0 + step * Z.of_nat n) = false.

Lemma targets_loop count order it fuel :
  walks (length order) -> visits db key version move step j0 it order ->
  (length order < fuel)%nat -> is_i64 count ->
  exists cur targets rest seen ahead,
    iter_for fuel move
      (fun '(current_index, _, rest) => inside current_index && ((count =? 0) || negb (rest =? 0)))
      (fun it '(current_index, target_index, rest) =>
         if decide (value = element_of it) then
           (next current_index, target_index ++ [current_index],
            if negb (count =? 0) then u64 (rest - 1) else rest)
         else (next current_index, target_index, rest))
      it (j0, [], if count <? 0 then u64 (- count) else count) = Some (cur, targets, rest) /\
    order = seen ++ ahead /\ found is_value (fun i => j0 + step * Z.of_nat i) seen targets /\
    length targets = rem_number count (length (filter is_value order)).
Proof.
  intros [Hw Hend] Hvis Hf Hcount. unfold is_i64 in Hcount.
  assert (E0 : (if count <? 0 then u64 (- count) else count) = Z.abs count).
  { destruct (Z.ltb_spec count 0); [rewrite u64_id; unfold is_u64; lia|lia]. }
  rewrite E0.
  destruct (iter_for_rule (fun ahead j '(cur, targets, rest) => exists seen,
      order = seen ++ ahead /\ cur = j /\ j = j0 + step * Z.of_nat (length seen) /\
      found is_value (fun i => j0 + step * Z.of_nat i) seen targets /\
      (count <> 0 -> 0 <= rest /\ rest + Z.of_nat (length targets) = Z.abs count))
    db key version move step
    (fun '(current_index, _, rest) => inside current_index && ((count =? 0) || negb (rest =? 0)))
    (fun it '(current_index, target_index, rest) =>
       if decide (value = element_of it) then
         (next current_index, target_index ++ [current_index],
          if negb (count =? 0) then u64 (rest - 1) else rest)
       else (next current_index, target_index, rest)) j0 it order Hvis)
    with (fuel := fuel) (st := (j0, @nil Z, Z.abs count))
    as ([[cur targets] rest] & ahead & j & HR & (seen & Ho & -> & -> & Hfound & Hrest) & Hc);
    [..|exists (j0 + step * Z.of_nat (length seen)), targets, rest, seen, ahead; split_and!; [done..|]].
  - intros j it' v vs [[cur targets] rest] Hon Hc (seen & -> & -> & -> & Hfound & Hrest).
    destruct (Hw (length seen)) as (Hn & _ & _); [rewrite length_app; simpl; lia|].
    pose proof (found_step is_value _ seen targets v Hfound) as Hstep. unfold element_of.
    destruct (iter_on_valid _ _ _ _ _ Hon) as [_ ->]. fold (user_value v).
    assert (Ej : j0 + step * Z.of_nat (length (seen ++ [v])) = j0 + step * Z.of_nat (length seen) + step)
      by (rewrite length_app; simpl; lia).
    assert (En : next (j0 + step * Z.of_nat (length seen)) = j0 + step * Z.of_nat (length seen) + step)
      by lia.
    apply andb_true_iff in Hc as [_ Hc].
    destruct (decide (value = user_value v)); exists (seen ++ [v]); rewrite <- app_assoc, Ej, En;
      [rewrite decide_True in Hstep by done|rewrite decide_False in Hstep by done]; split_and!; try done.
    intros Hne. specialize (Hrest Hne). rewrite (proj2 (Z.eqb_neq count 0) Hne) in *. simpl in *.
    apply negb_true_iff, Z.eqb_neq in Hc. rewrite length_app, u64_id by (unfold is_u64; lia).
    simpl. lia.
  - intros j [[cur targets] rest] (seen & -> & -> & -> & _). by rewrite app_nil_r in *; rewrite Hend.
  - done.
  - exists []. split_and!; [done..|simpl; lia|apply found_nil|intros _; simpl; lia].
  - destruct Hfound as [Hlen _]. unfold rem_number. rewrite Ho, filter_app, length_app, Hlen.
    destruct ahead as [|v ahead].
    + simpl. rewrite Nat.add_0_r. destruct (Z.eqb_spec count 0); [done|]. specialize (Hrest ltac:(done)). lia.
    + destruct (Hw (length seen)) as (_ & Hin & _); [rewrite Ho, length_app; simpl; lia|].
      rewrite Hin in Hc. simpl in Hc. destruct (Z.eqb_spec count 0); [done|]. simpl in Hc.
      apply negb_false_iff, Z.eqb_eq in Hc. specialize (Hrest ltac:(done)). lia.
Qed.

(** The writes that move the elements kept. *)
Definition step_ops (kept : list bytes) : list (Z * option bytes) :=
  imap (fun i w => (j0 + step * Z.of_nat i, Some w)) kept.

Lemma step_ops_snoc kept w :
  step_ops (kept ++ [w]) = step_ops kept ++ [(j0 + step * Z.of_nat (length kept), Some w)].
Proof. unfold step_ops. rewrite imap_app. simpl. by rewrite Nat.add_0_r. Qed.

Lemma rem_shift_loop order n fuel :
  walks (length order) ->
  visits db key version move step j0
    (Seek (NewIterator db kListsDataCF) (ListsDataKey_Encode key version j0)) order ->
  (length order < fuel)%nat -> Z.of_nat n < 2 ^ 64 ->
  exists batch,
    rem_shift db key version value fuel move next inside j0 (Z.of_nat n) = Some batch /\
    effects key version batch None (step_ops (remove_first is_value n order)).
Proof.
  intros [Hw Hend] Hvis Hf Hn. unfold rem_shift.
  destruct (iter_for_rule (fun ahead j '(cur, rest, dst, batch) => exists kept m,
      cur = j /\ rest = Z.of_nat m /\ (m <= n)%nat /\
      j = j0 + step * Z.of_nat (length order - length ahead) /\ (length ahead <= length order)%nat /\
      (length kept + length ahead <= length order)%nat /\
      dst = j0 + step * Z.of_nat (length kept) /\
      effects key version batch None (step_ops kept) /\
      kept ++ remove_first is_value m ahead = remove_first is_value n order)
    db key version move step (fun '(current_index, _, _, _) => inside current_index)
    (fun it '(current_index, rest, dst, batch) =>
       if bool_decide (value = element_of it) && (0 <? rest) then
         (next current_index, u64 (rest - 1), dst, batch)
       else
         (next current_index, rest, next dst,
          batch ++ [put_data key version dst (iter_value it)])) j0 _ order Hvis)
    with (fuel := fuel) (st := (j0, Z.of_nat n, j0, @nil WriteOp))
    as ([[[cur rest] dst] batch] & ahead & j & -> & (kept & m & -> & -> & _ & -> & Ha & _ & -> & HE & Hk) & Hc).
  - intros j it v vs [[[cur rest] dst] batch] Hon Hc (kept & m & -> & -> & Hm & -> & Ha & Hka & -> & HE & Hk).
    simpl in Ha, Hka. destruct (Hw (length order - S (length vs))%nat ltac:(lia)) as (Hnx & _ & _).
    replace (S (length order - S (length vs)))%nat with (length order - length vs)%nat in Hnx by lia.
    destruct (Hw (length kept) ltac:(lia)) as (Hnk & _ & Hku).
    unfold element_of. destruct (iter_on_valid _ _ _ _ _ Hon) as [_ ->]. fold (user_value v).
    simpl in Hk. simpl length. rewrite Hnx.
    assert (Ej : j0 + step * Z.of_nat (length order - S (length vs)) + step =
                 j0 + step * Z.of_nat (length order - length vs)).
    { replace (Z.of_nat (length order - length vs)) with (Z.of_nat (length order - S (length vs)) + 1) by lia.
      ring. }
    destruct (decide (is_value v)) as [Hv|Hv].
    + rewrite bool_decide_eq_true_2 by done. destruct m as [|m]; simpl.
      * exists (kept ++ [v]), 0%nat. rewrite length_app, Hnk, remove_first_0, <- app_assoc. simpl.
        rewrite step_ops_snoc. split_and!; try done; try lia. by apply effects_snoc.
      * rewrite u64_id by (unfold is_u64; lia). exists kept, m. split_and!; try done; try lia.
    + rewrite bool_decide_eq_false_2 by done. simpl.
      exists (kept ++ [v]), m. rewrite length_app, Hnk, <- app_assoc. simpl.
      rewrite step_ops_snoc. split_and!; try done; try lia. by apply effects_snoc.
  - intros j [[[cur rest] dst] batch] (kept & m & -> & _ & _ & -> & _). simpl. by rewrite Nat.sub_0_r.
  - done.
  - exists [], n. rewrite Nat.sub_diag. simpl. split_and!; try done; try lia. constructor.
  - exists batch. split; [done|]. destruct ahead as [|v ahead]; [by rewrite <- Hk, app_nil_r|].
    simpl in Hc, Ha. destruct (Hw (length order - S (length ahead))%nat ltac:(lia)) as (_ & Hin & _).
    by rewrite Hin in Hc.
Qed.

End RemLoops.

(** ** Closing the gaps *)

Section RemShift.
Context {R : RocksDB} {L : RocksDBLaws R} {U : Uninit}.

Lemma assign_step_ops_out step j0 kept j cur :
  (forall k, (k < length kept)%nat -> j <> j0 + step * Z.of_nat k) ->
  assign (step_ops step j0 kept) j cur = cur.
Proof.
  induction kept as [|w kept IH] using rev_ind; intros H; [done|].
  rewrite step_ops_snoc, assign_snoc. rewrite length_app in H. simpl in H.
  destruct (Z.eqb_spec (j0 + step * Z.of_nat (length kept)) j) as [<-|_].
  - by destruct (H (length kept) ltac:(lia)).
  - apply IH. intros k Hk. apply H. lia.
Qed.

Lemma assign_step_ops_in step j0 kept k w cur :
  step <> 0 -> kept !! k = Some w ->
  assign (step_ops step j0 kept) (j0 + step * Z.of_nat k) cur = Some w.
Proof.
  intros Hs. induction kept as [|u kept IH] using rev_ind; intros H; [done|].
  rewrite step_ops_snoc, assign_snoc.
  destruct (Z.eqb_spec (j0 + step * Z.of_nat (length kept)) (j0 + step * Z.of_nat k)) as [E|E].
  - assert (k = length kept) as -> by nia. rewrite list_lookup_middle in H by done. by injection H as ->.
  - apply IH. apply lookup_app_Some in H as [H|[Hk H]]; [done|].
    apply list_lookup_singleton_Some in H as [Hk' _]. nia.
Qed.

(** The elements in walking order: up from the left end, or down from the
    right one. *)
Context (now : Z) (key : bytes) (p : ParsedListsMetaValue) (vals : list bytes) (r : Redis).
Hypotheses (K : key_ok key = true) (He : engine_ok r) (Hl : list_at (db_ r) now key p vals).
Let version := piv_version (plm_base p).

Lemma walks_up m :
  (m <= length vals)%nat ->
  walks 1 (plm_left_index p + 1 + Z.of_nat m) (fun i => u64 (i + 1))
    (fun i => i <=? plm_right_index p - 1) (length (drop m vals)).
Proof.
  intros Hm. destruct (list_at_bounds _ _ _ _ _ Hl) as (Hle & Hri & _ & _ & Hright).
  unfold is_u64 in *. split.
  - intros i Hi. rewrite length_drop in Hi. rewrite u64_id by (unfold is_u64; lia).
    split_and!; [lia|apply Z.leb_le; lia|unfold is_u64; lia..].
  - rewrite length_drop. apply Z.leb_gt. lia.
Qed.

Lemma walks_down m :
  (m <= length vals)%nat ->
  walks (-1) (plm_right_index p - 1 - Z.of_nat m) (fun i => u64 (i - 1))
    (fun i => plm_left_index p + 1 <=? i) (length (drop m (rev vals))).
Proof.
  intros Hm. destruct (list_at_bounds _ _ _ _ _ Hl) as (Hle & Hri & _ & _ & Hright).
  unfold is_u64 in *. split.
  - intros i Hi. rewrite length_drop, length_rev in Hi. rewrite u64_id by (unfold is_u64; lia).
    split_and!; [lia|apply Z.leb_le; lia|unfold is_u64; lia..].
  - rewrite length_drop, length_rev. apply Z.leb_gt. lia.
Qed.

Lemma visits_up m :
  (m <= length vals)%nat ->
  visits (db_ r) key version Next 1 (plm_left_index p + 1 + Z.of_nat m)
    (Seek (NewIterator (db_ r) kListsDataCF)
       (ListsDataKey_Encode key version (plm_left_index p + 1 + Z.of_nat m))) (drop m vals).
Proof.
  intros Hm. destruct (list_at_bounds _ _ _ _ _ Hl) as (Hle & Hri & Hv & _ & Hright).
  unfold is_u64 in *. apply Seek_visits; [apply He|done|done|]. intros i w Hi.
  rewrite lookup_drop in Hi. pose proof (lookup_lt_Some _ _ _ Hi).
  split; [unfold is_u64; lia|]. rewrite <- (la_data _ _ _ _ _ Hl _ _ Hi). unfold version. f_equal. lia.
Qed.

Lemma visits_down m :
  (m <= length vals)%nat ->
  visits (db_ r) key version Prev (-1) (plm_right_index p - 1 - Z.of_nat m)
    (Seek (NewIterator (db_ r) kListsDataCF)
       (ListsDataKey_Encode key version (plm_right_index p - 1 - Z.of_nat m))) (drop m (rev vals)).
Proof.
  intros Hm. destruct (list_at_bounds _ _ _ _ _ Hl) as (_ & _ & Hv & _).
  assert (Hd : forall i w, drop m (rev vals) !! i = Some w ->
    is_u64 (plm_right_index p - 1 - Z.of_nat m - Z.of_nat i) /\
    data_of (db_ r) key version (plm_right_index p - 1 - Z.of_nat m - Z.of_nat i) = Some w).
  { intros i w Hi. rewrite lookup_drop in Hi.
    replace (plm_right_index p - 1 - Z.of_nat m - Z.of_nat i) with
      (plm_right_index p - 1 - Z.of_nat (m + i)) by lia. by apply (list_at_rev_data _ now _ _ vals). }
  destruct (drop m (rev vals)) as [|v vs]; [constructor|].
  apply visits_prev; [apply He|done|done| |done]. apply Seek_on; [apply He|done|].
  destruct (Hd 0%nat v eq_refl) as [_ H0]. by rewrite Z.sub_0_r in H0.
Qed.

(** The list after the elements kept of [drop m vals] have been moved to the
    front of that range, and [n] indices at the right end deleted. *)
Lemma pending_up m kept n :
  (m + length kept + n = length vals)%nat ->
  let q := ParsedListsMetaValue_ModifyCount
             (ParsedListsMetaValue_ModifyRightIndex p (u64 (- Z.of_nat n))) (u64 (- Z.of_nat n)) in
  let dels := (fun idx => u64 (plm_right_index p - Z.of_nat idx - 1)) <$> seq 0 n in
  Forall (fun v => (24 <= length v)%nat) kept ->
  Forall is_u64 dels /\
  pending (data_of (db_ r) key version) q
    (step_ops 1 (plm_left_index p + 1 + Z.of_nat m) kept ++ deletions dels) (take m vals ++ kept).
Proof.
  intros Hn q dels Hk. destruct (list_at_bounds _ _ _ _ _ Hl) as (Hle & Hri & _ & _ & Hright).
  unfold is_u64 in *. pose proof (la_count _ _ _ _ _ Hl) as Hcnt.
  assert (Hdel : forall j, j ∈ dels -> plm_right_index p - Z.of_nat n <= j < plm_right_index p).
  { intros j (i & -> & Hi%elem_of_seq)%list_elem_of_fmap. rewrite u64_id; unfold is_u64; lia. }
  assert (Er : plm_right_index q = plm_right_index p - Z.of_nat n).
  { simpl. rewrite u64_add_neg, u64_id; unfold is_u64; lia. }
  assert (Ec : plm_count q = plm_count p - Z.of_nat n).
  { simpl. rewrite u64_add_neg, u64_id; unfold is_u64; lia. }
  split; [apply Forall_forall; intros j Hj%Hdel; lia|]. constructor.
  - pose proof (la_coherent _ _ _ _ _ Hl). unfold q, ParsedListsMetaValue_ModifyCount,
      ParsedListsMetaValue_ModifyRightIndex. auto with coherent.
  - apply Hl.
  - rewrite Ec, Hcnt, length_app, length_take. lia.
  - rewrite Er, length_app, length_take. change (plm_left_index q) with (plm_left_index p). lia.
  - change (plm_left_index q) with (plm_left_index p). intros i v Hi. cbv zeta.
    pose proof (lookup_lt_Some _ _ _ Hi) as Hlt. rewrite length_app, length_take in Hlt.
    rewrite assign_app, assign_deletions by (intros Hj%Hdel; lia).
    apply lookup_app_Some in Hi as [[Hi Him]%lookup_take_Some|[Him Hi]].
    + rewrite assign_step_ops_out by lia. by apply (la_data _ _ _ _ _ Hl).
    + rewrite length_take in Him, Hi.
      replace (plm_left_index p + 1 + Z.of_nat i) with
        (plm_left_index p + 1 + Z.of_nat m + 1 * Z.of_nat (i - Nat.min m (length vals))) by lia.
      by apply assign_step_ops_in.
  - apply Forall_app. split; [apply Forall_take, Hl|done].
Qed.

(** The same from the right end downwards. *)
Lemma pending_down m kept n :
  (m + length kept + n = length vals)%nat ->
  let q := ParsedListsMetaValue_ModifyCount
             (ParsedListsMetaValue_ModifyLeftIndex p (u64 (- Z.of_nat n))) (u64 (- Z.of_nat n)) in
  let dels := (fun idx => u64 (plm_left_index p + Z.of_nat idx + 1)) <$> seq 0 n in
  Forall (fun v => (24 <= length v)%nat) kept ->
  Forall is_u64 dels /\
  pending (data_of (db_ r) key version) q
    (step_ops (-1) (plm_right_index p - 1 - Z.of_nat m) kept ++ deletions dels)
    (rev (take m (rev vals) ++ kept)).
Proof.
  intros Hn q dels Hk. destruct (list_at_bounds _ _ _ _ _ Hl) as (Hle & Hri & _ & _ & Hright).
  unfold is_u64 in *. pose proof (la_count _ _ _ _ _ Hl) as Hcnt.
  assert (Hdel : forall j, j ∈ dels -> plm_left_index p < j <= plm_left_index p + Z.of_nat n).
  { intros j (i & -> & Hi%elem_of_seq)%list_elem_of_fmap. rewrite u64_id; unfold is_u64; lia. }
  assert (El : plm_left_index q = plm_left_index p + Z.of_nat n).
  { simpl. rewrite u64_sub_neg, u64_id; unfold is_u64; lia. }
  assert (Ec : plm_count q = plm_count p - Z.of_nat n).
  { simpl. rewrite u64_add_neg, u64_id; unfold is_u64; lia. }
  assert (Elen : length (take m (rev vals) ++ kept) = (length vals - n)%nat)
    by (rewrite length_app, length_take, length_rev; lia).
  split; [apply Forall_forall; intros j Hj%Hdel; lia|]. constructor.
  - pose proof (la_coherent _ _ _ _ _ Hl). unfold q, ParsedListsMetaValue_ModifyCount,
      ParsedListsMetaValue_ModifyLeftIndex. auto with coherent.
  - apply Hl.
  - rewrite Ec, Hcnt, length_rev, Elen. lia.
  - rewrite El, length_rev, Elen. change (plm_right_index q) with (plm_right_index p). lia.
  - rewrite El. intros i v Hi. cbv zeta. pose proof (lookup_lt_Some _ _ _ Hi) as Hlt.
    rewrite length_rev in Hlt. rewrite rev_reverse, reverse_lookup, Elen in Hi by done.
    rewrite assign_app, assign_deletions by (intros Hj%Hdel; lia).
    set (k := (length vals - n - S i)%nat) in Hi.
    replace (plm_left_index p + Z.of_nat n + 1 + Z.of_nat i) with (plm_right_index p - 1 - Z.of_nat k) by lia.
    apply lookup_app_Some in Hi as [[Hi Him]%lookup_take_Some|[Him Hi]].
    + rewrite assign_step_ops_out by lia. by apply (list_at_rev_data _ now _ _ vals).
    + rewrite length_take, length_rev in Him, Hi.
      replace (plm_right_index p - 1 - Z.of_nat k) with
        (plm_right_index p - 1 - Z.of_nat m + -1 * Z.of_nat (k - Nat.min m (length vals))) by lia.
      by apply assign_step_ops_in.
  - apply Forall_rev, Forall_app. split; [apply Forall_take, Forall_rev, Hl|done].
Qed.

(** The final batch. *)
Lemma shift_stores q batch ops dels vals' :
  effects key version batch None ops -> Forall is_u64 dels ->
  piv_version (plm_base q) = version -> piv_etime (plm_base q) = piv_etime (plm_base p) ->
  pending (data_of (db_ r) key version) q (ops ++ deletions dels) vals' ->
  exists r', Write (batch ++ put_meta key q :: (delete_data key version <$> dels)) r =
      Some (Status_OK, r') /\
    stores now key (user_value <$> vals') (piv_etime (plm_base p)) r r'.
Proof.
  intros HE Hd Hv Het Hp. rewrite <- Hv in *.
  assert (HE' : effects key (piv_version (plm_base q))
    (batch ++ put_meta key q :: (delete_data key (piv_version (plm_base q)) <$> dels))
    (Some (piv_data (plm_base q))) (ops ++ deletions dels)).
  { apply (effects_app _ _ _ _ _ _ (Some (piv_data (plm_base q))) _ HE).
    by apply (eff_meta _ _ _ _ None), effects_deletions. }
  eapply (batch_stores now key _ _ q vals' _ _ r K He HE' Hp); try done.
  rewrite (IsStale_kept _ _ p Het). apply Hl.
Qed.

(** ** The search *)

Lemma rem_rest_ok count :
  is_i64 count -> count <> - 2 ^ 63 -> rem_rest count = Some (if count <? 0 then u64 (- count) else count).
Proof.
  unfold is_i64, rem_rest. intros Hc Hm. destruct (Z.ltb_spec count 0); [|done].
  by rewrite (proj2 (Z.ltb_lt _ _)), u64_id by (unfold is_u64; lia).
Qed.

Lemma rem_targets_spec count value :
  is_i64 count -> count <> - 2 ^ 63 ->
  let order := if 0 <=? count then vals else rev vals in
  exists targets seen ahead,
    rem_targets (db_ r) key p count value = Some targets /\ order = seen ++ ahead /\
    found (is_value value)
      (fun i => if 0 <=? count then plm_left_index p + 1 + Z.of_nat i
                else plm_right_index p - 1 - Z.of_nat i) seen targets /\
    length targets = rem_number count (length (filter (is_value value) order)).
Proof.
  intros Hc Hm order. destruct (list_at_bounds _ _ _ _ _ Hl) as (Hle & Hri & _ & Hn & Hright).
  unfold is_u64 in *. unfold rem_targets. rewrite (rem_rest_ok count Hc Hm). cbn [mbind option_bind].
  rewrite (u64_id (plm_left_index p + 1)), (u64_id (plm_right_index p - 1)) by (unfold is_u64; lia).
  unfold order. destruct (0 <=? count).
  - pose proof (walks_up 0 ltac:(lia)) as Hw. pose proof (visits_up 0 ltac:(lia)) as Hv.
    change (Z.of_nat 0) with 0 in *. rewrite Z.add_0_r, drop_0 in *.
    destruct (targets_loop _ key version value Next 1 _ _ _ count vals _
      (index_fuel (plm_left_index p + 1) (plm_right_index p - 1)) Hw Hv
      ltac:(unfold index_fuel; lia) Hc) as (cur & targets & rest & seen & ahead & E & H1 & H2 & H3).
    exists targets, seen, ahead. unfold version in E. rewrite E. split_and!; [done..| |done].
    eapply found_ext, H2. intros i. simpl. lia.
  - pose proof (walks_down 0 ltac:(lia)) as Hw. pose proof (visits_down 0 ltac:(lia)) as Hv.
    change (Z.of_nat 0) with 0 in *. rewrite Z.sub_0_r, drop_0 in *.
    destruct (targets_loop _ key version value Prev (-1) _ _ _ count (rev vals) _
      (index_fuel (plm_left_index p + 1) (plm_right_index p - 1)) Hw Hv
      ltac:(unfold index_fuel; rewrite length_rev; lia) Hc)
      as (cur & targets & rest & seen & ahead & E & H1 & H2 & H3).
    exists targets, seen, ahead. unfold version in E. rewrite E. split_and!; [done..| |done].
    eapply found_ext, H2. intros i. simpl. lia.
Qed.

Lemma kept_values value n l :
  Forall (fun v => (24 <= length v)%nat) l ->
  Forall (fun v => (24 <= length v)%nat) (remove_first (is_value value) n l).
Proof.
  intros H. revert n. induction H as [|v l Hv H IH]; intros n; simpl; [constructor|].
  case_decide; [destruct n; [by constructor|done]|by constructor].
Qed.

Lemma shift_up value m n :
  (m <= length vals)%nat -> (n <= length (filter (is_value value) (drop m vals)))%nat ->
  let q := ParsedListsMetaValue_ModifyCount
             (ParsedListsMetaValue_ModifyRightIndex p (u64 (- Z.of_nat n))) (u64 (- Z.of_nat n)) in
  let dels := (fun idx => u64 (plm_right_index p - Z.of_nat idx - 1)) <$> seq 0 n in
  exists batch r',
    rem_shift (db_ r) key version value
      (index_fuel (plm_left_index p + 1 + Z.of_nat m) (plm_right_index p - 1)) Next
      (fun i => u64 (i + 1)) (fun i => i <=? plm_right_index p - 1)
      (plm_left_index p + 1 + Z.of_nat m) (Z.of_nat n) = Some batch /\
    Write (batch ++ put_meta key q :: (delete_data key version <$> dels)) r = Some (Status_OK, r') /\
    stores now key (user_value <$> (take m vals ++ remove_first (is_value value) n (drop m vals)))
      (piv_etime (plm_base p)) r r'.
Proof.
  intros Hm Hn q dels. destruct (list_at_bounds _ _ _ _ _ Hl) as (Hle & Hri & _ & Hn0 & Hright).
  unfold is_u64 in *. pose proof (remove_first_length _ _ _ Hn) as Hlen. rewrite length_drop in Hlen.
  destruct (rem_shift_loop (db_ r) key version value Next 1 _ _ _ (drop m vals) n
    (index_fuel (plm_left_index p + 1 + Z.of_nat m) (plm_right_index p - 1)) (walks_up m Hm)
    (visits_up m Hm)) as (batch & HB & HE); [unfold index_fuel; rewrite length_drop; lia|lia|].
  destruct (pending_up m (remove_first (is_value value) n (drop m vals)) n ltac:(lia)) as (Hd & Hp).
  { apply kept_values, Forall_drop, Hl. }
  destruct (shift_stores q batch _ dels _ HE Hd eq_refl eq_refl Hp) as (r' & HW & Hst).
  by exists batch, r'.
Qed.

Lemma shift_down value m n :
  (m <= length vals)%nat -> (n <= length (filter (is_value value) (drop m (rev vals))))%nat ->
  let q := ParsedListsMetaValue_ModifyCount
             (ParsedListsMetaValue_ModifyLeftIndex p (u64 (- Z.of_nat n))) (u64 (- Z.of_nat n)) in
  let dels := (fun idx => u64 (plm_left_index p + Z.of_nat idx + 1)) <$> seq 0 n in
  exists batch r',
    rem_shift (db_ r) key version value
      (index_fuel (plm_left_index p + 1) (plm_right_index p - 1 - Z.of_nat m)) Prev
      (fun i => u64 (i - 1)) (fun i => plm_left_index p + 1 <=? i)
      (plm_right_index p - 1 - Z.of_nat m) (Z.of_nat n) = Some batch /\
    Write (batch ++ put_meta key q :: (delete_data key version <$> dels)) r = Some (Status_OK, r') /\
    stores now key (user_value <$> rev (take m (rev vals) ++
        remove_first (is_value value) n (drop m (rev vals)))) (piv_etime (plm_base p)) r r'.
Proof.
  intros Hm Hn q dels. destruct (list_at_bounds _ _ _ _ _ Hl) as (Hle & Hri & _ & Hn0 & Hright).
  unfold is_u64 in *. pose proof (remove_first_length _ _ _ Hn) as Hlen.
  rewrite length_drop, length_rev in Hlen.
  destruct (rem_shift_loop (db_ r) key version value Prev (-1) _ _ _ (drop m (rev vals)) n
    (index_fuel (plm_left_index p + 1) (plm_right_index p - 1 - Z.of_nat m)) (walks_down m Hm)
    (visits_down m Hm)) as (batch & HB & HE);
    [unfold index_fuel; rewrite length_drop, length_rev; lia|lia|].
  destruct (pending_down m (remove_first (is_value value) n (drop m (rev vals))) n ltac:(lia)) as (Hd & Hp).
  { apply kept_values, Forall_drop, Forall_rev, Hl. }
  destruct (shift_stores q batch _ dels _ HE Hd eq_refl eq_refl Hp) as (r' & HW & Hst).
  by exists batch, r'.
Qed.

End RemShift.

(** ** The command *)

(** What [LREM] documents: [count] elements equal to [value] are removed from
    the front, from the back when negative, all of them when 0. *)
Definition redis_rem (count : Z) (value : bytes) (l : list bytes) : nat * list bytes :=
  let n := rem_number count (length (filter (fun x => value = x) l)) in
  (n, if 0 <=? count then remove_first (fun x => value = x) n l
      else rev (remove_first (fun x => value = x) n (rev l))).

Section ListRem.
Context {R : RocksDB} {L : RocksDBLaws R} {U : Uninit}.

Lemma occurrences_user value vals :
  length (filter (is_value value) vals) = length (filter (fun x => value = x) (user_value <$> vals)).
Proof.
  induction vals as [|v vals IH]; [done|]. rewrite fmap_cons, !filter_cons.
  unfold is_value at 1. destruct (decide (value = user_value v)) as [E|E].
  - simpl. by rewrite IH.
  - done.
Qed.

Lemma remove_user value n vals :
  user_value <$> remove_first (is_value value) n vals =
  remove_first (fun x => value = x) n (user_value <$> vals).
Proof.
  revert n. induction vals as [|v vals IH]; intros n; [done|]. rewrite fmap_cons. simpl.
  destruct (decide (value = user_value v)) as [E|E].
  - rewrite decide_True by done. destruct n; [done|apply IH].
  - rewrite decide_False by done. by rewrite fmap_cons, IH.
Qed.

(** Where the two walks start, and what they leave. *)
Lemma rem_walks now key p vals value count n i0 i1 r :
  list_at (db_ r) now key p vals ->
  let order := if 0 <=? count then vals else rev vals in
  let raw := if 0 <=? count then remove_first (is_value value) n vals
             else rev (remove_first (is_value value) n (rev vals)) in
  let at_ i := if 0 <=? count then plm_left_index p + 1 + Z.of_nat i
               else plm_right_index p - 1 - Z.of_nat i in
  let m := (length order - S i1)%nat in
  (i0 <= i1 < length order)%nat ->
  (n <= length (filter (is_value value) (drop i0 order)))%nat ->
  take i0 order ++ remove_first (is_value value) n (drop i0 order) = remove_first (is_value value) n order ->
  (n <= length (filter (is_value value) (drop m (rev order))))%nat ->
  rev (take m (rev order) ++ remove_first (is_value value) n (drop m (rev order))) =
    remove_first (is_value value) n order ->
  (exists mu, (mu <= length vals)%nat /\
     (if 0 <=? count then at_ i0 else at_ i1) = plm_left_index p + 1 + Z.of_nat mu /\
     (n <= length (filter (is_value value) (drop mu vals)))%nat /\
     take mu vals ++ remove_first (is_value value) n (drop mu vals) = raw) /\
  (exists md, (md <= length vals)%nat /\
     (if 0 <=? count then at_ i1 else at_ i0) = plm_right_index p - 1 - Z.of_nat md /\
     (n <= length (filter (is_value value) (drop md (rev vals))))%nat /\
     rev (take md (rev vals) ++ remove_first (is_value value) n (drop md (rev vals))) = raw).
Proof.
  intros Hl order raw at_ m Hi N0 E0 N1 E1.
  destruct (list_at_bounds _ _ _ _ _ Hl) as (Hle & Hri & _ & Hn0 & Hright).
  subst order raw at_ m. destruct (0 <=? count).
  - split; [exists i0|exists (length vals - S i1)%nat]; split_and!; try done; lia.
  - rewrite length_rev in *. rewrite rev_involutive in *. split.
    + exists (length vals - S i1)%nat. split_and!; [lia|lia|done|].
      by rewrite <- E1, rev_involutive.
    + exists i0. split_and!; [lia|lia|done|by rewrite E0].
Qed.

Lemma LRem_stores now key count value l e r :
  key_ok key = true -> engine_ok r -> holds (db_ r) now key l e -> is_i64 count ->
  (count = - 2 ^ 63 -> l = []) ->
  let '(n, l') := redis_rem count value l in
  if (n =? 0)%nat then
    exists st, LRem now key count value r = Some ((st, 0), r) /\ status_code st = kNotFound
  else exists r', LRem now key count value r = Some ((Status_OK, Z.of_nat n), r') /\
      stores now key l' e r r'.
Proof.
  intros K He Hh Hc Hm. pose proof (proj1 He) as Hdb. destruct l as [|x l].
  { unfold redis_rem, rem_number. simpl. destruct (count =? 0); rewrite ?Nat.min_0_r; simpl;
      unfold LRem, bind; destruct (GetList_vacant now key key r Hdb Hh) as (st & -> & Hst); by exists st. }
  destruct Hh as (p & vals & Hl & <- & <-).
  destruct (rem_targets_spec now key p vals r K He Hl count value Hc)
    as (targets & seen & ahead & HT & Ho & Hf & Hn); [by intros E; apply Hm in E|].
  destruct (list_at_bounds _ _ _ _ _ Hl) as (Hle & Hri & _ & Hn0 & Hright). unfold is_u64 in *.
  unfold redis_rem. rewrite <- occurrences_user.
  assert (En : length targets = rem_number count (length (filter (is_value value) vals))).
  { rewrite Hn. destruct (0 <=? count); [done|]. by rewrite filter_rev, length_rev. }
  rewrite <- En. unfold LRem. rewrite !(bind_GetList now key key p vals r _ Hdb Hl). cbv zeta.
  rewrite !bind_gets, !(bind_lift _ _ _ _ HT).
  destruct (decide (targets = [])) as [->|Hne]; [by eexists|].
  destruct (close_gaps _ _ _ ahead _ Hf Hne) as (i0 & i1 & H0 & H1 & Hi & N0 & E0 & N1 & E1).
  rewrite <- Ho in *. destruct targets as [|first targets]; [done|]. simpl head in H0.
  injection H0 as ->. rewrite H1. cbn [length Nat.eqb]. cbn [length] in N0, E0, N1, E1.
  set (n := S (length targets)) in *.
  destruct (rem_walks now key p vals value count n i0 i1 r Hl Hi N0 E0 N1 E1)
    as [(mu & Hmu & -> & Nu & Eu) (md & Hmd & -> & Nd & Ed)].
  rewrite !(u64_id (plm_left_index p + 1)), !(u64_id (plm_right_index p - 1)) by (unfold is_u64; lia).
  replace (if 0 <=? count then _ else _) with (user_value <$>
    (if 0 <=? count then remove_first (is_value value) n vals
     else rev (remove_first (is_value value) n (rev vals)))).
  2:{ destruct (0 <=? count); [apply remove_user|].
      by rewrite !rev_reverse, fmap_reverse, remove_user, fmap_reverse. }
  destruct (_ <=? u64 (_ - _)).
  - destruct (shift_down now key p vals r K He Hl value md n Hmd Nd) as (batch & r' & HB & HW & Hst).
    rewrite Ed in Hst. exists r'. split; [|done].
    erewrite bind_run by (by rewrite (bind_lift _ _ _ _ HB)). cbv iota beta.
    by rewrite (bind_run _ _ _ _ _ HW).
  - destruct (shift_up now key p vals r K He Hl value mu n Hmu Nu) as (batch & r' & HB & HW & Hst).
    rewrite Eu in Hst. exists r'. split; [|done].
    erewrite bind_run by (by rewrite (bind_lift _ _ _ _ HB)). cbv iota beta.
    by rewrite (bind_run _ _ _ _ _ HW).
Qed.

(** C8: [LRem] removes what [redis_rem] says and returns how many; when there is
    nothing to remove it answers NotFound and changes nothing.  The least
    [int64_t] as count is undefined on a list that is there: the code negates
    it. *)
Theorem LRem_correct now key count value l e r :
  key_ok key = true -> engine_ok r -> holds (db_ r) now key l e -> is_i64 count ->
  if decide (count = - 2 ^ 63 /\ l <> []) then LRem now key count value r = None
  else
    let '(n, l') := redis_rem count value l in
    if (n =? 0)%nat then
      exists st, LRem now key count value r = Some ((st, 0), r) /\ status_code st = kNotFound
    else exists r', LRem now key count value r = Some ((Status_OK, Z.of_nat n), r') /\
        stores now key l' e r r'.
Proof.
  intros K He Hh Hc. case_decide as Hm.
  - destruct Hm as [-> Hne]. destruct l as [|x l]; [done|]. destruct Hh as (p & vals & Hl & _ & _).
    unfold LRem. by rewrite (bind_GetList now key key p vals r _ (proj1 He) Hl).
  - apply LRem_stores; try done. intros ->. destruct l; [done|]. by destruct Hm.
Qed.

End ListRem.
