(* ===== verification/ListWitness.v ===== *)
(** * The list theorems at work

    Each theorem about a list command applied to a concrete engine, key and
    arguments. *)

From S2P Require Import Prelude Coding KeyFormat Comparator ValueFormat RocksDB LruCache Redis KeySpace Sample Strings StringSpec Lists ListSpec ListSample ListPush ListRead ListUpdate ListInsert ListMove ListRem.
Open Scope Z_scope.

Notation abc := ([lit "a"; lit "b"; lit "a"]).


Lemma LPush_correct_witness : exists r',
  LPush 1000 q_key [lit "x"; lit "y"] sample_engine = Some ((Status_OK, 5), r') /\
  stores 1000 q_key [lit "y"; lit "x"; lit "a"; lit "b"; lit "a"] 0 sample_engine r'.
Proof.
  exact (LPush_correct 1000 q_key [lit "x"; lit "y"] abc 0 sample_engine eq_refl clock_1000
    sample_ok sample_holds (sample_room 2 ltac:(lia))).
Defined.

Lemma RPush_correct_witness : exists r',
  RPush 1000 q_key [lit "x"; lit "y"] fresh_engine = Some ((Status_OK, 2), r') /\
  stores 1000 q_key [lit "x"; lit "y"] 0 fresh_engine r'.
Proof.
  refine (RPush_correct 1000 q_key [lit "x"; lit "y"] [] 0 fresh_engine eq_refl clock_1000
    fresh_ok (fresh_holds q_key) _).
  split; [simpl; lia|done].
Defined.

Lemma LPushx_correct_witness : exists r',
  LPushx 1000 q_key [lit "x"] sample_engine = Some ((Status_OK, 4), r') /\
  stores 1000 q_key [lit "x"; lit "a"; lit "b"; lit "a"] 0 sample_engine r'.
Proof.
  exact (LPushx_correct 1000 q_key [lit "x"] abc 0 sample_engine eq_refl sample_ok sample_holds
    (sample_room 1 ltac:(lia))).
Defined.

Lemma RPushx_correct_witness : exists r',
  RPushx 1000 q_key [lit "x"] sample_engine = Some ((Status_OK, 4), r') /\
  stores 1000 q_key [lit "a"; lit "b"; lit "a"; lit "x"] 0 sample_engine r'.
Proof.
  exact (RPushx_correct 1000 q_key [lit "x"] abc 0 sample_engine eq_refl sample_ok sample_holds
    (sample_room 1 ltac:(lia))).
Defined.

Lemma LIndex_correct_witness :
  LIndex 1000 q_key (-2) sample_engine = Some ((Status_OK, lit "b"), sample_engine).
Proof.
  refine (LIndex_correct 1000 q_key (-2) abc 0 sample_engine sample_ok sample_holds _).
  unfold is_i64. lia.
Defined.

Lemma LLen_correct_witness : exists st,
  LLen 1000 q_key [] sample_engine = Some ((st, 3), sample_engine) /\ status_code st = kOk.
Proof. exact (LLen_correct 1000 q_key abc 0 sample_engine sample_ok sample_holds). Defined.

Lemma sample_no_wrap start stop :
  -10 <= start <= 10 -> -10 <= stop <= 10 -> no_wrap (db_ sample_engine) q_key start stop.
Proof.
  intros Ha Hb p Hm Hc. rewrite <- (meta_in_unique _ _ Hm Hc).
  replace (plm_left_index (meta_in sample_engine)) with 9223372036854775807 by (vm_compute; reflexivity).
  replace (plm_right_index (meta_in sample_engine)) with 9223372036854775811 by (vm_compute; reflexivity).
  lia.
Qed.

Lemma LRange_correct_witness : exists st,
  LRange 1000 q_key 1 (-1) sample_engine = Some ((st, [lit "b"; lit "a"]), sample_engine) /\
  status_code st = kOk.
Proof.
  exact (LRange_correct 1000 q_key 1 (-1) abc 0 sample_engine eq_refl sample_ok sample_holds
    (sample_no_wrap 1 (-1) ltac:(lia) ltac:(lia))).
Defined.

Lemma expiring_no_wrap : no_wrap (db_ expiring_engine) q_key 0 (-1).
Proof.
  intros p Hm Hc. rewrite <- (meta_in_unique _ _ Hm Hc).
  replace (plm_left_index (meta_in expiring_engine)) with 9223372036854775807 by (vm_compute; reflexivity).
  replace (plm_right_index (meta_in expiring_engine)) with 9223372036854775811 by (vm_compute; reflexivity).
  lia.
Qed.

Lemma LRangeWithTTL_correct_witness :
  LRangeWithTTL 1000 q_key 0 (-1) expiring_engine = Some ((Status_OK, abc, 4000), expiring_engine).
Proof.
  refine (LRangeWithTTL_correct 1000 q_key 0 (-1) abc 5000 expiring_engine eq_refl expiring_ok
    clock_1000 expiring_holds _ _ expiring_no_wrap); [done|unfold is_i64; lia].
Defined.

Lemma LPop_correct_witness : exists r',
  LPop 1000 q_key 2 sample_engine = Some ((Status_OK, [lit "a"; lit "b"]), r') /\
  stores 1000 q_key [lit "a"] 0 sample_engine r'.
Proof.
  refine (LPop_correct 1000 q_key 2 abc 0 sample_engine eq_refl sample_ok sample_holds _ _);
    [lia|simpl; lia].
Defined.

Lemma RPop_correct_witness : exists r',
  RPop 1000 q_key 2 sample_engine = Some ((Status_OK, [lit "a"; lit "b"]), r') /\
  stores 1000 q_key [lit "a"] 0 sample_engine r'.
Proof.
  refine (RPop_correct 1000 q_key 2 abc 0 sample_engine eq_refl sample_ok sample_holds _ _);
    [lia|simpl; lia].
Defined.

Lemma LSet_correct_witness : exists r',
  LSet 1000 q_key (-1) (lit "z") sample_engine = Some (Status_OK, r') /\
  stores 1000 q_key [lit "a"; lit "b"; lit "z"] 0 sample_engine r'.
Proof.
  refine (LSet_correct 1000 q_key (-1) (lit "z") abc 0 sample_engine eq_refl sample_ok sample_holds _).
  unfold is_i64. lia.
Defined.

Lemma LTrim_correct_witness : exists r',
  LTrim 1000 q_key 1 1 sample_engine = Some (Status_OK, r') /\
  stores 1000 q_key [lit "b"] 0 sample_engine r'.
Proof.
  exact (LTrim_correct 1000 q_key 1 1 abc 0 sample_engine eq_refl clock_1000 sample_ok sample_holds
    (sample_no_wrap 1 1 ltac:(lia) ltac:(lia))).
Defined.

(** [RPUSH q a b a], [LPOP q], [LRANGE q 0 9223372036854775807] *)
Lemma range_sum_wraps_witness :
  LRange 1000 q_key 0 9223372036854775807 popped_engine = Some ((Status_OK, []), popped_engine) /\
  exists r', LTrim 1000 q_key 0 9223372036854775807 popped_engine = Some (Status_OK, r') /\
    stores 1000 q_key [] 0 popped_engine r'.
Proof.
  refine (proj2 (range_sum_wraps 1000 q_key (meta_in popped_engine) (stored [lit "b"; lit "a"])
    popped_engine eq_refl clock_1000 popped_ok popped_list _)).
  vm_compute. discriminate.
Defined.

Lemma LInsert_correct_witness : exists r',
  LInsert 1000 q_key After (lit "b") (lit "z") sample_engine = Some ((Status_OK, 4), r') /\
  stores 1000 q_key [lit "a"; lit "b"; lit "z"; lit "a"] 0 sample_engine r'.
Proof.
  refine (LInsert_correct 1000 q_key After (lit "b") (lit "z") abc 0 sample_engine eq_refl sample_ok
    sample_holds (sample_room 1 ltac:(lia)) _).
  simpl. lia.
Defined.

Lemma lists_expiry_correct_witness : exists r',
  ListsPersist 1000 q_key [] expiring_engine = Some (Status_OK, r') /\
  stores 1000 q_key abc 0 expiring_engine r'.
Proof.
  refine (proj1 (proj2 (proj2 (proj2 (proj2 (lists_expiry_correct 1000 q_key [] abc 5000 expiring_engine
    eq_refl clock_1000 expiring_ok expiring_holds _ _ _)))))); [done|by left|unfold is_i64; lia].
Defined.

Lemma ListsExpire_missing_key_witness : ListsExpire 1000 q_key 5000 [] fresh_engine = None.
Proof. exact (ListsExpire_missing_key 1000 q_key 5000 fresh_engine fresh_ok eq_refl). Defined.

Lemma RPoplpush_same_witness : exists r',
  RPoplpush 1000 q_key q_key sample_engine = Some ((Status_OK, lit "a"), r') /\
  stores 1000 q_key [lit "a"; lit "a"; lit "b"] 0 sample_engine r'.
Proof.
  exact (RPoplpush_same 1000 q_key [lit "a"; lit "b"] (lit "a") 0 sample_engine eq_refl sample_ok
    sample_holds (sample_room 1 ltac:(lia))).
Defined.

Lemma RPoplpush_two_witness : exists r',
  RPoplpush 1000 q_key (lit "d") sample_engine = Some ((Status_OK, lit "a"), r') /\
  engine_ok r' /\ holds (db_ r') 1000 q_key [lit "a"; lit "b"] 0 /\
  holds (db_ r') 1000 (lit "d") [lit "a"] 0 /\
  forall k l e, key_ok k = true -> k <> q_key -> k <> lit "d" ->
    holds (db_ sample_engine) 1000 k l e -> holds (db_ r') 1000 k l e.
Proof.
  refine (RPoplpush_two 1000 q_key (lit "d") [lit "a"; lit "b"] (lit "a") 0 [] 0 sample_engine eq_refl
    eq_refl _ clock_1000 sample_ok sample_holds _ _).
  - discriminate.
  - apply vacant_absent. vm_compute. reflexivity.
  - split; [lia|]. intros p Hm. vm_compute in Hm. discriminate.
Defined.

Lemma LRem_correct_witness : exists r',
  LRem 1000 q_key (-1) (lit "a") sample_engine = Some ((Status_OK, 1), r') /\
  stores 1000 q_key [lit "a"; lit "b"] 0 sample_engine r'.
Proof.
  refine (LRem_correct 1000 q_key (-1) (lit "a") abc 0 sample_engine eq_refl sample_ok sample_holds _).
  unfold is_i64. lia.
Defined.

(** ** Keys of another type

    List commands on a key that holds a value of another type: a live value is
    reported and left alone.  Streams are the exception: the staleness test
    never looks at them, so a list command takes a live stream for a missing
    key. *)

Section ListType.
Context {R : RocksDB} {L : RocksDBLaws R} {U : Uninit}.

Lemma bind_GetList_other {A} now key st r (f : Status + ParsedListsMetaValue -> M A) :
  healthy (db_ r) -> other_type kLists (db_ r) now key st -> bind (GetList now key key) f r = f (inl st) r.
Proof.
  intros Hdb Ho. apply bind_run. unfold GetList. by rewrite (bind_run _ _ _ _ _ (GetMeta_other kLists now key st r Hdb Ho)).
Qed.

(** Every list command answers a key of another type with the same status and
    leaves the engine as it was. *)
Theorem wrong_type_rejected now key st r :
  engine_ok r -> other_type kLists (db_ r) now key st ->
  (forall values,
     LPush now key values r = Some ((st, 0), r) /\ RPush now key values r = Some ((st, 0), r) /\
     LPushx now key values r = Some ((st, 0), r) /\ RPushx now key values r = Some ((st, 0), r)) /\
  (forall count,
     LPop now key count r = Some ((st, []), r) /\ RPop now key count r = Some ((st, []), r)) /\
  (forall index value,
     LIndex now key index r = Some ((st, []), r) /\ LSet now key index value r = Some (st, r)) /\
  (forall start stop,
     LRange now key start stop r = Some ((st, []), r) /\
     LRangeWithTTL now key start stop r = Some ((st, [], 0), r) /\
     LTrim now key start stop r = Some (st, r)) /\
  (forall before_or_after pivot value,
     LInsert now key before_or_after pivot value r = Some ((st, 0), r)) /\
  (forall count value, LRem now key count value r = Some ((st, 0), r)) /\
  (forall destination, RPoplpush now key destination r = Some ((st, []), r)) /\
  LLen now key [] r = Some ((st, 0), r) /\ ListsDel now key [] r = Some (st, r) /\
  (forall ttl, ListsExpire now key ttl [] r = Some (st, r)) /\
  (forall t, ListsExpireat now key t [] r = Some (st, r)) /\
  ListsPersist now key [] r = Some (st, r) /\ ListsTTL now key [] r = Some ((st, 0), r).
Proof.
  intros [Hdb _] Ho. split_and!; intros; split_and?;
    unfold LPush, RPush, LPushx, RPushx, LPop, RPop, LIndex, LSet, LRange, LRangeWithTTL, LTrim,
      LInsert, LRem, RPoplpush, LLen, ListsDel, ListsExpire, ListsExpireat, ListsPersist, ListsTTL,
      GetListOrPrefetched, GetMetaOrPrefetched;
    try (by rewrite (bind_GetList_other now key st r _ Hdb Ho));
    try (by rewrite (bind_GetMeta_other kLists now key st r _ Hdb Ho)).
  - destruct (decide (key = destination)) as [<-|_]; by rewrite (bind_GetList_other now key st r _ Hdb Ho).
Qed.

(** C36: A live stream is not protected: the staleness test reads the length of a
    default-constructed stream meta value and finds 0.  [TYPE] answers none, the
    key does not exist, and [RPush] replaces the stream's meta value by that of
    a new list. *)
Theorem stream_overwritten now key values mv r :
  key_ok key = true -> clock_ok now -> engine_ok r -> values <> [] ->
  Z.of_nat (length values) < 2 ^ 62 ->
  meta_of (db_ r) key = Some mv -> GetMetaValueType mv = kStreams ->
  GetType now key r = Some ((Status_OK, kNones), r) /\
  IsExist now key r = Some (Status_NotFound [], r) /\
  exists r' mv', RPush now key values r = Some ((Status_OK, Z.of_nat (length values)), r') /\
    meta_of (db_ r') key = Some mv' /\ GetMetaValueType mv' = kLists.
Proof.
  intros K Hnow He Hne Hn Hm Ht.
  assert (Hs : ExpectedStale now mv = Some true) by (unfold ExpectedStale; by rewrite Ht).
  split; [unfold GetType; rewrite bind_Get, Hm by done; change (ok Status_OK) with true; cbv iota;
    by rewrite (bind_lift _ _ _ _ Hs)|].
  split; [unfold IsExist; rewrite bind_Get, Hm by done; change (ok Status_OK) with true; cbv iota;
    by rewrite (bind_lift _ _ _ _ Hs)|].
  assert (Hv : holds (db_ r) now key [] 0).
  { apply (vacant_other _ _ _ mv); [done|by rewrite Ht|done]. }
  destruct (RPush_stores now key values [] 0 r K Hnow He Hv) as (r' & HR & _ & Hh & _).
  - split; [done|]. intros p Hp Hc Hl. exfalso. rewrite Hm in Hp. injection Hp as ->.
    by rewrite (coherent_type p Hc), Ht in Hl.
  - simpl in HR, Hh. destruct values as [|v values]; [done|]. destruct Hh as (p & vals & Hl & _ & _).
    exists r', (piv_data (plm_base p)). split_and!; [done|apply Hl|by eapply list_at_type].
Qed.

End ListType.

(** ** On concrete engines *)

Lemma wrong_type_rejected_witness :
  RPush 1000 q_key [lit "x"] (string_engine (lit "v") 0) =
  Some ((Status_InvalidArgument (lit "WRONGTYPE, key: q, expect type: list, get type: string"), 0),
        string_engine (lit "v") 0).
Proof.
  refine (proj1 (proj2 (proj1 (wrong_type_rejected 1000 q_key _ (string_engine (lit "v") 0) _ _) [lit "x"]))).
  - apply meta_engine_ok.
  - exists (StringsValue_Encode (InternalValue_new 1000 kStrings (lit "v"))).
    split_and!; [reflexivity|discriminate|reflexivity|reflexivity].
Defined.

Lemma stream_overwritten_witness :
  GetType 1000 q_key stream_engine = Some ((Status_OK, kNones), stream_engine) /\
  IsExist 1000 q_key stream_engine = Some (Status_NotFound [], stream_engine) /\
  exists r' mv', RPush 1000 q_key [lit "x"] stream_engine = Some ((Status_OK, 1), r') /\
  meta_of (db_ r') q_key = Some mv' /\ GetMetaValueType mv' = kLists.
Proof.
  refine (stream_overwritten 1000 q_key [lit "x"] stream_meta stream_engine eq_refl _ _ _ _ _ _).
  - unfold clock_ok. lia.
  - apply meta_engine_ok.
  - discriminate.
  - simpl. lia.
  - reflexivity.
  - reflexivity.
Defined.
