(* ===== verification/Compaction.v ===== *)
(** * Compaction and the commands

    A compaction removes the entries its filters answer [true] for.  A
    [compaction_step] runs the filter of the meta family on a meta value, or a
    filter of list elements over a sequence of them; the theorems say that no
    sequence of steps changes the list a key holds, and when a filter running
    beside a command does. *)

From S2P Require Import Prelude Coding KeyFormat Comparator ValueFormat StreamFormat RocksDB LruCache Redis KeySpace Filters Sample Lists ListSpec ListRead ListPush ListUpdate ListSample.
Open Scope Z_scope.

Section Compaction.
Context {R : RocksDB} {L : RocksDBLaws R} {U : Uninit}.

(** A visit of a list element, at a time up to [upto]. *)
Definition list_visit_ok (upto : Z) (x : visit Z) : Prop :=
  let '(now, _, _, i) := x in visit_ok x /\ now <= upto /\ is_u64 i.

(** What compaction may do up to the time [upto]: remove a meta value that
    [BaseMetaFilter] drops, or run a [ListsDataFilter] over entries of the list
    family and remove some of those it drops. *)
Inductive compaction_step (upto : Z) (db db' : DB) : Prop :=
  | compact_meta now k mv :
      now <= upto -> key_ok k = true -> meta_of db k = Some mv ->
      BaseMetaFilter_Filter now (BaseKey_Encode k) mv = Some true ->
      healthy db' -> meta_of db' k = None ->
      (forall k', key_ok k' = true -> k' <> k -> meta_of db' k' = meta_of db k') ->
      (forall k' v i, key_ok k' = true -> is_u64 v -> is_u64 i -> data_of db' k' v i = data_of db k' v i) ->
      compaction_step upto db db'
  | compact_lists visits dropped :
      Forall (list_visit_ok upto) visits ->
      run_filter (ListsDataFilter_Filter false db) (encoded ListsDataKey_Encode visits) FilterState_new = Some dropped ->
      healthy db' -> (forall k, key_ok k = true -> meta_of db' k = meta_of db k) ->
      (forall k v i, key_ok k = true -> is_u64 v -> is_u64 i ->
         data_of db' k v i = data_of db k v i \/
         data_of db' k v i = None /\
         exists n now, visits !! n = Some (now, k, v, i) /\ dropped !! n = Some true) ->
      compaction_step upto db db'.

Lemma live_before now now' e : now <= now' -> stale now' e = false -> stale now e = false.
Proof.
  intros Hn H. destruct (stale now e) eqn:E; [|done]. by rewrite (stale_mono now now') in H.
Qed.

Lemma coherent_parse_any w p :
  lists_meta_coherent p ->
  exists q, ParsedListsMetaValue_parse w (piv_data (plm_base p)) = Some q /\
    piv_version (plm_base q) = piv_version (plm_base p) /\
    piv_etime (plm_base q) = piv_etime (plm_base p) /\ plm_count q = plm_count p.
Proof.
  intros (L0 & HL & ->)%lists_meta_coherent_object. exists (lists_meta_object w L0).
  split; [|done]. by apply lists_meta_parse.
Qed.

(** Neither filter touches a live list. *)
Lemma live_list_kept now now' key p vals db :
  key_ok key = true -> now <= now' -> list_at db now' key p vals ->
  BaseMetaFilter_Filter now (BaseKey_Encode key) (piv_data (plm_base p)) = Some false /\
  loaded_dead load_lists kLists db now key (piv_version (plm_base p)) = Some false.
Proof.
  intros K Hn Hl. pose proof (la_coherent _ _ _ _ _ Hl) as Hc.
  pose proof (list_at_type _ _ _ _ _ Hl) as Ht.
  pose proof (la_live _ _ _ _ _ Hl) as Hs. rewrite IsStale_stale in Hs.
  pose proof (live_before now now' _ Hn Hs) as Hs0. split.
  - assert (Hne : piv_data (plm_base p) <> []) by (intros E; destruct Hc as (_ & Hlen & _); by rewrite E in Hlen).
    rewrite meta_filter_form by (done || rewrite Ht; set_solver). rewrite Ht, decide_False by done.
    unfold ExpectedStale. rewrite Ht. destruct (coherent_parse_any false p Hc) as (q & -> & Ev & Ee & Ec).
    cbn [mbind option_bind]. rewrite IsStale_stale, Ee, Ec, Hs0, (la_count _ _ _ _ _ Hl).
    pose proof (la_some _ _ _ _ _ Hl). destruct vals; [done|].
    by rewrite (proj2 (Z.eqb_neq _ 0)) by (simpl; lia).
  - unfold loaded_dead. rewrite (la_meta _ _ _ _ _ Hl), decide_True by done.
    unfold load_lists. rewrite (list_at_parse _ _ _ _ _ Hl). cbn [mbind option_bind].
    by rewrite Hs0, Z.ltb_irrefl.
Qed.

(** A visit whose entry the filter drops is of an entry it finds dead. *)
Lemma dropped_dead upto db visits dropped n now k v i :
  healthy db -> Forall (list_visit_ok upto) visits ->
  run_filter (ListsDataFilter_Filter false db) (encoded ListsDataKey_Encode visits) FilterState_new = Some dropped ->
  visits !! n = Some (now, k, v, i) -> dropped !! n = Some true ->
  now <= upto /\ loaded_dead load_lists kLists db now k v = Some true.
Proof.
  intros Hdb Hv Hrun Hn Hd. pose proof (proj1 (Forall_lookup _ _) Hv n _ Hn) as [_ [Hnow _]]. split; [done|].
  unfold ListsDataFilter_Filter in Hrun. rewrite DataFilter_run in Hrun.
  - apply mapM_Some in Hrun. by destruct (Forall2_lookup_lr _ _ _ n _ _ Hrun Hn Hd).
  - done.
  - apply lists_key_parse.
  - eapply Forall_impl; [exact Hv|]. intros [[[? ?] ?] ?] Hx. apply Hx.
  - by left.
Qed.

(** A list outlives a step. *)
Lemma step_keeps_list upto now' db db' key l e :
  key_ok key = true -> healthy db -> upto <= now' -> compaction_step upto db db' ->
  holds db now' key l e -> holds db' now' key l e.
Proof.
  intros K Hdb Hn Hst Hh. destruct l as [|x l].
  - assert (Hm : meta_of db' key = meta_of db key \/ meta_of db' key = None).
    { destruct Hst as [now k mv _ _ _ _ _ Hm Ho _|visits dropped _ _ _ Hm _]; [|left; by apply Hm].
      destruct (decide (key = k)) as [->|N]; [by right|left; by apply Ho]. }
    destruct Hm as [Hm|Hm]; [|by apply vacant_absent].
    destruct Hh as [E|mv E Ht Hs|p E Hc Ht Hs]; [apply vacant_absent|eapply vacant_other|eapply vacant_list]; eauto; congruence.
  - destruct Hh as (p & vals & Hl & Hu & Het). exists p, vals. split; [|done].
    pose proof (fun now Hx => live_list_kept now now' key p vals db K Hx Hl) as Hkept.
    destruct (coherent_ranges p (la_coherent _ _ _ _ _ Hl)) as (_ & _ & _ & Hv).
    assert (Hi : forall i v, vals !! i = Some v -> is_u64 (plm_left_index p + 1 + Z.of_nat i)).
    { intros i v Hi. clear -Hl Hi. destruct Hl. eapply (pending_u64 _ p [] vals i); [by constructor|by eapply lookup_lt_Some]. }
    destruct Hst as [now k mv Hnow Hk Em Hf _ Hm Ho Hd|visits dropped Hvis Hrun _ Hm Hd].
    + assert (N : key <> k).
      { intros <-. rewrite (la_meta _ _ _ _ _ Hl) in Em. injection Em as <-. destruct (Hkept now ltac:(lia)). congruence. }
      destruct Hl. constructor; try done; [by rewrite Ho|]. intros i v E. rewrite Hd by eauto. by apply la_data.
    + destruct Hl as [Hl1 Hl2 Hl3 Hl4 Hl5 Hl6 Hl7 Hl8 Hl9]. constructor; try done; [by rewrite Hm|]. intros i v E.
      destruct (Hd key _ _ K Hv (Hi i v E)) as [->|(_ & n & now & En & Ed)]; [by apply Hl8|].
      destruct (dropped_dead upto db visits dropped n now key _ _ Hdb Hvis Hrun En Ed) as [Hx Hdead].
      destruct (Hkept now ltac:(lia)). congruence.
Qed.

(** C12: Compaction never changes a list.  Whatever the filters of the meta
    family and of the list elements drop, over any sequence of runs at times up
    to [upto] beside which no command runs, each key then holds at [now'] exactly
    the list it held before, with the same expiry time; a key that held none
    still holds none. *)
Theorem compaction_keeps_lists upto now' db db' key l e :
  key_ok key = true -> healthy db -> upto <= now' -> rtc (compaction_step upto) db db' ->
  holds db now' key l e -> holds db' now' key l e.
Proof.
  intros K Hdb Hn Hst. induction Hst as [|db db1 db' H1 Hst IH]; [done|]. intros Hh.
  apply IH; [by destruct H1|]. by eapply (step_keeps_list upto now' db).
Qed.

(** a data filter and PERSIST can lose data.  The filter keeps the expiry
    time it read with the first element of a list; if the key is made
    persistent meanwhile, the elements visited after the old expiry time are
    removed although the list is live and keeps them all. *)
Theorem filter_ignores_persist now1 now2 key p vals r i j :
  key_ok key = true -> engine_ok r -> list_at (db_ r) now1 key p vals ->
  piv_etime (plm_base p) <> 0 -> piv_etime (plm_base p) < now2 -> is_u64 i -> is_u64 j ->
  let version := piv_version (plm_base p) in
  exists r' st,
    ListsDataFilter_Filter false (db_ r) now1 (ListsDataKey_Encode key version i) FilterState_new =
      Some (false, st) /\
    ListsPersist now1 key [] r = Some (Status_OK, r') /\
    holds (db_ r') now2 key (user_value <$> vals) 0 /\
    ListsDataFilter_Filter false (db_ r') now2 (ListsDataKey_Encode key version j) st =
      Some (true, st).
Proof.
  intros K He Hl Hne Hlt Hi Hj version. pose proof (proj1 He) as Hdb.
  destruct (coherent_ranges p (la_coherent _ _ _ _ _ Hl)) as (_ & _ & _ & Hv).
  destruct (set_etime_stores now1 key p vals r 0 K He Hl ltac:(lia)) as (r' & HW & _ & Hh & _).
  simpl in Hh. exists r', (mkFilterState (BaseKey_Encode key) false version (piv_etime (plm_base p))).
  split_and!.
  - unfold ListsDataFilter_Filter, DataFilter.
    rewrite ListsDataKey_Encode_form, ParsedListsDataKey_form, meta_key_enc_prefix by done. simpl.
    rewrite decide_False by (by apply BaseKey_Encode_nonempty). rewrite Get_lookup by done.
    fold (meta_of (db_ r) key). rewrite (la_meta _ _ _ _ _ Hl). simpl.
    rewrite decide_True by (by eapply list_at_type). unfold load_lists.
    rewrite (list_at_parse _ _ _ _ _ Hl). simpl. unfold filter_verdict. simpl.
    pose proof (la_live _ _ _ _ _ Hl) as Hs. rewrite IsStale_stale in Hs. unfold stale in Hs.
    by rewrite Hs, u64_id, Z.ltb_irrefl by done.
  - unfold ListsPersist. rewrite (bind_list_prefetched now1 key [] p vals r _ Hdb Hl (or_introl eq_refl)).
    by rewrite (proj2 (Z.eqb_neq _ 0)).
  - destruct (user_value <$> vals) as [|x l] eqn:E; [by destruct vals; pose proof (la_some _ _ _ _ _ Hl)|].
    destruct Hh as (q & vals' & Hq & Hu & Hq0). exists q, vals'. split; [|done].
    destruct Hq. constructor; try done. rewrite IsStale_stale. by rewrite Hq0.
  - unfold ListsDataFilter_Filter, DataFilter.
    rewrite ListsDataKey_Encode_form, ParsedListsDataKey_form, meta_key_enc_prefix by done. simpl.
    rewrite decide_True by done. unfold filter_verdict. simpl.
    by rewrite (proj2 (Z.eqb_neq _ 0)), (proj2 (Z.ltb_lt _ _)) by done.
Qed.

End Compaction.

(** ** Concrete instances *)

Definition z_key : bytes := lit "z".

(** The sample list, and under [z_key] an empty hash that may be collected. *)
Definition mixed_engine : Redis :=
  after (Write [Put kMetaCF (BaseKey_Encode z_key) empty_hash_meta]) sample_engine.
(** An element of an older version of the list, which no command sees. *)
Definition old_element : bytes := ListsDataKey_Encode q_key 900 5.
Definition littered_engine : Redis := after (Write [Put kListsDataCF old_element (lit "x")]) mixed_engine.
(** The same after compaction has collected the hash, and then the element. *)
Definition collected_engine : Redis :=
  after (Write [Delete kMetaCF (BaseKey_Encode z_key)]) littered_engine.
Definition swept_engine : Redis := after (Write [Delete kListsDataCF old_element]) collected_engine.

Lemma littered_ok : engine_ok littered_engine.
Proof. apply (engine_with_ok (db_ littered_engine)). vm_compute. reflexivity. Qed.

Lemma littered_holds : holds (db_ littered_engine) 3000 q_key [lit "a"; lit "b"; lit "a"] 0.
Proof.
  exists (meta_in sample_engine), (stored [lit "a"; lit "b"; lit "a"]).
  split; [|split; vm_compute; reflexivity]. solve_list_at.
Qed.

Lemma hash_collected : compaction_step 2000 (db_ littered_engine) (db_ collected_engine).
Proof.
  destruct (Write_meta z_key None littered_engine eq_refl littered_ok) as (r' & HW & [Hdb' _] & Hm & Ho & Hc).
  assert (E : db_ collected_engine = db_ r') by (unfold collected_engine, after; cbn [meta_op] in HW; by rewrite HW).
  rewrite E. apply (compact_meta _ _ _ 2000 z_key empty_hash_meta); [lia|done| | |done|done|done|].
  - vm_compute. reflexivity.
  - vm_compute. reflexivity.
  - intros k v i K Hv Hi. by apply Hc.
Qed.

Lemma element_collected : compaction_step 2000 (db_ collected_engine) (db_ swept_engine).
Proof.
  assert (Hok : engine_ok collected_engine) by (apply (engine_with_ok (db_ collected_engine)); vm_compute; reflexivity).
  destruct (Write_lookup (db_ collected_engine) [Delete kListsDataCF old_element] (proj1 Hok)) as (db' & HW & Hdb' & HL).
  assert (E : db_ swept_engine = db') by (unfold swept_engine, after, Write; by rewrite HW).
  rewrite E. apply (compact_lists _ _ _ [(2000, q_key, 900, 5)] [true]); [| |done| |].
  - repeat constructor; unfold is_u64; lia.
  - vm_compute. reflexivity.
  - intros k K. unfold meta_of. by rewrite HL.
  - intros k v i K Hv Hi. unfold data_of. rewrite HL by done. unfold lookup_after. cbn [fold_left].
    rewrite decide_True by done.
    destruct (cf_compare kListsDataCF (ListsDataKey_Encode k v i) old_element) eqn:Ec; [right|by left..].
    split; [done|]. apply (Eq_encoded _ q_key 900 5) in Ec as (-> & -> & ->); [|done..|apply (cmp_refl (cmp := ListsDataKeyCompare))].
    by exists 0%nat, 2000.
Qed.

Lemma compaction_keeps_lists_witness :
  meta_of (db_ littered_engine) z_key <> meta_of (db_ swept_engine) z_key /\
  data_of (db_ littered_engine) q_key 900 5 <> data_of (db_ swept_engine) q_key 900 5 /\
  holds (db_ swept_engine) 3000 q_key [lit "a"; lit "b"; lit "a"] 0.
Proof.
  split; [vm_compute; discriminate|]. split; [vm_compute; discriminate|].
  apply (compaction_keeps_lists 2000 3000 (db_ littered_engine)); [reflexivity|apply littered_ok|lia| |apply littered_holds].
  eapply rtc_l; [apply hash_collected|]. apply rtc_once, element_collected.
Defined.

Lemma filter_ignores_persist_witness :
  exists r' st,
    ListsPersist 1000 q_key [] expiring_engine = Some (Status_OK, r') /\
    holds (db_ r') 6000 q_key [lit "a"; lit "b"; lit "a"] 0 /\
    ListsDataFilter_Filter false (db_ r') 6000
      (ListsDataKey_Encode q_key (piv_version (plm_base (meta_in expiring_engine)))
         9223372036854775809) st = Some (true, st).
Proof.
  destruct (filter_ignores_persist 1000 6000 q_key (meta_in expiring_engine)
    (stored [lit "a"; lit "b"; lit "a"]) expiring_engine 9223372036854775808 9223372036854775809
    eq_refl expiring_ok expiring_list ltac:(vm_compute; discriminate) ltac:(vm_compute; reflexivity)
    ltac:(unfold is_u64; lia) ltac:(unfold is_u64; lia)) as (r' & st & _ & H1 & H2 & H3).
  exists r', st. split; [exact H1|]. split; [exact H2|exact H3].
Defined.

(** The sample list at its version, and nothing else. *)
Definition sample_owner (k : bytes) : owner := if decide (k = q_key) then Some (kLists, 1000, 0) else None.

Lemma sample_owners : owners (db_ sample_engine) sample_owner.
Proof.
  intros k K. unfold sample_owner. case_decide as E; [subst k|].
  - set (mv := default [] (meta_of (db_ sample_engine) q_key)). exists mv. split; [vm_compute; reflexivity|].
    assert (E : x03 :: le_bytes 8 3 ++ le_bytes 8 1000 ++ take 32 (drop 17 mv) ++ take 16 (drop 49 mv) ++
      take 8 (drop 65 mv) ++ le_bytes 8 0 = mv) by (vm_compute; reflexivity).
    rewrite <- E at 1. apply bytes_list; [reflexivity|unfold is_u64; lia|vm_compute; reflexivity..|right; lia].
  - assert (Hc : content (db_ sample_engine) kMetaCF = [(BaseKey_Encode q_key, default [] (meta_of (db_ sample_engine) q_key))])
      by (vm_compute; reflexivity).
    unfold meta_of, db_lookup. rewrite Hc. cbn [find_entry]. pose proof (BaseKey_eq k q_key eq_refl K) as Hk.
    destruct (cf_compare kMetaCF (BaseKey_Encode k) (BaseKey_Encode q_key)) eqn:Ec; [destruct E; by apply Hk|done..].
Qed.

Definition sample_visits : list (visit Z) := [(1000, q_key, 1000, 5); (1000, q_key, 900, 5); (1000, z_key, 1, 5)].

Lemma data_filters_exact_witness :
  run_filter (ListsDataFilter_Filter false (db_ sample_engine)) (encoded ListsDataKey_Encode sample_visits)
    FilterState_new = Some (dead_entries sample_owner kLists sample_visits) /\
  dead_entries sample_owner kLists sample_visits = [false; true; true].
Proof.
  split; [|vm_compute; reflexivity].
  apply (data_filters_exact (db_ sample_engine) sample_owner kHashes [] sample_visits []).
  - apply sample_ok.
  - apply sample_owners.
  - set_solver.
  - constructor.
  - repeat constructor; unfold is_u64; lia.
  - constructor.
Defined.

Lemma closing_filter_removes_witness :
  exists st', BaseDataFilter_Filter kHashes true empty_db 1000 (BaseDataKey_Encode q_key 1000 (lit "f"))
      FilterState_new = Some (false, st') /\
    BaseDataFilter_Filter kHashes true empty_db 1000 (BaseDataKey_Encode q_key 1000 (lit "g")) st' =
      Some (true, st').
Proof.
  apply (closing_filter_removes empty_db kHashes 1000 1000 q_key 1000 1000 (lit "f") (lit "g")
    FilterState_new); [reflexivity|unfold is_u64; lia..|vm_compute; discriminate].
Defined.

Lemma meta_filter_safe_witness :
  BaseMetaFilter_Filter 2000 (BaseKey_Encode q_key) empty_hash_meta = Some true /\
  ExpectedStale 2500 empty_hash_meta = Some true.
Proof.
  split; [vm_compute; reflexivity|].
  refine (proj1 (proj2 (meta_filter_safe 2000 q_key empty_hash_meta _ _ _) _ 2500 _));
    [reflexivity|discriminate|vm_compute; set_solver|vm_compute; reflexivity|lia].
Defined.
