(* ===== verification/Protocol.v ===== *)
(** * The Redis protocol, written

    How commands and replies become bytes: [include/pika_command.h] and
    [Cmd::ToRedisProtocol] of [src/pika_command.cc]. *)

From S2P Require Import Prelude Numbers.
Open Scope Z_scope.

Definition kNewLine : bytes := [x0d; x0a].

Section Protocol.
Context {U : Uninit}.

Definition RedisAppendContent (str value : bytes) : bytes := str ++ value ++ kNewLine.

(** The number goes through a buffer of 32 bytes and is appended as a C string. *)
Definition RedisAppendLen (str : bytes) (ori : Z) (prefix : bytes) : option bytes :=
  '(_, buf) ← ll2string (uninit 32) 32 ori;
  Some (str ++ prefix ++ c_str buf ++ kNewLine).

Definition RedisAppendLenUint64 (str : bytes) (ori : Z) (prefix : bytes) : option bytes :=
  RedisAppendLen str (i64 ori) prefix.

Fixpoint append_args (content : bytes) (argv : list bytes) : option bytes :=
  match argv with
  | [] => Some content
  | v :: argv =>
      content ← RedisAppendLenUint64 content (Z.of_nat (length v)) (lit "$");
      append_args (RedisAppendContent content v) argv
  end.

Definition ToRedisProtocol (argv_ : list bytes) : option bytes :=
  content ← RedisAppendLenUint64 [] (Z.of_nat (length argv_)) (lit "*");
  append_args content argv_.

(** ** Replies *)

Inductive CmdRet :=
  | kNone | kOk_ | kPong | kSyntaxErr | kInvalidInt | kInvalidBitInt | kInvalidBitOffsetInt
  | kInvalidBitPosArgument | kWrongBitOpNotNum | kInvalidFloat | kOverFlow | kNotFound_ | kOutOfRange
  | kInvalidPwd | kNoneBgsave | kPurgeExist | kInvalidParameter | kWrongNum | kInvalidIndex
  | kInvalidDbType | kInvalidDB | kInconsistentHashTag | kErrOther | kCacheMiss | KIncrByOverFlow
  | kInvalidTransaction | kTxnQueued | kTxnAbort | kMultiKey | kNoExists.

#[global] Instance CmdRet_eq_dec : EqDecision CmdRet.
Proof. solve_decision. Defined.

Record CmdRes := mkCmdRes { message_ : bytes; ret_ : CmdRet }.
Definition CmdRes_new : CmdRes := mkCmdRes [] kNone.

Definition CmdRes_none (r : CmdRes) : bool :=
  bool_decide (ret_ r = kNone) && match message_ r with [] => true | _ => false end.
Definition CmdRes_ok (r : CmdRes) : bool :=
  match ret_ r with kOk_ | kNone | kNoExists => true | _ => false end.
Definition CmdRes_clear (r : CmdRes) : CmdRes := mkCmdRes [] kNone.

Definition CmdRes_message (r : CmdRes) : bytes :=
  match ret_ r with
  | kNone => message_ r
  | kOk_ => lit "+OK" ++ kNewLine
  | kPong => lit "+PONG" ++ kNewLine
  | kSyntaxErr => lit "-ERR syntax error" ++ kNewLine
  | kInvalidInt => lit "-ERR value is not an integer or out of range" ++ kNewLine
  | kInvalidBitInt => lit "-ERR bit is not an integer or out of range" ++ kNewLine
  | kInvalidBitOffsetInt => lit "-ERR bit offset is not an integer or out of range" ++ kNewLine
  | kWrongBitOpNotNum => lit "-ERR BITOP NOT must be called with a single source key." ++ kNewLine
  | kInvalidBitPosArgument => lit "-ERR The bit argument must be 1 or 0." ++ kNewLine
  | kInvalidFloat => lit "-ERR value is not a valid float" ++ kNewLine
  | kOverFlow => lit "-ERR increment or decrement would overflow" ++ kNewLine
  | kNotFound_ => lit "-ERR no such key" ++ kNewLine
  | kOutOfRange => lit "-ERR index out of range" ++ kNewLine
  | kInvalidPwd => lit "-ERR invalid password" ++ kNewLine
  | kNoneBgsave => lit "-ERR No BGSave Works now" ++ kNewLine
  | kPurgeExist => lit "-ERR binlog already in purging..." ++ kNewLine
  | kInvalidParameter => lit "-ERR Invalid Argument" ++ kNewLine
  | kWrongNum => lit "-ERR wrong number of arguments for '" ++ message_ r ++ lit "' command" ++ kNewLine
  | kInvalidIndex => lit "-ERR invalid DB index for '" ++ message_ r ++ lit "'" ++ kNewLine
  | kInvalidDbType => lit "-ERR invalid DB for '" ++ message_ r ++ lit "'" ++ kNewLine
  | kInconsistentHashTag => lit "-ERR parameters hashtag is inconsistent" ++ kNewLine
  | kInvalidDB => lit "-ERR invalid DB for '" ++ message_ r ++ lit "'" ++ kNewLine
  | kInvalidTransaction => lit "-ERR WATCH inside MULTI is not allowed" ++ kNewLine
  | kTxnQueued => lit "+QUEUED" ++ kNewLine
  | kTxnAbort => lit "-EXECABORT " ++ message_ r ++ kNewLine
  | kErrOther => lit "-ERR " ++ message_ r ++ kNewLine
  | KIncrByOverFlow => lit "-ERR increment would produce NaN or Infinity" ++ message_ r ++ kNewLine
  | kMultiKey => lit "-WRONGTYPE Operation against a key holding the wrong kind of value" ++ kNewLine
  | kNoExists => message_ r
  | kCacheMiss => []
  end.

Definition append_len (r : CmdRes) (ori : Z) (prefix : bytes) : option CmdRes :=
  m ← RedisAppendLen (message_ r) ori prefix; Some (mkCmdRes m (ret_ r)).
Definition AppendStringLen (r : CmdRes) (ori : Z) : option CmdRes := append_len r ori (lit "$").
Definition AppendStringLenUint64 (r : CmdRes) (ori : Z) : option CmdRes := append_len r (i64 ori) (lit "$").
Definition AppendArrayLen (r : CmdRes) (ori : Z) : option CmdRes := append_len r ori (lit "*").
Definition AppendArrayLenUint64 (r : CmdRes) (ori : Z) : option CmdRes := append_len r (i64 ori) (lit "*").
Definition AppendInteger (r : CmdRes) (ori : Z) : option CmdRes := append_len r ori (lit ":").
Definition AppendContent (r : CmdRes) (value : bytes) : CmdRes :=
  mkCmdRes (RedisAppendContent (message_ r) value) (ret_ r).
Definition AppendString (r : CmdRes) (value : bytes) : option CmdRes :=
  r ← AppendStringLenUint64 r (Z.of_nat (length value)); Some (AppendContent r value).
Definition AppendStringRaw (r : CmdRes) (value : bytes) : CmdRes := mkCmdRes (message_ r ++ value) (ret_ r).

Fixpoint append_strings (r : CmdRes) (strArray : list bytes) : option CmdRes :=
  match strArray with
  | [] => Some r
  | item :: strArray => r ← AppendString r item; append_strings r strArray
  end.
Definition AppendStringVector (r : CmdRes) (strArray : list bytes) : option CmdRes :=
  match strArray with
  | [] => AppendArrayLen r 0
  | _ => r ← AppendArrayLen r (Z.of_nat (length strArray)); append_strings r strArray
  end.
Definition SetRes (r : CmdRes) (ret : CmdRet) (content : bytes) : CmdRes :=
  mkCmdRes (match content with [] => message_ r | _ => content end) ret.

(** ** What is written *)

(** A length line. *)
Definition len_line (c : byte) (n : Z) : bytes := c :: decimal n ++ kNewLine.

(** A bulk string, and an array of them. *)
Definition bulk (v : bytes) : bytes := len_line "$" (Z.of_nat (length v)) ++ v ++ kNewLine.
Definition bulks (l : list bytes) : bytes := concat (bulk <$> l).
Definition multibulk (l : list bytes) : bytes := len_line "*" (Z.of_nat (length l)) ++ bulks l.

Lemma bulks_cons v l : bulks (v :: l) = len_line "$" (Z.of_nat (length v)) ++ v ++ kNewLine ++ bulks l.
Proof. unfold bulks. rewrite fmap_cons. simpl. unfold bulk. by rewrite <- !app_assoc. Qed.

(** Lengths that the 64-bit counters hold. *)
Definition sizes_ok (l : list bytes) : Prop :=
  Z.of_nat (length l) < 2 ^ 63 /\ Forall (fun v => Z.of_nat (length v) < 2 ^ 63) l.

Lemma dollar : lit "$" = ["$"%byte].
Proof. reflexivity. Qed.
Lemma star : lit "*" = ["*"%byte].
Proof. reflexivity. Qed.

Lemma RedisAppendLen_line str n c :
  is_i64 n -> RedisAppendLen str n [c] = Some (str ++ len_line c n).
Proof.
  intros Hn. unfold RedisAppendLen, len_line. pose proof (decimal_length n Hn) as Hl.
  rewrite ll2string_writes; [|done|rewrite uninit_length; lia]. cbn [mbind option_bind].
  rewrite c_str_app by by apply c_str_decimal. done.
Qed.

Lemma i64_length {A} (l : list A) : Z.of_nat (length l) < 2 ^ 63 -> i64 (Z.of_nat (length l)) = Z.of_nat (length l).
Proof. intros H. unfold i64. rewrite Z.mod_small; lia. Qed.

Lemma append_args_bulks argv : forall content,
  Forall (fun v => Z.of_nat (length v) < 2 ^ 63) argv -> append_args content argv = Some (content ++ bulks argv).
Proof.
  induction argv as [|v argv IH]; intros content HF; simpl; [by rewrite app_nil_r|].
  apply Forall_cons in HF as [Hv HF]. unfold RedisAppendLenUint64. rewrite dollar.
  rewrite i64_length, RedisAppendLen_line by (unfold is_i64; lia). simpl. rewrite IH by done.
  rewrite bulks_cons. unfold RedisAppendContent. by rewrite <- !app_assoc.
Qed.

(** The protocol form of a command. *)
Lemma ToRedisProtocol_multibulk argv : sizes_ok argv -> ToRedisProtocol argv = Some (multibulk argv).
Proof.
  intros [Hn HF]. unfold ToRedisProtocol, RedisAppendLenUint64. rewrite star.
  rewrite i64_length, RedisAppendLen_line by (unfold is_i64; lia). simpl.
  by rewrite append_args_bulks.
Qed.

Lemma AppendStringVector_multibulk r l :
  sizes_ok l -> AppendStringVector r l = Some (mkCmdRes (message_ r ++ multibulk l) (ret_ r)).
Proof.
  intros [Hn HF]. assert (Hl : forall r, append_strings r l = Some (mkCmdRes (message_ r ++ bulks l) (ret_ r))).
  { clear Hn r. induction HF as [|v l Hv HF IH]; intros [m t]; simpl; [by rewrite app_nil_r|].
    unfold AppendString, AppendStringLenUint64, append_len. rewrite dollar.
    rewrite i64_length, RedisAppendLen_line by (unfold is_i64; lia). simpl. rewrite IH. simpl.
    rewrite bulks_cons. unfold RedisAppendContent. by rewrite <- !app_assoc. }
  unfold AppendStringVector. destruct l as [|v l].
  - unfold AppendArrayLen, append_len. rewrite star. rewrite RedisAppendLen_line by (unfold is_i64; lia). simpl.
    change (multibulk []) with (len_line "*" 0 ++ []). by rewrite app_nil_r.
  - unfold AppendArrayLen, append_len. rewrite star. rewrite RedisAppendLen_line by (unfold is_i64; lia). cbn [mbind option_bind].
    rewrite Hl. simpl. by rewrite <- app_assoc.
Qed.

End Protocol.
