(* ===== verification/RedisParser.v ===== *)
(** * The request parser

    [net/src/redis_parser.cc] and [net/include/redis_parser.h]: the state
    machine that turns the bytes a client sends, in pieces of any size, into
    commands.  A read outside the buffer, a failed [assert], a signed overflow
    and an exception are [None]. *)

From S2P Require Import Prelude Numbers.
Open Scope Z_scope.

(** ** Inline requests *)

(** The byte at [p + i], with the NUL that ends the text. *)
Definition rd_at (p : bytes) (i : nat) : option byte :=
  match drop i p with
  | c :: _ => Some c
  | [] => if Nat.eqb i (length p) then Some x00 else None
  end.

Definition in_chars (lo c hi : byte) : bool :=
  (Z_of_byte lo <=? Z_of_byte c) && (Z_of_byte c <=? Z_of_byte hi).

(** On a signed [char]; the letters and digits have the same values. *)
Definition IsHexDigit (ch : byte) : bool :=
  in_chars "0" ch "9" || in_chars "a" ch "f" || in_chars "A" ch "F".

Definition HexDigitToInt32 (ch : byte) : Z :=
  if in_chars "0" ch "9" then Z_of_byte ch - Z_of_byte "0"
  else if in_chars "A" ch "F" then Z_of_byte ch - Z_of_byte "A"
  else if in_chars "a" ch "f" then Z_of_byte ch - Z_of_byte "a"
  else 0.

(** Blanks in front of a token. *)
Fixpoint skip_blanks (p : bytes) : bytes :=
  match p with
  | c :: p' => if negb (Byte.eqb c x00) && is_space c then skip_blanks p' else p
  | [] => []
  end.

(** What one round of the loop over a token leaves: the quotes it is in, the
    token and the text; the end of the token; or the error. *)
Inductive token_step :=
  | More (inq insq : bool) (arg p : bytes)
  | TokenDone (arg p : bytes)
  | TokenError.

Definition escaped (c : byte) : byte :=
  if Byte.eqb c "n" then x0a
  else if Byte.eqb c "r" then x0d
  else if Byte.eqb c "t" then x09
  else if Byte.eqb c "b" then x08
  else if Byte.eqb c "a" then x07
  else c.

Definition ch_bslash : byte := x5c.
Definition ch_dquote : byte := x22.
Definition ch_squote : byte := x27.

(** A backslash, an x and two hexadecimal digits. *)
Definition hex_escape (p : bytes) : option bool :=
  c0 ← rd_at p 0;
  if negb (Byte.eqb c0 ch_bslash) then Some false
  else
    c1 ← rd_at p 1;
    if negb (Byte.eqb c1 "x") then Some false
    else
      c2 ← rd_at p 2;
      if negb (IsHexDigit c2) then Some false
      else c3 ← rd_at p 3; Some (IsHexDigit c3).

(** A closing quote must be followed by a space or nothing. *)
Definition close_quote (arg p : bytes) : option token_step :=
  c1 ← rd_at p 1;
  Some (if negb (Byte.eqb c1 x00) && negb (is_space c1) then TokenError else TokenDone arg p).

Definition in_quotes (arg p : bytes) : option token_step :=
  c ← rd_at p 0;
  hex ← hex_escape p;
  if hex : bool then
    c2 ← rd_at p 2; c3 ← rd_at p 3;
    let byte := byte_of_Z (HexDigitToInt32 c2 * 16 + HexDigitToInt32 c3) in
    Some (More true false (arg ++ [byte]) (drop 3 p))
  else
    esc ← (if Byte.eqb c ch_bslash then c1 ← rd_at p 1; Some (negb (Byte.eqb c1 x00)) else Some false);
    if esc : bool then
      c1 ← rd_at p 1; Some (More true false (arg ++ [escaped c1]) (drop 1 p))
    else if Byte.eqb c ch_dquote then close_quote arg p
    else if Byte.eqb c x00 then Some TokenError
    else Some (More true false (arg ++ [c]) p).

Definition in_single_quotes (arg p : bytes) : option token_step :=
  c ← rd_at p 0;
  esc ← (if Byte.eqb c ch_bslash then c1 ← rd_at p 1; Some (Byte.eqb c1 ch_squote) else Some false);
  if esc : bool then Some (More false true (arg ++ [ch_squote]) (drop 1 p))
  else if Byte.eqb c ch_squote then close_quote arg p
  else if Byte.eqb c x00 then Some TokenError
  else Some (More false true (arg ++ [c]) p).

Definition outside_quotes (arg p : bytes) : option token_step :=
  c ← rd_at p 0;
  Some (if Byte.eqb c " " || Byte.eqb c x0a || Byte.eqb c x0d || Byte.eqb c x09 || Byte.eqb c x00
        then TokenDone arg p
        else if Byte.eqb c ch_dquote then More true false arg p
        else if Byte.eqb c ch_squote then More false true arg p
        else More false false (arg ++ [c]) p).

(** The pointer stays on the NUL. *)
Definition bump (p : bytes) : option bytes :=
  c ← rd_at p 0; Some (if Byte.eqb c x00 then p else drop 1 p).

(** [while (done == 0)]: the token and the text after it; the inner [None] is
    the return of -1. *)
Fixpoint get_token (fuel : nat) (inq insq : bool) (arg p : bytes) : option (option (bytes * bytes)) :=
  match fuel with
  | O => None
  | S fuel =>
      step ← (if inq then in_quotes arg p
              else if insq then in_single_quotes arg p
              else outside_quotes arg p);
      match step with
      | TokenError => Some None
      | TokenDone arg p => p ← bump p; Some (Some (arg, p))
      | More inq insq arg p => p ← bump p; get_token fuel inq insq arg p
      end
  end.

(** The arguments, or [None] for -1. *)
Fixpoint split_loop (fuel : nat) (p : bytes) (argv : list bytes) : option (option (list bytes)) :=
  match fuel with
  | O => None
  | S fuel =>
      let p := skip_blanks p in
      c ← rd_at p 0;
      if negb (Byte.eqb c x00) then
        token ← get_token (S (length p)) false false [] p;
        match token with
        | None => Some None
        | Some (arg, p) => split_loop fuel p (argv ++ [arg])
        end
      else Some (Some argv)
  end.

Definition split2args (req_buf : bytes) : option (option (list bytes)) :=
  split_loop (S (length req_buf)) req_buf [].

(** ** The parser *)

Inductive RedisParserStatus :=
  | kRedisParserNone | kRedisParserInitDone | kRedisParserHalf | kRedisParserDone | kRedisParserError.

Inductive RedisParserError :=
  | kRedisParserOk | kRedisParserInitError | kRedisParserFullError | kRedisParserProtoError
  | kRedisParserDealError | kRedisParserCompleteError.

#[global] Instance RedisParserStatus_eq_dec : EqDecision RedisParserStatus.
Proof. solve_decision. Defined.

Definition REDIS_INLINE_MAXLEN : Z := 1024 * 64.
Definition REDIS_REQ_INLINE : Z := 1.
Definition REDIS_REQ_MULTIBULK : Z := 2.
Definition REDIS_PARSER_REQUEST : Z := 1.
Definition REDIS_PARSER_RESPONSE : Z := 2.

Section Parser.
(** What the callbacks work on through [data]. *)
Context {S : Type}.

Record RedisParserSettings := mkSettings {
  DealMessage : option (S -> list bytes -> Z * S);
  Complete : option (S -> list (list bytes) -> Z * S)
}.

Record RedisParser := mkRedisParser {
  data : S;
  parser_settings_ : RedisParserSettings;
  status_code_ : RedisParserStatus;
  error_code_ : RedisParserError;
  redis_type_ : Z;
  multibulk_len_ : Z;
  bulk_len_ : Z;
  half_argv_ : bytes;
  redis_parser_type_ : Z;
  argv_ : list bytes;
  argvs_ : list (list bytes);
  cur_pos_ : Z;
  input_str_ : bytes;
  length_ : Z
}.

Definition RedisParser_new (d : S) : RedisParser :=
  mkRedisParser d (mkSettings None None) kRedisParserNone kRedisParserOk 0 0 (-1) [] REDIS_PARSER_REQUEST
    [] [] 0 [] 0.

(** One field or two changed. *)
Definition set_data (p : RedisParser) d := let '(mkRedisParser _ st sc ec ty ml bl ha pt av avs cp inp ln) := p in
  mkRedisParser d st sc ec ty ml bl ha pt av avs cp inp ln.
Definition set_settings (p : RedisParser) pt st := let '(mkRedisParser d _ sc ec ty ml bl ha _ av avs cp inp ln) := p in
  mkRedisParser d st sc ec ty ml bl ha pt av avs cp inp ln.
Definition set_codes (p : RedisParser) sc ec := let '(mkRedisParser d st _ _ ty ml bl ha pt av avs cp inp ln) := p in
  mkRedisParser d st sc ec ty ml bl ha pt av avs cp inp ln.
Definition set_redis_type (p : RedisParser) ty := let '(mkRedisParser d st sc ec _ ml bl ha pt av avs cp inp ln) := p in
  mkRedisParser d st sc ec ty ml bl ha pt av avs cp inp ln.
Definition set_multibulk_len (p : RedisParser) ml := let '(mkRedisParser d st sc ec ty _ bl ha pt av avs cp inp ln) := p in
  mkRedisParser d st sc ec ty ml bl ha pt av avs cp inp ln.
Definition set_bulk_len (p : RedisParser) bl := let '(mkRedisParser d st sc ec ty ml _ ha pt av avs cp inp ln) := p in
  mkRedisParser d st sc ec ty ml bl ha pt av avs cp inp ln.
Definition set_half (p : RedisParser) ha := let '(mkRedisParser d st sc ec ty ml bl _ pt av avs cp inp ln) := p in
  mkRedisParser d st sc ec ty ml bl ha pt av avs cp inp ln.
Definition set_argv (p : RedisParser) av := let '(mkRedisParser d st sc ec ty ml bl ha pt _ avs cp inp ln) := p in
  mkRedisParser d st sc ec ty ml bl ha pt av avs cp inp ln.
Definition set_argvs (p : RedisParser) avs := let '(mkRedisParser d st sc ec ty ml bl ha pt av _ cp inp ln) := p in
  mkRedisParser d st sc ec ty ml bl ha pt av avs cp inp ln.
Definition set_cur_pos (p : RedisParser) cp := let '(mkRedisParser d st sc ec ty ml bl ha pt av avs _ inp ln) := p in
  mkRedisParser d st sc ec ty ml bl ha pt av avs cp inp ln.
Definition set_input (p : RedisParser) inp ln := let '(mkRedisParser d st sc ec ty ml bl ha pt av avs cp _ _) := p in
  mkRedisParser d st sc ec ty ml bl ha pt av avs cp inp ln.

(** [std::string(input_buf_ + pos, n)]; a negative [n] is a size the string
    refuses. *)
Definition input_substr (p : RedisParser) (pos n : Z) : option bytes :=
  if (0 <=? pos) && (0 <=? n) && (pos + n <=? Z.of_nat (length (input_str_ p)))
  then Some (take (Z.to_nat n) (drop (Z.to_nat pos) (input_str_ p)))
  else None.

Fixpoint find_newline (l : bytes) (pos : Z) : Z :=
  match l with
  | [] => -1
  | c :: l => if Byte.eqb c x0a then pos else find_newline l (pos + 1)
  end.

Definition FindNextSeparators (p : RedisParser) : Z :=
  if length_ p - 1 <? cur_pos_ p then -1
  else find_newline (take (Z.to_nat (length_ p - cur_pos_ p)) (drop (Z.to_nat (cur_pos_ p)) (input_str_ p)))
         (cur_pos_ p).

(** The inner [None] is -1.  A line of two bytes makes the length negative,
    which as a [size_t] takes the rest of the buffer. *)
Definition GetNextNum (p : RedisParser) (pos : Z) : option (option Z) :=
  if pos <=? cur_pos_ p then None
  else
    let slen := Z.min (u64 (pos - cur_pos_ p - 2)) (Z.of_nat (length (input_str_ p))) in
    Some (string2long (take (Z.to_nat slen) (drop (Z.to_nat (cur_pos_ p + 1)) (input_str_ p)))).

Definition CacheHalfArgv (p : RedisParser) : option RedisParser :=
  tmp ← input_substr p (cur_pos_ p) (length_ p - cur_pos_ p);
  Some (set_cur_pos (set_half p tmp) (length_ p)).

Definition SetParserStatus (p : RedisParser) (status : RedisParserStatus) (error : RedisParserError)
    : option RedisParser :=
  p ← (if decide (status = kRedisParserHalf) then CacheHalfArgv p else Some p);
  Some (set_codes p status error).

(** [SetParserStatus(status, error); return status_code_;] *)
Definition finish (p : RedisParser) (status : RedisParserStatus) (error : RedisParserError)
    : option (RedisParserStatus * RedisParser) :=
  p ← SetParserStatus p status error; Some (status_code_ p, p).

Definition RedisParserInit (p : RedisParser) (type : Z) (settings : RedisParserSettings)
    : option (RedisParserStatus * RedisParser) :=
  if negb (bool_decide (status_code_ p = kRedisParserNone)) then finish p kRedisParserError kRedisParserInitError
  else if negb (type =? REDIS_PARSER_REQUEST) && negb (type =? REDIS_PARSER_RESPONSE) then
    finish p kRedisParserError kRedisParserInitError
  else finish (set_settings p type settings) kRedisParserInitDone kRedisParserOk.

Definition ProcessInlineBuffer (p : RedisParser) : option (RedisParserStatus * RedisParser) :=
  let pos := FindNextSeparators p in
  if pos =? -1 then
    if REDIS_INLINE_MAXLEN <? length_ p then finish p kRedisParserError kRedisParserFullError
    else finish p kRedisParserHalf kRedisParserOk
  else
    req_buf ← input_substr p (cur_pos_ p) (pos + 1 - cur_pos_ p);
    args ← split2args req_buf;
    let p := set_cur_pos (set_argv p (default [] args)) (pos + 1) in
    match args with
    | None => finish p kRedisParserError kRedisParserProtoError
    | Some _ => finish p kRedisParserDone kRedisParserOk
    end.

(** What the loop over the arguments ends with: a return or a break. *)
Inductive bulk_end :=
  | Returned (st : RedisParserStatus) (p : RedisParser)
  | Broke (p : RedisParser).

(** The length line of an argument, when its length is not known yet: a return
    or the parser that goes on. *)
Definition bulk_header (p : RedisParser) : option (RedisParserStatus * RedisParser + RedisParser) :=
  if bulk_len_ p =? -1 then
    let pos := FindNextSeparators p in
    if negb (pos =? -1) then
      c ← rd_at (input_str_ p) (Z.to_nat (cur_pos_ p));
      if negb (Byte.eqb c "$") then r ← finish p kRedisParserError kRedisParserProtoError; Some (inl r)
      else
        num ← GetNextNum p pos;
        match num with
        | None => r ← finish p kRedisParserError kRedisParserProtoError; Some (inl r)
        | Some n =>
            let p := set_cur_pos (set_bulk_len p n) (pos + 1) in
            if length_ p - 1 <? cur_pos_ p then r ← finish p kRedisParserHalf kRedisParserOk; Some (inl r)
            else Some (inr p)
        end
    else r ← finish p kRedisParserHalf kRedisParserOk; Some (inl r)
  else Some (inr p).

Fixpoint bulk_loop (fuel : nat) (p : RedisParser) : option bulk_end :=
  if multibulk_len_ p =? 0 then Some (Broke p)
  else
    match fuel with
    | O => None
    | Datatypes.S fuel =>
        header ← bulk_header p;
        match header with
        | inl (st, p) => Some (Returned st p)
        | inr p =>
            if LLONG_MAX <? bulk_len_ p + 2 then None
            else if (length_ p - 1) - cur_pos_ p + 1 <? bulk_len_ p + 2 then Some (Broke p)
            else
              arg ← input_substr p (cur_pos_ p) (bulk_len_ p);
              let p := set_argv p (argv_ p ++ [arg]) in
              let p := set_cur_pos p (i32 (cur_pos_ p + bulk_len_ p + 2)) in
              let p := set_multibulk_len (set_bulk_len p (-1)) (multibulk_len_ p - 1) in
              bulk_loop fuel p
        end
    end.

(** The length line; a return, or the parser that goes on to the arguments. *)
Definition multibulk_header (p : RedisParser) : option (RedisParserStatus * RedisParser + RedisParser) :=
  if multibulk_len_ p =? 0 then
    let pos := FindNextSeparators p in
    if negb (pos =? -1) then
      num ← GetNextNum p pos;
      match num with
      | None => r ← finish p kRedisParserError kRedisParserProtoError; Some (inl r)
      | Some n =>
          let p := set_argv (set_cur_pos (set_multibulk_len p n) (pos + 1)) [] in
          if length_ p - 1 <? cur_pos_ p then r ← finish p kRedisParserHalf kRedisParserOk; Some (inl r)
          else Some (inr p)
      end
    else r ← finish p kRedisParserHalf kRedisParserOk; Some (inl r)
  else Some (inr p).

Definition ProcessMultibulkBuffer (p : RedisParser) : option (RedisParserStatus * RedisParser) :=
  h ← multibulk_header p;
  match h with
  | inl r => Some r
  | inr p =>
      e ← bulk_loop (Datatypes.S (length (input_str_ p))) p;
      match e with
      | Returned st p => Some (st, p)
      | Broke p =>
          if multibulk_len_ p =? 0 then finish p kRedisParserDone kRedisParserOk
          else finish p kRedisParserHalf kRedisParserOk
      end
  end.

Definition ResetCommandStatus (p : RedisParser) : RedisParser :=
  set_half (set_bulk_len (set_multibulk_len (set_redis_type p 0) 0) (-1)) [].

Definition ResetRedisParser (p : RedisParser) : RedisParser := set_input (set_cur_pos p 0) [] 0.

Definition ProcessResponseBuffer (p : RedisParser) : option (RedisParserStatus * RedisParser) :=
  finish p kRedisParserDone kRedisParserOk.

(** The callbacks; [false] is a return of another value than 0. *)
Definition deal_message (p : RedisParser) : bool * RedisParser :=
  match DealMessage (parser_settings_ p) with
  | Some f => let '(ret, d) := f (data p) (argv_ p) in (ret =? 0, set_data p d)
  | None => (true, p)
  end.
Definition complete (p : RedisParser) : bool * RedisParser :=
  match Complete (parser_settings_ p) with
  | Some f => let '(ret, d) := f (data p) (argvs_ p) in (ret =? 0, set_data p d)
  | None => (true, p)
  end.

(** The kind of the next request, by its first byte. *)
Definition choose_type (p : RedisParser) : option RedisParser :=
  if redis_type_ p =? 0 then
    c ← rd_at (input_str_ p) (Z.to_nat (cur_pos_ p));
    Some (set_redis_type p (if Byte.eqb c "*" then REDIS_REQ_MULTIBULK else REDIS_REQ_INLINE))
  else Some p.

Definition process_one (p : RedisParser) : option (RedisParserStatus * RedisParser) :=
  if redis_type_ p =? REDIS_REQ_INLINE then ProcessInlineBuffer p
  else if redis_type_ p =? REDIS_REQ_MULTIBULK then ProcessMultibulkBuffer p
  else Some (kRedisParserError, p).

(** A command that is not empty goes to the callback. *)
Definition deal_command (p : RedisParser) : bool * RedisParser :=
  match argv_ p with
  | [] => (true, p)
  | _ => deal_message (set_argvs p (argvs_ p ++ [argv_ p]))
  end.

Fixpoint request_loop (fuel : nat) (p : RedisParser) : option (RedisParserStatus * RedisParser) :=
  if cur_pos_ p <=? length_ p - 1 then
    match fuel with
    | O => None
    | Datatypes.S fuel =>
        p ← choose_type p;
        '(ret, p) ← process_one p;
        if negb (bool_decide (ret = kRedisParserDone)) then Some (ret, p)
        else
          let '(dealt, p) := deal_command p in
          if negb dealt then finish p kRedisParserError kRedisParserDealError
          else request_loop fuel (ResetCommandStatus (set_argv p []))
    end
  else
    let '(completed, p) := complete p in
    if negb completed then finish p kRedisParserError kRedisParserCompleteError
    else finish (set_argvs p []) kRedisParserDone kRedisParserOk.

Definition ProcessRequestBuffer (p : RedisParser) : option (RedisParserStatus * RedisParser) :=
  request_loop (length (input_str_ p)) p.

(** The status, [*parsed_len] when it is set, and the parser. *)
Definition ProcessInputBuffer (p : RedisParser) (input_buf : bytes)
    : option (RedisParserStatus * option Z * RedisParser) :=
  match status_code_ p with
  | kRedisParserInitDone | kRedisParserHalf | kRedisParserDone =>
      let p := set_input p (half_argv_ p ++ input_buf)
                 (i32 (Z.of_nat (length input_buf) + Z.of_nat (length (half_argv_ p)))) in
      if (redis_parser_type_ p =? REDIS_PARSER_REQUEST) || (redis_parser_type_ p =? REDIS_PARSER_RESPONSE) then
        '(_, p) ← (if redis_parser_type_ p =? REDIS_PARSER_REQUEST then ProcessRequestBuffer p
                   else ProcessResponseBuffer p);
        let parsed_len := cur_pos_ p in
        let p := ResetRedisParser p in
        Some (status_code_ p, Some parsed_len, p)
      else '(st, p) ← finish p kRedisParserError kRedisParserInitError; Some (st, None, p)
  | _ => '(st, p) ← finish p kRedisParserError kRedisParserInitError; Some (st, None, p)
  end.

End Parser.

Arguments RedisParser : clear implicits.
Arguments RedisParserSettings : clear implicits.
