(* ===== verification/ParserSpec.v ===== *)
(** * Requests in pieces

    A client that writes commands in the protocol form, cut into pieces of any
    size, has each of them handed over once and in order. *)

From S2P Require Import Prelude Numbers Protocol RedisParser.
Open Scope Z_scope.

(** ** Lines *)

Lemma find_newline_none l : forall pos, x0a ∉ l -> find_newline l pos = -1.
Proof.
  induction l as [|c l IH]; intros pos N; simpl; [done|].
  destruct (Byte.eqb c x0a) eqn:E; [apply Byte.byte_dec_bl in E as ->; set_solver|]. apply IH. set_solver.
Qed.

Lemma find_newline_first l r : forall pos, x0a ∉ l ->
  find_newline (l ++ x0a :: r) pos = pos + Z.of_nat (length l).
Proof.
  induction l as [|c l IH]; intros pos N; cbn [app find_newline length].
  - change (Byte.eqb x0a x0a) with true. simpl. lia.
  - destruct (Byte.eqb c x0a) eqn:E; [apply Byte.byte_dec_bl in E as ->; set_solver|].
    rewrite IH by set_solver. lia.
Qed.

Lemma decimal_no_newline n : is_i64 n -> x0a ∉ decimal n.
Proof.
  intros Hn. rewrite decimal_sign. intros [Hs|Hd]%elem_of_app.
  - unfold sign in Hs. case_match; [|by apply not_elem_of_nil in Hs].
    apply list_elem_of_singleton in Hs. discriminate.
  - pose proof (udecimal_is_digit 20 (Z.abs n) ltac:(lia)) as H. rewrite forallb_forall in H.
    apply list_elem_of_In in Hd. specialize (H _ Hd). discriminate.
Qed.

(** A prefix of two texts ends inside the first or covers it. *)
Lemma prefix_app_cases {A} (i a b : list A) :
  i `prefix_of` a ++ b ->
  (exists t, a = i ++ t /\ t <> []) \/ (exists j, i = a ++ j /\ j `prefix_of` b).
Proof.
  intros [k E]. revert a E. induction i as [|x i IH]; intros a E.
  - destruct a as [|y a]; [right; exists []; split; [done|by eexists]|left; by exists (y :: a)].
  - destruct a as [|y a]; [right; exists (x :: i); split; [done|by exists k]|].
    simpl in E. injection E as -> E.
    destruct (IH a E) as [(t & -> & N)|(j & -> & P)]; [left; by exists t|right; by exists j].
Qed.

Section Parser.
Context {S : Type}.

(** The parser while it looks at [rest], with [pre] behind it. *)
Record looks_at (p : RedisParser S) (pre rest : bytes) : Prop := {
  la_input : input_str_ p = pre ++ rest;
  la_pos : cur_pos_ p = Z.of_nat (length pre);
  la_length : length_ p = Z.of_nat (length (pre ++ rest));
  la_room : Z.of_nat (length (pre ++ rest)) < 2 ^ 31
}.

Lemma FindNext_rest (p : RedisParser S) pre rest :
  looks_at p pre rest -> FindNextSeparators p = find_newline rest (Z.of_nat (length pre)).
Proof.
  intros [Hi Hp Hl _]. unfold FindNextSeparators. rewrite Hi, Hp, Hl, length_app.
  destruct (Z.ltb_spec (Z.of_nat (length pre + length rest) - 1) (Z.of_nat (length pre))) as [H|H].
  - destruct rest; [done|]. simpl in H. lia.
  - rewrite Nat2Z.id, drop_app_length, take_ge by lia. done.
Qed.

(** A length line in front. *)
Lemma GetNextNum_line (p : RedisParser S) pre c n post :
  looks_at p pre (len_line c n ++ post) -> is_i64 n -> c <> x0a ->
  let pos := Z.of_nat (length pre) + Z.of_nat (length (len_line c n)) - 1 in
  FindNextSeparators p = pos /\ GetNextNum p pos = Some (Some n).
Proof.
  intros Hla Hn Hc pos. pose proof Hla as [Hi Hp Hl Hr]. unfold len_line, kNewLine in *.
  assert (El : Z.of_nat (length (c :: decimal n ++ [x0d; x0a])) = Z.of_nat (length (decimal n)) + 3)
    by (simpl; rewrite length_app; simpl; lia).
  split.
  - rewrite (FindNext_rest p _ _ Hla). unfold pos.
    replace ((c :: decimal n ++ [x0d; x0a]) ++ post) with ((c :: decimal n ++ [x0d]) ++ x0a :: post)
      by (simpl; by rewrite <- !app_assoc).
    rewrite find_newline_first; [rewrite El; simpl; rewrite length_app; simpl; lia|].
    pose proof (decimal_no_newline n Hn). rewrite elem_of_cons, elem_of_app, list_elem_of_singleton. naive_solver.
  - unfold GetNextNum. rewrite Hp, Hi. rewrite (proj2 (Z.leb_gt pos _)) by (unfold pos; lia).
    replace (Z.to_nat (Z.min _ _)) with (length (decimal n)).
    2: { set (line := c :: decimal n ++ [x0d; x0a]) in *. rewrite !length_app in Hr |- *. unfold u64, pos.
         rewrite Z.mod_small; lia. }
    replace (Z.to_nat (Z.of_nat (length pre) + 1)) with (length (pre ++ [c])) by (rewrite length_app; simpl; lia).
    replace (pre ++ (c :: decimal n ++ [x0d; x0a]) ++ post) with ((pre ++ [c]) ++ decimal n ++ [x0d; x0a] ++ post)
      by (simpl; by rewrite <- !app_assoc).
    rewrite drop_app_length, take_app_length. unfold string2long. rewrite string2int_number, number_decimal by done.
    unfold fits, is_i64, LLONG_MIN, LLONG_MAX in *. cbn [mbind option_bind].
    rewrite (proj2 (Z.leb_le _ n)), (proj2 (Z.leb_le n _)) by lia. cbn [andb mbind option_bind].
    by rewrite (proj2 (Z.ltb_ge n _)), (proj2 (Z.ltb_ge _ n)) by lia.
Qed.
(** ** Commands in the protocol form *)

Section Command.
Context (d : S) (settings : RedisParserSettings S) (sc : RedisParserStatus) (ec : RedisParserError).
Context (ha : bytes) (avs : list (list bytes)).

(** The parser of a request at [rest], with [pre] behind it. *)
Definition at_ (ty ml bl : Z) (av : list bytes) (pre rest : bytes) : RedisParser S :=
  mkRedisParser d settings sc ec ty ml bl ha REDIS_PARSER_REQUEST av avs
    (Z.of_nat (length pre)) (pre ++ rest) (Z.of_nat (length (pre ++ rest))).

(** It has kept [half] for the next piece. *)
Definition halved (ty ml bl : Z) (av : list bytes) (half input : bytes) : RedisParser S :=
  mkRedisParser d settings kRedisParserHalf kRedisParserOk ty ml bl half REDIS_PARSER_REQUEST av avs
    (Z.of_nat (length input)) input (Z.of_nat (length input)).

Definition fits_int (t : bytes) : Prop := Z.of_nat (length t) < 2 ^ 31.

Lemma at_looks ty ml bl av pre rest : fits_int (pre ++ rest) -> looks_at (at_ ty ml bl av pre rest) pre rest.
Proof. intros H. by constructor. Qed.

Lemma finish_half ty ml bl av pre rest :
  finish (at_ ty ml bl av pre rest) kRedisParserHalf kRedisParserOk =
  Some (kRedisParserHalf, halved ty ml bl av rest (pre ++ rest)).
Proof.
  unfold finish, SetParserStatus, CacheHalfArgv, input_substr. rewrite decide_True by done. simpl.
  rewrite (proj2 (Z.leb_le 0 _)), (proj2 (Z.leb_le 0 _)), (proj2 (Z.leb_le _ _)) by (rewrite ?length_app; lia).
  simpl. rewrite Nat2Z.id, drop_app_length, take_ge by (rewrite length_app; lia). done.
Qed.

(** What of the command is still expected: [T] starts where the kept text
    starts. *)
Inductive mode : Z -> Z -> list bytes -> list bytes -> bytes -> Prop :=
  | mode_header av cmd : mode 0 (-1) av cmd (multibulk cmd)
  | mode_args av l : l <> [] -> mode (Z.of_nat (length l)) (-1) av (av ++ l) (bulks l)
  | mode_data av v l :
      mode (Z.of_nat (length (v :: l))) (Z.of_nat (length v)) av (av ++ v :: l) (v ++ kNewLine ++ bulks l).

Lemma move_on ty ml bl av pre line rest :
  set_cur_pos (at_ ty ml bl av pre (line ++ rest)) (Z.of_nat (length (pre ++ line))) =
  at_ ty ml bl av (pre ++ line) rest.
Proof. unfold at_. simpl. by rewrite <- app_assoc. Qed.

Lemma at_shift ty ml bl av pre line rest :
  mkRedisParser d settings sc ec ty ml bl ha REDIS_PARSER_REQUEST av avs
    (Z.of_nat (length (pre ++ line))) (pre ++ line ++ rest) (Z.of_nat (length (pre ++ line ++ rest))) =
  at_ ty ml bl av (pre ++ line) rest.
Proof. unfold at_. by rewrite <- app_assoc. Qed.

Lemma app_pos (pre line : bytes) : Z.of_nat (length pre) + Z.of_nat (length line) = Z.of_nat (length (pre ++ line)).
Proof. rewrite length_app. lia. Qed.

(** The line of an argument's length. *)
Notation arg_line k := (len_line "$" k).

(** A length line with something behind it, and one that ends the piece. *)
Lemma bulk_header_line n k av pre rest :
  is_i64 k -> fits_int (pre ++ arg_line k ++ rest) ->
  bulk_header (at_ 2 n (-1) av pre (arg_line k ++ rest)) =
  match rest with
  | [] => Some (inl (kRedisParserHalf, halved 2 n k av [] (pre ++ arg_line k)))
  | _ => Some (inr (at_ 2 n k av (pre ++ arg_line k) rest))
  end.
Proof.
  intros Hi Hr. pose proof (at_looks 2 n (-1) av pre _ Hr) as Hla.
  destruct (GetNextNum_line _ _ _ _ _ Hla Hi ltac:(done)) as [HF HG].
  set (p := at_ 2 n (-1) av pre (arg_line k ++ rest)) in *.
  unfold bulk_header. rewrite HF, HG. change (bulk_len_ p =? -1) with true. cbv iota zeta.
  rewrite (proj2 (Z.eqb_neq _ (-1))) by (unfold len_line; simpl; lia). cbn [negb].
  assert (Hc : rd_at (input_str_ p) (Z.to_nat (cur_pos_ p)) = Some "$"%byte).
  { unfold rd_at, p. simpl. by rewrite Nat2Z.id, drop_app_length. }
  rewrite Hc. cbn [mbind option_bind]. change (Byte.eqb "$" "$") with true. cbn [negb].
  rewrite Z.sub_add, app_pos.
  change (set_cur_pos (set_bulk_len p k) (Z.of_nat (length (pre ++ arg_line k)))) with
    (set_cur_pos (at_ 2 n k av pre (arg_line k ++ rest)) (Z.of_nat (length (pre ++ arg_line k)))).
  rewrite move_on. unfold at_ at 1 2. cbn [length_ cur_pos_]. rewrite (length_app (pre ++ _)). destruct rest as [|c rest].
  - rewrite (proj2 (Z.ltb_lt _ _)) by (simpl; lia). rewrite finish_half, app_nil_r. done.
  - rewrite (proj2 (Z.ltb_ge _ _)) by (simpl; lia). done.
Qed.

Lemma bulk_loop_line fuel n k av pre rest :
  0 <= k -> is_i64 k -> rest <> [] -> fits_int (pre ++ arg_line k ++ rest) ->
  bulk_loop fuel (at_ 2 n (-1) av pre (arg_line k ++ rest)) =
  match fuel with
  | O => bulk_loop fuel (at_ 2 n (-1) av pre (arg_line k ++ rest))
  | _ => if n =? 0 then Some (Broke (at_ 2 n (-1) av pre (arg_line k ++ rest)))
         else bulk_loop fuel (at_ 2 n k av (pre ++ arg_line k) rest)
  end.
Proof.
  intros Hk Hi Hne Hr. destruct fuel as [|fuel]; [done|].
  pose proof (bulk_header_line n k av pre rest Hi Hr) as Hh. destruct rest as [|c rest]; [done|].
  set (p := at_ 2 n (-1) av pre (arg_line k ++ c :: rest)) in *.
  set (q := at_ 2 n k av (pre ++ arg_line k) (c :: rest)) in *.
  assert (Hq : bulk_header q = Some (inr q)).
  { unfold bulk_header, q, at_. cbn [bulk_len_]. by rewrite (proj2 (Z.eqb_neq _ (-1))) by lia. }
  cbn [bulk_loop]. rewrite Hh, Hq. change (multibulk_len_ p) with n. change (multibulk_len_ q) with n.
  by destruct (n =? 0).
Qed.

(** Every byte of a line but its last. *)
Lemma line_prefix_no_newline c k i t :
  is_i64 k -> c <> x0a -> len_line c k = i ++ t -> t <> [] -> x0a ∉ i.
Proof.
  intros Hk Hc E Ht. destruct (exists_last Ht) as (t' & z & ->).
  assert (E' : (c :: decimal k ++ [x0d]) ++ [x0a] = (i ++ t') ++ [z]).
  { rewrite <- !app_assoc, <- E. unfold len_line, kNewLine. simpl. by rewrite <- app_assoc. }
  apply app_inj_tail in E' as [E' _]. intros Hin.
  assert (Hin' : x0a ∈ c :: decimal k ++ [x0d]) by (rewrite E'; set_solver).
  pose proof (decimal_no_newline k Hk). rewrite elem_of_cons, elem_of_app, list_elem_of_singleton in Hin'. naive_solver.
Qed.

Lemma bulk_header_part n av pre i :
  x0a ∉ i -> fits_int (pre ++ i) ->
  bulk_header (at_ 2 n (-1) av pre i) = Some (inl (kRedisParserHalf, halved 2 n (-1) av i (pre ++ i))).
Proof.
  intros N Hr. unfold bulk_header. change (bulk_len_ (at_ 2 n (-1) av pre i) =? -1) with true. cbv iota zeta.
  rewrite (FindNext_rest _ _ _ (at_looks 2 n (-1) av pre i Hr)), find_newline_none by done.
  change (negb (-1 =? -1)) with false. cbv iota. by rewrite finish_half.
Qed.

Lemma bulk_loop_returns fuel (p q : RedisParser S) st :
  multibulk_len_ p <> 0 -> bulk_header p = Some (inl (st, q)) ->
  bulk_loop (Datatypes.S fuel) p = Some (Returned st q).
Proof. intros Hn Hh. cbn [bulk_loop]. by rewrite (proj2 (Z.eqb_neq _ 0)), Hh. Qed.

(** One argument that is there. *)
Lemma bulk_loop_data fuel n v av pre rest :
  0 < n -> fits_int (pre ++ v ++ kNewLine ++ rest) ->
  bulk_loop (Datatypes.S fuel) (at_ 2 n (Z.of_nat (length v)) av pre (v ++ kNewLine ++ rest)) =
  bulk_loop fuel (at_ 2 (n - 1) (-1) (av ++ [v]) (pre ++ v ++ kNewLine) rest).
Proof.
  intros Hn Hr. set (p := at_ 2 n (Z.of_nat (length v)) av pre (v ++ kNewLine ++ rest)).
  assert (Hh : bulk_header p = Some (inr p)).
  { unfold bulk_header, p, at_. cbn [bulk_len_]. by rewrite (proj2 (Z.eqb_neq _ (-1))) by lia. }
  cbn [bulk_loop]. rewrite Hh. change (multibulk_len_ p) with n. rewrite (proj2 (Z.eqb_neq n 0)) by lia.
  cbn [mbind option_bind].
  assert (El : Z.of_nat (length (pre ++ v ++ kNewLine ++ rest)) =
    Z.of_nat (length pre) + Z.of_nat (length v) + 2 + Z.of_nat (length rest)) by (rewrite !length_app; simpl; lia).
  unfold fits_int in Hr. change (bulk_len_ p) with (Z.of_nat (length v)).
  change (length_ p) with (Z.of_nat (length (pre ++ v ++ kNewLine ++ rest))).
  change (cur_pos_ p) with (Z.of_nat (length pre)).
  rewrite (proj2 (Z.ltb_ge LLONG_MAX _)), (proj2 (Z.ltb_ge _ _)) by (unfold LLONG_MAX; lia).
  unfold input_substr. change (input_str_ p) with (pre ++ v ++ kNewLine ++ rest).
  rewrite (proj2 (Z.leb_le 0 _)), (proj2 (Z.leb_le 0 _)), (proj2 (Z.leb_le _ _)) by lia. cbn [andb mbind option_bind].
  rewrite !Nat2Z.id, drop_app_length, take_app_length. unfold p, at_. simpl. rewrite <- !app_assoc.
  replace (i32 _) with (Z.of_nat (length (pre ++ v ++ kNewLine))); [done|].
  unfold i32. rewrite !length_app. rewrite Z.mod_small; simpl; lia.
Qed.

(** An argument of which a part is missing. *)
Lemma bulk_loop_short fuel n v av pre i t :
  0 < n -> v ++ kNewLine = i ++ t -> t <> [] -> fits_int (pre ++ i) -> Z.of_nat (length v) < 2 ^ 62 ->
  bulk_loop (Datatypes.S fuel) (at_ 2 n (Z.of_nat (length v)) av pre i) =
  Some (Broke (at_ 2 n (Z.of_nat (length v)) av pre i)).
Proof.
  intros Hn E Ht Hr Hv. set (p := at_ 2 n (Z.of_nat (length v)) av pre i).
  assert (Hh : bulk_header p = Some (inr p)).
  { unfold bulk_header, p, at_. cbn [bulk_len_]. by rewrite (proj2 (Z.eqb_neq _ (-1))) by lia. }
  cbn [bulk_loop]. rewrite Hh. change (multibulk_len_ p) with n. rewrite (proj2 (Z.eqb_neq n 0)) by lia.
  cbn [mbind option_bind]. change (bulk_len_ p) with (Z.of_nat (length v)).
  change (length_ p) with (Z.of_nat (length (pre ++ i))). change (cur_pos_ p) with (Z.of_nat (length pre)).
  apply (f_equal length) in E. rewrite !length_app in E. simpl in E.
  assert (0 < length t)%nat by (destruct t; [done|simpl; lia]).
  rewrite (proj2 (Z.ltb_ge LLONG_MAX _)), (proj2 (Z.ltb_lt _ _)) by (rewrite ?length_app; unfold LLONG_MAX; lia).
  done.
Qed.

(** All the arguments are there. *)
Lemma bulk_loop_full l : forall fuel av pre rest,
  (length l <= fuel)%nat -> fits_int (pre ++ bulks l ++ rest) ->
  bulk_loop fuel (at_ 2 (Z.of_nat (length l)) (-1) av pre (bulks l ++ rest)) =
  Some (Broke (at_ 2 0 (-1) (av ++ l) (pre ++ bulks l) rest)).
Proof.
  induction l as [|v l IH]; intros fuel av pre rest Hf Hr.
  - destruct fuel; cbn [bulk_loop]; unfold at_; simpl; by rewrite !app_nil_r.
  - destruct fuel as [|fuel]; [simpl in Hf; lia|]. rewrite bulks_cons, <- !app_assoc in *.
    assert (Hv : is_i64 (Z.of_nat (length v))).
    { unfold fits_int in Hr. rewrite !length_app in Hr. unfold is_i64. lia. }
    rewrite bulk_loop_line; [|lia|done|by destruct v|done]. rewrite (proj2 (Z.eqb_neq _ 0)) by (simpl; lia).
    rewrite app_assoc in Hr. rewrite bulk_loop_data by (done || simpl; lia).
    replace (Z.of_nat (length (v :: l)) - 1) with (Z.of_nat (length l)) by (simpl; lia).
    rewrite IH; [|simpl in Hf; lia|]; by rewrite <- !app_assoc in *.
Qed.

(** What [ProcessMultibulkBuffer] makes of the end of the loop. *)
Definition bulk_result (e : bulk_end (S:=S)) : option (RedisParserStatus * RedisParser S) :=
  match e with
  | Returned st p => Some (st, p)
  | Broke p =>
      if multibulk_len_ p =? 0 then finish p kRedisParserDone kRedisParserOk
      else finish p kRedisParserHalf kRedisParserOk
  end.

(** The piece ends inside the command: the parser keeps what it has not used,
    and [t] is still to come. *)
Definition waits (r : option (RedisParserStatus * RedisParser S)) (cmd : list bytes) (input t : bytes) : Prop :=
  exists ml bl av half, r = Some (kRedisParserHalf, halved 2 ml bl av half input) /\ mode ml bl av cmd (half ++ t).

Lemma data_waits l v av pre i t fuel :
  (forall fuel av pre i t, bulks l = i ++ t -> t <> [] -> (length i < fuel)%nat -> fits_int (pre ++ i) ->
     waits (e ← bulk_loop fuel (at_ 2 (Z.of_nat (length l)) (-1) av pre i); bulk_result e) (av ++ l) (pre ++ i) t) ->
  v ++ kNewLine ++ bulks l = i ++ t -> t <> [] -> (length i < fuel)%nat -> fits_int (pre ++ i) ->
  Z.of_nat (length v) < 2 ^ 62 ->
  waits (e ← bulk_loop fuel (at_ 2 (Z.of_nat (length (v :: l))) (Z.of_nat (length v)) av pre i); bulk_result e)
    (av ++ v :: l) (pre ++ i) t.
Proof.
  intros IH E Ht Hf Hr Hv. destruct fuel as [|fuel]; [lia|].
  destruct (prefix_app_cases i (v ++ kNewLine) (bulks l)) as [(t' & E' & Ht')|(j & -> & (k & Ej))].
  { exists t. by rewrite <- E, <- app_assoc. }
  - rewrite (bulk_loop_short fuel (Z.of_nat (length (v :: l))) v av pre i t' ltac:(simpl; lia) E' Ht' Hr Hv). cbn [mbind option_bind bulk_result].
    unfold at_ at 1. cbn [multibulk_len_]. rewrite (proj2 (Z.eqb_neq _ 0)) by (simpl; lia). rewrite finish_half.
    eexists _, _, _, _. split; [done|]. rewrite <- E. apply mode_data.
  - rewrite <- app_assoc in *. rewrite bulk_loop_data by (done || simpl; lia).
    replace (Z.of_nat (length (v :: l)) - 1) with (Z.of_nat (length l)) by (simpl; lia).
    assert (E' : bulks l = j ++ t) by (rewrite <- app_assoc in E; by apply app_inv_head, app_inv_head in E).
    destruct (IH fuel (av ++ [v]) (pre ++ v ++ kNewLine) j t E' Ht) as (ml & bl & av' & half & -> & Hm);
      [rewrite !length_app in Hf; simpl in Hf; lia|by rewrite <- !app_assoc|].
    exists ml, bl, av', half. rewrite <- !app_assoc in *. done.
Qed.

Lemma args_wait l : forall fuel av pre i t,
  Forall (fun v => Z.of_nat (length v) < 2 ^ 62) l ->
  bulks l = i ++ t -> t <> [] -> (length i < fuel)%nat -> fits_int (pre ++ i) ->
  waits (e ← bulk_loop fuel (at_ 2 (Z.of_nat (length l)) (-1) av pre i); bulk_result e) (av ++ l) (pre ++ i) t.
Proof.
  induction l as [|v l IH]; intros fuel av pre i t HF E Ht Hf Hr.
  { symmetry in E. by apply app_nil in E as [_ ->]. }
  apply Forall_cons in HF as [Hv HF]. rewrite bulks_cons in E.
  assert (Hi : is_i64 (Z.of_nat (length v))) by (unfold is_i64; lia).
  destruct (prefix_app_cases i (arg_line (Z.of_nat (length v))) (v ++ kNewLine ++ bulks l)) as [(t' & E' & Ht')|(j & -> & _)].
  { by exists t. }
  - destruct fuel as [|fuel]; [lia|].
    erewrite bulk_loop_returns; [|simpl; lia|apply bulk_header_part; [|done]];
      [|exact (line_prefix_no_newline "$" _ _ _ Hi ltac:(done) E' Ht')].
    cbn [mbind option_bind bulk_result]. eexists _, _, _, _. split; [done|].
    rewrite <- E, <- bulks_cons. by apply mode_args.
  - rewrite <- app_assoc in E. apply app_inv_head in E. destruct j as [|c j].
    + destruct fuel as [|fuel]; [lia|].
      erewrite bulk_loop_returns; [|simpl; lia|rewrite bulk_header_line by (done || lia); done].
      cbn [mbind option_bind bulk_result]. rewrite app_nil_r. eexists _, _, _, _. split; [done|].
      simpl app. simpl app in E. rewrite <- E. apply mode_data.
    + rewrite bulk_loop_line by (done || lia). destruct fuel as [|fuel]; [lia|].
      rewrite (proj2 (Z.eqb_neq _ 0)) by (simpl; lia). rewrite app_assoc in Hr |- *.
      apply data_waits; try done; [intros; by apply IH|]. rewrite length_app in Hf. lia.
Qed.

(** The length line of the command. *)
Lemma multibulk_header_line k av pre rest :
  0 < k -> is_i64 k -> fits_int (pre ++ len_line "*" k ++ rest) ->
  multibulk_header (at_ 2 0 (-1) av pre (len_line "*" k ++ rest)) =
  match rest with
  | [] => Some (inl (kRedisParserHalf, halved 2 k (-1) [] [] (pre ++ len_line "*" k)))
  | _ => Some (inr (at_ 2 k (-1) [] (pre ++ len_line "*" k) rest))
  end.
Proof.
  intros Hk Hi Hr. pose proof (at_looks 2 0 (-1) av pre _ Hr) as Hla.
  destruct (GetNextNum_line _ _ _ _ _ Hla Hi ltac:(done)) as [HF HG].
  set (p := at_ 2 0 (-1) av pre (len_line "*" k ++ rest)) in *.
  unfold multibulk_header. rewrite HF, HG. change (multibulk_len_ p =? 0) with true. cbv iota zeta.
  rewrite (proj2 (Z.eqb_neq _ (-1))) by (unfold len_line; simpl; lia). cbn [negb mbind option_bind].
  rewrite Z.sub_add, app_pos.
  change (set_argv (set_cur_pos (set_multibulk_len p k) (Z.of_nat (length (pre ++ len_line "*" k)))) []) with
    (set_cur_pos (at_ 2 k (-1) [] pre (len_line "*" k ++ rest)) (Z.of_nat (length (pre ++ len_line "*" k)))).
  rewrite move_on. unfold at_ at 1 2. cbn [length_ cur_pos_]. rewrite (length_app (pre ++ _)). destruct rest as [|c rest].
  - rewrite (proj2 (Z.ltb_lt _ _)) by (simpl; lia). rewrite finish_half, app_nil_r. done.
  - rewrite (proj2 (Z.ltb_ge _ _)) by (simpl; lia). done.
Qed.

Lemma multibulk_header_part av pre i :
  x0a ∉ i -> fits_int (pre ++ i) ->
  multibulk_header (at_ 2 0 (-1) av pre i) = Some (inl (kRedisParserHalf, halved 2 0 (-1) av i (pre ++ i))).
Proof.
  intros N Hr. unfold multibulk_header. change (multibulk_len_ (at_ 2 0 (-1) av pre i) =? 0) with true. cbv iota zeta.
  rewrite (FindNext_rest _ _ _ (at_looks 2 0 (-1) av pre i Hr)), find_newline_none by done.
  change (negb (-1 =? -1)) with false. cbv iota. by rewrite finish_half.
Qed.

Lemma Process_args ml bl av pre rest :
  0 < ml -> ProcessMultibulkBuffer (at_ 2 ml bl av pre rest) =
    (e ← bulk_loop (Datatypes.S (length (pre ++ rest))) (at_ 2 ml bl av pre rest); bulk_result e).
Proof.
  intros H. unfold ProcessMultibulkBuffer, multibulk_header. change (multibulk_len_ (at_ 2 ml bl av pre rest)) with ml.
  by rewrite (proj2 (Z.eqb_neq ml 0)) by lia.
Qed.

(** Commands as clients send them. *)
Definition cmd_ok (cmd : list bytes) : Prop :=
  cmd <> [] /\ sizes_ok cmd /\ Forall (fun v => Z.of_nat (length v) < 2 ^ 62) cmd.

(** The whole rest of the command is there. *)
Lemma Process_full ml bl av cmd T pre rest :
  mode ml bl av cmd T -> cmd_ok cmd -> fits_int (pre ++ T ++ rest) ->
  ProcessMultibulkBuffer (at_ 2 ml bl av pre (T ++ rest)) =
  finish (at_ 2 0 (-1) cmd (pre ++ T) rest) kRedisParserDone kRedisParserOk.
Proof.
  intros Hm (Hne & [Hn _] & HF) Hr. assert (Hlen : forall l, (length l <= length (bulks l))%nat).
  { clear. induction l as [|v l IH]; [done|]. rewrite bulks_cons, !length_app. unfold len_line. simpl. lia. }
  destruct Hm as [av cmd|av l Hl|av v l].
  - unfold multibulk in *. rewrite <- !app_assoc in *. unfold ProcessMultibulkBuffer.
    assert (Hk : 0 < Z.of_nat (length cmd)) by (destruct cmd; [done|simpl; lia]).
    rewrite multibulk_header_line by (done || unfold is_i64; lia).
    destruct (bulks cmd ++ rest) as [|c t] eqn:E.
    { destruct cmd as [|v cmd]; [done|]. rewrite bulks_cons in E. unfold len_line in E. discriminate. }
    cbn [mbind option_bind]. rewrite <- E in *. change (input_str_ _) with ((pre ++ len_line "*" (Z.of_nat (length cmd))) ++ bulks cmd ++ rest) at 1.
    rewrite bulk_loop_full; [by rewrite <- app_assoc| |by rewrite <- app_assoc].
    specialize (Hlen cmd). rewrite !length_app. lia.
  - rewrite Process_args by (destruct l; [done|simpl; lia]). rewrite bulk_loop_full; [done| |done].
    specialize (Hlen l). rewrite !length_app. lia.
  - rewrite Process_args by (simpl; lia). rewrite <- !app_assoc in *. rewrite bulk_loop_data by (done || simpl; lia).
    replace (Z.of_nat (length (v :: l)) - 1) with (Z.of_nat (length l)) by (simpl; lia).
    rewrite bulk_loop_full; [by rewrite <- !app_assoc| |by rewrite <- !app_assoc].
    specialize (Hlen l). rewrite !length_app. lia.
Qed.

(** The piece ends before the command does. *)
Lemma Process_part ml bl av cmd T i t pre :
  mode ml bl av cmd T -> T = i ++ t -> t <> [] -> cmd_ok cmd -> fits_int (pre ++ i) ->
  waits (ProcessMultibulkBuffer (at_ 2 ml bl av pre i)) cmd (pre ++ i) t.
Proof.
  intros Hm E Ht (Hne & [Hn _] & HF) Hr. destruct Hm as [av cmd|av l Hl|av v l].
  - assert (Hk : 0 < Z.of_nat (length cmd)) by (destruct cmd; [done|simpl; lia]).
    assert (Hi : is_i64 (Z.of_nat (length cmd))) by (unfold is_i64; lia). unfold multibulk in E.
    destruct (prefix_app_cases i (len_line "*" (Z.of_nat (length cmd))) (bulks cmd)) as [(t' & E' & Ht')|(j & -> & _)].
    { by exists t. }
    + unfold ProcessMultibulkBuffer. rewrite multibulk_header_part;
        [|exact (line_prefix_no_newline "*" _ _ _ Hi ltac:(done) E' Ht')|done].
      eexists _, _, _, _. split; [done|]. rewrite <- E. apply mode_header.
    + rewrite <- app_assoc in E. apply app_inv_head in E. unfold ProcessMultibulkBuffer.
      rewrite multibulk_header_line by (done || lia). destruct j as [|c j].
      * rewrite app_nil_r. eexists _, _, _, _. split; [done|]. simpl app in E |- *. rewrite <- E. by apply (mode_args []).
      * cbn [mbind option_bind].
        change (input_str_ _) with ((pre ++ len_line "*" (Z.of_nat (length cmd))) ++ c :: j) at 1.
        rewrite app_assoc in Hr |- *. apply (args_wait cmd _ []); try done.
        rewrite !length_app. simpl. lia.
  - rewrite Process_args by (destruct l; [done|simpl; lia]). apply args_wait; try done.
    + by apply Forall_app in HF as [_ HF].
    + rewrite length_app. lia.
  - rewrite Process_args by (simpl; lia). apply Forall_app in HF as [_ HF]. apply Forall_cons in HF as [Hv HF].
    apply data_waits; try done. { intros. by apply args_wait. }
    rewrite length_app. lia.
Qed.

End Command.

End Parser.

(** ** A connection *)

(** Callbacks that record: the commands handed over one by one, and those that
    come with a complete piece. *)
Notation recorded := (list (list bytes) * list (list bytes))%type.
Definition recorder : RedisParserSettings recorded :=
  mkSettings (Some (fun s argv => (0, (s.1 ++ [argv], s.2)))) (Some (fun s argvs => (0, (s.1, s.2 ++ argvs)))).

(** The text of commands. *)
Definition stream (cmds : list (list bytes)) : bytes := concat (multibulk <$> cmds).

Lemma stream_cons cmd cmds : stream (cmd :: cmds) = multibulk cmd ++ stream cmds.
Proof. done. Qed.

Lemma stream_app a b : stream (a ++ b) = stream a ++ stream b.
Proof. unfold stream. by rewrite fmap_app, concat_app. Qed.

Notation rec_at a b := (at_ (a, b) recorder).

Lemma choose_type_star (d : recorded) sc ec ha avs ty ml bl av pre i :
  ty = 2 \/ ty = 0 ->
  choose_type (at_ d recorder sc ec ha avs ty ml bl av pre ("*"%byte :: i)) =
  Some (at_ d recorder sc ec ha avs 2 ml bl av pre ("*"%byte :: i)).
Proof.
  intros [->| ->]; unfold choose_type; [done|]. unfold at_, rd_at. cbn [redis_type_ input_str_ cur_pos_].
  change (0 =? 0) with true. cbv iota. by rewrite Nat2Z.id, drop_app_length.
Qed.

(** The kind is known, or the text starts a command. *)
Definition of_kind (ty : Z) (i : bytes) : Prop := ty = 2 \/ (ty = 0 /\ exists j, i = "*"%byte :: j).

Lemma choose_type_kind (d : recorded) sc ec ha avs ty ml bl av pre i :
  of_kind ty i ->
  choose_type (at_ d recorder sc ec ha avs ty ml bl av pre i) = Some (at_ d recorder sc ec ha avs 2 ml bl av pre i).
Proof. intros [->|(-> & j & ->)]; [done|]. apply choose_type_star. by right. Qed.

Lemma request_loop_step fuel (d : recorded) sc ec ha avs ty ml bl av pre i :
  i <> [] -> of_kind ty i ->
  request_loop (S fuel) (at_ d recorder sc ec ha avs ty ml bl av pre i) =
  ('(ret, p) ← ProcessMultibulkBuffer (at_ d recorder sc ec ha avs 2 ml bl av pre i);
   if negb (bool_decide (ret = kRedisParserDone)) then Some (ret, p)
   else
     let '(dealt, p) := deal_command p in
     if negb dealt then finish p kRedisParserError kRedisParserDealError
     else request_loop fuel (ResetCommandStatus (set_argv p []))).
Proof.
  intros Hi Hk. cbn [request_loop]. rewrite choose_type_kind by done. unfold at_ at 1 2. cbn [cur_pos_ length_].
  rewrite (proj2 (Z.leb_le _ _)); [done|]. rewrite length_app. destruct i; [done|]. simpl. lia.
Qed.

(** One command more. *)
Lemma request_loop_full fuel a b sc ec ha avs ty ml bl av cmd T pre rest :
  mode ml bl av cmd T -> cmd_ok cmd -> of_kind ty (T ++ rest) -> fits_int (pre ++ T ++ rest) ->
  request_loop (S fuel) (rec_at a b sc ec ha avs ty ml bl av pre (T ++ rest)) =
  request_loop fuel
    (rec_at (a ++ [cmd]) b kRedisParserDone kRedisParserOk [] (avs ++ [cmd]) 0 0 (-1) [] (pre ++ T) rest).
Proof.
  intros Hm Hc Hk Hr. rewrite request_loop_step; [| |done].
  - rewrite (Process_full _ _ _ _ _ _ _ _ _ _ _ _ _ Hm Hc Hr). destruct Hc as [Hne _].
    destruct cmd as [|v cmd]; [done|]. unfold finish, SetParserStatus. rewrite decide_False by done.
    cbn [mbind option_bind]. rewrite bool_decide_eq_true_2 by done. cbn [negb].
    unfold deal_command, at_. simpl. done.
  - destruct Hm; [unfold multibulk, len_line; done| |by destruct v]. destruct l; [done|].
    rewrite bulks_cons. done.
Qed.

(** The piece ends inside a command. *)
Lemma request_loop_part fuel a b sc ec ha avs ty ml bl av cmd i t pre :
  mode ml bl av cmd (i ++ t) -> i <> [] -> t <> [] -> cmd_ok cmd -> of_kind ty i -> fits_int (pre ++ i) ->
  exists ml' bl' av' half,
    request_loop (S fuel) (rec_at a b sc ec ha avs ty ml bl av pre i) =
      Some (kRedisParserHalf, halved (a, b) recorder avs 2 ml' bl' av' half (pre ++ i)) /\
    mode ml' bl' av' cmd (half ++ t).
Proof.
  intros Hm Hi Ht Hc Hk Hr. rewrite request_loop_step by done.
  destruct (Process_part (a, b) recorder sc ec ha avs ml bl av cmd _ i t pre Hm eq_refl Ht Hc Hr)
    as (ml' & bl' & av' & half & -> & Hm'). by exists ml', bl', av', half.
Qed.

(** The parser between two pieces, with [rest] of the text of [cmds] to come:
    everything so far has been handed over, or it is inside a command. *)
Inductive ready (cmds : list (list bytes)) (rest : bytes) : RedisParser recorded -> Prop :=
  | ready_idle st done todo :
      st = kRedisParserInitDone \/ st = kRedisParserDone -> cmds = done ++ todo -> rest = stream todo ->
      ready cmds rest (mkRedisParser (done, done) recorder st kRedisParserOk 0 0 (-1) [] REDIS_PARSER_REQUEST [] [] 0 [] 0)
  | ready_wait b avs cmd todo ml bl av half t :
      cmds = (b ++ avs) ++ cmd :: todo -> mode ml bl av cmd (half ++ t) -> t <> [] -> rest = t ++ stream todo ->
      ready cmds rest (mkRedisParser (b ++ avs, b) recorder kRedisParserHalf kRedisParserOk 2 ml bl half
                         REDIS_PARSER_REQUEST av avs 0 [] 0).

(** What a piece leaves. *)
Definition leaves (cmds : list (list bytes)) (rest : bytes) (r : option (RedisParserStatus * RedisParser recorded)) : Prop :=
  exists st p, r = Some (st, p) /\ ready cmds rest (ResetRedisParser p) /\ status_code_ p <> kRedisParserInitDone.

Lemma multibulk_star cmd : exists j, multibulk cmd = "*"%byte :: j.
Proof. unfold multibulk, len_line. by eexists. Qed.

Lemma loop_idle fuel done b avs sc ec pre :
  request_loop fuel (rec_at done b sc ec [] avs 0 0 (-1) [] pre []) =
  Some (kRedisParserDone, rec_at done (b ++ avs) kRedisParserDone kRedisParserOk [] [] 0 0 (-1) [] pre []).
Proof.
  destruct fuel; cbn [request_loop]; unfold at_ at 1 2; cbn [cur_pos_ length_];
    by rewrite app_nil_r, (proj2 (Z.leb_gt _ _)) by lia.
Qed.

Lemma loop_commands cmds todo : forall fuel past b avs sc ec pre i t,
  Forall cmd_ok todo -> stream todo = i ++ t -> (length i <= fuel)%nat -> fits_int (pre ++ i) ->
  past = b ++ avs -> cmds = past ++ todo ->
  leaves cmds t (request_loop fuel (rec_at past b sc ec [] avs 0 0 (-1) [] pre i)).
Proof.
  induction todo as [|cmd todo IH]; intros fuel past b avs sc ec pre i t HF E Hf Hr Ed Ec;
    (destruct i as [|c i];
     [eexists _, _; split; [apply loop_idle|]; split; [|done];
      rewrite <- Ed; eapply ready_idle; [by right|exact Ec|by rewrite E]|]).
  - done.
  - apply Forall_cons in HF as [Hc HF]. rewrite stream_cons in E. destruct (multibulk_star cmd) as (k & Ek).
    destruct fuel as [|fuel]; [simpl in Hf; lia|].
    destruct (prefix_app_cases (c :: i) (multibulk cmd) (stream todo)) as [(t' & E' & Ht')|(j & Ej & _)]; [by exists t| |].
    + destruct (request_loop_part fuel past b sc ec [] avs 0 0 (-1) [] cmd (c :: i) t' pre)
        as (ml & bl & av & half & HL & Hm); try done.
      { rewrite <- E'. apply mode_header. }
      { right. split; [done|]. rewrite Ek in E'. injection E' as <- _. by eexists. }
      eexists _, _. split; [exact HL|]. split; [|done]. subst past.
      eapply (ready_wait cmds t b avs cmd todo ml bl av half t'); try done.
      rewrite E', <- app_assoc in E. by apply app_inv_head in E.
    + rewrite Ej in *. rewrite <- app_assoc in E. apply app_inv_head in E.
      rewrite (request_loop_full fuel past b sc ec [] avs 0 0 (-1) [] cmd);
        [|apply mode_header|done|right; split; [done|]; rewrite Ek; by eexists|done].
      apply IH; try done.
      * rewrite length_app, Ek in Hf. simpl in Hf. lia.
      * by rewrite <- app_assoc.
      * by rewrite Ed, <- app_assoc.
      * by rewrite Ec, <- app_assoc.
Qed.

Lemma loop_current cmds todo fuel b avs cmd ml bl av T pre i t ha sc ec :
  Forall cmd_ok todo -> cmd_ok cmd -> mode ml bl av cmd T -> T ++ stream todo = i ++ t -> i <> [] ->
  (length i <= fuel)%nat -> fits_int (pre ++ i) -> cmds = (b ++ avs) ++ cmd :: todo ->
  leaves cmds t (request_loop fuel (rec_at (b ++ avs) b sc ec ha avs 2 ml bl av pre i)).
Proof.
  intros HF Hc Hm E Hi Hf Hr Ec. destruct fuel as [|fuel]; [destruct i; [done|simpl in Hf; lia]|].
  destruct (prefix_app_cases i T (stream todo)) as [(t' & E' & Ht')|(j & -> & _)]; [by exists t| |].
  - rewrite E' in Hm, E. rewrite <- app_assoc in E. apply app_inv_head in E.
    destruct (request_loop_part fuel (b ++ avs) b sc ec ha avs 2 ml bl av cmd i t' pre Hm Hi Ht' Hc (or_introl eq_refl) Hr)
      as (ml' & bl' & av' & half & HL & Hm').
    eexists _, _. split; [exact HL|]. split; [|done]. by eapply (ready_wait cmds t b avs cmd todo).
  - rewrite <- app_assoc in E. apply app_inv_head in E.
    rewrite (request_loop_full fuel (b ++ avs) b sc ec ha avs 2 ml bl av cmd T pre j Hm Hc (or_introl eq_refl) Hr).
    assert (0 < length T)%nat.
    { destruct Hm as [|av' l Hl|av' v l]; [unfold multibulk, len_line|destruct l; [done|rewrite bulks_cons; unfold len_line]
        |unfold kNewLine]; rewrite !length_app; simpl; lia. }
    apply (loop_commands cmds todo); try done.
    + rewrite length_app in Hf. lia.
    + by rewrite <- app_assoc.
    + by rewrite <- app_assoc.
    + by rewrite Ec, <- !app_assoc.
Qed.

(** What is expected of a command is an end of its text. *)
Lemma mode_suffix ml bl av cmd T : mode ml bl av cmd T -> exists u, multibulk cmd = u ++ T.
Proof.
  assert (Hb : forall l1 l2, bulks (l1 ++ l2) = bulks l1 ++ bulks l2)
    by (intros; unfold bulks; by rewrite fmap_app, concat_app).
  destruct 1 as [av cmd|av l Hl|av v l]; [by exists []|unfold multibulk..].
  - eexists (len_line "*" _ ++ bulks av). by rewrite Hb, <- app_assoc.
  - eexists (len_line "*" _ ++ bulks av ++ len_line "$" _). by rewrite Hb, bulks_cons, <- !app_assoc.
Qed.

Lemma int_length (c half : bytes) :
  fits_int (half ++ c) -> i32 (Z.of_nat (length c) + Z.of_nat (length half)) = Z.of_nat (length (half ++ c)).
Proof. unfold fits_int. rewrite length_app. intros H. unfold i32. rewrite Z.mod_small; lia. Qed.

(** One piece. *)
Lemma piece_leaves cmds rest c rest' p :
  Forall cmd_ok cmds -> ready cmds rest p -> rest = c ++ rest' -> c <> [] -> fits_int (stream cmds) ->
  exists st n p', ProcessInputBuffer p c = Some (st, n, p') /\ ready cmds rest' p' /\
    status_code_ p' <> kRedisParserInitDone.
Proof.
  intros HF [st done todo Hst Ec Er|b avs cmd todo ml bl av half t Ec Hm Ht Er] E Hc Hr.
  - assert (Hfit : fits_int c).
    { unfold fits_int in *. rewrite Ec, stream_app, <- Er, E, !length_app in Hr. lia. }
    rewrite Ec in HF. apply Forall_app in HF as [_ HF].
    destruct (loop_commands cmds todo (length c) done done [] st kRedisParserOk [] c rest' HF) as (st' & p' & HL & HR & HS);
      [congruence|lia|done|by rewrite app_nil_r|done|].
    exists (status_code_ p'), (Some (cur_pos_ p')), (ResetRedisParser p'). split; [|by destruct p'].
    unfold ProcessInputBuffer. cbn [status_code_ half_argv_].
    assert (Hi := int_length c [] Hfit). simpl in Hi.
    destruct Hst as [->| ->]; cbn [set_input app length redis_parser_type_]; change (Z.of_nat 0) with 0 in *;
      rewrite Hi; change ((REDIS_PARSER_REQUEST =? REDIS_PARSER_REQUEST)) with true; cbn [orb];
      unfold ProcessRequestBuffer; cbn [input_str_]; unfold at_ in HL; cbn [app length] in HL; change (Z.of_nat 0) with 0 in HL; rewrite HL; by destruct p'.
  - assert (Hfit : fits_int (half ++ c)).
    { destruct (mode_suffix _ _ _ _ _ Hm) as (u & Eu). unfold fits_int in *.
      rewrite Ec, stream_app, stream_cons, Eu, !length_app in Hr. apply (f_equal length) in E.
      rewrite Er, !length_app in E. rewrite length_app. lia. }
    rewrite Ec in HF. apply Forall_app in HF as [_ HF]. apply Forall_cons in HF as [Hcmd HF].
    destruct (loop_current cmds todo (length (half ++ c)) b avs cmd ml bl av (half ++ t) [] (half ++ c) rest' half
      kRedisParserHalf kRedisParserOk HF Hcmd Hm) as (st' & p' & HL & HR & HS); try done.
    { rewrite <- !app_assoc. f_equal. congruence. } { by destruct half. }
    exists (status_code_ p'), (Some (cur_pos_ p')), (ResetRedisParser p'). split; [|by destruct p'].
    unfold ProcessInputBuffer. cbn [status_code_ half_argv_ set_input redis_parser_type_].
    rewrite int_length by done. change ((REDIS_PARSER_REQUEST =? REDIS_PARSER_REQUEST)) with true. cbn [orb].
    unfold ProcessRequestBuffer. cbn [input_str_]. unfold at_ in HL. cbn [app length] in HL. change (Z.of_nat 0) with 0 in HL. rewrite HL. by destruct p'.
Qed.

(** The pieces, one after the other. *)
Fixpoint feed {S} (p : RedisParser S) (chunks : list bytes) : option (RedisParser S) :=
  match chunks with
  | [] => Some p
  | c :: chunks => '(_, _, p) ← ProcessInputBuffer p c; feed p chunks
  end.

Lemma feed_ready cmds chunks : forall rest p,
  Forall cmd_ok cmds -> fits_int (stream cmds) -> ready cmds rest p -> rest = concat chunks ->
  Forall (fun c => c <> []) chunks ->
  exists p', feed p chunks = Some p' /\ ready cmds [] p' /\
    (chunks <> [] \/ status_code_ p <> kRedisParserInitDone -> status_code_ p' <> kRedisParserInitDone).
Proof.
  induction chunks as [|c chunks IH]; intros rest p HF Hr HR E Hne.
  - exists p. simpl in E. subst rest. split; [done|]. split; [done|]. tauto.
  - apply Forall_cons in Hne as [Hc Hne].
    destruct (piece_leaves cmds rest c (concat chunks) p HF HR E Hc Hr) as (st & n & p1 & HP & HR1 & HS).
    destruct (IH (concat chunks) p1 HF Hr HR1 eq_refl Hne) as (p' & Hf & HR' & HS').
    exists p'. cbn [feed]. rewrite HP. split; [done|]. split; [done|]. intros _. apply HS'. by right.
Qed.

(** The protocol form of commands. *)
Lemma texts_stream `{U : Uninit} cmds texts :
  Forall cmd_ok cmds -> mapM ToRedisProtocol cmds = Some texts -> concat texts = stream cmds.
Proof.
  intros HF. revert texts. induction HF as [|cmd cmds (_ & Hs & _) HF IH]; intros texts Ht; [by injection Ht as <-|].
  simpl in Ht. rewrite ToRedisProtocol_multibulk in Ht by done. simpl in Ht.
  destruct (mapM ToRedisProtocol cmds) as [texts'|] eqn:Et; [|done]. simpl in Ht. injection Ht as <-.
  rewrite stream_cons. simpl. by rewrite (IH texts').
Qed.

(** Every text of a command starts with a star. *)
Lemma texts_nonempty `{U : Uninit} cmds texts :
  Forall cmd_ok cmds -> mapM ToRedisProtocol cmds = Some texts -> Forall (fun t => t <> []) texts.
Proof.
  intros HF Ht. apply mapM_Some in Ht. induction Ht as [|cmd t cmds texts E Ht IH]; [done|].
  apply Forall_cons in HF as [(_ & Hs & _) HF]. constructor; [|by apply IH].
  rewrite ToRedisProtocol_multibulk in E by done. injection E as <-. by destruct (multibulk_star cmd) as (j & ->).
Qed.

Definition fresh_parser : RedisParser recorded :=
  set_codes (set_settings (RedisParser_new ([], [])) REDIS_PARSER_REQUEST recorder) kRedisParserInitDone kRedisParserOk.

(** The parser between commands, when [cmds] have been handed over: as it was
    made, but for what was handed over and the status of the last piece. *)
Definition idle_parser (cmds : list (list bytes)) : RedisParser recorded :=
  mkRedisParser (cmds, cmds) recorder (match cmds with [] => kRedisParserInitDone | _ => kRedisParserDone end) kRedisParserOk
    0 0 (-1) [] REDIS_PARSER_REQUEST [] [] 0 [] 0.

(** The pieces handed to a fresh parser. *)
Lemma commands_fed `{U : Uninit} cmds texts chunks :
  Forall cmd_ok cmds -> mapM ToRedisProtocol cmds = Some texts -> concat chunks = concat texts ->
  Forall (fun c => c <> []) chunks -> fits_int (concat texts) ->
  feed fresh_parser chunks = Some (idle_parser cmds).
Proof.
  intros HF Ht Ec Hne Hr. rewrite (texts_stream cmds texts HF Ht) in *.
  assert (HR : ready cmds (concat chunks) fresh_parser).
  { apply (ready_idle cmds _ kRedisParserInitDone [] cmds); [by left|done|done]. }
  destruct (feed_ready cmds chunks _ _ HF Hr HR eq_refl Hne) as (p & Hf & Hp & HS). rewrite Hf. f_equal.
  inversion Hp as [st past todo Hst Epast Et Ep|b avs cmd todo ml bl av half t E1 E2 E3 E4 Ep].
  - destruct todo as [|cmd todo].
    + rewrite app_nil_r in Epast. subst p cmds. unfold idle_parser. f_equal. destruct past as [|cmd past].
      * destruct chunks as [|c chunks]; [by simpl in Hf; injection Hf as <-|]. apply Forall_cons in Hne as [Hc _].
        destruct c; [done|discriminate Ec].
      * destruct Hst as [->| ->]; [|done]. exfalso. apply HS; [|done]. left. intros ->. simpl in Ec.
        rewrite stream_cons in Ec. by destruct (multibulk_star cmd) as (j & Ej); rewrite Ej in Ec.
    + rewrite stream_cons in Et. by destruct (multibulk_star cmd) as (j & Ej); rewrite Ej in Et.
  - by apply (eq_sym) in E4; apply app_nil in E4 as [-> _].
Qed.

(** C6: Whatever the sizes of the non-empty pieces in which the protocol form of
    commands arrives, below 2^31 bytes in all, the parser hands every command
    over once and in order, one by one and with the complete pieces, and is then
    in the state it was made in, every field of it, with the status of a
    finished piece. *)
Theorem commands_parsed `{U : Uninit} cmds texts chunks :
  Forall cmd_ok cmds -> mapM ToRedisProtocol cmds = Some texts -> concat chunks = concat texts ->
  Forall (fun c => c <> []) chunks -> fits_int (concat texts) ->
  exists p0, RedisParserInit (RedisParser_new ([], [])) REDIS_PARSER_REQUEST recorder = Some (kRedisParserInitDone, p0) /\
    p0 = idle_parser [] /\ feed p0 chunks = Some (idle_parser cmds).
Proof.
  intros HF Ht Ec Hne Hr. exists fresh_parser. split; [done|]. split; [done|]. by apply (commands_fed cmds texts).
Qed.
