(* ===== verification/InlineSpec.v ===== *)
(** * Inline requests

    [split2args] reads a line typed by a person: it never leaves the line, it
    always ends, and what is quoted comes back.  A line that arrives in pieces
    is one command. *)

From S2P Require Import Prelude Numbers KeyFormat Protocol RedisParser ParserSpec.
Open Scope Z_scope.

(** ** Reads stay in the line *)

Lemma rd_at_ok p i : (i <= length p)%nat -> exists c, rd_at p i = Some c.
Proof.
  intros H. unfold rd_at. destruct (drop i p) eqn:E; [|by eexists].
  apply (f_equal length) in E. rewrite length_drop in E. simpl in E.
  rewrite (proj2 (Nat.eqb_eq _ _)) by lia. by eexists.
Qed.

(** A byte that is not NUL is in the line. *)
Lemma rd_at_in p i c : rd_at p i = Some c -> Byte.eqb c x00 = false -> exists r, drop i p = c :: r.
Proof. unfold rd_at. intros H N. destruct (drop i p) as [|c' r] eqn:E; [case_match; simplify_eq; done|]. simplify_eq. by eexists. Qed.

Lemma rd_at_next p i c : rd_at p i = Some c -> Byte.eqb c x00 = false -> exists c', rd_at p (S i) = Some c'.
Proof.
  intros H N. destruct (rd_at_in _ _ _ H N) as (r & E). apply rd_at_ok.
  apply (f_equal length) in E. rewrite length_drop in E. simpl in E. lia.
Qed.

Lemma eqb_not_nul (c d : byte) : Byte.eqb c d = true -> Byte.eqb d x00 = false -> Byte.eqb c x00 = false.
Proof. intros E. by apply Byte.byte_dec_bl in E as ->. Qed.

Lemma hex_not_nul c : IsHexDigit c = true -> Byte.eqb c x00 = false.
Proof. by destruct c. Qed.

Lemma hex_escape_total p :
  exists b, hex_escape p = Some b /\
    (b = true -> exists c2 c3, rd_at p 2 = Some c2 /\ rd_at p 3 = Some c3 /\ Byte.eqb c3 x00 = false).
Proof.
  unfold hex_escape. destruct (rd_at_ok p 0 ltac:(lia)) as (c0 & E0). rewrite E0. cbn [mbind option_bind].
  destruct (Byte.eqb c0 ch_bslash) eqn:B0; [|by exists false]. cbn [negb].
  destruct (rd_at_next p 0 c0 E0) as (c1 & E1); [by eapply eqb_not_nul|]. rewrite E1. cbn [mbind option_bind].
  destruct (Byte.eqb c1 "x") eqn:B1; [|by exists false]. cbn [negb].
  destruct (rd_at_next p 1 c1 E1) as (c2 & E2); [by eapply eqb_not_nul|]. rewrite E2. cbn [mbind option_bind].
  destruct (IsHexDigit c2) eqn:B2; [|by exists false]. cbn [negb].
  destruct (rd_at_next p 2 c2 E2) as (c3 & E3); [by apply hex_not_nul|]. rewrite E3. cbn [mbind option_bind].
  eexists. split; [done|]. intros B3. exists c2, c3. auto using hex_not_nul.
Qed.

(** What a round leaves: a text that starts with a byte of the line. *)
Definition step_ok (p : bytes) (s : token_step) : Prop :=
  match s with
  | More _ _ _ p' => exists c r, p' = c :: r /\ Byte.eqb c x00 = false /\ (length p' <= length p)%nat
  | TokenDone _ p' => p' = p
  | TokenError => True
  end.

Lemma dropped_ok p i c a b arg :
  rd_at p i = Some c -> Byte.eqb c x00 = false -> step_ok p (More a b arg (drop i p)).
Proof.
  intros H N. destruct (rd_at_in p i c H N) as (r & E). exists c, r. split; [done|]. split; [done|].
  rewrite length_drop. lia.
Qed.

Lemma close_quote_total p arg c : rd_at p 0 = Some c -> Byte.eqb c x00 = false ->
  exists s, close_quote arg p = Some s /\ step_ok p s.
Proof.
  intros H N. unfold close_quote. destruct (rd_at_next p 0 c H N) as (c1 & E1). rewrite E1. cbn [mbind option_bind].
  eexists. split; [done|]. by case_match.
Qed.

Lemma in_quotes_total p arg : exists s, in_quotes arg p = Some s /\ step_ok p s.
Proof.
  unfold in_quotes. destruct (rd_at_ok p 0 ltac:(lia)) as (c & E0). rewrite E0. cbn [mbind option_bind].
  destruct (hex_escape_total p) as ([] & -> & Hx); cbn [mbind option_bind].
  { destruct Hx as (c2 & c3 & E2 & E3 & N); [done|]. rewrite E2, E3. cbn [mbind option_bind].
    eexists. split; [done|]. by apply (dropped_ok _ _ c3). }
  assert (Hraw : forall s, (if Byte.eqb c ch_dquote then close_quote arg p
    else if Byte.eqb c x00 then Some TokenError else Some (More true false (arg ++ [c]) p)) = s ->
    exists s', s = Some s' /\ step_ok p s').
  { intros s <-. destruct (Byte.eqb c ch_dquote) eqn:D; [by eapply close_quote_total, eqb_not_nul|].
    destruct (Byte.eqb c x00) eqn:N; [by eexists|]. eexists. split; [done|]. by apply (dropped_ok p 0 c). }
  destruct (Byte.eqb c ch_bslash) eqn:B; cbn [mbind option_bind]; [|by apply Hraw].
  destruct (rd_at_next p 0 c E0) as (c1 & E1); [by eapply eqb_not_nul|]. rewrite E1. cbn [mbind option_bind].
  destruct (Byte.eqb c1 x00) eqn:N1; cbn [negb]; [by apply Hraw|]. eexists. split; [done|]. by apply (dropped_ok _ _ c1).
Qed.

Lemma in_single_quotes_total p arg : exists s, in_single_quotes arg p = Some s /\ step_ok p s.
Proof.
  unfold in_single_quotes. destruct (rd_at_ok p 0 ltac:(lia)) as (c & E0). rewrite E0. cbn [mbind option_bind].
  assert (Hraw : forall s, (if Byte.eqb c ch_squote then close_quote arg p
    else if Byte.eqb c x00 then Some TokenError else Some (More false true (arg ++ [c]) p)) = s ->
    exists s', s = Some s' /\ step_ok p s').
  { intros s <-. destruct (Byte.eqb c ch_squote) eqn:D; [by eapply close_quote_total, eqb_not_nul|].
    destruct (Byte.eqb c x00) eqn:N; [by eexists|]. eexists. split; [done|]. by apply (dropped_ok p 0 c). }
  destruct (Byte.eqb c ch_bslash) eqn:B; cbn [mbind option_bind]; [|by apply Hraw].
  destruct (rd_at_next p 0 c E0) as (c1 & E1); [by eapply eqb_not_nul|]. rewrite E1. cbn [mbind option_bind].
  destruct (Byte.eqb c1 ch_squote) eqn:N1; [|by apply Hraw]. eexists. split; [done|].
  apply (dropped_ok _ _ c1); [done|]. by eapply eqb_not_nul.
Qed.

Lemma outside_quotes_total p arg : exists s, outside_quotes arg p = Some s /\ step_ok p s.
Proof.
  unfold outside_quotes. destruct (rd_at_ok p 0 ltac:(lia)) as (c & E0). rewrite E0. cbn [mbind option_bind].
  eexists. split; [done|]. destruct (_ || Byte.eqb c x00) eqn:B; [done|]. apply orb_false_elim in B as [_ N].
  repeat case_match; by apply (dropped_ok p 0 c).
Qed.

Lemma step_total (inq insq : bool) arg p : exists s,
  (if inq then in_quotes arg p else if insq then in_single_quotes arg p else outside_quotes arg p) = Some s /\
  step_ok p s.
Proof. destruct inq; [apply in_quotes_total|]. destruct insq; [apply in_single_quotes_total|apply outside_quotes_total]. Qed.

Lemma bump_step c r : Byte.eqb c x00 = false -> bump (c :: r) = Some r.
Proof. intros N. unfold bump. simpl. by rewrite N. Qed.

Lemma bump_total p : exists p', bump p = Some p' /\ (length p' <= length p)%nat.
Proof.
  unfold bump. destruct (rd_at_ok p 0 ltac:(lia)) as (c & ->). cbn [mbind option_bind].
  eexists. split; [done|]. case_match; [done|]. rewrite length_drop. lia.
Qed.

Lemma get_token_total : forall fuel inq insq arg p, (length p < fuel)%nat ->
  exists r, get_token fuel inq insq arg p = Some r /\
    forall arg' p', r = Some (arg', p') -> (length p' <= length p)%nat.
Proof.
  induction fuel as [|fuel IH]; intros inq insq arg p Hf; [lia|]. cbn [get_token].
  destruct (step_total inq insq arg p) as (s & -> & Hs). cbn [mbind option_bind]. destruct s as [q1 q2 a p1|a p1|].
  - destruct Hs as (c & r & -> & N & Hl). rewrite bump_step by done. cbn [mbind option_bind]. simpl in Hl.
    destruct (IH q1 q2 a r ltac:(lia)) as (o & -> & Ho). exists o. split; [done|].
    intros arg' p' E. specialize (Ho _ _ E). lia.
  - simpl in Hs. subst p1. destruct (bump_total p) as (p' & -> & Hl). eexists. split; [done|]. by intros ? ? [= <- <-].
  - by eexists.
Qed.

(** A token takes at least one byte. *)
Lemma token_shrinks c p : Byte.eqb c x00 = false -> is_space c = false ->
  exists r, get_token (S (length (c :: p))) false false [] (c :: p) = Some r /\
    forall arg' p', r = Some (arg', p') -> (length p' <= length p)%nat.
Proof.
  intros N Hs. remember (length (c :: p)) as n eqn:En. cbn [get_token]. unfold outside_quotes.
  change (rd_at (c :: p) 0) with (Some c). cbn [mbind option_bind].
  replace (_ || Byte.eqb c x00) with false by (by destruct c).
  assert (H : exists q1 q2 a, (if Byte.eqb c ch_dquote then More true false [] (c :: p)
    else if Byte.eqb c ch_squote then More false true [] (c :: p) else More false false ([] ++ [c]) (c :: p)) =
    More q1 q2 a (c :: p)) by (repeat case_match; by do 3 eexists).
  destruct H as (q1 & q2 & a & ->). rewrite bump_step by done. cbn [mbind option_bind].
  apply get_token_total. subst n. simpl. lia.
Qed.

Lemma skip_blanks_spec p : (length (skip_blanks p) <= length p)%nat /\
  (skip_blanks p = [] \/ exists c r, skip_blanks p = c :: r /\ (Byte.eqb c x00 = true \/ is_space c = false)).
Proof.
  induction p as [|c p [IH IH']]; simpl; [by split; [|left]|].
  destruct (Byte.eqb c x00) eqn:N, (is_space c) eqn:E; cbn [negb andb]; (split; [simpl; lia|]); eauto 7.
Qed.

Lemma split_loop_total : forall fuel p argv, (length p < fuel)%nat -> exists r, split_loop fuel p argv = Some r.
Proof.
  induction fuel as [|fuel IH]; intros p argv Hf; [lia|]. cbn [split_loop].
  destruct (skip_blanks_spec p) as [Hl [E|(c & r & E & Hc)]]; rewrite E in *; [by eexists|].
  change (rd_at (c :: r) 0) with (Some c). cbn [mbind option_bind].
  destruct (Byte.eqb c x00) eqn:N; cbn [negb]; [by eexists|]. destruct Hc as [?|Hs]; [done|].
  destruct (token_shrinks c r N Hs) as (t & -> & Ht). cbn [mbind option_bind].
  destruct t as [[arg p']|]; [|by eexists]. apply IH. specialize (Ht _ _ eq_refl). simpl in Hl. lia.
Qed.

(** On every line the inline splitter ends and reads no byte behind the NUL
    that ends the line. *)
Theorem split2args_total req_buf : exists r, split2args req_buf = Some r.
Proof. apply split_loop_total. lia. Qed.

(** ** What a line means *)

(** The letters that stand for control characters behind a backslash; any other
    byte but an x stands for itself. *)
Inductive escape_means : byte -> byte -> Prop :=
  | escape_n : escape_means "n" x0a
  | escape_r : escape_means "r" x0d
  | escape_t : escape_means "t" x09
  | escape_b : escape_means "b" x08
  | escape_a : escape_means "a" x07
  | escape_other c : c ∉ ["n"; "r"; "t"; "b"; "a"; "x"; x00; x0a]%byte -> escape_means c c.

(** A text between double quotes and the bytes it stands for; a byte in
    hexadecimal has two decimal digits. *)
Inductive double_quoted : bytes -> bytes -> Prop :=
  | dq_end : double_quoted [] []
  | dq_byte c t v : c ∉ [ch_dquote; ch_bslash; x00; x0a] -> double_quoted t v -> double_quoted (c :: t) (c :: v)
  | dq_escape c b t v : escape_means c b -> double_quoted t v -> double_quoted (ch_bslash :: c :: t) (b :: v)
  | dq_hex c d b t v : is_digit c = true -> is_digit d = true ->
      Z_of_byte b = 16 * (Z_of_byte c - 48) + (Z_of_byte d - 48) ->
      double_quoted t v -> double_quoted (ch_bslash :: "x"%byte :: c :: d :: t) (b :: v).

(** Between single quotes only a quote is escaped; a backslash in front of
    another byte stands for itself. *)
Inductive single_quoted : bytes -> bytes -> Prop :=
  | sq_end : single_quoted [] []
  | sq_byte c t v : c ∉ [ch_squote; ch_bslash; x00; x0a] -> single_quoted t v -> single_quoted (c :: t) (c :: v)
  | sq_escape t v : single_quoted t v -> single_quoted (ch_bslash :: ch_squote :: t) (ch_squote :: v)
  | sq_bslash c t v : c <> ch_squote -> single_quoted (c :: t) v -> single_quoted (ch_bslash :: c :: t) (ch_bslash :: v).

(** A byte that stands for itself outside quotes. *)
Definition bare (c : byte) : Prop := is_space c = false /\ c ∉ [ch_dquote; ch_squote; x00].

(** An argument: bytes outside quotes, and then perhaps a text in quotes. *)
Inductive argument : bytes -> bytes -> Prop :=
  | argument_bare t : Forall bare t -> t <> [] -> argument t t
  | argument_double u t v : Forall bare u -> double_quoted t v -> argument (u ++ ch_dquote :: t ++ [ch_dquote]) (u ++ v)
  | argument_single u t v : Forall bare u -> single_quoted t v -> argument (u ++ ch_squote :: t ++ [ch_squote]) (u ++ v).

Definition blank (c : byte) : Prop := c ∈ [" "%byte; x09; x0d].

(** The arguments of a line without its newline, with blanks between them. *)
Inductive words : bytes -> list bytes -> Prop :=
  | words_end sp : Forall blank sp -> words sp []
  | words_arg sp t v rest args : Forall blank sp -> argument t v -> (rest = [] \/ exists c r, rest = c :: r /\ blank c) ->
      words rest args -> words (sp ++ t ++ rest) (v :: args).

Lemma blank_space c : blank c -> is_space c = true /\ Byte.eqb c x00 = false /\ c <> x0a /\ c <> "*"%byte.
Proof. unfold blank. rewrite !elem_of_cons, elem_of_nil. intros [->|[->|[->|[]]]]; done. Qed.

Lemma eqb_neq (c d : byte) : c <> d -> Byte.eqb c d = false.
Proof. intros N. destruct (Byte.eqb c d) eqn:E; [|done]. by apply Byte.byte_dec_bl in E. Qed.

Lemma escape_spec c b : escape_means c b -> escaped c = b /\ Byte.eqb c "x" = false /\ Byte.eqb c x00 = false.
Proof.
  destruct 1 as [| | | | |c H]; try done. rewrite !not_elem_of_cons in H. destruct H as (H1 & H2 & H3 & H4 & H5 & H6 & H7 & H8).
  unfold escaped. by rewrite !eqb_neq.
Qed.

Lemma hex_digits c d : is_digit c = true -> is_digit d = true ->
  IsHexDigit c = true /\ IsHexDigit d = true /\ Byte.eqb d x00 = false /\
  HexDigitToInt32 c * 16 + HexDigitToInt32 d = 16 * (Z_of_byte c - 48) + (Z_of_byte d - 48).
Proof.
  intros Hc Hd. assert (H : forall e, is_digit e = true -> IsHexDigit e = true /\ Byte.eqb e x00 = false /\ HexDigitToInt32 e = Z_of_byte e - 48)
    by (intros e; by destruct e). destruct (H c Hc) as (H1 & _ & H3), (H d Hd) as (H4 & H5 & H6). rewrite H3, H6. split_and!; try done. lia.
Qed.

Lemma rd_at_0 c r : rd_at (c :: r) 0 = Some c.
Proof. done. Qed.
Lemma rd_at_1 c d r : rd_at (c :: d :: r) 1 = Some d.
Proof. done. Qed.
Lemma rd_at_2 c d e r : rd_at (c :: d :: e :: r) 2 = Some e.
Proof. done. Qed.
Lemma rd_at_3 c d e f r : rd_at (c :: d :: e :: f :: r) 3 = Some f.
Proof. done. Qed.

Ltac token_round := repeat (rewrite ?rd_at_0, ?rd_at_1, ?rd_at_2, ?rd_at_3; cbn [mbind option_bind negb]).

(** One round between quotes. *)
Lemma in_quotes_byte acc c r : c ∉ [ch_dquote; ch_bslash; x00; x0a] ->
  in_quotes acc (c :: r) = Some (More true false (acc ++ [c]) (c :: r)).
Proof.
  rewrite !not_elem_of_cons. intros (H1 & H2 & H3 & _). unfold in_quotes, hex_escape. token_round.
  rewrite (eqb_neq c ch_bslash) by done. token_round. rewrite !eqb_neq by done. done.
Qed.

Lemma in_quotes_escape acc c b r : escape_means c b ->
  in_quotes acc (ch_bslash :: c :: r) = Some (More true false (acc ++ [b]) (c :: r)) /\ Byte.eqb c x00 = false.
Proof.
  intros (<- & Hx & H0)%escape_spec. split; [|done]. unfold in_quotes, hex_escape. token_round.
  change (Byte.eqb ch_bslash ch_bslash) with true. token_round. rewrite Hx. token_round. rewrite H0. token_round. done.
Qed.

Lemma in_quotes_hex acc c d b r : is_digit c = true -> is_digit d = true ->
  Z_of_byte b = 16 * (Z_of_byte c - 48) + (Z_of_byte d - 48) ->
  in_quotes acc (ch_bslash :: "x"%byte :: c :: d :: r) = Some (More true false (acc ++ [b]) (d :: r)) /\ Byte.eqb d x00 = false.
Proof.
  intros Hc Hd Hb. destruct (hex_digits c d Hc Hd) as (H1 & H2 & H3 & H4). split; [|done]. unfold in_quotes, hex_escape. token_round.
  change (Byte.eqb ch_bslash ch_bslash) with true. token_round. change (Byte.eqb "x" "x") with true. token_round. rewrite H1. token_round.
  rewrite H2. token_round. by rewrite H4, <- Hb, byte_of_Z_of_byte.
Qed.

Lemma close_quote_space acc c d r : is_space d = true -> close_quote acc (c :: d :: r) = Some (TokenDone acc (c :: d :: r)).
Proof. intros Hd. unfold close_quote. token_round. by rewrite Hd, andb_false_r. Qed.

Lemma in_single_byte acc c r : c ∉ [ch_squote; ch_bslash; x00; x0a] ->
  in_single_quotes acc (c :: r) = Some (More false true (acc ++ [c]) (c :: r)).
Proof.
  rewrite !not_elem_of_cons. intros (H1 & H2 & H3 & _). unfold in_single_quotes. token_round.
  rewrite (eqb_neq c ch_bslash) by done. token_round. rewrite !eqb_neq by done. done.
Qed.

Lemma in_single_bslash acc c r : c <> ch_squote ->
  in_single_quotes acc (ch_bslash :: c :: r) = Some (More false true (acc ++ [ch_bslash]) (ch_bslash :: c :: r)).
Proof.
  intros Hc. unfold in_single_quotes. token_round. change (Byte.eqb ch_bslash ch_bslash) with true. token_round.
  by rewrite (eqb_neq c ch_squote).
Qed.

Lemma get_more fuel (q1 q2 inq insq : bool) acc acc' p c r :
  (if q1 then in_quotes acc p else if q2 then in_single_quotes acc p else outside_quotes acc p) = Some (More inq insq acc' (c :: r)) ->
  Byte.eqb c x00 = false -> get_token (S fuel) q1 q2 acc p = get_token fuel inq insq acc' r.
Proof. intros H H0. cbn [get_token]. rewrite H. cbn [mbind option_bind]. by rewrite bump_step. Qed.

Lemma not_nul (c : byte) (l : bytes) : c ∉ l -> x00 ∈ l -> Byte.eqb c x00 = false.
Proof. intros Hc H0. apply eqb_neq. by intros ->. Qed.

(** The texts between quotes, up to the closing one. *)
Lemma double_quoted_token t v : double_quoted t v -> forall fuel acc c r, is_space c = true -> (length t < fuel)%nat ->
  get_token fuel true false acc (t ++ ch_dquote :: c :: r) = Some (Some (acc ++ v, c :: r)).
Proof.
  induction 1 as [|c t v Hc H IH|c b t v He H IH|c d b t v Hc Hd Hb H IH]; intros fuel acc e r He' Hf;
    (destruct fuel as [|fuel]; [simpl in Hf; lia|]); cbn [app]; simpl in Hf.
  - cbn [get_token]. change (in_quotes acc (ch_dquote :: e :: r)) with (close_quote acc (ch_dquote :: e :: r)).
    rewrite close_quote_space by done. cbn [mbind option_bind]. rewrite bump_step by done. cbn. by rewrite app_nil_r.
  - rewrite (get_more fuel true false _ _ _ _ _ _ _ (in_quotes_byte acc c _ Hc)) by (eapply not_nul; [exact Hc|set_solver]).
    rewrite IH by (done || lia). by rewrite <- app_assoc.
  - destruct (in_quotes_escape acc c b (t ++ ch_dquote :: e :: r) He) as [E H0].
    rewrite (get_more fuel true false _ _ _ _ _ _ _ E H0), IH by (done || lia). by rewrite <- app_assoc.
  - destruct (in_quotes_hex acc c d b (t ++ ch_dquote :: e :: r) Hc Hd Hb) as [E H0].
    rewrite (get_more fuel true false _ _ _ _ _ _ _ E H0), IH by (done || lia). by rewrite <- app_assoc.
Qed.

Lemma single_quoted_token t v : single_quoted t v -> forall fuel acc c r, is_space c = true -> (length t < fuel)%nat ->
  get_token fuel false true acc (t ++ ch_squote :: c :: r) = Some (Some (acc ++ v, c :: r)).
Proof.
  induction 1 as [|c t v Hc H IH|t v H IH|c t v Hc H IH]; intros fuel acc e r He' Hf;
    (destruct fuel as [|fuel]; [simpl in Hf; lia|]); cbn [app]; simpl in Hf.
  - cbn [get_token]. change (in_single_quotes acc (ch_squote :: e :: r)) with (close_quote acc (ch_squote :: e :: r)).
    rewrite close_quote_space by done. cbn [mbind option_bind]. rewrite bump_step by done. cbn. by rewrite app_nil_r.
  - rewrite (get_more fuel false true _ _ _ _ _ _ _ (in_single_byte acc c _ Hc)) by (eapply not_nul; [exact Hc|set_solver]).
    rewrite IH by (done || lia). by rewrite <- app_assoc.
  - rewrite (get_more fuel false true false true acc (acc ++ [ch_squote]) _ ch_squote (t ++ ch_squote :: e :: r)) by done.
    rewrite IH by (done || lia). by rewrite <- app_assoc.
  - rewrite (get_more fuel false true _ _ _ _ _ _ _ (in_single_bslash acc c _ Hc)) by done.
    specialize (IH fuel (acc ++ [ch_bslash]) e r He' ltac:(simpl; lia)). cbn [app] in IH. rewrite IH. by rewrite <- app_assoc.
Qed.

Lemma bare_token t : Forall bare t -> forall fuel acc rest,
  get_token (length t + fuel) false false acc (t ++ rest) = get_token fuel false false (acc ++ t) rest.
Proof.
  induction 1 as [|c t [Hs Hc] Ht IH]; intros fuel acc rest; [by rewrite app_nil_r|]. cbn [length Nat.add app].
  pose proof (not_nul c _ Hc ltac:(set_solver)) as H0. rewrite !not_elem_of_cons in Hc. destruct Hc as (H1 & H2 & H3 & _).
  rewrite (get_more _ false false false false acc (acc ++ [c]) _ c (t ++ rest)); [by rewrite IH, <- app_assoc| |done].
  unfold outside_quotes. token_round.
  replace (Byte.eqb c " " || Byte.eqb c x0a || Byte.eqb c x0d || Byte.eqb c x09 || Byte.eqb c x00) with false
    by (rewrite H0; by destruct c). by rewrite !eqb_neq.
Qed.

(** A whole argument, in front of a blank or the newline. *)
Lemma argument_token t v c r :
  argument t v -> blank c \/ c = x0a ->
  exists p, get_token (S (length (t ++ c :: r))) false false [] (t ++ c :: r) = Some (Some (v, p)) /\ (p = c :: r \/ p = r).
Proof.
  intros Ha Hc. assert (Hs : is_space c = true) by (destruct Hc as [Hc| ->]; [by apply blank_space|done]).
  assert (H0 : Byte.eqb c x00 = false) by (destruct Hc as [Hc| ->]; [by apply blank_space in Hc as (_ & ? & _)|done]).
  destruct Ha as [t Ht _|u t v Hu Hq|u t v Hu Hq].
  - exists r. split; [|by right]. rewrite length_app, <- Nat.add_succ_r, bare_token by done. cbn [app length get_token].
    unfold outside_quotes. token_round.
    replace (Byte.eqb c " " || Byte.eqb c x0a || Byte.eqb c x0d || Byte.eqb c x09 || Byte.eqb c x00) with true
      by (unfold blank in Hc; rewrite !elem_of_cons, elem_of_nil in Hc; by destruct Hc as [[->|[->|[->|[]]]]| ->]).
    token_round. by rewrite bump_step.
  - exists (c :: r). split; [|by left]. rewrite <- app_assoc. cbn [app]. rewrite <- app_assoc. cbn [app].
    rewrite length_app, <- Nat.add_succ_r, bare_token by done. cbn [app length].
    rewrite (get_more _ false false true false u u _ ch_dquote (t ++ ch_dquote :: c :: r)) by done.
    rewrite (double_quoted_token t v Hq); [done..|]. rewrite length_app. lia.
  - exists (c :: r). split; [|by left]. rewrite <- app_assoc. cbn [app]. rewrite <- app_assoc. cbn [app].
    rewrite length_app, <- Nat.add_succ_r, bare_token by done. cbn [app length].
    rewrite (get_more _ false false false true u u _ ch_squote (t ++ ch_squote :: c :: r)) by done.
    rewrite (single_quoted_token t v Hq); [done..|]. rewrite length_app. lia.
Qed.

Lemma argument_head t v : argument t v -> exists c r, t = c :: r /\ Byte.eqb c x00 = false /\ is_space c = false.
Proof.
  assert (Hb : forall c, bare c -> Byte.eqb c x00 = false /\ is_space c = false).
  { intros c [Hs Hc]. split; [|done]. apply eqb_neq. intros ->. set_solver. }
  destruct 1 as [t Ht Hne|u t v Hu Hq|u t v Hu Hq].
  - destruct Ht as [|c t Hc Ht]; [done|]. eexists c, t. split; [done|]. by apply Hb.
  - destruct Hu as [|c u Hc Hu]; (eexists _, _; split; [done|]); [done|by apply Hb].
  - destruct Hu as [|c u Hc Hu]; (eexists _, _; split; [done|]); [done|by apply Hb].
Qed.

Lemma skip_blanks_in sp c r : Forall blank sp -> Byte.eqb c x00 = false -> is_space c = false ->
  skip_blanks (sp ++ c :: r) = c :: r.
Proof.
  intros Hsp Hc Hs. induction Hsp as [|b sp Hb Hsp IH]; cbn [app skip_blanks].
  - by rewrite Hs, andb_false_r.
  - destruct (blank_space b Hb) as (-> & -> & _). done.
Qed.

Lemma split_blank fuel c r argv : is_space c = true -> Byte.eqb c x00 = false ->
  split_loop fuel (c :: r) argv = split_loop fuel r argv.
Proof. intros Hs H0. destruct fuel; [done|]. cbn [split_loop skip_blanks]. by rewrite Hs, H0. Qed.

Lemma split_words w args : words w args -> forall fuel argv, (length (w ++ [x0a]) < fuel)%nat ->
  split_loop fuel (w ++ [x0a]) argv = Some (Some (argv ++ args)).
Proof.
  induction 1 as [sp Hsp|sp t v rest args Hsp Ha Hrest Hw IH]; intros fuel argv Hf; (destruct fuel as [|fuel]; [lia|]).
  - cbn [split_loop]. assert (E : skip_blanks (sp ++ [x0a]) = []).
    { clear Hf. induction Hsp as [|b sp Hb Hsp IH]; [done|]. cbn [app skip_blanks]. destruct (blank_space b Hb) as (-> & -> & _). done. }
    rewrite E. cbn. by rewrite app_nil_r.
  - assert (Hcr : exists c r, rest ++ [x0a] = c :: r /\ (blank c \/ c = x0a)).
    { destruct Hrest as [->|(c & r & -> & Hc)]; [by exists x0a, []; auto|]. exists c, (r ++ [x0a]). auto. }
    destruct Hcr as (c & r & Ec & Hc). destruct (argument_token t v c r Ha Hc) as (p & HT & Hp).
    assert (Hs : is_space c = true /\ Byte.eqb c x00 = false).
    { destruct Hc as [Hc| ->]; [|done]. by destruct (blank_space c Hc) as (? & ? & _). }
    rewrite <- !app_assoc, Ec. destruct (argument_head t v Ha) as (d & t' & -> & Hd & Hds).
    cbn [split_loop]. change ((d :: t') ++ c :: r) with (d :: t' ++ c :: r). rewrite (skip_blanks_in sp d (t' ++ c :: r)) by done.
    change (rd_at (d :: t' ++ c :: r) 0) with (Some d). cbn [mbind option_bind]. rewrite Hd. cbn [negb].
    change (d :: t' ++ c :: r) with ((d :: t') ++ c :: r). rewrite HT. cbn [mbind option_bind].
    assert (E : split_loop fuel p (argv ++ [v]) = split_loop fuel (c :: r) (argv ++ [v]))
      by (destruct Hp as [->| ->]; [done|symmetry; by apply split_blank; apply Hs]).
    rewrite E, <- Ec, IH; [by rewrite <- app_assoc|].
    rewrite !length_app in Hf. rewrite length_app. cbn [length] in *. lia.
Qed.

(** The line of a request: its words and a newline.  A star in front would start
    another kind of request. *)
Definition line_of (line : bytes) (args : list bytes) : Prop :=
  exists w, line = w ++ [x0a] /\ words w args /\ head w <> Some "*"%byte.

(** The inline splitter reads every line as its words. *)
Theorem split2args_words line args : line_of line args -> split2args line = Some (Some args).
Proof. intros (w & -> & Hw & _). unfold split2args. by rewrite (split_words w args Hw) by lia. Qed.

(** ** Escapes in hexadecimal *)

Definition hex_char (n : Z) : byte := byte_of_Z (if n <? 10 then 48 + n else 97 + (n - 10)).
Definition hex_text (b : byte) : bytes :=
  [ch_dquote; ch_bslash; "x"%byte; hex_char (Z_of_byte b / 16); hex_char (Z_of_byte b mod 16); ch_dquote].

(** A byte written in hexadecimal comes back as another one when one of its
    digits is a letter: [HexDigitToInt32] does not add 10. *)
Theorem hex_letters_lost b :
  split2args (hex_text b) = Some (Some [[b]]) <-> Z_of_byte b / 16 < 10 /\ Z_of_byte b mod 16 < 10.
Proof.
  assert (H : bool_decide (split2args (hex_text b) = Some (Some [[b]])) = (Z_of_byte b / 16 <? 10) && (Z_of_byte b mod 16 <? 10))
    by (by destruct b; vm_compute).
  by rewrite <- !Z.ltb_lt, <- andb_true_iff, <- H, bool_decide_eq_true.
Qed.

(** ** A line in pieces *)

(** The parser that has kept [half] of a line. *)
Definition in_line (past : list (list bytes)) (half : bytes) (p : RedisParser recorded) : Prop :=
  exists st ty, p = mkRedisParser (past, past) recorder st kRedisParserOk ty 0 (-1) half REDIS_PARSER_REQUEST [] [] 0 [] 0 /\
    (half = [] /\ ty = 0 /\ st = status_code_ (idle_parser past) \/
     half <> [] /\ ty = REDIS_REQ_INLINE /\ st = kRedisParserHalf).

Lemma line_no_star line args half t : line_of line args -> line = half ++ t -> half <> [] ->
  exists c i, half = c :: i /\ Byte.eqb c "*" = false.
Proof.
  intros (w & -> & _ & Hw) E Hne. destruct half as [|c i]; [done|]. exists c, i. split; [done|]. apply eqb_neq. intros ->.
  destruct w as [|d w]; simplify_eq/=.
Qed.

Lemma double_quoted_no_newline t v : double_quoted t v -> x0a ∉ t.
Proof.
  induction 1 as [|c t v Hc H IH|c b t v He H IH|c d b t v Hc Hd Hb H IH]; [set_solver..| |].
  - rewrite !not_elem_of_cons. split_and!; [done| |done]. destruct He as [| | | | |c Hc]; [done..|]. set_solver.
  - rewrite !not_elem_of_cons. split_and!; try done; by intros <-.
Qed.

Lemma single_quoted_no_newline t v : single_quoted t v -> x0a ∉ t.
Proof. induction 1 as [|c t v Hc H IH|t v H IH|c t v Hc H IH]; rewrite ?not_elem_of_cons in *; [set_solver..|]; split_and!; (done || naive_solver). Qed.

Lemma words_no_newline w args : words w args -> x0a ∉ w.
Proof.
  assert (Hsp : forall sp, Forall blank sp -> x0a ∉ sp).
  { intros sp Hsp Hin. rewrite Forall_forall in Hsp. by destruct (blank_space _ (Hsp _ Hin)) as (_ & _ & N & _). }
  assert (Hb : forall u, Forall bare u -> x0a ∉ u).
  { intros u Hu Hin. rewrite Forall_forall in Hu. by destruct (Hu _ Hin). }
  induction 1 as [sp H|sp t v rest args H Ha _ Hw IH]; [auto|]. rewrite !not_elem_of_app. split_and!; [auto| |done].
  destruct Ha as [t Ht _|u t v Hu Hq|u t v Hu Hq]; [auto|..];
    rewrite !not_elem_of_app, not_elem_of_cons, not_elem_of_app, list_elem_of_singleton;
    [apply double_quoted_no_newline in Hq|apply single_quoted_no_newline in Hq]; split_and!; (done || auto).
Qed.

Lemma line_body line args : line_of line args -> exists body, line = body ++ [x0a] /\ x0a ∉ body.
Proof. intros (w & -> & Hw & _). exists w. split; [done|]. by eapply words_no_newline. Qed.

(** The round of the loop on an inline request. *)
Lemma request_loop_inline fuel (d : recorded) sc ec ha ty c i :
  Byte.eqb c "*" = false -> ty = 0 \/ ty = REDIS_REQ_INLINE ->
  request_loop (S fuel) (at_ d recorder sc ec ha [] ty 0 (-1) [] [] (c :: i)) =
  ('(ret, p) ← ProcessInlineBuffer (at_ d recorder sc ec ha [] REDIS_REQ_INLINE 0 (-1) [] [] (c :: i));
   if negb (bool_decide (ret = kRedisParserDone)) then Some (ret, p)
   else
     let '(dealt, p) := deal_command p in
     if negb dealt then finish p kRedisParserError kRedisParserDealError
     else request_loop fuel (ResetCommandStatus (set_argv p []))).
Proof.
  intros Hc Hty. cbn [request_loop]. unfold at_ at 1 2. cbn [cur_pos_ length_].
  rewrite (proj2 (Z.leb_le _ _)) by (simpl; lia).
  replace (choose_type _) with (Some (at_ d recorder sc ec ha [] REDIS_REQ_INLINE 0 (-1) [] [] (c :: i))); [done|].
  destruct Hty as [->| ->]; unfold choose_type, at_; [|done].
  cbn [redis_type_ input_str_ cur_pos_ set_redis_type app length]. change (0 =? 0) with true. cbv iota.
  change (rd_at (c :: i) (Z.to_nat (Z.of_nat 0))) with (Some c). cbn [mbind option_bind]. by rewrite Hc.
Qed.

Lemma inline_half (d : recorded) sc ec ha c i :
  x0a ∉ c :: i -> Z.of_nat (length (c :: i)) <= REDIS_INLINE_MAXLEN ->
  ProcessInlineBuffer (at_ d recorder sc ec ha [] REDIS_REQ_INLINE 0 (-1) [] [] (c :: i)) =
  Some (kRedisParserHalf, halved d recorder [] REDIS_REQ_INLINE 0 (-1) [] (c :: i) (c :: i)).
Proof.
  intros Hn Hl. unfold ProcessInlineBuffer.
  rewrite (FindNext_rest _ [] (c :: i)) by (apply at_looks; unfold fits_int, REDIS_INLINE_MAXLEN in *; simpl app; lia).
  rewrite find_newline_none by done. change (-1 =? -1) with true. cbv iota.
  change (length_ (at_ d recorder sc ec ha [] REDIS_REQ_INLINE 0 (-1) [] [] (c :: i))) with (Z.of_nat (length (c :: i))).
  rewrite (proj2 (Z.ltb_ge _ _)) by done. by rewrite finish_half.
Qed.

Lemma inline_full (d : recorded) sc ec ha line args :
  line_of line args ->
  Z.of_nat (length (line)) <= REDIS_INLINE_MAXLEN ->
  ProcessInlineBuffer (at_ d recorder sc ec ha [] REDIS_REQ_INLINE 0 (-1) [] [] (line)) =
  Some (kRedisParserDone, at_ d recorder kRedisParserDone kRedisParserOk ha [] REDIS_REQ_INLINE 0 (-1) args (line) []).
Proof.
  intros Hline Hl. destruct (line_body line args Hline) as (body & E & Hb). unfold ProcessInlineBuffer.
  rewrite (FindNext_rest _ [] (line)) by (apply at_looks; unfold fits_int, REDIS_INLINE_MAXLEN in *; simpl app; lia).
  assert (Ef : find_newline (line) (Z.of_nat (length (@nil byte))) = Z.of_nat (length body))
    by (rewrite E, find_newline_first by done; done).
  rewrite Ef, (proj2 (Z.eqb_neq _ _)) by lia.
  assert (El : Z.of_nat (length body) + 1 = Z.of_nat (length (line))) by (rewrite E, length_app; simpl; lia).
  unfold input_substr, at_. cbn [cur_pos_ input_str_ app length]. rewrite El, Z.sub_0_r.
  rewrite (proj2 (Z.leb_le 0 _)), (proj2 (Z.leb_le 0 _)), (proj2 (Z.leb_le _ _)) by lia. cbn [andb].
  rewrite Nat2Z.id. change (Z.to_nat (Z.of_nat 0)) with 0%nat. rewrite drop_0, take_ge by done.
  cbn [mbind option_bind]. rewrite (split2args_words line args Hline). cbn. by rewrite app_nil_r.
Qed.

Lemma line_part line args i rest : line_of line args -> line = i ++ rest -> rest <> [] -> x0a ∉ i.
Proof.
  intros Hline E Hr. destruct (line_body line args Hline) as (body & E' & Hb).
  destruct (exists_last Hr) as (r & x & ->). rewrite E', app_assoc in E. apply app_inj_tail in E as [-> _]. set_solver.
Qed.

(** One piece of a line. *)
Lemma line_piece line args past half c rest p :
  line_of line args -> args <> [] -> line = half ++ c ++ rest -> c <> [] ->
  Z.of_nat (length (line)) <= REDIS_INLINE_MAXLEN -> in_line past half p ->
  exists st n p', ProcessInputBuffer p c = Some (st, n, p') /\
    (if decide (rest = []) then in_line (past ++ [args]) [] p' else in_line past (half ++ c) p').
Proof.
  intros Hline Ha E Hc Hl (st & ty & -> & Hst). rewrite app_assoc in E.
  destruct (line_no_star line args (half ++ c) rest Hline E) as (c0 & i & Ei & Hstar); [by destruct half|].
  assert (Hty : ty = 0 \/ ty = REDIS_REQ_INLINE) by tauto.
  assert (Hlen : Z.of_nat (length (half ++ c)) <= REDIS_INLINE_MAXLEN) by (rewrite E, length_app in Hl; lia).
  unfold ProcessInputBuffer. cbn [status_code_ half_argv_ set_input redis_parser_type_].
  rewrite int_length by (unfold fits_int, REDIS_INLINE_MAXLEN in *; lia).
  change (REDIS_PARSER_REQUEST =? REDIS_PARSER_REQUEST) with true. cbn [orb].
  assert (HL : exists st1 p1, ProcessRequestBuffer (at_ (past, past) recorder st kRedisParserOk half [] ty 0 (-1) [] [] (half ++ c)) = Some (st1, p1) /\
    (if decide (rest = []) then in_line (past ++ [args]) [] (ResetRedisParser p1)
     else in_line past (half ++ c) (ResetRedisParser p1))).
  { unfold ProcessRequestBuffer. change (input_str_ _) with (half ++ c). rewrite Ei. cbn [length].
    rewrite request_loop_inline by done. rewrite <- Ei. destruct (decide (rest = [])) as [->|Hr].
    - rewrite app_nil_r in E. rewrite <- E, (inline_full _ _ _ _ line args) by done. destruct args as [|a args]; [done|].
      cbn [mbind option_bind]. rewrite bool_decide_eq_true_2 by done. cbn -[request_loop Z.of_nat length].
      eexists _, _. split; [apply loop_idle|]. exists kRedisParserDone, 0. split; [done|]. left. by destruct past.
    - rewrite Ei in *. rewrite inline_half by (done || by eapply line_part). eexists _, _. split; [done|].
      exists kRedisParserHalf, REDIS_REQ_INLINE. split; [done|]. right. auto. }
  destruct HL as (st1 & p1 & HL & Hp). unfold at_ in HL. cbn [app length] in HL. change (Z.of_nat 0) with 0 in HL.
  destruct Hst as [(-> & -> & ->)|(_ & -> & ->)]; [destruct past|]; cbn [app length status_code_ idle_parser] in *; rewrite HL; cbn [mbind option_bind];
    (eexists _, _, _; split; [done|exact Hp]).
Qed.

Lemma feed_line line args chunks : line_of line args -> forall past half p,
  args <> [] -> line = half ++ concat chunks -> Forall (fun c => c <> []) chunks -> chunks <> [] ->
  Z.of_nat (length (line)) <= REDIS_INLINE_MAXLEN -> in_line past half p ->
  exists p', feed p chunks = Some p' /\ in_line (past ++ [args]) [] p'.
Proof.
  intros Hline. induction chunks as [|c chunks IH]; intros past half p Ha E HF Hne Hl Hp; [done|].
  apply Forall_cons in HF as [Hc HF]. cbn [concat] in E.
  destruct (line_piece line args past half c (concat chunks) p Hline Ha E Hc Hl Hp) as (st & n & p' & HP & H).
  cbn [feed]. rewrite HP. cbn [mbind option_bind]. destruct (decide (concat chunks = [])) as [E0|N0].
  - destruct chunks as [|c' chunks]; [by exists p'|]. apply Forall_cons in HF as [Hc' _]. by destruct c'.
  - apply (IH past (half ++ c)); try done; [by rewrite <- app_assoc|by intros ->].
Qed.

(** C29: A line of words, bare or in double or single quotes with their escapes and
    with any blanks between them, at most 64 KB long, that arrives in non-empty
    pieces of any size is one command: when the line is complete its arguments are
    handed over, and the parser is in the state it was made in, every field of it,
    with the status of a finished piece. *)
Theorem inline_parsed line args chunks :
  line_of line args -> args <> [] -> concat chunks = line -> Forall (fun c => c <> []) chunks ->
  Z.of_nat (length line) <= REDIS_INLINE_MAXLEN ->
  exists p0, RedisParserInit (RedisParser_new ([], [])) REDIS_PARSER_REQUEST recorder = Some (kRedisParserInitDone, p0) /\
    p0 = idle_parser [] /\ feed p0 chunks = Some (idle_parser [args]).
Proof.
  intros Hline Ha E HF Hl. exists fresh_parser. split; [done|]. split; [done|].
  assert (Hne : chunks <> []) by (intros ->; destruct Hline as (w & E' & _); subst line; by destruct w).
  assert (H0 : in_line [] [] fresh_parser) by (exists kRedisParserInitDone, 0; split; [done|left; auto]).
  destruct (feed_line line args chunks Hline [] [] fresh_parser Ha (eq_sym E) HF Hne Hl H0) as (p & -> & st & ty & -> & Hst).
  destruct Hst as [(_ & -> & ->)|(N & _)]; done.
Qed.

(** ** Requests the parser mishandles

    Lengths that are negative or zero, with instances of the theorems on
    requests. *)

Lemma negative_argument (d : recorded) fuel k n av pre rest :
  is_i64 n -> n < 0 -> rest <> [] -> fits_int (pre ++ len_line "$" n ++ rest) -> k <> 0 ->
  bulk_loop (S fuel) (at_ d recorder kRedisParserInitDone kRedisParserOk [] [] 2 k (-1) av pre (len_line "$" n ++ rest)) = None.
Proof.
  intros Hn Hneg Hne Hr Hk. cbn [bulk_loop]. rewrite bulk_header_line by done.
  unfold at_ at 1. cbn [multibulk_len_]. rewrite (proj2 (Z.eqb_neq k 0)) by done.
  destruct rest as [|c rest]; [done|]. cbn [mbind option_bind].
  set (q := at_ _ _ _ _ _ _ _ _ n _ _ _). change (bulk_len_ q) with n.
  change (length_ q) with (Z.of_nat (length ((pre ++ len_line "$" n) ++ c :: rest))).
  change (cur_pos_ q) with (Z.of_nat (length (pre ++ len_line "$" n))).
  rewrite (proj2 (Z.ltb_ge LLONG_MAX _)) by (unfold LLONG_MAX; lia).
  rewrite (proj2 (Z.ltb_ge _ _)) by (rewrite (length_app (pre ++ _)); simpl; lia).
  unfold input_substr at 1. by rewrite (proj2 (Z.leb_gt 0 n)), andb_false_r by done.
Qed.

(** A request with an argument of negative length ends the process: the
    length becomes the size of a [std::string], which throws. *)
Theorem negative_bulk_crashes k n rest :
  0 < k < 2 ^ 62 -> is_i64 n -> n < 0 -> rest <> [] ->
  fits_int (len_line "*" k ++ len_line "$" n ++ rest) ->
  ProcessInputBuffer fresh_parser (len_line "*" k ++ len_line "$" n ++ rest) = None.
Proof.
  intros Hk Hn Hneg Hne Hr. set (text := len_line "*" k ++ len_line "$" n ++ rest) in *.
  unfold ProcessInputBuffer. change (status_code_ fresh_parser) with kRedisParserInitDone. cbv iota zeta.
  change (half_argv_ fresh_parser) with (@nil byte). rewrite (int_length text []) by done.
  change (redis_parser_type_ _ =? REDIS_PARSER_REQUEST) with true. cbn [orb].
  replace (ProcessRequestBuffer _) with (@None (RedisParserStatus * RedisParser recorded)); [done|].
  symmetry. unfold ProcessRequestBuffer. change (input_str_ _) with text.
  destruct (length text) eqn:El; [done|]. rewrite <- El.
  replace (set_input _ _ _) with (rec_at [] [] kRedisParserInitDone kRedisParserOk [] [] 0 0 (-1) [] [] text) by done.
  rewrite El, request_loop_step; [|done|right; split; [done|by eexists]].
  unfold ProcessMultibulkBuffer, text. rewrite multibulk_header_line by (done || unfold is_i64; lia).
  destruct (len_line "$" n ++ rest) as [|c t] eqn:E; [by unfold len_line in E|]. cbn [mbind option_bind].
  rewrite <- E, negative_argument; try done; [by rewrite E|lia].
Qed.

(** A bulk length, and the text of a small request. *)
Lemma negative_bulk_crashes_witness :
  ProcessInputBuffer fresh_parser (len_line "*" 1 ++ len_line "$" (-5) ++ lit "xx") = None.
Proof.
  apply (negative_bulk_crashes 1 (-5) (lit "xx")); [lia|unfold is_i64; lia|lia|done|by vm_compute].
Defined.

(** Whether an empty request is harmless depends on where the pieces are
    cut: alone in a piece it makes the parser read the next request as a length
    line. *)
Theorem empty_request_pieces :
  (exists p, feed fresh_parser [lit "*0" ++ kNewLine ++ lit "PING" ++ kNewLine] = Some p /\
     data p = ([[lit "PING"]], [[lit "PING"]])) /\
  (exists p, feed fresh_parser [lit "*0" ++ kNewLine; lit "PING" ++ kNewLine] = Some p /\
     data p = ([], []) /\ status_code_ p = kRedisParserError).
Proof. split; eexists; by vm_compute. Qed.

Definition two_commands : list (list bytes) := [[lit "SET"; lit "k"; []]; [lit "GET"; lit "k"]].

Lemma commands_parsed_witness :
  exists p0, RedisParserInit (RedisParser_new ([], [])) REDIS_PARSER_REQUEST recorder = Some (kRedisParserInitDone, p0) /\
    p0 = idle_parser [] /\ feed p0 ((fun b => [b]) <$> stream two_commands) = Some (idle_parser two_commands).
Proof.
  apply (commands_parsed (U := uninit_cc) two_commands (multibulk <$> two_commands)).
  - repeat constructor; (done || vm_compute; done || by repeat constructor).
  - by vm_compute.
  - by vm_compute.
  - by apply Forall_fmap, Forall_true.
  - by vm_compute.
Defined.

(** SET k with a single-quoted and a double-quoted part. *)
Definition typed_line : bytes := lit "SET  'k' a" ++ [ch_dquote] ++ lit "\t\x41" ++ [ch_dquote; x0d; x0a].
Definition typed_args : list bytes := [lit "SET"; lit "k"; lit "a" ++ [x09] ++ lit "A"].

Lemma bare_b (t : bytes) : forallb (fun c => negb (is_space c) && bool_decide (c ∉ [ch_dquote; ch_squote; x00])) t = true -> Forall bare t.
Proof.
  rewrite forallb_forall, Forall_forall. intros H c Hc%list_elem_of_In%H. apply andb_prop in Hc as [H1 H2].
  split; [by apply negb_true_iff|by apply bool_decide_eq_true in H2].
Qed.

Lemma blank_b (t : bytes) : forallb (fun c => bool_decide (c ∈ [" "%byte; x09; x0d])) t = true -> Forall blank t.
Proof. rewrite forallb_forall, Forall_forall. intros H c Hc%list_elem_of_In%H. by apply bool_decide_eq_true in Hc. Qed.

Lemma typed_line_of : line_of typed_line typed_args.
Proof.
  exists (lit "SET  'k' a" ++ [ch_dquote] ++ lit "\t\x41" ++ [ch_dquote; x0d]). split; [done|]. split; [|done].
  apply (words_arg [] (lit "SET") (lit "SET") (lit "  'k' a" ++ [ch_dquote] ++ lit "\t\x41" ++ [ch_dquote; x0d]));
    [constructor|by apply argument_bare; [apply bare_b|]|right; eexists _, _; split; [done|by left]|].
  apply (words_arg (lit "  ") (lit "'k'") (lit "k") (lit " a" ++ [ch_dquote] ++ lit "\t\x41" ++ [ch_dquote; x0d]));
    [by apply blank_b| |right; eexists _, _; split; [done|by left]|].
  { apply (argument_single [] (lit "k") (lit "k")); [constructor|]. apply sq_byte; [|constructor].
    apply (bool_decide_unpack _). by vm_compute. }
  apply (words_arg (lit " ") (lit "a" ++ ch_dquote :: lit "\t\x41" ++ [ch_dquote]) _ [x0d]);
    [by apply blank_b| |right; eexists _, _; split; [done|by right; right; left]|apply words_end; by apply blank_b].
  apply (argument_double (lit "a") (lit "\t\x41") ([x09] ++ lit "A")); [by apply bare_b|].
  apply (dq_escape "t" x09 (lit "\x41") (lit "A")); [constructor|]. by apply (dq_hex "4" "1" "A" [] []); [..|constructor].
Qed.

Lemma inline_parsed_witness :
  exists p0, RedisParserInit (RedisParser_new ([], [])) REDIS_PARSER_REQUEST recorder = Some (kRedisParserInitDone, p0) /\
    p0 = idle_parser [] /\ feed p0 ((fun b => [b]) <$> typed_line) = Some (idle_parser [typed_args]).
Proof.
  apply (inline_parsed typed_line typed_args); [apply typed_line_of|done|by vm_compute|by apply Forall_fmap, Forall_true|by vm_compute].
Defined.
