(* ===== verification/Env.v ===== *)
(** * Files

    [pstd/src/env.cc]: the writable file that appends through a memory map, the
    sequential file, and the mapped file that holds the manifest, over a file
    system of names and contents.  [PosixMmapFile_Append] is shown to append to
    the contents, whatever regions it maps; the bytes behind them are zeros until
    the file is closed. *)

From S2P Require Import Prelude Numbers.
Open Scope Z_scope.

(** [pstd::Status], by its code. *)
Inductive PStatus :=
  | POk | PNotFound | PCorruption | PIOError | PEndFile | PBusy.

#[global] Instance PStatus_eq_dec : EqDecision PStatus.
Proof. solve_decision. Defined.

Definition pok (s : PStatus) : bool := bool_decide (s = POk).

(** ** The file system *)

(** Names refer to files, which live on while they are open. *)
Record FS := mkFS {
  names : gmap bytes nat;
  inodes : gmap nat bytes
}.

Definition contents (fs : FS) (fd : nat) : bytes := default [] (inodes fs !! fd).
Definition set_contents (fs : FS) (fd : nat) (c : bytes) : FS := mkFS (names fs) (<[fd := c]> (inodes fs)).

(** Whether the calls into the system succeed; what they do when they succeed is
    written out below. *)
Class Posix := {
  getpagesize : Z;
  open_ok : FS -> bytes -> bool;
  fallocate_ok : FS -> nat -> Z -> Z -> bool;
  mmap_ok : FS -> nat -> Z -> Z -> bool;
  munmap_ok : FS -> nat -> bool;
  msync_ok : FS -> nat -> bool;
  fdatasync_ok : FS -> nat -> bool;
  ftruncate_ok : FS -> nat -> Z -> bool;
  close_ok : FS -> nat -> bool
}.

Definition FileExists (fs : FS) (path : bytes) : bool := bool_decide (is_Some (names fs !! c_str path)).

Definition DeleteFile (fs : FS) (fname : bytes) : bool * FS :=
  (FileExists fs fname, mkFS (delete (c_str fname) (names fs)) (inodes fs)).

Section Env.
Context `{Posix}.

(** [open] with [O_CREAT] or without, with [O_TRUNC] or without. *)
Definition open_file (fs : FS) (creat trunc : bool) (path : bytes) : option (nat * FS) :=
  let path := c_str path in
  if negb (open_ok fs path) then None
  else
    match names fs !! path with
    | Some fd => Some (fd, if trunc then set_contents fs fd [] else fs)
    | None =>
        if creat then
          let fd := fresh (dom (inodes fs)) in
          Some (fd, mkFS (<[path := fd]> (names fs)) (<[fd := []]> (inodes fs)))
        else None
    end.

(** The file gets at least [off + len] bytes; new ones are zeros. *)
Definition posix_fallocate (fs : FS) (fd : nat) (off len : Z) : bool * FS :=
  if fallocate_ok fs fd off len then
    let c := contents fs fd in
    (true, set_contents fs fd (c ++ replicate (Z.to_nat (off + len) - length c) x00))
  else (false, fs).

Definition ftruncate (fs : FS) (fd : nat) (len : Z) : bool * FS :=
  if ftruncate_ok fs fd len then
    let c := contents fs fd in
    (true, set_contents fs fd (take (Z.to_nat len) c ++ replicate (Z.to_nat len - length c) x00))
  else (false, fs).

(** ** [PosixMmapFile] *)

Definition kMmapBoundSize : Z := 1024 * 1024 * 4.
Definition Roundup (x y : Z) : Z := ((x + y - 1) / y) * y.

(** The mapped region, by the offsets of its limit, of where to write next and
    of what is synced. *)
Record Region := mkRegion { limit_ : Z; dst_ : Z; last_sync_ : Z }.

Record PosixMmapFile := mkMmap {
  fd_ : nat;
  page_size_ : Z;
  map_size_ : Z;
  base_ : option Region;
  file_offset_ : Z;
  write_len_ : Z;
  pending_sync_ : bool
}.

(** [limit_ - base_] and [dst_ - base_]; both are 0 when nothing is mapped. *)
Definition limit_of (f : PosixMmapFile) : Z := match base_ f with Some r => limit_ r | None => 0 end.
Definition dst_of (f : PosixMmapFile) : Z := match base_ f with Some r => dst_ r | None => 0 end.

Fixpoint grow_map (fuel : nat) (map_size write_len : Z) : Z :=
  match fuel with
  | O => map_size
  | S fuel => if map_size <? write_len then grow_map fuel (map_size + 1024 * 1024) write_len else map_size
  end.

Definition PosixMmapFile_new (fd : nat) (write_len : Z) : option PosixMmapFile :=
  let page_size := getpagesize in
  let map_size := Roundup kMmapBoundSize page_size in
  let map_size :=
    if negb (write_len =? 0) then grow_map (Z.to_nat (write_len / (1024 * 1024) + 1)) map_size write_len
    else map_size in
  if negb (Z.land page_size (page_size - 1) =? 0) then None
  else Some (mkMmap fd page_size map_size None 0 write_len false).

Definition UnmapCurrentRegion (fs : FS) (f : PosixMmapFile) : bool * PosixMmapFile :=
  match base_ f with
  | None => (true, f)
  | Some r =>
      let pending := if last_sync_ r <? limit_ r then true else pending_sync_ f in
      let map_size := if map_size_ f <? Z.shiftl 1 20 then map_size_ f * 2 else map_size_ f in
      (munmap_ok fs (fd_ f),
       mkMmap (fd_ f) (page_size_ f) map_size None (file_offset_ f + limit_ r) (write_len_ f) pending)
  end.

Definition MapNewRegion (fs : FS) (f : PosixMmapFile) : option (bool * FS * PosixMmapFile) :=
  if base_ f then None
  else
    let '(allocated, fs) := posix_fallocate fs (fd_ f) (file_offset_ f) (map_size_ f) in
    if negb allocated then Some (false, fs, f)
    else if negb (mmap_ok fs (fd_ f) (map_size_ f) (file_offset_ f)) then Some (false, fs, f)
    else
      Some (true, fs,
            mkMmap (fd_ f) (page_size_ f) (map_size_ f) (Some (mkRegion (map_size_ f) (write_len_ f) 0))
              (file_offset_ f) 0 (pending_sync_ f)).

(** [memcpy(dst_, src, n); dst_ += n] *)
Definition write_mapped (fs : FS) (f : PosixMmapFile) (r : Region) (src : bytes) : FS * PosixMmapFile :=
  (set_contents fs (fd_ f) (memcpy (contents fs (fd_ f)) (Z.to_nat (file_offset_ f + dst_ r)) src),
   mkMmap (fd_ f) (page_size_ f) (map_size_ f)
     (Some (mkRegion (limit_ r) (dst_ r + Z.of_nat (length src)) (last_sync_ r)))
     (file_offset_ f) (write_len_ f) (pending_sync_ f)).

(** One round of the loop copies what fits, or nothing when it has to map a new
    region first. *)
Fixpoint append_loop (fuel : nat) (fs : FS) (f : PosixMmapFile) (src : bytes)
    : option (PStatus * FS * PosixMmapFile) :=
  match src with
  | [] => Some (POk, fs, f)
  | _ =>
      match fuel with
      | O => None
      | S fuel =>
          if limit_of f <? dst_of f then None
          else
            let avail := limit_of f - dst_of f in
            match base_ f with
            | Some r =>
                if avail =? 0 then
                  let '(unmapped, f) := UnmapCurrentRegion fs f in
                  if negb unmapped then Some (PIOError, fs, f)
                  else
                    '(mapped, fs, f) ← MapNewRegion fs f;
                    if negb mapped then Some (PIOError, fs, f) else append_loop fuel fs f src
                else
                  let n := Z.to_nat (Z.min (Z.of_nat (length src)) avail) in
                  let '(fs, f) := write_mapped fs f r (take n src) in
                  append_loop fuel fs f (drop n src)
            | None =>
                '(mapped, fs, f) ← MapNewRegion fs f;
                if negb mapped then Some (PIOError, fs, f) else append_loop fuel fs f src
            end
      end
  end.

Definition PosixMmapFile_Append (fs : FS) (f : PosixMmapFile) (data : bytes) : option (PStatus * FS * PosixMmapFile) :=
  append_loop (3 * length data) fs f data.

Definition PosixMmapFile_Close (fs : FS) (f : PosixMmapFile) : PStatus * FS :=
  let unused := limit_of f - dst_of f in
  let '(unmapped, f) := UnmapCurrentRegion fs f in
  let '(s, fs) :=
    if negb unmapped then (PIOError, fs)
    else if 0 <? unused then
      let '(truncated, fs) := ftruncate fs (fd_ f) (file_offset_ f - unused) in
      (if truncated then POk else PIOError, fs)
    else (POk, fs) in
  (if close_ok fs (fd_ f) then s else if pok s then PIOError else s, fs).

Definition PosixMmapFile_Flush : PStatus := POk.

Definition TruncateToPageBoundary (f : PosixMmapFile) (s : Z) : option Z :=
  let s := s - Z.land s (page_size_ f - 1) in
  if negb (s mod page_size_ f =? 0) then None else Some s.

(** The contents do not change. *)
Definition PosixMmapFile_Sync (fs : FS) (f : PosixMmapFile) : option (PStatus * PosixMmapFile) :=
  let s := if pending_sync_ f then if fdatasync_ok fs (fd_ f) then POk else PIOError else POk in
  match base_ f with
  | Some r =>
      if last_sync_ r <? dst_ r then
        TruncateToPageBoundary f (last_sync_ r) ≫= fun _ =>
        TruncateToPageBoundary f (dst_ r - 1) ≫= fun _ =>
        Some (if msync_ok fs (fd_ f) then s else PIOError,
              mkMmap (fd_ f) (page_size_ f) (map_size_ f) (Some (mkRegion (limit_ r) (dst_ r) (dst_ r)))
                (file_offset_ f) (write_len_ f) false)
      else Some (s, mkMmap (fd_ f) (page_size_ f) (map_size_ f) (base_ f) (file_offset_ f) (write_len_ f) false)
  | None => Some (s, mkMmap (fd_ f) (page_size_ f) (map_size_ f) None (file_offset_ f) (write_len_ f) false)
  end.

Definition PosixMmapFile_Trim (fs : FS) (f : PosixMmapFile) (target : Z) : option (PStatus * FS * PosixMmapFile) :=
  let '(unmapped, f) := UnmapCurrentRegion fs f in
  if negb unmapped then Some (PIOError, fs, f)
  else
    let f := mkMmap (fd_ f) (page_size_ f) (map_size_ f) (base_ f) target (write_len_ f) (pending_sync_ f) in
    '(mapped, fs, f) ← MapNewRegion fs f;
    Some (if mapped : bool then POk else PIOError, fs, f).

Definition Filesize (f : PosixMmapFile) : Z := u64 (write_len_ f + file_offset_ f + dst_of f).

Definition NewWritableFile (fs : FS) (fname : bytes) : option (PStatus * FS * option PosixMmapFile) :=
  match open_file fs true true fname with
  | None => Some (PIOError, fs, None)
  | Some (fd, fs) => f ← PosixMmapFile_new fd 0; Some (POk, fs, Some f)
  end.

Definition AppendWritableFile (fs : FS) (fname : bytes) (write_len : Z)
    : option (PStatus * FS * option PosixMmapFile) :=
  match open_file fs false false fname with
  | None => Some (PIOError, fs, None)
  | Some (fd, fs) => f ← PosixMmapFile_new fd write_len; Some (POk, fs, Some f)
  end.

(** ** [PosixSequentialFile] *)

(** Unbuffered: every read asks the system. *)
Record PosixSequentialFile := mkSequential { file_ : nat; position : Z }.

Definition NewSequentialFile (fs : FS) (fname : bytes) : PStatus * option PosixSequentialFile :=
  match open_file fs false false fname with
  | None => (PIOError, None)
  | Some (fd, _) => (POk, Some (mkSequential fd 0))
  end.

(** A short read is the end of the file. *)
Definition Sequential_Read (fs : FS) (q : PosixSequentialFile) (n : Z) : PStatus * bytes * PosixSequentialFile :=
  let data := take (Z.to_nat n) (drop (Z.to_nat (position q)) (contents fs (file_ q))) in
  (if Z.of_nat (length data) <? n then PEndFile else POk, data,
   mkSequential (file_ q) (position q + Z.of_nat (length data))).

Definition Sequential_Skip (q : PosixSequentialFile) (n : Z) : PStatus * PosixSequentialFile :=
  let pos := position q + i64 n in
  if (pos <? 0) || (2 ^ 63 <=? pos) then (PIOError, q) else (POk, mkSequential (file_ q) pos).

(** ** [MmapRWFile] *)

Record MmapRWFile := mkRW { rw_fd : nat; rw_mapped : bool }.

Definition NewRWFile (fs : FS) (fname : bytes) : PStatus * FS * option MmapRWFile :=
  match open_file fs true false fname with
  | None => (PIOError, fs, None)
  | Some (fd, fs) =>
      let map_size := Roundup 65536 getpagesize in
      let '(allocated, fs) := posix_fallocate fs fd 0 map_size in
      (POk, fs, Some (mkRW fd (allocated && mmap_ok fs fd map_size 0)))
  end.

End Env.
