(* ===== verification/EnvSpec.v ===== *)
(** * The mapped file is an append-only file

    [mm_holds fs f data]: the file [f] holds [data], and zeros behind it.
    Appending, opening and closing in these terms. *)

From S2P Require Import Prelude Numbers Env.
Open Scope Z_scope.

(** The system does what it is asked, and a page is a power of two. *)
Class PosixLaws `{Posix} : Prop := {
  page_positive : 0 < getpagesize;
  page_power : Z.land getpagesize (getpagesize - 1) = 0;
  open_fine : forall fs path, open_ok fs path = true;
  fallocate_fine : forall fs fd off len, fallocate_ok fs fd off len = true;
  mmap_fine : forall fs fd len off, mmap_ok fs fd len off = true;
  munmap_fine : forall fs fd, munmap_ok fs fd = true;
  ftruncate_fine : forall fs fd len, ftruncate_ok fs fd len = true;
  close_fine : forall fs fd, close_ok fs fd = true
}.

(** Only the contents of [fd] may differ. *)
Record same_but (fd : nat) (fs fs' : FS) : Prop := {
  sb_names : names fs' = names fs;
  sb_other : forall fd', fd' <> fd -> inodes fs' !! fd' = inodes fs !! fd';
  sb_kept : forall fd', is_Some (inodes fs !! fd') -> is_Some (inodes fs' !! fd')
}.

Lemma same_but_refl fd fs : same_but fd fs fs.
Proof. done. Qed.

Lemma same_but_trans fd fs1 fs2 fs3 : same_but fd fs1 fs2 -> same_but fd fs2 fs3 -> same_but fd fs1 fs3.
Proof.
  intros [E1 H1 K1] [E2 H2 K2]. constructor; [congruence| |by auto]. intros fd' N. by rewrite H2, H1.
Qed.

Lemma same_but_set fd fs c : same_but fd fs (set_contents fs fd c).
Proof.
  constructor; [done| |]; intros fd' N; simpl.
  - by rewrite lookup_insert_ne.
  - destruct (decide (fd' = fd)) as [->|]; [by rewrite lookup_insert_eq|by rewrite lookup_insert_ne].
Qed.

Lemma same_but_contents fd fs fs' fd' : same_but fd fs fs' -> fd' <> fd -> contents fs' fd' = contents fs fd'.
Proof. intros [_ H _] N. unfold contents. by rewrite H. Qed.

Lemma contents_set fs fd c : contents (set_contents fs fd c) fd = c.
Proof. unfold contents, set_contents. simpl. by rewrite lookup_insert_eq. Qed.

(** ** What a mapped file holds *)

Definition zeros (k : nat) : bytes := replicate k x00.

Record mm_with (fs : FS) (f : PosixMmapFile) (data : bytes) (k : nat) : Prop := {
  mm_contents : contents fs (fd_ f) = data ++ zeros k;
  mm_pos : write_len_ f + file_offset_ f + dst_of f = Z.of_nat (length data);
  mm_size : 0 < map_size_ f;
  mm_offset : 0 <= file_offset_ f /\ 0 <= write_len_ f;
  mm_region : match base_ f with
              | Some r => 0 <= dst_ r <= limit_ r /\ write_len_ f = 0 /\
                          file_offset_ f + limit_ r <= Z.of_nat (length data + k)
              | None => write_len_ f <= map_size_ f
              end
}.
Definition mm_holds (fs : FS) (f : PosixMmapFile) (data : bytes) : Prop := exists k, mm_with fs f data k.

(** Rounds of the loop that copy nothing. *)
Definition map_cost (f : PosixMmapFile) : nat :=
  match base_ f with
  | Some r => if limit_ r - dst_ r =? 0 then 1 else 0
  | None => 2
  end.

Section Laws.
Context `{L : PosixLaws}.

Lemma MapNewRegion_holds fs f data :
  mm_holds fs f data -> base_ f = None ->
  exists fs' f', MapNewRegion fs f = Some (true, fs', f') /\ mm_holds fs' f' data /\
    same_but (fd_ f) fs fs' /\ fd_ f' = fd_ f /\ (map_cost f' <= 1)%nat /\
    (write_len_ f < map_size_ f -> map_cost f' = 0%nat).
Proof.
  intros (k & [Hc Hp Hs Ho Hr]) Hb. unfold MapNewRegion, posix_fallocate. rewrite fallocate_fine, mmap_fine, Hb. cbn [negb].
  rewrite Hb in Hr. unfold dst_of in Hp. rewrite Hb in Hp.
  eexists _, _. split; [done|]. split; [|split; [apply same_but_set|]].
  - exists (k + (Z.to_nat (file_offset_ f + map_size_ f) - length (contents fs (fd_ f))))%nat. constructor; cbn.
    + rewrite contents_set, Hc, <- app_assoc. unfold zeros. by rewrite <- replicate_add.
    + rewrite <- Hp. lia.
    + done.
    + lia.
    + rewrite Hc. unfold zeros. rewrite length_app, length_replicate. lia.
  - split; [done|]. unfold map_cost. cbn. split; [case_match; lia|]. intros Hw.
    by rewrite (proj2 (Z.eqb_neq _ 0)) by lia.
Qed.

Lemma Unmap_holds fs f data r :
  mm_holds fs f data -> base_ f = Some r -> limit_ r = dst_ r ->
  exists f', UnmapCurrentRegion fs f = (true, f') /\ mm_holds fs f' data /\ base_ f' = None /\ fd_ f' = fd_ f /\
    write_len_ f' < map_size_ f'.
Proof.
  intros (k & [Hc Hp Hs Ho Hr]) Hb El. unfold UnmapCurrentRegion. rewrite Hb, munmap_fine. rewrite Hb in Hr.
  unfold dst_of in Hp. rewrite Hb in Hp.
  eexists. split; [done|]. split; [|split; [done|split; [done|cbn; case_match; lia]]].
  exists k. constructor; cbn; [done|lia|case_match; lia|lia|case_match; lia].
Qed.

Lemma memcpy_end (data src : bytes) k :
  (length src <= k)%nat -> memcpy (data ++ zeros k) (length data) src = (data ++ src) ++ zeros (k - length src).
Proof.
  intros Hk. unfold memcpy, zeros. rewrite take_app_length, drop_app_ge, drop_replicate by lia.
  rewrite <- app_assoc. do 3 f_equal. lia.
Qed.

Lemma write_mapped_holds fs f data r src :
  mm_holds fs f data -> base_ f = Some r -> Z.of_nat (length src) <= limit_ r - dst_ r ->
  let '(fs', f') := write_mapped fs f r src in
  mm_holds fs' f' (data ++ src) /\ same_but (fd_ f) fs fs' /\ fd_ f' = fd_ f /\
  (map_cost f' <= 1)%nat.
Proof.
  intros (k & [Hc Hp Hs Ho Hr]) Hb Hn. unfold write_mapped. rewrite Hb in Hr. unfold dst_of in Hp. rewrite Hb in Hp.
  split; [|split; [apply same_but_set|split; [done|unfold map_cost; cbn; case_match; lia]]].
  exists (k - length src)%nat. constructor; cbn; [|unfold dst_of; cbn; rewrite length_app; lia|done|done|
    rewrite length_app; lia].
  rewrite contents_set, Hc. replace (Z.to_nat _) with (length data) by lia. apply memcpy_end. lia.
Qed.

Lemma append_loop_holds : forall fuel fs f data src,
  mm_holds fs f data -> (map_cost f + 2 * length src <= S fuel)%nat ->
  exists fs' f', append_loop fuel fs f src = Some (POk, fs', f') /\ mm_holds fs' f' (data ++ src) /\
    same_but (fd_ f) fs fs' /\ fd_ f' = fd_ f.
Proof.
  induction fuel as [|fuel IH]; intros fs f data src Hm Hf.
  { destruct src; [|simpl in Hf; lia]. exists fs, f. rewrite app_nil_r. by repeat split. }
  destruct src as [|c src]; [exists fs, f; rewrite app_nil_r; by repeat split|].
  cbn [append_loop]. pose proof Hm as (k & [Hc Hp Hs Ho Hr]). unfold limit_of, dst_of. destruct (base_ f) as [r|] eqn:Hb.
  - rewrite (proj2 (Z.ltb_ge _ _)) by lia. destruct (Z.eqb_spec (limit_ r - dst_ r) 0) as [E|E].
    + destruct (Unmap_holds fs f data r Hm Hb ltac:(lia)) as (f1 & -> & Hm1 & Hb1 & Hfd1 & Hw). cbn [negb].
      destruct (MapNewRegion_holds fs f1 data Hm1 Hb1) as (fs2 & f2 & -> & Hm2 & Hsb & Hfd2 & _ & Hcost). cbn.
      destruct (IH fs2 f2 data (c :: src) Hm2) as (fs' & f' & -> & Hm' & Hsb' & Hfd').
      { rewrite Hcost by done. unfold map_cost in Hf. rewrite Hb, E in Hf. simpl in Hf |- *. lia. }
      exists fs', f'. split; [done|]. split; [done|]. rewrite Hfd1 in *. rewrite Hfd2 in *.
      split; [by eapply same_but_trans|congruence].
    + set (n := Z.to_nat _).
      assert (Hn : (n <= length (c :: src))%nat /\ (0 < n)%nat /\ Z.of_nat n <= limit_ r - dst_ r) by (unfold n; simpl; lia).
      assert (Hlt : length (take n (c :: src)) = n) by (rewrite length_take; lia).
      pose proof (write_mapped_holds fs f data r (take n (c :: src)) Hm Hb ltac:(rewrite Hlt; lia)) as Hw.
      destruct (write_mapped fs f r (take n (c :: src))) as [fs1 f1]. destruct Hw as (Hm1 & Hsb1 & Hfd1 & Hcost).
      destruct (IH fs1 f1 _ (drop n (c :: src)) Hm1) as (fs' & f' & -> & Hm' & Hsb' & Hfd').
      { rewrite length_drop. unfold map_cost at 1 in Hf. rewrite Hb, (proj2 (Z.eqb_neq _ 0)) in Hf by done. lia. }
      exists fs', f'. split; [done|]. rewrite <- app_assoc, take_drop in Hm'. split; [done|]. rewrite Hfd1 in *.
      split; [by eapply same_but_trans|done].
  - change (0 <? 0) with false. cbv iota.
    destruct (MapNewRegion_holds fs f data Hm Hb) as (fs2 & f2 & -> & Hm2 & Hsb & Hfd2 & Hcost & _). cbn.
    destruct (IH fs2 f2 data (c :: src) Hm2) as (fs' & f' & -> & Hm' & Hsb' & Hfd').
    { unfold map_cost at 1 in Hf. rewrite Hb in Hf. simpl in Hf |- *. lia. }
    exists fs', f'. split; [done|]. split; [done|]. rewrite Hfd2 in *. split; [by eapply same_but_trans|done].
Qed.

(** Appending through the map appends to the contents, whatever regions it
    maps on the way; names and other files stay as they are. *)
Lemma Append_holds fs f data src :
  mm_holds fs f data ->
  exists fs' f', PosixMmapFile_Append fs f src = Some (POk, fs', f') /\ mm_holds fs' f' (data ++ src) /\
    same_but (fd_ f) fs fs' /\ fd_ f' = fd_ f.
Proof.
  intros Hm. destruct src as [|c src].
  - exists fs, f. rewrite app_nil_r. by repeat split.
  - apply append_loop_holds; [done|]. unfold map_cost. repeat case_match; simpl; lia.
Qed.

Lemma Filesize_holds fs f data : mm_holds fs f data -> is_u64 (Z.of_nat (length data)) -> Filesize f = Z.of_nat (length data).
Proof. intros (k & [_ Hp _ _ _]) Hu. unfold Filesize. rewrite Hp. by apply u64_id. Qed.

Lemma contents_same fs fs' fd : inodes fs' !! fd = inodes fs !! fd -> contents fs' fd = contents fs fd.
Proof. unfold contents. by intros ->. Qed.

(** What happens to other files does not matter. *)
Lemma mm_holds_frame fs fs' f data :
  contents fs' (fd_ f) = contents fs (fd_ f) -> mm_holds fs f data -> mm_holds fs' f data.
Proof. intros E (k & [Hc Hp Hs Ho Hr]). exists k. constructor; try done. by rewrite E. Qed.

(** Closing leaves the data, and zeros behind it. *)
Lemma Close_holds fs f data :
  mm_holds fs f data ->
  exists fs' k, PosixMmapFile_Close fs f = (POk, fs') /\ contents fs' (fd_ f) = data ++ zeros k /\ same_but (fd_ f) fs fs'.
Proof.
  intros (k & [Hc Hp Hs Ho Hr]). unfold PosixMmapFile_Close, UnmapCurrentRegion, limit_of, dst_of in *.
  destruct (base_ f) as [r|] eqn:Hb; cbn.
  - rewrite munmap_fine. cbn. destruct (Z.ltb_spec 0 (limit_ r - dst_ r)).
    + unfold ftruncate. rewrite ftruncate_fine, close_fine. eexists _, _. split; [done|]. rewrite contents_set.
      split; [|apply same_but_set]. replace (Z.to_nat _) with (length data) by lia.
      rewrite Hc, take_app_length. done.
    + rewrite close_fine. exists fs, k. by split.
  - change (0 <? 0 - 0) with false. cbv iota beta. rewrite close_fine. exists fs, k. by split.
Qed.

Lemma open_new fs path : names fs !! c_str path = None ->
  let fd := fresh (dom (inodes fs)) in
  open_file fs true true path = Some (fd, mkFS (<[c_str path := fd]> (names fs)) (<[fd := []]> (inodes fs))) /\
  inodes fs !! fd = None.
Proof.
  intros Hn fd. unfold open_file. rewrite open_fine, Hn. split; [done|].
  apply not_elem_of_dom, is_fresh.
Qed.

Lemma PosixMmapFile_new_ok fd write_len :
  0 <= write_len -> exists f, PosixMmapFile_new fd write_len = Some f /\ fd_ f = fd /\ base_ f = None /\
    file_offset_ f = 0 /\ write_len_ f = write_len /\ 0 < map_size_ f /\ write_len <= map_size_ f.
Proof.
  intros Hw. unfold PosixMmapFile_new. rewrite page_power. cbn [negb Z.eqb].
  assert (HR : 1024 * 1024 <= Roundup kMmapBoundSize getpagesize).
  { unfold Roundup, kMmapBoundSize. pose proof page_positive as Hp. set (pg := getpagesize) in *.
    pose proof (Z.mod_pos_bound (1024 * 1024 * 4 + pg - 1) pg Hp).
    pose proof (Z.div_mod (1024 * 1024 * 4 + pg - 1) pg ltac:(lia)). lia. }
  assert (HG : forall fuel ms, 0 < ms -> write_len <= ms + 1024 * 1024 * Z.of_nat fuel ->
    0 < grow_map fuel ms write_len /\ write_len <= grow_map fuel ms write_len).
  { induction fuel as [|fuel IH]; intros ms H0 H1; simpl; [lia|]. destruct (Z.ltb_spec ms write_len); [apply IH|]; lia. }
  eexists. split; [done|]. cbn. do 4 (split; [done|]). destruct (Z.eqb_spec write_len 0); cbn [negb]; [lia|].
  apply HG; [lia|]. pose proof (Z.div_mod write_len (1024 * 1024) ltac:(lia)).
  pose proof (Z.mod_pos_bound write_len (1024 * 1024) ltac:(lia)).
  pose proof (Z.div_pos write_len (1024 * 1024) Hw ltac:(lia)). lia.
Qed.

(** A name that is not taken. *)
Lemma NewWritable_holds fs path :
  names fs !! c_str path = None ->
  exists fd fs' f, NewWritableFile fs path = Some (POk, fs', Some f) /\ fd_ f = fd /\ inodes fs !! fd = None /\
    fs' = mkFS (<[c_str path := fd]> (names fs)) (<[fd := []]> (inodes fs)) /\ mm_holds fs' f [].
Proof.
  intros Hn. unfold NewWritableFile. destruct (open_new fs path Hn) as [-> Hf].
  destruct (PosixMmapFile_new_ok (fresh (dom (inodes fs))) 0 ltac:(lia)) as (f & -> & Hfd & Hb & Ho & Hw & Hs & Hl).
  eexists _, _, f. split; [done|]. split; [done|]. split; [done|]. split; [done|]. exists 0%nat.
  constructor; unfold dst_of; rewrite ?Hb, ?Hfd, ?Ho, ?Hw; try done.
  unfold contents. simpl. by rewrite lookup_insert_eq.
Qed.

(** Opening what is there. *)
Lemma AppendWritable_holds fs path fd data k :
  names fs !! c_str path = Some fd -> contents fs fd = data ++ zeros k ->
  exists f, AppendWritableFile fs path (Z.of_nat (length data)) = Some (POk, fs, Some f) /\ fd_ f = fd /\ mm_holds fs f data.
Proof.
  intros Hn Hc. unfold AppendWritableFile, open_file. rewrite open_fine, Hn. cbn [negb].
  destruct (PosixMmapFile_new_ok fd (Z.of_nat (length data)) ltac:(lia)) as (f & -> & Hfd & Hb & Ho & Hw & Hs & Hl).
  exists f. split; [done|]. split; [done|]. exists k. constructor; unfold dst_of; rewrite ?Hb, ?Hfd, ?Ho, ?Hw; try done; lia.
Qed.

Lemma NewSequential_ok fs path fd :
  names fs !! c_str path = Some fd -> NewSequentialFile fs path = (POk, Some (mkSequential fd 0)).
Proof. intros Hn. unfold NewSequentialFile, open_file. by rewrite open_fine, Hn. Qed.

End Laws.

(** ** Reading *)

(** The next [data] bytes are there. *)
Lemma Read_data fs fd pre data post :
  contents fs fd = pre ++ data ++ post ->
  Sequential_Read fs (mkSequential fd (Z.of_nat (length pre))) (Z.of_nat (length data)) =
  (POk, data, mkSequential fd (Z.of_nat (length (pre ++ data)))).
Proof.
  intros Hc. unfold Sequential_Read. simpl. rewrite Hc, !Nat2Z.id, drop_app_length, take_app_length.
  rewrite (proj2 (Z.ltb_ge _ _)), length_app by lia. do 2 f_equal. lia.
Qed.

(** A read that crosses the end. *)
Lemma Read_short fs fd pos n :
  (Z.of_nat (length (contents fs fd)) < pos + n) -> 0 <= pos -> 0 < n ->
  exists q data, Sequential_Read fs (mkSequential fd pos) n = (PEndFile, data, q).
Proof.
  intros Hl Hp Hn. unfold Sequential_Read. simpl. set (d := take _ _).
  assert (Z.of_nat (length d) < n). { unfold d. rewrite length_take, length_drop. lia. }
  rewrite (proj2 (Z.ltb_lt _ _)) by done. by eexists _, _.
Qed.

Lemma Skip_ok fd pos n : 0 <= pos -> 0 <= n -> pos + n < 2 ^ 63 -> 
  Sequential_Skip (mkSequential fd pos) n = (POk, mkSequential fd (pos + n)).
Proof.
  intros Hp Hn Hl. unfold Sequential_Skip. simpl. rewrite i64_id by lia.
  by rewrite (proj2 (Z.ltb_ge _ 0)), (proj2 (Z.leb_gt _ _)) by lia.
Qed.
