(* ===== verification/Transverter.v ===== *)
(** * Items of the replication log

    [src/pika_binlog_transverter.cc] over the fixed-width coding of
    [pstd/src/pstd_coding.cc].  Reading an integer that is not there is [None]. *)

From S2P Require Import Prelude Numbers Protocol.
Open Scope Z_scope.

(** ** Fixed-width integers *)

Definition PutFixed16 (dst : bytes) (value : Z) : bytes := dst ++ le_bytes 2 value.
Definition PutFixed32 (dst : bytes) (value : Z) : bytes := dst ++ le_bytes 4 value.
Definition PutFixed64 (dst : bytes) (value : Z) : bytes := dst ++ le_bytes 8 value.

(** The value and the rest of the slice. *)
Definition get_fixed (n : nat) (dst : bytes) : option (Z * bytes) :=
  if Nat.leb n (length dst) then Some (le_value (take n dst), drop n dst) else None.
Definition GetFixed16 : bytes -> option (Z * bytes) := get_fixed 2.
Definition GetFixed32 : bytes -> option (Z * bytes) := get_fixed 4.
Definition GetFixed64 : bytes -> option (Z * bytes) := get_fixed 8.

(** ** Items *)

Definition TypeFirst : Z := 1.
Definition BINLOG_ENCODE_LEN : Z := 34.
Definition BINLOG_ITEM_HEADER_SIZE : Z := 34.
Definition PADDING_BINLOG_PROTOCOL_SIZE : Z := 22.
Definition SPACE_STROE_PARAMETER_LENGTH : Z := 5.

Record BinlogItem := mkBinlogItem {
  exec_time_ : Z;
  term_id_ : Z;
  logic_id_ : Z;
  filenum_ : Z;
  offset_ : Z;
  content_ : bytes
}.
Definition BinlogItem_new : BinlogItem := mkBinlogItem 0 0 0 0 0 [].

Definition BinlogEncode (type exec_time term_id logic_id filenum offset : Z) (content : bytes) : bytes :=
  let binlog := [] in
  let binlog := PutFixed16 binlog type in
  let binlog := PutFixed32 binlog exec_time in
  let binlog := PutFixed32 binlog term_id in
  let binlog := PutFixed64 binlog logic_id in
  let binlog := PutFixed32 binlog filenum in
  let binlog := PutFixed64 binlog offset in
  let content_length := u32 (Z.of_nat (length content)) in
  let binlog := PutFixed32 binlog content_length in
  binlog ++ content.

(** The fields in front of the content, from behind the type. *)
Definition decode_fields (binlog_str : bytes) (content : bytes) : option (BinlogItem * bytes) :=
  '(exec_time, binlog_str) ← GetFixed32 binlog_str;
  '(term_id, binlog_str) ← GetFixed32 binlog_str;
  '(logic_id, binlog_str) ← GetFixed64 binlog_str;
  '(filenum, binlog_str) ← GetFixed32 binlog_str;
  '(offset, binlog_str) ← GetFixed64 binlog_str;
  Some (mkBinlogItem exec_time term_id logic_id filenum offset content, binlog_str).

Definition BinlogDecode (type : Z) (binlog : bytes) (item : BinlogItem) : option (bool * BinlogItem) :=
  '(binlog_type, binlog_str) ← GetFixed16 binlog;
  if negb (binlog_type =? type) then Some (false, item)
  else
    '(item, binlog_str) ← decode_fields binlog_str (content_ item);
    '(content_length, binlog_str) ← GetFixed32 binlog_str;
    if Z.of_nat (length binlog_str) =? content_length then
      Some (true, mkBinlogItem (exec_time_ item) (term_id_ item) (logic_id_ item) (filenum_ item) (offset_ item) binlog_str)
    else Some (false, item).

Definition BinlogItemWithoutContentDecode (type : Z) (binlog : bytes) (item : BinlogItem)
    : option (bool * BinlogItem) :=
  '(binlog_type, binlog_str) ← GetFixed16 binlog;
  if negb (binlog_type =? type) then Some (false, item)
  else '(item, _) ← decode_fields binlog_str (content_ item); Some (true, item).

Definition kBlockSize : Z := 64 * 1024.
Definition kHeaderSize : Z := 1 + 3 + 4.

Definition ConstructPaddingBinlog `{Uninit} (type size : Z) : option bytes :=
  if negb (size <=? kBlockSize - kHeaderSize) then None
  else if negb (BINLOG_ITEM_HEADER_SIZE + PADDING_BINLOG_PROTOCOL_SIZE + SPACE_STROE_PARAMETER_LENGTH <=? size) then None
  else
    let binlog := [] in
    let binlog := PutFixed16 binlog type in
    let binlog := PutFixed32 binlog 0 in
    let binlog := PutFixed32 binlog 0 in
    let binlog := PutFixed64 binlog 0 in
    let binlog := PutFixed32 binlog 0 in
    let binlog := PutFixed64 binlog 0 in
    let content_len := i32 (size - BINLOG_ITEM_HEADER_SIZE) in
    let parameter_len := content_len - PADDING_BINLOG_PROTOCOL_SIZE - SPACE_STROE_PARAMETER_LENGTH in
    if parameter_len <? 0 then Some []
    else
      content ← RedisAppendLen [] 2 (lit "*");
      content ← RedisAppendLen content 7 (lit "$");
      let content := RedisAppendContent content (lit "padding") in
      let parameter_len_str := decimal parameter_len in
      if SPACE_STROE_PARAMETER_LENGTH <? Z.of_nat (length parameter_len_str) then Some []
      else
        let content := content ++ lit "$" in
        let content :=
          content ++ replicate (Z.to_nat (SPACE_STROE_PARAMETER_LENGTH - Z.of_nat (length parameter_len_str))) "0"%byte in
        let content := content ++ parameter_len_str ++ kNewLine in
        let content := RedisAppendContent content (replicate (Z.to_nat parameter_len) "*"%byte) in
        let binlog := PutFixed32 binlog content_len in
        Some (binlog ++ content).

(** [PaddingCmd::ToRedisProtocol] *)
Definition PaddingCmd_ToRedisProtocol `{Uninit} (argv_ : list bytes) : option bytes :=
  argv1 ← argv_ !! 1%nat;
  ConstructPaddingBinlog TypeFirst
    (u32 (Z.of_nat (length argv1) + BINLOG_ITEM_HEADER_SIZE + PADDING_BINLOG_PROTOCOL_SIZE + SPACE_STROE_PARAMETER_LENGTH)).

(** ** Encoding and decoding *)

Lemma get_fixed_put n v rest :
  get_fixed n (le_bytes n v ++ rest) = Some (v mod 2 ^ (8 * Z.of_nat n), rest).
Proof.
  unfold get_fixed. rewrite length_app, length_le_bytes, (proj2 (Nat.leb_le _ _)) by lia.
  pose proof (length_le_bytes n v) as El. rewrite take_app_length', drop_app_length' by done.
  by rewrite le_value_le_bytes.
Qed.

(** The fields of an item are within their widths. *)
Record fields_ok (exec_time term_id logic_id filenum offset : Z) : Prop := {
  fo_time : is_u32 exec_time;
  fo_term : is_u32 term_id;
  fo_logic : is_u64 logic_id;
  fo_filenum : is_u32 filenum;
  fo_offset : is_u64 offset
}.

Lemma BinlogEncode_app type t term logic file off content :
  BinlogEncode type t term logic file off content =
  le_bytes 2 type ++ le_bytes 4 t ++ le_bytes 4 term ++ le_bytes 8 logic ++ le_bytes 4 file ++ le_bytes 8 off ++
  le_bytes 4 (u32 (Z.of_nat (length content))) ++ content.
Proof. unfold BinlogEncode, PutFixed16, PutFixed32, PutFixed64. by rewrite <- !app_assoc. Qed.

Lemma decode_fields_app t term logic file off rest c :
  fields_ok t term logic file off ->
  decode_fields (le_bytes 4 t ++ le_bytes 4 term ++ le_bytes 8 logic ++ le_bytes 4 file ++ le_bytes 8 off ++ rest) c =
  Some (mkBinlogItem t term logic file off c, rest).
Proof.
  intros [H1 H2 H3 H4 H5]. unfold decode_fields, GetFixed32, GetFixed64.
  repeat (rewrite get_fixed_put; cbn [mbind option_bind]). unfold is_u32, is_u64 in *.
  change (8 * Z.of_nat 4) with 32. change (8 * Z.of_nat 8) with 64. by rewrite !Z.mod_small.
Qed.

Lemma decode_type rest : GetFixed16 (le_bytes 2 TypeFirst ++ rest) = Some (TypeFirst, rest).
Proof. unfold GetFixed16. by rewrite get_fixed_put. Qed.

Lemma BinlogEncode_length type t term logic file off content :
  Z.of_nat (length (BinlogEncode type t term logic file off content)) = BINLOG_ENCODE_LEN + Z.of_nat (length content).
Proof. rewrite BinlogEncode_app, !length_app, !length_le_bytes. unfold BINLOG_ENCODE_LEN. lia. Qed.

Lemma BinlogDecode_encode t term logic file off content item :
  fields_ok t term logic file off -> is_u32 (Z.of_nat (length content)) ->
  BinlogDecode TypeFirst (BinlogEncode TypeFirst t term logic file off content) item =
    Some (true, mkBinlogItem t term logic file off content) /\
  BinlogItemWithoutContentDecode TypeFirst (BinlogEncode TypeFirst t term logic file off content) item =
    Some (true, mkBinlogItem t term logic file off (content_ item)) /\
  drop (Z.to_nat BINLOG_ENCODE_LEN) (BinlogEncode TypeFirst t term logic file off content) = content.
Proof.
  intros Hf Hc. split; [|split].
  - rewrite BinlogEncode_app. unfold BinlogDecode. rewrite decode_type. cbn [mbind option_bind].
    change (negb (TypeFirst =? TypeFirst)) with false. cbv iota. rewrite decode_fields_app by done.
    cbn [mbind option_bind]. unfold GetFixed32. rewrite get_fixed_put. cbn [mbind option_bind].
    change (8 * Z.of_nat 4) with 32. rewrite u32_id by done. rewrite (Z.mod_small (Z.of_nat _)) by done.
    by rewrite Z.eqb_refl.
  - rewrite BinlogEncode_app. unfold BinlogItemWithoutContentDecode. rewrite decode_type. cbn [mbind option_bind].
    change (negb (TypeFirst =? TypeFirst)) with false. cbv iota. by rewrite decode_fields_app.
  - rewrite BinlogEncode_app, !app_assoc, drop_app_length'; [done|]. by rewrite !length_app, !length_le_bytes.
Qed.

(** An item of the log comes back with all its fields and its content, with
    both decoders, and the content is what follows the first 34 bytes. *)
Theorem binlog_item_roundtrip t term logic file off content item :
  fields_ok t term logic file off -> is_u32 (Z.of_nat (length content)) ->
  BinlogDecode TypeFirst (BinlogEncode TypeFirst t term logic file off content) item =
    Some (true, mkBinlogItem t term logic file off content) /\
  BinlogItemWithoutContentDecode TypeFirst (BinlogEncode TypeFirst t term logic file off content) item =
    Some (true, mkBinlogItem t term logic file off (content_ item)) /\
  drop (Z.to_nat BINLOG_ENCODE_LEN) (BinlogEncode TypeFirst t term logic file off content) = content.
Proof. apply BinlogDecode_encode. Qed.

Lemma binlog_item_roundtrip_witness :
  BinlogDecode TypeFirst (BinlogEncode TypeFirst 7 1 2 3 4 (lit "x")) BinlogItem_new =
    Some (true, mkBinlogItem 7 1 2 3 4 (lit "x")) /\
  BinlogItemWithoutContentDecode TypeFirst (BinlogEncode TypeFirst 7 1 2 3 4 (lit "x")) BinlogItem_new =
    Some (true, mkBinlogItem 7 1 2 3 4 []) /\
  drop (Z.to_nat BINLOG_ENCODE_LEN) (BinlogEncode TypeFirst 7 1 2 3 4 (lit "x")) = lit "x".
Proof.
  apply (binlog_item_roundtrip 7 1 2 3 4 (lit "x") BinlogItem_new);
    [constructor; unfold is_u32, is_u64; lia|unfold is_u32; simpl; lia].
Defined.
