(* ===== verification/Binlog.v ===== *)
(** * The replication log

    [src/pika_binlog.cc], the writer, and [src/pika_binlog_reader.cc], the
    reader: a log in files of blocks of 64 KB, in which an item is one or more
    physical records.  The time of day is an argument; a failed [assert], a null
    pointer and [LOG(FATAL)] are [None]. *)

From S2P Require Import Prelude Numbers Protocol Transverter Env.
Open Scope Z_scope.

Inductive RecordType :=
  | kZeroType | kFullType | kFirstType | kMiddleType | kLastType | kEof | kBadRecord | kOldRecord.

#[global] Instance RecordType_eq_dec : EqDecision RecordType.
Proof. solve_decision. Defined.

Definition record_code (t : RecordType) : Z :=
  match t with
  | kZeroType => 0 | kFullType => 1 | kFirstType => 2 | kMiddleType => 3
  | kLastType => 4 | kEof => 5 | kBadRecord => 6 | kOldRecord => 7
  end.

Definition kBinlogPrefix : bytes := lit "write2file".
Definition kManifest : bytes := lit "manifest".

(** [snprintf] into 256 bytes. *)
Definition NewFileName (name : bytes) (current : Z) : bytes := take 255 (c_str name ++ decimal current).

(** ** [Version] *)

Record Version := mkVersion {
  ver_pro_num : Z;
  ver_pro_offset : Z;
  ver_logic_id : Z;
  ver_term : Z
}.

(** Into the mapped manifest. *)
Definition StableSave (fs : FS) (save : MmapRWFile) (v : Version) : option FS :=
  if negb (rw_mapped save) then None
  else
    let p := contents fs (rw_fd save) in
    let p := memcpy p 0 (le_bytes 4 (ver_pro_num v)) in
    let p := memcpy p 4 (le_bytes 8 (ver_pro_offset v)) in
    let p := memcpy p 12 (le_bytes 8 (ver_logic_id v)) in
    let p := memcpy p 20 (le_bytes 4 (ver_term v)) in
    Some (set_contents fs (rw_fd save) p).

Definition Version_Init (fs : FS) (save : MmapRWFile) (v : Version) : PStatus * Version :=
  if rw_mapped save then
    let p := contents fs (rw_fd save) in
    (POk, mkVersion (le_value (subseq 0 4 p)) (le_value (subseq 4 8 p)) (le_value (subseq 12 8 p))
            (le_value (subseq 20 4 p)))
  else (PCorruption, v).

(** ** [Binlog] *)

Record Binlog := mkBinlog {
  opened_ : bool;
  version_ : Version;
  queue_ : option PosixMmapFile;
  versionfile_ : MmapRWFile;
  pro_num_ : Z;
  block_offset_ : Z;
  file_size_ : Z;
  filename_ : bytes;
  binlog_io_error_ : bool
}.

Definition set_version (b : Binlog) (v : Version) : Binlog :=
  mkBinlog (opened_ b) v (queue_ b) (versionfile_ b) (pro_num_ b) (block_offset_ b) (file_size_ b) (filename_ b)
    (binlog_io_error_ b).
Definition set_queue (b : Binlog) (q : option PosixMmapFile) : Binlog :=
  mkBinlog (opened_ b) (version_ b) q (versionfile_ b) (pro_num_ b) (block_offset_ b) (file_size_ b) (filename_ b)
    (binlog_io_error_ b).
Definition set_pro_num (b : Binlog) (n : Z) : Binlog :=
  mkBinlog (opened_ b) (version_ b) (queue_ b) (versionfile_ b) n (block_offset_ b) (file_size_ b) (filename_ b)
    (binlog_io_error_ b).
Definition set_block_offset (b : Binlog) (n : Z) : Binlog :=
  mkBinlog (opened_ b) (version_ b) (queue_ b) (versionfile_ b) (pro_num_ b) n (file_size_ b) (filename_ b)
    (binlog_io_error_ b).
Definition set_opened (b : Binlog) (o : bool) : Binlog :=
  mkBinlog o (version_ b) (queue_ b) (versionfile_ b) (pro_num_ b) (block_offset_ b) (file_size_ b) (filename_ b)
    (binlog_io_error_ b).
Definition set_io_error (b : Binlog) (e : bool) : Binlog :=
  mkBinlog (opened_ b) (version_ b) (queue_ b) (versionfile_ b) (pro_num_ b) (block_offset_ b) (file_size_ b)
    (filename_ b) e.

Section Binlog.
Context `{Posix}.

Definition InitLogFile (b : Binlog) : option Binlog :=
  q ← queue_ b;
  Some (set_opened (set_block_offset b (i32 (Filesize q mod kBlockSize))) true).

Definition Binlog_Close (b : Binlog) : Binlog := if negb (opened_ b) then b else set_opened b false.

Definition IsOpened (b : Binlog) : PStatus := if opened_ b then POk else PBusy.

(** The new version, saved. *)
Definition save_version (fs : FS) (b : Binlog) (v : Version) : option (FS * Binlog) :=
  fs ← StableSave fs (versionfile_ b) v; Some (fs, set_version b v).

Definition Binlog_new (fs : FS) (binlog_path : bytes) (file_size : Z) : option (FS * Binlog) :=
  let filename := binlog_path ++ kBinlogPrefix in
  let manifest := binlog_path ++ kManifest in
  if negb (FileExists fs manifest) then
    '(s, fs, queue) ← NewWritableFile fs (NewFileName filename 0);
    if negb (pok s) then None
    else
      let '(s, fs, rw) := NewRWFile fs manifest in
      rw ← rw;
      let v := mkVersion 0 0 0 0 in
      fs ← StableSave fs rw v;
      b ← InitLogFile (mkBinlog false v queue rw 0 0 (u64 file_size) filename false);
      Some (fs, b)
  else
    let '(s, fs, rw) := NewRWFile fs manifest in
    rw ← rw;
    let v := snd (Version_Init fs rw (mkVersion 0 0 0 0)) in
    '(s, fs, queue) ← AppendWritableFile fs (NewFileName filename (ver_pro_num v)) (ver_pro_offset v);
    if negb (pok s) then None
    else
      b ← InitLogFile (mkBinlog false v queue rw (ver_pro_num v) 0 (u64 file_size) filename false);
      Some (fs, b).

(** [queue_.reset()]: the destructor closes the file. *)
Definition reset_queue (fs : FS) (b : Binlog) : FS * Binlog :=
  match queue_ b with
  | Some q => (snd (PosixMmapFile_Close fs q), set_queue b None)
  | None => (fs, b)
  end.

(** The members go in reverse order: the file is closed, then the version saves
    itself. *)
Definition Binlog_destroy (fs : FS) (b : Binlog) : option FS :=
  let b := Binlog_Close b in
  let '(fs, b) := reset_queue fs b in
  StableSave fs (versionfile_ b) (version_ b).

(** The file, the offset, the term and the index of the last item. *)
Definition GetProducerStatus (b : Binlog) : PStatus * option (Z * Z * Z * Z) :=
  if negb (opened_ b) then (PBusy, None)
  else
    let v := version_ b in
    (POk, Some (ver_pro_num v, ver_pro_offset v, ver_term v, ver_logic_id v)).

(** The eight bytes in front of a record. *)
Definition record_header (n now : Z) (t : RecordType) : bytes :=
  [byte_of_Z (Z.land n 255); byte_of_Z (Z.shiftr (Z.land n 65280) 8); byte_of_Z (Z.shiftr n 16);
   byte_of_Z (Z.land now 255); byte_of_Z (Z.shiftr (Z.land now 65280) 8);
   byte_of_Z (Z.shiftr (Z.land now 16711680) 16); byte_of_Z (Z.shiftr (Z.land now 4278190080) 24);
   byte_of_Z (record_code t)].

(** [Append] to the file of the log. *)
Definition queue_Append (fs : FS) (b : Binlog) (data : bytes) : option (PStatus * FS * Binlog) :=
  q ← queue_ b;
  '(s, fs, q) ← PosixMmapFile_Append fs q data;
  Some (s, fs, set_queue b (Some q)).

(** The status, the files, the log and [*temp_pro_offset]. *)
Definition EmitPhysicalRecord (fs : FS) (b : Binlog) (now : Z) (t : RecordType) (ptr : bytes) (temp_pro_offset : Z)
    : option (PStatus * FS * Binlog * Z) :=
  let n := Z.of_nat (length ptr) in
  if negb (n <=? 16777215) then None
  else if negb (block_offset_ b + kHeaderSize + n <=? kBlockSize) then None
  else
    '(s, fs, b) ← queue_Append fs b (record_header n now t);
    '(s, fs, b) ← (if pok s then queue_Append fs b ptr else Some (s, fs, b));
    let s := if pok s then PosixMmapFile_Flush else s in
    Some (s, fs, set_block_offset b (i32 (block_offset_ b + i32 (kHeaderSize + n))),
          i32 (temp_pro_offset + i32 (kHeaderSize + n))).

Definition record_type (first end_ : bool) : RecordType :=
  if first && end_ then kFullType
  else if first then kFirstType
  else if end_ then kLastType
  else kMiddleType.

(** The end of a block that is too short for a header is filled with zeros. *)
Definition pad_block (fs : FS) (b : Binlog) (temp_pro_offset : Z) : option (PStatus * FS * Binlog * Z) :=
  let leftover := kBlockSize - block_offset_ b in
  if leftover <? 0 then None
  else if leftover <? kHeaderSize then
    if 0 <? leftover then
      '(s, fs, b) ← queue_Append fs b (replicate (Z.to_nat leftover) x00);
      if negb (pok s) then Some (s, fs, b, temp_pro_offset)
      else Some (s, fs, set_block_offset b 0, i32 (temp_pro_offset + leftover))
    else Some (POk, fs, set_block_offset b 0, temp_pro_offset)
  else Some (POk, fs, b, temp_pro_offset).

(** [do ... while (s.ok() && left > 0)] *)
Fixpoint produce_loop (fuel : nat) (fs : FS) (b : Binlog) (now : Z) (ptr : bytes) (first : bool) (temp_pro_offset : Z)
    : option (PStatus * FS * Binlog * Z) :=
  match fuel with
  | O => None
  | S fuel =>
      '(s, fs, b, temp_pro_offset) ← pad_block fs b temp_pro_offset;
      if negb (pok s) then Some (s, fs, b, temp_pro_offset)
      else
        let avail := u64 (kBlockSize - block_offset_ b - kHeaderSize) in
        let left := Z.of_nat (length ptr) in
        let fragment_length := if left <? avail then left else avail in
        let end_ := left =? fragment_length in
        let n := Z.to_nat fragment_length in
        '(s, fs, b, temp_pro_offset) ← EmitPhysicalRecord fs b now (record_type first end_) (take n ptr) temp_pro_offset;
        let ptr := drop n ptr in
        if pok s && (0 <? Z.of_nat (length ptr)) then produce_loop fuel fs b now ptr false temp_pro_offset
        else Some (s, fs, b, temp_pro_offset)
  end.

Definition Produce (fs : FS) (b : Binlog) (now : Z) (item : bytes) : option (PStatus * FS * Binlog * Z) :=
  produce_loop (2 + length item) fs b now item true (i32 (ver_pro_offset (version_ b))).

(** [Put(const char*, int)]: a full file is left for the next one. *)
Definition roll_file (fs : FS) (b : Binlog) : option (PStatus * FS * Binlog) :=
  q ← queue_ b;
  if file_size_ b <? Filesize q then
    '(s, fs, queue) ← NewWritableFile fs (NewFileName (filename_ b) (u32 (pro_num_ b + 1)));
    if negb (pok s) then Some (s, fs, b)
    else
      let '(fs, b) := reset_queue fs b in
      let b := set_pro_num (set_queue b queue) (u32 (pro_num_ b + 1)) in
      let v := version_ b in
      '(fs, b) ← save_version fs b (mkVersion (pro_num_ b) 0 (ver_logic_id v) (ver_term v));
      b ← InitLogFile b;
      Some (s, fs, b)
  else Some (POk, fs, b).

Definition write_item (fs : FS) (b : Binlog) (now : Z) (item : bytes) : option (PStatus * FS * Binlog) :=
  '(s, fs, b, pro_offset) ← Produce fs b now item;
  if pok s then
    let v := version_ b in
    '(fs, b) ← save_version fs b (mkVersion (ver_pro_num v) (u64 pro_offset) (u64 (ver_logic_id v + 1)) (ver_term v));
    Some (s, fs, b)
  else Some (s, fs, b).

Definition Put_raw (fs : FS) (b : Binlog) (now : Z) (item : bytes) : option (PStatus * FS * Binlog) :=
  '(s, fs, b) ← roll_file fs b;
  if negb (pok s) then Some (s, fs, b) else write_item fs b now item.

Definition Put (fs : FS) (b : Binlog) (now : Z) (item : bytes) : option (PStatus * FS * Binlog) :=
  match GetProducerStatus b with
  | (_, None) => Some (PBusy, fs, b)
  | (_, Some (filenum, offset, term, logic_id)) =>
      let logic_id := u64 (logic_id + 1) in
      let data := BinlogEncode TypeFirst (u32 now) term logic_id filenum offset item in
      if INT32_MAX <? Z.of_nat (length data) then None
      else
      '(s, fs, b) ← Put_raw fs b now data;
      Some (s, fs, if negb (pok s) then set_io_error b true else b)
  end.

(** The status, the file and what is left. *)
Fixpoint padding_loop (fuel : nat) (fs : FS) (file : PosixMmapFile) (now left : Z)
    : option (PStatus * FS * PosixMmapFile * Z) :=
  if negb (0 <? left) then Some (POk, fs, file, left)
  else
    match fuel with
    | O => None
    | S fuel =>
        let size := if kBlockSize <=? left then kBlockSize else u32 left in
        if size <? kHeaderSize then Some (POk, fs, file, left)
        else
          let bsize := size - kHeaderSize in
          '(s, fs, file) ← PosixMmapFile_Append fs file (record_header bsize now kBadRecord);
          if negb (pok s) then Some (s, fs, file, left)
          else
            '(s, fs, file) ← PosixMmapFile_Append fs file (replicate (Z.to_nat bsize) "*"%byte);
            if negb (pok s) then Some (s, fs, file, left)
            else padding_loop fuel fs file now (left - size)
    end.

(** The status, the file and the length padded. *)
Definition AppendPadding (fs : FS) (file : option PosixMmapFile) (now len : Z)
    : option (PStatus * FS * option PosixMmapFile * Z) :=
  if len <? kHeaderSize then Some (POk, fs, file, len)
  else
    file ← file;
    '(s, fs, file, rest) ← padding_loop (Z.to_nat (len / kBlockSize + 2)) fs file now len;
    Some (s, fs, Some file, len - rest).

Definition SetProducerStatus (fs : FS) (b : Binlog) (now pro_num pro_offset term index : Z)
    : option (PStatus * FS * Binlog) :=
  if negb (opened_ b) then Some (PBusy, fs, b)
  else
    let pro_offset := if pro_offset <? 4 then 0 else pro_offset in
    let '(fs, b) := reset_queue fs b in
    let init_profile := NewFileName (filename_ b) 0 in
    let fs := if FileExists fs init_profile then snd (DeleteFile fs init_profile) else fs in
    let profile := NewFileName (filename_ b) pro_num in
    let fs := if FileExists fs profile then snd (DeleteFile fs profile) else fs in
    '(_, fs, queue) ← NewWritableFile fs profile;
    '(_, fs, queue, pro_offset) ← AppendPadding fs queue now pro_offset;
    let b := set_pro_num (set_queue b queue) pro_num in
    '(fs, b) ← save_version fs b (mkVersion pro_num pro_offset index term);
    b ← InitLogFile b;
    Some (POk, fs, b).

Definition Truncate (fs : FS) (b : Binlog) (pro_num pro_offset index : Z) : option (PStatus * FS * Binlog) :=
  let '(fs, b) := reset_queue fs b in
  let profile := NewFileName (filename_ b) pro_num in
  match open_file fs false false profile with
  | None => Some (PIOError, fs, b)
  | Some (fd, fs) =>
      let '(truncated, fs) := ftruncate fs fd pro_offset in
      if negb truncated then Some (PIOError, fs, b)
      else
        let b := set_pro_num b pro_num in
        '(fs, b) ← save_version fs b (mkVersion pro_num pro_offset index (ver_term (version_ b)));
        '(s, fs, queue) ← AppendWritableFile fs profile (ver_pro_offset (version_ b));
        let b := set_queue b queue in
        if negb (pok s) then Some (s, fs, b)
        else b ← InitLogFile b; Some (POk, fs, b)
  end.

Definition SetTerm (fs : FS) (b : Binlog) (term : Z) : option (FS * Binlog) :=
  let v := version_ b in
  save_version fs b (mkVersion (ver_pro_num v) (ver_pro_offset v) (ver_logic_id v) term).

End Binlog.

(** ** [PikaBinlogReader] *)

(** The logger is an argument of the operations; [logger_] says whether it is
    set. *)
Record PikaBinlogReader := mkReader {
  cur_filenum_ : Z;
  cur_offset_ : Z;
  last_record_offset_ : Z;
  logger_ : bool;
  rd_queue_ : option PosixSequentialFile
}.

Definition PikaBinlogReader_new : PikaBinlogReader := mkReader 0 0 0 false None.

Definition PikaBinlogReader_at (cur_filenum cur_offset : Z) : PikaBinlogReader :=
  mkReader cur_filenum cur_offset (cur_offset mod kBlockSize) false None.

Definition GetReaderStatus (r : PikaBinlogReader) : Z * Z := (cur_filenum_ r, cur_offset_ r).

Definition set_rd_queue (r : PikaBinlogReader) (q : option PosixSequentialFile) : PikaBinlogReader :=
  mkReader (cur_filenum_ r) (cur_offset_ r) (last_record_offset_ r) (logger_ r) q.

(** The length of a record and its type, from the header. *)
Definition signed_char (b : byte) : Z := if Z_of_byte b <? 128 then Z_of_byte b else Z_of_byte b - 256.
Definition parse_header (header : bytes) : option (Z * Z) :=
  match header with
  | [a; b; c; _; _; _; _; t] =>
      Some (Z.lor (Z.lor (Z_of_byte a) (Z.shiftl (Z_of_byte b) 8)) (Z.shiftl (Z_of_byte c) 16), u32 (signed_char t))
  | _ => None
  end.

Definition is_type (t : RecordType) (type : Z) : bool := type =? record_code t.

(** The error flag, [*size] when it is set, and the file. *)
Fixpoint GetNext (fuel : nat) (fs : FS) (q : PosixSequentialFile) (offset : Z)
    : option (bool * option Z * PosixSequentialFile) :=
  match fuel with
  | O => None
  | S fuel =>
      let '(s, header, q) := Sequential_Read fs q kHeaderSize in
      if negb (pok s) then Some (true, None, q)
      else
        '(length, type) ← parse_header header;
        if kBlockSize - kHeaderSize <? length then Some (true, None, q)
        else if is_type kFullType type || is_type kLastType type || is_type kBadRecord type then
          let '(_, _, q) := Sequential_Read fs q length in
          Some (false, Some (offset + (kHeaderSize + length)), q)
        else if is_type kFirstType type || is_type kMiddleType type then
          let '(_, _, q) := Sequential_Read fs q length in
          GetNext fuel fs q (offset + (kHeaderSize + length))
        else Some (true, Some offset, q)
  end.

(** A file of [n] bytes has at most that many records. *)
Definition read_fuel (fs : FS) (q : PosixSequentialFile) : nat := S (length (contents fs (file_ q))).

(** The loop of [Seek] over the records of the block. *)
Fixpoint seek_loop (fuel : nat) (fs : FS) (q : PosixSequentialFile) (res block_offset : Z)
    : option (option Z * PosixSequentialFile) :=
  if block_offset <=? res then Some (Some res, q)
  else
    match fuel with
    | O => None
    | S fuel =>
        '(is_error, ret, q) ← GetNext (read_fuel fs q) fs q 0;
        if is_error : bool then Some (None, q)
        else seek_loop fuel fs q (res + default 0 ret) block_offset
    end.

Section Reader.
Context `{Posix}.

Definition Seek (fs : FS) (logger : Binlog) (r : PikaBinlogReader) (filenum offset : Z)
    : option (Z * PikaBinlogReader) :=
  let confile := NewFileName (filename_ logger) filenum in
  if negb (FileExists fs confile) then Some (-1, r)
  else
    match NewSequentialFile fs confile with
    | (_, None) => Some (-1, r)
    | (_, Some readfile) =>
        let start_block := (offset / kBlockSize) * kBlockSize in
        let '(_, q) := Sequential_Skip readfile start_block in
        let block_offset := offset mod kBlockSize in
        '(res, q) ← seek_loop (S (Z.to_nat block_offset)) fs q 0 block_offset;
        match res with
        | None => Some (-1, mkReader filenum offset (filenum mod kBlockSize) true (Some q))
        | Some res =>
            let cur_offset := start_block + res in
            Some (0, mkReader filenum cur_offset (cur_offset mod kBlockSize) true (Some q))
        end
    end.

(** [*filenum] and [*offset]. *)
Notation placement := (Z * Z)%type.

(** What is left of a block may be too short for a record. *)
Definition skip_block_end (r : PikaBinlogReader) : option PikaBinlogReader :=
  q ← rd_queue_ r;
  let rest := u64 (kBlockSize - last_record_offset_ r) in
  if rest <=? kHeaderSize then
    let '(_, q) := Sequential_Skip q rest in
    Some (mkReader (cur_filenum_ r) (u64 (cur_offset_ r + rest)) 0 (logger_ r) (Some q))
  else Some r.

(** The type, the fragment that was read, the reader and what is written through
    the pointers. *)
Definition ReadPhysicalRecord (fs : FS) (r : PikaBinlogReader) (result : bytes) (out : placement)
    : option (Z * bytes * PikaBinlogReader * placement) :=
  r ← skip_block_end r;
  q ← rd_queue_ r;
  let '(s, header, q) := Sequential_Read fs q kHeaderSize in
  let r := set_rd_queue r (Some q) in
  if bool_decide (s = PEndFile) then Some (record_code kEof, result, r, out)
  else if negb (pok s) then Some (record_code kBadRecord, result, r, out)
  else
    '(length, type) ← parse_header header;
    if kBlockSize - kHeaderSize <? length then Some (record_code kBadRecord, result, r, out)
    else if is_type kZeroType type || (length =? 0) then Some (record_code kOldRecord, result, r, out)
    else
      let '(s, buffer, q) := Sequential_Read fs q length in
      let last := u64 (last_record_offset_ r + (kHeaderSize + length)) in
      if pok s then
        let cur_offset := u64 (cur_offset_ r + (kHeaderSize + length)) in
        Some (type, buffer, mkReader (cur_filenum_ r) cur_offset last (logger_ r) (Some q), (cur_filenum_ r, cur_offset))
      else Some (type, buffer, mkReader (cur_filenum_ r) (cur_offset_ r) last (logger_ r) (Some q), out).

(** The status, [*scratch], the reader and the position. *)
Fixpoint Consume (fuel : nat) (fs : FS) (r : PikaBinlogReader) (scratch fragment : bytes) (out : placement)
    : option (PStatus * bytes * PikaBinlogReader * placement) :=
  match fuel with
  | O => None
  | S fuel =>
      '(record_type, fragment, r, out) ← ReadPhysicalRecord fs r fragment out;
      if is_type kFullType record_type then Some (POk, fragment, r, out)
      else if is_type kFirstType record_type then Consume fuel fs r fragment fragment out
      else if is_type kMiddleType record_type then Consume fuel fs r (scratch ++ fragment) fragment out
      else if is_type kLastType record_type then Some (POk, scratch ++ fragment, r, out)
      else if is_type kEof record_type then Some (PEndFile, scratch, r, out)
      else if is_type kBadRecord record_type then Some (PIOError, scratch, r, out)
      else if is_type kOldRecord record_type then Some (PEndFile, scratch, r, out)
      else Some (PIOError, scratch, r, out)
  end.

Definition consume_fuel (fs : FS) (r : PikaBinlogReader) : nat :=
  match rd_queue_ r with Some q => read_fuel fs q | None => 1 end.

(** [GetProducerStatus] leaves the two integers as they are when the log is
    closed; what they hold then is arbitrary. *)
Definition ReadToTheEnd (logger : Binlog) (r : PikaBinlogReader) : option bool :=
  match GetProducerStatus logger with
  | (_, Some (pro_num, pro_offset, _, _)) => Some ((pro_num =? cur_filenum_ r) && (pro_offset =? cur_offset_ r))
  | (_, None) => None
  end.

(** The loop goes to the next file when one ends. *)
Fixpoint get_loop (fuel : nat) (fs : FS) (logger : Binlog) (r : PikaBinlogReader) (scratch : bytes) (out : placement)
    : option (PStatus * bytes * PikaBinlogReader * placement) :=
  match fuel with
  | O => None
  | S fuel =>
      at_end ← ReadToTheEnd logger r;
      if at_end : bool then Some (PEndFile, scratch, r, out)
      else
        '(s, scratch, r, out) ← Consume (consume_fuel fs r) fs r scratch [] out;
        if bool_decide (s = PEndFile) then
          let confile := NewFileName (filename_ logger) (u32 (cur_filenum_ r + 1)) in
          if FileExists fs confile then
            let '(_, q) := NewSequentialFile fs confile in
            get_loop fuel fs logger (mkReader (u32 (cur_filenum_ r + 1)) 0 0 (logger_ r) q) scratch out
          else Some (PIOError, scratch, r, out)
        else Some (POk, scratch, r, out)
  end.

Definition Get (fs : FS) (logger : Binlog) (r : PikaBinlogReader) (scratch : bytes) (out : placement)
    : option (PStatus * bytes * PikaBinlogReader * placement) :=
  if negb (logger_ r) || negb (bool_decide (is_Some (rd_queue_ r))) then Some (PCorruption, scratch, r, out)
  else get_loop (S (size (names fs))) fs logger r [] out.

End Reader.
