(* ===== verification/BinlogSpec.v ===== *)
(** * The format of the log

    [framed pos first item text]: [text] is how the log writes [item] from
    offset [pos] of a file on.  [Produce] writes such a text. *)

From S2P Require Import Prelude Coding Numbers Env EnvSpec Transverter Binlog.
Open Scope Z_scope.

(** What is left of the block of an offset. *)
Definition leftover (pos : Z) : Z := kBlockSize - pos mod kBlockSize.

Lemma leftover_range pos : 0 < leftover pos <= kBlockSize.
Proof. unfold leftover, kBlockSize. pose proof (Z.mod_pos_bound pos (64 * 1024) ltac:(lia)). lia. Qed.

Notation len l := (Z.of_nat (length l)).

Inductive framed : Z -> bool -> bytes -> bytes -> Prop :=
  | framed_pad pos first item text :
      leftover pos < kHeaderSize -> framed (pos + leftover pos) first item text ->
      framed pos first item (zeros (Z.to_nat (leftover pos)) ++ text)
  | framed_end pos first item now :
      kHeaderSize + len item <= leftover pos ->
      framed pos first item (record_header (len item) now (record_type first true) ++ item)
  | framed_part pos first frag item text now :
      kHeaderSize + len frag = leftover pos -> item <> [] -> framed (pos + leftover pos) false item text ->
      framed pos first (frag ++ item) (record_header (len frag) now (record_type first false) ++ frag ++ text).

(** The offset in the block that the writer and the reader keep may be the size
    of the block where a new one begins. *)
Definition aligned (off pos : Z) : Prop := off = pos mod kBlockSize \/ (off = kBlockSize /\ pos mod kBlockSize = 0).

Lemma aligned_range off pos : aligned off pos -> 0 <= off <= kBlockSize.
Proof. unfold kBlockSize. pose proof (Z.mod_pos_bound pos (64 * 1024) ltac:(lia)). unfold aligned, kBlockSize. lia. Qed.

(** Moving inside the block, and to its end. *)
Lemma aligned_move off pos n :
  aligned off pos -> off < kBlockSize -> 0 <= n -> off + n <= kBlockSize -> aligned (off + n) (pos + n).
Proof.
  unfold aligned, kBlockSize. intros Ha Ho Hn Hl. assert (E : off = pos mod (64 * 1024)) by lia.
  pose proof (Z.div_mod pos (64 * 1024) ltac:(lia)). pose proof (Z.mod_pos_bound pos (64 * 1024) ltac:(lia)).
  destruct (Z.eq_dec (off + n) (64 * 1024)) as [E'|N].
  - right. split; [done|]. symmetry. apply (Z.mod_unique_pos _ _ (pos / (64 * 1024) + 1)); lia.
  - left. apply (Z.mod_unique_pos _ _ (pos / (64 * 1024))); lia.
Qed.

Lemma block_end pos : (pos + leftover pos) mod kBlockSize = 0.
Proof.
  unfold leftover, kBlockSize. rewrite (Z.div_mod pos (64 * 1024)) at 1 by lia.
  replace (_ + _) with ((pos / (64 * 1024) + 1) * (64 * 1024)) by lia. by rewrite Z.mod_mul.
Qed.

Lemma leftover_end pos : leftover (pos + leftover pos) = kBlockSize.
Proof. unfold leftover at 1. rewrite block_end. lia. Qed.

Lemma i32_add a b : i32 (i32 a + b) = i32 (a + b).
Proof.
  unfold i32. replace ((a + 2 ^ 31) mod 2 ^ 32 - 2 ^ 31 + b + 2 ^ 31) with ((a + 2 ^ 31) mod 2 ^ 32 + b) by lia.
  rewrite Zplus_mod_idemp_l. do 2 f_equal. lia.
Qed.

Lemma length_header n now t : length (record_header n now t) = 8%nat.
Proof. done. Qed.

(** The log while it writes [data] to its file. *)
Definition writes (fs : FS) (b : Binlog) (data : bytes) : Prop :=
  exists q, queue_ b = Some q /\ mm_holds fs q data /\ aligned (block_offset_ b) (len data).

(** The file of the log. *)
Definition log_fd (b : Binlog) : nat := match queue_ b with Some q => fd_ q | None => 0 end.

(** Nothing but the contents of that file and the place in it has changed. *)
Record advances (fs : FS) (b : Binlog) (fs' : FS) (b' : Binlog) : Prop := {
  ad_log : b' = set_block_offset (set_queue b (queue_ b')) (block_offset_ b');
  ad_fd : log_fd b' = log_fd b;
  ad_files : same_but (log_fd b) fs fs'
}.

Lemma advances_trans fs1 b1 fs2 b2 fs3 b3 :
  advances fs1 b1 fs2 b2 -> advances fs2 b2 fs3 b3 -> advances fs1 b1 fs3 b3.
Proof.
  intros [E1 F1 S1] [E2 F2 S2]. constructor; [by rewrite E2; rewrite E1 at 1|congruence|].
  rewrite F1 in S2. by eapply same_but_trans.
Qed.

Section Writer.
Context `{L : PosixLaws}.

Lemma queue_Append_holds fs b q data x :
  queue_ b = Some q -> mm_holds fs q data ->
  exists fs' q', queue_Append fs b x = Some (POk, fs', set_queue b (Some q')) /\ mm_holds fs' q' (data ++ x) /\
    same_but (fd_ q) fs fs' /\ fd_ q' = fd_ q.
Proof.
  intros Hq Hm. unfold queue_Append. rewrite Hq. cbn [mbind option_bind].
  destruct (Append_holds fs q data x Hm) as (fs' & q' & -> & Hm' & Hs & Hf). by exists fs', q'.
Qed.

Lemma Emit_writes fs b now t ptr off data :
  writes fs b data -> block_offset_ b + kHeaderSize + len ptr <= kBlockSize ->
  exists fs' b', EmitPhysicalRecord fs b now t ptr off = Some (POk, fs', b', i32 (off + (kHeaderSize + len ptr))) /\
    writes fs' b' (data ++ record_header (len ptr) now t ++ ptr) /\ advances fs b fs' b' /\
    block_offset_ b' = block_offset_ b + kHeaderSize + len ptr.
Proof.
  intros (q & Hq & Hm & Ha) Hn. pose proof (aligned_range _ _ Ha). unfold EmitPhysicalRecord.
  rewrite (proj2 (Z.leb_le _ _)), (proj2 (Z.leb_le _ _)) by (unfold kBlockSize, kHeaderSize in *; lia). cbn [negb].
  destruct (queue_Append_holds fs b q data (record_header (len ptr) now t) Hq Hm) as (fs1 & q1 & -> & Hm1 & Hs1 & Hf1).
  cbn [mbind option_bind]. change (pok POk) with true. cbv iota.
  destruct (queue_Append_holds fs1 (set_queue b (Some q1)) q1 _ ptr eq_refl Hm1) as (fs2 & q2 & -> & Hm2 & Hs2 & Hf2).
  cbn [mbind option_bind]. change (pok POk) with true. cbv iota.
  eexists _, _. rewrite !(i32_id (kHeaderSize + _)) by (unfold kBlockSize, kHeaderSize in *; lia). split; [done|].
  cbn [block_offset_ set_block_offset set_queue]. rewrite i32_id by (unfold kBlockSize, kHeaderSize in *; lia).
  split; [|split].
  - exists q2. rewrite app_assoc. split; [done|]. split; [done|]. cbn. rewrite <- app_assoc, !length_app, length_header.
    replace (Z.of_nat (length data + (8 + length ptr))) with (len data + (kHeaderSize + len ptr)) by (unfold kHeaderSize; lia).
    apply aligned_move; unfold kHeaderSize, kBlockSize in *; try done; lia.
  - constructor; unfold log_fd; cbn; rewrite ?Hq; [done|congruence|].
    rewrite Hf1 in Hs2. by eapply same_but_trans.
  - lia.
Qed.

(** After the padding there is room for a header. *)
Lemma pad_block_writes fs b z data :
  writes fs b data ->
  exists fs' b' pad, pad_block fs b (i32 z) = Some (POk, fs', b', i32 (z + len pad)) /\ writes fs' b' (data ++ pad) /\
    advances fs b fs' b' /\ block_offset_ b' + kHeaderSize <= kBlockSize /\
    (block_offset_ b' = 0 \/ block_offset_ b' = block_offset_ b) /\
    (forall first item text, framed (len (data ++ pad)) first item text -> framed (len data) first item (pad ++ text)).
Proof.
  intros (q & Hq & Hm & Ha). pose proof (aligned_range _ _ Ha). unfold pad_block.
  rewrite (proj2 (Z.ltb_ge _ 0)) by lia.
  destruct (Z.ltb_spec (kBlockSize - block_offset_ b) kHeaderSize) as [Hl|Hl]; [destruct (Z.ltb_spec 0 (kBlockSize - block_offset_ b)) as [Hp|Hp]|].
  - assert (El : leftover (len data) = kBlockSize - block_offset_ b) by (unfold leftover, aligned in *; lia).
    set (pad := replicate _ x00). assert (Ep : len pad = leftover (len data)) by (unfold pad; rewrite length_replicate; lia).
    destruct (queue_Append_holds fs b q data pad Hq Hm) as (fs1 & q1 & -> & Hm1 & Hs1 & Hf1).
    cbn [mbind option_bind]. change (pok POk) with true. cbn [negb].
    eexists fs1, _, pad. rewrite i32_add, <- El, <- Ep. split; [done|]. split; [|split; [|split; [|split]]].
    + exists q1. split; [done|]. split; [done|]. left. cbn. rewrite length_app, Nat2Z.inj_add, Ep. by rewrite block_end.
    + constructor; unfold log_fd; cbn; by rewrite ?Hq.
    + cbn. unfold kHeaderSize, kBlockSize. lia.
    + by left.
    + intros first item text Hf. rewrite length_app, Nat2Z.inj_add, Ep in Hf.
      replace pad with (zeros (Z.to_nat (leftover (len data)))) by (unfold pad, zeros; by rewrite El).
      apply framed_pad; [lia|done].
  - exists fs, (set_block_offset b 0), []. rewrite Z.add_0_r, app_nil_r. split; [done|]. split; [|split; [|split; [|split]]]; try done.
    + exists q. split; [done|]. split; [done|]. left. cbn. pose proof (leftover_range (len data)). unfold leftover, aligned in *. lia.
    + constructor; by destruct b.
  - exists fs, b, []. rewrite Z.add_0_r, app_nil_r. split; [done|]. split; [by exists q|]. split; [constructor; by destruct b|]. split; [lia|]. split; [by right|done].
Qed.

Lemma produce_loop_writes : forall fuel fs b now ptr first z data,
  writes fs b data -> ptr <> [] ->
  (length ptr + (if decide (block_offset_ b = kBlockSize - kHeaderSize)%Z then 1 else 0) < fuel)%nat ->
  exists fs' b' text, produce_loop fuel fs b now ptr first (i32 z) = Some (POk, fs', b', i32 (z + len text)) /\
    writes fs' b' (data ++ text) /\ advances fs b fs' b' /\ framed (len data) first ptr text.
Proof.
  induction fuel as [|fuel IH]; intros fs b now ptr first z data Hw Hne Hf; [lia|]. cbn [produce_loop].
  destruct (pad_block_writes fs b z data Hw) as (fs1 & b1 & pad & -> & Hw1 & Hm1 & Hr1 & Hb1 & Hpad).
  cbn [mbind option_bind]. change (pok POk) with true. cbn [negb].
  pose proof Hw1 as (q1 & Hq1 & _ & Ha1). pose proof (aligned_range _ _ Ha1) as Hb.
  assert (Hlo : leftover (len (data ++ pad)) = kBlockSize - block_offset_ b1)
    by (unfold leftover, aligned, kHeaderSize, kBlockSize in *; lia).
  rewrite u64_id by (unfold is_u64, kHeaderSize, kBlockSize in *; lia).
  set (avail := kBlockSize - block_offset_ b1 - kHeaderSize) in *.
  destruct (Z.le_gt_cases (len ptr) avail) as [Hle|Hgt].
  - replace (if len ptr <? avail then len ptr else avail) with (len ptr) by (destruct (Z.ltb_spec (len ptr) avail); lia).
    rewrite Z.eqb_refl, Nat2Z.id, take_ge, drop_ge by done.
    destruct (Emit_writes fs1 b1 now (record_type first true) ptr (i32 (z + len pad)) (data ++ pad) Hw1 ltac:(unfold avail in *; lia))
      as (fs2 & b2 & -> & Hw2 & Hm2 & _).
    cbn [mbind option_bind]. change (pok POk && (0 <? Z.of_nat (length (@nil byte)))) with false. cbv iota.
    exists fs2, b2, (pad ++ record_header (len ptr) now (record_type first true) ++ ptr).
    split; [|split; [by rewrite app_assoc|]].
    + rewrite i32_add, !length_app, length_header. do 3 f_equal. unfold kHeaderSize. lia.
    + split; [by eapply advances_trans|]. apply Hpad, framed_end. unfold avail in *. lia.
  - rewrite (proj2 (Z.ltb_ge (len ptr) avail)), (proj2 (Z.eqb_neq (len ptr) avail)) by lia.
    assert (Ht : len (take (Z.to_nat avail) ptr) = avail) by (rewrite length_take; lia).
    destruct (Emit_writes fs1 b1 now (record_type first false) (take (Z.to_nat avail) ptr) (i32 (z + len pad)) (data ++ pad) Hw1
      ltac:(rewrite Ht; unfold avail; lia)) as (fs2 & b2 & -> & Hw2 & Hm2 & Hb2).
    cbn [mbind option_bind]. change (pok POk) with true. rewrite Ht in Hb2.
    rewrite (proj2 (Z.ltb_lt _ _)) by (rewrite length_drop; lia). cbn [andb]. rewrite i32_add.
    destruct (IH fs2 b2 now (drop (Z.to_nat avail) ptr) false
      (z + len pad + (kHeaderSize + len (take (Z.to_nat avail) ptr))) _ Hw2) as (fs3 & b3 & text & HP & Hw3 & Hm3 & Hfr).
    { intros E%(f_equal length). rewrite length_drop in E. simpl in E. lia. }
    { assert (Hfull : block_offset_ b2 = kBlockSize) by (rewrite Hb2; unfold avail; lia).
      rewrite length_drop, decide_False by (rewrite Hfull; done).
      destruct Hb1 as [Hb1|Hb1].
      - assert (avail = kBlockSize - kHeaderSize) by (unfold avail; lia). unfold kHeaderSize, kBlockSize in *. case_decide; lia.
      - rewrite <- Hb1 in Hf. destruct (decide (block_offset_ b1 = kBlockSize - kHeaderSize)); [lia|].
        assert (0 < avail) by (unfold avail; lia). lia. }
    eexists fs3, b3, (pad ++ record_header avail now (record_type first false) ++ take (Z.to_nat avail) ptr ++ text).
    rewrite HP. split; [|split; [|split]].
    + do 3 f_equal. rewrite !length_app, length_header. unfold kHeaderSize. lia.
    + rewrite Ht, <- !app_assoc in Hw3. done.
    + eapply advances_trans; [exact Hm1|]. by eapply advances_trans.
    + apply Hpad.
      assert (HF : framed (len (data ++ pad) + leftover (len (data ++ pad))) false (drop (Z.to_nat avail) ptr) text).
      { rewrite Hlo, length_app. rewrite !length_app, length_header in Hfr.
        replace (_ + (kBlockSize - _)) with (Z.of_nat (length data + length pad + (8 + length (take (Z.to_nat avail) ptr))));
          [done|]. unfold avail, kHeaderSize in *. lia. }
      pose proof (framed_part (len (data ++ pad)) first (take (Z.to_nat avail) ptr) (drop (Z.to_nat avail) ptr) text now ltac:(unfold avail in *; lia)
        ltac:(intros E%(f_equal length); rewrite length_drop in E; simpl in E; lia) HF) as HP'.
      by rewrite Ht, take_drop in HP'.
Qed.

(** An item appended to the log is framed. *)
Lemma Produce_writes fs b now item data :
  writes fs b data -> item <> [] -> ver_pro_offset (version_ b) = len data ->
  exists fs' b' text, Produce fs b now item = Some (POk, fs', b', i32 (len (data ++ text))) /\
    writes fs' b' (data ++ text) /\ advances fs b fs' b' /\ framed (len data) true item text.
Proof.
  intros Hw Hne Hv. unfold Produce.
  destruct (produce_loop_writes (2 + length item) fs b now item true (ver_pro_offset (version_ b)) data Hw Hne)
    as (fs' & b' & text & HP & Hw' & Ha & Hf); [case_decide; lia|].
  exists fs', b', text. rewrite HP, length_app, Nat2Z.inj_add, Hv. done.
Qed.

End Writer.

(** ** Reading

    [Consume] reads back what [framed] describes, from any place of a file, and
    reports the end where the data ends. *)

(** ** Headers *)

Lemma land_ones_shift n k : 0 <= k -> Z.shiftr (Z.land n (255 * 2 ^ k)) k mod 256 = (n / 2 ^ k) mod 256.
Proof.
  intros Hk. change 256 with (2 ^ 8). rewrite <- !Z.land_ones by lia. rewrite <- Z.shiftr_div_pow2 by done.
  apply Z.bits_inj'. intros i Hi. rewrite !Z.land_spec, !Z.shiftr_spec, Z.land_spec by done.
  change 255 with (Z.ones 8). rewrite Z.mul_pow2_bits by done. replace (i + k - k) with i by lia.
  destruct (Z.testbit n (i + k)), (Z.testbit (Z.ones 8) i); done.
Qed.

Lemma parse_header_record n now t :
  0 <= n < 2 ^ 24 -> parse_header (record_header n now t) = Some (n, record_code t).
Proof.
  intros Hn. unfold parse_header, record_header. rewrite !Z_of_byte_of_Z. f_equal. f_equal.
  - rewrite (lor_shiftl_add _ _ 8) by (pose proof (Z.mod_pos_bound (Z.land n 255) 256 ltac:(lia)); lia).
    pose proof (land_ones_shift n 8 ltac:(lia)) as H8. change (255 * 2 ^ 8) with 65280 in H8. rewrite H8.
    pose proof (land_ones_shift n 0 ltac:(lia)) as H0. change (255 * 2 ^ 0) with 255 in H0. rewrite Z.shiftr_0_r, Z.div_1_r in H0.
    rewrite H0, Z.shiftr_div_pow2 by lia.
    pose proof (Z.mod_pos_bound n 256 ltac:(lia)). pose proof (Z.mod_pos_bound (n / 2 ^ 8) 256 ltac:(lia)).
    rewrite (lor_shiftl_add _ _ 16) by lia.
    rewrite (Z.mod_small (n / 2 ^ 16)) by (split; [apply Z.div_pos; lia|apply Z.div_lt_upper_bound; lia]).
    pose proof (Z.div_mod n 256 ltac:(lia)). pose proof (Z.div_mod (n / 2 ^ 8) 256 ltac:(lia)) as Hd.
    rewrite Z.div_div in Hd by lia. change (2 ^ 8 * 256) with (2 ^ 16) in Hd. change (2 ^ 8) with 256 in *. lia.
  - by destruct t.
Qed.

Lemma parse_header_zeros : parse_header (zeros 8) = Some (0, 0).
Proof. done. Qed.

(** ** Places *)

(** The reader at an offset of a file. *)
Record reads (r : PikaBinlogReader) (fd : nat) (pos : Z) : Prop := {
  rs_queue : rd_queue_ r = Some (mkSequential fd pos);
  rs_offset : cur_offset_ r = pos;
  rs_block : aligned (last_record_offset_ r) pos;
  rs_range : 0 <= pos < 2 ^ 62
}.

Definition reader_at (r : PikaBinlogReader) (fd : nat) (pos : Z) : PikaBinlogReader :=
  mkReader (cur_filenum_ r) pos (pos mod kBlockSize) (logger_ r) (Some (mkSequential fd pos)).

(** Where the next header is looked for. *)
Definition next_header (pos : Z) : Z := if leftover pos <=? kHeaderSize then pos + leftover pos else pos.

Lemma next_header_leftover pos : kHeaderSize < leftover (next_header pos).
Proof.
  unfold next_header. destruct (Z.leb_spec (leftover pos) kHeaderSize); [|done]. by rewrite leftover_end.
Qed.

Lemma skip_reads r fd pos : reads r fd pos -> skip_block_end r = Some (reader_at r fd (next_header pos)).
Proof.
  intros [Hq Ho Ha Hr]. unfold skip_block_end, next_header, reader_at. rewrite Hq, Ho. cbn [mbind option_bind].
  pose proof (leftover_range pos). pose proof (aligned_range _ _ Ha).
  rewrite (u64_id (kBlockSize - _)) by (unfold is_u64, kBlockSize in *; lia). destruct Ha as [Ha|[Ha Hm]].
  - replace (kBlockSize - last_record_offset_ r) with (leftover pos) by (unfold leftover; lia).
    destruct (Z.leb_spec (leftover pos) kHeaderSize).
    + rewrite Skip_ok by (unfold kHeaderSize in *; lia). cbv iota beta.
      rewrite u64_id by (unfold is_u64, kHeaderSize in *; lia). by rewrite block_end.
    + rewrite <- Ha. destruct r; simpl in *; congruence.
  - rewrite Ha, Z.sub_diag. cbn [Z.leb Z.compare]. unfold leftover. rewrite Hm, Z.sub_0_r.
    change (0 <=? kHeaderSize) with true. change (kBlockSize <=? kHeaderSize) with false. cbv iota.
    rewrite Skip_ok by lia. cbv iota beta. rewrite Z.add_0_r, u64_id by (unfold is_u64; lia). by rewrite Hm.
Qed.

Lemma reads_at r fd pos : 0 <= pos < 2 ^ 62 -> reads (reader_at r fd pos) fd pos.
Proof. intros H. constructor; try done. by left. Qed.

Lemma next_header_idem pos : next_header (next_header pos) = next_header pos.
Proof.
  unfold next_header at 1. rewrite (proj2 (Z.leb_gt _ _)); [done|]. apply next_header_leftover.
Qed.

(** [Consume] looks at the place only. *)
Lemma Consume_skip fuel fs r fd pos scratch fragment out :
  reads r fd pos -> pos + kBlockSize < 2 ^ 62 ->
  Consume fuel fs r scratch fragment out = Consume fuel fs (reader_at r fd (next_header pos)) scratch fragment out.
Proof.
  intros Hr Hl. destruct fuel; [done|]. cbn [Consume]. unfold ReadPhysicalRecord. rewrite (skip_reads r fd pos Hr).
  pose proof (rs_range _ _ _ Hr). pose proof (leftover_range pos).
  rewrite (skip_reads (reader_at r fd (next_header pos)) fd (next_header pos)).
  - by rewrite next_header_idem.
  - apply reads_at. unfold next_header. case_match; lia.
Qed.

(** One record. *)
Lemma Read_record fs r fd pre frag post now t result out :
  reads r fd (len pre) -> contents fs fd = pre ++ record_header (len frag) now t ++ frag ++ post ->
  frag <> [] -> t <> kZeroType -> kHeaderSize + len frag <= leftover (len pre) -> len pre + kBlockSize < 2 ^ 62 ->
  exists r', ReadPhysicalRecord fs r result out =
      Some (record_code t, frag, r', (cur_filenum_ r, len pre + (kHeaderSize + len frag))) /\
    reads r' fd (len pre + (kHeaderSize + len frag)) /\ cur_filenum_ r' = cur_filenum_ r /\ logger_ r' = logger_ r.
Proof.
  intros Hr Hc Hne Ht Hl Hb. pose proof (leftover_range (len pre)) as Hlr.
  assert (Hn : 0 < len frag) by (destruct frag; [done|simpl; lia]).
  unfold ReadPhysicalRecord. rewrite (skip_reads _ _ _ Hr).
  assert (En : next_header (len pre) = len pre) by (unfold next_header; by rewrite (proj2 (Z.leb_gt _ _)) by lia).
  rewrite En. cbn [mbind option_bind reader_at rd_queue_].
  pose proof (Read_data fs fd pre (record_header (len frag) now t) (frag ++ post) Hc) as HR.
  change (len (record_header (len frag) now t)) with kHeaderSize in HR. rewrite HR. clear HR.
  change (bool_decide (POk = PEndFile)) with false. change (pok POk) with true. cbn [negb]. cbv iota.
  rewrite parse_header_record by (unfold kHeaderSize, kBlockSize in *; lia). cbn [mbind option_bind].
  rewrite (proj2 (Z.ltb_ge _ _)) by lia.
  replace (is_type kZeroType (record_code t) || (len frag =? 0)) with false
    by (rewrite (proj2 (Z.eqb_neq (len frag) 0)) by lia; by destruct t).
  rewrite (Read_data fs fd (pre ++ record_header (len frag) now t) frag post) by (by rewrite Hc, <- app_assoc).
  change (pok POk) with true. cbv iota. cbn [set_rd_queue cur_filenum_ cur_offset_ last_record_offset_ logger_ reader_at].
  assert (Hp : 0 <= len pre mod kBlockSize < kBlockSize) by (apply Z.mod_pos_bound; done).
  assert (Hx : len pre mod kBlockSize + (kHeaderSize + len frag) <= kBlockSize) by (unfold leftover in *; lia).
  rewrite !u64_id by (unfold is_u64, kBlockSize, kHeaderSize in *; lia).
  eexists. split; [done|]. split; [|done].
  replace (len pre + (kHeaderSize + len frag)) with (len ((pre ++ record_header (len frag) now t) ++ frag)).
  2: { rewrite !length_app, length_header. unfold kHeaderSize. lia. }
  constructor; cbn; [done|rewrite !length_app, length_header; unfold kHeaderSize; lia| |rewrite !length_app, length_header; unfold kHeaderSize, kBlockSize in *; lia].
  replace (len ((pre ++ record_header (len frag) now t) ++ frag)) with (len pre + (kHeaderSize + len frag))
    by (rewrite !length_app, length_header; unfold kHeaderSize; lia).
  apply aligned_move; [by left|lia|unfold kHeaderSize; lia|done].
Qed.

(** The type of a record that goes on, and of the last one. *)
Lemma type_codes first (end_ : bool) :
  record_code (record_type first end_) =
  if end_ then (if first then 1 else 4) else (if first then 2 else 3).
Proof. by destruct first, end_. Qed.

Lemma Consume_framed pos first item text :
  framed pos first item text -> forall fs r fd pre post scratch fragment out fuel,
  reads r fd pos -> len pre = pos -> contents fs fd = pre ++ text ++ post -> item <> [] ->
  (first = true -> scratch = []) -> (length text <= fuel)%nat -> pos + len text + 2 * kBlockSize < 2 ^ 62 ->
  exists r', Consume fuel fs r scratch fragment out =
      Some (POk, scratch ++ item, r', (cur_filenum_ r, pos + len text)) /\
    reads r' fd (pos + len text) /\ cur_filenum_ r' = cur_filenum_ r /\ logger_ r' = logger_ r.
Proof.
  induction 1 as [pos first item text Hl Hf IH|pos first item now Hl|pos first frag item text now Hl Hne Hf IH];
    intros fs r fd pre post scratch fragment out fuel Hr Hp Hc Hi Hs Hfuel Hb.
  - pose proof (leftover_range pos). assert (En : next_header pos = pos + leftover pos) by (unfold next_header; by rewrite (proj2 (Z.leb_le _ _)) by lia).
    rewrite length_app in Hb, Hfuel. unfold zeros in Hb, Hfuel. rewrite length_replicate in Hb, Hfuel.
    rewrite (Consume_skip _ _ _ fd pos) by (done || lia). rewrite En. pose proof (rs_range _ _ _ Hr).
    destruct (IH fs (reader_at r fd (pos + leftover pos)) fd (pre ++ zeros (Z.to_nat (leftover pos))) post scratch fragment out fuel)
      as (r' & HC & Hr' & Hn & Hg); try done.
    + apply reads_at. lia.
    + rewrite length_app. unfold zeros. rewrite length_replicate. lia.
    + by rewrite Hc, <- !app_assoc.
    + lia.
    + lia.
    + exists r'. rewrite HC. unfold zeros. rewrite length_app, length_replicate.
      replace (pos + Z.of_nat (_ + length text)) with (pos + leftover pos + len text) by lia. done.
  - rewrite <- app_assoc in Hc. subst pos. assert (Hn0 : 0 < len item) by (destruct item; [done|simpl; lia]).
    destruct fuel as [|fuel]; [rewrite length_app, length_header in Hfuel; lia|]. cbn [Consume].
    destruct (Read_record fs r fd pre item post now (record_type first true) fragment out Hr Hc Hi) as (r' & -> & Hr' & Hn & Hg);
      [by destruct first|done|unfold kBlockSize in *; lia|]. cbn [mbind option_bind].
    replace (len pre + len (_ ++ item)) with (len pre + (kHeaderSize + len item)) by (rewrite length_app, length_header; unfold kHeaderSize; lia).
    exists r'. split; [|done]. rewrite type_codes. destruct first; [by rewrite Hs|done].
  - pose proof (rs_range _ _ _ Hr). rewrite !length_app, length_header in Hb, Hfuel. unfold kHeaderSize in Hl.
    pose proof (leftover_range pos). destruct frag as [|c frag].
    + assert (En : next_header pos = pos + leftover pos) by (unfold next_header; by rewrite (proj2 (Z.leb_le _ _)) by (rewrite <- Hl; done)).
      rewrite (Consume_skip _ _ _ fd pos) by (done || lia). rewrite En.
      destruct (IH fs (reader_at r fd (pos + leftover pos)) fd (pre ++ record_header 0 now (record_type first false)) post
        scratch fragment out fuel) as (r' & HC & Hr' & Hn & Hg); try done.
      * apply reads_at. lia.
      * rewrite length_app, length_header. simpl in Hl. lia.
      * by rewrite Hc, <- !app_assoc.
      * lia.
      * simpl in Hl. lia.
      * exists r'. rewrite HC. rewrite !length_app, length_header. simpl in Hl. cbn [app length].
        replace (pos + Z.of_nat (8 + (0 + length text))) with (pos + leftover pos + len text) by lia. done.
    + rewrite <- !app_assoc in Hc. subst pos. destruct fuel as [|fuel]; [lia|]. cbn [Consume].
      destruct (Read_record fs r fd pre (c :: frag) (text ++ post) now (record_type first false) fragment out Hr Hc)
        as (r1 & -> & Hr1 & Hn1 & Hg1); [done|by destruct first|unfold kHeaderSize; lia|unfold kBlockSize in *; lia|].
      cbn [mbind option_bind]. rewrite type_codes.
      destruct (IH fs r1 fd (pre ++ record_header (len (c :: frag)) now (record_type first false) ++ c :: frag) post
        (scratch ++ c :: frag) (c :: frag) (cur_filenum_ r, len pre + (kHeaderSize + len (c :: frag))) fuel)
        as (r' & HC & Hr' & Hn & Hg); try done.
      * rewrite <- Hl. done.
      * rewrite !length_app, length_header. rewrite <- Hl. lia.
      * by rewrite Hc, <- !app_assoc.
      * simpl in Hfuel. lia.
      * lia.
      * exists r'. rewrite !length_app, length_header.
        replace (len pre + Z.of_nat (8 + (length (c :: frag) + length text))) with (len pre + leftover (len pre) + len text) by lia.
        split; [|by rewrite Hn, Hn1, Hg, Hg1]. rewrite Hn1, <- app_assoc in HC.
        destruct first; [rewrite Hs in HC |- * by done|]; exact HC.
Qed.

(** The data ends: there is no more, or zeros follow. *)
Lemma Consume_end fs r fd data k scratch fragment out fuel :
  reads r fd (len data) -> contents fs fd = data ++ zeros k -> len data + 2 * kBlockSize < 2 ^ 62 ->
  exists r', Consume (S fuel) fs r scratch fragment out = Some (PEndFile, scratch, r', out) /\
    cur_filenum_ r' = cur_filenum_ r /\ logger_ r' = logger_ r.
Proof.
  intros Hr Hc Hb. pose proof (leftover_range (len data)). rewrite (Consume_skip _ _ _ fd (len data)) by (done || lia).
  set (pos := next_header (len data)). assert (Hp : len data <= pos <= len data + kBlockSize).
  { unfold pos, next_header. case_match; lia. }
  cbn [Consume]. unfold ReadPhysicalRecord. rewrite (skip_reads _ fd pos) by (apply reads_at; lia).
  unfold pos. rewrite next_header_idem. fold pos. cbn [mbind option_bind reader_at rd_queue_].
  destruct (Z.lt_ge_cases (len (contents fs fd)) (pos + kHeaderSize)) as [Hs|Hs].
  - destruct (Read_short fs fd pos kHeaderSize Hs ltac:(lia) ltac:(done)) as (q & d & ->).
    rewrite bool_decide_eq_true_2 by done. cbn. by eexists.
  - rewrite Hc in Hs. unfold zeros in Hs. rewrite length_app, length_replicate in Hs.
    set (j := Z.to_nat (pos - len data)).
    pose proof (Read_data fs fd (data ++ zeros j) (zeros 8) (zeros (k - j - 8))) as HR.
    unfold zeros in HR. rewrite length_app, !length_replicate in HR. fold (zeros 8) in HR.
    replace (Z.of_nat (length data + j)) with pos in HR by lia. change (Z.of_nat 8) with kHeaderSize in HR.
    rewrite HR. 2: { rewrite Hc, <- app_assoc. unfold zeros. rewrite <- !replicate_add. do 2 f_equal. unfold kHeaderSize in *. lia. }
    change (bool_decide (POk = PEndFile)) with false. change (pok POk) with true. cbn [negb]. cbv iota.
    rewrite parse_header_zeros. cbn. by eexists.
Qed.
