(* ===== verification/BinlogLog.v ===== *)
(** * The log as a sequence of items

    What the files of a log hold, item by item, and that [Put] adds one item to
    them, in the current file or in the next. *)

From S2P Require Import Prelude Numbers Transverter Env EnvSpec Binlog BinlogSpec.
Open Scope Z_scope.

(** ** The items of a file *)

Inductive logged : Z -> list bytes -> bytes -> Prop :=
  | logged_nil pos : logged pos [] []
  | logged_cons pos item items text rest :
      item <> [] -> framed pos true item text -> logged (pos + len text) items rest ->
      logged pos (item :: items) (text ++ rest).

Lemma logged_app pos items1 text1 items2 text2 :
  logged pos items1 text1 -> logged (pos + len text1) items2 text2 -> logged pos (items1 ++ items2) (text1 ++ text2).
Proof.
  induction 1 as [pos|pos item items text rest Hne Hf Hl IH]; intros H2.
  - simpl in *. by rewrite Z.add_0_r in H2.
  - simpl. rewrite <- app_assoc. constructor; [done..|]. apply IH.
    rewrite length_app in H2. by replace (pos + len text + len rest) with (pos + Z.of_nat (length text + length rest)) by lia.
Qed.

Lemma logged_one pos item text : item <> [] -> framed pos true item text -> logged pos [item] text.
Proof. intros Hne Hf. rewrite <- (app_nil_r text). constructor; [done..|]. constructor. Qed.

(** ** How long a frame is *)

Lemma framed_length pos first item text :
  framed pos first item text ->
  len text <= 2 * len item + 23 /\ (leftover pos = kBlockSize -> len text <= 2 * len item + 8).
Proof.
  induction 1 as [pos first item text Hl Hf [_ IH]|pos first item now Hl|pos first frag item text now Hl Hne Hf [_ IH]].
  - specialize (IH (leftover_end pos)). rewrite length_app. unfold zeros. rewrite length_replicate.
    pose proof (leftover_range pos). unfold kHeaderSize, kBlockSize in *. lia.
  - rewrite length_app, length_header. lia.
  - specialize (IH (leftover_end pos)). rewrite !length_app, length_header. unfold kHeaderSize, kBlockSize in *. lia.
Qed.

Lemma framed_nonempty pos first item text : framed pos first item text -> 0 < len text.
Proof.
  induction 1; rewrite !length_app; [lia|rewrite length_header; lia|rewrite length_header; lia].
Qed.

(** ** Names *)

(** The path leaves room for a number. *)
Definition path_ok (name : bytes) : Prop := x00 ∉ name /\ (length name <= 224)%nat.

Lemma decimal_no_nul n : is_i64 n -> x00 ∉ decimal n.
Proof.
  intros Hn Hin. pose proof (c_str_decimal n Hn) as Hc. revert Hin. rewrite <- Hc. clear Hc.
  generalize (decimal n). intros s. induction s as [|c s IH]; simpl; [set_solver|]. case_decide; set_solver.
Qed.

Lemma NewFileName_path name n : path_ok name -> is_i64 n ->
  c_str (NewFileName name n) = name ++ decimal n /\ NewFileName name n = name ++ decimal n.
Proof.
  intros [Hz Hl] Hn. unfold NewFileName. rewrite (c_str_no_nul name) by done. pose proof (decimal_length n Hn).
  rewrite take_ge by (rewrite length_app; lia). split; [|done]. apply c_str_no_nul.
  pose proof (decimal_no_nul n Hn). set_solver.
Qed.

Lemma decimal_inj a b : is_i64 a -> is_i64 b -> decimal a = decimal b -> a = b.
Proof. intros Ha Hb E. pose proof (number_decimal a Ha) as H. rewrite E, number_decimal in H by done. by injection H. Qed.

(** The name of the [k]th file. *)
Definition log_name (b : Binlog) (k : nat) : bytes := filename_ b ++ decimal (Z.of_nat k).

Lemma log_name_inj b j k : Z.of_nat j < 2 ^ 32 -> Z.of_nat k < 2 ^ 32 -> log_name b j = log_name b k -> j = k.
Proof.
  intros Hj Hk E. apply app_inv_head in E. apply decimal_inj in E; unfold is_i64; lia.
Qed.

Lemma log_name_file b k : path_ok (filename_ b) -> Z.of_nat k < 2 ^ 32 ->
  c_str (NewFileName (filename_ b) (Z.of_nat k)) = log_name b k.
Proof. intros Hp Hk. apply NewFileName_path; [done|]. unfold is_i64. lia. Qed.

(** ** The invariant *)

(** A file as its items and its text. *)
Notation logfile := (list bytes * bytes)%type.

Record holds_files (fs : FS) (b : Binlog) (files : list logfile) : Prop := {
  hf_file : forall k f, files !! k = Some f ->
    exists fd z, names fs !! log_name b k = Some fd /\ contents fs fd = f.2 ++ zeros z /\ logged 0 f.1 f.2;
  hf_free : forall k, (length files <= k)%nat -> Z.of_nat k < 2 ^ 32 -> names fs !! log_name b k = None;
  hf_inodes : forall p fd, names fs !! p = Some fd -> is_Some (inodes fs !! fd);
  hf_links : forall p p' fd, names fs !! p = Some fd -> names fs !! p' = Some fd -> p = p';
  hf_manifest : is_Some (inodes fs !! rw_fd (versionfile_ b)) /\ rw_mapped (versionfile_ b) = true /\
    forall k, Z.of_nat k < 2 ^ 32 -> names fs !! log_name b k <> Some (rw_fd (versionfile_ b))
}.

(** What the manifest holds first. *)
Definition ver_bytes (v : Version) : bytes :=
  le_bytes 4 (ver_pro_num v) ++ le_bytes 8 (ver_pro_offset v) ++ le_bytes 8 (ver_logic_id v) ++ le_bytes 4 (ver_term v).

(** The manifest is beside the files, under its name, and holds [v]. *)
Definition manifest_holds (fs : FS) (b : Binlog) (v : Version) : Prop :=
  exists path rest, filename_ b = path ++ kBinlogPrefix /\
    names fs !! (path ++ kManifest) = Some (rw_fd (versionfile_ b)) /\
    contents fs (rw_fd (versionfile_ b)) = ver_bytes v ++ rest.

Record log_inv (fs : FS) (b : Binlog) (old : list logfile) (cur : logfile) : Prop := {
  li_opened : opened_ b = true;
  li_path : path_ok (filename_ b);
  li_size : 0 <= file_size_ b;
  li_count : Z.of_nat (length old) < 2 ^ 32;
  li_files : holds_files fs b (old ++ [cur]);
  li_queue : writes fs b cur.2;
  li_current : names fs !! log_name b (length old) = Some (log_fd b);
  li_num : pro_num_ b = Z.of_nat (length old);
  li_version : ver_pro_num (version_ b) = pro_num_ b /\ ver_pro_offset (version_ b) = len cur.2;
  li_ids : is_u64 (ver_logic_id (version_ b)) /\ is_u32 (ver_term (version_ b));
  li_manifest : manifest_holds fs b (version_ b);
  li_bound : Forall (fun f => len f.2 < 2 ^ 31) (old ++ [cur])
}.

(** ** Saving the version *)

Lemma memcpy_field (a b c src : bytes) : length src = length b -> memcpy (a ++ b ++ c) (length a) src = a ++ src ++ c.
Proof.
  intros E. unfold memcpy. rewrite take_app_length, drop_app_ge by lia. do 2 f_equal.
  replace (length a + length src - length a)%nat with (length b) by lia. by rewrite drop_app_length.
Qed.

Lemma save_bytes v v0 rest :
  memcpy (memcpy (memcpy (memcpy (ver_bytes v0 ++ rest) 0 (le_bytes 4 (ver_pro_num v))) 4 (le_bytes 8 (ver_pro_offset v)))
    12 (le_bytes 8 (ver_logic_id v))) 20 (le_bytes 4 (ver_term v)) = ver_bytes v ++ rest.
Proof.
  unfold ver_bytes. rewrite <- !app_assoc.
  pose proof (memcpy_field [] (le_bytes 4 (ver_pro_num v0))
    (le_bytes 8 (ver_pro_offset v0) ++ le_bytes 8 (ver_logic_id v0) ++ le_bytes 4 (ver_term v0) ++ rest)
    (le_bytes 4 (ver_pro_num v)) ltac:(by rewrite !length_le_bytes)) as H0.
  cbn [app length] in H0. rewrite H0. clear H0.
  pose proof (memcpy_field (le_bytes 4 (ver_pro_num v)) (le_bytes 8 (ver_pro_offset v0))
    (le_bytes 8 (ver_logic_id v0) ++ le_bytes 4 (ver_term v0) ++ rest) (le_bytes 8 (ver_pro_offset v))) as H1.
  rewrite !length_le_bytes in H1. rewrite H1 by done. clear H1.
  pose proof (memcpy_field (le_bytes 4 (ver_pro_num v) ++ le_bytes 8 (ver_pro_offset v)) (le_bytes 8 (ver_logic_id v0))
    (le_bytes 4 (ver_term v0) ++ rest) (le_bytes 8 (ver_logic_id v))) as H2.
  rewrite length_app, !length_le_bytes, <- !app_assoc in H2. cbn [Nat.add] in H2. rewrite H2 by done. clear H2.
  pose proof (memcpy_field (le_bytes 4 (ver_pro_num v) ++ le_bytes 8 (ver_pro_offset v) ++ le_bytes 8 (ver_logic_id v))
    (le_bytes 4 (ver_term v0)) rest (le_bytes 4 (ver_term v))) as H3.
  rewrite !length_app, !length_le_bytes, <- !app_assoc in H3. cbn [Nat.add] in H3. by rewrite H3.
Qed.

Lemma manifest_not_log path b k : filename_ b = path ++ kBinlogPrefix -> path ++ kManifest <> log_name b k.
Proof. intros E. unfold log_name. rewrite E, <- app_assoc. intros H%app_inv_head. discriminate. Qed.

(** Files and names that are not the manifest's. *)
Lemma manifest_frame fs fs' b b' v :
  manifest_holds fs b v -> filename_ b' = filename_ b -> versionfile_ b' = versionfile_ b ->
  contents fs' (rw_fd (versionfile_ b)) = contents fs (rw_fd (versionfile_ b)) ->
  (forall p, (forall k, p <> log_name b k) -> names fs' !! p = names fs !! p) -> manifest_holds fs' b' v.
Proof.
  intros (path & rest & Hp & Hn & Hc) E1 E2 Ec En. exists path, rest. rewrite E1, E2. split; [done|]. split.
  - rewrite En; [done|]. intros k. by apply manifest_not_log.
  - by rewrite Ec.
Qed.

Lemma save_version_ok fs b files v :
  holds_files fs b files ->
  exists fs', save_version fs b v = Some (fs', set_version b v) /\ same_but (rw_fd (versionfile_ b)) fs fs' /\
    forall v0, manifest_holds fs b v0 -> manifest_holds fs' b v.
Proof.
  intros H. destruct (hf_manifest _ _ _ H) as (_ & Hm & _). unfold save_version, StableSave. rewrite Hm.
  eexists. split; [done|]. split; [apply same_but_set|]. intros v0 (path & rest & Hp & Hn & Hc).
  exists path, rest. split; [done|]. split; [done|]. rewrite contents_set, Hc. apply save_bytes.
Qed.

Lemma holds_files_at fs b b' files :
  filename_ b' = filename_ b -> versionfile_ b' = versionfile_ b -> holds_files fs b files -> holds_files fs b' files.
Proof. unfold log_name. intros E1 E2 [H1 H2 H3 H4 H5]. constructor; unfold log_name; rewrite ?E1, ?E2; done. Qed.

Lemma files_bound fs b files k f : holds_files fs b files -> files !! k = Some f -> Z.of_nat (length files) <= 2 ^ 32 ->
  Z.of_nat k < 2 ^ 32.
Proof. intros _ Hk Hl. apply lookup_lt_Some in Hk. lia. Qed.

(** A change of a file that is none of the log's. *)
Lemma holds_files_save fs fs' b files :
  holds_files fs b files -> Z.of_nat (length files) <= 2 ^ 32 -> same_but (rw_fd (versionfile_ b)) fs fs' ->
  holds_files fs' b files.
Proof.
  intros Hh Hl Hs. pose proof Hh as [H1 H2 H3 H4 (H5 & H6 & H7)]. pose proof Hs as [En Ho Hk].
  constructor; rewrite ?En; try done.
  - intros k f Hf. destruct (H1 k f Hf) as (fd & z & Hn & Hc & Hg). exists fd, z. split; [done|]. split; [|done].
    rewrite (same_but_contents _ _ _ fd Hs); [done|]. intros ->.
    apply (H7 k); [by eapply files_bound|done].
  - intros p fd Hn. apply Hk. by eapply H3.
  - split; [by apply Hk|]. done.
Qed.

Lemma writes_frame fs fs' b b' data :
  writes fs b data -> same_but (rw_fd (versionfile_ b)) fs fs' -> log_fd b <> rw_fd (versionfile_ b) ->
  queue_ b' = queue_ b -> block_offset_ b' = block_offset_ b -> writes fs' b' data.
Proof.
  intros (q & Hq & Hm & Ha) Hs Hne Eq Eb. exists q. rewrite Eq, Eb. split; [done|]. split; [|done].
  eapply mm_holds_frame; [|done]. eapply same_but_contents; [done|]. unfold log_fd in Hne. by rewrite Hq in Hne.
Qed.

Lemma log_fd_manifest fs b old cur : log_inv fs b old cur -> log_fd b <> rw_fd (versionfile_ b).
Proof.
  intros [_ _ _ Hn Hf _ Hc _ _ _ _ _] E. destruct (hf_manifest _ _ _ Hf) as (_ & _ & H). apply (H (length old)); [done|congruence].
Qed.

Section Put.
Context `{L : PosixLaws}.

(** One file of the log has changed. *)
Lemma holds_files_update fs fs' b files k fd z f :
  holds_files fs b files -> Z.of_nat (length files) <= 2 ^ 32 -> (k < length files)%nat ->
  names fs !! log_name b k = Some fd -> same_but fd fs fs' -> contents fs' fd = f.2 ++ zeros z -> logged 0 f.1 f.2 ->
  holds_files fs' b (<[k := f]> files).
Proof.
  intros Hh Hl Hlt Hn Hs Hc Hg. pose proof Hh as [H1 H2 H3 H4 (H5 & H6 & H7)]. pose proof Hs as [En Ho Hk].
  constructor; rewrite ?En; try done.
  - intros j f' Hf. apply list_lookup_insert_Some in Hf as [(-> & -> & _)|(Hne & Hf)]; [by exists fd, z|].
    destruct (H1 j f' Hf) as (fd' & z' & Hn' & Hc' & Hg'). exists fd', z'. split; [done|]. split; [|done].
    rewrite (same_but_contents _ _ _ fd' Hs); [done|]. intros ->. apply Hne. pose proof (H4 _ _ _ Hn Hn') as E.
    apply lookup_lt_Some in Hf. apply log_name_inj in E; lia.
  - intros j Hge. rewrite length_insert in Hge. by apply H2.
  - intros p fd' Hp. apply Hk. by eapply H3.
  - split; [by apply Hk|]. done.
Qed.

(** The current file after one more item. *)
Lemma holds_files_item fs b old items data item text fs' b' :
  holds_files fs b (old ++ [(items, data)]) -> Z.of_nat (length old) < 2 ^ 32 ->
  names fs !! log_name b (length old) = Some (log_fd b) -> advances fs b fs' b' -> writes fs' b' (data ++ text) ->
  logged 0 (items ++ [item]) (data ++ text) ->
  holds_files fs' b' (old ++ [(items ++ [item], data ++ text)]).
Proof.
  intros Hh Hl Hc [Hlog Hfd Hs] (q & Hq & (z & Hm) & _) Hg. apply (holds_files_at _ b); [by rewrite Hlog..|].
  replace (old ++ _) with (<[length old := (items ++ [item], data ++ text)]> (old ++ [(items, data)]))
    by (by rewrite insert_app_r_alt, Nat.sub_diag).
  apply (holds_files_update fs fs' b _ _ (log_fd b) z); try done; [rewrite length_app; simpl; lia..|].
  rewrite <- Hfd. unfold log_fd. rewrite Hq. apply (mm_contents _ _ _ _ Hm).
Qed.

(** A new file. *)
Lemma holds_files_new fs b files fd :
  holds_files fs b files -> Z.of_nat (length files) < 2 ^ 32 -> inodes fs !! fd = None ->
  holds_files (mkFS (<[log_name b (length files) := fd]> (names fs)) (<[fd := []]> (inodes fs))) b (files ++ [([], [])]).
Proof.
  intros [H1 H2 H3 H4 (H5 & H6 & H7)] Hl Hfd.
  assert (Hnew : forall p fd', names fs !! p = Some fd' -> fd' <> fd).
  { intros p fd' Hp ->. destruct (H3 _ _ Hp). congruence. }
  assert (Hname : forall k, (k < length files)%nat -> log_name b k <> log_name b (length files)).
  { intros k Hk E. apply log_name_inj in E; lia. }
  constructor; simpl.
  - intros k f Hf. apply lookup_app_Some in Hf as [Hf|[Hge Hf]].
    + destruct (H1 k f Hf) as (fd' & z & Hn & Hc & Hg). exists fd', z. apply lookup_lt_Some in Hf.
      rewrite lookup_insert_ne by (apply not_eq_sym, Hname, Hf). split; [done|]. split; [|done]. rewrite <- Hc. apply contents_same.
      simpl. rewrite lookup_insert_ne; [done|]. apply not_eq_sym. by eapply Hnew.
    + apply list_lookup_singleton_Some in Hf as [E <-]. replace k with (length files) by lia.
      exists fd, 0%nat. rewrite lookup_insert_eq. unfold contents. simpl. rewrite lookup_insert_eq. split; [done|]. split; [done|]. constructor.
  - intros k Hge Hk. rewrite length_app in Hge. simpl in Hge. rewrite lookup_insert_ne; [apply H2; lia|].
    intros E. apply log_name_inj in E; lia.
  - intros p fd' [[<- <-]|[Hp Hn]]%lookup_insert_Some; [by rewrite lookup_insert_eq|].
    rewrite lookup_insert_ne by (apply not_eq_sym; by eapply Hnew). by eapply H3.
  - intros p p' fd' [[<- <-]|[Hp Hn]]%lookup_insert_Some [[E E']|[Hp' Hn']]%lookup_insert_Some; try congruence.
    + by apply Hnew in Hn'.
    + subst. by apply Hnew in Hn.
    + by eapply H4.
  - destruct H5 as [x Hx]. split; [|split; [done|]].
    + rewrite lookup_insert_ne; [by eexists|]. intros ->. congruence.
    + intros k Hk [[_ E]|[Hp Hn]]%lookup_insert_Some; [congruence|]. by apply (H7 k).
Qed.

Lemma write_item_ok fs b now old items data item :
  log_inv fs b old (items, data) -> item <> [] -> len data + 2 * len item + 23 < 2 ^ 31 ->
  exists fs' b' text, write_item fs b now item = Some (POk, fs', b') /\
    log_inv fs' b' old (items ++ [item], data ++ text) /\ framed (len data) true item text /\
    ver_logic_id (version_ b') = u64 (ver_logic_id (version_ b) + 1) /\
    ver_term (version_ b') = ver_term (version_ b) /\ filename_ b' = filename_ b /\ file_size_ b' = file_size_ b /\
    names fs ⊆ names fs'.
Proof.
  intros HI Hne Hb. pose proof (log_fd_manifest _ _ _ _ HI) as Hnm. destruct HI as [Ho Hp Hsz Hcn Hf Hq Hc Hn [Hv1 Hv2] [Hi1 Hi2] Hman Hbd].
  unfold write_item. destruct (Produce_writes fs b now item data Hq Hne Hv2) as (fs1 & b1 & text & -> & Hw1 & Ha1 & Hfr).
  cbn [mbind option_bind]. change (pok POk) with true. cbv iota.
  assert (Hlg : logged 0 (items ++ [item]) (data ++ text)).
  { destruct (hf_file _ _ _ Hf (length old) (items, data)) as (_ & _ & _ & _ & Hg).
    { by rewrite lookup_app_r, Nat.sub_diag by lia. }
    apply logged_app; [done|]. by apply logged_one. }
  pose proof (holds_files_item fs b old items data item text fs1 b1 Hf Hcn Hc Ha1 Hw1 Hlg) as Hf1.
  pose proof Ha1 as [Hlog Hfd Hs]. pose proof (framed_length _ _ _ _ Hfr) as [Hfl _].
  set (v := mkVersion _ _ _ _). destruct (save_version_ok fs1 b1 _ v Hf1) as (fs2 & -> & Hs2 & Hman2). cbn [mbind option_bind].
  exists fs2, (set_version b1 v), text. split; [done|].
  assert (Ev : version_ b1 = version_ b) by (by rewrite Hlog). unfold v. rewrite Ev.
  assert (Er : versionfile_ b1 = versionfile_ b) by (by rewrite Hlog).
  rewrite i32_id by (rewrite length_app; lia). rewrite (u64_id (len _)) by (unfold is_u64; rewrite length_app; lia).
  split; [|by rewrite Hlog, (sb_names _ _ _ Hs2), (sb_names _ _ _ Hs)]. constructor; cbn; try done; try (by rewrite Hlog).
  - apply (holds_files_at _ b1); [done..|]. apply (holds_files_save fs1); try done. rewrite length_app. simpl. lia.
  - eapply (writes_frame fs1 fs2 b1); try done. by rewrite Hfd, Er.
  - rewrite (sb_names _ _ _ Hs2), (sb_names _ _ _ Hs). unfold log_name. rewrite Hlog. cbn. rewrite <- Hfd in Hc. exact Hc.
  - split; [apply u64_range|done].
  - assert (Hm1 : manifest_holds fs1 b1 (version_ b)).
    { apply (manifest_frame fs fs1 b); try done; [by rewrite Hlog|by apply (same_but_contents _ _ _ _ Hs), not_eq_sym|].
      intros p _. by rewrite (sb_names _ _ _ Hs). }
    specialize (Hman2 _ Hm1). unfold v in Hman2. rewrite Ev, i32_id, (u64_id (len _)) in Hman2
      by (unfold is_u64; rewrite length_app; lia). done.
  - apply Forall_app in Hbd as [Hbd _]. apply Forall_app. split; [done|]. apply Forall_singleton. cbn. rewrite length_app. lia.
Qed.

(** A full file is closed and the next one begins. *)
Lemma roll_file_ok fs b old cur :
  log_inv fs b old cur -> Z.of_nat (length old) + 1 < 2 ^ 32 -> file_size_ b < len cur.2 ->
  exists fs' b', roll_file fs b = Some (POk, fs', b') /\ log_inv fs' b' (old ++ [cur]) ([], []) /\
    ver_logic_id (version_ b') = ver_logic_id (version_ b) /\
    ver_term (version_ b') = ver_term (version_ b) /\ filename_ b' = filename_ b /\ file_size_ b' = file_size_ b /\
    names fs ⊆ names fs'.
Proof.
  intros HI Hcn1 Hgt. pose proof (log_fd_manifest _ _ _ _ HI) as Hnm.
  destruct HI as [Ho Hp Hsz Hcn Hf (q & Hq & Hm & Ha) Hc Hn [Hv1 Hv2] [Hi1 Hi2] Hman Hbd].
  assert (Hb : len cur.2 < 2 ^ 31) by (apply Forall_app in Hbd as [_ Hx]; by inversion Hx).
  set (k := (length old + 1)%nat). assert (Hk : u32 (pro_num_ b + 1) = Z.of_nat k) by (rewrite Hn; unfold u32, k; rewrite Z.mod_small; lia).
  assert (Hlen : length (old ++ [cur]) = k) by (unfold k; by rewrite length_app).
  assert (Hname : c_str (NewFileName (filename_ b) (Z.of_nat k)) = log_name b k) by (apply log_name_file; [done|unfold k; lia]).
  assert (Hfree : names fs !! log_name b k = None) by (apply (hf_free _ _ _ Hf); [lia|unfold k; lia]).
  unfold roll_file. rewrite Hq. cbn [mbind option_bind]. rewrite (Filesize_holds fs q cur.2) by (done || unfold is_u64; lia).
  rewrite (proj2 (Z.ltb_lt _ _)) by done. rewrite Hk.
  destruct (NewWritable_holds fs (NewFileName (filename_ b) (Z.of_nat k))) as (fd & fs1 & q1 & -> & Hfd1 & Hnew & Efs1 & Hm1); [by rewrite Hname|].
  cbn [mbind option_bind]. change (pok POk) with true. cbn [negb]. rewrite Hname in Efs1.
  assert (Hf1 : holds_files fs1 b ((old ++ [cur]) ++ [([], [])])) by (rewrite Efs1, <- Hlen; apply holds_files_new; [done|rewrite Hlen; unfold k; lia|done]).
  assert (Hold : (old ++ [cur]) !! length old = Some cur) by (by rewrite lookup_app_r, Nat.sub_diag by lia).
  assert (Hc' : names fs !! log_name b (length old) = Some (fd_ q)) by (unfold log_fd in Hc; by rewrite Hq in Hc).
  assert (Hqf : fd_ q <> fd) by (intros E; destruct (hf_inodes _ _ _ Hf _ _ Hc'); congruence).
  assert (Hmq : mm_holds fs1 q cur.2).
  { eapply mm_holds_frame; [|done]. apply contents_same. rewrite Efs1. simpl. by rewrite lookup_insert_ne. }
  destruct (Close_holds fs1 q cur.2 Hmq) as (fs2 & z & HC & Hz & Hs2).
  unfold reset_queue. rewrite Hq, HC. cbv iota beta zeta. cbn [snd].
  assert (Hf2 : holds_files fs2 b ((old ++ [cur]) ++ [([], [])])).
  { rewrite <- (list_insert_id ((old ++ [cur]) ++ [([], [])]) (length old) cur) by (by apply lookup_app_l_Some).
    apply (holds_files_update fs1 fs2 b _ _ (fd_ q) z); try done.
    - rewrite length_app, Hlen. unfold k. simpl. lia.
    - rewrite length_app, Hlen. unfold k. lia.
    - rewrite Efs1. simpl. rewrite lookup_insert_ne; [done|]. intros E. apply log_name_inj in E; unfold k in *; lia.
    - by destruct (hf_file _ _ _ Hf _ _ Hold) as (_ & _ & _ & _ & Hg). }
  set (b1 := set_pro_num (set_queue (set_queue b None) (Some q1)) (Z.of_nat k)).
  set (v := mkVersion (pro_num_ b1) 0 (ver_logic_id (version_ b1)) (ver_term (version_ b1))).
  destruct (save_version_ok fs2 b1 _ v (holds_files_at fs2 b b1 _ eq_refl eq_refl Hf2)) as (fs3 & HS & Hs3 & Hman3).
  change (pro_num_ (set_queue b None)) with (pro_num_ b). rewrite Hk. fold b1. fold v. rewrite HS. cbn [mbind option_bind].
  assert (Hi : InitLogFile (set_version b1 v) = Some (set_opened (set_block_offset (set_version b1 v) 0) true)).
  { unfold InitLogFile. cbn [set_version b1 set_pro_num set_queue queue_ mbind option_bind].
    by rewrite (Filesize_holds fs1 q1 []) by (done || unfold is_u64; simpl; lia). }
  rewrite Hi. cbn [mbind option_bind]. eexists _, _. split; [done|]. split.
  2: { rewrite (sb_names _ _ _ Hs3), (sb_names _ _ _ Hs2), Efs1. simpl. repeat split; try done. by apply insert_subseteq. }
  assert (Hl1 : Z.of_nat (length ((old ++ [cur]) ++ [([], [])])) <= 2 ^ 32) by (rewrite length_app, Hlen; unfold k; simpl; lia).
  assert (Hrw : fd <> rw_fd (versionfile_ b)).
  { intros ->. destruct (hf_manifest _ _ _ Hf) as ([x Hx] & _). congruence. }
  constructor; try done.
  - rewrite Hlen. unfold k. lia.
  - apply (holds_files_at _ b); [done..|]. by apply (holds_files_save fs2).
  - exists q1. split; [done|]. split; [|by left]. apply (mm_holds_frame fs1); [|done]. rewrite Hfd1.
    rewrite (same_but_contents _ _ _ fd Hs3), (same_but_contents _ _ _ fd Hs2); done.
  - rewrite (sb_names _ _ _ Hs3), (sb_names _ _ _ Hs2), Efs1, Hlen. unfold log_fd. cbn. rewrite Hfd1. apply lookup_insert_eq.
  - by rewrite Hlen.
  - apply (Hman3 (version_ b)). apply (manifest_frame fs fs2 b); try done.
    + rewrite (same_but_contents _ _ _ _ Hs2) by (unfold log_fd in Hnm; rewrite Hq in Hnm; by apply not_eq_sym).
      apply contents_same. rewrite Efs1. simpl. by rewrite lookup_insert_ne.
    + intros p Hpk. rewrite (sb_names _ _ _ Hs2), Efs1. simpl. by rewrite lookup_insert_ne by (apply not_eq_sym, Hpk).
  - apply Forall_app. split; [done|]. by apply Forall_singleton.
Qed.

(** What [Put] writes: the item with the place and the index it should have. *)
Definition put_item (b : Binlog) (now : Z) (content : bytes) : bytes :=
  BinlogEncode TypeFirst (u32 now) (ver_term (version_ b)) (u64 (ver_logic_id (version_ b) + 1))
    (ver_pro_num (version_ b)) (ver_pro_offset (version_ b)) content.

Lemma put_item_nonempty b now content : put_item b now content <> [].
Proof.
  intros E. pose proof (BinlogEncode_length TypeFirst (u32 now) (ver_term (version_ b)) (u64 (ver_logic_id (version_ b) + 1))
    (ver_pro_num (version_ b)) (ver_pro_offset (version_ b)) content) as HL. unfold put_item in E. rewrite E in HL.
  unfold BINLOG_ENCODE_LEN in HL. simpl in HL. lia.
Qed.

(** The items of a log, oldest first. *)
Definition log_items (files : list logfile) : list bytes := concat (fst <$> files).

(** One log continues another, by [new] items. *)
Record grows (files files' : list logfile) (new : list bytes) : Prop := {
  gr_file : forall k f, files !! k = Some f -> exists items text,
    files' !! k = Some (f.1 ++ items, f.2 ++ text) /\ logged (len f.2) items text;
  gr_before : forall k, (k < length files)%nat -> log_items (take k files') = log_items (take k files);
  gr_items : log_items files' = log_items files ++ new
}.

(** In the last file, and with a new one. *)
Lemma grows_last old items data item text :
  item <> [] -> framed (len data) true item text ->
  grows (old ++ [(items, data)]) (old ++ [(items ++ [item], data ++ text)]) [item].
Proof.
  intros Hne Hf. constructor.
  - intros k f Hk. apply lookup_app_Some in Hk as [Hk|[Hge Hk]].
    + exists [], []. rewrite !app_nil_r. destruct f. split; [by apply lookup_app_l_Some|constructor].
    + apply list_lookup_singleton_Some in Hk as [E <-]. exists [item], text. split; [|by apply logged_one].
      rewrite lookup_app_r by done. by rewrite E.
  - intros k Hk. rewrite length_app in Hk. simpl in Hk. by rewrite !take_app_le by lia.
  - unfold log_items. rewrite !fmap_app, !concat_app. simpl. by rewrite !app_nil_r, <- app_assoc.
Qed.

Lemma grows_new files f' new : f'.1 = new -> grows files (files ++ [f']) new.
Proof.
  intros <-. constructor.
  - intros k f Hk. exists [], []. rewrite !app_nil_r. destruct f. split; [by apply lookup_app_l_Some|constructor].
  - intros k Hk. by rewrite take_app_le by lia.
  - unfold log_items. rewrite fmap_app, concat_app. simpl. by rewrite app_nil_r.
Qed.

(** Room for the content: the offsets in a file are [int]. *)
Definition room (b : Binlog) (content : bytes) : Prop := file_size_ b + 2 * (34 + len content) + 23 < 2 ^ 31.

(** One item more, in the current file or in a new one. *)
Lemma Put_ok fs b now content old cur :
  log_inv fs b old cur -> room b content -> Z.of_nat (length old) + 1 < 2 ^ 32 ->
  exists fs' b' old' cur', Put fs b now content = Some (POk, fs', b') /\ log_inv fs' b' old' cur' /\
    grows (old ++ [cur]) (old' ++ [cur']) [put_item b now content] /\ names fs ⊆ names fs' /\
    (length old <= length old' <= S (length old))%nat /\
    ver_logic_id (version_ b') = u64 (ver_logic_id (version_ b) + 1) /\
    ver_term (version_ b') = ver_term (version_ b) /\ filename_ b' = filename_ b /\ file_size_ b' = file_size_ b.
Proof.
  intros HI Hroom Hn. pose proof HI as [Ho _ Hsz _ _ (q & Hq & Hm & _) _ _ _ _ _ Hbd].
  assert (Hb : len cur.2 < 2 ^ 31) by (apply Forall_app in Hbd as [_ Hx]; by inversion Hx). unfold Put, GetProducerStatus. rewrite Ho. cbn [negb].
  fold (put_item b now content). set (item := put_item b now content).
  assert (Hlen : len item = 34 + len content) by (unfold item, put_item; by rewrite BinlogEncode_length).
  assert (Hne : item <> []) by apply put_item_nonempty. unfold room in Hroom.
  rewrite (proj2 (Z.ltb_ge _ _)) by (unfold INT32_MAX; lia). unfold Put_raw.
  assert (HW : forall fs1 b1 old1 items1 data1, log_inv fs1 b1 old1 (items1, data1) -> len data1 <= file_size_ b ->
    exists fs' b' text, write_item fs1 b1 now item = Some (POk, fs', b') /\ log_inv fs' b' old1 (items1 ++ [item], data1 ++ text) /\
      framed (len data1) true item text /\ ver_logic_id (version_ b') = u64 (ver_logic_id (version_ b1) + 1) /\
      ver_term (version_ b') = ver_term (version_ b1) /\ filename_ b' = filename_ b1 /\ file_size_ b' = file_size_ b1 /\
      names fs1 ⊆ names fs').
  { intros fs1 b1 old1 items1 data1 HI1 Hd.
    destruct (write_item_ok fs1 b1 now old1 items1 data1 item HI1 Hne ltac:(lia)) as (fs' & b' & text & Hw & HI' & Hfr & Hrest).
    by exists fs', b', text. }
  destruct (Z.lt_ge_cases (file_size_ b) (len cur.2)) as [Hlt|Hge].
  - destruct (roll_file_ok fs b old cur HI Hn Hlt) as (fs1 & b1 & -> & HI1 & Ev1 & Ev2 & Ev3 & Ev4 & Ev5).
    cbn [mbind option_bind]. change (pok POk) with true. cbn [negb].
    destruct (HW fs1 b1 (old ++ [cur]) [] [] HI1 ltac:(simpl; lia)) as (fs' & b' & text & -> & HI' & Hfr & E1 & E2 & E3 & E4 & E5).
    cbn [mbind option_bind]. change (pok POk) with true. cbn [negb].
    exists fs', b', (old ++ [cur]), ([item], text). split; [done|]. split; [done|].
    split; [by apply grows_new|]. split; [by etrans|].
    rewrite length_app. simpl. split; [lia|]. split; [congruence|]. split; [congruence|]. split; congruence.
  - assert (HR : roll_file fs b = Some (POk, fs, b)).
    { unfold roll_file. rewrite Hq. cbn [mbind option_bind]. rewrite (Filesize_holds fs q cur.2) by (done || unfold is_u64; lia).
      by rewrite (proj2 (Z.ltb_ge _ _)) by lia. }
    rewrite HR. cbn [mbind option_bind]. change (pok POk) with true. cbn [negb]. destruct cur as [items data].
    destruct (HW fs b old items data HI Hge) as (fs' & b' & text & -> & HI' & Hfr & E1 & E2 & E3 & E4 & E5).
    cbn [mbind option_bind]. change (pok POk) with true. cbn [negb].
    exists fs', b', old, (items ++ [item], data ++ text). split; [done|]. split; [done|].
    split; [by apply grows_last|]. split; [done|]. split; [lia|]. done.
Qed.

End Put.
