(* ===== verification/BinlogGet.v ===== *)
(** * Getting the items of a log

    A reader that has been placed with [Seek] gets the items of all the files in
    order, one [Get] each, and then the end. *)

From S2P Require Import Prelude Numbers Env EnvSpec Transverter Binlog BinlogSpec BinlogLog.
Open Scope Z_scope.

(** The reader is in the [k]th file, in front of [rest], and [todo] is still to
    be read. *)
Record rd_at_file (fs : FS) (b : Binlog) (files : list logfile) (r : PikaBinlogReader) (k : nat) (todo : list bytes)
    (f : logfile) (fd : nat) (td tr : bytes) (rest : list bytes) : Prop := {
  ra_file : files !! k = Some f;
  ra_text : f.2 = td ++ tr;
  ra_done : exists dn, f.1 = dn ++ rest /\ logged 0 dn td;
  ra_rest : logged (len td) rest tr;
  ra_name : names fs !! log_name b k = Some fd;
  ra_contents : exists z, contents fs fd = f.2 ++ zeros z;
  ra_reads : reads r fd (len td);
  ra_num : cur_filenum_ r = Z.of_nat k;
  ra_logger : logger_ r = true;
  ra_todo : todo = rest ++ log_items (drop (S k) files)
}.

Definition rd_inv (fs : FS) (b : Binlog) (files : list logfile) (r : PikaBinlogReader) (todo : list bytes) : Prop :=
  exists k f fd td tr rest, rd_at_file fs b files r k todo f fd td tr rest.

(** The start of a file. *)
Lemma rd_start fs b files k f :
  holds_files fs b files -> files !! k = Some f ->
  exists fd, names fs !! log_name b k = Some fd /\
    rd_at_file fs b files (mkReader (Z.of_nat k) 0 0 true (Some (mkSequential fd 0))) k
      (f.1 ++ log_items (drop (S k) files)) f fd [] f.2 f.1.
Proof.
  intros Hf Hk. destruct (hf_file _ _ _ Hf k f Hk) as (fd & z & Hn & Hc & Hg). exists fd. split; [done|].
  constructor; try done; [exists []; split; [done|constructor]|by exists z|]. constructor; try done. by left.
Qed.

(** There are at least as many names as files. *)
Lemma files_names fs b files :
  holds_files fs b files -> Z.of_nat (length files) <= 2 ^ 32 -> (length files <= size (names fs))%nat.
Proof.
  intros Hf Hl. rewrite <- size_dom.
  assert (Hs : list_to_set (log_name b <$> seq 0 (length files)) ⊆ dom (names fs)).
  { intros p. rewrite elem_of_list_to_set, list_elem_of_fmap. intros (k & -> & [_ Hk]%elem_of_seq). simpl in Hk.
    destruct (lookup_lt_is_Some_2 files k Hk) as (f & Hfk). destruct (hf_file _ _ _ Hf k f Hfk) as (fd & z & Hn & _).
    by apply elem_of_dom_2 in Hn. }
  apply subseteq_size in Hs. rewrite size_list_to_set, length_fmap, length_seq in Hs; [done|].
  apply NoDup_fmap_2_strong; [|apply NoDup_seq].
  intros i j [_ Hi]%elem_of_seq [_ Hj]%elem_of_seq E. apply log_name_inj in E; lia.
Qed.

Section Get.
Context `{L : PosixLaws}.

Lemma log_items_drop files k (f : logfile) : files !! k = Some f ->
  log_items (drop k files) = f.1 ++ log_items (drop (S k) files).
Proof. intros H0. rewrite (drop_S _ _ _ H0). done. Qed.

(** What one [Get] does with the items that are left. *)
Definition get_result (fs : FS) (b : Binlog) (files : list logfile) (todo : list bytes)
    (res : option (PStatus * bytes * PikaBinlogReader * (Z * Z))) : Prop :=
  match todo with
  | [] => exists r out, res = Some (PEndFile, [], r, out) /\ rd_inv fs b files r []
  | item :: todo => exists r, res = Some (POk, item, r, (cur_filenum_ r, cur_offset_ r)) /\ rd_inv fs b files r todo
  end.

Lemma get_loop_step fuel fs b old cur r k todo f fd td tr rest out :
  log_inv fs b old cur -> rd_at_file fs b (old ++ [cur]) r k todo f fd td tr rest ->
  (length old - k < fuel)%nat ->
  get_result fs b (old ++ [cur]) todo (get_loop fuel fs b r [] out).
Proof.
  revert r k todo f fd td tr rest out. induction fuel as [|fuel IH]; intros r k todo f fd td tr rest out HI Hr Hf; [lia|].
  pose proof Hr as [Hk Ht (dn & Hdn & Hgd) Hg Hn (z & Hc) Hrd Hnum Hlg Htd].
  destruct HI as [Ho Hp Hsz Hcn Hfs Hq Hcur Hpn [Hv1 Hv2] Hids Hman Hbd] eqn:EI. clear EI.
  assert (Hkl : (k < length (old ++ [cur]))%nat) by (by eapply lookup_lt_Some). rewrite length_app in Hkl. simpl in Hkl.
  assert (Hfb : len f.2 < 2 ^ 31) by (rewrite Forall_lookup in Hbd; by apply (Hbd k)).
  rewrite Ht, length_app in Hfb.
  cbn [get_loop]. unfold ReadToTheEnd, GetProducerStatus. rewrite Ho. cbn [negb mbind option_bind].
  rewrite Hv1, Hpn, Hv2, Hnum, (rs_offset _ _ _ Hrd).
  destruct rest as [|item rest].
  - inversion Hg; subst. rewrite app_nil_r in *. simpl app.
    destruct (Z.eqb_spec (Z.of_nat (length old)) (Z.of_nat k)) as [E|E].
    + assert (k = length old) as -> by lia. rewrite lookup_app_r, Nat.sub_diag in Hk by lia. injection Hk as <-.
      rewrite Ht, Z.eqb_refl. cbn [andb]. rewrite drop_ge in * by (rewrite length_app; simpl; lia). eexists _, _. split; [done|]. by eexists _, _, _, _, _, _.
    + cbn [andb]. rewrite Ht in Hc.
      destruct (Consume_end fs r fd td z [] [] out (length (contents fs fd)) Hrd Hc) as (r1 & HC & Hn1 & Hl1); [unfold kBlockSize; lia|].
      unfold consume_fuel, read_fuel. rewrite (rs_queue _ _ _ Hrd). cbn [file_]. rewrite HC. cbn [mbind option_bind].
      rewrite bool_decide_eq_true_2 by done. rewrite Hn1, Hnum.
      assert (Hnext : u32 (Z.of_nat k + 1) = Z.of_nat (S k)) by (unfold u32; rewrite Z.mod_small; lia). rewrite Hnext.
      destruct (lookup_lt_is_Some_2 (old ++ [cur]) (S k)) as (f' & Hf'); [rewrite length_app; simpl; lia|].
      destruct (rd_start fs b _ (S k) f' Hfs Hf') as (fd' & Hn' & Hr').
      assert (Hname : c_str (NewFileName (filename_ b) (Z.of_nat (S k))) = log_name b (S k)) by (apply log_name_file; [done|lia]).
      unfold FileExists. rewrite Hname, Hn', bool_decide_eq_true_2 by done.
      rewrite (NewSequential_ok fs _ fd') by (by rewrite Hname). rewrite Hl1, Hlg.
      rewrite (log_items_drop _ _ _ Hf').
      eapply IH; [by constructor|exact Hr'|lia].
  - inversion Hg as [|? ? ? text rest' Hne Hfr Hg']; subst. rewrite length_app in Hfb. pose proof (framed_nonempty _ _ _ _ Hfr).
    replace ((_ =? _) && (_ =? _)) with false.
    2: { symmetry. apply andb_false_iff. destruct (Z.eqb_spec (Z.of_nat (length old)) (Z.of_nat k)) as [E|E]; [right|by left].
         assert (k = length old) as -> by lia. rewrite lookup_app_r, Nat.sub_diag in Hk by lia. injection Hk as <-.
         apply Z.eqb_neq. rewrite Ht, !length_app. lia. }
    unfold consume_fuel, read_fuel. rewrite (rs_queue _ _ _ Hrd). cbn [file_].
    destruct (Consume_framed _ _ _ _ Hfr fs r fd td (rest' ++ zeros z) [] [] out (S (length (contents fs fd))) Hrd eq_refl)
      as (r1 & HC & Hr1 & Hn1 & Hl1); try done.
    + by rewrite Hc, Ht, <- !app_assoc.
    + rewrite Hc, Ht, !length_app. lia.
    + unfold kBlockSize. lia.
    + rewrite HC. cbn [mbind option_bind]. change (bool_decide (POk = PEndFile)) with false. cbv iota. simpl app.
      exists r1. rewrite Hn1, Hnum, (rs_offset _ _ _ Hr1). split; [done|].
      exists k, f, fd, (td ++ text), rest', rest. constructor; try done.
      * by rewrite <- app_assoc.
      * exists (dn ++ [item]). rewrite <- app_assoc. split; [done|]. apply logged_app; [done|]. by apply logged_one.
      * rewrite length_app, Nat2Z.inj_add. done.
      * by exists z.
      * rewrite length_app, Nat2Z.inj_add. done.
      * congruence.
      * congruence.
Qed.

Lemma Get_step fs b old cur r todo scratch out :
  log_inv fs b old cur -> rd_inv fs b (old ++ [cur]) r todo ->
  get_result fs b (old ++ [cur]) todo (Get fs b r scratch out).
Proof.
  intros HI (k & f & fd & td & tr & rest & Hr). unfold Get. rewrite (ra_logger _ _ _ _ _ _ _ _ _ _ _ Hr).
  rewrite (rs_queue _ _ _ (ra_reads _ _ _ _ _ _ _ _ _ _ _ Hr)), bool_decide_eq_true_2 by done. cbn [negb orb].
  eapply get_loop_step; [done..|]. pose proof (files_names fs b _ (li_files _ _ _ _ HI)) as Hsz.
  pose proof (li_count _ _ _ _ HI). rewrite length_app in Hsz. simpl in Hsz. lia.
Qed.

(** The reader at the start of the log. *)
Lemma Seek_first fs b old cur r :
  log_inv fs b old cur ->
  exists r', Seek fs b r 0 0 = Some (0, r') /\ rd_inv fs b (old ++ [cur]) r' (log_items (old ++ [cur])).
Proof.
  intros HI. destruct (lookup_lt_is_Some_2 (old ++ [cur]) 0) as (f & Hf); [rewrite length_app; simpl; lia|].
  destruct (rd_start fs b _ 0 f (li_files _ _ _ _ HI) Hf) as (fd & Hn & Hr).
  assert (Hname : c_str (NewFileName (filename_ b) 0) = log_name b 0) by (apply (log_name_file b 0); [apply HI|lia]).
  unfold Seek, FileExists. rewrite Hname, Hn, bool_decide_eq_true_2 by done. cbn [negb].
  rewrite (NewSequential_ok fs _ fd) by (by rewrite Hname). change (0 / kBlockSize * kBlockSize) with 0.
  rewrite Skip_ok by lia. cbv iota beta. cbn. eexists. split; [done|].
  exists 0%nat, f, fd, [], f.2, f.1. pose proof (log_items_drop _ _ _ Hf) as E. rewrite drop_0 in E. rewrite E. exact Hr.
Qed.

End Get.

(** ** Finding a place

    [Seek] to the end of an item, in any file: it walks from the start of the
    block over whole records and stops there. *)

(** A boundary of blocks behind [pos] is behind the block of [pos]. *)
Lemma boundary_behind pos B : B mod kBlockSize = 0 -> pos < B -> pos + leftover pos <= B.
Proof.
  intros HB Hlt. unfold leftover, kBlockSize in *. pose proof (Z.div_mod pos (64 * 1024) ltac:(lia)).
  pose proof (Z.div_mod B (64 * 1024) ltac:(lia)). pose proof (Z.mod_pos_bound pos (64 * 1024) ltac:(lia)). nia.
Qed.

(** A frame that crosses a boundary of blocks has a frame from there on. *)
Lemma framed_split pos first item text B :
  framed pos first item text -> B mod kBlockSize = 0 -> pos < B < pos + len text ->
  exists pre text2 first2 item2, text = pre ++ text2 /\ len pre = B - pos /\ framed B first2 item2 text2.
Proof.
  intros Hf HB. induction Hf as [pos first item text Hl Hf IH|pos first item now Hl|pos first frag item text now Hl Hne Hf IH]; intros Hr;
    pose proof (boundary_behind pos B HB ltac:(lia)) as Hb.
  - assert (Hz : len (zeros (Z.to_nat (leftover pos))) = leftover pos)
      by (unfold zeros; rewrite length_replicate; pose proof (leftover_range pos); lia).
    rewrite length_app in Hr. destruct (Z.eq_dec (pos + leftover pos) B) as [<-|N].
    + eexists _, text, first, item. split; [done|]. split; [lia|done].
    + destruct IH as (pre & text2 & first2 & item2 & -> & Hp & Hf2); [lia|].
      exists (zeros (Z.to_nat (leftover pos)) ++ pre), text2, first2, item2. rewrite length_app, <- app_assoc. split; [done|]. split; [lia|done].
  - rewrite length_app, length_header in Hr. unfold kHeaderSize in *. lia.
  - rewrite !length_app, length_header in Hr. unfold kHeaderSize in *. destruct (Z.eq_dec (pos + leftover pos) B) as [<-|N].
    + eexists (_ ++ frag), text, false, item. rewrite length_app, <- app_assoc, length_header. split; [done|]. split; [lia|done].
    + destruct IH as (pre & text2 & first2 & item2 & -> & Hp & Hf2); [lia|].
      exists ((record_header (len frag) now (record_type first false) ++ frag) ++ pre), text2, first2, item2.
      rewrite !length_app, <- !app_assoc, length_header. split; [done|]. split; [lia|done].
Qed.

(** What follows a boundary of blocks: the rest of a frame, then items. *)
Lemma logged_split pos items text B :
  logged pos items text -> B mod kBlockSize = 0 -> pos <= B <= pos + len text ->
  exists pre text2 items3 text3, text = pre ++ text2 ++ text3 /\ len pre = B - pos /\
    (text2 = [] \/ exists first2 item2, framed B first2 item2 text2) /\ logged (B + len text2) items3 text3.
Proof.
  intros Hg HB. induction Hg as [pos|pos item items text rest Hne Hf Hg IH]; intros Hr.
  - exists [], [], [], []. simpl in Hr. split; [done|]. split; [simpl; lia|]. split; [by left|constructor].
  - rewrite length_app in Hr. destruct (Z.eq_dec pos B) as [<-|N].
    + exists [], [], (item :: items), (text ++ rest). split; [done|]. split; [simpl; lia|]. split; [by left|].
      rewrite Z.add_0_r. by constructor.
    + destruct (Z.lt_ge_cases B (pos + len text)) as [Hlt|Hge].
      * destruct (framed_split _ _ _ _ B Hf HB ltac:(lia)) as (pre & text2 & f2 & i2 & -> & Hp & Hf2).
        exists pre, text2, items, rest. rewrite <- app_assoc. split; [done|]. split; [done|]. split; [right; by eexists _, _|].
        rewrite length_app in Hg. by replace (B + len text2) with (pos + Z.of_nat (length pre + length text2)) by lia.
      * destruct IH as (pre & text2 & items3 & text3 & -> & Hp & Ht & Hg3); [lia|].
        exists (text ++ pre), text2, items3, text3. rewrite length_app, <- app_assoc. split; [done|]. split; [lia|]. done.
Qed.

(** A frame that ends inside its block is one record, and [GetNext] goes over
    it. *)
Lemma GetNext_frame fuel fs fd pre text post first item off :
  framed (len pre) first item text -> len text < leftover (len pre) -> contents fs fd = pre ++ text ++ post ->
  GetNext (S fuel) fs (mkSequential fd (len pre)) off =
  Some (false, Some (off + len text), mkSequential fd (len (pre ++ text))).
Proof.
  intros Hf Hlt Hc. pose proof (leftover_range (len pre)) as Hlr.
  inversion Hf as [pos f i t Hl Hf' Ep|pos f i now Hl Ep|pos f frag i t now Hl Hne Hf' Ep]; subst.
  { exfalso. rewrite length_app in Hlt. unfold zeros in Hlt. rewrite length_replicate in Hlt. lia. }
  2: { exfalso. rewrite !length_app, length_header in Hlt. unfold kHeaderSize in *. lia. }
  rewrite <- app_assoc in Hc. cbn [GetNext].
  pose proof (Read_data fs fd pre _ _ Hc) as HR. change (len (record_header _ _ _)) with kHeaderSize in HR. rewrite HR. clear HR.
  change (pok POk) with true. cbn [negb].
  rewrite parse_header_record by (unfold kHeaderSize, kBlockSize in *; lia). cbn [mbind option_bind].
  rewrite (proj2 (Z.ltb_ge _ _)) by lia. rewrite app_assoc in Hc.
  rewrite (Read_data fs fd (pre ++ record_header (len item) now (record_type first true)) item post Hc).
  rewrite app_assoc, (length_app (record_header _ _ _)), length_header.
  by destruct first; cbn; do 4 f_equal; unfold kHeaderSize; lia.
Qed.

(** Over the items that end inside the block. *)
Lemma seek_items fs fd items : forall fuel pre text post B target,
  logged (len pre) items text -> contents fs fd = pre ++ text ++ post -> B mod kBlockSize = 0 -> B <= len pre ->
  len (pre ++ text) = B + target -> target < kBlockSize -> (length text <= fuel)%nat ->
  seek_loop fuel fs (mkSequential fd (len pre)) (len pre - B) target = Some (Some target, mkSequential fd (B + target)).
Proof.
  induction items as [|item items IH]; intros fuel pre text post B target Hg Hc HB Hle Ht Hlt Hf; inversion Hg as [|? ? ? t rest Hne Hfr Hg']; subst.
  - rewrite app_nil_r in Ht. destruct fuel; cbn [seek_loop]; rewrite (proj2 (Z.leb_le _ _)) by lia; repeat f_equal; lia.
  - pose proof (framed_nonempty _ _ _ _ Hfr) as Hpos. rewrite !length_app in Ht. rewrite length_app in Hf.
    destruct fuel as [|fuel]; [lia|]. cbn [seek_loop]. rewrite (proj2 (Z.leb_gt _ _)) by lia.
    unfold read_fuel. rewrite <- app_assoc in Hc.
    assert (Hlo : len t < leftover (len pre)).
    { assert (leftover (len pre) = kBlockSize - (len pre - B)); [|lia]. unfold leftover. f_equal.
      unfold kBlockSize in *. symmetry. apply (Z.mod_unique_pos _ _ (B / (64 * 1024))); [lia|].
      pose proof (Z.div_mod B (64 * 1024) ltac:(lia)). lia. }
    rewrite (GetNext_frame _ fs fd pre t (rest ++ post) true item) by done. cbn [mbind option_bind].
    replace (len pre - B + default 0 (Some (0 + len t))) with (len (pre ++ t) - B) by (simpl; rewrite length_app; lia).
    apply (IH fuel (pre ++ t) rest post); try done.
    + rewrite length_app, Nat2Z.inj_add. done.
    + by rewrite Hc, <- app_assoc.
    + rewrite length_app. lia.
    + rewrite !length_app. lia.
    + lia.
Qed.

Section Seek.
Context `{L : PosixLaws}.

(** To the end of any item. *)
Lemma Seek_item fs b old cur r k f dn rest td tr :
  log_inv fs b old cur -> (old ++ [cur]) !! k = Some f -> f.1 = dn ++ rest -> f.2 = td ++ tr -> logged 0 dn td -> logged (len td) rest tr ->
  exists r', Seek fs b r (Z.of_nat k) (len td) = Some (0, r') /\
    rd_inv fs b (old ++ [cur]) r' (rest ++ log_items (drop (S k) (old ++ [cur]))).
Proof.
  intros HI Hk Hdn Ht Hd Hr. pose proof (li_files _ _ _ _ HI) as Hfs.
  assert (Hkl : (k < length (old ++ [cur]))%nat) by (by eapply lookup_lt_Some). rewrite length_app in Hkl. simpl in Hkl.
  pose proof (li_count _ _ _ _ HI) as Hcn.
  destruct (hf_file _ _ _ Hfs k f Hk) as (fd & z & Hn & Hc & _).
  assert (Hfb : len f.2 < 2 ^ 31) by (pose proof (li_bound _ _ _ _ HI) as Hbd; rewrite Forall_lookup in Hbd; by apply (Hbd k)).
  rewrite Ht, length_app in Hfb.
  assert (Hname : c_str (NewFileName (filename_ b) (Z.of_nat k)) = log_name b k) by (apply log_name_file; [apply HI|lia]).
  unfold Seek, FileExists. rewrite Hname, Hn, bool_decide_eq_true_2 by done. cbn [negb].
  rewrite (NewSequential_ok fs _ fd) by (by rewrite Hname).
  set (B := len td / kBlockSize * kBlockSize). set (target := len td mod kBlockSize).
  assert (HBt : len td = B + target) by (unfold B, target; pose proof (Z.div_mod (len td) kBlockSize ltac:(done)); lia).
  assert (Htr : 0 <= target < kBlockSize) by (apply Z.mod_pos_bound; done).
  assert (HB0 : 0 <= B) by (unfold B; pose proof (Z.div_pos (len td) kBlockSize ltac:(lia) ltac:(done)); unfold kBlockSize in *; lia).
  assert (HBm : B mod kBlockSize = 0) by (apply Z.mod_mul; done).
  rewrite Skip_ok by lia. cbv iota beta.
  assert (HS : seek_loop (S (Z.to_nat target)) fs (mkSequential fd (0 + B)) 0 target = Some (Some target, mkSequential fd (B + target))).
  { destruct (logged_split 0 dn td B Hd HBm ltac:(lia)) as (pre & text2 & items3 & text3 & Etd & Hp & H2 & Hg3).
    rewrite Etd, !length_app in HBt. rewrite Ht, Etd, <- !app_assoc in Hc. replace (0 + B) with (len pre) by lia.
    destruct H2 as [->|(first2 & item2 & Hf2)].
    - simpl in Hg3, HBt. rewrite Z.add_0_r in Hg3. replace B with (len pre) in Hg3 by lia.
      pose proof (seek_items fs fd items3 (S (Z.to_nat target)) pre text3 (tr ++ zeros z) B target Hg3 Hc HBm) as HSI.
      replace (len pre - B) with 0 in HSI by lia. apply HSI; [lia|rewrite length_app; lia|lia|lia].
    - pose proof (framed_nonempty _ _ _ _ Hf2). cbn [seek_loop]. rewrite (proj2 (Z.leb_gt _ _)) by lia. unfold read_fuel.
      replace B with (len pre) in Hf2 by lia.
      rewrite (GetNext_frame _ fs fd pre text2 (text3 ++ tr ++ zeros z) first2 item2); [|done| |done].
      2: { replace (len pre) with B by lia. unfold leftover. rewrite HBm. lia. }
      cbn [mbind option_bind]. replace (0 + default 0 (Some (0 + len text2))) with (len (pre ++ text2) - B) by (simpl; rewrite length_app; lia).
      apply (seek_items fs fd items3 _ (pre ++ text2) text3 (tr ++ zeros z)); try done.
      + by replace (len (pre ++ text2)) with (B + len text2) by (rewrite length_app; lia).
      + by rewrite Hc, <- app_assoc.
      + rewrite length_app. lia.
      + rewrite !length_app. lia.
      + lia.
      + lia. }
  rewrite HS. cbn [mbind option_bind]. rewrite <- HBt. eexists. split; [done|].
  exists k, f, fd, td, tr, rest. constructor; try done; [by exists dn|by exists z|]. constructor; cbn; try done; [by left|lia].
Qed.

End Seek.

(** ** Opening a log

    A new log in a directory that has none, and a log found again: after it was
    closed, or as a process that stopped between two operations left it. *)

(** No log at [path] yet. *)
Record no_log (fs : FS) (path : bytes) : Prop := {
  nl_manifest : names fs !! (path ++ kManifest) = None;
  nl_files : forall k, Z.of_nat k < 2 ^ 32 -> names fs !! ((path ++ kBinlogPrefix) ++ decimal (Z.of_nat k)) = None;
  nl_inodes : forall p fd, names fs !! p = Some fd -> is_Some (inodes fs !! fd);
  nl_links : forall p p' fd, names fs !! p = Some fd -> names fs !! p' = Some fd -> p = p'
}.

Lemma path_manifest path : path_ok (path ++ kBinlogPrefix) -> c_str (path ++ kManifest) = path ++ kManifest.
Proof.
  intros [Hz _]. apply c_str_no_nul. intros [Hin|Hin]%elem_of_app; [set_solver|]. revert Hin.
  apply (bool_decide_eq_false (x00 ∈ kManifest)). done.
Qed.

Lemma Roundup_ge x y : 0 < y -> x <= Roundup x y.
Proof.
  intros Hy. unfold Roundup. pose proof (Z.mod_pos_bound (x + y - 1) y Hy). pose proof (Z.div_mod (x + y - 1) y ltac:(lia)). lia.
Qed.

Lemma fields_bytes a b c d rest :
  is_u32 a -> is_u64 b -> is_u64 c -> is_u32 d ->
  let p := ver_bytes (mkVersion a b c d) ++ rest in
  le_value (subseq 0 4 p) = a /\ le_value (subseq 4 8 p) = b /\ le_value (subseq 12 8 p) = c /\
  le_value (subseq 20 4 p) = d.
Proof.
  intros Ha Hb Hc Hd p. unfold p, ver_bytes. cbn [ver_pro_num ver_pro_offset ver_logic_id ver_term].
  assert (HS : forall n (x y : bytes) z, length x = n -> subseq n (length y) (x ++ y ++ z) = y).
  { intros n x y z <-. unfold subseq. by rewrite drop_app_length, take_app_length. }
  assert (HV : forall n v, 0 <= v < 2 ^ (8 * Z.of_nat n) -> le_value (le_bytes n v) = v).
  { intros n v Hv. by rewrite le_value_le_bytes, Z.mod_small. }
  split; [|split; [|split]].
  - pose proof (HS 0%nat [] (le_bytes 4 a) ((le_bytes 8 b ++ le_bytes 8 c ++ le_bytes 4 d) ++ rest) eq_refl) as E.
    rewrite length_le_bytes in E. rewrite <- !app_assoc in *. cbn [app] in E. rewrite E. by apply HV.
  - pose proof (HS 4%nat (le_bytes 4 a) (le_bytes 8 b) ((le_bytes 8 c ++ le_bytes 4 d) ++ rest) eq_refl) as E.
    rewrite length_le_bytes in E. rewrite <- !app_assoc in *. rewrite E. by apply HV.
  - pose proof (HS 12%nat (le_bytes 4 a ++ le_bytes 8 b) (le_bytes 8 c) (le_bytes 4 d ++ rest) eq_refl) as E.
    rewrite length_le_bytes in E. rewrite <- !app_assoc in *. rewrite E. by apply HV.
  - pose proof (HS 20%nat (le_bytes 4 a ++ le_bytes 8 b ++ le_bytes 8 c) (le_bytes 4 d) rest eq_refl) as E.
    rewrite length_le_bytes in E. rewrite <- !app_assoc in *. rewrite E. by apply HV.
Qed.

Section Open.
Context `{L : PosixLaws}.

(** The manifest of a new log. *)
Lemma NewRW_new fs path :
  names fs !! path = None -> c_str path = path ->
  exists fd c, NewRWFile fs path = (POk, mkFS (<[path := fd]> (names fs)) (<[fd := c]> (inodes fs)), Some (mkRW fd true)) /\
    inodes fs !! fd = None /\ exists rest, c = ver_bytes (mkVersion 0 0 0 0) ++ rest.
Proof.
  intros Hn Hp. unfold NewRWFile, open_file, posix_fallocate. rewrite open_fine, Hp, Hn. cbn [negb]. cbv iota beta zeta.
  rewrite fallocate_fine, mmap_fine. cbv iota beta zeta. set (fd := fresh (dom (inodes fs))).
  unfold set_contents, contents. cbn [names inodes]. rewrite lookup_insert_eq, insert_insert_eq. cbn [default]. unfold id. cbn [app length].
  pose proof (Roundup_ge 65536 getpagesize page_positive) as HR.
  eexists fd, _. split; [done|]. split; [apply not_elem_of_dom, is_fresh|].
  exists (replicate (Z.to_nat (0 + Roundup 65536 getpagesize) - 0 - 24) x00).
  change (ver_bytes (mkVersion 0 0 0 0)) with (replicate 24 x00). rewrite <- replicate_add. f_equal. lia.
Qed.

Lemma manifest_no_log path k : path ++ kManifest <> (path ++ kBinlogPrefix) ++ decimal (Z.of_nat k).
Proof. rewrite <- app_assoc. intros E%app_inv_head. discriminate. Qed.

(** The files of a log that has just been made: one empty file and the manifest. *)
Lemma holds_files_fresh fs fs' path b fd fd1 c :
  no_log fs path -> filename_ b = path ++ kBinlogPrefix -> rw_fd (versionfile_ b) = fd1 -> rw_mapped (versionfile_ b) = true ->
  inodes fs !! fd = None -> inodes fs !! fd1 = None -> fd <> fd1 ->
  names fs' = <[path ++ kManifest := fd1]> (<[(path ++ kBinlogPrefix) ++ decimal 0 := fd]> (names fs)) ->
  inodes fs' = <[fd1 := c]> (<[fd := []]> (inodes fs)) -> holds_files fs' b [([], [])].
Proof.
  intros [Hm Hf Hi Hl] Hname Hrw Hmap Hfd Hfd1 Hne HN HI.
  assert (Hml := manifest_no_log path).
  constructor; unfold log_name; rewrite ?Hname, ?Hrw, ?Hmap, ?HN.
  + intros k f Hk. apply list_lookup_singleton_Some in Hk as [-> <-]. exists fd, 0%nat.
    rewrite lookup_insert_ne by apply (Hml 0%nat). rewrite lookup_insert_eq. split; [done|].
    split; [|constructor]. unfold contents. rewrite HI, lookup_insert_ne by done. by rewrite lookup_insert_eq.
  + intros k Hk Hk'. simpl in Hk. rewrite lookup_insert_ne by apply Hml. rewrite lookup_insert_ne; [by apply Hf|].
    intros E%app_inv_head%decimal_inj; unfold is_i64; lia.
  + intros p fd' Hp'. rewrite HI.
    destruct (decide (fd' = fd1)) as [->|N1]; [by rewrite lookup_insert_eq|]. rewrite !lookup_insert_ne by done.
    apply lookup_insert_Some in Hp' as [[_ E]|[_ Hp']]; [congruence|].
    apply lookup_insert_Some in Hp' as [[_ <-]|[_ Hp']]; [by rewrite lookup_insert_eq|].
    destruct (decide (fd' = fd)) as [->|N]; [by rewrite lookup_insert_eq|]. rewrite lookup_insert_ne by done. by eapply Hi.
  + assert (Hno : forall p, names fs !! p <> Some fd /\ names fs !! p <> Some fd1).
    { intros p. split; intros E%Hi; destruct E; congruence. }
    intros p p' fd' [[<- <-]|[N1 Hp1]]%lookup_insert_Some [[<- E']|[N2 Hp2]]%lookup_insert_Some; try done.
    * apply lookup_insert_Some in Hp2 as [[_ E]|[_ E]]; [by destruct Hne|by apply Hno in E].
    * subst fd'. apply lookup_insert_Some in Hp1 as [[_ E]|[_ E]]; [by destruct Hne|by apply Hno in E].
    * apply lookup_insert_Some in Hp1 as [[<- <-]|[N3 Hp1]]; apply lookup_insert_Some in Hp2 as [[<- E']|[N4 Hp2]]; try done.
      -- by apply Hno in Hp2.
      -- subst fd'. by apply Hno in Hp1.
      -- by eapply Hl.
  + split; [|split; [done|]].
    * rewrite HI. by rewrite lookup_insert_eq.
    * intros k Hk. rewrite lookup_insert_ne by apply Hml. intros [[_ E]|[_ E]]%lookup_insert_Some; [done|].
      apply Hi in E as [x Hx]. congruence.
Qed.

Lemma Binlog_new_ok fs path size :
  no_log fs path -> path_ok (path ++ kBinlogPrefix) -> 0 <= size < 2 ^ 31 ->
  exists fs' b, Binlog_new fs path size = Some (fs', b) /\ log_inv fs' b [] ([], []) /\
    version_ b = mkVersion 0 0 0 0 /\ file_size_ b = size /\ filename_ b = path ++ kBinlogPrefix.
Proof.
  intros Hnl Hp Hs. pose proof Hnl as [Hm Hf _ _]. pose proof (path_manifest path Hp) as Hpm. unfold Binlog_new, FileExists. rewrite Hpm, Hm.
  rewrite bool_decide_eq_false_2 by (by intros [? ?]). cbn [negb].
  set (filename := path ++ kBinlogPrefix) in *.
  assert (Hname : c_str (NewFileName filename 0) = filename ++ decimal 0) by (apply NewFileName_path; [done|unfold is_i64; lia]).
  destruct (NewWritable_holds fs (NewFileName filename 0)) as (fd & fs1 & q & -> & Hfd & Hnew & Efs1 & Hmm).
  { rewrite Hname. apply (Hf 0%nat). lia. }
  cbn [mbind option_bind]. change (pok POk) with true. cbn [negb].
  pose proof (manifest_no_log path) as Hml.
  destruct (NewRW_new fs1 (path ++ kManifest)) as (fd1 & c & -> & Hnew1 & rest & Ec).
  { rewrite Efs1, Hname. simpl. rewrite lookup_insert_ne by (apply not_eq_sym, (Hml 0%nat)). done. } { done. }
  cbn [mbind option_bind]. unfold StableSave. cbn [rw_mapped rw_fd negb].
  set (fs2 := mkFS _ _). assert (Hc2 : contents fs2 fd1 = ver_bytes (mkVersion 0 0 0 0) ++ rest).
  { unfold contents, fs2. simpl. by rewrite lookup_insert_eq, Ec. }
  rewrite Hc2, save_bytes. cbn [mbind option_bind]. unfold InitLogFile. cbn [queue_ mbind option_bind].
  rewrite (Filesize_holds fs1 q []) by (done || unfold is_u64; simpl; lia). cbn [mbind option_bind].
  eexists _, _. split; [done|]. rewrite u64_id by (unfold is_u64; lia). split; [|done].
  assert (Hne : fd <> fd1) by (intros ->; rewrite Efs1 in Hnew1; simpl in Hnew1; by rewrite lookup_insert_eq in Hnew1).
  assert (HN : names fs2 = <[path ++ kManifest := fd1]> (<[filename ++ decimal 0 := fd]> (names fs)))
    by (unfold fs2; simpl; by rewrite Efs1, Hname).
  assert (HI2 : inodes fs2 = <[fd1 := c]> (<[fd := []]> (inodes fs))) by (unfold fs2; simpl; by rewrite Efs1).
  assert (Hfd1 : inodes fs !! fd1 = None) by (rewrite Efs1 in Hnew1; simpl in Hnew1; by rewrite lookup_insert_ne in Hnew1).
  set (fs3 := set_contents fs2 fd1 _). assert (Hc3 : contents fs3 fd = []).
  { unfold fs3, contents, set_contents. cbn [inodes]. rewrite lookup_insert_ne by done. rewrite HI2, lookup_insert_ne by done.
    by rewrite lookup_insert_eq. }
  assert (HN3 : names fs3 = names fs2) by done.
  constructor; try done.
  - cbn. lia.
  - eapply (holds_files_fresh fs fs3 path _ fd fd1); [exact Hnl|done|done|done|exact Hnew|exact Hfd1|exact Hne|by rewrite HN3|].
    unfold fs3, set_contents. cbn [inodes]. by rewrite HI2, insert_insert_eq.
  - exists q. split; [done|]. split; [|by left]. apply (mm_holds_frame fs1); [|done]. rewrite Hfd, Hc3.
    unfold contents. rewrite Efs1. simpl. by rewrite lookup_insert_eq.
  - rewrite HN3, HN. unfold log_name, log_fd. cbn. rewrite lookup_insert_ne by apply (Hml 0%nat). rewrite Hfd. apply lookup_insert_eq.
  - exists path, rest. split; [done|]. split; [by rewrite HN3, HN, lookup_insert_eq|]. apply contents_set.
  - by apply Forall_singleton.
Qed.

(** What is on the disk determines the log that is found there. *)
Lemma Binlog_found fs b old cur path size :
  log_inv fs b old cur -> filename_ b = path ++ kBinlogPrefix -> 0 <= size < 2 ^ 31 ->
  exists fs' b', Binlog_new fs path size = Some (fs', b') /\ log_inv fs' b' old cur /\
    version_ b' = version_ b /\ file_size_ b' = size /\ filename_ b' = filename_ b.
Proof.
  intros HI Hpath Hs. pose proof (log_fd_manifest _ _ _ _ HI) as Hnm.
  destruct HI as [Ho Hp Hsz Hcn Hf (q & Hq & (z & Hmm) & Ha) Hc Hn [Hv1 Hv2] [Hi1 Hi2] Hman Hbd]. destruct Hman as (path' & rest & Hpath' & Hmn & Hmc).
  assert (path' = path) as -> by (rewrite Hpath in Hpath'; by apply app_inv_tail in Hpath').
  assert (Hpm : c_str (path ++ kManifest) = path ++ kManifest) by (apply path_manifest; by rewrite <- Hpath).
  assert (Hb : len cur.2 < 2 ^ 31) by (apply Forall_app in Hbd as [_ Hx]; by inversion Hx).
  unfold Binlog_new, FileExists. rewrite Hpm, Hmn, bool_decide_eq_true_2 by done. cbn [negb].
  unfold NewRWFile, open_file, posix_fallocate. rewrite open_fine, Hpm, Hmn. cbn [negb]. cbv iota beta zeta.
  rewrite fallocate_fine, mmap_fine. cbv iota beta zeta. cbn [mbind option_bind andb].
  set (rw := rw_fd (versionfile_ b)) in *. set (c' := contents fs rw ++ _). set (fs1 := set_contents fs rw c').
  assert (Hs1 : same_but rw fs fs1) by apply same_but_set.
  assert (Hc1 : exists rest', contents fs1 rw = ver_bytes (version_ b) ++ rest').
  { unfold fs1. rewrite contents_set. unfold c'. rewrite Hmc, <- app_assoc. by eexists. }
  destruct Hc1 as (rest' & Hc1). unfold Version_Init. cbn [rw_mapped rw_fd snd]. rewrite Hc1.
  destruct (version_ b) as [vn vo vl vt] eqn:Ev. cbn [ver_pro_num ver_pro_offset ver_logic_id ver_term] in *.
  pose proof (fields_bytes vn vo vl vt rest' ltac:(unfold is_u32; lia) ltac:(unfold is_u64; lia) Hi1 Hi2) as (E1 & E2 & E3 & E4).
  rewrite E1, E2, E3, E4.
  assert (Hname : c_str (NewFileName (path ++ kBinlogPrefix) vn) = log_name b (length old))
    by (rewrite Hv1, Hn, <- Hpath; by apply log_name_file).
  assert (Hlf : log_fd b = fd_ q) by (unfold log_fd; by rewrite Hq).
  assert (Hcq : contents fs1 (fd_ q) = cur.2 ++ zeros z).
  { rewrite (same_but_contents _ _ _ _ Hs1) by congruence. apply (mm_contents _ _ _ _ Hmm). }
  destruct (AppendWritable_holds fs1 (NewFileName (path ++ kBinlogPrefix) vn) (fd_ q) cur.2 z) as (f & HA & Hfd & Hh);
    [by rewrite Hname, (sb_names _ _ _ Hs1), Hc, Hlf|done|].
  rewrite Hv2, HA. cbn [mbind option_bind]. change (pok POk) with true. cbn [negb].
  unfold InitLogFile. cbn [queue_ mbind option_bind]. rewrite (Filesize_holds fs1 f cur.2) by (done || unfold is_u64; lia).
  cbn [mbind option_bind]. eexists _, _. split; [done|]. rewrite u64_id by (unfold is_u64; lia).
  split; [|by rewrite <- Hv2]. constructor; try done;
    cbn [set_opened set_block_offset opened_ version_ queue_ versionfile_ pro_num_ file_size_ filename_ ver_pro_num].
  - by rewrite <- Hpath.
  - lia.
  - apply (holds_files_at _ (set_version b (version_ b))); [done| |].
    + cbn. unfold rw. destruct (hf_manifest _ _ _ Hf) as (_ & Hm & _). destruct (versionfile_ b); simpl in *. congruence.
    + apply (holds_files_at _ b); [done..|]. apply (holds_files_save fs); try done. rewrite length_app. simpl. lia.
  - exists f. split; [done|]. split; [done|]. left. cbn. rewrite i32_id; [done|].
    pose proof (Z.mod_pos_bound (len cur.2) kBlockSize ltac:(done)). unfold kBlockSize in *. lia.
  - rewrite (sb_names _ _ _ Hs1). unfold log_fd, log_name in *. rewrite Hq in Hc.
    cbn [filename_ queue_ set_opened set_block_offset]. by rewrite <- Hpath, Hfd.
  - congruence.
  - exists path, rest'. split; [done|]. split; [by rewrite (sb_names _ _ _ Hs1)|]. by rewrite <- Hv2.
Qed.

(** Closing a log leaves the same on the disk. *)
Lemma Binlog_destroy_ok fs b old cur :
  log_inv fs b old cur ->
  exists fs' b', Binlog_destroy fs b = Some fs' /\ log_inv fs' b' old cur /\
    version_ b' = version_ b /\ filename_ b' = filename_ b.
Proof.
  intros HI. pose proof (log_fd_manifest _ _ _ _ HI) as Hnm.
  destruct HI as [Ho Hp Hsz Hcn Hf (q & Hq & Hmm & Ha) Hc Hn [Hv1 Hv2] [Hi1 Hi2] Hman Hbd].
  assert (Hlf : log_fd b = fd_ q) by (unfold log_fd; by rewrite Hq). rewrite Hlf in *.
  assert (Hold : (old ++ [cur]) !! length old = Some cur) by (by rewrite lookup_app_r, Nat.sub_diag by lia).
  unfold Binlog_destroy, Binlog_Close. rewrite Ho. cbn [negb]. unfold reset_queue. cbn [set_opened queue_]. rewrite Hq.
  destruct (Close_holds fs q cur.2 Hmm) as (fs1 & z & -> & Hz & Hs1). cbn [snd set_queue set_opened versionfile_ version_].
  assert (Hf1 : holds_files fs1 b (old ++ [cur])).
  { rewrite <- (list_insert_id (old ++ [cur]) (length old) cur) by done.
    apply (holds_files_update fs fs1 b _ _ (fd_ q) z); try done; [rewrite length_app; simpl; lia..|].
    by destruct (hf_file _ _ _ Hf _ _ Hold) as (_ & _ & _ & _ & Hg). }
  destruct (save_version_ok fs1 b _ (version_ b) Hf1) as (fs2 & HS & Hs2 & Hman2). unfold save_version in HS.
  destruct (StableSave fs1 (versionfile_ b) (version_ b)) as [fs2'|] eqn:ES; [|done]. cbn in HS. injection HS as ->.
  assert (Hname : c_str (NewFileName (filename_ b) (Z.of_nat (length old))) = log_name b (length old)) by (by apply log_name_file).
  assert (Hz2 : contents fs2 (fd_ q) = cur.2 ++ zeros z) by (by rewrite (same_but_contents _ _ _ _ Hs2)).
  destruct (AppendWritable_holds fs2 (NewFileName (filename_ b) (Z.of_nat (length old))) (fd_ q) cur.2 z) as (f & _ & Hfd & Hh);
    [by rewrite Hname, (sb_names _ _ _ Hs2), (sb_names _ _ _ Hs1)|done|].
  exists fs2, (set_queue b (Some f)). split; [done|]. split; [|done]. constructor; try done.
  - apply (holds_files_at _ b); [done..|]. apply (holds_files_save fs1); try done. rewrite length_app. simpl. lia.
  - by exists f.
  - rewrite (sb_names _ _ _ Hs2), (sb_names _ _ _ Hs1). unfold log_fd. cbn. by rewrite Hfd.
  - apply (Hman2 (version_ b)). apply (manifest_frame fs fs1 b); try done.
    + by rewrite (same_but_contents _ _ _ _ Hs1) by (by apply not_eq_sym).
    + intros p _. by rewrite (sb_names _ _ _ Hs1).
Qed.

End Open.
