(* ===== verification/Replication.v ===== *)
(** * Replication through the log

    A master that puts commands into its log, stops and starts again, and a
    reader that follows it, as a state machine: in every reachable state what the
    reader has got is the beginning of what was put, the log takes every item
    there is room for, and the next item is there to be got. *)

From S2P Require Import Prelude Numbers KeyFormat Protocol RedisParser ParserSpec Transverter Env EnvSpec Binlog BinlogSpec BinlogLog BinlogGet.
Open Scope Z_scope.

(** ** The log grows under a reader *)

Lemma log_items_split files k (f : logfile) :
  files !! k = Some f -> log_items files = log_items (take k files) ++ f.1 ++ log_items (drop (S k) files).
Proof.
  intros Hk. rewrite <- (take_drop_middle files k f Hk) at 1. unfold log_items. by rewrite fmap_app, concat_app.
Qed.

Lemma rd_inv_grows fs b files fs' b' files' new r todo :
  rd_inv fs b files r todo -> holds_files fs' b' files' -> grows files files' new -> names fs ⊆ names fs' ->
  filename_ b' = filename_ b -> rd_inv fs' b' files' r (todo ++ new).
Proof.
  intros (k & f & fd & td & tr & rest & [Hk Ht (dn & Hdn & Hd) Hg Hn _ Hrd Hnum Hlg Htd]) Hh Hgr Hsub Hfile.
  destruct (gr_file _ _ _ Hgr k f Hk) as (items & text & Hk' & Hg').
  destruct (hf_file _ _ _ Hh k _ Hk') as (fd' & z & Hn' & Hc' & _).
  assert (Hname : log_name b' k = log_name b k) by (unfold log_name; by rewrite Hfile).
  assert (fd' = fd) as -> by (rewrite Hname, (lookup_weaken _ _ _ _ Hn Hsub) in Hn'; by injection Hn').
  exists k, (f.1 ++ items, f.2 ++ text), fd, td, (tr ++ text), (rest ++ items). constructor; try done.
  - cbn. by rewrite Ht, app_assoc.
  - exists dn. cbn. by rewrite Hdn, app_assoc.
  - apply logged_app; [done|]. rewrite Ht, length_app, Nat2Z.inj_add in Hg'. done.
  - by exists z.
  - pose proof (gr_items _ _ _ Hgr) as E. rewrite (log_items_split files k f Hk), (log_items_split files' k _ Hk') in E.
    rewrite (gr_before _ _ _ Hgr) in E by (by eapply lookup_lt_Some). cbn [fst] in E. rewrite Hdn, <- !app_assoc in E.
    rewrite Htd, <- !app_assoc. do 2 apply app_inv_head in E. symmetry. exact E.
Qed.

(** ** Items and contents *)

Definition is_item (i : Z) (content item : bytes) : Prop :=
  exists t term file off, fields_ok t term i file off /\ is_u32 (len content) /\
    item = BinlogEncode TypeFirst t term i file off content.

(** The contents, numbered from [i] on. *)
Fixpoint written (i : Z) (contents items : list bytes) : Prop :=
  match contents, items with
  | [], [] => True
  | c :: contents, item :: items => is_item i c item /\ written (i + 1) contents items
  | _, _ => False
  end.

Lemma written_length contents : forall i items, written i contents items -> length items = length contents.
Proof. induction contents as [|c contents IH]; intros i [|item items] Hw; try done. simpl. f_equal. by eapply IH, Hw. Qed.

Lemma written_snoc contents : forall i items c item,
  written i contents items -> is_item (i + Z.of_nat (length contents)) c item -> written i (contents ++ [c]) (items ++ [item]).
Proof.
  induction contents as [|c' contents IH]; intros i [|item' items] c item Hw Hi; try done.
  - simpl in *. by rewrite Z.add_0_r in Hi.
  - destruct Hw as [H1 H2]. split; [done|]. apply IH; [done|]. simpl in Hi.
    by replace (i + 1 + Z.of_nat (length contents)) with (i + Z.of_nat (S (length contents))) by lia.
Qed.

Lemma written_split : forall items1 i contents items2, written i contents (items1 ++ items2) ->
  exists c1 c2, contents = c1 ++ c2 /\ written i c1 items1 /\ written (i + Z.of_nat (length items1)) c2 items2.
Proof.
  induction items1 as [|item items1 IH]; intros i contents items2 Hw.
  - exists [], contents. simpl. by rewrite Z.add_0_r.
  - destruct contents as [|c contents]; [done|]. destruct Hw as [H1 H2].
    destruct (IH _ _ _ H2) as (c1 & c2 & -> & W1 & W2). exists (c :: c1), c2. split; [done|]. split; [done|].
    simpl length. by replace (i + Z.of_nat (S (length items1))) with (i + 1 + Z.of_nat (length items1)) by lia.
Qed.

(** ** Master and reader *)

Record sys := mkSys {
  s_files : FS;
  s_log : Binlog;
  s_reader : PikaBinlogReader;
  s_put : list bytes;
  s_got : list bytes
}.

Section Replication.
Context `{L : PosixLaws}.
Context (path : bytes) (file_size : Z).

(** What the follower makes of an item (an empty one only keeps the connection
    alive): it checks the fields and takes what follows them. *)
Definition follow (binlog : bytes) : option (BinlogItem * bytes) :=
  '(ok, item) ← BinlogItemWithoutContentDecode TypeFirst binlog BinlogItem_new;
  if ok : bool then Some (item, drop (Z.to_nat BINLOG_ENCODE_LEN) binlog) else None.

(** The master puts an item; the reader gets one, or is at the end; the master
    starts again, from what is on the disk, and the reader is placed where it
    was. *)
Inductive sys_step : sys -> sys -> Prop :=
  | do_put s now content fs b :
      room (s_log s) content -> Z.of_nat (length (s_put s)) + 1 < 2 ^ 32 ->
      Put (s_files s) (s_log s) now content = Some (POk, fs, b) ->
      sys_step s (mkSys fs b (s_reader s) (s_put s ++ [content]) (s_got s))
  | do_get s binlog r out item content :
      Get (s_files s) (s_log s) (s_reader s) [] (0, 0) = Some (POk, binlog, r, out) ->
      follow binlog = Some (item, content) ->
      sys_step s (mkSys (s_files s) (s_log s) r (s_put s) (s_got s ++ [content]))
  | do_end s scratch r out :
      Get (s_files s) (s_log s) (s_reader s) [] (0, 0) = Some (PEndFile, scratch, r, out) ->
      sys_step s (mkSys (s_files s) (s_log s) r (s_put s) (s_got s))
  | do_restart s fs b r :
      Binlog_new (s_files s) path file_size = Some (fs, b) ->
      Seek fs b PikaBinlogReader_new (cur_filenum_ (s_reader s)) (cur_offset_ (s_reader s)) = Some (0, r) ->
      sys_step s (mkSys fs b r (s_put s) (s_got s))
  | do_close s fs fs' b r :
      Binlog_destroy (s_files s) (s_log s) = Some fs -> Binlog_new fs path file_size = Some (fs', b) ->
      Seek fs' b PikaBinlogReader_new (cur_filenum_ (s_reader s)) (cur_offset_ (s_reader s)) = Some (0, r) ->
      sys_step s (mkSys fs' b r (s_put s) (s_got s)).

(** A log where there was none, and a reader at its start. *)
Inductive sys_init : sys -> Prop :=
  | init fs fs' b r :
      no_log fs path -> Binlog_new fs path file_size = Some (fs', b) -> Seek fs' b PikaBinlogReader_new 0 0 = Some (0, r) ->
      sys_init (mkSys fs' b r [] []).

Record sys_inv (s : sys) (old : list logfile) (cur : logfile) (taken todo : list bytes) : Prop := {
  sv_log : log_inv (s_files s) (s_log s) old cur;
  sv_reader : rd_inv (s_files s) (s_log s) (old ++ [cur]) (s_reader s) todo;
  sv_items : log_items (old ++ [cur]) = taken ++ todo;
  sv_written : written 1 (s_put s) (log_items (old ++ [cur]));
  sv_got : written 1 (s_got s) taken;
  sv_count : (length old <= length (s_put s))%nat;
  sv_puts : Z.of_nat (length (s_put s)) < 2 ^ 32;
  sv_index : ver_logic_id (version_ (s_log s)) = Z.of_nat (length (s_put s));
  sv_path : filename_ (s_log s) = path ++ kBinlogPrefix;
  sv_size : file_size_ (s_log s) = file_size
}.

Lemma follow_item i c item : is_item i c item ->
  exists bi, follow item = Some (bi, c) /\ logic_id_ bi = i /\
    BinlogDecode TypeFirst item BinlogItem_new = Some (true, mkBinlogItem (exec_time_ bi) (term_id_ bi) i (filenum_ bi) (offset_ bi) c).
Proof.
  intros (t & term & file & off & Hf & Hc & ->).
  destruct (BinlogDecode_encode t term i file off c BinlogItem_new Hf Hc) as (HD & HW & Hd).
  unfold follow. rewrite HW. cbn [mbind option_bind]. rewrite Hd. by eexists.
Qed.

(** A reader at the place the old one had reached. *)
Lemma Seek_resume fs b files r todo fs' b' old cur r0 :
  rd_inv fs b files r todo -> files = old ++ [cur] -> log_inv fs' b' old cur ->
  exists r', Seek fs' b' r0 (cur_filenum_ r) (cur_offset_ r) = Some (0, r') /\ rd_inv fs' b' files r' todo.
Proof.
  intros (k & f & fd & td & tr & rest & [Hk Ht (dn & Hdn & Hd) Hg Hn _ Hrd Hnum Hlg ->]) -> HI.
  rewrite Hnum, (rs_offset _ _ _ Hrd). by eapply Seek_item.
Qed.

Hypothesis Hpath : path_ok (path ++ kBinlogPrefix).
Hypothesis Hsize : 0 <= file_size < 2 ^ 31.

Lemma sys_init_inv s : sys_init s -> exists old cur, sys_inv s old cur [] [].
Proof.
  intros [fs fs' b r Hno HB HS]. destruct (Binlog_new_ok fs path file_size Hno Hpath Hsize) as (fs1 & b1 & HB1 & HI & Hv & Hs & Hf).
  rewrite HB in HB1. injection HB1 as <- <-. destruct (Seek_first fs' b [] ([], []) PikaBinlogReader_new HI) as (r1 & HS1 & Hr).
  rewrite HS in HS1. injection HS1 as <-. exists [], ([], []). constructor; cbn [s_files s_log s_reader s_put s_got]; try done. by rewrite Hv.
Qed.

Lemma put_is_item fs b old cur now content n :
  log_inv fs b old cur -> room b content -> ver_logic_id (version_ b) = Z.of_nat n -> Z.of_nat n < 2 ^ 32 ->
  is_item (1 + Z.of_nat n) content (put_item b now content).
Proof.
  intros HI Hroom Hid Hn. destruct HI as [_ _ Hsz Hcn _ _ _ Hpn [Hv1 Hv2] [_ Ht] _ Hbd].
  assert (Hb : len cur.2 < 2 ^ 31) by (apply Forall_app in Hbd as [_ Hx]; by inversion Hx).
  exists (u32 now), (ver_term (version_ b)), (ver_pro_num (version_ b)), (ver_pro_offset (version_ b)).
  unfold put_item. rewrite Hid, u64_id by (unfold is_u64; lia). rewrite (Z.add_comm (Z.of_nat n)).
  split; [|split; [|done]].
  - constructor; [apply u32_range|done|unfold is_u64; lia|rewrite Hv1, Hpn; unfold is_u32; lia|rewrite Hv2; unfold is_u64; lia].
  - unfold room in Hroom. unfold is_u32. lia.
Qed.

Lemma sys_step_inv s s' old cur taken todo :
  sys_step s s' -> sys_inv s old cur taken todo -> exists old' cur' taken' todo', sys_inv s' old' cur' taken' todo'.
Proof.
  intros Hstep [HI HR Hit Hw Hg Hc Hp Hid Hpa Hs].
  destruct Hstep as [s now content fs b Hroom Hn HP|s binlog r out item content HG HF|s scratch r out HG|s fs b r HB HS|s fs fs' b r HD HB HS].
  - destruct (Put_ok (s_files s) (s_log s) now content old cur HI Hroom ltac:(lia))
      as (fs1 & b1 & old' & cur' & HP1 & HI' & Hgr & Hsub & Hlen & Hv1 & Hv2 & Hf & Hsz).
    rewrite HP in HP1. injection HP1 as <- <-. pose proof (gr_items _ _ _ Hgr) as Egr.
    exists old', cur', taken, (todo ++ [put_item (s_log s) now content]). constructor; cbn [s_files s_log s_reader s_put s_got]; try done; try congruence.
    + eapply rd_inv_grows; try done. apply HI'.
    + by rewrite Egr, Hit, <- app_assoc.
    + rewrite Egr. apply written_snoc; [done|]. by eapply put_is_item.
    + rewrite length_app. simpl. lia.
    + rewrite length_app. simpl. lia.
    + rewrite Hv1, Hid, u64_id by (unfold is_u64; lia). rewrite length_app. simpl. lia.
  - pose proof (Get_step (s_files s) (s_log s) old cur (s_reader s) todo [] (0, 0) HI HR) as HGS. rewrite HG in HGS.
    unfold get_result in HGS. destruct todo as [|x todo]; [by destruct HGS as (? & ? & ? & _)|].
    destruct HGS as (r1 & E & HR1). injection E as -> -> _. rewrite Hit in Hw.
    exists old, cur, (taken ++ [x]), todo. constructor; cbn [s_files s_log s_reader s_put s_got]; try done.
    + by rewrite Hit, <- app_assoc.
    + by rewrite Hit.
    + destruct (written_split _ _ _ _ Hw) as (c1 & c2 & _ & _ & W2). destruct c2 as [|c c2]; [done|]. destruct W2 as [Hx _].
      destruct (follow_item _ _ _ Hx) as (bi & HF1 & _). rewrite HF in HF1. injection HF1 as _ ->.
      apply written_snoc; [done|]. by rewrite <- (written_length _ _ _ Hg).
  - pose proof (Get_step (s_files s) (s_log s) old cur (s_reader s) todo [] (0, 0) HI HR) as HGS. rewrite HG in HGS.
    unfold get_result in HGS. destruct todo as [|x todo]; [|by destruct HGS as (? & ? & _)].
    destruct HGS as (r1 & out1 & E & HR1). injection E as _ -> _. by exists old, cur, taken, [].
  - destruct (Binlog_found _ _ old cur path file_size HI Hpa Hsize) as (fs1 & b1 & HB1 & HI1 & Hv & Hs1 & Hf).
    rewrite HB in HB1. injection HB1 as <- <-.
    destruct (Seek_resume _ _ _ _ _ fs b old cur PikaBinlogReader_new HR eq_refl HI1) as (r1 & HS1 & HR1).
    rewrite HS in HS1. injection HS1 as <-. exists old, cur, taken, todo. constructor; cbn [s_files s_log s_reader s_put s_got]; try done; congruence.
  - destruct (Binlog_destroy_ok _ _ old cur HI) as (fs0 & b0 & HD0 & HI0 & Hv0 & Hf0). rewrite HD in HD0. injection HD0 as <-.
    destruct (Binlog_found _ _ old cur path file_size HI0 ltac:(congruence) Hsize) as (fs1 & b1 & HB1 & HI1 & Hv & Hs1 & Hf).
    rewrite HB in HB1. injection HB1 as <- <-.
    destruct (Seek_resume _ _ _ _ _ fs' b old cur PikaBinlogReader_new HR eq_refl HI1) as (r1 & HS1 & HR1).
    rewrite HS in HS1. injection HS1 as <-. exists old, cur, taken, todo. constructor; cbn [s_files s_log s_reader s_put s_got]; try done; congruence.
Qed.

Lemma sys_reach_inv s0 s : sys_init s0 -> rtc sys_step s0 s -> exists old cur taken todo, sys_inv s old cur taken todo.
Proof.
  intros Hi Hr. destruct (sys_init_inv s0 Hi) as (old & cur & H0).
  assert (HE : exists old cur taken todo, sys_inv s0 old cur taken todo) by (by exists old, cur, [], []). clear old cur H0 Hi.
  induction Hr as [s|s1 s2 s3 Hst Hr IH]; [done|]. destruct HE as (old & cur & taken & todo & HE).
  apply IH. by eapply sys_step_inv.
Qed.

(** What the reader finds next. *)
Definition next_get (s : sys) (rest : list bytes) : Prop :=
  match rest with
  | [] => exists r out, Get (s_files s) (s_log s) (s_reader s) [] (0, 0) = Some (PEndFile, [], r, out)
  | content :: _ => exists binlog r out item,
      Get (s_files s) (s_log s) (s_reader s) [] (0, 0) = Some (POk, binlog, r, out) /\
      follow binlog = Some (item, content) /\ logic_id_ item = Z.of_nat (length (s_got s)) + 1
  end.

Lemma sys_facts s0 s : sys_init s0 -> rtc sys_step s0 s ->
  (exists rest, s_put s = s_got s ++ rest /\ next_get s rest) /\
  (forall now content, room (s_log s) content -> Z.of_nat (length (s_put s)) + 1 < 2 ^ 32 ->
     exists fs b, Put (s_files s) (s_log s) now content = Some (POk, fs, b)) /\
  (exists fs b r, Binlog_new (s_files s) path file_size = Some (fs, b) /\
     Seek fs b PikaBinlogReader_new (cur_filenum_ (s_reader s)) (cur_offset_ (s_reader s)) = Some (0, r)).
Proof.
  intros Hi Hr. destruct (sys_reach_inv s0 s Hi Hr) as (old & cur & taken & todo & [HI HR Hit Hw Hg Hc Hp Hid Hpa Hs]).
  split; [|split].
  - rewrite Hit in Hw. destruct (written_split _ _ _ _ Hw) as (c1 & c2 & E & W1 & W2). exists c2.
    assert (Eg : c1 = s_got s).
    { clear - W1 Hg. revert W1 Hg. generalize 1 (s_got s) c1. induction taken as [|x taken IH]; intros i [|g gs] [|c cs] W1 Hg; try done.
      destruct W1 as [H1 W1], Hg as [H2 Hg]. f_equal; [|by eapply IH].
      destruct (follow_item _ _ _ H1) as (? & F1 & _), (follow_item _ _ _ H2) as (? & F2 & _). congruence. }
    subst c1. split; [done|]. pose proof (Get_step (s_files s) (s_log s) old cur (s_reader s) todo [] (0, 0) HI HR) as HGS.
    unfold get_result in HGS. unfold next_get. destruct todo as [|x todo], c2 as [|c c2]; try done.
    + destruct HGS as (r & out & -> & _). by eexists _, _.
    + destruct HGS as (r & -> & _), W2 as [Hx _]. destruct (follow_item _ _ _ Hx) as (bi & HF & Hl & _).
      eexists _, _, _, bi. split; [done|]. split; [done|]. rewrite Hl, (written_length _ _ _ Hg). lia.
  - intros now content Hroom Hn. destruct (Put_ok (s_files s) (s_log s) now content old cur HI Hroom ltac:(lia)) as (fs1 & b1 & ? & ? & HP & _).
    by exists fs1, b1.
  - destruct (Binlog_found _ _ old cur path file_size HI Hpa Hsize) as (fs1 & b1 & HB1 & HI1 & _).
    destruct (Seek_resume _ _ _ _ _ fs1 b1 old cur PikaBinlogReader_new HR eq_refl HI1) as (r1 & HS1 & _). by exists fs1, b1, r1.
Qed.

(** The texts of commands, followed, are the commands again. *)
Lemma follow_commands {U : Uninit} s0 s cmds texts r scratch out :
  sys_init s0 -> rtc sys_step s0 s -> Forall cmd_ok cmds -> mapM ToRedisProtocol cmds = Some texts -> s_put s = texts ->
  fits_int (concat texts) ->
  Get (s_files s) (s_log s) (s_reader s) [] (0, 0) = Some (PEndFile, scratch, r, out) ->
  exists p, feed fresh_parser (s_got s) = Some p /\ data p = (cmds, cmds).
Proof.
  intros Hi Hr HF Ht Hput Hfit HG. destruct (sys_facts s0 s Hi Hr) as ((rest & E & Hn) & _).
  destruct rest as [|c rest]; [|destruct Hn as (? & ? & ? & ? & HG' & _); congruence]. rewrite app_nil_r in E.
  exists (idle_parser cmds). rewrite <- E, Hput. split; [|done].
  by apply (commands_fed cmds texts texts HF Ht eq_refl (texts_nonempty cmds texts HF Ht)).
Qed.

End Replication.

(** ** Theorems *)

(** C4: In every state a master and its reader can reach, by puts, gets and
    restarts with or without a clean end, what the reader has got is the
    beginning of what was put, in order, without loss and without repetition; its
    next [Get] yields exactly the next item, with the next index, or the end when
    there is none; every item there is room for can be put, and a restart finds
    the log and the place of the reader again. *)
Theorem reader_follows_log `{L : PosixLaws} path file_size s0 s :
  path_ok (path ++ kBinlogPrefix) -> 0 <= file_size < 2 ^ 31 -> sys_init path file_size s0 ->
  rtc (sys_step path file_size) s0 s ->
  (exists rest, s_put s = s_got s ++ rest /\ next_get s rest) /\
  (forall now content, room (s_log s) content -> Z.of_nat (length (s_put s)) + 1 < 2 ^ 32 ->
     exists fs b, Put (s_files s) (s_log s) now content = Some (POk, fs, b)) /\
  (exists fs b r, Binlog_new (s_files s) path file_size = Some (fs, b) /\
     Seek fs b PikaBinlogReader_new (cur_filenum_ (s_reader s)) (cur_offset_ (s_reader s)) = Some (0, r)).
Proof. intros Hp Hs. by apply sys_facts. Qed.

(** C5: Commands that a master writes to its log in the protocol form, in
    whatever order puts, gets and restarts happen, are what the parser of a
    follower hands over when the follower has reached the end: the same commands,
    each once, in order. *)
Theorem commands_replicated `{L : PosixLaws} `{U : Uninit} path file_size s0 s cmds texts r scratch out :
  path_ok (path ++ kBinlogPrefix) -> 0 <= file_size < 2 ^ 31 -> sys_init path file_size s0 ->
  rtc (sys_step path file_size) s0 s -> Forall cmd_ok cmds -> mapM ToRedisProtocol cmds = Some texts ->
  s_put s = texts -> fits_int (concat texts) ->
  Get (s_files s) (s_log s) (s_reader s) [] (0, 0) = Some (PEndFile, scratch, r, out) ->
  exists p, feed fresh_parser (s_got s) = Some p /\ data p = (cmds, cmds).
Proof. intros Hp Hs. by apply follow_commands. Qed.

(** ** An instance *)

(** A system in which every call succeeds, with pages of 4 KB. *)
Definition quiet_posix : Posix :=
  Build_Posix 4096 (fun _ _ => true) (fun _ _ _ _ => true) (fun _ _ _ _ => true) (fun _ _ => true) (fun _ _ => true)
    (fun _ _ => true) (fun _ _ _ => true) (fun _ _ => true).

Lemma quiet_laws : @PosixLaws quiet_posix.
Proof. by constructor. Qed.

Definition a_path : bytes := lit "/var/log/db0/".

Lemma a_path_ok : path_ok (a_path ++ kBinlogPrefix).
Proof. split; [|vm_compute; lia]. by apply (bool_decide_eq_false (x00 ∈ a_path ++ kBinlogPrefix)). Qed.

Lemma nothing_there : no_log (mkFS ∅ ∅) a_path.
Proof. constructor; try done; intros; by rewrite lookup_empty in *. Qed.

(** One command put, and got. *)
Lemma one_put (content : bytes) : Z.of_nat (length content) < 1000 ->
  exists s0 s1 s2, sys_init (H := quiet_posix) a_path 1000 s0 /\
    rtc (sys_step (H := quiet_posix) a_path 1000) s0 s1 /\ s_put s1 = [content] /\ s_got s1 = [] /\
    rtc (sys_step (H := quiet_posix) a_path 1000) s0 s2 /\ s_put s2 = [content] /\ s_got s2 = [content].
Proof.
  intros Hl. pose proof quiet_laws as LW.
  destruct (Binlog_new_ok (H := quiet_posix) (mkFS ∅ ∅) a_path 1000 nothing_there a_path_ok ltac:(lia))
    as (fs & b & HB & HI & Hv & Hs & Hf).
  destruct (Seek_first (H := quiet_posix) fs b [] ([], []) PikaBinlogReader_new HI) as (r & HS & HR).
  assert (Hroom : room b content) by (unfold room; rewrite Hs; lia).
  destruct (Put_ok (H := quiet_posix) fs b 7 content [] ([], []) HI Hroom ltac:(simpl; lia)) as (fs1 & b1 & old & cur & HP & _).
  assert (Hi : sys_init (H := quiet_posix) a_path 1000 (mkSys fs b r [] [])) by (by apply (init (H := quiet_posix) a_path 1000 (mkFS ∅ ∅))).
  assert (Hst : rtc (sys_step (H := quiet_posix) a_path 1000) (mkSys fs b r [] []) (mkSys fs1 b1 r [content] [])).
  { apply rtc_once. by apply (do_put (H := quiet_posix) a_path 1000 (mkSys fs b r [] []) 7 content). }
  destruct (sys_facts (H := quiet_posix) a_path 1000 a_path_ok ltac:(lia) _ _ Hi Hst) as ((rest & E & Hn) & _).
  simpl in E. subst rest. destruct Hn as (binlog & r1 & out & item & HG & HF & _).
  eexists _, _, (mkSys fs1 b1 r1 [content] [content]). split; [done|]. split; [done|]. split; [done|]. split; [done|].
  split; [|done]. eapply rtc_r; [done|]. by apply (do_get (H := quiet_posix) a_path 1000 (mkSys fs1 b1 r [content] []) binlog r1 out item).
Qed.

Lemma reader_follows_log_witness :
  exists s, s_put s = [lit "x"] /\ s_got s = [] /\
    (exists rest, s_put s = s_got s ++ rest /\ next_get (H := quiet_posix) s rest) /\
    (forall now content, room (s_log s) content -> Z.of_nat (length (s_put s)) + 1 < 2 ^ 32 ->
       exists fs b, Put (H := quiet_posix) (s_files s) (s_log s) now content = Some (POk, fs, b)) /\
    (exists fs b r, Binlog_new (H := quiet_posix) (s_files s) a_path 1000 = Some (fs, b) /\
       Seek (H := quiet_posix) fs b PikaBinlogReader_new (cur_filenum_ (s_reader s)) (cur_offset_ (s_reader s)) = Some (0, r)).
Proof.
  destruct (one_put (lit "x") ltac:(simpl; lia)) as (s0 & s1 & s2 & Hi & Hst & Hp & Hg & _).
  exists s1. split; [done|]. split; [done|].
  refine (@reader_follows_log quiet_posix quiet_laws a_path 1000 s0 s1 a_path_ok _ Hi Hst). lia.
Defined.

Lemma commands_replicated_witness :
  exists s p, s_put s = multibulk <$> [[lit "PING"]] /\ feed fresh_parser (s_got s) = Some p /\
    data p = ([[lit "PING"]], [[lit "PING"]]).
Proof.
  destruct (one_put (multibulk [lit "PING"]) ltac:(by vm_compute)) as (s0 & s1 & s2 & Hi & _ & _ & _ & Hst & Hp & Hg).
  assert (HG : exists r scratch out, Get (H := quiet_posix) (s_files s2) (s_log s2) (s_reader s2) [] (0, 0) = Some (PEndFile, scratch, r, out)).
  { destruct (sys_facts (H := quiet_posix) (L := quiet_laws) a_path 1000 a_path_ok ltac:(lia) s0 s2 Hi Hst) as ((rest & E & Hn) & _).
    rewrite Hp, Hg in E. destruct rest; [|discriminate]. destruct Hn as (r & out & HG). by exists r, [], out. }
  destruct HG as (r & scratch & out & HG). exists s2.
  destruct (@commands_replicated quiet_posix quiet_laws uninit_cc a_path 1000 s0 s2 [[lit "PING"]] (multibulk <$> [[lit "PING"]]) r scratch out
    a_path_ok ltac:(lia) Hi Hst) as (p & Hf & Hd).
  - repeat constructor; (done || vm_compute; done).
  - by vm_compute.
  - done.
  - by vm_compute.
  - done.
  - by exists p.
Defined.
