(* ===== verification/BinlogPad.v ===== *)
(** * Logs that start in the middle

    A follower that has copied the data of its master sets its log to the
    master's place: [SetProducerStatus] fills the file up to there with records
    marked bad.  What the log and a reader make of them, and what a master writes
    when its file is full. *)

From S2P Require Import Prelude Numbers Transverter Env EnvSpec Binlog BinlogSpec BinlogLog BinlogGet Replication.
Open Scope Z_scope.

(** Blocks of padding, the last one shorter. *)
Inductive padded : Z -> bytes -> Prop :=
  | padded_nil : padded 0 []
  | padded_last now n : kHeaderSize <= n < kBlockSize ->
      padded n (record_header (n - kHeaderSize) now kBadRecord ++ replicate (Z.to_nat (n - kHeaderSize)) "*"%byte)
  | padded_block now n text : padded n text ->
      padded (kBlockSize + n) (record_header (kBlockSize - kHeaderSize) now kBadRecord ++
        replicate (Z.to_nat (kBlockSize - kHeaderSize)) "*"%byte ++ text).

Lemma padded_length n text : padded n text -> len text = n.
Proof.
  induction 1 as [|now n Hn|now n text Hp IH]; [done|..]; rewrite !length_app, length_header, length_replicate;
    unfold kHeaderSize, kBlockSize in *; lia.
Qed.

(** The last block of padding, after the whole ones. *)
Lemma padded_tail n text : padded n text ->
  exists pre last, text = pre ++ last /\ len pre = n / kBlockSize * kBlockSize /\ padded (n mod kBlockSize) last.
Proof.
  induction 1 as [|now n Hn|now n text Hp (pre & last & -> & Hl & Hpl)].
  - exists [], []. repeat split. constructor.
  - exists []. eexists. unfold kHeaderSize in *. rewrite Z.div_small, Z.mod_small by lia. split; [done|]. split; [done|]. by constructor.
  - exists (record_header (kBlockSize - kHeaderSize) now kBadRecord ++ replicate (Z.to_nat (kBlockSize - kHeaderSize)) "*"%byte ++ pre), last.
    split; [by rewrite <- !app_assoc|]. replace (kBlockSize + n) with (n + 1 * kBlockSize) by lia.
    rewrite Z.div_add, Z_mod_plus_full by done. split; [|done].
    rewrite !length_app, length_header, length_replicate. unfold kHeaderSize, kBlockSize in *. lia.
Qed.

(** Padding starts with a record. *)
Lemma bad_first n text : padded n text -> kHeaderSize < n ->
  exists now body rest, text = record_header (len body) now kBadRecord ++ body ++ rest /\ body <> [] /\ len body <= kBlockSize - kHeaderSize.
Proof.
  assert (Hx : forall k, 0 < k -> len (replicate (Z.to_nat k) "*"%byte) = k /\ replicate (Z.to_nat k) "*"%byte <> []).
  { intros k Hk. assert (E : len (replicate (Z.to_nat k) "*"%byte) = k) by (rewrite length_replicate; lia). split; [done|].
    intros En. rewrite En in E. simpl in E. lia. }
  intros [|now m Hm|now m rest Hp] Hn; [done|..].
  - destruct (Hx (m - kHeaderSize) ltac:(lia)) as [E Hne]. exists now, (replicate (Z.to_nat (m - kHeaderSize)) "*"%byte), [].
    rewrite E, app_nil_r. split; [done|]. split; [done|lia].
  - destruct (Hx (kBlockSize - kHeaderSize) ltac:(done)) as [E Hne].
    exists now, (replicate (Z.to_nat (kBlockSize - kHeaderSize)) "*"%byte), rest. rewrite E. split; [done|]. split; [done|lia].
Qed.

(** [GetNext] goes over one record of padding. *)
Lemma GetNext_bad fuel fs fd pre now body post off :
  contents fs fd = pre ++ record_header (len body) now kBadRecord ++ body ++ post -> len body <= kBlockSize - kHeaderSize ->
  exists q, GetNext (S fuel) fs (mkSequential fd (len pre)) off = Some (false, Some (off + (kHeaderSize + len body)), q).
Proof.
  intros Hc Hb. cbn [GetNext].
  pose proof (Read_data fs fd pre _ _ Hc) as HR. change (len (record_header _ _ _)) with kHeaderSize in HR. rewrite HR. clear HR.
  change (pok POk) with true. cbn [negb].
  rewrite parse_header_record by (unfold kHeaderSize, kBlockSize in *; lia). cbn [mbind option_bind].
  rewrite (proj2 (Z.ltb_ge _ _)) by lia. change (is_type kFullType (record_code kBadRecord) || _ || _) with true. cbv iota.
  rewrite (Read_data fs fd (pre ++ record_header (len body) now kBadRecord) body post) by (by rewrite <- app_assoc).
  by eexists.
Qed.

Section Pad.
Context `{L : PosixLaws}.

Lemma padding_loop_ok : forall fuel fs file now left0 data,
  mm_holds fs file data -> 0 <= left0 -> left0 <= kBlockSize * (Z.of_nat fuel - 1) ->
  exists fs' file' rest text, padding_loop fuel fs file now left0 = Some (POk, fs', file', rest) /\
    mm_holds fs' file' (data ++ text) /\ padded (left0 - rest) text /\ 0 <= rest < kHeaderSize /\ rest <= left0 /\
    same_but (fd_ file) fs fs' /\ fd_ file' = fd_ file.
Proof.
  induction fuel as [|fuel IH]; intros fs file now left0 data Hm H0 Hf; [unfold kBlockSize in *; lia|]. cbn [padding_loop].
  destruct (Z.ltb_spec 0 left0) as [Hp|Hp]; cbn [negb].
  2: { exists fs, file, left0, []. rewrite app_nil_r. replace (left0 - left0) with 0 by lia. repeat split; try done; unfold kHeaderSize; lia || constructor. }
  set (size := if kBlockSize <=? left0 then kBlockSize else u32 left0).
  assert (Hsz : size = Z.min kBlockSize left0).
  { unfold size. destruct (Z.leb_spec kBlockSize left0); [lia|]. rewrite u32_id by (unfold is_u32, kBlockSize in *; lia). lia. }
  destruct (Z.ltb_spec size kHeaderSize) as [Hs|Hs].
  { exists fs, file, left0, []. rewrite app_nil_r. replace (left0 - left0) with 0 by lia.
    repeat split; try done; [constructor|]. unfold kHeaderSize, kBlockSize in *. lia. }
  destruct (Append_holds fs file data (record_header (size - kHeaderSize) now kBadRecord) Hm) as (fs1 & f1 & -> & Hm1 & Hs1 & Hf1).
  cbn [mbind option_bind]. change (pok POk) with true. cbn [negb].
  destruct (Append_holds fs1 f1 _ (replicate (Z.to_nat (size - kHeaderSize)) "*"%byte) Hm1) as (fs2 & f2 & -> & Hm2 & Hs2 & Hf2).
  cbn [mbind option_bind]. change (pok POk) with true. cbn [negb].
  destruct (IH fs2 f2 now (left0 - size) _ Hm2) as (fs' & file' & rest & text & -> & Hm' & Hpd & Hr & Hr' & Hs' & Hf');
    [lia|unfold kBlockSize, kHeaderSize in *; lia|].
  exists fs', file', rest, (record_header (size - kHeaderSize) now kBadRecord ++ replicate (Z.to_nat (size - kHeaderSize)) "*"%byte ++ text).
  rewrite <- !app_assoc in Hm'. split; [done|]. split; [done|]. split; [|split; [done|split; [lia|]]].
  - destruct (Z.leb_spec kBlockSize left0) as [Hge|Hlt].
    + replace size with kBlockSize in * by lia. replace (left0 - rest) with (kBlockSize + (left0 - kBlockSize - rest)) by lia. apply padded_block. exact Hpd.
    + replace size with left0 in * by lia. assert (rest = 0) as -> by lia. replace (left0 - left0 - 0) with 0 in Hpd by lia.
      assert (text = []) as ->. { apply padded_length in Hpd. by destruct text. }
      rewrite app_nil_r, Z.sub_0_r. constructor. lia.
  - split; [|congruence]. rewrite Hf1 in Hs2. rewrite Hf2, Hf1 in Hs'. eapply same_but_trans; [done|]. by eapply same_but_trans.
Qed.

Lemma AppendPadding_ok fs file now n :
  mm_holds fs file [] -> 0 <= n ->
  exists fs' file' off text, AppendPadding fs (Some file) now n = Some (POk, fs', Some file', off) /\
    mm_holds fs' file' text /\ padded (if n <? kHeaderSize then 0 else off) text /\
    (if n <? kHeaderSize then off = n else n - kHeaderSize < off <= n) /\ same_but (fd_ file) fs fs' /\ fd_ file' = fd_ file.
Proof.
  intros Hm Hn. unfold AppendPadding. destruct (Z.ltb_spec n kHeaderSize) as [Hl|Hl].
  - exists fs, file, n, []. repeat split; try done. constructor.
  - cbn [mbind option_bind]. pose proof (Z.div_mod n kBlockSize ltac:(done)). pose proof (Z.mod_pos_bound n kBlockSize ltac:(done)).
    pose proof (Z.div_pos n kBlockSize ltac:(lia) ltac:(done)).
    destruct (padding_loop_ok (Z.to_nat (n / kBlockSize + 2)) fs file now n [] Hm Hn) as (fs' & file' & rest & text & -> & Hm' & Hp & Hr & Hr' & Hs & Hf).
    { rewrite Z2Nat.id by lia. unfold kBlockSize in *. lia. }
    cbn [mbind option_bind]. exists fs', file', (n - rest), text. split; [done|]. split; [done|]. split; [done|]. split; [lia|done].
Qed.

(** The file of the place is a new one, and holds the padding. *)
Lemma SetProducerStatus_padded fs b old cur now num n term index :
  log_inv fs b old cur -> 0 <= n < 2 ^ 31 ->
  exists fs' b' q text off, SetProducerStatus fs b now num n term index = Some (POk, fs', b') /\
    opened_ b' = true /\ version_ b' = mkVersion num off index term /\ filename_ b' = filename_ b /\ queue_ b' = Some q /\
    mm_holds fs' q text /\ names fs' !! c_str (NewFileName (filename_ b) num) = Some (fd_ q) /\
    padded (if n <? kHeaderSize then 0 else off) text /\
    (if n <? kHeaderSize then off = (if n <? 4 then 0 else n) else n - kHeaderSize < off <= n).
Proof.
  intros HI Hn. destruct (li_queue _ _ _ _ HI) as (q0 & Hq0 & Hm0 & _). destruct (hf_manifest _ _ _ (li_files _ _ _ _ HI)) as (Hi & Hw & _).
  unfold SetProducerStatus. rewrite (li_opened _ _ _ _ HI). cbn [negb]. unfold reset_queue. rewrite Hq0.
  destruct (Close_holds fs q0 _ Hm0) as (fs1 & z & -> & _ & Hs1). cbv iota beta zeta. cbn [snd set_queue filename_].
  apply (sb_kept _ _ _ Hs1) in Hi. set (n' := if n <? 4 then 0 else n).
  set (fs2 := if FileExists fs1 _ then _ else fs1).
  assert (Hi2 : inodes fs2 = inodes fs1) by (unfold fs2; by destruct (FileExists _ _)).
  set (profile := NewFileName (filename_ b) num). set (fs3 := if FileExists fs2 profile then _ else fs2).
  assert (Hi3 : inodes fs3 = inodes fs1) by (rewrite <- Hi2; unfold fs3; by case_match).
  destruct (NewWritable_holds fs3 profile) as (fd & fs4 & q & -> & Hfd & Hnew & E4 & Hm4).
  { unfold fs3, FileExists. destruct (names fs2 !! c_str profile) eqn:E; [|by rewrite bool_decide_eq_false_2 by (by intros [? ?])].
    rewrite bool_decide_eq_true_2 by done. simpl. apply lookup_delete_eq. }
  cbn [mbind option_bind].
  destruct (AppendPadding_ok fs4 q now n' Hm4) as (fs5 & q5 & off & text & -> & Hm5 & Hp & Ho & Hs5 & Hf5); [unfold n'; destruct (n <? 4); lia|].
  cbn [mbind option_bind]. unfold save_version, StableSave. cbn [set_pro_num set_queue versionfile_]. rewrite Hw. cbn [negb mbind option_bind].
  unfold InitLogFile. cbn [set_version set_pro_num set_queue queue_ mbind option_bind].
  eexists _, _, q5, text, off. split; [done|]. do 4 (split; [done|]).
  assert (Hrw : fd_ q5 <> rw_fd (versionfile_ b)).
  { rewrite Hf5, Hfd. intros ->. rewrite Hi3 in Hnew. destruct Hi. congruence. }
  assert (En : (n' <? kHeaderSize) = (n <? kHeaderSize)) by (unfold n', kHeaderSize; destruct (Z.ltb_spec n 4); [|done]; symmetry; apply Z.ltb_lt; lia).
  rewrite En in Hp, Ho. split; [|split; [|split; [done|]]].
  - eapply mm_holds_frame; [|exact Hm5]. by eapply same_but_contents; [apply same_but_set|].
  - change (names (set_contents fs5 ?a ?c)) with (names fs5). rewrite (sb_names _ _ _ Hs5), E4, Hf5, Hfd. apply lookup_insert_eq.
  - destruct (Z.ltb_spec n kHeaderSize); [done|]. unfold n' in Ho. by rewrite (proj2 (Z.ltb_ge n 4)) in Ho by (unfold kHeaderSize in *; lia).
Qed.

(** The end of the padding is a place a reader finds. *)
Lemma Seek_padded fs b r num n text fd z :
  names fs !! c_str (NewFileName (filename_ b) num) = Some fd -> contents fs fd = text ++ zeros z -> padded n text -> n < 2 ^ 31 ->
  exists r', Seek fs b r num n = Some (0, r') /\ GetReaderStatus r' = (num, n).
Proof.
  intros Hn Hc Hp Hb. pose proof (padded_length _ _ Hp) as Hl.
  destruct (padded_tail _ _ Hp) as (pre & last & -> & Hpre & Hlast). rewrite <- app_assoc in Hc.
  unfold Seek, FileExists. rewrite Hn, bool_decide_eq_true_2 by done. cbn [negb]. rewrite (NewSequential_ok fs _ fd Hn). rewrite <- Hpre.
  pose proof (Z.div_mod n kBlockSize ltac:(done)) as Hdm. pose proof (Z.mod_pos_bound n kBlockSize ltac:(done)).
  rewrite Skip_ok by lia. cbv iota beta.
  enough (HS : exists q, seek_loop (S (Z.to_nat (n mod kBlockSize))) fs (mkSequential fd (0 + len pre)) 0 (n mod kBlockSize) = Some (Some (n mod kBlockSize), q)).
  { destruct HS as [q ->]. cbn [mbind option_bind]. eexists. split; [done|]. unfold GetReaderStatus. cbn. f_equal. lia. }
  clear Hp Hl Hdm. set (m := n mod kBlockSize) in *. clearbody m.
  inversion Hlast as [E|now k Hk E|now k text Hk E Et]; subst.
  - exists (mkSequential fd (0 + len pre)). done.
  - assert (En : Z.to_nat (m) = S (pred (Z.to_nat (m)))) by (unfold kHeaderSize in *; lia).
    rewrite En. cbn [seek_loop]. rewrite (proj2 (Z.leb_gt _ _)) by (unfold kHeaderSize in *; lia).
    set (body := replicate _ _) in *. assert (Eb : len body = m - kHeaderSize) by (unfold body; rewrite length_replicate; lia).
    rewrite Z.add_0_l. unfold read_fuel.
    destruct (GetNext_bad (length (contents fs (file_ (mkSequential fd (len pre))))) fs fd pre now body (zeros z) 0) as [q ->].
    { by rewrite Hc, Eb, <- app_assoc. } { lia. }
    cbn [mbind option_bind default]. unfold id. rewrite Eb. replace (0 + (0 + (kHeaderSize + (m - kHeaderSize)))) with (m) by lia.
    exists q. by rewrite Z.leb_refl.
  - apply padded_length in Hk. lia.
Qed.

(** In a file without records it finds no place but the start. *)
Lemma Seek_small fs b r num n fd z :
  names fs !! c_str (NewFileName (filename_ b) num) = Some fd -> contents fs fd = zeros z -> 0 < n < kHeaderSize ->
  exists r', Seek fs b r num n = Some (-1, r').
Proof.
  intros Hn Hc Hb. unfold Seek, FileExists. rewrite Hn, bool_decide_eq_true_2 by done. cbn [negb]. rewrite (NewSequential_ok fs _ fd Hn).
  rewrite (Z.div_small n), (Z.mod_small n) by (unfold kHeaderSize, kBlockSize in *; lia). rewrite Skip_ok by lia. cbv iota beta.
  assert (En : Z.to_nat n = S (pred (Z.to_nat n))) by lia. rewrite En. cbn [seek_loop]. rewrite (proj2 (Z.leb_gt _ _)) by lia.
  unfold read_fuel. cbn [GetNext]. destruct (decide (Z.of_nat z < kHeaderSize)) as [Hz|Hz].
  - destruct (Read_short fs fd (0 + 0 * kBlockSize) kHeaderSize) as (q & d & ->); [rewrite Hc; unfold zeros; rewrite length_replicate; lia|lia|done|].
    cbn. by eexists.
  - assert (Ez : contents fs fd = [] ++ zeros 8 ++ zeros (z - 8)).
    { rewrite Hc. unfold zeros. cbn [app]. rewrite <- replicate_add. f_equal. unfold kHeaderSize in Hz. lia. }
    pose proof (Read_data fs fd [] (zeros 8) (zeros (z - 8)) Ez) as HR. change (len (zeros 8)) with kHeaderSize in HR.
    change (len []) with (0 + 0 * kBlockSize) in HR. rewrite HR. cbn. by eexists.
Qed.

(** [SetProducerStatus] leaves the log at most a header short of the place
    it is given: the status it then tells is the end of a file of padding, and a
    reader can be placed there.  Only when the place is 4 to 7 bytes into a file
    (the test is against 4, a header has 8 bytes) it tells a place behind the end
    of an empty file, which no reader finds. *)
Theorem producer_status_set fs b old cur now num n term index r :
  log_inv fs b old cur -> 0 <= n < 2 ^ 31 ->
  exists fs' b' q text off r', SetProducerStatus fs b now num n term index = Some (POk, fs', b') /\
    GetProducerStatus b' = (POk, Some (num, off, term, index)) /\ queue_ b' = Some q /\ mm_holds fs' q text /\
    n - kHeaderSize < off <= n /\
    Seek fs' b' r num off = Some (if (4 <=? n) && (n <? 8) then -1 else 0, r') /\
    (if (4 <=? n) && (n <? 8) then text = [] /\ off = n else len text = off /\ GetReaderStatus r' = (num, off)).
Proof.
  intros HI Hn. destruct (SetProducerStatus_padded fs b old cur now num n term index HI Hn)
    as (fs' & b' & q & text & off & HS & Ho & Hv & Hf & Hq & Hm & Hnm & Hp & Hoff).
  assert (HG : GetProducerStatus b' = (POk, Some (num, off, term, index))) by (unfold GetProducerStatus; by rewrite Ho, Hv).
  rewrite <- Hf in Hnm. pose proof Hm as (z & [Hc _ _ _ _]).
  enough (exists r', n - kHeaderSize < off <= n /\ Seek fs' b' r num off = Some (if (4 <=? n) && (n <? 8) then -1 else 0, r') /\
    (if (4 <=? n) && (n <? 8) then text = [] /\ off = n else len text = off /\ GetReaderStatus r' = (num, off))) as (r' & H1 & H2 & H3)
    by (exists fs', b', q, text, off, r'; done).
  change kHeaderSize with 8 in *. destruct (Z.ltb_spec n 8) as [Hl|Hl].
  - assert (text = []) as -> by (apply padded_length in Hp; by destruct text).
    destruct (Z.leb_spec 4 n) as [H4|H4]; cbn [andb].
    + rewrite (proj2 (Z.ltb_ge n 4)) in Hoff by lia. subst off.
      destruct (Seek_small fs' b' r num n _ _ Hnm Hc ltac:(unfold kHeaderSize; lia)) as [r' Hr]. exists r'. repeat split; try done; lia.
    + rewrite (proj2 (Z.ltb_lt n 4)) in Hoff by lia. subst off.
      destruct (Seek_padded fs' b' r num 0 [] _ _ Hnm Hc Hp ltac:(lia)) as (r' & Hr & Hg). exists r'. repeat split; try done; lia.
  - rewrite andb_false_r. destruct (Seek_padded fs' b' r num off text _ _ Hnm Hc Hp ltac:(lia)) as (r' & Hr & Hg).
    exists r'. repeat split; try done; try lia. by apply padded_length.
Qed.

(** A reader that starts before the padding is told [OK] with an empty item,
    although the record is a bad one: [Get] answers every status of [Consume]
    but the end of the file with [OK].  The sender then decodes the fields of the
    empty item, and reads behind it. *)
Theorem padding_swallowed fs b old cur now num n term index :
  log_inv fs b old cur -> 16 <= n < 2 ^ 31 ->
  exists fs' b' r r' out, SetProducerStatus fs b now num n term index = Some (POk, fs', b') /\
    Seek fs' b' PikaBinlogReader_new num 0 = Some (0, r) /\
    Consume (consume_fuel fs' r) fs' r [] [] (0, 0) = Some (PIOError, [], r', out) /\
    Get fs' b' r [] (0, 0) = Some (POk, [], r', out) /\
    BinlogItemWithoutContentDecode TypeFirst [] BinlogItem_new = None.
Proof.
  intros HI Hn. destruct (SetProducerStatus_padded fs b old cur now num n term index HI ltac:(lia))
    as (fs' & b' & q & text & off & HS & Ho & Hv & Hf & Hq & Hm & Hnm & Hp & Hoff).
  rewrite (proj2 (Z.ltb_ge n kHeaderSize)) in Hp, Hoff by (unfold kHeaderSize; lia). rewrite <- Hf in Hnm.
  pose proof Hm as (z & [Hc _ _ _ _]).
  destruct (bad_first _ _ Hp ltac:(unfold kHeaderSize in *; lia)) as (now' & body & rest & -> & Hne & Hbl).
  set (r := mkReader num 0 0 true (Some (mkSequential (fd_ q) 0))).
  assert (Hr : Seek fs' b' PikaBinlogReader_new num 0 = Some (0, r)).
  { unfold Seek, FileExists. rewrite Hnm, bool_decide_eq_true_2 by done. cbn [negb]. by rewrite (NewSequential_ok fs' _ _ Hnm). }
  assert (Hreads : reads r (fd_ q) 0) by (constructor; try done; by left).
  rewrite <- !app_assoc in Hc.
  destruct (Read_record fs' r (fd_ q) [] body (rest ++ zeros z) now' kBadRecord [] (0, 0) Hreads Hc Hne) as (r' & HR & _);
    [done|change (leftover (len _)) with kBlockSize; lia|done|].
  assert (HC : Consume (consume_fuel fs' r) fs' r [] [] (0, 0) = Some (PIOError, [], r', (num, 0 + (kHeaderSize + len body)))).
  { unfold consume_fuel, read_fuel. cbn [r rd_queue_ Consume]. by rewrite HR. }
  eexists fs', b', r, r', _. split; [done|]. split; [done|]. split; [exact HC|]. split; [|done].
  unfold Get. cbn [r logger_ rd_queue_]. rewrite bool_decide_eq_true_2 by done. cbn [negb orb get_loop].
  unfold ReadToTheEnd, GetProducerStatus. rewrite Ho, Hv. cbn [negb mbind option_bind ver_pro_num ver_pro_offset].
  replace ((num =? cur_filenum_ r) && (off =? cur_offset_ r)) with false
    by (rewrite (proj2 (Z.eqb_neq off _)) by (simpl; unfold kHeaderSize in *; lia); by rewrite andb_false_r).
  fold r. by rewrite HC.
Qed.
End Pad.

Lemma producer_status_set_witness :
  exists fs b, forall r, exists fs' b' r', SetProducerStatus (H := quiet_posix) fs b 7 3 6 1 5 = Some (POk, fs', b') /\
    GetProducerStatus b' = (POk, Some (3, 6, 1, 5)) /\ Seek (H := quiet_posix) fs' b' r 3 6 = Some (-1, r').
Proof.
  pose proof quiet_laws as LW.
  destruct (Binlog_new_ok (H := quiet_posix) (mkFS ∅ ∅) a_path 1000 nothing_there a_path_ok ltac:(lia)) as (fs & b & _ & HI & _).
  exists fs, b. intros r.
  destruct (@producer_status_set quiet_posix LW fs b [] ([], []) 7 3 6 1 5 r HI ltac:(lia))
    as (fs' & b' & q & text & off & r' & HS & HG & _ & _ & _ & HK & _ & ->).
  by exists fs', b', r'.
Defined.

Lemma padding_swallowed_witness :
  exists fs b fs' b' r r' out, SetProducerStatus (H := quiet_posix) fs b 7 3 100000 1 5 = Some (POk, fs', b') /\
    Seek (H := quiet_posix) fs' b' PikaBinlogReader_new 3 0 = Some (0, r) /\
    Get (H := quiet_posix) fs' b' r [] (0, 0) = Some (POk, [], r', out).
Proof.
  pose proof quiet_laws as LW.
  destruct (Binlog_new_ok (H := quiet_posix) (mkFS ∅ ∅) a_path 1000 nothing_there a_path_ok ltac:(lia)) as (fs & b & _ & HI & _).
  destruct (@padding_swallowed quiet_posix LW fs b [] ([], []) 7 3 100000 1 5 HI ltac:(lia)) as (fs' & b' & r & r' & out & HS & HK & _ & HG & _).
  by exists fs, b, fs', b', r, r', out.
Defined.
